(* ===== verification/_CoqProject ===== *)
-Q . S2P
Prelude.v
GoText.v
Retry.v
RunStoreTypes.v
RunStore.v
RunStoreOpen.v
RunStoreInv.v
RunStoreCrash.v
RunStoreAppend.v
RunStoreRecover.v
RunStoreSteps.v
RunStoreLife.v
RunStoreProps.v
RunStoreExample.v
Truncate.v
EditDiff.v
Promises.v
SessionJson.v
SessionState.v
SessionReduce.v
SessionIndex.v
SessionInv.v
SessionSim.v
SessionProps.v
SessionMain.v
PiModel.v
TransformMessages.v
TransformProps.v
SessionTree.v
Transcript.v
SessionContext.v
SessionTreeProps.v
Estimate.v
Compaction.v
CompactionCut.v
CompactionPath.v
CompactionProps.v
SessionBranch.v
BranchSummary.v
AgentModel.v
ToolState.v
AgentLoop.v
AgentRules.v
AgentPool.v
AgentTurns.v
AgentProps.v
AgentTools.v
AgentExample.v
AgentView.v
AgentState.v
AgentStateProps.v
EventStream.v
Json.v
JsonRepair.v
JsonStrings.v
JsonRepairProps.v
JsonPrefix.v
JsonStream.v
GoValue.v
Schema.v
Validation.v
ValidationProps.v
Scopes.v
ScopeInv.v
ScopeEnds.v
ScopeProps.v
Observation.v
ObservationStore.v
ObservationDelta.v
ObservationJournal.v
ObservationReaders.v
ObservationFiles.v
ObservationProps.v
Glob.v
GlobMatch.v
GlobProps.v
ReadTools.v
Search.v
Values.v
ValuesProps.v
