(* ===== verification/Prelude.v ===== *)
(** * Gimbal: a verification development of the core of the Go program

    Gimbal runs workflows of language-model agents.  A workflow process keeps
    its durable record in a run store, drives agent sessions whose tools read
    and edit files, retries failed model calls, projects the events of a
    session into the state its clients see, and reviews recorded speech into a
    ledger of promises.  This library models those parts and proves what makes
    each of them correct.  Everything is a shallow embedding: Go functions are
    Rocq functions, mutable state is passed explicitly, errors are values of
    [result] and panics are [None].

    ** Shared files

    - [Prelude]: [result] and its monad, Go's 64-bit [int] ([wrap]), the
      automation every file uses.
    - [GoText]: Go strings as lists of bytes, UTF-8 decoding, and the parts of
      the packages strings and strconv the sources call.

    ** The run store ([runstore/store.go], [runstore/directory/directory.go])

    A run is a directory of segment files of length-prefixed frames, each frame
    a batch of records.  [RunStoreTypes] has the data types, the interface
    [Codec] (JSON, SHA-256, with their laws) and the frames ([readFrame], torn
    tails); [RunStore] the operations of [run]: [validate],
    [appendLocked], [flush], [Read], [EnsureNode], [Close]; [RunStoreOpen]
    [Create], the replay in [Open], [PutBlob] and [OpenBlob].  A file is its
    contents with the number of bytes known to be on disk, a directory the
    number of entries synced; a kill keeps what is durable and any part of the
    rest.  The outcomes of system calls are arguments ([append_io],
    [flush_io], ...), so every theorem covers every failure.  [RunStoreInv],
    [RunStoreAppend], [RunStoreCrash], [RunStoreRecover] and [RunStoreSteps]
    are the invariants and lemmas; [RunStoreSteps] interleaves appends, node
    creations and the two halves of a flush as a step relation.  The theorems
    are in [RunStoreLife] (committed records are on disk, reopening after a
    kill keeps the records, a batch is stored whole or not at all),
    [RunStoreProps] (one record per unique key, append and read back,
    idempotent append, [Read], blobs) and [RunStoreTypes];
    [RunStoreExample] instantiates [Codec] and runs everything.

    ** Retrying model calls ([internal/pi/wire/retry.go])

    [Retry] has the classification of provider errors, the saturating backoff
    and the retry loop with its callbacks, against a trace specification.

    ** Tool output and edits

    [Truncate] ([internal/pi/files/truncate.go]): head, tail and line
    truncation; the results are the longest within the limits and agree with
    JavaScript's slices of UTF-16 units.  [EditDiff]
    ([internal/pi/edittools/editdiff.go]): exact and fuzzy matching of edits,
    overlap checks, replacement line by line and line endings; Unicode
    normalization (NFKC, from golang.org/x/text) is a parameter.

    ** The promise ledger ([internal/promises/promises.go])

    [Promises]: a tick of the worker ([step]) picks a recording that is due,
    sends the next at most twelve chunks to the model and saves the operations
    it answers with the new cursor.  The model's reply, the clock, the outcome
    of saving and the calls of other goroutines during the review are
    arguments; when a recording is due is read in the store the tick starts
    from; [strings.ToLower] is a parameter, because its tables are data
    and nothing depends on them.

    ** The session projection ([internal/sessionstate])

    Native events of a session are reduced into rows of JSON objects, with
    private paths that answer in constant time what the original program found
    by scanning.  [SessionJson] has the ordered objects, their encoder and
    decoder ([json.go]); [SessionState] the state and its paths ([state.go]);
    [SessionReduce] one definition per event handler and [Apply]
    ([reduce.go]).  The code's paths are pointers into the rows; the model
    keeps the place of the object instead.  [SessionIndex] describes the paths
    as a function of the rows, [SessionInv] is the invariant, [SessionSim]
    relates two projections of one state, [SessionProps] proves every handler
    and [SessionMain] has the theorems: selections are the scans they replace,
    no panic, a projection restored from a snapshot goes on the same (when its
    state has no nil slice, which a snapshot would make an empty one), streamed
    text arrives whole; also, decoding is the inverse of encoding
    to tokens, and it ends.

    ** Messages and transcripts ([internal/pi/model], [internal/pi/wire])

    [PiModel] has the content blocks and messages as Go's interfaces hold
    them: a value, a pointer that may be nil, a type declared elsewhere, or a
    nil interface, on which [MessageRole] panics.  [Transcript]
    ([transcript.go], [sections.go]) replays the system messages of a
    transcript into its prompt, sections and tools, and proves that collapsing
    them keeps what they describe.  [TransformMessages]
    ([transformmessages.go]) prepares a transcript for another model, and
    [TransformProps] shows what a provider relies on: every tool call is
    answered before the next turn, results follow the identifiers of their
    calls, nothing is lost, and a model's own transcript is left alone; the
    function that normalizes identifiers and the clock are parameters.
    [Estimate] ([estimate.go]) counts tokens.

    ** Sessions and their compaction ([internal/pi/history],
       [internal/pi/compact])

    A session is a tree of entries with a leaf.  [SessionTree]
    ([session_manager.go]) has the session in memory: index, labels, walks to
    the root, every append and edit; the drawn identifier, the clock and the
    outcome of writing the session file are the argument [Env].
    [SessionContext] ([context.go]) projects the branch of the leaf to
    messages: a compaction hides what came before its first kept entry,
    context edits replace or omit.  [SessionTreeProps] has the calls as a step
    relation and the invariant of the reachable sessions: the walk to the root
    ends, reindexing rebuilds, and what each error leaves.  [Compaction]
    ([compaction.go], [utils.go]) chooses the cut and what is summarized;
    [CompactionCut] is about the cut point, [CompactionPath] about branches
    and their edits and about what a branch projects to before and after a
    compaction, and [CompactionProps] composes the three
    components: compacting a session keeps its conversation.  [SessionBranch]
    makes a session of one branch of another ([CreateBranchedSession]; the
    order of Go's map of labels and the drawn identifiers are arguments), and
    shows that it has the entries of the branch and no others, and that its
    context is what the branch said.
    [BranchSummary] ([branch.go]) chooses what is summarized of a branch that
    is left: exactly the entries after the last common one, and the newest
    messages within the budget.

    ** The agent loop ([internal/pi/agent/loop.go])

    A run sends the transcript to the model, executes the tool calls it
    answers with and goes on until nothing is left to do.  [AgentModel] has the
    data and the effects: hooks, tools, streams, the sink of events, the
    context's cancellation and the scheduler are arbitrary functions of a world
    the loop knows nothing of (class [Runtime]); a run is a state and exception
    monad that keeps the events emitted, and whether the context was found
    cancelled: only then are calls left out.  Tools and streams are trees of
    steps, so that goroutines can be interleaved and every run ends; what the
    goroutines of a tool ask to be reported when it has returned is an effect
    of the world, and the guard of [onUpdate] keeps it out.  [ToolState]
    declares the tools of a context in its transcript; [AgentLoop] has the
    streamed answer, the guards of a call, its execution and both batches;
    turns and the loop.  [AgentRules] is a program logic (triples over
    events), with what events tell and the rules of a batch; [AgentPool] and
    [AgentTurns] have the specifications of batches, goroutines and turns.  The
    theorems are in [AgentProps] (calls are answered, the events tell the run,
    why the loop goes on), [AgentTools] (guards, panics contained, every
    interleaving of goroutines is a schedule and ends) and [ToolState];
    [AgentExample] runs the loop on a small world.  A hook that runs before a
    call can change the arguments in place; the context it is given it only
    reads: writing through that pointer is not modelled.

    ** The agent around the loop ([internal/pi/agent/agent.go])

    [AgentState] has the agent: its queues of messages, the reduction of events
    into its state, its listeners, and [Prompt] and [Continue], which run the
    loop.  The agent's data are a part of the world of the loop, so that the
    hooks that drain the queues and the sink of events are ordinary functions
    of it.  [AgentView] shows for the whole loop that a part of the world
    which only the sink changes is the fold of the events; [AgentStateProps]
    applies it: the transcript grows by the messages that ended, a run always
    ends with its last event, and what an agent refuses, and
    runs one.  Cancelling and awaiting runs from other goroutines is left out:
    a run is started on an agent that is idle or busy, and the context's
    cancellation is a function of the world.

    ** Streams of events ([internal/pi/wire/eventstream.go])

    [EventStream] has the queue between a producer and the consumers of its
    events as a step relation over critical sections: events arrive in order
    and once, the result is the first terminal event's, and no consumer waits
    on a stream that has something to say.

    ** Streamed JSON ([internal/pi/wire/jsonparse.go])

    While a model is still writing the arguments of a tool call, what has
    arrived is read anyway.  [Json] models [encoding/json]'s [Unmarshal] into
    [any] (grammar, depth, strings, numbers rounded to float64);
    [JsonRepair] has the source: [RepairJSON], [ParseStreamingJSON] and the
    parser of partial objects.  [JsonStrings] and [JsonRepairProps] are about
    string literals and the repair of texts that need none; the latter also
    shows that the parser ends within its fuel (twice the length of the text
    and two), [JsonPrefix] that a beginning of a document is read as a
    beginning of its value, and [JsonStream] composes them.

    ** Arguments of tools ([internal/pi/agent/validation.go],
       [internal/pi/model/schema.go])

    Before a tool runs, its arguments are normalized, coerced towards its
    schema and checked.  [GoValue] has the parts of strconv the sources call
    ([FormatFloat] tries every number of digits up to 17, and the shortest
    that reads back is taken; [Quote] takes what [unicode.IsPrint] says as a
    parameter), the values of type [any] with their number types,
    and [json.Marshal]; [Schema] the schemas, their constructors, their
    serialization and [Check]; [Validation] the source.  [ValidationProps]:
    arguments pass exactly when what they are coerced to conforms, and what
    conforms is left alone.  To conform is defined apart from the code; of the
    members of a union it asks for the [surface] only, as the code does.

    ** Workflow scopes ([scope.go], [group.go], [loop.go], [run.go])

    A run is a tree of scopes that own sessions, services and further scopes.
    [Scopes] has one definition for each critical section of the code, and
    their interleavings by all goroutines as a step relation; the outcomes of
    closing, stopping and cleaning up are arguments.  [ScopeInv] has the
    part of a state the end of a scope depends on and its invariant, and how
    one scope changes.  [ScopeEnds]: a scope that has ended
    released what it owned, once and in order, ending is never stuck, and it
    returns an error exactly when something it answers for failed; [ScopeProps]: messages for planners are recorded in
    order, kills reach everything below a scope, and three runs on which the
    code falls short of its comments.

    ** Observation of a run ([internal/observation])

    What the web pages show of a run is eight tables and a transcript for each
    turn.  [Observation] has their rows and the folds of lifecycle records and
    native events ([store.go], [rows.go]; transcripts are the session
    projection); [ObservationStore] the store: commits, the journal of deltas
    and its snapshots, recovery, subscriptions, and stores that follow the
    directory of another process or another environment ([durable.go],
    [subscribe.go], [follow.go], [source.go]).  What the runtime decides is the
    class [Host]: the order in which maps are ranged over and the lengths of an
    encoded frame and of a line of the journal.  [ObservationDelta] shows that the frames of a commit say
    all it did, [ObservationJournal] that the journal gives the store back,
    [ObservationReaders] that readers and followers keep up;
    [ObservationFiles] shows that queues are bounded and has the files of the
    tables ([files.go], [replay.go]).  The theorems are
    in [ObservationProps].  The journal is its lines, which decode to a delta
    or do not, and the bytes after the last line end, so that a process can
    stop, or an append fail, within a line; offsets count bytes.  Values that
    are no JSON text are left out, and so are rebuilding a directory from its
    logs and settling a run whose writer died.

    ** Globs, ignore files and the tools that read
       ([internal/pi/readtools])

    [Glob] has the globs of the tools that find and search (braces, [**],
    segments matched by [filepath.Match], which is modelled as the loop over
    chunks between stars) and the ignore stack, which reads the ignore files of
    a tree when it needs them and remembers them ([glob.go]).  [GlobMatch] says
    what patterns and braces stand for; [GlobProps] that globs decide it, and
    that an ignore stack answers by the last rule that matches, whatever was
    asked before.  [ReadTools] has the arguments of the tools, the recognition
    of images, [read] and [ls] ([args.go], [mime.go], [read.go], [ls.go]) with
    the theorem that a file is read whole page by page; [Search] has [find] and
    [grep] ([find.go], [grep.go]) as visits of a walk over a tree, with the
    theorems that they report the first results, within the limit, of what is
    visible.  What is on the disk, the tables of Unicode, the collation and
    the compiled pattern are parameters; names with a star are ASCII in the
    theorems, since the code lets a star end within a character.

    ** Values of scopes and what prompts show of them ([scope.go],
       [artifact.go])

    [Scopes] leaves open what a value is; [Values] has a scope with those
    above it, the values they hold, in memory or in files, and the files of
    the run: setting a value, which values are visible, moving them to files,
    excerpts, and the text of the scope in a prompt with its entries in the
    context.  [search_best] takes the size of the range it halves as fuel.
    [ValuesProps] shows that a prompt sees the nearest value of each key and
    keeps within its budget, that excerpts tell what they leave out, that
    entries marked complete are, that the files of different values have
    different names, and that moving a value to a file keeps what it is,
    but for null.  The tokenizer, SHA-256 and which writes succeed are
    parameters; values materialized on another machine, text templates and
    the records a file leaves in the run store are left out.

    ** Fuel and bounds

    [walk] takes one more than the size of the index, and
    [branch_reaches_root] shows that this ends every walk of a reachable
    session.  [GoText] loops take the length of their input as fuel and each iteration
    consumes a byte; [read_loop] takes the limit; replaying a segment takes
    the length of the file, since a frame is never empty; [expandBraces] takes
    one more than the number of opening braces, which every expansion lowers
    ([expandBraces_step] has the recursion without fuel); [decodeValue] takes
    twice the number of tokens, and [decode_terminates] shows it is never
    used up; the retry loop recurses on the number of attempts left.  [loop]
    takes the number of turns, and [loop_goes_on] shows that each turn had a
    reason to be followed by another.
    Integers are [Z]; where the code could overflow the wrap is written out
    (the backoff of a retry, the next promise number).

    ** Not modelled

    Adapters to other programs and services, generated code, the web client,
    the command line and process supervision, and pure I/O: the manifest lists
    each with the reason.  Session files (reading, writing and forks into
    files), the summarization requests of compactions and branch summaries,
    and the JSON codecs of messages are left out of their components.  Of the
    workflow scopes, the planner's dispatch and the recording of a run are
    left out, and so
    are the usage totals of the root package, the reading and scaling of
    images, and the resolution of the tools' paths (home directories, Unicode
    normalization of file names). *)

From Stdlib Require Export ZArith Lia Bool.
From stdpp Require Export base gmap strings option.
From stdpp Require Export list.

(** ** Results of fallible Go code *)

Inductive result (E A : Type) : Type :=
| Ok (a : A)
| Err (e : E).
Arguments Ok {E A} a.
Arguments Err {E A} e.

#[global] Instance result_ret E : MRet (result E) := fun A a => Ok a.
#[global] Instance result_bind E : MBind (result E) := fun A B k c =>
  match c with
  | Ok a => k a
  | Err e => Err e
  end.

Definition is_ok {E A} (c : result E A) : bool :=
  match c with Ok _ => true | Err _ => false end.

(** ** Machine integers

    Go's [int] is 64 bits wide on every platform the program is built for. *)

Open Scope Z_scope.

Definition wordbits : Z := 64.
Definition maxint : Z := 2 ^ 63 - 1.
Definition minint : Z := - 2 ^ 63.

(** The representative of [z] that two's-complement arithmetic keeps. *)
Definition wrap (z : Z) : Z := (z + 2 ^ 63) mod 2 ^ 64 - 2 ^ 63.

Definition in_int (z : Z) : Prop := minint <= z <= maxint.

Lemma wrap_id z : in_int z -> wrap z = z.
Proof.
  unfold in_int, wrap, minint, maxint. intros H.
  rewrite Z.mod_small; lia.
Qed.

Lemma wrap_in_int z : in_int (wrap z).
Proof.
  unfold in_int, wrap, minint, maxint.
  pose proof (Z.mod_pos_bound (z + 2 ^ 63) (2 ^ 64)). lia.
Qed.

(** ** Automation *)

Create HintDb go discriminated.
#[export] Hint Resolve wrap_in_int : go.

(** Case analysis on the scrutinee of the first [match] or [if] of the goal. *)
Ltac case_go :=
  match goal with
  | |- context [match ?x with _ => _ end] => destruct x eqn:?
  end.

(** The same on a hypothesis, dropping the branches that contradict it. *)
Ltac case_in H :=
  match type of H with
  | context [match ?x with _ => _ end] => destruct x eqn:?; try discriminate H
  end.
