(* ===== verification/GoText.v ===== *)
(** * Go strings

    A Go string is a sequence of bytes.  This file holds the operations of
    [strings], [unicode/utf8] and the [for range] loop that the modelled code
    calls, on byte lists, with the lemmas the components share. *)

From S2P Require Import Prelude.
From Stdlib Require Import Ascii.

Abbreviation text := (list ascii).

Definition lit (s : string) : text := String.list_ascii_of_string s.
Arguments lit s%_string.

Definition code (c : ascii) : Z := Z.of_N (N_of_ascii c).
Definition byte (z : Z) : ascii := ascii_of_N (Z.to_N z).

Definition newline : ascii := byte 10.
Definition cr : ascii := byte 13.

(** [len(s)] *)
Definition len {A} (s : list A) : Z := Z.of_nat (length s).

(** ** Searching *)

(** [strings.HasPrefix(s, p)] *)
Fixpoint has_prefix (p s : text) : bool :=
  match p, s with
  | [], _ => true
  | x :: p', y :: s' => Ascii.eqb x y && has_prefix p' s'
  | _ :: _, [] => false
  end.

(** [strings.HasSuffix(s, p)] *)
Definition has_suffix (p s : text) : bool := has_prefix (rev p) (rev s).

(** The offset of the first occurrence of [p] in [s]. *)
Fixpoint find_sub (p s : text) : option nat :=
  if has_prefix p s then Some 0%nat
  else match s with
       | [] => None
       | _ :: s' => S <$> find_sub p s'
       end.

(** [strings.Index(s, p)]: [-1] when [p] does not occur. *)
Definition index (s p : text) : Z :=
  match find_sub p s with
  | Some i => Z.of_nat i
  | None => -1
  end.

(** [strings.Contains(s, p)] *)
Definition contains (s p : text) : bool := match find_sub p s with Some _ => true | None => false end.

(** [strings.IndexByte(s, c)] as an option. *)
Fixpoint find_byte (c : ascii) (s : text) : option nat :=
  match s with
  | [] => None
  | x :: s' => if Ascii.eqb x c then Some 0%nat else S <$> find_byte c s'
  end.

(** ** Splitting, joining, replacing *)

(** [strings.Split(s, string(c))] for a one-byte separator: never empty. *)
Fixpoint split_byte (c : ascii) (s : text) : list text :=
  match s with
  | [] => [[]]
  | x :: s' =>
      if Ascii.eqb x c then [] :: split_byte c s'
      else match split_byte c s' with
           | [] => [[x]]
           | h :: t => (x :: h) :: t
           end
  end.

(** [strings.Join(l, sep)] *)
Fixpoint join (sep : text) (l : list text) : text :=
  match l with
  | [] => []
  | [x] => x
  | x :: l' => x ++ sep ++ join sep l'
  end.

(** [strings.ReplaceAll(s, old, new)] for a non-empty [old]: occurrences are
    taken from the left and do not overlap.  [skip] counts the bytes of the
    current occurrence still to be dropped. *)
Fixpoint replace_from (old new : text) (skip : nat) (s : text) : text :=
  match s with
  | [] => []
  | x :: s' =>
      match skip with
      | S k => replace_from old new k s'
      | O => if has_prefix old s then new ++ replace_from old new (length old - 1) s'
             else x :: replace_from old new 0 s'
      end
  end.

Definition replace_all (s old new : text) : text := replace_from old new 0 s.

(** [strings.Count(s, p)] for a non-empty [p]. *)
Fixpoint count_from (p : text) (skip : nat) (s : text) : nat :=
  match s with
  | [] => 0
  | _ :: s' =>
      match skip with
      | S k => count_from p k s'
      | O => if has_prefix p s then S (count_from p (length p - 1) s')
             else count_from p 0 s'
      end
  end%nat.

(** ** UTF-8 ([unicode/utf8]) *)

Definition rune_error : Z := 0xFFFD.

Definition in_range (lo hi z : Z) : bool := (lo <=? z) && (z <=? hi).

(** A continuation byte. *)
Definition cont (c : ascii) : bool := in_range 0x80 0xBF (code c).

(** [utf8.DecodeRuneInString(s)] of a non-empty [s], with the number of bytes
    read; a malformed sequence decodes to U+FFFD and consumes one byte. *)
Definition decode_rune (s : text) : Z * nat :=
  match s with
  | [] => (rune_error, 0%nat)
  | c0 :: r =>
      let b0 := code c0 in
      if b0 <? 0x80 then (b0, 1%nat)
      else if in_range 0xC2 0xDF b0 then
        match r with
        | c1 :: _ => if cont c1 then ((b0 - 0xC0) * 64 + (code c1 - 0x80), 2%nat) else (rune_error, 1%nat)
        | _ => (rune_error, 1%nat)
        end
      else if in_range 0xE0 0xEF b0 then
        match r with
        | c1 :: c2 :: _ =>
            let lo := if b0 =? 0xE0 then 0xA0 else 0x80 in
            let hi := if b0 =? 0xED then 0x9F else 0xBF in
            if in_range lo hi (code c1) && cont c2
            then ((b0 - 0xE0) * 4096 + (code c1 - 0x80) * 64 + (code c2 - 0x80), 3%nat)
            else (rune_error, 1%nat)
        | _ => (rune_error, 1%nat)
        end
      else if in_range 0xF0 0xF4 b0 then
        match r with
        | c1 :: c2 :: c3 :: _ =>
            let lo := if b0 =? 0xF0 then 0x90 else 0x80 in
            let hi := if b0 =? 0xF4 then 0x8F else 0xBF in
            if in_range lo hi (code c1) && cont c2 && cont c3
            then ((b0 - 0xF0) * 262144 + (code c1 - 0x80) * 4096
                  + (code c2 - 0x80) * 64 + (code c3 - 0x80), 4%nat)
            else (rune_error, 1%nat)
        | _ => (rune_error, 1%nat)
        end
      else (rune_error, 1%nat)
  end.

(** [utf8.AppendRune(nil, r)], what [string(r)] and [WriteRune] write. *)
Definition encode_rune (r : Z) : text :=
  let r := if (r <? 0) || in_range 0xD800 0xDFFF r || (0x10FFFF <? r) then rune_error else r in
  if r <? 0x80 then [byte r]
  else if r <? 0x800 then [byte (0xC0 + r / 64); byte (0x80 + r mod 64)]
  else if r <? 0x10000 then
    [byte (0xE0 + r / 4096); byte (0x80 + r / 64 mod 64); byte (0x80 + r mod 64)]
  else [byte (0xF0 + r / 262144); byte (0x80 + r / 4096 mod 64);
        byte (0x80 + r / 64 mod 64); byte (0x80 + r mod 64)].

(** The runes a [for range] loop over [s] visits, each with the bytes it was
    decoded from.  [fuel] is the number of bytes left; every step consumes at
    least one. *)
Fixpoint runes_fuel (fuel : nat) (s : text) : list (Z * text) :=
  match fuel, s with
  | S k, _ :: _ =>
      let '(r, n) := decode_rune s in (r, take n s) :: runes_fuel k (drop n s)
  | _, _ => []
  end.

Definition runes (s : text) : list (Z * text) := runes_fuel (length s) s.

(** [strings.Map(f, s)] for an [f] that never drops a rune. *)
Definition map_runes (f : Z -> Z) (s : text) : text :=
  concat ((fun p => encode_rune (f p.1)) <$> runes s).

(** Drop the longest tail whose elements satisfy [p]. *)
Fixpoint drop_tail {A} (p : A -> bool) (l : list A) : list A :=
  match l with
  | [] => []
  | x :: l' =>
      match drop_tail p l' with
      | [] => if p x then [] else [x]
      | y => x :: y
      end
  end.

Fixpoint drop_head {A} (p : A -> bool) (l : list A) : list A :=
  match l with
  | [] => []
  | x :: l' => if p x then drop_head p l' else l
  end.

(** [strings.TrimRightFunc(s, p)]: UTF-8 is self-synchronising, so the runes
    found from the right are the ones found from the left. *)
Definition trim_right_func (p : Z -> bool) (s : text) : text :=
  concat (snd <$> drop_tail (fun x => p x.1) (runes s)).

(** [unicode.IsSpace(r)] *)
Definition is_space (r : Z) : bool :=
  in_range 9 13 r || existsb (Z.eqb r) [0x20; 0x85; 0xA0; 0x1680; 0x2028; 0x2029; 0x202F; 0x205F; 0x3000]
  || in_range 0x2000 0x200A r.

(** [strings.TrimSpace(s)] *)
Definition trim_space (s : text) : text :=
  concat (snd <$> drop_head (fun x => is_space x.1) (drop_tail (fun x => is_space x.1) (runes s))).

(** [strconv.Itoa] and the [%d] verb. *)
Fixpoint digits (fuel : nat) (n : N) (acc : text) : text :=
  match fuel with
  | O => acc
  | S k =>
      let d := ascii_of_N (48 + n mod 10) in
      if (n <? 10)%N then d :: acc else digits k (n / 10) (d :: acc)
  end.

Definition itoa (z : Z) : text :=
  let ds := digits 20 (Z.to_N (Z.abs z)) [] in
  if z <? 0 then lit "-" ++ ds else ds.

(** ** Lemmas *)

Lemma len_app {A} (l1 l2 : list A) : len (l1 ++ l2) = len l1 + len l2.
Proof. unfold len. rewrite length_app. lia. Qed.

Lemma len_nonneg {A} (l : list A) : 0 <= len l.
Proof. unfold len. lia. Qed.

Lemma to_nat_len {A} (l : list A) : Z.to_nat (len l) = length l.
Proof. unfold len. lia. Qed.

Lemma code_bound c : 0 <= code c < 256.
Proof. unfold code. pose proof (N_ascii_bounded c). lia. Qed.

Lemma byte_code z : 0 <= z < 256 -> code (byte z) = z.
Proof. intros H. unfold code, byte. rewrite N_ascii_embedding; lia. Qed.

Lemma code_byte c : byte (code c) = c.
Proof. unfold code, byte. rewrite N2Z.id. apply ascii_N_embedding. Qed.

Lemma has_prefix_spec p s : has_prefix p s = true <-> exists t, s = p ++ t.
Proof.
  revert s. induction p as [|x p IH]; intros s; simpl.
  { split; eauto. }
  destruct s as [|y s]; simpl.
  { split; [discriminate | intros [t Ht]; discriminate]. }
  rewrite andb_true_iff, Ascii.eqb_eq, IH. split.
  - intros [-> [t ->]]. eauto.
  - intros [t Ht]. simplify_eq. eauto.
Qed.

Lemma has_suffix_spec p s : has_suffix p s = true <-> exists t, s = t ++ p.
Proof.
  unfold has_suffix. rewrite has_prefix_spec. split; intros [t Ht].
  - exists (rev t). rewrite <- (rev_involutive s), Ht, rev_app_distr, rev_involutive. done.
  - exists (rev t). by rewrite Ht, rev_app_distr.
Qed.

Lemma find_sub_Some p s i :
  find_sub p s = Some i -> exists t, s = take i s ++ p ++ t /\ (i + length p <= length s)%nat.
Proof.
  revert i. induction s as [|y s IH]; intros i; simpl.
  - destruct p as [|x p]; simpl; [|discriminate]. intros [= <-]. exists []. split; [done|simpl; lia].
  - destruct (has_prefix p (y :: s)) eqn:E.
    + intros [= <-]. apply has_prefix_spec in E as [t Ht]. exists t. split; [done|].
      apply (f_equal length) in Ht. rewrite length_app in Ht. simpl in *. lia.
    + destruct (find_sub p s) as [j|] eqn:Ej; simpl; [|discriminate].
      intros [= <-]. destruct (IH j eq_refl) as (t & Ht & Hl).
      exists t. simpl. split; [by rewrite <- Ht | lia].
Qed.

Lemma split_byte_nonempty c s : split_byte c s <> [].
Proof. destruct s; simpl; [done|]. destruct (Ascii.eqb a c); [done|]. by destruct (split_byte c s). Qed.

(** Joining what [Split] produced gives the string back. *)
Lemma join_split c s : join [c] (split_byte c s) = s.
Proof.
  induction s as [|x s IH]; simpl; [done|].
  destruct (Ascii.eqb_spec x c) as [->|].
  - destruct (split_byte c s) eqn:E; [by apply split_byte_nonempty in E|]. simpl in *. by rewrite IH.
  - destruct (split_byte c s) as [|h [|h2 t]] eqn:E; [by apply split_byte_nonempty in E| |];
      simpl in *; by rewrite IH.
Qed.

Lemma split_byte_app c a b : split_byte c (a ++ c :: b) = split_byte c a ++ split_byte c b.
Proof.
  induction a as [|x a IH]; simpl; [by rewrite Ascii.eqb_refl|]. rewrite IH.
  destruct (Ascii.eqb x c); [done|].
  destruct (split_byte c a) as [|h t] eqn:E; [by apply split_byte_nonempty in E|done].
Qed.

Lemma split_byte_no_sep c s : Forall (fun l => c ∉ l) (split_byte c s).
Proof.
  induction s as [|x s IH]; simpl.
  { constructor; [set_solver|constructor]. }
  destruct (Ascii.eqb_spec x c) as [->|].
  { constructor; [set_solver|done]. }
  destruct (split_byte c s) as [|h t]; inv IH.
  - constructor; [set_solver|constructor].
  - constructor; [set_solver|done].
Qed.

Lemma split_join c l : l <> [] -> Forall (fun x => c ∉ x) l -> split_byte c (join [c] l) = l.
Proof.
  intros Hne H. induction l as [|x l IH]; [done|]. apply Forall_cons in H as [Hx Hl].
  assert (forall s, c ∉ s -> split_byte c s = [s]) as Hone.
  { clear. intros s. induction s as [|d s IH]; [done|]. rewrite not_elem_of_cons. intros [Hd Hs]. cbn. destruct (Ascii.eqb_spec d c); [congruence|]. by rewrite IH. }
  destruct l as [|y l]; [by apply Hone|]. change (join [c] (x :: y :: l)) with (x ++ c :: join [c] (y :: l)). by rewrite split_byte_app, Hone, IH.
Qed.

Lemma decode_rune_width c s : (1 <= (decode_rune (c :: s)).2 <= length (c :: s))%nat.
Proof. unfold decode_rune. repeat case_match; simpl in *; lia. Qed.

(** Every byte of the string is visited exactly once. *)
Lemma runes_fuel_concat fuel s : (length s <= fuel)%nat -> concat (snd <$> runes_fuel fuel s) = s.
Proof.
  revert s. induction fuel as [|k IH]; intros [|c s] H; cbn [runes_fuel]; try done; [simpl in *; lia|].
  pose proof (decode_rune_width c s) as W.
  destruct (decode_rune (c :: s)) as [r n]. rewrite fmap_cons. cbn [concat snd] in *.
  rewrite IH; [by rewrite take_drop|]. rewrite length_drop. simpl in *. lia.
Qed.

Lemma runes_concat s : concat (snd <$> runes s) = s.
Proof. by apply runes_fuel_concat. Qed.

Lemma drop_tail_prefix {A} (p : A -> bool) l : exists t, l = drop_tail p l ++ t /\ Forall (fun x => p x = true) t.
Proof.
  induction l as [|x l IH]; simpl; [by exists []|].
  destruct IH as (t & Ht & HF).
  destruct (drop_tail p l) as [|y l'] eqn:E; simpl in *.
  - subst l. destruct (p x) eqn:Ep; [exists (x :: t)|exists t]; split; auto.
  - exists t. split; [by rewrite Ht|done].
Qed.

Create Rewrite HintDb go.
#[export] Hint Resolve len_nonneg code_bound split_byte_nonempty : go.
#[export] Hint Rewrite @len_app byte_code code_byte : go.

(** ** Smoke tests *)

Example split_test : split_byte newline (lit "a" ++ [newline] ++ lit "b" ++ [newline]) = [lit "a"; lit "b"; []].
Proof. reflexivity. Qed.
Example replace_test : replace_all (lit "aXXbX") (lit "X") (lit "yy") = lit "ayyyybyy".
Proof. reflexivity. Qed.
Example itoa_test : itoa (-120) = lit "-120".
Proof. reflexivity. Qed.
Example rune_test : decode_rune (encode_rune 0x20AC) = (0x20AC, 3%nat).
Proof. vm_compute. reflexivity. Qed.
