(* ===== verification/Retry.v ===== *)
(** * Assistant-call retry ([internal/pi/wire/retry.go])

    Provider-error classification, the capped exponential backoff in 64-bit
    arithmetic, and the bounded retry loop with its callbacks.  The provider
    call, the backoff timer and the cancellation of the context are the loop's
    environment: the [k]-th response and whether the [k]-th wait is cut short
    are arguments. *)

From S2P Require Import Prelude GoText.
From Stdlib Require Import Ascii.

(** ** Data *)

Inductive StopReason :=
| StopPending | StopStop | StopLength | StopToolUse | StopError | StopAborted | StopDeferred.

#[global] Instance StopReason_eq_dec : EqDecision StopReason.
Proof. solve_decision. Defined.

(** The fields of [model.AssistantMessage] the loop reads or writes. *)
Record AssistantMessage := {
  stopReason : StopReason;
  errorMessage : text;
}.

(** [nil] for [MaxAgentDelayMs] is [None]. *)
Record RetryPolicy := {
  Enabled : bool;
  MaxRetries : Z;
  BaseDelayMs : Z;
  MaxAgentDelayMs : option Z;
}.

(** ** Error-text patterns *)

(** [asciiLower]: the scan up to the first upper-case byte, then the copy. *)
Definition is_upper (c : ascii) : bool := in_range 65 90 (code c).
Definition lower_byte (c : ascii) : ascii := if is_upper c then byte (code c + 32) else c.

Fixpoint asciiLower (s : text) : text :=
  match s with
  | [] => []
  | c :: s' => if is_upper c then lower_byte <$> s else c :: asciiLower s'
  end.

(** One atom of a pattern: a literal byte or [jsDot]. *)
Inductive atom := ALit (c : ascii) | ADot.

(** A pattern is a sequence of atoms, each possibly optional. *)
Abbreviation pattern := (list (atom * bool)).

Definition question : ascii := byte 63.
Definition dot : ascii := byte 46.

(** The characters [buildProviderErrorPattern] refuses. *)
Definition regexp_meta : text := lit "\^$|*+()[]{}".

(** The regular expression one alternative compiles to; [None] where
    [regexp.MustCompile] panics on a ["?"] with nothing to repeat. *)
Fixpoint compile (p : text) : option pattern :=
  match p with
  | [] => Some []
  | c :: p' =>
      if Ascii.eqb c question then None
      else
        let a := if Ascii.eqb c dot then ADot else ALit c in
        match p' with
        | q :: p'' =>
            if Ascii.eqb q question then cons (a, true) <$> compile p''
            else cons (a, false) <$> compile p'
        | [] => Some [(a, false)]
        end
  end.

(** [buildProviderErrorPattern]: [None] is its panic on unsupported syntax. *)
Definition buildProviderErrorPattern (patterns : list text) : option (list pattern) :=
  mapM (fun p =>
    if existsb (fun c => existsb (Ascii.eqb c) regexp_meta) p then None
    else compile (asciiLower p)) patterns.

(** The text left after [a] matched at the head of [s]; [jsDot] reads a rune. *)
Definition step_atom (a : atom) (s : text) : option text :=
  match s with
  | [] => None
  | c :: s' =>
      match a with
      | ALit x => if Ascii.eqb c x then Some s' else None
      | ADot =>
          let '(r, n) := decode_rune s in
          if existsb (Z.eqb r) [10; 13; 0x2028; 0x2029] || (0x10000 <=? r) then None
          else Some (drop n s)
      end
  end.

Fixpoint match_here (p : pattern) (s : text) : bool :=
  match p with
  | [] => true
  | (a, optional) :: p' =>
      match step_atom a s with
      | Some s' => match_here p' s' || (optional && match_here p' s)
      | None => optional && match_here p' s
      end
  end.

(** The unanchored search tries every rune boundary, the end included. *)
Fixpoint search_from (fuel : nat) (ps : list pattern) (s : text) : bool :=
  existsb (fun p => match_here p s) ps ||
  match fuel with
  | O => false
  | S k => match s with
           | [] => false
           | _ :: _ => search_from k ps (drop (decode_rune s).2 s)
           end
  end.

(** [providerErrorPattern.MatchString] *)
Definition MatchString (ps : list pattern) (s : text) : bool :=
  search_from (length s) ps (asciiLower s).

Definition nonRetryableProviderLimitErrors : list text := lit <$> [
  "GoUsageLimitError"; "FreeUsageLimitError"; "Monthly usage limit reached"; "available balance";
  "insufficient_quota"; "out of budget"; "quota exceeded"; "billing"]%string.

Definition retryableProviderErrors : list text := lit <$> [
  "overloaded"; "currently experiencing high demand"; "rate.?limit"; "too many requests";
  "429"; "500"; "502"; "503"; "504"; "520"; "524"; "service.?unavailable"; "server.?error";
  "internal.?error"; "provider.?returned.?error";
  "exceeded request buffer limit while retrying upstream"; "network.?error"; "connection.?error";
  "connection.?refused"; "connection.?lost"; "other side closed"; "fetch failed"; "getaddrinfo";
  "ENOTFOUND"; "EAI_AGAIN"; "upstream.?connect"; "reset before headers"; "socket hang up";
  "socket connection was closed"; "timed? out"; "timeout"; "terminated"; "websocket.?closed";
  "websocket.?error"; "ended without"; "stream ended before message_stop";
  "stream ended before a terminal response event"; "http2 request did not get a response";
  "retry delay"; "you can retry your request"; "try your request again";
  "please retry your request"; "ResourceExhausted"]%string.

Definition nonRetryableProviderLimitErrorPattern : list pattern :=
  default [] (buildProviderErrorPattern nonRetryableProviderLimitErrors).

Definition retryableProviderErrorPattern : list pattern :=
  default [] (buildProviderErrorPattern retryableProviderErrors).

(** [IsRetryableAssistantError]; a nil message is [None]. *)
Definition IsRetryableAssistantError (message : option AssistantMessage) : bool :=
  match message with
  | None => false
  | Some m =>
      if negb (bool_decide (stopReason m = StopError)) || bool_decide (errorMessage m = []) then false
      else if MatchString nonRetryableProviderLimitErrorPattern (errorMessage m) then false
      else MatchString retryableProviderErrorPattern (errorMessage m)
  end.

(** ** Backoff *)

(** [base << shift] and [x >> shift] on 64-bit integers. *)
Definition shl (base shift : Z) : Z := wrap (Z.shiftl base shift).
Definition shr (x shift : Z) : Z := Z.shiftr x shift.

Definition shiftSaturating (base shift : Z) : Z :=
  if (shift <=? 0) || (base =? 0) then base
  else if wordbits <=? shift then maxint
  else
    let shifted := shl base shift in
    if negb (shr shifted shift =? base) then maxint else shifted.

Definition DefaultMaxAgentRetryDelayMs : Z := 60000.

Definition RetryDelayMs (policy : RetryPolicy) (attempt : Z) : Z :=
  let maxDelayMs := match MaxAgentDelayMs policy with Some d => d | None => DefaultMaxAgentRetryDelayMs end in
  let delayMs := shiftSaturating (BaseDelayMs policy) (attempt - 1) in
  if maxDelayMs <? delayMs then maxDelayMs else delayMs.

(** ** The loop *)

(** What an observer of one [RetryAssistantCall] sees: each provider call and
    each callback with its arguments. *)
Inductive event :=
| EvProduce (n : nat)
| EvScheduled (attempt maxAttempts delayMs : Z) (errorMessage : text)
| EvAttemptStart
| EvFinished (success : bool) (attempt : Z) (finalError : text).

Section Loop.
(** The [k]-th response of the provider, and whether the context is done
    before the [k]-th backoff timer fires. *)
Context (produce : nat -> AssistantMessage) (cancelled : nat -> bool).
Context (policy : option RetryPolicy).

Definition maxAttemptsOf : Z :=
  match policy with
  | Some p => if Enabled p then MaxRetries p else 0
  | None => 0
  end.

Definition delayOf (attempt : Z) : Z :=
  match policy with Some p => RetryDelayMs p attempt | None => 0 end.

(** [finished] is called only once a retry was scheduled. *)
Definition finished_if (scheduled : bool) (success : bool) (attempt : Z) (e : text) : list event :=
  if scheduled then [EvFinished success attempt e] else [].

(** One turn of the [for]; [calls] counts the calls already made.  [None]
    is out of fuel. *)
Fixpoint retry_loop (fuel calls : nat) (attempt : Z) (lastRetryScheduled : bool)
    (lastRetryAttempt : Z) : option (list event * AssistantMessage) :=
  match fuel with
  | O => None
  | S k =>
      let response := produce calls in
      let ret evs := Some (EvProduce calls :: evs, response) in
      if decide (stopReason response = StopAborted) then
        ret (finished_if lastRetryScheduled false lastRetryAttempt [])
      else if decide (stopReason response <> StopError) then
        ret (finished_if lastRetryScheduled true lastRetryAttempt [])
      else if (maxAttemptsOf <=? attempt) || negb (IsRetryableAssistantError (Some response)) then
        ret (finished_if lastRetryScheduled false lastRetryAttempt (errorMessage response))
      else
        let attempt := attempt + 1 in
        let msg := if decide (errorMessage response = []) then lit "Unknown error" else errorMessage response in
        let scheduled := EvScheduled attempt maxAttemptsOf (delayOf attempt) msg in
        if cancelled calls then
          Some ([EvProduce calls; scheduled; EvFinished false attempt msg],
                {| stopReason := StopAborted; errorMessage := [] |})
        else
          match retry_loop k (S calls) attempt true attempt with
          | Some (evs, r) => Some (EvProduce calls :: scheduled :: EvAttemptStart :: evs, r)
          | None => None
          end
  end.

(** Every turn but the last consumes one of [MaxRetries] attempts, so one
    more turn than that is enough ([RetryAssistantCall_total]). *)
Definition RetryAssistantCall : option (list event * AssistantMessage) :=
  retry_loop (S (Z.to_nat maxAttemptsOf)) 0 0 false 0.
End Loop.

(** ** Abstract specification of the loop

    [n] is the number of retries made: [retried k] is what the [k]-th retry
    shows the observer, [ends n] how the last call ends the loop. *)

Definition turn_message (m : AssistantMessage) : text :=
  if decide (errorMessage m = []) then lit "Unknown error" else errorMessage m.

Section Spec.
Context (produce : nat -> AssistantMessage) (cancelled : nat -> bool).
Context (policy : option RetryPolicy).

Definition scheduled (k : nat) : event :=
  EvScheduled (Z.of_nat k + 1) (maxAttemptsOf policy) (delayOf policy (Z.of_nat k + 1))
    (turn_message (produce k)).

Definition retried (k : nat) : list event := [EvProduce k; scheduled k; EvAttemptStart].

(** Response [k] is a transient error and an attempt is left for it. *)
Definition retryable_at (k : nat) : Prop :=
  stopReason (produce k) = StopError
  /\ IsRetryableAssistantError (Some (produce k)) = true
  /\ Z.of_nat k < maxAttemptsOf policy.

Inductive ends (n : nat) : list event -> AssistantMessage -> Prop :=
| ends_aborted :
    stopReason (produce n) = StopAborted ->
    ends n (EvProduce n :: finished_if (bool_decide (0 < n)%nat) false (Z.of_nat n) []) (produce n)
| ends_success :
    stopReason (produce n) <> StopAborted -> stopReason (produce n) <> StopError ->
    ends n (EvProduce n :: finished_if (bool_decide (0 < n)%nat) true (Z.of_nat n) []) (produce n)
| ends_error :
    stopReason (produce n) = StopError -> ~ retryable_at n ->
    ends n (EvProduce n :: finished_if (bool_decide (0 < n)%nat) false (Z.of_nat n)
                             (errorMessage (produce n))) (produce n)
| ends_cancelled :
    retryable_at n -> cancelled n = true ->
    ends n [EvProduce n; scheduled n; EvFinished false (Z.of_nat n + 1) (turn_message (produce n))]
      {| stopReason := StopAborted; errorMessage := [] |}.
End Spec.

Definition is_produce (e : event) : bool := match e with EvProduce _ => true | _ => false end.
Definition is_callback (e : event) : bool := negb (is_produce e).
Definition is_finished (e : event) : bool := match e with EvFinished _ _ _ => true | _ => false end.

(** ** Helper lemmas *)

Lemma asciiLower_map s : asciiLower s = lower_byte <$> s.
Proof.
  induction s as [|c s IH]; simpl; [done|].
  destruct (is_upper c) eqn:E; [done|]. rewrite IH. unfold lower_byte at 2. by rewrite E.
Qed.

Lemma shr_shl_exact base shift :
  0 < shift -> in_int (base * 2 ^ shift) -> shr (shl base shift) shift = base.
Proof.
  intros Hs Hin. unfold shr, shl. rewrite Z.shiftl_mul_pow2 by lia.
  rewrite wrap_id by done. rewrite Z.shiftr_div_pow2 by lia.
  apply Z.div_mul. apply Z.pow_nonzero; lia.
Qed.

(** Shifting back recovers the operand only when no bit was lost. *)
Lemma shl_lossy base shift :
  0 < shift -> shr (shl base shift) shift = base -> in_int (base * 2 ^ shift).
Proof.
  intros Hs Heq. unfold shr, shl in Heq.
  rewrite Z.shiftl_mul_pow2, Z.shiftr_div_pow2 in Heq by lia.
  pose proof (wrap_in_int (base * 2 ^ shift)) as Hw.
  assert (wrap (base * 2 ^ shift) mod 2 ^ shift = 0 \/ 64 <= shift) as [Hm|Hm].
  { destruct (Z.le_gt_cases 64 shift); [by right|left].
    unfold wrap. set (x := base * 2 ^ shift).
    rewrite (Z.mod_eq (x + 2 ^ 63)) by lia.
    replace (x + 2 ^ 63 - 2 ^ 64 * ((x + 2 ^ 63) / 2 ^ 64) - 2 ^ 63)
      with (x - 2 ^ 64 * ((x + 2 ^ 63) / 2 ^ 64)) by lia.
    replace (2 ^ 64) with (2 ^ (64 - shift) * 2 ^ shift) at 1
      by (rewrite <- Z.pow_add_r by lia; f_equal; lia).
    unfold x. set (q := (base * 2 ^ shift + 2 ^ 63) / 2 ^ 64).
    replace (base * 2 ^ shift - 2 ^ (64 - shift) * 2 ^ shift * q)
      with ((base - 2 ^ (64 - shift) * q) * 2 ^ shift) by lia.
    apply Z.mod_mul. apply Z.pow_nonzero; lia. }
  - assert (Hp : 2 ^ shift <> 0) by (apply Z.pow_nonzero; lia).
    pose proof (Z.div_mod (wrap (base * 2 ^ shift)) (2 ^ shift) Hp) as D.
    rewrite Heq, Hm in D. replace (base * 2 ^ shift) with (wrap (base * 2 ^ shift)) by lia. done.
  - assert (Hz : wrap (base * 2 ^ shift) = 0).
    { unfold wrap. replace shift with (64 + (shift - 64)) by lia.
      rewrite Z.pow_add_r by lia.
      replace (base * (2 ^ 64 * 2 ^ (shift - 64)) + 2 ^ 63)
        with (2 ^ 63 + (base * 2 ^ (shift - 64)) * 2 ^ 64) by lia.
      rewrite Z.mod_add by lia. rewrite Z.mod_small; lia. }
    rewrite Hz, Z.div_0_l in Heq by (apply Z.pow_nonzero; lia). subst base.
    unfold in_int, minint, maxint. lia.
Qed.

Lemma nonzero_shift_overflow base shift :
  base <> 0 -> 64 <= shift -> ~ in_int (base * 2 ^ shift).
Proof.
  intros Hb Hs. unfold in_int, minint, maxint.
  pose proof (Z.pow_le_mono_r 2 64 shift ltac:(lia) Hs). nia.
Qed.

#[export] Instance in_int_dec z : Decision (in_int z).
Proof. unfold in_int. apply _. Defined.

(** The exact value of the saturating shift. *)
Lemma shiftSaturating_exact base shift :
  0 < shift -> base <> 0 ->
  shiftSaturating base shift = if decide (in_int (base * 2 ^ shift)) then base * 2 ^ shift else maxint.
Proof.
  intros Hs Hb. unfold shiftSaturating, wordbits.
  destruct (Z.leb_spec shift 0); [lia|]. destruct (Z.eqb_spec base 0); [lia|]. simpl.
  destruct (Z.leb_spec 64 shift).
  { rewrite decide_False; [done|]. by apply nonzero_shift_overflow. }
  destruct (Z.eqb_spec (shr (shl base shift) shift) base) as [E|E]; simpl.
  - pose proof (shl_lossy _ _ Hs E) as Hin. rewrite decide_True by done.
    unfold shl. rewrite Z.shiftl_mul_pow2 by lia. by apply wrap_id.
  - rewrite decide_False; [done|]. intros Hin. apply E. by apply shr_shl_exact.
Qed.

(** ** Properties *)

(** [shiftSaturating] computes [base * 2^shift] in mathematical integers
    whenever that fits a 64-bit [int], and otherwise saturates to [MaxInt];
    the wrapped product is never returned.  A shift of zero or less is the
    identity. *)
Lemma shiftSaturating_spec (base shift : Z) (H : in_int base) :
  shiftSaturating base shift =
    (if shift <=? 0 then base
     else if decide (in_int (base * 2 ^ shift)) then base * 2 ^ shift else maxint)
  /\ in_int (shiftSaturating base shift).
Proof.
  destruct (Z.leb_spec shift 0) as [Hs|Hs].
  { unfold shiftSaturating. rewrite (proj2 (Z.leb_le shift 0) Hs). done. }
  destruct (decide (base = 0)) as [->|Hb].
  { unfold shiftSaturating. rewrite orb_true_r.
    assert (in_int 0) by (unfold in_int, minint, maxint; lia).
    rewrite decide_True by done. split; [lia|done]. }
  rewrite shiftSaturating_exact by done. split; [done|].
  case_decide; [done|]. unfold in_int, minint, maxint. lia.
Qed.

(** The backoff before retry [attempt] is exactly the smaller of the cap
    and [BaseDelayMs * 2^(attempt-1)], for every attempt number, overflow of
    the 64-bit product included. *)
Theorem RetryDelayMs_exponential (p : RetryPolicy) (attempt cap : Z)
    (Hb : 0 <= BaseDelayMs p <= maxint) (Ha : 1 <= attempt)
    (Hc : cap = default DefaultMaxAgentRetryDelayMs (MaxAgentDelayMs p)) (Hcap : in_int cap) :
  RetryDelayMs p attempt = Z.min cap (BaseDelayMs p * 2 ^ (attempt - 1)).
Proof.
  unfold RetryDelayMs.
  assert (Hm : match MaxAgentDelayMs p with Some d => d | None => DefaultMaxAgentRetryDelayMs end = cap)
    by (subst cap; by destruct (MaxAgentDelayMs p)).
  rewrite Hm. clear Hm Hc.
  assert (Hi : in_int (BaseDelayMs p)) by (unfold in_int, minint, maxint in *; lia).
  destruct (shiftSaturating_spec (BaseDelayMs p) (attempt - 1) Hi) as [-> _].
  unfold in_int, minint, maxint in *.
  pose proof (Z.pow_pos_nonneg 2 (attempt - 1)).
  destruct (Z.leb_spec (attempt - 1) 0).
  - replace (attempt - 1) with 0 by lia. rewrite Z.pow_0_r, Z.mul_1_r.
    destruct (Z.ltb_spec cap (BaseDelayMs p)); lia.
  - assert (0 <= BaseDelayMs p * 2 ^ (attempt - 1)) by nia.
    set (d := BaseDelayMs p * 2 ^ (attempt - 1)) in *.
    case_decide; [destruct (Z.ltb_spec cap d)|destruct (Z.ltb_spec cap (2 ^ 63 - 1))]; lia.
Qed.

Definition demo_policy : RetryPolicy :=
  {| Enabled := true; MaxRetries := 3; BaseDelayMs := 2000; MaxAgentDelayMs := None |}.

Lemma RetryDelayMs_exponential_witness :
  RetryDelayMs demo_policy 3 = Z.min DefaultMaxAgentRetryDelayMs (2000 * 2 ^ (3 - 1)).
Proof.
  apply (RetryDelayMs_exponential demo_policy 3 DefaultMaxAgentRetryDelayMs);
    unfold in_int, minint, maxint, DefaultMaxAgentRetryDelayMs; cbn; lia.
Defined.

Lemma retry_loop_refines produce cancelled policy fuel n :
  (Z.to_nat (maxAttemptsOf policy) < fuel + n)%nat -> (n <= Z.to_nat (maxAttemptsOf policy))%nat ->
  exists m evs r,
    retry_loop produce cancelled policy fuel n (Z.of_nat n) (bool_decide (0 < n)%nat) (Z.of_nat n)
      = Some (concat (retried produce policy <$> seq n m) ++ evs, r)
    /\ Forall (fun k => retryable_at produce policy k /\ cancelled k = false) (seq n m)
    /\ ends produce cancelled policy (n + m) evs r
    /\ (n + m <= Z.to_nat (maxAttemptsOf policy))%nat.
Proof.
  revert n. induction fuel as [|fuel IH]; intros n Hf Hn; [lia|]. cbn [retry_loop].
  assert (Hend : forall evs r, ends produce cancelled policy n evs r ->
    exists m evs' r', Some (evs, r) = Some (concat (retried produce policy <$> seq n m) ++ evs', r')
      /\ Forall (fun k => retryable_at produce policy k /\ cancelled k = false) (seq n m)
      /\ ends produce cancelled policy (n + m) evs' r' /\ (n + m <= Z.to_nat (maxAttemptsOf policy))%nat).
  { intros evs r He. exists 0%nat, evs, r. simpl. rewrite Nat.add_0_r. auto. }
  case_decide; [by apply Hend, ends_aborted|].
  case_decide as Herr; [by apply Hend, ends_success|].
  assert (stopReason (produce n) = StopError) as Her by (by destruct (decide (stopReason (produce n) = StopError))).
  destruct (_ || _) eqn:Eq.
  { apply Hend, ends_error; [done|]. intros (_ & Hr & Hlt). rewrite Hr in Eq. simpl in Eq. lia. }
  assert (retryable_at produce policy n) as Hr.
  { apply orb_false_iff in Eq as [E1 E2]. apply negb_false_iff in E2. split_and!; auto; lia. }
  destruct (cancelled n) eqn:Ec; [by apply Hend, ends_cancelled|].
  assert (Hlt : Z.of_nat n < maxAttemptsOf policy) by apply Hr.
  destruct (IH (S n) ltac:(lia) ltac:(lia)) as (m & evs & r & Heq & HF & He & Hb).
  replace (Z.of_nat n + 1) with (Z.of_nat (S n)) by lia.
  rewrite bool_decide_true in Heq by lia. rewrite Heq.
  exists (S m), evs, r. split_and!; [|constructor; auto|by rewrite Nat.add_succ_r|lia].
  cbn [seq]. rewrite fmap_cons. cbn [concat]. unfold retried at 2, scheduled, turn_message.
  replace (Z.of_nat n + 1) with (Z.of_nat (S n)) by lia. done.
Qed.

Lemma concat_retried_produce produce policy l :
  List.filter is_produce (concat (retried produce policy <$> l)) = EvProduce <$> l.
Proof. induction l as [|k l IH]; [done|]. rewrite fmap_cons. cbn [concat]. by rewrite List.filter_app, IH. Qed.

Lemma concat_retried_finished produce policy l :
  List.filter is_finished (concat (retried produce policy <$> l)) = [].
Proof. induction l as [|k l IH]; [done|]. rewrite fmap_cons. cbn [concat]. by rewrite List.filter_app, IH. Qed.

(** [RetryAssistantCall] always returns, and what it does is exactly the
    specification: [n] transient errors, none cancelled, are each retried once
    in order with attempt numbers 1 to [n], and then call [n] ends the loop
    the way [ends] says.  The provider is called [n + 1] times, at most once
    more than [MaxRetries]. *)
Theorem RetryAssistantCall_refines (produce : nat -> AssistantMessage) (cancelled : nat -> bool)
    (policy : option RetryPolicy) :
  exists n evs r,
    RetryAssistantCall produce cancelled policy
      = Some (concat (retried produce policy <$> seq 0 n) ++ evs, r)
    /\ Forall (fun k => retryable_at produce policy k /\ cancelled k = false) (seq 0 n)
    /\ ends produce cancelled policy n evs r
    /\ List.filter is_produce (concat (retried produce policy <$> seq 0 n) ++ evs)
         = EvProduce <$> seq 0 (S n)
    /\ (n <= Z.to_nat (maxAttemptsOf policy))%nat.
Proof.
  destruct (retry_loop_refines produce cancelled policy (S (Z.to_nat (maxAttemptsOf policy))) 0)
    as (n & evs & r & Heq & HF & He & Hb); [lia..|].
  exists n, evs, r. split_and!; try done.
  rewrite List.filter_app, concat_retried_produce, seq_S, fmap_app. f_equal.
  destruct He; unfold finished_if; try case_match; done.
Qed.

(** the callbacks bracket the retries: [OnRetryFinished] fires exactly
    once, as the last event, when some retry was scheduled, and when none was
    no callback fires at all and the provider was called once. *)
Theorem RetryAssistantCall_callbacks (produce : nat -> AssistantMessage) (cancelled : nat -> bool)
    (policy : option RetryPolicy) (evs : list event) (r : AssistantMessage)
    (H : RetryAssistantCall produce cancelled policy = Some (evs, r)) :
  (exists pre success attempt e, evs = pre ++ [EvFinished success attempt e]
     /\ List.filter is_finished pre = []
     /\ scheduled produce policy 0 ∈ pre)
  \/ (evs = [EvProduce 0] /\ r = produce 0%nat).
Proof.
  destruct (retry_loop_refines produce cancelled policy (S (Z.to_nat (maxAttemptsOf policy))) 0)
    as (n & tail & r' & Heq & HF & He & Hb); [lia..|].
  change (RetryAssistantCall produce cancelled policy =
    Some (concat (retried produce policy <$> seq 0 n) ++ tail, r')) in Heq.
  rewrite H in Heq. injection Heq as -> ->. cbn [Nat.add] in He.
  assert (Hs : (0 < n)%nat -> scheduled produce policy 0 ∈ concat (retried produce policy <$> seq 0 n)).
  { intros Hn. destruct n; [lia|]. simpl. set_solver. }
  set (pre := concat (retried produce policy <$> seq 0 n)) in *.
  assert (Hp : List.filter is_finished pre = []) by apply concat_retried_finished.
  destruct n as [|n].
  - destruct He; [right; by split..|left].
    exists [EvProduce 0; scheduled produce policy 0], false, 1, (turn_message (produce 0%nat)).
    split_and!; [done..|set_solver].
  - left. destruct He; unfold finished_if; rewrite ?bool_decide_true by lia.
    1-3: eexists (pre ++ [EvProduce (S n)]), _, _, _; rewrite <- app_assoc; split; [done|];
      rewrite List.filter_app, Hp; split; [done|]; specialize (Hs ltac:(lia)); set_solver.
    eexists (pre ++ [EvProduce (S n); scheduled produce policy (S n)]), _, _, _.
    rewrite <- app_assoc. split; [done|]. rewrite List.filter_app, Hp. split; [done|].
    specialize (Hs ltac:(lia)). set_solver.
Qed.

(** A provider that fails once and then answers. *)
Definition demo_produce (n : nat) : AssistantMessage :=
  match n with
  | O => {| stopReason := StopError; errorMessage := lit "503 Service Unavailable" |}
  | S _ => {| stopReason := StopStop; errorMessage := [] |}
  end.

Definition demo_call : list event * AssistantMessage :=
  default ([], demo_produce 0) (RetryAssistantCall demo_produce (fun _ => false) (Some demo_policy)).

Lemma RetryAssistantCall_callbacks_witness :
  (exists pre success attempt e, demo_call.1 = pre ++ [EvFinished success attempt e]
     /\ List.filter is_finished pre = []
     /\ scheduled demo_produce (Some demo_policy) 0 ∈ pre)
  \/ (demo_call.1 = [EvProduce 0] /\ demo_call.2 = demo_produce 0%nat).
Proof.
  apply (RetryAssistantCall_callbacks demo_produce (fun _ => false) (Some demo_policy) demo_call.1 demo_call.2).
  vm_compute. reflexivity.
Defined.
