(* ===== verification/RunStoreTypes.v ===== *)
(** * Run records: types and the JSON interface ([runstore/store.go])

    Identities, nodes, facts and records of a workflow run, the errors of the
    store, and the part of [encoding/json], [crypto/sha256] and
    [oklog/ulid] the directory store relies on, as the class [Codec] with its
    documented laws [CodecLaws]. *)

From S2P Require Import Prelude GoText.
From Stdlib Require Import Ascii.

(** ** Identities and nodes *)

(** [RunID], [NodeID], [RecordID] and [Kind] are Go string types. *)
Abbreviation NodeID := string (only parsing).
Abbreviation RecordID := string (only parsing).

Definition Scope : string := "scope".
Definition Session : string := "session".
Definition Action : string := "action".
Definition Service : string := "service".
Definition Question : string := "question".

Definition is_kind (k : string) : bool :=
  existsb (String.eqb k) [Scope; Session; Action; Service; Question].

(** A slot locates a node under its owner. *)
Record Slot := MkSlot {
  Parent : NodeID;
  SlotKind : string;
  Name : string;
  Ordinal : Z;
}.

Record NodeSpec := {
  SpecSlot : Slot;
  DisplayKey : string;
  Metadata : text;
}.

Record Node := {
  NID : NodeID;
  Spec : NodeSpec;
}.

Definition slot_of (n : Node) : Slot := SpecSlot (Spec n).
Definition parent_of (n : Node) : NodeID := Parent (slot_of n).
Definition kind_of (n : Node) : string := SlotKind (slot_of n).

(** [CreatedAt] is an instant; the zero time is [0]. *)
Record Header := {
  HVersion : Z;
  RunID : string;
  Workflow : string;
  Root : NodeID;
  CreatedAt : Z;
}.

Record Fact := {
  FVersion : Z;
  FID : RecordID;
  FNode : NodeID;
  FScope : NodeID;
  FSession : NodeID;
  FKind : string;
  Payload : text;
}.

Record Rec := {
  Sequence : Z;
  RFact : Fact;
}.

Definition rec_id (r : Rec) : RecordID := FID (RFact r).

Inductive Durability := Buffered | Committed.

Record BlobRef := {
  BKey : string;
  BSize : Z;
  BSHA : string;
}.

(** ** Errors

    The sentinels of [store.go], [errors.Join], the [%w] wrapping of a
    sentinel, errors of the operating system, and plain messages. *)
Inductive error :=
| ErrExists | ErrBusy | ErrIncomplete | ErrNotFound | ErrConflict | ErrCorrupt | ErrClosed
| ErrCtx
| ErrShortWrite
| ErrIO (code : Z)
| ErrMsg (msg : string)
| ErrWrap (sentinel cause : error)
| ErrJoin (e1 e2 : error).

(** [errors.Is(e, target)] for a sentinel [target]. *)
Fixpoint error_is (same : error -> bool) (e : error) : bool :=
  same e ||
  match e with
  | ErrWrap s _ => error_is same s
  | ErrJoin e1 e2 => error_is same e1 || error_is same e2
  | _ => false
  end.

Definition is_corrupt (e : error) : bool := error_is (fun e => match e with ErrCorrupt => true | _ => false end) e.

(** [errors.Join] of two possibly nil errors. *)
Definition join_err (e1 e2 : option error) : option error :=
  match e1, e2 with
  | None, e => e
  | e, None => e
  | Some a, Some b => Some (ErrJoin a b)
  end.

(** ** Instances *)

#[global] Instance Slot_eq_dec : EqDecision Slot.
Proof. solve_decision. Defined.
#[global] Instance NodeSpec_eq_dec : EqDecision NodeSpec.
Proof. solve_decision. Defined.
#[global] Instance Node_eq_dec : EqDecision Node.
Proof. solve_decision. Defined.
#[global] Instance Header_eq_dec : EqDecision Header.
Proof. solve_decision. Defined.
#[global] Instance Fact_eq_dec : EqDecision Fact.
Proof. solve_decision. Defined.
#[global] Instance Rec_eq_dec : EqDecision Rec.
Proof. solve_decision. Defined.
#[global] Program Instance Slot_countable : Countable Slot :=
  inj_countable' (fun s => (Parent s, SlotKind s, Name s, Ordinal s))
                 (fun '(p, k, n, o) => MkSlot p k n o) _.
Next Obligation. by intros []. Qed.

(** ** Frames *)

(** The JSON object of one append: the header in the first frame only. *)
Record frame := MkFrame {
  FrHeader : option Header;
  FrRecords : list Rec;
}.

(** ** The JSON and hashing interface *)

(** What the store calls of [encoding/json], [crypto/sha256] and [ulid].  A
    failing [json.Marshal] is [None].  [unmarshal_node] is the target after
    [json.Unmarshal] and whether it returned nil. *)
Class Codec := {
  json_valid : text -> bool;
  compact : text -> text;
  marshal_fact : Fact -> option text;
  marshal_frame : frame -> option text;
  unmarshal_frame : text -> option frame;
  marshal_node : Node -> option text;
  marshal_spec : NodeSpec -> option text;
  unmarshal_node : text -> Node * bool;
  sha256 : text -> string;
  ValidID : string -> bool;
}.

Section Canonical.
Context `{Codec}.

(** An empty [RawMessage] with [omitempty] is not encoded at all. *)
Definition compact_meta (m : text) : text := match m with [] => [] | _ => compact m end.

(** [json.RawMessage] values are compacted when they are encoded. *)
Definition compact_fact (f : Fact) : Fact :=
  {| FVersion := FVersion f; FID := FID f; FNode := FNode f; FScope := FScope f;
     FSession := FSession f; FKind := FKind f; Payload := compact (Payload f) |}.

Definition compact_rec (r : Rec) : Rec :=
  {| Sequence := Sequence r; RFact := compact_fact (RFact r) |}.

Definition compact_frame (fr : frame) : frame :=
  {| FrHeader := FrHeader fr; FrRecords := compact_rec <$> FrRecords fr |}.
End Canonical.

(** A Go string is encoded as itself only when it is valid UTF-8; an invalid
    byte is written as [\ufffd]. *)
Definition utf8_valid (s : text) : bool :=
  forallb (fun p => negb ((p.1 =? rune_error) && (len p.2 =? 1))) (runes s).

Definition str_ok (s : string) : bool := utf8_valid (lit s).

Definition fact_text_ok (f : Fact) : bool :=
  str_ok (FID f) && str_ok (FNode f) && str_ok (FScope f) && str_ok (FSession f) && str_ok (FKind f).

Definition slot_text_ok (s : Slot) : bool := str_ok (Parent s) && str_ok (SlotKind s) && str_ok (Name s).

Definition node_text_ok (n : Node) : bool :=
  str_ok (NID n) && slot_text_ok (slot_of n) && str_ok (DisplayKey (Spec n)).

Definition header_text_ok (h : Header) : bool := str_ok (RunID h) && str_ok (Workflow h) && str_ok (Root h).

Definition frame_text_ok (fr : frame) : bool :=
  match FrHeader fr with Some h => header_text_ok h | None => true end
  && forallb (fun r => fact_text_ok (RFact r)) (FrRecords fr).

(** The documented behaviour of [encoding/json] on these types: encoding a
    frame whose strings are UTF-8 and whose payloads are valid JSON, when it
    succeeds, decodes to the frame with its payloads compacted; a valid
    identifier ([ulid.ParseStrict]) is ASCII. *)
Class CodecLaws `{Codec} : Prop := {
  valid_id_text : forall s, ValidID s = true -> str_ok s = true;
  compact_valid : forall p, json_valid p = true -> json_valid (compact p) = true;
  compact_idemp : forall p, json_valid p = true -> compact (compact p) = compact p;
  marshal_fact_compact : forall f,
    json_valid (Payload f) = true -> marshal_fact (compact_fact f) = marshal_fact f;
  frame_roundtrip : forall fr d,
    frame_text_ok fr = true ->
    Forall (fun r => json_valid (Payload (RFact r)) = true) (FrRecords fr) ->
    marshal_frame fr = Some d ->
    d <> [] /\ unmarshal_frame d = Some (compact_frame fr);
  marshal_node_total : forall n, Metadata (Spec n) = [] -> is_Some (marshal_node n);
  node_compact : forall n p, marshal_node n = Some p -> json_valid p = true /\ compact p = p;
  node_roundtrip : forall n p,
    node_text_ok n = true -> marshal_node n = Some p ->
    unmarshal_node p =
      ({| NID := NID n; Spec := {| SpecSlot := slot_of n; DisplayKey := DisplayKey (Spec n);
                                   Metadata := compact_meta (Metadata (Spec n)) |} |}, true);
}.

(** * Framing of the run log ([runstore/directory/directory.go])

    A frame on disk is a big-endian 32-bit length, the CRC-32 of the data and
    the data.  This file models the encoding done by [appendLocked] and the
    decoding done by [readFrame], and proves that reading at the offset of a
    written frame gives it back, and that a torn frame is recognised as such. *)

Definition maxBatch : Z := 2 ^ 20.
Definition segmentSize : Z := 16 * 2 ^ 20.
Definition pendingLimit : Z := 4 * 2 ^ 20.

(** ** Big-endian 32-bit integers ([encoding/binary]) *)

Definition put_uint32 (z : Z) : text :=
  [byte (Z.shiftr z 24 mod 256); byte (Z.shiftr z 16 mod 256); byte (Z.shiftr z 8 mod 256); byte (z mod 256)].

Definition get_uint32 (b : text) : Z :=
  match b with
  | [b3; b2; b1; b0] => Z.shiftl (code b3) 24 + Z.shiftl (code b2) 16 + Z.shiftl (code b1) 8 + code b0
  | _ => 0
  end.

(** ** CRC-32, the reflected IEEE polynomial ([hash/crc32.ChecksumIEEE]) *)

Definition crc_poly : Z := 0xEDB88320.

Fixpoint crc_bits (n : nat) (c : Z) : Z :=
  match n with
  | O => c
  | S k => crc_bits k (if Z.testbit c 0 then Z.lxor (Z.shiftr c 1) crc_poly else Z.shiftr c 1)
  end.

Definition crc_byte (c : Z) (b : ascii) : Z := crc_bits 8 (Z.lxor c (code b)).

Definition crc32 (data : text) : Z :=
  Z.lxor (fold_left crc_byte data 0xFFFFFFFF) 0xFFFFFFFF.

(** ** Writing *)

(** The buffer [appendLocked] writes for [data]. *)
Definition frame_bytes (data : text) : text := put_uint32 (len data) ++ put_uint32 (crc32 data) ++ data.

(** ** Reading *)

(** The outcomes of [readFrame]: a frame with its size on disk, [io.EOF],
    [io.ErrUnexpectedEOF], or another error. *)
Inductive read_result :=
| RFrame (fr : frame) (size : Z)
| REOF
| RUnexpectedEOF
| RBad (e : error).

(** [f.ReadAt(buf, off)] with [len(buf) = n]: the bytes read; fewer than [n]
    exactly when it reports an error. *)
Definition read_at (contents : text) (off n : nat) : text := take n (drop off contents).

Section Reading.
Context `{Codec}.

Definition readFrame (contents : text) (off : Z) : read_result :=
  let off := Z.to_nat off in
  let head := read_at contents off 8 in
  if len head <? 8 then
    (if len head =? 0 then REOF else RUnexpectedEOF)
  else
    let size := get_uint32 (take 4 head) in
    if (size =? 0) || (maxBatch <? size) then RBad (ErrMsg "invalid frame length")
    else
      let data := read_at contents (off + 8) (Z.to_nat size) in
      if len data <? size then RUnexpectedEOF
      else if negb (crc32 data =? get_uint32 (drop 4 head)) then RBad (ErrMsg "checksum mismatch")
      else match unmarshal_frame data with
           | None => RBad (ErrMsg "json")
           | Some fr => RFrame fr (size + 8)
           end.
End Reading.

(** ** Lemmas *)

Lemma put_uint32_length z : length (put_uint32 z) = 4%nat.
Proof. done. Qed.

Lemma get_put_uint32 z : 0 <= z < 2 ^ 32 -> get_uint32 (put_uint32 z) = z.
Proof.
  intros Hz. unfold get_uint32, put_uint32.
  rewrite !byte_code by (apply Z.mod_pos_bound; lia).
  rewrite !Z.shiftr_div_pow2, !Z.shiftl_mul_pow2 by lia.
  change (2 ^ 24) with 16777216. change (2 ^ 16) with 65536. change (2 ^ 8) with 256.
  rewrite (Z.mod_small (z / 16777216)) by (split; [apply Z.div_pos; lia|apply Z.div_lt_upper_bound; lia]).
  pose proof (Z.div_mod z 256 ltac:(lia)).
  pose proof (Z.div_mod (z / 256) 256 ltac:(lia)) as H1. rewrite Z.div_div in H1 by lia.
  pose proof (Z.div_mod (z / 65536) 256 ltac:(lia)) as H2. rewrite Z.div_div in H2 by lia.
  change (256 * 256) with 65536 in H1. change (65536 * 256) with 16777216 in H2. lia.
Qed.

Lemma lxor_bound a b : 0 <= a < 2 ^ 32 -> 0 <= b < 2 ^ 32 -> 0 <= Z.lxor a b < 2 ^ 32.
Proof.
  intros Ha Hb. split; [apply Z.lxor_nonneg; lia|].
  destruct (Z.eq_dec (Z.lxor a b) 0) as [->|Hne]; [lia|].
  apply Z.log2_lt_pow2; [pose proof (proj2 (Z.lxor_nonneg a b)); lia|].
  eapply Z.le_lt_trans; [apply Z.log2_lxor; lia|].
  apply Z.max_lub_lt.
  - destruct (Z.eq_dec a 0) as [->|]; [cbn; lia|]. apply Z.log2_lt_pow2; lia.
  - destruct (Z.eq_dec b 0) as [->|]; [cbn; lia|]. apply Z.log2_lt_pow2; lia.
Qed.

Lemma shiftr1_bound c : 0 <= c < 2 ^ 32 -> 0 <= Z.shiftr c 1 < 2 ^ 32.
Proof.
  intros Hc. rewrite Z.shiftr_div_pow2 by lia. change (2 ^ 1) with 2.
  pose proof (Z.div_pos c 2). pose proof (Z.div_le_upper_bound c 2 c). lia.
Qed.

Lemma crc_bits_bound n c : 0 <= c < 2 ^ 32 -> 0 <= crc_bits n c < 2 ^ 32.
Proof.
  revert c. induction n as [|n IH]; intros c Hc; simpl; [done|].
  apply IH. case_match.
  - apply lxor_bound; [by apply shiftr1_bound|unfold crc_poly; lia].
  - by apply shiftr1_bound.
Qed.

(** The checksum fits the 32-bit field it is stored in. *)
Lemma crc32_bound data : 0 <= crc32 data < 2 ^ 32.
Proof.
  unfold crc32. apply lxor_bound; [|lia].
  assert (H : forall c, 0 <= c < 2 ^ 32 -> 0 <= fold_left crc_byte data c < 2 ^ 32).
  { induction data as [|b data IH]; intros c Hc; simpl; [done|].
    apply IH. unfold crc_byte. apply crc_bits_bound, lxor_bound; [done|].
    pose proof (code_bound b). lia. }
  apply H. lia.
Qed.

Lemma frame_bytes_length data : length (frame_bytes data) = (8 + length data)%nat.
Proof. unfold frame_bytes. rewrite !length_app, !put_uint32_length. lia. Qed.

Lemma frame_bytes_len data : len (frame_bytes data) = len data + 8.
Proof. unfold len. rewrite frame_bytes_length. lia. Qed.

Lemma crc32_check : crc32 (lit "123456789") = 0xCBF43926.
Proof. vm_compute. reflexivity. Qed.

Section ReadingLemmas.
Context `{Codec}.

(** Reading the head of a complete frame recovers its two fields. *)
Lemma read_head pre data post :
  let head := read_at (pre ++ frame_bytes data ++ post) (length pre) 8 in
  length head = 8%nat /\ take 4 head = put_uint32 (len data) /\ drop 4 head = put_uint32 (crc32 data).
Proof.
  unfold read_at. rewrite drop_app_length. unfold frame_bytes.
  rewrite <- !app_assoc. simpl. done.
Qed.

Lemma read_frame_at pre data post fr :
  len data <= maxBatch -> data <> [] -> unmarshal_frame data = Some fr ->
  readFrame (pre ++ frame_bytes data ++ post) (len pre) = RFrame fr (len (frame_bytes data)).
Proof.
  intros Hmax Hne Hdec. unfold readFrame. rewrite to_nat_len.
  destruct (read_head pre data post) as (Hl & H4 & H4').
  assert (Hl' : len (read_at (pre ++ frame_bytes data ++ post) (length pre) 8) = 8) by (unfold len; by rewrite Hl).
  rewrite Hl'. change (8 <? 8) with false. cbv iota.
  rewrite H4, H4'.
  assert (0 < len data) by (destruct data; [done|unfold len; simpl; lia]).
  unfold maxBatch in Hmax.
  rewrite get_put_uint32 by lia. rewrite get_put_uint32 by apply crc32_bound.
  destruct (Z.eqb_spec (len data) 0); [lia|].
  destruct (Z.ltb_spec maxBatch (len data)) as [|]; [unfold maxBatch in *; lia|]. cbn [orb].
  assert (Hdata : read_at (pre ++ frame_bytes data ++ post) (length pre + 8) (Z.to_nat (len data)) = data).
  { unfold read_at. rewrite <- drop_drop, drop_app_length. unfold frame_bytes. rewrite <- !app_assoc.
    change (drop 8 (put_uint32 (len data) ++ put_uint32 (crc32 data) ++ data ++ post)) with (data ++ post).
    rewrite to_nat_len. apply take_app_length. }
  rewrite Hdata, Z.ltb_irrefl, Z.eqb_refl, Hdec. cbn [negb].
  by rewrite frame_bytes_len.
Qed.

(** A proper, non-empty prefix of a frame at the end of the file reads as
    [io.ErrUnexpectedEOF]. *)
Lemma read_torn_frame pre data n :
  len data <= maxBatch -> data <> [] -> (0 < n < length (frame_bytes data))%nat ->
  readFrame (pre ++ take n (frame_bytes data)) (len pre) = RUnexpectedEOF.
Proof.
  intros Hmax Hne Hn. rewrite frame_bytes_length in Hn. unfold readFrame.
  rewrite to_nat_len. unfold read_at. rewrite drop_app_length.
  destruct (decide (n < 8)%nat) as [H8|H8].
  - assert (Hlen : length (take 8 (take n (frame_bytes data))) = n).
    { rewrite take_take, length_take, frame_bytes_length. lia. }
    unfold len. rewrite Hlen.
    destruct (Z.ltb_spec (Z.of_nat n) 8); [|lia]. destruct (Z.eqb_spec (Z.of_nat n) 0); [lia|done].
  - assert (Hhead : take 8 (take n (frame_bytes data)) = put_uint32 (len data) ++ put_uint32 (crc32 data)).
    { rewrite take_take, Nat.min_l by lia. done. }
    rewrite Hhead. change (len (put_uint32 (len data) ++ put_uint32 (crc32 data)) <? 8) with false. cbv iota.
    change (take 4 (put_uint32 (len data) ++ put_uint32 (crc32 data))) with (put_uint32 (len data)).
    assert (0 < len data) by (destruct data; [done|unfold len; simpl; lia]).
    rewrite get_put_uint32 by (unfold maxBatch in *; lia).
    destruct (Z.eqb_spec (len data) 0); [lia|].
    destruct (Z.ltb_spec maxBatch (len data)); [lia|]. cbn [orb].
    rewrite <- drop_drop, drop_app_length.
    destruct (Z.ltb_spec (len (take (Z.to_nat (len data)) (drop 8 (take n (frame_bytes data))))) (len data)); [done|].
    exfalso. unfold len in *. rewrite length_take, length_drop, length_take, frame_bytes_length in *. lia.
Qed.

Lemma read_end contents : readFrame contents (len contents) = REOF.
Proof.
  unfold readFrame, read_at. by rewrite to_nat_len, drop_all.
Qed.

(** reading a file that ends with [n] bytes of a frame, at the offset
    where it starts, gives end of file for none of them, an unexpected end of
    file for a proper part, and the frame with its size on disk for all of
    them; the checksum never rejects a frame that was written whole. *)
Theorem readFrame_cut pre data fr n :
  len data <= maxBatch -> data <> [] -> unmarshal_frame data = Some fr ->
  (n <= length (frame_bytes data))%nat ->
  readFrame (pre ++ take n (frame_bytes data)) (len pre)
  = if (n =? 0)%nat then REOF
    else if (n <? length (frame_bytes data))%nat then RUnexpectedEOF
    else RFrame fr (len (frame_bytes data)).
Proof.
  intros Hmax Hne Hd Hn. destruct (Nat.eqb_spec n 0) as [->|H0].
  - rewrite take_0, app_nil_r. apply read_end.
  - destruct (Nat.ltb_spec n (length (frame_bytes data))) as [Hlt|Hge].
    + apply read_torn_frame; [done|done|lia].
    + rewrite take_ge by done. rewrite <- (app_nil_r (frame_bytes data)) at 1. by apply read_frame_at.
Qed.
End ReadingLemmas.
