(* ===== verification/RunStore.v ===== *)
(** * The directory run store ([runstore/directory/directory.go])

    The in-memory index of a run over its framed append-only segments, and
    every operation on it: validation and installation of records, appending a
    batch, the two halves of a flush around the unlocked syncs, reading,
    creating, opening after a crash, closing, and the blob files.  The outcome
    of each system call, fresh identifiers and the clock are arguments. *)

From S2P Require Import Prelude GoText RunStoreTypes.
From Stdlib Require Import Ascii.

(** ** State *)

(** An open file: its bytes, and how many leading bytes are known to be on
    stable storage (the operating system's state, which the code never reads). *)
Record os_file := MkFile {
  contents : text;
  durable : nat;
}.

Record segment := MkSegment {
  file : os_file;
  ssize : Z;
}.

Record location := MkLocation {
  lsegment : nat;
  loffset : Z;
  lindex : nat;
  ldigest : string;
}.

(** The fields of [run]; [dirEntries] is the number of segment names known to
    be on stable storage, again the operating system's state. *)
Record run := MkRun {
  header : Header;
  segments : list segment;
  nodes : gmap string Node;
  slots : gmap Slot string;
  ids : gmap string location;
  unique : gmap string string;
  records : list string;
  committed : Z;
  pendingBytes : Z;
  poison : option error;
  closed : bool;
  closing : bool;
  syncedSegments : Z;
  dirEntries : nat;
}.

Definition zero_header : Header :=
  {| HVersion := 0; RunID := ""; Workflow := ""; Root := ""; CreatedAt := 0 |}.

(** What a map lookup yields for a missing node. *)
Definition zero_node : Node :=
  {| NID := ""; Spec := {| SpecSlot := MkSlot "" "" "" 0; DisplayKey := ""; Metadata := [] |} |}.

(** [newRun] without its lock file: every map empty. *)
Definition newRun : run :=
  MkRun zero_header [] ∅ ∅ ∅ ∅ [] 0 0 None false false 0 0.

Definition with_header (h : Header) (r : run) : run :=
  MkRun h (segments r) (nodes r) (slots r) (ids r) (unique r) (records r) (committed r)
    (pendingBytes r) (poison r) (closed r) (closing r) (syncedSegments r) (dirEntries r).
Definition with_segments (l : list segment) (r : run) : run :=
  MkRun (header r) l (nodes r) (slots r) (ids r) (unique r) (records r) (committed r)
    (pendingBytes r) (poison r) (closed r) (closing r) (syncedSegments r) (dirEntries r).
Definition with_poison (e : error) (r : run) : run :=
  MkRun (header r) (segments r) (nodes r) (slots r) (ids r) (unique r) (records r) (committed r)
    (pendingBytes r) (Some e) (closed r) (closing r) (syncedSegments r) (dirEntries r).
Definition with_pending (z : Z) (r : run) : run :=
  MkRun (header r) (segments r) (nodes r) (slots r) (ids r) (unique r) (records r) (committed r)
    z (poison r) (closed r) (closing r) (syncedSegments r) (dirEntries r).
Definition with_committed (c s : Z) (r : run) : run :=
  MkRun (header r) (segments r) (nodes r) (slots r) (ids r) (unique r) (records r) c
    (pendingBytes r) (poison r) (closed r) (closing r) s (dirEntries r).
Definition with_closing (r : run) : run :=
  MkRun (header r) (segments r) (nodes r) (slots r) (ids r) (unique r) (records r) (committed r)
    (pendingBytes r) (poison r) (closed r) true (syncedSegments r) (dirEntries r).
Definition with_closed (r : run) : run :=
  MkRun (header r) (segments r) (nodes r) (slots r) (ids r) (unique r) (records r) (committed r)
    (pendingBytes r) (poison r) true (closing r) (syncedSegments r) (dirEntries r).
Definition with_dirEntries (n : nat) (r : run) : run :=
  MkRun (header r) (segments r) (nodes r) (slots r) (ids r) (unique r) (records r) (committed r)
    (pendingBytes r) (poison r) (closed r) (closing r) (syncedSegments r) n.

(** ** Outcomes of system calls *)

(** [WriteAt] reports how many bytes it wrote, possibly with an error. *)
Record append_io := MkAppendIO {
  open_err : option error;
  write_res : nat -> nat * option error;
}.

Record flush_io := MkFlushIO {
  sync_err : nat -> option error;
  syncdir_err : option error;
}.

(** All system calls succeed. *)
Definition good_append : append_io := MkAppendIO None (fun n => (n, None)).
Definition good_flush : flush_io := MkFlushIO (fun _ => None) None.

(** [f.WriteAt(b, off)]: a hole before [off] reads as zeros. *)
Definition write_at (c : text) (off : nat) (b : text) : text :=
  take off (c ++ replicate (off - length c) (byte 0)) ++ b ++ drop (off + length b) c.

Section Store.
Context `{Codec}.

(** ** Guards *)

(** [r.check(ctx)]; [ctx] says whether [ctx.Err()] is non-nil. *)
Definition check (ctx : bool) (r : run) : option error :=
  if ctx then Some ErrCtx
  else if closed r || closing r then Some ErrClosed
  else poison r.

Definition uniqueKey (f : Fact) : string :=
  if existsb (String.eqb (FKind f)) ["intent"; "binding"; "native-binding"; "outcome"]%string
  then (FNode f +:+ "/" +:+ FKind f)%string
  else ""%string.

(** The node a [node-created] fact describes is well formed and fits the
    tree; [None] is no error. *)
Definition validate_node (r : run) (f : Fact) (internal : bool) : option error :=
  if negb internal then Some (ErrMsg "runstore: use EnsureNode to create a node")
  else
    let '(n, ok) := unmarshal_node (Payload f) in
    if negb ok || negb (String.eqb (NID n) (FNode f)) || (Ordinal (slot_of n) <? 0)
       || String.eqb (Name (slot_of n)) "" || ((0 <? len (Metadata (Spec n))) && negb (json_valid (Metadata (Spec n))))
    then Some (ErrMsg "runstore: invalid node")
    else if negb (is_kind (kind_of n)) then Some (ErrMsg "runstore: invalid node kind")
    else if bool_decide (is_Some (nodes r !! NID n)) then Some ErrConflict
    else if bool_decide (is_Some (slots r !! slot_of n)) then Some ErrConflict
    else if String.eqb (parent_of n) "" then
      (if negb (String.eqb (NID n) (Root (header r))) || negb (bool_decide (size (nodes r) = 0%nat))
          || negb (String.eqb (kind_of n) Scope)
       then Some (ErrMsg "runstore: invalid root") else None)
    else match nodes r !! parent_of n with
         | None => Some (ErrMsg "runstore: missing parent")
         | Some parent =>
             if negb (String.eqb (kind_of parent) Scope)
                && (negb (String.eqb (kind_of n) Action)
                    || (negb (String.eqb (kind_of parent) Session) && negb (String.eqb (kind_of parent) Action)))
             then Some (ErrMsg "runstore: invalid parent kind") else None
         end.

(** A [Scope] or [Session] reference names a node of that kind. *)
Definition validate_ref (r : run) (id kind : string) : option error :=
  if String.eqb id "" then None
  else match nodes r !! id with
       | Some n => if String.eqb (kind_of n) kind then None else Some (ErrMsg "runstore: invalid reference")
       | None => Some (ErrMsg "runstore: invalid reference")
       end.

Definition validate (r : run) (f : Fact) (internal : bool) : option error :=
  if negb (FVersion f =? 1) || negb (ValidID (FID f)) || negb (ValidID (FNode f))
     || String.eqb (FKind f) "" || negb (json_valid (Payload f))
  then Some (ErrMsg "runstore: invalid fact")
  else if negb (String.eqb (uniqueKey f) "") && bool_decide (is_Some (unique r !! uniqueKey f))
  then Some ErrConflict
  else
    match (if String.eqb (FKind f) "node-created" then validate_node r f internal
           else match nodes r !! FNode f with None => Some (ErrMsg "runstore: missing node") | Some _ => None end) with
    | Some e => Some e
    | None =>
        match validate_ref r (FScope f) Scope with
        | Some e => Some e
        | None => validate_ref r (FSession f) Session
        end
    end.

(** ** Installing a record *)

Definition digest_of (f : Fact) : string := sha256 (default [] (marshal_fact f)).

Definition install (rec : Rec) (loc : location) (r : run) : run :=
  let f := RFact rec in
  let k := uniqueKey f in
  let n := (unmarshal_node (Payload f)).1 in
  let created := String.eqb (FKind f) "node-created" in
  MkRun (header r) (segments r)
    (if created then <[NID n := n]> (nodes r) else nodes r)
    (if created then <[slot_of n := NID n]> (slots r) else slots r)
    (<[rec_id rec := loc]> (ids r))
    (if String.eqb k "" then unique r else <[k := rec_id rec]> (unique r))
    (records r ++ [rec_id rec])
    (committed r) (pendingBytes r) (poison r) (closed r) (closing r) (syncedSegments r) (dirEntries r).

(** The records of one frame, each at its index. *)
Fixpoint install_all (si : nat) (off : Z) (i : nat) (recs : list Rec) (r : run) : run :=
  match recs with
  | [] => r
  | rec :: recs' =>
      install_all si off (S i) recs' (install rec (MkLocation si off i (digest_of (RFact rec))) r)
  end.

(** ** Appending *)

Definition recordAt (r : run) (loc : location) : result error Rec :=
  match segments r !! lsegment loc with
  | None => Err (ErrMsg "index out of range")
  | Some s =>
      match readFrame (contents (file s)) (loffset loc) with
      | REOF => Err (ErrMsg "EOF")
      | RUnexpectedEOF => Err (ErrMsg "unexpected EOF")
      | RBad e => Err e
      | RFrame fr _ => match FrRecords fr !! lindex loc with
                       | Some rec => Ok rec
                       | None => Err ErrCorrupt
                       end
      end
  end.

(** The loop state of [appendLocked]: the records to return, the new ones
    among them, the digests and the unique keys of the batch so far. *)
Record batch := MkBatch {
  out : list Rec;
  fresh : list Rec;
  seen : gmap string string;
  keys : gset string;
}.

Definition empty_batch : batch := MkBatch [] [] ∅ ∅.

(** One iteration of the validation loop. *)
Definition batch_step (r : run) (internal : bool) (b : batch) (f : Fact) : result error batch :=
  match marshal_fact f with
  | None => Err (ErrMsg "json")
  | Some raw =>
      let digest := sha256 raw in
      match ids r !! FID f with
      | Some loc =>
          if negb (String.eqb (ldigest loc) digest) then Err ErrConflict
          else rec ← recordAt r loc; Ok (MkBatch (out b ++ [rec]) (fresh b) (seen b) (keys b))
      | None =>
          match seen b !! FID f with
          | Some d =>
              if negb (String.eqb d digest) then Err ErrConflict
              else match List.find (fun rec => String.eqb (rec_id rec) (FID f)) (fresh b) with
                   | Some rec => Ok (MkBatch (out b ++ [rec]) (fresh b) (seen b) (keys b))
                   | None => Ok b
                   end
          | None =>
              match validate r f internal with
              | Some e => Err e
              | None =>
                  let k := uniqueKey f in
                  if negb (String.eqb k "") && bool_decide (k ∈ keys b) then Err ErrConflict
                  else
                    let rec := {| Sequence := len (records r) + len (fresh b) + 1; RFact := f |} in
                    Ok (MkBatch (out b ++ [rec]) (fresh b ++ [rec]) (<[FID f := digest]> (seen b))
                          (if String.eqb k "" then keys b else {[k]} ∪ keys b))
              end
          end
      end
  end.

Fixpoint batch_loop (r : run) (internal : bool) (b : batch) (facts : list Fact) : result error batch :=
  match facts with
  | [] => Ok b
  | f :: facts' => b' ← batch_step r internal b f; batch_loop r internal b' facts'
  end.

(** Whether the next frame of [n] data bytes starts a new segment. *)
Definition needs_segment (r : run) (n : Z) : bool :=
  match last (segments r) with
  | None => true
  | Some s => segmentSize <? ssize s + (n + 8)
  end.

(** Replace the file of the last segment. *)
Definition update_last (f : segment -> segment) (r : run) : run :=
  with_segments (alter f (length (segments r) - 1)%nat (segments r)) r.

(** The write half of [appendLocked]: the frame goes to the last segment in
    one write, and the records are installed only if all of it was written. *)
Definition write_batch (io : append_io) (h : option Header) (recs : list Rec) (r : run) : run * option error :=
  match marshal_frame (MkFrame h recs) with
  | None => (r, Some (ErrMsg "json"))
  | Some data =>
      if maxBatch <? len data then (r, Some (ErrMsg "runstore: batch exceeds bytes; use blobs"))
      else
        match (if needs_segment r (len data)
               then match open_err io with
                    | Some e => Err e
                    | None => Ok (with_segments (segments r ++ [MkSegment (MkFile [] 0) 0]) r)
                    end
               else Ok r) with
        | Err e => (with_poison e r, Some e)
        | Ok r =>
            let si := (length (segments r) - 1)%nat in
            let off := match last (segments r) with Some s => ssize s | None => 0 end in
            let buf := frame_bytes data in
            let '(n, werr) := write_res io (length buf) in
            let put s := MkSegment (MkFile (write_at (contents (file s)) (Z.to_nat off) (take n buf))
                                           (durable (file s))) (ssize s) in
            let r1 := update_last put r in
            match werr with
            | Some e => (with_poison e r1, Some e)
            | None =>
                if negb (Nat.eqb n (length buf)) then (with_poison ErrShortWrite r1, Some ErrShortWrite)
                else
                  let grow s := MkSegment (file s) (ssize s + len buf) in
                  let r2 := with_pending (pendingBytes r1 + len buf) (update_last grow r1) in
                  (install_all si off 0 recs r2, None)
            end
        end
  end.

Definition appendLocked (io : append_io) (facts : list Fact) (h : option Header) (internal : bool) (r : run)
    : run * result error (list Rec) :=
  match batch_loop r internal empty_batch facts with
  | Err e => (r, Err e)
  | Ok b =>
      match fresh b with
      | [] => (r, Ok (out b))
      | _ :: _ =>
          match write_batch io h (fresh b) r with
          | (r', Some e) => (r', Err e)
          | (r', None) => (r', Ok (out b))
          end
      end
  end.

(** ** Flushing

    [flush] holds the lock while it takes [snapshot] and while it publishes
    the outcome, but not while it syncs the files. *)

Record snapshot := MkSnapshot {
  snapSeq : Z;
  snapFiles : nat;
  needsDirSync : bool;
  bytesAtStart : Z;
}.

Inductive flush_start :=
| FlushReturn (e : option error)
| FlushSync (s : snapshot).

Definition flush_begin (ctx isClosing : bool) (r : run) : flush_start :=
  let e := check ctx r in
  if bool_decide (e ≠ None)
     && (negb isClosing || negb (closing r) || closed r || ctx || bool_decide (poison r ≠ None))
  then FlushReturn e
  else
    let seq := len (records r) in
    if seq =? committed r then FlushReturn None
    else FlushSync (MkSnapshot seq (length (segments r)) (syncedSegments r <? len (segments r)) (pendingBytes r)).

(** A successful [Sync] of file [i] makes all of its bytes durable. *)
Definition sync_file (i : nat) (r : run) : run :=
  with_segments
    (alter (fun s => MkSegment (MkFile (contents (file s)) (length (contents (file s)))) (ssize s)) i (segments r)) r.

(** A successful [syncDir] makes every segment name durable. *)
Definition sync_dir (r : run) : run := with_dirEntries (length (segments r)) r.

(** The loop over the files of the snapshot, from file [i]. *)
Fixpoint sync_files (io : flush_io) (i n : nat) (err : option error) (r : run) : run * option error :=
  match n with
  | O => (r, err)
  | S k =>
      match sync_err io i with
      | None => sync_files io (S i) k err (sync_file i r)
      | Some e => sync_files io (S i) k (join_err err (Some e)) r
      end
  end.

Definition flush_sync (io : flush_io) (s : snapshot) (r : run) : run * option error :=
  let '(r, err) := sync_files io 0 (snapFiles s) None r in
  match err with
  | None =>
      if needsDirSync s then
        match syncdir_err io with
        | None => (sync_dir r, None)
        | Some e => (r, Some e)
        end
      else (r, None)
  | Some e => (r, Some e)
  end.

Definition flush_end (ctx : bool) (s : snapshot) (err : option error) (r : run) : run * option error :=
  match err with
  | Some e => (with_poison e r, Some e)
  | None =>
      (with_pending (pendingBytes r - bytesAtStart s)
         (with_committed (snapSeq s) (Z.of_nat (snapFiles s)) r),
       if ctx then Some ErrCtx else None)
  end.

(** A flush during which no other operation runs. *)
Definition flush (io : flush_io) (ctx isClosing : bool) (r : run) : run * option error :=
  match flush_begin ctx isClosing r with
  | FlushReturn e => (r, e)
  | FlushSync s => let '(r, err) := flush_sync io s r in flush_end ctx s err r
  end.

Definition Flush (io : flush_io) (ctx : bool) (r : run) : run * option error := flush io ctx false r.

(** ** Operations of [runstore.Run] *)

(** [Append] waits while too many bytes are pending: it then cannot take a
    step unless its context is done. *)
Definition append_waits (r : run) : bool :=
  (pendingLimit <=? pendingBytes r) && bool_decide (poison r = None) && negb (closed r) && negb (closing r).

Definition Append (io : append_io) (fio : flush_io) (ctx : bool) (facts : list Fact) (d : Durability) (r : run)
    : option (run * result error (list Rec)) :=
  if append_waits r then (if ctx then Some (r, Err ErrCtx) else None)
  else
    Some match check ctx r with
         | Some e => (r, Err e)
         | None =>
             match appendLocked io facts None false r with
             | (r', Err e) => (r', Err e)
             | (r', Ok recs) =>
                 match d with
                 | Buffered => (r', Ok recs)
                 | Committed => match Flush fio ctx r' with
                                | (r'', Some e) => (r'', Err e)
                                | (r'', None) => (r'', Ok recs)
                                end
                 end
             end
         end.

(** [run.Header] *)
Definition getHeader (ctx : bool) (r : run) : result error Header :=
  match check ctx r with Some e => Err e | None => Ok (header r) end.

Definition NodeAt (ctx : bool) (s : Slot) (r : run) : result error Node :=
  match check ctx r with
  | Some e => Err e
  | None =>
      match slots r !! s with
      | None => Err ErrNotFound
      | Some id => Ok (default zero_node (nodes r !! id))
      end
  end.

Definition EnsureNode (io : append_io) (ctx : bool) (newNode newRecord : string) (s : NodeSpec) (r : run)
    : run * result error Node :=
  match check ctx r with
  | Some e => (r, Err e)
  | None =>
      match slots r !! SpecSlot s with
      | Some id =>
          let n := default zero_node (nodes r !! id) in
          let oldSpec := default [] (marshal_spec (Spec n)) in
          match marshal_spec s with
          | None => (r, Err (ErrMsg "json"))
          | Some newSpec => if bool_decide (oldSpec = newSpec) then (r, Ok n) else (r, Err ErrConflict)
          end
      | None =>
          let n := {| NID := newNode; Spec := s |} in
          match marshal_node n with
          | None => (r, Err (ErrMsg "json"))
          | Some raw =>
              let f := {| FVersion := 1; FID := newRecord; FNode := newNode; FScope := ""; FSession := "";
                          FKind := "node-created"; Payload := raw |} in
              match appendLocked io [f] None true r with
              | (r', Err e) => (r', Err e)
              | (r', Ok _) => (r', Ok n)
              end
          end
      end
  end.

(** [for seq := after; seq < committed && len(out) < limit; seq++]; [fuel]
    counts the iterations left, at most [limit]. *)
Fixpoint read_loop (fuel : nat) (seq : Z) (r : run) : result error (list Rec) :=
  match fuel with
  | O => Ok []
  | S k =>
      if seq <? committed r then
        match records r !! Z.to_nat seq with
        | None => Err (ErrMsg "index out of range")
        | Some id =>
            rec ← recordAt r (default (MkLocation 0 0 0 "") (ids r !! id));
            rest ← read_loop k (seq + 1) r;
            Ok (rec :: rest)
        end
      else Ok []
  end.

Definition Read (ctx : bool) (after limit : Z) (r : run) : result error (list Rec) :=
  match check ctx r with
  | Some e => Err e
  | None =>
      if (limit <=? 0) || (4096 <? limit) then Err (ErrMsg "runstore: read limit must be 1..4096")
      else read_loop (Z.to_nat limit) after r
  end.

(** [Close] while no other operation runs; [closeErrs] are the errors of the
    [Close] calls on the files and the lock. *)
Definition Close (io : flush_io) (closeErrs : option error) (r : run) : run * option error :=
  if closed r then (r, None)
  else
    let '(r, err) := flush io false true (with_closing r) in
    (with_closed r, join_err err closeErrs).
End Store.
