(* ===== verification/RunStoreOpen.v ===== *)
(** * Creating, opening and the blobs of a run ([runstore/directory/directory.go])

    [Create] writes the root node as the first frame; [Open] rebuilds the
    index from the segments, cutting a torn frame off the last one; [PutBlob]
    and [OpenBlob] keep content-addressed files. *)

From S2P Require Import Prelude GoText RunStoreTypes RunStore.
From Stdlib Require Import Ascii.

(** ** Names of segment files *)

(** [n] in [k] decimal digits, the most significant first. *)
Fixpoint pad_digits (k : nat) (n : N) : text :=
  match k with
  | O => []
  | S k' => pad_digits k' (n / 10) ++ [ascii_of_N (48 + n mod 10)]
  end.

(** [fmt.Sprintf("%08d.segment", i)] *)
Definition segment_name (i : nat) : text :=
  (if (N.of_nat i <? 100000000)%N then pad_digits 8 (N.of_nat i) else itoa (Z.of_nat i)) ++ lit ".segment".

(** The byte order [sort.Strings] uses. *)
Fixpoint text_leb (a b : text) : bool :=
  match a, b with
  | [], _ => true
  | _ :: _, [] => false
  | x :: a', y :: b' =>
      if code x <? code y then true else if code y <? code x then false else text_leb a' b'
  end.

(** A file of the run directory: its base name and its bytes. *)
Abbreviation dir_entry := (text * text)%type.

Fixpoint insert_name (e : dir_entry) (l : list dir_entry) : list dir_entry :=
  match l with
  | [] => [e]
  | x :: l' => if text_leb e.1 x.1 then e :: l else x :: insert_name e l'
  end.

(** [sort.Strings(names)] *)
Definition sort_names (l : list dir_entry) : list dir_entry := foldr insert_name [] l.

(** ** Outcomes of system calls *)

Inductive mkdir_result := MkdirOk | MkdirExists | MkdirErr (e : error).

Record create_io := {
  cr_mkroot : option error;      (** [MkdirAll(s.Root)] *)
  cr_mkrun : mkdir_result;       (** [Mkdir] of the run's own directory *)
  cr_mkstate : option error;
  cr_mkblobs : option error;
  cr_lock : option error;        (** [newRun]: the lock file and [lockWriter] *)
  cr_append : append_io;
  cr_flush : flush_io;
  cr_ancestors : option error;   (** [syncAncestors] *)
  cr_marker : option error;      (** writing, syncing and closing [ready.tmp] *)
  cr_rename : option error;
  cr_syncdir : option error;
}.

(** All system calls succeed. *)
Definition good_create : create_io :=
  {| cr_mkroot := None; cr_mkrun := MkdirOk; cr_mkstate := None; cr_mkblobs := None; cr_lock := None;
     cr_append := good_append; cr_flush := good_flush; cr_ancestors := None; cr_marker := None;
     cr_rename := None; cr_syncdir := None |}.

Inductive read_file := FileMissing | FileErr (e : error) | FileOk (data : text).

(** The lock of an existing run: missing lock file, or the error of opening
    or locking it. *)
Inductive lock_result := LockOk | LockMissing | LockErr (e : error).

Record open_io := {
  op_ctx : bool;                 (** [ctx.Err()] at entry *)
  op_ready : read_file;
  op_lock : lock_result;
  op_glob : option error;
  op_open : nat -> option error; (** opening segment [i] *)
  op_frame_ctx : nat -> Z -> bool; (** [ctx.Err()] before each frame *)
  op_truncate : option error;
  op_flush : flush_io;
  op_flush_ctx : bool;
}.

Definition good_open : open_io :=
  {| op_ctx := false; op_ready := FileOk (lit "1" ++ [newline]); op_lock := LockOk; op_glob := None;
     op_open := fun _ => None; op_frame_ctx := fun _ _ => false; op_truncate := None;
     op_flush := good_flush; op_flush_ctx := false |}.

(** [if err := ...; err != nil { return err }] *)
Definition guard_err (e : option error) : result error unit :=
  match e with Some e => Err e | None => Ok tt end.

(** The files of the [blobs] directory by name. *)
Abbreviation blob_dir := (gmap string text).

Section Open.
Context `{Codec}.

(** ** Create *)

(** The header after the defaults are filled in, or why it is refused;
    [newRoot] and [now] are the fresh identifier and the clock. *)
Definition fill_header (newRoot : string) (now : Z) (h : Header) : result error Header :=
  let v := if HVersion h =? 0 then 1 else HVersion h in
  if negb (v =? 1) || String.eqb (Workflow h) "" then Err (ErrMsg "runstore: invalid header")
  else
    let root := if String.eqb (Root h) "" then newRoot else Root h in
    if negb (ValidID root) then Err (ErrMsg "runstore: invalid root")
    else Ok {| HVersion := v; RunID := RunID h; Workflow := Workflow h; Root := root;
               CreatedAt := if CreatedAt h =? 0 then now else CreatedAt h |}.

(** The root node and the fact that records it. *)
Definition root_node (h : Header) : Node :=
  {| NID := Root h;
     Spec := {| SpecSlot := MkSlot "" Scope (Workflow h) 0; DisplayKey := Workflow h; Metadata := [] |} |}.

Definition root_fact (newRecord : string) (h : Header) : Fact :=
  {| FVersion := 1; FID := newRecord; FNode := Root h; FScope := ""; FSession := "";
     FKind := "node-created"; Payload := default [] (marshal_node (root_node h)) |}.

(** [Store.Create]: the open run once the ready marker is durable. *)
Definition Create (io : create_io) (ctx ctxFlush : bool) (newRoot newRecord : string) (now : Z) (h : Header)
    : result error run :=
  _ ← guard_err (if ctx then Some ErrCtx else None);
  _ ← guard_err (if ValidID (RunID h) then None else Some (ErrMsg "runstore: invalid run ID"));
  h ← fill_header newRoot now h;
  _ ← guard_err (cr_mkroot io);
  _ ← guard_err (match cr_mkrun io with MkdirOk => None | MkdirExists => Some ErrExists | MkdirErr e => Some e end);
  _ ← guard_err (cr_mkstate io);
  _ ← guard_err (cr_mkblobs io);
  _ ← guard_err (cr_lock io);
  let r := with_header h newRun in
  match appendLocked (cr_append io) [root_fact newRecord h] (Some h) true r with
  | (_, Err e) => Err e
  | (r, Ok _) =>
      match Flush (cr_flush io) ctxFlush r with
      | (_, Some e) => Err e
      | (r, None) =>
          _ ← guard_err (cr_ancestors io);
          _ ← guard_err (cr_marker io);
          _ ← guard_err (cr_rename io);
          _ ← guard_err (cr_syncdir io);
          Ok r
      end
  end.

(** ** Open *)

(** The records of one frame, validated and installed in order. *)
Fixpoint replay_records (si : nat) (off : Z) (i : nat) (recs : list Rec) (r : run) : result error run :=
  match recs with
  | [] => Ok r
  | rec :: recs' =>
      if negb (Sequence rec =? len (records r) + 1) then Err ErrCorrupt
      else if bool_decide (is_Some (ids r !! rec_id rec)) then Err ErrCorrupt
      else match validate r (RFact rec) true with
           | Some e => Err (ErrWrap ErrCorrupt e)
           | None => replay_records si off (S i) recs'
                       (install rec (MkLocation si off i (digest_of (RFact rec))) r)
           end
  end.

(** The header is in the first frame of the first segment and nowhere else. *)
Definition replay_header (id : string) (si : nat) (off : Z) (fr : frame) (r : run) : result error run :=
  if (off =? 0) && Nat.eqb si 0 then
    match FrHeader fr with
    | None => Err ErrCorrupt
    | Some h =>
        if negb (HVersion h =? 1) || negb (String.eqb (RunID h) id) || negb (ValidID (Root h))
           || String.eqb (Workflow h) ""
        then Err ErrCorrupt else Ok (with_header h r)
    end
  else match FrHeader fr with Some _ => Err ErrCorrupt | None => Ok r end.

(** The frame at [off] of segment [si]. *)
Definition replay_frame (id : string) (si : nat) (off : Z) (fr : frame) (r : run) : result error run :=
  r ← replay_header id si off fr r;
  if bool_decide (FrRecords fr = []) then Err ErrCorrupt
  else replay_records si off 0 (FrRecords fr) r.

(** The frames of segment [si], whose file is [data], from [off]; the result
    is the run, the bytes kept and their number.  Every frame is longer than
    eight bytes, so the length of the file is fuel enough. *)
Fixpoint replay_segment (io : open_io) (id : string) (fuel si : nat) (isLast : bool) (data : text)
    (off : Z) (r : run) : result error (run * text * Z) :=
  match fuel with
  | O => Err (ErrMsg "out of fuel")
  | S k =>
      if op_frame_ctx io si off then Err ErrCtx
      else match readFrame data off with
           | REOF => Ok (r, data, off)
           | RUnexpectedEOF =>
               if isLast then
                 match op_truncate io with
                 | Some e => Err e
                 | None => Ok (r, take (Z.to_nat off) data, off)
                 end
               else Err (ErrWrap ErrCorrupt (ErrMsg "unexpected EOF"))
           | RBad e => Err (ErrWrap ErrCorrupt e)
           | RFrame fr size => r ← replay_frame id si off fr r; replay_segment io id k si isLast data (off + size) r
           end
  end.

(** The loop over the sorted segment names, [si] being the next index. *)
Fixpoint replay_segments (io : open_io) (id : string) (si : nat) (names : list dir_entry) (r : run)
    : result error run :=
  match names with
  | [] => Ok r
  | (name, data) :: rest =>
      if negb (bool_decide (name = segment_name si)) then Err ErrCorrupt
      else match op_open io si with
           | Some e => Err e
           | None =>
               '(r, data, off) ← replay_segment io id (S (length data)) si
                                   (match rest with [] => true | _ => false end) data 0 r;
               replay_segments io id (S si) rest
                 (with_segments (segments r ++ [MkSegment (MkFile data 0) off]) r)
           end
  end.

(** [Store.Open]: [dir] holds the files matching [*.segment]. *)
Definition Open (io : open_io) (id : string) (dir : list dir_entry) : result error run :=
  _ ← guard_err (if op_ctx io then Some ErrCtx else None);
  _ ← guard_err (if ValidID id then None else Some (ErrMsg "runstore: invalid run ID"));
  match op_ready io with
  | FileMissing => Err ErrIncomplete
  | FileErr e => Err e
  | FileOk ready =>
      if negb (bool_decide (ready = lit "1" ++ [newline])) then Err ErrCorrupt
      else match op_lock io with
           | LockMissing => Err ErrIncomplete
           | LockErr e => Err e
           | LockOk =>
               _ ← guard_err (op_glob io);
               let names := sort_names dir in
               _ ← guard_err (match names with [] => Some ErrCorrupt | _ => None end);
               r ← replay_segments io id 0 names newRun;
               match nodes r !! Root (header r) with
               | None => Err ErrCorrupt
               | Some root =>
                   if negb (String.eqb (parent_of root) "") || negb (String.eqb (kind_of root) Scope)
                   then Err ErrCorrupt
                   else match Flush (op_flush io) (op_flush_ctx io) r with
                        | (_, Some e) => Err e
                        | (r, None) => Ok r
                        end
               end
           end
  end.

(** ** Blobs *)

Record put_io := {
  pb_temp : option error;   (** [CreateTemp] *)
  pb_copy : option error;   (** [io.Copy] of the source *)
  pb_sync : option error;   (** [Sync] and [Close] of the temporary file *)
  pb_rename : option error;
  pb_syncdir : option error;
}.

Definition blob_key (data : text) : string := ("blobs/" +:+ sha256 data)%string.

(** [PutBlob]: the temporary file is renamed to the digest of its contents. *)
Definition PutBlob (io : put_io) (ctx : bool) (src : text) (r : run) (blobs : blob_dir)
    : blob_dir * result error BlobRef :=
  match check ctx r with
  | Some e => (blobs, Err e)
  | None =>
      match pb_temp io, pb_copy io, pb_sync io, pb_rename io with
      | Some e, _, _, _ => (blobs, Err e)
      | None, Some e, _, _ => (blobs, Err e)
      | None, None, Some e, _ => (blobs, Err e)
      | None, None, None, Some e => (blobs, Err e)
      | None, None, None, None =>
          let blobs' := <[blob_key src := src]> blobs in
          match pb_syncdir io with
          | Some e => (blobs', Err e)
          | None => (blobs', Ok {| BKey := blob_key src; BSize := len src; BSHA := sha256 src |})
          end
      end
  end.

Record open_blob_io := {
  ob_open : option error;
  ob_copy : option error;   (** reading the file while hashing it *)
  ob_seek : option error;
}.

Definition good_open_blob : open_blob_io := {| ob_open := None; ob_copy := None; ob_seek := None |}.

(** [hex.DecodeString] accepts an even number of hexadecimal digits. *)
Definition is_hex (c : ascii) : bool :=
  in_range 48 57 (code c) || in_range 97 102 (code c) || in_range 65 70 (code c).

Definition hex_ok (s : string) : bool := Z.even (len (lit s)) && forallb is_hex (lit s).

(** [OpenBlob]: the contents, after their size and digest were checked. *)
Definition OpenBlob (io : open_blob_io) (ctx : bool) (ref : BlobRef) (r : run) (blobs : blob_dir)
    : result error text :=
  match check ctx r with
  | Some e => Err e
  | None =>
      if negb (len (lit (BSHA ref)) =? 64) || negb (String.eqb (BKey ref) ("blobs/" +:+ BSHA ref))
         || (BSize ref <? 0)
      then Err ErrCorrupt
      else if negb (hex_ok (BSHA ref)) then Err ErrCorrupt
      else match ob_open io, blobs !! BKey ref with
           | Some e, _ => Err e
           | None, None => Err (ErrMsg "no such file or directory")
           | None, Some data =>
               match ob_copy io with
               | Some e => Err (ErrJoin ErrCorrupt e)
               | None =>
                   if negb (len data =? BSize ref) || negb (String.eqb (sha256 data) (BSHA ref))
                   then Err ErrCorrupt
                   else match ob_seek io with Some e => Err e | None => Ok data end
               end
           end
  end.
End Open.
