(* ===== verification/RunStoreInv.v ===== *)
(** * The run store: representation invariant

    What the segments hold ([Rep]), what the index must agree with
    ([Index]), and the lemmas that relate a validated batch to the replay
    [Open] makes of it. *)

From S2P Require Import Prelude GoText RunStoreTypes RunStore RunStoreOpen.
From Stdlib Require Import Ascii.

(** ** The image on disk *)

(** The bytes of a segment holding the frames with data [ds]. *)
Definition seg_bytes (ds : list text) : text := concat (frame_bytes <$> ds).

Definition good_data (d : text) : Prop := d <> [] /\ len d <= maxBatch.

(** The segments of [r] are the frames [img], the last one followed by [tail],
    the bytes of a write that did not complete. *)
Record Rep (img : list (list text)) (tail : text) (r : run) : Prop := {
  rep_length : length (segments r) = length img;
  rep_size : forall i s ds, segments r !! i = Some s -> img !! i = Some ds -> ssize s = len (seg_bytes ds);
  rep_contents : forall i s ds, segments r !! i = Some s -> img !! i = Some ds ->
    contents (file s) = seg_bytes ds ++ (if decide (S i = length img) then tail else []);
  rep_data : Forall (Forall good_data) img;
}.

Section Replay.
Context `{Codec}.

(** [Open] on images: the frames of one segment, and of all of them. *)
Fixpoint replay_data (id : string) (si : nat) (off : Z) (ds : list text) (r : run) : result error run :=
  match ds with
  | [] => Ok r
  | d :: ds' =>
      match unmarshal_frame d with
      | None => Err (ErrMsg "json")
      | Some fr =>
          r ← replay_frame id si off fr r;
          replay_data id si (off + len (frame_bytes d)) ds' r
      end
  end.

Fixpoint replay_img (id : string) (si : nat) (img : list (list text)) (r : run) : result error run :=
  match img with
  | [] => Ok r
  | ds :: rest => r ← replay_data id si 0 ds r; replay_img id (S si) rest r
  end.

(** The part of the state that replay determines. *)
Definition index_of (r : run) :=
  (header r, nodes r, slots r, ids r, unique r, records r).

(** Record [rec] is stored at [loc] of the image. *)
Definition located (img : list (list text)) (loc : location) (rec : Rec) : Prop :=
  exists pre d post fr,
    img !! lsegment loc = Some (pre ++ d :: post)
    /\ loffset loc = len (seg_bytes pre)
    /\ unmarshal_frame d = Some fr
    /\ FrRecords fr !! lindex loc = Some rec.

(** A record as it is after a round trip through the file. *)
Definition settled (rec : Rec) : Prop :=
  compact_rec rec = rec /\ json_valid (Payload (RFact rec)) = true.

(** The identifiers, the log order and the image agree. *)
Record Index (img : list (list text)) (r : run) : Prop := {
  index_nodup : NoDup (records r);
  index_ids : forall id loc, ids r !! id = Some loc ->
    exists k rec, located img loc rec /\ settled rec /\ rec_id rec = id
      /\ ldigest loc = digest_of (RFact rec)
      /\ records r !! k = Some id /\ Sequence rec = Z.of_nat k + 1;
  index_records : forall id, id ∈ records r -> is_Some (ids r !! id);
  index_committed : 0 <= committed r <= len (records r);
}.

(** The root node of the header is there and is a scope without a parent. *)
Definition has_root (r : run) : Prop :=
  exists n, nodes r !! Root (header r) = Some n /\ parent_of n = ""%string /\ kind_of n = Scope.

(** A run that has not failed: its segments hold exactly the frames [img], the
    index agrees with them, and replaying them gives the index. *)
Record Inv (img : list (list text)) (r : run) : Prop := {
  inv_rep : Rep img [] r;
  inv_index : Index img r;
  inv_replay : exists r0, replay_img (RunID (header r)) 0 img newRun = Ok r0 /\ index_of r0 = index_of r;
  inv_root : has_root r;
  inv_valid : ValidID (RunID (header r)) = true;
  inv_img : exists d ds rest, img = (d :: ds) :: rest;
}.

(** A torn write: nothing, or a proper prefix of a frame. *)
Definition torn (tail : text) : Prop :=
  exists d n, good_data d /\ (n < length (frame_bytes d))%nat /\ tail = take n (frame_bytes d).

(** The files hold the frames [img] and then [tail]. *)
Definition on_disk (img : list (list text)) (tail : text) (files : list text) : Prop :=
  exists pre ds, img = pre ++ [ds] /\ files = (seg_bytes <$> pre) ++ [seg_bytes ds ++ tail]
    /\ Forall (Forall good_data) img.

(** The bytes of the segment files of [r]. *)
Definition files_of (r : run) : list text := (fun s => contents (file s)) <$> segments r.

(** The files are the frames [img] and a torn write, and replay to the index
    of [rx]. *)
Record Recoverable (img : list (list text)) (files : list text) (rx : run) : Prop := {
  rc_disk : exists tail, on_disk img tail files /\ torn tail;
  rc_replay : exists r0, replay_img (RunID (header rx)) 0 img newRun = Ok r0 /\ index_of r0 = index_of rx;
  rc_root : has_root rx;
  rc_valid : ValidID (RunID (header rx)) = true;
  rc_index : Index img rx;
  rc_img : exists d ds rest, img = (d :: ds) :: rest;
}.
End Replay.

(** ** Segments *)

Lemma seg_bytes_app a b : seg_bytes (a ++ b) = seg_bytes a ++ seg_bytes b.
Proof. unfold seg_bytes. by rewrite fmap_app, concat_app. Qed.

Lemma seg_bytes_cons d ds : seg_bytes (d :: ds) = frame_bytes d ++ seg_bytes ds.
Proof. done. Qed.

Lemma write_at_end c b : write_at c (length c) b = c ++ b.
Proof.
  unfold write_at. rewrite Nat.sub_diag. simpl. rewrite app_nil_r, take_ge by lia.
  rewrite drop_ge by lia. by rewrite app_nil_r.
Qed.

Section Lemmas.
Context `{Hc : Codec}.

(** ** Replay depends on the index only *)

Lemma validate_index r1 r2 f i : index_of r1 = index_of r2 -> validate r1 f i = validate r2 f i.
Proof.
  unfold index_of. intros [= H1 H2 H3 H4 H5 H6].
  unfold validate, validate_node, validate_ref. by rewrite H1, H2, H3, H5.
Qed.

Lemma install_index rec loc r1 r2 :
  index_of r1 = index_of r2 -> index_of (install rec loc r1) = index_of (install rec loc r2).
Proof.
  unfold index_of. intros [= H1 H2 H3 H4 H5 H6]. simpl. by rewrite H1, H2, H3, H4, H5, H6.
Qed.

(** Results that agree on the index. *)
Definition same_index (a b : result error run) : Prop :=
  match a, b with
  | Ok r1, Ok r2 => index_of r1 = index_of r2
  | Err _, Err _ => True
  | _, _ => False
  end.

#[local] Instance same_index_equiv : Equivalence same_index.
Proof.
  split.
  - intros []; simpl; done.
  - intros [] []; simpl; done.
  - intros [] [] []; simpl; try done. congruence.
Qed.

Lemma same_index_Ok a b r : same_index a b -> a = Ok r -> exists r', b = Ok r' /\ index_of r = index_of r'.
Proof. intros H ->. destruct b as [r'|]; simpl in H; [eauto|done]. Qed.

Lemma replay_records_index si off i recs r1 r2 :
  index_of r1 = index_of r2 -> same_index (replay_records si off i recs r1) (replay_records si off i recs r2).
Proof.
  revert i r1 r2. induction recs as [|rec recs IH]; intros i r1 r2 Heq; simpl; [done|].
  assert (Hrec : records r1 = records r2) by (unfold index_of in Heq; congruence).
  assert (Hids : ids r1 = ids r2) by (unfold index_of in Heq; congruence).
  rewrite Hrec, Hids, (validate_index r1 r2) by done.
  repeat (case_match; [done|]). by apply IH, install_index.
Qed.

Lemma replay_header_index id si off fr r1 r2 :
  index_of r1 = index_of r2 -> same_index (replay_header id si off fr r1) (replay_header id si off fr r2).
Proof.
  intros Heq. unfold replay_header. repeat case_match; try done. simpl. unfold index_of in *. simpl. congruence.
Qed.

Lemma replay_frame_index id si off fr r1 r2 :
  index_of r1 = index_of r2 -> same_index (replay_frame id si off fr r1) (replay_frame id si off fr r2).
Proof.
  intros Heq. unfold replay_frame.
  pose proof (replay_header_index id si off fr r1 r2 Heq) as Hh.
  destruct (replay_header id si off fr r1), (replay_header id si off fr r2); simpl in *; try done.
  case_bool_decide; [done|]. by apply replay_records_index.
Qed.

Lemma replay_data_index id si off ds r1 r2 :
  index_of r1 = index_of r2 -> same_index (replay_data id si off ds r1) (replay_data id si off ds r2).
Proof.
  revert off r1 r2. induction ds as [|d ds IH]; intros off r1 r2 Heq; simpl; [done|].
  case_match; [|done].
  pose proof (replay_frame_index id si off f r1 r2 Heq) as Hf.
  destruct (replay_frame id si off f r1), (replay_frame id si off f r2); simpl in *; try done.
  by apply IH.
Qed.

Lemma replay_img_index id si img r1 r2 :
  index_of r1 = index_of r2 -> same_index (replay_img id si img r1) (replay_img id si img r2).
Proof.
  revert si r1 r2. induction img as [|ds img IH]; intros si r1 r2 Heq; simpl; [done|].
  pose proof (replay_data_index id si 0 ds r1 r2 Heq) as Hf.
  destruct (replay_data id si 0 ds r1), (replay_data id si 0 ds r2); simpl in *; try done.
  by apply IH.
Qed.

Lemma replay_data_app id si off a b r :
  replay_data id si off (a ++ b) r
  = r ← replay_data id si off a r; replay_data id si (off + len (seg_bytes a)) b r.
Proof.
  revert off r. induction a as [|d a IH]; intros off r; simpl.
  - by rewrite Z.add_0_r.
  - destruct (unmarshal_frame d); [|done].
    destruct (replay_frame id si off f r); simpl; [|done].
    rewrite IH. rewrite seg_bytes_cons, len_app.
    by replace (off + len (frame_bytes d) + len (seg_bytes a))
      with (off + (len (frame_bytes d) + len (seg_bytes a))) by lia.
Qed.

Lemma replay_img_app id si a b r :
  replay_img id si (a ++ b) r = r ← replay_img id si a r; replay_img id (si + length a) b r.
Proof.
  revert si r. induction a as [|d a IH]; intros si r; simpl.
  - by rewrite Nat.add_0_r.
  - destruct (replay_data id si 0 d r); simpl; [|done]. rewrite IH.
    by replace (S si + length a)%nat with (si + S (length a))%nat by lia.
Qed.
End Lemmas.

(** * The run store: what a validated batch is

    The loop invariant of [appendLocked], and the key fact behind recovery:
    the records a batch validated all at once are accepted one by one by the
    replay of [Open], which leaves the same index as installing them. *)

(** The fact is not a node creation, or its payload is what [EnsureNode]
    encoded. *)
Definition fact_fixed `{Codec} (f : Fact) : Prop :=
  FKind f = "node-created"%string -> compact (Payload f) = Payload f.

(** A batch that never mixes a node creation with other facts: [Append]
    refuses node creations, [EnsureNode] and [Create] append exactly one. *)
Definition batch_shape (internal : bool) (facts : list Fact) : Prop :=
  internal = false \/ (length facts <= 1)%nat.

(** The unique keys of a list of records, in order. *)
Definition ukeys (recs : list Rec) : list string :=
  List.filter (fun k => negb (String.eqb k "")) ((fun rec => uniqueKey (RFact rec)) <$> recs).

Section Batch.
Context `{Hc : Codec}.

(** What the validation loop knows after any prefix of the batch. *)
Record BatchInv (r : run) (internal : bool) (facts : list Fact) (b : batch) : Prop := {
  bi_fresh : forall i rec, fresh b !! i = Some rec ->
    Sequence rec = len (records r) + Z.of_nat i + 1
    /\ validate r (RFact rec) internal = None /\ ids r !! rec_id rec = None /\ RFact rec ∈ facts;
  bi_ids : NoDup (rec_id <$> fresh b);
  bi_seen : forall id, is_Some (seen b !! id) <-> id ∈ rec_id <$> fresh b;
  bi_keys : forall k, k ∈ keys b <-> k ∈ ukeys (fresh b);
  bi_ukeys : NoDup (ukeys (fresh b));
}.

Lemma ukeys_app a b : ukeys (a ++ b) = ukeys a ++ ukeys b.
Proof. unfold ukeys. by rewrite fmap_app, List.filter_app. Qed.

Lemma ukeys_one rec :
  ukeys [rec] = if String.eqb (uniqueKey (RFact rec)) "" then [] else [uniqueKey (RFact rec)].
Proof. unfold ukeys. simpl. by destruct (String.eqb (uniqueKey (RFact rec)) ""). Qed.

Lemma batch_step_inv r internal facts b f b' :
  BatchInv r internal facts b -> f ∈ facts ->
  batch_step r internal b f = Ok b' -> BatchInv r internal facts b'.
Proof.
  intros [B1 B2 B3 B4 B5] Hin Hs. unfold batch_step in Hs.
  destruct (marshal_fact f) as [raw|]; [|done].
  destruct (ids r !! FID f) as [loc|] eqn:Eid.
  { case_match; [done|]. destruct (recordAt r loc) as [rec|]; [|done]. simplify_eq/=. by split. }
  destruct (seen b !! FID f) as [d|] eqn:Ese.
  { case_match; [done|]. case_match; simplify_eq/=; by split. }
  destruct (validate r f internal) eqn:Ev; [done|].
  case_match eqn:Ek; [done|]. simplify_eq/=. set (rec := {| Sequence := _; RFact := f |}).
  assert (Hrid : rec_id rec = FID f) by done.
  split; simpl.
  - intros i rec' Hl. apply lookup_app_Some in Hl as [Hl|[Hge Hl]]; [eauto|].
    apply list_lookup_singleton_Some in Hl as [Hi <-]. simpl. split_and!; [|done..].
    unfold len. lia.
  - rewrite fmap_app. apply NoDup_app. split_and!; [done| |apply NoDup_singleton].
    intros id Hid. rewrite list_elem_of_fmap. intros (x & -> & Hx). apply list_elem_of_singleton in Hx as ->.
    apply B3 in Hid. rewrite Hrid, Ese in Hid. by destruct Hid.
  - intros id. rewrite fmap_app, elem_of_app, <- B3. simpl. rewrite list_elem_of_singleton, Hrid.
    destruct (decide (id = FID f)) as [->|Hne].
    + rewrite lookup_insert_eq. naive_solver.
    + rewrite lookup_insert_ne by done. naive_solver.
  - intros k. rewrite ukeys_app, elem_of_app, <- B4, ukeys_one. simpl.
    destruct (String.eqb (uniqueKey f) ""); set_solver.
  - rewrite ukeys_app, ukeys_one. simpl. destruct (String.eqb (uniqueKey f) ""); [by rewrite app_nil_r|].
    apply NoDup_app. split_and!; [done| |apply NoDup_singleton].
    intros k Hk. rewrite list_elem_of_singleton. intros ->. apply B4 in Hk.
    simpl in Ek. by rewrite bool_decide_true in Ek.
Qed.

Lemma batch_loop_inv r internal all facts b b' :
  BatchInv r internal all b -> facts ⊆ all ->
  batch_loop r internal b facts = Ok b' -> BatchInv r internal all b'.
Proof.
  revert b. induction facts as [|f facts IH]; intros b Hb Hsub Hl; simpl in Hl; [by simplify_eq|].
  destruct (batch_step r internal b f) as [b1|] eqn:E; [|done].
  apply (IH b1); [|set_solver|done]. eapply batch_step_inv; eauto. set_solver.
Qed.

Lemma empty_batch_inv r internal facts : BatchInv r internal facts empty_batch.
Proof.
  split; simpl; try apply NoDup_nil_2; try done.
  - intros id. rewrite lookup_empty. split; [by intros []|set_solver].
  - set_solver.
Qed.

(** ** Installing keeps later records valid *)

Definition not_node (f : Fact) : Prop := FKind f <> "node-created"%string.

Lemma validate_internal r f i j : not_node f -> validate r f i = validate r f j.
Proof. intros Hn. unfold validate. destruct (String.eqb_spec (FKind f) "node-created"); done. Qed.

Lemma uniqueKey_compact f : uniqueKey (compact_fact f) = uniqueKey f.
Proof. done. Qed.

Lemma validate_install r rec loc f i :
  not_node (RFact rec) -> not_node f ->
  (uniqueKey f <> ""%string -> uniqueKey f <> uniqueKey (RFact rec)) ->
  validate (install rec loc r) f i = validate r f i.
Proof.
  intros Hn Hf Hk. unfold not_node in *.
  assert (Hnodes : nodes (install rec loc r) = nodes r).
  { simpl. by destruct (String.eqb_spec (FKind (RFact rec)) "node-created"). }
  assert (Hu : uniqueKey f <> ""%string -> unique (install rec loc r) !! uniqueKey f = unique r !! uniqueKey f).
  { intros Hne. simpl. case_match; [done|]. by rewrite lookup_insert_ne by naive_solver. }
  unfold validate, validate_ref. rewrite Hnodes.
  destruct (String.eqb_spec (FKind f) "node-created"); [done|].
  destruct (String.eqb_spec (uniqueKey f) ""); cbn [negb andb]; [done|]. by rewrite Hu.
Qed.

Lemma validate_valid r f i : validate r f i = None -> json_valid (Payload f) = true.
Proof.
  unfold validate. intros Hv. case_match eqn:E; [done|].
  destruct (json_valid (Payload f)); [done|]. by rewrite !orb_true_r in E.
Qed.

Lemma validate_not_node r f : validate r f false = None -> not_node f.
Proof.
  unfold validate, not_node. intros Hv Heq. rewrite Heq in Hv. simpl in Hv.
  repeat case_match; done.
Qed.

Context {Hl : CodecLaws}.

Lemma validate_compact r f i :
  json_valid (Payload f) = true -> fact_fixed f -> validate r (compact_fact f) i = validate r f i.
Proof.
  intros Hv Hf. unfold validate, validate_node. rewrite uniqueKey_compact. simpl.
  rewrite Hv, (compact_valid _ Hv).
  destruct (String.eqb_spec (FKind f) "node-created") as [Hk|]; [|done].
  by rewrite (Hf Hk).
Qed.

Lemma digest_compact f : json_valid (Payload f) = true -> digest_of (compact_fact f) = digest_of f.
Proof. intros Hv. unfold digest_of. by rewrite marshal_fact_compact. Qed.

Lemma install_compact rec loc r :
  fact_fixed (RFact rec) -> install (compact_rec rec) loc r = install rec loc r.
Proof.
  intros Hf. unfold install. simpl. rewrite uniqueKey_compact.
  destruct (String.eqb_spec (FKind (RFact rec)) "node-created") as [Hk|]; [|done].
  by rewrite (Hf Hk).
Qed.

(** Facts a batch may carry: UTF-8 text, and fixed payloads for node
    creations. *)
Definition admissible (f : Fact) : Prop := fact_text_ok f = true /\ fact_fixed f.

(** The condition under which a list of records replays from [r]. *)
Record Replayable (r : run) (recs : list Rec) : Prop := {
  rp_each : forall i rec, recs !! i = Some rec ->
    Sequence rec = len (records r) + Z.of_nat i + 1
    /\ validate r (RFact rec) true = None /\ ids r !! rec_id rec = None /\ fact_fixed (RFact rec);
  rp_ids : NoDup (rec_id <$> recs);
  rp_ukeys : NoDup (ukeys recs);
  rp_shape : Forall (fun rec => not_node (RFact rec)) recs \/ (length recs <= 1)%nat;
}.

Lemma ukeys_cons rec recs : ukeys (rec :: recs) = ukeys [rec] ++ ukeys recs.
Proof. apply (ukeys_app [rec] recs). Qed.

Lemma elem_of_ukeys rec recs :
  rec ∈ recs -> uniqueKey (RFact rec) <> ""%string -> uniqueKey (RFact rec) ∈ ukeys recs.
Proof.
  intros Hin Hne. unfold ukeys. apply list_elem_of_In, filter_In. split.
  - apply list_elem_of_In, list_elem_of_fmap. eauto.
  - by destruct (String.eqb_spec (uniqueKey (RFact rec)) "").
Qed.

Lemma replayable_tail r rec recs loc :
  Replayable r (rec :: recs) -> Replayable (install rec loc r) recs.
Proof.
  intros [R1 R2 R3 R4]. apply NoDup_cons in R2 as [R2 R2'].
  assert (Hshape : recs = [] \/ Forall (fun rec => not_node (RFact rec)) (rec :: recs)).
  { destruct R4 as [?|Hlen]; [by right|]. left. destruct recs; [done|simpl in *; lia]. }
  split; [|done| |].
  - intros i rec' Hi. destruct Hshape as [->|HF]; [done|].
    inversion HF as [|?? Hn HF']; subst.
    destruct (R1 (S i) rec' Hi) as (S1 & S2 & S3 & S4).
    assert (Hin : rec' ∈ recs) by (by eapply list_elem_of_lookup_2).
    assert (Hn' : not_node (RFact rec')) by (by eapply Forall_forall in HF').
    split_and!; [|rewrite validate_install; try done| |done].
    + simpl. rewrite len_app. unfold len in *. simpl. lia.
    + intros Hne Heq. rewrite ukeys_cons, ukeys_one in R3.
      rewrite <- Heq in R3. destruct (String.eqb_spec (uniqueKey (RFact rec')) ""); [done|].
      simpl in R3. apply NoDup_cons in R3 as [R3 _]. apply R3. by apply elem_of_ukeys.
    + simpl. rewrite lookup_insert_ne; [done|]. intros Heq. apply R2. rewrite Heq.
      apply list_elem_of_fmap. eauto.
  - rewrite ukeys_cons in R3. by apply NoDup_app in R3 as (_ & _ & ?).
  - destruct Hshape as [->|HF]; [right; simpl; lia|left]. by inversion HF.
Qed.

(** Replaying the stored form of the records is installing them. *)
Lemma replay_records_install si off i recs r :
  Replayable r recs ->
  replay_records si off i (compact_rec <$> recs) r = Ok (install_all si off i recs r).
Proof.
  revert i r. induction recs as [|rec recs IH]; intros i r HR; [done|].
  destruct (rp_each _ _ HR 0%nat rec eq_refl) as (S1 & S2 & S3 & S4).
  pose proof (validate_valid _ _ _ S2) as Hv.
  rewrite fmap_cons. cbn [replay_records install_all].
  change (rec_id (compact_rec rec)) with (rec_id rec).
  change (Sequence (compact_rec rec)) with (Sequence rec).
  change (RFact (compact_rec rec)) with (compact_fact (RFact rec)).
  replace (Sequence rec) with (len (records r) + 1) by lia.
  rewrite Z.eqb_refl, S3. cbn [negb].
  rewrite bool_decide_false by (by intros [? ?]).
  rewrite validate_compact, S2, digest_compact, install_compact by done.
  apply IH. by apply replayable_tail.
Qed.

(** A batch accepted by [appendLocked] is replayable. *)
Lemma batch_replayable r internal facts b :
  BatchInv r internal facts b -> batch_shape internal facts -> Forall admissible facts ->
  (length (fresh b) <= length facts)%nat -> Replayable r (fresh b).
Proof.
  intros [B1 B2 B3 B4 B5] Hsh Hadm Hlen. split; [|done|done|].
  - intros i rec Hi. destruct (B1 i rec Hi) as (S1 & S2 & S3 & S4).
    assert (Ha : admissible (RFact rec)) by (by eapply Forall_forall in Hadm).
    split_and!; [done| |done|apply Ha].
    destruct internal; [done|]. rewrite (validate_internal _ _ true false); [done|].
    by apply validate_not_node in S2.
  - destruct Hsh as [->|Hle]; [left|right; lia].
    apply Forall_lookup_2. intros i rec Hi.
    destruct (B1 i rec Hi) as (S1 & S2 & S3 & S4). by apply validate_not_node in S2.
Qed.

Lemma batch_step_fresh r internal b f b' :
  batch_step r internal b f = Ok b' -> (length (fresh b') <= S (length (fresh b)))%nat.
Proof.
  unfold batch_step. intros Hs.
  repeat case_match; simplify_eq/=; rewrite ?length_app; simpl; try lia;
    destruct (recordAt _ _); simplify_eq/=; lia.
Qed.

Lemma batch_loop_fresh r internal b facts b' :
  batch_loop r internal b facts = Ok b' -> (length (fresh b') <= length (fresh b) + length facts)%nat.
Proof.
  revert b. induction facts as [|f facts IH]; intros b Hs; simpl in *; [simplify_eq; lia|].
  destruct (batch_step r internal b f) as [b1|] eqn:E; [|done].
  apply batch_step_fresh in E. apply IH in Hs. lia.
Qed.
End Batch.

(** * The run store: the log is written faithfully

    Every operation preserves the representation invariant, records are read
    back as they were stored, and a batch is appended as a whole or not at
    all. *)

Section Log.
Context `{Hc : Codec}.

(** ** Installing several records *)

Lemma install_all_segments si off i recs r : segments (install_all si off i recs r) = segments r.
Proof. revert i r. induction recs as [|rec recs IH]; intros i r; simpl; [done|]. by rewrite IH. Qed.

Lemma install_all_header si off i recs r : header (install_all si off i recs r) = header r.
Proof. revert i r. induction recs as [|rec recs IH]; intros i r; simpl; [done|]. by rewrite IH. Qed.

Lemma install_all_committed si off i recs r : committed (install_all si off i recs r) = committed r.
Proof. revert i r. induction recs as [|rec recs IH]; intros i r; simpl; [done|]. by rewrite IH. Qed.

Lemma install_all_poison si off i recs r : poison (install_all si off i recs r) = poison r.
Proof. revert i r. induction recs as [|rec recs IH]; intros i r; simpl; [done|]. by rewrite IH. Qed.

Lemma install_all_flags si off i recs r :
  closed (install_all si off i recs r) = closed r /\ closing (install_all si off i recs r) = closing r
  /\ syncedSegments (install_all si off i recs r) = syncedSegments r
  /\ dirEntries (install_all si off i recs r) = dirEntries r.
Proof. revert i r. induction recs as [|rec recs IH]; intros i r; simpl; [done|]. specialize (IH (S i) (install rec (MkLocation si off i (digest_of (RFact rec))) r)). done. Qed.

Lemma install_all_records si off i recs r :
  records (install_all si off i recs r) = records r ++ (rec_id <$> recs).
Proof.
  revert i r. induction recs as [|rec recs IH]; intros i r; simpl; [by rewrite app_nil_r|].
  rewrite IH. simpl. by rewrite <- app_assoc.
Qed.

Lemma install_all_ids si off i recs r id loc :
  NoDup (rec_id <$> recs) ->
  ids (install_all si off i recs r) !! id = Some loc ->
  ((id ∉ (rec_id <$> recs)) /\ ids r !! id = Some loc)
  \/ exists j rec, recs !! j = Some rec /\ rec_id rec = id
       /\ loc = MkLocation si off (i + j) (digest_of (RFact rec)).
Proof.
  revert i r. induction recs as [|rec recs IH]; intros i r Hnd Hl; simpl in Hl.
  { left. split; [set_solver|done]. }
  rewrite fmap_cons in *. apply NoDup_cons in Hnd as [Hn Hnd].
  apply IH in Hl as [[Hni Hl]|(j & rec' & Hj & Hid & ->)]; [|right|done].
  - simpl in Hl. destruct (decide (rec_id rec = id)) as [<-|Hne].
    + rewrite lookup_insert_eq in Hl. simplify_eq. right. exists 0%nat, rec. by rewrite Nat.add_0_r.
    + rewrite lookup_insert_ne in Hl by done. left. set_solver.
  - exists (S j), rec'. split_and!; [done..|]. by rewrite Nat.add_succ_r.
Qed.

Lemma install_all_ids_dom si off i recs r id :
  is_Some (ids (install_all si off i recs r) !! id) <-> id ∈ rec_id <$> recs \/ is_Some (ids r !! id).
Proof.
  revert i r. induction recs as [|rec recs IH]; intros i r; simpl; [set_solver|].
  rewrite IH. simpl. destruct (decide (rec_id rec = id)) as [<-|Hne].
  - rewrite lookup_insert_eq. split; [set_solver|]. intros _. right. by eexists.
  - rewrite lookup_insert_ne by done. set_solver.
Qed.

Lemma install_all_index si off i recs r1 r2 :
  index_of r1 = index_of r2 ->
  index_of (install_all si off i recs r1) = index_of (install_all si off i recs r2).
Proof.
  revert i r1 r2. induction recs as [|rec recs IH]; intros i r1 r2 Heq; simpl; [done|].
  by apply IH, install_index.
Qed.

Lemma replayable_index r1 r2 recs : index_of r1 = index_of r2 -> Replayable r1 recs -> Replayable r2 recs.
Proof.
  intros Heq [R1 R2 R3 R4]. split; [|done..]. intros i rec Hi.
  destruct (R1 i rec Hi) as (S1 & S2 & S3 & S4).
  rewrite (validate_index r1 r2) in S2 by done.
  assert (records r1 = records r2 /\ ids r1 = ids r2) as [<- <-] by (unfold index_of in Heq; split; congruence).
  done.
Qed.

(** ** Reading a located record *)

Lemma seg_bytes_split pre d post :
  seg_bytes (pre ++ d :: post) = seg_bytes pre ++ frame_bytes d ++ seg_bytes post.
Proof. by rewrite seg_bytes_app, seg_bytes_cons. Qed.

Lemma recordAt_located img tail r loc rec :
  Rep img tail r -> located img loc rec -> recordAt r loc = Ok rec.
Proof.
  intros [Hlen Hsz Hct Hgd] (pre & d & post & fr & Himg & Hoff & Hdec & Hrec).
  assert (Hlt : (lsegment loc < length (segments r))%nat).
  { rewrite Hlen. by eapply lookup_lt_Some. }
  apply lookup_lt_is_Some in Hlt as [s Hs]. unfold recordAt. rewrite Hs, Hoff.
  rewrite (Hct _ _ _ Hs Himg), seg_bytes_split, <- !app_assoc.
  assert (Hg : good_data d).
  { eapply Forall_forall in Hgd; [|by eapply list_elem_of_lookup_2].
    eapply Forall_forall in Hgd; [done|]. set_solver. }
  destruct Hg as [Hne Hmax]. rewrite (read_frame_at _ _ _ fr) by done. by rewrite Hrec.
Qed.

Lemma located_snoc_frame pre ds d loc rec :
  located (pre ++ [ds]) loc rec -> located (pre ++ [ds ++ [d]]) loc rec.
Proof.
  intros (p & x & q & fr & Himg & Hrest).
  apply lookup_app_Some in Himg as [Himg|[Hge Himg]].
  - exists p, x, q, fr. rewrite lookup_app_l; [done|by eapply lookup_lt_Some].
  - apply list_lookup_singleton_Some in Himg as [Hi Heq]. exists p, x, (q ++ [d]), fr.
    split; [|done]. rewrite lookup_app_r by done. rewrite Hi. simpl. by rewrite Heq, <- app_assoc.
Qed.

Lemma located_snoc_segment img loc rec : located img loc rec -> located (img ++ [[]]) loc rec.
Proof.
  intros (p & x & q & fr & Himg & Hrest). exists p, x, q, fr.
  rewrite lookup_app_l; [done|by eapply lookup_lt_Some].
Qed.

(** ** The last segment *)

Lemma update_last_snoc f r l s :
  segments r = l ++ [s] -> segments (update_last f r) = l ++ [f s].
Proof.
  intros Hl. simpl. rewrite Hl, length_app. simpl.
  replace (length l + 1 - 1)%nat with (length l + 0)%nat by lia.
  by rewrite alter_app_r.
Qed.

Lemma rep_snoc pre ds tail r :
  Rep (pre ++ [ds]) tail r ->
  exists l s, segments r = l ++ [s] /\ length l = length pre
    /\ ssize s = len (seg_bytes ds) /\ contents (file s) = seg_bytes ds ++ tail.
Proof.
  intros [Hlen Hsz Hct Hgd]. rewrite length_app in Hlen. simpl in Hlen.
  destruct (segments r) as [|s l _] using rev_ind; [simpl in Hlen; lia|].
  rewrite length_app in Hlen. simpl in Hlen. exists l, s.
  assert (Hll : length l = length pre) by lia.
  assert (H1 : (l ++ [s]) !! length pre = Some s) by (rewrite <- Hll; by apply list_lookup_middle).
  assert (H2 : (pre ++ [ds]) !! length pre = Some ds) by (by apply list_lookup_middle).
  split_and!; [done|done|by eapply Hsz|]. rewrite (Hct _ _ _ H1 H2).
  rewrite length_app. simpl. rewrite decide_True by lia. done.
Qed.

(** Replacing the last segment keeps the representation. *)
Lemma rep_replace_last pre ds ds' tail tail' r r' l s s' :
  Rep (pre ++ [ds]) tail r -> segments r = l ++ [s] -> segments r' = l ++ [s'] ->
  ssize s' = len (seg_bytes ds') -> contents (file s') = seg_bytes ds' ++ tail' ->
  Forall good_data ds' -> Rep (pre ++ [ds']) tail' r'.
Proof.
  intros HR Hl Hl' Hs' Hc' Hg. pose proof HR as [Hlen Hsz Hct Hgd].
  rewrite Hl, !length_app in Hlen. simpl in Hlen.
  assert (Hll : length l = length pre) by lia.
  split.
  - rewrite Hl', !length_app. simpl. lia.
  - intros i x d. rewrite Hl'. intros Hx Hd.
    destruct (decide (i < length pre)%nat) as [Hi|Hi].
    + rewrite lookup_app_l in Hx by lia. rewrite lookup_app_l in Hd by lia. eapply (Hsz i); [by rewrite Hl, lookup_app_l by lia|].
      by rewrite lookup_app_l by lia.
    + rewrite lookup_app_r in Hx by lia. rewrite lookup_app_r in Hd by lia.
      apply list_lookup_singleton_Some in Hx as [_ <-]. apply list_lookup_singleton_Some in Hd as [_ <-]. done.
  - intros i x d. rewrite Hl'. intros Hx Hd. rewrite length_app. simpl.
    destruct (decide (i < length pre)%nat) as [Hi|Hi].
    + rewrite lookup_app_l in Hx by lia. rewrite lookup_app_l in Hd by lia. rewrite decide_False by lia.
      rewrite (Hct i x d); [|by rewrite Hl, lookup_app_l by lia|by rewrite lookup_app_l by lia].
      rewrite length_app. simpl. by rewrite decide_False by lia.
    + rewrite lookup_app_r in Hx by lia. rewrite lookup_app_r in Hd by lia.
      apply list_lookup_singleton_Some in Hx as [? <-]. apply list_lookup_singleton_Some in Hd as [_ <-].
      by rewrite decide_True by lia.
  - apply Forall_app in Hgd as [Hgd _]. apply Forall_app. split; [done|]. by constructor.
Qed.

Lemma rep_new_segment img r :
  Rep img [] r ->
  Rep (img ++ [[]]) [] (with_segments (segments r ++ [MkSegment (MkFile [] 0) 0]) r).
Proof.
  intros [Hlen Hsz Hct Hgd]. split; simpl.
  - rewrite !length_app. simpl. lia.
  - intros i s ds Hs Hd. apply lookup_app_Some in Hs as [Hs|[Hge Hs]].
    + rewrite lookup_app_l in Hd; [eauto|]. rewrite <- Hlen. by eapply lookup_lt_Some.
    + apply list_lookup_singleton_Some in Hs as [? <-]. rewrite lookup_app_r in Hd by lia.
      apply list_lookup_singleton_Some in Hd as [_ <-]. done.
  - intros i s ds Hs Hd. replace (if decide _ then [] else []) with (@nil ascii) by (by case_decide).
    rewrite app_nil_r. apply lookup_app_Some in Hs as [Hs|[Hge Hs]].
    + rewrite lookup_app_l in Hd; [|rewrite <- Hlen; by eapply lookup_lt_Some].
      rewrite (Hct _ _ _ Hs Hd). case_decide; by rewrite app_nil_r.
    + apply list_lookup_singleton_Some in Hs as [? <-]. rewrite lookup_app_r in Hd by lia.
      apply list_lookup_singleton_Some in Hd as [_ <-]. done.
  - apply Forall_app. split; [done|]. by repeat constructor.
Qed.

Lemma rep_segments img tail r r' : segments r = segments r' -> Rep img tail r -> Rep img tail r'.
Proof. intros Heq [? ? ? ?]. split; try rewrite <- Heq; done. Qed.
End Log.
