(* ===== verification/RunStoreCrash.v ===== *)
(** * The run store: a batch is appended as a whole or not at all

    The write half of [appendLocked] against any outcome of its system calls:
    on success the new frame is at the end of the image and the invariant
    holds; on failure the index is unchanged, the run is poisoned, and what is
    on disk replays to the index without the batch or with all of it. *)

From S2P Require Import Prelude GoText RunStoreTypes RunStore RunStoreOpen RunStoreInv.
From Stdlib Require Import Ascii.

(** The image after frame [d] was added, in a new segment or in the last. *)
Definition add_frame (new : bool) (d : text) (img : list (list text)) : list (list text) :=
  if new then img ++ [[d]]
  else alter (fun ds => ds ++ [d]) (length img - 1)%nat img.

(** The image after the segment for the next frame was opened. *)
Definition add_segment (new : bool) (img : list (list text)) : list (list text) :=
  if new then img ++ [[]] else img.

Lemma torn_nil : torn [].
Proof. exists (lit "x"), 0%nat. split_and!; [split; [done|by vm_compute]|by vm_compute; lia|done]. Qed.

Section Write.
Context `{Hc : Codec}.

Lemma add_frame_snoc pre ds d : add_frame false d (pre ++ [ds]) = pre ++ [ds ++ [d]].
Proof.
  unfold add_frame. rewrite length_app. simpl.
  replace (length pre + 1 - 1)%nat with (length pre + 0)%nat by lia. by rewrite alter_app_r.
Qed.

Lemma img_snoc (img : list (list text)) : img <> [] -> exists pre ds, img = pre ++ [ds].
Proof. intros Hne. destruct img as [|ds pre _] using rev_ind; [done|eauto]. Qed.

Lemma add_segment_ne new img : img <> [] -> add_segment new img <> [].
Proof. intros Hne. unfold add_segment. destruct new; [|done]. by destruct img. Qed.

Lemma add_segment_frame new d img :
  img <> [] -> add_frame false d (add_segment new img) = add_frame new d img.
Proof. intros Hne. destruct new; [|done]. unfold add_segment. by rewrite add_frame_snoc. Qed.

(** The last segment of the image, for the run that has just opened it. *)
Lemma needs_segment_false r n : needs_segment r n = false -> segments r <> [].
Proof. unfold needs_segment. by destruct (segments r). Qed.

(** ** Replaying one more frame *)

(** Replaying image [img] and then the frame [d]. *)
Lemma replay_add_frame id new d img r0 fr :
  img <> [] -> (new = false -> exists pre ds, img = pre ++ [ds] /\ (pre <> [] \/ ds <> [])) ->
  replay_img id 0 img newRun = Ok r0 ->
  unmarshal_frame d = Some fr -> FrHeader fr = None ->
  replay_img id 0 (add_frame new d img) newRun
  = (let si := if new then length img else (length img - 1)%nat in
     let off := if new then 0 else len (seg_bytes (List.last img [])) in
     if bool_decide (FrRecords fr = []) then Err ErrCorrupt
     else replay_records si off 0 (FrRecords fr) r0).
Proof.
  intros Hne Hpos Hr Hd Hh. destruct new.
  - unfold add_frame. rewrite replay_img_app, Hr. simpl. rewrite Hd.
    unfold replay_frame, replay_header. rewrite Hh.
    destruct img as [|x img]; [done|]. simpl.
    case_bool_decide; [done|]. simpl. destruct (replay_records _ _ _ _ _); done.
  - destruct (Hpos eq_refl) as (pre & ds & -> & Hor). rewrite add_frame_snoc.
    rewrite replay_img_app in Hr |- *. destruct (replay_img id 0 pre newRun) as [r1|]; [|done].
    simpl in Hr |- *. rewrite replay_data_app. destruct (replay_data id (length pre) 0 ds r1) as [r2|]; [|done].
    simpl in Hr |- *. simplify_eq. rewrite Hd, last_last, length_app. simpl.
    replace (length pre + 1 - 1)%nat with (length pre) by lia.
    assert (Hh' : replay_header id (length pre) (len (seg_bytes ds)) fr r0 = Ok r0).
    { unfold replay_header. rewrite Hh.
      destruct (Z.eqb_spec (len (seg_bytes ds)) 0) as [E|E]; simpl; [|done].
      destruct (Nat.eqb_spec (length pre) 0); [|done]. exfalso.
      destruct Hor as [Hor|Hor]; [by destruct pre|]. destruct ds as [|x ds]; [done|].
      rewrite seg_bytes_cons, len_app, frame_bytes_len in E. unfold len in E. lia. }
    unfold replay_frame. rewrite Z.add_0_l, Hh'. simpl.
    case_bool_decide; [done|]. destruct (replay_records _ _ _ _ _); done.
Qed.

(** ** The write *)

(** The runs differ in their segments and pending bytes only. *)
Definition same_flags (a b : run) : Prop :=
  index_of a = index_of b /\ committed a = committed b /\ poison a = poison b /\ closed a = closed b
  /\ closing a = closing b /\ syncedSegments a = syncedSegments b /\ dirEntries a = dirEntries b.

(** What [write_batch] did: the frame was refused, or it is the last frame of
    the new image, or part of it is. *)
Inductive written (img : list (list text)) (recs : list Rec) (h : option Header) (r : run) :
    run -> option error -> Prop :=
| written_refused e : written img recs h r r (Some e)
| written_failed new d n e r' :
    marshal_frame (MkFrame h recs) = Some d -> good_data d -> new = needs_segment r (len d) ->
    (n <= length (frame_bytes d))%nat ->
    Rep (add_segment new img) (take n (frame_bytes d)) r' -> index_of r' = index_of r -> committed r' = committed r ->
    poison r' = Some e -> written img recs h r r' (Some e)
| written_noopen e : written img recs h r (with_poison e r) (Some e)
| written_ok new d r3 :
    marshal_frame (MkFrame h recs) = Some d -> good_data d -> new = needs_segment r (len d) ->
    same_flags r3 r -> Rep (add_frame new d img) [] r3 ->
    written img recs h r
      (install_all (if new then length img else length img - 1)%nat
         (if new then 0 else len (seg_bytes (List.last img []))) 0 recs r3) None.

Lemma write_at_tail c off b : off = length c -> write_at c off b = c ++ b.
Proof. intros ->. apply write_at_end. Qed.

Lemma write_batch_written io h recs img r r' e :
  Rep img [] r -> (forall d, marshal_frame (MkFrame h recs) = Some d -> d <> []) ->
  write_batch io h recs r = (r', e) -> written img recs h r r' e.
Proof.
  intros HR Hne Hw. unfold write_batch in Hw.
  destruct (marshal_frame (MkFrame h recs)) as [d|] eqn:Em; [|simplify_eq; constructor].
  destruct (Z.ltb_spec maxBatch (len d)) as [|Hmax]; [simplify_eq; constructor|].
  assert (Hg : good_data d) by (split; [by apply Hne|lia]).
  set (new := needs_segment r (len d)) in *.
  (* the run with the segment to write to *)
  set (r1 := if new then with_segments (segments r ++ [MkSegment (MkFile [] 0) 0]) r else r) in *.
  assert (HR1 : Rep (add_segment new img) [] r1).
  { unfold r1, add_segment. destruct new; [by apply rep_new_segment|done]. }
  destruct (if new then _ else _) as [r1'|eo] eqn:Eo; cycle 1.
  { simplify_eq. apply written_noopen. }
  assert (r1' = r1) as ->.
  { unfold r1. destruct new; [destruct (open_err io)|]; by simplify_eq. }
  assert (Hne1 : add_segment new img <> []).
  { unfold add_segment. destruct new eqn:En; [by destruct img|]. intros ->.
    apply needs_segment_false in En. destruct HR as [Hlen _ _ _]. by destruct (segments r). }
  destruct (img_snoc _ Hne1) as (pre & ds & Himg). rewrite Himg in HR1.
  destruct (rep_snoc _ _ _ _ HR1) as (l & s & Hl & Hll & Hsz & Hct).
  rewrite app_nil_r in Hct.
  rewrite Hl, last_snoc in Hw. rewrite Hsz in Hw.
  destruct (write_res io (length (frame_bytes d))) as [n werr].
  set (put := fun s0 : segment => _) in Hw.
  set (r2 := update_last put r1) in *.
  assert (Hl2 : segments r2 = l ++ [put s]) by (by apply update_last_snoc).
  assert (Hput : contents (file (put s)) = seg_bytes ds ++ take n (frame_bytes d)).
  { simpl. rewrite Hct. rewrite to_nat_len. by apply write_at_tail. }
  assert (Hds : Forall good_data ds).
  { destruct HR1 as [_ _ _ Hgd]. apply Forall_app in Hgd as [_ Hgd]. by inversion Hgd. }
  assert (HR2 : Rep (add_segment new img) (take n (frame_bytes d)) r2).
  { rewrite Himg. eapply rep_replace_last; [exact HR1|exact Hl|exact Hl2|exact Hsz|exact Hput|done]. }
  assert (Hi1 : index_of r2 = index_of r /\ committed r2 = committed r) by (unfold r2, r1; by destruct new).
  destruct Hi1 as [Hi1 Hc1].
  assert (Hfail : forall e, written img recs h r (with_poison e r2) (Some e)).
  { intros e0. apply (written_failed _ _ _ _ new d (n `min` length (frame_bytes d))%nat); try done; [lia|].
    apply (rep_segments _ _ r2); [done|].
    replace (take (n `min` length (frame_bytes d)) (frame_bytes d)) with (take n (frame_bytes d)); [done|].
    by rewrite <- take_take, firstn_all. }
  destruct werr as [we|].
  { simplify_eq. exact (Hfail we). }
  destruct (Nat.eqb_spec n (length (frame_bytes d))) as [->|]; cbn [negb] in Hw; simplify_eq; cycle 1.
  { exact (Hfail ErrShortWrite). }
  set (grow := fun s0 : segment => _). set (r3 := update_last grow r2).
  assert (Hl3 : segments r3 = l ++ [grow (put s)]) by (by apply update_last_snoc).
  assert (HR3 : Rep (pre ++ [ds ++ [d]]) [] r3).
  { eapply rep_replace_last; [exact HR1|exact Hl|exact Hl3| | |].
    - simpl. rewrite Hsz, seg_bytes_app, len_app. unfold seg_bytes at 3. simpl. by rewrite app_nil_r.
    - change (contents (file (grow (put s)))) with (contents (file (put s))).
      rewrite Hput, firstn_all, seg_bytes_app. unfold seg_bytes at 3. simpl. by rewrite !app_nil_r.
    - apply Forall_app. split; [done|]. by constructor. }
  assert (Hsi : (length (l ++ [s]) - 1)%nat = (if new then length img else length img - 1)%nat
                /\ len (seg_bytes ds) = (if new then 0 else len (seg_bytes (List.last img [])))).
  { rewrite <- Hl. destruct HR as [Hlen _ _ _]. unfold r1, add_segment in *. destruct new; simpl.
    - rewrite length_app, Hlen. simpl. apply app_inj_tail in Himg as [_ <-]. split; [lia|done].
    - rewrite Hlen, Himg, last_last. done. }
  destruct Hsi as [-> ->].
  assert (add_frame new d img = pre ++ [ds ++ [d]]) as Himg'.
  { destruct new; unfold add_frame, add_segment in *.
    - by apply app_inj_tail in Himg as [<- <-].
    - rewrite Himg. apply add_frame_snoc. }
  apply (written_ok _ _ _ _ new d); try done.
  - unfold same_flags. unfold r3, r2, r1. by destruct new.
  - rewrite Himg'. by apply (rep_segments _ _ r3).
Qed.

End Write.

Section Sound.
Context `{Hc : Codec} {Hl : CodecLaws}.

Lemma located_add_frame new d img loc rec :
  img <> [] -> located img loc rec -> located (add_frame new d img) loc rec.
Proof.
  intros Hne Hloc. destruct (img_snoc img Hne) as (pre & ds & ->). destruct new.
  - destruct Hloc as (p & x & q & fr & Himg & Hrest). exists p, x, q, fr. unfold add_frame.
    rewrite lookup_app_l; [done|by eapply lookup_lt_Some].
  - rewrite add_frame_snoc. by apply located_snoc_frame.
Qed.

Lemma located_new new d img fr j rec dg :
  img <> [] -> unmarshal_frame d = Some fr -> FrRecords fr !! j = Some rec ->
  located (add_frame new d img)
    (MkLocation (if new then length img else length img - 1)
       (if new then 0 else len (seg_bytes (List.last img []))) j dg) rec.
Proof.
  intros Hne Hd Hj. destruct (img_snoc img Hne) as (pre & ds & ->). destruct new.
  - exists [], d, [], fr. unfold add_frame. cbn [lsegment loffset lindex].
    split_and!; [|done..]. by apply list_lookup_middle.
  - exists ds, d, [], fr. rewrite add_frame_snoc. cbn [lsegment loffset lindex].
    rewrite length_app, last_last. simpl. replace (length pre + 1 - 1)%nat with (length pre) by lia.
    split_and!; [|done..]. by apply list_lookup_middle.
Qed.

Lemma settled_compact rec : json_valid (Payload (RFact rec)) = true -> settled (compact_rec rec).
Proof.
  intros Hv. unfold settled, compact_rec, compact_fact. simpl. split; [|by apply compact_valid].
  by rewrite compact_idemp.
Qed.

(** The index after the records of a new frame are installed. *)
Lemma index_install_all img img' si off r recs :
  Index img r -> Replayable r recs ->
  (forall loc rec, located img loc rec -> located img' loc rec) ->
  (forall j rec dg, recs !! j = Some rec -> located img' (MkLocation si off j dg) (compact_rec rec)) ->
  Index img' (install_all si off 0 recs r).
Proof.
  intros [I1 I2 I3 I4] [R1 R2 R3 R4] Hold Hnew. split.
  - rewrite install_all_records. apply NoDup_app. split_and!; [done| |done].
    intros id Hid. rewrite list_elem_of_fmap. intros (rec & -> & Hin).
    apply list_elem_of_lookup in Hin as [i Hi]. destruct (R1 i rec Hi) as (_ & _ & Hn & _).
    apply I3 in Hid. rewrite Hn in Hid. by destruct Hid.
  - intros id loc Hloc. apply install_all_ids in Hloc as [[Hni Hloc]|(j & rec & Hj & <- & ->)]; [| |done].
    + destruct (I2 id loc Hloc) as (k & rec & S1 & S2 & S3 & S4 & S5 & S6).
      exists k, rec. split_and!; auto. rewrite install_all_records. by apply lookup_app_l_Some.
    + destruct (R1 j rec Hj) as (S1 & S2 & S3 & S4).
      exists (length (records r) + j)%nat, (compact_rec rec). cbn [Nat.add]. split_and!.
      * by apply Hnew.
      * by apply settled_compact, (validate_valid r _ true).
      * done.
      * simpl. by rewrite digest_compact by (by apply (validate_valid r _ true)).
      * rewrite install_all_records, lookup_app_r by lia.
        replace (length (records r) + j - length (records r))%nat with j by lia.
        by rewrite list_lookup_fmap, Hj.
      * simpl. rewrite S1. unfold len. lia.
  - intros id. rewrite install_all_records, elem_of_app, install_all_ids_dom. naive_solver.
  - rewrite install_all_records, install_all_committed, len_app. unfold len in *. lia.
Qed.

Lemma index_transfer img a b :
  index_of a = index_of b -> 0 <= committed a <= len (records a) -> Index img b -> Index img a.
Proof.
  intros Hi Hcm [I1 I2 I3 I4].
  assert (records a = records b /\ ids a = ids b) as [Hr Hids] by (unfold index_of in Hi; split; congruence).
  split; rewrite ?Hids; [by rewrite Hr| |by rewrite Hr|done]. by rewrite Hr.
Qed.

Lemma same_flags_index img a b : same_flags a b -> Index img b -> Index img a.
Proof.
  intros (Hi & Hcm & _) HI. apply (index_transfer img a b); [done| |done].
  assert (records a = records b) as -> by (unfold index_of in Hi; congruence). rewrite Hcm. apply HI.
Qed.

(** ** What the frame of a batch decodes to *)

Lemma batch_frame_ok h recs d :
  match h with Some h => header_text_ok h = true | None => True end ->
  (forall i rec, recs !! i = Some rec -> fact_text_ok (RFact rec) = true /\ json_valid (Payload (RFact rec)) = true) ->
  marshal_frame (MkFrame h recs) = Some d ->
  d <> [] /\ unmarshal_frame d = Some (MkFrame h (compact_rec <$> recs)).
Proof.
  intros Hh Hrecs Hm. apply (frame_roundtrip (MkFrame h recs)); [|apply Forall_lookup_2; naive_solver|done].
  unfold frame_text_ok. simpl. apply andb_true_intro. split; [by destruct h|].
  apply forallb_forall. intros rec Hin. apply list_elem_of_In, list_elem_of_lookup in Hin as [i Hi].
  by destruct (Hrecs i rec Hi).
Qed.

Lemma replayable_same r1 r2 recs : index_of r1 = index_of r2 -> Replayable r1 recs -> Replayable r2 recs.
Proof. apply replayable_index. Qed.

Lemma install_all_other si off i recs r :
  Forall (fun rec => not_node (RFact rec)) recs ->
  nodes (install_all si off i recs r) = nodes r /\ slots (install_all si off i recs r) = slots r.
Proof.
  revert i r. induction recs as [|rec recs IH]; intros i r HF; [done|].
  inversion HF as [|?? Hn HF']; subst. simpl.
  destruct (IH (S i) (install rec (MkLocation si off i (digest_of (RFact rec))) r) HF') as [-> ->].
  simpl. unfold not_node in Hn. by destruct (String.eqb_spec (FKind (RFact rec)) "node-created").
Qed.

(** A node stays what it was: a node creation is refused for a known node. *)
Lemma validate_new_node r f :
  validate r f true = None -> FKind f = "node-created"%string ->
  nodes r !! NID (unmarshal_node (Payload f)).1 = None
  /\ slots r !! slot_of (unmarshal_node (Payload f)).1 = None.
Proof.
  intros Hv Hk. unfold validate in Hv. rewrite Hk in Hv. simpl in Hv.
  case_match; [done|]. case_match; [done|].
  destruct (validate_node r f true) eqn:En; [done|]. unfold validate_node in En. simpl in En.
  destruct (unmarshal_node (Payload f)) as [n ok]. simpl.
  repeat (case_match; [done|]). repeat case_bool_decide; try done.
  all: split; by apply eq_None_not_Some.
Qed.

Lemma install_all_nodes si off i recs r id n :
  Replayable r recs -> nodes r !! id = Some n -> nodes (install_all si off i recs r) !! id = Some n.
Proof.
  revert i r. induction recs as [|rec recs IH]; intros i r HR Hn; [done|].
  simpl. apply IH; [by apply replayable_tail|]. simpl.
  destruct (String.eqb_spec (FKind (RFact rec)) "node-created") as [Hk|]; [|done].
  destruct (rp_each _ _ HR 0%nat rec eq_refl) as (_ & Hv & _ & _).
  destruct (validate_new_node r (RFact rec) Hv Hk) as [Hno _].
  rewrite lookup_insert_ne; [done|]. intros Heq. rewrite Heq in Hno. congruence.
Qed.
End Sound.

Section Recovery.
Context `{Hc : Codec} {Hl : CodecLaws}.

Lemma rep_on_disk img tail r : Rep img tail r -> img <> [] -> on_disk img tail (files_of r).
Proof.
  intros [Hlen Hsz Hct Hgd] Hne. destruct (img_snoc img Hne) as (pre & ds & ->).
  exists pre, ds. split_and!; [done| |done]. apply list_eq. intros i. unfold files_of.
  rewrite list_lookup_fmap. rewrite length_app in Hlen. simpl in Hlen.
  destruct (segments r !! i) as [s|] eqn:Es; simpl.
  - assert (Hi : (i < length pre + 1)%nat) by (rewrite <- Hlen; by eapply lookup_lt_Some).
    destruct (decide (i < length pre)%nat) as [Hlt|Hge].
    + assert (exists x, pre !! i = Some x) as [x Hx] by (by apply lookup_lt_is_Some).
      rewrite lookup_app_l by (by rewrite length_fmap). rewrite list_lookup_fmap, Hx. simpl.
      rewrite (Hct i s x Es) by (by apply lookup_app_l_Some).
      rewrite length_app. simpl. rewrite decide_False by lia. by rewrite app_nil_r.
    + replace i with (length pre) in * by lia.
      rewrite (list_lookup_middle _ []) by (by rewrite length_fmap).
      rewrite (Hct _ _ ds Es) by (by apply list_lookup_middle).
      rewrite length_app. simpl. by rewrite decide_True by lia.
  - symmetry. apply lookup_ge_None. apply lookup_ge_None in Es.
    rewrite length_app, length_fmap. simpl. lia.
Qed.

Lemma on_disk_full new img d files :
  img <> [] -> on_disk (add_segment new img) (frame_bytes d) files -> good_data d ->
  on_disk (add_frame new d img) [] files.
Proof.
  intros Hne (pre & ds & Himg & -> & Hgd) Hg. exists pre, (ds ++ [d]).
  assert (add_frame new d img = pre ++ [ds ++ [d]]) as ->.
  { rewrite <- add_segment_frame, Himg by done. apply add_frame_snoc. }
  split_and!; [done| |].
  - rewrite seg_bytes_app. unfold seg_bytes at 5. simpl. by rewrite !app_nil_r.
  - rewrite Himg in Hgd. apply Forall_app in Hgd as [Hgd Hds]. inversion Hds; subst.
    apply Forall_app. split; [done|]. constructor; [|done]. apply Forall_app. split; [done|]. by constructor.
Qed.

Lemma replay_add_segment id new img r0 :
  replay_img id 0 img newRun = Ok r0 -> replay_img id 0 (add_segment new img) newRun = Ok r0.
Proof. intros Hr. destruct new; [|done]. unfold add_segment. rewrite replay_img_app, Hr. done. Qed.

(** A frame of replayable records extends the replay. *)
Lemma replay_extend new img d recs r rd :
  Inv img r -> index_of r = index_of rd -> Replayable r recs -> recs <> [] ->
  unmarshal_frame d = Some (MkFrame None (compact_rec <$> recs)) ->
  exists r0, replay_img (RunID (header r)) 0 (add_frame new d img) newRun = Ok r0
    /\ index_of r0 = index_of
         (install_all (if new then length img else length img - 1)%nat
            (if new then 0 else len (seg_bytes (List.last img []))) 0 recs rd).
Proof.
  intros [HR HI (r0 & Hr0 & Hi0) Hroot Hvalid (d0 & ds0 & rest & Himg)] Hrd Hrp Hne Hd.
  rewrite (replay_add_frame _ new d img r0 (MkFrame None (compact_rec <$> recs))); [| | |done|done|done].
  - simpl. rewrite bool_decide_false by (by destruct recs).
    rewrite replay_records_install by (by apply (replayable_index r r0)).
    eexists. split; [done|]. apply install_all_index. congruence.
  - by rewrite Himg.
  - intros _. destruct (img_snoc img) as (pre & ds & Hs); [by rewrite Himg|].
    exists pre, ds. split; [done|]. rewrite Himg in Hs. destruct pre as [|x pre]; [right|by left].
    simpl in Hs. by simplify_eq.
Qed.

Lemma has_root_install si off recs r : Replayable r recs -> has_root r -> has_root (install_all si off 0 recs r).
Proof.
  intros HR (n & Hn & Hp & Hk). exists n. rewrite install_all_header. split_and!; [|done|done].
  by apply install_all_nodes.
Qed.

Lemma index_of_fields r1 r2 :
  index_of r1 = index_of r2 ->
  header r1 = header r2 /\ nodes r1 = nodes r2 /\ slots r1 = slots r2 /\ ids r1 = ids r2
  /\ unique r1 = unique r2 /\ records r1 = records r2.
Proof. unfold index_of. intros [=]. done. Qed.

Lemma has_root_index r1 r2 : index_of r1 = index_of r2 -> has_root r1 -> has_root r2.
Proof.
  intros (H1 & H2 & _)%index_of_fields (n & Hn & Hp & Hk). exists n. by rewrite <- H1, <- H2.
Qed.

Lemma add_frame_first new d img d0 ds0 rest :
  img = (d0 :: ds0) :: rest -> exists d1 ds1 rest1, add_frame new d img = (d1 :: ds1) :: rest1.
Proof.
  intros ->. destruct new; [unfold add_frame; simpl; by eexists _, _, _|].
  destruct rest as [|x rest].
  - unfold add_frame. simpl. by eexists _, _, _.
  - unfold add_frame. cbn [length]. replace (S (S (length rest)) - 1)%nat with (S (length rest)) by lia.
    simpl. by eexists _, _, _.
Qed.
End Recovery.
