(* ===== verification/RunStoreAppend.v ===== *)
(** * The run store: appending and recovering

    [appendLocked] is atomic against every outcome of its system calls, the
    operations of a run preserve its invariant, and [Open] rebuilds the index
    from what is on disk. *)

From S2P Require Import Prelude GoText RunStoreTypes RunStore RunStoreOpen RunStoreInv RunStoreCrash.
From Stdlib Require Import Ascii.

Section Append.
Context `{Hc : Codec} {Hl : CodecLaws}.

(** The records a batch adds to the log, installed. *)
Definition batch_index (r r' : run) (recs : list Rec) : Prop :=
  exists si off, index_of r' = index_of (install_all si off 0 recs r).

Lemma same_flags_install si off i recs a b :
  same_flags a b -> same_flags (install_all si off i recs a) (install_all si off i recs b).
Proof.
  intros (Hi & H1 & H2 & H3 & H4 & H5 & H6).
  destruct (install_all_flags si off i recs a) as (F1 & F2 & F3 & F4).
  destruct (install_all_flags si off i recs b) as (G1 & G2 & G3 & G4).
  unfold same_flags. rewrite !install_all_committed, !install_all_poison, F1, F2, F3, F4, G1, G2, G3, G4.
  split_and!; [by apply install_all_index|done..].
Qed.

(** A complete write of replayable records keeps the invariant. *)
Lemma inv_written img r r3 new d recs :
  Inv img r -> Replayable r recs -> recs <> [] ->
  unmarshal_frame d = Some (MkFrame None (compact_rec <$> recs)) ->
  same_flags r3 r -> Rep (add_frame new d img) [] r3 ->
  Inv (add_frame new d img)
    (install_all (if new then length img else length img - 1)%nat
       (if new then 0 else len (seg_bytes (List.last img []))) 0 recs r3).
Proof.
  intros HI Hrp Hne Hd Hsf HR3. pose proof HI as [HR HIx Hre Hroot Hvalid (d0 & ds0 & rest & Himg)].
  pose proof Hsf as (Hi3 & _).
  assert (Hrp3 : Replayable r3 recs) by (by apply (replayable_index r r3)).
  assert (Hne' : img <> []) by (by rewrite Himg).
  split.
  - apply (rep_segments _ _ r3); [by rewrite install_all_segments|done].
  - eapply index_install_all; [by apply (same_flags_index _ r3 r)|done| |].
    + intros loc rec. by apply located_add_frame.
    + intros j rec dg Hj. eapply located_new; [done|exact Hd|]. simpl. by rewrite list_lookup_fmap, Hj.
  - rewrite install_all_header.
    apply index_of_fields in Hi3 as Hf. destruct Hf as (-> & _).
    apply (replay_extend new img d recs r r3); done.
  - apply has_root_install; [done|]. by apply (has_root_index r r3).
  - rewrite install_all_header. apply index_of_fields in Hi3 as (-> & _). done.
  - by eapply add_frame_first.
Qed.

(** What is on disk after a write that failed. *)
Lemma recoverable_failed img r new d recs n files :
  Inv img r -> Replayable r recs -> recs <> [] -> good_data d ->
  unmarshal_frame d = Some (MkFrame None (compact_rec <$> recs)) ->
  (n <= length (frame_bytes d))%nat ->
  on_disk (add_segment new img) (take n (frame_bytes d)) files ->
  exists img' rx, Recoverable img' files rx /\ (index_of rx = index_of r \/ batch_index r rx recs).
Proof.
  intros HI Hrp Hne Hg Hd Hn Hdisk. pose proof HI as [HR HIx (r0 & Hr0 & Hi0) Hroot Hvalid (d0 & ds0 & rest & Himg)].
  destruct (decide (n < length (frame_bytes d))%nat) as [Hlt|Hge].
  - exists (add_segment new img), r. split; [|by left].
    split; [|exists r0; split; [by apply replay_add_segment|done]|done|done| |].
    + exists (take n (frame_bytes d)). split; [done|]. by exists d, n.
    + destruct new; [|done]. unfold add_segment. destruct HIx as [I1 I2 I3 I4]. split; [done| |done|done].
      intros id loc Hi. destruct (I2 id loc Hi) as (k & rec & Hloc & Hrest). exists k, rec.
      split; [by apply located_snoc_segment|done].
    + rewrite Himg. unfold add_segment. by destruct new; eexists _, _, _.
  - rewrite take_ge in Hdisk by lia.
    destruct (replay_extend new img d recs r r HI eq_refl Hrp Hne Hd) as (rx & Hrx & Hix).
    set (ri := install_all _ _ _ _ _) in Hix.
    exists (add_frame new d img), ri. split; [|right; by eexists _, _].
    assert (Hh : header ri = header r) by apply install_all_header.
    split.
    + exists []. split; [|apply torn_nil]. apply on_disk_full; [by rewrite Himg|done|done].
    + exists rx. by rewrite Hh.
    + by apply has_root_install.
    + by rewrite Hh.
    + eapply index_install_all; [done|done| |].
      * intros loc rec. apply located_add_frame. by rewrite Himg.
      * intros j rec dg Hj. eapply located_new; [by rewrite Himg|exact Hd|]. simpl. by rewrite list_lookup_fmap, Hj.
    + by eapply add_frame_first.
Qed.

Lemma inv_recoverable img r : Inv img r -> Recoverable img (files_of r) r.
Proof.
  intros [HR HIx Hre Hroot Hvalid (d0 & ds0 & rest & Himg)]. split; try done; [|by eexists _, _, _].
  exists []. split; [|apply torn_nil]. apply rep_on_disk; [done|by rewrite Himg].
Qed.

(** The new records of a batch, with the facts they come from. *)
Lemma batch_fresh_ok r internal facts b :
  batch_loop r internal empty_batch facts = Ok b -> batch_shape internal facts -> Forall admissible facts ->
  Replayable r (fresh b)
  /\ (forall i rec, fresh b !! i = Some rec -> fact_text_ok (RFact rec) = true /\ json_valid (Payload (RFact rec)) = true).
Proof.
  intros Hb Hsh Hadm.
  pose proof (batch_loop_inv _ _ _ _ _ _ (empty_batch_inv r internal facts) (reflexivity _) Hb) as HB.
  split.
  - eapply batch_replayable; eauto. by apply batch_loop_fresh in Hb.
  - intros i rec Hi. destruct (bi_fresh _ _ _ _ HB i rec Hi) as (_ & Hv & _ & Hin).
    eapply Forall_forall in Hadm; [|exact Hin]. split; [apply Hadm|by eapply validate_valid].
Qed.

(** The records a batch adds. *)
Definition added (r : run) (internal : bool) (facts : list Fact) (recs : list Rec) : Prop :=
  exists b, batch_loop r internal empty_batch facts = Ok b /\ recs = fresh b /\ recs <> [].

Lemma index_add_segment new img r : Index img r -> Index (add_segment new img) r.
Proof.
  intros [I1 I2 I3 I4]. destruct new; [|done]. split; [done| |done|done].
  intros id loc Hi. destruct (I2 id loc Hi) as (k & rec & Hloc & Hrest). exists k, rec.
  split; [by apply located_snoc_segment|done].
Qed.

(** What [appendLocked] does on a run that has not failed. *)
Lemma appendLocked_cases io facts internal img r r' res :
  Inv img r -> batch_shape internal facts -> Forall admissible facts ->
  appendLocked io facts None internal r = (r', res) ->
  match res with
  | Ok _ => (r' = r \/ exists recs, added r internal facts recs /\ batch_index r r' recs)
      /\ (exists img', Inv img' r') /\ committed r' = committed r /\ poison r' = poison r
  | Err e => r' = r \/
      (index_of r' = index_of r /\ committed r' = committed r /\ poison r' = Some e
       /\ (exists img' tail, Rep img' tail r' /\ Index img' r')
       /\ exists img' rx, Recoverable img' (files_of r') rx
          /\ (index_of rx = index_of r \/ exists recs, added r internal facts recs /\ batch_index r rx recs))
  end.
Proof.
  intros HI Hsh Hadm Ha. unfold appendLocked in Ha.
  destruct (batch_loop r internal empty_batch facts) as [b|e] eqn:Eb; [|injection Ha as <- <-; by left].
  destruct (batch_fresh_ok _ _ _ _ Eb Hsh Hadm) as [Hrp Hok].
  assert (Hadd : fresh b <> [] -> added r internal facts (fresh b)) by (intros Hne; by exists b).
  destruct (fresh b) as [|rec0 recs0] eqn:Ef.
  { injection Ha as <- <-. split_and!; [by left|by eexists|done|done]. }
  set (recs := rec0 :: recs0) in *. assert (Hne : recs <> []) by done. specialize (Hadd Hne).
  destruct (write_batch io None recs r) as [r1 e] eqn:Ew.
  assert (r1 = r' /\ res = match e with Some e => Err e | None => Ok (out b) end) as [-> ->]
    by (destruct e; by injection Ha). clear Ha.
  assert (Hdec : forall d, marshal_frame (MkFrame None recs) = Some d ->
    d <> [] /\ unmarshal_frame d = Some (MkFrame None (compact_rec <$> recs))).
  { intros d Hm. apply (batch_frame_ok None recs d); done. }
  assert (Hmd : forall d, marshal_frame (MkFrame None recs) = Some d -> d <> []) by (intros d Hm; by apply Hdec).
  pose proof (write_batch_written io None recs img r r' e (inv_rep _ _ HI) Hmd Ew) as Hw.
  pose proof HI as [HR HIx Hre Hroot Hvalid Himg].
  inversion Hw as [e0|new d n e0 rx Hm Hg Hnew Hn HRx Hix Hcx Hpx|e0|new d r3 Hm Hg Hnew Hsf HR3]; subst.
  - by left.
  - right. split_and!; [done|done|done| |].
    + eexists _, _. split; [exact HRx|]. apply (index_transfer _ _ r); [done| |by apply index_add_segment].
      rewrite Hcx. apply index_of_fields in Hix as (_ & _ & _ & _ & _ & ->). apply HIx.
    + destruct (recoverable_failed img r (needs_segment r (len d)) d recs n (files_of r')) as (img' & rx & Hrc & Hor); try done.
      * by apply Hdec.
      * apply rep_on_disk; [done|]. apply add_segment_ne. destruct Himg as (? & ? & ? & ->). done.
      * exists img', rx. split; [done|]. destruct Hor; [by left|right; eauto].
  - right. split_and!; [done|done|done| |].
    + exists img, []. split; [by apply (rep_segments _ _ r)|]. by apply (index_transfer _ _ r); [|apply HIx|].
    + exists img, r. split; [|by left].
      change (files_of (with_poison e0 r)) with (files_of r). by apply inv_recoverable.
  - split_and!.
    + right. exists recs. split; [done|]. eexists _, _. apply install_all_index. by destruct Hsf.
    + eexists. eapply (inv_written img r); try done. by apply Hdec.
    + rewrite install_all_committed. by destruct Hsf as (_ & -> & _).
    + rewrite install_all_poison. by destruct Hsf as (_ & _ & -> & _).
Qed.
End Append.

(** * The run store: flushing

    What a flush may change, that a successful one makes every record it saw
    durable and committed, and that a failed one poisons the run. *)

(** The bytes of a segment and its size, without what is durable. *)
Definition seg_view (s : segment) : text * Z := (contents (file s), ssize s).

Definition views (r : run) : list (text * Z) := seg_view <$> segments r.

(** The runs differ only in what is on stable storage. *)
Definition same_bytes `{Codec} (a b : run) : Prop :=
  index_of a = index_of b /\ views a = views b /\ committed a = committed b /\ poison a = poison b
  /\ closed a = closed b /\ closing a = closing b /\ pendingBytes a = pendingBytes b
  /\ syncedSegments a = syncedSegments b.

Section Flush.
Context `{Hc : Codec}.

#[global] Instance same_bytes_equiv : Equivalence same_bytes.
Proof.
  split; unfold same_bytes.
  - done.
  - intros a b (H1 & H2 & H3 & H4 & H5 & H6 & H7 & H8). split_and!; by symmetry.
  - intros a b c (H1 & H2 & H3 & H4 & H5 & H6 & H7 & H8) (G1 & G2 & G3 & G4 & G5 & G6 & G7 & G8).
    split_and!; by etrans.
Qed.

Lemma rep_views img tail a b : views a = views b -> Rep img tail a -> Rep img tail b.
Proof.
  intros Hv [Hlen Hsz Hct Hgd].
  assert (Hlk : forall i s, segments b !! i = Some s -> exists s', segments a !! i = Some s' /\ seg_view s' = seg_view s).
  { intros i s Hs. assert (Hi : views b !! i = Some (seg_view s)) by (unfold views; by rewrite list_lookup_fmap, Hs).
    rewrite <- Hv in Hi. unfold views in Hi. rewrite list_lookup_fmap in Hi.
    destruct (segments a !! i) as [s'|]; [|done]. simpl in Hi. exists s'. split; [done|]. congruence. }
  split; [|intros i s ds Hs Hd|intros i s ds Hs Hd|done].
  - rewrite <- Hlen. apply (f_equal length) in Hv. unfold views in Hv. by rewrite !length_fmap in Hv.
  - destruct (Hlk i s Hs) as (s' & Hs' & Hvv). unfold seg_view in Hvv. injection Hvv as _ Hz.
    rewrite <- Hz. by eapply Hsz.
  - destruct (Hlk i s Hs) as (s' & Hs' & Hvv). unfold seg_view in Hvv. injection Hvv as Hz _.
    rewrite <- Hz. by eapply Hct.
Qed.

Lemma sync_file_bytes i r : same_bytes (sync_file i r) r.
Proof.
  unfold same_bytes. split_and!; try done. unfold views, sync_file. simpl.
  apply list_eq. intros j. rewrite !list_lookup_fmap.
  destruct (decide (i = j)) as [->|Hne].
  - rewrite list_lookup_alter_eq. by destruct (segments r !! j).
  - by rewrite list_lookup_alter_ne.
Qed.

Lemma sync_files_bytes io i n err r r' err' :
  sync_files io i n err r = (r', err') -> same_bytes r' r.
Proof.
  revert i err r. induction n as [|n IH]; intros i err r Hs; simpl in Hs; [by simplify_eq|].
  destruct (sync_err io i).
  - by apply IH in Hs.
  - apply IH in Hs. etrans; [exact Hs|]. apply sync_file_bytes.
Qed.

Lemma flush_sync_bytes io s r r' err : flush_sync io s r = (r', err) -> same_bytes r' r.
Proof.
  unfold flush_sync. destruct (sync_files io 0 (snapFiles s) None r) as [r1 err1] eqn:E.
  apply sync_files_bytes in E. intros Hs.
  repeat case_match; simplify_eq; done.
Qed.

(** ** Durability *)

(** Every byte of segment [i] is on stable storage. *)
Definition durable_segment (r : run) (i : nat) : Prop :=
  exists s, segments r !! i = Some s /\ durable (file s) = length (contents (file s)).

Lemma sync_file_durable i r : (i < length (segments r))%nat -> durable_segment (sync_file i r) i.
Proof.
  intros Hi. apply lookup_lt_is_Some in Hi as [s Hs]. unfold durable_segment, sync_file. simpl.
  rewrite list_lookup_alter_eq, Hs. simpl. eexists. split; [done|]. done.
Qed.

Lemma sync_file_keeps i j r : durable_segment r j -> durable_segment (sync_file i r) j.
Proof.
  intros (s & Hs & Hd). unfold durable_segment, sync_file. simpl.
  destruct (decide (i = j)) as [->|Hne].
  - rewrite list_lookup_alter_eq, Hs. simpl. eexists. split; [done|]. done.
  - rewrite list_lookup_alter_ne, Hs by done. eauto.
Qed.

Lemma sync_file_length i r : length (segments (sync_file i r)) = length (segments r).
Proof. simpl. apply length_alter. Qed.

Lemma sync_files_durable io i n r r' :
  (i + n <= length (segments r))%nat ->
  sync_files io i n None r = (r', None) ->
  length (segments r') = length (segments r)
  /\ (forall j, (i <= j < i + n)%nat -> durable_segment r' j)
  /\ (forall j, durable_segment r j -> durable_segment r' j)
  /\ dirEntries r' = dirEntries r.
Proof.
  assert (Herr : forall n i e r r', sync_files io i n (Some e) r <> (r', None)).
  { clear. intros n. induction n as [|n IH]; intros i e r r'; simpl; [congruence|].
    destruct (sync_err io i); simpl; apply IH. }
  revert i r. induction n as [|n IH]; intros i r Hn Hs; simpl in Hs.
  { simplify_eq. split_and!; [done|lia|done|done]. }
  destruct (sync_err io i); simpl in Hs; [by apply Herr in Hs|].
  apply IH in Hs as (H1 & H2 & H3 & H4); [|rewrite sync_file_length; lia].
  rewrite sync_file_length in H1. split_and!; [done| | |done].
  - intros j Hj. destruct (decide (j = i)) as [->|]; [|apply H2; lia].
    apply H3, sync_file_durable. lia.
  - intros j Hj. by apply H3, sync_file_keeps.
Qed.

(** ** The whole of a flush *)

(** A flush that syncs runs [check] with success, or is the one of [Close]. *)
Lemma flush_begin_sync ctx isClosing r s :
  flush_begin ctx isClosing r = FlushSync s ->
  s = MkSnapshot (len (records r)) (length (segments r)) (syncedSegments r <? len (segments r)) (pendingBytes r)
  /\ len (records r) <> committed r
  /\ poison r = None.
Proof.
  unfold flush_begin. intros Hf.
  destruct (bool_decide _ && _) eqn:Ec; [done|].
  destruct (Z.eqb_spec (len (records r)) (committed r)); [done|]. injection Hf as <-.
  split_and!; [done..|]. destruct (poison r) eqn:Ep; [|done]. exfalso.
  rewrite (bool_decide_true (Some _ <> None)) in Ec by done. rewrite !orb_true_r, andb_true_r in Ec.
  apply bool_decide_eq_false_1 in Ec. apply Ec. unfold check. rewrite Ep. by repeat case_match.
Qed.

Lemma flush_bytes io ctx isClosing r r' e :
  flush io ctx isClosing r = (r', e) ->
  index_of r' = index_of r /\ views r' = views r
  /\ closed r' = closed r /\ closing r' = closing r
  /\ (committed r' = committed r \/ committed r' = len (records r))
  /\ (poison r' = poison r \/ exists err, e = Some err /\ poison r' = Some err).
Proof.
  unfold flush. destruct (flush_begin ctx isClosing r) as [e0|s] eqn:Eb.
  { intros Heq. injection Heq as <- <-. split_and!; auto. }
  destruct (flush_sync io s r) as [r1 err] eqn:Es. apply flush_sync_bytes in Es as (B1 & B2 & B3 & B4 & B5 & B6 & _).
  apply flush_begin_sync in Eb as (-> & _).
  unfold flush_end. destruct err as [err|]; intros Hr; injection Hr as <- <-.
  - split_and!; auto. right. eauto.
  - split_and!; auto.
Qed.

Lemma flush_sync_durable io s r r' :
  (snapFiles s <= length (segments r))%nat -> flush_sync io s r = (r', None) ->
  (forall j, (j < snapFiles s)%nat -> durable_segment r' j)
  /\ dirEntries r' = if needsDirSync s then length (segments r) else dirEntries r.
Proof.
  intros Hn. unfold flush_sync. destruct (sync_files io 0 (snapFiles s) None r) as [r1 [e|]] eqn:E; [done|].
  apply sync_files_durable in E as (H1 & H2 & H3 & H4); [|done].
  destruct (needsDirSync s); [destruct (syncdir_err io); [done|]|]; intros Hr; injection Hr as <-.
  - split; [|done]. intros j Hj. destruct (H2 j) as (x & Hx); [lia|]. by exists x.
  - split; [|done]. intros j Hj. apply H2. lia.
Qed.

Lemma good_sync_files i n r : (sync_files good_flush i n None r).2 = None.
Proof. revert i r. induction n as [|n IH]; intros i r; simpl; [done|]. apply IH. Qed.

(** With no failing system call a flush of a run in use succeeds. *)
Lemma flush_good r :
  check false r = None ->
  exists r', flush good_flush false false r = (r', None)
    /\ index_of r' = index_of r /\ views r' = views r /\ committed r' = len (records r)
    /\ poison r' = poison r /\ closed r' = closed r /\ closing r' = closing r.
Proof.
  intros Hck. unfold flush, flush_begin. rewrite Hck. rewrite bool_decide_false by (intros ?; done). cbn [andb].
  destruct (Z.eqb_spec (len (records r)) (committed r)) as [He|He].
  { exists r. split_and!; done. }
  unfold flush_sync. set (s := MkSnapshot _ _ _ _).
  pose proof (good_sync_files 0 (snapFiles s) r) as Hg.
  destruct (sync_files good_flush 0 (snapFiles s) None r) as [r1 e] eqn:E. simpl in Hg. subst e.
  apply sync_files_bytes in E as (B1 & B2 & B3 & B4 & B5 & B6 & _).
  destruct (needsDirSync s); simpl; eexists; (split; [reflexivity|]); split_and!; done.
Qed.
End Flush.
