(* ===== verification/RunStoreRecover.v ===== *)
(** * The run store: opening a run rebuilds it

    [Open] on the files a run left, listed in any order and ending in a torn
    write or not, gives the index they replay to; the segment names sort in
    the order of their numbers. *)

From stdpp Require Import sorting.
From S2P Require Import Prelude GoText RunStoreTypes RunStore RunStoreOpen RunStoreInv RunStoreCrash RunStoreAppend.
From Stdlib Require Import Ascii Sorted.
From Stdlib Require Import Ascii.

(** ** The order of segment names *)

Definition text_le (a b : dir_entry) : Prop := text_leb a.1 b.1 = true.

Lemma text_leb_refl a : text_leb a a = true.
Proof. induction a as [|x a IH]; simpl; [done|]. by rewrite Z.ltb_irrefl. Qed.

Lemma text_leb_total a b : text_leb a b = true \/ text_leb b a = true.
Proof.
  revert b. induction a as [|x a IH]; intros [|y b]; simpl; [by left..|by right|].
  destruct (Z.ltb_spec (code x) (code y)); [by left|].
  destruct (Z.ltb_spec (code y) (code x)); [by right|]. done.
Qed.

Lemma text_leb_trans a b c : text_leb a b = true -> text_leb b c = true -> text_leb a c = true.
Proof.
  revert b c. induction a as [|x a IH]; intros [|y b] [|z c]; simpl; try done.
  repeat match goal with |- context [?a <? ?b] => destruct (Z.ltb_spec a b) end; try done; try lia.
  apply IH.
Qed.

Lemma code_inj a b : code a = code b -> a = b.
Proof. intros H. rewrite <- (code_byte a), <- (code_byte b). by rewrite H. Qed.

Lemma text_leb_antisym a b : text_leb a b = true -> text_leb b a = true -> a = b.
Proof.
  revert b. induction a as [|x a IH]; intros [|y b]; simpl; try done.
  destruct (Z.ltb_spec (code x) (code y)), (Z.ltb_spec (code y) (code x)); try done; try lia.
  intros H1 H2. f_equal; [apply code_inj; lia|by apply IH].
Qed.

#[export] Instance text_le_trans : Transitive text_le.
Proof. intros a b c. apply text_leb_trans. Qed.

Lemma insert_name_perm e l : insert_name e l ≡ₚ e :: l.
Proof.
  induction l as [|x l IH]; simpl; [done|]. case_match; [done|]. rewrite IH. apply perm_swap.
Qed.

Lemma sort_names_perm l : sort_names l ≡ₚ l.
Proof. induction l as [|e l IH]; simpl; [done|]. rewrite insert_name_perm. by f_equiv. Qed.

Lemma insert_name_sorted e l : StronglySorted text_le l -> StronglySorted text_le (insert_name e l).
Proof.
  induction 1 as [|x l Hs IH HF]; simpl; [by repeat constructor|].
  destruct (text_leb e.1 x.1) eqn:E.
  - constructor; [by constructor|]. constructor; [done|].
    eapply Forall_impl; [exact HF|]. intros y Hy. by apply (text_le_trans e x y).
  - constructor; [done|]. rewrite insert_name_perm. constructor; [|done].
    unfold text_le. destruct (text_leb_total e.1 x.1); [congruence|done].
Qed.

Lemma sort_names_sorted l : StronglySorted text_le (sort_names l).
Proof. induction l; simpl; [constructor|]. by apply insert_name_sorted. Qed.

(** A sorted listing with distinct names is what sorting any permutation of
    it gives. *)
Lemma sort_names_unique l dir :
  dir ≡ₚ l -> NoDup l.*1 -> StronglySorted text_le l -> sort_names dir = l.
Proof.
  intros Hp Hnd Hs. apply (StronglySorted_unique_strong text_le); [|apply sort_names_sorted|done|].
  - intros x y Hx Hy H1 H2. rewrite sort_names_perm, Hp in Hx.
    assert (Hxy : x.1 = y.1) by (by apply text_leb_antisym).
    apply list_elem_of_lookup in Hx as [i Hi]. apply list_elem_of_lookup in Hy as [j Hj].
    assert (i = j) as ->; [|congruence].
    eapply NoDup_lookup; [exact Hnd|by rewrite list_lookup_fmap, Hi|by rewrite list_lookup_fmap, Hj, Hxy].
  - by rewrite sort_names_perm.
Qed.

(** ** Zero-padded names sort by their number *)

Lemma text_leb_app a b x y :
  length a = length b -> text_leb (a ++ x) (b ++ y) = if decide (a = b) then text_leb x y else text_leb a b.
Proof.
  revert b. induction a as [|c a IH]; intros [|d b]; simpl; try done; intros [= Hl].
  destruct (Z.ltb_spec (code c) (code d)), (Z.ltb_spec (code d) (code c)); try lia.
  - rewrite decide_False; [done|]. intros [= -> _]. lia.
  - rewrite decide_False; [done|]. intros [= -> _]. lia.
  - assert (c = d) as -> by (apply code_inj; lia). rewrite IH by done.
    repeat case_decide; congruence.
Qed.

Lemma pad_digits_length k n : length (pad_digits k n) = k.
Proof. revert n. induction k as [|k IH]; intros n; simpl; [done|]. rewrite length_app, IH. simpl. lia. Qed.

Lemma digit_code n : (n < 10)%N -> code (ascii_of_N (48 + n)) = 48 + Z.of_N n.
Proof. intros Hn. unfold code. rewrite N_ascii_embedding; lia. Qed.

Lemma pad_digits_lt k m n :
  (m < n)%N -> (n < 10 ^ N.of_nat k)%N ->
  text_leb (pad_digits k m) (pad_digits k n) = true /\ pad_digits k m <> pad_digits k n.
Proof.
  revert m n. induction k as [|k IH]; intros m n Hlt Hb; [simpl in Hb; lia|].
  rewrite Nat2N.inj_succ, N.pow_succ_r' in Hb.
  assert (Hm := N.div_mod m 10 ltac:(lia)). assert (Hn := N.div_mod n 10 ltac:(lia)).
  assert (Hm' := N.mod_lt m 10 ltac:(lia)). assert (Hn' := N.mod_lt n 10 ltac:(lia)).
  cbn [pad_digits]. rewrite text_leb_app by (by rewrite !pad_digits_length).
  destruct (N.eq_dec (m / 10)%N (n / 10)%N) as [He|He].
  - rewrite <- He, decide_True by done. split.
    + simpl. rewrite !digit_code by lia. destruct (Z.ltb_spec (48 + Z.of_N (m mod 10)%N) (48 + Z.of_N (n mod 10)%N)); [done|lia].
    + intros Heq. apply app_inv_head in Heq. injection Heq as Heq.
      apply (f_equal code) in Heq. rewrite !digit_code in Heq by lia. lia.
  - destruct (IH (m / 10)%N (n / 10)%N) as [H1 H2].
    { assert (m / 10 <= n / 10)%N by (apply N.Div0.div_le_mono; lia). lia. }
    { apply N.Div0.div_lt_upper_bound; lia. }
    rewrite decide_False by done. split; [done|]. intros Heq. apply H2.
    apply app_inj_1 in Heq; [by destruct Heq|by rewrite !pad_digits_length].
Qed.

Lemma segment_name_lt i j :
  (i < j)%nat -> Z.of_nat j < 10 ^ 8 ->
  text_leb (segment_name i) (segment_name j) = true /\ segment_name i <> segment_name j.
Proof.
  intros Hlt Hj. unfold segment_name.
  destruct (N.ltb_spec (N.of_nat i) 100000000); [|lia]. destruct (N.ltb_spec (N.of_nat j) 100000000); [|lia].
  destruct (pad_digits_lt 8 (N.of_nat i) (N.of_nat j)) as [H1 H2]; [lia|change (10 ^ N.of_nat 8)%N with 100000000%N; lia|].
  rewrite text_leb_app by (by rewrite !pad_digits_length). rewrite decide_False by done.
  split; [done|]. intros Heq. apply H2. by apply app_inj_1 in Heq as [? _]; [|by rewrite !pad_digits_length].
Qed.

(** The listing of segment files [files], from number [si]. *)
Fixpoint listing (si : nat) (files : list text) : list dir_entry :=
  match files with
  | [] => []
  | c :: files' => (segment_name si, c) :: listing (S si) files'
  end.

Lemma listing_elem si files e : e ∈ listing si files -> exists i, (si <= i < si + length files)%nat /\ e.1 = segment_name i.
Proof.
  revert si. induction files as [|c files IH]; intros si; simpl; [set_solver|].
  rewrite elem_of_cons. intros [->|Hin]; [exists si; split; [lia|done]|].
  destruct (IH (S si) Hin) as (i & Hi & ?). exists i. split; [lia|done].
Qed.

Lemma listing_sorted si files :
  Z.of_nat (si + length files) <= 10 ^ 8 ->
  StronglySorted text_le (listing si files) /\ NoDup (listing si files).*1.
Proof.
  revert si. induction files as [|c files IH]; intros si Hb; simpl in *; [repeat constructor|].
  destruct (IH (S si)) as [IH1 IH2]; [lia|]. split.
  - constructor; [done|]. apply Forall_forall. intros e He. apply listing_elem in He as (i & Hi & He).
    unfold text_le. rewrite He. apply (segment_name_lt si i); lia.
  - constructor; [|done]. rewrite list_elem_of_fmap. intros (e & Heq & He).
    apply listing_elem in He as (i & Hi & He). rewrite He in Heq.
    destruct (segment_name_lt si i) as [_ Hne]; [lia|lia|]. by apply Hne.
Qed.

Lemma sort_listing files dir :
  dir ≡ₚ listing 0 files -> Z.of_nat (length files) <= 10 ^ 8 -> sort_names dir = listing 0 files.
Proof. intros Hp Hb. destruct (listing_sorted 0 files); [simpl; lia|]. by apply sort_names_unique. Qed.

(** ** Replaying files *)

Section Recover.
Context `{Hc : Codec} {Hl : CodecLaws}.

Lemma replay_frame_at id si isLast k pre d ds tail fr r r1 :
  good_data d -> unmarshal_frame d = Some fr -> replay_frame id si (len (seg_bytes pre)) fr r = Ok r1 ->
  replay_segment good_open id (S k) si isLast (seg_bytes pre ++ seg_bytes (d :: ds) ++ tail) (len (seg_bytes pre)) r
  = replay_segment good_open id k si isLast (seg_bytes (pre ++ [d]) ++ seg_bytes ds ++ tail)
      (len (seg_bytes (pre ++ [d]))) r1.
Proof.
  intros [Hne Hmax] Hd Hr. cbn [replay_segment good_open op_frame_ctx].
  rewrite seg_bytes_cons, <- !app_assoc. rewrite (read_frame_at _ _ _ fr) by done.
  rewrite Hr. simpl. rewrite seg_bytes_app. unfold seg_bytes at 5 8. simpl.
  rewrite app_nil_r, len_app, <- !app_assoc. done.
Qed.

(** The frames of a file are replayed, and a torn write after them is cut. *)
Lemma replay_segment_good id si isLast ds pre tail fuel r r1 :
  Forall good_data ds -> (length (seg_bytes ds) < fuel)%nat ->
  torn tail -> (isLast = false -> tail = []) ->
  replay_data id si (len (seg_bytes pre)) ds r = Ok r1 ->
  replay_segment good_open id fuel si isLast (seg_bytes pre ++ seg_bytes ds ++ tail) (len (seg_bytes pre)) r
  = Ok (r1, seg_bytes (pre ++ ds), len (seg_bytes (pre ++ ds))).
Proof.
  intros Hg Hf Ht Hlast. revert pre fuel r Hf. induction ds as [|d ds IH]; intros pre fuel r Hf Hr.
  - simpl in Hr. simplify_eq. rewrite app_nil_r. destruct fuel as [|fuel]; [simpl in Hf; lia|].
    change (seg_bytes [] ++ tail) with tail. cbn [replay_segment good_open op_frame_ctx op_truncate].
    destruct Ht as (d & n & [Hne Hmax] & Hn & ->).
    destruct (decide (n = 0%nat)) as [->|Hn0].
    + change (take 0 (frame_bytes d)) with (@nil ascii). rewrite app_nil_r, read_end. done.
    + rewrite read_torn_frame by (done || lia).
      destruct isLast; cycle 1.
      { exfalso. specialize (Hlast eq_refl). apply (f_equal length) in Hlast.
        rewrite length_take in Hlast. simpl in Hlast. lia. }
      by rewrite to_nat_len, take_app_length.
  - inversion Hg as [|?? Hd Hds]; subst. simpl in Hr.
    destruct (unmarshal_frame d) as [fr|] eqn:Ed; [|done].
    destruct (replay_frame id si (len (seg_bytes pre)) fr r) as [r2|] eqn:Er; [|done]. simpl in Hr.
    destruct fuel as [|fuel]; [lia|].
    rewrite (replay_frame_at id si isLast fuel pre d ds tail fr r r2) by done.
    rewrite (IH Hds (pre ++ [d])).
    + by rewrite <- app_assoc.
    + rewrite seg_bytes_cons, length_app, frame_bytes_length in Hf. lia.
    + rewrite seg_bytes_app, len_app. unfold seg_bytes at 2. simpl. by rewrite app_nil_r.
Qed.

(** The segments [Open] builds from the files of [img]. *)
Definition synced_segment (ds : list text) : segment := MkSegment (MkFile (seg_bytes ds) 0) (len (seg_bytes ds)).

(** Replay changes none of these. *)
Definition quiet (r r' : run) : Prop :=
  segments r' = segments r /\ committed r' = committed r /\ poison r' = poison r
  /\ closed r' = closed r /\ closing r' = closing r /\ syncedSegments r' = syncedSegments r
  /\ dirEntries r' = dirEntries r.

Lemma replay_records_segments si off i recs r r' :
  replay_records si off i recs r = Ok r' -> quiet r r'.
Proof.
  revert i r. induction recs as [|rec recs IH]; intros i r Hr; simpl in Hr; [by simplify_eq|].
  repeat (case_match; [done|]). destruct (validate _ _ _); [done|]. by apply IH in Hr.
Qed.

Lemma replay_data_segments id si off ds r r' :
  replay_data id si off ds r = Ok r' -> quiet r r'.
Proof.
  revert off r. induction ds as [|d ds IH]; intros off r Hr; simpl in Hr; [by simplify_eq|].
  destruct (unmarshal_frame d) as [fr|]; [|done].
  destruct (replay_frame id si off fr r) as [r2|] eqn:Er; [|done]. simpl in Hr.
  unfold quiet in *. apply IH in Hr as (-> & -> & -> & -> & -> & -> & ->). unfold replay_frame in Er.
  destruct (replay_header id si off fr r) as [r3|] eqn:Eh; [|done]. simpl in Er.
  case_bool_decide; [done|]. apply replay_records_segments in Er as (-> & -> & -> & -> & -> & -> & ->).
  unfold replay_header in Eh. repeat case_match; by simplify_eq.
Qed.

Lemma replay_segment_file id si isLast ds tail r r1 ra :
  Forall good_data ds -> torn tail -> (isLast = false -> tail = []) ->
  index_of ra = index_of r -> replay_data id si 0 ds r = Ok r1 ->
  exists rb, replay_segment good_open id (S (length (seg_bytes ds ++ tail))) si isLast (seg_bytes ds ++ tail) 0 ra
      = Ok (rb, seg_bytes ds, len (seg_bytes ds)) /\ index_of rb = index_of r1 /\ quiet ra rb.
Proof.
  intros Hg Ht Hlast Hi Hr.
  pose proof (replay_data_index id si 0 ds r ra (eq_sym Hi)) as Hsame. rewrite Hr in Hsame.
  destruct (replay_data id si 0 ds ra) as [rb|] eqn:Erb; [|done]. simpl in Hsame.
  exists rb. split_and!; [|done|by eapply replay_data_segments].
  rewrite <- (app_nil_l (seg_bytes ds ++ tail)) at 2.
  apply (replay_segment_good id si isLast ds [] tail _ ra rb); try done. rewrite length_app. lia.
Qed.

Lemma replay_segments_good id pre ds tail si r r1 ra :
  Forall (Forall good_data) (pre ++ [ds]) -> torn tail ->
  index_of ra = index_of r -> replay_img id si (pre ++ [ds]) r = Ok r1 ->
  exists rb, replay_segments good_open id si (listing si ((seg_bytes <$> pre) ++ [seg_bytes ds ++ tail])) ra = Ok rb
    /\ index_of rb = index_of r1
    /\ quiet (with_segments (segments ra ++ (synced_segment <$> (pre ++ [ds]))) ra) rb.
Proof.
  revert si r ra. induction pre as [|d0 pre IH]; intros si r ra Hg Ht Hi Hr; inversion Hg as [|?? Hg0 Hgs]; subst.
  - simpl in Hr. cbn -[replay_segment]. rewrite bool_decide_true by done. cbn -[replay_segment].
    destruct (replay_data id si 0 ds r) as [r2|] eqn:Er; [|done]. simpl in Hr. injection Hr as ->.
    destruct (replay_segment_file id si true ds tail r r1 ra) as (rb & -> & Hib & Q); try done.
    cbn -[replay_segment]. eexists. split_and!; [done|done|]. unfold quiet in *. simpl. by destruct Q as (-> & -> & -> & -> & -> & -> & ->).
  - simpl in Hr. cbn -[replay_segment]. rewrite bool_decide_true by done. cbn -[replay_segment].
    destruct (replay_data id si 0 d0 r) as [r2|] eqn:Er; [|done]. simpl in Hr.
    assert (match listing (S si) ((seg_bytes <$> pre) ++ [seg_bytes ds ++ tail]) with [] => true | _ => false end = false) as ->
      by (by destruct pre).
    destruct (replay_segment_file id si false d0 [] r r2 ra) as (rb & Hrb & Hib & Q); try done; [apply torn_nil|].
    rewrite app_nil_r in Hrb. rewrite Hrb. cbn -[replay_segment].
    edestruct (IH (S si) r2) as (rc & -> & Hic & Q2); [done|done| |done|]; cycle 1.
    + eexists. split_and!; [done|done|]. unfold quiet in *. simpl in *.
      destruct Q as (Q1 & Q), Q2 as (-> & Q2). rewrite Q1, <- app_assoc. naive_solver congruence.
    + done.
Qed.

(** Segments as [Open] leaves them represent the image. *)
Lemma synced_rep img r :
  Forall (Forall good_data) img -> segments r = synced_segment <$> img -> Rep img [] r.
Proof.
  intros Hg Hs. split; [by rewrite Hs, length_fmap| | |done].
  - intros i s ds Hi Hd. rewrite Hs, list_lookup_fmap, Hd in Hi. by simplify_eq/=.
  - intros i s ds Hi Hd. rewrite Hs, list_lookup_fmap, Hd in Hi. simplify_eq/=. case_decide; by rewrite app_nil_r.
Qed.

Lemma recovered_inv img files rx r :
  Rep img [] r -> index_of r = index_of rx -> 0 <= committed r <= len (records r) ->
  Recoverable img files rx -> Inv img r.
Proof.
  intros HR Hi Hcm [_ (r0 & Hr0 & Hi0) Hroot Hvalid HIx Himg].
  pose proof (index_of_fields _ _ Hi) as (Eh & _). split; [done| | | |by rewrite Eh|done].
  - by apply (index_transfer _ _ rx).
  - exists r0. rewrite Eh. split; [done|congruence].
  - by apply (has_root_index rx).
Qed.

(** The ready file, the lock and the segments are as [Create] left them, and
    no system call fails. *)
Lemma Open_recoverable img files rx dir :
  Recoverable img files rx -> dir ≡ₚ listing 0 files -> Z.of_nat (length files) <= 10 ^ 8 ->
  exists r', Open good_open (RunID (header rx)) dir = Ok r'
    /\ index_of r' = index_of rx /\ Inv img r' /\ committed r' = len (records r')
    /\ check false r' = None
    /\ exists rb, flush good_flush false false rb = (r', None) /\ Inv img rb /\ committed rb = 0
         /\ segments rb = synced_segment <$> img /\ syncedSegments rb = 0 /\ dirEntries rb = 0%nat.
Proof.
  intros HRC Hp Hb.
  pose proof HRC as [(tail & Hdisk & Ht) (r0 & Hr0 & Hi0) (n & Hroot & Hpar & Hkind) Hvalid HIx Himg].
  unfold Open. cbn [good_open op_ctx op_ready op_lock op_glob op_flush op_flush_ctx guard_err mbind result_bind].
  rewrite Hvalid. cbn [guard_err mbind result_bind].
  rewrite bool_decide_true by done. cbn [negb guard_err mbind result_bind].
  rewrite (sort_listing files) by done.
  destruct Hdisk as (pre & ds & -> & -> & Hgd).
  assert (Hne : match listing 0 ((seg_bytes <$> pre) ++ [seg_bytes ds ++ tail]) with [] => Some ErrCorrupt | _ => None end = None)
    by (by destruct pre).
  rewrite Hne. cbn [guard_err mbind result_bind].
  destruct (replay_segments_good (RunID (header rx)) pre ds tail 0 newRun r0 newRun) as (rb & Hrb & Hib & Q); try done.
  rewrite Hrb. cbn [mbind result_bind].
  assert (Hirx : index_of rb = index_of rx) by congruence.
  pose proof (index_of_fields _ _ Hirx) as (Eh & En & Es & Eid & Eu & Er).
  rewrite Eh, En, Hroot. rewrite Hpar, Hkind. cbn [negb orb].
  destruct Q as (Q1 & Q2 & Q3 & Q4 & Q5 & Q6 & Q7). simpl in Q1, Q2, Q3, Q4, Q5, Q6, Q7.
  assert (Hck : check false rb = None) by (unfold check; by rewrite Q4, Q5, Q3).
  destruct (flush_good rb Hck) as (r' & Hf & F1 & F2 & F3 & F4 & F5 & F6).
  unfold Flush. rewrite Hf. cbn. exists r'.
  assert (Hirx' : index_of r' = index_of rx) by congruence.
  pose proof (index_of_fields _ _ Hirx') as (Eh' & En' & Es' & Eid' & Eu' & Er').
  assert (Hrec : records r' = records rb) by congruence.
  split_and!; [done|done| |by rewrite F3, Hrec|unfold check; by rewrite F4, F5, F6, Q3, Q4, Q5|].
  - apply (recovered_inv _ ((seg_bytes <$> pre) ++ [seg_bytes ds ++ tail]) rx); [by apply (rep_views _ _ rb); [|apply synced_rep]|done| |done].
    rewrite F3, Hrec. unfold len. lia.
  - exists rb. split_and!; [done| |done|done|done|done].
    apply (recovered_inv _ ((seg_bytes <$> pre) ++ [seg_bytes ds ++ tail]) rx); [by apply synced_rep|done| |done]. rewrite Q2. unfold len. lia.
Qed.
End Recover.

(** * The run store: its operations keep the invariant

    [Create] establishes the invariant, and [Append], [EnsureNode], [Flush]
    and [Close] keep it unless they poison the run; [Read] gives back the
    committed records in order. *)

Section Ops.
Context `{Hc : Codec} {Hl : CodecLaws}.

(** ** Create *)

Lemma fill_header_ok newRoot now h h' :
  fill_header newRoot now h = Ok h' ->
  HVersion h' = 1 /\ RunID h' = RunID h /\ Workflow h' = Workflow h /\ Workflow h <> ""%string
  /\ ValidID (Root h') = true.
Proof.
  unfold fill_header. destruct (_ || _) eqn:E1; [done|].
  apply orb_false_elim in E1 as [E1 E2]. apply negb_false_iff, Z.eqb_eq in E1.
  destruct (String.eqb_spec (Workflow h) ""); [done|].
  destruct (ValidID _) eqn:Ev; [|done]. intros Heq. injection Heq as <-. simpl. done.
Qed.

Lemma root_fact_text newRecord h :
  ValidID newRecord = true -> ValidID (Root h) = true -> fact_text_ok (root_fact newRecord h) = true.
Proof.
  intros H1 H2. unfold fact_text_ok, root_fact. simpl.
  rewrite (valid_id_text _ H1), (valid_id_text _ H2). done.
Qed.

Lemma rep_newRun h : Rep [] [] (with_header h newRun).
Proof. split; simpl; done. Qed.

Lemma index_newRun h : Index [] (with_header h newRun).
Proof. split; simpl; try done; [constructor|set_solver]. Qed.

(** The root node a new run starts with. *)
Lemma root_unmarshal h p :
  str_ok (Workflow h) = true -> ValidID (Root h) = true -> marshal_node (root_node h) = Some p ->
  unmarshal_node p = (root_node h, true).
Proof.
  intros Hw Hr Hm. rewrite (node_roundtrip (root_node h) p); [done| |done].
  unfold node_text_ok, slot_text_ok. simpl. rewrite (valid_id_text _ Hr), Hw. done.
Qed.

Lemma create_append io newRecord h r' out :
  str_ok (Workflow h) = true -> ValidID newRecord = true -> ValidID (RunID h) = true ->
  HVersion h = 1 -> Workflow h <> ""%string -> ValidID (Root h) = true ->
  appendLocked io [root_fact newRecord h] (Some h) true (with_header h newRun) = (r', Ok out) ->
  exists d, Inv [[d]] r' /\ committed r' = 0 /\ check false r' = None /\ records r' = [newRecord]
    /\ header r' = h /\ nodes r' = {[Root h := root_node h]}.
Proof.
  intros Hwt Hid Hrid Hv Hw Hroot Ha. unfold appendLocked in Ha.
  destruct (batch_loop _ _ _ _) as [b|] eqn:Eb; [|done].
  destruct (marshal_node_total (root_node h) eq_refl) as [p Hm].
  set (rec := {| Sequence := 1; RFact := root_fact newRecord h |}).
  assert (Hp : validate (with_header h newRun) (root_fact newRecord h) true = None /\ fresh b = [rec]).
  { simpl in Eb. unfold batch_step in Eb. destruct (marshal_fact _); [|done]. simpl in Eb.
    destruct (validate _ _ _) eqn:Ev; [done|]. simpl in Eb. injection Eb as <-. done. }
  destruct Hp as [Hval Hfresh]. rewrite Hfresh in Ha.
  assert (Hpay : Payload (root_fact newRecord h) = p) by (simpl; by rewrite Hm).
  pose proof (node_compact _ _ Hm) as [Hjv Hcp].
  assert (Hfix : fact_fixed (root_fact newRecord h)) by (intros _; by rewrite Hpay).
  assert (Hur : unmarshal_node (Payload (root_fact newRecord h)) = (root_node h, true)).
  { rewrite Hpay. by apply root_unmarshal. }
  clear Hpay Hm Hjv Hcp p.
  assert (Hrep : Replayable (with_header h newRun) [rec]).
  { split.
    - intros i x Hi. apply list_lookup_singleton_Some in Hi as [-> <-]. done.
    - apply NoDup_singleton.
    - unfold ukeys. simpl. constructor.
    - right. simpl. lia. }
  assert (Hdec : forall d, marshal_frame (MkFrame (Some h) [rec]) = Some d ->
    d <> [] /\ unmarshal_frame d = Some (MkFrame (Some h) (compact_rec <$> [rec]))).
  { intros d Hd. apply (batch_frame_ok (Some h) [rec] d); [| |done].
    - unfold header_text_ok. by rewrite (valid_id_text _ Hrid), (valid_id_text _ Hroot), Hwt.
    - intros i x Hi. apply list_lookup_singleton_Some in Hi as [_ <-]. split.
      + by apply root_fact_text.
      + by eapply validate_valid. }
  destruct (write_batch io (Some h) [rec] (with_header h newRun)) as [r1 e] eqn:Ew.
  destruct e as [e|]; [done|]. injection Ha as -> _.
  assert (Hmd : forall d, marshal_frame (MkFrame (Some h) [rec]) = Some d -> d <> []) by (intros d Hd; by apply Hdec).
  pose proof (write_batch_written _ _ _ _ _ _ _ (rep_newRun h) Hmd Ew) as Hw'.
  inversion Hw' as [| | |new d r3 Hd Hg Hnew Hsf HR3]; subst. clear Hw'.
  assert (needs_segment (with_header h newRun) (len d) = true) as Hnew by done. rewrite Hnew in *.
  destruct (Hdec d Hd) as [Hdne Hun].
  change (add_frame true d []) with [[d]] in HR3. change (length []) with 0%nat.
  destruct Hsf as (Hi & Hc1 & Hp1 & Hcl & Hcg & _).
  assert (Hrep3 : Replayable r3 [rec]) by (by apply (replayable_index (with_header h newRun) r3)).
  pose proof (index_of_fields _ _ Hi) as (Fh & Fn & Fs & Fi & Fu & Fr).
  assert (Hnode : forall si off, nodes (install_all si off 0 [rec] r3) = {[Root h := root_node h]}).
  { intros si off. cbn [install_all install nodes RFact rec]. rewrite Hur, Fn. simpl. by rewrite insert_empty. }
  exists d. split_and!; [|by rewrite install_all_committed, Hc1| |by rewrite install_all_records, Fr
    |by rewrite install_all_header, Fh|apply Hnode].
  - split.
    + apply (rep_segments _ _ r3); [by rewrite install_all_segments|done].
    + eapply (index_install_all []); [|done| |].
      * by apply (index_transfer [] _ (with_header h newRun)); [|rewrite Hc1, Fr; done|apply index_newRun].
      * intros loc x (pre & y & post & fr & Himg & _). by rewrite lookup_nil in Himg.
      * intros j x dg Hj. exists [], d, [], (MkFrame (Some h) (compact_rec <$> [rec])). simpl.
        split_and!; [done..|]. change (compact_rec <$> [rec]) with [compact_rec rec].
        apply list_lookup_singleton_Some in Hj as [-> <-]. done.
    + rewrite install_all_header, Fh. cbn [replay_img replay_data header with_header]. rewrite Hun.
      unfold replay_frame.
      assert (Hh : replay_header (RunID h) 0 0 (MkFrame (Some h) (compact_rec <$> [rec])) newRun = Ok (with_header h newRun)).
      { unfold replay_header. simpl. rewrite Hv, Hroot, String.eqb_refl.
        by destruct (String.eqb_spec (Workflow h) ""). }
      rewrite Hh. cbn [mbind result_bind FrRecords]. rewrite bool_decide_false by done.
      rewrite replay_records_install by done. cbn [mbind result_bind].
      eexists. split; [done|]. by apply install_all_index.
    + exists (root_node h). rewrite install_all_header, Fh, Hnode. split_and!; [|done|done]. apply lookup_singleton_eq.
    + by rewrite install_all_header, Fh.
    + by eexists _, _, _.
  - unfold check. simpl. by rewrite Hcl, Hcg, Hp1.
Qed.
End Ops.
