(* ===== verification/RunStoreSteps.v ===== *)
(** * The run store: concurrent appends and flushes

    A flush syncs files without holding the lock, so appends and node
    creations run between its syncs.  The interleavings are a step relation;
    an invariant of every reachable state says that what a flush has
    committed is on stable storage. *)

From S2P Require Import Prelude GoText RunStoreTypes RunStore RunStoreOpen RunStoreInv RunStoreCrash RunStoreAppend.
From Stdlib Require Import Ascii.

Section Steps.
Context `{Hc : Codec}.

(** A flush under way: its snapshot, how many syncs it has done (the files,
    then the directory), and the joined errors so far. *)
Record world := World {
  wrun : run;
  wflush : option (snapshot * nat * option error);
}.

(** The flush has no sync left to do. *)
Definition flush_done (s : snapshot) (i : nat) (e : option error) : bool :=
  (snapFiles s <=? i)%nat
  && (bool_decide (e ≠ None) || negb (needsDirSync s) || (snapFiles s <? i)%nat).

Inductive step : world -> world -> Prop :=
| step_append io facts r r' res fl :
    append_waits r = false -> check false r = None -> Forall admissible facts ->
    appendLocked io facts None false r = (r', res) ->
    step (World r fl) (World r' fl)
| step_ensure io newNode newRecord spec r r' res fl :
    ValidID newNode = true -> ValidID newRecord = true ->
    EnsureNode io false newNode newRecord spec r = (r', res) ->
    step (World r fl) (World r' fl)
| step_flush_begin ctx isClosing r s :
    flush_begin ctx isClosing r = FlushSync s ->
    step (World r None) (World r (Some (s, 0%nat, None)))
| step_sync_ok r s i e :
    (i < snapFiles s)%nat ->
    step (World r (Some (s, i, e))) (World (sync_file i r) (Some (s, S i, e)))
| step_sync_err r s i e err :
    (i < snapFiles s)%nat ->
    step (World r (Some (s, i, e))) (World r (Some (s, S i, join_err e (Some err))))
| step_dir_ok r s :
    needsDirSync s = true ->
    step (World r (Some (s, snapFiles s, None))) (World (sync_dir r) (Some (s, S (snapFiles s), None)))
| step_dir_err r s err :
    needsDirSync s = true ->
    step (World r (Some (s, snapFiles s, None))) (World r (Some (s, snapFiles s, Some err)))
| step_flush_end ctx r s i e :
    flush_done s i e = true ->
    step (World r (Some (s, i, e))) (World (flush_end ctx s e r).1 None)
| step_closing r fl : step (World r fl) (World (with_closing r) fl)
| step_closed r : step (World r None) (World (with_closed r) None).

(** ** What is on stable storage *)

(** The stable bytes of a file. *)
Definition stable (f : os_file) : text := take (durable f) (contents f).

(** The record [id] can be read at [loc] from the stable bytes alone. *)
Definition synced_at (r : run) (loc : location) (id : string) : Prop :=
  exists s fr sz rec, segments r !! lsegment loc = Some s
    /\ readFrame (stable (file s)) (loffset loc) = RFrame fr sz
    /\ FrRecords fr !! lindex loc = Some rec /\ rec_id rec = id.

(** ... and the name of its file is on stable storage too. *)
Definition stored (r : run) (id : string) : Prop :=
  exists loc, ids r !! id = Some loc /\ (lsegment loc < dirEntries r)%nat /\ synced_at r loc id.

(** A frame read from a prefix of a file reads the same from the file. *)
Lemma readFrame_app p q off fr sz : readFrame p off = RFrame fr sz -> readFrame (p ++ q) off = RFrame fr sz.
Proof.
  unfold readFrame, read_at. set (o := Z.to_nat off).
  assert (Hat : forall n m, (n <= length (take n (drop m p)))%nat -> take n (drop m (p ++ q)) = take n (drop m p)).
  { intros n m Hn. rewrite length_take, length_drop in Hn.
    destruct (decide (m <= length p)%nat); [|replace n with 0%nat by lia; done].
    rewrite drop_app_le by lia. rewrite take_app_le; [done|]. rewrite length_drop. lia. }
  destruct (Z.ltb_spec (len (take 8 (drop o p))) 8) as [|H8].
  { case_match; done. }
  rewrite (Hat 8%nat o) by (unfold len in H8; lia).
  destruct (Z.ltb_spec (len (take 8 (drop o p))) 8); [lia|].
  set (size := get_uint32 _). destruct (_ || _); [done|].
  destruct (Z.ltb_spec (len (take (Z.to_nat size) (drop (o + 8) p))) size) as [|Hs]; [done|].
  rewrite (Hat (Z.to_nat size) (o + 8)%nat) by (unfold len in Hs; lia).
  destruct (Z.ltb_spec (len (take (Z.to_nat size) (drop (o + 8) p))) size); [lia|]. done.
Qed.

(** The files of [r'] are those of [r] with bytes added at their ends. *)
Definition grows (r r' : run) : Prop :=
  (forall i s, segments r !! i = Some s -> exists s', segments r' !! i = Some s'
     /\ durable (file s') = durable (file s) /\ contents (file s) `prefix_of` contents (file s'))
  /\ dirEntries r' = dirEntries r /\ syncedSegments r' = syncedSegments r
  /\ (length (segments r) <= length (segments r'))%nat
  /\ (forall i s, segments r !! i = None -> segments r' !! i = Some s -> durable (file s) = 0%nat).

(** No file has more stable bytes than bytes. *)
Definition durable_le (r : run) : Prop :=
  forall i s, segments r !! i = Some s -> (durable (file s) <= length (contents (file s)))%nat.

Lemma synced_grows r r' loc id : durable_le r -> grows r r' -> synced_at r loc id -> synced_at r' loc id.
Proof.
  intros Hd (Hg & _) (s & fr & sz & rec & Hs & Hf & Hrest).
  destruct (Hg _ _ Hs) as (s' & Hs' & Hdur & [q Hq]). exists s', fr, sz, rec.
  split_and!; [done| |by destruct Hrest..]. unfold stable. rewrite Hdur, Hq, take_app_le by (by eapply Hd). done.
Qed.

Lemma grows_refl r : grows r r.
Proof. split_and!; [|done..|]; [intros i s Hs; by exists s|]. intros i s H1 H2. congruence. Qed.

Lemma grows_install si off i recs a b : grows a b -> grows a (install_all si off i recs b).
Proof.
  intros (G1 & G2 & G3 & G4 & G5). destruct (install_all_flags si off i recs b) as (_ & _ & F3 & F4).
  unfold grows. by rewrite install_all_segments, F3, F4.
Qed.

Lemma grows_last f r l s :
  segments r = l ++ [s] -> durable (file (f s)) = durable (file s) ->
  contents (file s) `prefix_of` contents (file (f s)) -> grows r (update_last f r).
Proof.
  intros Hl Hd Hp. split_and!; [|done|done|simpl; by rewrite length_alter|]; cycle 1.
  { intros i x Hn Hx. apply lookup_ge_None in Hn. apply lookup_lt_Some in Hx. simpl in Hx.
    rewrite length_alter in Hx. lia. }
  intros i x Hx. rewrite (update_last_snoc f r l s Hl). rewrite Hl in Hx.
  apply lookup_app_Some in Hx as [Hx|[Hge Hx]].
  - exists x. split; [by apply lookup_app_l_Some|done].
  - apply list_lookup_singleton_Some in Hx as [Hi <-]. exists (f s). split_and!; [|done|done].
    rewrite lookup_app_r by done. by rewrite Hi.
Qed.

Lemma grows_trans a b c : grows a b -> grows b c -> grows a c.
Proof.
  intros (G1 & G2 & G3 & G4 & G5) (H1 & H2 & H3 & H4 & H5). split_and!; [|congruence|congruence|lia|]; cycle 1.
  { intros i s Ha Hs. destruct (segments b !! i) as [sb|] eqn:Eb; [|by apply (H5 i s)].
    destruct (H1 i sb Eb) as (s2 & Hs2 & D2 & _). rewrite Hs in Hs2. injection Hs2 as <-.
    rewrite D2. by apply (G5 i). }
  intros i s Hs. destruct (G1 i s Hs) as (s1 & Hs1 & D1 & P1). destruct (H1 i s1 Hs1) as (s2 & Hs2 & D2 & P2).
  exists s2. split_and!; [done|congruence|by etrans].
Qed.

Lemma write_batch_grows io h recs img r r' e :
  Rep img [] r -> write_batch io h recs r = (r', e) -> grows r r'.
Proof.
  intros HR. unfold write_batch. destruct (marshal_frame _) as [d|]; [|intros [= <- _]; apply grows_refl].
  case_match; [intros [= <- _]; apply grows_refl|].
  destruct (if needs_segment r (len d) then _ else _) as [r1|e0] eqn:E1; cycle 1.
  { intros [= <- _]. exact (grows_refl r). }
  assert (H1 : grows r r1 /\ exists l s, segments r1 = l ++ [s] /\ length (contents (file s)) = Z.to_nat (ssize s)).
  { destruct (needs_segment r (len d)) eqn:En.
    - destruct (open_err io); [done|]. injection E1 as <-. split.
      + split_and!; [|done|done|simpl; rewrite length_app; lia|].
        * intros i s Hs. exists s. simpl. split; [by apply lookup_app_l_Some|done].
        * intros i s Hn Hs. simpl in Hs. apply lookup_app_Some in Hs as [Hs|[_ Hs]]; [congruence|].
          by apply list_lookup_singleton_Some in Hs as [_ <-].
      + eexists _, _. split; [reflexivity|]. done.
    - injection E1 as <-. split; [apply grows_refl|].
      apply needs_segment_false in En.
      destruct (img_snoc img) as (pre & ds & ->).
      { intros ->. destruct HR as [Hlen _ _ _]. by destruct (segments r). }
      destruct (rep_snoc _ _ _ _ HR) as (l & s & Hl & _ & Hsz & Hct). exists l, s. split; [done|].
      rewrite Hct, Hsz, app_nil_r. unfold len. lia. }
  destruct H1 as (G1 & l & s & Hl & Hsz). rewrite Hl, last_snoc.
  destruct (write_res io _) as [n werr].
  set (put := fun s0 : segment => _). set (r2 := update_last put r1).
  assert (G2 : grows r r2).
  { eapply grows_trans; [exact G1|]. eapply grows_last; [exact Hl|done|]. simpl.
    rewrite write_at_tail by done. by apply prefix_app_r. }
  destruct werr; [intros [= <- _]; exact G2|].
  destruct (negb _); [intros [= <- _]; exact G2|].
  intros [= <- _]. apply grows_install.
  set (grow := fun s0 : segment => _).
  assert (Hl2 : segments r2 = l ++ [put s]) by (by apply update_last_snoc).
  eapply grows_trans; [exact G2|]. exact (grows_last grow r2 l (put s) Hl2 eq_refl (reflexivity _)).
Qed.

Lemma appendLocked_grows io facts h internal img r r' res :
  Rep img [] r -> appendLocked io facts h internal r = (r', res) -> grows r r'.
Proof.
  intros HR. unfold appendLocked. destruct (batch_loop _ _ _ _) as [b|]; [|intros [= <- _]; apply grows_refl].
  destruct (fresh b) eqn:Ef; [intros [= <- _]; apply grows_refl|].
  destruct (write_batch _ _ _ _) as [r1 [e|]] eqn:Ew; intros [= <- _]; by eapply write_batch_grows.
Qed.

(** Appending never moves what is installed. *)
Lemma install_all_ids_old si off i recs r id loc :
  ids r !! id = Some loc -> (forall rec, rec ∈ recs -> rec_id rec <> id) ->
  ids (install_all si off i recs r) !! id = Some loc.
Proof.
  revert i r. induction recs as [|rec recs IH]; intros i r Hid Hne; simpl; [done|].
  apply IH; [|set_solver]. simpl. rewrite lookup_insert_ne; [done|]. apply Hne. set_solver.
Qed.

Lemma grows_durable_le r r' : durable_le r -> grows r r' -> durable_le r'.
Proof.
  intros Hd (G1 & _ & _ & _ & G5) i s Hs. destruct (segments r !! i) as [s0|] eqn:E.
  - destruct (G1 i s0 E) as (s' & Hs' & D & P). rewrite Hs in Hs'. injection Hs' as <-.
    rewrite D. specialize (Hd i s0 E). apply prefix_length in P. lia.
  - rewrite (G5 i s E Hs). lia.
Qed.

(** ** The invariant *)

(** What a flush under way has achieved: every record of its snapshot in a
    file it has synced is on stable storage. *)
Definition flush_inv (r : run) (fl : option (snapshot * nat * option error)) : Prop :=
  match fl with
  | None => True
  | Some (s, i, e) =>
      committed r <= snapSeq s <= len (records r) /\ (snapFiles s <= length (segments r))%nat
      /\ (e = None -> needsDirSync s = false \/ (snapFiles s < i)%nat -> (snapFiles s <= dirEntries r)%nat)
      /\ (e = None -> forall k id loc, Z.of_nat k < snapSeq s -> records r !! k = Some id -> ids r !! id = Some loc ->
            (lsegment loc < snapFiles s)%nat /\ ((lsegment loc < i)%nat -> synced_at r loc id))
  end.

(** What is in the files replays to an index that has every record of [r], in
    its place. *)
Definition recovers (r : run) : Prop :=
  exists img rx, Recoverable img (files_of r) rx /\ header rx = header r
    /\ records r `prefix_of` records rx
    /\ (forall id loc, ids r !! id = Some loc -> ids rx !! id = Some loc).

Record WorldInv (w : world) : Prop := {
  wi_wf : exists img tail, Rep img tail (wrun w) /\ Index img (wrun w);
  wi_inv : poison (wrun w) = None -> exists img, Inv img (wrun w);
  wi_durable : durable_le (wrun w);
  wi_synced : syncedSegments (wrun w) <= Z.of_nat (dirEntries (wrun w))
    /\ (dirEntries (wrun w) <= length (segments (wrun w)))%nat;
  wi_committed : forall k id, Z.of_nat k < committed (wrun w) -> records (wrun w) !! k = Some id ->
    stored (wrun w) id;
  wi_flush : flush_inv (wrun w) (wflush w);
  wi_recover : recovers (wrun w);
}.

(** The log of [r'] extends that of [r], in place. *)
Definition extends (r r' : run) : Prop :=
  grows r r' /\ records r `prefix_of` records r'
  /\ (forall id loc, ids r !! id = Some loc -> ids r' !! id = Some loc)
  /\ committed r' = committed r.

Lemma stored_extends r r' id : durable_le r -> extends r r' -> stored r id -> stored r' id.
Proof.
  intros Hd (Hg & _ & Hids & _) (loc & Hloc & Hlt & Hs). exists loc. split_and!; [by apply Hids| |].
  - destruct Hg as (_ & -> & _). done.
  - by apply (synced_grows r).
Qed.

Lemma prefix_lookup_old {A} (l l' : list A) k x :
  l `prefix_of` l' -> (k < length l)%nat -> l' !! k = Some x -> l !! k = Some x.
Proof. intros [t ->] Hk. by rewrite lookup_app_l. Qed.

(** An index holds every record, and its committed prefix is a prefix. *)
Lemma index_loc img r k id : Index img r -> records r !! k = Some id -> exists loc, ids r !! id = Some loc.
Proof. intros HI Hk. apply (index_records _ _ HI). by eapply list_elem_of_lookup_2. Qed.

Lemma world_inv_extends r r' fl :
  WorldInv (World r fl) -> extends r r' ->
  (exists img tail, Rep img tail r' /\ Index img r') -> (poison r' = None -> exists img, Inv img r') ->
  recovers r' -> WorldInv (World r' fl).
Proof.
  intros [(img & tail & HR & HI) W2 W3 W4 W5 W6 W7] Hx Hwf Hinv Hrec. simpl in *.
  pose proof Hx as (Hg & Hp & Hids & Hcm). pose proof Hg as (G1 & G2 & G3 & G4 & _).
  destruct W4 as [W4 W4'].
  pose proof (index_committed _ _ HI) as Hcb.
  split; simpl; [done|done|by eapply grows_durable_le|rewrite G2, G3; split; [done|lia]| | |done].
  - intros k id Hk Hid. rewrite Hcm in Hk. apply (stored_extends r); [done|done|].
    apply (W5 k); [done|]. eapply prefix_lookup_old; [done| |done]. unfold len in *. lia.
  - destruct fl as [[[s i] e]|]; [|done]. simpl in *. destruct W6 as (F1 & F2 & F3 & F4).
    rewrite Hcm, G2. split_and!; [lia| |lia|done|].
    + apply prefix_length in Hp. unfold len in *. lia.
    + intros He k id loc Hk Hid Hloc.
      assert (Hold : records r !! k = Some id).
      { eapply prefix_lookup_old; [done| |done]. unfold len in *. lia. }
      destruct (index_loc _ _ _ _ HI Hold) as [loc0 Hloc0].
      assert (loc0 = loc) as -> by (apply Hids in Hloc0; congruence).
      destruct (F4 He k id loc Hk Hold Hloc0) as [H1 H2]. split; [done|].
      intros Hi. apply (synced_grows r); auto.
Qed.

Context {Hl : CodecLaws}.

Lemma install_all_keeps si off recs r id loc :
  Replayable r recs -> ids r !! id = Some loc -> ids (install_all si off 0 recs r) !! id = Some loc.
Proof.
  intros [R1 _ _ _] Hloc. apply install_all_ids_old; [done|].
  intros rec Hin Heq. apply list_elem_of_lookup in Hin as [i Hin].
  destruct (R1 i rec Hin) as (_ & _ & Hn & _). congruence.
Qed.

Lemma inv_recovers img r : Inv img r -> recovers r.
Proof. intros HI. exists img, r. split_and!; [by apply inv_recoverable|done..]. Qed.

Lemma files_of_views a b : views a = views b -> files_of a = files_of b.
Proof.
  intros Hv. unfold files_of, views in *. apply (f_equal (fmap fst)) in Hv. by rewrite <- !list_fmap_compose in Hv.
Qed.

Lemma recovers_same a b : index_of a = index_of b -> views a = views b -> recovers b -> recovers a.
Proof.
  intros (Eh & _ & _ & Ei & _ & Er)%index_of_fields Hv (img & rx & Hrc).
  exists img, rx. by rewrite (files_of_views a b), Eh, Ei, Er.
Qed.

Lemma appendLocked_extends io facts internal img r r' res :
  Inv img r -> batch_shape internal facts -> Forall admissible facts ->
  appendLocked io facts None internal r = (r', res) -> extends r r'.
Proof.
  intros HI Hsh Hadm Ha.
  assert (Hg : grows r r') by (by eapply appendLocked_grows; [apply HI|]).
  assert (Hsame : index_of r' = index_of r -> committed r' = committed r -> extends r r').
  { intros (_ & _ & _ & Hi & _ & Hr)%index_of_fields Hcm. split_and!; [done|by rewrite Hr|by rewrite Hi|done]. }
  pose proof (appendLocked_cases _ _ _ _ _ _ _ HI Hsh Hadm Ha) as Hcases. destruct res as [out|e].
  - destruct Hcases as ([->|(recs & (b & Hb & -> & _) & si & off & Hix)] & _ & Hcm & _); [by apply Hsame|].
    destruct (batch_fresh_ok _ _ _ _ Hb Hsh Hadm) as [Hrp _].
    apply index_of_fields in Hix as (_ & _ & _ & Hi & _ & Hr). split_and!; [done| | |done].
    + rewrite Hr, install_all_records. by apply prefix_app_r.
    + intros id loc Hloc. rewrite Hi. by apply (install_all_keeps _ _ _ r).
  - destruct Hcases as [->|(Hix & Hcm & _)]; by apply Hsame.
Qed.

Lemma world_inv_append io facts internal r r' res fl :
  WorldInv (World r fl) -> check false r = None -> batch_shape internal facts -> Forall admissible facts ->
  appendLocked io facts None internal r = (r', res) -> WorldInv (World r' fl).
Proof.
  intros HW Hck Hsh Hadm Ha.
  assert (Hp : poison r = None) by (unfold check in Hck; by repeat case_match).
  destruct (wi_inv _ HW Hp) as [img HI]. simpl in HI.
  pose proof (appendLocked_extends _ _ _ _ _ _ _ HI Hsh Hadm Ha) as Hx.
  pose proof (appendLocked_cases _ _ _ _ _ _ _ HI Hsh Hadm Ha) as Hcases.
  assert (Hinv : poison r' = None -> exists img, Inv img r').
  { intros Hp'. destruct res as [out|e].
    + by destruct Hcases as (_ & Hinv & _).
    + destruct Hcases as [->|(_ & _ & He & _)]; [by exists img|congruence]. }
  apply (world_inv_extends r); [done|done| |done|].
  - destruct res as [out|e].
    + destruct Hcases as (_ & (img' & HI') & _). exists img', []. split; apply HI'.
    + destruct Hcases as [->|(_ & _ & _ & Hwf & _)]; [exists img, []; split; apply HI|done].
  - destruct res as [out|e].
    + destruct Hcases as (_ & (img' & HI') & _). by eapply inv_recovers.
    + destruct Hcases as [->|(Hix & _ & _ & _ & img' & rx & Hrc & Hor)]; [by eapply inv_recovers|].
      apply index_of_fields in Hix as (Hh & _ & _ & Hi & _ & Hr).
      exists img', rx. split; [done|]. rewrite Hh, Hr. destruct Hor as [Hrx|(recs & (b & Hb & -> & _) & si & off & Hrx)].
      * apply index_of_fields in Hrx as (-> & _ & _ & -> & _ & ->). rewrite Hi. done.
      * destruct (batch_fresh_ok _ _ _ _ Hb Hsh Hadm) as [Hrp _].
        apply index_of_fields in Hrx as (-> & _ & _ & -> & _ & ->).
        rewrite install_all_header, install_all_records. split_and!; [done|by apply prefix_app_r|].
        intros id loc. rewrite Hi. intros Hloc. by apply (install_all_keeps _ _ _ r).
Qed.

(** The fact of a node creation can be appended. *)
Lemma ensure_admissible n newNode newRecord raw :
  ValidID newNode = true -> ValidID newRecord = true -> marshal_node n = Some raw ->
  admissible {| FVersion := 1; FID := newRecord; FNode := newNode; FScope := ""; FSession := "";
                FKind := "node-created"; Payload := raw |}.
Proof.
  intros H1 H2 Hm. split.
  - unfold fact_text_ok. simpl. by rewrite (valid_id_text _ H1), (valid_id_text _ H2).
  - intros _. simpl. by apply node_compact in Hm as [_ ?].
Qed.

Lemma world_inv_ensure io newNode newRecord spec r r' res fl :
  WorldInv (World r fl) -> ValidID newNode = true -> ValidID newRecord = true ->
  EnsureNode io false newNode newRecord spec r = (r', res) -> WorldInv (World r' fl).
Proof.
  intros HW H1 H2. unfold EnsureNode. destruct (check false r) eqn:Hck; [by intros [= <- _]|].
  destruct (slots r !! SpecSlot spec).
  { destruct (marshal_spec spec); [case_bool_decide|]; by intros [= <- _]. }
  destruct (marshal_node _) as [raw|] eqn:Hm; [|by intros [= <- _]].
  destruct (appendLocked io _ None true r) as [r1 res1] eqn:Ha.
  intros Heq. assert (r1 = r') as -> by (destruct res1; by injection Heq).
  eapply world_inv_append; [done|done| |..|exact Ha]; [by right|].
  constructor; [|done]. by eapply ensure_admissible.
Qed.

(** ** Syncing *)

(** Any change outside the bytes and the index that keeps what is stable. *)
Lemma synced_sync_file j r loc id : durable_le r -> synced_at r loc id -> synced_at (sync_file j r) loc id.
Proof.
  intros Hd (s & fr & sz & rec & Hs & Hf & Hrest). unfold synced_at, sync_file. simpl.
  destruct (decide (j = lsegment loc)) as [->|Hne].
  - rewrite list_lookup_alter_eq, Hs. simpl. eexists _, fr, sz, rec. split; [done|]. split; [|done].
    unfold stable. simpl. rewrite firstn_all. unfold stable in Hf.
    rewrite <- (take_drop (durable (file s)) (contents (file s))). by apply readFrame_app.
  - rewrite list_lookup_alter_ne by done. by exists s, fr, sz, rec.
Qed.

Lemma sync_file_durable_le j r : durable_le r -> durable_le (sync_file j r).
Proof.
  intros Hd i s. unfold sync_file. simpl. destruct (decide (j = i)) as [->|Hne].
  - rewrite list_lookup_alter_eq. destruct (segments r !! i) as [s0|] eqn:E; [|done].
    intros Heq. simpl in Heq. injection Heq as <-. done.
  - rewrite list_lookup_alter_ne by done. apply Hd.
Qed.

(** A record can be read from a file as soon as the file is synced. *)
Lemma synced_after_sync img tail r loc id :
  Rep img tail r -> Index img r -> ids r !! id = Some loc -> synced_at (sync_file (lsegment loc) r) loc id.
Proof.
  intros HR HI Hloc. destruct (index_ids _ _ HI id loc Hloc) as (k & rec & Hl1 & _ & Hid & _).
  pose proof (recordAt_located _ _ _ _ _ HR Hl1) as Hrec. unfold recordAt in Hrec.
  destruct (segments r !! lsegment loc) as [s|] eqn:Es; [|done].
  destruct (readFrame (contents (file s)) (loffset loc)) as [fr sz| | |] eqn:Ef; try done.
  destruct (FrRecords fr !! lindex loc) as [rec'|] eqn:Er; [|done]. injection Hrec as ->.
  unfold synced_at, sync_file. simpl. rewrite list_lookup_alter_eq, Es. simpl.
  eexists _, fr, sz, rec. split; [done|]. unfold stable. simpl. by rewrite firstn_all.
Qed.

Lemma inv_views img a b : index_of a = index_of b -> views a = views b -> committed a = committed b -> Inv img b -> Inv img a.
Proof.
  intros Hi Hv Hcm [HR HI (r0 & Hr0 & Hi0) Hroot Hvalid Himg].
  pose proof (index_of_fields _ _ Hi) as (Eh & En & _ & _ & _ & Er). split.
  - by apply (rep_views _ _ b).
  - apply (index_transfer _ _ b); [done| |done]. rewrite Hcm, Er. apply HI.
  - exists r0. rewrite Eh. split; [done|congruence].
  - by apply (has_root_index b).
  - by rewrite Eh.
  - done.
Qed.

Lemma world_inv_sync_ok r s i e :
  (i < snapFiles s)%nat -> WorldInv (World r (Some (s, i, e))) ->
  WorldInv (World (sync_file i r) (Some (s, S i, e))).
Proof.
  intros Hi [(img & tail & HR & HI) W2 W3 W4 W5 (F1 & F2 & F3 & F4) W7]. simpl in *.
  pose proof (sync_file_bytes i r) as (B1 & B2 & B3 & B4 & _).
  split; simpl; [|intros Hp|by apply sync_file_durable_le|by rewrite length_alter| | |by apply (recovers_same _ r)].
  - exists img, tail. split; [by apply (rep_views _ _ r)|]. apply (index_transfer _ _ r); [done|apply HI|done].
  - destruct (W2 Hp) as [img' HI']. exists img'. by apply (inv_views _ _ r).
  - intros k id Hk Hid. destruct (W5 k id Hk Hid) as (loc & Hloc & Hlt & Hs).
    exists loc. split_and!; [done|done|]. by apply synced_sync_file.
  - split_and!; [lia|lia|by rewrite length_alter| |].
    + intros He Hor. apply F3; [done|]. destruct Hor as [?|Hlt]; [by left|lia].
    + intros He k id loc Hk Hid Hloc. destruct (F4 He k id loc Hk Hid Hloc) as [H1 H2]. split; [done|].
      intros Hlt. destruct (decide (lsegment loc = i)) as [<-|Hne].
      * by eapply synced_after_sync.
      * apply synced_sync_file; [done|]. apply H2. lia.
Qed.

(** Changes of the flags alone keep the invariant. *)
Lemma world_inv_quiet r r' fl :
  WorldInv (World r fl) -> index_of r' = index_of r -> segments r' = segments r -> committed r' = committed r ->
  syncedSegments r' = syncedSegments r -> dirEntries r' = dirEntries r ->
  (poison r' = None -> poison r = None) -> WorldInv (World r' fl).
Proof.
  intros [(img & tail & HR & HI) W2 W3 W4 W5 W6 W7] Hi Hs Hcm Hsy Hde Hp. simpl in *.
  pose proof (index_of_fields _ _ Hi) as (Eh & En & _ & Eid & _ & Er).
  assert (Hv : views r' = views r) by (unfold views; by rewrite Hs).
  assert (Hst : forall loc id, synced_at r loc id -> synced_at r' loc id).
  { intros loc id (x & fr & sz & rec & Hx). exists x, fr, sz, rec. by rewrite Hs. }
  split; simpl.
  - exists img, tail. split; [by apply (rep_segments _ _ r)|]. apply (index_transfer _ _ r); [done| |done].
    rewrite Hcm, Er. apply HI.
  - intros Hp'. destruct (W2 (Hp Hp')) as [img' HI']. exists img'. by apply (inv_views _ _ r).
  - intros i x. rewrite Hs. apply W3.
  - by rewrite Hsy, Hde, Hs.
  - intros k id. rewrite Hcm, Er. intros Hk Hid. destruct (W5 k id Hk Hid) as (loc & Hloc & Hlt & Hsd).
    exists loc. rewrite Eid, Hde. auto.
  - unfold flush_inv in *. destruct fl as [[[s i] e]|]; [|done]. rewrite Hcm, Hs, Hde, Er, Eid.
    destruct W6 as (F1 & F2 & F3 & F4). split_and!; [lia|lia|done|done|].
    intros He k id loc Hk Hid Hloc. destruct (F4 He k id loc Hk Hid Hloc). auto.
  - by apply (recovers_same _ r).
Qed.

Lemma world_inv_flush_begin ctx isClosing r s :
  flush_begin ctx isClosing r = FlushSync s -> WorldInv (World r None) ->
  WorldInv (World r (Some (s, 0%nat, None))).
Proof.
  intros (-> & Hne & Hp)%flush_begin_sync [(img & tail & HR & HI) W2 W3 W4 W5 W6 W7]. simpl in *.
  split; simpl; [by eexists _, _|done..| |done].
  pose proof (index_committed _ _ HI). split_and!; [lia|lia|lia| |].
  - intros _ [Hn|Hn]; [|lia]. apply Z.ltb_ge in Hn. unfold len in Hn. lia.
  - intros _ k id loc Hk Hid Hloc. split; [|lia].
    destruct (index_ids _ _ HI id loc Hloc) as (_ & rec & (pre & d & post & fr & Himg & _) & _).
    apply lookup_lt_Some in Himg. by rewrite (rep_length _ _ _ HR).
Qed.

Lemma world_inv_flush_change r s i e j e' :
  WorldInv (World r (Some (s, i, e))) -> e' <> None -> WorldInv (World r (Some (s, j, e'))).
Proof.
  intros [W1 W2 W3 W4 W5 (F1 & F2 & F3 & F4) W7] He. split; simpl in *; try done.
Qed.

Lemma world_inv_dir_ok r s :
  WorldInv (World r (Some (s, snapFiles s, None))) ->
  WorldInv (World (sync_dir r) (Some (s, S (snapFiles s), None))).
Proof.
  intros [(img & tail & HR & HI) W2 W3 W4 W5 (F1 & F2 & F3 & F4) W7]. simpl in *.
  split; simpl; [| |done| | | |].
  - exists img, tail. split; [by apply (rep_segments _ _ r)|]. by apply (index_transfer _ _ r); [|apply HI|].
  - intros Hp. destruct (W2 Hp) as [img' HI']. exists img'. by apply (inv_views _ _ r).
  - lia.
  - intros k id Hk Hid. destruct (W5 k id Hk Hid) as (loc & Hloc & Hlt & Hs). exists loc. split_and!; [done| |done].
    destruct Hs as (x & fr & sz & rec & Hx & _). simpl. by apply lookup_lt_Some in Hx.
  - split_and!; [lia|lia|lia|done|]. intros He k id loc Hk Hid Hloc.
    destruct (F4 He k id loc Hk Hid Hloc) as [H1 H2]. split; [done|]. intros _. by apply H2.
  - by apply (recovers_same _ r).
Qed.

Lemma flush_done_spec s i e :
  flush_done s i e = true -> e = None ->
  (snapFiles s <= i)%nat /\ (needsDirSync s = false \/ (snapFiles s < i)%nat).
Proof.
  unfold flush_done. intros [H1 H2]%andb_true_iff ->. apply Nat.leb_le in H1. split; [done|].
  rewrite bool_decide_false in H2 by congruence. simpl in H2. apply orb_true_iff in H2 as [H2|H2].
  - left. by apply negb_true_iff.
  - right. by apply Nat.ltb_lt.
Qed.

Lemma world_inv_flush_end ctx r s i e :
  flush_done s i e = true -> WorldInv (World r (Some (s, i, e))) -> WorldInv (World (flush_end ctx s e r).1 None).
Proof.
  intros Hdone HW. destruct e as [e|].
  { apply (world_inv_quiet r); try done. destruct HW as [W1 W2 W3 W4 W5 W6 W7]. split; simpl in *; done. }
  destruct (flush_done_spec _ _ _ Hdone eq_refl) as [Hi Hor].
  destruct HW as [(img & tail & HR & HI) W2 W3 [W4 W4'] W5 (F1 & F2 & F3 & F4) W7]. simpl in *.
  assert (Hde : (snapFiles s <= dirEntries r)%nat) by auto.
  assert (HI' : forall img, Index img r -> Index img (flush_end ctx s None r).1).
  { intros img0 [I1 I2 I3 I4]. split; simpl; try done. lia. }
  split; simpl; [| |done|by split; [lia|]| |done|done].
  - exists img, tail. split; [by apply (rep_segments _ _ r)|]. by apply HI'.
  - intros Hp. destruct (W2 Hp) as [img' [J1 J2 J3 J4 J5 J6]]. exists img'. split; [|by apply HI'|done..].
    by apply (rep_segments _ _ r).
  - intros k id Hk Hid. destruct (index_loc _ _ _ _ HI Hid) as [loc Hloc].
    destruct (F4 eq_refl k id loc Hk Hid Hloc) as [H1 H2]. exists loc. split_and!; [done|simpl; lia|].
    apply H2. lia.
Qed.

(** Every step keeps the invariant. *)
Lemma world_inv_step w w' : step w w' -> WorldInv w -> WorldInv w'.
Proof.
  intros Hs HW. inversion Hs; subst.
  - eapply world_inv_append; [done|done| |done|done]. by left.
  - eapply world_inv_ensure; [exact HW| | |eassumption]; assumption.
  - eapply world_inv_flush_begin; eassumption.
  - by apply world_inv_sync_ok.
  - eapply world_inv_flush_change; [done|]. by destruct e.
  - by apply world_inv_dir_ok.
  - by eapply world_inv_flush_change.
  - eapply world_inv_flush_end; eassumption.
  - by apply (world_inv_quiet r).
  - by apply (world_inv_quiet r).
Qed.

Lemma world_inv_steps w w' : rtc step w w' -> WorldInv w -> WorldInv w'.
Proof. induction 1; [done|]. eauto using world_inv_step. Qed.

(** ** A sequential flush is one interleaving *)

Lemma sync_files_steps io s n i e r r' e' :
  (i + n = snapFiles s)%nat -> sync_files io i n e r = (r', e') ->
  rtc step (World r (Some (s, i, e))) (World r' (Some (s, snapFiles s, e'))).
Proof.
  revert i e r. induction n as [|n IH]; intros i e r Hn Hs; simpl in Hs.
  - injection Hs as <- <-. replace i with (snapFiles s) by lia. constructor.
  - destruct (sync_err io i) as [err|].
    + eapply rtc_l; [apply step_sync_err; lia|]. apply IH; [lia|done].
    + eapply rtc_l; [apply step_sync_ok; lia|]. apply IH; [lia|done].
Qed.

Lemma flush_steps io ctx isClosing r r' e :
  flush io ctx isClosing r = (r', e) -> rtc step (World r None) (World r' None).
Proof.
  unfold flush. destruct (flush_begin ctx isClosing r) as [e0|s] eqn:Eb; [intros [= <- _]; constructor|].
  destruct (flush_sync io s r) as [r1 err] eqn:Es. intros He.
  assert (r' = (flush_end ctx s err r1).1) as -> by (by rewrite He).
  eapply rtc_l; [by eapply step_flush_begin|].
  unfold flush_sync in Es. destruct (sync_files io 0 (snapFiles s) None r) as [r2 e2] eqn:E2.
  apply (sync_files_steps _ s) in E2; [|done]. etrans; [exact E2|].
  destruct e2 as [e2|].
  { injection Es as <- <-. apply rtc_once, step_flush_end. unfold flush_done. rewrite Nat.leb_refl. done. }
  destruct (needsDirSync s) eqn:En.
  - destruct (syncdir_err io) as [de|]; injection Es as <- <-.
    + eapply rtc_l; [by apply step_dir_err|]. apply rtc_once, step_flush_end. unfold flush_done. rewrite Nat.leb_refl. done.
    + eapply rtc_l; [by apply step_dir_ok|]. apply rtc_once, step_flush_end. unfold flush_done.
      destruct (Nat.leb_spec (snapFiles s) (S (snapFiles s))); [|lia].
      destruct (Nat.ltb_spec (snapFiles s) (S (snapFiles s))); [|lia]. by rewrite !orb_true_r.
  - injection Es as <- <-. apply rtc_once, step_flush_end. unfold flush_done. rewrite Nat.leb_refl, En. done.
Qed.
End Steps.
