(* ===== verification/RunStoreLife.v ===== *)
(** * The run store: life of a run

    A run starts with [Create], evolves by interleaved steps, may be killed
    at any of them and reopened from the files it left.  In every state of
    such a life committed records are on stable storage, and reopening
    succeeds and loses no record. *)

From S2P Require Import Prelude GoText RunStoreTypes RunStore RunStoreOpen RunStoreInv RunStoreCrash RunStoreAppend RunStoreRecover RunStoreSteps.
From Stdlib Require Import Ascii.

Section Life.
Context `{Hc : Codec}.

(** Runs that [Create] or [Open] returned. *)
Inductive started : run -> Prop :=
| started_create io ctx ctxFlush newRoot newRecord now h r :
    str_ok (Workflow h) = true -> ValidID newRecord = true ->
    Create io ctx ctxFlush newRoot newRecord now h = Ok r -> started r
| started_open r0 w dir r :
    started r0 -> rtc step (World r0 None) w ->
    dir ≡ₚ listing 0 (files_of (wrun w)) -> Z.of_nat (length dir) <= 10 ^ 8 ->
    Open good_open (RunID (header (wrun w))) dir = Ok r -> started r.

(** Runs in use, between any two steps of the operations on them. *)
Definition live (w : world) : Prop := exists r, started r /\ rtc step (World r None) w.

Context {Hl : CodecLaws}.

Lemma listing_length si files : length (listing si files) = length files.
Proof. revert si. induction files as [|c files IH]; intros si; simpl; [done|]. by rewrite IH. Qed.

Lemma created_world io newRecord h r out :
  str_ok (Workflow h) = true -> ValidID newRecord = true -> ValidID (RunID h) = true ->
  HVersion h = 1 -> Workflow h <> ""%string -> ValidID (Root h) = true ->
  appendLocked io [root_fact newRecord h] (Some h) true (with_header h newRun) = (r, Ok out) ->
  WorldInv (World r None) /\ records r = [newRecord] /\ header r = h /\ nodes r = {[Root h := root_node h]}
  /\ check false r = None.
Proof.
  intros H1 H2 H3 H4 H5 H6 Ha.
  pose proof (appendLocked_grows _ _ _ _ _ _ _ _ (rep_newRun h) Ha) as Hg.
  destruct (create_append _ _ _ _ _ H1 H2 H3 H4 H5 H6 Ha) as (d & HI & Hcm & Hck & Hr & Hh & Hn).
  split_and!; [|done..]. pose proof Hg as (_ & G2 & G3 & _).
  split; simpl.
  - exists [[d]], []. split; apply HI.
  - intros _. by exists [[d]].
  - eapply (grows_durable_le (with_header h newRun)); [|done]. intros i s. simpl. by rewrite lookup_nil.
  - rewrite G2, G3. simpl. split; [done|lia].
  - rewrite Hcm. lia.
  - done.
  - by eapply inv_recovers.
Qed.

Lemma reopened_world img r :
  Inv img r -> committed r = 0 -> segments r = synced_segment <$> img -> syncedSegments r = 0 ->
  dirEntries r = 0%nat -> WorldInv (World r None).
Proof.
  intros HI Hcm Hs Hsy Hde. split; simpl; rewrite ?Hcm, ?Hsy, ?Hde.
  - exists img, []. split; apply HI.
  - intros _. by exists img.
  - intros i s Hi. rewrite Hs, list_lookup_fmap in Hi. destruct (img !! i); [|done]. injection Hi as <-. simpl. lia.
  - split; [done|lia].
  - lia.
  - done.
  - by eapply inv_recovers.
Qed.

(** [Open] after a kill in world [w]. *)
Lemma Open_world w dir :
  WorldInv w -> dir ≡ₚ listing 0 (files_of (wrun w)) -> Z.of_nat (length dir) <= 10 ^ 8 ->
  exists r, Open good_open (RunID (header (wrun w))) dir = Ok r /\ WorldInv (World r None)
    /\ header r = header (wrun w) /\ records (wrun w) `prefix_of` records r
    /\ (forall id loc, ids (wrun w) !! id = Some loc -> ids r !! id = Some loc)
    /\ committed r = len (records r) /\ check false r = None.
Proof.
  intros HW Hp Hb. destruct (wi_recover _ HW) as (img & rx & Hrc & Hh & Hpre & Hids).
  assert (Hlen : Z.of_nat (length (files_of (wrun w))) <= 10 ^ 8).
  { apply Permutation_length in Hp. rewrite listing_length in Hp. lia. }
  rewrite <- Hh.
  destruct (Open_recoverable img _ rx dir Hrc Hp Hlen) as (r & Ho & Hi & HI & Hcm & Hck & rb & Hf & HIb & C1 & C2 & C3 & C4).
  exists r. apply index_of_fields in Hi as (Eh & _ & _ & Eid & _ & Er).
  split_and!; [done| |done|by rewrite Er|by rewrite Eid|done|done].
  apply flush_steps in Hf. eapply world_inv_steps; [exact Hf|]. by eapply reopened_world.
Qed.

Lemma create_cases io ctx ctxFlush newRoot newRecord now h r :
  Create io ctx ctxFlush newRoot newRecord now h = Ok r ->
  exists h' r1 out, fill_header newRoot now h = Ok h' /\ ValidID (RunID h) = true
    /\ appendLocked (cr_append io) [root_fact newRecord h'] (Some h') true (with_header h' newRun) = (r1, Ok out)
    /\ Flush (cr_flush io) ctxFlush r1 = (r, None).
Proof.
  unfold Create. intros Hcr. destruct ctx; [done|]. cbn [guard_err mbind result_bind] in Hcr.
  destruct (ValidID (RunID h)); [|done]. cbn [guard_err mbind result_bind] in Hcr.
  destruct (fill_header newRoot now h) as [h'|] eqn:Eh; [|done]. cbn [mbind result_bind] in Hcr.
  destruct (cr_mkroot io); [done|]. destruct (cr_mkrun io); [|done..].
  destruct (cr_mkstate io); [done|]. destruct (cr_mkblobs io); [done|]. destruct (cr_lock io); [done|].
  cbn [guard_err mbind result_bind] in Hcr.
  destruct (appendLocked _ _ _ _ _) as [r1 [out|]] eqn:Ea; [|done].
  destruct (Flush (cr_flush io) ctxFlush r1) as [r2 [e|]] eqn:Ef; [done|].
  destruct (cr_ancestors io); [done|]. destruct (cr_marker io); [done|]. destruct (cr_rename io); [done|].
  destruct (cr_syncdir io); [done|]. cbn [guard_err mbind result_bind] in Hcr. injection Hcr as ->.
  by exists h', r1, out.
Qed.

Lemma started_world r : started r -> WorldInv (World r None).
Proof.
  induction 1 as [io ctx ctxFlush newRoot newRecord now h r Hw Hid Hcr|r0 w dir r Hs IH Hsteps Hp Hb Ho].
  - apply create_cases in Hcr as (h' & r1 & out & Hfill & Hrid & Ha & Hf).
    destruct (fill_header_ok _ _ _ _ Hfill) as (E1 & E2 & E3 & E4 & E5).
    eapply created_world in Ha as (HW & _); try done; [|by rewrite E3|by rewrite E2|by rewrite E3].
    apply flush_steps in Hf. by eapply world_inv_steps.
  - assert (HW : WorldInv w) by (by eapply world_inv_steps).
    destruct (Open_world w dir HW Hp Hb) as (r' & Ho' & HW' & _). rewrite Ho in Ho'. by injection Ho' as ->.
Qed.

Lemma live_world w : live w -> WorldInv w.
Proof. intros (r & Hs & Hw). by eapply world_inv_steps; [|apply started_world]. Qed.

(** ** Properties *)

(** C1: in every live state of a run, whatever the interleaving of appends,
    node creations and syncs and whatever system calls failed, each record
    the run reports as committed is on stable storage: its whole frame reads
    back from the synced bytes of a segment whose name is synced too. *)
Theorem committed_durable w k id :
  live w -> Z.of_nat k < committed (wrun w) -> records (wrun w) !! k = Some id -> stored (wrun w) id.
Proof. intros Hlive. exact (wi_committed _ (live_world w Hlive) k id). Qed.

(** C4: a run killed in any live state, even in the middle of a failed
    write, opens again: [Open] succeeds on the files in any listing order,
    cuts a torn frame, keeps the header and every record already in the
    index (committed or not) in its place and at its location, and commits
    all of them. *)
Theorem reopen_keeps_records w dir :
  live w -> dir ≡ₚ listing 0 (files_of (wrun w)) -> Z.of_nat (length dir) <= 10 ^ 8 ->
  exists r, Open good_open (RunID (header (wrun w))) dir = Ok r
    /\ header r = header (wrun w) /\ records (wrun w) `prefix_of` records r
    /\ (forall id loc, ids (wrun w) !! id = Some loc -> ids r !! id = Some loc)
    /\ committed r = len (records r) /\ check false r = None.
Proof.
  intros Hlive Hp Hb. destruct (Open_world w dir (live_world w Hlive) Hp Hb) as (r & H1 & _ & H2).
  by exists r.
Qed.

(** C5: an append is all or nothing: whatever its system calls return, the
    index in memory after it is the old one or the old one with the whole
    batch installed, and the files it leaves reopen to one of these two;
    after success they reopen to the index in memory. *)
Theorem append_all_or_nothing io facts r fl r' res dir :
  live (World r fl) -> check false r = None -> Forall admissible facts ->
  appendLocked io facts None false r = (r', res) ->
  dir ≡ₚ listing 0 (files_of r') -> Z.of_nat (length dir) <= 10 ^ 8 ->
  exists ro, Open good_open (RunID (header r)) dir = Ok ro
    /\ match res with
       | Ok _ => index_of ro = index_of r'
           /\ (r' = r \/ exists recs, added r false facts recs /\ batch_index r r' recs)
       | Err _ => index_of r' = index_of r
           /\ (index_of ro = index_of r \/ exists recs, added r false facts recs /\ batch_index r ro recs)
       end.
Proof.
  intros Hlive Hck Hadm Ha Hp Hb.
  assert (Hpz : poison r = None) by (unfold check in Hck; by repeat case_match).
  destruct (wi_inv _ (live_world _ Hlive) Hpz) as [img HI]. simpl in HI.
  assert (Hlen : Z.of_nat (length (files_of r')) <= 10 ^ 8).
  { apply Permutation_length in Hp. rewrite listing_length in Hp. lia. }
  assert (Hopen : forall img' rx, header rx = header r -> Recoverable img' (files_of r') rx ->
    exists ro, Open good_open (RunID (header r)) dir = Ok ro /\ index_of ro = index_of rx).
  { intros img' rx Hh Hrc. rewrite <- Hh.
    destruct (Open_recoverable img' _ rx dir Hrc Hp Hlen) as (ro & Ho & Hi & _). by exists ro. }
  assert (Hbatch : forall rx recs, batch_index r rx recs -> header rx = header r).
  { intros rx recs (si & off & (-> & _)%index_of_fields). apply install_all_header. }
  pose proof (appendLocked_cases _ _ _ _ _ _ _ HI (or_introl eq_refl) Hadm Ha) as Hcases. destruct res as [out|e].
  - destruct Hcases as (Hor & (img' & HI') & _). destruct (Hopen img' r') as (ro & Ho & Hi).
    + destruct Hor as [->|(recs & _ & Hbi)]; [done|by eapply Hbatch].
    + by apply inv_recoverable.
    + by exists ro.
  - destruct Hcases as [->|(Hix & _ & _ & _ & img' & rx & Hrc & Hor)].
    + destruct (Hopen img r eq_refl (inv_recoverable _ _ HI)) as (ro & Ho & Hi). exists ro. auto.
    + destruct (Hopen img' rx) as (ro & Ho & Hi); [|done|].
      * destruct Hor as [(-> & _)%index_of_fields|(recs & _ & Hbi)]; [done|by eapply Hbatch].
      * exists ro. split_and!; [done|done|]. destruct Hor as [Hor|(recs & Hadd & si & off & Hbi)]; [left; congruence|].
        right. exists recs. split; [done|]. exists si, off. congruence.
Qed.
End Life.
