(* ===== verification/RunStoreProps.v ===== *)
(** * The run store: what a log says

    Invariants of the replayed log carried over to every run in use: the node
    tree, the unique facts of a node, reading back in order, and retries of an
    acknowledged append. *)

From S2P Require Import Prelude GoText RunStoreTypes RunStore RunStoreOpen RunStoreInv RunStoreCrash RunStoreAppend RunStoreRecover RunStoreSteps RunStoreLife.
From Stdlib Require Import Ascii.

Section Log.
Context `{Hc : Codec}.

(** The records of an image, in order. *)
Definition log_data (d : text) : list Rec := match unmarshal_frame d with Some fr => FrRecords fr | None => [] end.
Definition log_of (img : list (list text)) : list Rec := concat (log_data <$> concat img).

(** ** Invariants of a replay

    [P] relates the index to the log so far; it holds of the empty log and
    is kept by every record the replay accepts. *)
Section Replay.
Variable P : run -> list Rec -> Prop.
Hypothesis P_index : forall r1 r2 L, index_of r1 = index_of r2 -> P r1 L -> P r2 L.
Hypothesis P_header : forall h r, P r [] -> P (with_header h r) [].
Hypothesis P_install : forall r L rec loc,
  P r L -> validate r (RFact rec) true = None -> P (install rec loc r) (L ++ [rec]).

Lemma replay_records_invariant si off i recs r r' L :
  replay_records si off i recs r = Ok r' -> P r L -> P r' (L ++ recs).
Proof.
  revert i r L. induction recs as [|rec recs IH]; intros i r L Hr HP; simpl in Hr.
  - injection Hr as <-. by rewrite app_nil_r.
  - case_match; [done|]. case_match; [done|]. destruct (validate r (RFact rec) true) eqn:Ev; [done|].
    apply IH with (L := L ++ [rec]) in Hr; [by rewrite <- app_assoc in Hr|]. by apply P_install.
Qed.

(** The header is read before any record. *)
Lemma replay_frame_invariant id si off fr r r' L :
  ((si = 0%nat /\ off = 0) -> L = []) ->
  replay_frame id si off fr r = Ok r' -> P r L -> P r' (L ++ FrRecords fr).
Proof.
  intros Hfirst Hr HP. unfold replay_frame in Hr.
  destruct (replay_header id si off fr r) as [r1|] eqn:Eh; [|done]. cbn [mbind result_bind] in Hr.
  case_bool_decide; [done|]. eapply replay_records_invariant; [exact Hr|].
  unfold replay_header in Eh. destruct (Z.eqb_spec off 0), (Nat.eqb_spec si 0); cbn [andb] in Eh.
  - destruct (FrHeader fr); [|done]. case_match; [done|]. injection Eh as <-.
    rewrite Hfirst in * by done. by apply P_header.
  - destruct (FrHeader fr); [done|]. by injection Eh as <-.
  - destruct (FrHeader fr); [done|]. by injection Eh as <-.
  - destruct (FrHeader fr); [done|]. by injection Eh as <-.
Qed.

Lemma replay_data_invariant id si ds off r r' L :
  0 <= off -> ((si = 0%nat /\ off = 0) -> L = []) ->
  replay_data id si off ds r = Ok r' -> P r L -> P r' (L ++ concat (log_data <$> ds)).
Proof.
  revert off r L. induction ds as [|d ds IH]; intros off r L Hoff Hfirst Hr HP; simpl in Hr.
  - injection Hr as <-. by rewrite app_nil_r.
  - destruct (unmarshal_frame d) as [fr|] eqn:Ed; [|done].
    destruct (replay_frame id si off fr r) as [r1|] eqn:Er; [|done]. cbn [mbind result_bind] in Hr.
    apply replay_frame_invariant with (L := L) in Er; [|done|done].
    pose proof (frame_bytes_len d) as Hlen. assert (0 <= len d) by (unfold len; lia).
    apply IH with (L := L ++ FrRecords fr) in Hr; [|lia|lia|done].
    rewrite fmap_cons. simpl. unfold log_data at 1. rewrite Ed. by rewrite <- app_assoc in Hr.
Qed.

Lemma replay_img_invariant id img si r r' L :
  (si = 0%nat -> L = []) ->
  replay_img id si img r = Ok r' -> P r L -> P r' (L ++ log_of img).
Proof.
  revert si r L. induction img as [|ds img IH]; intros si r L Hfirst Hr HP; simpl in Hr.
  - injection Hr as <-. by rewrite app_nil_r.
  - destruct (replay_data id si 0 ds r) as [r1|] eqn:Er; [|done]. cbn [mbind result_bind] in Hr.
    apply replay_data_invariant with (L := L) in Er; [|lia|tauto|done].
    apply IH with (L := L ++ concat (log_data <$> ds)) in Hr; [|done|done].
    unfold log_of in *. simpl. by rewrite fmap_app, concat_app, app_assoc.
Qed.

Lemma inv_invariant img r : P newRun [] -> Inv img r -> P r (log_of img).
Proof.
  intros H0 HI. destruct (inv_replay _ _ HI) as (r0 & Hr0 & Hi).
  apply (P_index r0); [done|]. by apply (replay_img_invariant _ _ _ _ _ [] (fun _ => eq_refl) Hr0).
Qed.
End Replay.

(** ** The node tree *)

(** [n] may be placed under [p]. *)
Definition may_own (p n : Node) : Prop :=
  kind_of p = Scope \/ (kind_of n = Action /\ (kind_of p = Session \/ kind_of p = Action)).

(** [d] parent links lead from [id] to the root. *)
Inductive reaches (r : run) : nat -> string -> Prop :=
| reaches_root n : nodes r !! Root (header r) = Some n -> parent_of n = ""%string -> kind_of n = Scope ->
    reaches r 0 (Root (header r))
| reaches_parent d id n p :
    nodes r !! id = Some n -> nodes r !! parent_of n = Some p -> may_own p n ->
    reaches r d (parent_of n) -> reaches r (S d) id.

(** Every node has its identifier, its slot, and a path to the root; the
    slots are exactly those of the nodes. *)
Record tree (r : run) : Prop := {
  tree_id : forall id n, nodes r !! id = Some n -> NID n = id /\ is_kind (kind_of n) = true;
  tree_slot : forall s id, slots r !! s = Some id <-> exists n, nodes r !! id = Some n /\ slot_of n = s;
  tree_path : forall id, is_Some (nodes r !! id) -> exists d, reaches r d id;
}.

Lemma validate_node_ok r f :
  validate r f true = None -> FKind f = "node-created"%string -> validate_node r f true = None.
Proof.
  intros Hv Hk. unfold validate in Hv. rewrite Hk in Hv.
  rewrite (String.eqb_refl "node-created") in Hv. cbn [negb] in Hv.
  destruct (_ || _); [done|]. destruct (_ && _); [done|]. by destruct (validate_node r f true).
Qed.

Lemma reaches_insert r r' d id :
  header r' = header r -> nodes r ⊆ nodes r' -> reaches r d id -> reaches r' d id.
Proof.
  intros Hh Hsub. induction 1 as [n H1 H2 H3|d id n p H1 H2 H3 H4 IH].
  - rewrite <- Hh. apply (reaches_root r' n); [|done|done]. rewrite Hh. by eapply lookup_weaken.
  - apply (reaches_parent r' d id n p); [by eapply lookup_weaken..|done|done].
Qed.

(** What validation establishes of the node a fact creates. *)
Lemma validate_node_fits r f :
  validate_node r f true = None ->
  let n := (unmarshal_node (Payload f)).1 in
  is_kind (kind_of n) = true /\ nodes r !! NID n = None /\ slots r !! slot_of n = None
  /\ ((parent_of n = ""%string /\ NID n = Root (header r) /\ nodes r = ∅ /\ kind_of n = Scope)
      \/ exists p, nodes r !! parent_of n = Some p /\ may_own p n).
Proof.
  unfold validate_node. cbn [negb]. destruct (unmarshal_node (Payload f)) as [n ok]. cbn [fst].
  destruct (_ || _); [done|]. destruct (is_kind (kind_of n)); [|done]. cbn [negb].
  case_bool_decide as H1; [done|]. case_bool_decide as H2; [done|]. intros Hv.
  split_and!; [done|by apply eq_None_not_Some|by apply eq_None_not_Some|].
  destruct (String.eqb_spec (parent_of n) "") as [Hp|Hp].
  - left. destruct (String.eqb_spec (NID n) (Root (header r))); [|done].
    case_bool_decide as Hz; [|done]. destruct (String.eqb_spec (kind_of n) Scope); [|done].
    apply map_size_empty_iff in Hz. done.
  - right. destruct (nodes r !! parent_of n) as [p|]; [|done]. exists p. split; [done|].
    unfold may_own. destruct (String.eqb_spec (kind_of p) Scope); [by left|].
    destruct (String.eqb_spec (kind_of n) Action); [|done]. cbn [negb andb orb] in Hv.
    destruct (String.eqb_spec (kind_of p) Session), (String.eqb_spec (kind_of p) Action); cbn in Hv; try done; auto.
Qed.

Lemma tree_install r rec loc :
  tree r -> validate r (RFact rec) true = None -> tree (install rec loc r).
Proof.
  intros [T1 T2 T3] Hv. destruct (String.eqb_spec (FKind (RFact rec)) "node-created") as [Hk|Hk]; cycle 1.
  { assert (nodes (install rec loc r) = nodes r /\ slots (install rec loc r) = slots r) as [Hn Hs].
    { simpl. by destruct (String.eqb_spec (FKind (RFact rec)) "node-created"). }
    split; rewrite ?Hn, ?Hs; [done|done|].
    intros id Hid. destruct (T3 id Hid) as [d Hd]. exists d. by apply (reaches_insert r); [|rewrite Hn|]. }
  destruct (validate_node_fits r (RFact rec) (validate_node_ok _ _ Hv Hk)) as (K1 & K2 & K3 & K4).
  set (n := (unmarshal_node (Payload (RFact rec))).1) in *.
  assert (Hn : nodes (install rec loc r) = <[NID n := n]> (nodes r)).
  { simpl. by rewrite Hk, String.eqb_refl. }
  assert (Hs : slots (install rec loc r) = <[slot_of n := NID n]> (slots r)).
  { simpl. by rewrite Hk, String.eqb_refl. }
  assert (Hsub : nodes r ⊆ nodes (install rec loc r)) by (rewrite Hn; by apply insert_subseteq).
  split.
  - intros id x. rewrite Hn. intros [[<- <-]|[Hne Hx]]%lookup_insert_Some; [done|by apply T1].
  - intros s id. rewrite Hn, Hs. rewrite lookup_insert_Some. split.
    + intros [[<- <-]|[Hne Hx]]; [exists n; by rewrite lookup_insert_eq|].
      apply T2 in Hx as (x & Hx & Hsl). exists x. split; [|done]. rewrite lookup_insert_ne; [done|].
      intros <-. congruence.
    + intros (x & [[<- <-]|[Hne Hx]]%lookup_insert_Some & <-); [by left|]. right.
      assert (Hsx : slots r !! slot_of x = Some id) by (apply T2; by exists x). split; [|done].
      intros Heq. rewrite <- Heq in Hsx. congruence.
  - intros id [x Hx]. rewrite Hn in Hx. apply lookup_insert_Some in Hx as [[<- <-]|[Hne Hx]]; cycle 1.
    { destruct (T3 id (mk_is_Some _ _ Hx)) as [d Hd]. exists d. by apply (reaches_insert r). }
    destruct K4 as [(P1 & P2 & P3 & P4)|(p & Hp & Hown)].
    + exists 0%nat. rewrite P2. apply (reaches_root (install rec loc r) n); [|done|done].
      rewrite Hn. simpl. rewrite P2. by rewrite lookup_insert_eq.
    + destruct (T3 _ (mk_is_Some _ _ Hp)) as [d Hd]. exists (S d).
      apply (reaches_parent _ d (NID n) n p); [by rewrite Hn, lookup_insert_eq|by eapply lookup_weaken|done|].
      by apply (reaches_insert r).
Qed.

Lemma tree_index r1 r2 : index_of r1 = index_of r2 -> tree r1 -> tree r2.
Proof.
  intros (Eh & En & Es & _)%index_of_fields [T1 T2 T3]. split.
  - by rewrite <- En.
  - rewrite <- Es, <- En. done.
  - rewrite <- En. intros id Hid. destruct (T3 id Hid) as [d Hd]. exists d. by apply (reaches_insert r1); [|rewrite En|].
Qed.

(** ** Unique facts *)

(** Every record with a unique key owns its key. *)
Definition owns_keys (r : run) (L : list Rec) : Prop :=
  forall rec, rec ∈ L -> uniqueKey (RFact rec) <> ""%string -> unique r !! uniqueKey (RFact rec) = Some (rec_id rec).

Lemma owns_install r L rec loc :
  owns_keys r L -> validate r (RFact rec) true = None -> owns_keys (install rec loc r) (L ++ [rec]).
Proof.
  intros Ho Hv x Hx Hne. simpl. apply elem_of_app in Hx as [Hx|Hx%list_elem_of_singleton].
  - specialize (Ho x Hx Hne). case_match eqn:E; [done|]. rewrite lookup_insert_ne; [done|].
    intros Heq. unfold validate in Hv. case_match; [done|]. rewrite E, Heq, Ho in Hv.
    rewrite bool_decide_true in Hv by done. done.
  - subst x. destruct (String.eqb_spec (uniqueKey (RFact rec)) ""); [done|]. by rewrite lookup_insert_eq.
Qed.

Lemma located_in_log img loc rec : located img loc rec -> rec ∈ log_of img.
Proof.
  intros (pre & d & post & fr & Himg & _ & Hd & Hrec). unfold log_of.
  apply list_elem_of_In, in_concat. exists (FrRecords fr). split; [|by eapply list_elem_of_In, list_elem_of_lookup_2].
  apply list_elem_of_In, list_elem_of_fmap. exists d. unfold log_data. rewrite Hd. split; [done|].
  apply list_elem_of_In, in_concat. exists (pre ++ d :: post).
  split; [by eapply list_elem_of_In, list_elem_of_lookup_2|]. apply in_or_app. right. by left.
Qed.

Context {Hl : CodecLaws}.

(** C30: in every live state of a run that has not failed, the nodes form a
    tree: each is stored under its identifier with one of the five kinds,
    the slot index is exactly the inverse of the nodes' slots, and parent
    links lead from each node to the root, through scopes, or through
    sessions and actions for an action. *)
Theorem nodes_form_a_tree w : live w -> poison (wrun w) = None -> tree (wrun w).
Proof.
  intros Hlive Hp. destruct (wi_inv _ (live_world w Hlive) Hp) as [img HI].
  refine (proj1 (inv_invariant (fun r L => tree r /\ (L = [] -> nodes r = ∅)) _ _ _ img (wrun w) _ HI)).
  - intros r1 r2 L Hi [HT HL]. split; [by apply (tree_index r1)|].
    apply index_of_fields in Hi as (_ & <- & _). done.
  - intros h r [[T1 T2 T3] HL]. split; [|done]. specialize (HL eq_refl). split; [done|done|].
    simpl. rewrite HL. intros id [x Hx]. by rewrite lookup_empty in Hx.
  - intros r L rec loc [HT _] Hv. split; [by apply tree_install|]. intros Heq. by destruct L.
  - split; [|done]. split; simpl.
    + intros id n. by rewrite lookup_empty.
    + intros s id. rewrite lookup_empty. split; [done|]. intros (n & Hn & _). by rewrite lookup_empty in Hn.
    + intros id [n Hn]. by rewrite lookup_empty in Hn.
Qed.

(** A node has at most one intent, one binding, one native binding and one
    outcome: two stored records with the same unique key are the same record. *)
Theorem one_record_per_key w id1 id2 loc1 loc2 rec1 rec2 :
  live w -> poison (wrun w) = None ->
  ids (wrun w) !! id1 = Some loc1 -> recordAt (wrun w) loc1 = Ok rec1 ->
  ids (wrun w) !! id2 = Some loc2 -> recordAt (wrun w) loc2 = Ok rec2 ->
  uniqueKey (RFact rec1) = uniqueKey (RFact rec2) -> uniqueKey (RFact rec1) <> ""%string ->
  id1 = id2 /\ rec1 = rec2.
Proof.
  intros Hlive Hp H1 R1 H2 R2 Heq Hne.
  destruct (wi_inv _ (live_world w Hlive) Hp) as [img HI].
  assert (Hown : owns_keys (wrun w) (log_of img)).
  { refine (inv_invariant owns_keys _ _ _ img (wrun w) _ HI).
    - intros r1 r2 L (_ & _ & _ & _ & Eu & _)%index_of_fields Ho. unfold owns_keys. by rewrite <- Eu.
    - intros h r _ x Hx. set_solver.
    - apply owns_install.
    - intros x Hx. set_solver. }
  assert (Hrec : forall id loc rec, ids (wrun w) !! id = Some loc -> recordAt (wrun w) loc = Ok rec ->
    rec ∈ log_of img /\ rec_id rec = id).
  { intros id loc rec Hid Hrd. destruct (index_ids _ _ (inv_index _ _ HI) id loc Hid) as (k & rec' & Hloc & _ & Hi & _).
    rewrite (recordAt_located _ _ _ _ _ (inv_rep _ _ HI) Hloc) in Hrd. injection Hrd as ->.
    split; [by eapply located_in_log|done]. }
  destruct (Hrec _ _ _ H1 R1) as [L1 I1]. destruct (Hrec _ _ _ H2 R2) as [L2 I2].
  pose proof (Hown rec1 L1 Hne) as O1. rewrite Heq in O1, Hne. pose proof (Hown rec2 L2 Hne) as O2.
  assert (id1 = id2) as -> by congruence. split; [done|]. congruence.
Qed.
End Log.

(** * The run store: reading back what was appended

    Records come back in order from [Read], an acknowledged batch reads back
    as it was given with its payloads compacted, and appending it again
    changes nothing. *)

Section Read.
Context `{Hc : Codec} {Hl : CodecLaws}.

(** ** Reading in order *)

(** What reading position [k] of the log gives. *)
Definition reads_as (r : run) (k : Z) (rec : Rec) : Prop :=
  Sequence rec = k + 1 /\ records r !! Z.to_nat k = Some (rec_id rec)
  /\ exists loc, ids r !! rec_id rec = Some loc /\ ldigest loc = digest_of (RFact rec) /\ recordAt r loc = Ok rec.

Lemma read_position img tail r k :
  Rep img tail r -> Index img r -> 0 <= k < len (records r) ->
  exists id rec, records r !! Z.to_nat k = Some id
    /\ recordAt r (default (MkLocation 0 0 0 "") (ids r !! id)) = Ok rec /\ reads_as r k rec.
Proof.
  intros HR HI Hk. assert (Hlt : (Z.to_nat k < length (records r))%nat) by (unfold len in Hk; lia).
  apply lookup_lt_is_Some in Hlt as [id Hid].
  destruct (index_loc _ _ _ _ HI Hid) as [loc Hloc].
  destruct (index_ids _ _ HI id loc Hloc) as (k' & rec & Hl1 & Hset & Hrid & Hdg & Hk' & Hseq).
  assert (k' = Z.to_nat k) as -> by (by eapply NoDup_lookup; [apply HI| |]).
  pose proof (recordAt_located _ _ _ _ _ HR Hl1) as Hrd.
  exists id, rec. rewrite Hloc. split_and!; [done|done|]. unfold reads_as. rewrite Hrid.
  split_and!; [lia|done|]. by exists loc.
Qed.

Lemma read_loop_spec img tail r fuel k :
  Rep img tail r -> Index img r -> 0 <= k ->
  exists recs, read_loop fuel k r = Ok recs
    /\ len recs = Z.max 0 (Z.min (Z.of_nat fuel) (committed r - k))
    /\ forall i rec, recs !! i = Some rec -> reads_as r (k + Z.of_nat i) rec.
Proof.
  intros HR HI. revert k. induction fuel as [|fuel IH]; intros k Hk.
  { exists []. unfold len. simpl. split_and!; [done|lia|done]. }
  cbn [read_loop]. pose proof (index_committed _ _ HI) as Hcm.
  destruct (Z.ltb_spec k (committed r)) as [Hlt|Hge]; cycle 1.
  { exists []. unfold len. simpl. split_and!; [done|lia|done]. }
  destruct (read_position _ _ _ k HR HI) as (id & rec & Hid & Hrd & Has); [lia|].
  destruct (IH (k + 1)) as (recs & Hrecs & Hlen & Hall); [lia|].
  rewrite Hid, Hrd. cbn [mbind result_bind]. rewrite Hrecs. cbn [mbind result_bind].
  exists (rec :: recs). split_and!; [done| |].
  - unfold len in *. simpl. lia.
  - intros [|i] x Hx; simpl in Hx.
    + injection Hx as <-. by rewrite Z.add_0_r.
    + apply Hall in Hx. by replace (k + Z.of_nat (S i)) with (k + 1 + Z.of_nat i) by lia.
Qed.

(** C29: [Read] on a live run returns exactly the committed records after the
    cursor, at most [limit] of them, in log order without a gap: the record
    at position [after + i] has sequence [after + i + 1] and the digest it
    was appended with; it always returns. *)
Theorem Read_committed w after limit :
  live w -> check false (wrun w) = None -> 0 <= after -> 1 <= limit <= 4096 ->
  exists recs, Read false after limit (wrun w) = Ok recs
    /\ len recs = Z.max 0 (Z.min limit (committed (wrun w) - after))
    /\ forall i rec, recs !! i = Some rec -> reads_as (wrun w) (after + Z.of_nat i) rec.
Proof.
  intros Hlive Hck Ha Hlim. destruct (wi_wf _ (live_world w Hlive)) as (img & tail & HR & HI).
  unfold Read. rewrite Hck. destruct (Z.leb_spec limit 0); [lia|]. destruct (Z.ltb_spec 4096 limit); [lia|].
  cbn [orb]. destruct (read_loop_spec _ _ _ (Z.to_nat limit) after HR HI Ha) as (recs & H1 & H2 & H3).
  exists recs. split_and!; [done|by rewrite Z2Nat.id in H2 by lia|done].
Qed.

(** ** The records a batch returns *)

(** [rec] answers fact [f]: it is in the log already, or new in the batch. *)
Definition answers (r : run) (b : batch) (f : Fact) (rec : Rec) : Prop :=
  rec_id rec = FID f /\ exists raw, marshal_fact f = Some raw
  /\ ((exists loc, ids r !! FID f = Some loc /\ ldigest loc = sha256 raw /\ recordAt r loc = Ok rec)
      \/ (rec ∈ fresh b /\ digest_of (RFact rec) = sha256 raw)).

Record BatchOut (r : run) (facts : list Fact) (b : batch) : Prop := {
  bo_out : Forall2 (answers r b) facts (out b);
  bo_seen : forall id d, seen b !! id = Some d ->
    exists rec, rec ∈ fresh b /\ rec_id rec = id /\ digest_of (RFact rec) = d;
}.

Lemma answers_mono r b b' f rec : fresh b ⊆ fresh b' -> answers r b f rec -> answers r b' f rec.
Proof. intros Hsub (H1 & raw & H2 & H3). split; [done|]. exists raw. set_solver. Qed.

Lemma find_fresh (recs : list Rec) rec id :
  NoDup (rec_id <$> recs) -> rec ∈ recs -> rec_id rec = id ->
  List.find (fun x => String.eqb (rec_id x) id) recs = Some rec.
Proof.
  induction recs as [|x recs IH]; intros Hnd Hin Hid; [set_solver|]. simpl.
  rewrite fmap_cons in Hnd. apply NoDup_cons in Hnd as [Hn Hnd].
  destruct (String.eqb_spec (rec_id x) id) as [He|He].
  - apply elem_of_cons in Hin as [->|Hin]; [done|]. exfalso. apply Hn. rewrite He, <- Hid.
    apply list_elem_of_fmap. eauto.
  - apply IH; [done| |done]. apply elem_of_cons in Hin as [->|?]; done.
Qed.

(** Every record of the index can be read, in its stored form. *)
Definition readable (r : run) : Prop :=
  forall id loc, ids r !! id = Some loc -> exists rec, recordAt r loc = Ok rec /\ rec_id rec = id /\ compact_rec rec = rec.

Lemma inv_readable img r : Inv img r -> readable r.
Proof.
  intros HI id loc Hloc. destruct (index_ids _ _ (inv_index _ _ HI) id loc Hloc) as (k & rec & Hl1 & Hset & Hid & _).
  exists rec. split_and!; [by eapply recordAt_located; [apply HI|]|done|apply Hset].
Qed.

Lemma batch_step_out r internal all facts b f b' :
  readable r -> BatchInv r internal all b -> BatchOut r facts b -> batch_step r internal b f = Ok b' ->
  BatchOut r (facts ++ [f]) b'.
Proof.
  intros Hrd HB [O1 O2] Hs. unfold batch_step in Hs. destruct (marshal_fact f) as [raw|] eqn:Em; [|done].
  destruct (ids r !! FID f) as [loc|] eqn:Eid.
  { destruct (String.eqb_spec (ldigest loc) (sha256 raw)) as [Hd|]; [|done]. cbn [negb] in Hs.
    destruct (Hrd _ _ Eid) as (rec & Er & Hid & _). rewrite Er in Hs. cbn [mbind result_bind] in Hs.
    injection Hs as <-. split; [|done]. simpl. apply Forall2_app; [done|]. constructor; [|constructor].
    split; [done|exists raw; split; [done|left; by exists loc]]. }
  destruct (seen b !! FID f) as [d|] eqn:Ese.
  { destruct (String.eqb_spec d (sha256 raw)) as [Hd|]; [|done]. cbn [negb] in Hs.
    destruct (O2 _ _ Ese) as (rec & Hin & Hid & Hdg).
    rewrite (find_fresh _ rec) in Hs by (done || apply HB). injection Hs as <-.
    split; [|done]. simpl. apply Forall2_app; [done|]. constructor; [|constructor].
    split; [done|exists raw; split; [done|right]]. simpl. split; [done|congruence]. }
  destruct (validate r f internal); [done|]. destruct (_ && _); [done|]. injection Hs as <-.
  set (rec := {| Sequence := _; RFact := f |}).
  assert (Hdg : digest_of f = sha256 raw) by (unfold digest_of; by rewrite Em).
  split; simpl.
  - apply Forall2_app.
    + eapply Forall2_impl; [exact O1|]. intros x y. apply answers_mono. simpl. set_solver.
    + constructor; [|constructor]. split; [done|exists raw; split; [done|right]]. simpl. split; [set_solver|done].
  - intros id d [[<- <-]|[Hne Hd]]%lookup_insert_Some.
    + exists rec. split_and!; [set_solver|done|done].
    + destruct (O2 _ _ Hd) as (x & Hx & Hrest). exists x. split; [set_solver|done].
Qed.

Lemma batch_loop_out r internal all facts pre b b' :
  readable r -> BatchInv r internal all b -> facts ⊆ all -> BatchOut r pre b ->
  batch_loop r internal b facts = Ok b' -> BatchOut r (pre ++ facts) b'.
Proof.
  intros Hrd. revert pre b. induction facts as [|f facts IH]; intros pre b HB Hsub HO Hb; simpl in Hb.
  - injection Hb as <-. by rewrite app_nil_r.
  - destruct (batch_step r internal b f) as [b1|] eqn:E; [|done]. cbn [mbind result_bind] in Hb.
    replace (pre ++ f :: facts) with ((pre ++ [f]) ++ facts) by (by rewrite <- app_assoc).
    apply (IH _ b1); [|set_solver| |done].
    + apply (batch_step_inv r internal all b f); [done|set_solver|done].
    + by eapply batch_step_out.
Qed.

Lemma empty_batch_out r : BatchOut r [] empty_batch.
Proof. split; simpl; [constructor|]. intros id d. by rewrite lookup_empty. Qed.

(** ** Where the new records are *)

Lemma install_all_ids_new si off i recs r j rec :
  NoDup (rec_id <$> recs) -> recs !! j = Some rec ->
  ids (install_all si off i recs r) !! rec_id rec = Some (MkLocation si off (i + j) (digest_of (RFact rec))).
Proof.
  intros Hnd Hj.
  assert (Hin : is_Some (ids (install_all si off i recs r) !! rec_id rec)).
  { apply install_all_ids_dom. left. apply list_elem_of_fmap. exists rec. split; [done|]. by eapply list_elem_of_lookup_2. }
  destruct Hin as [loc Hloc]. rewrite Hloc. f_equal.
  apply install_all_ids in Hloc as [[Hn _]|(j' & rec' & Hj' & Hid & ->)]; [| |done].
  - exfalso. apply Hn. apply list_elem_of_fmap. exists rec. split; [done|]. by eapply list_elem_of_lookup_2.
  - assert (j' = j) as ->.
    { apply (NoDup_lookup (rec_id <$> recs) j' j (rec_id rec)); [done| |by rewrite list_lookup_fmap, Hj].
      rewrite list_lookup_fmap, Hj'. simpl. by rewrite Hid. }
    by assert (rec' = rec) as -> by congruence.
Qed.

Lemma appendLocked_locates io facts internal img r r' outs :
  Inv img r -> batch_shape internal facts -> Forall admissible facts ->
  appendLocked io facts None internal r = (r', Ok outs) ->
  exists b, batch_loop r internal empty_batch facts = Ok b /\ outs = out b
    /\ forall j rec, fresh b !! j = Some rec -> exists loc, ids r' !! rec_id rec = Some loc
         /\ ldigest loc = digest_of (RFact rec) /\ recordAt r' loc = Ok (compact_rec rec).
Proof.
  intros HI Hsh Hadm Ha. unfold appendLocked in Ha.
  destruct (batch_loop r internal empty_batch facts) as [b|e] eqn:Eb; [|done]. exists b.
  destruct (batch_fresh_ok _ _ _ _ Eb Hsh Hadm) as [Hrp Hok].
  destruct (fresh b) as [|rec0 recs0] eqn:Ef; [injection Ha as <- <-; split_and!; done|].
  set (recs := rec0 :: recs0) in *.
  destruct (write_batch io None recs r) as [r1 [e|]] eqn:Ew; [done|]. injection Ha as -> <-.
  split_and!; [done|done|]. intros j rec Hj.
  assert (Hdec : forall d, marshal_frame (MkFrame None recs) = Some d ->
    d <> [] /\ unmarshal_frame d = Some (MkFrame None (compact_rec <$> recs))).
  { intros d Hm. by apply (batch_frame_ok None recs d). }
  pose proof (write_batch_written io None recs img r r' None (inv_rep _ _ HI) (fun d Hm => proj1 (Hdec d Hm)) Ew) as Hw.
  inversion Hw as [| | |new d r3 Hm Hg Hnew Hsf HR3]; subst.
  eexists. split; [apply install_all_ids_new; [by destruct Hrp|exact Hj]|]. split; [done|].
  destruct (inv_img _ _ HI) as (d0 & ds0 & rest & Himg).
  eapply recordAt_located; [apply (rep_segments _ _ r3); [by rewrite install_all_segments|exact HR3]|].
  eapply located_new; [by rewrite Himg|by apply Hdec|]. cbn [FrRecords]. rewrite list_lookup_fmap.
  change (0 + j)%nat with j. by rewrite Hj.
Qed.

(** What [appendLocked] acknowledges is in the log: one record per fact. *)
Lemma append_acknowledged io facts internal img r r' outs :
  Inv img r -> batch_shape internal facts -> Forall admissible facts ->
  appendLocked io facts None internal r = (r', Ok outs) ->
  Forall2 (fun f rec => rec_id rec = FID f /\ exists raw loc, marshal_fact f = Some raw
    /\ ids r' !! FID f = Some loc /\ ldigest loc = sha256 raw /\ recordAt r' loc = Ok (compact_rec rec)) facts outs.
Proof.
  intros HI Hsh Hadm Ha.
  destruct (appendLocked_locates _ _ _ _ _ _ _ HI Hsh Hadm Ha) as (b & Hb & -> & Hloc).
  pose proof (inv_readable _ _ HI) as Hrd.
  pose proof (batch_loop_out r internal facts facts [] _ _ Hrd (empty_batch_inv r internal facts) (reflexivity _)
    (empty_batch_out r) Hb) as [HO _].
  pose proof (appendLocked_extends _ _ _ _ _ _ _ HI Hsh Hadm Ha) as (_ & _ & Hids & _).
  pose proof (appendLocked_cases _ _ _ _ _ _ _ HI Hsh Hadm Ha) as (_ & (img' & HI') & _).
  pose proof (appendLocked_grows _ _ _ _ _ _ _ _ (inv_rep _ _ HI) Ha) as (Hg & _).
  eapply Forall2_impl; [exact HO|]. intros f rec (Hid & raw & Hm & Hor). split; [done|]. exists raw.
  destruct Hor as [(loc & Hl1 & Hdg & Hr)|[Hin Hdg]].
  - exists loc. split_and!; [done|by apply Hids|done|].
    destruct (Hrd _ _ Hl1) as (rec' & Hr' & _ & Hcp). rewrite Hr in Hr'. injection Hr' as <-. rewrite Hcp.
    unfold recordAt in Hr |- *. destruct (segments r !! lsegment loc) as [sg|] eqn:Es; [|done].
    destruct (Hg _ _ Es) as (sg' & -> & _ & [q ->]).
    destruct (readFrame (contents (file sg)) (loffset loc)) as [fr sz| | |] eqn:Ef; try done.
    by rewrite (readFrame_app _ q _ _ _ Ef).
  - apply list_elem_of_lookup in Hin as [j Hj]. destruct (Hloc j rec Hj) as (loc & H1 & H2 & H3).
    exists loc. rewrite <- Hid. split_and!; [done|done|congruence|done].
Qed.

(** What [Append] acknowledges can be read back: it returns one record
    per fact, in order, and each is found under the fact's identifier and
    reads from the file as that record with its payload compacted. *)
Theorem append_roundtrip io facts r fl r' outs :
  live (World r fl) -> check false r = None -> Forall admissible facts ->
  appendLocked io facts None false r = (r', Ok outs) ->
  Forall2 (fun f rec => rec_id rec = FID f
    /\ exists loc, ids r' !! FID f = Some loc /\ recordAt r' loc = Ok (compact_rec rec)) facts outs.
Proof.
  intros Hlive Hck Hadm Ha.
  assert (Hpz : poison r = None) by (unfold check in Hck; by repeat case_match).
  destruct (wi_inv _ (live_world _ Hlive) Hpz) as [img HI]. simpl in HI.
  eapply Forall2_impl; [by eapply append_acknowledged; [exact HI|left|..]|].
  intros f rec (Hid & raw & loc & _ & H1 & _ & H3). split; [done|]. by exists loc.
Qed.

Lemma batch_loop_known r internal facts outs b :
  Forall2 (fun f rec => rec_id rec = FID f /\ exists raw loc, marshal_fact f = Some raw
    /\ ids r !! FID f = Some loc /\ ldigest loc = sha256 raw /\ recordAt r loc = Ok (compact_rec rec)) facts outs ->
  batch_loop r internal b facts = Ok (MkBatch (out b ++ (compact_rec <$> outs)) (fresh b) (seen b) (keys b)).
Proof.
  intros HF. revert b. induction HF as [|f rec facts outs (Hid & raw & loc & Hm & Hl1 & Hd & Hr) HF IH]; intros b; simpl.
  - rewrite app_nil_r. by destruct b.
  - unfold batch_step. rewrite Hm, Hl1, Hd, String.eqb_refl. cbn [negb]. rewrite Hr. cbn [mbind result_bind].
    rewrite IH. simpl. by rewrite <- app_assoc.
Qed.

(** retrying an acknowledged append is a no-op: the same batch appended
    again, with any outcome of system calls, writes nothing, leaves the run
    unchanged and returns the records stored the first time. *)
Theorem append_idempotent io io2 facts r fl r' outs :
  live (World r fl) -> check false r = None -> Forall admissible facts ->
  appendLocked io facts None false r = (r', Ok outs) ->
  appendLocked io2 facts None false r' = (r', Ok (compact_rec <$> outs)).
Proof.
  intros Hlive Hck Hadm Ha.
  assert (Hpz : poison r = None) by (unfold check in Hck; by repeat case_match).
  destruct (wi_inv _ (live_world _ Hlive) Hpz) as [img HI]. simpl in HI.
  pose proof (append_acknowledged _ _ _ _ _ _ _ HI (or_introl eq_refl) Hadm Ha) as HF.
  unfold appendLocked. by rewrite (batch_loop_known _ _ _ outs) by exact HF.
Qed.
End Read.

(** * The run store: blobs

    Content-addressed files: what [PutBlob] stores [OpenBlob] gives back, and
    a file that does not match its reference is never returned. *)

Section Blobs.
Context `{Hc : Codec}.

(** Blobs stored one after the other, each with its own outcome of system
    calls. *)
Fixpoint put_all (r : run) (puts : list (put_io * text)) (blobs : blob_dir) : blob_dir :=
  match puts with
  | [] => blobs
  | (io, src) :: puts' => put_all r puts' (PutBlob io false src r blobs).1
  end.

(** The encoded digest is 64 hexadecimal digits ([hex.EncodeToString] of a
    32-byte sum). *)
Definition hash_format : Prop := forall t, len (lit (sha256 t)) = 64 /\ hex_ok (sha256 t) = true.

Lemma put_file io src r blobs k data :
  (PutBlob io false src r blobs).1 !! k = Some data ->
  blobs !! k = Some data \/ (k = blob_key src /\ data = src).
Proof.
  unfold PutBlob. destruct (check false r); [by left|].
  destruct (pb_temp io), (pb_copy io), (pb_sync io), (pb_rename io); try by left.
  destruct (pb_syncdir io); cbn [fst]; intros [[<- <-]|[_ ?]]%lookup_insert_Some; auto.
Qed.

Lemma put_keeps io src r blobs k : is_Some (blobs !! k) -> is_Some ((PutBlob io false src r blobs).1 !! k).
Proof.
  intros Hk. unfold PutBlob. destruct (check false r); [done|].
  destruct (pb_temp io), (pb_copy io), (pb_sync io), (pb_rename io); try done.
  destruct (pb_syncdir io); cbn [fst]; apply lookup_insert_is_Some'; auto.
Qed.

Lemma put_all_file r puts blobs k data :
  put_all r puts blobs !! k = Some data ->
  blobs !! k = Some data \/ exists io src, (io, src) ∈ puts /\ k = blob_key src /\ data = src.
Proof.
  revert blobs. induction puts as [|[io src] puts IH]; intros blobs Hk; simpl in Hk; [by left|].
  apply IH in Hk as [Hk|(io' & src' & Hin & Hrest)]; [|right; exists io', src'; set_solver].
  apply put_file in Hk as [Hk|[-> ->]]; [by left|]. right. exists io, src. set_solver.
Qed.

Lemma put_all_keeps r puts blobs k : is_Some (blobs !! k) -> is_Some (put_all r puts blobs !! k).
Proof.
  revert blobs. induction puts as [|[io src] puts IH]; intros blobs Hk; simpl; [done|].
  by apply IH, put_keeps.
Qed.

Lemma blob_key_inj a b : blob_key a = blob_key b -> sha256 a = sha256 b.
Proof. unfold blob_key. intros H. by simplify_eq. Qed.

(** a blob that [PutBlob] acknowledged is returned unchanged by [OpenBlob]
    under the reference it gave, whatever other blobs are stored afterwards
    and however their system calls end, unless one of them collides with it
    under SHA-256. *)
Theorem blob_roundtrip io src r blobs blobs' ref puts :
  hash_format -> check false r = None ->
  (forall io2 src2, (io2, src2) ∈ puts -> sha256 src2 = sha256 src -> src2 = src) ->
  PutBlob io false src r blobs = (blobs', Ok ref) ->
  OpenBlob good_open_blob false ref r (put_all r puts blobs') = Ok src.
Proof.
  intros Hf Hck Hcol Hp. unfold PutBlob in Hp. rewrite Hck in Hp.
  destruct (pb_temp io), (pb_copy io), (pb_sync io), (pb_rename io); try done.
  destruct (pb_syncdir io); [done|]. injection Hp as <- <-.
  destruct (Hf src) as [H64 Hhex].
  unfold OpenBlob. rewrite Hck. cbn [BSHA BKey BSize]. rewrite H64, Hhex. unfold blob_key at 1.
  rewrite String.eqb_refl. destruct (Z.ltb_spec (len src) 0); [unfold len in *; lia|].
  cbn [negb orb Z.eqb Pos.eqb good_open_blob ob_open ob_copy ob_seek].
  destruct (put_all_keeps r puts (<[blob_key src := src]> blobs) (blob_key src)) as [data Hdata].
  { rewrite lookup_insert_eq. done. }
  assert (data = src) as ->.
  { apply put_all_file in Hdata as Hor. destruct Hor as [Hor|(io' & src' & Hin & Hk & ->)].
    - rewrite lookup_insert_eq in Hor. by injection Hor.
    - apply (Hcol io' src' Hin). by apply blob_key_inj. }
  rewrite Hdata, Z.eqb_refl, String.eqb_refl. done.
Qed.

(** whatever the blob directory holds, a blob [OpenBlob] returns has the
    size and the SHA-256 of its reference, and is the file the reference
    names. *)
Theorem OpenBlob_checked io ctx ref r blobs data :
  OpenBlob io ctx ref r blobs = Ok data ->
  len data = BSize ref /\ sha256 data = BSHA ref /\ blobs !! BKey ref = Some data
  /\ BKey ref = ("blobs/" +:+ BSHA ref)%string.
Proof.
  unfold OpenBlob. destruct (check ctx r); [done|].
  destruct (String.eqb_spec (BKey ref) ("blobs/" +:+ BSHA ref)) as [Hk|]; cycle 1.
  { rewrite orb_true_r. done. }
  destruct (negb _ || _ || _); [done|]. destruct (hex_ok _); [|done]. cbn [negb].
  destruct (ob_open io); [done|]. destruct (blobs !! BKey ref) as [d|]; [|done].
  destruct (ob_copy io); [done|].
  destruct (Z.eqb_spec (len d) (BSize ref)); [|done]. destruct (String.eqb_spec (sha256 d) (BSHA ref)); [|done].
  cbn [negb orb]. destruct (ob_seek io); [done|]. intros Heq. by injection Heq as <-.
Qed.
End Blobs.
