(* ===== verification/RunStoreExample.v ===== *)
(** * The run store: a concrete codec and concrete runs

    An instance of [Codec] that satisfies [CodecLaws], and runs built with
    it, on which the theorems about the store are applied. *)

From S2P Require Import Prelude GoText RunStoreTypes RunStore RunStoreOpen RunStoreInv RunStoreCrash RunStoreAppend RunStoreRecover RunStoreSteps RunStoreLife RunStoreProps.
From Stdlib Require Import Ascii.

(** ** Positive numbers as text *)

Fixpoint bits (p : positive) : text :=
  match p with
  | xH => lit "1"
  | xO p => "0"%char :: bits p
  | xI p => "1"%char :: bits p
  end.

Fixpoint unbits (s : text) : positive :=
  match s with
  | [] => xH
  | [_] => xH
  | c :: s => if Ascii.eqb c "0" then xO (unbits s) else xI (unbits s)
  end.

Lemma bits_cons p : exists c s, bits p = c :: s.
Proof. destruct p; simpl; eauto. Qed.

Lemma unbits_bits p : unbits (bits p) = p.
Proof.
  induction p as [p IH|p IH|]; [..|done]; destruct (bits_cons p) as (c & s & E); simpl; rewrite E in IH |- *.
  - by f_equal.
  - by f_equal.
Qed.

(** ** Fields

    A field is written with two letters per byte and a final dot. *)

Definition letter (z : Z) : ascii := byte (97 + z).

Definition put_byte (c : ascii) : text := [letter (code c / 16); letter (code c mod 16)].

Definition put_field (t : text) : text := concat (put_byte <$> t) ++ lit ".".

(** All fields of a text; [acc] is the field being read. *)
Fixpoint get_fields (acc s : text) : list text :=
  match s with
  | [] => []
  | [_] => [acc]
  | a :: (b :: s') as rest =>
      if Ascii.eqb a "." then acc :: get_fields [] rest
      else get_fields (acc ++ [byte (16 * (code a - 97) + (code b - 97))]) s'
  end.

Definition put_fields (fs : list text) : text := concat (put_field <$> fs).

Lemma letter_code z : 0 <= z < 16 -> code (letter z) = 97 + z.
Proof. intros Hz. unfold letter. apply byte_code. lia. Qed.

Lemma letter_not_dot z : 0 <= z < 16 -> Ascii.eqb (letter z) "." = false.
Proof.
  intros Hz. destruct (Ascii.eqb_spec (letter z) "."%char) as [He|]; [|done].
  apply (f_equal code) in He. rewrite letter_code in He by done. vm_compute (code ".") in He. lia.
Qed.

Lemma get_field_app t acc rest :
  get_fields acc (put_field t ++ rest) = get_fields (acc ++ t) (lit "." ++ rest).
Proof.
  revert acc. induction t as [|c t IH]; intros acc; [by rewrite app_nil_r|].
  unfold put_field. rewrite fmap_cons. unfold put_byte at 1. cbn [concat app].
  pose proof (code_bound c) as Hb.
  assert (0 <= code c / 16 < 16) by (split; [apply Z.div_pos; lia|apply Z.div_lt_upper_bound; lia]).
  assert (0 <= code c mod 16 < 16) by (apply Z.mod_pos_bound; lia).
  cbn [get_fields]. rewrite letter_not_dot, !letter_code by done.
  replace (16 * (97 + code c / 16 - 97) + (97 + code c mod 16 - 97)) with (code c)
    by (pose proof (Z.div_mod (code c) 16); lia).
  rewrite code_byte. rewrite IH. by rewrite <- app_assoc.
Qed.

Lemma get_put_fields fs : get_fields [] (put_fields fs) = fs.
Proof.
  induction fs as [|t fs IH]; [done|]. unfold put_fields. rewrite fmap_cons. cbn [concat].
  rewrite get_field_app, app_nil_l. fold (put_fields fs).
  destruct (put_fields fs) as [|c s] eqn:E.
  - destruct fs as [|u fs]; [done|]. unfold put_fields, put_field in E. by destruct u.
  - change (get_fields t (lit "." ++ c :: s)) with (t :: get_fields [] (c :: s)). by rewrite IH.
Qed.

(** ** Encodings of the types *)

Abbreviation str s := (String.list_ascii_of_string s) (only parsing).
Abbreviation unstr t := (String.string_of_list_ascii t) (only parsing).
Definition num (z : Z) : text := bits (encode z).
Definition unnum (t : text) : Z := default 0 (decode (unbits t)).

Lemma unnum_num z : unnum (num z) = z.
Proof. unfold unnum, num. by rewrite unbits_bits, decode_encode. Qed.

Definition put_fact (f : Fact) : list text :=
  [num (FVersion f); str (FID f); str (FNode f); str (FScope f); str (FSession f); str (FKind f); Payload f].

Definition put_rec (r : Rec) : list text := num (Sequence r) :: put_fact (RFact r).

Fixpoint get_recs (fs : list text) : option (list Rec) :=
  match fs with
  | [] => Some []
  | q :: v :: i :: n :: sc :: se :: k :: p :: fs' =>
      rest ← get_recs fs';
      Some ({| Sequence := unnum q; RFact := {| FVersion := unnum v; FID := unstr i; FNode := unstr n;
               FScope := unstr sc; FSession := unstr se; FKind := unstr k; Payload := p |} |} :: rest)
  | _ => None
  end.

Definition put_header (h : option Header) : list text :=
  match h with
  | None => [lit "-"]
  | Some h => [lit "+"; num (HVersion h); str (RunID h); str (Workflow h); str (Root h); num (CreatedAt h)]
  end.

Definition put_frame (fr : frame) : list text := put_header (FrHeader fr) ++ concat (put_rec <$> FrRecords fr).

Definition get_frame (fs : list text) : option frame :=
  match fs with
  | [c] :: fs' =>
      if Ascii.eqb c "-" then recs ← get_recs fs'; Some (MkFrame None recs)
      else match fs' with
           | v :: i :: w :: r :: t :: fs'' =>
               recs ← get_recs fs'';
               Some (MkFrame (Some {| HVersion := unnum v; RunID := unstr i; Workflow := unstr w;
                                      Root := unstr r; CreatedAt := unnum t |}) recs)
           | _ => None
           end
  | _ => None
  end.

Lemma get_put_recs recs : get_recs (concat (put_rec <$> recs)) = Some recs.
Proof.
  induction recs as [|[q [v i n sc se k p]] recs IH]; [done|].
  rewrite fmap_cons. unfold put_rec at 1, put_fact at 1. cbn [concat app get_recs RFact Sequence FVersion FID FNode FScope FSession FKind Payload].
  rewrite IH. cbn [mbind option_bind]. by rewrite !unnum_num, !String.string_of_list_ascii_of_string.
Qed.

Lemma get_put_frame fr : get_frame (put_frame fr) = Some fr.
Proof.
  destruct fr as [[[v i w r t]|] recs]; unfold put_frame, put_header; simpl; rewrite get_put_recs; simpl; [|done].
  by rewrite !unnum_num, !String.string_of_list_ascii_of_string.
Qed.

Definition put_spec (s : NodeSpec) : list text :=
  [str (Parent (SpecSlot s)); str (SlotKind (SpecSlot s)); str (Name (SpecSlot s)); num (Ordinal (SpecSlot s));
   str (DisplayKey s); Metadata s].

Definition get_node (fs : list text) : Node * bool :=
  match fs with
  | [id; p; k; n; o; d; m] =>
      ({| NID := unstr id; Spec := {| SpecSlot := MkSlot (unstr p) (unstr k) (unstr n) (unnum o);
                                      DisplayKey := unstr d; Metadata := m |} |}, true)
  | _ => (zero_node, false)
  end.

(** ** The codec *)

Definition squeeze (t : text) : text := List.filter (fun c => negb (Z.eqb (code c) 32)) t.

Definition toy_valid (t : text) : bool := negb (bool_decide (squeeze t = [])).

Definition hex_digit (z : Z) : ascii := byte (if z <? 10 then 48 + z else 87 + z).

Definition toy_hash (t : text) : string :=
  let c := crc32 t in
  let eight := (fun i => hex_digit (Z.land (Z.shiftr c (4 * Z.of_nat i)) 15)) <$> seq 0 8 in
  String.string_of_list_ascii (concat (replicate 8 eight)).

Definition toy_id (s : string) : bool := str_ok s && negb (String.eqb s "").

Definition squeeze_fact (f : Fact) : Fact :=
  {| FVersion := FVersion f; FID := FID f; FNode := FNode f; FScope := FScope f;
     FSession := FSession f; FKind := FKind f; Payload := squeeze (Payload f) |}.

Definition squeeze_spec (s : NodeSpec) : NodeSpec :=
  {| SpecSlot := SpecSlot s; DisplayKey := DisplayKey s; Metadata := squeeze (Metadata s) |}.

Definition squeeze_frame (fr : frame) : frame :=
  MkFrame (FrHeader fr) ((fun r => {| Sequence := Sequence r; RFact := squeeze_fact (RFact r) |}) <$> FrRecords fr).

#[export] Instance toy_codec : Codec := {|
  json_valid := toy_valid;
  compact := squeeze;
  marshal_fact f := Some (put_fields (put_fact (squeeze_fact f)));
  marshal_frame fr := Some (put_fields (put_frame (squeeze_frame fr)));
  unmarshal_frame d := get_frame (get_fields [] d);
  marshal_node n := Some (put_fields (str (NID n) :: put_spec (squeeze_spec (Spec n))));
  marshal_spec s := Some (put_fields (put_spec (squeeze_spec s)));
  unmarshal_node d := get_node (get_fields [] d);
  sha256 := toy_hash;
  ValidID := toy_id;
|}.

Lemma squeeze_idemp t : squeeze (squeeze t) = squeeze t.
Proof.
  unfold squeeze. induction t as [|c t IH]; simpl; [done|].
  destruct (negb _) eqn:E; simpl; [rewrite E; by f_equal|done].
Qed.

Lemma squeeze_app a b : squeeze (a ++ b) = squeeze a ++ squeeze b.
Proof. apply List.filter_app. Qed.

Lemma squeeze_put_fields fs : squeeze (put_fields fs) = put_fields fs.
Proof.
  assert (Hl : forall z, 0 <= z < 16 -> negb (code (letter z) =? 32) = true).
  { intros z Hz. rewrite letter_code by done. destruct (Z.eqb_spec (97 + z) 32); [lia|done]. }
  assert (Hf : forall t, squeeze (put_field t) = put_field t).
  { intros t. unfold put_field. rewrite squeeze_app. f_equal. induction t as [|c t IH]; [done|].
    rewrite fmap_cons. cbn [concat]. rewrite squeeze_app. f_equal; [|done].
    pose proof (code_bound c). unfold put_byte, squeeze. simpl.
    rewrite !Hl; [done|apply Z.mod_pos_bound; lia|split; [apply Z.div_pos; lia|apply Z.div_lt_upper_bound; lia]]. }
  unfold put_fields. induction fs as [|t fs IH]; [done|]. rewrite fmap_cons. cbn [concat].
  by rewrite squeeze_app, Hf, IH.
Qed.

Lemma put_fields_ne t fs : put_fields (t :: fs) <> [].
Proof. unfold put_fields, put_field. simpl. destruct (concat (put_byte <$> t)); done. Qed.

#[export] Instance toy_laws : CodecLaws.
Proof.
  split; cbn [json_valid compact marshal_fact marshal_frame unmarshal_frame marshal_node unmarshal_node ValidID toy_codec].
  - intros s Hs. unfold toy_id in Hs. by apply andb_true_iff in Hs as [? _].
  - intros p Hp. unfold toy_valid in *. by rewrite squeeze_idemp.
  - intros p _. apply squeeze_idemp.
  - intros f _. unfold squeeze_fact, compact_fact. simpl. by rewrite squeeze_idemp.
  - intros fr d _ _ Hd. injection Hd as <-. split.
    + unfold put_frame, put_header. simpl. destruct (FrHeader fr); apply put_fields_ne.
    + by rewrite get_put_fields, get_put_frame.
  - by eexists.
  - intros n p Hp. injection Hp as <-. unfold toy_valid. rewrite squeeze_put_fields. split; [|done].
    rewrite bool_decide_false by apply put_fields_ne. done.
  - intros n p _ Hp. injection Hp as <-. rewrite get_put_fields.
    destruct n as [id [[p k nm o] d m]]. unfold put_spec, squeeze_spec, compact_meta. simpl.
    rewrite !unnum_num, !String.string_of_list_ascii_of_string. by destruct m.
Qed.

(** ** Concrete runs *)

Definition demo_header : Header := {| HVersion := 0; RunID := "R"; Workflow := "w"; Root := "N"; CreatedAt := 5 |}.

Definition demo_run : run :=
  match Create good_create false false "M" "A" 7 demo_header with Ok r => r | Err _ => newRun end.

Definition demo_fact : Fact :=
  {| FVersion := 1; FID := "B"; FNode := "N"; FScope := "N"; FSession := ""; FKind := "outcome"; Payload := lit "1 2" |}.

Definition demo_next : run := (appendLocked good_append [demo_fact] None false demo_run).1.

(** The same append when the disk is full after ten bytes. *)
Definition full_disk : append_io := MkAppendIO None (fun _ => (10%nat, Some (ErrIO 28))).

Definition demo_failed : run := (appendLocked full_disk [demo_fact] None false demo_run).1.

Lemma demo_started : started demo_run.
Proof.
  apply (started_create good_create false false "M" "A" 7 demo_header); vm_compute; reflexivity.
Qed.

Lemma demo_live : live (World demo_run None).
Proof. exists demo_run. split; [apply demo_started|constructor]. Qed.

Lemma demo_admissible : Forall admissible [demo_fact].
Proof. constructor; [|constructor]. split; [by vm_compute|]. intros Hk. discriminate Hk. Qed.

(** ** Applications of the theorems *)

Lemma committed_durable_witness : live (World demo_run None) /\ stored demo_run "A".
Proof.
  split; [exact demo_live|].
  apply (committed_durable (World demo_run None) 0 "A"); [exact demo_live|by vm_compute|by vm_compute].
Defined.

Lemma reopen_keeps_records_witness :
  exists r, Open good_open "R" (listing 0 (files_of demo_run)) = Ok r
    /\ header r = header demo_run /\ records demo_run `prefix_of` records r
    /\ (forall id loc, ids demo_run !! id = Some loc -> ids r !! id = Some loc)
    /\ committed r = len (records r) /\ check false r = None.
Proof.
  apply (reopen_keeps_records (World demo_run None)); [exact demo_live|done|by vm_compute].
Defined.

Lemma append_all_or_nothing_witness :
  exists ro, Open good_open "R" (listing 0 (files_of demo_failed)) = Ok ro
    /\ index_of demo_failed = index_of demo_run
    /\ (index_of ro = index_of demo_run
        \/ exists recs, added demo_run false [demo_fact] recs /\ batch_index demo_run ro recs).
Proof.
  apply (append_all_or_nothing full_disk [demo_fact] demo_run None demo_failed (Err (ErrIO 28))
    (listing 0 (files_of demo_failed)));
    [exact demo_live|by vm_compute|exact demo_admissible|vm_compute; reflexivity|done|by vm_compute].
Defined.

Lemma nodes_form_a_tree_witness : tree demo_run.
Proof. apply (nodes_form_a_tree (World demo_run None)); [exact demo_live|by vm_compute]. Defined.

Lemma demo_next_live : live (World demo_next None).
Proof.
  exists demo_run. split; [apply demo_started|]. apply rtc_once.
  eapply (step_append good_append [demo_fact] demo_run demo_next _ None);
    [by vm_compute|by vm_compute|exact demo_admissible|vm_compute; reflexivity].
Qed.

Definition demo_loc : location := default (MkLocation 0 0 0 "") (ids demo_next !! "B"%string).

Definition demo_rec : Rec := {| Sequence := 2; RFact := squeeze_fact demo_fact |}.

Lemma one_record_per_key_witness : "B"%string = "B"%string /\ demo_rec = demo_rec.
Proof.
  apply (one_record_per_key (World demo_next None) "B" "B" demo_loc demo_loc demo_rec demo_rec);
    [exact demo_next_live|by vm_compute..|]; vm_compute; discriminate.
Defined.

Lemma Read_committed_witness :
  exists recs, Read false 0 10 demo_run = Ok recs
    /\ len recs = Z.max 0 (Z.min 10 (committed demo_run - 0))
    /\ forall i rec, recs !! i = Some rec -> reads_as demo_run (0 + Z.of_nat i) rec.
Proof.
  apply (Read_committed (World demo_run None) 0 10); [exact demo_live|by vm_compute|lia|lia].
Defined.

Definition demo_answer : list Rec := [{| Sequence := 2; RFact := demo_fact |}].

Lemma append_roundtrip_witness :
  Forall2 (fun f rec => rec_id rec = FID f
    /\ exists loc, ids demo_next !! FID f = Some loc /\ recordAt demo_next loc = Ok (compact_rec rec))
    [demo_fact] demo_answer.
Proof.
  apply (append_roundtrip good_append [demo_fact] demo_run None demo_next demo_answer);
    [exact demo_live|by vm_compute|exact demo_admissible|vm_compute; reflexivity].
Defined.

Lemma append_idempotent_witness :
  appendLocked full_disk [demo_fact] None false demo_next = (demo_next, Ok (compact_rec <$> demo_answer)).
Proof.
  apply (append_idempotent good_append full_disk [demo_fact] demo_run None demo_next demo_answer);
    [exact demo_live|by vm_compute|exact demo_admissible|vm_compute; reflexivity].
Defined.

Lemma readFrame_cut_witness :
  readFrame (lit "abc" ++ take 9 (frame_bytes (put_fields (put_frame (MkFrame None []))))) 3 = RUnexpectedEOF.
Proof.
  apply (readFrame_cut (lit "abc") (put_fields (put_frame (MkFrame None []))) (MkFrame None []) 9);
    vm_compute; [discriminate|discriminate|reflexivity|lia].
Defined.

Lemma hex_digit_ok c i : is_hex (hex_digit (Z.land (Z.shiftr c i) 15)) = true.
Proof.
  assert (Hz : 0 <= Z.land (Z.shiftr c i) 15 < 16).
  { change 15 with (Z.ones 4). rewrite Z.land_ones by lia. apply Z.mod_pos_bound. lia. }
  set (z := Z.land _ _) in *. unfold is_hex, hex_digit, in_range.
  destruct (Z.ltb_spec z 10); rewrite !byte_code by lia.
  - apply orb_true_iff. left. apply orb_true_iff. left. apply andb_true_iff. lia.
  - apply orb_true_iff. left. apply orb_true_iff. right. apply andb_true_iff. lia.
Qed.

Lemma toy_hash_format : hash_format.
Proof.
  intros t. unfold sha256, toy_codec, toy_hash, hex_ok, lit. rewrite !String.list_ascii_of_string_of_list_ascii.
  set (eight := _ <$> seq 0 8). assert (He : forallb is_hex eight = true).
  { apply forallb_forall. intros x Hx. apply list_elem_of_In, list_elem_of_fmap in Hx as (i & -> & _). apply hex_digit_ok. }
  assert (Hlen : len (concat (replicate 8 eight)) = 64) by done.
  split; [done|]. rewrite Hlen. cbn [Z.even replicate concat andb]. rewrite !forallb_app, He. done.
Qed.

Definition good_put : put_io :=
  {| pb_temp := None; pb_copy := None; pb_sync := None; pb_rename := None; pb_syncdir := None |}.

Definition demo_blobs : blob_dir := (PutBlob good_put false (lit "data") demo_run ∅).1.

Definition demo_ref : BlobRef :=
  {| BKey := blob_key (lit "data"); BSize := 4; BSHA := toy_hash (lit "data") |}.

Lemma blob_roundtrip_witness :
  OpenBlob good_open_blob false demo_ref demo_run (put_all demo_run [(good_put, lit "other")] demo_blobs)
  = Ok (lit "data").
Proof.
  apply (blob_roundtrip good_put (lit "data") demo_run ∅ demo_blobs demo_ref [(good_put, lit "other")]).
  - exact toy_hash_format.
  - by vm_compute.
  - intros io2 src2 Hin Hh. apply list_elem_of_singleton in Hin. injection Hin as _ ->.
    exfalso. vm_compute in Hh. discriminate Hh.
  - vm_compute. reflexivity.
Defined.

Lemma OpenBlob_checked_witness :
  len (lit "data") = BSize demo_ref /\ sha256 (lit "data") = BSHA demo_ref
  /\ demo_blobs !! BKey demo_ref = Some (lit "data")
  /\ BKey demo_ref = ("blobs/" +:+ BSHA demo_ref)%string.
Proof. apply (OpenBlob_checked good_open_blob false demo_ref demo_run demo_blobs (lit "data")). by vm_compute. Defined.
