(* ===== verification/Truncate.v ===== *)
(** * Output truncation ([internal/pi/files/truncate.go])

    Text shown to a model is cut to a number of lines and of bytes, from the
    head or from the tail, and single lines to a number of UTF-16 code units. *)

From S2P Require Import Prelude GoText.
From Stdlib Require Import Ascii.

(** ** Data *)

Definition DefaultMaxLines : Z := 2000.
Definition DefaultMaxBytes : Z := 50 * 1024.
Definition GrepMaxLineLength : Z := 500.

(** A nil field is [None]. *)
Record Options := {
  OptMaxLines : option Z;
  OptMaxBytes : option Z;
}.

Inductive TruncatedBy := ByLines | ByBytes.

Record Result := MkResult {
  Content : text;
  Truncated : bool;
  TruncBy : option TruncatedBy;
  TotalLines : Z;
  TotalBytes : Z;
  OutputLines : Z;
  OutputBytes : Z;
  LastLinePartial : bool;
  FirstLineExceedsLimit : bool;
  MaxLines : Z;
  MaxBytes : Z;
}.

(** ** Operations *)

Definition resolveLimits (opts : Options) : Z * Z :=
  (default DefaultMaxLines (OptMaxLines opts), default DefaultMaxBytes (OptMaxBytes opts)).

Definition splitLinesForCounting (content : text) : list text :=
  match content with
  | [] => []
  | _ =>
      let lines := split_byte newline content in
      if has_suffix [newline] content then take (length lines - 1) lines else lines
  end.

(** [toFixed1(float64(bytes)/unit)]: below [2^49] bytes every intermediate
    value is an exact double, so the rounding is the integer one. *)
Definition toFixed1 (bytes unit : Z) : text :=
  let rounded := (bytes * 10 + unit / 2) / unit in
  itoa (rounded / 10) ++ lit "." ++ itoa (rounded mod 10).

Definition FormatSize (bytes : Z) : text :=
  if bytes <? 1024 then itoa bytes ++ lit "B"
  else if bytes <? 1024 * 1024 then toFixed1 bytes 1024 ++ lit "KB"
  else toFixed1 bytes (1024 * 1024) ++ lit "MB".

(** The result when everything fits. *)
Definition untruncated (content : text) (lines : list text) (maxLines maxBytes : Z) : Result :=
  MkResult content false None (len lines) (len content) (len lines) (len content) false false maxLines maxBytes.

(** The loop of [TruncateHead] over the lines from index [i]: the lines kept,
    their bytes, and whether the byte limit stopped it. *)
Fixpoint head_loop (maxLines maxBytes : Z) (i : Z) (lines out : list text) (bytes : Z) : list text * Z * TruncatedBy :=
  match lines with
  | [] => (out, bytes, ByLines)
  | line :: rest =>
      if i <? maxLines then
        let lineBytes := if 0 <? i then len line + 1 else len line in
        if maxBytes <? bytes + lineBytes then (out, bytes, ByBytes)
        else head_loop maxLines maxBytes (i + 1) rest (out ++ [line]) (bytes + lineBytes)
      else (out, bytes, ByLines)
  end.

Definition TruncateHead (content : text) (opts : Options) : Result :=
  let '(maxLines, maxBytes) := resolveLimits opts in
  let lines := splitLinesForCounting content in
  if (len lines <=? maxLines) && (len content <=? maxBytes) then untruncated content lines maxLines maxBytes
  else
    let firstLineBytes := match lines with l :: _ => len l | [] => 0 end in
    if maxBytes <? firstLineBytes then
      MkResult [] true (Some ByBytes) (len lines) (len content) 0 0 false true maxLines maxBytes
    else
      let '(outputLines, outputBytesCount, truncatedBy) := head_loop maxLines maxBytes 0 lines [] 0 in
      let truncatedBy :=
        if (maxLines <=? len outputLines) && (outputBytesCount <=? maxBytes) then ByLines else truncatedBy in
      let outputContent := join [newline] outputLines in
      MkResult outputContent true (Some truncatedBy) (len lines) (len content)
        (len outputLines) (len outputContent) false false maxLines maxBytes.

(** Continuation bytes at the cut are skipped. *)
Definition is_continuation (c : ascii) : bool := Z.land (code c) 0xC0 =? 0x80.

Definition truncateStringToBytesFromEnd (s : text) (maxBytes : Z) : text :=
  if len s <=? maxBytes then s
  else
    let start := Z.max (len s - maxBytes) 0 in
    if len s <? start then []
    else drop_head is_continuation (drop (Z.to_nat start) s).

(** The loop of [TruncateTail]; [rlines] are the lines not yet taken, the last
    one first. *)
Fixpoint tail_loop (maxLines maxBytes : Z) (rlines out : list text) (bytes : Z)
    : list text * Z * TruncatedBy * bool :=
  match rlines with
  | [] => (out, bytes, ByLines, false)
  | line :: rest =>
      if len out <? maxLines then
        let lineBytes := if 0 <? len out then len line + 1 else len line in
        if maxBytes <? bytes + lineBytes then
          match out with
          | [] => let t := truncateStringToBytesFromEnd line maxBytes in ([t], len t, ByBytes, true)
          | _ => (out, bytes, ByBytes, false)
          end
        else tail_loop maxLines maxBytes rest (line :: out) (bytes + lineBytes)
      else (out, bytes, ByLines, false)
  end.

Definition TruncateTail (content : text) (opts : Options) : Result :=
  let '(maxLines, maxBytes) := resolveLimits opts in
  let lines := splitLinesForCounting content in
  if (len lines <=? maxLines) && (len content <=? maxBytes) then untruncated content lines maxLines maxBytes
  else
    let '(outputLines, outputBytesCount, truncatedBy, lastLinePartial) :=
      tail_loop maxLines maxBytes (rev lines) [] 0 in
    let truncatedBy :=
      if (maxLines <=? len outputLines) && (outputBytesCount <=? maxBytes) then ByLines else truncatedBy in
    let outputContent := join [newline] outputLines in
    MkResult outputContent true (Some truncatedBy) (len lines) (len content)
      (len outputLines) (len outputContent) lastLinePartial false maxLines maxBytes.

(** UTF-16 code units of a rune. *)
Definition units (r : Z) : Z := if 0xFFFF <? r then 2 else 1.

Definition utf16Len (s : text) : Z := foldr (fun p n => units p.1 + n) 0 (runes s).

(** The loop of [TruncateLine]: what is written to the builder. *)
Fixpoint line_loop (maxChars n : Z) (rs : list (Z * text)) : text :=
  match rs with
  | [] => []
  | (r, _) :: rest =>
      let u := units r in
      if maxChars <? n + u then
        (if (u =? 2) && (n + 1 =? maxChars) then encode_rune rune_error else [])
      else
        encode_rune r ++ (if n + u =? maxChars then [] else line_loop maxChars (n + u) rest)
  end.

Definition TruncateLine (line : text) (maxChars : Z) : text * bool :=
  let maxChars := if maxChars =? 0 then GrepMaxLineLength else maxChars in
  if utf16Len line <=? maxChars then (line, false)
  else (line_loop maxChars 0 (runes line) ++ lit "... [truncated]", true).

(** ** Lines *)

Lemma join_cons_ne sep x l : l <> [] -> join sep (x :: l) = x ++ sep ++ join sep l.
Proof. by destruct l. Qed.

Lemma join_snoc sep l x : l <> [] -> join sep (l ++ [x]) = join sep l ++ sep ++ x.
Proof.
  induction l as [|y l IH]; intros Hne; [done|]. destruct l as [|z l]; [done|].
  change ((y :: z :: l) ++ [x]) with (y :: ((z :: l) ++ [x])). rewrite join_cons_ne by done. rewrite IH by done. rewrite (join_cons_ne sep y (z :: l)) by done.
  by rewrite <- !app_assoc.
Qed.

(** The bytes of lines joined with newlines. *)
Lemma len_join_snoc l x :
  len (join [newline] (l ++ [x])) = len (join [newline] l) + (if 0 <? len l then len x + 1 else len x).
Proof.
  destruct l as [|y l]; [unfold len; simpl; lia|]. rewrite join_snoc by done. rewrite !len_app.
  destruct (Z.ltb_spec 0 (len (y :: l))); unfold len in *; simpl in *; lia.
Qed.

Lemma len_join_cons x l :
  len (join [newline] (x :: l)) = len (join [newline] l) + (if 0 <? len l then len x + 1 else len x).
Proof.
  destruct l as [|y l]; [unfold len; simpl; lia|]. rewrite join_cons_ne by done. rewrite !len_app.
  destruct (Z.ltb_spec 0 (len (y :: l))); unfold len in *; simpl in *; lia.
Qed.

(** The lines give the content back, up to its final newline. *)
Lemma join_lines content :
  content = join [newline] (splitLinesForCounting content)
  \/ content = join [newline] (splitLinesForCounting content) ++ [newline].
Proof.
  destruct content as [|c content]; [by left|]. unfold splitLinesForCounting.
  set (s := c :: content). pose proof (join_split newline s) as Hj.
  destruct (has_suffix [newline] s) eqn:Hs; [right|by left].
  apply has_suffix_spec in Hs as [t Ht]. rewrite Ht, (split_byte_app newline t []).
  cbn [split_byte]. rewrite length_app. cbn [length].
  replace (length (split_byte newline t) + 1 - 1)%nat with (length (split_byte newline t)) by lia.
  by rewrite take_app_length, join_split.
Qed.

Lemma join_take_prefix sep l k : exists rest, join sep l = join sep (take k l) ++ rest.
Proof.
  revert l. induction k as [|k IH]; intros l; [by exists (join sep l)|].
  destruct l as [|x l]; [by exists []|]. rewrite firstn_cons. destruct l as [|y l]; [exists []; by rewrite app_nil_r, take_nil|].
  destruct (IH (y :: l)) as [rest Hrest]. destruct k as [|k].
  - exists (sep ++ join sep (y :: l)). simpl. done.
  - exists rest. change (take (S k) (y :: l)) with (y :: take k l) in Hrest |- *.
    rewrite (join_cons_ne _ x (y :: l)), (join_cons_ne _ x (y :: take k l)), Hrest by done. by rewrite <- !app_assoc.
Qed.

Lemma head_prefix content k : exists rest, content = join [newline] (take k (splitLinesForCounting content)) ++ rest.
Proof.
  destruct (join_take_prefix [newline] (splitLinesForCounting content) k) as [rest Hr].
  destruct (join_lines content) as [H|H].
  - exists rest. by rewrite <- Hr.
  - exists (rest ++ [newline]). by rewrite app_assoc, <- Hr.
Qed.

Lemma len_join_take_mono l j k :
  (j <= k)%nat -> len (join [newline] (take j l)) <= len (join [newline] (take k l)).
Proof.
  intros Hjk. destruct (join_take_prefix [newline] (take k l) j) as [rest Hr].
  rewrite take_take, Nat.min_l in Hr by lia. rewrite Hr, len_app. pose proof (len_nonneg rest). lia.
Qed.

(** ** Keeping the head *)

(** [k] lines from the head fit, and no more do. *)
Definition longest_head (maxLines maxBytes : Z) (lines : list text) (k : nat) : Prop :=
  (k <= length lines)%nat /\ Z.of_nat k <= maxLines /\ len (join [newline] (take k lines)) <= maxBytes
  /\ forall j, (k < j <= length lines)%nat ->
       maxLines < Z.of_nat j \/ maxBytes < len (join [newline] (take j lines)).

Lemma head_loop_spec maxLines maxBytes lines done rest out' bytes' by' :
  lines = done ++ rest -> 0 <= maxLines -> len done <= maxLines -> len (join [newline] done) <= maxBytes ->
  head_loop maxLines maxBytes (len done) rest done (len (join [newline] done)) = (out', bytes', by') ->
  exists k, out' = take k lines /\ bytes' = len (join [newline] out') /\ longest_head maxLines maxBytes lines k.
Proof.
  intros Hl Hm. revert done Hl. induction rest as [|line rest IH]; intros done Hl Hd Hb Hh; cbn [head_loop] in Hh.
  - injection Hh as <- <- <-. rewrite app_nil_r in Hl. subst lines. exists (length done).
    rewrite firstn_all. split_and!; [done..|]. unfold longest_head. rewrite firstn_all.
    split_and!; [done|done|done|lia].
  - assert (Htake : take (length done) lines = done) by (rewrite Hl; by apply take_app_length).
    assert (Hstop : forall e, (forall j, (length done < j <= length lines)%nat ->
        maxLines < Z.of_nat j \/ maxBytes < len (join [newline] (take j lines))) ->
      (done, len (join [newline] done), e) = (out', bytes', by') ->
      exists k, out' = take k lines /\ bytes' = len (join [newline] out') /\ longest_head maxLines maxBytes lines k).
    { intros e Hmax Heq. injection Heq as <- <- _. exists (length done). rewrite Htake. split_and!; [done..|].
      unfold longest_head. rewrite Htake. split_and!; [|done..]. rewrite Hl, length_app. lia. }
    destruct (Z.ltb_spec (len done) maxLines) as [Hlt|Hge]; cycle 1.
    { eapply Hstop; [|exact Hh]. intros j Hj. left. unfold len in *. lia. }
    rewrite <- len_join_snoc in Hh.
    assert (Hsnoc : take (S (length done)) lines = done ++ [line]).
    { rewrite Hl. rewrite (cons_middle line done rest), app_assoc.
      replace (S (length done)) with (length (done ++ [line])) by (rewrite length_app; simpl; lia).
      apply take_app_length. }
    destruct (Z.ltb_spec maxBytes (len (join [newline] (done ++ [line])))) as [Hov|Hfit].
    + eapply Hstop; [|exact Hh]. intros j Hj. right. eapply Z.lt_le_trans; [exact Hov|].
      rewrite <- Hsnoc. apply len_join_take_mono. lia.
    + replace (len done + 1) with (len (done ++ [line])) in Hh by (rewrite len_app; unfold len; simpl; lia).
      apply (IH (done ++ [line])); [by rewrite <- app_assoc| |done|done].
      rewrite len_app. unfold len in *. simpl. lia.
Qed.

(** [TruncateHead] returns the content itself when it is within both
    limits; otherwise it returns the longest run of whole lines from the start
    that is within both limits, with its size and line count: a prefix of the
    content, never a partial line. *)
Theorem TruncateHead_longest content opts maxLines maxBytes :
  resolveLimits opts = (maxLines, maxBytes) -> 0 <= maxLines -> 0 <= maxBytes ->
  let r := TruncateHead content opts in
  let lines := splitLinesForCounting content in
  TotalLines r = len lines /\ TotalBytes r = len content /\ OutputBytes r = len (Content r)
  /\ (exists rest, content = Content r ++ rest)
  /\ if (len lines <=? maxLines) && (len content <=? maxBytes)
     then Truncated r = false /\ Content r = content /\ OutputLines r = len lines
     else Truncated r = true /\ exists k, longest_head maxLines maxBytes lines k
          /\ Content r = join [newline] (take k lines) /\ OutputLines r = Z.of_nat k
          /\ LastLinePartial r = false.
Proof.
  intros Hlim Hml Hmb. cbn zeta. unfold TruncateHead. rewrite Hlim.
  set (lines := splitLinesForCounting content).
  destruct (_ && _) eqn:Efit.
  { unfold untruncated. cbn. split_and!; try done. exists []. by rewrite app_nil_r. }
  destruct (Z.ltb_spec maxBytes (match lines with l :: _ => len l | [] => 0 end)) as [Hov|Hfit].
  { cbn. split_and!; [done|done|done|by exists content|done|]. exists 0%nat. split_and!; [|done..].
    unfold longest_head. split_and!; [lia|lia|unfold len; simpl; lia|]. intros j Hj. right.
    eapply Z.lt_le_trans; [exact Hov|]. destruct lines as [|l lines]; [simpl in Hj; lia|].
    etrans; [|apply (len_join_take_mono (l :: lines) 1 j); lia]. done. }
  destruct (head_loop maxLines maxBytes 0 lines [] 0) as [[out bytes] b] eqn:Eh. cbn.
  destruct (head_loop_spec maxLines maxBytes lines [] lines out bytes b) as (k & -> & -> & Hk); try done.
  split_and!; [done|done|done|apply head_prefix|done|]. exists k. split_and!; [done|done| |done].
  destruct Hk as (Hk & _). unfold len. rewrite length_take. lia.
Qed.

(** ** Cutting a string from its end *)

Lemma drop_head_suffix {A} (p : A -> bool) l : exists a, l = a ++ drop_head p l /\ Forall (fun x => p x = true) a.
Proof.
  induction l as [|x l IH]; simpl; [by exists []|]. destruct (p x) eqn:E.
  - destruct IH as (a & Ha & HF). exists (x :: a). simpl. split; [by rewrite <- Ha|by constructor].
  - by exists [].
Qed.

Lemma drop_head_first {A} (p : A -> bool) l x t : drop_head p l = x :: t -> p x = false.
Proof.
  induction l as [|y l IH]; simpl; [done|]. destruct (p y) eqn:E; [done|]. intros [= -> _]. done.
Qed.

(** [t] is the longest suffix of [s] of at most [maxBytes] bytes that does not
    start inside a UTF-8 sequence. *)
Definition longest_suffix (maxBytes : Z) (s t : text) : Prop :=
  (exists a, s = a ++ t) /\ len t <= maxBytes
  /\ (t = s \/ forall c u, t = c :: u -> is_continuation c = false)
  /\ forall a c u, s = a ++ c :: u -> len t < len (c :: u) <= maxBytes -> is_continuation c = true.

Lemma cut_from_end s maxBytes :
  0 <= maxBytes -> longest_suffix maxBytes s (truncateStringToBytesFromEnd s maxBytes).
Proof.
  intros Hm. unfold truncateStringToBytesFromEnd. destruct (Z.leb_spec (len s) maxBytes) as [Hle|Hgt].
  { split_and!; [by exists []|done|by left|]. intros a c u -> [Hlt _]. rewrite len_app in Hlt.
    pose proof (len_nonneg a). lia. }
  rewrite Z.max_l by lia. destruct (Z.ltb_spec (len s) (len s - maxBytes)); [lia|].
  set (k := Z.to_nat (len s - maxBytes)).
  assert (Hk : (k <= length s)%nat) by (unfold k, len in *; lia).
  assert (Hlen : len (drop k s) = maxBytes) by (unfold len, k in *; rewrite length_drop; unfold len; lia).
  destruct (drop_head_suffix is_continuation (drop k s)) as (a & Ha & HF).
  set (t := drop_head is_continuation (drop k s)) in *.
  assert (Hs : s = (take k s ++ a) ++ t) by (rewrite <- app_assoc, <- Ha; by rewrite take_drop).
  split_and!.
  - by eexists.
  - rewrite Ha, len_app in Hlen. pose proof (len_nonneg a). lia.
  - right. intros c u Ht. by apply drop_head_first in Ht.
  - intros p c u Hp [Hlt Hle]. rewrite Ha, len_app in Hlen.
    assert (Hls : (length s = length p + length (c :: u))%nat) by (rewrite Hp at 1; by rewrite length_app).
    assert (Hlp : (k <= length p)%nat) by (unfold k, len in *; lia).
    assert (Hdrop : drop (length p - k) (drop k s) = c :: u).
    { rewrite drop_drop. replace (k + (length p - k))%nat with (length p) by lia. rewrite Hp at 1. apply drop_app_length. }
    rewrite Ha in Hdrop. apply (f_equal (fun l => l !! 0%nat)) in Hdrop. rewrite lookup_drop, Nat.add_0_r in Hdrop.
    assert (Hin : (length p - k < length a)%nat).
    { unfold k, len in *. lia. }
    rewrite lookup_app_l in Hdrop by done. simpl in Hdrop.
    eapply Forall_lookup_1 in HF; [|exact Hdrop]. done.
Qed.

(** ** Keeping the tail *)

Definition longest_tail (maxLines maxBytes : Z) (lines : list text) (k : nat) : Prop :=
  (k <= length lines)%nat /\ Z.of_nat k <= maxLines
  /\ len (join [newline] (drop (length lines - k) lines)) <= maxBytes
  /\ forall j, (k < j <= length lines)%nat ->
       maxLines < Z.of_nat j \/ maxBytes < len (join [newline] (drop (length lines - j) lines)).

Lemma len_join_drop_mono l i j : (i <= j)%nat -> len (join [newline] (drop j l)) <= len (join [newline] (drop i l)).
Proof.
  intros Hij. induction Hij as [|j Hij IH]; [done|]. etrans; [|exact IH].
  destruct (decide (j < length l)%nat) as [Hlt|Hge]; [|rewrite !drop_ge by lia; done].
  apply lookup_lt_is_Some in Hlt as [x Hx]. rewrite (drop_S _ _ _ Hx), len_join_cons.
  pose proof (len_nonneg x). case_match; lia.
Qed.

Lemma tail_loop_spec maxLines maxBytes lines rest done out' bytes' by' partial :
  lines = rev rest ++ done -> 0 <= maxLines -> 0 <= maxBytes ->
  len done <= maxLines -> len (join [newline] done) <= maxBytes ->
  tail_loop maxLines maxBytes rest done (len (join [newline] done)) = (out', bytes', by', partial) ->
  bytes' = len (join [newline] out') /\
  ((partial = false /\ exists k, out' = drop (length lines - k) lines /\ longest_tail maxLines maxBytes lines k)
   \/ (partial = true /\ done = [] /\ exists line, last lines = Some line
       /\ out' = [truncateStringToBytesFromEnd line maxBytes] /\ maxBytes < len line /\ 1 <= maxLines)).
Proof.
  intros Hl Hm Hmb. revert done Hl. induction rest as [|line rest IH]; intros done Hl Hd Hb Hh; cbn [tail_loop] in Hh.
  - injection Hh as <- <- <- <-. simpl in Hl. subst lines. split; [done|left]. split; [done|].
    exists (length done). unfold longest_tail. rewrite Nat.sub_diag, drop_0. split_and!; [done..|lia].
  - assert (Hlen : length lines = (length rest + 1 + length done)%nat).
    { rewrite Hl, length_app. simpl. rewrite length_app, length_rev. simpl. lia. }
    assert (Hdrop : drop (length lines - length done) lines = done).
    { rewrite Hlen. replace (length rest + 1 + length done - length done)%nat with (length (rev (line :: rest)))
        by (rewrite length_rev; simpl; lia). rewrite Hl. apply drop_app_length. }
    assert (Hdrop' : drop (length lines - S (length done)) lines = line :: done).
    { rewrite Hlen. replace (length rest + 1 + length done - S (length done))%nat with (length (rev rest))
        by (rewrite length_rev; lia). rewrite Hl. simpl. rewrite <- app_assoc. apply drop_app_length. }
    assert (Hstop : (forall j, (length done < j <= length lines)%nat ->
        maxLines < Z.of_nat j \/ maxBytes < len (join [newline] (drop (length lines - j) lines))) ->
      exists k, done = drop (length lines - k) lines /\ longest_tail maxLines maxBytes lines k).
    { intros Hmax. exists (length done). unfold longest_tail. rewrite Hdrop. split_and!; [done|lia|done..]. }
    destruct (Z.ltb_spec (len done) maxLines) as [Hlt|Hge]; cycle 1.
    { injection Hh as <- <- <- <-. split; [done|left]. split; [done|]. apply Hstop.
      intros j Hj. left. unfold len in *. lia. }
    rewrite <- len_join_cons in Hh.
    destruct (Z.ltb_spec maxBytes (len (join [newline] (line :: done)))) as [Hov|Hfit].
    + destruct done as [|d0 done].
      * injection Hh as <- <- <- <-. split; [done|right]. split_and!; [done|done|]. exists line.
        split_and!; [|done|done|]; [|unfold len in *; simpl in *; lia].
        rewrite Hl, app_nil_r. simpl. apply last_snoc.
      * injection Hh as <- <- <- <-. split; [done|left]. split; [done|]. apply Hstop.
        intros j Hj. right. eapply Z.lt_le_trans; [exact Hov|]. rewrite <- Hdrop'. apply len_join_drop_mono. lia.
    + destruct (IH (line :: done)) as [Hb' Hor]; [|unfold len in *; simpl; lia|done|done|].
      { rewrite Hl. simpl. by rewrite <- app_assoc. }
      split; [done|]. destruct Hor as [?|(_ & ? & _)]; [by left|done].
Qed.

(** [TruncateTail] returns the content itself when it is within both
    limits; otherwise the longest run of whole lines from the end that is
    within both, or, when not even the last line is and a line is allowed, the
    longest suffix of that line within the byte limit that starts at a UTF-8
    boundary. *)
Theorem TruncateTail_longest content opts maxLines maxBytes :
  resolveLimits opts = (maxLines, maxBytes) -> 0 <= maxLines -> 0 <= maxBytes ->
  let r := TruncateTail content opts in
  let lines := splitLinesForCounting content in
  TotalLines r = len lines /\ TotalBytes r = len content /\ OutputBytes r = len (Content r)
  /\ if (len lines <=? maxLines) && (len content <=? maxBytes)
     then Truncated r = false /\ Content r = content /\ OutputLines r = len lines
     else Truncated r = true /\
       if LastLinePartial r
       then exists line, last lines = Some line /\ maxBytes < len line
            /\ longest_suffix maxBytes line (Content r) /\ OutputLines r = 1
       else exists k, longest_tail maxLines maxBytes lines k
            /\ Content r = join [newline] (drop (length lines - k) lines) /\ OutputLines r = Z.of_nat k.
Proof.
  intros Hlim Hml Hmb. cbn zeta. unfold TruncateTail. rewrite Hlim.
  set (lines := splitLinesForCounting content).
  destruct (_ && _) eqn:Efit; [done|].
  destruct (tail_loop maxLines maxBytes (rev lines) [] 0) as [[[out bytes] b] partial] eqn:Et. cbn.
  destruct (tail_loop_spec maxLines maxBytes lines (rev lines) [] out bytes b partial) as [-> Hor]; try done.
  { by rewrite rev_involutive, app_nil_r. }
  split_and!; [done..|]. destruct Hor as [(-> & k & -> & Hk)|(-> & _ & line & Hlast & -> & Hov & _)].
  - exists k. split_and!; [done..|]. destruct Hk as (Hk & _). unfold len. rewrite length_drop. lia.
  - exists line. split_and!; [done..| |done]. by apply cut_from_end.
Qed.

(** ** Cutting a line by UTF-16 code units *)

(** The UTF-16 encoding of a rune, and the text of a sequence of code units;
    a surrogate without its partner is U+FFFD. *)
Definition utf16 (r : Z) : list Z :=
  if 0xFFFF <? r then [0xD800 + (r - 0x10000) / 1024; 0xDC00 + (r - 0x10000) mod 1024] else [r].

Definition is_high (u : Z) : bool := in_range 0xD800 0xDBFF u.
Definition is_low (u : Z) : bool := in_range 0xDC00 0xDFFF u.

Fixpoint decode16 (l : list Z) : text :=
  match l with
  | [] => []
  | u :: l' =>
      match l' with
      | v :: l'' =>
          if is_high u && is_low v then encode_rune (0x10000 + (u - 0xD800) * 1024 + (v - 0xDC00)) ++ decode16 l''
          else encode_rune u ++ decode16 l'
      | [] => encode_rune u
      end
  end.

(** JavaScript's [line.slice(0, n)], as text. *)
Definition js_slice (line : text) (n : Z) : text :=
  decode16 (take (Z.to_nat n) (concat ((fun p => utf16 p.1) <$> runes line))).

(** A rune decoded from UTF-8 is a scalar value. *)
Definition scalar (r : Z) : Prop := 0 <= r < 0xD800 \/ 0xDFFF < r <= 0x10FFFF.

Ltac ranges :=
  repeat match goal with
  | H : in_range _ _ _ = true |- _ => unfold in_range in H; apply andb_true_iff in H as [?%Z.leb_le ?%Z.leb_le]
  | H : cont _ = true |- _ => unfold cont in H
  | H : _ && _ = true |- _ => apply andb_true_iff in H as [? ?]
  | H : (_ <? _) = true |- _ => apply Z.ltb_lt in H
  | H : (_ <? _) = false |- _ => apply Z.ltb_ge in H
  | H : (_ =? _) = true |- _ => apply Z.eqb_eq in H
  | H : (_ =? _) = false |- _ => apply Z.eqb_neq in H
  end.

Lemma decode_rune_scalar s : scalar (decode_rune s).1.
Proof.
  unfold decode_rune, scalar, rune_error. destruct s as [|c0 r]; [cbn [fst]; lia|].
  pose proof (code_bound c0).
  destruct (code c0 <? 0x80) eqn:E1; [ranges; cbn [fst]; lia|].
  destruct (in_range 0xC2 0xDF (code c0)) eqn:E2.
  { destruct r as [|c1 r]; [cbn [fst]; lia|]. destruct (cont c1) eqn:?; ranges; cbn [fst]; lia. }
  destruct (in_range 0xE0 0xEF (code c0)) eqn:E3.
  { destruct r as [|c1 [|c2 r]]; [cbn [fst]; lia..|]. pose proof (code_bound c1). pose proof (code_bound c2).
    destruct (code c0 =? 0xE0) eqn:?, (code c0 =? 0xED) eqn:?, (_ && _) eqn:?; ranges; cbn [fst]; lia. }
  destruct (in_range 0xF0 0xF4 (code c0)) eqn:E4; [|cbn [fst]; lia].
  destruct r as [|c1 [|c2 [|c3 r]]]; [cbn [fst]; lia..|].
  destruct (code c0 =? 0xF0) eqn:?, (code c0 =? 0xF4) eqn:?, (_ && _) eqn:?; ranges; cbn [fst]; lia.
Qed.

Lemma runes_scalar s : Forall (fun p => scalar p.1) (runes s).
Proof.
  unfold runes. generalize (length s) as fuel. intros fuel. revert s.
  induction fuel as [|fuel IH]; intros [|c s]; cbn [runes_fuel]; try constructor.
  pose proof (decode_rune_scalar (c :: s)) as Hs. destruct (decode_rune (c :: s)) as [r n].
  constructor; [exact Hs|apply IH].
Qed.

Lemma decode16_rune r l : scalar r -> decode16 (utf16 r ++ l) = encode_rune r ++ decode16 l.
Proof.
  intros Hr. unfold utf16. destruct (Z.ltb_spec 0xFFFF r) as [Hgt|Hle].
  - cbn [app decode16].
    pose proof (Z.mod_pos_bound (r - 0x10000) 1024). pose proof (Z.div_mod (r - 0x10000) 1024).
    assert (0 <= (r - 0x10000) / 1024 < 1024).
    { split; [apply Z.div_pos; lia|]. apply Z.div_lt_upper_bound; [lia|]. unfold scalar in Hr. lia. }
    assert (is_high (0xD800 + (r - 0x10000) / 1024) && is_low (0xDC00 + (r - 0x10000) mod 1024) = true) as ->.
    { unfold is_high, is_low, in_range. rewrite !andb_true_iff, !Z.leb_le. lia. }
    do 2 f_equal. lia.
  - cbn [app]. assert (Hh : is_high r = false).
    { unfold is_high, in_range, scalar in *. apply andb_false_iff. rewrite !Z.leb_gt. lia. }
    destruct l as [|v l]; cbn [decode16]; [by rewrite app_nil_r|]. by rewrite Hh.
Qed.

Lemma encode_surrogate u : 0xD800 <= u <= 0xDFFF -> encode_rune u = encode_rune rune_error.
Proof.
  intros Hu. unfold encode_rune at 1.
  assert (in_range 0xD800 0xDFFF u = true) as -> by (unfold in_range; rewrite andb_true_iff, !Z.leb_le; lia).
  by rewrite orb_true_r.
Qed.

Lemma utf16_length r : Z.of_nat (length (utf16 r)) = units r.
Proof. unfold utf16, units. by destruct (0xFFFF <? r). Qed.

Lemma line_loop_slice maxChars n rs :
  Forall (fun p => scalar p.1) rs -> n < maxChars ->
  line_loop maxChars n rs = decode16 (take (Z.to_nat (maxChars - n)) (concat ((fun p => utf16 p.1) <$> rs))).
Proof.
  intros HF. revert n. induction HF as [|[r b] rs Hr HF IH]; intros n Hn; cbn [line_loop].
  { by destruct (Z.to_nat (maxChars - n)). }
  rewrite fmap_cons. cbn [concat fst] in *. pose proof (utf16_length r) as Hu.
  assert (Hu2 : 1 <= units r <= 2) by (unfold units; case_match; lia).
  destruct (Z.ltb_spec maxChars (n + units r)) as [Hov|Hfit].
  - assert (units r = 2 /\ n + 1 = maxChars) as [H2 H1] by lia. rewrite H2, H1, !Z.eqb_refl. cbn [andb].
    replace (Z.to_nat (maxChars - n)) with 1%nat by lia.
    unfold utf16, units in *. destruct (0xFFFF <? r) eqn:Er; [|lia]. apply Z.ltb_lt in Er. cbn [app take decode16].
    assert (0 <= (r - 0x10000) / 1024 < 1024).
    { unfold scalar in Hr. split; [apply Z.div_pos; lia|]. apply Z.div_lt_upper_bound; lia. }
    symmetry. apply encode_surrogate. lia.
  - rewrite take_app_ge by lia. rewrite decode16_rune by done. f_equal.
    replace (Z.to_nat (maxChars - n) - length (utf16 r))%nat with (Z.to_nat (maxChars - (n + units r))) by lia.
    destruct (Z.eqb_spec (n + units r) maxChars) as [He|He].
    + by replace (Z.to_nat (maxChars - (n + units r))) with 0%nat by lia.
    + apply IH. lia.
Qed.

Lemma utf16Len_length s : utf16Len s = len (concat ((fun p => utf16 p.1) <$> runes s)).
Proof.
  unfold utf16Len. induction (runes s) as [|p rs IH]; [done|].
  rewrite fmap_cons. cbn [concat foldr]. rewrite IH, len_app, <- utf16_length. done.
Qed.

(** [TruncateLine] is what the original JavaScript computes: a line of at
    most [maxChars] UTF-16 code units is returned unchanged, and a longer one
    is [line.slice(0, maxChars)], a split surrogate pair becoming U+FFFD,
    followed by the marker. *)
Theorem TruncateLine_js_slice line maxChars :
  let m := if maxChars =? 0 then GrepMaxLineLength else maxChars in
  TruncateLine line maxChars =
    if len (concat ((fun p => utf16 p.1) <$> runes line)) <=? m then (line, false)
    else (js_slice line m ++ lit "... [truncated]", true).
Proof.
  cbn zeta. unfold TruncateLine. set (m := if maxChars =? 0 then _ else _).
  rewrite utf16Len_length. destruct (Z.leb_spec (len (concat ((fun p => utf16 p.1) <$> runes line))) m) as [|Hgt]; [done|].
  do 2 f_equal. unfold js_slice. destruct (Z.ltb_spec 0 m) as [Hm|Hm].
  - rewrite (line_loop_slice m 0) by (done || apply runes_scalar). by rewrite Z.sub_0_r.
  - replace (Z.to_nat m) with 0%nat by lia. rewrite take_0.
    assert (m <> 0) by (unfold m, GrepMaxLineLength; destruct (Z.eqb_spec maxChars 0); lia).
    destruct (runes line) as [|[r b] rs]; [done|]. cbn [line_loop].
    assert (1 <= units r <= 2) by (unfold units; case_match; lia).
    destruct (Z.ltb_spec m (0 + units r)); [|lia]. destruct (Z.eqb_spec (0 + 1) m); [lia|]. by rewrite andb_false_r.
Qed.

(** ** Applications *)

Definition demo_lines : text := join [newline] [lit "ab"; lit "cd"; lit "ef"].
Definition demo_opts : Options := {| OptMaxLines := Some 5; OptMaxBytes := Some 6 |}.

Lemma TruncateHead_longest_witness :
  let r := TruncateHead demo_lines demo_opts in
  let lines := splitLinesForCounting demo_lines in
  TotalLines r = len lines /\ TotalBytes r = len demo_lines /\ OutputBytes r = len (Content r)
  /\ (exists rest, demo_lines = Content r ++ rest)
  /\ if (len lines <=? 5) && (len demo_lines <=? 6)
     then Truncated r = false /\ Content r = demo_lines /\ OutputLines r = len lines
     else Truncated r = true /\ exists k, longest_head 5 6 lines k
          /\ Content r = join [newline] (take k lines) /\ OutputLines r = Z.of_nat k
          /\ LastLinePartial r = false.
Proof. apply (TruncateHead_longest demo_lines demo_opts 5 6); [reflexivity|lia|lia]. Defined.

Lemma TruncateTail_longest_witness :
  let r := TruncateTail demo_lines demo_opts in
  let lines := splitLinesForCounting demo_lines in
  TotalLines r = len lines /\ TotalBytes r = len demo_lines /\ OutputBytes r = len (Content r)
  /\ if (len lines <=? 5) && (len demo_lines <=? 6)
     then Truncated r = false /\ Content r = demo_lines /\ OutputLines r = len lines
     else Truncated r = true /\
       if LastLinePartial r
       then exists line, last lines = Some line /\ 6 < len line
            /\ longest_suffix 6 line (Content r) /\ OutputLines r = 1
       else exists k, longest_tail 5 6 lines k
            /\ Content r = join [newline] (drop (length lines - k) lines) /\ OutputLines r = Z.of_nat k.
Proof. apply (TruncateTail_longest demo_lines demo_opts 5 6); [reflexivity|lia|lia]. Defined.

Example TruncateHead_demo : Content (TruncateHead demo_lines demo_opts) = join [newline] [lit "ab"; lit "cd"].
Proof. reflexivity. Qed.
Example FormatSize_demo : FormatSize 1588 = lit "1.6KB" /\ FormatSize 1048576 = lit "1.0MB".
Proof. split; reflexivity. Qed.
