(* ===== verification/EditDiff.v ===== *)
(** * Exact-text edits ([internal/pi/edittools/editdiff.go])

    A list of [oldText -> newText] edits is located in a file, exactly or
    after a fuzzy normalization, checked for uniqueness and overlap, and
    applied; lines no edit touches are kept verbatim.  Unicode NFKC
    normalization ([golang.org/x/text/unicode/norm]) is a parameter. *)

From S2P Require Import Prelude GoText.
From Stdlib Require Import Ascii.

Definition LF : text := [newline].
Definition CRLF : text := [cr; newline].

(** ** Data *)

Record Edit := MkEdit {
  OldText : text;
  NewText : text;
}.

Record AppliedEditsResult := {
  BaseContent : text;
  NewContent : text;
}.

Record lineSpan := MkSpan {
  lstart : Z;
  lend : Z;
}.

(** [matchedEdit] and [MatchedEdit] have the same fields. *)
Record matchedEdit := MkMatch {
  editIndex : Z;
  matchIndex : Z;
  matchLength : Z;
  mnewText : text;
}.

Record FuzzyMatchResult := MkFuzzy {
  Found : bool;
  Index : Z;
  MatchLength : Z;
  UsedFuzzyMatch : bool;
  ContentForReplacement : text;
}.

(** The errors, with what their messages mention besides the path. *)
Inductive edit_error :=
| EmptyOldText (editIndex totalEdits : Z)
| NotFound (editIndex totalEdits : Z)
| Duplicate (editIndex totalEdits occurrences : Z)
| Overlap (first second : Z)
| NoChange (totalEdits : Z)
| OutsideBase
| LineCount
| SliceBounds.

(** ** Line endings *)

Definition DetectLineEnding (content : text) : text :=
  let crlfIdx := index content CRLF in
  let lfIdx := index content LF in
  if lfIdx =? -1 then LF
  else if crlfIdx =? -1 then LF
  else if crlfIdx <? lfIdx then CRLF
  else LF.

Definition NormalizeToLF (t : text) : text := replace_all (replace_all t CRLF LF) [cr] LF.

Definition RestoreLineEndings (t ending : text) : text :=
  if bool_decide (ending = CRLF) then replace_all t LF CRLF else t.

(** ** Lines *)

(** [i] counts down the bytes left; each line takes at least one. *)
Fixpoint split_lines (fuel : nat) (content : text) : list text :=
  match fuel, content with
  | S k, _ :: _ =>
      match find_byte newline content with
      | None => [content]
      | Some j => take (j + 1) content :: split_lines k (drop (j + 1) content)
      end
  | _, _ => []
  end.

Definition splitLinesWithEndings (content : text) : list text := split_lines (length content) content.

Fixpoint spans_from (offset : Z) (lines : list text) : list lineSpan :=
  match lines with
  | [] => []
  | line :: rest => MkSpan offset (offset + len line) :: spans_from (offset + len line) rest
  end.

Definition getLineSpans (content : text) : list lineSpan := spans_from 0 (splitLinesWithEndings content).

(** The first line [repStart] lies in. *)
Fixpoint find_line (repStart : Z) (i : nat) (lines : list lineSpan) : option nat :=
  match lines with
  | [] => None
  | l :: rest => if (lstart l <=? repStart) && (repStart <? lend l) then Some i else find_line repStart (S i) rest
  end.

(** [endLine] moves on over the lines that end before [repEnd]. *)
Fixpoint find_end (repEnd : Z) (endLine : nat) (rest : list lineSpan) : option nat :=
  match rest with
  | [] => None
  | l :: rest' => if lend l <? repEnd then find_end repEnd (S endLine) rest' else Some endLine
  end.

Definition getReplacementLineRange (lines : list lineSpan) (m : matchedEdit) : result edit_error (nat * nat) :=
  let repStart := matchIndex m in
  let repEnd := matchIndex m + matchLength m in
  match find_line repStart 0 lines with
  | None => Err OutsideBase
  | Some startLine =>
      match find_end repEnd startLine (drop startLine lines) with
      | None => Err OutsideBase
      | Some endLine => Ok (startLine, S endLine)
      end
  end.

(** ** Replacing *)

(** [result[:i] + new + result[i+n:]]; Go panics when a bound is outside. *)
Definition splice_at (s : text) (i n : Z) (new : text) : result edit_error text :=
  if (0 <=? i) && (i <=? len s) && (i + n <=? len s) && (0 <=? i + n)
  then Ok (take (Z.to_nat i) s ++ new ++ drop (Z.to_nat (i + n)) s)
  else Err SliceBounds.

(** From the last replacement to the first. *)
Fixpoint apply_backward (res : text) (rev_replacements : list matchedEdit) (offset : Z) : result edit_error text :=
  match rev_replacements with
  | [] => Ok res
  | r :: rest =>
      res ← splice_at res (matchIndex r - offset) (matchLength r) (mnewText r);
      apply_backward res rest offset
  end.

Definition applyReplacements (content : text) (replacements : list matchedEdit) (offset : Z) : result edit_error text :=
  apply_backward content (rev replacements) offset.

(** [sort.Slice] by [matchIndex]: insertion, as it sorts short slices. *)
Fixpoint insert_match (m : matchedEdit) (l : list matchedEdit) : list matchedEdit :=
  match l with
  | [] => [m]
  | x :: l' => if matchIndex m <? matchIndex x then m :: l else x :: insert_match m l'
  end.

Definition sort_matches (l : list matchedEdit) : list matchedEdit := fold_left (fun acc m => insert_match m acc) l [].

Record group := MkGroup {
  startLine : nat;
  endLine : nat;
  replacements : list matchedEdit;
}.

(** The groups of replacements on overlapping line ranges, the last group
    first. *)
Fixpoint make_groups (baseLines : list lineSpan) (sorted : list matchedEdit) (groups : list group)
    : result edit_error (list group) :=
  match sorted with
  | [] => Ok groups
  | m :: rest =>
      '(s, e) ← getReplacementLineRange baseLines m;
      match groups with
      | g :: gs =>
          if (s <? endLine g)%nat
          then make_groups baseLines rest
                 (MkGroup (startLine g) (if (endLine g <? e)%nat then e else endLine g) (replacements g ++ [m]) :: gs)
          else make_groups baseLines rest (MkGroup s e [m] :: groups)
      | [] => make_groups baseLines rest [MkGroup s e [m]]
      end
  end.

(** What is written for the groups, from original line [i]. *)
Fixpoint write_groups (originalLines : list text) (baseLines : list lineSpan) (baseContent : text)
    (i : nat) (groups : list group) : result edit_error text :=
  match groups with
  | [] => Ok (concat (drop i originalLines))
  | g :: gs =>
      match baseLines !! startLine g, baseLines !! (endLine g - 1)%nat with
      | Some sl, Some el =>
          let slice := take (Z.to_nat (lend el - lstart sl)) (drop (Z.to_nat (lstart sl)) baseContent) in
          replaced ← applyReplacements slice (replacements g) (lstart sl);
          rest ← write_groups originalLines baseLines baseContent (endLine g) gs;
          Ok (concat (take (startLine g - i) (drop i originalLines)) ++ replaced ++ rest)
      | _, _ => Err SliceBounds
      end
  end.

Definition ApplyReplacementsPreservingUnchangedLines (originalContent baseContent : text) (matches : list matchedEdit)
    : result edit_error text :=
  let originalLines := splitLinesWithEndings originalContent in
  let baseLines := getLineSpans baseContent in
  if negb (Nat.eqb (length originalLines) (length baseLines)) then Err LineCount
  else
    groups ← make_groups baseLines (sort_matches matches) [];
    write_groups originalLines baseLines baseContent 0 (rev groups).

(** ** Fuzzy matching *)

Definition isJSWhitespace (r : Z) : bool :=
  existsb (Z.eqb r) [0x09; 0x0A; 0x0B; 0x0C; 0x0D; 0x20; 0xA0; 0x1680;
    0x2000; 0x2001; 0x2002; 0x2003; 0x2004; 0x2005; 0x2006;
    0x2007; 0x2008; 0x2009; 0x200A; 0x2028; 0x2029; 0x202F; 0x205F; 0x3000; 0xFEFF].

Definition jsTrimEnd (s : text) : text := trim_right_func isJSWhitespace s.

(** The rune a quote, dash or space folds to. *)
Definition fold_rune (r : Z) : Z :=
  if existsb (Z.eqb r) [0x2018; 0x2019; 0x201A; 0x201B] then 0x27
  else if existsb (Z.eqb r) [0x201C; 0x201D; 0x201E; 0x201F] then 0x22
  else if existsb (Z.eqb r) [0x2010; 0x2011; 0x2012; 0x2013; 0x2014; 0x2015; 0x2212] then 0x2D
  else if existsb (Z.eqb r) [0xA0; 0x2002; 0x2003; 0x2004; 0x2005; 0x2006; 0x2007; 0x2008; 0x2009; 0x200A; 0x202F; 0x205F; 0x3000]
  then 0x20
  else r.

(** [strings.Count(s, p)]; an empty [p] is found before and after every rune. *)
Definition count (s p : text) : Z :=
  match p with
  | [] => len (runes s) + 1
  | _ => Z.of_nat (count_from p 0 s)
  end.

Section Fuzzy.
Variable NFKC : text -> text.

Definition NormalizeForFuzzyMatch (t : text) : text :=
  map_runes fold_rune (join LF (jsTrimEnd <$> split_byte newline (NFKC t))).

Definition FuzzyFindText (content oldText : text) : FuzzyMatchResult :=
  let i := index content oldText in
  if negb (i =? -1) then MkFuzzy true i (len oldText) false content
  else
    let fuzzyContent := NormalizeForFuzzyMatch content in
    let fuzzyOldText := NormalizeForFuzzyMatch oldText in
    let i := index fuzzyContent fuzzyOldText in
    if negb (i =? -1) then MkFuzzy true i (len fuzzyOldText) true fuzzyContent
    else MkFuzzy false (-1) 0 false content.

Definition countOccurrences (content oldText : text) : Z :=
  count (NormalizeForFuzzyMatch content) (NormalizeForFuzzyMatch oldText).

(** ** Applying edits *)

Fixpoint normalize_edits (i total : Z) (edits : list Edit) : result edit_error (list Edit) :=
  match edits with
  | [] => Ok []
  | e :: rest =>
      let old := NormalizeToLF (OldText e) in
      if bool_decide (old = []) then Err (EmptyOldText i total)
      else
        rest ← normalize_edits (i + 1) total rest;
        Ok (MkEdit old (NormalizeToLF (NewText e)) :: rest)
  end.

Fixpoint match_edits (base : text) (i total : Z) (edits : list Edit) : result edit_error (list matchedEdit) :=
  match edits with
  | [] => Ok []
  | e :: rest =>
      let m := FuzzyFindText base (OldText e) in
      if negb (Found m) then Err (NotFound i total)
      else
        let occ := countOccurrences base (OldText e) in
        if 1 <? occ then Err (Duplicate i total occ)
        else
          rest ← match_edits base (i + 1) total rest;
          Ok (MkMatch i (Index m) (MatchLength m) (NewText e) :: rest)
  end.

Fixpoint check_overlap (matched : list matchedEdit) : result edit_error unit :=
  match matched with
  | prev :: ((cur :: _) as rest) =>
      if matchIndex cur <? matchIndex prev + matchLength prev then Err (Overlap (editIndex prev) (editIndex cur))
      else check_overlap rest
  | _ => Ok tt
  end.

Definition ApplyEditsToNormalizedContent (normalizedContent : text) (edits : list Edit)
    : result edit_error AppliedEditsResult :=
  let total := len edits in
  normalized ← normalize_edits 0 total edits;
  let anyFuzzy := existsb (fun e => UsedFuzzyMatch (FuzzyFindText normalizedContent (OldText e))) normalized in
  let replacementBase := if anyFuzzy then NormalizeForFuzzyMatch normalizedContent else normalizedContent in
  matched ← match_edits replacementBase 0 total normalized;
  let matched := sort_matches matched in
  _ ← check_overlap matched;
  newContent ← (if anyFuzzy
                then ApplyReplacementsPreservingUnchangedLines normalizedContent replacementBase matched
                else applyReplacements replacementBase matched 0);
  if bool_decide (normalizedContent = newContent) then Err (NoChange total)
  else Ok {| BaseContent := normalizedContent; NewContent := newContent |}.
End Fuzzy.

(** ** Specification of replacing *)

(** [edited a b es]: [b] is [a] with the texts [es.1] replaced, from left to
    right, by [es.2]. *)
Inductive edited : text -> text -> list (text * text) -> Prop :=
| edited_nil s : edited s s []
| edited_cons pre old new s s' es :
    edited s s' es -> edited (pre ++ old ++ s) (pre ++ new ++ s') ((old, new) :: es).

(** The replacements are in order, apart, and inside [lo, hi]. *)
Fixpoint chain (lo hi : Z) (ms : list matchedEdit) : Prop :=
  match ms with
  | [] => lo <= hi
  | m :: rest => lo <= matchIndex m /\ 0 <= matchLength m /\ chain (matchIndex m + matchLength m) hi rest
  end.

Definition slice (s : text) (i n : Z) : text := take (Z.to_nat n) (drop (Z.to_nat i) s).

(** What a replacement takes out of [s] and puts in. *)
Definition change_of (s : text) (m : matchedEdit) : text * text := (slice s (matchIndex m) (matchLength m), mnewText m).

Lemma edited_prefix p a b es : edited a b es -> edited (p ++ a) (p ++ b) es.
Proof.
  intros H. destruct H as [s|pre old new s s' es H]; [constructor|].
  rewrite !(app_assoc p). by constructor.
Qed.

Lemma chain_le lo hi ms : chain lo hi ms -> lo <= hi.
Proof.
  revert lo. induction ms as [|m ms IH]; intros lo; simpl; [done|]. intros (H1 & H2 & H3). apply IH in H3. lia.
Qed.

Lemma apply_backward_app c l1 l2 off :
  apply_backward c (l1 ++ l2) off = x ← apply_backward c l1 off; apply_backward x l2 off.
Proof.
  revert c. induction l1 as [|m l1 IH]; intros c; simpl; [done|].
  destruct (splice_at c (matchIndex m - off) (matchLength m) (mnewText m)); simpl; [apply IH|done].
Qed.

Lemma take_slice (s : text) i n k :
  (i + n <= k <= length s)%nat -> take n (drop i (take k s)) = take n (drop i s).
Proof.
  intros H. rewrite <- (take_drop k s) at 2. rewrite drop_app_le by (rewrite length_take; lia).
  rewrite take_app_le; [done|]. rewrite length_drop, length_take. lia.
Qed.

Lemma split3 (s : text) i n k :
  (i + n <= k <= length s)%nat ->
  s = take i s ++ take n (drop i s) ++ drop (i + n) (take k s) ++ drop k s.
Proof.
  intros H. rewrite <- (take_drop i s) at 1. f_equal. rewrite <- (take_drop n (drop i s)) at 1. f_equal.
  rewrite drop_drop. rewrite <- (take_drop k s) at 1. rewrite drop_app_le by (rewrite length_take; lia). done.
Qed.

(** Applying replacements from the last to the first is replacing each text
    where it stands. *)
Lemma apply_chain s ms off lo :
  0 <= lo -> chain (lo + off) (len s + off) ms ->
  exists x, apply_backward s (rev ms) off = Ok (take (Z.to_nat lo) s ++ x)
    /\ edited (drop (Z.to_nat lo) s) x
         ((fun m => (slice s (matchIndex m - off) (matchLength m), mnewText m)) <$> ms).
Proof.
  revert lo. induction ms as [|m ms IH]; intros lo Hlo Hch.
  { exists (drop (Z.to_nat lo) s). simpl. rewrite take_drop. split; [done|constructor]. }
  simpl in Hch. destruct Hch as (H1 & H2 & H3). pose proof (chain_le _ _ _ H3) as Hle.
  destruct (IH (matchIndex m + matchLength m - off)) as (x & Hx & Hed); [lia|by replace (matchIndex m + matchLength m - off + off) with (matchIndex m + matchLength m) by lia|].
  cbn [rev]. rewrite apply_backward_app, Hx. cbn [mbind result_bind apply_backward].
  set (i := Z.to_nat (matchIndex m - off)) in *. set (n := Z.to_nat (matchLength m)) in *.
  set (k := Z.to_nat (matchIndex m + matchLength m - off)) in *.
  assert (Hk : k = (i + n)%nat) by (unfold k, i, n; lia).
  assert (Hkl : (k <= length s)%nat) by (unfold k, len in *; lia).
  assert (Hlk : len (take k s) = Z.of_nat k) by (unfold len; rewrite length_take; lia).
  unfold splice_at. rewrite len_app, Hlk. pose proof (len_nonneg x).
  assert ((0 <=? matchIndex m - off) && (matchIndex m - off <=? Z.of_nat k + len x)
    && (matchIndex m - off + matchLength m <=? Z.of_nat k + len x) && (0 <=? matchIndex m - off + matchLength m) = true) as ->.
  { rewrite !andb_true_iff, !Z.leb_le. unfold k. lia. }
  cbn [mbind result_bind apply_backward]. fold i.
  replace (Z.to_nat (matchIndex m - off + matchLength m)) with k by (unfold k; lia).
  rewrite take_app_le by (rewrite length_take; lia). rewrite take_take, Nat.min_l by lia.
  rewrite drop_app_ge by (rewrite length_take; lia). rewrite length_take, Nat.min_l, Nat.sub_diag, drop_0 by lia.
  assert (Hli : (Z.to_nat lo <= i)%nat) by (unfold i; lia).
  exists (drop (Z.to_nat lo) (take i s) ++ mnewText m ++ x). split.
  - assert (Htk : take (Z.to_nat lo) (take i s) = take (Z.to_nat lo) s) by (rewrite take_take, Nat.min_l by lia; done).
    by rewrite (app_assoc (take (Z.to_nat lo) s)), <- Htk, take_drop.
  - rewrite fmap_cons. unfold slice at 1. fold i n.
    assert (Hd : drop (Z.to_nat lo) s = drop (Z.to_nat lo) (take i s) ++ take n (drop i s) ++ drop k s).
    { rewrite (split3 s i n k) at 1 by lia. rewrite drop_app_le by (rewrite length_take; lia). do 2 f_equal.
      rewrite drop_ge by (rewrite length_take; lia). done. }
    rewrite Hd. by constructor.
Qed.

Lemma applyReplacements_edited s ms off :
  chain off (len s + off) ms ->
  exists x, applyReplacements s ms off = Ok x
    /\ edited s x ((fun m => (slice s (matchIndex m - off) (matchLength m), mnewText m)) <$> ms).
Proof. intros H. destruct (apply_chain s ms off 0) as (x & Hx & He); [lia|done|]. by exists x. Qed.

(** ** Lines and their spans *)

Lemma find_byte_Some c s j : find_byte c s = Some j -> exists a b, s = a ++ c :: b /\ length a = j /\ c ∉ a.
Proof.
  revert j. induction s as [|x s IH]; intros j; simpl; [done|].
  destruct (Ascii.eqb_spec x c) as [->|Hne].
  - intros [= <-]. exists [], s. split_and!; [done|done|set_solver].
  - destruct (find_byte c s) as [k|]; [|done]. intros [= <-].
    destruct (IH k eq_refl) as (a & b & -> & <- & Hn). exists (x :: a), b. split_and!; [done|done|set_solver].
Qed.

Lemma find_byte_None c s : find_byte c s = None -> c ∉ s.
Proof.
  induction s as [|x s IH]; simpl; [set_solver|]. destruct (Ascii.eqb_spec x c); [done|].
  destruct (find_byte c s); [done|]. set_solver.
Qed.

(** A line: at least one byte, a newline at its end or nowhere. *)
Definition line_like (l : text) : Prop := l <> [] /\ newline ∉ removelast l.

Lemma split_lines_spec fuel s :
  (length s <= fuel)%nat -> concat (split_lines fuel s) = s /\ Forall line_like (split_lines fuel s).
Proof.
  revert s. induction fuel as [|fuel IH]; intros [|c s] Hf; [done|simpl in Hf; lia|done|].
  cbn [split_lines]. destruct (find_byte newline (c :: s)) as [j|] eqn:E.
  - apply find_byte_Some in E as (a & b & Hs & Hj & Hn). rewrite Hs.
    assert (Ht : take (j + 1) (a ++ newline :: b) = a ++ [newline]).
    { rewrite cons_middle, app_assoc. rewrite <- Hj. replace (length a + 1)%nat with (length (a ++ [newline])) by (by rewrite length_app).
      apply take_app_length. }
    assert (Hd : drop (j + 1) (a ++ newline :: b) = b).
    { rewrite cons_middle, app_assoc. rewrite <- Hj. replace (length a + 1)%nat with (length (a ++ [newline])) by (by rewrite length_app).
      apply drop_app_length. }
    rewrite Ht, Hd. destruct (IH b) as [H1 H2].
    { apply (f_equal length) in Hs. rewrite length_app in Hs. simpl in *. lia. }
    cbn [concat]. rewrite H1. split; [by rewrite <- app_assoc|]. constructor; [|done].
    split; [by destruct a|]. by rewrite removelast_last.
  - simpl. rewrite app_nil_r. split; [done|]. constructor; [|done]. split; [done|].
    apply find_byte_None in E. intros Hin. apply E.
    rewrite (app_removelast_last newline (l := c :: s)) by done. set_solver.
Qed.

Lemma concat_lines s : concat (splitLinesWithEndings s) = s.
Proof. by apply split_lines_spec. Qed.

Lemma spans_lookup off lines i sp :
  spans_from off lines !! i = Some sp ->
  lstart sp = off + len (concat (take i lines)) /\ lend sp = off + len (concat (take (S i) lines)).
Proof.
  revert off i. induction lines as [|l lines IH]; intros off [|i] Hi; simpl in Hi; try done.
  - injection Hi as <-. cbn [lstart lend]. rewrite firstn_cons, !take_0. cbn [concat]. rewrite app_nil_r.
    unfold len. simpl. lia.
  - destruct (IH _ _ Hi) as [-> ->]. rewrite !firstn_cons. cbn [concat]. rewrite !len_app. lia.
Qed.

Lemma spans_length off lines : length (spans_from off lines) = length lines.
Proof. revert off. induction lines as [|l lines IH]; intros off; simpl; [done|]. by rewrite IH. Qed.

Lemma concat_take_mono (lines : list text) i j : (i <= j)%nat -> len (concat (take i lines)) <= len (concat (take j lines)).
Proof.
  intros Hij. rewrite <- (take_drop i (take j lines)), take_take, Nat.min_l by lia.
  rewrite concat_app, len_app. pose proof (len_nonneg (concat (drop i (take j lines)))). lia.
Qed.

Lemma find_line_spec p i0 lines i :
  find_line p i0 lines = Some i ->
  exists sp, (i0 <= i)%nat /\ lines !! (i - i0)%nat = Some sp /\ lstart sp <= p < lend sp.
Proof.
  revert i0. induction lines as [|l lines IH]; intros i0; simpl; [done|].
  destruct (_ && _) eqn:E.
  - intros [= <-]. exists l. rewrite Nat.sub_diag. apply andb_true_iff in E. split_and!; [done..|lia|lia].
  - intros Hf. destruct (IH _ Hf) as (sp & Hi & Hl & Hb). exists sp.
    replace (i - i0)%nat with (S (i - S i0)) by lia. split_and!; [lia|done|lia|lia].
Qed.

Lemma find_end_spec q e0 lines e :
  find_end q e0 lines = Some e ->
  (e0 <= e)%nat /\ (exists sp, lines !! (e - e0)%nat = Some sp /\ q <= lend sp)
  /\ forall j sp, (j < e - e0)%nat -> lines !! j = Some sp -> lend sp < q.
Proof.
  revert e0. induction lines as [|l lines IH]; intros e0; simpl; [done|].
  destruct (Z.ltb_spec (lend l) q) as [Hlt|Hge].
  - intros Hf. destruct (IH _ Hf) as (Hi & (sp & Hl & Hb) & Hall). split_and!; [lia| |].
    + exists sp. replace (e - e0)%nat with (S (e - S e0)) by lia. done.
    + intros [|j] sp' Hj Hsp; simpl in Hsp; [by injection Hsp as <-|]. apply (Hall j); [lia|done].
  - intros [= <-]. split_and!; [done| |lia]. exists l. by rewrite Nat.sub_diag.
Qed.

(** Line [l] of the spans meets the replacement. *)
Definition touches (lines : list lineSpan) (l : nat) (m : matchedEdit) : Prop :=
  exists sp, lines !! l = Some sp /\ matchIndex m < lend sp
    /\ (lstart sp <= matchIndex m \/ lstart sp < matchIndex m + matchLength m).

Lemma line_range_spec lines m s e :
  getReplacementLineRange (spans_from 0 lines) m = Ok (s, e) -> 0 <= matchLength m ->
  (s < e)%nat
  /\ (exists sp, spans_from 0 lines !! s = Some sp /\ lstart sp <= matchIndex m)
  /\ (exists sp, spans_from 0 lines !! (e - 1)%nat = Some sp /\ matchIndex m + matchLength m <= lend sp)
  /\ forall l, (s <= l < e)%nat -> touches (spans_from 0 lines) l m.
Proof.
  unfold getReplacementLineRange. intros Hr Hml.
  destruct (find_line (matchIndex m) 0 (spans_from 0 lines)) as [s'|] eqn:Es; [|done].
  destruct (find_end _ s' _) as [e'|] eqn:Ee; [|done]. injection Hr as -> <-.
  apply find_line_spec in Es as (sp & _ & Hsp & Hb). rewrite Nat.sub_0_r in Hsp.
  apply find_end_spec in Ee as (Hse & (spe & Hspe & Hbe) & Hall).
  rewrite lookup_drop in Hspe. replace (s + (e' - s))%nat with e' in Hspe by lia.
  split_and!; [lia|by exists sp; split; [|lia]|exists spe; replace (S e' - 1)%nat with e' by lia; done|].
  intros l Hl. assert (Hlt : (l < length (spans_from 0 lines))%nat).
  { apply lookup_lt_Some in Hspe. lia. }
  apply lookup_lt_is_Some in Hlt as [spl Hspl]. exists spl. split; [done|].
  pose proof (spans_lookup _ _ _ _ Hspl) as [L1 L2]. pose proof (spans_lookup _ _ _ _ Hsp) as [S1 S2].
  pose proof (concat_take_mono lines (S s) (S l)). split; [lia|].
  destruct (decide (l = s)) as [->|Hne]; [left; rewrite Hsp in Hspl; injection Hspl as <-; lia|right].
  assert (Hprev : (l - 1 < length (spans_from 0 lines))%nat) by (apply lookup_lt_Some in Hspl; lia).
  apply lookup_lt_is_Some in Hprev as [spp Hspp].
  assert (lend spp < matchIndex m + matchLength m).
  { apply (Hall (l - 1 - s)%nat); [lia|]. rewrite lookup_drop. by replace (s + (l - 1 - s))%nat with (l - 1)%nat by lia. }
  pose proof (spans_lookup _ _ _ _ Hspp) as [P1 P2]. replace (S (l - 1)) with l in P2 by lia. lia.
Qed.

(** ** Groups of replacements *)

Section Groups.
Variable B : list text.
Let bl := spans_from 0 B.

(** The lines of a group are exactly those its replacements touch, and the
    replacements lie inside them up to [pos]. *)
Definition group_upto (pos : Z) (g : group) : Prop :=
  exists sl el, bl !! startLine g = Some sl /\ bl !! (endLine g - 1)%nat = Some el
    /\ (startLine g < endLine g)%nat /\ replacements g <> []
    /\ chain (lstart sl) pos (replacements g) /\ pos <= lend el
    /\ forall l, (startLine g <= l < endLine g)%nat -> exists m, m ∈ replacements g /\ touches bl l m.

(** Groups on increasing, separate line ranges from line [i]. *)
Fixpoint groups_from (i : nat) (gs : list group) : Prop :=
  match gs with
  | [] => True
  | g :: gs' => (i <= startLine g)%nat /\ (exists pos, group_upto pos g) /\ groups_from (endLine g) gs'
  end.

Definition end_of (i : nat) (gs : list group) : nat := match last gs with Some g => endLine g | None => i end.

Lemma groups_from_snoc i gs g :
  groups_from i (gs ++ [g]) <-> groups_from i gs /\ (end_of i gs <= startLine g)%nat /\ exists pos, group_upto pos g.
Proof.
  revert i. induction gs as [|h gs IH]; intros i; [unfold end_of; simpl; tauto|].
  cbn [app groups_from]. rewrite IH. unfold end_of. destruct gs as [|k gs]; [simpl; tauto|].
  rewrite last_cons_cons. destruct (last (k :: gs)) eqn:El; [tauto|]. by apply last_None in El.
Qed.

Lemma chain_snoc lo hi ms m :
  chain lo hi ms -> hi <= matchIndex m -> 0 <= matchLength m -> chain lo (matchIndex m + matchLength m) (ms ++ [m]).
Proof.
  revert lo. induction ms as [|x ms IH]; intros lo; simpl; [intros; split_and!; lia|].
  intros (H1 & H2 & H3) Hm Hl. split_and!; auto.
Qed.

Lemma chain_weaken lo hi hi' ms : chain lo hi ms -> hi <= hi' -> chain lo hi' ms.
Proof. revert lo. induction ms as [|x ms IH]; intros lo; simpl; [lia|]. naive_solver. Qed.

Lemma lend_mono i j spi spj : bl !! i = Some spi -> bl !! j = Some spj -> (i <= j)%nat -> lend spi <= lend spj.
Proof.
  intros Hi Hj Hij. apply spans_lookup in Hi as [_ ->]. apply spans_lookup in Hj as [_ ->].
  pose proof (concat_take_mono B (S i) (S j)). lia.
Qed.

(** The groups built so far, the one being extended first. *)
Definition building (pos : Z) (groups : list group) : Prop :=
  match groups with
  | [] => True
  | g :: gs => groups_from 0 (rev gs) /\ (end_of 0 (rev gs) <= startLine g)%nat /\ group_upto pos g
  end.

Lemma new_group m s e :
  getReplacementLineRange bl m = Ok (s, e) -> 0 <= matchLength m ->
  group_upto (matchIndex m + matchLength m) (MkGroup s e [m]).
Proof.
  intros Hr Hml. apply line_range_spec in Hr as (Hse & (sl & Hsl & Hlo) & (el & Hel & Hhi) & Htouch); [|done].
  exists sl, el. simpl. split_and!; [done..|lia|lia|done|]. intros l Hl. exists m. split; [set_solver|auto].
Qed.

Lemma extend_group pos g m s e :
  group_upto pos g -> getReplacementLineRange bl m = Ok (s, e) -> pos <= matchIndex m -> 0 <= matchLength m ->
  (s < endLine g)%nat ->
  group_upto (matchIndex m + matchLength m)
    (MkGroup (startLine g) (if (endLine g <? e)%nat then e else endLine g) (replacements g ++ [m])).
Proof.
  intros (sl & el & Hsl & Hel & Hse & Hne & Hch & Hpos & Htouch) Hr Hm Hml Hlt.
  apply line_range_spec in Hr as (Hse' & (sl' & Hsl' & Hlo') & (el' & Hel' & Hhi') & Htouch'); [|done].
  destruct (Nat.ltb_spec (endLine g) e) as [Hgt|Hle].
  - exists sl, el'. simpl. split_and!; [done..|lia| |by eapply chain_snoc|done|]; [by destruct (replacements g)|].
    intros l Hl. destruct (decide (l < endLine g)%nat) as [Hin|Hout].
    + destruct (Htouch l) as (x & Hx & Ht); [lia|]. exists x. split; [set_solver|done].
    + exists m. split; [set_solver|]. apply Htouch'. lia.
  - exists sl, el. simpl. split_and!; [done..| |by eapply chain_snoc| |]; [by destruct (replacements g)| |].
    + etrans; [exact Hhi'|]. eapply lend_mono; [exact Hel'|exact Hel|]. lia.
    + intros l Hl. destruct (Htouch l) as (x & Hx & Ht); [lia|]. exists x. split; [set_solver|done].
Qed.

Lemma rev_reps (gs : list group) g :
  concat (replacements <$> rev (g :: gs)) = concat (replacements <$> rev gs) ++ replacements g.
Proof. cbn [rev]. rewrite fmap_app, concat_app. simpl. by rewrite app_nil_r. Qed.

Lemma make_groups_spec ms groups pos hi groups' :
  chain pos hi ms -> building pos groups -> make_groups bl ms groups = Ok groups' ->
  groups_from 0 (rev groups')
  /\ concat (replacements <$> rev groups') = concat (replacements <$> rev groups) ++ ms.
Proof.
  revert groups pos. induction ms as [|m ms IH]; intros groups pos Hch Hb Hm; cbn [make_groups] in Hm.
  - injection Hm as <-. rewrite app_nil_r. split; [|done]. destruct groups as [|g gs]; [done|].
    cbn [rev]. destruct Hb as (H1 & H2 & H3). apply groups_from_snoc. eauto.
  - simpl in Hch. destruct Hch as (H1 & H2 & H3).
    destruct (getReplacementLineRange bl m) as [[s e]|] eqn:Er; [|done]. cbn [mbind result_bind] in Hm.
    destruct groups as [|g gs].
    + apply (IH _ (matchIndex m + matchLength m)) in Hm as [G1 G2]; [|done|].
      * split; [done|]. rewrite G2. simpl. done.
      * simpl. split_and!; [done|unfold end_of; simpl; lia|by apply new_group].
    + destruct Hb as (B1 & B2 & B3). destruct (Nat.ltb_spec s (endLine g)) as [Hlt|Hge].
      * apply (IH _ (matchIndex m + matchLength m)) in Hm as [G1 G2]; [|done|].
        -- split; [done|]. rewrite G2, !rev_reps. simpl. by rewrite <- !app_assoc.
        -- split_and!; [done|done|]. by eapply extend_group.
      * apply (IH _ (matchIndex m + matchLength m)) in Hm as [G1 G2]; [|done|].
        -- split; [done|]. rewrite G2, !rev_reps. simpl. by rewrite <- !app_assoc.
        -- split_and!; [cbn [rev]; apply groups_from_snoc; eauto| |by apply new_group].
           cbn [rev]. unfold end_of. by rewrite last_snoc.
Qed.
End Groups.

(** ** Weaving *)

(** Lines [i] up to [j]. *)
Definition lines_between {A} (L : list A) (i j : nat) : list A := take (j - i) (drop i L).

(** [out] is the lines of [O] from line [i] on, verbatim, except for separate
    line ranges, each of which is the lines of [B] there with replacements
    made, and each line of which is touched by one of them. *)
Inductive woven (O B : list text) : nat -> text -> list matchedEdit -> Prop :=
| woven_end i : woven O B i (concat (drop i O)) []
| woven_group i s e x rest ms ms' :
    (i <= s < e)%nat -> (e <= length O)%nat -> ms <> [] ->
    edited (concat (lines_between B s e)) x (change_of (concat B) <$> ms) ->
    (forall l, (s <= l < e)%nat -> exists m, m ∈ ms /\ touches (spans_from 0 B) l m) ->
    woven O B e rest ms' ->
    woven O B i (concat (lines_between O i s) ++ x ++ rest) (ms ++ ms').

Lemma slice_lines (B : list text) s e :
  (s <= e)%nat ->
  slice (concat B) (len (concat (take s B))) (len (concat (take e B)) - len (concat (take s B)))
  = concat (lines_between B s e).
Proof.
  intros Hse. unfold slice, lines_between. rewrite to_nat_len.
  assert (HB : concat B = concat (take s B) ++ concat (drop s B)) by (by rewrite <- concat_app, take_drop).
  assert (HE : concat (take e B) = concat (take s B) ++ concat (take (e - s) (drop s B))).
  { rewrite <- concat_app, take_take_drop. do 2 f_equal. lia. }
  rewrite HB, drop_app_length, HE, len_app.
  replace (len (concat (take s B)) + len (concat (take (e - s) (drop s B))) - len (concat (take s B)))
    with (len (concat (take (e - s) (drop s B)))) by lia.
  rewrite to_nat_len. rewrite <- (take_drop (e - s) (drop s B)) at 2. rewrite concat_app. apply take_app_length.
Qed.

Lemma slice_slice (s : text) a n i k :
  0 <= a -> 0 <= i -> 0 <= k -> i + k <= n -> slice (slice s a n) i k = slice s (a + i) k.
Proof.
  intros Ha Hi Hk Hn. unfold slice.
  replace (Z.to_nat (a + i)) with (Z.to_nat a + Z.to_nat i)%nat by lia. rewrite <- drop_drop.
  rewrite skipn_firstn_comm. rewrite take_take. f_equal. lia.
Qed.

Lemma chain_changes base lo n off ms :
  0 <= off -> chain lo (off + n) ms -> off <= lo ->
  (fun m => (slice (slice base off n) (matchIndex m - off) (matchLength m), mnewText m)) <$> ms
  = change_of base <$> ms.
Proof.
  intros Hoff. revert lo. induction ms as [|m ms IH]; intros lo Hch Hlo; [done|].
  simpl in Hch. destruct Hch as (H1 & H2 & H3). pose proof (chain_le _ _ _ H3).
  rewrite !fmap_cons. f_equal; [|apply (IH (matchIndex m + matchLength m)); [done|lia]].
  unfold change_of. rewrite slice_slice by lia. do 2 f_equal. lia.
Qed.

Lemma write_groups_spec (O B : list text) i gs :
  length O = length B -> (i <= length O)%nat -> groups_from B i gs ->
  exists out, write_groups O (spans_from 0 B) (concat B) i gs = Ok out
    /\ woven O B i out (concat (replacements <$> gs)).
Proof.
  intros HOB. revert i. induction gs as [|g gs IH]; intros i Hi Hgs; cbn [write_groups].
  { eexists. split; [done|]. constructor. }
  destruct Hgs as (Hs & (pos & sl & el & Hsl & Hel & Hse & Hne & Hch & Hpos & Htouch) & Hgs).
  rewrite Hsl, Hel.
  pose proof (spans_lookup _ _ _ _ Hsl) as [S1 _]. pose proof (spans_lookup _ _ _ _ Hel) as [_ E2].
  replace (S (endLine g - 1)) with (endLine g) in E2 by lia.
  assert (HeB : (endLine g <= length B)%nat).
  { apply lookup_lt_Some in Hel. rewrite spans_length in Hel. lia. }
  pose proof (len_nonneg (concat (take (startLine g) B))) as Hn0.
  pose proof (concat_take_mono B (startLine g) (endLine g) ltac:(lia)) as Hmono.
  fold (slice (concat B) (lstart sl) (lend el - lstart sl)).
  assert (Hslice : slice (concat B) (lstart sl) (lend el - lstart sl) = concat (lines_between B (startLine g) (endLine g))).
  { rewrite S1, E2, !Z.add_0_l. apply slice_lines. lia. }
  assert (Hlen : len (slice (concat B) (lstart sl) (lend el - lstart sl)) = lend el - lstart sl).
  { rewrite Hslice. unfold lines_between. rewrite S1, E2, !Z.add_0_l.
    assert (HE : concat (take (endLine g) B) = concat (take (startLine g) B) ++ concat (take (endLine g - startLine g) (drop (startLine g) B))).
    { rewrite <- concat_app, take_take_drop. do 2 f_equal. lia. }
    rewrite HE, len_app. lia. }
  destruct (applyReplacements_edited (slice (concat B) (lstart sl) (lend el - lstart sl)) (replacements g) (lstart sl))
    as (x & -> & Hed).
  { rewrite Hlen. eapply chain_weaken; [exact Hch|lia]. }
  cbn [mbind result_bind].
  destruct (IH (endLine g)) as (rest & -> & Hw); [lia|done|]. cbn [mbind result_bind].
  eexists. split; [done|]. rewrite fmap_cons. cbn [concat].
  apply (woven_group O B i (startLine g) (endLine g)); [lia|lia|done| |done|done].
  rewrite (chain_changes _ (lstart sl)) in Hed; [by rewrite <- Hslice|lia| |lia].
  eapply chain_weaken; [exact Hch|lia].
Qed.

Lemma insert_match_last m l : (forall x, x ∈ l -> matchIndex x <= matchIndex m) -> insert_match m l = l ++ [m].
Proof.
  induction l as [|x l IH]; intros Hl; simpl; [done|].
  destruct (Z.ltb_spec (matchIndex m) (matchIndex x)) as [Hlt|_].
  - specialize (Hl x ltac:(set_solver)). lia.
  - f_equal. apply IH. set_solver.
Qed.

(** Replacements in order are not moved by sorting. *)
Lemma sort_chain lo hi ms : chain lo hi ms -> sort_matches ms = ms.
Proof.
  unfold sort_matches. intros Hch.
  assert (Hg : forall acc, (forall x, x ∈ acc -> matchIndex x <= lo) -> fold_left (fun acc m => insert_match m acc) ms acc = acc ++ ms);
    [|by rewrite Hg by set_solver].
  revert lo Hch. induction ms as [|m ms IH]; intros lo Hch acc Hacc; simpl; [by rewrite app_nil_r|].
  simpl in Hch. destruct Hch as (H1 & H2 & H3).
  rewrite insert_match_last by (intros x Hx; specialize (Hacc x Hx); lia).
  rewrite (IH _ H3); [by rewrite <- app_assoc|].
  intros x [Hx|Hx%list_elem_of_singleton]%elem_of_app; [specialize (Hacc x Hx); lia|]. subst. lia.
Qed.

Lemma preserved_lines originalContent baseContent matches out :
  chain 0 (len baseContent) matches ->
  ApplyReplacementsPreservingUnchangedLines originalContent baseContent matches = Ok out ->
  woven (splitLinesWithEndings originalContent) (splitLinesWithEndings baseContent) 0 out matches.
Proof.
  intros Hch. unfold ApplyReplacementsPreservingUnchangedLines, getLineSpans.
  set (B := splitLinesWithEndings baseContent). rewrite (sort_chain _ _ _ Hch).
  destruct (Nat.eqb_spec (length (splitLinesWithEndings originalContent)) (length (spans_from 0 B))) as [Hlen|]; [|done].
  rewrite spans_length in Hlen. cbn [negb].
  destruct (make_groups (spans_from 0 B) matches []) as [groups|] eqn:Eg; [|done]. cbn [mbind result_bind].
  destruct (make_groups_spec B matches [] 0 (len baseContent) groups) as [G1 G2]; [done|done|done|].
  destruct (write_groups_spec (splitLinesWithEndings originalContent) B 0 (rev groups)) as (x & Hx & Hw); [done|lia|done|].
  assert (HB : concat B = baseContent) by apply concat_lines. rewrite HB in Hx. rewrite Hx.
  intros [= <-]. by rewrite G2 in Hw.
Qed.

(** ** Locating edits *)

Lemma index_found s p i :
  index s p = i -> i <> -1 -> 0 <= i /\ i + len p <= len s /\ slice s i (len p) = p.
Proof.
  unfold index. destruct (find_sub p s) as [k|] eqn:E; [|lia]. intros <- _.
  apply find_sub_Some in E as (t & Hs & Hl). split_and!; [lia|unfold len; lia|].
  unfold slice. rewrite Nat2Z.id, to_nat_len. rewrite Hs at 1.
  assert (length (take k s) = k) as Hk by (rewrite length_take; lia).
  rewrite <- Hk at 1. rewrite drop_app_length. apply take_app_length.
Qed.

Section Located.
Variable NFKC : text -> text.
Abbreviation norm := (NormalizeForFuzzyMatch NFKC) (only parsing).

(** [m] replaces [e]'s old text, or its normal form, where it stands in
    [base]. *)
Definition locates (base : text) (e : Edit) (m : matchedEdit) : Prop :=
  mnewText m = NewText e /\ 0 <= matchIndex m /\ 0 <= matchLength m /\ matchIndex m + matchLength m <= len base
  /\ (slice base (matchIndex m) (matchLength m) = OldText e
      \/ (find_sub (OldText e) base = None /\ slice base (matchIndex m) (matchLength m) = norm (OldText e))).

Lemma match_edits_locates base i total edits ms :
  (norm base = base \/ forall e, e ∈ edits -> find_sub (OldText e) base <> None) ->
  match_edits NFKC base i total edits = Ok ms -> Forall2 (locates base) edits ms.
Proof.
  revert i ms. induction edits as [|e edits IH]; intros i ms Hor Hm; cbn [match_edits] in Hm.
  { injection Hm as <-. constructor. }
  destruct (Found (FuzzyFindText NFKC base (OldText e))) eqn:Ef; [|done]. cbn [negb] in Hm.
  destruct (1 <? countOccurrences NFKC base (OldText e)); [done|].
  destruct (match_edits NFKC base (i + 1) total edits) as [rest|] eqn:Er; [|done]. cbn [mbind result_bind] in Hm.
  injection Hm as <-. constructor; [|eapply IH; [|exact Er]; set_solver].
  unfold FuzzyFindText in *. destruct (Z.eqb_spec (index base (OldText e)) (-1)) as [Hn|Hy]; cbn [negb] in *.
  - assert (Hnone : find_sub (OldText e) base = None).
    { unfold index in Hn. destruct (find_sub (OldText e) base); [lia|done]. }
    destruct Hor as [Hid|Hall]; [|by specialize (Hall e ltac:(set_solver))].
    rewrite Hid in *. destruct (Z.eqb_spec (index base (norm (OldText e))) (-1)) as [|Hy]; [done|].
    cbn [negb Index MatchLength]. destruct (index_found base (norm (OldText e)) _ eq_refl Hy) as (H1 & H2 & H3).
    split_and!; cbn [mnewText matchIndex matchLength]; [done|lia|apply len_nonneg|lia|by right].
  - cbn [Index MatchLength]. destruct (index_found base (OldText e) _ eq_refl Hy) as (H1 & H2 & H3).
    split_and!; cbn [mnewText matchIndex matchLength]; [done|lia|apply len_nonneg|lia|by left].
Qed.

Lemma insert_match_perm m l : insert_match m l ≡ₚ m :: l.
Proof. induction l as [|x l IH]; simpl; [done|]. case_match; [done|]. rewrite IH. apply perm_swap. Qed.

Lemma sort_matches_perm l : sort_matches l ≡ₚ l.
Proof.
  unfold sort_matches. rewrite <- (app_nil_r l) at 2. generalize (@nil matchedEdit) as acc.
  induction l as [|m l IH]; intros acc; simpl; [done|]. rewrite IH, insert_match_perm. by rewrite Permutation_middle.
Qed.

Lemma check_overlap_chain lo hi ms :
  check_overlap ms = Ok tt -> match ms with [] => lo <= hi | m :: _ => lo <= matchIndex m end ->
  (forall m, m ∈ ms -> 0 <= matchLength m /\ matchIndex m + matchLength m <= hi) -> chain lo hi ms.
Proof.
  revert lo. induction ms as [|m ms IH]; intros lo Hc Hlo Hall; [done|].
  destruct (Hall m ltac:(set_solver)) as (H2 & H3). simpl. split_and!; [done..|].
  apply IH; [| |set_solver].
  - destruct ms as [|c ms]; [done|]. cbn [check_overlap] in Hc. by destruct (_ <? _) in Hc.
  - destruct ms as [|c ms]; [done|]. cbn [check_overlap] in Hc.
    by destruct (Z.ltb_spec (matchIndex c) (matchIndex m + matchLength m)) in Hc.
Qed.

Lemma located_chain base edits ms :
  Forall2 (locates base) edits ms -> check_overlap (sort_matches ms) = Ok tt ->
  chain 0 (len base) (sort_matches ms).
Proof.
  intros HF Hc.
  assert (Hall : forall m, m ∈ sort_matches ms -> 0 <= matchIndex m /\ 0 <= matchLength m /\ matchIndex m + matchLength m <= len base).
  { intros m Hm. rewrite sort_matches_perm in Hm. apply list_elem_of_lookup in Hm as [i Hi].
    destruct (Forall2_lookup_r _ _ _ _ _ HF Hi) as (e & _ & _ & H1 & H2 & H3 & _). done. }
  apply check_overlap_chain; [done| |intros m Hm; by destruct (Hall m Hm) as (_ & ? & ?)].
  destruct (sort_matches ms) as [|m l]; [apply len_nonneg|]. by destruct (Hall m ltac:(set_solver)).
Qed.

Lemma normalize_edits_spec i total edits ns :
  normalize_edits i total edits = Ok ns ->
  ns = (fun e => MkEdit (NormalizeToLF (OldText e)) (NormalizeToLF (NewText e))) <$> edits.
Proof.
  revert i ns. induction edits as [|e edits IH]; intros i ns Hn; cbn [normalize_edits] in Hn; [by injection Hn as <-|].
  case_bool_decide; [done|]. destruct (normalize_edits (i + 1) total edits) as [rest|] eqn:Er; [|done].
  cbn [mbind result_bind] in Hn. injection Hn as <-. by rewrite (IH _ _ Er).
Qed.

Lemma exact_changes base edits ms :
  Forall2 (locates base) edits ms -> (forall e, e ∈ edits -> find_sub (OldText e) base <> None) ->
  change_of base <$> ms = (fun e => (OldText e, NewText e)) <$> edits.
Proof.
  induction 1 as [|e m edits ms (H1 & _ & _ & _ & Hor) HF IH]; intros Hall; [done|].
  rewrite !fmap_cons. f_equal; [|apply IH; set_solver]. unfold change_of. rewrite H1.
  destruct Hor as [->|[Hn _]]; [done|]. by specialize (Hall e ltac:(set_solver)).
Qed.

(** An edit is refused for what is wrong with it: an empty old text, one that
    occurs twice, two that overlap, or nothing that changes. *)
Definition refused (e : edit_error) : Prop :=
  match e with EmptyOldText _ _ | Duplicate _ _ _ | Overlap _ _ | NoChange _ => True | _ => False end.

Lemma normalize_edits_refused i total edits e : normalize_edits i total edits = Err e -> refused e.
Proof.
  revert i. induction edits as [|x edits IH]; intros i; cbn [normalize_edits]; [done|]. case_bool_decide; [by intros [= <-]|].
  destruct (normalize_edits (i + 1) total edits) as [rest|] eqn:E; [done|]. intros [= ->]. by eapply IH.
Qed.

Lemma match_edits_refused base i total edits e :
  (forall x, x ∈ edits -> find_sub (OldText x) base <> None) -> match_edits NFKC base i total edits = Err e -> refused e.
Proof.
  revert i. induction edits as [|x edits IH]; intros i Hall; cbn [match_edits]; [done|].
  assert (Found (FuzzyFindText NFKC base (OldText x)) = true) as ->.
  { unfold FuzzyFindText, index. destruct (find_sub (OldText x) base) as [k|] eqn:Ek; [|by destruct (Hall x ltac:(set_solver))].
    destruct (Z.eqb_spec (Z.of_nat k) (-1)); [lia|done]. }
  cbn [negb]. destruct (1 <? countOccurrences NFKC base (OldText x)); [by intros [= <-]|].
  destruct (match_edits NFKC base (i + 1) total edits) as [rest|] eqn:E; [done|]. intros [= ->]. eapply IH; [set_solver|done].
Qed.

Lemma check_overlap_refused ms e : check_overlap ms = Err e -> refused e.
Proof.
  induction ms as [|m ms IH]; [done|]. destruct ms as [|c ms]; [done|]. cbn [check_overlap].
  destruct (matchIndex c <? matchIndex m + matchLength m); [by intros [= <-]|exact IH].
Qed.

(** C37: when every old text occurs in the content as it is, an edit either is
    refused for what is wrong with it, and no slice is ever out of range, or
    its result is the content with each old text replaced by its new text where
    it stands: the edits are a permutation of the given ones, in the order of
    their positions, none overlap, everything between them is kept, and the
    result differs from the content. *)
Theorem exact_edits_applied content edits :
  (forall e, e ∈ edits -> find_sub (NormalizeToLF (OldText e)) content <> None) ->
  match ApplyEditsToNormalizedContent NFKC content edits with
  | Err e => refused e
  | Ok r =>
      BaseContent r = content /\ NewContent r <> content
      /\ exists es, es ≡ₚ (fun e => (NormalizeToLF (OldText e), NormalizeToLF (NewText e))) <$> edits
           /\ edited content (NewContent r) es
  end.
Proof.
  intros Hall. unfold ApplyEditsToNormalizedContent.
  destruct (normalize_edits 0 (len edits) edits) as [ns|e] eqn:En; [|by eapply normalize_edits_refused]. cbn [mbind result_bind].
  apply normalize_edits_spec in En.
  assert (Hns : forall e, e ∈ ns -> find_sub (OldText e) content <> None).
  { intros e He. rewrite En in He. apply list_elem_of_fmap in He as (e0 & -> & He0). by apply Hall. }
  assert (Hfz : existsb (fun e => UsedFuzzyMatch (FuzzyFindText NFKC content (OldText e))) ns = false).
  { apply not_true_iff_false. intros (e & He & Hu)%existsb_exists. apply list_elem_of_In, Hns in He.
    unfold FuzzyFindText, index in Hu. destruct (find_sub (OldText e) content) as [k|]; [|done].
    destruct (Z.eqb_spec (Z.of_nat k) (-1)); [lia|done]. }
  rewrite Hfz. destruct (match_edits NFKC content 0 (len edits) ns) as [ms|e] eqn:Em; [|by eapply match_edits_refused]. cbn [mbind result_bind].
  apply match_edits_locates in Em; [|by right].
  destruct (check_overlap (sort_matches ms)) as [[]|e] eqn:Eo; [|by eapply check_overlap_refused]. cbn [mbind result_bind].
  pose proof (located_chain _ _ _ Em Eo) as Hch.
  destruct (applyReplacements_edited content (sort_matches ms) 0) as (x & -> & Hed); [by rewrite Z.add_0_r|].
  cbn [mbind result_bind]. case_bool_decide as Hne; [done|]. cbn [BaseContent NewContent].
  split_and!; [done|congruence|]. eexists. split; [|exact Hed].
  rewrite sort_matches_perm.
  assert (Hch' : (fun m => (slice content (matchIndex m - 0) (matchLength m), mnewText m)) <$> ms = change_of content <$> ms).
  { apply list_fmap_ext. intros _ m _. unfold change_of. by rewrite Z.sub_0_r. }
  rewrite Hch', (exact_changes _ _ _ Em Hns), En, <- list_fmap_compose. done.
Qed.

(** When some old text needs the fuzzy view, the result is the original
    with only the touched lines rewritten: every other line is kept verbatim,
    each touched range is the normalized lines with the replacements made, and
    what each replaces is an edit's old text or its normal form. *)
Theorem fuzzy_edits_applied content edits r :
  norm (norm content) = norm content ->
  (exists e, e ∈ edits /\ UsedFuzzyMatch (FuzzyFindText NFKC content (NormalizeToLF (OldText e))) = true) ->
  ApplyEditsToNormalizedContent NFKC content edits = Ok r ->
  BaseContent r = content /\ NewContent r <> content
  /\ exists ms ms', ms ≡ₚ ms'
       /\ woven (splitLinesWithEndings content) (splitLinesWithEndings (norm content)) 0 (NewContent r) ms
       /\ Forall2 (locates (norm content))
            ((fun e => MkEdit (NormalizeToLF (OldText e)) (NormalizeToLF (NewText e))) <$> edits) ms'.
Proof.
  intros Hid (e & He & Hu). unfold ApplyEditsToNormalizedContent.
  destruct (normalize_edits 0 (len edits) edits) as [ns|] eqn:En; [|done]. cbn [mbind result_bind].
  apply normalize_edits_spec in En.
  assert (Hfz : existsb (fun e => UsedFuzzyMatch (FuzzyFindText NFKC content (OldText e))) ns = true).
  { apply existsb_exists. exists (MkEdit (NormalizeToLF (OldText e)) (NormalizeToLF (NewText e))).
    split; [|done]. apply list_elem_of_In. rewrite En. apply list_elem_of_fmap. by exists e. }
  rewrite Hfz. destruct (match_edits NFKC (norm content) 0 (len edits) ns) as [ms|] eqn:Em; [|done]. cbn [mbind result_bind].
  apply match_edits_locates in Em; [|by left].
  destruct (check_overlap (sort_matches ms)) as [[]|] eqn:Eo; [|done]. cbn [mbind result_bind].
  pose proof (located_chain _ _ _ Em Eo) as Hch.
  destruct (ApplyReplacementsPreservingUnchangedLines content (norm content) (sort_matches ms)) as [x|] eqn:Ea; [|done].
  cbn [mbind result_bind]. case_bool_decide as Hne; [done|]. intros [= <-]. cbn [BaseContent NewContent].
  split_and!; [done|congruence|]. exists (sort_matches ms), ms.
  split_and!; [apply sort_matches_perm| |by rewrite <- En].
  by apply preserved_lines.
Qed.
End Located.

(** ** Line endings *)

(** A line without carriage return or newline. *)
Definition plain (l : text) : Prop := (cr ∉ l) /\ (newline ∉ l).

Lemma replace_skip c old new l s :
  c ∉ l -> replace_from (c :: old) new 0 (l ++ s) = l ++ replace_from (c :: old) new 0 s.
Proof.
  induction l as [|x l IH]; intros Hn; [done|]. cbn [app replace_from].
  assert (Hp : has_prefix (c :: old) (x :: l ++ s) = false).
  { simpl. destruct (Ascii.eqb_spec c x); [set_solver|done]. }
  rewrite Hp. f_equal. apply IH. set_solver.
Qed.

Lemma replace_skipn old new k s : replace_from old new k s = replace_from old new 0 (drop k s).
Proof. revert k. induction s as [|x s IH]; intros [|k]; simpl; try done. Qed.

Lemma replace_join c old new ls :
  Forall (fun l => c ∉ l) ls -> replace_all (join (c :: old) ls) (c :: old) new = join new ls.
Proof.
  unfold replace_all. induction ls as [|l ls IH]; intros HF; [done|]. inversion HF as [|?? Hl HF']; subst.
  destruct ls as [|l2 ls].
  - cbn [join]. rewrite <- (app_nil_r l) at 1. rewrite replace_skip by done. by rewrite app_nil_r.
  - change (join (c :: old) (l :: l2 :: ls)) with (l ++ (c :: old) ++ join (c :: old) (l2 :: ls)).
    change (join new (l :: l2 :: ls)) with (l ++ new ++ join new (l2 :: ls)).
    rewrite replace_skip by done. f_equal. cbn [app replace_from].
    assert (Hp : has_prefix (c :: old) (c :: old ++ join (c :: old) (l2 :: ls)) = true).
    { apply has_prefix_spec. by eexists. }
    rewrite Hp. f_equal. rewrite replace_skipn. cbn [length]. replace (S (length old) - 1)%nat with (length old) by lia.
    rewrite drop_app_length. by apply IH.
Qed.

Lemma replace_none c new s : c ∉ s -> replace_all s [c] new = s.
Proof.
  intros Hn. unfold replace_all. rewrite <- (app_nil_r s) at 1. rewrite replace_skip by done. by rewrite app_nil_r.
Qed.

Lemma join_not_in c sep ls : c ∉ sep -> Forall (fun l => c ∉ l) ls -> c ∉ join sep ls.
Proof.
  intros Hs. induction ls as [|l ls IH]; intros HF; [set_solver|]. inversion HF; subst.
  destruct ls as [|l2 ls]; [done|]. change (join sep (l :: l2 :: ls)) with (l ++ sep ++ join sep (l2 :: ls)).
  specialize (IH ltac:(done)). rewrite !elem_of_app. tauto.
Qed.

Lemma find_sub_skip c p l s : c ∉ l -> find_sub (c :: p) (l ++ s) = ((fun i => length l + i)%nat <$> find_sub (c :: p) s).
Proof.
  induction l as [|x l IH]; intros Hn; [simpl; by destruct (find_sub (c :: p) s)|].
  cbn [app find_sub]. assert (Hp : has_prefix (c :: p) (x :: l ++ s) = false).
  { simpl. destruct (Ascii.eqb_spec c x); [set_solver|done]. }
  rewrite Hp, IH by set_solver. by destruct (find_sub (c :: p) s).
Qed.

Lemma cr_newline : cr <> newline.
Proof. by vm_compute. Qed.

Lemma plain_forall ls : Forall plain ls -> Forall (fun l => cr ∉ l) ls /\ Forall (fun l => newline ∉ l) ls.
Proof. unfold plain. rewrite Forall_and. done. Qed.

Lemma normalize_plain_lf ls : Forall plain ls -> NormalizeToLF (join LF ls) = join LF ls.
Proof.
  intros [H1 H2]%plain_forall. unfold NormalizeToLF.
  assert (Hn : cr ∉ join LF ls).
  { apply join_not_in; [|done]. unfold LF. rewrite list_elem_of_singleton. apply cr_newline. }
  assert (Hcrlf : replace_all (join LF ls) CRLF LF = join LF ls).
  { unfold replace_all, CRLF. rewrite <- (app_nil_r (join LF ls)) at 1. rewrite replace_skip by done. by rewrite app_nil_r. }
  rewrite Hcrlf. by apply replace_none.
Qed.

Lemma normalize_plain_crlf ls : Forall plain ls -> NormalizeToLF (join CRLF ls) = join LF ls.
Proof.
  intros HF. pose proof (plain_forall _ HF) as [H1 H2]. unfold NormalizeToLF, CRLF. rewrite replace_join by done.
  apply replace_none. apply join_not_in; [|done]. unfold LF. rewrite list_elem_of_singleton. apply cr_newline.
Qed.

(** Editing keeps a file's line endings: for a file whose lines all end
    the same way, with LF or with CRLF, detecting the ending, normalizing to
    LF and restoring it gives the file back byte for byte; the normalized
    text is the lines joined with LF. *)
Theorem line_endings_roundtrip ls :
  Forall plain ls ->
  NormalizeToLF (join LF ls) = join LF ls /\ NormalizeToLF (join CRLF ls) = join LF ls
  /\ RestoreLineEndings (NormalizeToLF (join LF ls)) (DetectLineEnding (join LF ls)) = join LF ls
  /\ RestoreLineEndings (NormalizeToLF (join CRLF ls)) (DetectLineEnding (join CRLF ls)) = join CRLF ls.
Proof.
  intros HF. pose proof (plain_forall _ HF) as [H1 H2].
  rewrite (normalize_plain_lf _ HF), (normalize_plain_crlf _ HF). split_and!; [done|done| |].
  - assert (Hd : DetectLineEnding (join LF ls) = LF).
    { unfold DetectLineEnding. assert (Hi : index (join LF ls) CRLF = -1).
      { unfold index, CRLF. rewrite <- (app_nil_r (join LF ls)). rewrite find_sub_skip; [done|].
        apply join_not_in; [|done]. unfold LF. rewrite list_elem_of_singleton. apply cr_newline. }
      rewrite Hi. by destruct (index (join LF ls) LF =? -1). }
    rewrite Hd. done.
  - destruct ls as [|l [|l2 ls]]; [done| |].
    + assert (Hd : DetectLineEnding (join CRLF [l]) = LF).
      { unfold DetectLineEnding. assert (Hi : index (join CRLF [l]) LF = -1); [|by rewrite Hi].
        unfold index, LF. cbn [join]. rewrite <- (app_nil_r l). rewrite find_sub_skip; [done|]. by inversion H2. }
      rewrite Hd. done.
    + assert (Hd : DetectLineEnding (join CRLF (l :: l2 :: ls)) = CRLF).
      { inversion H1; subst. inversion H2; subst. unfold DetectLineEnding.
        change (join CRLF (l :: l2 :: ls)) with (l ++ CRLF ++ join CRLF (l2 :: ls)).
        set (t := join CRLF (l2 :: ls)).
        assert (Ha : index (l ++ CRLF ++ t) LF = len l + 1).
        { unfold index, LF. rewrite find_sub_skip by done. unfold CRLF. cbn. unfold len. lia. }
        assert (Hb : index (l ++ CRLF ++ t) CRLF = len l).
        { unfold index. change (find_sub CRLF (l ++ CRLF ++ t)) with (find_sub [cr; newline] (l ++ CRLF ++ t)).
          rewrite find_sub_skip by done. unfold CRLF. cbn. unfold len. lia. }
        rewrite Ha, Hb. pose proof (len_nonneg l). destruct (Z.eqb_spec (len l + 1) (-1)); [lia|].
        destruct (Z.eqb_spec (len l) (-1)); [lia|]. destruct (Z.ltb_spec (len l) (len l + 1)); [done|lia]. }
      rewrite Hd. unfold RestoreLineEndings. rewrite bool_decide_true by done. unfold LF. by apply replace_join.
Qed.

(** ** Applications *)

Definition demo_content : text := lit "let x = 1;" ++ [newline] ++ lit "let y = 2; " ++ [newline] ++ lit "end".
Definition demo_edits : list Edit := [MkEdit (lit "y = 2") (lit "y = 3"); MkEdit (lit "x") (lit "z")].

Lemma exact_edits_applied_witness :
  exists r, ApplyEditsToNormalizedContent (fun t => t) demo_content demo_edits = Ok r /\
    NewContent r = lit "let z = 1;" ++ [newline] ++ lit "let y = 3; " ++ [newline] ++ lit "end" /\
    exists es, es ≡ₚ (fun e => (NormalizeToLF (OldText e), NormalizeToLF (NewText e))) <$> demo_edits /\
      edited demo_content (NewContent r) es.
Proof.
  assert (forall e, e ∈ demo_edits -> find_sub (NormalizeToLF (OldText e)) demo_content <> None) as Hall.
  { intros e He. repeat (apply elem_of_cons in He as [->|He]; [vm_compute; discriminate|]). by apply elem_of_nil in He. }
  pose proof (exact_edits_applied (fun t => t) demo_content demo_edits Hall) as H.
  assert (match ApplyEditsToNormalizedContent (fun t => t) demo_content demo_edits with Ok r => NewContent r | Err _ => [] end =
    lit "let z = 1;" ++ [newline] ++ lit "let y = 3; " ++ [newline] ++ lit "end") as E by (vm_compute; reflexivity).
  destruct (ApplyEditsToNormalizedContent (fun t => t) demo_content demo_edits) as [r|e]; [|discriminate E].
  destruct H as (_ & _ & H). by exists r.
Defined.

(** The trailing space of the second line is ignored by the fuzzy match, and
    lines one and three are kept. *)
Definition demo_fuzzy : list Edit := [MkEdit (lit "let y = 2;" ++ [newline] ++ lit "e") (lit "E")].

Definition demo_result : AppliedEditsResult :=
  {| BaseContent := demo_content; NewContent := lit "let x = 1;" ++ [newline] ++ lit "End" |}.

Lemma fuzzy_edits_applied_witness :
  BaseContent demo_result = demo_content /\ NewContent demo_result <> demo_content
  /\ exists ms ms', ms ≡ₚ ms'
       /\ woven (splitLinesWithEndings demo_content)
            (splitLinesWithEndings (NormalizeForFuzzyMatch (fun t => t) demo_content)) 0 (NewContent demo_result) ms
       /\ Forall2 (locates (fun t => t) (NormalizeForFuzzyMatch (fun t => t) demo_content))
            ((fun e => MkEdit (NormalizeToLF (OldText e)) (NormalizeToLF (NewText e))) <$> demo_fuzzy) ms'.
Proof.
  apply (fuzzy_edits_applied (fun t => t) demo_content demo_fuzzy demo_result).
  - vm_compute. reflexivity.
  - exists (MkEdit (lit "let y = 2;" ++ [newline] ++ lit "e") (lit "E")). split; [set_solver|vm_compute; reflexivity].
  - vm_compute. reflexivity.
Defined.

Lemma line_endings_roundtrip_witness :
  let ls := [lit "a"; lit "b"] in
  NormalizeToLF (join LF ls) = join LF ls /\ NormalizeToLF (join CRLF ls) = join LF ls
  /\ RestoreLineEndings (NormalizeToLF (join LF ls)) (DetectLineEnding (join LF ls)) = join LF ls
  /\ RestoreLineEndings (NormalizeToLF (join CRLF ls)) (DetectLineEnding (join CRLF ls)) = join CRLF ls.
Proof.
  apply (line_endings_roundtrip [lit "a"; lit "b"]).
  apply Forall_cons; split; [|apply Forall_singleton]; split; unfold lit; cbn; rewrite list_elem_of_singleton; vm_compute; discriminate.
Defined.
