(* ===== verification/Promises.v ===== *)
(** * The promise ledger ([internal/promises/promises.go])

    Finalized speech of a recording is reviewed in batches by a model, whose
    operations add, update and withdraw promises; the ledger and the cursor
    of the recording are saved together.  [strings.ToLower] is a parameter;
    the model's reply, the outcome of saving, cancellation and the clock are
    arguments. *)

From stdpp Require Import sorting.
From S2P Require Import Prelude GoText.
From Stdlib Require Import Ascii.

(** ** Data *)

Record Evidence := {
  EvRecording : string;
  EvChunk : Z;
  EvQuote : text;
}.

Record Entry := MkEntry {
  ID : Z;
  Title : text;
  Details : text;
  Tags : list text;
  Withdrawn : bool;
  Created : Z;
  Updated : Z;
  EntryEvidence : list Evidence;
}.

Record Ledger := MkLedger {
  Entries : list Entry;
  Cursors : gmap string Z;
  LUpdated : Z;
}.

Record Failure := {
  FRecording : string;
  FMessage : text;
}.

(** [seen] holds the chunk count and the time it was first seen. *)
Record Store := MkStore {
  ledger : Ledger;
  file : option Ledger;
  working : bool;
  errs : list Failure;
  version : Z;
  seen : gmap string (Z * Z);
  retryAt : gmap string Z;
  failures : gmap string Z;
}.

Record chunk := MkChunk {
  Chunk : Z;
  CText : text;
}.

Record active := {
  AID : Z;
  ATitle : text;
  ADetails : text;
  ATags : list text;
}.

Record request := {
  ReqPromises : list active;
  TagsInUse : list text;
  OverlapChunks : list chunk;
  NewChunks : list chunk;
}.

Record operation := {
  Op : string;
  OpID : Z;
  OpTitle : text;
  OpDetails : text;
  OpTags : list text;
  OpChunk : Z;
  OpQuote : text;
}.

Record Recording := {
  RecID : string;
  Status : string;
  Finalized : list text;
}.

(** Durations and instants in nanoseconds. *)
Definition second : Z := 1000000000.
Definition settleTime : Z := 8 * second.
Definition batchSize : Z := 12.
Definition overlap : Z := 2.
Definition attempts : Z := 3.
Definition quoteLimit : Z := 280.
Definition backoff : list Z := [15 * second; 30 * second].
(** [time.Unix(1<<62, 0)] *)
Definition parked : Z := 2 ^ 62 * second.

Definition unix_milli (now : Z) : Z := now / 1000000.

Inductive perror :=
| PNoPromise (id : Z)
| PSave
| PReply
| PCancelled
| PEmptyAdd (i : Z)
| PNoActive (i id : Z)
| PUnknownOp (i : Z).

(** [transcript.WriteJSON]: a failure after the rename leaves the new file in
    place. *)
Inductive save_result := SaveOk | SaveFailed (replaced : bool).

Definition with_ledger (l : Ledger) (s : Store) : Store :=
  MkStore l (file s) (working s) (errs s) (version s) (seen s) (retryAt s) (failures s).
Definition with_file (f : option Ledger) (s : Store) : Store :=
  MkStore (ledger s) f (working s) (errs s) (version s) (seen s) (retryAt s) (failures s).
Definition with_status (w : bool) (e : list Failure) (s : Store) : Store :=
  MkStore (ledger s) (file s) w e (version s + 1) (seen s) (retryAt s) (failures s).
Definition with_seen (m : gmap string (Z * Z)) (s : Store) : Store :=
  MkStore (ledger s) (file s) (working s) (errs s) (version s) m (retryAt s) (failures s).
Definition with_retry (r f : gmap string Z) (s : Store) : Store :=
  MkStore (ledger s) (file s) (working s) (errs s) (version s) (seen s) r f.

(** [save] *)
Definition save (io : save_result) (l : Ledger) (s : Store) : Store * option perror :=
  match io with
  | SaveOk => (with_file (Some l) s, None)
  | SaveFailed true => (with_file (Some l) s, Some PSave)
  | SaveFailed false => (s, Some PSave)
  end.

(** [Open]: the file found, if any. *)
Definition emptyLedger : Ledger := MkLedger [] ∅ 0.

Definition Open (f : option Ledger) : Store := MkStore (default emptyLedger f) f false [] 0 ∅ ∅ ∅.

(** ** Editing entries *)

Definition set_withdrawn (w : bool) (now : Z) (e : Entry) : Entry :=
  MkEntry (ID e) (Title e) (Details e) (Tags e) w (Created e) now (EntryEvidence e).

Definition add_evidence (ev : list Evidence) (e : Entry) : Entry :=
  MkEntry (ID e) (Title e) (Details e) (Tags e) (Withdrawn e) (Created e) (Updated e) (EntryEvidence e ++ ev).

Definition set_text (t d : text) (g : list text) (now : Z) (e : Entry) : Entry :=
  MkEntry (ID e) t d g (Withdrawn e) (Created e) now (EntryEvidence e).

Definition with_entries (es : list Entry) (l : Ledger) : Ledger := MkLedger es (Cursors l) (LUpdated l).

(** [slices.IndexFunc(entries, func(e) bool { return e.ID == id })] *)
Definition index_of_id (id : Z) (es : list Entry) : option nat := fst <$> list_find (fun e => ID e = id) es.

Definition SetWithdrawn (io : save_result) (now id : Z) (withdrawn : bool) (s : Store) : Store * result perror Entry :=
  let next := ledger s in
  match index_of_id id (Entries next) with
  | None => (s, Err (PNoPromise id))
  | Some i =>
      match Entries next !! i with
      | None => (s, Err (PNoPromise id))
      | Some e =>
          if Bool.eqb (Withdrawn e) withdrawn then (s, Ok e)
          else
            let e' := set_withdrawn withdrawn (unix_milli now) e in
            let next := MkLedger (<[i := e']> (Entries next)) (Cursors next) (unix_milli now) in
            match save io next s with
            | (s, Some err) => (s, Err err)
            | (s, None) =>
                (MkStore next (file s) (working s) (errs s) (version s + 1) (seen s) (retryAt s) (failures s), Ok e')
            end
      end
  end.

Section Review.
Variable ToLower : text -> text.

(** [strings.Fields(s)]: the maximal runs of non-space runes. *)
Fixpoint fields_from (cur : text) (rs : list (Z * text)) : list text :=
  match rs with
  | [] => match cur with [] => [] | _ => [cur] end
  | (r, b) :: rest =>
      if is_space r then match cur with [] => fields_from [] rest | _ => cur :: fields_from [] rest end
      else fields_from (cur ++ b) rest
  end.

Definition fields (s : text) : list text := fields_from [] (runes s).

Definition squash (s : text) : text := join (lit " ") (fields s).

(** [string([]rune(s)[:n])] when [s] has more than [n] runes. *)
Definition clip_runes (n : Z) (s : text) : text :=
  if n <? len (runes s) then concat ((fun p => encode_rune p.1) <$> take (Z.to_nat n) (runes s)) else s.

(** A chunk that holds the needle. *)
Definition holds (needle : text) (c : chunk) : bool := contains (ToLower (squash (CText c))) needle.

Definition cite (op : operation) (chunks : list chunk) (recording : string) : list Evidence :=
  let quote := squash (OpQuote op) in
  let needle := ToLower quote in
  match needle with
  | [] => []
  | _ =>
      let quote := clip_runes quoteLimit quote in
      let pick named := List.find (fun c => Bool.eqb (Chunk c =? OpChunk op) named && holds needle c) chunks in
      match pick true with
      | Some c => [{| EvRecording := recording; EvChunk := Chunk c; EvQuote := quote |}]
      | None =>
          match pick false with
          | Some c => [{| EvRecording := recording; EvChunk := Chunk c; EvQuote := quote |}]
          | None => []
          end
      end
  end.

Fixpoint normalize_from (out : list text) (tags : list text) : list text :=
  match tags with
  | [] => out
  | tag :: rest =>
      let tag := ToLower (trim_space tag) in
      normalize_from (if bool_decide (tag ≠ [] /\ tag ∉ out) then out ++ [tag] else out) rest
  end.

Definition normalize (tags : list text) : list text := normalize_from [] tags.

(** [id = max(id, e.ID+1)] over the entries. *)
Definition next_id (es : list Entry) : Z := fold_left (fun id e => Z.max id (wrap (ID e + 1))) es 1.

Definition update_entry (op : operation) (ev : list Evidence) (now : Z) (e : Entry) : Entry :=
  let title := trim_space (OpTitle op) in
  let title := if bool_decide (title = []) then Title e else title in
  let details := trim_space (OpDetails op) in
  let details := if bool_decide (details = []) then Details e else details in
  let tags := normalize (OpTags op) in
  let tags := match tags with [] => Tags e | _ => tags end in
  add_evidence ev
    (if bool_decide (title ≠ Title e \/ details ≠ Details e \/ tags ≠ Tags e) then set_text title details tags now e else e).

Definition withdraw_entry (ev : list Evidence) (now : Z) (e : Entry) : Entry :=
  if Withdrawn e then e else add_evidence ev (set_withdrawn true now e).

Definition apply_op (chunks : list chunk) (recording : string) (now : Z) (es : list Entry) (op : operation) : list Entry :=
  let evidence := cite op chunks recording in
  if String.eqb (Op op) "add" then
    es ++ [MkEntry (next_id es) (trim_space (OpTitle op)) (trim_space (OpDetails op)) (normalize (OpTags op))
             false now now evidence]
  else
    match index_of_id (OpID op) es with
    | None => es
    | Some i =>
        if String.eqb (Op op) "update" then alter (update_entry op evidence now) i es
        else if String.eqb (Op op) "withdraw" then alter (withdraw_entry evidence now) i es
        else es
    end.

Definition apply (l : Ledger) (ops : list operation) (chunks : list chunk) (recording : string) (now : Z) : Ledger :=
  with_entries (fold_left (apply_op chunks recording now) ops (Entries l)) l.

(** ** Reviewing a batch *)

(** The chunks [lo] to [hi] of a recording, numbered. *)
Definition chunks_between (r : Recording) (lo hi : Z) : list chunk :=
  imap (fun i t => MkChunk (lo + Z.of_nat i) t)
    (take (Z.to_nat (hi - lo)) (drop (Z.to_nat lo) (Finalized r))).

Definition add_tags (inUse : list text) (e : Entry) : list text :=
  fold_left (fun acc tag => if bool_decide (tag ∈ acc) then acc else acc ++ [tag]) (Tags e) inUse.

Definition build_request (l : Ledger) (r : Recording) (done end_ : Z) : request :=
  {| ReqPromises := (fun e => {| AID := ID e; ATitle := Title e; ADetails := Details e; ATags := Tags e |})
                      <$> List.filter (fun e => negb (Withdrawn e)) (Entries l);
     TagsInUse := fold_left add_tags (Entries l) [];
     OverlapChunks := chunks_between r (Z.max 0 (done - overlap)) (Z.min done end_);
     NewChunks := chunks_between r (Z.max 0 done) end_ |}.

(** The validation of [review]: the index of the first bad operation. *)
Fixpoint validate_ops (req : request) (i : Z) (ops : list operation) : option perror :=
  match ops with
  | [] => None
  | op :: rest =>
      if String.eqb (Op op) "add" then
        (if bool_decide (trim_space (OpTitle op) = [] \/ trim_space (OpDetails op) = [])
         then Some (PEmptyAdd i) else validate_ops req (i + 1) rest)
      else if String.eqb (Op op) "update" || String.eqb (Op op) "withdraw" then
        (if existsb (fun a => AID a =? OpID op) (ReqPromises req) then validate_ops req (i + 1) rest
         else Some (PNoActive i (OpID op)))
      else Some (PUnknownOp i)
  end.

(** [reply] is what the model answered to the request, or that it failed. *)
Definition review (reply : request -> option (list operation)) (req : request) : result perror (list operation) :=
  match reply req with
  | None => Err PReply
  | Some ops => match validate_ops req 0 ops with Some e => Err e | None => Ok ops end
  end.

(** The text of an error, and the text shown when a recording is parked. *)
Variables message parked_message : perror -> text.

Definition fail (id : string) (msg : text) (s : Store) : Store :=
  with_status false
    (match list_find (fun f => FRecording f = id) (errs s) with
     | Some (i, _) => alter (fun f => {| FRecording := FRecording f; FMessage := msg |}) i (errs s)
     | None => errs s ++ [{| FRecording := id; FMessage := msg |}]
     end) s.

(** A call of [SetWithdrawn] by another goroutine. *)
Record withdraw_call := {
  wc_save : save_result;
  wc_now : Z;
  wc_id : Z;
  wc_withdrawn : bool;
}.

Definition run_calls (calls : list withdraw_call) (s : Store) : Store :=
  fold_left (fun s c => fst (SetWithdrawn (wc_save c) (wc_now c) (wc_id c) (wc_withdrawn c) s)) calls s.

(** The environment of one batch: the model, whether the context is done
    after the review and whether it is done later, when the batch returns,
    the outcome of saving, and the calls made while the model was
    answering. *)
Record batch_io := {
  bi_reply : request -> option (list operation);
  bi_cancelled : bool;
  bi_cancelled_late : bool;
  bi_save : save_result;
  bi_between : list withdraw_call;
}.

(** The ledger a reply produces. *)
Definition batch_ledger (l : Ledger) (ops : list operation) (r : Recording) (done end_ now : Z) : Ledger :=
  let l := apply l ops (chunks_between r (Z.max 0 done) end_) (RecID r) (unix_milli now) in
  MkLedger (Entries l) (<[RecID r := end_]> (Cursors l)) (unix_milli now).

Definition batch (io : batch_io) (r : Recording) (done now : Z) (s : Store) : Store * option perror :=
  let end_ := Z.min (len (Finalized r)) (done + batchSize) in
  let req := build_request (ledger s) r done end_ in
  let s := with_status true (errs s) s in
  let rev := review (bi_reply io) req in
  let s := run_calls (bi_between io) s in
  if bi_cancelled io then (with_status false (errs s) s, Some PCancelled)
  else match rev with
       | Err e => (fail (RecID r) (message e) s, Some e)
       | Ok ops =>
           let next := batch_ledger (ledger s) ops r done end_ now in
           match save (bi_save io) next s with
           | (s, Some e) => (fail (RecID r) (message e) s, Some e)
           | (s, None) =>
               (with_status false (List.filter (fun f => negb (String.eqb (FRecording f) (RecID r))) (errs s))
                  (with_ledger next s), None)
           end
       end.

(** ** One tick of the worker *)

Definition is_closed (r : Recording) : bool := String.eqb (Status r) "stopped" || String.eqb (Status r) "interrupted".

(** What [step] does with the outcome of a batch. *)
Definition settle_batch (cancelled : bool) (id : string) (now : Z) (s : Store) (err : option perror) : Store :=
  if cancelled then s
  else match err with
       | Some e =>
           let f := default 0 (failures s !! id) + 1 in
           if f <? attempts then
             with_retry (<[id := now + default 0 (backoff !! Z.to_nat (f - 1))]> (retryAt s)) (<[id := f]> (failures s)) s
           else
             fail id (parked_message e) (with_retry (<[id := parked]> (retryAt s)) (<[id := f]> (failures s)) s)
       | None => with_retry (base.delete id (retryAt s)) (base.delete id (failures s)) s
       end.

(** Over the marked recordings until one has a batch; [get] reads one. *)
Fixpoint step_from (io : batch_io) (get : string -> option Recording) (now : Z) (marked : list string) (s : Store) : Store :=
  match marked with
  | [] => s
  | id :: rest =>
      if match retryAt s !! id with Some at_ => now <? at_ | None => false end then step_from io get now rest s
      else match get id with
           | None => step_from io get now rest s
           | Some r =>
               let done := default 0 (Cursors (ledger s) !! id) in
               let n := len (Finalized r) in
               if n <=? done then step_from io get now rest s
               else
                 let s := match seen s !! id with
                          | Some (count, _) => if count =? n then s else with_seen (<[id := (n, now)]> (seen s)) s
                          | None => with_seen (<[id := (n, now)]> (seen s)) s
                          end in
                 let at_ := match seen s !! id with Some (_, at_) => at_ | None => 0 end in
                 if negb (is_closed r) && (n - done <? batchSize) && (now - at_ <? settleTime)
                 then step_from io get now rest s
                 else
                   let '(s, err) := batch io r done now s in
                   settle_batch (bi_cancelled io || bi_cancelled_late io) id now s err
           end
  end.

(** [items] are the headers of all pages, with their requirements mark. *)
Definition step (io : batch_io) (get : string -> option Recording) (now : Z) (items : list (string * bool)) (s : Store) : Store :=
  step_from io get now (fst <$> List.filter snd items) s.
End Review.

(** ** Entries evolve *)

(** What an operation at time [now] may do to an entry: its identity and
    creation time stay, it is never restored, its evidence only grows, and a
    visible change is stamped. *)
Record entry_evolves (now : Z) (e e' : Entry) : Prop := {
  ev_id : ID e' = ID e;
  ev_created : Created e' = Created e;
  ev_withdrawn : Withdrawn e = true -> Withdrawn e' = true;
  ev_evidence : EntryEvidence e `prefix_of` EntryEvidence e';
  ev_stamp : Updated e' = Updated e \/ Updated e' = now;
  ev_change : (Title e' <> Title e \/ Details e' <> Details e \/ Tags e' <> Tags e \/ Withdrawn e' <> Withdrawn e) ->
    Updated e' = now;
}.

Lemma entry_evolves_refl now e : entry_evolves now e e.
Proof. split; try done; [by left|tauto]. Qed.

Lemma entry_evolves_trans now a b c : entry_evolves now a b -> entry_evolves now b c -> entry_evolves now a c.
Proof.
  intros [A1 A2 A3 A4 A5 A6] [B1 B2 B3 B4 B5 B6]. split; [congruence|congruence|auto|by etrans| |].
  - destruct B5 as [->|]; auto.
  - intros Hd.
    destruct (decide (Title b = Title a /\ Details b = Details a /\ Tags b = Tags a /\ Withdrawn b = Withdrawn a))
      as [(H1 & H2 & H3 & H4)|Hn].
    + apply B6. rewrite H1, H2, H3, H4. done.
    + assert (Updated b = now).
      { apply A6. destruct (decide (Title b = Title a)); [right|by left].
        destruct (decide (Details b = Details a)); [right|by left].
        destruct (decide (Tags b = Tags a)); [right|by left]. intros Hw. by apply Hn. }
      destruct B5; congruence.
Qed.

(** Ledger entries keep their places; new ones are added at the end. *)
Definition entries_evolve (now : Z) (es es' : list Entry) : Prop :=
  exists kept new, es' = kept ++ new /\ Forall2 (entry_evolves now) es kept.

Lemma entries_evolve_refl now es : entries_evolve now es es.
Proof. exists es, []. rewrite app_nil_r. split; [done|]. apply Forall_Forall2_diag, Forall_true. apply entry_evolves_refl. Qed.

Lemma entries_evolve_trans now a b c : entries_evolve now a b -> entries_evolve now b c -> entries_evolve now a c.
Proof.
  intros (k1 & n1 & -> & F1) (k2 & n2 & -> & F2).
  apply Forall2_app_inv_l in F2 as (k3 & k4 & F3 & F4 & ->).
  exists k3, (k4 ++ n2). rewrite <- app_assoc. split; [done|].
  clear F4. revert k3 F3. induction F1 as [|x y l k Hxy F1 IH]; intros k3 F3; inversion F3; subst; constructor; eauto.
  by eapply entry_evolves_trans.
Qed.

(** Identifiers are positive and increase along the ledger. *)
Definition ids_ok (es : list Entry) : Prop :=
  StronglySorted Z.lt (ID <$> es) /\ Forall (fun e => 1 <= ID e) es.

Definition room (es : list Entry) (n : Z) : Prop := Forall (fun e => ID e + n < maxint) es.

Lemma wrap_succ z : 1 <= z -> z < maxint -> wrap (z + 1) = z + 1.
Proof. intros H1 H2. apply wrap_id. unfold in_int, minint, maxint in *. lia. Qed.

Lemma fold_max_ge es b : b <= fold_left (fun id e => Z.max id (wrap (ID e + 1))) es b.
Proof. revert b. induction es as [|y es IH]; intros b; simpl; [done|]. etrans; [|apply IH]. lia. Qed.

Lemma next_id_above es e : Forall (fun e => 1 <= ID e) es -> room es 0 -> e ∈ es -> ID e < next_id es.
Proof.
  unfold next_id. intros Hp Hr Hin.
  assert (H : forall b, ID e < fold_left (fun id e => Z.max id (wrap (ID e + 1))) es b); [|apply H].
  induction es as [|x es IH]; intros b; [set_solver|].
  inversion Hp as [|?? Hpx Hp']; subst. inversion Hr as [|?? Hx Hr']; subst. cbn [fold_left].
  apply elem_of_cons in Hin as [->|Hin]; [|by apply IH].
  eapply Z.lt_le_trans; [|apply fold_max_ge]. rewrite wrap_succ by lia. lia.
Qed.

Lemma next_id_pos es : 1 <= next_id es.
Proof.
  unfold next_id. assert (H : forall b, 1 <= b -> 1 <= fold_left (fun id e => Z.max id (wrap (ID e + 1))) es b); [|apply H; lia].
  induction es as [|x es IH]; intros b Hb; simpl; [done|]. apply IH. lia.
Qed.

Lemma next_id_bound es n : Forall (fun e => 1 <= ID e) es -> room es (n + 1) -> 0 <= n -> n + 1 < maxint - 1 -> next_id es + n < maxint.
Proof.
  intros Hp Hr Hn Hm. unfold next_id.
  assert (H : forall b, b + n < maxint -> fold_left (fun id e => Z.max id (wrap (ID e + 1))) es b + n < maxint); [|apply H; lia].
  induction es as [|x es IH]; intros b Hb; simpl; [done|].
  inversion Hp as [|?? Hx Hp']; subst. inversion Hr as [|?? Hrx Hr']; subst.
  apply IH; [done|done|]. rewrite wrap_succ by lia. lia.
Qed.

(** ** What an operation does *)

Section Apply.
Variable ToLower : text -> text.

(** Evidence an operation may bring: the quote was found, ignoring case and
    spacing, in the chunk it names. *)
Definition grounded (ops : list operation) (chunks : list chunk) (recording : string) (ev : Evidence) : Prop :=
  EvRecording ev = recording /\ exists c op, c ∈ chunks /\ op ∈ ops /\ Chunk c = EvChunk ev
    /\ ToLower (squash (OpQuote op)) <> [] /\ contains (ToLower (squash (CText c))) (ToLower (squash (OpQuote op))) = true
    /\ EvQuote ev = clip_runes quoteLimit (squash (OpQuote op)).

Lemma cite_grounded op ops chunks recording ev :
  op ∈ ops -> ev ∈ cite ToLower op chunks recording -> grounded ops chunks recording ev.
Proof.
  intros Hop. unfold cite. destruct (ToLower (squash (OpQuote op))) as [|c0 needle] eqn:En; [set_solver|].
  assert (Hpick : forall (p : chunk -> bool) c,
      List.find (fun c => p c && holds ToLower (c0 :: needle) c) chunks = Some c ->
      ev = {| EvRecording := recording; EvChunk := Chunk c; EvQuote := clip_runes quoteLimit (squash (OpQuote op)) |} ->
      grounded ops chunks recording ev).
  { intros p c Hp ->. apply List.find_some in Hp as [Hin Hb]. apply andb_true_iff in Hb as [_ Hh].
    split; [done|]. exists c, op. cbn. rewrite En. split_and!; [by apply list_elem_of_In|done|done|done|done|done]. }
  cbv zeta. case_match eqn:E1; [|case_match eqn:E2; [|by intros ?%elem_of_nil]].
  - rewrite list_elem_of_singleton. by apply (Hpick _ _ E1).
  - rewrite list_elem_of_singleton. by apply (Hpick _ _ E2).
Qed.

(** Every piece of evidence of the entries was there before, in the same
    entry, or is grounded. *)
Definition evidence_from (old : list Entry) (G : Evidence -> Prop) (es : list Entry) : Prop :=
  forall e ev, e ∈ es -> ev ∈ EntryEvidence e ->
    G ev \/ exists e0, e0 ∈ old /\ ID e0 = ID e /\ ev ∈ EntryEvidence e0.

Lemma update_evolves op ev now e : entry_evolves now e (update_entry ToLower op ev now e).
Proof.
  unfold update_entry, add_evidence, set_text. case_bool_decide as Hd; split; simpl; auto.
  - by apply prefix_app_r.
  - by apply prefix_app_r.
  - intros Hn. exfalso. tauto.
Qed.

Lemma withdraw_evolves ev now e : entry_evolves now e (withdraw_entry ev now e).
Proof.
  unfold withdraw_entry. destruct (Withdrawn e) eqn:Ew; [apply entry_evolves_refl|].
  split; simpl; auto. by apply prefix_app_r.
Qed.

Lemma alter_evolves (f : Entry -> Entry) (i : nat) now (es : list Entry) :
  (forall e, entry_evolves now e (f e)) -> entries_evolve now es (alter f i es).
Proof.
  intros Hf. exists (alter f i es), []. rewrite app_nil_r. split; [done|]. apply Forall2_alter_r.
  - apply Forall_Forall2_diag, Forall_true. apply entry_evolves_refl.
  - intros x y Hx Hy _. rewrite Hx in Hy. injection Hy as <-. apply Hf.
Qed.

Lemma alter_ids (f : Entry -> Entry) (i : nat) (es : list Entry) : (forall e, ID (f e) = ID e) -> ID <$> alter f i es = ID <$> es.
Proof.
  intros Hf. apply list_eq. intros j. rewrite !list_lookup_fmap.
  destruct (decide (i = j)) as [->|]; [rewrite list_lookup_alter_eq|by rewrite list_lookup_alter_ne].
  destruct (es !! j); simpl; [by rewrite Hf|done].
Qed.

Lemma op_evolves chunks recording now es op :
  entries_evolve now es (apply_op ToLower chunks recording now es op).
Proof.
  unfold apply_op. destruct (String.eqb (Op op) "add").
  { exists es, [MkEntry (next_id es) (trim_space (OpTitle op)) (trim_space (OpDetails op)) (normalize ToLower (OpTags op))
      false now now (cite ToLower op chunks recording)]. split; [done|].
    apply Forall_Forall2_diag, Forall_true. apply entry_evolves_refl. }
  destruct (index_of_id (OpID op) es) as [i|]; [|apply entries_evolve_refl].
  destruct (String.eqb (Op op) "update"); [apply alter_evolves; intros; apply update_evolves|].
  destruct (String.eqb (Op op) "withdraw"); [apply alter_evolves; intros; apply withdraw_evolves|].
  apply entries_evolve_refl.
Qed.
Lemma alter_room (f : Entry -> Entry) (i : nat) (es : list Entry) (P : Z -> Prop) :
  (forall e, ID (f e) = ID e) -> Forall (fun e => P (ID e)) es -> Forall (fun e => P (ID e)) (alter f i es).
Proof. intros Hf H. apply Forall_alter; [done|]. intros x _ Hx. by rewrite Hf. Qed.

(** The shapes an operation gives the entries. *)
Lemma apply_op_shape chunks recording now es op :
  apply_op ToLower chunks recording now es op = es
  \/ (exists f i, apply_op ToLower chunks recording now es op = alter f i es
        /\ forall e, ID (f e) = ID e /\ (EntryEvidence (f e) = EntryEvidence e
             \/ EntryEvidence (f e) = EntryEvidence e ++ cite ToLower op chunks recording))
  \/ (exists e, apply_op ToLower chunks recording now es op = es ++ [e] /\ ID e = next_id es
        /\ EntryEvidence e = cite ToLower op chunks recording).
Proof.
  unfold apply_op. destruct (String.eqb (Op op) "add"); [right; right; by eexists|].
  destruct (index_of_id (OpID op) es) as [i|]; [|by left].
  destruct (String.eqb (Op op) "update").
  { right; left. eexists _, i. split; [done|]. intros e. unfold update_entry. case_bool_decide; simpl; auto. }
  destruct (String.eqb (Op op) "withdraw"); [|by left].
  right; left. eexists _, i. split; [done|]. intros e. unfold withdraw_entry. destruct (Withdrawn e); simpl; auto.
Qed.

Lemma op_ids chunks recording now es op n :
  ids_ok es -> room es (n + 1) -> 0 <= n -> n + 1 < maxint - 1 ->
  ids_ok (apply_op ToLower chunks recording now es op) /\ room (apply_op ToLower chunks recording now es op) n.
Proof.
  intros [Hs Hp] Hr Hn Hm.
  assert (Hr' : room es n) by (eapply Forall_impl; [apply Hr|]; simpl; lia).
  destruct (apply_op_shape chunks recording now es op) as [->|[(f & i & -> & Hf)|(e & -> & He & _)]].
  - done.
  - split; [split|].
    + rewrite alter_ids; [done|apply Hf].
    + apply (alter_room f i es (fun z => 1 <= z)); [apply Hf|done].
    + apply (alter_room f i es (fun z => z + n < maxint)); [apply Hf|done].
  - split; [split|].
    + rewrite fmap_app. apply StronglySorted_app_2; [|done|by repeat constructor].
      intros x1 x2 (e1 & -> & H1)%list_elem_of_fmap ->%list_elem_of_singleton. rewrite He.
      apply next_id_above; [done| |done]. eapply Forall_impl; [apply Hr|]. simpl. lia.
    + apply Forall_app. split; [done|]. constructor; [|done]. rewrite He. apply next_id_pos.
    + apply Forall_app. split; [done|]. constructor; [|done]. rewrite He. by apply next_id_bound.
Qed.

Lemma evidence_refl G es : evidence_from es G es.
Proof. intros e ev He Hev. right. by exists e. Qed.

Lemma evidence_trans G a b c : evidence_from a G b -> evidence_from b G c -> evidence_from a G c.
Proof.
  intros H1 H2 e ev He Hev. destruct (H2 e ev He Hev) as [|(e0 & H0 & Hi & Hev0)]; [by left|].
  destruct (H1 e0 ev H0 Hev0) as [|(e1 & H3 & Hi1 & Hev1)]; [by left|]. right. exists e1. split; [done|]. by rewrite Hi1.
Qed.

Lemma op_evidence ops chunks recording now es op :
  op ∈ ops -> evidence_from es (grounded ops chunks recording) (apply_op ToLower chunks recording now es op).
Proof.
  intros Hop. destruct (apply_op_shape chunks recording now es op) as [->|[(f & i & -> & Hf)|(x & -> & _ & Hx)]].
  - apply evidence_refl.
  - intros e ev He Hev. apply list_elem_of_lookup in He as [j Hj].
    destruct (decide (i = j)) as [->|].
    + rewrite list_lookup_alter_eq in Hj. apply fmap_Some in Hj as (e0 & H0 & ->). destruct (Hf e0) as [Hid Hcase].
      assert (ev ∈ EntryEvidence e0 \/ ev ∈ cite ToLower op chunks recording) as [Hin|Hc].
      { destruct Hcase as [E|E]; rewrite E in Hev; [auto|by apply elem_of_app]. }
      * right. exists e0. split; [by eapply list_elem_of_lookup_2|done].
      * left. by eapply cite_grounded.
    + rewrite list_lookup_alter_ne in Hj by done. right. exists e. split; [by eapply list_elem_of_lookup_2|done].
  - intros e ev He Hev. apply elem_of_app in He as [He| ->%list_elem_of_singleton]; [right; by exists e|].
    left. rewrite Hx in Hev. by eapply cite_grounded.
Qed.

Lemma fold_ops all ops chunks recording now es :
  ops ⊆ all -> ids_ok es -> room es (len ops) -> len ops < maxint - 1 ->
  let es' := fold_left (apply_op ToLower chunks recording now) ops es in
  ids_ok es' /\ entries_evolve now es es' /\ evidence_from es (grounded all chunks recording) es'.
Proof.
  revert es. induction ops as [|op ops IH]; intros es Hsub Hid Hr Hm; simpl.
  { split; [done|]. split; [apply entries_evolve_refl|apply evidence_refl]. }
  unfold len in *. cbn [length] in *.
  destruct (op_ids chunks recording now es op (Z.of_nat (length ops)) Hid) as [Hid' Hr'];
    [by replace (Z.of_nat (length ops) + 1) with (Z.of_nat (S (length ops))) by lia|lia|lia|].
  destruct (IH (apply_op ToLower chunks recording now es op)) as (H1 & H2 & H3); [set_solver|done|done|lia|].
  split; [done|]. split.
  - eapply entries_evolve_trans; [apply op_evolves|apply H2].
  - eapply evidence_trans; [|apply H3]. apply op_evidence. set_solver.
Qed.

(** C38: applying a reply to the ledger keeps the identifiers positive and
    strictly increasing, so no promise number is ever reused; every old
    promise keeps its place, its number and its creation time, is never
    restored, loses no evidence and is stamped when it changes; and all new
    evidence quotes a chunk of the batch in which the quote was found. *)
Theorem apply_ledger_ok l ops chunks recording now :
  ids_ok (Entries l) -> room (Entries l) (len ops) -> len ops < maxint - 1 ->
  let l' := apply ToLower l ops chunks recording now in
  ids_ok (Entries l') /\ entries_evolve now (Entries l) (Entries l')
  /\ evidence_from (Entries l) (grounded ops chunks recording) (Entries l')
  /\ Cursors l' = Cursors l.
Proof.
  intros H1 H2 H3. simpl. destruct (fold_ops ops ops chunks recording now (Entries l)) as (A & B & C); [done..|]. done.
Qed.
End Apply.

(** ** Batches and ticks *)

Lemma SetWithdrawn_frame io now id w s :
  let s' := fst (SetWithdrawn io now id w s) in
  Cursors (ledger s') = Cursors (ledger s) /\ seen s' = seen s /\ retryAt s' = retryAt s /\ failures s' = failures s
  /\ errs s' = errs s.
Proof.
  unfold SetWithdrawn. cbv zeta. case_match; [|done]. case_match; [|done]. case_match; [done|].
  destruct io as [|[]]; done.
Qed.

Lemma run_calls_frame calls s :
  let s' := run_calls calls s in
  Cursors (ledger s') = Cursors (ledger s) /\ seen s' = seen s /\ retryAt s' = retryAt s /\ failures s' = failures s
  /\ errs s' = errs s.
Proof.
  unfold run_calls. revert s. induction calls as [|c calls IH]; intros s; cbn [fold_left]; [done|].
  destruct (IH (fst (SetWithdrawn (wc_save c) (wc_now c) (wc_id c) (wc_withdrawn c) s))) as (-> & -> & -> & -> & ->).
  apply SetWithdrawn_frame.
Qed.

(** The calls see only the ledger and the file. *)
Lemma SetWithdrawn_ledger io now id w s s2 :
  ledger s = ledger s2 -> file s = file s2 ->
  ledger (fst (SetWithdrawn io now id w s)) = ledger (fst (SetWithdrawn io now id w s2))
  /\ file (fst (SetWithdrawn io now id w s)) = file (fst (SetWithdrawn io now id w s2)).
Proof.
  unfold SetWithdrawn. cbv zeta. intros HL Hf. rewrite HL. case_match; [|done]. case_match; [|done]. case_match; [done|].
  destruct io as [|[]]; cbn; auto.
Qed.

Lemma run_calls_ledger calls s s2 :
  ledger s = ledger s2 -> file s = file s2 -> ledger (run_calls calls s) = ledger (run_calls calls s2).
Proof.
  unfold run_calls. revert s s2. induction calls as [|c calls IH]; intros s s2 H1 H2; cbn [fold_left]; [done|].
  by apply IH; apply SetWithdrawn_ledger.
Qed.

Section Worker.
Variable ToLower : text -> text.
Variables message parked_message : perror -> text.

Lemma fail_listed id msg s : exists f, f ∈ errs (fail id msg s) /\ FRecording f = id /\ FMessage f = msg.
Proof.
  unfold fail. cbn. destruct (list_find _ _) as [[i f]|] eqn:El.
  - apply list_find_Some in El as (Hi & Hid & _). exists {| FRecording := FRecording f; FMessage := msg |}.
    split; [|done]. apply list_elem_of_lookup. exists i. rewrite list_lookup_alter_eq, Hi. done.
  - exists {| FRecording := id; FMessage := msg |}. split; [|done]. apply elem_of_app. right. by apply list_elem_of_singleton.
Qed.

(** What a batch leaves of the store it started from. *)
Lemma batch_outcome io r done now s s' err :
  batch ToLower message io r done now s = (s', err) ->
  let s1 := run_calls (bi_between io) s in
  let end_ := Z.min (len (Finalized r)) (done + batchSize) in
  seen s' = seen s /\ retryAt s' = retryAt s /\ failures s' = failures s /\ working s' = false
  /\ match err with
     | Some e => ledger s' = ledger s1
         /\ (bi_cancelled io = false -> exists f, f ∈ errs s' /\ FRecording f = RecID r /\ FMessage f = message e)
     | None => exists ops, bi_cancelled io = false
         /\ review (bi_reply io) (build_request (ledger s) r done end_) = Ok ops
         /\ ledger s' = batch_ledger ToLower (ledger s1) ops r done end_ now
         /\ file s' = Some (ledger s')
         /\ Forall (fun f => FRecording f <> RecID r) (errs s')
     end.
Proof.
  unfold batch. cbv zeta.
  assert (HL : ledger (run_calls (bi_between io) (with_status true (errs s) s)) = ledger (run_calls (bi_between io) s))
    by (by apply run_calls_ledger).
  destruct (run_calls_frame (bi_between io) (with_status true (errs s) s)) as (_ & Hs & Hr & Hf & He).
  set (s2 := run_calls (bi_between io) (with_status true (errs s) s)) in *. clearbody s2. cbn in Hs, Hr, Hf, He.
  destruct (bi_cancelled io). { intros [= <- <-]. cbn. rewrite HL. split_and!; auto; discriminate. }
  destruct (review _ _) as [ops|e].
  2:{ intros [= <- <-]. split_and!; [done..|intros _; apply fail_listed]. }
  unfold save. destruct (bi_save io) as [|[]]; intros [= <- <-];
    [cbn; rewrite HL; split_and!; auto|split_and!; [done..|intros _; apply fail_listed]|split_and!; [done..|intros _; apply fail_listed]].
  exists ops. split_and!; auto. apply List.Forall_forall. intros f Hin. apply filter_In in Hin as [_ Hne].
  by apply negb_true_iff, String.eqb_neq in Hne.
Qed.

(** A recording whose turn has come: not waiting after a failure, with new
    speech that fills a batch, has settled or is complete. *)
Definition due (get : string -> option Recording) (now : Z) (s : Store) (id : string) (r : Recording) : Prop :=
  (forall t, retryAt s !! id = Some t -> t <= now) /\ get id = Some r
  /\ (let done := default 0 (Cursors (ledger s) !! id) in
      let n := len (Finalized r) in
      done < n /\ (is_closed r = true \/ batchSize <= n - done
                  \/ exists t, seen s !! id = Some (n, t) /\ settleTime <= now - t)).

(** What a tick makes of the times of the recordings it passes by: they are as
    before, or a length not seen before was met now. *)
Definition noted (get : string -> option Recording) (now : Z) (old new : gmap string (Z * Z)) : Prop :=
  forall id, new !! id = old !! id \/ exists r, get id = Some r /\ new !! id = Some (len (Finalized r), now) /\
    forall t, old !! id <> Some (len (Finalized r), t).

Lemma noted_refl get now m : noted get now m m.
Proof. intros id. by left. Qed.

Lemma noted_trans get now m1 m2 m3 : noted get now m1 m2 -> noted get now m2 m3 -> noted get now m1 m3.
Proof.
  intros H1 H2 id. destruct (H2 id) as [->|(r & Hg & E & Hn)]; [apply H1|]. right. exists r. split_and!; [done..|]. intros t Ht.
  destruct (H1 id) as [E1|(r' & Hg' & E1 & _)]; [rewrite <- E1 in Ht; by apply (Hn t)|]. simplify_eq. by apply (Hn now).
Qed.

(** Noting a length has no recording reviewed, and none left. *)
Lemma noted_due get now s m id r : noted get now (seen s) m -> due get now (with_seen m s) id r <-> due get now s id r.
Proof.
  intros Hm. unfold due. cbn. split; intros (Ht & Hg & Hlt & Hor); (split_and!; [done..|]);
    (destruct Hor as [|[|(t & Hs & Hset)]]; [by left|by right; left|right; right]).
  - destruct (Hm id) as [E|(r' & Hg' & E & _)]; [rewrite <- E; eauto|]. exfalso. rewrite Hg in Hg'. injection Hg' as <-. rewrite E in Hs. injection Hs as <-. rewrite Z.sub_diag in Hset. by apply Hset.
  - destruct (Hm id) as [E|(r' & Hg' & _ & Hn)]; [rewrite E; eauto|]. exfalso. simplify_eq. by apply (Hn t).
Qed.

(** A tick only looks, and then none is due, or it runs the batch of one due
    recording. *)
Lemma step_from_cases io get now marked s :
  let s' := step_from ToLower message parked_message io get now marked s in
  (exists m, s' = with_seen m s /\ noted get now (seen s) m /\ forall id r, id ∈ marked -> ~ due get now s id r)
  \/ (exists m id r s1 err, id ∈ marked /\ noted get now (seen s) m /\ due get now s id r
        /\ batch ToLower message io r (default 0 (Cursors (ledger s) !! id)) now (with_seen m s) = (s1, err)
        /\ s' = settle_batch parked_message (bi_cancelled io || bi_cancelled_late io) id now s1 err).
Proof.
  revert s. induction marked as [|id rest IH]; intros s; cbn [step_from].
  { left. exists (seen s). split_and!; [by destruct s|apply noted_refl|set_solver]. }
  assert (Hrec : forall s0 m, s0 = with_seen m s -> noted get now (seen s) m -> (forall r, ~ due get now s id r) ->
    let s' := step_from ToLower message parked_message io get now rest s0 in
    (exists m, s' = with_seen m s /\ noted get now (seen s) m /\ forall id0 r, id0 ∈ id :: rest -> ~ due get now s id0 r)
    \/ (exists m id0 r s1 err, id0 ∈ id :: rest /\ noted get now (seen s) m /\ due get now s id0 r
        /\ batch ToLower message io r (default 0 (Cursors (ledger s) !! id0)) now (with_seen m s) = (s1, err)
        /\ s' = settle_batch parked_message (bi_cancelled io || bi_cancelled_late io) id0 now s1 err)).
  { intros ? m -> Hm Hn. destruct (IH (with_seen m s)) as [(m' & E & Hm' & Hn')|(m' & id' & r & s1 & err & Hin & Hm' & H1 & H2 & H3)].
    - left. exists m'. split; [done|]. split; [by eapply noted_trans|]. intros id0 r [->|Hin]%elem_of_cons; [apply Hn|].
      intros Hd. apply (Hn' id0 r Hin). by apply noted_due.
    - right. exists m', id', r, s1, err. split; [set_solver|]. split; [by eapply noted_trans|]. split; [by apply (noted_due get now s m)|done]. }
  assert (Es : s = with_seen (seen s) s) by (by destruct s).
  destruct (match retryAt s !! id with Some t => now <? t | None => false end) eqn:Ew.
  { eapply Hrec; [done|apply noted_refl|]. intros r (Ht & _). destruct (retryAt s !! id); [|done]. specialize (Ht _ eq_refl).
    apply Z.ltb_lt in Ew. lia. }
  destruct (get id) as [r|] eqn:Eg; [|eapply Hrec; [done|apply noted_refl|]; intros r (_ & Hg & _); congruence].
  destruct (len (Finalized r) <=? default 0 (Cursors (ledger s) !! id)) eqn:En.
  { eapply Hrec; [done|apply noted_refl|]. intros r' (_ & Hg & Hl & _). rewrite Eg in Hg. injection Hg as <-. apply Z.leb_le in En. lia. }
  set (s0 := match seen s !! id with Some (c, _) => _ | None => _ end).
  assert (exists m t, s0 = with_seen m s /\ noted get now (seen s) m /\ m !! id = Some (len (Finalized r), t)) as (m & t & -> & Hnoted & Hm).
  { assert ((forall t, seen s !! id <> Some (len (Finalized r), t)) -> noted get now (seen s) (<[id := (len (Finalized r), now)]> (seen s))) as Hnew.
    { intros Hn id0. destruct (decide (id0 = id)) as [->|]; [|left; by apply lookup_insert_ne]. right. exists r. by rewrite lookup_insert_eq. }
    subst s0. destruct (seen s !! id) as [[c t]|] eqn:E.
    - destruct (Z.eqb_spec c (len (Finalized r))) as [->|Hne].
      + exists (seen s), t. split_and!; [done|apply noted_refl|done].
      + eexists _, now. split; [done|]. split; [apply Hnew; intros t'; congruence|by rewrite lookup_insert_eq].
    - eexists _, now. split; [done|]. split; [by apply Hnew|by rewrite lookup_insert_eq]. }
  cbn [seen with_seen]. rewrite Hm.
  destruct (negb _ && _ && _) eqn:Ec.
  { eapply Hrec; [done|done|]. intros r' Hd%(noted_due get now s m); [|done]. destruct Hd as (_ & Hg & _ & Hc). rewrite Eg in Hg. injection Hg as <-.
    apply andb_true_iff in Ec as [[Ec1 Ec2]%andb_true_iff Ec3]. apply Z.ltb_lt in Ec2, Ec3. cbn in Ec2, Hc. rewrite Hm in Hc.
    destruct Hc as [Hc|[Hc|(t' & [= <-] & Hc)]]; [by rewrite Hc in Ec1|lia|lia]. }
  destruct (batch _ _ _ _ _ _ _) as [s1 err] eqn:Eb. right. exists m, id, r, s1, err.
  split; [set_solver|]. split; [done|]. split; [|done]. apply (noted_due get now s m); [done|]. split; [|split; [done|]].
  - intros t' Ht. cbn in Ht. rewrite Ht in Ew. by apply Z.ltb_ge in Ew.
  - cbn. apply Z.leb_gt in En. split; [done|].
    apply andb_false_iff in Ec as [[Ec|Ec]%andb_false_iff|Ec].
    + left. by apply negb_false_iff.
    + right; left. by apply Z.ltb_ge.
    + right; right. exists t. split; [done|]. by apply Z.ltb_ge.
Qed.

Lemma marked_elem id (items : list (string * bool)) : id ∈ fst <$> List.filter snd items <-> (id, true) ∈ items.
Proof.
  rewrite list_elem_of_fmap. split.
  - intros ([i b] & -> & [Hin Hb]%list_elem_of_In%filter_In). cbn in Hb. subst b. by apply list_elem_of_In.
  - intros Hin. exists (id, true). split; [done|]. apply list_elem_of_In, filter_In. split; [by apply list_elem_of_In|done].
Qed.

Lemma settle_batch_ledger c id now s err :
  ledger (settle_batch parked_message c id now s err) = ledger s
  /\ file (settle_batch parked_message c id now s err) = file s.
Proof. unfold settle_batch. repeat case_match; done. Qed.

Lemma settle_batch_listed c id now s err f :
  f ∈ errs s -> FRecording f = id -> exists f', f' ∈ errs (settle_batch parked_message c id now s err) /\ FRecording f' = id.
Proof.
  intros Hf Hid. unfold settle_batch. destruct c; [by exists f|]. destruct err as [e|]; [|by exists f]. case_match; [by exists f|].
  destruct (fail_listed id (parked_message e) (with_retry (<[id := parked]> (retryAt s)) (<[id := default 0 (failures s !! id) + 1]> (failures s)) s)) as (f' & ? & ? & _).
  by exists f'.
Qed.

Lemma run_calls_seen calls m s : ledger (run_calls calls (with_seen m s)) = ledger (run_calls calls s).
Proof. by apply run_calls_ledger. Qed.

Lemma chunks_between_numbers r lo hi :
  0 <= lo <= hi -> hi <= len (Finalized r) -> Chunk <$> chunks_between r lo hi = seqZ lo (hi - lo)
  /\ CText <$> chunks_between r lo hi = take (Z.to_nat (hi - lo)) (drop (Z.to_nat lo) (Finalized r)).
Proof.
  intros H1 H2. unfold chunks_between, len in *. split.
  - apply list_eq. intros i. rewrite list_lookup_fmap, list_lookup_imap.
    destruct (decide (i < Z.to_nat (hi - lo))%nat) as [Hi|Hi].
    + rewrite lookup_take_lt, lookup_drop by done.
      destruct (lookup_lt_is_Some_2 (Finalized r) (Z.to_nat lo + i)) as [x ->]; [lia|].
      rewrite lookup_seqZ_lt by lia. done.
    + rewrite lookup_take_ge by lia. rewrite lookup_seqZ_ge by lia. done.
  - apply list_eq. intros i. rewrite list_lookup_fmap, list_lookup_imap. by destruct (_ !! i).
Qed.

(** C39: a tick leaves the ledger alone when no marked recording is due in the
    store it starts from; otherwise it works on one that is: either it is
    cancelled, or the review or the save fails, which is listed, and the ledger
    is as the concurrent calls made it, or the next chunks, at most twelve, are reviewed: the cursor moves from [old] to
    [new], the model was asked about exactly the chunks [old] to [new - 1], its
    validated operations and the new cursor are in the ledger together, and
    the file holds that ledger. *)
Theorem step_consumes io get now items s :
  (forall id r, get id = Some r -> RecID r = id) ->
  (forall id c, Cursors (ledger s) !! id = Some c -> 0 <= c) ->
  let s' := step ToLower message parked_message io get now items s in
  (ledger s' = ledger s /\ forall id r, (id, true) ∈ items -> ~ due get now s id r)
  \/ exists id r, (id, true) ∈ items /\ due get now s id r /\
      ((ledger s' = ledger (run_calls (bi_between io) s) /\ (bi_cancelled io = true \/ exists f, f ∈ errs s' /\ FRecording f = id)) \/ exists ops,
         let old := default 0 (Cursors (ledger s) !! id) in
         let new := default 0 (Cursors (ledger s') !! id) in
         let req := build_request (ledger s) r old new in
         old < new <= len (Finalized r) /\ new - old <= batchSize
         /\ (Chunk <$> NewChunks req = seqZ old (new - old)
             /\ CText <$> NewChunks req = take (Z.to_nat (new - old)) (drop (Z.to_nat old) (Finalized r)))
         /\ review (bi_reply io) req = Ok ops
         /\ ledger s' = batch_ledger ToLower (ledger (run_calls (bi_between io) s)) ops r old new now
         /\ (forall id', id' <> id -> Cursors (ledger s') !! id' = Cursors (ledger s) !! id')
         /\ file s' = Some (ledger s')).
Proof.
  intros Hget Hcur. unfold step. cbv zeta.
  destruct (step_from_cases io get now (fst <$> List.filter snd items) s)
    as [(m & -> & _ & Hno)|(m & id & r & s1 & err & Hin & _ & Hdue & Hb & ->)].
  { left. split; [done|]. intros id r Hin. by apply Hno, marked_elem. }
  right. exists id, r. split; [by apply marked_elem|]. split; [done|].
  apply batch_outcome in Hb. cbv zeta in Hb. destruct Hb as (_ & _ & _ & _ & Hb).
  rewrite run_calls_seen in Hb.
  rewrite (proj1 (settle_batch_ledger _ _ _ _ _)), (proj2 (settle_batch_ledger _ _ _ _ _)).
  destruct err as [e|].
  { left. destruct Hb as [HL Hf]. split; [done|]. destruct (bi_cancelled io); [by left|right]. destruct (Hf eq_refl) as (f & Hin' & Hid & _).
    apply (settle_batch_listed _ _ _ _ _ f Hin'). rewrite Hid. by apply Hget, Hdue. }
  right. destruct Hb as (ops & _ & Hrev & HL & Hf & _). exists ops.
  assert (Hid : RecID r = id) by (apply Hget; apply Hdue).
  assert (Hold : 0 <= default 0 (Cursors (ledger s) !! id)) by (destruct (_ !! id) eqn:E; simpl; eauto; lia).
  destruct Hdue as (_ & _ & Hlt & _). cbn in Hlt. set (old := default 0 _) in *.
  set (end_ := Z.min _ _) in HL, Hrev.
  assert (Hc : Cursors (ledger s1) = <[id := end_]> (Cursors (ledger s))).
  { rewrite HL. cbn. rewrite Hid. by rewrite (proj1 (run_calls_frame _ _)). }
  cbv zeta. rewrite Hc, lookup_insert_eq. cbn [default option_rect Datatypes.id from_option]. unfold Datatypes.id. cbn in Hrev.
  split_and!; try done; try (subst end_; unfold batchSize; lia).
  - cbn [build_request NewChunks default]. rewrite Z.max_r by lia. apply chunks_between_numbers; subst end_; unfold batchSize; lia.
  - cbn [build_request NewChunks default]. rewrite Z.max_r by lia. apply chunks_between_numbers; subst end_; unfold batchSize; lia.
  - intros id' Hne. by rewrite lookup_insert_ne.
Qed.

(** The bookkeeping of failures: a recording waits exactly when it failed,
    at most three times, and after the third failure it waits for good. *)
Definition retry_ok (s : Store) : Prop :=
  forall id, match failures s !! id with
        | None => retryAt s !! id = None
        | Some f => 1 <= f <= attempts /\ (exists t, retryAt s !! id = Some t) /\ (f = attempts -> retryAt s !! id = Some parked)
        end.

Lemma settle_batch_retry c id now s err :
  retry_ok s -> failures s !! id <> Some attempts -> retry_ok (settle_batch parked_message c id now s err).
Proof.
  intros H Hid. unfold settle_batch. destruct c; [done|]. destruct err as [e|].
  - assert (Hf : 1 <= default 0 (failures s !! id) + 1 <= attempts).
    { specialize (H id). destruct (failures s !! id) as [f|]; simpl; unfold attempts in *; [|lia].
      assert (f <> 3) by congruence. lia. }
    set (f := default 0 _ + 1) in *.
    destruct (f <? attempts) eqn:Ef; intros i; cbn; destruct (decide (i = id)) as [->|Hne];
      rewrite ?lookup_insert_eq, ?lookup_insert_ne by done; try apply (H i).
    + apply Z.ltb_lt in Ef. split_and!; [lia|lia|eauto|lia].
    + split_and!; [lia|lia|eauto|done].
  - intros i. cbn. destruct (decide (i = id)) as [->|Hne];
      [by rewrite !lookup_delete_eq|rewrite !lookup_delete_ne by done; apply (H i)].
Qed.

(** a tick keeps the bookkeeping of failures: a recording waits exactly
    when its last batches failed, at most three in a row; and a recording
    that failed three times is neither read nor reviewed again, its cursor
    stays, until the process restarts. *)
Theorem step_retries io get now items s :
  (forall id r, get id = Some r -> RecID r = id) ->
  retry_ok s -> now < parked ->
  let s' := step ToLower message parked_message io get now items s in
  retry_ok s'
  /\ forall id, failures s !! id = Some attempts ->
      failures s' !! id = Some attempts /\ Cursors (ledger s') !! id = Cursors (ledger s) !! id
      /\ s' = step ToLower message parked_message io (fun i => if bool_decide (i = id) then None else get i) now items s.
Proof.
  intros Hget Hok Hnow. unfold step. cbv zeta. set (marked := fst <$> _). clearbody marked.
  assert (Hpark : forall id, failures s !! id = Some attempts -> retryAt s !! id = Some parked).
  { intros id Hf. specialize (Hok id). rewrite Hf in Hok. by apply Hok. }
  assert (Hread : forall id, failures s !! id = Some attempts ->
    step_from ToLower message parked_message io get now marked s
    = step_from ToLower message parked_message io (fun i => if bool_decide (i = id) then None else get i) now marked s).
  { intros id Hf. specialize (Hpark id Hf). clear -Hpark Hnow. revert s Hpark.
    induction marked as [|i rest IH]; intros s Hpark; [done|]. cbn [step_from]. case_bool_decide as Hi.
    - subst i. rewrite Hpark. replace (now <? parked) with true by (symmetry; by apply Z.ltb_lt). by apply IH.
    - repeat case_match; auto. }
  destruct (step_from_cases io get now marked s)
    as [(m & E & _)|(m & id & r & s1 & err & Hin & _ & Hdue & Hb & E)]; cbv zeta in E; rewrite E in *.
  { split; [done|]. intros id Hf. split_and!; [done|done|]. by apply Hread. }
  apply batch_outcome in Hb. cbv zeta in Hb. rewrite run_calls_seen in Hb. destruct Hb as (_ & Hr & Hfl & _ & Hb). cbn in Hr, Hfl.
  assert (Hid : failures s !! id <> Some attempts).
  { intros Hf. destruct Hdue as (Ht & _). specialize (Ht _ (Hpark id Hf)). lia. }
  split.
  { apply settle_batch_retry; [|by rewrite Hfl]. intros i. rewrite Hr, Hfl. apply Hok. }
  intros id' Hf. assert (Hne : id' <> id) by congruence. split_and!; [| |by apply Hread].
  - unfold settle_batch. repeat case_match; cbn; rewrite ?lookup_insert_ne, ?lookup_delete_ne by done; by rewrite Hfl.
  - rewrite (proj1 (settle_batch_ledger _ _ _ _ _)). destruct err as [e|].
    + destruct Hb as [-> _]. by rewrite (proj1 (run_calls_frame _ _)).
    + destruct Hb as (ops & _ & _ & -> & _). cbn. rewrite (proj1 (run_calls_frame _ _)).
      rewrite lookup_insert_ne; [done|]. rewrite (Hget id r); [done|apply Hdue].
Qed.

(** When a marked recording is due, the model answers every request
    with valid operations, saving works and the context lives, a tick
    advances the cursor of some marked recording and saves it. *)
Theorem step_progress io get now items s id r :
  (forall id r, get id = Some r -> RecID r = id) ->
  (id, true) ∈ items -> due get now s id r ->
  bi_cancelled io = false -> bi_save io = SaveOk -> (forall req, exists ops, review (bi_reply io) req = Ok ops) ->
  let s' := step ToLower message parked_message io get now items s in
  exists id' c, (id', true) ∈ items /\ Cursors (ledger s') !! id' = Some c
    /\ default 0 (Cursors (ledger s) !! id') < c /\ file s' = Some (ledger s').
Proof.
  intros Hget Hin Hready Hc Hs Hrev. unfold step. cbv zeta.
  destruct (step_from_cases io get now (fst <$> List.filter snd items) s)
    as [(m & _ & _ & Hno)|(m & id' & r' & s1 & err & Hin' & _ & Hdue & Hb & ->)].
  { exfalso. apply (Hno id r); [by apply marked_elem|done]. }
  rewrite (proj1 (settle_batch_ledger _ _ _ _ _)), (proj2 (settle_batch_ledger _ _ _ _ _)).
  assert (err = None) as ->.
  { unfold batch in Hb. rewrite Hc, Hs in Hb. cbv zeta in Hb.
    destruct (Hrev (build_request (ledger (with_seen m s)) r' (default 0 (Cursors (ledger s) !! id'))
        (Z.min (len (Finalized r')) (default 0 (Cursors (ledger s) !! id') + batchSize)))) as [ops E].
    rewrite E in Hb. cbn in Hb. congruence. }
  apply batch_outcome in Hb. cbv zeta in Hb. destruct Hb as (_ & _ & _ & _ & ops & _ & _ & HL & Hf & _).
  exists id', (Z.min (len (Finalized r')) (default 0 (Cursors (ledger s) !! id') + batchSize)).
  split; [by apply marked_elem|]. destruct Hdue as (_ & Hg & Hlt & _). cbn in Hlt.
  split_and!; [|unfold batchSize; lia|done].
  rewrite HL. cbn. by rewrite (Hget id' r' Hg), lookup_insert_eq.
Qed.
End Worker.

(** ** A concrete run *)

Module Demo.
Definition entry1 : Entry := MkEntry 1 (lit "a") (lit "b") [lit "x"] false 0 0 [].
Definition led : Ledger := MkLedger [entry1] {["rec" := 1]} 0.
Definition st : Store := Open (Some led).
Definition rec1 : Recording := {| RecID := "rec"; Status := "stopped"; Finalized := [lit "hello"; lit "please  ship it"] |}.
Definition get (id : string) : option Recording := if String.eqb id "rec" then Some rec1 else None.
Definition op_add : operation :=
  {| Op := "add"; OpID := 0; OpTitle := lit "ship"; OpDetails := lit "ship it"; OpTags := [lit "x "]; OpChunk := 1; OpQuote := lit "ship it" |}.
Definition op_update : operation :=
  {| Op := "update"; OpID := 1; OpTitle := lit "A"; OpDetails := []; OpTags := []; OpChunk := 1; OpQuote := lit "nowhere" |}.
Definition io : batch_io :=
  {| bi_reply := fun _ => Some [op_add]; bi_cancelled := false; bi_cancelled_late := false; bi_save := SaveOk; bi_between := [] |}.
Definition msg (_ : perror) : text := lit "error".

Lemma get_id id r : get id = Some r -> RecID r = id.
Proof. unfold get. destruct (String.eqb id "rec") eqn:E; [|done]. intros [= <-]. by apply String.eqb_eq in E. Qed.
End Demo.

Lemma apply_ledger_ok_witness :
  ids_ok (Entries (apply id Demo.led [Demo.op_add; Demo.op_update] (chunks_between Demo.rec1 1 2) "rec" 5))
  /\ (EntryEvidence <$> Entries (apply id Demo.led [Demo.op_add; Demo.op_update] (chunks_between Demo.rec1 1 2) "rec" 5))
     = [[]; [{| EvRecording := "rec"; EvChunk := 1; EvQuote := lit "ship it" |}]].
Proof.
  split; [|vm_compute; reflexivity].
  refine (proj1 (apply_ledger_ok id Demo.led [Demo.op_add; Demo.op_update] (chunks_between Demo.rec1 1 2) "rec" 5 _ _ _)).
  - split; repeat constructor; vm_compute; discriminate.
  - repeat constructor.
  - reflexivity.
Defined.

Lemma step_consumes_witness :
  let s' := step id Demo.msg Demo.msg Demo.io Demo.get 100 [("rec", true)] Demo.st in
  Cursors (ledger s') !! "rec" = Some 2 /\ length (Entries (ledger s')) = 2%nat /\
  exists i r, (i, true) ∈ [("rec", true)] /\ due Demo.get 100 Demo.st i r.
Proof.
  cbv zeta. split; [vm_compute; reflexivity|]. split; [vm_compute; reflexivity|].
  destruct (step_consumes id Demo.msg Demo.msg Demo.io Demo.get 100 [("rec", true)] Demo.st Demo.get_id) as [[H _]|(i & r & Hin & Hdue & _)].
  - intros i c. vm_compute Demo.st. cbn. rewrite lookup_singleton_Some. intros [_ <-]. lia.
  - exfalso. vm_compute in H. discriminate H.
  - by exists i, r.
Defined.

Lemma step_retries_witness :
  retry_ok (step id Demo.msg Demo.msg Demo.io Demo.get 100 [("rec", true)] (with_retry {["rec" := parked]} {["rec" := attempts]} Demo.st)).
Proof.
  refine (proj1 (step_retries id Demo.msg Demo.msg Demo.io Demo.get 100 [("rec", true)] _ Demo.get_id _ _)).
  - intros i. cbn [failures retryAt with_retry]. destruct (decide (i = "rec")) as [->|Hne].
    + rewrite !lookup_singleton_eq. split; [vm_compute; split; discriminate|]. split; [by eexists|done].
    + by rewrite !lookup_singleton_ne.
  - reflexivity.
Defined.

Lemma step_progress_witness :
  let s' := step id Demo.msg Demo.msg Demo.io Demo.get 100 [("rec", true)] Demo.st in
  exists i c, (i, true) ∈ [("rec", true)] /\ Cursors (ledger s') !! i = Some c
    /\ default 0 (Cursors (ledger Demo.st) !! i) < c /\ file s' = Some (ledger s').
Proof.
  apply (step_progress id Demo.msg Demo.msg Demo.io Demo.get 100 [("rec", true)] Demo.st "rec" Demo.rec1 Demo.get_id).
  - set_solver.
  - split; [by intros t|]. split; [done|]. split; [vm_compute; reflexivity|by left].
  - done.
  - done.
  - intros req. by exists [Demo.op_add].
Defined.
