(* ===== verification/SessionJson.v ===== *)
(** * Native JSON documents ([internal/sessionstate/json.go])

    The ordered objects the session projection is made of, with JavaScript's
    [undefined], truthiness and [??], the encoder and the token decoder.  A
    nil [*Obj] is [None] of [ref]; writing to one panics. *)

From S2P Require Import Prelude GoText.
From Stdlib Require Import Ascii.

Open Scope string_scope.
Open Scope list_scope.
Open Scope Z_scope.

(** ** Values *)

(** A value stored in an [Obj].  [VUndef] is [undefinedType]; [VNilArr] is a
    nil slice of type [[]any], which [arrOf] answers for anything else too. *)
Inductive val : Type :=
| VUndef
| VNull
| VBool (b : bool)
| VStr (s : string)
| VNum (literal : string)
| VNilArr
| VArr (items : list val)
| VObj (members : list (string * val)).

(** Members in their recorded order. *)
Definition obj : Type := list (string * val).

(** A pointer to an object, [None] when nil. *)
Abbreviation ref := (option obj).

Definition isUndefined (v : val) : bool := match v with VUndef => true | _ => false end.

Fixpoint get (o : obj) (key : string) : val :=
  match o with
  | [] => VUndef
  | (k, v) :: rest => if String.eqb k key then v else get rest key
  end.

Definition Get (o : ref) (key : string) : val := match o with None => VUndef | Some o => get o key end.

Fixpoint has (o : obj) (key : string) : bool :=
  match o with
  | [] => false
  | (k, _) :: rest => String.eqb k key || has rest key
  end.

Definition Has (o : ref) (key : string) : bool := match o with None => false | Some o => has o key end.

(** Member names are distinct, so at most one member goes. *)
Definition Delete (o : obj) (key : string) : obj := List.filter (fun kv => negb (String.eqb kv.1 key)) o.

Fixpoint assign (o : obj) (key : string) (v : val) : obj :=
  match o with
  | [] => [(key, v)]
  | (k, w) :: rest => if String.eqb k key then (k, v) :: rest else (k, w) :: assign rest key v
  end.

Definition set (o : obj) (key : string) (v : val) : obj := if isUndefined v then Delete o key else assign o key v.

(** [o.Set(key, value)], which dereferences [o] unless the value is
    [undefined]: [None] is the panic. *)
Definition Set_ (o : ref) (key : string) (v : val) : option ref :=
  match o with
  | Some o => Some (Some (set o key v))
  | None => if isUndefined v then Some None else None
  end.

Definition Keys (o : ref) : list string := match o with None => [] | Some o => fst <$> o end.

(** [cloneValue]: a nil slice is copied to an empty one. *)
Fixpoint cloneValue (v : val) : val :=
  match v with
  | VNilArr => VArr []
  | VArr items => VArr (map cloneValue items)
  | VObj members => VObj (map (fun kv => (kv.1, cloneValue kv.2)) members)
  | _ => v
  end.

Definition clone (o : obj) : obj := map (fun kv => (kv.1, cloneValue kv.2)) o.

Definition Clone (o : ref) : ref := clone <$> o.

(** ** Narrowing *)

Definition str (v : val) : string := match v with VStr s => s | _ => "" end.
Definition objOf (v : val) : ref := match v with VObj o => Some o | _ => None end.
(** [None] is the nil slice. *)
Definition arrOf (v : val) : option (list val) := match v with VArr l => Some l | _ => None end.
Definition items (v : val) : list val := default [] (arrOf v).

(** [json.Number.Float64]: the literal's digits, scaled by its exponent. *)
Definition digit (c : ascii) : option Z := if in_range 48 57 (code c) then Some (code c - 48) else None.

Fixpoint number_digits (m e : Z) (frac : bool) (s : text) : Z * Z * text :=
  match s with
  | [] => (m, e, [])
  | c :: rest =>
      match digit c with
      | Some d => number_digits (10 * m + d) (if frac then e - 1 else e) frac rest
      | None => if (code c =? 46) && negb frac then number_digits m e true rest else (m, e, s)
      end
  end.

Definition number_exponent (s : text) : Z :=
  match s with
  | c :: rest =>
      if (code c =? 101) || (code c =? 69) then
        match rest with
        | c :: rest' =>
            if code c =? 45 then - (number_digits 0 0 true rest').1.1
            else if code c =? 43 then (number_digits 0 0 true rest').1.1
            else (number_digits 0 0 true rest).1.1
        | [] => 0
        end
      else 0
  | [] => 0
  end.

(** The literal parses without a range error to a double other than zero:
    its magnitude [m * 10^e] is over half the least subnormal, [2^-1075],
    and below the point [2^1024 - 2^970] from which rounding overflows. *)
Definition number_truthy (literal : string) : bool :=
  let s := lit literal in
  let s := match s with c :: rest => if code c =? 45 then rest else s | [] => s end in
  let '(m, e, rest) := number_digits 0 0 false s in
  let e := e + number_exponent rest in
  let num := m * 10 ^ Z.max 0 e in
  let den := 10 ^ Z.max 0 (- e) in
  (den <? num * 2 ^ 1075) && (num <? (2 ^ 1024 - 2 ^ 970) * den).

Definition truthy (v : val) : bool :=
  match v with
  | VUndef | VNull => false
  | VBool b => b
  | VStr s => negb (String.eqb s "")
  | VNum n => number_truthy n
  | VNilArr | VArr _ | VObj _ => true
  end.

Definition coalesce (v fallback : val) : val := match v with VUndef | VNull => fallback | _ => v end.

(** ** Encoding *)

Definition hex_digit (z : Z) : ascii := byte (if z <? 10 then 48 + z else 87 + z).

(** One rune of a string as [encoding/json] writes it without HTML escapes. *)
Definition encode_char (p : Z * text) : text :=
  let '(r, bytes) := p in
  if (r =? 34) || (r =? 92) then byte 92 :: bytes
  else if r =? 8 then lit "\b"
  else if r =? 12 then lit "\f"
  else if r =? 10 then lit "\n"
  else if r =? 13 then lit "\r"
  else if r =? 9 then lit "\t"
  else if r <? 32 then lit "\u00" ++ [hex_digit (r / 16); hex_digit (r mod 16)]
  else if (r =? rune_error) && (len bytes =? 1) then lit "\ufffd"
  else if r =? 0x2028 then lit "\u2028"
  else if r =? 0x2029 then lit "\u2029"
  else bytes.

Definition marshal_string (s : string) : text :=
  [byte 34] ++ concat (map encode_char (runes (lit s))) ++ [byte 34].

Fixpoint marshalValue (v : val) : text :=
  match v with
  | VUndef => lit "{}"
  | VNull | VNilArr => lit "null"
  | VBool b => lit (if b then "true" else "false")
  | VStr s => marshal_string s
  | VNum n => lit n
  | VArr l => lit "[" ++ join (lit ",") (map marshalValue l) ++ lit "]"
  | VObj o => lit "{" ++ join (lit ",") (map (fun kv => marshal_string kv.1 ++ lit ":" ++ marshalValue kv.2) o) ++ lit "}"
  end.

Definition MarshalJSON (o : ref) : text := match o with None => lit "null" | Some o => marshalValue (VObj o) end.

Definition jsonKey (values : list val) : text :=
  marshalValue (VArr (map (fun v => if isUndefined v then VNull else v) values)).

(** [jsString], in [reduce.go]. *)
Definition jsString (v : val) : string :=
  match v with
  | VStr s => s
  | VNull => "null"
  | VUndef => "undefined"
  | VBool b => if b then "true" else "false"
  | VNum n => n
  | _ => String.string_of_list_ascii (marshalValue v)
  end.

(** ** Decoding

    [json.Decoder.Token] as the list of tokens still to come; the end of the
    list is an error of the decoder. *)

Inductive token :=
| TObj | TObjEnd | TArr | TArrEnd
| TNull | TBool (b : bool) | TStr (s : string) | TNum (n : string).

Inductive decode_error := EToken | EUnexpected | EMemberName | ETrailing | EFuel.

Fixpoint decodeValue (fuel : nat) (t : token) (ts : list token) : result decode_error (val * list token) :=
  match fuel with
  | O => Err EFuel
  | S fuel =>
      match t with
      | TObj => '(o, ts) ← decodeObject fuel [] ts; Ok (VObj o, ts)
      | TArr => '(l, ts) ← decodeArray fuel [] ts; Ok (VArr l, ts)
      | TObjEnd | TArrEnd => Err EUnexpected
      | TNull => Ok (VNull, ts)
      | TBool b => Ok (VBool b, ts)
      | TStr s => Ok (VStr s, ts)
      | TNum n => Ok (VNum n, ts)
      end
  end
with decodeObject (fuel : nat) (out : obj) (ts : list token) : result decode_error (obj * list token) :=
  match fuel with
  | O => Err EFuel
  | S fuel =>
      match ts with
      | [] => Err EToken
      | TObjEnd :: ts => Ok (out, ts)
      | TStr key :: t :: ts =>
          '(v, ts) ← decodeValue fuel t ts;
          decodeObject fuel (set out key v) ts
      | [TStr _] => Err EToken
      | _ :: _ => Err EMemberName
      end
  end
with decodeArray (fuel : nat) (out : list val) (ts : list token) : result decode_error (list val * list token) :=
  match fuel with
  | O => Err EFuel
  | S fuel =>
      match ts with
      | [] => Err EToken
      | TArrEnd :: ts => Ok (out, ts)
      | t :: ts =>
          '(v, ts) ← decodeValue fuel t ts;
          decodeArray fuel (out ++ [v])%list ts
      end
  end.

(** The fuel is one more than twice the number of tokens: each call consumes
    a token or is followed by one that does. *)
Definition DecodeValue (ts : list token) : result decode_error val :=
  match ts with
  | [] => Err EToken
  | t :: rest =>
      '(v, ts) ← decodeValue (S (2 * length ts)) t rest;
      match ts with [] => Ok v | _ => Err ETrailing end
  end.

(** The tokens of a document. *)
Fixpoint tokens (v : val) : list token :=
  match v with
  | VObj o => TObj :: concat (map (fun kv => TStr kv.1 :: tokens kv.2) o) ++ [TObjEnd]
  | VArr l => TArr :: concat (map tokens l) ++ [TArrEnd]
  | VUndef | VNull | VNilArr => [TNull]
  | VBool b => [TBool b]
  | VStr s => [TStr s]
  | VNum n => [TNum n]
  end%list.
