(* ===== verification/SessionState.v ===== *)
(** * Session projection: state and access paths ([internal/sessionstate/state.go])

    The observable state of every session and the private paths into it.  The
    code keeps pointers to parts of message rows; a pointer is modelled by the
    place of the part it points to, the session, the row and the position in
    the row's content.  Rows and parts only change place in operations that
    rebuild the paths of their session. *)

From S2P Require Import Prelude GoText SessionJson.
From Stdlib Require Import Ascii.

Open Scope string_scope.
Open Scope list_scope.
Open Scope Z_scope.

(** ** State *)

Record ProjectionState := MkState {
  Info : gmap string ref;
  Family : gmap string (list string);
  Active : gmap string string;
  Message : gmap string (list ref);
  Pending : gmap string (list ref);
  Permission : gmap string (list ref);
  Form : gmap string (list ref);
}.

Definition NewProjectionState : ProjectionState := MkState ∅ ∅ ∅ ∅ ∅ ∅ ∅.

(** [Clone] *)
Definition CloneState (s : ProjectionState) : ProjectionState :=
  MkState (Clone <$> Info s) (Family s) (Active s) (map Clone <$> Message s) (map Clone <$> Pending s)
          (map Clone <$> Permission s) (map Clone <$> Form s).

Record sessionIndex := MkIndex {
  pos : gmap string nat;
  openAssistants : list nat;
  runningCompactions : list nat;
  shells : gmap string nat;
}.

(** The place of a part. *)
Record part_ptr := Part {
  pt_session : string;
  pt_row : nat;
  pt_part : nat;
}.

Record Projection := MkProj {
  state : ProjectionState;
  index : gmap string sessionIndex;
  latestText : gmap string part_ptr;
  openReasoning : gmap string (list part_ptr);
  tools : gmap string part_ptr;
}.

Definition with_state (f : ProjectionState -> ProjectionState) (p : Projection) : Projection :=
  MkProj (f (state p)) (index p) (latestText p) (openReasoning p) (tools p).
Definition set_index (s : string) (i : sessionIndex) (p : Projection) : Projection :=
  MkProj (state p) (<[s := i]> (index p)) (latestText p) (openReasoning p) (tools p).
Definition set_latestText (k : string) (t : part_ptr) (p : Projection) : Projection :=
  MkProj (state p) (index p) (<[k := t]> (latestText p)) (openReasoning p) (tools p).
Definition set_openReasoning (m : gmap string (list part_ptr)) (p : Projection) : Projection :=
  MkProj (state p) (index p) (latestText p) m (tools p).
Definition set_tool (k : string) (t : part_ptr) (p : Projection) : Projection :=
  MkProj (state p) (index p) (latestText p) (openReasoning p) (<[k := t]> (tools p)).

Definition set_Info (m : gmap string ref) (s : ProjectionState) : ProjectionState :=
  MkState m (Family s) (Active s) (Message s) (Pending s) (Permission s) (Form s).
Definition set_Active (m : gmap string string) (s : ProjectionState) : ProjectionState :=
  MkState (Info s) (Family s) m (Message s) (Pending s) (Permission s) (Form s).
Definition set_Message (m : gmap string (list ref)) (s : ProjectionState) : ProjectionState :=
  MkState (Info s) (Family s) (Active s) m (Pending s) (Permission s) (Form s).
Definition set_Pending (m : gmap string (list ref)) (s : ProjectionState) : ProjectionState :=
  MkState (Info s) (Family s) (Active s) (Message s) m (Permission s) (Form s).
Definition set_Permission (m : gmap string (list ref)) (s : ProjectionState) : ProjectionState :=
  MkState (Info s) (Family s) (Active s) (Message s) (Pending s) m (Form s).
Definition set_Form (m : gmap string (list ref)) (s : ProjectionState) : ProjectionState :=
  MkState (Info s) (Family s) (Active s) (Message s) (Pending s) (Permission s) m.

(** [p.state.Message[sessionID]], nil when absent. *)
Definition rows (s : string) (p : Projection) : list ref := default [] (Message (state p) !! s).

Definition put_rows (s : string) (l : list ref) (p : Projection) : Projection :=
  with_state (fun st => set_Message (<[s := l]> (Message st)) st) p.

(** Writing through the pointer to the row at a position. *)
Definition put_row (s : string) (at_ : nat) (row : obj) (p : Projection) : Projection :=
  put_rows s (<[at_ := Some row]> (rows s p)) p.

(** ** Access paths *)

Definition NUL : string := String (ascii_of_nat 0) "".

Definition partKey (sessionID messageID suffix : string) : string :=
  String.append sessionID (String.append NUL (String.append messageID (String.append NUL suffix))).

Definition not_of_session (sessionID key : string) : bool :=
  negb (String.prefix (String.append sessionID NUL) key).

(** [maps.DeleteFunc]-like loops over the paths with the session's prefix. *)
Definition drop_session {A} (sessionID : string) (m : gmap string A) : gmap string A :=
  filter (fun kv => not_of_session sessionID kv.1 = true) m.

(** The registration of one part of an assistant row. *)
Definition registerPart (sessionID id : string) (at_ : nat) (p : Projection) (ie : nat * val) : Projection :=
  let '(i, entry) := ie in
  match objOf entry with
  | None => p
  | Some part =>
      let ptr := Part sessionID at_ i in
      let kind := str (get part "type") in
      if String.eqb kind "text" then set_latestText (partKey sessionID id "") ptr p
      else if String.eqb kind "reasoning" then
        (if negb (truthy (Get (objOf (get part "time")) "completed")) then
           let key := partKey sessionID id "" in
           set_openReasoning (<[key := default [] (openReasoning p !! key) ++ [ptr]]> (openReasoning p)) p
         else p)
      else if String.eqb kind "tool" then set_tool (partKey sessionID id (str (get part "id"))) ptr p
      else p
  end.

(** [registerRow]: the index it works on is a value here, returned. *)
Definition registerRow (sessionID : string) (idx : sessionIndex) (item : ref) (at_ : nat) (p : Projection)
  : sessionIndex * Projection :=
  let id := str (Get item "id") in
  let kind := str (Get item "type") in
  if String.eqb kind "assistant" then
    (if negb (truthy (Get (objOf (Get item "time")) "completed"))
     then MkIndex (pos idx) (openAssistants idx ++ [at_]) (runningCompactions idx) (shells idx) else idx,
     fold_left (registerPart sessionID id at_) (imap pair (items (Get item "content"))) p)
  else if String.eqb kind "compaction" then
    (if String.eqb (str (Get item "status")) "running"
     then MkIndex (pos idx) (openAssistants idx) (runningCompactions idx ++ [at_]) (shells idx) else idx, p)
  else if String.eqb kind "shell" then
    (MkIndex (pos idx) (openAssistants idx) (runningCompactions idx) (<[str (Get item "shellID") := at_]> (shells idx)), p)
  else (idx, p).

Definition register_at (sessionID : string) (acc : sessionIndex * Projection) (ie : nat * ref) : sessionIndex * Projection :=
  let '(idx, p) := acc in
  let '(at_, item) := ie in
  let idx := MkIndex (<[str (Get item "id") := at_]> (pos idx)) (openAssistants idx) (runningCompactions idx) (shells idx) in
  registerRow sessionID idx item at_ p.

Definition emptyIndex : sessionIndex := MkIndex ∅ [] [] ∅.

Definition rebuildIndexes (sessionID : string) (p : Projection) : Projection :=
  let p := MkProj (state p) (index p) (drop_session sessionID (latestText p))
             (drop_session sessionID (openReasoning p)) (drop_session sessionID (tools p)) in
  let '(idx, p) := fold_left (register_at sessionID) (imap pair (rows sessionID p)) (emptyIndex, p) in
  set_index sessionID idx p.

(** [New]: sessions are visited in some order of the map. *)
Definition New (st : ProjectionState) : Projection :=
  let st := CloneState st in
  fold_left (fun p s => rebuildIndexes s p) (fst <$> map_to_list (Message st)) (MkProj st ∅ ∅ ∅ ∅).

Definition messages (sessionID : string) (p : Projection) : Projection :=
  match Message (state p) !! sessionID with
  | Some _ => p
  | None => put_rows sessionID [] p
  end.

Definition indexFor (sessionID : string) (p : Projection) : Projection * sessionIndex :=
  match index p !! sessionID with
  | Some existing => (p, existing)
  | None => let p := rebuildIndexes sessionID p in (p, default emptyIndex (index p !! sessionID))
  end.

(** [message]: the position of the row and the row, when it is not nil. *)
Definition message (sessionID id : string) (p : Projection) : Projection * option (nat * obj) :=
  let '(p, idx) := indexFor sessionID p in
  match pos idx !! id with
  | None => (p, None)
  | Some at_ =>
      match (rows sessionID p !! at_ : option ref) with
      | Some (Some item) => (p, Some (at_, item))
      | Some None | None => (p, None)
      end
  end.

(** The last position of a path, with the row there; an index beyond the list
    is a panic, [None]. *)
Definition last_row (sessionID : string) (path : sessionIndex -> list nat) (p : Projection) : option (option (nat * ref)) :=
  match index p !! sessionID with
  | None => Some None
  | Some idx =>
      match last (path idx) with
      | None => Some None
      | Some at_ => row ← rows sessionID p !! at_; Some (Some (at_, row))
      end
  end.

Definition openAssistant (sessionID : string) : Projection -> option (option (nat * ref)) := last_row sessionID openAssistants.
Definition runningCompaction (sessionID : string) : Projection -> option (option (nat * ref)) := last_row sessionID runningCompactions.

Definition shell (sessionID shellID : string) (p : Projection) : option (option (nat * ref)) :=
  match index p !! sessionID with
  | None => Some None
  | Some idx =>
      match shells idx !! shellID with
      | None => Some None
      | Some at_ => row ← rows sessionID p !! at_; Some (Some (at_, row))
      end
  end.

(** The first occurrence of a position, removed. *)
Fixpoint remove_first (at_ : nat) (l : list nat) : list nat :=
  match l with
  | [] => []
  | x :: rest => if Nat.eqb x at_ then rest else x :: remove_first at_ rest
  end.

Definition update_index (sessionID : string) (f : sessionIndex -> sessionIndex) (p : Projection) : Projection :=
  match index p !! sessionID with None => p | Some idx => set_index sessionID (f idx) p end.

Definition closeAssistant (sessionID id : string) (p : Projection) : Projection :=
  update_index sessionID (fun idx =>
    match pos idx !! id with
    | None => idx
    | Some at_ => MkIndex (pos idx) (remove_first at_ (openAssistants idx)) (runningCompactions idx) (shells idx)
    end) p.

(** The new position, appended and swapped down while the one before it is
    greater. *)
Fixpoint swap_down (at_ : nat) (rev_before : list nat) : list nat :=
  match rev_before with
  | [] => [at_]
  | x :: rest => if Nat.ltb at_ x then swap_down at_ rest ++ [x] else rev rev_before ++ [at_]
  end.

Definition reopenAssistant (sessionID id : string) (p : Projection) : Projection :=
  update_index sessionID (fun idx =>
    match pos idx !! id with
    | None => idx
    | Some at_ =>
        if bool_decide (at_ ∈ openAssistants idx) then idx
        else MkIndex (pos idx) (swap_down at_ (rev (openAssistants idx))) (runningCompactions idx) (shells idx)
    end) p.

Definition endCompaction (sessionID : string) (at_ : nat) (p : Projection) : Projection :=
  update_index sessionID (fun idx =>
    MkIndex (pos idx) (openAssistants idx) (remove_first at_ (runningCompactions idx)) (shells idx)) p.

(** ** Inserting and editing rows *)

Definition insert (sessionID : string) (item : obj) (p : Projection) : Projection :=
  let p := messages sessionID p in
  let '(p, idx) := indexFor sessionID p in
  let id := str (get item "id") in
  match pos idx !! id with
  | Some _ => p
  | None =>
      let copied := Some (clone item) in
      let list := rows sessionID p ++ [copied] in
      let at_ := length (rows sessionID p) in
      let p := put_rows sessionID list p in
      let idx := MkIndex (<[id := at_]> (pos idx)) (openAssistants idx) (runningCompactions idx) (shells idx) in
      let '(idx, p) := registerRow sessionID idx copied at_ p in
      set_index sessionID idx p
  end.

(** An index beyond the list is a panic. *)
Definition upsertMessage (sessionID : string) (item : obj) (p : Projection) : option Projection :=
  let p := messages sessionID p in
  let list := rows sessionID p in
  let found := idx ← index p !! sessionID; pos idx !! str (get item "id") in
  match found with
  | None => Some (rebuildIndexes sessionID (put_rows sessionID (list ++ [Some (clone item)]) p))
  | Some at_ =>
      if Nat.ltb at_ (length list)
      then Some (rebuildIndexes sessionID (put_rows sessionID (<[at_ := Some (clone item)]> list) p))
      else None
  end.

(** [edit] is given the row with its position; it writes what it changes. *)
Definition editAssistant (sessionID id : string) (edit : nat -> obj -> Projection -> option Projection) (p : Projection)
  : option Projection :=
  match message sessionID id p with
  | (p, Some (at_, item)) => if String.eqb (str (get item "type")) "assistant" then edit at_ item p else Some p
  | (p, None) => Some p
  end.

(** Writing through the pointer to a part. *)
Definition part_at (ptr : part_ptr) (p : Projection) : option obj :=
  row ← (rows (pt_session ptr) p !! pt_row ptr : option ref);
  row ← (row : option obj);
  entry ← items (get row "content") !! pt_part ptr;
  objOf entry.

Definition put_part (ptr : part_ptr) (part : obj) (p : Projection) : Projection :=
  match (rows (pt_session ptr) p !! pt_row ptr : option ref) with
  | Some (Some row) =>
      put_row (pt_session ptr) (pt_row ptr)
        (set row "content" (VArr (<[pt_part ptr := VObj part]> (items (get row "content"))))) p
  | _ => p
  end.

Definition edit_part (ptr : part_ptr) (edit : obj -> option obj) (p : Projection) : option Projection :=
  match part_at ptr p with
  | None => Some p
  | Some part => part ← edit part; Some (put_part ptr part p)
  end.

Definition editText (sessionID id : string) (edit : obj -> option obj) : Projection -> option Projection :=
  editAssistant sessionID id (fun _ _ p =>
    match latestText p !! partKey sessionID id "" with
    | None => Some p
    | Some ptr => edit_part ptr edit p
    end).

Definition editReasoning (sessionID id : string) (edit : obj -> option obj) : Projection -> option Projection :=
  editAssistant sessionID id (fun _ _ p =>
    let key := partKey sessionID id "" in
    let stack := default [] (openReasoning p !! key) in
    match last stack with
    | None => Some p
    | Some ptr =>
        p ← edit_part ptr edit p;
        if negb (truthy (Get (objOf (Get (part_at ptr p) "time")) "completed")) then Some p
        else
          let stack := removelast stack in
          Some (set_openReasoning
                  (match stack with [] => base.delete key (openReasoning p) | _ => <[key := stack]> (openReasoning p) end) p)
    end).

Definition editTool (sessionID id toolID : string) (edit : obj -> option obj) : Projection -> option Projection :=
  editAssistant sessionID id (fun _ _ p =>
    match tools p !! partKey sessionID id toolID with
    | None => Some p
    | Some ptr => edit_part ptr edit p
    end).

Definition keep_others (sessionID : string) (members : list string) : list string :=
  List.filter (fun m => negb (String.eqb m sessionID)) members.

Definition removeSession (sessionID : string) (p : Projection) : Projection :=
  let st := state p in
  let family := omap (fun members => match keep_others sessionID members with [] => None | kept => Some kept end) (Family st) in
  MkProj
    (MkState (base.delete sessionID (Info st)) family (base.delete sessionID (Active st))
       (base.delete sessionID (Message st)) (base.delete sessionID (Pending st))
       (base.delete sessionID (Permission st)) (base.delete sessionID (Form st)))
    (base.delete sessionID (index p))
    (drop_session sessionID (latestText p)) (drop_session sessionID (openReasoning p)) (drop_session sessionID (tools p)).

Definition filterOutID (l : list ref) (id : string) : list ref :=
  List.filter (fun item => negb (String.eqb (str (Get item "id")) id)) l.

Definition indexOfID (l : list ref) (id : string) : option nat :=
  fst <$> list_find (fun item => str (Get item "id") = id) l.

Definition Snapshot (p : Projection) : ProjectionState := CloneState (state p).
