(* ===== verification/SessionReduce.v ===== *)
(** * Session projection: the reducer ([internal/sessionstate/reduce.go])

    One definition per event handler.  [None] is a panic: a write through a
    nil object or an index out of range. *)

From S2P Require Import Prelude GoText SessionJson SessionState.
From Stdlib Require Import Ascii.

Open Scope string_scope.
Open Scope list_scope.
Open Scope Z_scope.

Definition eventMessageID (id : string) : string :=
  if String.prefix "evt_" id then String.append "msg_" (String.substring 4 (String.length id - 4) id) else id.

Definition concat2 (a b : val) : val := VStr (String.append (jsString a) (jsString b)).

Definition setDefined (target : obj) (key : string) (v : val) : obj := if isUndefined v then target else set target key v.

Definition mk (pairs : list (string * val)) : obj := fold_left (fun o kv => set o kv.1 kv.2) pairs [].

(** [objOf(o.Get(k)).Set(key, v)] *)
Definition set_in (o : obj) (k key : string) (v : val) : option obj :=
  match objOf (get o k) with
  | Some t => Some (set o k (VObj (set t key v)))
  | None => if isUndefined v then Some o else None
  end.

(** [objOf(o.Get(k)).Delete(key)] *)
Definition delete_in (o : obj) (k key : string) : obj :=
  match objOf (get o k) with
  | Some t => set o k (VObj (Delete t key))
  | None => o
  end.

Definition appendContent (assistant : obj) (part : obj) : obj :=
  set assistant "content" (VArr (items (get assistant "content") ++ [VObj part])).

(** The events of the first transcript part of the content. *)
Fixpoint content_transcript (content : list val) : option (list val) :=
  match content with
  | [] => None
  | v :: rest =>
      if String.eqb (str (Get (objOf v) "type")) "transcript" then arrOf (cloneValue (Get (objOf v) "events"))
      else content_transcript rest
  end.

Definition toolProgressMetadata (st : ref) (value : val) : val :=
  match objOf value with
  | Some incoming =>
      if String.eqb (str (get incoming "mode")) "append" then
        let existing :=
          match arrOf (Get (objOf (Get st "metadata")) "transcript") with
          | Some l => Some l
          | None => content_transcript (items (Get st "content"))
          end in
        let added := map cloneValue (items (get incoming "transcript")) in
        let transcript := match existing, added with None, [] => VNilArr | _, _ => VArr (default [] existing ++ added) end in
        VObj (set (Delete (clone incoming) "mode") "transcript" transcript)
      else cloneValue value
  | None => cloneValue value
  end.

(** ** Shared state edits *)

(** [if info, ok := p.state.Info[sessionID]; ok { ... }] *)
Definition edit_info (sessionID : string) (edit : ref -> option ref) (p : Projection) : option Projection :=
  match Info (state p) !! sessionID with
  | None => Some p
  | Some info => info ← edit info; Some (with_state (fun st => set_Info (<[sessionID := info]> (Info st)) st) p)
  end.

Definition pending_rows (sessionID : string) (p : Projection) : list ref := default [] (Pending (state p) !! sessionID).
Definition put_pending (sessionID : string) (l : list ref) : Projection -> Projection :=
  with_state (fun st => set_Pending (<[sessionID := l]> (Pending st)) st).
Definition permission_rows (sessionID : string) (p : Projection) : list ref := default [] (Permission (state p) !! sessionID).
Definition put_permission (sessionID : string) (l : list ref) : Projection -> Projection :=
  with_state (fun st => set_Permission (<[sessionID := l]> (Permission st)) st).
Definition form_rows (sessionID : string) (p : Projection) : list ref := default [] (Form (state p) !! sessionID).
Definition put_form (sessionID : string) (l : list ref) : Projection -> Projection :=
  with_state (fun st => set_Form (<[sessionID := l]> (Form st)) st).

(** ** Handlers *)

Definition created_time (event : ref) : val := VObj (mk [("created", Get event "created")]).

Definition new_id (event : ref) : val := VStr (eventMessageID (str (Get event "id"))).

Definition agentSelected (event : ref) (d : obj) (s : string) (p : Projection) : option Projection :=
  let previous := Get (default None (Info (state p) !! s)) "agent" in
  p ← edit_info s (fun i => Set_ i "agent" (cloneValue (get d "agent"))) p;
  Some (insert s (mk [("id", new_id event); ("type", VStr "agent-switched"); ("agent", cloneValue (get d "agent"));
                      ("previous", previous); ("time", created_time event)]) p).

Definition modelSelected (event : ref) (d : obj) (s : string) (p : Projection) : option Projection :=
  p ← edit_info s (fun i => Set_ i "model" (cloneValue (get d "model"))) p;
  match Message (state p) !! s with
  | None => Some p
  | Some _ =>
      Some (insert s (mk [("id", new_id event); ("type", VStr "model-switched"); ("model", cloneValue (get d "model"));
                          ("time", created_time event)]) p)
  end.

Definition moved (event : ref) (d : obj) (s : string) (p : Projection) : option Projection :=
  match Info (state p) !! s with
  | None => Some p
  | Some info =>
      let previous := mk [("location", cloneValue (Get info "location")); ("projectID", Get info "projectID");
                          ("subpath", Get info "subpath")] in
      info ← Set_ info "location" (cloneValue (get d "location"));
      info ← (if truthy (get d "projectID") then Set_ info "projectID" (get d "projectID") else Some info);
      info ← Set_ info "subpath" (get d "subpath");
      let p := with_state (fun st => set_Info (<[s := info]> (Info st)) st) p in
      Some (insert s (mk [("id", new_id event); ("type", VStr "location-switched"); ("location", cloneValue (get d "location"));
                          ("projectID", get d "projectID"); ("subpath", get d "subpath"); ("previous", VObj previous);
                          ("time", created_time event)]) p)
  end.

Definition copy_members (target : obj) (source : ref) : obj :=
  fold_left (fun o key => set o key (cloneValue (Get source key))) (Keys source) target.

Definition enqueued_item (event : ref) (d : obj) (s : string) : obj :=
  copy_members (mk [("id", get d "inboxID"); ("sessionID", VStr s); ("timeCreated", Get event "created")]) (objOf (get d "item")).

Definition admitted_row (item : obj) : obj :=
  set (copy_members (mk [("id", get item "id"); ("type", VStr (str (get item "type")))]) (objOf (get item "payload")))
    "time" (VObj (mk [("created", get item "timeCreated")])).

Definition admit_item (item : obj) (p : Projection) : option Projection :=
  let s := str (get item "sessionID") in
  let list := pending_rows s p in
  let p := put_pending s
    (match indexOfID list (str (get item "id")) with
     | None => list ++ [Some (clone item)]
     | Some at_ => <[at_ := Some (clone item)]> list
     end) p in
  let kind := str (get item "type") in
  if negb (String.eqb kind "user") && negb (String.eqb kind "synthetic") then Some p
  else upsertMessage s (admitted_row item) p.

Definition retract (s id : string) (p : Projection) : option Projection :=
  let p := match Pending (state p) !! s with
           | Some list => match indexOfID list id with Some _ => put_pending s (filterOutID list id) p | None => p end
           | None => p
           end in
  match index p !! s with
  | None => Some p
  | Some idx =>
      match pos idx !! id with
      | None => Some p
      | Some _ => Some (rebuildIndexes s (put_rows s (filterOutID (rows s p) id) p))
      end
  end.

Definition deliver (s id : string) (created : val) (p : Projection) : option Projection :=
  let admitted := match Pending (state p) !! s with Some l => bool_decide (is_Some (indexOfID l id)) | None => false end in
  let p := if admitted then put_pending s (filterOutID (pending_rows s p) id) p else p in
  match Message (state p) !! s with
  | None => Some p
  | Some list =>
      match indexOfID list id with
      | Some at_ =>
          if negb admitted then Some p
          else
            match (list !! at_ : option ref) with
            | Some (Some row) =>
                row ← set_in row "time" "created" created;
                Some (rebuildIndexes s (put_rows s (list_delete at_ list ++ [Some row]) p))
            | _ => if isUndefined created then Some (rebuildIndexes s (put_rows s (list_delete at_ list ++ [None]) p)) else None
            end
      | None => Some p
      end
  end.

Definition updatePending (s id : string) (delivery : val) (p : Projection) : option Projection :=
  match Pending (state p) !! s with
  | None => Some p
  | Some list =>
      match indexOfID list id with
      | None => Some p
      | Some at_ =>
          let row := default None (list !! at_) in
          if bool_decide (jsonKey [Get row "delivery"] = jsonKey [delivery]) then Some p
          else row ← Set_ row "delivery" (cloneValue delivery); Some (put_pending s (<[at_ := row]> list) p)
      end
  end.

Definition instructionsUpdated (event : ref) (d : obj) (s : string) (p : Projection) : option Projection :=
  if isUndefined (get d "text") then Some p
  else
    let row := mk [("id", new_id event); ("type", VStr "system"); ("text", get d "text");
                   ("description", VStr (String.append "Instructions updated: " (String.concat ", " (Keys (objOf (get d "delta"))))))] in
    let row := if isUndefined (Get event "metadata") then row else set row "metadata" (cloneValue (Get event "metadata")) in
    Some (insert s (set row "time" (created_time event)) p).

Definition synthetic (event : ref) (d : obj) (s : string) (p : Projection) : option Projection :=
  Some (insert s (mk [("id", new_id event); ("type", VStr "synthetic"); ("text", get d "text"); ("description", get d "description");
                      ("metadata", cloneValue (get d "metadata")); ("time", created_time event)]) p).

Definition shellStarted (event : ref) (d : obj) (s : string) (p : Projection) : option Projection :=
  let sh := objOf (get d "shell") in
  let metadata :=
    match Get (objOf (Get sh "metadata")) "background" with
    | VBool true => VObj (set (default [] (Clone (objOf (Get event "metadata")))) "background" (VBool true))
    | _ => Get event "metadata"
    end in
  Some (insert s (mk [("id", new_id event); ("type", VStr "shell"); ("shellID", Get sh "id"); ("command", Get sh "command");
                      ("status", Get sh "status"); ("exit", Get sh "exit"); ("metadata", cloneValue metadata);
                      ("time", created_time event)]) p).

Definition shell_end_row (event : ref) (d : obj) (row : obj) : option obj :=
  let sh := objOf (get d "shell") in
  set_in (set (set (set row "status" (Get sh "status")) "exit" (Get sh "exit")) "output" (cloneValue (get d "output")))
    "time" "completed" (Get event "created").

Definition shellEnded (event : ref) (d : obj) (s : string) (p : Projection) : option Projection :=
  found ← shell s (str (Get (objOf (get d "shell")) "id")) p;
  match found with
  | Some (at_, Some row) => row ← shell_end_row event d row; Some (put_row s at_ row p)
  | _ => Some p
  end.

Definition snapshot_with (row : obj) (key : string) (v : val) : obj :=
  if truthy v then set row "snapshot" (VObj (set (default [] (Clone (objOf (get row "snapshot")))) key v)) else row.

Definition restarted_row (d : obj) (row : obj) : obj :=
  let row := set (set row "agent" (get d "agent")) "model" (cloneValue (get d "model")) in
  let row := fold_left Delete ["retry"; "error"; "finish"; "rawFinish"; "providerState"] row in
  delete_in (delete_in row "time" "streamed") "time" "completed".

Definition started_row (event : ref) (d : obj) (assistantID : string) : obj :=
  let row := mk [("id", VStr assistantID); ("type", VStr "assistant"); ("agent", get d "agent"); ("model", cloneValue (get d "model"));
                 ("metadata", cloneValue (Get event "metadata")); ("content", VArr [])] in
  let row := if truthy (get d "snapshot") then set row "snapshot" (VObj (mk [("start", get d "snapshot")])) else row in
  set row "time" (created_time event).

(** The open assistant row is completed when another one starts. *)
Definition close_current (created : val) (s : string) (p : Projection) : option Projection :=
  current ← openAssistant s p;
  match current with
  | Some (at_, Some row) =>
      row ← set_in (Delete row "retry") "time" "completed" created;
      Some (closeAssistant s (str (get row "id")) (put_row s at_ row p))
  | _ => Some p
  end.

Definition stepStarted (event : ref) (d : obj) (s assistantID : string) (p : Projection) : option Projection :=
  let fresh p := p ← close_current (Get event "created") s p; Some (insert s (started_row event d assistantID) p) in
  match message s assistantID p with
  | (p, Some (at_, existing)) =>
      if String.eqb (str (get existing "type")) "assistant" then
        let row := restarted_row d existing in
        let p := reopenAssistant s assistantID (put_row s at_ row p) in
        Some (put_row s at_ (snapshot_with row "start" (get d "snapshot")) p)
      else fresh p
  | (p, None) => fresh p
  end.

Definition ended_row (event : ref) (d : obj) (a : obj) : option obj :=
  a ← set_in a "time" "completed" (Get event "created");
  let a := set (set (set a "finish" (get d "finish")) "rawFinish" (get d "rawFinish")) "providerState" (cloneValue (get d "providerState")) in
  let a := set (set a "cost" (get d "cost")) "tokens" (cloneValue (get d "tokens")) in
  Some (snapshot_with a "end" (get d "snapshot")).

Definition stepEnded (event : ref) (d : obj) (s assistantID : string) : Projection -> option Projection :=
  editAssistant s assistantID (fun at_ a p =>
    a ← ended_row event d a; Some (closeAssistant s assistantID (put_row s at_ a p))).

Definition failed_row (event : ref) (d : obj) (a : obj) : option obj :=
  a ← set_in a "time" "completed" (Get event "created");
  let a := set (set a "finish" (coalesce (get d "finish") (VStr "error"))) "rawFinish" (get d "rawFinish") in
  let a := set (set a "providerState" (cloneValue (get d "providerState"))) "error" (cloneValue (get d "error")) in
  let a := Delete a "retry" in
  Some (if negb (isUndefined (get d "cost")) && negb (isUndefined (get d "tokens"))
        then set (set a "cost" (get d "cost")) "tokens" (cloneValue (get d "tokens")) else a).

Definition stepFailed (event : ref) (d : obj) (s assistantID : string) : Projection -> option Projection :=
  editAssistant s assistantID (fun at_ a p =>
    a ← failed_row event d a; Some (closeAssistant s assistantID (put_row s at_ a p))).

(** ** Parts *)

(** The place of the part [appendContent] adds to a row. *)
Definition new_part (s : string) (at_ : nat) (a : obj) : part_ptr := Part s at_ (length (items (get a "content"))).

Definition textStarted (s assistantID : string) : Projection -> option Projection :=
  editAssistant s assistantID (fun at_ a p =>
    Some (set_latestText (partKey s assistantID "") (new_part s at_ a)
            (put_row s at_ (appendContent a (mk [("type", VStr "text"); ("text", VStr "")])) p))).

Definition toolInputStarted (event : ref) (d : obj) (s assistantID : string) : Projection -> option Projection :=
  editAssistant s assistantID (fun at_ a p =>
    let part := mk [("type", VStr "tool"); ("id", get d "id"); ("name", get d "name"); ("time", created_time event);
                    ("state", VObj (mk [("status", VStr "streaming"); ("input", VStr "")]))] in
    Some (set_tool (partKey s assistantID (str (get d "id"))) (new_part s at_ a) (put_row s at_ (appendContent a part) p))).

Definition reasoningStarted (event : ref) (d : obj) (s assistantID : string) : Projection -> option Projection :=
  editAssistant s assistantID (fun at_ a p =>
    let part := mk [("type", VStr "reasoning"); ("text", VStr ""); ("state", cloneValue (get d "state")); ("time", created_time event)] in
    let p := put_row s at_ (appendContent a part) p in
    let key := partKey s assistantID "" in
    Some (set_openReasoning (<[key := default [] (openReasoning p !! key) ++ [new_part s at_ a]]> (openReasoning p)) p)).

Definition status_of (t : obj) : string := str (Get (objOf (get t "state")) "status").

Definition inputDelta (d : obj) (t : obj) : option obj :=
  if String.eqb (status_of t) "streaming"
  then set_in t "state" "input" (concat2 (Get (objOf (get t "state")) "input") (get d "delta")) else Some t.

Definition inputEnded (d : obj) (t : obj) : option obj :=
  if String.eqb (status_of t) "streaming" then set_in t "state" "input" (get d "text") else Some t.

Definition toolCalled (event : ref) (d : obj) (t : obj) : option obj :=
  t ← set_in t "time" "ran" (Get event "created");
  let t := set (set t "executed" (get d "executed")) "providerState" (cloneValue (get d "state")) in
  Some (set t "state" (VObj (mk [("status", VStr "running"); ("input", cloneValue (get d "input")); ("metadata", VObj [])]))).

Definition toolProgress (d : obj) (t : obj) : option obj :=
  if String.eqb (status_of t) "running" || String.eqb (status_of t) "completed" || String.eqb (status_of t) "error"
  then set_in t "state" "metadata" (toolProgressMetadata (objOf (get t "state")) (get d "metadata")) else Some t.

Definition executedAfterResult (d t : obj) : val :=
  if truthy (get d "executed") then get d "executed"
  else VBool (match get t "executed" with VBool b => b | _ => false end).

Definition result_metadata (d : obj) (st : ref) : val :=
  if isUndefined (get d "metadata") then Get st "metadata" else get d "metadata".

Definition finish_tool (event : ref) (d : obj) (t : obj) (st : obj) : option obj :=
  let t := set t "state" (VObj st) in
  let t := set t "executed" (executedAfterResult d t) in
  set_in (set t "providerResultState" (cloneValue (get d "resultState"))) "time" "completed" (Get event "created").

Definition toolSuccess (event : ref) (d : obj) (t : obj) : option obj :=
  let st := objOf (get t "state") in
  if negb (String.eqb (status_of t) "running") then Some t
  else finish_tool event d t
         (mk [("status", VStr "completed"); ("input", cloneValue (Get st "input"));
              ("metadata", cloneValue (result_metadata d st)); ("content", cloneValue (get d "content"))]).

Definition toolFailed (event : ref) (d : obj) (t : obj) : option obj :=
  let st := objOf (get t "state") in
  if negb (String.eqb (status_of t) "streaming") && negb (String.eqb (status_of t) "running") then Some t
  else
    let input := match Get st "input" with VStr _ => VObj [] | v => cloneValue v end in
    finish_tool event d t
      (mk [("status", VStr "error"); ("error", cloneValue (get d "error")); ("input", input);
           ("metadata", cloneValue (result_metadata d st)); ("content", cloneValue (get d "content"))]).

Definition reasoningEnded (event : ref) (d : obj) (r : obj) : option obj :=
  let r := set r "text" (get d "text") in
  let r := set r "time" (VObj (mk [("created", coalesce (Get (objOf (get r "time")) "created") (Get event "created"));
                                   ("completed", Get event "created")])) in
  Some (if isUndefined (get d "state") then r else set r "state" (cloneValue (get d "state"))).

(** ** Execution, reverts and compaction *)

Definition set_active (s status : string) : Projection -> Projection :=
  with_state (fun st => set_Active (<[s := status]> (Active st)) st).

Definition executionEnded (s : string) (p : Projection) : option Projection :=
  let p := set_active s "idle" p in
  assistant ← openAssistant s p;
  match assistant with
  | Some (at_, Some row) => Some (put_row s at_ (Delete row "retry") p)
  | _ => Some p
  end.

Definition revertCommitted (s to : string) (p : Projection) : option Projection :=
  p ← edit_info s (fun i => Some ((fun o => Delete o "revert") <$> i)) p;
  let p := put_pending s (List.filter (fun item => String.ltb (str (Get item "id")) to) (pending_rows s p)) p in
  match list_find (fun item => String.ltb (str (Get item "id")) to = false) (rows s p) with
  | None => Some p
  | Some (at_, _) => Some (rebuildIndexes s (put_rows s (take at_ (rows s p)) p))
  end.

Definition drop_input (d : obj) (s : string) (p : Projection) : Projection :=
  if truthy (get d "inputID") then put_pending s (filterOutID (pending_rows s p) (str (get d "inputID"))) p else p.

Definition compactionStarted (event : ref) (d : obj) (s : string) (p : Projection) : option Projection :=
  let p := drop_input d s p in
  Some (insert s (mk [("id", coalesce (get d "inputID") (new_id event)); ("type", VStr "compaction"); ("status", VStr "running");
                      ("reason", get d "reason"); ("summary", VStr ""); ("recent", coalesce (get d "recent") (VStr ""));
                      ("time", created_time event)]) p).

Definition compactionDelta (d : obj) (s : string) (p : Projection) : option Projection :=
  running ← runningCompaction s p;
  match running with
  | Some (at_, Some row) => Some (put_row s at_ (set row "summary" (concat2 (get row "summary") (get d "text"))) p)
  | _ => Some p
  end.

Definition compactionFields (d : obj) : list (string * val) :=
  [("status", VStr "completed"); ("reason", get d "reason"); ("model", cloneValue (get d "model"));
   ("providerState", cloneValue (get d "providerState")); ("providerContext", cloneValue (get d "providerContext"));
   ("summary", get d "text"); ("recent", get d "recent"); ("cost", get d "cost"); ("tokens", cloneValue (get d "tokens"))].

Definition compactionEnded (event : ref) (d : obj) (s : string) (p : Projection) : option Projection :=
  running ← runningCompaction s p;
  match running with
  | Some (at_, Some row) =>
      let row := fold_left (fun r kv => setDefined r kv.1 kv.2) (compactionFields d) row in
      Some (endCompaction s at_ (put_row s at_ row p))
  | _ =>
      let inserted := fold_left (fun r kv => set r kv.1 kv.2) (compactionFields d)
                        (mk [("id", new_id event); ("type", VStr "compaction")]) in
      Some (insert s (set inserted "time" (created_time event)) p)
  end.

Definition failed_compaction (event : ref) (d : obj) (row : ref) : obj :=
  let id := if isUndefined (Get row "id") then coalesce (get d "inputID") (new_id event) else Get row "id" in
  let defaultError := VObj (mk [("type", VStr "compaction.failed"); ("message", VStr "Compaction failed before recording an error")]) in
  let metadata := match row with Some _ => Get row "metadata" | None => Get event "metadata" end in
  let time := match row with Some _ => cloneValue (Get row "time") | None => created_time event end in
  mk [("id", id); ("type", VStr "compaction"); ("status", VStr "failed"); ("reason", coalesce (get d "reason") (VStr "manual"));
      ("error", cloneValue (coalesce (get d "error") defaultError)); ("metadata", cloneValue metadata);
      ("cost", get d "cost"); ("tokens", cloneValue (get d "tokens")); ("time", time)].

Definition compactionFailed (event : ref) (d : obj) (s : string) (p : Projection) : option Projection :=
  let p := messages s (drop_input d s p) in
  running ← runningCompaction s p;
  match running with
  | Some (at_, Some row) => Some (endCompaction s at_ (put_row s at_ (failed_compaction event d (Some row)) p))
  | _ => Some (insert s (failed_compaction event d None) p)
  end.

(** ** Forms and permissions *)

Definition keep_form (s id : string) (location_ref : ref) (form : ref) : bool :=
  if negb (String.eqb (str (Get form "id")) id) then true
  else
    match location_ref, objOf (Get form "location") with
    | Some r, Some l =>
        String.eqb s "global"
        && negb (bool_decide (jsonKey [get l "directory"; get l "workspaceID"] = jsonKey [get r "directory"; get r "workspaceID"]))
    | _, _ => false
    end.

Definition removeForm (s id : string) (location_ref : ref) (p : Projection) : option Projection :=
  match Form (state p) !! s with
  | None => Some p
  | Some forms => Some (put_form s (List.filter (keep_form s id location_ref) forms) p)
  end.

Definition formCreated (event : ref) (d : obj) (p : Projection) : option Projection :=
  if negb (truthy (Get event "location")) then Some p
  else
    let form := objOf (get d "form") in
    let owner := str (Get form "sessionID") in
    let list := form_rows owner p in
    let p := put_form owner list p in
    match indexOfID list (str (Get form "id")) with
    | Some _ => Some p
    | None =>
        row ← (if String.eqb owner "global" then Set_ (Clone form) "location" (cloneValue (Get event "location")) else Some (Clone form));
        Some (put_form owner (list ++ [row]) p)
    end.

Definition permissionAsked (d : obj) (s : string) (p : Projection) : option Projection :=
  let list := permission_rows s p in
  match indexOfID list (str (get d "id")) with
  | Some _ => Some (put_permission s list p)
  | None => Some (put_permission s (list ++ [Some (clone d)]) p)
  end.

Definition permissionReplied (event : ref) (d : obj) (s : string) (p : Projection) : option Projection :=
  match Permission (state p) !! s with
  | None => Some p
  | Some list =>
      match indexOfID list (str (get d "requestID")) with
      | None => Some p
      | Some at_ =>
          row ← Set_ (default None (list !! at_)) "reply" (cloneValue (get d "reply"));
          row ← Set_ row "repliedAt" (Get event "created");
          Some (put_permission s (<[at_ := row]> list) p)
      end
  end.

(** ** The reducer *)

Definition connection_row (event : ref) (d : obj) (assistantID : string) : obj :=
  mk [("id", VStr assistantID); ("type", VStr "connection"); ("state", cloneValue (get d "state"));
      ("message", cloneValue (get d "message")); ("attempt", cloneValue (get d "attempt")); ("time", created_time event)].

Definition retry_row (d : obj) (a : obj) : obj :=
  set a "retry" (VObj (mk [("attempt", get d "attempt"); ("at", get d "at"); ("error", cloneValue (get d "error"))])).

Inductive kind :=
| KDeleted | KUsage | KAgent | KModel | KPermissions | KMoved
| KEnqueued | KDelivered | KDeliveryChanged | KCancelled | KInstructions | KSynthetic
| KShellStarted | KShellEnded | KStepStarted | KStepStreamed | KStepEnded | KStepFailed
| KTextStarted | KTextDelta | KTextEnded | KInputStarted | KInputDelta | KInputEnded
| KToolCalled | KToolProgress | KToolSuccess | KToolFailed
| KReasoningStarted | KReasoningDelta | KReasoningEnded | KConnection | KRetry
| KExecutionStarted | KExecutionEnded | KRevertStaged | KRevertCleared | KRevertCommitted
| KCompactionStarted | KCompactionDelta | KCompactionEnded | KCompactionFailed
| KPermissionAsked | KPermissionReplied | KFormRemoved | KFormCreated.

(** The cases of the switch over the event type. *)
Definition kinds : list (string * kind) :=
  [("session.deleted", KDeleted); ("session.usage.updated", KUsage); ("session.agent.selected", KAgent);
   ("session.model.selected", KModel); ("session.permissions.updated", KPermissions); ("session.moved", KMoved);
   ("session.inbox.enqueued", KEnqueued); ("session.inbox.delivered", KDelivered);
   ("session.inbox.delivery.changed", KDeliveryChanged); ("session.inbox.cancelled", KCancelled);
   ("session.instructions.updated", KInstructions); ("session.synthetic", KSynthetic);
   ("session.shell.started", KShellStarted); ("session.shell.ended", KShellEnded);
   ("session.step.started", KStepStarted); ("session.step.streamed", KStepStreamed);
   ("session.step.ended", KStepEnded); ("session.step.failed", KStepFailed);
   ("session.text.started", KTextStarted); ("session.text.delta", KTextDelta); ("session.text.ended", KTextEnded);
   ("session.tool.input.started", KInputStarted); ("session.tool.input.delta", KInputDelta);
   ("session.tool.input.ended", KInputEnded); ("session.tool.called", KToolCalled);
   ("session.tool.progress", KToolProgress); ("session.tool.success", KToolSuccess); ("session.tool.failed", KToolFailed);
   ("session.reasoning.started", KReasoningStarted); ("session.reasoning.delta", KReasoningDelta);
   ("session.reasoning.ended", KReasoningEnded); ("session.connection", KConnection); ("session.retry.scheduled", KRetry);
   ("session.execution.started", KExecutionStarted); ("session.execution.succeeded", KExecutionEnded);
   ("session.execution.failed", KExecutionEnded); ("session.execution.interrupted", KExecutionEnded);
   ("session.revert.staged", KRevertStaged); ("session.revert.cleared", KRevertCleared);
   ("session.revert.committed", KRevertCommitted); ("session.compaction.started", KCompactionStarted);
   ("session.compaction.delta", KCompactionDelta); ("session.compaction.ended", KCompactionEnded);
   ("session.compaction.failed", KCompactionFailed); ("permission.asked", KPermissionAsked);
   ("permission.replied", KPermissionReplied); ("form.replied", KFormRemoved); ("form.cancelled", KFormRemoved);
   ("form.created", KFormCreated)].

Definition kind_of (type : string) : option kind := snd <$> List.find (fun tk => String.eqb tk.1 type) kinds.

Definition event_data (event : ref) : obj := default [] (objOf (Get event "data")).

Definition apply_kind (k : kind) (event : ref) (p : Projection) : option Projection :=
  let d := event_data event in
  let s := str (get d "sessionID") in
  let created := Get event "created" in
  let a := str (get d "assistantMessageID") in
  match k with
  | KDeleted => Some (removeSession s p)
  | KUsage => edit_info s (fun i => i ← Set_ i "cost" (get d "cost"); Set_ i "tokens" (cloneValue (get d "tokens"))) p
  | KAgent => agentSelected event d s p
  | KModel => modelSelected event d s p
  | KPermissions => edit_info s (fun i => Set_ i "permissions" (cloneValue (get d "permissions"))) p
  | KMoved => moved event d s p
  | KEnqueued => admit_item (enqueued_item event d s) p
  | KDelivered => deliver s (str (get d "inboxID")) created p
  | KDeliveryChanged => updatePending s (str (get d "inboxID")) (get d "delivery") p
  | KCancelled => retract s (str (get d "inboxID")) p
  | KInstructions => instructionsUpdated event d s p
  | KSynthetic => synthetic event d s p
  | KShellStarted => shellStarted event d s p
  | KShellEnded => shellEnded event d s p
  | KStepStarted => stepStarted event d s a p
  | KStepStreamed => editAssistant s a (fun at_ row p => row ← set_in row "time" "streamed" created; Some (put_row s at_ row p)) p
  | KStepEnded => stepEnded event d s a p
  | KStepFailed => stepFailed event d s a p
  | KTextStarted => textStarted s a p
  | KTextDelta => editText s a (fun t => Some (set t "text" (concat2 (get t "text") (get d "delta")))) p
  | KTextEnded => editText s a (fun t => Some (set t "text" (get d "text"))) p
  | KInputStarted => toolInputStarted event d s a p
  | KInputDelta => editTool s a (str (get d "id")) (inputDelta d) p
  | KInputEnded => editTool s a (str (get d "id")) (inputEnded d) p
  | KToolCalled => editTool s a (str (get d "id")) (toolCalled event d) p
  | KToolProgress => editTool s a (str (get d "id")) (toolProgress d) p
  | KToolSuccess => editTool s a (str (get d "id")) (toolSuccess event d) p
  | KToolFailed => editTool s a (str (get d "id")) (toolFailed event d) p
  | KReasoningStarted => reasoningStarted event d s a p
  | KReasoningDelta => editReasoning s a (fun r => Some (set r "text" (concat2 (get r "text") (get d "delta")))) p
  | KReasoningEnded => editReasoning s a (reasoningEnded event d) p
  | KConnection => upsertMessage s (connection_row event d a) p
  | KRetry => editAssistant s a (fun at_ row p => Some (put_row s at_ (retry_row d row) p)) p
  | KExecutionStarted => Some (set_active s "running" p)
  | KExecutionEnded => executionEnded s p
  | KRevertStaged => edit_info s (fun i => Set_ i "revert" (cloneValue (get d "revert"))) p
  | KRevertCleared => edit_info s (fun i => Some ((fun o => Delete o "revert") <$> i)) p
  | KRevertCommitted => revertCommitted s (str (get d "to")) p
  | KCompactionStarted => compactionStarted event d s p
  | KCompactionDelta => compactionDelta d s p
  | KCompactionEnded => compactionEnded event d s p
  | KCompactionFailed => compactionFailed event d s p
  | KPermissionAsked => permissionAsked d s p
  | KPermissionReplied => permissionReplied event d s p
  | KFormRemoved => removeForm s (str (get d "id")) (objOf (Get event "location")) p
  | KFormCreated => formCreated event d p
  end.

Definition Apply (event : ref) (p : Projection) : option Projection :=
  match kind_of (str (Get event "type")) with
  | None => Some p
  | Some k => apply_kind k event p
  end.

Definition run (events : list ref) (p : Projection) : option Projection :=
  fold_left (fun p e => p ← p; Apply e p) events (Some p).
