(* ===== verification/SessionIndex.v ===== *)
(** * Session projection: what the access paths register

    The paths are a function of the registrations of the rows: their
    identifiers, whether they are open assistants, running compactions or
    shells, and the classes of their parts.  This file states that function
    and shows that [rebuildIndexes] and [registerRow] compute it. *)

From stdpp Require Import sorting.
From S2P Require Import Prelude GoText SessionJson SessionState SessionReduce.
From Stdlib Require Import Ascii.

Open Scope string_scope.
Open Scope list_scope.
Open Scope nat_scope.

(** ** Positions of the elements that satisfy a test *)

Fixpoint positions_from {A} (n : nat) (P : A -> bool) (l : list A) : list nat :=
  match l with
  | [] => []
  | x :: rest => if P x then n :: positions_from (S n) P rest else positions_from (S n) P rest
  end.

Definition positions {A} (P : A -> bool) (l : list A) : list nat := positions_from 0 P l.

Section Positions.
Context {A : Type}.
Implicit Types (P : A -> bool) (l : list A).

Lemma positions_from_app n P l1 l2 :
  positions_from n P (l1 ++ l2) = positions_from n P l1 ++ positions_from (n + length l1) P l2.
Proof.
  revert n. induction l1 as [|x l1 IH]; intros n; simpl; [by rewrite Nat.add_0_r|].
  rewrite IH, <- Nat.add_succ_comm. by destruct (P x).
Qed.

Lemma positions_snoc P l x : positions P (l ++ [x]) = positions P l ++ if P x then [length l] else [].
Proof. unfold positions. rewrite positions_from_app. done. Qed.

Lemma positions_from_elem n P l i :
  i ∈ positions_from n P l <-> exists x, n <= i /\ l !! (i - n) = Some x /\ P x = true.
Proof.
  revert n. induction l as [|y l IH]; intros n; simpl.
  { split; [by intros ?%elem_of_nil|]. intros (x & _ & H & _). by rewrite lookup_nil in H. }
  assert (Hrest : i ∈ positions_from (S n) P l <-> exists x, S n <= i /\ (y :: l) !! (i - n) = Some x /\ P x = true).
  { rewrite IH. split; intros (x & Hn & Hl & Hp); exists x; (split; [done|]); (split; [|done]).
    - by replace (i - n) with (S (i - S n)) by lia.
    - by replace (i - n) with (S (i - S n)) in Hl by lia. }
  destruct (P y) eqn:Ey; rewrite ?elem_of_cons, Hrest; split.
  - intros [->|(x & Hn & H)]; [exists y; by rewrite Nat.sub_diag|exists x; split; [lia|done]].
  - intros (x & Hn & Hl & Hp). destruct (decide (i = n)) as [->|]; [by left|right]. exists x. split; [lia|done].
  - intros (x & Hn & H). exists x. split; [lia|done].
  - intros (x & Hn & Hl & Hp). exists x. split; [|done]. destruct (decide (i = n)) as [->|]; [|lia].
    rewrite Nat.sub_diag in Hl. simpl in Hl. congruence.
Qed.

Lemma positions_elem P l i : i ∈ positions P l <-> exists x, l !! i = Some x /\ P x = true.
Proof.
  unfold positions. rewrite positions_from_elem, Nat.sub_0_r. split; intros (x & H); exists x; [tauto|split; [lia|done]].
Qed.

Lemma positions_ext n P Q l : Forall (fun x => P x = Q x) l -> positions_from n P l = positions_from n Q l.
Proof. intros H. revert n. induction H as [|x l E H IH]; intros n; simpl; [done|]. by rewrite E, IH. Qed.

Lemma positions_from_ge n P l : Forall (fun i => n <= i) (positions_from n P l).
Proof. apply Forall_forall. intros i (x & H & _)%positions_from_elem. done. Qed.

Lemma positions_from_lt n P l : Forall (fun i => i < n + length l) (positions_from n P l).
Proof. apply Forall_forall. intros i (x & H & Hl & _)%positions_from_elem. apply lookup_lt_Some in Hl. lia. Qed.

Lemma positions_nil P l : positions P l = [] <-> Forall (fun x => P x = false) l.
Proof.
  unfold positions. generalize 0. induction l as [|x l IH]; intros n; simpl; [by split|].
  destruct (P x) eqn:E.
  - split; [done|]. intros H. inversion H; congruence.
  - rewrite IH. split; [by constructor|]. intros H. by inversion H.
Qed.

(** A list split at a position. *)
Lemma positions_split P l at_ x :
  l !! at_ = Some x ->
  positions P l = positions_from 0 P (take at_ l) ++ (if P x then [at_] else []) ++ positions_from (S at_) P (drop (S at_) l).
Proof.
  intros Hl. unfold positions. rewrite <- (take_drop_middle l at_ x) at 1 by done.
  rewrite positions_from_app. simpl. rewrite length_take_le by (apply lookup_lt_Some in Hl; lia). by destruct (P x).
Qed.

Lemma positions_insert P l at_ x y :
  l !! at_ = Some x ->
  positions P (<[at_ := y]> l) = positions_from 0 P (take at_ l) ++ (if P y then [at_] else []) ++ positions_from (S at_) P (drop (S at_) l).
Proof.
  intros Hl. pose proof (lookup_lt_Some _ _ _ Hl). rewrite (positions_split P (<[at_ := y]> l) at_ y) by (by apply list_lookup_insert_eq).
  by rewrite take_insert_ge, drop_insert_lt by lia.
Qed.

Lemma positions_same P l at_ x y : l !! at_ = Some x -> P x = P y -> positions P (<[at_ := y]> l) = positions P l.
Proof. intros Hl E. by rewrite (positions_insert P l at_ x), (positions_split P l at_ x), E by done. Qed.

Lemma remove_first_split at_ a b : at_ ∉ a -> remove_first at_ (a ++ at_ :: b) = a ++ b.
Proof.
  induction a as [|x a IH]; simpl; intros Hn; [by rewrite Nat.eqb_refl|].
  apply not_elem_of_cons in Hn as [Hx Hn]. destruct (Nat.eqb_spec x at_); [congruence|]. by rewrite IH.
Qed.

Lemma remove_first_absent at_ (ns : list nat) : at_ ∉ ns -> remove_first at_ ns = ns.
Proof.
  induction ns as [|x ns IH]; simpl; intros Hn; [done|]. apply not_elem_of_cons in Hn as [Hx Hn].
  destruct (Nat.eqb_spec x at_); [congruence|]. by rewrite IH.
Qed.

Lemma before_not_elem P l at_ : at_ ∉ positions_from 0 P (take at_ l).
Proof. intros (x & _ & Hl & _)%positions_from_elem. apply lookup_lt_Some in Hl. rewrite length_take in Hl. lia. Qed.

Lemma after_not_elem P l at_ : at_ ∉ positions_from (S at_) P (drop (S at_) l).
Proof. intros (x & H & _)%positions_from_elem. lia. Qed.

(** Clearing the test at a position removes it from the list. *)
Lemma positions_clear P l at_ x y :
  l !! at_ = Some x -> P y = false -> positions P (<[at_ := y]> l) = remove_first at_ (positions P l).
Proof.
  intros Hl E. rewrite (positions_insert P l at_ x), (positions_split P l at_ x), E by done. destruct (P x); simpl.
  - by rewrite remove_first_split by apply before_not_elem.
  - rewrite remove_first_absent; [done|]. rewrite elem_of_app. intros [H|H]; [by apply before_not_elem in H|by apply after_not_elem in H].
Qed.

Lemma swap_down_split at_ a b :
  Forall (fun i => i < at_) a -> Forall (fun i => at_ < i) b -> swap_down at_ (rev (a ++ b)) = a ++ at_ :: b.
Proof.
  intros Ha. induction b as [|x b IH] using rev_ind; intros Hb.
  - rewrite app_nil_r. destruct a as [|y a _] using rev_ind; [done|]. rewrite rev_app_distr. simpl.
    apply Forall_app in Ha as [_ Hy]. inversion Hy; subst. destruct (Nat.ltb_spec at_ y); [lia|].
    by rewrite rev_involutive.
  - apply Forall_app in Hb as [Hb Hx]. inversion Hx; subst. rewrite app_assoc, rev_app_distr. simpl.
    destruct (Nat.ltb_spec at_ x); [|lia]. rewrite IH by done. by rewrite <- app_assoc.
Qed.

(** Setting the test at a position adds it in order. *)
Lemma positions_set P l at_ x y :
  l !! at_ = Some x -> P x = false -> P y = true -> positions P (<[at_ := y]> l) = swap_down at_ (rev (positions P l)).
Proof.
  intros Hl Ex Ey. rewrite (positions_insert P l at_ x), (positions_split P l at_ x), Ex, Ey by done. simpl.
  rewrite swap_down_split; [done| |].
  - apply Forall_forall. intros i (z & _ & Hz & _)%positions_from_elem. apply lookup_lt_Some in Hz. rewrite length_take in Hz. lia.
  - apply Forall_forall. intros i (z & Hz & _)%positions_from_elem. lia.
Qed.
End Positions.

(** ** Objects *)

Lemma get_Delete o k k' : get (Delete o k) k' = if String.eqb k k' then VUndef else get o k'.
Proof.
  induction o as [|[k0 v] o IH]; simpl; [by destruct (String.eqb k k')|].
  destruct (String.eqb_spec k0 k) as [->|Hne]; simpl; rewrite IH.
  - by destruct (String.eqb_spec k k').
  - destruct (String.eqb_spec k0 k') as [->|]; [|done]. by destruct (String.eqb_spec k k'); subst.
Qed.

Lemma get_set o k v k' : get (set o k v) k' = if String.eqb k k' then v else get o k'.
Proof.
  unfold set. destruct (isUndefined v) eqn:Ev.
  { destruct v; try discriminate. apply get_Delete. }
  clear Ev. induction o as [|[k0 w] o IH]; simpl; [done|].
  destruct (String.eqb_spec k0 k) as [->|Hne]; simpl; [by destruct (String.eqb_spec k k')|]. rewrite IH.
  destruct (String.eqb_spec k0 k') as [->|]; [|done]. by destruct (String.eqb_spec k k'); subst.
Qed.

Lemma get_clone o k : get (clone o) k = cloneValue (get o k).
Proof. induction o as [|[k0 v] o IH]; simpl; [done|]. by destruct (String.eqb k0 k). Qed.

Lemma str_clone v : str (cloneValue v) = str v.
Proof. by destruct v. Qed.

Lemma truthy_clone v : truthy (cloneValue v) = truthy v.
Proof. by destruct v. Qed.

Lemma objOf_clone v : objOf (cloneValue v) = Clone (objOf v).
Proof. by destruct v. Qed.

Lemma items_clone v : items (cloneValue v) = map cloneValue (items v).
Proof. by destruct v. Qed.

Lemma Get_Clone r k : Get (Clone r) k = cloneValue (Get r k).
Proof. destruct r; simpl; [apply get_clone|done]. Qed.

(** ** Keys of parts *)

Definition nul_free (s : string) : Prop := ascii_of_nat 0 ∉ String.list_ascii_of_string s.

Lemma append_cons c a b : String.append (String c a) b = String c (String.append a b).
Proof. reflexivity. Qed.

Lemma append_empty b : String.append "" b = b.
Proof. reflexivity. Qed.

Lemma split_unique a b a' b' :
  nul_free a -> nul_free a' -> String.append a (String.append NUL b) = String.append a' (String.append NUL b') -> a = a' /\ b = b'.
Proof.
  unfold nul_free, NUL. revert a'. induction a as [|c a IH]; intros [|c' a'] Ha Ha'; rewrite ?append_cons, ?append_empty; intros E; injection E; cbn in Ha, Ha'.
  - by intros ->.
  - intros _ E2. exfalso. apply Ha'. rewrite <- E2. by left.
  - intros _ E2. exfalso. apply Ha. rewrite E2. by left.
  - intros E2 ->. apply not_elem_of_cons in Ha as [_ Ha], Ha' as [_ Ha']. destruct (IH a' Ha Ha' E2) as [-> ->]. done.
Qed.

Lemma partKey_inj s m t s' m' t' :
  nul_free s -> nul_free s' -> nul_free m -> nul_free m' -> partKey s m t = partKey s' m' t' -> s = s' /\ m = m' /\ t = t'.
Proof.
  intros Hs Hs' Hm Hm' E. apply split_unique in E as [-> E]; [|done..]. apply split_unique in E as [-> ->]; done.
Qed.

Lemma not_of_session_partKey s s' m t : nul_free s -> nul_free s' -> not_of_session s (partKey s' m t) = negb (String.eqb s s').
Proof.
  unfold not_of_session, partKey. intros Hs Hs'. f_equal. generalize (String.append m (String.append NUL t)). intros rest.
  revert s' Hs'. unfold nul_free, NUL in *. induction s as [|c s IH]; intros [|c' s'] Hs'; rewrite ?append_cons, ?append_empty; cbn [String.prefix String.eqb String.list_ascii_of_string] in Hs, Hs' |- *.
  - destruct (ascii_dec (ascii_of_nat 0) (ascii_of_nat 0)); [by destruct rest|done].
  - apply not_elem_of_cons in Hs' as [Hc _]. destruct (ascii_dec (ascii_of_nat 0) c'); [done|done].
  - apply not_elem_of_cons in Hs as [Hc _]. destruct (ascii_dec c (ascii_of_nat 0)) as [->|]; [done|done].
  - apply not_elem_of_cons in Hs as [Hc Hs], Hs' as [Hc' Hs'].
    destruct (ascii_dec c c') as [->|Hne]; [rewrite Ascii.eqb_refl; by apply IH|]. by apply Ascii.eqb_neq in Hne as ->.
Qed.

Lemma drop_session_lookup {A} s (m : gmap string A) s' id t :
  nul_free s -> nul_free s' ->
  drop_session s m !! partKey s' id t = if String.eqb s s' then None else m !! partKey s' id t.
Proof.
  intros Hs Hs'. unfold drop_session. destruct (String.eqb_spec s s') as [->|Hne].
  - apply map_lookup_filter_None. right. intros x _. cbn. rewrite not_of_session_partKey, String.eqb_refl by done. done.
  - destruct (m !! partKey s' id t) as [x|] eqn:E.
    + apply map_lookup_filter_Some. split; [done|]. cbn. rewrite not_of_session_partKey by done. by apply String.eqb_neq in Hne as ->.
    + apply map_lookup_filter_None. by left.
Qed.

(** ** Registrations *)

Inductive pclass := CText | COpen | CTool (id : string) | COther.

Definition part_class (v : val) : pclass :=
  match objOf v with
  | None => COther
  | Some part =>
      let kind := str (get part "type") in
      if String.eqb kind "text" then CText
      else if String.eqb kind "reasoning" then
        (if negb (truthy (Get (objOf (get part "time")) "completed")) then COpen else COther)
      else if String.eqb kind "tool" then CTool (str (get part "id"))
      else COther
  end.

Definition is_text (c : pclass) : bool := match c with CText => true | _ => false end.
Definition is_reasoning (c : pclass) : bool := match c with COpen => true | _ => false end.
Definition is_tool (t : string) (c : pclass) : bool := match c with CTool t' => String.eqb t t' | _ => false end.

Record reg := MkReg {
  g_id : string;
  g_open : bool;
  g_running : bool;
  g_shell : option string;
  g_parts : list pclass;
}.

Definition reg_of (r : ref) : reg :=
  let kind := str (Get r "type") in
  MkReg (str (Get r "id"))
    (String.eqb kind "assistant" && negb (truthy (Get (objOf (Get r "time")) "completed")))
    (String.eqb kind "compaction" && String.eqb (str (Get r "status")) "running")
    (if String.eqb kind "shell" then Some (str (Get r "shellID")) else None)
    (if String.eqb kind "assistant" then part_class <$> items (Get r "content") else []).

Definition has_id (id : string) (g : reg) : bool := String.eqb (g_id g) id.
Definition has_shell (sid : string) (g : reg) : bool := bool_decide (g_shell g = Some sid).

(** The index of rows with the registrations [gs]. *)
Record index_ok (gs : list reg) (idx : sessionIndex) : Prop := {
  ix_pos : forall id, pos idx !! id = last (positions (has_id id) gs);
  ix_open : openAssistants idx = positions g_open gs;
  ix_running : runningCompactions idx = positions g_running gs;
  ix_shells : forall sid, shells idx !! sid = last (positions (has_shell sid) gs);
}.

(** The places of the parts in a class, in the rows of a message. *)
Definition part_refs (Q : pclass -> bool) (s m : string) (gs : list reg) : list part_ptr :=
  concat (imap (fun i g => if has_id m g then Part s i <$> positions Q (g_parts g) else []) gs).

Record parts_ok (s m : string) (gs : list reg) (p : Projection) : Prop := {
  po_text : latestText p !! partKey s m "" = last (part_refs is_text s m gs);
  po_reasoning : default [] (openReasoning p !! partKey s m "") = part_refs is_reasoning s m gs;
  po_tools : forall t, tools p !! partKey s m t = last (part_refs (is_tool t) s m gs);
}.

Definition orelse {A} (a b : option A) : option A := match a with Some _ => a | None => b end.

Lemma last_orelse {A} (l k : list A) : last (l ++ k) = orelse (last k) (last l).
Proof.
  destruct k as [|x k _] using rev_ind; [by rewrite app_nil_r|]. rewrite app_assoc, !last_snoc. done.
Qed.

Lemma part_refs_snoc Q s m gs g :
  part_refs Q s m (gs ++ [g])
  = part_refs Q s m gs ++ if has_id m g then Part s (length gs) <$> positions Q (g_parts g) else [].
Proof. unfold part_refs. rewrite imap_app, concat_app. simpl. by rewrite app_nil_r, Nat.add_0_r. Qed.

(** ** Registering the parts of a row *)

(** What registering parts of the classes [cs] in row [at_] of message [id]
    does to the paths. *)
Record registered (s id : string) (at_ : nat) (cs : list pclass) (p0 p : Projection) : Prop := {
  rg_state : state p = state p0;
  rg_index : index p = index p0;
  rg_text : latestText p !! partKey s id "" = orelse (last (Part s at_ <$> positions is_text cs)) (latestText p0 !! partKey s id "");
  rg_reasoning : default [] (openReasoning p !! partKey s id "")
    = default [] (openReasoning p0 !! partKey s id "") ++ (Part s at_ <$> positions is_reasoning cs);
  rg_tools : forall t, tools p !! partKey s id t = orelse (last (Part s at_ <$> positions (is_tool t) cs)) (tools p0 !! partKey s id t);
  rg_other : forall s' m t, nul_free s' -> nul_free m -> (s', m) <> (s, id) ->
    latestText p !! partKey s' m t = latestText p0 !! partKey s' m t
    /\ openReasoning p !! partKey s' m t = openReasoning p0 !! partKey s' m t
    /\ tools p !! partKey s' m t = tools p0 !! partKey s' m t;
}.

Lemma registered_nil s id at_ p : registered s id at_ [] p p.
Proof. split; try done. by rewrite app_nil_r. Qed.

Lemma partKey_ne s m t s' m' t' :
  nul_free s -> nul_free s' -> nul_free m -> nul_free m' -> (s', m') <> (s, m) -> partKey s m t <> partKey s' m' t'.
Proof. intros ???? Hne E. apply partKey_inj in E as (-> & -> & _); [|done..]. done. Qed.

Lemma partKey_ne_suffix s m t t' : nul_free s -> nul_free m -> t <> t' -> partKey s m t <> partKey s m t'.
Proof. intros ?? Hne E. apply partKey_inj in E as (_ & _ & ->); done. Qed.

Lemma registered_snoc s id at_ cs p0 p v :
  nul_free s -> nul_free id -> registered s id at_ cs p0 p ->
  registered s id at_ (cs ++ [part_class v]) p0 (registerPart s id at_ p (length cs, v)).
Proof.
  intros Hs Hid [H1 H2 H3 H4 H5 H6].
  assert (Hsnoc : forall Q, Part s at_ <$> positions Q (cs ++ [part_class v])
      = (Part s at_ <$> positions Q cs) ++ if Q (part_class v) then [Part s at_ (length cs)] else []).
  { intros Q. rewrite positions_snoc, fmap_app. by destruct (Q _). }
  assert (Hsame : forall p', state p' = state p -> index p' = index p -> latestText p' = latestText p ->
      openReasoning p' = openReasoning p -> tools p' = tools p -> part_class v = COther ->
      registered s id at_ (cs ++ [part_class v]) p0 p').
  { intros p' E1 E2 E3 E4 E5 Ec. split; rewrite ?E1, ?E2, ?E3, ?E4, ?E5; auto.
    - by rewrite Hsnoc, Ec, app_nil_r.
    - by rewrite Hsnoc, Ec, app_nil_r.
    - intros t. by rewrite Hsnoc, Ec, app_nil_r. }
  unfold registerPart. unfold part_class in Hsame, Hsnoc |- *. destruct (objOf v) as [part|]; [|by apply Hsame].
  cbv zeta in *.
  destruct (String.eqb (str (get part "type")) "text").
  { split; cbn; auto.
    - rewrite lookup_insert_eq, Hsnoc. cbn [is_text]. by rewrite last_snoc.
    - by rewrite Hsnoc, app_nil_r.
    - intros t. by rewrite Hsnoc, app_nil_r.
    - intros s' m t Hs' Hm Hne. rewrite lookup_insert_ne by (by apply partKey_ne). by apply H6. }
  destruct (String.eqb (str (get part "type")) "reasoning").
  { destruct (negb _); [|by apply Hsame]. split; cbn [state index latestText openReasoning tools set_openReasoning]; auto.
    - by rewrite Hsnoc, app_nil_r.
    - by rewrite lookup_insert_eq, Hsnoc, H4, <- app_assoc.
    - intros t. by rewrite Hsnoc, app_nil_r.
    - intros s' m t Hs' Hm Hne. rewrite lookup_insert_ne by (by apply partKey_ne). by apply H6. }
  destruct (String.eqb (str (get part "type")) "tool"); [|by apply Hsame].
  split; cbn; auto.
  - by rewrite Hsnoc, app_nil_r.
  - by rewrite Hsnoc, app_nil_r.
  - intros t. rewrite Hsnoc. cbn. destruct (String.eqb_spec t (str (get part "id"))) as [->|Hne].
    + by rewrite lookup_insert_eq, last_snoc.
    + rewrite app_nil_r, lookup_insert_ne; [apply H5|]. apply partKey_ne_suffix; auto.
  - intros s' m t Hs' Hm Hne. rewrite lookup_insert_ne by (by apply partKey_ne). by apply H6.
Qed.

Lemma registerParts s id at_ vs p :
  nul_free s -> nul_free id ->
  registered s id at_ (part_class <$> vs) p (fold_left (registerPart s id at_) (imap pair vs) p).
Proof.
  intros Hs Hid. induction vs as [|v vs IH] using rev_ind; [apply registered_nil|].
  rewrite imap_app, fmap_app, fold_left_app. cbn. rewrite Nat.add_0_r, <- (length_fmap part_class vs). by apply registered_snoc.
Qed.

(** ** Registering rows *)

Definition same_paths (s : string) (p p' : Projection) : Prop :=
  forall s' m t, nul_free s' -> nul_free m -> s' <> s ->
    latestText p' !! partKey s' m t = latestText p !! partKey s' m t
    /\ openReasoning p' !! partKey s' m t = openReasoning p !! partKey s' m t
    /\ tools p' !! partKey s' m t = tools p !! partKey s' m t.

Lemma same_paths_trans s p1 p2 p3 : same_paths s p1 p2 -> same_paths s p2 p3 -> same_paths s p1 p3.
Proof.
  intros H1 H2 s' m t Hs Hm Hne. destruct (H2 s' m t) as (-> & -> & ->); [done..|]. by apply H1.
Qed.

Definition all_parts (s : string) (gs : list reg) (p : Projection) : Prop := forall m, nul_free m -> parts_ok s m gs p.

Lemma registered_parts s id at_ gs g p p' :
  nul_free s -> nul_free id -> at_ = length gs -> g_id g = id -> all_parts s gs p ->
  registered s id at_ (g_parts g) p p' -> all_parts s (gs ++ [g]) p'.
Proof.
  intros Hs Hid -> Hg Hp [R1 R2 R3 R4 R5 R6] m Hm. destruct (Hp m Hm) as [P1 P2 P3].
  destruct (decide (m = id)) as [->|Hne].
  - split.
    + rewrite R3, P1, part_refs_snoc. unfold has_id. rewrite Hg, String.eqb_refl. by rewrite last_orelse.
    + rewrite R4, P2, part_refs_snoc. unfold has_id. by rewrite Hg, String.eqb_refl.
    + intros t. rewrite R5, P3, part_refs_snoc. unfold has_id. rewrite Hg, String.eqb_refl. by rewrite last_orelse.
  - assert (Hf : has_id m g = false) by (unfold has_id; rewrite Hg; by apply String.eqb_neq).
    split; [| |intros t]; rewrite part_refs_snoc, Hf, app_nil_r.
    + destruct (R6 s m "") as (-> & _); [done|done|congruence|done].
    + destruct (R6 s m "") as (_ & -> & _); [done|done|congruence|done].
    + destruct (R6 s m t) as (_ & _ & ->); [done|done|congruence|done].
Qed.

Lemma has_id_snoc_pos gs g (m : gmap string nat) :
  (forall id, m !! id = last (positions (has_id id) gs)) ->
  forall id, <[g_id g := length gs]> m !! id = last (positions (has_id id) (gs ++ [g])).
Proof.
  intros H id. rewrite positions_snoc, last_orelse. unfold has_id at 1.
  destruct (String.eqb_spec (g_id g) id) as [->|Hne]; [by rewrite lookup_insert_eq|]. by rewrite lookup_insert_ne.
Qed.

(** What registering one more row gives. *)
Lemma registerRow_spec s gs idx item p idx' p' :
  nul_free s -> nul_free (g_id (reg_of item)) -> index_ok gs idx -> all_parts s gs p ->
  registerRow s (MkIndex (<[g_id (reg_of item) := length gs]> (pos idx)) (openAssistants idx) (runningCompactions idx) (shells idx))
    item (length gs) p = (idx', p') ->
  index_ok (gs ++ [reg_of item]) idx' /\ all_parts s (gs ++ [reg_of item]) p'
  /\ state p' = state p /\ index p' = index p /\ same_paths s p p'.
Proof.
  intros Hs Hid [I1 I2 I3 I4] Hp. unfold registerRow.
  pose proof (has_id_snoc_pos gs (reg_of item) _ I1) as Hpos.
  assert (Hno : forall cs, cs = [] -> g_parts (reg_of item) = cs -> all_parts s (gs ++ [reg_of item]) p).
  { intros cs -> E. eapply registered_parts; [done|apply Hid|done|done|done|]. rewrite E. apply registered_nil. }
  assert (Hsh : forall sid, g_shell (reg_of item) = None ->
    shells idx !! sid = last (positions (has_shell sid) (gs ++ [reg_of item]))).
  { intros sid E. rewrite positions_snoc. unfold has_shell at 2. rewrite E, app_nil_r. apply I4. }
  unfold reg_of at 1 in Hid. unfold reg_of at 1 2. cbn [g_id].
  set (kind := str (Get item "type")) in *.
  destruct (String.eqb_spec kind "assistant") as [Hk|Hk].
  { intros [= <- <-].
    assert (Hr : g_running (reg_of item) = false) by (cbn; fold kind; by rewrite Hk).
    assert (Hsl : g_shell (reg_of item) = None) by (cbn; fold kind; by rewrite Hk).
    assert (Ho : g_open (reg_of item) = negb (truthy (Get (objOf (Get item "time")) "completed"))) by (cbn; fold kind; by rewrite Hk).
    assert (Hpt : g_parts (reg_of item) = part_class <$> items (Get item "content")) by (cbn; fold kind; by rewrite Hk).
    pose proof (registerParts s (str (Get item "id")) (length gs) (items (Get item "content")) p Hs Hid) as R.
    split; [|split; [|split; [apply R|split; [apply R|]]]].
    - rewrite <- Ho. destruct (g_open (reg_of item)) eqn:E; split; cbn;
        try apply Hpos; try (rewrite positions_snoc, ?E, ?Hr, ?app_nil_r; by f_equal); intros sid; by apply Hsh.
    - eapply registered_parts; [done|apply Hid|done|done|done|]. by rewrite Hpt.
    - intros s' m t Hs' Hm Hne. apply R; [done..|congruence]. }
  assert (Ho : g_open (reg_of item) = false) by (cbn; fold kind; by apply String.eqb_neq in Hk as ->).
  assert (Hpt : g_parts (reg_of item) = []) by (cbn; fold kind; by apply String.eqb_neq in Hk as ->).
  destruct (String.eqb_spec kind "compaction") as [Hc|Hc].
  { intros [= <- <-]. split_and!; [|by eapply Hno|done|done|done].
    assert (Hsl : g_shell (reg_of item) = None) by (cbn; fold kind; by rewrite Hc).
    assert (Hr : g_running (reg_of item) = String.eqb (str (Get item "status")) "running") by (cbn; fold kind; by rewrite Hc).
    rewrite <- Hr. destruct (g_running (reg_of item)) eqn:E; split; cbn;
        try apply Hpos; try (rewrite positions_snoc, ?E, ?Ho, ?app_nil_r; by f_equal); intros sid; by apply Hsh. }
  assert (Hr : g_running (reg_of item) = false) by (cbn; fold kind; by apply String.eqb_neq in Hc as ->).
  destruct (String.eqb_spec kind "shell") as [Hsl|Hsl]; intros [= <- <-]; (split_and!; [|by eapply Hno|done|done|done]).
  - assert (Hg : g_shell (reg_of item) = Some (str (Get item "shellID"))) by (cbn; fold kind; by rewrite Hsl).
    split; cbn; [apply Hpos|by rewrite positions_snoc, Ho, app_nil_r|by rewrite positions_snoc, Hr, app_nil_r|].
    intros sid. rewrite positions_snoc, last_orelse. unfold has_shell at 1. rewrite Hg.
    case_bool_decide as E; [injection E as <-; by rewrite lookup_insert_eq|]. rewrite lookup_insert_ne by congruence. apply I4.
  - assert (Hg : g_shell (reg_of item) = None) by (cbn; fold kind; by apply String.eqb_neq in Hsl as ->).
    split; cbn; [apply Hpos|by rewrite positions_snoc, Ho, app_nil_r|by rewrite positions_snoc, Hr, app_nil_r|].
    intros sid. by apply Hsh.
Qed.

Lemma index_ok_empty : index_ok [] emptyIndex.
Proof. split; try done; intros; by rewrite lookup_empty. Qed.

Definition ids_nul_free (l : list ref) : Prop := Forall (fun r => nul_free (g_id (reg_of r))) l.

Lemma register_all s l p idx' p' :
  nul_free s -> ids_nul_free l -> all_parts s [] p ->
  fold_left (register_at s) (imap pair l) (emptyIndex, p) = (idx', p') ->
  index_ok (reg_of <$> l) idx' /\ all_parts s (reg_of <$> l) p' /\ state p' = state p /\ index p' = index p /\ same_paths s p p'.
Proof.
  intros Hs Hl Hp. revert idx' p'. induction l as [|item l IH] using rev_ind; intros idx' p'.
  { intros [= <- <-]. split_and!; [apply index_ok_empty|done..]. }
  apply Forall_app in Hl as [Hl Hi]. inversion Hi as [|?? Hi' _]; subst.
  rewrite imap_app, fold_left_app, fmap_app. cbn [imap fold_left]. destruct (fold_left _ _ _) as [idx1 p1] eqn:E1.
  specialize (IH Hl idx1 p1 eq_refl) as (H1 & H2 & H3 & H4 & H5).
  cbn [register_at]. rewrite Nat.add_0_r, <- (length_fmap reg_of l). intros E.
  eapply registerRow_spec in E as (K1 & K2 & K3 & K4 & K5); [|done..].
  split_and!; [done|done|congruence|congruence|by eapply same_paths_trans].
Qed.

Lemma rebuild_spec s p :
  nul_free s -> ids_nul_free (rows s p) ->
  let p' := rebuildIndexes s p in
  state p' = state p /\ all_parts s (reg_of <$> rows s p) p' /\ same_paths s p p'
  /\ exists idx, index p' = <[s := idx]> (index p) /\ index_ok (reg_of <$> rows s p) idx.
Proof.
  intros Hs Hl. unfold rebuildIndexes. cbv zeta.
  set (p0 := MkProj (state p) _ _ _ _).
  change (rows s p) with (rows s p0) in *.
  destruct (fold_left _ _ _) as [idx p1] eqn:E.
  assert (H0 : all_parts s [] p0).
  { intros m Hm. split; cbn; [| |intros t]; by rewrite drop_session_lookup, String.eqb_refl. }
  eapply register_all in E as (H1 & H2 & H3 & H4 & H5); [|done..].
  assert (Hd : same_paths s p p0).
  { intros s' m t Hs' Hm Hne. cbn. rewrite !drop_session_lookup by done.
    replace (String.eqb s s') with false; [done|]. symmetry. apply String.eqb_neq. congruence. }
  split_and!; [done| | |].
  - intros m Hm. destruct (H2 m Hm) as [A B C]. by split.
  - intros s' m t Hs' Hm Hne. by apply (same_paths_trans s p p0 p1 Hd H5).
  - exists idx. cbn. by rewrite H4.
Qed.
