(* ===== verification/SessionInv.v ===== *)
(** * Session projection: the invariant of the access paths

    [Inv] says that the private paths of every session are the ones of its
    rows, and that the rows are well formed.  The primitives of the reducer
    keep it. *)

From stdpp Require Import sorting.
From S2P Require Import Prelude GoText SessionJson SessionState SessionReduce SessionIndex.
From Stdlib Require Import Ascii.

Open Scope string_scope.
Open Scope list_scope.
Open Scope nat_scope.

(** ** Well-formed rows *)

Definition rid (r : ref) : string := str (Get r "id").

Definition has_time (o : obj) : Prop := exists t, get o "time" = VObj t.

Definition tool_timed (v : val) : Prop :=
  forall part, v = VObj part -> str (get part "type") = "tool" -> has_time part.

(** Rows are objects with an identifier and a time, and so are the tool parts
    of assistants. *)
Record row_ok (o : obj) : Prop := {
  ro_id : get o "id" <> VUndef;
  ro_nul : nul_free (str (get o "id"));
  ro_time : has_time o;
  ro_parts : str (get o "type") = "assistant" -> Forall tool_timed (items (get o "content"));
}.

Definition ref_ok (r : ref) : Prop := exists o, r = Some o /\ row_ok o.

Definition rows_ok (l : list ref) : Prop := NoDup (rid <$> l) /\ Forall ref_ok l.

Definition others_ok (st : ProjectionState) : Prop :=
  (forall s r, Info st !! s = Some r -> is_Some r)
  /\ (forall s l, Pending st !! s = Some l -> Forall is_Some l)
  /\ (forall s l, Permission st !! s = Some l -> Forall is_Some l).

Definition regs (s : string) (p : Projection) : list reg := reg_of <$> rows s p.

Record Inv (p : Projection) : Prop := {
  inv_index : forall s idx, index p !! s = Some idx -> index_ok (regs s p) idx;
  inv_dom : forall s, rows s p <> [] -> is_Some (index p !! s);
  inv_parts : forall s, nul_free s -> all_parts s (regs s p) p;
  inv_rows : forall s, rows_ok (rows s p);
  inv_others : others_ok (state p);
  inv_nul : forall s, is_Some (Message (state p) !! s) -> nul_free s;
}.

Lemma reg_id r : g_id (reg_of r) = rid r.
Proof. done. Qed.

Lemma rows_ok_nul l : rows_ok l -> ids_nul_free l.
Proof. intros [_ H]. eapply Forall_impl; [apply H|]. intros r (o & -> & Ho). apply Ho. Qed.

Lemma rows_lookup_dom s p i r : rows s p !! i = Some r -> rows s p <> [].
Proof. by destruct (rows s p). Qed.

Lemma rows_put s l p : rows s (put_rows s l p) = l.
Proof. unfold rows, put_rows. cbn. by rewrite lookup_insert_eq. Qed.

Lemma rows_put_ne s s' l p : s' <> s -> rows s' (put_rows s l p) = rows s' p.
Proof. intros H. unfold rows, put_rows. cbn. by rewrite lookup_insert_ne. Qed.

(** ** Rows of one message *)

Lemma part_refs_absent Q s m gs : Forall (fun g => g_id g <> m) gs -> part_refs Q s m gs = [].
Proof.
  intros H. induction gs as [|g gs IH] using rev_ind; [done|]. apply Forall_app in H as [H Hg].
  inversion Hg as [|?? Hg' _]; subst. rewrite part_refs_snoc, IH by done. unfold has_id. by apply String.eqb_neq in Hg' as ->.
Qed.

Lemma part_refs_here Q s gs at_ g :
  NoDup (g_id <$> gs) -> gs !! at_ = Some g -> part_refs Q s (g_id g) gs = Part s at_ <$> positions Q (g_parts g).
Proof.
  intros Hnd. induction gs as [|g' gs IH] using rev_ind; [done|].
  rewrite fmap_app in Hnd. apply NoDup_app in Hnd as (Hnd & Hdis & _). intros Hl.
  apply lookup_app_Some in Hl as [Hl|[Hge Hl]].
  - rewrite part_refs_snoc, IH by done. unfold has_id. destruct (String.eqb_spec (g_id g') (g_id g)) as [E|]; [|by rewrite app_nil_r].
    exfalso. apply (Hdis (g_id g)); [|by rewrite <- E; left]. apply list_elem_of_fmap. exists g. split; [done|]. by eapply list_elem_of_lookup_2.
  - apply list_lookup_singleton_Some in Hl as [Ha ->]. assert (at_ = length gs) as -> by lia.
    rewrite part_refs_snoc, part_refs_absent; [unfold has_id; by rewrite String.eqb_refl|].
    apply Forall_forall. intros x Hx E. apply (Hdis (g_id g)); [|by left]. apply list_elem_of_fmap. by exists x.
Qed.

Lemma part_refs_insert_ne Q s m gs at_ g g' :
  gs !! at_ = Some g -> g_id g <> m -> g_id g' <> m -> part_refs Q s m (<[at_ := g']> gs) = part_refs Q s m gs.
Proof.
  intros Hl Hg Hg'. unfold part_refs. f_equal. apply list_eq. intros i. rewrite !list_lookup_imap.
  destruct (decide (i = at_)) as [->|Hne]; [|by rewrite list_lookup_insert_ne].
  rewrite list_lookup_insert_eq by (by eapply lookup_lt_Some). rewrite Hl. cbn. unfold has_id.
  by apply String.eqb_neq in Hg as ->, Hg' as ->.
Qed.

Lemma regs_nodup s p : Inv p -> NoDup (g_id <$> regs s p).
Proof. intros HI. unfold regs. rewrite <- list_fmap_compose. apply (inv_rows _ HI s). Qed.

Lemma insert_nodup (gs : list reg) at_ g g' :
  gs !! at_ = Some g -> g_id g' = g_id g -> g_id <$> <[at_ := g']> gs = g_id <$> gs.
Proof.
  intros Hl E. rewrite list_fmap_insert, E. apply list_insert_id. by rewrite list_lookup_fmap, Hl.
Qed.

(** The position of an identifier. *)
Lemma positions_unique (gs : list reg) at_ g :
  NoDup (g_id <$> gs) -> gs !! at_ = Some g -> positions (has_id (g_id g)) gs = [at_].
Proof.
  intros Hnd Hl. rewrite (positions_split _ _ _ _ Hl). unfold has_id at 2. rewrite String.eqb_refl.
  assert (Hother : forall i x, gs !! i = Some x -> i <> at_ -> has_id (g_id g) x = false).
  { intros i x Hx Hne. apply String.eqb_neq. intros E. apply Hne.
    apply (NoDup_lookup (g_id <$> gs) i at_ (g_id g)); [done| |]; rewrite list_lookup_fmap; [rewrite Hx|by rewrite Hl].
    simpl. by rewrite E. }
  assert (positions_from 0 (has_id (g_id g)) (take at_ gs) = []) as ->.
  { fold (positions (has_id (g_id g)) (take at_ gs)). apply positions_nil, Forall_lookup. intros i x Hx. apply lookup_take_Some in Hx as [Hx Hi]. apply (Hother i); [done|lia]. }
  destruct (positions_from (S at_) _ _) as [|i r] eqn:E; [done|]. exfalso.
  assert (Hi : i ∈ i :: r) by (by left). rewrite <- E in Hi. apply positions_from_elem in Hi as (x & Hn & Hx & Hp).
  rewrite lookup_drop in Hx. rewrite (Hother (S at_ + (i - S at_)) x) in Hp; [done|done|lia].
Qed.

(** ** Keeping the invariant *)

(** Only the rows of one session and its paths change. *)
Lemma Inv_session s l idx p p' :
  Inv p -> nul_free s ->
  state p' = set_Message (<[s := l]> (Message (state p))) (state p) -> rows_ok l ->
  index p' = <[s := idx]> (index p) -> index_ok (reg_of <$> l) idx ->
  all_parts s (reg_of <$> l) p' -> same_paths s p p' -> Inv p'.
Proof.
  intros HI Hs Hst Hl Hix Hok Hp Hsame.
  assert (Hrows : rows s p' = l) by (unfold rows; rewrite Hst; cbn; by rewrite lookup_insert_eq).
  assert (Hrows' : forall s', s' <> s -> rows s' p' = rows s' p).
  { intros s' Hne. unfold rows. rewrite Hst. cbn. by rewrite lookup_insert_ne. }
  split.
  - intros s' idx'. rewrite Hix. unfold regs. destruct (decide (s' = s)) as [->|Hne].
    + rewrite lookup_insert_eq, Hrows. by intros [= <-].
    + rewrite lookup_insert_ne, Hrows' by done. apply HI.
  - intros s'. rewrite Hix. destruct (decide (s' = s)) as [->|Hne]; [intros _; rewrite lookup_insert_eq; by eexists|].
    rewrite lookup_insert_ne, Hrows' by done. apply HI.
  - intros s' Hs'. unfold regs. destruct (decide (s' = s)) as [->|Hne]; [by rewrite Hrows|]. rewrite Hrows' by done.
    intros m Hm. destruct (inv_parts _ HI s' Hs' m Hm) as [A B C].
    split; [| |intros t]; [destruct (Hsame s' m "") as (-> & _)|destruct (Hsame s' m "") as (_ & -> & _)|destruct (Hsame s' m t) as (_ & _ & ->)]; auto.
  - intros s'. destruct (decide (s' = s)) as [->|Hne]; [by rewrite Hrows|]. rewrite Hrows' by done. apply HI.
  - rewrite Hst. apply HI.
  - intros s'. rewrite Hst. cbn. destruct (decide (s' = s)) as [->|Hne]; [done|]. rewrite lookup_insert_ne by done. apply HI.
Qed.

(** Only state outside the rows changes. *)
Lemma Inv_others p p' :
  Inv p -> Message (state p') = Message (state p) -> index p' = index p -> latestText p' = latestText p ->
  openReasoning p' = openReasoning p -> tools p' = tools p -> others_ok (state p') -> Inv p'.
Proof.
  intros HI HM Hix Ht Hr Hto Ho.
  assert (Hrows : forall s, rows s p' = rows s p) by (intros s; unfold rows; by rewrite HM).
  split; [| | | |done|]; unfold regs.
  - intros s idx. rewrite Hix, Hrows. apply HI.
  - intros s. rewrite Hrows, Hix. apply HI.
  - intros s Hs m Hm. rewrite Hrows. destruct (inv_parts _ HI s Hs m Hm) as [A B C]. by split; rewrite ?Ht, ?Hr, ?Hto.
  - intros s. rewrite Hrows. apply HI.
  - intros s. rewrite HM. apply HI.
Qed.

Lemma Inv_rebuild s l p :
  Inv p -> nul_free s -> rows_ok l -> Inv (rebuildIndexes s (put_rows s l p)).
Proof.
  intros HI Hs Hl. destruct (rebuild_spec s (put_rows s l p)) as (H1 & H2 & H3 & idx & H4 & H5); [done|..].
  { rewrite rows_put. by apply rows_ok_nul. }
  rewrite rows_put in H2, H5.
  apply (Inv_session s l idx p); try done.
Qed.

(** The paths of a session without a change of rows. *)
Lemma rebuild_same s p : Inv p -> nul_free s -> rows s p = [] -> Inv (rebuildIndexes s p).
Proof.
  intros HI Hs Hr.
  destruct (rebuild_spec s p) as (H1 & H2 & H3 & idx & H4 & H5); [done|by rewrite Hr; constructor|].
  rewrite Hr in H2, H5. assert (Hrows : forall s', rows s' (rebuildIndexes s p) = rows s' p) by (intros; unfold rows; by rewrite H1).
  split; unfold regs.
  - intros s' idx'. rewrite H4, Hrows. destruct (decide (s' = s)) as [->|Hne]; [rewrite lookup_insert_eq, Hr; by intros [= <-]|].
    rewrite lookup_insert_ne by done. apply HI.
  - intros s'. rewrite Hrows, H4. intros HM. apply HI in HM. apply lookup_insert_is_Some. destruct (decide (s = s')); auto.
  - intros s' Hs' m Hm'. rewrite Hrows. destruct (decide (s' = s)) as [->|Hne]; [rewrite Hr; by apply H2|].
    destruct (inv_parts _ HI s' Hs' m Hm') as [A B C].
    split; [| |intros t]; [destruct (H3 s' m "") as (-> & _)|destruct (H3 s' m "") as (_ & -> & _)|destruct (H3 s' m t) as (_ & _ & ->)]; auto.
  - intros s'. rewrite Hrows. apply HI.
  - rewrite H1. apply HI.
  - intros s'. rewrite H1. apply HI.
Qed.

(** ** Editing one row *)

Definition paths_here (s id : string) (at_ : nat) (cs : list pclass) (p : Projection) : Prop :=
  latestText p !! partKey s id "" = last (Part s at_ <$> positions is_text cs)
  /\ default [] (openReasoning p !! partKey s id "") = Part s at_ <$> positions is_reasoning cs
  /\ forall t, tools p !! partKey s id t = last (Part s at_ <$> positions (is_tool t) cs).

Definition same_others (s id : string) (p p' : Projection) : Prop :=
  forall s' m t, nul_free s' -> nul_free m -> (s', m) <> (s, id) ->
    latestText p' !! partKey s' m t = latestText p !! partKey s' m t
    /\ openReasoning p' !! partKey s' m t = openReasoning p !! partKey s' m t
    /\ tools p' !! partKey s' m t = tools p !! partKey s' m t.

Lemma ref_ok_lookup s p at_ r : Inv p -> rows s p !! at_ = Some r -> exists o, r = Some o /\ row_ok o.
Proof. intros HI Hl. destruct (inv_rows _ HI s) as [_ H]. eapply Forall_lookup_1 in H as (o & -> & Ho); [|done]. eauto. Qed.

Lemma regs_lookup s p at_ r : rows s p !! at_ = Some r -> regs s p !! at_ = Some (reg_of r).
Proof. intros Hl. unfold regs. by rewrite list_lookup_fmap, Hl. Qed.

Lemma row_nul s p at_ r : Inv p -> rows s p !! at_ = Some r -> nul_free (rid r).
Proof. intros HI Hl. destruct (ref_ok_lookup s p at_ r HI Hl) as (o & -> & Ho). apply Ho. Qed.

Lemma paths_of_row s p at_ r :
  Inv p -> nul_free s -> rows s p !! at_ = Some r -> paths_here s (rid r) at_ (g_parts (reg_of r)) p.
Proof.
  intros HI Hs Hl. pose proof (regs_nodup s p HI) as Hnd. pose proof (regs_lookup _ _ _ _ Hl) as Hg.
  destruct (inv_parts _ HI s Hs (rid r) (row_nul s p at_ r HI Hl)) as [A B C]. split_and!; [| |intros t].
  - rewrite A. f_equal. by apply (part_refs_here is_text s _ at_ (reg_of r)).
  - rewrite B. by apply (part_refs_here is_reasoning s _ at_ (reg_of r)).
  - rewrite C. f_equal. by apply (part_refs_here (is_tool t) s _ at_ (reg_of r)).
Qed.

Lemma rows_ok_insert l at_ r o : rows_ok l -> l !! at_ = Some r -> row_ok o -> rid (Some o) = rid r -> rows_ok (<[at_ := Some o]> l).
Proof.
  intros [Hnd Hf] Hl Ho E. split.
  - rewrite list_fmap_insert, E, list_insert_id; [done|]. by rewrite list_lookup_fmap, Hl.
  - apply Forall_insert; [done|]. by exists o.
Qed.

Lemma Inv_edit s at_ r o idx p p' :
  Inv p -> nul_free s -> rows s p !! at_ = Some r -> row_ok o -> rid (Some o) = rid r ->
  state p' = state (put_row s at_ o p) ->
  index p' = <[s := idx]> (index p) -> index_ok (<[at_ := reg_of (Some o)]> (regs s p)) idx ->
  paths_here s (rid r) at_ (g_parts (reg_of (Some o))) p' -> same_others s (rid r) p p' -> Inv p'.
Proof.
  intros HI Hs Hl Ho Hid Hst Hix Hok (H1 & H2 & H3) Hsame.
  pose proof (regs_lookup _ _ _ _ Hl) as Hg. pose proof (regs_nodup s p HI) as Hnd.
  assert (Hregs : reg_of <$> <[at_ := Some o]> (rows s p) = <[at_ := reg_of (Some o)]> (regs s p)) by apply list_fmap_insert.
  assert (Hlk : <[at_ := reg_of (Some o)]> (regs s p) !! at_ = Some (reg_of (Some o))).
  { apply list_lookup_insert_eq. by eapply lookup_lt_Some. }
  assert (Hnd' : NoDup (g_id <$> <[at_ := reg_of (Some o)]> (regs s p))) by (by rewrite (insert_nodup _ _ _ _ Hg)).
  apply (Inv_session s (<[at_ := Some o]> (rows s p)) idx p); rewrite ?Hregs; try done.
  - eapply rows_ok_insert; [apply HI|done..].
  - intros m Hm. destruct (decide (m = rid r)) as [->|Hne].
    + rewrite <- Hid in *. split; [| |intros t];
        rewrite (part_refs_here _ s (<[at_ := reg_of (Some o)]> (regs s p)) at_ (reg_of (Some o)) Hnd' Hlk); auto.
    + destruct (inv_parts _ HI s Hs m Hm) as [A B C].
      assert (Hpr : forall Q, part_refs Q s m (<[at_ := reg_of (Some o)]> (regs s p)) = part_refs Q s m (regs s p)).
      { intros Q. apply (part_refs_insert_ne Q s m _ at_ (reg_of r)); [done|by rewrite reg_id|by rewrite reg_id, Hid]. }
      split; [| |intros t]; rewrite Hpr;
        [destruct (Hsame s m "") as (-> & _)|destruct (Hsame s m "") as (_ & -> & _)|destruct (Hsame s m t) as (_ & _ & ->)]; auto; congruence.
  - intros s' m t Hs' Hm Hne. apply Hsame; [done..|congruence].
Qed.

(** The index of a session with rows. *)
Lemma index_of_row s p at_ r : Inv p -> rows s p !! at_ = Some r -> exists idx, index p !! s = Some idx /\ index_ok (regs s p) idx.
Proof.
  intros HI Hl. destruct (inv_dom _ HI s) as [idx Hi]; [by eapply rows_lookup_dom|]. exists idx. split; [done|]. by apply HI.
Qed.

Lemma pos_of_row s p at_ r idx :
  Inv p -> rows s p !! at_ = Some r -> index_ok (regs s p) idx -> pos idx !! rid r = Some at_.
Proof.
  intros HI Hl [H1 _ _ _]. rewrite H1, <- reg_id, (positions_unique _ at_ (reg_of r)); [done|by apply regs_nodup|by apply regs_lookup].
Qed.

(** The index after a change of one registration. *)
Lemma index_ok_insert gs at_ g g' idx opens runs :
  gs !! at_ = Some g -> g_id g' = g_id g -> g_shell g' = g_shell g -> index_ok gs idx ->
  opens = positions g_open (<[at_ := g']> gs) -> runs = positions g_running (<[at_ := g']> gs) ->
  index_ok (<[at_ := g']> gs) (MkIndex (pos idx) opens runs (shells idx)).
Proof.
  intros Hl Hid Hsh [H1 H2 H3 H4] Ho Hr. split; cbn; [| done | done |].
  - intros id. rewrite H1. f_equal. symmetry. eapply positions_same; [done|]. unfold has_id. by rewrite Hid.
  - intros sid. rewrite H4. f_equal. symmetry. eapply positions_same; [done|]. unfold has_shell. by rewrite Hsh.
Qed.

(** An edit that leaves the registration of the row as it was. *)
Lemma Inv_put_row s at_ r o p :
  Inv p -> nul_free s -> rows s p !! at_ = Some r -> row_ok o -> reg_of (Some o) = reg_of r -> Inv (put_row s at_ o p).
Proof.
  intros HI Hs Hl Ho Hg. destruct (index_of_row s p at_ r HI Hl) as (idx & Hi & Hok).
  assert (Hid : rid (Some o) = rid r) by (by rewrite <- !reg_id, Hg).
  apply (Inv_edit s at_ r o idx p); rewrite ?Hg; try done.
  - by rewrite insert_id.
  - rewrite list_insert_id; [done|]. by apply regs_lookup.
  - by apply (paths_of_row s p at_ r).
Qed.

Lemma Inv_close s at_ r o p :
  Inv p -> nul_free s -> rows s p !! at_ = Some r -> row_ok o ->
  reg_of (Some o) = MkReg (g_id (reg_of r)) false (g_running (reg_of r)) (g_shell (reg_of r)) (g_parts (reg_of r)) ->
  Inv (closeAssistant s (rid r) (put_row s at_ o p)).
Proof.
  intros HI Hs Hl Ho Hg. destruct (index_of_row s p at_ r HI Hl) as (idx & Hi & Hok). pose proof (regs_lookup _ _ _ _ Hl) as Hgl.
  assert (Hid : rid (Some o) = rid r) by (by rewrite <- !reg_id, Hg).
  unfold closeAssistant, update_index. cbn. rewrite Hi, (pos_of_row s p at_ r) by done.
  eapply (Inv_edit s at_ r o _ p); [done|done|done|done|done|done|reflexivity| | |done].
  - eapply index_ok_insert; [done|by rewrite Hg..|done| |].
    + rewrite (ix_open _ _ Hok). symmetry. eapply positions_clear; [done|by rewrite Hg].
    + rewrite (ix_running _ _ Hok). symmetry. eapply positions_same; [done|by rewrite Hg].
  - rewrite Hg. by apply (paths_of_row s p at_ r).
Qed.

Lemma Inv_reopen s at_ r o p :
  Inv p -> nul_free s -> rows s p !! at_ = Some r -> row_ok o ->
  reg_of (Some o) = MkReg (g_id (reg_of r)) true (g_running (reg_of r)) (g_shell (reg_of r)) (g_parts (reg_of r)) ->
  Inv (reopenAssistant s (rid r) (put_row s at_ o p)).
Proof.
  intros HI Hs Hl Ho Hg. destruct (index_of_row s p at_ r HI Hl) as (idx & Hi & Hok). pose proof (regs_lookup _ _ _ _ Hl) as Hgl.
  assert (Hid : rid (Some o) = rid r) by (by rewrite <- !reg_id, Hg).
  assert (Hin : at_ ∈ openAssistants idx <-> g_open (reg_of r) = true).
  { rewrite (ix_open _ _ Hok), positions_elem, Hgl. split; [intros (x & [= <-] & H); done|eauto]. }
  unfold reopenAssistant, update_index. cbn. rewrite Hi, (pos_of_row s p at_ r) by done.
  assert (Hruns : runningCompactions idx = positions g_running (<[at_ := reg_of (Some o)]> (regs s p))).
  { rewrite (ix_running _ _ Hok). symmetry. eapply positions_same; [done|by rewrite Hg]. }
  eapply (Inv_edit s at_ r o _ p); [done|done|done|done|done|done|reflexivity| | |done];
    [|rewrite Hg; by apply (paths_of_row s p at_ r)].
  case_bool_decide as Hb.
  - apply Hin in Hb. assert (Hopens : openAssistants idx = positions g_open (<[at_ := reg_of (Some o)]> (regs s p))).
    { rewrite (ix_open _ _ Hok). symmetry. eapply positions_same; [done|by rewrite Hg]. }
    destruct idx as [ps os rs shs]. apply (index_ok_insert _ _ _ _ (MkIndex ps os rs shs) _ _ Hgl); [by rewrite Hg|by rewrite Hg|done..].
  - eapply index_ok_insert; [done|by rewrite Hg..|done| |done].
    rewrite (ix_open _ _ Hok). symmetry. eapply positions_set; [done| |by rewrite Hg].
    destruct (g_open (reg_of r)); [|done]. exfalso. by apply Hb, Hin.
Qed.

Lemma Inv_endCompaction s at_ r o p :
  Inv p -> nul_free s -> rows s p !! at_ = Some r -> row_ok o ->
  reg_of (Some o) = MkReg (g_id (reg_of r)) (g_open (reg_of r)) false (g_shell (reg_of r)) (g_parts (reg_of r)) ->
  Inv (endCompaction s at_ (put_row s at_ o p)).
Proof.
  intros HI Hs Hl Ho Hg. destruct (index_of_row s p at_ r HI Hl) as (idx & Hi & Hok). pose proof (regs_lookup _ _ _ _ Hl) as Hgl.
  assert (Hid : rid (Some o) = rid r) by (by rewrite <- !reg_id, Hg).
  unfold endCompaction, update_index. cbn. rewrite Hi.
  eapply (Inv_edit s at_ r o _ p); [done|done|done|done|done|done|reflexivity| | |done].
  - eapply index_ok_insert; [done|by rewrite Hg..|done| |].
    + rewrite (ix_open _ _ Hok). symmetry. eapply positions_same; [done|by rewrite Hg].
    + rewrite (ix_running _ _ Hok). symmetry. eapply positions_clear; [done|by rewrite Hg].
  - rewrite Hg. by apply (paths_of_row s p at_ r).
Qed.

(** An edit of the parts of a row: the row index stays, the paths of the
    message are given. *)
Lemma Inv_parts s at_ r o p p' :
  Inv p -> nul_free s -> rows s p !! at_ = Some r -> row_ok o ->
  reg_of (Some o) = MkReg (g_id (reg_of r)) (g_open (reg_of r)) (g_running (reg_of r)) (g_shell (reg_of r)) (g_parts (reg_of (Some o))) ->
  state p' = state (put_row s at_ o p) -> index p' = index p ->
  paths_here s (rid r) at_ (g_parts (reg_of (Some o))) p' -> same_others s (rid r) p p' -> Inv p'.
Proof.
  intros HI Hs Hl Ho Hg Hst Hix Hp Hsame. destruct (index_of_row s p at_ r HI Hl) as (idx & Hi & Hok).
  pose proof (regs_lookup _ _ _ _ Hl) as Hgl.
  assert (Hid : rid (Some o) = rid r) by (by rewrite <- !reg_id, Hg).
  eapply (Inv_edit s at_ r o idx p); [done|done|done|done|done|done|by rewrite insert_id| |done|done].
  assert (Hopens : openAssistants idx = positions g_open (<[at_ := reg_of (Some o)]> (regs s p))).
  { rewrite (ix_open _ _ Hok). symmetry. eapply positions_same; [done|by rewrite Hg]. }
  assert (Hruns : runningCompactions idx = positions g_running (<[at_ := reg_of (Some o)]> (regs s p))).
  { rewrite (ix_running _ _ Hok). symmetry. eapply positions_same; [done|by rewrite Hg]. }
  destruct idx as [ps os rs shs]. apply (index_ok_insert _ _ _ _ (MkIndex ps os rs shs) _ _ Hgl); [by rewrite Hg|by rewrite Hg|done..].
Qed.

(** ** Lookups and insertion *)

Lemma Inv_messages s p : Inv p -> nul_free s -> Inv (messages s p) /\ rows s (messages s p) = rows s p.
Proof.
  intros HI Hnul. unfold messages. destruct (Message (state p) !! s) eqn:E; [done|].
  assert (Hr : rows s p = []) by (unfold rows; by rewrite E). split; [|by rewrite rows_put].
  assert (Hrows : forall s', rows s' (put_rows s [] p) = rows s' p).
  { intros s'. destruct (decide (s' = s)) as [->|]; [by rewrite rows_put|by rewrite rows_put_ne]. }
  destruct HI as [H1 H2 H3 H4 H5 H6]. split; unfold regs; try done; intros s'; rewrite ?Hrows; auto.
  - apply H1.
  - intros Hs m Hm. destruct (H3 s' Hs m Hm) as [A B C]. by split.
  - cbn. destruct (decide (s' = s)) as [->|Hne]; [done|]. rewrite lookup_insert_ne by done. apply H6.
Qed.

Lemma indexFor_spec s p p' idx :
  Inv p -> nul_free s -> indexFor s p = (p', idx) ->
  Inv p' /\ state p' = state p /\ index p' !! s = Some idx /\ index_ok (regs s p') idx /\ rows s p' = rows s p.
Proof.
  intros HI Hs. unfold indexFor. destruct (index p !! s) as [i|] eqn:E.
  { intros [= <- <-]. split_and!; try done. by apply HI. }
  assert (Hr : rows s p = []).
  { destruct (rows s p) eqn:Er; [done|]. destruct (inv_dom _ HI s) as [? H]; [by rewrite Er|congruence]. }
  pose proof (rebuild_same s p HI Hs Hr) as HI'.
  destruct (rebuild_spec s p Hs) as (H1 & _ & _ & idx' & H4 & H5); [by rewrite Hr; constructor|].
  intros [= <- <-]. rewrite H4, lookup_insert_eq.
  assert (Hrows : rows s (rebuildIndexes s p) = rows s p) by (unfold rows; by rewrite H1).
  split_and!; try done. unfold regs. by rewrite Hrows.
Qed.

(** The rows [insert] leaves. *)
Definition inserted (item : obj) (l : list ref) : list ref :=
  if bool_decide (str (get item "id") ∈ rid <$> l) then l else l ++ [Some (clone item)].

Definition insert_state (s : string) (item : obj) (st : ProjectionState) : ProjectionState :=
  set_Message (<[s := inserted item (default [] (Message st !! s))]> (Message st)) st.

Lemma pos_none gs idx id : index_ok gs idx -> pos idx !! id = None <-> id ∉ g_id <$> gs.
Proof.
  intros [H _ _ _]. rewrite H, last_None, positions_nil, Forall_forall. unfold has_id. split.
  - intros Hf (g & -> & Hg)%list_elem_of_fmap. specialize (Hf g Hg). by rewrite String.eqb_refl in Hf.
  - intros Hn g Hg. apply String.eqb_neq. intros <-. apply Hn, list_elem_of_fmap. by exists g.
Qed.

Lemma row_ok_reg_id item : g_id (reg_of (Some (clone item))) = str (get item "id").
Proof. cbn. by rewrite get_clone, str_clone. Qed.

Lemma messages_state s p :
  state (messages s p) = set_Message (<[s := rows s p]> (Message (state p))) (state p).
Proof.
  unfold messages, rows. destruct (Message (state p) !! s) eqn:E; cbn; [|done].
  rewrite insert_id by done. by destruct (state p).
Qed.

Lemma Inv_insert s item p :
  Inv p -> nul_free s -> row_ok (clone item) -> Inv (insert s item p) /\ state (insert s item p) = insert_state s item (state p).
Proof.
  intros HI Hs Hrow. unfold insert. destruct (Inv_messages s p HI Hs) as [HI1 Hr1].
  destruct (indexFor s (messages s p)) as [p1 idx] eqn:Ei.
  destruct (indexFor_spec s _ _ _ HI1 Hs Ei) as (HI2 & Hst & Hix & Hok & Hr2). rewrite Hr1 in Hr2.
  rewrite messages_state in Hst. unfold insert_state, inserted. fold (rows s p).
  assert (Hids : rid <$> rows s p = g_id <$> regs s p1) by (unfold regs; rewrite Hr2, <- list_fmap_compose; done).
  destruct (pos idx !! str (get item "id")) as [at_|] eqn:Ep.
  { rewrite bool_decide_eq_true_2; [done|]. rewrite Hids.
    destruct (decide (str (get item "id") ∈ g_id <$> regs s p1)) as [|Hn]; [done|]. apply (pos_none _ _ _ Hok) in Hn. congruence. }
  apply (pos_none _ _ _ Hok) in Ep. rewrite bool_decide_eq_false_2 by (by rewrite Hids).
  rewrite <- row_ok_reg_id in Ep |- *. rewrite Hr2.
  destruct (registerRow _ _ _ _ _) as [idx' p2] eqn:Er. rewrite <- (length_fmap reg_of (rows s p)) in Er.
  assert (Hgs : reg_of <$> rows s p = regs s p1) by (unfold regs; by rewrite Hr2). rewrite Hgs in Er.
  eapply registerRow_spec in Er as (K1 & K2 & K3 & K4 & K5); [|done|by rewrite row_ok_reg_id, <- (str_clone (get item "id")), <- get_clone; apply Hrow|done|].
  2:{ intros m Hm. destruct (inv_parts _ HI2 s Hs m Hm) as [A B C]. by split. }
  assert (Hst2 : state (set_index s idx' p2) = set_Message (<[s := rows s p ++ [Some (clone item)]]> (Message (state p1))) (state p1)).
  { cbn. by rewrite K3. }
  split; [|rewrite Hst2, Hst; cbn; by rewrite insert_insert_eq].
  apply (Inv_session s (rows s p ++ [Some (clone item)]) idx' p1); try done.
  - destruct (inv_rows _ HI s) as [Hnd Hf]. split.
    + rewrite fmap_app. apply NoDup_app. split_and!; [done| |by repeat constructor; set_solver].
      intros x Hx ->%list_elem_of_singleton. rewrite row_ok_reg_id in Ep. apply Ep. rewrite <- Hids.
      by rewrite <- reg_id, row_ok_reg_id in Hx.
    + apply Forall_app. split; [done|]. constructor; [|done]. by exists (clone item).
  - cbn. by rewrite K4.
  - rewrite fmap_app, Hgs. done.
  - rewrite fmap_app, Hgs. intros m Hm. destruct (K2 m Hm) as [A B C]. by split.
Qed.
