(* ===== verification/SessionSim.v ===== *)
(** * Session projection: selections and simulation

    What the selectors return under [Inv], and the relation between two
    projections of the same state. *)

From stdpp Require Import sorting.
From S2P Require Import Prelude GoText SessionJson SessionState SessionReduce SessionIndex SessionInv.
From Stdlib Require Import Ascii.

Open Scope string_scope.
Open Scope list_scope.
Open Scope nat_scope.

(** ** The scans the access paths stand for *)

(** [findLast], with the position. *)
Fixpoint find_last_from {A} (n : nat) (P : A -> bool) (l : list A) : option (nat * A) :=
  match l with
  | [] => None
  | x :: rest =>
      match find_last_from (S n) P rest with
      | Some y => Some y
      | None => if P x then Some (n, x) else None
      end
  end.

Definition find_last {A} : (A -> bool) -> list A -> option (nat * A) := find_last_from 0.

Lemma last_cons_orelse {A} (x : A) l : last (x :: l) = orelse (last l) (Some x).
Proof. apply (last_orelse [x] l). Qed.

Lemma find_last_positions {A} n (P : A -> bool) l : fst <$> find_last_from n P l = last (positions_from n P l).
Proof.
  revert n. induction l as [|x l IH]; intros n; [done|]. cbn [find_last_from positions_from]. specialize (IH (S n)).
  destruct (P x); [rewrite last_cons_orelse|]; rewrite <- IH; by destruct (find_last_from (S n) P l).
Qed.

Lemma find_last_lookup {A} n (P : A -> bool) l i x : find_last_from n P l = Some (i, x) -> n <= i /\ l !! (i - n) = Some x /\ P x = true.
Proof.
  revert n. induction l as [|y l IH]; intros n; cbn; [done|].
  destruct (find_last_from (S n) P l) as [[j z]|] eqn:E.
  - intros [= -> ->]. destruct (IH _ E) as (H1 & H2 & H3). split; [lia|]. by replace (i - n) with (S (i - S n)) by lia.
  - destruct (P y) eqn:Ep; [|done]. intros [= -> ->]. by rewrite Nat.sub_diag.
Qed.

Lemma positions_fmap {A B} (f : A -> B) P n l : positions_from n P (f <$> l) = positions_from n (P ∘ f) l.
Proof. revert n. induction l as [|x l IH]; intros n; cbn; [done|]. by rewrite IH. Qed.

(** The tests on rows and parts. *)
Definition open_assistant (r : ref) : bool :=
  String.eqb (str (Get r "type")) "assistant" && negb (truthy (Get (objOf (Get r "time")) "completed")).
Definition running_compaction (r : ref) : bool :=
  String.eqb (str (Get r "type")) "compaction" && String.eqb (str (Get r "status")) "running".
Definition shell_row (sid : string) (r : ref) : bool :=
  String.eqb (str (Get r "type")) "shell" && String.eqb (str (Get r "shellID")) sid.
Definition message_row (id : string) (r : ref) : bool := String.eqb (rid r) id.

Lemma find_last_ext {A} (P Q : A -> bool) l : (forall x, P x = Q x) -> find_last P l = find_last Q l.
Proof. intros H. unfold find_last. generalize 0. induction l as [|x l IH]; intros n; cbn; [done|]. by rewrite IH, H. Qed.

Lemma has_shell_row sid r : (has_shell sid ∘ reg_of) r = shell_row sid r.
Proof.
  unfold compose, has_shell, shell_row. cbn. destruct (String.eqb _ "shell"); cbn; [|by apply bool_decide_eq_false].
  destruct (String.eqb_spec (str (Get r "shellID")) sid) as [->|Hne]; [by apply bool_decide_eq_true|apply bool_decide_eq_false; congruence].
Qed.

Lemma last_position_row (P : reg -> bool) l :
  match last (positions P (reg_of <$> l)) with
  | None => find_last (P ∘ reg_of) l = None
  | Some i => exists r, l !! i = Some r /\ find_last (P ∘ reg_of) l = Some (i, r)
  end.
Proof.
  unfold positions. rewrite positions_fmap, <- find_last_positions. unfold find_last.
  destruct (find_last_from 0 (P ∘ reg_of) l) as [[i r]|] eqn:E; cbn; [|done].
  destruct (find_last_lookup _ _ _ _ _ E) as (_ & H & _). rewrite Nat.sub_0_r in H. eauto.
Qed.

Lemma empty_rows s p : Inv p -> index p !! s = None -> rows s p = [].
Proof. intros HI E. destruct (rows s p) eqn:Er; [done|]. destruct (inv_dom _ HI s) as [? H]; [by rewrite Er|congruence]. Qed.

Lemma last_row_spec s path P p :
  Inv p -> (forall idx, index_ok (regs s p) idx -> path idx = positions P (regs s p)) ->
  last_row s path p = Some (find_last (P ∘ reg_of) (rows s p)).
Proof.
  intros HI Hpath. unfold last_row. destruct (index p !! s) as [idx|] eqn:E.
  - rewrite Hpath by (by apply HI). pose proof (last_position_row P (rows s p)) as H. unfold regs.
    destruct (last _) as [i|]; [|by rewrite H]. destruct H as (r & Hl & ->). by rewrite Hl.
  - by rewrite empty_rows.
Qed.

Lemma openAssistant_spec s p : Inv p -> openAssistant s p = Some (find_last open_assistant (rows s p)).
Proof. intros HI. apply (last_row_spec s openAssistants g_open); [done|]. intros idx H. apply H. Qed.

Lemma runningCompaction_spec s p : Inv p -> runningCompaction s p = Some (find_last running_compaction (rows s p)).
Proof. intros HI. apply (last_row_spec s runningCompactions g_running); [done|]. intros idx H. apply H. Qed.

Lemma shell_spec s sid p : Inv p -> shell s sid p = Some (find_last (shell_row sid) (rows s p)).
Proof.
  intros HI. unfold shell. destruct (index p !! s) as [idx|] eqn:E; [|by rewrite empty_rows].
  pose proof (inv_index _ HI s idx E) as Hok. rewrite (ix_shells _ _ Hok).
  pose proof (last_position_row (has_shell sid) (rows s p)) as H. unfold regs.
  rewrite (find_last_ext _ (shell_row sid)) in H by apply has_shell_row. destruct (last _) as [i|].
  - destruct H as (r & Hl & ->). by rewrite Hl.
  - by rewrite H.
Qed.

(** [message]: the row with the identifier. *)
Definition row_with (id : string) (l : list ref) : option (nat * obj) :=
  match find_last (message_row id) l with Some (i, Some o) => Some (i, o) | _ => None end.

Lemma message_spec s id p p' m :
  Inv p -> nul_free s -> message s id p = (p', m) -> Inv p' /\ state p' = state p /\ m = row_with id (rows s p).
Proof.
  intros HI Hs. unfold message. destruct (indexFor s p) as [p1 idx] eqn:Ei.
  destruct (indexFor_spec s _ _ _ HI Hs Ei) as (HI1 & Hst & _ & Hok & Hr).
  rewrite (ix_pos _ _ Hok). unfold regs. rewrite Hr. pose proof (last_position_row (has_id id) (rows s p)) as H. unfold row_with, message_row.
  change (has_id id ∘ reg_of) with (fun r => String.eqb (rid r) id) in H.
  destruct (last _) as [i|].
  - destruct H as (r & Hl & ->). rewrite Hl. destruct r; intros [= <- <-]; done.
  - rewrite H. intros [= <- <-]. done.
Qed.

Lemma row_with_lookup id l i o : row_with id l = Some (i, o) -> l !! i = Some (Some o) /\ rid (Some o) = id.
Proof.
  unfold row_with, find_last. destruct (find_last_from _ _ _) as [[j [o'|]]|] eqn:E; [|done..]. intros [= -> ->].
  destruct (find_last_lookup _ _ _ _ _ E) as (_ & H & Hp). rewrite Nat.sub_0_r in H. split; [done|].
  by apply String.eqb_eq in Hp.
Qed.

Lemma find_last_row (P : ref -> bool) l i r : find_last P l = Some (i, r) -> l !! i = Some r /\ P r = true.
Proof. intros E. destruct (find_last_lookup _ _ _ _ _ E) as (_ & H & Hp). by rewrite Nat.sub_0_r in H. Qed.

(** ** Two projections of the same state *)

Definition rel (p q : Projection) : Prop := state p = state q /\ Inv p /\ Inv q.

Definition both (a b : option Projection) : Prop := exists p q, a = Some p /\ b = Some q /\ rel p q.

Lemma both_some p q : rel p q -> both (Some p) (Some q).
Proof. intros H. by exists p, q. Qed.

Lemma rel_rows s p q : rel p q -> rows s q = rows s p.
Proof. intros (E & _). unfold rows. by rewrite E. Qed.

Lemma both_bind a b f g : both a b -> (forall p q, a = Some p -> rel p q -> both (f p) (g q)) -> both (a ≫= f) (b ≫= g).
Proof. intros (p & q & -> & -> & H) Hf. by apply Hf. Qed.

(** A total step that keeps the invariant and whose state depends on the
    state only. *)
Lemma rel_step (F : Projection -> Projection) (S : ProjectionState -> ProjectionState) p q :
  rel p q -> (forall x, state x = state p -> Inv x -> Inv (F x) /\ state (F x) = S (state x)) -> rel (F p) (F q).
Proof.
  intros (E & Hp & Hq) H. destruct (H p eq_refl Hp) as [H1 H2]. destruct (H q (eq_sym E) Hq) as [H3 H4].
  split; [by rewrite H2, H4, E|done].
Qed.

Lemma rel_others (f : ProjectionState -> ProjectionState) p q :
  rel p q -> Message (f (state p)) = Message (state p) -> others_ok (f (state p)) -> rel (with_state f p) (with_state f q).
Proof.
  intros H HM Ho. apply (rel_step _ f); [done|]. intros x E HI. split; [|done].
  apply (Inv_others x); cbn; rewrite ?E; done.
Qed.

Lemma row_ok_clone o : row_ok o -> row_ok (clone o).
Proof.
  intros [R1 R2 (t & R3) R4]. split; rewrite ?get_clone.
  - by destruct (get o "id").
  - by rewrite str_clone.
  - exists (clone t). by rewrite get_clone, R3.
  - rewrite str_clone, items_clone. intros Ht. specialize (R4 Ht). apply Forall_map. eapply Forall_impl; [apply R4|].
    intros v Hv part Hp Hk. destruct v; try discriminate. injection Hp as <-.
    change (map _ members) with (clone members) in Hk |- *. rewrite get_clone, str_clone in Hk.
    destruct (Hv _ eq_refl Hk) as [t' Ht']. exists (clone t'). by rewrite get_clone, Ht'.
Qed.

Lemma rel_insert s item p q : rel p q -> nul_free s -> row_ok item -> rel (insert s item p) (insert s item q).
Proof.
  intros H Hs Hr. apply (rel_step _ (insert_state s item)); [done|]. intros x _ HI. apply Inv_insert; [done|done|by apply row_ok_clone].
Qed.

Lemma rel_put_row s at_ r o p q :
  rel p q -> nul_free s -> rows s p !! at_ = Some r -> row_ok o -> reg_of (Some o) = reg_of r ->
  rel (put_row s at_ o p) (put_row s at_ o q).
Proof.
  intros H Hs Hl Ho Hg. apply (rel_step _ (fun st => set_Message (<[s := <[at_ := Some o]> (default [] (Message st !! s))]> (Message st)) st)); [done|].
  intros x E HI. assert (Hx : rows s x = rows s p) by (unfold rows; by rewrite E).
  split; [|done]. apply (Inv_put_row s at_ r o); rewrite ?Hx; done.
Qed.

Lemma rel_rebuild s l p q : rel p q -> nul_free s -> rows_ok l -> rel (rebuildIndexes s (put_rows s l p)) (rebuildIndexes s (put_rows s l q)).
Proof.
  intros H Hs Hl. apply (rel_step (fun p => rebuildIndexes s (put_rows s l p)) (fun st => set_Message (<[s := l]> (Message st)) st)); [done|].
  intros x E HI. split; [by apply Inv_rebuild|].
  destruct (rebuild_spec s (put_rows s l x) Hs) as (-> & _); [rewrite rows_put; by apply rows_ok_nul|done].
Qed.

Lemma rel_messages s p q : rel p q -> nul_free s -> rel (messages s p) (messages s q).
Proof.
  intros H Hs. apply (rel_step _ (fun st => set_Message (<[s := default [] (Message st !! s)]> (Message st)) st)); [done|].
  intros x E HI. split; [by apply Inv_messages|apply messages_state].
Qed.

Lemma update_index_state s f p : state (update_index s f p) = state p.
Proof. unfold update_index. by destruct (index p !! s). Qed.

Lemma put_row_state s at_ o p q : state p = state q -> state (put_row s at_ o p) = state (put_row s at_ o q).
Proof. intros E. unfold put_row, put_rows, rows. cbn. by rewrite E. Qed.

(** A step whose state is the one of writing a row. *)
Lemma rel_row_step (F : Projection -> Projection) s at_ o p q :
  rel p q -> (forall x, state x = state p -> Inv x -> Inv (F x) /\ state (F x) = state (put_row s at_ o x)) -> rel (F p) (F q).
Proof.
  intros (E & Hp & Hq) H. destruct (H p eq_refl Hp) as [H1 H2]. destruct (H q (eq_sym E) Hq) as [H3 H4].
  split; [|done]. rewrite H2, H4. by apply put_row_state.
Qed.

Lemma state_rows s x p : state x = state p -> rows s x = rows s p.
Proof. intros E. unfold rows. by rewrite E. Qed.

Lemma rel_close s at_ r o p q :
  rel p q -> nul_free s -> rows s p !! at_ = Some r -> row_ok o ->
  reg_of (Some o) = MkReg (g_id (reg_of r)) false (g_running (reg_of r)) (g_shell (reg_of r)) (g_parts (reg_of r)) ->
  rel (closeAssistant s (rid r) (put_row s at_ o p)) (closeAssistant s (rid r) (put_row s at_ o q)).
Proof.
  intros H Hs Hl Ho Hg. apply (rel_row_step (fun p => closeAssistant s (rid r) (put_row s at_ o p)) s at_ o); [done|].
  intros x E HI. split; [|apply update_index_state]. apply Inv_close; rewrite ?(state_rows s x p); done.
Qed.

Lemma rel_reopen s at_ r o p q :
  rel p q -> nul_free s -> rows s p !! at_ = Some r -> row_ok o ->
  reg_of (Some o) = MkReg (g_id (reg_of r)) true (g_running (reg_of r)) (g_shell (reg_of r)) (g_parts (reg_of r)) ->
  rel (reopenAssistant s (rid r) (put_row s at_ o p)) (reopenAssistant s (rid r) (put_row s at_ o q)).
Proof.
  intros H Hs Hl Ho Hg. apply (rel_row_step (fun p => reopenAssistant s (rid r) (put_row s at_ o p)) s at_ o); [done|].
  intros x E HI. split; [|apply update_index_state]. apply Inv_reopen; rewrite ?(state_rows s x p); done.
Qed.

Lemma rel_endCompaction s at_ r o p q :
  rel p q -> nul_free s -> rows s p !! at_ = Some r -> row_ok o ->
  reg_of (Some o) = MkReg (g_id (reg_of r)) (g_open (reg_of r)) false (g_shell (reg_of r)) (g_parts (reg_of r)) ->
  rel (endCompaction s at_ (put_row s at_ o p)) (endCompaction s at_ (put_row s at_ o q)).
Proof.
  intros H Hs Hl Ho Hg. apply (rel_row_step (fun p => endCompaction s at_ (put_row s at_ o p)) s at_ o); [done|].
  intros x E HI. split; [|apply update_index_state]. apply (Inv_endCompaction s at_ r); rewrite ?(state_rows s x p); done.
Qed.

(** ** Parts *)

Definition set_part (o : obj) (i : nat) (part : obj) : obj :=
  set o "content" (VArr (<[i := VObj part]> (items (get o "content")))).

Lemma part_at_row s at_ i o part p :
  rows s p !! at_ = Some (Some o) -> items (get o "content") !! i = Some (VObj part) -> part_at (Part s at_ i) p = Some part.
Proof. intros Hl Hi. unfold part_at. cbn. rewrite Hl. cbn. by rewrite Hi. Qed.

Lemma put_part_row s at_ i o part p :
  rows s p !! at_ = Some (Some o) -> put_part (Part s at_ i) part p = put_row s at_ (set_part o i part) p.
Proof. intros Hl. unfold put_part. cbn. by rewrite Hl. Qed.

Lemma items_set_part o i part : items (get (set_part o i part) "content") = <[i := VObj part]> (items (get o "content")).
Proof. unfold set_part. by rewrite get_set. Qed.

Lemma reg_set_part o i part :
  str (get o "type") = "assistant" ->
  reg_of (Some (set_part o i part)) = MkReg (g_id (reg_of (Some o))) (g_open (reg_of (Some o))) (g_running (reg_of (Some o)))
    (g_shell (reg_of (Some o))) (<[i := part_class (VObj part)]> (g_parts (reg_of (Some o)))).
Proof.
  intros Ht. unfold reg_of. cbn [Get]. unfold set_part. rewrite !get_set. cbn [String.eqb Ascii.eqb Bool.eqb]. rewrite Ht.
  cbn. f_equal. apply list_fmap_insert.
Qed.

Lemma row_ok_set_part o i part : row_ok o -> tool_timed (VObj part) -> row_ok (set_part o i part).
Proof.
  intros [R1 R2 (t & R3) R4] Hp. split; rewrite ?items_set_part; unfold set_part; rewrite ?get_set; cbn [String.eqb Ascii.eqb Bool.eqb]; try done.
  - exists t. by rewrite get_set.
  - intros Ht. apply Forall_insert; auto.
Qed.

Lemma g_parts_assistant o : str (get o "type") = "assistant" -> g_parts (reg_of (Some o)) = part_class <$> items (get o "content").
Proof. intros Ht. cbn. by rewrite Ht. Qed.

(** The part a path leads to. *)
Lemma path_part (Q : pclass -> bool) s at_ o ptr :
  Q COther = false -> str (get o "type") = "assistant" -> last (Part s at_ <$> positions Q (g_parts (reg_of (Some o)))) = Some ptr ->
  exists i part, ptr = Part s at_ i /\ items (get o "content") !! i = Some (VObj part) /\ Q (part_class (VObj part)) = true.
Proof.
  intros HQ Ht. rewrite g_parts_assistant by done. rewrite fmap_last.
  destruct (last (positions _ _)) as [i|] eqn:E; [|done]. intros [= <-].
  apply last_Some_elem_of, positions_elem in E as (c & Hc & Hq). rewrite list_lookup_fmap in Hc.
  destruct (items (get o "content") !! i) as [v|] eqn:Ev; [|done]. injection Hc as <-.
  destruct v as [| | | | | | |part]; try (cbn in Hq; congruence). by exists i, part.
Qed.

(** Editing a part and keeping its class. *)
Lemma rel_edit_part s at_ i o part part' edit p q :
  rel p q -> nul_free s -> rows s p !! at_ = Some (Some o) -> str (get o "type") = "assistant" ->
  items (get o "content") !! i = Some (VObj part) -> edit part = Some part' ->
  part_class (VObj part') = part_class (VObj part) -> tool_timed (VObj part') ->
  both (edit_part (Part s at_ i) edit p) (edit_part (Part s at_ i) edit q).
Proof.
  intros H Hs Hl Ht Hi He Hc Htt. pose proof (rel_rows s p q H) as Hq.
  unfold edit_part. rewrite !(part_at_row s at_ i o part) by (by rewrite ?Hq). cbn. rewrite He. cbn.
  rewrite !(put_part_row s at_ i o) by (by rewrite ?Hq).
  apply both_some. apply (rel_put_row s at_ (Some o)); try done.
  - apply row_ok_set_part; [|done]. destruct H as (_ & HI & _). destruct (ref_ok_lookup s p at_ _ HI Hl) as (o' & [= <-] & Ho). done.
  - rewrite reg_set_part, Hc by done. destruct (reg_of (Some o)) as [? ? ? ? ps] eqn:E. cbn. f_equal.
    assert (Hps : ps = part_class <$> items (get o "content")) by (rewrite <- g_parts_assistant by done; by rewrite E).
    apply list_insert_id. rewrite Hps, list_lookup_fmap, Hi. done.
Qed.

(** ** Editing the assistant with an identifier *)

Lemma rel_message s id p q p' q' m m' :
  rel p q -> nul_free s -> message s id p = (p', m) -> message s id q = (q', m') ->
  rel p' q' /\ state p' = state p /\ m = row_with id (rows s p) /\ m' = m.
Proof.
  intros (E & Hp & Hq) Hs H1 H2. apply message_spec in H1 as (A1 & B1 & ->); [|done..]. apply message_spec in H2 as (A2 & B2 & ->); [|done..].
  split_and!; [split_and!; [congruence|done|done]|done|done|]. by rewrite (state_rows s q p).
Qed.

Lemma rel_editAssistant s id edit p q :
  rel p q -> nul_free s ->
  (forall p' q' at_ o, rel p' q' -> rows s p' !! at_ = Some (Some o) -> row_ok o -> str (get o "id") = id ->
     str (get o "type") = "assistant" -> both (edit at_ o p') (edit at_ o q')) ->
  both (editAssistant s id edit p) (editAssistant s id edit q).
Proof.
  intros H Hs He. unfold editAssistant. destruct (message s id p) as [p' m] eqn:Ep, (message s id q) as [q' m'] eqn:Eq.
  destruct (rel_message s id p q p' q' m m' H Hs Ep Eq) as (Hr & Hst & Em & ->).
  destruct m as [[at_ o]|]; [|by apply both_some]. symmetry in Em. apply row_with_lookup in Em as [Hl Hid].
  rewrite <- (state_rows s p' p Hst) in Hl.
  destruct (String.eqb_spec (str (get o "type")) "assistant"); [|by apply both_some].
  apply He; try done. destruct Hr as (_ & HI & _). by destruct (ref_ok_lookup s p' at_ _ HI Hl) as (o' & [= <-] & Ho).
Qed.

Lemma rel_paths s at_ o p q :
  rel p q -> nul_free s -> rows s p !! at_ = Some (Some o) ->
  paths_here s (str (get o "id")) at_ (g_parts (reg_of (Some o))) p /\ paths_here s (str (get o "id")) at_ (g_parts (reg_of (Some o))) q.
Proof.
  intros H Hs Hl. pose proof (rel_rows s p q H) as Hq. destruct H as (_ & HI & HI').
  split; [by apply (paths_of_row s p at_ (Some o))|]. apply (paths_of_row s q at_ (Some o)); [done|done|]. by rewrite Hq.
Qed.

Lemma rel_editText s id edit p q :
  rel p q -> nul_free s ->
  (forall t, str (get t "type") = "text" -> exists t', edit t = Some t' /\ str (get t' "type") = "text") ->
  both (editText s id edit p) (editText s id edit q).
Proof.
  intros H Hs He. apply rel_editAssistant; [done|done|]. clear p q H. intros p q at_ o H Hl Ho Hid Ht.
  destruct (rel_paths s at_ o p q H Hs Hl) as [(P1 & _) (Q1 & _)]. rewrite Hid in P1, Q1. rewrite P1, Q1.
  destruct (last _) as [ptr|] eqn:E; [|by apply both_some].
  apply path_part in E as (i & part & -> & Hi & Hc); [|done|done].
  assert (Hty : str (get part "type") = "text").
  { unfold part_class in Hc. cbn in Hc. destruct (String.eqb_spec (str (get part "type")) "text"); [done|]. repeat case_match; done. }
  destruct (He part Hty) as (t' & He' & Hty'). eapply rel_edit_part; try done.
  - unfold part_class. cbn. by rewrite Hty, Hty'.
  - intros part' [= <-]. by rewrite Hty'.
Qed.

Definition tool_edit (toolID : string) (edit : obj -> option obj) : Prop :=
  forall t, str (get t "type") = "tool" -> str (get t "id") = toolID -> has_time t ->
  exists t', edit t = Some t' /\ str (get t' "type") = "tool" /\ str (get t' "id") = toolID /\ has_time t'.

Lemma rel_editTool s id toolID edit p q :
  rel p q -> nul_free s -> tool_edit toolID edit -> both (editTool s id toolID edit p) (editTool s id toolID edit q).
Proof.
  intros H Hs He. apply rel_editAssistant; [done|done|]. clear p q H. intros p q at_ o H Hl Ho Hid Ht.
  destruct (rel_paths s at_ o p q H Hs Hl) as [(_ & _ & P1) (_ & _ & Q1)]. rewrite Hid in P1, Q1. rewrite P1, Q1.
  destruct (last _) as [ptr|] eqn:E; [|by apply both_some].
  apply path_part in E as (i & part & -> & Hi & Hc); [|done|done].
  assert (str (get part "type") = "tool" /\ str (get part "id") = toolID) as [Hty Htid].
  { unfold part_class in Hc. cbn in Hc. destruct (String.eqb (str (get part "type")) "text"); [done|].
    destruct (String.eqb (str (get part "type")) "reasoning"); [by destruct (negb _)|].
    destruct (String.eqb_spec (str (get part "type")) "tool"); [|done]. split; [done|]. cbn in Hc. by apply String.eqb_eq in Hc. }
  assert (Htm : has_time part).
  { destruct Ho as [_ _ _ Hparts]. specialize (Hparts Ht). eapply Forall_lookup_1 in Hparts; [|done]. by apply Hparts. }
  destruct (He part Hty Htid Htm) as (t' & He' & Hty' & Htid' & Htm'). eapply rel_edit_part; try done.
  - unfold part_class. cbn. by rewrite Hty, Hty', Htid, Htid'.
  - intros part' [= <-]. done.
Qed.

(** ** Reasoning parts *)

(** Clearing the last position removes the last. *)
Lemma positions_clear_last {A} (P : A -> bool) l i x y :
  l !! i = Some x -> last (positions P l) = Some i -> P x = true -> P y = false ->
  positions P (<[i := y]> l) = removelast (positions P l).
Proof.
  intros Hl Hlast Hx Hy. rewrite (positions_insert P l i x), Hy by done. rewrite (positions_split P l i x), Hx in Hlast |- * by done.
  assert (Hnil : positions_from (S i) P (drop (S i) l) = []).
  { destruct (positions_from (S i) P (drop (S i) l)) as [|j B] eqn:E using rev_ind; [done|]. exfalso.
    rewrite !app_assoc, last_snoc in Hlast. injection Hlast as ->.
    apply (after_not_elem P l i). rewrite E. apply elem_of_app. right. by left. }
  rewrite Hnil. cbn. rewrite app_nil_r, removelast_last. done.
Qed.

Lemma removelast_fmap {A B} (f : A -> B) l : removelast (f <$> l) = f <$> removelast l.
Proof. induction l as [|x [|y l] IH]; [done|done|]. cbn in *. by rewrite IH. Qed.

Definition still_open (t : obj) : bool := negb (truthy (Get (objOf (get t "time")) "completed")).

(** The pop of the stack after the edit. *)
Definition pop_reasoning (key : string) (stack : list part_ptr) (p : Projection) : Projection :=
  set_openReasoning
    (match removelast stack with [] => base.delete key (openReasoning p) | _ => <[key := removelast stack]> (openReasoning p) end) p.

Lemma pop_default key stack p : default [] (openReasoning (pop_reasoning key stack p) !! key) = removelast stack.
Proof. unfold pop_reasoning. destruct (removelast stack); cbn; [by rewrite lookup_delete_eq|by rewrite lookup_insert_eq]. Qed.

Lemma pop_other key key' stack p : key' <> key -> openReasoning (pop_reasoning key stack p) !! key' = openReasoning p !! key'.
Proof. intros Hne. unfold pop_reasoning. destruct (removelast stack); cbn; [by rewrite lookup_delete_ne|by rewrite lookup_insert_ne]. Qed.

Lemma Inv_finish_reasoning s at_ i o part part' p stack :
  Inv p -> nul_free s -> rows s p !! at_ = Some (Some o) -> str (get o "type") = "assistant" ->
  items (get o "content") !! i = Some (VObj part) -> part_class (VObj part) = COpen -> part_class (VObj part') = COther ->
  tool_timed (VObj part') -> stack = Part s at_ <$> positions is_reasoning (g_parts (reg_of (Some o))) ->
  last stack = Some (Part s at_ i) ->
  Inv (pop_reasoning (partKey s (str (get o "id")) "") stack (put_row s at_ (set_part o i part') p)).
Proof.
  intros HI Hs Hl Ht Hi Hc Hc' Htt Hstack Hlast.
  destruct (ref_ok_lookup s p at_ _ HI Hl) as (o' & [= <-] & Ho).
  destruct (paths_of_row s p at_ (Some o) HI Hs Hl) as (P1 & P2 & P3). cbn [rid] in *.
  assert (Hcs : g_parts (reg_of (Some o)) !! i = Some COpen).
  { rewrite g_parts_assistant, list_lookup_fmap, Hi by done. cbn [fmap option_fmap option_map]. by rewrite Hc. }
  assert (Hlast' : last (positions is_reasoning (g_parts (reg_of (Some o)))) = Some i).
  { rewrite Hstack, fmap_last in Hlast. destruct (last (positions _ _)); [|done]. by injection Hlast as ->. }
  eapply (Inv_parts s at_ (Some o) (set_part o i part') p); [done|done|done|by apply row_ok_set_part| | | | |].
  - by rewrite reg_set_part.
  - unfold pop_reasoning. by destruct (removelast stack).
  - unfold pop_reasoning. by destruct (removelast stack).
  - rewrite reg_set_part by done. cbn [g_parts]. rewrite Hc'. split_and!.
    + rewrite (positions_same is_text _ i COpen COther Hcs eq_refl). unfold pop_reasoning. destruct (removelast stack); apply P1.
    + rewrite (positions_clear_last is_reasoning _ i COpen) by done. rewrite pop_default, Hstack. apply removelast_fmap.
    + intros t. rewrite (positions_same (is_tool t) _ i COpen COther Hcs eq_refl). unfold pop_reasoning. destruct (removelast stack); apply P3.
  - intros s' m t Hs' Hm Hne. split_and!; [by unfold pop_reasoning; destruct (removelast stack)| |by unfold pop_reasoning; destruct (removelast stack)].
    rewrite pop_other; [done|]. apply not_eq_sym, partKey_ne; try done. apply Ho.
Qed.

Definition reasoning_edit (edit : obj -> option obj) : Prop :=
  forall t, str (get t "type") = "reasoning" -> exists t', edit t = Some t' /\ str (get t' "type") = "reasoning".

Lemma rel_editReasoning s id edit p q :
  rel p q -> nul_free s -> reasoning_edit edit -> both (editReasoning s id edit p) (editReasoning s id edit q).
Proof.
  intros H Hs He. apply rel_editAssistant; [done|done|]. clear p q H. intros p q at_ o H Hl Ho Hid Ht.
  pose proof (rel_rows s p q H) as Hq.
  destruct (rel_paths s at_ o p q H Hs Hl) as [(_ & P1 & _) (_ & Q1 & _)]. rewrite Hid in P1, Q1. cbv beta zeta. rewrite P1, Q1.
  destruct (last _) as [ptr|] eqn:E; [|by apply both_some]. pose proof E as E'.
  apply path_part in E as (i & part & -> & Hi & Hc); [|done|done].
  assert (Hcl : part_class (VObj part) = COpen) by (by destruct (part_class (VObj part))).
  assert (Hty : str (get part "type") = "reasoning").
  { unfold part_class in Hcl. cbn in Hcl. destruct (String.eqb (str (get part "type")) "text"); [done|].
    destruct (String.eqb_spec (str (get part "type")) "reasoning"); [done|]. by destruct (String.eqb _ _). }
  destruct (He part Hty) as (t' & He' & Hty').
  assert (Htt : tool_timed (VObj t')) by (intros part' [= <-]; by rewrite Hty').
  assert (Hcl' : part_class (VObj t') = if still_open t' then COpen else COther) by (unfold part_class; cbn; by rewrite Hty').
  assert (Hat : forall x, rows s x = rows s p -> edit_part (Part s at_ i) edit x = Some (put_row s at_ (set_part o i t') x)).
  { intros x Hx. unfold edit_part. rewrite (part_at_row s at_ i o part) by (by rewrite ?Hx). cbn. rewrite He'. cbn.
    by rewrite (put_part_row s at_ i o) by (by rewrite Hx). }
  assert (Hafter : forall x, rows s x = rows s p -> part_at (Part s at_ i) (put_row s at_ (set_part o i t') x) = Some t').
  { intros x Hx. apply (part_at_row s at_ i (set_part o i t')).
    - unfold put_row. rewrite rows_put, Hx. apply list_lookup_insert_eq. by eapply lookup_lt_Some.
    - rewrite items_set_part. apply list_lookup_insert_eq. by eapply lookup_lt_Some. }
  rewrite !Hat by done. cbn [mbind option_bind]. rewrite !Hafter by done. cbn [Get]. fold (still_open t').
  destruct (still_open t').
  - apply both_some, (rel_put_row s at_ (Some o)); [done|done|done|by apply row_ok_set_part|].
    rewrite reg_set_part, Hcl', <- Hcl by done. destruct (reg_of (Some o)) as [? ? ? ? ps] eqn:E. cbn. f_equal.
    assert (Hps : ps = part_class <$> items (get o "content")) by (rewrite <- g_parts_assistant by done; by rewrite E).
    apply list_insert_id. by rewrite Hps, list_lookup_fmap, Hi.
  - apply both_some. rewrite <- Hid.
    apply (rel_row_step (fun x => pop_reasoning (partKey s (str (get o "id")) "")
       (Part s at_ <$> positions is_reasoning (g_parts (reg_of (Some o)))) (put_row s at_ (set_part o i t') x)) s at_ (set_part o i t')); [done|].
    intros x Hx HI. split; [|by unfold pop_reasoning; destruct (removelast _)].
    eapply Inv_finish_reasoning; try done. by rewrite (state_rows s x p).
Qed.

(** ** New parts *)

Lemma reg_append o part :
  str (get o "type") = "assistant" ->
  reg_of (Some (appendContent o part)) = MkReg (g_id (reg_of (Some o))) (g_open (reg_of (Some o))) (g_running (reg_of (Some o)))
    (g_shell (reg_of (Some o))) (g_parts (reg_of (Some o)) ++ [part_class (VObj part)]).
Proof.
  intros Ht. unfold reg_of. cbn [Get]. unfold appendContent. rewrite !get_set. cbn [String.eqb Ascii.eqb Bool.eqb]. rewrite Ht.
  cbn [g_id g_open g_running g_shell g_parts String.eqb Ascii.eqb Bool.eqb andb]. f_equal. apply (fmap_app part_class _ [VObj part]).
Qed.

Lemma row_ok_append o part : row_ok o -> tool_timed (VObj part) -> row_ok (appendContent o part).
Proof.
  intros [R1 R2 (t & R3) R4] Hp. split; unfold appendContent; rewrite ?get_set; cbn [String.eqb Ascii.eqb Bool.eqb]; try done.
  - exists t. by rewrite get_set.
  - intros Ht. apply Forall_app. split; [by apply R4|]. by constructor.
Qed.

Lemma new_part_length s at_ o : str (get o "type") = "assistant" -> new_part s at_ o = Part s at_ (length (g_parts (reg_of (Some o)))).
Proof. intros Ht. unfold new_part. by rewrite g_parts_assistant, length_fmap. Qed.

Lemma last_new (Q : pclass -> bool) s at_ cs c :
  last (Part s at_ <$> positions Q (cs ++ [c])) = if Q c then Some (Part s at_ (length cs)) else last (Part s at_ <$> positions Q cs).
Proof. rewrite positions_snoc. destruct (Q c); [rewrite fmap_app; apply last_snoc|by rewrite app_nil_r]. Qed.

(** The paths an edit of the message [id] may touch. *)
Lemma rel_add_part (F : Projection -> Projection) s at_ o part p q :
  rel p q -> nul_free s -> rows s p !! at_ = Some (Some o) -> row_ok o -> str (get o "type") = "assistant" -> tool_timed (VObj part) ->
  (forall x, state (F x) = state x) -> (forall x, index (F x) = index x) ->
  (forall x, paths_here s (str (get o "id")) at_ (g_parts (reg_of (Some o))) x ->
     paths_here s (str (get o "id")) at_ (g_parts (reg_of (Some o)) ++ [part_class (VObj part)]) (F x)
     /\ same_others s (str (get o "id")) x (F x)) ->
  rel (F (put_row s at_ (appendContent o part) p)) (F (put_row s at_ (appendContent o part) q)).
Proof.
  intros H Hs Hl Ho Ht Htt HFs HFi HF.
  apply (rel_row_step (fun x => F (put_row s at_ (appendContent o part) x)) s at_ (appendContent o part)); [done|].
  intros x E HI. split; [|apply HFs]. assert (Hlx : rows s x !! at_ = Some (Some o)) by (by rewrite (state_rows s x p)).
  destruct (HF (put_row s at_ (appendContent o part) x)) as [H1 H2]; [by apply (paths_of_row s x at_ (Some o))|].
  eapply (Inv_parts s at_ (Some o) (appendContent o part) x); [done|done|done|by apply row_ok_append|by rewrite reg_append|apply HFs|by rewrite HFi| |done].
  by rewrite reg_append.
Qed.

Lemma rel_textStarted s id p q : rel p q -> nul_free s -> both (textStarted s id p) (textStarted s id q).
Proof.
  intros H Hs. apply rel_editAssistant; [done|done|]. clear p q H. intros p q at_ o H Hl Ho Hid Ht. apply both_some.
  apply (rel_add_part (set_latestText (partKey s id "") (new_part s at_ o)) s at_ o); try done.
  - by intros part [= <-].
  - intros x (P1 & P2 & P3). rewrite new_part_length, Hid in * by done. split; [split_and!|].
    + cbn [latestText set_latestText]. rewrite lookup_insert_eq, last_new. done.
    + cbn [openReasoning set_latestText]. rewrite P2, positions_snoc. by rewrite app_nil_r.
    + intros t. cbn [tools set_latestText]. rewrite P3, last_new. done.
    + intros s' m t Hs' Hm Hne. cbn. rewrite lookup_insert_ne; [done|]. apply partKey_ne; try done. rewrite <- Hid. apply Ho.
Qed.

Lemma rel_toolInputStarted event d s id p q :
  rel p q -> nul_free s -> both (toolInputStarted event d s id p) (toolInputStarted event d s id q).
Proof.
  intros H Hs. apply rel_editAssistant; [done|done|]. clear p q H. intros p q at_ o H Hl Ho Hid Ht. apply both_some.
  set (part := mk _). set (tid := str (get d "id")).
  assert (Hpt : str (get part "type") = "tool" /\ str (get part "id") = tid /\ has_time part).
  { subst part tid. unfold mk. cbn [fold_left fst snd]. unfold has_time. rewrite !get_set. cbn. eauto. }
  destruct Hpt as (Hp1 & Hp2 & Hp3). clearbody part.
  assert (Hc : part_class (VObj part) = CTool tid) by (unfold part_class; cbn; by rewrite Hp1, Hp2).
  apply (rel_add_part (set_tool (partKey s id tid) (new_part s at_ o)) s at_ o); try done.
  - by intros part' [= <-].
  - intros x (P1 & P2 & P3). rewrite new_part_length, Hid, Hc in * by done. split; [split_and!|].
    + cbn [latestText set_tool]. rewrite P1, last_new. done.
    + cbn [openReasoning set_tool]. rewrite P2, positions_snoc. by rewrite app_nil_r.
    + intros t. cbn [tools set_tool]. rewrite last_new. cbn [is_tool]. destruct (String.eqb_spec t tid) as [->|Hne].
      * by rewrite lookup_insert_eq.
      * rewrite lookup_insert_ne; [apply P3|]. apply partKey_ne_suffix; [done|rewrite <- Hid; apply Ho|done].
    + intros s' m t Hs' Hm Hne. cbn. rewrite lookup_insert_ne; [done|]. apply partKey_ne; try done. rewrite <- Hid. apply Ho.
Qed.

Definition push_reasoning (key : string) (ptr : part_ptr) (p : Projection) : Projection :=
  set_openReasoning (<[key := default [] (openReasoning p !! key) ++ [ptr]]> (openReasoning p)) p.

Lemma rel_reasoningStarted event d s id p q :
  rel p q -> nul_free s -> both (reasoningStarted event d s id p) (reasoningStarted event d s id q).
Proof.
  intros H Hs. apply rel_editAssistant; [done|done|]. clear p q H. intros p q at_ o H Hl Ho Hid Ht. apply both_some.
  set (part := mk _).
  assert (part_class (VObj part) = COpen /\ str (get part "type") = "reasoning") as [Hc Hpt].
  { subst part. unfold part_class, mk, created_time. cbn [fold_left fst snd objOf]. rewrite !get_set. cbn [String.eqb Ascii.eqb Bool.eqb str objOf Get].
    unfold mk. cbn [fold_left fst snd]. rewrite !get_set. cbn. done. }
  clearbody part.
  apply (rel_add_part (push_reasoning (partKey s id "") (new_part s at_ o)) s at_ o); try done.
  - intros part' [= <-]. by rewrite Hpt.
  - intros x (P1 & P2 & P3). rewrite new_part_length, Hid, Hc in * by done. split; [split_and!|].
    + cbn [latestText push_reasoning set_openReasoning]. rewrite P1, last_new. done.
    + cbn [openReasoning push_reasoning set_openReasoning]. rewrite lookup_insert_eq, positions_snoc, fmap_app, <- P2. done.
    + intros t. cbn [tools push_reasoning set_openReasoning]. rewrite P3, last_new. done.
    + intros s' m t Hs' Hm Hne. cbn. rewrite lookup_insert_ne; [done|]. apply partKey_ne; try done. rewrite <- Hid. apply Ho.
Qed.

(** ** Replacing and removing rows *)

Lemma rid_clone item : rid (Some (clone item)) = str (get item "id").
Proof. unfold rid. cbn. by rewrite get_clone, str_clone. Qed.

Lemma upsert_found s id p :
  Inv p -> (idx ← index p !! s; pos idx !! id) = fst <$> find_last (message_row id) (rows s p).
Proof.
  intros HI. destruct (index p !! s) as [idx|] eqn:E; cbn; [|by rewrite empty_rows].
  rewrite (ix_pos _ _ (inv_index _ HI s idx E)). unfold positions, regs. rewrite positions_fmap, <- find_last_positions. done.
Qed.

Lemma find_last_none {A} n (P : A -> bool) l : find_last_from n P l = None -> Forall (fun x => P x = false) l.
Proof.
  revert n. induction l as [|x l IH]; intros n; cbn; [by constructor|].
  destruct (find_last_from (S n) P l) eqn:E; [done|]. destruct (P x) eqn:Ep; [done|]. intros _. constructor; eauto.
Qed.

Lemma rows_ok_snoc l o : rows_ok l -> row_ok o -> (str (get o "id") ∉ rid <$> l) -> rows_ok (l ++ [Some o]).
Proof.
  intros [H1 H2] Ho Hn. split.
  - rewrite fmap_app. apply NoDup_app. split_and!; [done| |by repeat constructor; set_solver].
    by intros x Hx ->%list_elem_of_singleton.
  - apply Forall_app. split; [done|]. constructor; [by exists o|done].
Qed.

Lemma rel_upsert s item p q : rel p q -> nul_free s -> row_ok item -> both (upsertMessage s item p) (upsertMessage s item q).
Proof.
  intros H Hs Ho. apply (rel_messages s) in H; [|done]. unfold upsertMessage.
  pose proof (rel_rows s _ _ H) as Hq. destruct H as (E & HI & HI').
  rewrite !upsert_found, Hq by done. set (l := rows s (messages s p)) in *.
  assert (Hok : rows_ok l) by apply HI. apply row_ok_clone in Ho.
  destruct (find_last (message_row (str (get item "id"))) l) as [[at_ r]|] eqn:Ef; cbn [fmap option_fmap option_map fst].
  - apply find_last_row in Ef as [Hl Hp]. apply String.eqb_eq in Hp.
    replace (Nat.ltb at_ (length l)) with true by (symmetry; apply Nat.ltb_lt; by eapply lookup_lt_Some).
    apply both_some, rel_rebuild; [done|done|]. eapply rows_ok_insert; [done|done|done|]. by rewrite rid_clone.
  - apply find_last_none in Ef. apply both_some, rel_rebuild; [done|done|]. apply rows_ok_snoc; [done|done|].
    change (str (get (clone item) "id")) with (rid (Some (clone item))). rewrite rid_clone.
    intros (r & Hr & Hin)%list_elem_of_fmap. rewrite Forall_forall in Ef. specialize (Ef r Hin). apply String.eqb_neq in Ef. congruence.
Qed.

Lemma rel_remove s p q : rel p q -> nul_free s -> rel (removeSession s p) (removeSession s q).
Proof.
  intros H Hs. apply (rel_step _ (fun st => state (removeSession s (MkProj st ∅ ∅ ∅ ∅)))); [done|].
  intros x _ HI. split; [|done].
  assert (Hrows : forall s', rows s' (removeSession s x) = if decide (s' = s) then [] else rows s' x).
  { intros s'. unfold rows. cbn. destruct (decide (s' = s)) as [->|]; [by rewrite lookup_delete_eq|by rewrite lookup_delete_ne]. }
  split; unfold regs.
  - intros s' idx. rewrite Hrows. cbn. destruct (decide (s' = s)) as [->|]; [by rewrite lookup_delete_eq|].
    rewrite lookup_delete_ne by done. apply HI.
  - intros s'. rewrite Hrows. cbn. destruct (decide (s' = s)) as [->|]; [done|]. rewrite lookup_delete_ne by done. apply HI.
  - intros s' Hs' m Hm. rewrite Hrows. destruct (inv_parts _ HI s' Hs' m Hm) as [A B C].
    assert (Hneb : s' <> s -> String.eqb s s' = false) by (intros; apply String.eqb_neq; congruence).
    destruct (decide (s' = s)) as [->|Hne]; [|specialize (Hneb Hne)]; split; cbn; [| |intros t| | |intros t];
      rewrite drop_session_lookup, ?String.eqb_refl, ?Hneb by done; done.
  - intros s'. rewrite Hrows. destruct (decide (s' = s)); [split; constructor|apply HI].
  - destruct (inv_others _ HI) as (O1 & O2 & O3). split_and!; cbn.
    + intros s' r (_ & Hr)%lookup_delete_Some. by eapply O1.
    + intros s' l (_ & Hl)%lookup_delete_Some. by eapply O2.
    + intros s' l (_ & Hl)%lookup_delete_Some. by eapply O3.
  - cbn. intros s' [l (_ & Hl)%lookup_delete_Some]. apply (inv_nul _ HI). by eexists.
Qed.
