(* ===== verification/SessionProps.v ===== *)
(** * Session projection: correctness of the reducer

    Every event keeps the access paths equal to the scans they replace, no
    event panics, and the state after an event depends on the state before it
    only: a projection rebuilt from a state goes on like the one it was taken
    from. *)

From stdpp Require Import sorting.
From S2P Require Import Prelude GoText SessionJson SessionState SessionReduce SessionIndex SessionInv SessionSim.
From Stdlib Require Import Ascii.

Open Scope string_scope.
Open Scope list_scope.
Open Scope nat_scope.

(** ** Well-formed events *)

(** The event carries a time, its identifiers hold no NUL byte, and a message
    that enters through the inbox has an identifier and is not an
    assistant's. *)
Record event_ok (event : ref) : Prop := {
  ev_created : truthy (Get event "created") = true;
  ev_session : nul_free (str (get (event_data event) "sessionID"));
  ev_message : nul_free (str (get (event_data event) "assistantMessageID"));
  ev_id : nul_free (eventMessageID (str (Get event "id")));
  ev_input : nul_free (str (get (event_data event) "inputID"));
  ev_item : kind_of (str (Get event "type")) = Some KEnqueued ->
    let item := enqueued_item event (event_data event) (str (get (event_data event) "sessionID")) in
    nul_free (str (get item "sessionID")) /\ get (admitted_row item) "id" <> VUndef
    /\ nul_free (str (get (admitted_row item) "id")) /\ str (get (admitted_row item) "type") <> "assistant";
}.

(** Evaluates the members of an object built from literal names. *)
Ltac gets :=
  unfold mk, created_time, new_id; cbn [fold_left fst snd Get]; repeat (rewrite get_set || rewrite get_Delete);
  cbn [String.eqb Ascii.eqb Bool.eqb Get].

(** ** Rows *)

Lemma row_ok_intro o :
  get o "id" <> VUndef -> nul_free (str (get o "id")) -> has_time o -> str (get o "type") <> "assistant" -> row_ok o.
Proof. intros H1 H2 H3 H4. by split. Qed.

Definition neutral (k : string) : Prop :=
  k <> "id" /\ k <> "type" /\ k <> "time" /\ k <> "content" /\ k <> "status" /\ k <> "shellID".

Lemma get_neutral o k v k' : k <> k' -> get (set o k v) k' = get o k'.
Proof. intros H. rewrite get_set. by apply String.eqb_neq in H as ->. Qed.

Lemma row_ok_set o k v : k <> "id" -> k <> "type" -> k <> "time" -> k <> "content" -> row_ok o -> row_ok (set o k v).
Proof.
  intros K1 K2 K3 K4 [R1 R2 (t & R3) R4]. split; rewrite ?get_neutral by done; try done. exists t. by rewrite get_neutral.
Qed.

Lemma reg_set o k v : neutral k -> reg_of (Some (set o k v)) = reg_of (Some o).
Proof. intros (K1 & K2 & K3 & K4 & K5 & K6). unfold reg_of. cbn [Get]. by rewrite !get_neutral. Qed.

Lemma row_ok_neutral o k v : neutral k -> row_ok o -> row_ok (set o k v).
Proof. intros (K1 & K2 & K3 & K4 & _). by apply row_ok_set. Qed.

Lemma row_ok_time o t : row_ok o -> row_ok (set o "time" (VObj t)).
Proof. intros [R1 R2 _ R4]. split; rewrite ?get_neutral by done; try done. exists t. by rewrite get_set. Qed.

Lemma reg_time o t :
  reg_of (Some (set o "time" (VObj t)))
  = MkReg (g_id (reg_of (Some o))) (String.eqb (str (get o "type")) "assistant" && negb (truthy (get t "completed")))
      (g_running (reg_of (Some o))) (g_shell (reg_of (Some o))) (g_parts (reg_of (Some o))).
Proof. unfold reg_of. cbn [Get]. rewrite !get_set. cbn. done. Qed.

Lemma set_in_time o k v t : get o "time" = VObj t -> set_in o "time" k v = Some (set o "time" (VObj (set t k v))).
Proof. intros E. unfold set_in. by rewrite E. Qed.

Lemma Delete_set o k : Delete o k = set o k VUndef.
Proof. done. Qed.

Ltac neutral_tac := repeat split; discriminate.
#[local] Hint Extern 1 (neutral _) => neutral_tac : core.

Lemma reg_snapshot row key v : reg_of (Some (snapshot_with row key v)) = reg_of (Some row).
Proof. unfold snapshot_with. destruct (truthy v); [by apply reg_set|done]. Qed.

Lemma row_ok_snapshot row key v : row_ok row -> row_ok (snapshot_with row key v).
Proof. unfold snapshot_with. destruct (truthy v); [by apply row_ok_neutral|done]. Qed.

(** ** State outside the rows *)

Lemma others_pending st s l : others_ok st -> Forall is_Some l -> others_ok (set_Pending (<[s := l]> (Pending st)) st).
Proof.
  intros (O1 & O2 & O3) Hl. split_and!; try done. cbn. intros s' l'.
  destruct (decide (s' = s)) as [->|]; [rewrite lookup_insert_eq; by intros [= <-]|]. rewrite lookup_insert_ne by done. apply O2.
Qed.

Lemma others_permission st s l : others_ok st -> Forall is_Some l -> others_ok (set_Permission (<[s := l]> (Permission st)) st).
Proof.
  intros (O1 & O2 & O3) Hl. split_and!; try done. cbn. intros s' l'.
  destruct (decide (s' = s)) as [->|]; [rewrite lookup_insert_eq; by intros [= <-]|]. rewrite lookup_insert_ne by done. apply O3.
Qed.

Lemma others_info st s r : others_ok st -> is_Some r -> others_ok (set_Info (<[s := r]> (Info st)) st).
Proof.
  intros (O1 & O2 & O3) Hl. split_and!; try done. cbn. intros s' l'.
  destruct (decide (s' = s)) as [->|]; [rewrite lookup_insert_eq; by intros [= <-]|]. rewrite lookup_insert_ne by done. apply O1.
Qed.

Lemma rel_put_pending s l p q : rel p q -> Forall is_Some l -> rel (put_pending s l p) (put_pending s l q).
Proof. intros H Hl. apply rel_others; [done|done|]. apply others_pending; [apply H|done]. Qed.

Lemma rel_put_permission s l p q : rel p q -> Forall is_Some l -> rel (put_permission s l p) (put_permission s l q).
Proof. intros H Hl. apply rel_others; [done|done|]. apply others_permission; [apply H|done]. Qed.

Lemma rel_put_form s l p q : rel p q -> rel (put_form s l p) (put_form s l q).
Proof. intros H. apply rel_others; [done|done|]. destruct H as (_ & HI & _). apply (inv_others _ HI). Qed.

Lemma rel_active s v p q : rel p q -> rel (set_active s v p) (set_active s v q).
Proof. intros H. apply rel_others; [done|done|]. destruct H as (_ & HI & _). apply (inv_others _ HI). Qed.

Lemma pending_some s p : Inv p -> Forall is_Some (pending_rows s p).
Proof.
  intros HI. unfold pending_rows. destruct (Pending (state p) !! s) eqn:E; [|constructor]. destruct (inv_others _ HI) as (_ & O & _). by eapply O.
Qed.

Lemma permission_some s p : Inv p -> Forall is_Some (permission_rows s p).
Proof.
  intros HI. unfold permission_rows. destruct (Permission (state p) !! s) eqn:E; [|constructor]. destruct (inv_others _ HI) as (_ & _ & O). by eapply O.
Qed.

Lemma rel_state p q : rel p q -> state q = state p.
Proof. by intros (E & _). Qed.

Lemma rel_edit_info s edit p q :
  rel p q -> (forall o, exists o', edit (Some o) = Some (Some o')) -> both (edit_info s edit p) (edit_info s edit q).
Proof.
  intros H He. unfold edit_info. rewrite (rel_state p q H). destruct (Info (state p) !! s) as [i|] eqn:E; [|by apply both_some].
  destruct H as (Est & HI & HI'). destruct (inv_others _ HI) as (O1 & _). destruct (O1 s i E) as [o ->].
  destruct (He o) as [o' ->]. cbn. apply both_some, rel_others; [done|done|]. apply others_info; [apply HI|done].
Qed.

Lemma Set_some o k v : Set_ (Some o) k v = Some (Some (set o k v)).
Proof. done. Qed.

(** ** Handlers that insert a row *)

Section Handlers.
Context (event : ref) (Hev : event_ok event).

Abbreviation d := (event_data event).
Abbreviation s := (str (get d "sessionID")).
Abbreviation a := (str (get d "assistantMessageID")).

Lemma rel_agentSelected p q : rel p q -> both (agentSelected event d s p) (agentSelected event d s q).
Proof.
  intros H. unfold agentSelected. rewrite (rel_state p q H). eapply both_bind; [apply rel_edit_info; [done|by eexists]|].
  intros p' q' _ H'. apply both_some, rel_insert; [done|apply Hev|].
  apply row_ok_intro; [| |eexists|]; gets; try done. apply Hev.
Qed.

Lemma rel_modelSelected p q : rel p q -> both (modelSelected event d s p) (modelSelected event d s q).
Proof.
  intros H. unfold modelSelected. eapply both_bind; [apply rel_edit_info; [done|by eexists]|].
  intros p' q' _ H'. rewrite (rel_state p' q' H'). destruct (Message (state p') !! s); [|by apply both_some].
  apply both_some, rel_insert; [done|apply Hev|].
  apply row_ok_intro; [| |eexists|]; gets; try done. apply Hev.
Qed.

Lemma rel_moved p q : rel p q -> both (moved event d s p) (moved event d s q).
Proof.
  intros H. unfold moved. rewrite (rel_state p q H). destruct (Info (state p) !! s) as [i|] eqn:E; [|by apply both_some].
  pose proof H as (_ & HI & _). destruct (inv_others _ HI) as (O1 & _). destruct (O1 s i E) as [o ->].
  cbn [Set_ mbind option_bind].
  assert (Hif : forall o', exists o2, (if truthy (get d "projectID") then Some (Some (set o' "projectID" (get d "projectID"))) else Some (Some o')) = Some (Some o2))
    by (intros o'; destruct (truthy _); by eexists).
  edestruct Hif as [o2 ->]. cbn [Set_ mbind option_bind]. apply both_some, rel_insert; [|apply Hev|].
  - apply rel_others; [done|done|]. apply others_info; [apply HI|done].
  - apply row_ok_intro; [| |eexists|]; gets; try done. apply Hev.
Qed.

Lemma rel_instructions p q : rel p q -> both (instructionsUpdated event d s p) (instructionsUpdated event d s q).
Proof.
  intros H. unfold instructionsUpdated. destruct (isUndefined (get d "text")); [by apply both_some|].
  apply both_some, rel_insert; [done|apply Hev|].
  destruct (isUndefined (Get event "metadata")); (apply row_ok_intro; [| |eexists|]; gets; try done; apply Hev).
Qed.

Lemma rel_synthetic p q : rel p q -> both (synthetic event d s p) (synthetic event d s q).
Proof.
  intros H. apply both_some, rel_insert; [done|apply Hev|]. apply row_ok_intro; [| |eexists|]; gets; try done. apply Hev.
Qed.

Lemma rel_shellStarted p q : rel p q -> both (shellStarted event d s p) (shellStarted event d s q).
Proof.
  intros H. apply both_some, rel_insert; [done|apply Hev|]. apply row_ok_intro; [| |eexists|]; gets; try done. apply Hev.
Qed.

Lemma coalesce_ok v f : f <> VUndef -> nul_free (str v) -> nul_free (str f) -> coalesce v f <> VUndef /\ nul_free (str (coalesce v f)).
Proof. destruct v; done. Qed.

Lemma filter_some (P : ref -> bool) l : Forall is_Some l -> Forall is_Some (List.filter P l).
Proof. intros H. induction H as [|x l Hx H IH]; cbn; [done|]. destruct (P x); [by constructor|done]. Qed.

Lemma rel_drop_input p q : rel p q -> rel (drop_input d s p) (drop_input d s q).
Proof.
  intros H. unfold drop_input. destruct (truthy _); [|done].
  assert (E : pending_rows s q = pending_rows s p) by (unfold pending_rows; by rewrite (rel_state p q H)). rewrite E.
  apply rel_put_pending; [done|]. apply filter_some, pending_some. apply H.
Qed.

Lemma rel_compactionStarted p q : rel p q -> both (compactionStarted event d s p) (compactionStarted event d s q).
Proof.
  intros H. apply both_some, rel_insert; [by apply rel_drop_input|apply Hev|].
  destruct (coalesce_ok (get d "inputID") (new_id event)) as [C1 C2]; [done|apply Hev|apply Hev|].
  apply row_ok_intro; [| |eexists|]; unfold mk, created_time; cbn [fold_left fst snd]; rewrite ?get_set; cbn; done.
Qed.

(** ** Handlers that edit a row *)

Lemma row_here p at_ o : Inv p -> rows s p !! at_ = Some (Some o) -> row_ok o.
Proof. intros HI Hl. by destruct (ref_ok_lookup s p at_ _ HI Hl) as (o' & [= <-] & Ho). Qed.

Lemma find_last_some P p at_ r : Inv p -> find_last P (rows s p) = Some (at_, r) -> exists o, r = Some o /\ row_ok o /\ rows s p !! at_ = Some (Some o) /\ P (Some o) = true.
Proof.
  intros HI Hf. apply find_last_row in Hf as [Hl Hp]. destruct (ref_ok_lookup s p at_ _ HI Hl) as (o & -> & Ho). by exists o.
Qed.

Lemma shell_type sid o : shell_row sid (Some o) = true -> str (get o "type") = "shell".
Proof. intros [H _]%andb_prop. by apply String.eqb_eq in H. Qed.

Lemma rel_shellEnded p q : rel p q -> both (shellEnded event d s p) (shellEnded event d s q).
Proof.
  intros H. pose proof H as (_ & HI & HI'). unfold shellEnded. rewrite !shell_spec, (rel_rows s p q H) by done. cbn [mbind option_bind].
  destruct (find_last _ _) as [[at_ r]|] eqn:Ef; [|by apply both_some].
  destruct (find_last_some _ p at_ r HI Ef) as (o & -> & Ho & Hl & Hp). apply shell_type in Hp.
  destruct (ro_time _ Ho) as [t Ht]. unfold shell_end_row.
  rewrite (set_in_time _ "completed" _ t) by (gets; done). cbn [mbind option_bind].
  apply both_some, (rel_put_row s at_ (Some o)); [done|apply Hev|done| |].
  - apply row_ok_time. by repeat (apply row_ok_set; [discriminate..|]).
  - rewrite reg_time. unfold reg_of. cbn [Get g_id g_open g_running g_shell g_parts]. rewrite !get_set.
    cbn [String.eqb Ascii.eqb Bool.eqb]. by rewrite Hp.
Qed.

Lemma open_type o : open_assistant (Some o) = true -> str (get o "type") = "assistant".
Proof. unfold open_assistant. cbn. intros [H _]%andb_prop. by apply String.eqb_eq in H. Qed.

Lemma running_type o : running_compaction (Some o) = true -> str (get o "type") = "compaction".
Proof. unfold running_compaction. cbn. intros [H _]%andb_prop. by apply String.eqb_eq in H. Qed.

(** Completing an assistant row. *)
Lemma reg_completed o t created :
  truthy created = true ->
  reg_of (Some (set o "time" (VObj (set t "completed" created))))
  = MkReg (g_id (reg_of (Some o))) false (g_running (reg_of (Some o))) (g_shell (reg_of (Some o))) (g_parts (reg_of (Some o))).
Proof. intros Hc. rewrite reg_time, get_set. cbn [String.eqb Ascii.eqb Bool.eqb]. by rewrite Hc, andb_false_r. Qed.

Lemma rel_close_current p q : rel p q -> both (close_current (Get event "created") s p) (close_current (Get event "created") s q).
Proof.
  intros H. pose proof H as (_ & HI & HI'). unfold close_current. rewrite !openAssistant_spec, (rel_rows s p q H) by done. cbn [mbind option_bind].
  destruct (find_last _ _) as [[at_ r]|] eqn:Ef; [|by apply both_some].
  destruct (find_last_some _ p at_ r HI Ef) as (o & -> & Ho & Hl & Hp). destruct (ro_time _ Ho) as [t Ht].
  rewrite (set_in_time _ "completed" _ t) by (gets; done). cbn [mbind option_bind].
  rewrite get_set, get_Delete. cbn [String.eqb Ascii.eqb Bool.eqb]. apply both_some, (rel_close s at_ (Some o)); [done|apply Hev|done| |].
  - rewrite Delete_set. apply row_ok_time, row_ok_neutral; auto.
  - rewrite reg_completed by apply Hev. by rewrite Delete_set, reg_set.
Qed.

Lemma reg_restarted o t :
  get o "time" = VObj t -> str (get o "type") = "assistant" ->
  reg_of (Some (restarted_row d o))
  = MkReg (g_id (reg_of (Some o))) true (g_running (reg_of (Some o))) (g_shell (reg_of (Some o))) (g_parts (reg_of (Some o))).
Proof.
  intros Ht Hk. unfold restarted_row. cbn [fold_left]. set (o1 := Delete _ "providerState").
  assert (Hr : reg_of (Some o1) = reg_of (Some o)) by (subst o1; rewrite !Delete_set; by rewrite !reg_set by auto).
  assert (Ht1 : get o1 "time" = VObj t) by (subst o1; gets; done).
  assert (Hk1 : str (get o1 "type") = "assistant") by (subst o1; gets; done).
  clearbody o1. unfold delete_in. rewrite Ht1. cbn [objOf]. rewrite get_set. cbn [String.eqb Ascii.eqb Bool.eqb objOf].
  rewrite !reg_time. cbn [g_id g_open g_running g_shell g_parts]. rewrite get_Delete, get_set. cbn [String.eqb Ascii.eqb Bool.eqb].
  rewrite Hk1, Hr. done.
Qed.

Lemma row_ok_restarted o : row_ok o -> row_ok (restarted_row d o).
Proof.
  intros Ho. unfold restarted_row. cbn [fold_left]. rewrite !Delete_set.
  assert (H1 : forall x k, row_ok x -> row_ok (delete_in x "time" k)).
  { intros x k Hx. unfold delete_in. destruct (objOf (get x "time")); [by apply row_ok_time|done]. }
  apply H1, H1. repeat (apply row_ok_neutral; [solve [auto]|]). done.
Qed.

Lemma rel_stepStarted p q : rel p q -> both (stepStarted event d s a p) (stepStarted event d s a q).
Proof.
  intros H. unfold stepStarted.
  assert (Hfresh : forall p q, rel p q ->
    both (p ← close_current (Get event "created") s p; Some (insert s (started_row event d a) p))
         (p ← close_current (Get event "created") s q; Some (insert s (started_row event d a) p))).
  { intros p' q' H'. eapply both_bind; [by apply rel_close_current|]. intros p2 q2 _ H2. apply both_some, rel_insert; [done|apply Hev|].
    unfold started_row. destruct (truthy (get d "snapshot")); split; gets; try done; try apply Hev; try (eexists; gets; done); by intros. }
  destruct (message s a p) as [p1 m] eqn:E1, (message s a q) as [q1 m'] eqn:E2.
  destruct (rel_message s a p q p1 q1 m m' H (ev_session _ Hev) E1 E2) as (Hr & Hst & Em & ->).
  destruct m as [[at_ o]|]; [|by apply Hfresh]. symmetry in Em. apply row_with_lookup in Em as [Hl Hid].
  rewrite <- (state_rows s p1 p Hst) in Hl. destruct (String.eqb_spec (str (get o "type")) "assistant") as [Hk|]; [|by apply Hfresh].
  pose proof (row_here p1 at_ o (proj1 (proj2 Hr)) Hl) as Ho. destruct (ro_time _ Ho) as [t Ht].
  apply both_some.
  assert (Hre : rel (reopenAssistant s a (put_row s at_ (restarted_row d o) p1)) (reopenAssistant s a (put_row s at_ (restarted_row d o) q1))).
  { rewrite <- Hid. apply (rel_reopen s at_ (Some o)); [done|apply Hev|done|by apply row_ok_restarted|by apply (reg_restarted o t)]. }
  apply (rel_put_row s at_ (Some (restarted_row d o))); [done|apply Hev| |by apply row_ok_snapshot, row_ok_restarted|by rewrite reg_snapshot].
  erewrite (state_rows s _ (put_row s at_ (restarted_row d o) p1)) by apply update_index_state.
  unfold put_row. rewrite rows_put. apply list_lookup_insert_eq. by eapply lookup_lt_Some.
Qed.

(** Rows that end: the same for success and failure. *)
Lemma rel_end_step (f : obj -> option obj) p q :
  rel p q ->
  (forall o t, row_ok o -> get o "time" = VObj t -> exists o', f o = Some o' /\ row_ok o'
     /\ reg_of (Some o') = reg_of (Some (set o "time" (VObj (set t "completed" (Get event "created")))))) ->
  both (editAssistant s a (fun at_ o p => o ← f o; Some (closeAssistant s a (put_row s at_ o p))) p)
       (editAssistant s a (fun at_ o p => o ← f o; Some (closeAssistant s a (put_row s at_ o p))) q).
Proof.
  intros H Hf. apply rel_editAssistant; [done|apply Hev|]. clear p q H. intros p q at_ o H Hl Ho Hid Hk.
  destruct (ro_time _ Ho) as [t Ht]. destruct (Hf o t Ho Ht) as (o' & -> & Ho' & Hg). cbn [mbind option_bind].
  apply both_some. change a with (rid (Some o)) in * || rewrite <- Hid.
  apply (rel_close s at_ (Some o)); [done|apply Hev|done|done|]. rewrite Hg. apply reg_completed, Hev.
Qed.

Lemma rel_stepEnded p q : rel p q -> both (stepEnded event d s a p) (stepEnded event d s a q).
Proof.
  intros H. apply (rel_end_step (ended_row event d)); [done|]. intros o t Ho Ht. unfold ended_row.
  rewrite (set_in_time _ "completed" _ t) by done. cbn [mbind option_bind]. eexists. split; [done|]. split.
  - apply row_ok_snapshot. repeat (apply row_ok_neutral; [solve [auto]|]). by apply row_ok_time.
  - rewrite reg_snapshot. by rewrite !reg_set by auto.
Qed.

Lemma rel_stepFailed p q : rel p q -> both (stepFailed event d s a p) (stepFailed event d s a q).
Proof.
  intros H. apply (rel_end_step (failed_row event d)); [done|]. intros o t Ho Ht. unfold failed_row.
  rewrite (set_in_time _ "completed" _ t) by done. cbn [mbind option_bind]. eexists. split; [done|]. rewrite Delete_set. split.
  - destruct (_ && _); repeat (apply row_ok_neutral; [solve [auto]|]); by apply row_ok_time.
  - destruct (_ && _); by rewrite !reg_set by auto.
Qed.

Lemma rel_streamed p q :
  rel p q ->
  both (editAssistant s a (fun at_ row p => row ← set_in row "time" "streamed" (Get event "created"); Some (put_row s at_ row p)) p)
       (editAssistant s a (fun at_ row p => row ← set_in row "time" "streamed" (Get event "created"); Some (put_row s at_ row p)) q).
Proof.
  intros H. apply rel_editAssistant; [done|apply Hev|]. clear p q H. intros p q at_ o H Hl Ho Hid Hk.
  destruct (ro_time _ Ho) as [t Ht]. rewrite (set_in_time _ _ _ t) by done. cbn [mbind option_bind].
  apply both_some, (rel_put_row s at_ (Some o)); [done|apply Hev|done|by apply row_ok_time|].
  rewrite reg_time, get_set. cbn [String.eqb Ascii.eqb Bool.eqb]. unfold reg_of. cbn [Get g_id g_open g_running g_shell g_parts]. by rewrite Ht.
Qed.

Lemma rel_neutral_edit k (v : obj -> val) p q :
  rel p q -> neutral k ->
  both (editAssistant s a (fun at_ row p => Some (put_row s at_ (set row k (v row)) p)) p)
       (editAssistant s a (fun at_ row p => Some (put_row s at_ (set row k (v row)) p)) q).
Proof.
  intros H Hn. apply rel_editAssistant; [done|apply Hev|]. clear p q H. intros p q at_ o H Hl Ho Hid Hk.
  apply both_some, (rel_put_row s at_ (Some o)); [done|apply Hev|done|by apply row_ok_neutral|by apply reg_set].
Qed.

Lemma rel_executionEnded p q : rel p q -> both (executionEnded s p) (executionEnded s q).
Proof.
  intros H. apply (rel_active s "idle") in H. unfold executionEnded. pose proof H as (_ & HI & HI').
  rewrite !openAssistant_spec, (rel_rows s _ _ H) by done. cbn [mbind option_bind].
  destruct (find_last _ _) as [[at_ r]|] eqn:Ef; [|by apply both_some].
  destruct (find_last_some _ _ at_ r HI Ef) as (o & -> & Ho & Hl & Hp). rewrite Delete_set.
  apply both_some, (rel_put_row s at_ (Some o)); [done|apply Hev|done|by apply row_ok_neutral; auto|by apply reg_set].
Qed.

(** ** Compaction *)

Lemma rel_compactionDelta p q : rel p q -> both (compactionDelta d s p) (compactionDelta d s q).
Proof.
  intros H. pose proof H as (_ & HI & HI'). unfold compactionDelta.
  rewrite !runningCompaction_spec, (rel_rows s _ _ H) by done. cbn [mbind option_bind].
  destruct (find_last _ _) as [[at_ r]|] eqn:Ef; [|by apply both_some].
  destruct (find_last_some _ _ at_ r HI Ef) as (o & -> & Ho & Hl & Hp).
  apply both_some, (rel_put_row s at_ (Some o)); [done|apply Hev|done|by apply row_ok_neutral; auto|by apply reg_set].
Qed.

(** Members assigned to a row that keep its registration. *)
Lemma fold_setDefined fields o :
  Forall (fun kv => neutral kv.1) fields -> row_ok o ->
  row_ok (fold_left (fun r kv => setDefined r kv.1 kv.2) fields o)
  /\ reg_of (Some (fold_left (fun r kv => setDefined r kv.1 kv.2) fields o)) = reg_of (Some o).
Proof.
  intros Hf. revert o. induction Hf as [|[k v] fields Hk Hf IH]; intros o Ho; [done|]. cbn [fold_left fst snd].
  unfold setDefined at 2 4. destruct (isUndefined v); [by apply IH|]. destruct (IH (set o k v)) as [I1 I2]; [by apply row_ok_neutral|].
  split; [done|]. rewrite I2. by apply reg_set.
Qed.

Lemma reg_status o v :
  str (get o "type") = "compaction" -> str v <> "running" ->
  reg_of (Some (set o "status" v)) = MkReg (g_id (reg_of (Some o))) (g_open (reg_of (Some o))) false (g_shell (reg_of (Some o))) (g_parts (reg_of (Some o))).
Proof.
  intros Hk Hv. unfold reg_of. cbn [Get g_id g_open g_running g_shell g_parts]. rewrite !get_set. cbn [String.eqb Ascii.eqb Bool.eqb].
  rewrite Hk. cbn. by apply String.eqb_neq in Hv as ->.
Qed.

Lemma rel_compactionEnded p q : rel p q -> both (compactionEnded event d s p) (compactionEnded event d s q).
Proof.
  intros H. pose proof H as (_ & HI & HI'). unfold compactionEnded.
  rewrite !runningCompaction_spec, (rel_rows s _ _ H) by done. cbn [mbind option_bind].
  assert (Hf : Forall (fun kv : string * val => neutral kv.1) (tail (compactionFields d))) by (repeat constructor; discriminate).
  destruct (find_last _ _) as [[at_ r]|] eqn:Ef.
  - destruct (find_last_some _ _ at_ r HI Ef) as (o & -> & Ho & Hl & Hp). apply running_type in Hp. apply both_some.
    change (compactionFields d) with (("status", VStr "completed") :: tail (compactionFields d)). cbn [fold_left fst snd].
    change (setDefined o "status" (VStr "completed")) with (set o "status" (VStr "completed")).
    destruct (fold_setDefined _ (set o "status" (VStr "completed")) Hf) as [R1 R2]; [by apply row_ok_set|].
    apply (rel_endCompaction s at_ (Some o)); [done|apply Hev|done|done|]. rewrite R2. by apply reg_status.
  - apply both_some, rel_insert; [done|apply Hev|]. unfold compactionFields.
    apply row_ok_intro; [| |eexists|]; gets; try done. apply Hev.
Qed.

Lemma failed_compaction_ok row :
  match row with Some o => row_ok o | None => True end ->
  row_ok (failed_compaction event d row)
  /\ rid (Some (failed_compaction event d row)) = match row with Some o => str (get o "id") | None => str (coalesce (get d "inputID") (new_id event)) end.
Proof.
  intros Hr. destruct (coalesce_ok (get d "inputID") (new_id event)) as [C1 C2]; [done|apply Hev|apply Hev|].
  unfold failed_compaction, rid. set (idv := if isUndefined _ then _ else _).
  assert (Hid : idv <> VUndef /\ nul_free (str idv)
    /\ str idv = match row with Some o => str (get o "id") | None => str (coalesce (get d "inputID") (new_id event)) end).
  { subst idv. destruct row as [o|]; cbn [Get isUndefined]; [|done]. destruct Hr as [R1 R2 _ _]. by destruct (get o "id"). }
  clearbody idv. destruct Hid as (H1 & H2 & H3).
  set (tv := match row with Some _ => cloneValue _ | None => _ end).
  assert (Ht : exists t, tv = VObj t).
  { subst tv. destruct row as [o|]; [|by eexists]. destruct (ro_time _ Hr) as [t Ht]. cbn [Get]. rewrite Ht. by eexists. }
  clearbody tv. destruct Ht as [t ->].
  split; [apply row_ok_intro; [| |exists t|]|]; gets; done.
Qed.

Lemma rel_compactionFailed p q : rel p q -> both (compactionFailed event d s p) (compactionFailed event d s q).
Proof.
  intros H. apply rel_drop_input, (rel_messages s) in H; [|apply Hev]. pose proof H as (_ & HI & HI'). unfold compactionFailed.
  rewrite !runningCompaction_spec, (rel_rows s _ _ H) by done. cbn [mbind option_bind].
  destruct (find_last _ _) as [[at_ r]|] eqn:Ef.
  - destruct (find_last_some _ _ at_ r HI Ef) as (o & -> & Ho & Hl & Hp). apply running_type in Hp. apply both_some.
    destruct (failed_compaction_ok (Some o) Ho) as [F1 F2].
    apply (rel_endCompaction s at_ (Some o)); [done|apply Hev|done|done|].
    assert (G1 : str (get (failed_compaction event d (Some o)) "type") = "compaction") by (unfold failed_compaction; gets; done).
    assert (G2 : str (get (failed_compaction event d (Some o)) "status") = "failed") by (unfold failed_compaction; gets; done).
    unfold reg_of. cbn [Get g_id g_open g_running g_shell g_parts]. rewrite G1, G2, Hp. cbn. f_equal. apply F2.
  - apply both_some, rel_insert; [done|apply Hev|]. by apply failed_compaction_ok.
Qed.

(** ** Parts *)

Lemma rel_text_edit (v : obj -> val) p q :
  rel p q -> both (editText s a (fun t => Some (set t "text" (v t))) p) (editText s a (fun t => Some (set t "text" (v t))) q).
Proof.
  intros H. apply rel_editText; [done|apply Hev|]. intros t Ht. eexists. split; [done|]. by rewrite get_neutral.
Qed.

Lemma rel_reasoningDelta (v : obj -> val) p q :
  rel p q -> both (editReasoning s a (fun t => Some (set t "text" (v t))) p) (editReasoning s a (fun t => Some (set t "text" (v t))) q).
Proof.
  intros H. apply rel_editReasoning; [done|apply Hev|]. intros t Ht. eexists. split; [done|]. by rewrite get_neutral.
Qed.

Lemma rel_reasoningEnded p q : rel p q -> both (editReasoning s a (reasoningEnded event d) p) (editReasoning s a (reasoningEnded event d) q).
Proof.
  intros H. apply rel_editReasoning; [done|apply Hev|]. intros t Ht. eexists. split; [done|].
  destruct (isUndefined (get d "state")); by rewrite !get_neutral by done.
Qed.

(** Edits of a tool that touch neither its type, its identifier nor its time. *)
Lemma tool_keep t t' : has_time t -> get t' "type" = get t "type" -> get t' "id" = get t "id" -> get t' "time" = get t "time" ->
  forall toolID, str (get t "type") = "tool" -> str (get t "id") = toolID ->
  str (get t' "type") = "tool" /\ str (get t' "id") = toolID /\ has_time t'.
Proof. intros [x Hx] E1 E2 E3 toolID H1 H2. rewrite E1, E2. split_and!; try done. exists x. by rewrite E3. Qed.

Lemma set_in_state_ok t key v : status_of t <> "" -> exists t', set_in t "state" key v = Some t' /\ get t' "type" = get t "type"
  /\ get t' "id" = get t "id" /\ get t' "time" = get t "time".
Proof.
  unfold status_of, set_in. destruct (objOf (get t "state")) as [st|]; [|done]. intros _. eexists. split; [done|].
  by rewrite !get_neutral by done.
Qed.

Lemma tool_edit_state toolID (c : obj -> bool) key (v : obj -> val) :
  (forall t, c t = true -> status_of t <> "") -> tool_edit toolID (fun t => if c t then set_in t "state" key (v t) else Some t).
Proof.
  intros Hc t H1 H2 H3. destruct (c t) eqn:E; [|by exists t].
  destruct (set_in_state_ok t key (v t) (Hc t E)) as (t' & E' & K1 & K2 & K3). exists t'. split; [done|]. by apply (tool_keep t t').
Qed.

Lemma tool_edit_called toolID : tool_edit toolID (toolCalled event d).
Proof.
  intros t H1 H2 [x Hx]. unfold toolCalled. rewrite (set_in_time _ _ _ x) by done. cbn [mbind option_bind].
  eexists. split; [done|]. split_and!; [..|eexists]; gets; done.
Qed.

Lemma finish_tool_ok t st toolID :
  str (get t "type") = "tool" -> str (get t "id") = toolID -> has_time t ->
  exists t', finish_tool event d t st = Some t' /\ str (get t' "type") = "tool" /\ str (get t' "id") = toolID /\ has_time t'.
Proof.
  intros H1 H2 [x Hx]. unfold finish_tool. rewrite (set_in_time _ _ _ x) by (gets; done).
  eexists. split; [done|]. split_and!; [..|eexists]; gets; done.
Qed.

Lemma tool_edit_success toolID : tool_edit toolID (toolSuccess event d).
Proof.
  intros t H1 H2 H3. unfold toolSuccess. destruct (negb _); [by exists t|]. by apply finish_tool_ok.
Qed.

Lemma tool_edit_failed toolID : tool_edit toolID (toolFailed event d).
Proof.
  intros t H1 H2 H3. unfold toolFailed. destruct (_ && _); [by exists t|]. by apply finish_tool_ok.
Qed.

(** ** Inbox *)

Lemma rows_ok_filter P l : rows_ok l -> rows_ok (List.filter P l).
Proof.
  intros [H1 H2]. induction l as [|r l IH]; cbn; [split; constructor|].
  rewrite fmap_cons in H1. apply NoDup_cons in H1 as [Hn H1]. inversion H2 as [|?? Hr H2']; subst.
  destruct (IH H1 H2') as [K1 K2]. destruct (P r); [|done]. split; [|by constructor].
  rewrite fmap_cons. apply NoDup_cons. split; [|done]. intros (x & Ex & [Hx _]%list_elem_of_In%filter_In)%list_elem_of_fmap.
  apply Hn, list_elem_of_fmap. exists x. split; [done|]. by apply list_elem_of_In.
Qed.

Lemma rows_ok_take n l : rows_ok l -> rows_ok (take n l).
Proof.
  intros [H1 H2]. split; [|by apply Forall_take]. rewrite <- (take_drop n l), fmap_app in H1. by apply NoDup_app in H1 as [H1 _].
Qed.

Lemma rows_ok_move l at_ o o' :
  rows_ok l -> l !! at_ = Some (Some o) -> row_ok o' -> rid (Some o') = rid (Some o) -> rows_ok (list_delete at_ l ++ [Some o']).
Proof.
  intros [H1 H2] Hl Ho' Hid. pose proof (delete_Permutation l at_ _ Hl) as HP. change (list_delete at_ l) with (base.delete at_ l).
  rewrite HP in H1, H2. inversion H2 as [|?? _ H2']; subst. rewrite fmap_cons in H1. apply NoDup_cons in H1 as [Hn H1].
  apply rows_ok_snoc; [done|done|]. change (str (get o' "id")) with (rid (Some o')). by rewrite Hid.
Qed.

Lemma rel_pending_rows x p q : rel p q -> pending_rows x q = pending_rows x p.
Proof. intros H. unfold pending_rows. by rewrite (rel_state p q H). Qed.

Lemma rel_admit item p q :
  rel p q -> nul_free (str (get item "sessionID")) -> row_ok (admitted_row item) -> both (admit_item item p) (admit_item item q).
Proof.
  intros H Hn Hrow. unfold admit_item. rewrite (rel_pending_rows _ p q H).
  set (l := pending_rows _ p). assert (Hl : Forall is_Some l) by (apply pending_some, H).
  set (l' := match indexOfID l _ with Some _ => _ | None => _ end).
  assert (Hl' : Forall is_Some l').
  { subst l'. destruct (indexOfID l _); [apply Forall_insert; [done|by eexists]|]. apply Forall_app. split; [done|]. repeat constructor. by eexists. }
  pose proof (rel_put_pending (str (get item "sessionID")) l' p q H Hl') as H'.
  destruct (_ && _); [by apply both_some|]. by apply rel_upsert.
Qed.

Lemma admitted_row_ok item :
  get (admitted_row item) "id" <> VUndef -> nul_free (str (get (admitted_row item) "id")) -> str (get (admitted_row item) "type") <> "assistant" ->
  row_ok (admitted_row item).
Proof. intros H1 H2 H3. apply row_ok_intro; try done. unfold admitted_row. eexists. by rewrite get_set. Qed.

Lemma indexOfID_lookup l id at_ : indexOfID l id = Some at_ -> exists r, l !! at_ = Some r /\ rid r = id.
Proof.
  unfold indexOfID. intros ([i r] & H & ->)%fmap_Some. apply list_find_Some in H as (H1 & H2 & _). eauto.
Qed.

Lemma rel_retract id p q : rel p q -> both (retract s id p) (retract s id q).
Proof.
  intros H. unfold retract. rewrite (rel_state p q H).
  set (P := fun x : Projection => match Pending (state p) !! s with
     | Some l => match indexOfID l id with Some _ => put_pending s (filterOutID l id) x | None => x end | None => x end).
  change (match Pending (state p) !! s with
     | Some l => match indexOfID l id with Some _ => put_pending s (filterOutID l id) p | None => p end | None => p end) with (P p).
  change (match Pending (state p) !! s with
     | Some l => match indexOfID l id with Some _ => put_pending s (filterOutID l id) q | None => q end | None => q end) with (P q).
  assert (H' : rel (P p) (P q)).
  { subst P. cbv beta. destruct (Pending (state p) !! s) as [l|] eqn:E; [|done]. destruct (indexOfID l id); [|done].
    apply rel_put_pending; [done|]. apply filter_some. destruct H as (_ & HI & _). destruct (inv_others _ HI) as (_ & O & _). by eapply O. }
  generalize dependent (P p). generalize dependent (P q). clear P p q H. intros q p H.
  pose proof H as (_ & HI & HI'). pose proof (upsert_found s id p HI) as Fp. pose proof (upsert_found s id q HI') as Fq.
  rewrite (rel_rows s p q H) in Fq |- *.
  assert (Hb : forall x, Inv x -> (idx ← index x !! s; pos idx !! id) = fst <$> find_last (message_row id) (rows s p) ->
    match index x !! s with
    | None => Some x
    | Some idx => match pos idx !! id with None => Some x | Some _ => Some (rebuildIndexes s (put_rows s (filterOutID (rows s p) id) x)) end
    end = match find_last (message_row id) (rows s p) with
          | None => Some x | Some _ => Some (rebuildIndexes s (put_rows s (filterOutID (rows s p) id) x)) end).
  { intros x _ E. destruct (index x !! s) as [idx|]; cbn in E; [rewrite E|]; by destruct (find_last _ _). }
  rewrite !Hb by done. destruct (find_last _ _); apply both_some; [|done]. apply rel_rebuild; [done|apply Hev|]. apply rows_ok_filter, HI.
Qed.

Lemma rel_deliver id p q : rel p q -> both (deliver s id (Get event "created") p) (deliver s id (Get event "created") q).
Proof.
  intros H. unfold deliver. rewrite (rel_state p q H), (rel_pending_rows _ p q H).
  set (adm := match Pending (state p) !! s with Some _ => _ | None => _ end).
  assert (H' : rel (if adm then put_pending s (filterOutID (pending_rows s p) id) p else p)
                   (if adm then put_pending s (filterOutID (pending_rows s p) id) q else q)).
  { destruct adm; [|done]. apply rel_put_pending; [done|]. apply filter_some, pending_some, H. }
  revert H'. generalize (if adm then put_pending s (filterOutID (pending_rows s p) id) p else p).
  generalize (if adm then put_pending s (filterOutID (pending_rows s p) id) q else q). clearbody adm. clear p q H. intros q p H.
  rewrite (rel_state p q H). destruct (Message (state p) !! s) as [l|] eqn:El; [|by apply both_some].
  destruct (indexOfID l id) as [at_|] eqn:Ei; [|by apply both_some]. destruct (negb adm); [by apply both_some|].
  apply indexOfID_lookup in Ei as (r & Hr & Hid). pose proof H as (_ & HI & _).
  assert (Hl : rows s p = l) by (unfold rows; by rewrite El). rewrite Hr.
  destruct (ref_ok_lookup s p at_ r HI) as (o & -> & Ho); [by rewrite Hl|]. destruct (ro_time _ Ho) as [t Ht].
  rewrite (set_in_time _ _ _ t) by done. cbn [mbind option_bind]. apply both_some, rel_rebuild; [done|apply Hev|].
  apply (rows_ok_move l at_ o); [rewrite <- Hl; apply HI|done|by apply row_ok_time|]. unfold rid. cbn [Get]. by rewrite get_neutral.
Qed.

Lemma some_lookup l id at_ : Forall is_Some l -> indexOfID l id = Some at_ -> exists o, l !! at_ = Some (Some o).
Proof.
  intros Hf Hi. apply indexOfID_lookup in Hi as (r & Hr & _). pose proof (Forall_lookup_1 _ _ _ _ Hf Hr) as [o ->]. eauto.
Qed.

Lemma rel_updatePending id v p q : rel p q -> both (updatePending s id v p) (updatePending s id v q).
Proof.
  intros H. unfold updatePending. rewrite (rel_state p q H). destruct (Pending (state p) !! s) as [l|] eqn:El; [|by apply both_some].
  destruct (indexOfID l id) as [at_|] eqn:Ei; [|by apply both_some].
  pose proof H as (_ & HI & _). destruct (inv_others _ HI) as (_ & O & _). pose proof (O s l El) as Hl.
  destruct (some_lookup l id at_ Hl Ei) as [o Ho]. rewrite Ho. cbn [default from_option]. unfold Datatypes.id.
  case_bool_decide; [by apply both_some|]. cbn [Set_ mbind option_bind]. apply both_some, rel_put_pending; [done|].
  apply Forall_insert; [done|by eexists].
Qed.

Lemma rel_revertCommitted to p q : rel p q -> both (revertCommitted s to p) (revertCommitted s to q).
Proof.
  intros H. unfold revertCommitted. eapply both_bind; [apply rel_edit_info; [done|by eexists]|].
  intros p' q' _ H'. rewrite (rel_pending_rows _ p' q' H').
  assert (H2 := rel_put_pending s (List.filter (fun item => String.ltb (str (Get item "id")) to) (pending_rows s p')) p' q' H').
  specialize (H2 (filter_some _ _ (pending_some s p' (proj1 (proj2 H'))))).
  rewrite (rel_rows s _ _ H2). destruct (list_find _ _) as [[at_ r]|]; [|by apply both_some].
  apply both_some, rel_rebuild; [done|apply Hev|]. apply rows_ok_take, H2.
Qed.

(** ** Forms and permissions *)

Lemma rel_removeForm x id l p q : rel p q -> both (removeForm x id l p) (removeForm x id l q).
Proof.
  intros H. unfold removeForm. rewrite (rel_state p q H). destruct (Form (state p) !! x); apply both_some; [by apply rel_put_form|done].
Qed.

Lemma rel_formCreated p q : rel p q -> both (formCreated event d p) (formCreated event d q).
Proof.
  intros H. unfold formCreated. destruct (negb _); [by apply both_some|].
  assert (E : forall o, form_rows o q = form_rows o p) by (intros; unfold form_rows; by rewrite (rel_state p q H)). rewrite !E.
  set (owner := str _). pose proof (rel_put_form owner (form_rows owner p) p q H) as H'.
  destruct (indexOfID _ _); [by apply both_some|].
  assert (exists row, (if String.eqb owner "global" then Set_ (Clone (objOf (get d "form"))) "location" (cloneValue (Get event "location"))
      else Some (Clone (objOf (get d "form")))) = Some row) as [row ->].
  { destruct (String.eqb_spec owner "global") as [Eo|]; [|by eexists]. subst owner. destruct (objOf (get d "form")); [by eexists|done]. }
  cbn [mbind option_bind]. by apply both_some, rel_put_form.
Qed.

Lemma rel_permissionAsked p q : rel p q -> both (permissionAsked d s p) (permissionAsked d s q).
Proof.
  intros H. unfold permissionAsked.
  assert (E : permission_rows s q = permission_rows s p) by (unfold permission_rows; by rewrite (rel_state p q H)). rewrite E.
  pose proof (permission_some s p (proj1 (proj2 H))) as Hl.
  destruct (indexOfID _ _); apply both_some, rel_put_permission; try done.
  apply Forall_app. split; [done|]. repeat constructor. by eexists.
Qed.

Lemma rel_permissionReplied p q : rel p q -> both (permissionReplied event d s p) (permissionReplied event d s q).
Proof.
  intros H. unfold permissionReplied. rewrite (rel_state p q H). destruct (Permission (state p) !! s) as [l|] eqn:El; [|by apply both_some].
  destruct (indexOfID l _) as [at_|] eqn:Ei; [|by apply both_some].
  pose proof H as (_ & HI & _). destruct (inv_others _ HI) as (_ & _ & O). pose proof (O s l El) as Hl.
  destruct (some_lookup l _ at_ Hl Ei) as [o Ho]. rewrite Ho. cbn [default from_option]. unfold Datatypes.id.
  cbn [Set_ mbind option_bind]. apply both_some, rel_put_permission; [done|]. apply Forall_insert; [done|by eexists].
Qed.
End Handlers.

(** ** Every event *)

Lemma both_apply event p q : event_ok event -> rel p q -> both (Apply event p) (Apply event q).
Proof.
  intros Hev H. unfold Apply. destruct (kind_of (str (Get event "type"))) as [k|] eqn:Ek; [|by apply both_some].
  pose proof (ev_session _ Hev) as Hs.
  assert (Hst : forall st, str (get st "status") = "streaming" -> str (get st "status") <> "") by (intros st ->; discriminate).
  assert (Hset : forall key v, forall o : obj, exists o', Set_ (Some o) key v = Some (Some o')) by (intros; by eexists).
  assert (Hdel : forall key, forall o : obj, exists o', Some ((fun x : obj => Delete x key) <$> Some o) = Some (Some o')) by (intros; by eexists).
  assert (Hstream : forall t, String.eqb (status_of t) "streaming" = true -> status_of t <> "").
  { intros t ->%String.eqb_eq. discriminate. }
  destruct k; unfold apply_kind.
  - by apply both_some, rel_remove.
  - apply rel_edit_info; [done|]. intros o. by eexists.
  - by apply rel_agentSelected.
  - by apply rel_modelSelected.
  - apply rel_edit_info; [done|]. apply Hset.
  - by apply rel_moved.
  - destruct (ev_item _ Hev Ek) as (I1 & I2 & I3 & I4). apply rel_admit; [done|done|]. by apply admitted_row_ok.
  - by apply rel_deliver.
  - by apply rel_updatePending.
  - by apply rel_retract.
  - by apply rel_instructions.
  - by apply rel_synthetic.
  - by apply rel_shellStarted.
  - by apply rel_shellEnded.
  - by apply rel_stepStarted.
  - by apply rel_streamed.
  - by apply rel_stepEnded.
  - by apply rel_stepFailed.
  - by apply rel_textStarted.
  - by apply (rel_text_edit event Hev (fun t => concat2 (get t "text") (get (event_data event) "delta"))).
  - by apply (rel_text_edit event Hev (fun _ => get (event_data event) "text")).
  - by apply rel_toolInputStarted.
  - apply rel_editTool; [done|done|]. by apply (tool_edit_state _ (fun t => String.eqb (status_of t) "streaming")).
  - apply rel_editTool; [done|done|]. by apply (tool_edit_state _ (fun t => String.eqb (status_of t) "streaming")).
  - apply rel_editTool; [done|done|]. apply tool_edit_called.
  - apply rel_editTool; [done|done|].
    apply (tool_edit_state _ (fun t => String.eqb (status_of t) "running" || String.eqb (status_of t) "completed" || String.eqb (status_of t) "error")
             "metadata" (fun t => toolProgressMetadata (objOf (get t "state")) (get (event_data event) "metadata"))).
    intros t Ht E. by rewrite E in Ht.
  - apply rel_editTool; [done|done|]. apply tool_edit_success.
  - apply rel_editTool; [done|done|]. apply tool_edit_failed.
  - by apply rel_reasoningStarted.
  - by apply (rel_reasoningDelta event Hev (fun t => concat2 (get t "text") (get (event_data event) "delta"))).
  - by apply rel_reasoningEnded.
  - apply rel_upsert; [done|done|]. apply row_ok_intro; [| |eexists|]; unfold connection_row; gets; try done. apply Hev.
  - apply (rel_neutral_edit event Hev "retry" (fun _ => VObj (mk [("attempt", get (event_data event) "attempt");
      ("at", get (event_data event) "at"); ("error", cloneValue (get (event_data event) "error"))]))); [done|]. neutral_tac.
  - by apply both_some, rel_active.
  - by apply rel_executionEnded.
  - apply rel_edit_info; [done|]. apply Hset.
  - apply rel_edit_info; [done|]. apply Hdel.
  - by apply rel_revertCommitted.
  - by apply rel_compactionStarted.
  - by apply rel_compactionDelta.
  - by apply rel_compactionEnded.
  - by apply rel_compactionFailed.
  - by apply rel_permissionAsked.
  - by apply rel_permissionReplied.
  - by apply rel_removeForm.
  - by apply rel_formCreated.
Qed.

Lemma rel_refl p : Inv p -> rel p p.
Proof. intros H. split; [done|by split]. Qed.

Lemma run_cons e es p : run (e :: es) p = (Apply e p ≫= run es).
Proof.
  unfold run. cbn. destruct (Apply e p) as [p'|]; cbn; [done|]. induction es as [|x es IH]; [done|]. apply IH.
Qed.

Lemma both_run es p q : Forall event_ok es -> rel p q -> both (run es p) (run es q).
Proof.
  intros Hes. revert p q. induction Hes as [|e es He Hes IH]; intros p q H; [by apply both_some|].
  rewrite !run_cons. eapply both_bind; [by apply both_apply|]. intros p' q' _ H'. by apply IH.
Qed.

(** ** Building a projection from a state *)

(** States a projection can be built from: well-formed rows under session
    identifiers without NUL, no nil objects, and no nil slice left (a copy
    would turn one into an empty slice). *)
Record state_ok (st : ProjectionState) : Prop := {
  so_rows : forall s l, Message st !! s = Some l -> nul_free s /\ rows_ok l;
  so_others : others_ok st;
  so_clone : CloneState st = st;
}.

Lemma rebuild_rows s p s' : nul_free s -> rows_ok (rows s p) -> rows s' (rebuildIndexes s p) = rows s' p.
Proof.
  intros Hs Hl. destruct (rebuild_spec s p Hs) as (E & _); [by apply rows_ok_nul|]. unfold rows. by rewrite E.
Qed.

(** The invariant while the sessions of a list are still to be built. *)
Record Inv_but (todo : list string) (p : Projection) : Prop := {
  ib_index : forall s idx, index p !! s = Some idx -> index_ok (regs s p) idx;
  ib_dom : forall s, rows s p <> [] -> (s ∉ todo) -> is_Some (index p !! s);
  ib_parts : forall s, nul_free s -> (s ∉ todo) -> all_parts s (regs s p) p;
}.

Lemma Inv_but_rebuild todo s p :
  nul_free s -> rows_ok (rows s p) -> Inv_but (s :: todo) p -> Inv_but todo (rebuildIndexes s p) /\ state (rebuildIndexes s p) = state p.
Proof.
  intros Hs Hl [H1 H2 H3]. pose proof (rebuild_rows s p) as Hrows.
  destruct (rebuild_spec s p Hs) as (E & Hp & Hsame & idx & Hix & Hok); [by apply rows_ok_nul|]. split; [|done].
  split; unfold regs.
  - intros s' idx'. rewrite Hix, Hrows by done. destruct (decide (s' = s)) as [->|Hne]; [rewrite lookup_insert_eq; by intros [= <-]|].
    rewrite lookup_insert_ne by done. apply H1.
  - intros s'. rewrite Hix, Hrows by done. intros Hr Hn. apply lookup_insert_is_Some. destruct (decide (s = s')) as [->|Hne]; [by left|right].
    split; [done|]. apply H2; [done|]. apply not_elem_of_cons. split; [congruence|done].
  - intros s' Hs' Hn. rewrite Hrows by done. destruct (decide (s' = s)) as [->|Hne]; [done|]. intros m Hm.
    destruct (H3 s' Hs') with (m := m) as [A B C]; [by apply not_elem_of_cons|done|].
    split; [| |intros t]; [destruct (Hsame s' m "") as (-> & _)|destruct (Hsame s' m "") as (_ & -> & _)|destruct (Hsame s' m t) as (_ & _ & ->)]; auto.
Qed.

Lemma fold_rebuild todo p :
  (forall s, s ∈ todo -> nul_free s /\ rows_ok (rows s p)) -> Inv_but todo p ->
  let p' := fold_left (fun p s => rebuildIndexes s p) todo p in Inv_but [] p' /\ state p' = state p.
Proof.
  revert p. induction todo as [|s todo IH]; intros p Hr HI; cbn [fold_left]; [done|].
  destruct (Hr s) as [Hs Hl]; [by left|]. destruct (Inv_but_rebuild todo s p Hs Hl HI) as [HI' Est].
  destruct (IH (rebuildIndexes s p)) as [A B]; [|done|].
  - intros s' Hs'. rewrite (state_rows s' _ p) by done. apply Hr. by right.
  - split; [done|]. by rewrite B.
Qed.

Lemma New_inv st : state_ok st -> Inv (New st) /\ state (New st) = st.
Proof.
  intros [S1 S2 S3]. unfold New. rewrite S3. set (p0 := MkProj st ∅ ∅ ∅ ∅).
  assert (Hin : forall s, s ∈ fst <$> map_to_list (Message st) <-> is_Some (Message st !! s)).
  { intros s. rewrite list_elem_of_fmap. split.
    - intros ([s' l] & -> & H%elem_of_map_to_list). by eexists.
    - intros [l H]. exists (s, l). split; [done|]. by apply elem_of_map_to_list. }
  destruct (fold_rebuild (fst <$> map_to_list (Message st)) p0) as [[A B C] E].
  - intros s [l Hl]%Hin. unfold rows. cbn. rewrite Hl. by apply (S1 s).
  - assert (Hempty : forall s, (s ∉ fst <$> map_to_list (Message st)) -> rows s p0 = []).
    { intros s Hn. unfold rows. cbn. destruct (Message st !! s) eqn:El; [|done]. exfalso. apply Hn, Hin. by eexists. }
    split.
    + intros s idx. cbn. by rewrite lookup_empty.
    + intros s Hr Hn. by rewrite Hempty in Hr.
    + intros s Hs Hn m Hm. unfold regs. rewrite (Hempty s Hn). by split.
  - split; [|done]. split; [done|intros s Hr; apply B; [done|apply not_elem_of_nil]|intros s Hs; apply C; [done|apply not_elem_of_nil]| |by rewrite E|].
    2:{ intros s. rewrite E. cbn. intros [l Hl]. by apply (S1 s l). }
    intros s. unfold rows. rewrite E. cbn. destruct (Message st !! s) eqn:El; [by apply (S1 s)|split; constructor].
Qed.
