(* ===== verification/SessionMain.v ===== *)
(** * Session projection: the theorems

    The access paths of every reachable projection answer the scans they
    replace, events of well-formed streams never panic, a projection restored
    from a snapshot goes on the same, and a streamed text arrives as it was
    sent. *)

From stdpp Require Import sorting.
From S2P Require Import Prelude GoText SessionJson SessionState SessionReduce SessionIndex SessionInv SessionSim SessionProps.
From Stdlib Require Import Ascii.

Open Scope string_scope.
Open Scope list_scope.
Open Scope nat_scope.

(** The projections that well-formed events lead to. *)
Definition reachable (st : ProjectionState) (p : Projection) : Prop :=
  exists es, Forall event_ok es /\ run es (New st) = Some p.

Lemma reachable_inv st p : state_ok st -> reachable st p -> Inv p.
Proof.
  intros Hst (es & Hes & Hr). destruct (New_inv st Hst) as [HI _].
  destruct (both_run es _ _ Hes (rel_refl _ HI)) as (p' & q' & E & _ & (_ & HI' & _)). rewrite Hr in E. by injection E as ->.
Qed.

(** The place [findLast] finds among the parts of a row. *)
Definition scan_parts (Q : val -> bool) (s : string) (at_ : nat) (o : obj) : option part_ptr :=
  (fun iv => Part s at_ iv.1) <$> find_last Q (items (get o "content")).

Definition text_part (v : val) : bool := String.eqb (str (Get (objOf v) "type")) "text".
Definition open_reasoning_part (v : val) : bool :=
  String.eqb (str (Get (objOf v) "type")) "reasoning" && negb (truthy (Get (objOf (Get (objOf v) "time")) "completed")).
Definition tool_part (t : string) (v : val) : bool :=
  String.eqb (str (Get (objOf v) "type")) "tool" && String.eqb t (str (Get (objOf v) "id")).

Lemma class_tests v :
  is_text (part_class v) = text_part v /\ is_reasoning (part_class v) = open_reasoning_part v
  /\ forall t, is_tool t (part_class v) = tool_part t v.
Proof.
  unfold part_class, text_part, open_reasoning_part, tool_part. destruct (objOf v) as [o|]; cbn [Get str]; [|done].
  destruct (String.eqb_spec (str (get o "type")) "text") as [->|]; [done|].
  destruct (String.eqb_spec (str (get o "type")) "reasoning") as [->|]; [by destruct (negb _)|].
  by destruct (String.eqb_spec (str (get o "type")) "tool").
Qed.

Lemma scan_positions (Q : pclass -> bool) (P : val -> bool) s at_ o :
  (forall v, Q (part_class v) = P v) -> str (get o "type") = "assistant" ->
  last (Part s at_ <$> positions Q (g_parts (reg_of (Some o)))) = scan_parts P s at_ o.
Proof.
  intros HQ Ht. rewrite g_parts_assistant by done. rewrite fmap_last. unfold positions, scan_parts.
  rewrite positions_fmap, <- find_last_positions. change (find_last_from 0) with (@find_last val).
  rewrite (find_last_ext (Q ∘ part_class) P) by done. by destruct (find_last P _) as [[i v]|].
Qed.

Lemma row_of_message p s id at_ o :
  Inv p -> row_with id (rows s p) = Some (at_, o) -> rows s p !! at_ = Some (Some o) /\ str (get o "id") = id /\ row_ok o.
Proof.
  intros HI H. apply row_with_lookup in H as [Hl Hid]. split_and!; [done|done|].
  by destruct (ref_ok_lookup s p at_ _ HI Hl) as (o' & [= <-] & Ho).
Qed.

(** C6: in every projection that well-formed events lead to, each constant
    time selection is the [findLast] scan it replaces: the open assistant, the
    running compaction, the row of a shell and the row of a message, and in an
    assistant row the latest text part, the latest open reasoning part and the
    latest part of a tool. *)
Theorem selections_are_scans st p :
  state_ok st -> reachable st p ->
  forall s,
    openAssistant s p = Some (find_last open_assistant (rows s p))
    /\ runningCompaction s p = Some (find_last running_compaction (rows s p))
    /\ (forall sid, shell s sid p = Some (find_last (shell_row sid) (rows s p)))
    /\ (nul_free s -> forall id, snd (message s id p) = row_with id (rows s p)
        /\ forall at_ o, row_with id (rows s p) = Some (at_, o) -> str (get o "type") = "assistant" ->
           latestText p !! partKey s id "" = scan_parts text_part s at_ o
           /\ last (default [] (openReasoning p !! partKey s id "")) = scan_parts open_reasoning_part s at_ o
           /\ forall t, tools p !! partKey s id t = scan_parts (tool_part t) s at_ o).
Proof.
  intros Hst Hr s. pose proof (reachable_inv st p Hst Hr) as HI.
  split_and!; [by apply openAssistant_spec|by apply runningCompaction_spec|intros sid; by apply shell_spec|].
  intros Hs id. split.
  - destruct (message s id p) as [p' m] eqn:E. by destruct (message_spec s id p p' m HI Hs E) as (_ & _ & ->).
  - intros at_ o Hrow Ht. destruct (row_of_message p s id at_ o HI Hrow) as (Hl & <- & _).
    destruct (paths_of_row s p at_ (Some o) HI Hs Hl) as (P1 & P2 & P3). cbn [rid Get] in P1, P2, P3.
    change (rid (Some o)) with (str (get o "id")) in *.
    rewrite P1, P2, (scan_positions is_text text_part), (scan_positions is_reasoning open_reasoning_part) by (try done; intros; apply class_tests).
    split_and!; [done..|]. intros t. rewrite P3. apply scan_positions; [|done]. intros v. apply class_tests.
Qed.

(** No well-formed event panics, whatever the projection it reaches, and
    the rows stay well formed: distinct identifiers, a time on every row and
    on every tool part of an assistant. *)
Theorem events_never_panic st es :
  state_ok st -> Forall event_ok es ->
  exists p, run es (New st) = Some p /\ forall s, rows_ok (rows s p).
Proof.
  intros Hst Hes. destruct (New_inv st Hst) as [HI _].
  destruct (both_run es _ _ Hes (rel_refl _ HI)) as (p & q & E & _ & (_ & HI' & _)). exists p. split; [done|]. apply HI'.
Qed.

Lemma inv_state_ok p : Inv p -> CloneState (state p) = state p -> state_ok (state p).
Proof.
  intros HI Hc. split; [|apply HI|done]. intros s l Hl. split; [apply (inv_nul _ HI); by eexists|].
  pose proof (inv_rows _ HI s) as H. unfold rows in H. by rewrite Hl in H.
Qed.

(** C7: a projection restored from a snapshot goes on like the one it was
    taken from: after the same well-formed events both have the same state.
    (The state must hold no nil slice, which a snapshot turns into an empty
    one.) *)
Theorem restore_continues st es1 es2 p :
  state_ok st -> Forall event_ok es1 -> Forall event_ok es2 ->
  run es1 (New st) = Some p -> CloneState (state p) = state p ->
  exists p1 p2, run es2 p = Some p1 /\ run es2 (New (Snapshot p)) = Some p2 /\ state p1 = state p2 /\ Snapshot p1 = Snapshot p2.
Proof.
  intros Hst H1 H2 Hrun Hc. assert (HI : Inv p) by (apply (reachable_inv st); [done|by exists es1]).
  unfold Snapshot. rewrite Hc. destruct (New_inv (state p) (inv_state_ok p HI Hc)) as [HN EN].
  destruct (both_run es2 p (New (state p)) H2) as (p1 & p2 & E1 & E2 & (E & _)); [split; [done|by split]|].
  exists p1, p2. split_and!; [done|done|done|by rewrite E].
Qed.

(** ** A streamed text *)

(** An event of a kind about an assistant message. *)
Record about (k : kind) (s a : string) (event : ref) : Prop := {
  ab_kind : kind_of (str (Get event "type")) = Some k;
  ab_session : str (get (event_data event) "sessionID") = s;
  ab_message : str (get (event_data event) "assistantMessageID") = a;
}.

Definition text_of (t : string) : obj := [("type", VStr "text"); ("text", VStr t)].

(** The row with a text part at its end. *)
Definition with_text (o : obj) (t : string) : obj := appendContent o (text_of t).

Lemma assign_assign o k v w : assign (assign o k v) k w = assign o k w.
Proof.
  induction o as [|[k0 x] o IH]; cbn; [by rewrite String.eqb_refl|]. destruct (String.eqb_spec k0 k) as [->|Hne]; cbn.
  - by rewrite String.eqb_refl.
  - apply String.eqb_neq in Hne as ->. by rewrite IH.
Qed.

Lemma with_text_set o t u : set_part (with_text o t) (length (items (get o "content"))) (text_of u) = with_text o u.
Proof.
  unfold set_part, with_text, appendContent. rewrite get_set. cbn [String.eqb Ascii.eqb Bool.eqb items arrOf default from_option Datatypes.id].
  unfold set. cbn [isUndefined]. rewrite assign_assign. do 2 f_equal. unfold items at 1. cbn [arrOf default from_option]. unfold Datatypes.id.
  rewrite insert_app_r_alt by done. by rewrite Nat.sub_diag.
Qed.

Lemma row_with_unique l id at_ o : rows_ok l -> l !! at_ = Some (Some o) -> rid (Some o) = id -> row_with id l = Some (at_, o).
Proof.
  intros [Hnd _] Hl Hid. unfold row_with. destruct (find_last (message_row id) l) as [[i r]|] eqn:E.
  - apply find_last_row in E as [Hi Hp]. apply String.eqb_eq in Hp.
    assert (i = at_) as ->; [|rewrite Hl in Hi; by injection Hi as <-].
    eapply (NoDup_lookup (rid <$> l)); [done| |]; rewrite list_lookup_fmap; [by rewrite Hi|rewrite Hl; cbn; congruence].
  - apply find_last_none in E. eapply Forall_lookup_1 in E; [|done]. apply String.eqb_neq in E. by rewrite <- Hid in E.
Qed.

(** The state while a text is streamed into the row at [at_]. *)
Definition streaming (s a : string) (at_ : nat) (o : obj) (t : string) (p0 p : Projection) : Prop :=
  Inv p /\ state p = state (put_row s at_ (with_text o t) p0).

Lemma streaming_row s a at_ o t p0 p r :
  rows s p0 !! at_ = Some r -> streaming s a at_ o t p0 p -> rows s p !! at_ = Some (Some (with_text o t)).
Proof.
  intros Hl [_ E]. rewrite (state_rows s p _ E). unfold put_row. rewrite rows_put. apply list_lookup_insert_eq. by eapply lookup_lt_Some.
Qed.

Lemma put_row_put_row s at_ o1 o2 p0 p :
  state p = state (put_row s at_ o1 p0) -> state (put_row s at_ o2 p) = state (put_row s at_ o2 p0).
Proof.
  intros E. unfold put_row, put_rows. cbn. rewrite (state_rows s p _ E), E. unfold put_row. rewrite rows_put. cbn.
  by rewrite insert_insert_eq, list_insert_insert_eq.
Qed.

Section Stream.
Context (s a : string) (at_ : nat) (o : obj) (p0 : Projection).
Context (HI0 : Inv p0) (Hs : nul_free s) (Hl0 : rows s p0 !! at_ = Some (Some o)).
Context (Ha : str (get o "id") = a) (Ht : str (get o "type") = "assistant").

Lemma with_text_keys t : str (get (with_text o t) "id") = a /\ str (get (with_text o t) "type") = "assistant"
  /\ items (get (with_text o t) "content") = items (get o "content") ++ [VObj (text_of t)].
Proof. unfold with_text, appendContent. by rewrite !get_set. Qed.

(** [editAssistant] finds the row. *)
Lemma edit_found edit p r :
  Inv p -> rows s p !! at_ = Some (Some r) -> str (get r "id") = a -> str (get r "type") = "assistant" ->
  exists p1, Inv p1 /\ state p1 = state p /\ editAssistant s a edit p = edit at_ r p1.
Proof.
  intros HI Hl Hid Hty. unfold editAssistant. destruct (message s a p) as [p1 m] eqn:E.
  destruct (message_spec s a p p1 m HI Hs E) as (HI1 & E1 & ->).
  rewrite (row_with_unique (rows s p) a at_ r) by (try done; apply HI). exists p1. by rewrite Hty.
Qed.

Lemma stream_started event p' :
  about KTextStarted s a event -> Apply event p0 = Some p' -> Inv p' -> streaming s a at_ o "" p0 p'.
Proof.
  intros [K1 K2 K3] E HI. split; [done|]. unfold Apply in E. rewrite K1 in E. unfold apply_kind in E. rewrite K2, K3 in E.
  unfold textStarted in E.
  destruct (edit_found (fun at_ a0 p => Some (set_latestText (partKey s a "") (new_part s at_ a0)
       (put_row s at_ (appendContent a0 (mk [("type", VStr "text"); ("text", VStr "")])) p))) p0 o HI0 Hl0 Ha Ht) as (p1 & _ & E1 & E2).
  rewrite E2 in E. injection E as <-. cbn [state set_latestText]. by apply put_row_state.
Qed.

Lemma stream_delta event t dl p p' :
  about KTextDelta s a event -> get (event_data event) "delta" = VStr dl ->
  streaming s a at_ o t p0 p -> Apply event p = Some p' -> Inv p' -> streaming s a at_ o (String.append t dl) p0 p'.
Proof.
  intros [K1 K2 K3] Hd Hst E HI. split; [done|]. unfold Apply in E. rewrite K1 in E. unfold apply_kind in E. rewrite K2, K3 in E.
  pose proof (streaming_row s a at_ o t p0 p _ Hl0 Hst) as Hl. destruct (with_text_keys t) as (W1 & W2 & W3). destruct Hst as [HIp Est].
  unfold editText in E.
  match type of E with editAssistant _ _ ?edit _ = _ =>
    destruct (edit_found edit p (with_text o t) HIp Hl W1 W2) as (p1 & HI1 & E1 & E2) end.
  rewrite E2 in E. cbv beta in E. rewrite <- (state_rows s p1 p E1) in Hl.
  destruct (paths_of_row s p1 at_ _ HI1 Hs Hl) as (P1 & _). unfold rid in P1. cbn [Get] in P1. rewrite W1 in P1. rewrite P1 in E.
  rewrite g_parts_assistant, W3, fmap_app in E by done. cbn [fmap list_fmap] in E.
  rewrite last_new in E. change (is_text (part_class (VObj (text_of t)))) with true in E. cbv iota in E. rewrite length_fmap in E.
  unfold edit_part in E. rewrite (part_at_row s at_ _ (with_text o t) (text_of t)) in E; [|done|rewrite W3; apply list_lookup_middle; done].
  cbn [mbind option_bind] in E. injection E as <-. rewrite (put_part_row s at_ _ (with_text o t)) by done.
  rewrite Hd. change (set (text_of t) "text" _) with (text_of (String.append t dl)). rewrite with_text_set.
  etrans; [|apply (put_row_put_row s at_ (with_text o t) (with_text o (String.append t dl)) p0 p1); by rewrite E1]. done.
Qed.
End Stream.

(** A text streamed into an assistant row arrives whole: after
    [session.text.started] and any number of deltas, the state is the one
    before with one text part added at the end of the row's content, holding
    the deltas in order. *)
Theorem text_streams s a at_ o p start deltas texts :
  Inv p -> event_ok start -> Forall event_ok deltas ->
  nul_free s -> rows s p !! at_ = Some (Some o) -> str (get o "id") = a -> str (get o "type") = "assistant" ->
  about KTextStarted s a start ->
  Forall2 (fun e t => about KTextDelta s a e /\ get (event_data e) "delta" = VStr t) deltas texts ->
  exists p', run (start :: deltas) p = Some p'
    /\ state p' = state (put_row s at_ (with_text o (fold_left String.append texts "")) p).
Proof.
  intros HI Hok Hoks Hs Hl Ha Ht Hst Hds.
  destruct (both_apply start p p Hok (rel_refl _ HI)) as (p1 & q1 & E1 & _ & (_ & HI1 & _)).
  rewrite run_cons, E1. cbn [mbind option_bind].
  pose proof (stream_started s a at_ o p HI Hs Hl Ha Ht start p1 Hst E1 HI1) as Hstream. clear E1 HI1 q1.
  generalize dependent p1. generalize "". induction Hds as [|e t es ts [He Hd] Hds IH]; intros acc p1 Hstream.
  - exists p1. split; [done|]. apply Hstream.
  - inversion Hoks as [|?? Hoke Hoks']; subst. rewrite run_cons.
    destruct (both_apply e p1 p1 Hoke (rel_refl _ (proj1 Hstream))) as (p2 & q2 & E2 & _ & (_ & HI2 & _)). rewrite E2. cbn [mbind option_bind fold_left].
    apply IH; [done|]. eapply stream_delta; try done.
Qed.

(** ** A concrete stream *)

Module Demo.
Definition event (type : string) (data : list (string * val)) : ref :=
  Some (mk [("id", VStr "evt_1"); ("type", VStr type); ("created", VNum "17"); ("data", VObj (mk data))]).
Definition ids : list (string * val) := [("sessionID", VStr "ses"); ("assistantMessageID", VStr "msg")].
Definition started : ref := event "session.step.started" (ids ++ [("agent", VStr "build")]).
Definition text_started : ref := event "session.text.started" ids.
Definition delta (t : string) : ref := event "session.text.delta" (ids ++ [("delta", VStr t)]).
Definition ended : ref := event "session.step.ended" (ids ++ [("finish", VStr "stop")]).

Definition proj (es : list ref) : Projection := default (New NewProjectionState) (run es (New NewProjectionState)).
Definition opened : Projection := proj [started].
Definition full : Projection := proj [started; text_started; delta "he"; delta "llo"].

Ltac event_tac := split; [vm_compute; reflexivity|apply (bool_decide_unpack _); vm_compute; reflexivity..|vm_compute; discriminate].

Lemma started_ok : event_ok started. Proof. event_tac. Qed.
Lemma text_started_ok : event_ok text_started. Proof. event_tac. Qed.
Lemma he_ok : event_ok (delta "he"). Proof. event_tac. Qed.
Lemma llo_ok : event_ok (delta "llo"). Proof. event_tac. Qed.
Lemma ended_ok : event_ok ended. Proof. event_tac. Qed.
Lemma deltas_ok : Forall event_ok [delta "he"; delta "llo"].
Proof. constructor; [apply he_ok|constructor; [apply llo_ok|constructor]]. Qed.
Lemma all_ok : Forall event_ok [started; text_started; delta "he"; delta "llo"].
Proof. constructor; [apply started_ok|constructor; [apply text_started_ok|apply deltas_ok]]. Qed.

Lemma empty_ok : state_ok NewProjectionState.
Proof.
  split; [intros s l; cbn; by rewrite lookup_empty| |].
  - split_and!; intros s l; cbn; by rewrite lookup_empty.
  - vm_compute. reflexivity.
Qed.

Lemma opened_inv : Inv opened.
Proof. apply (reachable_inv NewProjectionState); [apply empty_ok|]. exists [started]. split; [constructor; [apply started_ok|constructor]|vm_compute; reflexivity]. Qed.
End Demo.

Lemma selections_are_scans_witness :
  openAssistant "ses" Demo.full = Some (find_last open_assistant (rows "ses" Demo.full))
  /\ (fst <$> find_last open_assistant (rows "ses" Demo.full)) = Some 0.
Proof.
  split; [|vm_compute; reflexivity].
  refine (proj1 (selections_are_scans NewProjectionState Demo.full Demo.empty_ok _ "ses")).
  exists [Demo.started; Demo.text_started; Demo.delta "he"; Demo.delta "llo"]. split; [apply Demo.all_ok|vm_compute; reflexivity].
Defined.

Lemma events_never_panic_witness :
  exists p, run [Demo.started; Demo.text_started; Demo.delta "he"; Demo.delta "llo"] (New NewProjectionState) = Some p
    /\ forall s, rows_ok (rows s p).
Proof. apply (events_never_panic NewProjectionState _ Demo.empty_ok Demo.all_ok). Defined.

Lemma restore_continues_witness :
  exists p1 p2, run [Demo.ended] Demo.full = Some p1 /\ run [Demo.ended] (New (Snapshot Demo.full)) = Some p2 /\ state p1 = state p2 /\ Snapshot p1 = Snapshot p2.
Proof.
  apply (restore_continues NewProjectionState [Demo.started; Demo.text_started; Demo.delta "he"; Demo.delta "llo"] [Demo.ended] Demo.full
           Demo.empty_ok Demo.all_ok).
  - constructor; [apply Demo.ended_ok|constructor].
  - vm_compute. reflexivity.
  - vm_compute. reflexivity.
Defined.

Lemma text_streams_witness :
  exists p', run (Demo.text_started :: [Demo.delta "he"; Demo.delta "llo"]) Demo.opened = Some p'
    /\ state p' = state (put_row "ses" 0 (with_text (default [] (default None (rows "ses" Demo.opened !! 0))) "hello") Demo.opened).
Proof.
  refine (text_streams "ses" "msg" 0 (default [] (default None (rows "ses" Demo.opened !! 0))) Demo.opened
           Demo.text_started [Demo.delta "he"; Demo.delta "llo"] ["he"; "llo"] Demo.opened_inv Demo.text_started_ok Demo.deltas_ok _ _ _ _ _ _).
  - apply (bool_decide_unpack _). vm_compute. reflexivity.
  - vm_compute. reflexivity.
  - vm_compute. reflexivity.
  - vm_compute. reflexivity.
  - split; vm_compute; reflexivity.
  - repeat constructor; vm_compute; reflexivity.
Defined.

(** * Native JSON documents: decoding

    The decoder of [json.go] gives back the document whose tokens it reads,
    and its recursion always ends. *)

(** ** Documents *)

(** Values a decoder can return: distinct member names, no [undefined] and no
    nil slice. *)
Inductive document : val -> Prop :=
| doc_null : document VNull
| doc_bool b : document (VBool b)
| doc_str s : document (VStr s)
| doc_num n : document (VNum n)
| doc_arr l : Forall document l -> document (VArr l)
| doc_obj o : NoDup (fst <$> o) -> Forall (fun kv => document kv.2) o -> document (VObj o).

Lemma val_nested_ind (P : val -> Prop) :
  P VUndef -> P VNull -> (forall b, P (VBool b)) -> (forall s, P (VStr s)) -> (forall n, P (VNum n)) -> P VNilArr ->
  (forall l, Forall P l -> P (VArr l)) -> (forall o, Forall (fun kv => P kv.2) o -> P (VObj o)) -> forall v, P v.
Proof.
  intros H1 H2 H3 H4 H5 H6 H7 H8. fix IH 1. intros [| |b|s|n| |l|o]; [exact H1|exact H2|apply H3|apply H4|apply H5|exact H6| |].
  - apply H7. induction l as [|v l IHl]; constructor; [apply IH|apply IHl].
  - apply H8. induction o as [|[k v] o IHo]; constructor; [apply IH|apply IHo].
Qed.

Lemma tokens_nonempty v : exists t ts, tokens v = t :: ts.
Proof. destruct v; cbn; eauto. Qed.

Definition member_tokens (o : list (string * val)) : list token := concat (map (fun kv => TStr kv.1 :: tokens kv.2) o).

Lemma assign_fresh o k v : k ∉ fst <$> o -> assign o k v = o ++ [(k, v)].
Proof.
  induction o as [|[k0 w] o IH]; cbn; intros Hn; [done|]. apply not_elem_of_cons in Hn as [Hne Hn].
  destruct (String.eqb_spec k0 k); [congruence|]. by rewrite IH.
Qed.

Lemma document_defined v : document v -> isUndefined v = false.
Proof. by destruct 1. Qed.

(** What decoding the tokens of a value must give, wherever they stand. *)
Definition decodes (v : val) : Prop :=
  document v -> forall fuel t ts rest, tokens v = t :: ts -> 2 * length (tokens v) <= fuel ->
  decodeValue fuel t (ts ++ rest) = Ok (v, rest).

Lemma decode_members o out fuel rest :
  Forall (fun kv => decodes kv.2) o -> Forall (fun kv => document kv.2) o -> NoDup (fst <$> out ++ o) ->
  2 * S (length (member_tokens o)) <= fuel ->
  decodeObject fuel out (member_tokens o ++ TObjEnd :: rest) = Ok (out ++ o, rest).
Proof.
  revert out fuel. induction o as [|[k v] o IH]; intros out fuel Hd Hdoc Hnd Hf.
  { destruct fuel as [|fuel]; [cbn in Hf; lia|]. cbn. by rewrite app_nil_r. }
  inversion Hd as [|?? Hv Hd']; subst. inversion Hdoc as [|?? Dv Hdoc']; subst. cbn [snd] in *.
  destruct (tokens_nonempty v) as (t & ts & E).
  assert (Hm : member_tokens ((k, v) :: o) = TStr k :: t :: ts ++ member_tokens o) by (unfold member_tokens; cbn; by rewrite E).
  rewrite Hm in Hf |- *. cbn [length] in Hf. rewrite length_app in Hf.
  destruct fuel as [|fuel]; [lia|]. cbn [app decodeObject]. rewrite <- app_assoc.
  rewrite (Hv Dv fuel t ts _ E) by (rewrite E; cbn [length]; lia). cbn [mbind result_bind].
  unfold set. rewrite (document_defined v Dv).
  rewrite fmap_app in Hnd. apply NoDup_app in Hnd as (N1 & N2 & N3). cbn in N2, N3.
  rewrite assign_fresh by (intros Hin; apply (N2 k Hin); by left).
  rewrite IH; [by rewrite <- app_assoc|done|done| |lia].
  rewrite <- app_assoc, fmap_app. apply NoDup_app. split_and!; [done|done|done].
Qed.

Lemma decode_items l out fuel rest :
  Forall decodes l -> Forall document l -> 2 * S (length (concat (map tokens l))) <= fuel ->
  decodeArray fuel out (concat (map tokens l) ++ TArrEnd :: rest) = Ok (out ++ l, rest).
Proof.
  revert out fuel. induction l as [|v l IH]; intros out fuel Hd Hdoc Hf.
  { destruct fuel as [|fuel]; [cbn in Hf; lia|]. cbn. by rewrite app_nil_r. }
  inversion Hd as [|?? Hv Hd']; subst. inversion Hdoc as [|?? Dv Hdoc']; subst.
  destruct (tokens_nonempty v) as (t & ts & E). cbn [map concat] in Hf |- *. rewrite E in Hf |- *. cbn [app length] in Hf |- *.
  rewrite length_app in Hf. destruct fuel as [|fuel]; [lia|].
  assert (Hne : decodeArray (S fuel) out (t :: (ts ++ concat (map tokens l)) ++ TArrEnd :: rest)
     = ('(v, ts) ← decodeValue fuel t ((ts ++ concat (map tokens l)) ++ TArrEnd :: rest); decodeArray fuel (out ++ [v]) ts)).
  { destruct t; try done. by destruct v. }
  rewrite Hne, <- app_assoc. rewrite (Hv Dv fuel t ts _ E) by (rewrite E; cbn [length]; lia). cbn [mbind result_bind].
  rewrite IH by (try done; lia). by rewrite <- app_assoc.
Qed.

Lemma decode_tokens v : decodes v.
Proof.
  induction v as [| |b|s|n| |l IH|o IH] using val_nested_ind; intros D fuel t ts rest E Hf; inversion D; subst;
    (destruct fuel as [|fuel]; [cbn in Hf; lia|]); cbn in E; injection E as <- <-; try done; cbn in Hf; rewrite length_app in Hf; cbn in Hf.
  - cbn. rewrite <- app_assoc. cbn [app]. rewrite decode_items by (done || lia). done.
  - cbn. rewrite <- app_assoc. cbn [app]. fold (member_tokens o) in *. rewrite decode_members by (done || lia). done.
Qed.

(** decoding the tokens of a document gives the document: member order,
    nesting and number literals are kept. *)
Theorem decode_roundtrip v : document v -> DecodeValue (tokens v) = Ok v.
Proof.
  intros D. destruct (tokens_nonempty v) as (t & ts & E). unfold DecodeValue. rewrite E.
  pose proof (decode_tokens v D (S (2 * length (t :: ts))) t ts [] E) as H. rewrite app_nil_r in H.
  rewrite H by (rewrite E; lia). done.
Qed.

(** ** The recursion ends *)

Definition ends {A} (ts : list token) (r : result decode_error (A * list token)) : Prop :=
  match r with
  | Ok (_, rest) => length rest <= length ts
  | Err e => e <> EFuel
  end.

Lemma decode_ends fuel :
  (forall t ts, 2 * length ts + 2 <= fuel -> ends ts (decodeValue fuel t ts))
  /\ (forall out ts, 2 * length ts + 1 <= fuel -> ends ts (decodeObject fuel out ts))
  /\ (forall out ts, 2 * length ts + 1 <= fuel -> ends ts (decodeArray fuel out ts)).
Proof.
  induction fuel as [|fuel (IHv & IHo & IHa)]; [split_and!; intros; lia|]. split_and!.
  - intros t ts Hf. cbn [decodeValue]. destruct t; try done; try (cbn; lia).
    + specialize (IHo [] ts). destruct (decodeObject fuel [] ts) as [[o r]|e]; cbn in *; apply IHo; lia.
    + specialize (IHa [] ts). destruct (decodeArray fuel [] ts) as [[o r]|e]; cbn in *; apply IHa; lia.
  - intros out ts Hf. cbn [decodeObject]. destruct ts as [|[] ts]; try done; [cbn; lia|].
    destruct ts as [|t ts]; [done|]. cbn [length] in Hf. specialize (IHv t ts).
    destruct (decodeValue fuel t ts) as [[v r]|e]; cbn in *; [|apply IHv; lia].
    specialize (IHo (set out s v) r). destruct (decodeObject fuel (set out s v) r) as [[o r']|e]; cbn in *.
    + etrans; [apply IHo; lia|lia].
    + apply IHo. lia.
  - intros out ts Hf. cbn [decodeArray]. destruct ts as [|t ts]; [done|]. cbn [length] in Hf. specialize (IHv t ts).
    assert (Hgo : ends (t :: ts) ('(v, ts) ← decodeValue fuel t ts; decodeArray fuel (out ++ [v]) ts)).
    { destruct (decodeValue fuel t ts) as [[v r]|e]; cbn in *; [|apply IHv; lia].
      specialize (IHa (out ++ [v]) r). destruct (decodeArray fuel (out ++ [v]) r) as [[o r']|e]; cbn in *.
      - etrans; [apply IHa; lia|lia].
      - apply IHa. lia. }
    destruct t; try exact Hgo. cbn. lia.
Qed.

(** decoding always ends: on any tokens it returns a value or one of the
    decoder's errors, the fuel is never used up. *)
Theorem decode_terminates ts : DecodeValue ts <> Err EFuel.
Proof.
  unfold DecodeValue. destruct ts as [|t ts]; [done|]. destruct (decode_ends (S (2 * length (t :: ts)))) as (H & _).
  specialize (H t ts ltac:(cbn; lia)). destruct (decodeValue _ t ts) as [[v r]|e]; cbn in *; [by destruct r|congruence].
Qed.

Definition demo_doc : val := VObj [("a", VArr [VNum "1e3"; VNull]); ("b", VObj [("c", VBool true)])].

Lemma decode_roundtrip_witness : DecodeValue (tokens demo_doc) = Ok demo_doc.
Proof.
  apply (decode_roundtrip demo_doc). unfold demo_doc. constructor; [repeat constructor; set_solver|]. repeat constructor; set_solver.
Defined.
