(* ===== verification/PiModel.v ===== *)
(** * Messages, content blocks and session entries ([internal/pi/model])

    The data the transcript, context and compaction code passes around.  A Go
    interface value holds a struct or a pointer to one: [held] keeps the two
    forms apart, since a nil pointer passes type switches but panics when a
    method is called on it.  A slice is [None] when nil. *)

From S2P Require Import Prelude GoText.
From Stdlib Require Import Ascii.

Open Scope string_scope.
Open Scope list_scope.
Open Scope Z_scope.

(** ** Values of type [any]

    A JSON document as Go holds it, the members of a map in ascending order
    of their keys.  [AOpaque] is a value [json.Marshal] refuses. *)
Inductive any : Type :=
| ANil
| ABool (b : bool)
| AString (s : string)
| ANumber (literal : string)
| AList (l : list any)
| AMap (members : list (string * any))
| AOpaque.

Definition JsonObject : Type := option (list (string * any)).

(** [arguments[key].(string)]: the empty string when absent or another type. *)
Fixpoint member (l : list (string * any)) (key : string) : option any :=
  match l with
  | [] => None
  | (k, v) :: rest => if String.eqb k key then Some v else member rest key
  end.

Definition string_member (o : JsonObject) (key : string) : string :=
  match o ≫= fun l => member l key with Some (AString s) => s | _ => "" end.

(** ** Interface values *)

Inductive held (A : Type) : Type :=
| value (a : A)
| pointer (p : option A).
Arguments value {A} a.
Arguments pointer {A} p.

(** The struct behind the interface, [None] for a nil pointer. *)
Definition deref {A} (h : held A) : option A :=
  match h with value a => Some a | pointer p => p end.

(** ** Content blocks ([content.go]) *)

Record TextContent := { tc_Text : string; tc_TextSignature : string }.

Record ThinkingContent := {
  th_Thinking : string;
  th_ThinkingSignature : string;
  th_Redacted : bool;
}.

Record ImageContent := { im_Data : string; im_MimeType : string }.

Record ToolCall := {
  tl_ID : string;
  tl_Name : string;
  tl_Arguments : JsonObject;
  tl_ThoughtSignature : string;
  tl_Namespace : string;
}.

(** A block of the interface [Content]; [OtherBlock] is a type declared
    elsewhere that implements it, [NilBlock] the nil interface. *)
Inductive Content : Type :=
| Text (c : held TextContent)
| Thinking (c : held ThinkingContent)
| Image (c : held ImageContent)
| Call (c : held ToolCall)
| OtherBlock (id : nat)
| NilBlock.

Definition ContentList : Type := option (list Content).

(** The blocks a [range] visits. *)
Definition blocks (cl : ContentList) : list Content := default [] cl.

(** [append(list, blocks...)] on a list that starts out nil. *)
Definition appended (l : list Content) : ContentList := match l with [] => None | _ => Some l end.

Definition text_block (s : string) : Content :=
  Text (value {| tc_Text := s; tc_TextSignature := "" |}).

(** ** Usage ([usage.go]), less the dollar costs *)

Record Usage := {
  us_Input : Z;
  us_Output : Z;
  us_CacheRead : Z;
  us_CacheWrite : Z;
  us_CacheWrite1h : Z;
  us_Reasoning : Z;
  us_TotalTokens : Z;
}.

(** ** Messages ([message.go], [coding.go]) *)

Inductive StopReason :=
| StopPending | StopStop | StopLength | StopToolUse | StopError | StopAborted | StopDeferred
| StopOther (s : string).

Definition is_failed (r : StopReason) : bool :=
  match r with StopError | StopAborted => true | _ => false end.

Inductive Role :=
| RoleSystem | RoleUser | RoleAssistant | RoleToolResult
| RoleBashExecution | RoleCustom | RoleBranchSummary | RoleCompactionSummary
| RoleOther (s : string).

#[export] Instance Role_eq_dec : EqDecision Role.
Proof. solve_decision. Defined.

Record SystemSection := { ss_Name : string; ss_Value : option string }.

(** The parameter schema as the JSON document it is written as. *)
Record Tool := {
  to_Name : string;
  to_Description : string;
  to_Parameters : any;
  to_ConstrainedSampling : option any;
}.

Record SystemMessage := {
  sm_Content : ContentList;
  sm_Sections : list SystemSection;
  sm_ToolsAdded : list Tool;
  sm_ToolsRemoved : list string;
  sm_Timestamp : Z;
  sm_contentWasString : bool;
}.

Record UserMessage := {
  um_Content : ContentList;
  um_Timestamp : Z;
  um_contentWasString : bool;
}.

(** [am_Rest] holds the fields the modelled code only copies: response ids,
    thinking level, diagnostics, deferred handle, raw stop reason, end of
    turn. *)
Record AssistantMessage := {
  am_Content : ContentList;
  am_Api : string;
  am_Provider : string;
  am_Model : string;
  am_Usage : Usage;
  am_StopReason : StopReason;
  am_ErrorMessage : string;
  am_Timestamp : Z;
  am_Rest : any;
}.

Record ToolResultMessage := {
  tr_ToolCallID : string;
  tr_ToolName : string;
  tr_Content : ContentList;
  tr_Details : any;
  tr_Usage : option Usage;
  tr_IsError : bool;
  tr_Timestamp : Z;
}.

Record BashExecutionMessage := {
  be_Command : string;
  be_Output : string;
  be_ExitCode : option Z;
  be_Cancelled : bool;
  be_Truncated : bool;
  be_FullOutputPath : option string;
  be_Timestamp : Z;
  be_ExcludeFromContext : bool;
}.

Record CustomMessage := {
  cm_CustomType : string;
  cm_Content : ContentList;
  cm_Display : bool;
  cm_Details : any;
  cm_Timestamp : Z;
  cm_contentWasString : bool;
}.

Record BranchSummaryMessage := {
  bm_Summary : string;
  bm_FromID : option string;
  bm_Timestamp : Z;
}.

Record CompactionSummaryMessage := {
  sy_Summary : string;
  sy_TokensBefore : Z;
  sy_Timestamp : Z;
}.

(** [OtherMessage] is a type declared elsewhere, with the role its method
    answers. *)
Inductive Message : Type :=
| MSystem (m : held SystemMessage)
| MUser (m : held UserMessage)
| MAssistant (m : held AssistantMessage)
| MToolResult (m : held ToolResultMessage)
| MBashExecution (m : held BashExecutionMessage)
| MCustom (m : held CustomMessage)
| MBranchSummary (m : held BranchSummaryMessage)
| MCompactionSummary (m : held CompactionSummaryMessage)
| OtherMessage (role : Role) (id : nat)
| NilMessage.

(** [message.MessageRole()]: the methods have value receivers, so calling one
    through a nil pointer or a nil interface panics ([None]). *)
Definition role_of {A} (r : Role) (h : held A) : option Role := (fun _ => r) <$> deref h.

Definition MessageRole (message : Message) : option Role :=
  match message with
  | MSystem m => role_of RoleSystem m
  | MUser m => role_of RoleUser m
  | MAssistant m => role_of RoleAssistant m
  | MToolResult m => role_of RoleToolResult m
  | MBashExecution m => role_of RoleBashExecution m
  | MCustom m => role_of RoleCustom m
  | MBranchSummary m => role_of RoleBranchSummary m
  | MCompactionSummary m => role_of RoleCompactionSummary m
  | OtherMessage role _ => Some role
  | NilMessage => None
  end.

Definition systemMessageOf (message : Message) : option SystemMessage :=
  match message with MSystem m => deref m | _ => None end.

Definition userMessageOf (message : Message) : option UserMessage :=
  match message with MUser m => deref m | _ => None end.

Definition assistantMessageOf (message : Message) : option AssistantMessage :=
  match message with MAssistant m => deref m | _ => None end.

Definition toolResultMessageOf (message : Message) : option ToolResultMessage :=
  match message with MToolResult m => deref m | _ => None end.

(** [UserMessage.StringContent]: a pointer block does not count. *)
Definition StringContent (contentWasString : bool) (content : ContentList) : option string :=
  match content with
  | Some [Text (value t)] => if contentWasString then Some (tc_Text t) else None
  | _ => None
  end.

Definition um_StringContent (m : UserMessage) : option string :=
  StringContent (um_contentWasString m) (um_Content m).

Definition cm_StringContent (m : CustomMessage) : option string :=
  StringContent (cm_contentWasString m) (cm_Content m).

(** ** Text of content ([text.go]) *)

(** [ContentText]: the text blocks joined; pointer blocks are skipped. *)
Definition content_texts (content : ContentList) : list text :=
  omap (fun b => match b with Text (value t) => Some (lit (tc_Text t)) | _ => None end) (blocks content).

Definition ContentText (content : ContentList) (sep : string) : text :=
  join (lit sep) (content_texts content).

(** ** Clones ([CloneContent]): a pointer becomes the value it points at *)

Definition clone_held {A} (wrap : held A -> Content) (h : held A) : Content :=
  match deref h with Some a => wrap (value a) | None => NilBlock end.

Definition CloneContent (c : Content) : Content :=
  match c with
  | Text h => clone_held Text h
  | Thinking h => clone_held Thinking h
  | Image h => clone_held Image h
  | Call h => clone_held Call h
  | OtherBlock _ | NilBlock => c
  end.

Definition CloneContentList (cl : ContentList) : ContentList := map CloneContent <$> cl.
