(* ===== verification/TransformMessages.v ===== *)
(** * Replaying a transcript to a model ([internal/pi/wire/transformmessages.go])

    The first pass rewrites each message for the target model, the second
    inserts results for tool calls that have none.  [None] is the panic of
    [MessageRole] on a nil message. *)

From S2P Require Import Prelude GoText PiModel.

(** ** Definitions *)

Definition nonVisionUserImagePlaceholder : string := "(image omitted: model does not support images)".
Definition nonVisionToolImagePlaceholder : string := "(tool image omitted: model does not support images)".

(** The fields of [model.Model] the transformation reads. *)
Record Model := {
  md_ID : string;
  md_Api : string;
  md_Provider : string;
  md_Input : list string;
}.

(** *** Content of a message *)

Definition with_system_content (m : SystemMessage) (c : ContentList) : SystemMessage :=
  {| sm_Content := c; sm_Sections := sm_Sections m; sm_ToolsAdded := sm_ToolsAdded m;
     sm_ToolsRemoved := sm_ToolsRemoved m; sm_Timestamp := sm_Timestamp m;
     sm_contentWasString := sm_contentWasString m |}.

Definition with_user_content (m : UserMessage) (c : ContentList) : UserMessage :=
  {| um_Content := c; um_Timestamp := um_Timestamp m; um_contentWasString := um_contentWasString m |}.

Definition with_assistant_content (m : AssistantMessage) (c : ContentList) : AssistantMessage :=
  {| am_Content := c; am_Api := am_Api m; am_Provider := am_Provider m; am_Model := am_Model m;
     am_Usage := am_Usage m; am_StopReason := am_StopReason m; am_ErrorMessage := am_ErrorMessage m;
     am_Timestamp := am_Timestamp m; am_Rest := am_Rest m |}.

Definition with_result_content (m : ToolResultMessage) (c : ContentList) : ToolResultMessage :=
  {| tr_ToolCallID := tr_ToolCallID m; tr_ToolName := tr_ToolName m; tr_Content := c;
     tr_Details := tr_Details m; tr_Usage := tr_Usage m; tr_IsError := tr_IsError m;
     tr_Timestamp := tr_Timestamp m |}.

Definition with_result_id (m : ToolResultMessage) (id : string) : ToolResultMessage :=
  {| tr_ToolCallID := id; tr_ToolName := tr_ToolName m; tr_Content := tr_Content m;
     tr_Details := tr_Details m; tr_Usage := tr_Usage m; tr_IsError := tr_IsError m;
     tr_Timestamp := tr_Timestamp m |}.

Definition with_custom_content (m : CustomMessage) (c : ContentList) : CustomMessage :=
  {| cm_CustomType := cm_CustomType m; cm_Content := c; cm_Display := cm_Display m;
     cm_Details := cm_Details m; cm_Timestamp := cm_Timestamp m;
     cm_contentWasString := cm_contentWasString m |}.

(** [contentListOf]: the inner option is the nil slice, the outer the [ok]. *)
Definition contentListOf (message : Message) : option ContentList :=
  match message with
  | MSystem m => sm_Content <$> deref m
  | MUser m => um_Content <$> deref m
  | MAssistant m => am_Content <$> deref m
  | MToolResult m => tr_Content <$> deref m
  | MCustom m => cm_Content <$> deref m
  | _ => None
  end.

(** A pointer is replaced by a pointer to a changed copy. *)
Definition held_map {A} (f : A -> A) (h : held A) : held A :=
  match h with value a => value (f a) | pointer p => pointer (f <$> p) end.

Definition withContent (message : Message) (content : ContentList) : Message :=
  match message with
  | MSystem m => MSystem (held_map (fun m => with_system_content m content) m)
  | MUser m => MUser (held_map (fun m => with_user_content m content) m)
  | MAssistant m => MAssistant (held_map (fun m => with_assistant_content m content) m)
  | MToolResult m => MToolResult (held_map (fun m => with_result_content m content) m)
  | MCustom m => MCustom (held_map (fun m => with_custom_content m content) m)
  | _ => message
  end.

(** A copy: a pointer block becomes the block it points at. *)
Definition CloneMessage (m : Message) : Message :=
  match m with
  | MSystem h => MSystem (held_map (fun m => with_system_content m (CloneContentList (sm_Content m))) h)
  | MUser h => MUser (held_map (fun m => with_user_content m (CloneContentList (um_Content m))) h)
  | MAssistant h => MAssistant (held_map (fun m => with_assistant_content m (CloneContentList (am_Content m))) h)
  | MToolResult h => MToolResult (held_map (fun m => with_result_content m (CloneContentList (tr_Content m))) h)
  | MCustom h => MCustom (held_map (fun m => with_custom_content m (CloneContentList (cm_Content m))) h)
  | MBashExecution _ | MBranchSummary _ | MCompactionSummary _ | OtherMessage _ _ | NilMessage => m
  end.

Definition ensureMessageContent (message : Message) : Message :=
  match contentListOf message with
  | Some None => withContent message (Some [])
  | _ => message
  end.

(** *** Images *)

Definition is_image (b : Content) : bool :=
  match b with Image h => match deref h with Some _ => true | None => false end | _ => false end.

Definition is_placeholder (placeholder : string) (b : Content) : bool :=
  match b with
  | Text h => match deref h with Some t => String.eqb (tc_Text t) placeholder | None => false end
  | _ => false
  end.

Fixpoint replace_images (placeholder : string) (previousWasPlaceholder : bool) (content : list Content) : list Content :=
  match content with
  | [] => []
  | b :: rest =>
      if is_image b then
        (if previousWasPlaceholder then [] else [text_block placeholder]) ++ replace_images placeholder true rest
      else b :: replace_images placeholder (is_placeholder placeholder b) rest
  end.

Definition replaceImagesWithPlaceholder (content : ContentList) (placeholder : string) : ContentList :=
  Some (replace_images placeholder false (blocks content)).

Definition downgrade_message (message : Message) : option Message :=
  role ← MessageRole message;
  Some match role with
  | RoleUser =>
      match userMessageOf message with
      | None => message
      | Some user =>
          match um_StringContent user with
          | Some _ => message
          | None =>
              MUser (value (with_user_content user
                (replaceImagesWithPlaceholder (um_Content user) nonVisionUserImagePlaceholder)))
          end
      end
  | RoleToolResult =>
      match toolResultMessageOf message with
      | None => message
      | Some toolResult =>
          MToolResult (value (with_result_content toolResult
            (replaceImagesWithPlaceholder (tr_Content toolResult) nonVisionToolImagePlaceholder)))
      end
  | _ => message
  end.

Definition has_vision (m : Model) : bool := existsb (String.eqb "image") (md_Input m).

Definition downgradeUnsupportedImages (m : Model) (messages : list Message) : option (list Message) :=
  if has_vision m then Some messages else mapM downgrade_message messages.

(** *** First pass *)

Definition toolCallsOf (content : ContentList) : list ToolCall :=
  omap (fun b => match b with Call h => deref h | _ => None end) (blocks content).

(** [strings.TrimSpace(s) == ""] *)
Definition is_blank (s : string) : bool :=
  match trim_space (lit s) with [] => true | _ => false end.

(** [None] when the block is not kept. *)
Definition transformThinking (block : ThinkingContent) (isSameModel : bool) : option Content :=
  if th_Redacted block then
    if isSameModel then Some (Thinking (value block)) else None
  else if isSameModel && negb (String.eqb (th_ThinkingSignature block) "") then Some (Thinking (value block))
  else if is_blank (th_Thinking block) then None
  else if isSameModel then Some (Thinking (value block))
  else Some (text_block (th_Thinking block)).

Definition with_call (call : ToolCall) (id signature : string) : ToolCall :=
  {| tl_ID := id; tl_Name := tl_Name call; tl_Arguments := tl_Arguments call;
     tl_ThoughtSignature := signature; tl_Namespace := tl_Namespace call |}.

Section Transform.
(** The target model, the caller's [normalizeToolCallID] ([None] when nil)
    and the readings of the clock. *)
Variable m : Model.
Variable normalizeToolCallID : option (string -> Model -> AssistantMessage -> string).
Variable now : nat -> Z.

Definition transformToolCall (call : ToolCall) (isSameModel : bool) (source : AssistantMessage)
    (toolCallIDMap : gmap string string) : ToolCall * gmap string string :=
  let signature := if isSameModel then tl_ThoughtSignature call else "" in
  match normalizeToolCallID with
  | Some normalize =>
      if isSameModel then (with_call call (tl_ID call) signature, toolCallIDMap)
      else
        let normalizedID := normalize (tl_ID call) m source in
        if String.eqb normalizedID (tl_ID call) then (with_call call (tl_ID call) signature, toolCallIDMap)
        else (with_call call normalizedID signature, <[tl_ID call := normalizedID]> toolCallIDMap)
  | None => (with_call call (tl_ID call) signature, toolCallIDMap)
  end.

Fixpoint transform_blocks (isSameModel : bool) (source : AssistantMessage) (content : list Content)
    (toolCallIDMap : gmap string string) : list Content * gmap string string :=
  match content with
  | [] => ([], toolCallIDMap)
  | b :: rest =>
      match b with
      | Thinking h =>
          let '(out, ids) := transform_blocks isSameModel source rest toolCallIDMap in
          (match deref h ≫= fun b => transformThinking b isSameModel with
           | Some transformed => transformed :: out
           | None => out
           end, ids)
      | Call h =>
          match deref h with
          | None => transform_blocks isSameModel source rest toolCallIDMap
          | Some call =>
              let '(call, ids) := transformToolCall call isSameModel source toolCallIDMap in
              let '(out, ids) := transform_blocks isSameModel source rest ids in
              (Call (value call) :: out, ids)
          end
      | _ =>
          let '(out, ids) := transform_blocks isSameModel source rest toolCallIDMap in
          (b :: out, ids)
      end
  end.

Definition transformAssistantContent (content : ContentList) (isSameModel : bool) (source : AssistantMessage)
    (toolCallIDMap : gmap string string) : ContentList * gmap string string :=
  let '(out, ids) := transform_blocks isSameModel source (blocks content) toolCallIDMap in
  (appended out, ids).

Definition is_same_model (assistant : AssistantMessage) : bool :=
  String.eqb (am_Provider assistant) (md_Provider m) && String.eqb (am_Api assistant) (md_Api m) &&
  String.eqb (am_Model assistant) (md_ID m).

Definition transform_message (message : Message) (toolCallIDMap : gmap string string)
    : option (Message * gmap string string) :=
  role ← MessageRole message;
  Some match role with
  | RoleToolResult =>
      match toolResultMessageOf message with
      | None => (message, toolCallIDMap)
      | Some result =>
          match toolCallIDMap !! tr_ToolCallID result with
          | Some normalizedID =>
              if String.eqb normalizedID (tr_ToolCallID result) then (message, toolCallIDMap)
              else (MToolResult (value (with_result_id result normalizedID)), toolCallIDMap)
          | None => (message, toolCallIDMap)
          end
      end
  | RoleAssistant =>
      match assistantMessageOf message with
      | None => (message, toolCallIDMap)
      | Some assistant =>
          let '(content, ids) :=
            transformAssistantContent (am_Content assistant) (is_same_model assistant) assistant toolCallIDMap in
          (MAssistant (value (with_assistant_content assistant content)), ids)
      end
  | _ => (message, toolCallIDMap)
  end.

Fixpoint transform_all (messages : list Message) (toolCallIDMap : gmap string string) : option (list Message) :=
  match messages with
  | [] => Some []
  | message :: rest =>
      '(message, ids) ← transform_message message toolCallIDMap;
      rest ← transform_all rest ids;
      Some (message :: rest)
  end.

(** The messages before tool results are inserted. *)
Definition rewriteMessages (messages : list Message) : option (list Message) :=
  imageAware ← downgradeUnsupportedImages m (map ensureMessageContent messages);
  transform_all imageAware ∅.

(** *** Second pass *)

Record Pass := mkPass {
  ps_result : list Message;
  ps_pending : list ToolCall;
  ps_existing : gset string;
  ps_held : list Message;
  ps_ticks : nat;
}.

Definition push (s : Pass) (message : Message) : Pass :=
  mkPass (ps_result s ++ [message]) (ps_pending s) (ps_existing s) (ps_held s) (ps_ticks s).

Definition no_result (call : ToolCall) (timestamp : Z) : Message :=
  MToolResult (value {| tr_ToolCallID := tl_ID call; tr_ToolName := tl_Name call;
    tr_Content := Some [text_block "No result provided"]; tr_Details := ANil; tr_Usage := None;
    tr_IsError := true; tr_Timestamp := timestamp |}).

(** The results inserted for the calls without one, each reading the clock. *)
Fixpoint missing_results (existing : gset string) (calls : list ToolCall) (ticks : nat) : list Message * nat :=
  match calls with
  | [] => ([], ticks)
  | call :: rest =>
      if decide (tl_ID call ∈ existing) then missing_results existing rest ticks
      else
        let '(out, ticks') := missing_results existing rest (S ticks) in
        (no_result call (now ticks) :: out, ticks')
  end.

Definition closePendingToolCalls (s : Pass) : Pass :=
  match ps_pending s with
  | [] => mkPass (ps_result s ++ ps_held s) [] (ps_existing s) [] (ps_ticks s)
  | pending =>
      let '(out, ticks) := missing_results (ps_existing s) pending (ps_ticks s) in
      mkPass (ps_result s ++ out ++ ps_held s) [] ∅ [] ticks
  end.

Definition insert_step (s : Pass) (message : Message) : option Pass :=
  role ← MessageRole message;
  Some match role with
  | RoleAssistant =>
      let s := closePendingToolCalls s in
      match assistantMessageOf message with
      | None => push s message
      | Some assistant =>
          if is_failed (am_StopReason assistant) then s
          else
            match toolCallsOf (am_Content assistant) with
            | [] => push s message
            | calls => push (mkPass (ps_result s) calls ∅ (ps_held s) (ps_ticks s)) message
            end
      end
  | RoleToolResult =>
      match toolResultMessageOf message with
      | Some toolResult =>
          push (mkPass (ps_result s) (ps_pending s) ({[ tr_ToolCallID toolResult ]} ∪ ps_existing s)
                  (ps_held s) (ps_ticks s)) message
      | None => push s message
      end
  | RoleSystem =>
      match ps_pending s with
      | [] => push s message
      | _ => mkPass (ps_result s) (ps_pending s) (ps_existing s) (ps_held s ++ [message]) (ps_ticks s)
      end
  | RoleUser => push (closePendingToolCalls s) message
  | _ => push s message
  end.

Fixpoint insert_all (s : Pass) (messages : list Message) : option Pass :=
  match messages with
  | [] => Some (closePendingToolCalls s)
  | message :: rest => s ← insert_step s message; insert_all s rest
  end.

Definition insertResults (messages : list Message) : option (list Message) :=
  ps_result <$> insert_all (mkPass [] [] ∅ [] 0) messages.

Definition TransformMessages (messages : list Message) : option (list Message) :=
  rewriteMessages messages ≫= insertResults.
End Transform.
