(* ===== verification/TransformProps.v ===== *)
(** * What a replayed transcript guarantees

    Every tool call that is replayed has its result before the next user,
    assistant or system message; the pass loses no message but the failed
    turns; and a transcript whose calls are answered gets no result made up
    for it, whatever happens to the call ids on the way. *)

From S2P Require Import Prelude GoText PiModel TransformMessages.

(** ** Definitions *)

Definition has_role (r : Role) (message : Message) : bool := bool_decide (MessageRole message = Some r).

Definition is_turn (message : Message) : bool := has_role RoleUser message || has_role RoleAssistant message.

(** A turn of the model that ended in an error. *)
Definition is_failed_turn (message : Message) : bool :=
  match assistantMessageOf message with Some a => is_failed (am_StopReason a) | None => false end.

(** The calls that need a result: those of the turns that did not fail. *)
Definition calls_of (message : Message) : list ToolCall :=
  match assistantMessageOf message with
  | Some a => if is_failed (am_StopReason a) then [] else toolCallsOf (am_Content a)
  | None => []
  end.

Definition result_id (message : Message) : option string := tr_ToolCallID <$> toolResultMessageOf message.

(** A result for [id] comes before the next turn, and before the next system
    message when [strict]. *)
Fixpoint answers (strict : bool) (id : string) (l : list Message) : bool :=
  match l with
  | [] => false
  | x :: rest =>
      if is_turn x || (strict && has_role RoleSystem x) then false
      else bool_decide (result_id x = Some id) || answers strict id rest
  end.

(** Every call is answered. *)
Fixpoint answered (strict : bool) (l : list Message) : bool :=
  match l with
  | [] => true
  | x :: rest => forallb (fun c => answers strict (tl_ID c) rest) (calls_of x) && answered strict rest
  end.

(** The ids of all calls of a transcript, failed turns included. *)
Definition all_call_ids (l : list Message) : list string :=
  concat (map (fun x => match assistantMessageOf x with
                        | Some a => tl_ID <$> toolCallsOf (am_Content a)
                        | None => []
                        end) l).

#[global] Arguments all_call_ids : simpl never.

(** A block the model that wrote it gets back as it is. *)
Definition own_block (b : Content) : bool :=
  match b with
  | Thinking (value th) =>
      th_Redacted th || negb (String.eqb (th_ThinkingSignature th) "") || negb (is_blank (th_Thinking th))
  | Thinking (pointer _) | Call (pointer _) => false
  | _ => true
  end.

(** A message of the target model's own transcript: its own turns that did
    not fail, no nil content, and no image unless the model reads them. *)
Definition own_message (m : Model) (x : Message) : bool :=
  bool_decide (MessageRole x <> None) &&
  match x with
  | MUser (value u) =>
      match um_Content u with Some l => has_vision m || negb (existsb is_image l) | None => false end
  | MToolResult (value t) =>
      match tr_Content t with Some l => has_vision m || negb (existsb is_image l) | None => false end
  | MAssistant (value a) =>
      is_same_model m a && match am_Content a with Some (_ :: _) => true | _ => false end &&
      forallb own_block (blocks (am_Content a)) && negb (is_failed (am_StopReason a))
  | MUser (pointer _) | MToolResult (pointer _) | MAssistant (pointer _) => false
  | _ => match contentListOf x with Some None => false | _ => true end
  end.

(** After a turn with calls, system messages come last before the next turn:
    [pending] says the turn had calls, [sys] that a system message passed. *)
Fixpoint settled (pending sys : bool) (l : list Message) : bool :=
  match l with
  | [] => true
  | x :: rest =>
      if has_role RoleSystem x then settled pending pending rest
      else if is_turn x then settled (match calls_of x with [] => false | _ => true end) false rest
      else negb sys && settled pending sys rest
  end.

(** Neither a system message nor a tool result. *)
Definition conversational (x : Message) : bool := negb (has_role RoleSystem x) && negb (has_role RoleToolResult x).

Definition content_has_image (content : ContentList) : bool := existsb is_image (blocks content).

(** A user message or tool result with an image. *)
Definition shows_image (x : Message) : bool :=
  match userMessageOf x, toolResultMessageOf x with
  | Some u, _ => content_has_image (um_Content u)
  | None, Some r => content_has_image (tr_Content r)
  | None, None => false
  end.

(** *** A small transcript *)

Definition no_usage : Usage :=
  {| us_Input := 0; us_Output := 0; us_CacheRead := 0; us_CacheWrite := 0; us_CacheWrite1h := 0;
     us_Reasoning := 0; us_TotalTokens := 0 |}.

Definition demo_user (s : string) : Message :=
  MUser (value {| um_Content := Some [text_block s; Image (value {| im_Data := "AA"; im_MimeType := "image/png" |})];
                  um_Timestamp := 1; um_contentWasString := false |}).

Definition demo_call (id : string) : Content :=
  Call (value {| tl_ID := id; tl_Name := "read"; tl_Arguments := None; tl_ThoughtSignature := "sig"; tl_Namespace := "" |}).

Definition demo_turn (model : string) (r : StopReason) (ids : list string) : AssistantMessage :=
  {| am_Content := Some (text_block "reading" :: map demo_call ids); am_Api := "api"; am_Provider := "p";
     am_Model := model; am_Usage := no_usage; am_StopReason := r; am_ErrorMessage := ""; am_Timestamp := 2; am_Rest := ANil |}.

Definition demo_assistant (model : string) (r : StopReason) (ids : list string) : Message :=
  MAssistant (value (demo_turn model r ids)).

Definition demo_result (id : string) : Message :=
  MToolResult (value {| tr_ToolCallID := id; tr_ToolName := "read"; tr_Content := Some [text_block "file"];
                        tr_Details := ANil; tr_Usage := None; tr_IsError := false; tr_Timestamp := 3 |}).

Definition demo_system : Message :=
  MSystem (value {| sm_Content := Some [text_block "rules"]; sm_Sections := []; sm_ToolsAdded := [];
                    sm_ToolsRemoved := []; sm_Timestamp := 0; sm_contentWasString := true |}).

Definition demo_model : Model := {| md_ID := "m"; md_Api := "api"; md_Provider := "p"; md_Input := ["text"] |}.

(** Drops the part of an id after a bar. *)
Definition demo_normalize (id : string) (_ : Model) (_ : AssistantMessage) : string :=
  match String.index 0 "|" id with Some n => String.substring 0 n id | None => id end.

Definition demo_clock (k : nat) : Z := Z.of_nat k.

(** Two calls of another model, one answered, with a system message between. *)
Definition demo_transcript : list Message :=
  [demo_user "hi"; demo_assistant "other" StopToolUse ["a|1"; "b|2"]; demo_system; demo_result "a|1";
   demo_assistant "m" StopAborted []; demo_user "go on"].

Definition demo_answered : list Message :=
  [demo_user "hi"; demo_assistant "other" StopToolUse ["a|1"; "b|2"]; demo_system; demo_result "b|2"; demo_result "a|1"].

Definition demo_own : list Message :=
  [demo_system; demo_assistant "m" StopToolUse ["a"]; demo_result "a"; demo_system; demo_assistant "m" StopStop ["b"]; demo_result "b"].

(** ** Roles *)

Lemma has_role_spec r x : has_role r x = true <-> MessageRole x = Some r.
Proof. apply bool_decide_eq_true. Qed.

Lemma has_role_ne r s x : MessageRole x = Some s -> r <> s -> has_role r x = false.
Proof. intros E Hne. apply bool_decide_eq_false. congruence. Qed.

Lemma assistant_role x a : assistantMessageOf x = Some a -> MessageRole x = Some RoleAssistant.
Proof. destruct x as [| |h| | | | | | |]; try discriminate. destruct h as [|[|]]; naive_solver. Qed.

Lemma result_role x r : toolResultMessageOf x = Some r -> MessageRole x = Some RoleToolResult.
Proof. destruct x as [| | |h| | | | | |]; try discriminate. destruct h as [|[|]]; naive_solver. Qed.

Lemma calls_role x : MessageRole x <> Some RoleAssistant -> calls_of x = [].
Proof. unfold calls_of. intros H. destruct (assistantMessageOf x) eqn:E; [|done]. by apply assistant_role in E. Qed.

Lemma result_not_turn x id : result_id x = Some id -> is_turn x = false /\ has_role RoleSystem x = false.
Proof.
  unfold result_id, is_turn. intros H. destruct (toolResultMessageOf x) as [r|] eqn:E; [|discriminate].
  apply result_role in E. by rewrite !(has_role_ne _ _ _ E).
Qed.

(** ** Answers *)

Definition quiet (strict : bool) (x : Message) : bool := negb (is_turn x || (strict && has_role RoleSystem x)).

Lemma answers_app_l strict id l l' : answers strict id l = true -> answers strict id (l ++ l') = true.
Proof.
  induction l as [|x l IH]; [discriminate|]. cbn [answers app]. case_match; [discriminate|].
  rewrite !orb_true_iff. naive_solver.
Qed.

Lemma answers_skip strict id l l' :
  forallb (quiet strict) l = true -> answers strict id l' = true -> answers strict id (l ++ l') = true.
Proof.
  intros Hq H. induction l as [|x l IH]; [done|]. cbn [forallb] in Hq. apply andb_true_iff in Hq as [Hx Hq].
  unfold quiet in Hx. apply negb_true_iff in Hx. cbn [answers app]. rewrite Hx, IH by done. apply orb_true_r.
Qed.

Lemma answers_here strict id l x :
  x ∈ l -> result_id x = Some id -> forallb (quiet strict) l = true -> answers strict id l = true.
Proof.
  intros (l1 & l2 & ->)%list_elem_of_split Hid Hq. rewrite forallb_app in Hq. apply andb_true_iff in Hq as [H1 _].
  apply answers_skip; [done|]. cbn [answers]. destruct (result_not_turn _ _ Hid) as [-> ->].
  rewrite andb_false_r. cbn [orb]. by rewrite bool_decide_eq_true_2.
Qed.

Lemma answered_app strict l l' : answered strict l = true -> answered strict l' = true -> answered strict (l ++ l') = true.
Proof.
  induction l as [|x l IH]; [done|]. cbn [answered app]. rewrite !andb_true_iff. intros [Hc Hl] Hl'. split; [|auto].
  apply forallb_forall. intros c Hin. rewrite forallb_forall in Hc. by apply answers_app_l, Hc.
Qed.

Lemma answered_no_calls strict l : (forall x, x ∈ l -> calls_of x = []) -> answered strict l = true.
Proof.
  induction l as [|x l IH]; [done|]. intros H. cbn [answered]. rewrite (H x) by set_solver. cbn. apply IH. set_solver.
Qed.

(** ** Results made up for missing ones *)

Lemma missing_results_mem now existing calls ticks x :
  x ∈ (missing_results now existing calls ticks).1 -> exists c t, x = no_result c t /\ c ∈ calls.
Proof.
  revert ticks. induction calls as [|c calls IH]; intros ticks H; [set_solver|].
  cbn [missing_results] in H. case_decide.
  - destruct (IH _ H) as (c' & t & -> & ?). exists c', t. split; [done|set_solver].
  - destruct (missing_results _ _ _ _) as [out t'] eqn:E. cbn in H.
    apply elem_of_cons in H as [->|H]; [exists c, (now ticks); set_solver|].
    assert (x ∈ (missing_results now existing calls (S ticks)).1) as H' by (by rewrite E).
    destruct (IH _ H') as (c' & t & -> & ?). exists c', t. split; [done|set_solver].
Qed.

Lemma missing_results_cover now existing calls ticks c :
  c ∈ calls -> tl_ID c ∈ existing \/ exists t, no_result c t ∈ (missing_results now existing calls ticks).1.
Proof.
  revert ticks. induction calls as [|c' calls IH]; intros ticks H; [set_solver|].
  cbn [missing_results]. case_decide as Hd.
  - apply elem_of_cons in H as [->|H]; [by left|]. auto.
  - apply elem_of_cons in H as [->|H].
    + right. exists (now ticks). destruct (missing_results _ _ _ _). cbn. left.
    + destruct (IH (S ticks) H) as [?|[t Ht]]; [by left|right]. exists t.
      destruct (missing_results _ _ _ _). cbn in *. by right.
Qed.

Lemma missing_results_none now existing calls ticks :
  (forall c, c ∈ calls -> tl_ID c ∈ existing) -> (missing_results now existing calls ticks).1 = [].
Proof.
  intros H. induction calls as [|c calls IH]; [done|]. cbn [missing_results].
  rewrite decide_True by (apply H; set_solver). apply IH. set_solver.
Qed.

(** ** The invariant of the second pass *)

Record pass_inv (s : Pass) : Prop := {
  pi_held : Forall (fun x => MessageRole x = Some RoleSystem) (ps_held s);
  pi_done : ps_pending s = [] -> answered true (ps_result s) = true /\ ps_held s = [];
  pi_open : ps_pending s <> [] ->
    exists pre a mid, ps_result s = pre ++ a :: mid /\ answered true pre = true /\
      calls_of a = ps_pending s /\ forallb (quiet true) mid = true /\
      (forall id, id ∈ ps_existing s -> exists x, x ∈ mid /\ result_id x = Some id);
}.

Lemma quiet_no_calls strict x : quiet strict x = true -> calls_of x = [].
Proof.
  unfold quiet, is_turn. intros H. apply calls_role. intros E. revert H.
  rewrite (proj2 (has_role_spec _ _) E), orb_true_r. done.
Qed.

Lemma result_quiet x id : result_id x = Some id -> quiet true x = true.
Proof. intros H. unfold quiet. destruct (result_not_turn _ _ H) as [-> ->]. done. Qed.

Lemma system_no_calls x : MessageRole x = Some RoleSystem -> calls_of x = [].
Proof. intros E. apply calls_role. congruence. Qed.

Lemma close_answered now s : pass_inv s -> answered true (ps_result (closePendingToolCalls now s)) = true.
Proof.
  intros [Hheld Hdone Hopen]. rewrite Forall_forall in Hheld. unfold closePendingToolCalls.
  destruct (ps_pending s) as [|c0 P0].
  - destruct (Hdone eq_refl) as [Ha ->]. cbn. by rewrite app_nil_r.
  - clear Hdone. destruct (Hopen ltac:(discriminate)) as (pre & a & mid & -> & Hpre & Ha & Hq & Hex).
    revert Ha. generalize (c0 :: P0). intros P Ha.
    rewrite (surjective_pairing (missing_results now (ps_existing s) P (ps_ticks s))).
    cbn [ps_result]. rewrite <- app_assoc. cbn [app]. apply answered_app; [done|]. cbn [answered].
    rewrite forallb_forall in Hq. apply andb_true_iff. split.
    + apply forallb_forall. intros c Hc%list_elem_of_In. rewrite Ha in Hc.
      destruct (missing_results_cover now (ps_existing s) _ (ps_ticks s) c Hc) as [Hin|[t Ht]].
      * destruct (Hex _ Hin) as (x & Hx & Hid). apply answers_app_l.
        eapply answers_here; [done..|]. by apply forallb_forall.
      * rewrite app_assoc. apply answers_app_l. apply (answers_here _ _ _ (no_result c t)); [|done|].
        -- apply elem_of_app. by right.
        -- apply forallb_forall. intros x [Hx|Hx]%in_app_or; [auto|].
           apply list_elem_of_In, missing_results_mem in Hx as (? & ? & -> & _). by eapply result_quiet.
    + apply answered_no_calls. intros x. rewrite !elem_of_app. intros [Hx|[Hx|Hx]].
      * apply (quiet_no_calls true). apply Hq. by apply list_elem_of_In.
      * apply missing_results_mem in Hx as (? & ? & -> & _). done.
      * apply system_no_calls. auto.
Qed.

Lemma close_inv now s : pass_inv s -> pass_inv (closePendingToolCalls now s) /\ ps_pending (closePendingToolCalls now s) = [].
Proof.
  intros H. pose proof (close_answered now s H) as Ha.
  assert (ps_pending (closePendingToolCalls now s) = [] /\ ps_held (closePendingToolCalls now s) = []) as [Hp Hh].
  { unfold closePendingToolCalls. destruct (ps_pending s); [done|]. by destruct (missing_results _ _ _ _). }
  split; [|done]. split; [by rewrite Hh|auto|by rewrite Hp].
Qed.

(** Appending a message that asks for no result and ends no segment. *)
Lemma push_quiet s x : pass_inv s -> quiet true x = true -> pass_inv (push s x).
Proof.
  intros [Hheld Hdone Hopen] Hx. split; cbn [push ps_held ps_pending ps_result ps_existing]; [done| |].
  - intros E. destruct (Hdone E) as [Ha Hh]. split; [|done]. apply answered_app; [done|].
    cbn. rewrite (quiet_no_calls true x Hx). done.
  - intros E. destruct (Hopen E) as (pre & a & mid & -> & ? & ? & Hq & Hex).
    exists pre, a, (mid ++ [x]). rewrite <- app_assoc. split_and!; try done.
    + rewrite forallb_app, Hq. cbn. by rewrite Hx.
    + intros id Hid. destruct (Hex id Hid) as (y & ? & ?). exists y. set_solver.
Qed.

Lemma push_no_calls s x : pass_inv s -> ps_pending s = [] -> calls_of x = [] -> pass_inv (push s x).
Proof.
  intros [Hheld Hdone Hopen] E Hx. destruct (Hdone E) as [Ha Hh].
  split; cbn [push ps_held ps_pending ps_result]; [done| |by rewrite E].
  intros _. split; [|done]. apply answered_app; [done|]. cbn. by rewrite Hx.
Qed.

Lemma quiet_other x r :
  MessageRole x = Some r -> r <> RoleUser -> r <> RoleAssistant -> r <> RoleSystem -> quiet true x = true.
Proof. intros E ???. unfold quiet, is_turn. by rewrite !(has_role_ne _ _ _ E) by done. Qed.

Lemma push_result s x id :
  pass_inv s -> result_id x = Some id ->
  pass_inv (push (mkPass (ps_result s) (ps_pending s) ({[ id ]} ∪ ps_existing s) (ps_held s) (ps_ticks s)) x).
Proof.
  intros Hs Hid. destruct (push_quiet s x Hs (result_quiet _ _ Hid)) as [Hh Hd Ho].
  split; cbn [push ps_held ps_pending ps_result ps_existing] in *; [done..|].
  intros E. destruct Hs as [_ _ Hopen]. destruct (Hopen E) as (pre & a & mid & EQ & ? & ? & Hq & Hex).
  exists pre, a, (mid ++ [x]). rewrite EQ, <- app_assoc. split_and!; try done.
  - rewrite forallb_app, Hq. cbn. by rewrite (result_quiet x id).
  - intros id'. rewrite elem_of_union, elem_of_singleton. intros [->|Hid'].
    + exists x. set_solver.
    + destruct (Hex id' Hid') as (y & ? & ?). exists y. set_solver.
Qed.

Lemma hold_system s x :
  pass_inv s -> ps_pending s <> [] -> MessageRole x = Some RoleSystem ->
  pass_inv (mkPass (ps_result s) (ps_pending s) (ps_existing s) (ps_held s ++ [x]) (ps_ticks s)).
Proof.
  intros [Hheld Hdone Hopen] Hp Hx. split; cbn; [|done|done]. apply Forall_app. split; [done|]. by constructor.
Qed.

Lemma push_assistant s x a :
  pass_inv s -> ps_pending s = [] -> assistantMessageOf x = Some a -> is_failed (am_StopReason a) = false ->
  toolCallsOf (am_Content a) <> [] ->
  pass_inv (push (mkPass (ps_result s) (toolCallsOf (am_Content a)) ∅ (ps_held s) (ps_ticks s)) x).
Proof.
  intros [Hheld Hdone _] Hp Hx Hf Hc. destruct (Hdone Hp) as [Ha Hh].
  split; cbn; [done|done|]. intros _. exists (ps_result s), x, []. split_and!; try done.
  unfold calls_of. by rewrite Hx, Hf.
Qed.

Lemma insert_step_inv now s x s' : insert_step now s x = Some s' -> pass_inv s -> pass_inv s'.
Proof.
  intros H Hs. unfold insert_step in H. destruct (MessageRole x) as [r|] eqn:Er; [|discriminate].
  cbn in H. injection H as <-. pose proof (close_inv now s Hs) as [Hc Hp].
  destruct r; try (apply push_quiet; [done|]; by eapply quiet_other).
  - destruct (ps_pending s) eqn:E; [|rewrite <- E; apply hold_system; congruence].
    apply push_no_calls; [done..|]. by apply system_no_calls.
  - apply push_no_calls; [done..|]. apply calls_role. congruence.
  - destruct (assistantMessageOf x) as [a|] eqn:Ea.
    + destruct (is_failed (am_StopReason a)) eqn:Ef; [done|].
      destruct (toolCallsOf (am_Content a)) eqn:Ec.
      * apply push_no_calls; [done..|]. unfold calls_of. by rewrite Ea, Ef.
      * rewrite <- Ec. apply push_assistant; [done..|congruence].
    + apply push_no_calls; [done..|]. unfold calls_of. by rewrite Ea.
  - destruct (toolResultMessageOf x) as [t|] eqn:Et.
    + apply push_result; [done|]. unfold result_id. by rewrite Et.
    + apply push_quiet; [done|]. by eapply quiet_other.
Qed.

Lemma insert_all_answered now s l s' : insert_all now s l = Some s' -> pass_inv s -> answered true (ps_result s') = true.
Proof.
  revert s. induction l as [|x l IH]; intros s H Hs; cbn [insert_all] in H.
  - injection H as <-. by apply close_answered.
  - apply bind_Some in H as (s1 & H1 & H2). eapply IH; [done|]. by eapply insert_step_inv.
Qed.

Lemma pass_start : pass_inv (mkPass [] [] ∅ [] 0).
Proof. split; cbn; [done|done|done]. Qed.

(** ** Rewriting keeps roles, calls and result ids *)

(** What the second pass looks at, apart from the ids. *)
Definition same_kind (x y : Message) : Prop :=
  MessageRole y = MessageRole x /\ is_failed_turn y = is_failed_turn x /\
  (result_id y = None <-> result_id x = None).

Record same_shape (x y : Message) : Prop := {
  sh_role : MessageRole y = MessageRole x;
  sh_failed : is_failed_turn y = is_failed_turn x;
  sh_calls : all_call_ids [y] = all_call_ids [x];
  sh_result : result_id y = result_id x;
  sh_obliged : calls_of y = calls_of x;
}.

Lemma ensure_shape x : same_shape x (ensureMessageContent x).
Proof.
  unfold ensureMessageContent. destruct (contentListOf x) as [[c|]|] eqn:E; try (split; done).
  destruct x as [h|h|h|h|h|h|h|h|r i|]; cbn in E; try discriminate; destruct h as [m|[m|]]; try discriminate;
    destruct m; cbn in E; injection E as ->; split; done.
Qed.

Lemma downgrade_shape x y : downgrade_message x = Some y -> same_shape x y.
Proof.
  unfold downgrade_message. destruct (MessageRole x) as [r|] eqn:Er; [|discriminate].
  cbn. intros [= <-]. destruct r; try (split; done).
  - destruct (userMessageOf x) as [u|] eqn:E; [|split; done]. case_match; [split; done|].
    destruct x as [h|h|h|h|h|h|h|h|r i|]; try discriminate; destruct h as [m|[m|]]; try discriminate; split; done.
  - destruct (toolResultMessageOf x) as [u|] eqn:E; [|split; done].
    destruct x as [h|h|h|h|h|h|h|h|r i|]; try discriminate; destruct h as [m|[m|]]; try discriminate;
      injection E as ->; split; done.
Qed.

Lemma shape_trans x y z : same_shape x y -> same_shape y z -> same_shape x z.
Proof. intros [] []. split; congruence. Qed.

Lemma prepared_shape m msgs l :
  downgradeUnsupportedImages m (map ensureMessageContent msgs) = Some l -> Forall2 same_shape msgs l.
Proof.
  unfold downgradeUnsupportedImages. destruct (has_vision m).
  - intros [= <-]. induction msgs; cbn; constructor; auto using ensure_shape.
  - intros H%mapM_Some. revert H. generalize l. induction msgs as [|x msgs IH]; intros l' H; inversion H; subst; constructor.
    + eapply shape_trans; [apply ensure_shape|]. by apply downgrade_shape.
    + by apply IH.
Qed.

Lemma same_has_role r x y : MessageRole y = MessageRole x -> has_role r y = has_role r x.
Proof. unfold has_role. by intros ->. Qed.

Lemma shape_answers strict id l l' : Forall2 same_shape l l' -> answers strict id l' = answers strict id l.
Proof.
  induction 1 as [|x y l l' [Hr Hf Hc Hi Ho] _ IH]; [done|]. cbn [answers]. unfold is_turn.
  by rewrite !(same_has_role _ _ _ Hr), Hi, IH.
Qed.

Lemma shape_answered strict l l' : Forall2 same_shape l l' -> answered strict l' = answered strict l.
Proof.
  induction 1 as [|x y l l' [Hr Hf Hc Hi Ho] Hl IH]; [done|]. cbn [answered]. rewrite Ho, IH. f_equal.
  generalize (calls_of x). intros L. induction L as [|c L IHL]; [done|]. cbn. by rewrite IHL, (shape_answers _ _ _ _ Hl).
Qed.

Lemma all_call_ids_cons x l : all_call_ids (x :: l) = all_call_ids [x] ++ all_call_ids l.
Proof. unfold all_call_ids. cbn. by rewrite app_nil_r. Qed.

Lemma shape_call_ids l l' : Forall2 same_shape l l' -> all_call_ids l' = all_call_ids l.
Proof.
  induction 1 as [|x y l l' [] _ IH]; [done|]. rewrite (all_call_ids_cons x), (all_call_ids_cons y). congruence.
Qed.

(** ** Renaming of call ids *)

Definition rename (ids : gmap string string) (id : string) : string := default id (ids !! id).

(** The renaming from [ids] to [ids'] made by calls with the ids [new]. *)
Definition extends (new : list string) (ids ids' : gmap string string) : Prop :=
  (forall id, id ∉ new -> ids' !! id = ids !! id).

Lemma extends_refl new ids : extends new ids ids.
Proof. by intros id. Qed.

Lemma extends_trans n1 n2 a b c : extends n1 a b -> extends n2 b c -> extends (n1 ++ n2) a c.
Proof. intros H1 H2 id Hid. rewrite H2, H1; set_solver. Qed.

Lemma transformToolCall_spec m norm call same src ids call' ids' :
  transformToolCall m norm call same src ids = (call', ids') ->
  extends [tl_ID call] ids ids' /\ (ids !! tl_ID call = None -> tl_ID call' = rename ids' (tl_ID call)).
Proof.
  unfold transformToolCall, rename. intros H.
  repeat case_match; injection H as <- <-; split; try apply extends_refl; cbn; try (by intros ->).
  - intros id Hid. apply lookup_insert_ne. set_solver.
  - intros _. by rewrite lookup_insert_eq.
Qed.

Definition block_calls (l : list Content) : list ToolCall := toolCallsOf (Some l).

Lemma block_calls_cons b l :
  block_calls (b :: l) = match b with Call h => match deref h with Some c => [c] | None => [] end | _ => [] end ++ block_calls l.
Proof. unfold block_calls, toolCallsOf. cbn. destruct b; cbn; try done. by destruct (deref c). Qed.

Lemma rename_extends new ids ids' id : extends new ids ids' -> id ∉ new -> rename ids' id = rename ids id.
Proof. unfold rename. intros H Hid. by rewrite H. Qed.

Lemma transformThinking_calls b same c : transformThinking b same = Some c -> block_calls [c] = [].
Proof. unfold transformThinking. intros H. repeat case_match; simplify_eq; done. Qed.

Lemma transform_blocks_spec m norm same src content ids out ids' :
  transform_blocks m norm same src content ids = (out, ids') ->
  extends (tl_ID <$> block_calls content) ids ids' /\
  (NoDup (tl_ID <$> block_calls content) ->
   (forall id, id ∈ (tl_ID <$> block_calls content) -> ids !! id = None) ->
   tl_ID <$> block_calls out = rename ids' <$> (tl_ID <$> block_calls content)).
Proof.
  revert ids out. induction content as [|b content IH]; intros ids out H.
  - injection H as <- <-. split; [apply extends_refl|done].
  - rewrite block_calls_cons.
    assert (forall c, block_calls [c] = [] -> forall l, block_calls (c :: l) = block_calls l) as Hskip.
    { intros c Hc l. rewrite block_calls_cons in *. cbn in Hc. rewrite app_nil_r in Hc. by rewrite Hc. }
    cbn [transform_blocks] in H.
    destruct b as [h|h|h|h|k|]; cbn [app].
    4: {
      destruct (deref h) as [call|]; cbn [app]; [|by apply IH].
      destruct (transformToolCall m norm call same src ids) as [call' ids1] eqn:E1.
      apply transformToolCall_spec in E1 as [He1 Hn1].
      destruct (transform_blocks m norm same src content ids1) as [out0 ids0] eqn:E0.
      injection H as <- <-. apply IH in E0 as [He Hn].
      rewrite !fmap_cons. split; [by apply (extends_trans [tl_ID call] _ _ ids1)|].
      intros Hnd Hfr. apply NoDup_cons in Hnd as [Hnin Hnd]. rewrite block_calls_cons. cbn [deref app].
      rewrite !fmap_cons, Hn; [|done|].
      - f_equal. rewrite Hn1 by (apply Hfr; set_solver). symmetry. by eapply rename_extends.
      - intros id Hid. rewrite He1 by set_solver. apply Hfr. set_solver. }
    all: destruct (transform_blocks m norm same src content ids) as [out0 ids0] eqn:E0;
      injection H as <- <-; apply IH in E0 as [He Hn]; try (split; [done|exact Hn]).
    split; [done|]. intros Hnd Hfr. rewrite <- Hn by done.
    destruct (deref h ≫= _) as [c|] eqn:Ec; [|done]. apply bind_Some in Ec as (th & _ & Ec).
    by rewrite (Hskip c) by (by apply (transformThinking_calls th same)).
Qed.

Lemma toolCallsOf_appended l : toolCallsOf (appended l) = block_calls l.
Proof. by destruct l. Qed.

Lemma toolCallsOf_blocks c : block_calls (blocks c) = toolCallsOf c.
Proof. by destruct c. Qed.

Lemma all_call_ids_one x a : assistantMessageOf x = Some a -> all_call_ids [x] = tl_ID <$> toolCallsOf (am_Content a).
Proof. unfold all_call_ids. cbn. intros ->. by rewrite app_nil_r. Qed.

(** One message of the first pass. *)
Lemma transform_message_spec m norm x ids y ids' :
  transform_message m norm x ids = Some (y, ids') ->
  MessageRole y = MessageRole x /\ is_failed_turn y = is_failed_turn x /\
  result_id y = rename ids <$> result_id x /\
  extends (all_call_ids [x]) ids ids' /\ (is_turn x = false -> ids' = ids) /\
  (NoDup (all_call_ids [x]) -> (forall id, id ∈ all_call_ids [x] -> ids !! id = None) ->
   tl_ID <$> calls_of y = rename ids' <$> (tl_ID <$> calls_of x)).
Proof.
  unfold transform_message. destruct (MessageRole x) as [r|] eqn:Er; [|discriminate]. cbn. intros [= H].
  assert (forall id, rename ids id = id \/ exists n, ids !! id = Some n /\ rename ids id = n /\ n <> id) as Hren.
  { intros id. unfold rename. destruct (ids !! id) as [n|]; [|by left]. cbn.
    destruct (decide (n = id)); [by left|]. right. eauto. }
  destruct (assistantMessageOf x) as [a|] eqn:Ea.
  - pose proof (assistant_role _ _ Ea) as Er'. rewrite Er in Er'. injection Er' as ->.
    unfold transformAssistantContent in H.
    destruct (transform_blocks m norm (is_same_model m a) a (blocks (am_Content a)) ids) as [out ids1] eqn:E.
    injection H as <- <-. apply transform_blocks_spec in E as [He Hn]. rewrite toolCallsOf_blocks in *.
    rewrite (all_call_ids_one _ _ Ea). unfold is_failed_turn, result_id, calls_of. rewrite Ea.
    cbn [assistantMessageOf deref toolResultMessageOf with_assistant_content am_StopReason am_Content].
    assert (toolResultMessageOf x = None) as ->.
    { destruct (toolResultMessageOf x) eqn:Et; [|done]. apply result_role in Et. congruence. }
    split_and!; try done.
    + unfold is_turn. rewrite (proj2 (has_role_spec RoleAssistant x) Er), orb_true_r. done.
    + intros Hnd Hfr. destruct (is_failed (am_StopReason a)); [done|]. rewrite toolCallsOf_appended. auto.
  - assert (calls_of x = []) as Hc by (unfold calls_of; by rewrite Ea).
    assert (is_failed_turn x = false) as Hf by (unfold is_failed_turn; by rewrite Ea).
    destruct (toolResultMessageOf x) as [t|] eqn:Et.
    + pose proof (result_role _ _ Et) as Er'. rewrite Er in Er'. injection Er' as ->.
      assert (ids' = ids) as -> by (repeat case_match; congruence).
      unfold result_id. rewrite Et, Hf, Hc. cbn.
      assert (rename ids (tr_ToolCallID t) = tr_ToolCallID t /\ y = x \/
              y = MToolResult (value (with_result_id t (rename ids (tr_ToolCallID t))))) as [[-> ->]| ->].
      { unfold rename. destruct (ids !! tr_ToolCallID t) as [n|]; [|left; split; [done|congruence]].
        destruct (String.eqb_spec n (tr_ToolCallID t)); [left|right]; cbn; [split; congruence|congruence]. }
      * rewrite Et, Hc. split_and!; done.
      * split_and!; done.
    + assert (y = x /\ ids' = ids) as [-> ->].
      { destruct r; split; congruence. }
      unfold result_id. rewrite Et, Hc. split_and!; done.
Qed.

Lemma transform_all_answers m norm l ids l' id :
  transform_all m norm l ids = Some l' -> answers false id l = true -> answers false (rename ids id) l' = true.
Proof.
  revert ids l'. induction l as [|x l IH]; intros ids l' H Ha; [discriminate|]. cbn [transform_all] in H.
  apply bind_Some in H as ([y ids1] & H1 & H). apply bind_Some in H as (l1 & H2 & [= <-]).
  apply transform_message_spec in H1 as (Hr & _ & Hid & _ & Hids & _).
  cbn [answers] in Ha |- *. rewrite andb_false_l, orb_false_r in *. unfold is_turn in *.
  rewrite !(same_has_role _ _ _ Hr). case_match eqn:Et; [discriminate|].
  rewrite (Hids eq_refl) in H2. apply orb_true_iff in Ha as [Ha|Ha].
  - apply bool_decide_eq_true in Ha. rewrite Hid, Ha. cbn. by rewrite bool_decide_eq_true_2.
  - rewrite (IH _ _ H2 Ha). apply orb_true_r.
Qed.

Lemma calls_of_ids x id : id ∈ (tl_ID <$> calls_of x) -> id ∈ all_call_ids [x].
Proof.
  unfold calls_of. destruct (assistantMessageOf x) as [a|] eqn:E; [|intros H; inversion H].
  rewrite (all_call_ids_one _ _ E). destruct (is_failed _); [intros H; inversion H|done].
Qed.

(** Renaming keeps every call answered when no two calls share an id. *)
Lemma transform_all_answered m norm l ids l' :
  transform_all m norm l ids = Some l' -> NoDup (all_call_ids l) -> (forall id, id ∈ all_call_ids l -> ids !! id = None) ->
  answered false l = true -> answered false l' = true.
Proof.
  revert ids l'. induction l as [|x l IH]; intros ids l' H Hnd Hfr Ha; cbn [transform_all] in H.
  - by injection H as <-.
  - apply bind_Some in H as ([y ids1] & H1 & H). apply bind_Some in H as (l1 & H2 & [= <-]).
    apply transform_message_spec in H1 as (_ & _ & _ & He & _ & Hc).
    rewrite all_call_ids_cons in Hnd, Hfr. apply NoDup_app in Hnd as (Hn1 & Hdis & Hn2).
    cbn [answered] in Ha |- *. apply andb_true_iff in Ha as [Ha1 Ha2]. apply andb_true_iff. split.
    + apply forallb_forall. intros c Hin%list_elem_of_In.
      assert (tl_ID c ∈ rename ids1 <$> (tl_ID <$> calls_of x)) as Hm.
      { rewrite <- Hc; [by apply list_elem_of_fmap_2|done|]. intros id Hid. apply Hfr. set_solver. }
      apply list_elem_of_fmap in Hm as (id & -> & (c0 & -> & Hc0)%list_elem_of_fmap).
      apply (transform_all_answers _ _ _ _ _ _ H2). rewrite forallb_forall in Ha1. apply Ha1. by apply list_elem_of_In.
    + apply (IH _ _ H2 Hn2); [|done]. intros id Hid. rewrite He; [apply Hfr; set_solver|]. intros Hx. by apply (Hdis id).
Qed.

Lemma transform_all_kinds m norm l ids l' :
  transform_all m norm l ids = Some l' -> Forall2 same_kind l l'.
Proof.
  revert ids l'. induction l as [|x l IH]; intros ids l' H; cbn [transform_all] in H.
  - injection H as <-. constructor.
  - apply bind_Some in H as ([y ids1] & H1 & H). apply bind_Some in H as (l1 & H2 & [= <-]).
    apply transform_message_spec in H1 as (Hr & Hf & Hid & _). constructor; [|eauto].
    split_and!; [done..|]. rewrite Hid. by destruct (result_id x).
Qed.

Lemma rewrite_kinds m norm msgs t : rewriteMessages m norm msgs = Some t -> Forall2 same_kind msgs t.
Proof.
  unfold rewriteMessages. intros (l & H1%prepared_shape & H2%transform_all_kinds)%bind_Some.
  revert t H2. induction H1 as [|x y l l' [] _ IH]; intros t H2; inversion H2 as [|? z ? t' (Hr & Hf & Hi)]; subst; constructor; [|auto].
  split_and!; congruence.
Qed.

(** ** What the second pass keeps *)

(** Neither the system messages held back nor the pass lose a message. *)
Record kept (s s' : Pass) (l : list Message) : Prop := {
  kp_conv : List.filter conversational (ps_result s') = List.filter conversational (ps_result s ++ l);
  kp_system : List.filter (has_role RoleSystem) (ps_result s' ++ ps_held s') =
              List.filter (has_role RoleSystem) (ps_result s ++ ps_held s ++ l);
  kp_results : List.filter (has_role RoleToolResult) (ps_result s ++ l)
               `sublist_of` List.filter (has_role RoleToolResult) (ps_result s');
  kp_held : Forall (fun x => MessageRole x = Some RoleSystem) (ps_held s');
  kp_pending : ps_pending s' = [] -> ps_held s' = [];
}.

Lemma filter_roles_none r l :
  (forall x, x ∈ l -> exists r', MessageRole x = Some r' /\ r' <> r) -> List.filter (has_role r) l = [].
Proof.
  induction l as [|x l IH]; [done|]. intros H. cbn. destruct (H x ltac:(left)) as (r' & E & Hne).
  rewrite (has_role_ne r r' x E) by congruence. apply IH. set_solver.
Qed.

Lemma filter_conv_none l :
  (forall x, x ∈ l -> MessageRole x = Some RoleSystem \/ MessageRole x = Some RoleToolResult) ->
  List.filter conversational l = [].
Proof.
  induction l as [|x l IH]; [done|]. intros H. cbn.
  assert (conversational x = false) as ->.
  { unfold conversational. destruct (H x ltac:(left)) as [E|E]; rewrite (proj2 (has_role_spec _ _) E); [done|].
    by rewrite andb_false_r. }
  apply IH. set_solver.
Qed.

Lemma no_result_role c t : MessageRole (no_result c t) = Some RoleToolResult.
Proof. done. Qed.

Lemma close_kept now s :
  Forall (fun x => MessageRole x = Some RoleSystem) (ps_held s) -> kept s (closePendingToolCalls now s) [].
Proof.
  intros Hh. rewrite Forall_forall in Hh.
  assert (exists out ticks ex, closePendingToolCalls now s = mkPass (ps_result s ++ out ++ ps_held s) [] ex [] ticks /\
            forall x, x ∈ out -> MessageRole x = Some RoleToolResult) as (out & ticks & ex & -> & Hout).
  { unfold closePendingToolCalls. destruct (ps_pending s) as [|c P].
    - exists [], (ps_ticks s), (ps_existing s). split; [done|]. intros x Hx. inversion Hx.
    - pose proof (missing_results_mem now (ps_existing s) (c :: P) (ps_ticks s)) as Hm.
      destruct (missing_results _ _ _ _) as [out t']. exists out, t', ∅. split; [done|].
      intros x Hx. by destruct (Hm x Hx) as (? & ? & -> & _). }
  split; cbn [ps_result ps_held ps_pending]; [| | |constructor|done].
  - rewrite app_nil_r, !List.filter_app, (filter_conv_none out), (filter_conv_none (ps_held s)); [by rewrite app_nil_r|naive_solver..].
  - rewrite !app_nil_r, !List.filter_app, (filter_roles_none RoleSystem out); [done|].
    intros x Hx. exists RoleToolResult. split; [auto|done].
  - rewrite app_nil_r, !List.filter_app. by apply sublist_inserts_r.
Qed.

Lemma kept_trans s1 s2 s3 l1 l2 : kept s1 s2 l1 -> kept s2 s3 l2 -> kept s1 s3 (l1 ++ l2).
Proof.
  intros [C1 S1 R1 _ _] [C2 S2 R2 H P]. split; [| | |done|done].
  - rewrite C2. rewrite !List.filter_app in *. rewrite C1. by rewrite app_assoc.
  - rewrite S2. rewrite !List.filter_app in *. rewrite !app_assoc in *. by rewrite S1.
  - etrans; [|exact R2]. rewrite !List.filter_app in *. rewrite app_assoc. by apply sublist_app.
Qed.

Lemma kept_push s s0 x :
  ps_result s0 = ps_result s -> ps_held s0 = ps_held s ->
  Forall (fun x => MessageRole x = Some RoleSystem) (ps_held s) ->
  (ps_pending s0 = [] -> ps_held s = []) -> (has_role RoleSystem x = true -> ps_held s = []) -> kept s (push s0 x) [x].
Proof.
  intros Er Eh Hh Hp Hx. split; cbn [push ps_result ps_held ps_pending]; rewrite ?Er, ?Eh; try done.
  rewrite !List.filter_app. cbn. destruct (has_role RoleSystem x) eqn:E.
  - rewrite (Hx eq_refl). cbn. by rewrite !app_nil_r.
  - cbn. by rewrite !app_nil_r.
Qed.

Definition replayed (l : list Message) : list Message := List.filter (fun x => negb (is_failed_turn x)) l.

Lemma insert_step_kept now s x s' :
  insert_step now s x = Some s' -> Forall (fun x => MessageRole x = Some RoleSystem) (ps_held s) ->
  (ps_pending s = [] -> ps_held s = []) -> kept s s' (replayed [x]).
Proof.
  intros H Hh Hp. unfold insert_step in H. destruct (MessageRole x) as [r|] eqn:Er; [|discriminate].
  cbn in H. injection H as <-. pose proof (close_kept now s Hh) as Hc.
  destruct (close_kept now s Hh) as [_ _ _ Hh' Hp'].
  assert (ps_pending (closePendingToolCalls now s) = []) as Hnil.
  { unfold closePendingToolCalls. destruct (ps_pending s); [done|]. by destruct (missing_results _ _ _ _). }
  assert (forall s1, ps_result s1 = ps_result (closePendingToolCalls now s) ->
            ps_held s1 = ps_held (closePendingToolCalls now s) -> kept s (push s1 x) [x]) as Hturn.
  { intros s1 E1 E2. apply (kept_trans _ _ _ [] [x] Hc). apply kept_push; auto. }
  assert (r <> RoleAssistant -> replayed [x] = [x]) as Hnt.
  { intros Hne. unfold replayed, is_failed_turn. cbn. destruct (assistantMessageOf x) eqn:Ea; [|done].
    apply assistant_role in Ea. congruence. }
  destruct r; rewrite ?Hnt by done; try (apply kept_push; auto; rewrite (has_role_ne _ _ _ Er) by done; done).
  - destruct (ps_pending s) eqn:EP; [apply kept_push; auto|].
    split; cbn [ps_result ps_held ps_pending]; rewrite ?app_nil_r; [| | | |discriminate].
    + rewrite List.filter_app, (filter_conv_none [x]); [by rewrite app_nil_r|set_solver].
    + by rewrite !List.filter_app.
    + rewrite List.filter_app, (filter_roles_none RoleToolResult [x]); [by rewrite app_nil_r|].
      intros y ->%list_elem_of_singleton. eauto.
    + apply Forall_app. split; [done|]. by constructor.
  - by apply Hturn.
  - unfold replayed, is_failed_turn. cbn. destruct (assistantMessageOf x) as [a|] eqn:Ea; [|by apply Hturn].
    destruct (is_failed (am_StopReason a)); [done|]. cbn. destruct (toolCallsOf (am_Content a)); by apply Hturn.
  - destruct (toolResultMessageOf x); apply kept_push; auto; rewrite (has_role_ne _ _ _ Er) by done; done.
Qed.

Lemma replayed_cons x l : replayed (x :: l) = replayed [x] ++ replayed l.
Proof. unfold replayed. cbn. by destruct (is_failed_turn x). Qed.

Lemma insert_all_kept now s l s' :
  insert_all now s l = Some s' -> Forall (fun x => MessageRole x = Some RoleSystem) (ps_held s) ->
  (ps_pending s = [] -> ps_held s = []) -> kept s s' (replayed l) /\ ps_pending s' = [].
Proof.
  revert s. induction l as [|x l IH]; intros s H Hh Hp; cbn [insert_all] in H.
  - injection H as <-. split; [by apply close_kept|].
    unfold closePendingToolCalls. destruct (ps_pending s); [done|]. by destruct (missing_results _ _ _ _).
  - apply bind_Some in H as (s1 & H1 & H2). pose proof (insert_step_kept _ _ _ _ H1 Hh Hp) as K.
    destruct (IH s1 H2) as [K2 Hn]; [by destruct K..|]. split; [|done].
    rewrite replayed_cons. by eapply kept_trans.
Qed.

Lemma insert_all_total now l s : (forall x, x ∈ l -> MessageRole x <> None) -> is_Some (insert_all now s l).
Proof.
  revert s. induction l as [|x l IH]; intros s H; cbn [insert_all]; [eauto|].
  unfold insert_step. destruct (MessageRole x) eqn:E; [|exfalso; apply (H x); set_solver].
  cbn [mbind option_bind]. apply IH. set_solver.
Qed.

Lemma transform_all_total m norm l ids : (forall x, x ∈ l -> MessageRole x <> None) -> is_Some (transform_all m norm l ids).
Proof.
  revert ids. induction l as [|x l IH]; intros ids H; cbn [transform_all]; [eauto|].
  unfold transform_message at 1. destruct (MessageRole x) eqn:E; [|exfalso; apply (H x); set_solver].
  cbn [mbind option_bind]. match goal with |- context [let '(_, _) := ?p in _] => destruct p as [y ids1] end.
  destruct (IH ids1) as [l' ->]; [set_solver|]. eauto.
Qed.

Lemma rewrite_total m norm msgs : (forall x, x ∈ msgs -> MessageRole x <> None) -> is_Some (rewriteMessages m norm msgs).
Proof.
  intros H. unfold rewriteMessages.
  assert (is_Some (downgradeUnsupportedImages m (map ensureMessageContent msgs))) as [l Hl].
  { unfold downgradeUnsupportedImages. destruct (has_vision m); [eauto|].
    apply mapM_is_Some. apply Forall_forall. intros y (x & -> & Hx)%list_elem_of_fmap.
    cbv beta delta [compose]. unfold downgrade_message. rewrite (sh_role _ _ (ensure_shape x)).
    destruct (MessageRole x) eqn:E; [cbn; eauto|]. by apply H in Hx. }
  rewrite Hl. cbn [mbind option_bind]. apply transform_all_total. apply prepared_shape in Hl.
  intros y Hy. apply list_elem_of_lookup in Hy as [i Hi]. eapply Forall2_lookup_r in Hl as (x & Hx & Hs); [|done].
  rewrite (sh_role _ _ Hs). apply H. by eapply list_elem_of_lookup_2.
Qed.

(** ** Nothing is made up for an answered transcript *)

(** Each pending call has its result, or will meet it before the next turn. *)
Definition will_answer (s : Pass) (l : list Message) : Prop :=
  forall c, c ∈ ps_pending s -> tl_ID c ∈ ps_existing s \/ answers false (tl_ID c) l = true.

Lemma close_exact now s l :
  will_answer s l -> (forall id, answers false id l = false) ->
  ps_result (closePendingToolCalls now s) = ps_result s ++ ps_held s.
Proof.
  intros H Hl. unfold closePendingToolCalls. destruct (ps_pending s) as [|c P] eqn:E; [done|].
  pose proof (missing_results_none now (ps_existing s) (c :: P) (ps_ticks s)) as Hn.
  destruct (missing_results _ _ _ _) as [out t']. cbn in *. rewrite Hn; [done|].
  intros c' Hc'. destruct (H c') as [?|Ha]; [by rewrite E|done|]. by rewrite Hl in Ha.
Qed.

Lemma answers_turn id x l : is_turn x = true -> answers false id (x :: l) = false.
Proof. intros H. cbn. by rewrite H. Qed.

Lemma answers_step id x l :
  is_turn x = false -> answers false id (x :: l) = true -> result_id x = Some id \/ answers false id l = true.
Proof.
  intros Ht H. cbn [answers] in H. rewrite Ht in H. cbn in H. apply orb_true_iff in H as [H|H]; [|by right].
  left. by apply bool_decide_eq_true in H.
Qed.

Lemma replayed_turn x : is_failed_turn x = false -> replayed [x] = [x].
Proof. unfold replayed. cbn. by intros ->. Qed.

Lemma insert_step_exact now s x l s' :
  insert_step now s x = Some s' -> answered false (x :: l) = true -> will_answer s (x :: l) ->
  (ps_pending s = [] -> ps_held s = []) ->
  ps_result s' ++ ps_held s' ≡ₚ ps_result s ++ ps_held s ++ replayed [x] /\ will_answer s' l /\
  (ps_pending s' = [] -> ps_held s' = []).
Proof.
  intros H Ha Hw Hp. unfold insert_step in H. destruct (MessageRole x) as [r|] eqn:Er; [|discriminate].
  cbn in H. injection H as <-. cbn [answered] in Ha. apply andb_true_iff in Ha as [Hc Ha].
  rewrite forallb_forall in Hc.
  assert (is_turn x = true -> ps_result (closePendingToolCalls now s) = ps_result s ++ ps_held s) as Hclose.
  { intros Ht. eapply close_exact; [done|]. intros id. by apply answers_turn. }
  assert (ps_pending (closePendingToolCalls now s) = [] /\ ps_held (closePendingToolCalls now s) = []) as [Hnil Hh].
  { unfold closePendingToolCalls. destruct (ps_pending s); [done|]. by destruct (missing_results _ _ _ _). }
  assert (r <> RoleAssistant -> replayed [x] = [x]) as Hnt.
  { intros Hne. apply replayed_turn. unfold is_failed_turn. destruct (assistantMessageOf x) eqn:Ea; [|done].
    apply assistant_role in Ea. congruence. }
  assert (forall s1, ps_result s1 = ps_result s -> ps_held s1 = ps_held s -> is_turn x = false ->
            ps_result (push s1 x) ++ ps_held (push s1 x) ≡ₚ ps_result s ++ ps_held s ++ [x]) as Hperm.
  { intros s1 E1 E2 _. cbn. rewrite E1, E2. rewrite <- app_assoc. by rewrite (Permutation_app_comm [x]). }
  assert (r <> RoleUser -> r <> RoleAssistant -> is_turn x = false) as Hquiet.
  { intros ??. unfold is_turn. by rewrite !(has_role_ne _ _ _ Er) by done. }
  assert (is_turn x = false -> result_id x = None -> will_answer s l) as Hmute.
  { intros Ht Hn c Hin. destruct (Hw c Hin) as [?|Hx]; [by left|]. apply answers_step in Hx as [?|?]; [congruence|by right|done]. }
  assert (r <> RoleToolResult -> result_id x = None) as Hnr.
  { intros Hne. unfold result_id. destruct (toolResultMessageOf x) eqn:Et; [|done]. apply result_role in Et. congruence. }
  destruct r; rewrite ?Hnt by done;
    try (split_and!; [apply Hperm; [done..|]; by apply Hquiet|apply Hmute; [by apply Hquiet|by apply Hnr]|done]).
  - destruct (ps_pending s) as [|c P] eqn:EP.
    + split_and!; [apply Hperm; [done..|]; by apply Hquiet| |by intros _; apply Hp].
      intros c. cbn. rewrite EP. intros Hin. inversion Hin.
    + split_and!; cbn; [done| |done]. intros c' Hin. cbn in Hin. rewrite <- EP in Hin. revert c' Hin.
      apply Hmute; [by apply Hquiet|by apply Hnr].
  - assert (is_turn x = true) as Ht by (unfold is_turn; by rewrite (proj2 (has_role_spec _ _) Er)).
    split_and!; cbn; [|by intros c; cbn; rewrite Hnil; intros Hin; inversion Hin|by rewrite Hh].
    by rewrite Hh, (Hclose Ht), <- !app_assoc, app_nil_r.
  - assert (is_turn x = true) as Ht by (unfold is_turn; by rewrite (proj2 (has_role_spec RoleAssistant _) Er), orb_true_r).
    assert (forall s1, ps_result s1 = ps_result (closePendingToolCalls now s) -> ps_held s1 = [] ->
              ps_result (push s1 x) ++ ps_held (push s1 x) ≡ₚ ps_result s ++ ps_held s ++ [x]) as Hp1.
    { intros s1 E1 E2. cbn. by rewrite E1, E2, (Hclose Ht), <- !app_assoc, app_nil_r. }
    assert (forall y, will_answer (push (closePendingToolCalls now s) y) l) as Hw1.
    { intros y c. cbn. rewrite Hnil. intros Hin. inversion Hin. }
    destruct (assistantMessageOf x) as [a|] eqn:Ea.
    + unfold replayed, is_failed_turn. cbn [List.filter]. rewrite Ea.
      destruct (is_failed (am_StopReason a)) eqn:Ef; cbn [negb].
      * split_and!; [by rewrite Hh, (Hclose Ht), !app_nil_r|exact (Hw1 x)|done].
      * destruct (toolCallsOf (am_Content a)) as [|c P] eqn:Ec.
        -- split_and!; [by apply Hp1|apply Hw1|done].
        -- split_and!; [by apply Hp1| |done]. intros c' Hin. right. apply Hc. apply list_elem_of_In.
           unfold calls_of. by rewrite Ea, Ef, Ec.
    + rewrite replayed_turn by (unfold is_failed_turn; by rewrite Ea). split_and!; [by apply Hp1|apply Hw1|done].
  - destruct (toolResultMessageOf x) as [t|] eqn:Et; (split_and!; [apply Hperm; [done..|]; by apply Hquiet| |done]).
    + intros c Hin. cbn in *. destruct (Hw c Hin) as [?|Hx]; [left; set_solver|].
      apply answers_step in Hx as [Hid|?]; [|by right|by apply Hquiet]. left. unfold result_id in Hid.
      rewrite Et in Hid. injection Hid as ->. set_solver.
    + apply Hmute; [by apply Hquiet|]. unfold result_id. by rewrite Et.
Qed.

Lemma insert_all_exact now s l s' :
  insert_all now s l = Some s' -> answered false l = true -> will_answer s l -> (ps_pending s = [] -> ps_held s = []) ->
  ps_result s' ≡ₚ ps_result s ++ ps_held s ++ replayed l.
Proof.
  revert s. induction l as [|x l IH]; intros s H Ha Hw Hp; cbn [insert_all] in H.
  - injection H as <-. by rewrite (close_exact now s [] Hw), !app_nil_r.
  - apply bind_Some in H as (s1 & H1 & H2). pose proof (insert_step_exact _ _ _ _ _ H1 Ha Hw Hp) as (Hr & Hw1 & Hp1).
    cbn [answered] in Ha. apply andb_true_iff in Ha as [_ Ha].
    rewrite (IH s1 H2 Ha Hw1 Hp1), app_assoc, Hr, (replayed_cons x l). by rewrite <- !app_assoc.
Qed.

(** ** Images *)

Lemma replace_images_clean placeholder prev l : existsb is_image (replace_images placeholder prev l) = false.
Proof.
  revert prev. induction l as [|b l IH]; intros prev; [done|]. cbn [replace_images].
  destruct (is_image b) eqn:E; [destruct prev; cbn; apply IH|]. cbn. by rewrite E, IH.
Qed.

Lemma string_content_clean m s : um_StringContent m = Some s -> content_has_image (um_Content m) = false.
Proof. unfold um_StringContent, StringContent. intros H. by repeat case_match. Qed.

Lemma downgraded_clean x y : downgrade_message x = Some y -> shows_image y = false.
Proof.
  unfold downgrade_message. destruct (MessageRole x) as [r|] eqn:Er; [|discriminate]. cbn. intros [= <-].
  destruct (userMessageOf x) as [u|] eqn:Eu.
  - destruct x as [h|h|h|h|h|h|h|h|r' i|]; try discriminate. cbn in Eu. unfold MessageRole, role_of in Er.
    rewrite Eu in Er. injection Er as <-. destruct (um_StringContent u) eqn:Es.
    + unfold shows_image. cbn. rewrite Eu. by eapply string_content_clean.
    + unfold shows_image. cbn. apply replace_images_clean.
  - destruct (toolResultMessageOf x) as [t|] eqn:Et.
    + destruct x as [h|h|h|h|h|h|h|h|r' i|]; try discriminate. cbn in Et. unfold MessageRole, role_of in Er.
      rewrite Et in Er. injection Er as <-. apply replace_images_clean.
    + destruct r; unfold shows_image; by rewrite Eu, Et.
Qed.

Lemma transform_shows m norm x ids y ids' : transform_message m norm x ids = Some (y, ids') -> shows_image y = shows_image x.
Proof.
  unfold transform_message. destruct (MessageRole x) as [r|] eqn:Er; [|discriminate]. cbn. intros [= H].
  destruct (assistantMessageOf x) as [a|] eqn:Ea.
  - destruct x as [h|h|h|h|h|h|h|h|r' i|]; try discriminate. cbn in Ea. unfold MessageRole, role_of in Er.
    rewrite Ea in Er. injection Er as <-. destruct (transformAssistantContent _ _ _ _ _ _) as [c ids1].
    by injection H as <- <-.
  - destruct (toolResultMessageOf x) as [t|] eqn:Et.
    + destruct x as [h|h|h|h|h|h|h|h|r' i|]; try discriminate. cbn in Et. unfold MessageRole, role_of in Er.
      rewrite Et in Er. injection Er as <-. cbn [toolResultMessageOf] in H.
      destruct (ids !! tr_ToolCallID t) as [n|]; [destruct (String.eqb _ _)|]; injection H as <- <-; try done.
      unfold shows_image. cbn. by rewrite Et.
    + destruct r; by injection H as <- <-.
Qed.

Lemma transform_all_clean m norm l ids l' :
  transform_all m norm l ids = Some l' -> (forall x, x ∈ l -> shows_image x = false) ->
  forall y, y ∈ l' -> shows_image y = false.
Proof.
  revert ids l'. induction l as [|x l IH]; intros ids l' H Hc; cbn [transform_all] in H.
  - injection H as <-. intros y Hy. inversion Hy.
  - apply bind_Some in H as ([y ids1] & H1 & H). apply bind_Some in H as (l1 & H2 & [= <-]).
    intros z [->|Hz]%elem_of_cons; [|eapply IH; [done| |done]; set_solver].
    rewrite (transform_shows _ _ _ _ _ _ H1). apply Hc. left.
Qed.

Lemma rewrite_clean m norm msgs t :
  has_vision m = false -> rewriteMessages m norm msgs = Some t -> forall y, y ∈ t -> shows_image y = false.
Proof.
  unfold rewriteMessages, downgradeUnsupportedImages. intros -> (l & H1 & H2)%bind_Some.
  eapply transform_all_clean; [done|]. apply mapM_Some in H1. intros x Hx.
  apply list_elem_of_lookup in Hx as [i Hi]. eapply Forall2_lookup_r in H1 as (x0 & _ & H); [|done].
  by eapply downgraded_clean.
Qed.

Lemma close_sources now s y :
  y ∈ ps_result (closePendingToolCalls now s) ++ ps_held (closePendingToolCalls now s) ->
  y ∈ ps_result s ++ ps_held s \/ exists c t, y = no_result c t.
Proof.
  unfold closePendingToolCalls. destruct (ps_pending s) as [|c P].
  - cbn. rewrite app_nil_r. auto.
  - pose proof (missing_results_mem now (ps_existing s) (c :: P) (ps_ticks s) y) as Hm.
    destruct (missing_results _ _ _ _) as [out t']. cbn in *. rewrite app_nil_r, !elem_of_app.
    intros [?|[Hy|?]]; [tauto| |tauto]. destruct (Hm Hy) as (c0 & t & -> & _). eauto.
Qed.

(** Where the messages of the result come from. *)
Lemma insert_step_sources now s x s' y :
  insert_step now s x = Some s' -> y ∈ ps_result s' ++ ps_held s' ->
  y ∈ ps_result s ++ ps_held s \/ y = x \/ exists c t, y = no_result c t.
Proof.
  intros H Hy.
  pose proof (close_sources now s y) as Hclose.
  assert (forall s0, y ∈ ps_result (push s0 x) ++ ps_held (push s0 x) -> y ∈ ps_result s0 ++ ps_held s0 \/ y = x) as Hpush.
  { intros s0. cbn. rewrite !elem_of_app, list_elem_of_singleton. tauto. }
  assert (forall s0, ps_result s0 = ps_result s -> ps_held s0 = ps_held s ->
    y ∈ ps_result (push s0 x) ++ ps_held (push s0 x) -> y ∈ ps_result s ++ ps_held s \/ y = x \/ exists c t, y = no_result c t) as Hp.
  { intros s0 E1 E2 [Hin|Hin]%Hpush; [rewrite E1, E2 in Hin; by left|by right; left]. }
  assert (forall s0, ps_result s0 = ps_result (closePendingToolCalls now s) -> ps_held s0 = ps_held (closePendingToolCalls now s) ->
    y ∈ ps_result (push s0 x) ++ ps_held (push s0 x) -> y ∈ ps_result s ++ ps_held s \/ y = x \/ exists c t, y = no_result c t) as Hc.
  { intros s0 E1 E2 [Hin|Hin]%Hpush; [rewrite E1, E2 in Hin; apply Hclose in Hin as [?|?]; auto|by right; left]. }
  unfold insert_step in H. destruct (MessageRole x) as [r|]; [|discriminate]. cbn [mbind option_bind] in H.
  injection H as <-. destruct r; try (revert Hy; by apply Hp); try (revert Hy; by apply Hc).
  - destruct (ps_pending s); [revert Hy; by apply Hp|]. cbn in Hy. rewrite !elem_of_app, list_elem_of_singleton in *. tauto.
  - destruct (assistantMessageOf x) as [a|]; [|revert Hy; by apply Hc].
    destruct (is_failed _); [apply Hclose in Hy as [?|?]; auto|].
    destruct (toolCallsOf _); revert Hy; by apply Hc.
  - destruct (toolResultMessageOf x); revert Hy; by apply Hp.
Qed.

Lemma insert_all_sources now s l s' y :
  insert_all now s l = Some s' -> y ∈ ps_result s' -> y ∈ ps_result s ++ ps_held s \/ y ∈ l \/ exists c t, y = no_result c t.
Proof.
  revert s. induction l as [|x l IH]; intros s H Hy; cbn [insert_all] in H.
  - injection H as <-. destruct (close_sources now s y) as [?|?]; [by apply elem_of_app; left|by left|by right; right].
  - apply bind_Some in H as (s1 & H1 & H2). destruct (IH s1 H2 Hy) as [Hin|[?|?]]; [|right; left; by right|by right; right].
    destruct (insert_step_sources _ _ _ _ _ H1 Hin) as [?|[->|?]]; [by left|right; left; left|by right; right].
Qed.

(** ** Transcripts that need no change *)

Lemma replace_images_id placeholder prev l : existsb is_image l = false -> replace_images placeholder prev l = l.
Proof.
  revert prev. induction l as [|b l IH]; intros prev H; [done|]. cbn [existsb] in H.
  apply orb_false_iff in H as [Hb Hl]. cbn [replace_images]. by rewrite Hb, IH.
Qed.

Lemma transform_blocks_id m norm src l ids :
  forallb own_block l = true -> transform_blocks m norm true src l ids = (l, ids).
Proof.
  induction l as [|b l IH]; [done|]. cbn [forallb]. intros [Hb Hl]%andb_true_iff. specialize (IH Hl).
  cbn [transform_blocks]. destruct b as [h|h|h|h|k|]; rewrite ?IH; try done.
  - destruct h as [th|]; [|done]. cbn. unfold own_block in Hb. unfold transformThinking. cbn.
    destruct (th_Redacted th); [done|]. destruct (String.eqb (th_ThinkingSignature th) ""); [|done].
    cbn in *. by destruct (is_blank (th_Thinking th)).
  - destruct h as [c|]; [|done]. cbn [deref]. unfold transformToolCall.
    assert ((match norm with Some _ => (with_call c (tl_ID c) (tl_ThoughtSignature c), ids)
             | None => (with_call c (tl_ID c) (tl_ThoughtSignature c), ids) end) = (c, ids)) as ->.
    { by destruct norm; destruct c. }
    by rewrite IH.
Qed.

Lemma own_message_id m norm x :
  own_message m x = true ->
  ensureMessageContent x = x /\ (has_vision m = false -> downgrade_message x = Some x) /\
  transform_message m norm x ∅ = Some (x, ∅).
Proof.
  intros H. unfold own_message in H. apply andb_true_iff in H as [Hr H]. apply bool_decide_eq_true in Hr.
  unfold transform_message, downgrade_message.
  assert (forall x, contentListOf x <> Some None -> ensureMessageContent x = x) as Hens.
  { intros y Hy. unfold ensureMessageContent. by destruct (contentListOf y) as [[|]|]. }
  destruct x as [h|h|h|h|h|h|h|h|r i|]; cbn [MessageRole] in *; unfold role_of in *;
    try (destruct (deref h) eqn:Ed; [|done]); cbn [mbind option_bind fmap option_fmap option_map].
  - split_and!; [|done|done]. apply Hens. cbn in *. rewrite Ed in *. cbn in *. by case_match.
  - destruct h as [u'|p]; [|discriminate]. injection Ed as ->. cbn in H.
    destruct (um_Content u) as [l|] eqn:Ec; [|discriminate]. split_and!; [|intros Hv|done].
    + apply Hens. cbn. by rewrite Ec.
    + cbn. destruct (um_StringContent u); [done|]. rewrite Hv in H. cbn in H.
      unfold replaceImagesWithPlaceholder. rewrite Ec. cbn. rewrite replace_images_id by (by apply negb_true_iff in H).
      destruct u; cbn in *. by rewrite Ec.
  - destruct h as [a'|p]; [|discriminate]. injection Ed as ->. cbn in H.
    rewrite !andb_true_iff in H. destruct H as [[[Hs Hn] Hb] _].
    split_and!; [|done|].
    + apply Hens. cbn. by destruct (am_Content a) as [[|]|].
    + cbn [assistantMessageOf deref]. unfold transformAssistantContent. rewrite Hs, transform_blocks_id by done.
      destruct a as [c]; cbn in *. by destruct c as [[|]|].
  - destruct h as [t'|p]; [|discriminate]. injection Ed as ->. cbn in H.
    destruct (tr_Content t) as [l|] eqn:Ec; [|discriminate]. split_and!; [|intros Hv|done].
    + apply Hens. cbn. by rewrite Ec.
    + cbn [toolResultMessageOf deref]. unfold replaceImagesWithPlaceholder. rewrite Hv in H. cbn in H. rewrite Ec. cbn.
      rewrite replace_images_id by (by apply negb_true_iff in H). destruct t; cbn in *. by rewrite Ec.
  - split_and!; done.
  - split_and!; [|done|done]. apply Hens. cbn in *. rewrite Ed in *. cbn in *. by case_match.
  - split_and!; done.
  - split_and!; done.
  - destruct r; split_and!; done.
  - done.
Qed.

Definition is_nil {A} (l : list A) : bool := match l with [] => true | _ => false end.

Lemma insert_step_settled now s x l s' :
  insert_step now s x = Some s' -> is_failed_turn x = false -> will_answer s (x :: l) ->
  (ps_pending s = [] -> ps_held s = []) ->
  settled (negb (is_nil (ps_pending s))) (negb (is_nil (ps_held s))) (x :: l) = true ->
  ps_result s' ++ ps_held s' = ps_result s ++ ps_held s ++ [x] /\
  settled (negb (is_nil (ps_pending s'))) (negb (is_nil (ps_held s'))) l = true.
Proof.
  intros H Hf Hw Hp Hs. unfold insert_step in H. destruct (MessageRole x) as [r|] eqn:Er; [|discriminate].
  cbn [mbind option_bind] in H. injection H as <-. cbn [settled] in Hs.
  assert (is_turn x = true -> ps_result (closePendingToolCalls now s) = ps_result s ++ ps_held s) as Hclose.
  { intros Ht. eapply close_exact; [done|]. intros id. by apply answers_turn. }
  assert (ps_pending (closePendingToolCalls now s) = [] /\ ps_held (closePendingToolCalls now s) = []) as [Hnil Hh].
  { unfold closePendingToolCalls. destruct (ps_pending s); [done|]. by destruct (missing_results _ _ _ _). }
  assert (is_turn x = true -> has_role RoleSystem x = false ->
    settled (match calls_of x with [] => false | _ => true end) false l = true) as Hturn.
  { intros Ht Hsys. by rewrite Hsys, Ht in Hs. }
  assert (has_role RoleSystem x = false -> is_turn x = false ->
    ps_held s = [] /\ settled (negb (is_nil (ps_pending s))) (negb (is_nil (ps_held s))) l = true) as Hmid.
  { intros Hsys Ht. rewrite Hsys, Ht in Hs. apply andb_true_iff in Hs as [Hn Hs]. split; [|done].
    by destruct (ps_held s). }
  assert (forall s1, ps_result s1 = ps_result (closePendingToolCalls now s) -> ps_held s1 = [] -> is_turn x = true ->
    ps_result (push s1 x) ++ ps_held (push s1 x) = ps_result s ++ ps_held s ++ [x]) as Hpt.
  { intros s1 E1 E2 Ht. cbn. by rewrite E1, E2, (Hclose Ht), app_nil_r, <- app_assoc. }
  assert (forall s1, ps_result s1 = ps_result s -> ps_held s1 = ps_held s -> ps_held s = [] ->
    ps_result (push s1 x) ++ ps_held (push s1 x) = ps_result s ++ ps_held s ++ [x]) as Hpm.
  { intros s1 E1 E2 E3. cbn. by rewrite E1, E2, E3, app_nil_r. }
  unfold is_turn in *.
  destruct r; rewrite ?(has_role_ne _ _ _ Er) in * by done;
    try (destruct (Hmid eq_refl eq_refl) as [E0 Hs']; split; [by apply Hpm|exact Hs']).
  - rewrite (proj2 (has_role_spec _ _) Er) in Hs. destruct (ps_pending s) as [|c P] eqn:EP.
    + split; [apply Hpm; auto|]. cbn [push ps_pending ps_held]. rewrite EP, Hp by done. exact Hs.
    + split; [by cbn|]. cbn in Hs |- *. by destruct (ps_held s).
  - rewrite (proj2 (has_role_spec _ _) Er) in *. split; [by apply Hpt|]. cbn [push ps_pending ps_held].
    rewrite Hnil, Hh. cbn. specialize (Hturn eq_refl eq_refl). rewrite calls_role in Hturn; [done|congruence].
  - rewrite (proj2 (has_role_spec _ _) Er) in *. specialize (Hturn eq_refl eq_refl).
    unfold is_failed_turn, calls_of in *. destruct (assistantMessageOf x) as [a|].
    + rewrite Hf in *. destruct (toolCallsOf (am_Content a)) as [|c P].
      * split; [by apply Hpt|]. cbn [push ps_pending ps_held]. by rewrite Hnil, Hh.
      * split; [by apply Hpt|]. cbn [push ps_pending ps_held]. by rewrite Hh.
    + split; [by apply Hpt|]. cbn [push ps_pending ps_held]. by rewrite Hnil, Hh.
  - destruct (Hmid eq_refl eq_refl) as [E0 Hs'].
    destruct (toolResultMessageOf x); (split; [by apply Hpm|exact Hs']).
Qed.

Lemma insert_all_settled now s l s' :
  insert_all now s l = Some s' -> answered false l = true -> forallb (fun x => negb (is_failed_turn x)) l = true ->
  will_answer s l -> (ps_pending s = [] -> ps_held s = []) ->
  settled (negb (is_nil (ps_pending s))) (negb (is_nil (ps_held s))) l = true ->
  ps_result s' = ps_result s ++ ps_held s ++ l.
Proof.
  revert s. induction l as [|x l IH]; intros s H Ha Hf Hw Hp Hs; cbn [insert_all] in H.
  - injection H as <-. by rewrite (close_exact now s [] Hw), app_nil_r.
  - apply bind_Some in H as (s1 & H1 & H2). cbn [forallb] in Hf. apply andb_true_iff in Hf as [Hx Hf].
    apply negb_true_iff in Hx. pose proof (insert_step_exact _ _ _ _ _ H1 Ha Hw Hp) as (_ & Hw1 & Hp1).
    pose proof (insert_step_settled _ _ _ _ _ H1 Hx Hw Hp Hs) as [Hr Hs1].
    cbn [answered] in Ha. apply andb_true_iff in Ha as [_ Ha].
    rewrite (IH s1 H2 Ha Hf Hw1 Hp1 Hs1), app_assoc, Hr. by rewrite <- !app_assoc.
Qed.

Lemma own_not_failed m x : own_message m x = true -> is_failed_turn x = false.
Proof.
  unfold own_message, is_failed_turn. intros [_ H]%andb_true_iff. destruct x as [h|h|h|h|h|h|h|h|r i|]; try done.
  destruct h as [a|]; [|done]. cbn. rewrite !andb_true_iff in H. apply negb_true_iff, H.
Qed.

Lemma rewrite_own m norm l : forallb (own_message m) l = true -> rewriteMessages m norm l = Some l.
Proof.
  intros H. unfold rewriteMessages, downgradeUnsupportedImages.
  assert (map ensureMessageContent l = l) as ->.
  { induction l as [|x l IH]; [done|]. cbn [forallb] in H. apply andb_true_iff in H as [Hx Hl].
    cbn. rewrite IH by done. f_equal. by apply (own_message_id m norm). }
  assert ((if has_vision m then Some l else mapM downgrade_message l) = Some l) as ->.
  { destruct (has_vision m) eqn:Hv; [done|]. apply mapM_Some. induction l as [|x l IH]; [constructor|].
    cbn [forallb] in H. apply andb_true_iff in H as [Hx Hl]. constructor; [|auto].
    by apply (own_message_id m norm). }
  cbn [mbind option_bind]. induction l as [|x l IH]; [done|]. cbn [forallb] in H. apply andb_true_iff in H as [Hx Hl].
  cbn [transform_all]. destruct (own_message_id m norm x Hx) as (_ & _ & ->). cbn [mbind option_bind]. by rewrite IH.
Qed.

Lemma answers_sound id l :
  answers true id l = true ->
  exists mid r rest, l = mid ++ r :: rest /\ result_id r = Some id /\
    forall y, y ∈ mid -> is_turn y = false /\ has_role RoleSystem y = false.
Proof.
  induction l as [|x l IH]; [discriminate|]. cbn [answers]. destruct (is_turn x || (true && has_role RoleSystem x)) eqn:E; [discriminate|].
  apply orb_false_iff in E as [Ht Hs]. cbn in Hs. intros [H|H]%orb_true_iff.
  - apply bool_decide_eq_true in H. exists [], x, l. split_and!; [done..|]. intros y Hy. inversion Hy.
  - destruct (IH H) as (mid & r & rest & -> & Hr & Hq). exists (x :: mid), r, rest. split_and!; [done..|].
    intros y [->|Hy]%elem_of_cons; auto.
Qed.

Lemma answered_sound l before x after c :
  answered true l = true -> l = before ++ x :: after -> c ∈ calls_of x -> answers true (tl_ID c) after = true.
Proof.
  intros H -> Hc. induction before as [|y before IH]; cbn [answered app] in H; apply andb_true_iff in H as [H1 H2]; [|auto].
  rewrite forallb_forall in H1. by apply H1, list_elem_of_In.
Qed.

Lemma transform_inv m norm now msgs out :
  TransformMessages m norm now msgs = Some out ->
  exists t s, rewriteMessages m norm msgs = Some t /\ insert_all now (mkPass [] [] ∅ [] 0) t = Some s /\ out = ps_result s.
Proof.
  unfold TransformMessages, insertResults. intros (t & Ht & H)%bind_Some. exists t.
  destruct (insert_all now _ t) as [s|] eqn:E; [|discriminate]. exists s. cbn in H. split_and!; [done|done|congruence].
Qed.

Lemma transform_kept now t s :
  insert_all now (mkPass [] [] ∅ [] 0) t = Some s ->
  kept (mkPass [] [] ∅ [] 0) s (replayed t) /\ ps_held s = [].
Proof. intros H. destruct (insert_all_kept _ _ _ _ H) as [K Hp]; [constructor|done|]. split; [done|]. by apply (kp_pending _ _ _ K). Qed.

Lemma failed_conversational x : is_failed_turn x = true -> conversational x = true.
Proof.
  unfold is_failed_turn. destruct (assistantMessageOf x) eqn:E; [|discriminate]. apply assistant_role in E.
  unfold conversational. by rewrite !(has_role_ne _ _ _ E).
Qed.

Lemma replayed_not_failed l x : x ∈ replayed l -> is_failed_turn x = false.
Proof. unfold replayed. intros [_ H]%list_elem_of_In%filter_In. by apply negb_true_iff. Qed.

Lemma transform_no_failed m norm now msgs out x :
  TransformMessages m norm now msgs = Some out -> x ∈ out -> is_failed_turn x = false.
Proof.
  intros (t & s & _ & H & ->)%transform_inv Hx. destruct (is_failed_turn x) eqn:E; [|done].
  apply transform_kept in H as [K _]. pose proof (kp_conv _ _ _ K) as Hc. cbn in Hc.
  assert (x ∈ List.filter conversational (ps_result s)) as Hin.
  { apply list_elem_of_In, filter_In. split; [by apply list_elem_of_In|by apply failed_conversational]. }
  rewrite Hc in Hin. apply list_elem_of_In, filter_In in Hin as [Hin _].
  apply list_elem_of_In, replayed_not_failed in Hin. congruence.
Qed.

(** ** Properties *)

(** C36: every tool call a transformed transcript replays is followed by a
    result with its id before the next user, assistant or system message, so
    a provider never sees a call without its result; and no turn that ended
    in an error is replayed. *)
Theorem every_call_answered m norm now msgs out before x a after c :
  TransformMessages m norm now msgs = Some out ->
  out = before ++ x :: after -> assistantMessageOf x = Some a -> c ∈ toolCallsOf (am_Content a) ->
  is_failed (am_StopReason a) = false /\
  exists mid r rest, after = mid ++ r :: rest /\ result_id r = Some (tl_ID c) /\
    forall y, y ∈ mid -> MessageRole y <> Some RoleUser /\ MessageRole y <> Some RoleAssistant /\
                         MessageRole y <> Some RoleSystem.
Proof.
  intros H Hout Ha Hc. assert (is_failed (am_StopReason a) = false) as Hf.
  { assert (is_failed_turn x = false) as E by (eapply transform_no_failed; [done|set_solver]).
    unfold is_failed_turn in E. by rewrite Ha in E. }
  split; [done|]. destruct (transform_inv _ _ _ _ _ H) as (t & s & _ & Hs & Es). rewrite Es in Hout.
  pose proof (insert_all_answered _ _ _ _ Hs pass_start) as Hall.
  destruct (answers_sound (tl_ID c) after) as (mid & r & rest & -> & Hr & Hq).
  { eapply answered_sound; [done..|]. unfold calls_of. by rewrite Ha, Hf. }
  exists mid, r, rest. split_and!; [done..|]. intros y [Ht Hsys]%Hq. unfold is_turn in Ht.
  apply orb_false_iff in Ht as [Hu Has]. unfold has_role in *. by rewrite !bool_decide_eq_false in *.
Qed.

(** C39: transforming a transcript without nil messages does not panic and
    loses nothing: the first pass keeps every message's role, and the result
    holds the rewritten messages less the failed turns: the conversation and
    the system messages are exactly those, each in order, the tool results
    are among its own.  For a model without vision no image is left in it. *)
Theorem transform_loses_nothing m norm now msgs :
  (forall x, x ∈ msgs -> MessageRole x <> None) ->
  exists t out, rewriteMessages m norm msgs = Some t /\ TransformMessages m norm now msgs = Some out /\
    map MessageRole t = map MessageRole msgs /\
    List.filter conversational out = List.filter conversational (replayed t) /\
    List.filter (has_role RoleSystem) out = List.filter (has_role RoleSystem) (replayed t) /\
    List.filter (has_role RoleToolResult) (replayed t) `sublist_of` List.filter (has_role RoleToolResult) out /\
    (has_vision m = false -> forall y, y ∈ out -> shows_image y = false).
Proof.
  intros H. destruct (rewrite_total m norm msgs H) as [t Ht]. pose proof (rewrite_kinds _ _ _ _ Ht) as Hk.
  assert (map MessageRole t = map MessageRole msgs) as Hr.
  { clear Ht H. induction Hk as [|x y l l' (Hr & _) _ IH]; [done|]. cbn. congruence. }
  destruct (insert_all_total now t (mkPass [] [] ∅ [] 0)) as [s Hs].
  { intros y Hy E. apply list_elem_of_lookup in Hy as [i Hi]. eapply Forall2_lookup_r in Hk as (x & Hx & Hxy & _); [|done].
    apply (H x); [by eapply list_elem_of_lookup_2|congruence]. }
  destruct (transform_kept _ _ _ Hs) as [[Kc Ks Kr _ _] Kh]. rewrite Kh in Ks. cbn in Kc, Ks, Kr.
  rewrite app_nil_r in Ks. exists t, (ps_result s). split_and!; try done.
  - unfold TransformMessages, insertResults. rewrite Ht. cbn. by rewrite Hs.
  - intros Hv y Hy. destruct (insert_all_sources _ _ _ _ _ Hs Hy) as [Hin|[Hin|(c & i & ->)]]; [inversion Hin| |done].
    by eapply rewrite_clean.
Qed.

(** When every call of the transcript already has its result before the
    next turn and no two calls share an id, nothing is made up: whatever ids
    the normalizer gives to the calls, the results follow their calls, and
    the result is the rewritten transcript less its failed turns, up to the
    place of the system messages. *)
Theorem results_follow_calls m norm now msgs out :
  answered false msgs = true -> NoDup (all_call_ids msgs) -> TransformMessages m norm now msgs = Some out ->
  exists t, rewriteMessages m norm msgs = Some t /\ out ≡ₚ replayed t.
Proof.
  intros Ha Hn (t & s & Ht & Hs & ->)%transform_inv. exists t. split; [done|].
  unfold rewriteMessages in Ht. apply bind_Some in Ht as (l & Hl%prepared_shape & Ht).
  rewrite <- (shape_answered _ _ _ Hl) in Ha. rewrite <- (shape_call_ids _ _ Hl) in Hn.
  pose proof (transform_all_answered _ _ _ _ _ Ht Hn (fun id _ => lookup_empty id) Ha) as Hat.
  apply (insert_all_exact _ _ _ _ Hs Hat); [|done]. intros c Hc. inversion Hc.
Qed.

(** The transcript a model produced itself is replayed to it unchanged:
    its own turns without failures, every call answered before the next turn
    and no system message between other messages after a call. *)
Theorem own_transcript_unchanged m norm now l :
  forallb (own_message m) l = true -> answered false l = true -> settled false false l = true ->
  TransformMessages m norm now l = Some l.
Proof.
  intros Ho Ha Hs. unfold TransformMessages, insertResults. rewrite (rewrite_own m norm l Ho). cbn [mbind option_bind].
  destruct (insert_all_total now l (mkPass [] [] ∅ [] 0)) as [s E].
  { intros x Hx. rewrite forallb_forall in Ho. apply list_elem_of_In, Ho in Hx. unfold own_message in Hx.
    apply andb_true_iff in Hx as [Hx _]. by apply bool_decide_eq_true in Hx. }
  rewrite E. cbn. f_equal. apply (insert_all_settled _ _ _ _ E Ha); [|intros c Hc; inversion Hc|done|done].
  rewrite forallb_forall in *. intros x Hx. apply negb_true_iff. by eapply own_not_failed, Ho.
Qed.

(** ** Witnesses *)

Lemma every_call_answered_witness :
  exists mid r rest,
    drop 2 (default [] (TransformMessages demo_model (Some demo_normalize) demo_clock demo_transcript)) = mid ++ r :: rest /\
    result_id r = Some "b".
Proof.
  destruct (every_call_answered demo_model (Some demo_normalize) demo_clock demo_transcript
    (default [] (TransformMessages demo_model (Some demo_normalize) demo_clock demo_transcript))
    (take 1 (default [] (TransformMessages demo_model (Some demo_normalize) demo_clock demo_transcript)))
    (default NilMessage (default [] (TransformMessages demo_model (Some demo_normalize) demo_clock demo_transcript) !! 1%nat))
    (with_assistant_content (demo_turn "other" StopToolUse [])
      (Some [text_block "reading"; Call (value (with_call {| tl_ID := "a"; tl_Name := "read"; tl_Arguments := None;
              tl_ThoughtSignature := ""; tl_Namespace := "" |} "a" ""));
             Call (value {| tl_ID := "b"; tl_Name := "read"; tl_Arguments := None; tl_ThoughtSignature := ""; tl_Namespace := "" |})]))
    (drop 2 (default [] (TransformMessages demo_model (Some demo_normalize) demo_clock demo_transcript)))
    {| tl_ID := "b"; tl_Name := "read"; tl_Arguments := None; tl_ThoughtSignature := ""; tl_Namespace := "" |})
    as (_ & mid & r & rest & H1 & H2 & _).
  - vm_compute. reflexivity.
  - vm_compute. reflexivity.
  - vm_compute. reflexivity.
  - vm_compute. right. left.
  - exists mid, r, rest. split; [exact H1|exact H2].
Defined.

Lemma transform_loses_nothing_witness :
  exists t out, rewriteMessages demo_model (Some demo_normalize) demo_transcript = Some t /\
    TransformMessages demo_model (Some demo_normalize) demo_clock demo_transcript = Some out /\
    length t = 6%nat /\ (forall y, y ∈ out -> shows_image y = false).
Proof.
  destruct (transform_loses_nothing demo_model (Some demo_normalize) demo_clock demo_transcript)
    as (t & out & Ht & Hout & Hr & _ & _ & _ & Hi).
  - apply Forall_forall. repeat constructor; discriminate.
  - exists t, out. split; [exact Ht|]. split; [exact Hout|]. split; [|apply Hi; reflexivity].
    apply (f_equal (@length _)) in Hr. rewrite !length_map in Hr. exact Hr.
Defined.

Lemma results_follow_calls_witness :
  exists t, rewriteMessages demo_model (Some demo_normalize) demo_answered = Some t /\
    default [] (TransformMessages demo_model (Some demo_normalize) demo_clock demo_answered) ≡ₚ replayed t.
Proof.
  apply (results_follow_calls demo_model (Some demo_normalize) demo_clock demo_answered).
  - vm_compute. reflexivity.
  - vm_compute. repeat constructor; rewrite ?elem_of_cons, ?elem_of_nil; intuition discriminate.
  - vm_compute. reflexivity.
Defined.

Lemma own_transcript_unchanged_witness :
  TransformMessages demo_model (Some demo_normalize) demo_clock demo_own = Some demo_own.
Proof.
  apply own_transcript_unchanged; vm_compute; reflexivity.
Defined.
