(* ===== verification/SessionTree.v ===== *)
(** * Session entries and the session manager ([internal/pi/model/session.go],
    [internal/pi/history/session_manager.go])

    A session is an append-only list of entries that form a tree by their
    parent ids, an index by id, labels, and a leaf.  Every entry the program
    builds or decodes is a non-nil pointer to one of the entry structs, so an
    entry is its struct; the embedded [SessionEntryBase] is [se_Base]. *)

From S2P Require Import Prelude GoText PiModel.

(** ** Entries *)

Record SessionEntryBase := {
  eb_Type : string;
  eb_ID : string;
  eb_ParentID : option string;
  eb_Timestamp : string;
}.

Record CompactionEntry := {
  ce_Summary : string;
  ce_FirstKeptEntryID : string;
  ce_TokensBefore : Z;
  ce_Details : any;
  ce_Usage : option Usage;
  ce_FromHook : bool;
  ce_SystemMessage : option SystemMessage;
}.

Record BranchSummaryEntry := {
  bs_FromID : string;
  bs_Summary : string;
  bs_Details : any;
  bs_Usage : option Usage;
  bs_FromHook : bool;
}.

Record CustomMessageEntry := {
  cu_CustomType : string;
  cu_Content : ContentList;
  cu_Details : any;
  cu_Display : bool;
  cu_contentWasString : bool;
}.

(** [ContextEditEntry]: a replacement is its content, nil to omit. *)
Record ContextEditEntry := {
  xe_TargetID : string;
  xe_Replacement : option ContentList;
}.

Record LabelEntry := { le_TargetID : string; le_Label : option string }.

Inductive EntryBody : Type :=
| BMessage (m : Message)
| BThinkingLevelChange (level : string)
| BModelChange (provider modelID : string)
| BUsage (kind provider model : string) (usage : Usage) (note : string)
| BCompaction (c : CompactionEntry)
| BBranchSummary (b : BranchSummaryEntry)
| BCustom (customType : string) (data : any)
| BLabel (l : LabelEntry)
| BSessionInfo (name : string)
| BCustomMessage (c : CustomMessageEntry)
| BContextEdit (e : ContextEditEntry).

Record SessionEntry := { se_Base : SessionEntryBase; se_Body : EntryBody }.

Definition entry_id (e : SessionEntry) : string := eb_ID (se_Base e).
Definition entry_parent (e : SessionEntry) : option string := eb_ParentID (se_Base e).

(** [entry.EntryType()], the recorded field. *)
Definition EntryType (e : SessionEntry) : string := eb_Type (se_Base e).

(** The type name each struct is written with and built with. *)
Definition body_type (b : EntryBody) : string :=
  match b with
  | BMessage _ => "message"
  | BThinkingLevelChange _ => "thinking_level_change"
  | BModelChange _ _ => "model_change"
  | BUsage _ _ _ _ _ => "usage"
  | BCompaction _ => "compaction"
  | BBranchSummary _ => "branch_summary"
  | BCustom _ _ => "custom"
  | BLabel _ => "label"
  | BSessionInfo _ => "session_info"
  | BCustomMessage _ => "custom_message"
  | BContextEdit _ => "context_edit"
  end.

(** [NewSessionEntry]: the names [UnmarshalSessionEntry] accepts. *)
Definition entry_types : list string :=
  ["message"; "thinking_level_change"; "model_change"; "usage"; "compaction"; "branch_summary";
   "custom"; "custom_message"; "context_edit"; "label"; "session_info"].

Definition NewSessionEntry (entryType : string) : bool := existsb (String.eqb entryType) entry_types.

Definition setEntryParent (e : SessionEntry) (parent : option string) : SessionEntry :=
  {| se_Base := {| eb_Type := eb_Type (se_Base e); eb_ID := eb_ID (se_Base e);
                   eb_ParentID := parent; eb_Timestamp := eb_Timestamp (se_Base e) |};
     se_Body := se_Body e |}.

(** ** Walking to the root

    [buildSessionPath], [GetBranch], [branchUnlocked] and
    [branchFromUnlocked] share this loop: it collects entries from one to its
    root.  [None] is a loop that does not end within [fuel] entries. *)

Fixpoint walk (index : gmap string SessionEntry) (fuel : nat) (current : option SessionEntry) (path : list SessionEntry)
    : option (list SessionEntry) :=
  match current with
  | None => Some path
  | Some e =>
      match fuel with
      | O => None
      | S fuel =>
          walk index fuel (match entry_parent e with Some p => index !! p | None => None end) (e :: path)
      end
  end.

(** A chain of distinct entries is no longer than the index, whose size and
    one more is the fuel: the first entry need not be in the index. *)
Definition walk_from (index : gmap string SessionEntry) (start : option SessionEntry) : option (list SessionEntry) :=
  walk index (S (size index)) start [].

(** ** The session manager *)

Inductive history_error :=
| ENotFound (id : string)
| ENotOnBranch (id : string)
| ENotEditable (id : string)
| EPersist.

Record SessionManager := mkManager {
  sm_entries : list SessionEntry;
  sm_byID : gmap string SessionEntry;
  sm_labelsByID : gmap string string;
  sm_labelTimestampsByID : gmap string string;
  sm_leafID : option string;
}.

(** [newSession]: no entries. *)
Definition newSession : SessionManager := mkManager [] ∅ ∅ ∅ None.

Definition with_leaf (sm : SessionManager) (leaf : option string) : SessionManager :=
  mkManager (sm_entries sm) (sm_byID sm) (sm_labelsByID sm) (sm_labelTimestampsByID sm) leaf.

(** Recording a label entry in the two maps. *)
Definition record_label (sm : SessionManager) (l : LabelEntry) (timestamp : string) : SessionManager :=
  match le_Label l with
  | Some label =>
      mkManager (sm_entries sm) (sm_byID sm) (<[le_TargetID l := label]> (sm_labelsByID sm))
        (<[le_TargetID l := timestamp]> (sm_labelTimestampsByID sm)) (sm_leafID sm)
  | None =>
      mkManager (sm_entries sm) (sm_byID sm) (delete (le_TargetID l) (sm_labelsByID sm))
        (delete (le_TargetID l) (sm_labelTimestampsByID sm)) (sm_leafID sm)
  end.

(** One iteration of [buildIndex]. *)
Definition index_entry (sm : SessionManager) (e : SessionEntry) : SessionManager :=
  let sm := mkManager (sm_entries sm) (<[entry_id e := e]> (sm_byID sm)) (sm_labelsByID sm)
              (sm_labelTimestampsByID sm) (Some (entry_id e)) in
  match se_Body e with
  | BLabel l => record_label sm l (eb_Timestamp (se_Base e))
  | _ => sm
  end.

Definition buildIndex (entries : list SessionEntry) : SessionManager :=
  foldl index_entry (mkManager entries ∅ ∅ ∅ None) entries.

(** *** Queries *)

Definition GetEntry (sm : SessionManager) (id : string) : option SessionEntry := sm_byID sm !! id.

Definition GetLeafEntry (sm : SessionManager) : option SessionEntry :=
  sm_leafID sm ≫= fun id => sm_byID sm !! id.

Definition GetChildren (sm : SessionManager) (parentID : string) : list SessionEntry :=
  List.filter (fun e => bool_decide (entry_parent e = Some parentID)) (sm_entries sm).

Definition GetLabel (sm : SessionManager) (id : string) : option string := sm_labelsByID sm !! id.

Definition start_of (sm : SessionManager) (id : option string) : option SessionEntry :=
  id ≫= fun id => sm_byID sm !! id.

(** [GetBranch()] with no argument starts at the leaf. *)
Definition GetBranch (sm : SessionManager) (fromID : option string) : option (list SessionEntry) :=
  walk_from (sm_byID sm) (start_of sm (match fromID with Some id => Some id | None => sm_leafID sm end)).

(** [branchUnlocked]: from the leaf, the empty id when there is none. *)
Definition branchUnlocked (sm : SessionManager) : option (list SessionEntry) :=
  reverse <$> walk_from (sm_byID sm) (sm_byID sm !! default "" (sm_leafID sm)).

Definition branchFromUnlocked (sm : SessionManager) (leafID : string) : option (list SessionEntry) :=
  walk_from (sm_byID sm) (sm_byID sm !! leafID).

(** *** Moving the leaf *)

Definition Branch (sm : SessionManager) (branchFromID : string) : result history_error SessionManager :=
  match sm_byID sm !! branchFromID with
  | None => Err (ENotFound branchFromID)
  | Some _ => Ok (with_leaf sm (Some branchFromID))
  end.

Definition ResetLeaf (sm : SessionManager) : SessionManager := with_leaf sm None.

(** *** Appending

    [fresh] is the id [generateID] draws and [stamp] the reading of the
    clock; [persist] tells whether writing the entry to the session file
    succeeds.  The session in memory has the entry either way. *)

Record Env := { en_id : string; en_stamp : string; en_persist : bool }.

Definition appendEntry (sm : SessionManager) (persist : bool) (entry : SessionEntry)
    : SessionManager * result history_error string :=
  let sm := mkManager (sm_entries sm ++ [entry]) (<[entry_id entry := entry]> (sm_byID sm)) (sm_labelsByID sm)
              (sm_labelTimestampsByID sm) (Some (entry_id entry)) in
  (sm, if persist then Ok (entry_id entry) else Err EPersist).

Definition new_entry (sm : SessionManager) (env : Env) (body : EntryBody) : SessionEntry :=
  {| se_Base := {| eb_Type := body_type body; eb_ID := en_id env; eb_ParentID := sm_leafID sm;
                   eb_Timestamp := en_stamp env |};
     se_Body := body |}.

Definition append_body (sm : SessionManager) (env : Env) (body : EntryBody) : SessionManager * result history_error string :=
  appendEntry sm (en_persist env) (new_entry sm env body).

Definition AppendMessage (sm : SessionManager) (env : Env) (message : Message) :=
  append_body sm env (BMessage message).

Definition AppendThinkingLevelChange (sm : SessionManager) (env : Env) (level : string) :=
  append_body sm env (BThinkingLevelChange level).

Definition AppendModelChange (sm : SessionManager) (env : Env) (provider modelID : string) :=
  append_body sm env (BModelChange provider modelID).

Definition AppendUsage (sm : SessionManager) (env : Env) (kind provider name : string) (usage : Usage) (note : string) :=
  append_body sm env (BUsage kind provider name usage note).

Definition AppendCustomEntry (sm : SessionManager) (env : Env) (customType : string) (data : any) :=
  append_body sm env (BCustom customType data).

Definition AppendCustomMessageEntry (sm : SessionManager) (env : Env) (customType : string) (content : ContentList)
    (display : bool) (details : any) :=
  append_body sm env (BCustomMessage {| cu_CustomType := customType; cu_Content := content; cu_Details := details;
                                        cu_Display := display; cu_contentWasString := false |}).

(** Runs of carriage returns and newlines become one space. *)
Fixpoint collapse_breaks (prev : bool) (s : text) : text :=
  match s with
  | [] => []
  | c :: rest =>
      if (code c =? 13) || (code c =? 10) then
        if prev then collapse_breaks true rest else byte 32 :: collapse_breaks true rest
      else c :: collapse_breaks false rest
  end.

Definition sanitize_name (name : string) : string :=
  String.string_of_list_ascii (trim_space (collapse_breaks false (lit name))).

Definition AppendSessionInfo (sm : SessionManager) (env : Env) (name : string) :=
  append_body sm env (BSessionInfo (sanitize_name name)).

Definition AppendLabelChange (sm : SessionManager) (env : Env) (targetID : string) (label : option string)
    : SessionManager * result history_error string :=
  match sm_byID sm !! targetID with
  | None => (sm, Err (ENotFound targetID))
  | Some _ =>
      let l := {| le_TargetID := targetID; le_Label := label |} in
      match append_body sm env (BLabel l) with
      | (sm, Err e) => (sm, Err e)
      | (sm, Ok id) => (record_label sm l (en_stamp env), Ok id)
      end
  end.

Definition editableContextEntry (e : SessionEntry) : option bool :=
  match se_Body e with
  | BCustomMessage _ => Some true
  | BMessage m =>
      (fun r => match r with RoleUser | RoleAssistant | RoleToolResult => true | _ => false end) <$> MessageRole m
  | _ => Some false
  end.

(** [None] is the panic of [editableContextEntry] on a nil message, or a walk
    that does not end. *)
Definition AppendContextEdit (sm : SessionManager) (env : Env) (targetID : string) (replacement : option ContentList)
    : option (SessionManager * result history_error string) :=
  match sm_byID sm !! targetID with
  | None => Some (sm, Err (ENotFound targetID))
  | Some target =>
      branch ← branchUnlocked sm;
      if negb (existsb (fun e => String.eqb (entry_id e) targetID) branch) then Some (sm, Err (ENotOnBranch targetID))
      else
        editable ← editableContextEntry target;
        if negb editable then Some (sm, Err (ENotEditable targetID))
        else Some (append_body sm env (BContextEdit {| xe_TargetID := targetID; xe_Replacement := replacement |}))
  end.

Definition BranchWithSummary (sm : SessionManager) (env : Env) (branchFromID : option string) (summary : string)
    (details : any) (fromHook : bool) (usage : option Usage) : SessionManager * result history_error string :=
  match branchFromID with
  | Some id =>
      match sm_byID sm !! id with
      | None => (sm, Err (ENotFound id))
      | Some _ =>
          append_body (with_leaf sm branchFromID) env
            (BBranchSummary {| bs_FromID := default "root" (sm_leafID sm); bs_Summary := summary;
                               bs_Details := details; bs_Usage := usage; bs_FromHook := fromHook |})
      end
  | None =>
      append_body (with_leaf sm None) env
        (BBranchSummary {| bs_FromID := default "root" (sm_leafID sm); bs_Summary := summary;
                           bs_Details := details; bs_Usage := usage; bs_FromHook := fromHook |})
  end.
