(* ===== verification/Transcript.v ===== *)
(** * System messages and tools of a transcript ([internal/pi/model/transcript.go],
    [sections.go], [text.go])

    A transcript carries its prompt and its tools in system messages, each a
    change to what came before.  These functions replay the changes. *)

From S2P Require Import Prelude GoText PiModel.

(** ** Definitions *)

(** *** Prompt sections ([sections.go]) *)

Definition is_section (name : string) (s : SystemSection) : bool := String.eqb (ss_Name s) name.

(** Removes the first section with the name. *)
Fixpoint section_delete (s : list SystemSection) (name : string) : list SystemSection :=
  match s with
  | [] => []
  | x :: rest => if is_section name x then rest else x :: section_delete rest name
  end.

(** [Set]: the first slot of the name takes the value and one repeat after it
    goes. *)
Fixpoint section_set (s : list SystemSection) (name : string) (v : option string) : list SystemSection :=
  match s with
  | [] => [{| ss_Name := name; ss_Value := v |}]
  | x :: rest =>
      if is_section name x then {| ss_Name := ss_Name x; ss_Value := v |} :: section_delete rest name
      else x :: section_set rest name v
  end.

(** Writes a value at the slot of a name already listed. *)
Fixpoint section_overwrite (s : list SystemSection) (name : string) (v : option string) : list SystemSection :=
  match s with
  | [] => []
  | x :: rest =>
      if is_section name x then {| ss_Name := ss_Name x; ss_Value := v |} :: rest
      else x :: section_overwrite rest name v
  end.

(** [Entries]: distinct names, the first slot and the last value of each. *)
Definition section_entries (s : list SystemSection) : list SystemSection :=
  foldl (fun out x =>
    if existsb (is_section (ss_Name x)) out then section_overwrite out (ss_Name x) (ss_Value x)
    else out ++ [x]) [] s.

(** [Len] of a list that is not nil: the number of distinct names. *)
Definition section_len (s : list SystemSection) : nat :=
  size (list_to_set (ss_Name <$> s) : gset string).

(** *** Rendering ([text.go]) *)

Definition is_text (t : text) : bool := match t with [] => false | _ => true end.

(** [ContentText(content)]: the blocks joined by a newline. *)
Definition content_text (content : ContentList) : text := join [newline] (content_texts content).

Definition GetSystemMessageText (message : SystemMessage) : text :=
  let parts := content_text (sm_Content message) ::
    omap (fun s => lit <$> ss_Value s) (section_entries (sm_Sections message)) in
  join [newline; newline] (List.filter is_text parts).

Definition RenderSystemMessageUpdate (message : SystemMessage) : text :=
  let text := content_text (sm_Content message) in
  join [newline; newline]
    ((match text with [] => [] | _ => [text] end) ++
     map (fun s => match ss_Value s with
                   | None => lit "Removed system prompt section " ++ [byte 34] ++ lit (ss_Name s) ++ [byte 34] ++ lit "."
                   | Some v => lit "Updated system prompt section " ++ [byte 34] ++ lit (ss_Name s) ++ [byte 34] ++ lit ":"
                               ++ [newline; newline] ++ lit v
                   end) (section_entries (sm_Sections message))).

(** *** Tools by name, in the order of their first declaration *)

Record toolMap := mkTools { tm_order : list string; tm_byName : gmap string Tool }.

Definition newToolMap : toolMap := mkTools [] ∅.

Definition tm_set (m : toolMap) (tool : Tool) : toolMap :=
  mkTools (match tm_byName m !! to_Name tool with None => tm_order m ++ [to_Name tool] | Some _ => tm_order m end)
    (<[to_Name tool := tool]> (tm_byName m)).

(** Removes the first occurrence of the name. *)
Fixpoint remove_name (order : list string) (name : string) : list string :=
  match order with
  | [] => []
  | n :: rest => if String.eqb n name then rest else n :: remove_name rest name
  end.

Definition tm_delete (m : toolMap) (name : string) : toolMap :=
  match tm_byName m !! name with
  | None => m
  | Some _ => mkTools (remove_name (tm_order m) name) (delete name (tm_byName m))
  end.

(** The zero [Tool] a missing name would read. *)
Definition no_tool : Tool :=
  {| to_Name := ""; to_Description := ""; to_Parameters := ANil; to_ConstrainedSampling := None |}.

Definition tm_values (m : toolMap) : list Tool :=
  map (fun name => default no_tool (tm_byName m !! name)) (tm_order m).

Definition apply_tools (tools : toolMap) (system : SystemMessage) : toolMap :=
  foldl tm_set (foldl tm_delete tools (sm_ToolsRemoved system)) (sm_ToolsAdded system).

(** The system messages among the messages, pointers followed. *)
Definition systems (messages : list Message) : list SystemMessage := omap systemMessageOf messages.

Definition GetCurrentTools (messages : list Message) : list Tool :=
  tm_values (foldl apply_tools newToolMap (systems messages)).

(** *** The current system message *)

Definition NewSystemText (s : string) (timestamp : Z) : SystemMessage :=
  {| sm_Content := Some [text_block s]; sm_Sections := []; sm_ToolsAdded := []; sm_ToolsRemoved := [];
     sm_Timestamp := timestamp; sm_contentWasString := true |}.

Definition apply_section (sections : list SystemSection) (s : SystemSection) : list SystemSection :=
  match ss_Value s with
  | None => section_delete sections (ss_Name s)
  | Some _ => section_set sections (ss_Name s) (ss_Value s)
  end.

Definition apply_sections (sections : list SystemSection) (system : SystemMessage) : list SystemSection :=
  foldl apply_section sections (section_entries (sm_Sections system)).

Definition prompt_texts (l : list SystemMessage) : list text :=
  List.filter is_text (map (fun s => content_text (sm_Content s)) l).

(** [ToolsAdded] is assigned from [values] when there are tools, so an empty
    list stays the empty list. *)
Definition GetCurrentSystemMessage (messages : list Message) : option SystemMessage :=
  let l := systems messages in
  let tools := GetCurrentTools messages in
  match l with
  | [] => None
  | first :: _ =>
      let current := NewSystemText (String.string_of_list_ascii (join [newline; newline] (prompt_texts l))) (sm_Timestamp first) in
      Some {| sm_Content := sm_Content current; sm_Sections := foldl apply_sections [] l; sm_ToolsAdded := tools;
              sm_ToolsRemoved := []; sm_Timestamp := sm_Timestamp current; sm_contentWasString := true |}
  end.

Definition GetCurrentSystemPrompt (messages : list Message) : text :=
  match GetCurrentSystemMessage messages with
  | Some message => GetSystemMessageText message
  | None => []
  end.

(** *** Building and collapsing transcripts *)

Definition CreateInitialSystemMessage (systemPrompt : string) (tools : list Tool) : option SystemMessage :=
  if String.eqb systemPrompt "" && (match tools with [] => true | _ => false end) then None
  else
    Some {| sm_Content := Some [text_block systemPrompt]; sm_Sections := []; sm_ToolsAdded := tools;
            sm_ToolsRemoved := []; sm_Timestamp := 0; sm_contentWasString := true |}.

Definition NormalizeContext (systemPrompt : string) (tools : list Tool) (messages : list Message) : list Message :=
  match CreateInitialSystemMessage systemPrompt tools with
  | None => messages
  | Some initial => MSystem (value initial) :: messages
  end.

Definition GetInitialSystemMessage (messages : list Message) : option SystemMessage :=
  match messages with [] => None | m :: _ => systemMessageOf m end.

Definition WithoutInitialSystemMessage (messages : list Message) : list Message :=
  match GetInitialSystemMessage messages with Some _ => tail messages | None => messages end.

(** [None] is the panic of [MessageRole] on a nil message. *)
Fixpoint without_system (messages : list Message) : option (list Message) :=
  match messages with
  | [] => Some []
  | m :: rest =>
      role ← MessageRole m;
      rest ← without_system rest;
      Some (if decide (role = RoleSystem) then rest else m :: rest)
  end.

Definition CollapseSystemMessages (messages : list Message) : option (list Message) :=
  rest ← without_system messages;
  Some match GetCurrentSystemMessage messages with
       | Some head => MSystem (value head) :: rest
       | None => rest
       end.

Definition ResolveTranscript (messages : list Message) (supportsMidConvoSystemMessages : bool) : option (list Message) :=
  if supportsMidConvoSystemMessages then Some messages else CollapseSystemMessages messages.

(** A removal, or a name declared twice, among the system messages. *)
Fixpoint redeclares (declared : gset string) (tools : list Tool) : gset string + unit :=
  match tools with
  | [] => inl declared
  | t :: rest => if decide (to_Name t ∈ declared) then inr () else redeclares ({[ to_Name t ]} ∪ declared) rest
  end.

Fixpoint non_additive (declared : gset string) (l : list SystemMessage) : bool :=
  match l with
  | [] => false
  | s :: rest =>
      match sm_ToolsRemoved s with
      | _ :: _ => true
      | [] => match redeclares declared (sm_ToolsAdded s) with
              | inr _ => true
              | inl declared => non_additive declared rest
              end
      end
  end.

Definition HasNonAdditiveToolChanges (messages : list Message) : bool := non_additive ∅ (systems messages).

(** The request tools and whether later additions stay in place. *)
Definition ResolveTranscriptTools (messages : list Message) (supportsToolAdditions : bool) : list Tool * bool :=
  if supportsToolAdditions && negb (HasNonAdditiveToolChanges messages) then
    (match GetInitialSystemMessage messages with Some initial => sm_ToolsAdded initial | None => [] end, true)
  else (GetCurrentTools messages, false).

Definition GetDeclaredTools (messages : list Message) : list Tool :=
  tm_values (foldl (fun m s => foldl tm_set m (sm_ToolsAdded s)) newToolMap (systems messages)).

(** ** Tool maps *)

Record tools_wf (m : toolMap) : Prop := {
  tw_nodup : NoDup (tm_order m);
  tw_dom : forall n, n ∈ tm_order m <-> is_Some (tm_byName m !! n);
  tw_name : forall n t, tm_byName m !! n = Some t -> to_Name t = n;
}.

Lemma tools_wf_empty : tools_wf newToolMap.
Proof.
  split; cbn; [constructor| |intros n t H; by rewrite lookup_empty in H].
  intros n. rewrite lookup_empty. split; [intros H; inversion H|intros [? ?]; discriminate].
Qed.

Lemma tm_set_wf m t : tools_wf m -> tools_wf (tm_set m t).
Proof.
  intros [Hn Hd He]. unfold tm_set. split; cbn.
  - destruct (tm_byName m !! to_Name t) eqn:E; [done|]. apply NoDup_app. split_and!; [done| |apply NoDup_singleton].
    intros x Hx ->%list_elem_of_singleton. apply Hd in Hx as [? ?]. congruence.
  - intros n. destruct (decide (n = to_Name t)) as [->|Hne].
    + rewrite lookup_insert_eq. split; [eauto|]. intros _. destruct (tm_byName m !! to_Name t) eqn:E; [apply Hd; eauto|set_solver].
    + rewrite lookup_insert_ne by done. rewrite <- Hd. destruct (tm_byName m !! to_Name t); [done|].
      rewrite elem_of_app, list_elem_of_singleton. naive_solver.
  - intros n t'. destruct (decide (n = to_Name t)) as [->|Hne].
    + rewrite lookup_insert_eq. congruence.
    + rewrite lookup_insert_ne by done. apply He.
Qed.

Lemma remove_name_spec order n x : NoDup order -> x ∈ remove_name order n <-> x ∈ order /\ x <> n.
Proof.
  induction 1 as [|y order Hy _ IH]; cbn [remove_name]; [set_solver|].
  destruct (String.eqb_spec y n) as [->|Hne]; [|rewrite !elem_of_cons, IH; naive_solver].
  rewrite elem_of_cons. split; [intros Hx; split; [by right|congruence]|]. naive_solver.
Qed.

Lemma remove_name_nodup order n : NoDup order -> NoDup (remove_name order n).
Proof.
  induction 1 as [|y order Hy Hn IH]; cbn [remove_name]; [constructor|].
  destruct (String.eqb_spec y n); [done|]. constructor; [|done]. rewrite remove_name_spec by done. naive_solver.
Qed.

Lemma tm_delete_wf m n : tools_wf m -> tools_wf (tm_delete m n).
Proof.
  intros [Hn Hd He]. unfold tm_delete. destruct (tm_byName m !! n) eqn:E; [|done]. split; cbn.
  - by apply remove_name_nodup.
  - intros x. rewrite remove_name_spec by done. destruct (decide (x = n)) as [->|Hne].
    + rewrite lookup_delete_eq. split; [naive_solver|intros [? ?]; discriminate].
    + rewrite lookup_delete_ne by done. rewrite <- Hd. naive_solver.
  - intros x t0 [_ H]%lookup_delete_Some. by apply He.
Qed.

Lemma foldl_wf {A} (f : toolMap -> A -> toolMap) l m :
  (forall m a, tools_wf m -> tools_wf (f m a)) -> tools_wf m -> tools_wf (foldl f m l).
Proof. intros Hf. revert m. induction l; intros m H; cbn; auto. Qed.

Lemma apply_tools_wf m s : tools_wf m -> tools_wf (apply_tools m s).
Proof. intros H. unfold apply_tools. auto using foldl_wf, tm_set_wf, tm_delete_wf. Qed.

Lemma current_tools_wf l : tools_wf (foldl apply_tools newToolMap l).
Proof. auto using foldl_wf, apply_tools_wf, tools_wf_empty. Qed.

(** Declaring tools with new names appends them. *)
Lemma declare_new l m :
  tools_wf m -> NoDup (to_Name <$> l) -> (forall t, t ∈ l -> tm_byName m !! to_Name t = None) ->
  tm_values (foldl tm_set m l) = tm_values m ++ l.
Proof.
  revert m. induction l as [|t l IH]; intros m Hw Hn Hf; [by rewrite app_nil_r|].
  rewrite fmap_cons in Hn. apply NoDup_cons in Hn as [Hnin Hn].
  cbn [foldl]. rewrite IH; [|by apply tm_set_wf|done|].
  - assert (tm_byName m !! to_Name t = None) as E by (apply Hf; left).
    unfold tm_values, tm_set. cbn. rewrite E, map_app, <- app_assoc. f_equal.
    + apply map_ext_in. intros n Hin%list_elem_of_In. rewrite lookup_insert_ne; [done|].
      intros <-. apply (tw_dom _ Hw) in Hin as [? ?]. congruence.
    + cbn. by rewrite lookup_insert_eq.
  - intros t' Hin. cbn. rewrite lookup_insert_ne; [apply Hf; by right|].
    intros E. apply Hnin. rewrite E. by apply list_elem_of_fmap_2.
Qed.

Lemma values_names m : tools_wf m -> to_Name <$> tm_values m = tm_order m.
Proof.
  intros [Hn Hd He]. unfold tm_values. assert (forall n, n ∈ tm_order m -> is_Some (tm_byName m !! n)) as H by apply Hd.
  clear Hn Hd. induction (tm_order m) as [|n l IH]; [done|]. cbn. f_equal.
  - destruct (H n) as [t Ht]; [left|]. rewrite Ht. cbn. by apply He.
  - apply IH. intros x Hx. apply H. by right.
Qed.

Lemma redeclare_values m : tools_wf m -> tm_values (foldl tm_set newToolMap (tm_values m)) = tm_values m.
Proof.
  intros Hw. rewrite declare_new; [done|apply tools_wf_empty| |].
  - rewrite values_names by done. apply Hw.
  - intros t _. apply lookup_empty.
Qed.

(** ** Sections *)

(** Distinct names, all with a value: what the replay keeps. *)
Record sections_wf (s : list SystemSection) : Prop := {
  sw_nodup : NoDup (ss_Name <$> s);
  sw_value : forall x, x ∈ s -> is_Some (ss_Value x);
}.

Lemma section_delete_sub s n x : x ∈ section_delete s n -> x ∈ s.
Proof. induction s as [|y s IH]; [done|]. cbn. case_match; rewrite ?elem_of_cons; naive_solver. Qed.

Lemma section_delete_wf s n : sections_wf s -> sections_wf (section_delete s n).
Proof.
  intros [Hn Hv]. split; [|intros x Hx; by eapply Hv, section_delete_sub].
  clear Hv. induction s as [|y s IH]; [done|]. rewrite fmap_cons in Hn. apply NoDup_cons in Hn as [Hy Hn].
  cbn [section_delete]. case_match; [done|]. rewrite fmap_cons. constructor; [|auto].
  intros (z & Ez & Hz%section_delete_sub)%list_elem_of_fmap. apply Hy. rewrite Ez. by apply list_elem_of_fmap_2.
Qed.

Lemma section_delete_none s n : n ∉ (ss_Name <$> s) -> section_delete s n = s.
Proof.
  induction s as [|y s IH]; [done|]. rewrite fmap_cons, not_elem_of_cons. intros [Hy Hs]. cbn. unfold is_section.
  destruct (String.eqb_spec (ss_Name y) n); [congruence|]. by rewrite IH.
Qed.

Lemma section_set_names s n v : NoDup (ss_Name <$> s) ->
  ss_Name <$> section_set s n v = if decide (n ∈ (ss_Name <$> s)) then ss_Name <$> s else (ss_Name <$> s) ++ [n].
Proof.
  induction s as [|y s IH]; [done|]. rewrite fmap_cons. intros [Hy Hn]%NoDup_cons. cbn [section_set]. unfold is_section.
  destruct (String.eqb_spec (ss_Name y) n) as [<-|Hne].
  - rewrite decide_True by (by left). rewrite fmap_cons, section_delete_none by done. done.
  - rewrite fmap_cons, IH by done. destruct (decide (n ∈ ss_Name <$> s)).
    + rewrite decide_True by (by right). done.
    + rewrite decide_False; [done|]. rewrite not_elem_of_cons. done.
Qed.

Lemma section_set_elem s n v x : x ∈ section_set s n v -> x ∈ s \/ ss_Value x = v.
Proof.
  induction s as [|y s IH]; cbn [section_set]; [rewrite list_elem_of_singleton; intros ->; by right|].
  case_match; rewrite !elem_of_cons; [|naive_solver].
  intros [->|Hx%section_delete_sub]; [by right|left; by right].
Qed.

Lemma apply_section_wf s x : sections_wf s -> sections_wf (apply_section s x).
Proof.
  intros Hw. unfold apply_section. destruct (ss_Value x) as [v|]; [|by apply section_delete_wf].
  destruct Hw as [Hn Hv]. split.
  - rewrite section_set_names by done. case_decide; [done|]. apply NoDup_app. split_and!; [done| |apply NoDup_singleton].
    intros y Hy ->%list_elem_of_singleton. done.
  - intros y [Hy| ->]%section_set_elem; eauto.
Qed.

Lemma foldl_sections_wf {A} (f : list SystemSection -> A -> list SystemSection) l s :
  (forall s a, sections_wf s -> sections_wf (f s a)) -> sections_wf s -> sections_wf (foldl f s l).
Proof. intros Hf. revert s. induction l; intros s H; cbn; auto. Qed.

Lemma current_sections_wf l : sections_wf (foldl apply_sections [] l).
Proof.
  apply foldl_sections_wf; [|split; [constructor|intros x Hx; inversion Hx]].
  intros s a Hs. unfold apply_sections. auto using foldl_sections_wf, apply_section_wf.
Qed.

Lemma entries_distinct s out :
  NoDup (ss_Name <$> (out ++ s)) ->
  foldl (fun out x =>
    if existsb (is_section (ss_Name x)) out then section_overwrite out (ss_Name x) (ss_Value x)
    else out ++ [x]) out s = out ++ s.
Proof.
  revert out. induction s as [|x s IH]; intros out Hn; [by rewrite app_nil_r|]. cbn [foldl].
  assert (existsb (is_section (ss_Name x)) out = false) as ->.
  { apply not_true_iff_false. intros (y & Hy & E)%existsb_exists. unfold is_section in E. apply String.eqb_eq in E.
    rewrite fmap_app, fmap_cons in Hn. apply NoDup_app in Hn as (_ & Hd & _). apply (Hd (ss_Name x)); [|left].
    rewrite <- E. apply list_elem_of_fmap_2. by apply list_elem_of_In. }
  rewrite IH; rewrite <- app_assoc; done.
Qed.

Lemma section_entries_id s : NoDup (ss_Name <$> s) -> section_entries s = s.
Proof. intros H. by apply (entries_distinct s []). Qed.

Lemma section_set_new s x : ss_Name x ∉ (ss_Name <$> s) -> section_set s (ss_Name x) (ss_Value x) = s ++ [x].
Proof.
  induction s as [|y s IH]; cbn [section_set]; [by destruct x|]. rewrite fmap_cons, not_elem_of_cons. intros [Hy Hs].
  unfold is_section. destruct (String.eqb_spec (ss_Name y) (ss_Name x)); [congruence|]. by rewrite IH.
Qed.

Lemma apply_distinct s out :
  NoDup (ss_Name <$> (out ++ s)) -> (forall x, x ∈ s -> is_Some (ss_Value x)) -> foldl apply_section out s = out ++ s.
Proof.
  revert out. induction s as [|x s IH]; intros out Hn Hv; [by rewrite app_nil_r|]. cbn [foldl].
  destruct (Hv x) as [v Ev]; [by left|]. unfold apply_section at 2. rewrite Ev, <- Ev, section_set_new.
  - rewrite IH; [by rewrite <- app_assoc|by rewrite <- app_assoc|]. intros y Hy. apply Hv. by right.
  - rewrite fmap_app, fmap_cons in Hn. apply NoDup_app in Hn as (_ & Hd & _). intros Hin. apply (Hd _ Hin). left.
Qed.

Lemma reapply_sections s : sections_wf s -> foldl apply_section [] (section_entries s) = s.
Proof. intros [Hn Hv]. rewrite section_entries_id by done. by apply (apply_distinct s []). Qed.

(** ** Replaying a replayed message *)

Lemma lit_of (t : text) : lit (String.string_of_list_ascii t) = t.
Proof. apply String.list_ascii_of_string_of_list_ascii. Qed.

Lemma content_text_block s : content_text (Some [text_block s]) = lit s.
Proof. done. Qed.

Lemma join_filtered (t : text) : join [newline; newline] (List.filter is_text [t]) = t.
Proof. by destruct t. Qed.

(** Replaying the current system message alone gives it back. *)
Lemma current_fixed messages head :
  GetCurrentSystemMessage messages = Some head ->
  forall rest, systems rest = [] -> GetCurrentSystemMessage (MSystem (value head) :: rest) = Some head.
Proof.
  unfold GetCurrentSystemMessage, GetCurrentTools. destruct (systems messages) as [|first l] eqn:El; [discriminate|].
  rewrite <- El. intros [= <-] rest Hrest.
  assert (forall h, systems (MSystem (value h) :: rest) = [h]) as Hs by (intros h; unfold systems in *; cbn; by rewrite Hrest).
  rewrite Hs. clear Hs. cbn [foldl]. f_equal. f_equal.
  - unfold prompt_texts. cbn [map sm_Content NewSystemText]. by rewrite content_text_block, lit_of, join_filtered.
  - unfold apply_sections at 1. cbn [sm_Sections]. apply reapply_sections, current_sections_wf.
  - unfold apply_tools at 1. cbn [sm_ToolsRemoved sm_ToolsAdded foldl]. apply redeclare_values, current_tools_wf.
Qed.

Lemma without_system_none messages out : without_system messages = Some out -> systems out = [].
Proof.
  revert out. induction messages as [|m messages IH]; intros out H; cbn [without_system] in H.
  - by injection H as <-.
  - apply bind_Some in H as (r & Hr & H). apply bind_Some in H as (rest & H1 & [= <-]).
    case_decide as Hd; [by apply IH|]. unfold systems. cbn.
    destruct (systemMessageOf m) eqn:E; [|by apply IH].
    destruct m as [h| | | | | | | | |]; try discriminate. cbn in E, Hr. unfold role_of in Hr. rewrite E in Hr. naive_solver.
Qed.

Lemma current_none messages : GetCurrentSystemMessage messages = None <-> systems messages = [].
Proof. unfold GetCurrentSystemMessage. destruct (systems messages); split; (done || discriminate). Qed.

Lemma current_tools_of messages head : GetCurrentSystemMessage messages = Some head -> sm_ToolsAdded head = GetCurrentTools messages.
Proof. unfold GetCurrentSystemMessage. destruct (systems messages); [discriminate|]. by intros [= <-]. Qed.

Lemma without_system_idem messages out : without_system messages = Some out -> without_system out = Some out.
Proof.
  revert out. induction messages as [|m messages IH]; intros out H; cbn [without_system] in H.
  - by injection H as <-.
  - apply bind_Some in H as (r & Hr & H). apply bind_Some in H as (rest & H1 & [= <-]).
    case_decide as Hd; [by apply IH|]. cbn [without_system]. rewrite Hr. cbn [mbind option_bind].
    rewrite (IH _ H1). cbn [mbind option_bind]. by rewrite decide_False.
Qed.

Lemma systems_none_tools messages : systems messages = [] -> GetCurrentTools messages = [].
Proof. unfold GetCurrentTools. by intros ->. Qed.

(** ** Properties *)

(** C40: collapsing the system messages of a transcript into a leading one
    keeps the state they describe: the replayed system message (prompt,
    sections, timestamp) and the tools are the same before and after, the
    rest of the transcript has no system message, and collapsing again
    changes nothing. *)
Theorem collapse_keeps_state messages out :
  CollapseSystemMessages messages = Some out ->
  GetCurrentSystemMessage out = GetCurrentSystemMessage messages /\
  GetCurrentTools out = GetCurrentTools messages /\
  systems (WithoutInitialSystemMessage out) = [] /\
  CollapseSystemMessages out = Some out.
Proof.
  unfold CollapseSystemMessages at 1. intros (rest & H & [= <-])%bind_Some.
  pose proof (without_system_none _ _ H) as Hn. pose proof (without_system_idem _ _ H) as Hi.
  unfold CollapseSystemMessages. destruct (GetCurrentSystemMessage messages) as [head|] eqn:E.
  - pose proof (current_fixed _ _ E rest Hn) as Hf. split_and!; [done| |done|].
    + by rewrite <- (current_tools_of _ _ E), <- (current_tools_of _ _ Hf).
    + cbn [without_system MessageRole role_of deref fmap option_fmap option_map mbind option_bind].
      rewrite Hi. cbn [mbind option_bind]. by rewrite Hf.
  - assert (GetCurrentSystemMessage rest = None) as Hr by (by apply current_none).
    split_and!; [done| | |].
    + rewrite !systems_none_tools; [done| |done]. by apply current_none.
    + unfold WithoutInitialSystemMessage, GetInitialSystemMessage. destruct rest as [|m rest]; [done|].
      unfold systems in *. cbn in Hn. destruct (systemMessageOf m) eqn:Em; [discriminate|]. cbn. by rewrite Em.
    + rewrite Hi. cbn [mbind option_bind]. by rewrite Hr.
Qed.

Definition demo_tool (name : string) : Tool :=
  {| to_Name := name; to_Description := "d"; to_Parameters := ANil; to_ConstrainedSampling := None |}.

Definition demo_prompt (s : string) (added : list Tool) (removed : list string) : Message :=
  MSystem (value {| sm_Content := Some [text_block s];
                    sm_Sections := [{| ss_Name := "env"; ss_Value := Some s |}];
                    sm_ToolsAdded := added; sm_ToolsRemoved := removed; sm_Timestamp := 7; sm_contentWasString := true |}).

Definition demo_messages : list Message :=
  [demo_prompt "a" [demo_tool "read"; demo_tool "edit"] [];
   MUser (value {| um_Content := Some [text_block "hi"]; um_Timestamp := 8; um_contentWasString := true |});
   demo_prompt "b" [demo_tool "write"] ["read"]].

(** ** Witness *)

Lemma collapse_keeps_state_witness :
  CollapseSystemMessages demo_messages <> None /\
  to_Name <$> GetCurrentTools (default [] (CollapseSystemMessages demo_messages)) = ["edit"; "write"].
Proof.
  split; [vm_compute; discriminate|].
  destruct (collapse_keeps_state demo_messages (default [] (CollapseSystemMessages demo_messages))) as (_ & H & _).
  - vm_compute. reflexivity.
  - rewrite H. vm_compute. reflexivity.
Defined.
