(* ===== verification/SessionContext.v ===== *)
(** * The model-visible context of a session ([internal/pi/history/context.go])

    A session's path is projected to messages: a compaction hides what came
    before its first kept entry, a context edit replaces or omits what an
    entry contributes.  [None] is a path that loops, or the panic of
    [MessageRole] on a nil message. *)

From S2P Require Import Prelude GoText PiModel SessionTree Transcript.

(** ** Definitions *)

(** What the code leaves to the standard library and to types declared
    elsewhere: [time.Parse] of a timestamp, in milliseconds, and whether
    [json.Marshal] accepts a content block of a foreign type. *)
Class Platform := {
  parse_time : string -> option Z;
  other_block_marshals : nat -> bool;
}.

(** [json.Marshal] of a value of type [any] succeeds. *)
Fixpoint marshals (v : any) : bool :=
  match v with
  | AOpaque => false
  | AList l => forallb marshals l
  | AMap members => forallb (fun kv => marshals kv.2) members
  | _ => true
  end.

(** A text after a round trip through JSON: each byte that is not valid
    UTF-8 becomes U+FFFD. *)
Definition json_text (s : string) : string :=
  String.string_of_list_ascii (map_runes (fun r => r) (lit s)).

Section Context.
Context `{Platform}.

Definition timestampMillis (timestamp : string) : Z := default 0 (parse_time timestamp).

(** A nil pointer serializes to null, which [marshalContent] refuses. *)
Definition block_marshals (b : Content) : bool :=
  match b with
  | Text h => match deref h with Some _ => true | None => false end
  | Thinking h => match deref h with Some _ => true | None => false end
  | Image h => match deref h with Some _ => true | None => false end
  | Call h =>
      match deref h with
      | Some c => match tl_Arguments c with Some l => marshals (AMap l) | None => true end
      | None => false
      end
  | OtherBlock id => other_block_marshals id
  | NilBlock => true
  end.

Definition custom_entry_marshals (c : CustomMessageEntry) : bool :=
  forallb block_marshals (blocks (cu_Content c)) && marshals (cu_Details c).

Definition SessionEntryToContextMessages (entry : SessionEntry) : list Message :=
  let timestamp := timestampMillis (eb_Timestamp (se_Base entry)) in
  match se_Body entry with
  | BMessage m => [m]
  | BCustomMessage c =>
      if custom_entry_marshals c then
        match StringContent (cu_contentWasString c) (cu_Content c) with
        | Some text =>
            [MCustom (value {| cm_CustomType := cu_CustomType c; cm_Content := Some [text_block (json_text text)];
                               cm_Display := cu_Display c; cm_Details := cu_Details c; cm_Timestamp := timestamp;
                               cm_contentWasString := true |})]
        | None =>
            [MCustom (value {| cm_CustomType := cu_CustomType c; cm_Content := CloneContentList (cu_Content c);
                               cm_Display := cu_Display c; cm_Details := cu_Details c; cm_Timestamp := timestamp;
                               cm_contentWasString := false |})]
        end
      else []
  | BBranchSummary b =>
      if String.eqb (bs_Summary b) "" then []
      else [MBranchSummary (value {| bm_Summary := bs_Summary b; bm_FromID := Some (bs_FromID b); bm_Timestamp := timestamp |})]
  | BCompaction c =>
      let summary := MCompactionSummary (value {| sy_Summary := ce_Summary c; sy_TokensBefore := ce_TokensBefore c;
                                                  sy_Timestamp := timestamp |}) in
      match ce_SystemMessage c with
      | Some s => [MSystem (value s); summary]
      | None => [summary]
      end
  | _ => []
  end.

(** The content of a message of one of the four value types replaced. *)
Definition replace_content (replacement : ContentList) (message : Message) : Message :=
  match message with
  | MUser (value m) =>
      MUser (value {| um_Content := replacement; um_Timestamp := um_Timestamp m; um_contentWasString := um_contentWasString m |})
  | MAssistant (value m) =>
      MAssistant (value {| am_Content := replacement; am_Api := am_Api m; am_Provider := am_Provider m;
                           am_Model := am_Model m; am_Usage := am_Usage m; am_StopReason := am_StopReason m;
                           am_ErrorMessage := am_ErrorMessage m; am_Timestamp := am_Timestamp m; am_Rest := am_Rest m |})
  | MToolResult (value m) =>
      MToolResult (value {| tr_ToolCallID := tr_ToolCallID m; tr_ToolName := tr_ToolName m; tr_Content := replacement;
                            tr_Details := tr_Details m; tr_Usage := tr_Usage m; tr_IsError := tr_IsError m;
                            tr_Timestamp := tr_Timestamp m |})
  | MCustom (value m) =>
      MCustom (value {| cm_CustomType := cm_CustomType m; cm_Content := replacement; cm_Display := cm_Display m;
                        cm_Details := cm_Details m; cm_Timestamp := cm_Timestamp m;
                        cm_contentWasString := cm_contentWasString m |})
  | _ => message
  end.

Definition projectContextEntry (entry : SessionEntry) (edit : option ContextEditEntry) : list Message :=
  let messages := SessionEntryToContextMessages entry in
  match edit with
  | None => messages
  | Some edit =>
      match xe_Replacement edit with
      | None => []
      | Some content => map (replace_content (CloneContentList content)) messages
      end
  end.

Definition entries_index (entries : list SessionEntry) : gmap string SessionEntry :=
  foldl (fun index e => <[entry_id e := e]> index) ∅ entries.

Definition buildEntryIndex (entries : list SessionEntry) (byID : option (gmap string SessionEntry)) : gmap string SessionEntry :=
  match byID with Some index => index | None => entries_index entries end.

Definition buildSessionPath (entries : list SessionEntry) (leafID : option string)
    (byID : option (gmap string SessionEntry)) (useLast : bool) : option (list SessionEntry) :=
  let index := buildEntryIndex entries byID in
  let leaf := leafID ≫= fun id => index !! id in
  walk_from index (match leaf with Some e => Some e | None => if useLast then last entries else None end).

Definition session_setting (s : string * option (string * string)) (e : SessionEntry) : string * option (string * string) :=
  match se_Body e with
  | BThinkingLevelChange level => (level, s.2)
  | BModelChange provider modelID => (s.1, Some (provider, modelID))
  | BMessage (MAssistant (value a)) => (s.1, Some (am_Provider a, am_Model a))
  | _ => s
  end.

(** The thinking level and the provider and model of a path. *)
Definition getSessionContextSettings (path : list SessionEntry) : string * option (string * string) :=
  foldl session_setting ("off", None) path.

Definition compaction_of (e : SessionEntry) : option CompactionEntry :=
  match se_Body e with BCompaction c => Some c | _ => None end.

(** The newest compaction of a path. *)
Definition last_compaction (path : list SessionEntry) : option (SessionEntry * CompactionEntry) :=
  foldl (fun found e => match compaction_of e with Some c => Some (e, c) | None => found end) None path.

(** The index of the first entry with an id. *)
Fixpoint position_of_id (id : string) (path : list SessionEntry) : option nat :=
  match path with
  | [] => None
  | e :: rest => if String.eqb (entry_id e) id then Some O else S <$> position_of_id id rest
  end.

(** The loop over the entries before the compaction. *)
Fixpoint kept_entries (firstKept : string) (found : bool) (l : list SessionEntry) : option (list SessionEntry) :=
  match l with
  | [] => Some []
  | e :: rest =>
      let found := found || String.eqb (entry_id e) firstKept in
      if found then
        match se_Body e with
        | BMessage m =>
            role ← MessageRole m;
            rest ← kept_entries firstKept found rest;
            Some (if decide (role = RoleSystem) then rest else e :: rest)
        | _ => rest ← kept_entries firstKept found rest; Some (e :: rest)
        end
      else kept_entries firstKept found rest
  end.

Definition context_entries (path : list SessionEntry) : option (list SessionEntry) :=
  match last_compaction path with
  | None => Some path
  | Some (ce, c) =>
      match position_of_id (entry_id ce) path with
      | None => Some path
      | Some i =>
          kept ← kept_entries (ce_FirstKeptEntryID c) false (take i path);
          Some (ce :: kept ++ drop (S i) path)
      end
  end.

Definition buildContextEntries (entries : list SessionEntry) (leafID : option string)
    (byID : option (gmap string SessionEntry)) (useLast : bool) : option (list SessionEntry) :=
  buildSessionPath entries leafID byID useLast ≫= context_entries.

Record ProjectedSessionEntry := { pe_SourceEntry : SessionEntry; pe_Messages : list Message }.

Record SessionProjection := {
  sp_Entries : list ProjectedSessionEntry;
  sp_Messages : list Message;
  sp_ThinkingLevel : string;
  sp_Model : option (string * string);
}.

(** The last edit of each target. *)
Definition edits_of (entries : list SessionEntry) : gmap string ContextEditEntry :=
  foldl (fun edits e => match se_Body e with BContextEdit x => <[xe_TargetID x := x]> edits | _ => edits end) ∅ entries.

(** [first] says the entry is the first: a compaction elsewhere
    contributes nothing. *)
Definition project_entry (edits : gmap string ContextEditEntry) (first : bool) (e : SessionEntry) : ProjectedSessionEntry :=
  {| pe_SourceEntry := e;
     pe_Messages :=
       match compaction_of e with
       | Some _ => if first then projectContextEntry e (edits !! entry_id e) else []
       | None => projectContextEntry e (edits !! entry_id e)
       end |}.

Definition project_entries (entries : list SessionEntry) : list ProjectedSessionEntry :=
  let edits := edits_of entries in
  match entries with
  | [] => []
  | e :: rest => project_entry edits true e :: map (project_entry edits false) rest
  end.

Definition buildSessionProjection (entries : list SessionEntry) (leafID : option string)
    (byID : option (gmap string SessionEntry)) (useLast : bool) : option SessionProjection :=
  path ← buildSessionPath entries leafID byID useLast;
  contextEntries ← buildContextEntries entries leafID byID useLast;
  let projected := project_entries contextEntries in
  Some {| sp_Entries := projected; sp_Messages := concat (map pe_Messages projected);
          sp_ThinkingLevel := (getSessionContextSettings path).1; sp_Model := (getSessionContextSettings path).2 |}.

(** [GetLatestCompactionEntry] *)
Definition GetLatestCompactionEntry (entries : list SessionEntry) : option CompactionEntry :=
  snd <$> last_compaction entries.

(** The manager's own projection: the path to its leaf. *)
Definition manager_projection (sm : SessionManager) : option SessionProjection :=
  buildSessionProjection (sm_entries sm) (sm_leafID sm) (Some (sm_byID sm)) false.

Definition with_system_timestamp (s : SystemMessage) (timestamp : Z) : SystemMessage :=
  {| sm_Content := sm_Content s; sm_Sections := sm_Sections s; sm_ToolsAdded := sm_ToolsAdded s;
     sm_ToolsRemoved := sm_ToolsRemoved s; sm_Timestamp := timestamp; sm_contentWasString := sm_contentWasString s |}.

Definition AppendCompaction (sm : SessionManager) (env : Env) (summary : string) (firstKeptEntryID : option string)
    (tokensBefore : Z) (details : any) (fromHook : bool) (usage : option Usage)
    : option (SessionManager * result history_error string) :=
  projection ← manager_projection sm;
  Some (append_body sm env (BCompaction
    {| ce_Summary := summary; ce_FirstKeptEntryID := default (en_id env) firstKeptEntryID;
       ce_TokensBefore := tokensBefore; ce_Details := details; ce_Usage := usage; ce_FromHook := fromHook;
       ce_SystemMessage := (fun s => with_system_timestamp s (timestampMillis (en_stamp env))) <$>
                           GetCurrentSystemMessage (sp_Messages projection) |})).
End Context.
