(* ===== verification/SessionTreeProps.v ===== *)
(** * The session tree stays well formed

    The operations of the session manager as steps, the invariant they keep,
    and what follows: the walk to the root ends and yields the branch, and
    the entries alone rebuild the index. *)

From stdpp Require Import sorting.
From S2P Require Import Prelude GoText PiModel SessionTree Transcript SessionContext.

(** ** Definitions *)

(** A call of one of the methods that change a session. *)
Inductive op :=
| OpBranch (id : string)
| OpResetLeaf
| OpBranchWithSummary (from : option string) (summary : string) (details : any) (fromHook : bool) (usage : option Usage)
| OpMessage (m : Message)
| OpThinkingLevel (level : string)
| OpModel (provider modelID : string)
| OpUsage (kind provider name : string) (usage : Usage) (note : string)
| OpCompaction (summary : string) (firstKept : option string) (tokens : Z) (details : any) (fromHook : bool) (usage : option Usage)
| OpCustom (customType : string) (data : any)
| OpSessionInfo (name : string)
| OpCustomMessage (customType : string) (content : ContentList) (display : bool) (details : any)
| OpLabel (target : string) (label : option string)
| OpContextEdit (target : string) (replacement : option ContentList).

(** The id answered by the methods that only move the leaf. *)
Definition leaf_moved (sm : SessionManager) (r : result history_error SessionManager) : SessionManager * result history_error string :=
  match r with Ok sm' => (sm', Ok "") | Err e => (sm, Err e) end.

Section Steps.
Context {P : Platform}.

Definition run_op (sm : SessionManager) (env : Env) (o : op) : option (SessionManager * result history_error string) :=
  match o with
  | OpBranch id => Some (leaf_moved sm (Branch sm id))
  | OpResetLeaf => Some (ResetLeaf sm, Ok "")
  | OpBranchWithSummary from summary details fromHook usage =>
      Some (BranchWithSummary sm env from summary details fromHook usage)
  | OpMessage m => Some (AppendMessage sm env m)
  | OpThinkingLevel level => Some (AppendThinkingLevelChange sm env level)
  | OpModel provider modelID => Some (AppendModelChange sm env provider modelID)
  | OpUsage kind provider name usage note => Some (AppendUsage sm env kind provider name usage note)
  | OpCompaction summary firstKept tokens details fromHook usage =>
      AppendCompaction sm env summary firstKept tokens details fromHook usage
  | OpCustom customType data => Some (AppendCustomEntry sm env customType data)
  | OpSessionInfo name => Some (AppendSessionInfo sm env name)
  | OpCustomMessage customType content display details =>
      Some (AppendCustomMessageEntry sm env customType content display details)
  | OpLabel target label => Some (AppendLabelChange sm env target label)
  | OpContextEdit target replacement => AppendContextEdit sm env target replacement
  end.

(** [generateID] draws eight digits, or a UUID, that no entry has. *)
Definition fresh (sm : SessionManager) (env : Env) : Prop := sm_byID sm !! en_id env = None /\ en_id env <> "".

(** The sessions a new one becomes, whatever the calls answer;
    [ok] when every write to the session file succeeded. *)
Inductive reachable (ok : bool) : SessionManager -> Prop :=
| reach_new : reachable ok newSession
| reach_op sm env o sm' r :
    reachable ok sm -> fresh sm env -> (ok = true -> en_persist env = true) ->
    run_op sm env o = Some (sm', r) -> reachable ok sm'.
End Steps.

(** From a root down: each entry is the child of the one before. *)
Fixpoint chain (parent : option string) (path : list SessionEntry) : Prop :=
  match path with
  | [] => True
  | e :: rest => entry_parent e = parent /\ chain (Some (entry_id e)) rest
  end.

(** [above l t e]: [t] is an ancestor of [e] among the entries. *)
Inductive above (l : list SessionEntry) (t : SessionEntry) : SessionEntry -> Prop :=
| above_parent e : t ∈ l -> entry_parent e = Some (entry_id t) -> above l t e
| above_step u e : u ∈ l -> entry_parent e = Some (entry_id u) -> above l t u -> above l t e.

Record session_wf (sm : SessionManager) : Prop := {
  wf_ids : NoDup (entry_id <$> sm_entries sm);
  wf_index : forall id e, sm_byID sm !! id = Some e <-> e ∈ sm_entries sm /\ entry_id e = id;
  wf_parents : forall before e after, sm_entries sm = before ++ e :: after ->
    forall p, entry_parent e = Some p -> p ∈ (entry_id <$> before);
  wf_leaf : forall id, sm_leafID sm = Some id -> is_Some (sm_byID sm !! id);
  wf_types : forall e, e ∈ sm_entries sm -> EntryType e = body_type (se_Body e);
  wf_targets : forall before e after x, sm_entries sm = before ++ e :: after -> se_Body e = BContextEdit x ->
    exists t, t ∈ before /\ entry_id t = xe_TargetID x /\ editableContextEntry t = Some true /\ above (sm_entries sm) t e;
  wf_named : forall e, e ∈ sm_entries sm -> entry_id e <> "";
}.

(** What an operation leaves: the leaf moved, or an entry appended at a leaf
    that is nil or an entry; the labels are apart. *)
Definition same_tree (sm sm' : SessionManager) : Prop :=
  sm_entries sm' = sm_entries sm /\ sm_byID sm' = sm_byID sm /\ sm_leafID sm' = sm_leafID sm.

Definition valid_leaf (sm : SessionManager) (leaf : option string) : Prop :=
  forall id, leaf = Some id -> is_Some (sm_byID sm !! id).

(** The target of an edit is the leaf or above it. *)
Definition valid_target (sm : SessionManager) (leaf : option string) (body : EntryBody) : Prop :=
  match body with
  | BContextEdit x =>
      exists t e, sm_byID sm !! xe_TargetID x = Some t /\ editableContextEntry t = Some true /\
        start_of sm leaf = Some e /\ (t = e \/ above (sm_entries sm) t e)
  | _ => True
  end.

(** ** The shape of a step *)

Section Shape.
Context {P : Platform}.

Inductive outcome (sm : SessionManager) (env : Env) : SessionManager -> result history_error string -> Prop :=
| out_move leaf : valid_leaf sm leaf -> outcome sm env (with_leaf sm leaf) (Ok "")
| out_refused e : e <> EPersist -> outcome sm env sm (Err e)
| out_append leaf body :
    valid_leaf sm leaf -> valid_target sm leaf body -> (forall l, body <> BLabel l) ->
    outcome sm env (append_body (with_leaf sm leaf) env body).1 (append_body (with_leaf sm leaf) env body).2
| out_label l :
    is_Some (sm_byID sm !! le_TargetID l) -> en_persist env = true ->
    outcome sm env (record_label (append_body sm env (BLabel l)).1 l (en_stamp env)) (Ok (en_id env))
| out_label_lost l :
    en_persist env = false -> outcome sm env (append_body sm env (BLabel l)).1 (Err EPersist).

Lemma with_leaf_id sm : with_leaf sm (sm_leafID sm) = sm.
Proof. by destruct sm. Qed.

Lemma outcome_append sm env body :
  session_wf sm -> valid_target sm (sm_leafID sm) body -> (forall l, body <> BLabel l) ->
  outcome sm env (append_body sm env body).1 (append_body sm env body).2.
Proof.
  intros Hw Ht Hl. rewrite <- (with_leaf_id sm) at 2 3. apply out_append; [|done|done]. intros id. apply Hw.
Qed.

Lemma outcome_body sm env body sm' r :
  Some (append_body sm env body) = Some (sm', r) ->
  session_wf sm -> valid_target sm (sm_leafID sm) body -> (forall l, body <> BLabel l) -> outcome sm env sm' r.
Proof.
  intros H Hw Ht Hl. assert (append_body sm env body = (sm', r)) as E by congruence.
  pose proof (outcome_append sm env body Hw Ht Hl) as Ho. by rewrite E in Ho.
Qed.

Lemma outcome_branch sm leaf env body sm' r :
  Some (append_body (with_leaf sm leaf) env body) = Some (sm', r) ->
  valid_leaf sm leaf -> valid_target sm leaf body -> (forall l, body <> BLabel l) -> outcome sm env sm' r.
Proof.
  intros H Hv Ht Hl. assert (append_body (with_leaf sm leaf) env body = (sm', r)) as E by congruence.
  pose proof (out_append sm env leaf body Hv Ht Hl) as Ho. by rewrite E in Ho.
Qed.

Lemma walk_above sm fuel e acc path t :
  session_wf sm -> walk (sm_byID sm) fuel (Some e) acc = Some path -> t ∈ path ->
  t ∈ acc \/ t = e \/ above (sm_entries sm) t e.
Proof.
  intros Hw. revert e acc. induction fuel as [|fuel IH]; intros e acc H Ht; [discriminate H|]. cbn [walk] in H.
  assert (t ∈ e :: acc -> t ∈ acc \/ t = e \/ above (sm_entries sm) t e) as Hacc by (rewrite elem_of_cons; tauto).
  destruct (entry_parent e) as [p|] eqn:Ep; [|destruct fuel; injection H as <-; auto].
  destruct (sm_byID sm !! p) as [u|] eqn:Eu; [|destruct fuel; injection H as <-; auto].
  apply (wf_index _ Hw) in Eu as [Hu <-]. destruct (IH _ _ H Ht) as [Hin|[->|Ha]]; [auto| |].
  - right. right. by apply above_parent.
  - right. right. by apply (above_step _ _ u).
Qed.

Lemma above_in l t e : above l t e -> t ∈ l.
Proof. by induction 1. Qed.

(** The active branch, as [AppendContextEdit] walks it. *)
Lemma active_branch sm b t :
  session_wf sm -> branchUnlocked sm = Some b -> t ∈ b ->
  exists e, start_of sm (sm_leafID sm) = Some e /\ (t = e \/ above (sm_entries sm) t e).
Proof.
  intros Hw Hb Ht. unfold branchUnlocked in Hb. apply fmap_Some in Hb as (path & Hp & ->).
  rewrite elem_of_reverse in Ht. destruct (sm_byID sm !! default "" (sm_leafID sm)) as [e|] eqn:E.
  - exists e. unfold start_of. destruct (sm_leafID sm) as [id|]; cbn in E.
    + split; [done|]. destruct (walk_above _ _ _ _ _ _ Hw Hp Ht) as [Hn|Ha]; [inversion Hn|done].
    + exfalso. apply (wf_index _ Hw) in E as [He E]. by apply (wf_named _ Hw e).
  - cbn in Hp. injection Hp as <-. inversion Ht.
Qed.

Lemma run_op_outcome sm env o sm' r :
  session_wf sm -> run_op sm env o = Some (sm', r) -> outcome sm env sm' r.
Proof.
  intros Hw H. destruct o; cbn [run_op] in H; try (by apply (outcome_body _ _ _ _ _ H Hw)).
  - unfold Branch in H. destruct (sm_byID sm !! id) eqn:E; cbn in H; injection H as <- <-.
    + apply out_move. intros ? [= <-]. eauto.
    + by apply out_refused.
  - injection H as <- <-. by apply out_move.
  - unfold BranchWithSummary in H. destruct from as [id|]; [|by apply (outcome_branch _ _ _ _ _ _ H)].
    destruct (sm_byID sm !! id) eqn:E; [|injection H as <- <-; by apply out_refused].
    apply (outcome_branch _ _ _ _ _ _ H); [|done|done]. intros ? [= <-]. eauto.
  - apply bind_Some in H as (p & _ & H). by apply (outcome_body _ _ _ _ _ H Hw).
  - unfold AppendLabelChange in H. destruct (sm_byID sm !! target) as [t|] eqn:E; [|injection H as <- <-; by apply out_refused].
    set (l := {| le_TargetID := target; le_Label := label |}) in H.
    unfold append_body, appendEntry in H. destruct (en_persist env) eqn:Ep; injection H as <- <-.
    + apply (out_label sm env l); [cbn; eauto|done].
    + by apply (out_label_lost sm env l).
  - unfold AppendContextEdit in H. destruct (sm_byID sm !! target) as [t|] eqn:E; [|injection H as <- <-; by apply out_refused].
    apply bind_Some in H as (b & Hb & H). case_match; [injection H as <- <-; by apply out_refused|].
    apply bind_Some in H as (ed & He & H). case_match eqn:Ed; [injection H as <- <-; by apply out_refused|].
    apply negb_false_iff in Ed. subst ed. apply (outcome_body _ _ _ _ _ H Hw); [|done]. cbn.
    match goal with E : negb _ = false |- _ => apply negb_false_iff, existsb_exists in E as (t' & Ht' & Eid) end.
    apply String.eqb_eq in Eid. apply list_elem_of_In in Ht'.
    destruct (active_branch _ _ _ Hw Hb Ht') as (e' & He' & Ha). exists t, e'. split_and!; try done.
    assert (sm_byID sm !! target = Some t') as Et; [|congruence]. apply (wf_index _ Hw). split; [|done].
    destruct Ha as [->|Ha]; [|by eapply above_in]. unfold start_of in He'. apply bind_Some in He' as (i & _ & He').
    by apply (wf_index _ Hw) in He' as [? _].
Qed.
End Shape.

(** ** The invariant *)

Lemma snoc_split {A} (l : list A) x before e after :
  l ++ [x] = before ++ e :: after ->
  (after = [] /\ before = l /\ e = x) \/ exists after', after = after' ++ [x] /\ l = before ++ e :: after'.
Proof.
  destruct after as [|y after' _] using rev_ind; intros H.
  - left. apply app_inj_tail in H as [-> ->]. done.
  - right. exists after'. rewrite app_comm_cons, app_assoc in H. apply app_inj_tail in H as [-> ->]. done.
Qed.

Lemma wf_dom sm id : session_wf sm -> is_Some (sm_byID sm !! id) <-> id ∈ (entry_id <$> sm_entries sm).
Proof.
  intros Hw. rewrite list_elem_of_fmap. split.
  - intros [e He]. apply (wf_index _ Hw) in He as [? <-]. eauto.
  - intros (e & -> & He). exists e. by apply (wf_index _ Hw).
Qed.

Lemma wf_transport sm sm' :
  session_wf sm -> sm_entries sm' = sm_entries sm -> sm_byID sm' = sm_byID sm -> valid_leaf sm (sm_leafID sm') ->
  session_wf sm'.
Proof. intros [] E1 E2 Hl. split; rewrite ?E1, ?E2; auto. Qed.

Lemma above_mono l l' t e : (forall y, y ∈ l -> y ∈ l') -> above l t e -> above l' t e.
Proof. intros H. induction 1 as [e Ht Hp|u e Hu Hp _ IH]; [apply above_parent|eapply above_step]; eauto. Qed.

(** The leaf and what is above it are above a child of the leaf. *)
Lemma target_above sm leaf t u e :
  session_wf sm -> start_of sm leaf = Some u -> t = u \/ above (sm_entries sm) t u -> entry_parent e = leaf ->
  above (sm_entries sm ++ [e]) t e.
Proof.
  intros Hw Hu Ha Hp. unfold start_of in Hu. apply bind_Some in Hu as (id & -> & Hu).
  apply (wf_index _ Hw) in Hu as [Hu <-]. assert (u ∈ sm_entries sm ++ [e]) as Hin by (apply elem_of_app; by left).
  destruct Ha as [->|Ha]; [by apply above_parent|]. apply (above_step _ _ u); [done..|].
  eapply above_mono; [|exact Ha]. intros y Hy. apply elem_of_app. by left.
Qed.

Lemma append_wf sm env leaf body :
  session_wf sm -> valid_leaf sm leaf -> valid_target sm leaf body -> fresh sm env ->
  session_wf (append_body (with_leaf sm leaf) env body).1.
Proof.
  intros Hw Hl Ht Hf. unfold append_body, appendEntry. cbn [fst].
  set (e := new_entry (with_leaf sm leaf) env body).
  assert (en_id env ∉ (entry_id <$> sm_entries sm)) as Hnew.
  { rewrite <- wf_dom by done. rewrite (proj1 Hf). intros [? ?]; discriminate. }
  split; cbn [sm_entries sm_byID sm_leafID with_leaf].
  - rewrite fmap_app. change (entry_id <$> [e]) with [en_id env]. apply NoDup_app.
    split_and!; [apply Hw| |apply NoDup_singleton].
    intros x Hx ->%list_elem_of_singleton. done.
  - intros id e'. change (entry_id e) with (en_id env). rewrite elem_of_app, list_elem_of_singleton.
    destruct (decide (id = en_id env)) as [->|Hne].
    + rewrite lookup_insert_eq. split; [intros [= <-]; split; [by right|done]|].
      intros [[Hin| ->] E]; [|done]. exfalso. apply Hnew. rewrite <- E. by apply list_elem_of_fmap_2.
    + rewrite lookup_insert_ne by done. rewrite (wf_index _ Hw). split; [naive_solver|].
      intros [[Hin| ->] E]; [done|]. by subst id.
  - intros before e' after H p Hp. apply snoc_split in H as [(-> & -> & ->)|(after' & -> & H)].
    + cbn in Hp. rewrite <- wf_dom by done. by apply Hl.
    + by eapply wf_parents.
  - intros id [= <-]. rewrite lookup_insert_eq. eauto.
  - intros e' [Hin| ->%list_elem_of_singleton]%elem_of_app; [by apply Hw|done].
  - intros before e' after x H Hx. apply snoc_split in H as [(-> & -> & ->)|(after' & -> & H)].
    + cbn in Hx. rewrite Hx in Ht. destruct Ht as (t & u & Hin%(wf_index _ Hw) & Hed & Hu & Ha). exists t.
      split_and!; [naive_solver..|]. by apply (target_above sm leaf t u).
    + destruct (wf_targets _ Hw _ _ _ _ H Hx) as (t & ? & ? & ? & Ha). exists t. split_and!; [done..|].
      by eapply above_mono; [|exact Ha]; intros y Hy; apply elem_of_app; left.
  - intros e' [Hin| ->%list_elem_of_singleton]%elem_of_app; [by apply Hw|]. apply Hf.
Qed.

Lemma record_label_tree sm l t :
  sm_entries (record_label sm l t) = sm_entries sm /\ sm_byID (record_label sm l t) = sm_byID sm /\
  sm_leafID (record_label sm l t) = sm_leafID sm.
Proof. unfold record_label. by destruct (le_Label l). Qed.

Lemma label_append_wf sm env l :
  session_wf sm -> fresh sm env -> session_wf (append_body sm env (BLabel l)).1.
Proof. intros Hw Hf. rewrite <- (with_leaf_id sm) at 1. apply append_wf; [done|intros id; apply Hw|done|done]. Qed.

Lemma outcome_wf sm env sm' r : session_wf sm -> fresh sm env -> outcome sm env sm' r -> session_wf sm'.
Proof.
  intros Hw Hf Ho. destruct Ho as [leaf Hl|e He|leaf body Hl Ht Hb|l Hl Hp|l Hp].
  - by apply (wf_transport sm).
  - done.
  - by apply append_wf.
  - pose proof (label_append_wf sm env l Hw Hf) as Hwl.
    destruct (record_label_tree (append_body sm env (BLabel l)).1 l (en_stamp env)) as (E1 & E2 & E3).
    apply (wf_transport _ _ Hwl E1 E2). rewrite E3. intros id. apply Hwl.
  - by apply label_append_wf.
Qed.

Lemma new_wf : session_wf newSession.
Proof.
  split; cbn.
  - constructor.
  - intros id e. rewrite lookup_empty. split; [discriminate|intros [H _]; inversion H].
  - intros before e after H. by destruct before.
  - discriminate.
  - intros e H. inversion H.
  - intros before e after x H. by destruct before.
  - intros e H. inversion H.
Qed.

Lemma reachable_wf {P : Platform} ok sm : reachable ok sm -> session_wf sm.
Proof.
  induction 1 as [|sm env o sm' r _ IH Hf _ H]; [apply new_wf|].
  eapply outcome_wf; [done..|]. by eapply run_op_outcome.
Qed.

(** ** The walk to the root *)

Lemma walk_path sm before e after :
  session_wf sm -> sm_entries sm = before ++ e :: after ->
  exists path, chain None (path ++ [e]) /\ path `sublist_of` before /\
    forall fuel acc, (length before < fuel)%nat -> walk (sm_byID sm) fuel (Some e) acc = Some (path ++ e :: acc).
Proof.
  intros Hw. remember (length before) as n eqn:En. revert before e after En.
  induction n as [n IH] using lt_wf_ind. intros before e after -> He.
  destruct (entry_parent e) as [p|] eqn:Ep.
  - pose proof (wf_parents _ Hw _ _ _ He _ Ep) as Hp. apply list_elem_of_fmap in Hp as (e' & -> & Hin).
    apply list_elem_of_split in Hin as (b1 & b2 & ->).
    destruct (IH (length b1)) with (before := b1) (e := e') (after := b2 ++ e :: after) as (path & Hc & Hs & Hwk).
    { rewrite length_app. cbn. lia. }
    { done. }
    { by rewrite He, <- app_assoc. }
    assert (sm_byID sm !! entry_id e' = Some e') as Hidx.
    { apply (wf_index _ Hw). split; [|done]. rewrite He. rewrite !elem_of_app, elem_of_cons. left. right. by left. }
    exists (path ++ [e']). split_and!.
    + revert Hc. clear Hs Hwk. generalize (@None string). induction path as [|x path IHp]; intros q Hc.
      * cbn in Hc |- *. tauto.
      * cbn in Hc |- *. destruct Hc as [Hx Hc]. split; [done|]. by apply IHp.
    + apply sublist_app; [done|]. apply sublist_cons, sublist_nil_l || apply sublist_skip, sublist_nil_l.
    + intros fuel acc Hf. destruct fuel as [|fuel]; [lia|]. rewrite length_app in Hf. cbn in Hf.
      cbn [walk]. rewrite Ep, Hidx, Hwk by lia. by rewrite <- app_assoc.
  - exists []. split_and!; [done|apply sublist_nil_l|]. intros fuel acc Hf. destruct fuel as [|fuel]; [lia|].
    cbn [walk]. rewrite Ep. by destruct fuel.
Qed.

Lemma entries_size sm : session_wf sm -> size (sm_byID sm) = length (sm_entries sm).
Proof.
  intros Hw. assert (sm_byID sm = list_to_map ((fun e => (entry_id e, e)) <$> sm_entries sm)) as ->.
  { apply map_eq. intros id. apply option_eq. intros e. rewrite (wf_index _ Hw).
    rewrite <- elem_of_list_to_map; [|rewrite <- list_fmap_compose; apply Hw].
    rewrite list_elem_of_fmap. naive_solver. }
  rewrite map_size_list_to_map; [by rewrite length_fmap|]. rewrite <- list_fmap_compose. apply Hw.
Qed.

Lemma walk_from_entry sm e :
  session_wf sm -> e ∈ sm_entries sm ->
  exists path, walk_from (sm_byID sm) (Some e) = Some (path ++ [e]) /\ chain None (path ++ [e]) /\
    path ++ [e] `sublist_of` sm_entries sm.
Proof.
  intros Hw He. apply list_elem_of_split in He as (before & after & E).
  destruct (walk_path _ _ _ _ Hw E) as (path & Hc & Hs & Hwk). exists path.
  unfold walk_from. split_and!; [|done|].
  - apply Hwk. rewrite entries_size, E, length_app by done. cbn. lia.
  - rewrite E. apply sublist_app; [done|]. apply sublist_skip, sublist_nil_l.
Qed.

(** ** Rebuilding the index *)

Definition replay (entries : list SessionEntry) : SessionManager :=
  foldl index_entry (mkManager [] ∅ ∅ ∅ None) entries.

Definition with_entries (sm : SessionManager) (entries : list SessionEntry) : SessionManager :=
  mkManager entries (sm_byID sm) (sm_labelsByID sm) (sm_labelTimestampsByID sm) (sm_leafID sm).

Lemma index_entry_entries sm es e : index_entry (with_entries sm es) e = with_entries (index_entry sm e) es.
Proof. unfold index_entry, record_label. by destruct (se_Body e) as [| | | | | | |[t [label|]]| | |]. Qed.

Lemma buildIndex_replay es : buildIndex es = with_entries (replay es) es.
Proof.
  unfold buildIndex, replay.
  assert (forall l sm, foldl index_entry (with_entries sm es) l = with_entries (foldl index_entry sm l) es) as Hf.
  { induction l as [|e l IH]; intros sm; [done|]. cbn [foldl]. by rewrite index_entry_entries, IH. }
  apply (Hf es (mkManager [] ∅ ∅ ∅ None)).
Qed.

Lemma replay_snoc es e : replay (es ++ [e]) = index_entry (replay es) e.
Proof. unfold replay. by rewrite foldl_app. Qed.

(** The index, the labels and their times are those of the entries. *)
Definition labels_current (sm : SessionManager) : Prop :=
  sm_byID sm = sm_byID (replay (sm_entries sm)) /\ sm_labelsByID sm = sm_labelsByID (replay (sm_entries sm)) /\
  sm_labelTimestampsByID sm = sm_labelTimestampsByID (replay (sm_entries sm)).

Lemma append_labels sm env leaf body :
  labels_current sm -> (forall l, body <> BLabel l) -> labels_current (append_body (with_leaf sm leaf) env body).1.
Proof.
  intros (H1 & H2 & H3) Hb. unfold labels_current, append_body, appendEntry. cbn. rewrite replay_snoc.
  unfold index_entry. cbn. destruct body; cbn; try (rewrite H1, H2, H3; done). by edestruct Hb.
Qed.

Lemma outcome_labels sm env sm' r :
  labels_current sm -> en_persist env = true -> outcome sm env sm' r -> labels_current sm'.
Proof.
  intros Hc Hp Ho. destruct Ho as [leaf Hl|e He|leaf body Hl Ht Hb|l Hl _|l Hp']; [done|done|by apply append_labels| |congruence].
  destruct Hc as (H1 & H2 & H3). destruct (record_label_tree (append_body sm env (BLabel l)).1 l (en_stamp env)) as (E1 & E2 & _).
  unfold labels_current. rewrite E1, E2. unfold append_body, appendEntry. cbn [fst sm_entries sm_byID].
  rewrite replay_snoc. unfold index_entry, record_label. cbn. destruct (le_Label l); cbn; rewrite H1, H2, H3; done.
Qed.

Lemma reachable_labels {P : Platform} sm : reachable true sm -> labels_current sm.
Proof.
  remember true as ok eqn:Eok. induction 1 as [|sm env o sm' r Hr IH Hf Hp H]; [done|]. subst ok.
  eapply outcome_labels; [by apply IH|by apply Hp|]. eapply run_op_outcome; [by eapply reachable_wf|done].
Qed.

Lemma replay_leaf es : sm_leafID (replay es) = entry_id <$> last es.
Proof.
  induction es as [|e es _] using rev_ind; [done|]. rewrite replay_snoc, last_snoc. unfold index_entry.
  destruct (se_Body e); try done. unfold record_label. by destruct (le_Label l).
Qed.

Lemma start_entry sm id e : session_wf sm -> start_of sm id = Some e -> e ∈ sm_entries sm.
Proof. unfold start_of. intros Hw (i & _ & He)%bind_Some. by apply (wf_index _ Hw) in He as [? _]. Qed.

Lemma append_body_refused sm env body sm' r e :
  append_body sm env body = (sm', r) -> r = Err e ->
  e = EPersist /\ en_persist env = false /\ sm_entries sm' = sm_entries sm ++ [new_entry sm env body] /\
  sm_leafID sm' = Some (en_id env).
Proof. unfold append_body, appendEntry. intros [= <- <-]. destruct (en_persist env); [discriminate|]. by intros [= <-]. Qed.

(** *** A small session *)

Definition demo_env (id : string) : Env := {| en_id := id; en_stamp := "t"; en_persist := true |}.

Definition demo_say (s : string) : Message := MUser (value {| um_Content := Some [text_block s]; um_Timestamp := 1; um_contentWasString := true |}).

Definition demo_ops : list (Env * op) :=
  [(demo_env "a", OpMessage (demo_say "hi")); (demo_env "b", OpModel "p" "m"); (demo_env "x", OpBranch "a");
   (demo_env "c", OpMessage (demo_say "there")); (demo_env "d", OpLabel "a" (Some "start"));
   (demo_env "e", OpContextEdit "c" None)].

#[local] Instance demo_platform : Platform := {| parse_time := fun _ => Some 0; other_block_marshals := fun _ => false |}.

Definition run_demo : SessionManager :=
  foldl (fun sm eo => default sm (fst <$> run_op sm eo.1 eo.2)) newSession demo_ops.

Lemma demo_step sm env o :
  reachable true sm -> bool_decide (fresh sm env) = true -> en_persist env = true -> is_Some (run_op sm env o) ->
  reachable true (default sm (fst <$> run_op sm env o)).
Proof.
  intros Hr Hf%bool_decide_eq_true Hp [[sm' r] Ho]. rewrite Ho. cbn. by eapply reach_op.
Qed.

Lemma demo_reachable : reachable true run_demo.
Proof.
  unfold run_demo, demo_ops. cbn [foldl fst snd].
  repeat (apply demo_step; [|vm_compute; reflexivity|reflexivity|vm_compute; eauto]). apply reach_new.
Qed.

(** ** Properties *)

(** C38: every operation of the session manager keeps the session well
    formed: ids are distinct and not empty, the index holds exactly the
    entries, an entry's parent comes before it, a context edit replaces an
    editable entry above it on its own branch, the leaf is an entry or nil,
    and each entry carries the type name of its struct. *)
Theorem session_well_formed {P : Platform} ok sm : reachable ok sm -> session_wf sm.
Proof. apply reachable_wf. Qed.

(** The walk to the root ends: [GetBranch] from an id or from the leaf
    returns the entries from a root down to that entry, each the child of
    the one before, in the order they were appended; an unknown id or no
    leaf gives the empty branch. *)
Theorem branch_reaches_root {P : Platform} ok sm from :
  reachable ok sm ->
  exists path, GetBranch sm from = Some path /\ chain None path /\ path `sublist_of` sm_entries sm /\
    last path = start_of sm (match from with Some id => Some id | None => sm_leafID sm end).
Proof.
  intros Hr%reachable_wf. unfold GetBranch. destruct (start_of sm _) as [e|] eqn:E.
  - destruct (walk_from_entry sm e Hr) as (path & Hw & Hc & Hs); [by eapply start_entry|].
    exists (path ++ [e]). split_and!; [done..|]. by rewrite last_snoc.
  - exists []. split_and!; [done|done|apply sublist_nil_l|done].
Qed.

(** A session rebuilt from its entries is the session in memory: when no
    write failed, indexing the entries again gives the same index, the same
    labels and label times, and the leaf at the entry appended last. *)
Theorem reload_rebuilds {P : Platform} sm :
  reachable true sm -> buildIndex (sm_entries sm) = with_leaf sm (entry_id <$> last (sm_entries sm)).
Proof.
  intros Hr%reachable_labels. rewrite buildIndex_replay. destruct Hr as (H1 & H2 & H3).
  unfold with_entries, with_leaf. rewrite replay_leaf. by rewrite <- H1, <- H2, <- H3.
Qed.

(** A refused operation leaves the session as it was, and an unknown id
    is refused only when no entry has it; an operation whose write to the
    session file failed reports it, but the session in memory has the new
    entry and its leaf is there. *)
Theorem op_errors {P : Platform} sm env o sm' e :
  run_op sm env o = Some (sm', Err e) ->
  (e <> EPersist /\ sm' = sm /\ (forall id, e = ENotFound id -> sm_byID sm !! id = None)) \/
  (e = EPersist /\ en_persist env = false /\ sm_leafID sm' = Some (en_id env) /\
   exists x, sm_entries sm' = sm_entries sm ++ [x] /\ entry_id x = en_id env).
Proof.
  intros H.
  assert (forall leaf body r, append_body (with_leaf sm leaf) env body = (sm', r) -> r = Err e ->
    e = EPersist /\ en_persist env = false /\ sm_leafID sm' = Some (en_id env) /\
    exists x, sm_entries sm' = sm_entries sm ++ [x] /\ entry_id x = en_id env) as Hlost.
  { intros leaf body r Ha Hr. destruct (append_body_refused _ _ _ _ _ _ Ha Hr) as (-> & ? & ? & ?). eauto 10. }
  pose proof (Hlost (sm_leafID sm)) as Hhere. rewrite with_leaf_id in Hhere.
  destruct o; cbn [run_op] in H; try (right; exact (Hhere _ _ (inj Some _ _ H) eq_refl)).
  - unfold Branch in H. destruct (sm_byID sm !! id) eqn:E; cbn in H; [discriminate H|]. injection H as <- <-. left. split_and!; [done..|]. by intros ? [= <-].
  - discriminate H.
  - unfold BranchWithSummary in H. destruct from as [id|]; [|apply (inj Some) in H; right; exact (Hlost _ _ _ H eq_refl)].
    destruct (sm_byID sm !! id) eqn:E; [apply (inj Some) in H; right; exact (Hlost _ _ _ H eq_refl)|].
    injection H as <- <-. left. split_and!; [done..|]. by intros ? [= <-].
  - unfold AppendCompaction in H. apply bind_Some in H as (p & _ & H). apply (inj Some) in H. right. exact (Hhere _ _ H eq_refl).
  - unfold AppendLabelChange in H. destruct (sm_byID sm !! target) eqn:E.
    + right. destruct (append_body sm env _) as [sm1 [id|e1]] eqn:Ea; [discriminate H|]. injection H as <- <-. by eapply Hhere.
    + injection H as <- <-. left. split_and!; [done..|]. by intros ? [= <-].
  - unfold AppendContextEdit in H. destruct (sm_byID sm !! target) eqn:E.
    + apply bind_Some in H as (b & _ & H). case_match; [injection H as <- <-; by left|].
      apply bind_Some in H as (ed & _ & H). case_match; [injection H as <- <-; by left|]. apply (inj Some) in H. right. exact (Hhere _ _ H eq_refl).
    + injection H as <- <-. left. split_and!; [done..|]. by intros ? [= <-].
Qed.

(** ** Witnesses *)

Lemma session_well_formed_witness : session_wf run_demo /\ length (sm_entries run_demo) = 5%nat.
Proof. split; [apply (session_well_formed true), demo_reachable|vm_compute; reflexivity]. Defined.

Lemma branch_reaches_root_witness :
  exists path, GetBranch run_demo (Some "e") = Some path /\ chain None path /\ length path = 4%nat.
Proof.
  destruct (branch_reaches_root true run_demo (Some "e") demo_reachable) as (path & H1 & H2 & _).
  exists path. split; [exact H1|]. split; [exact H2|]. vm_compute in H1. injection H1 as <-. reflexivity.
Defined.

Lemma reload_rebuilds_witness : GetLabel (buildIndex (sm_entries run_demo)) "a" = Some "start".
Proof. rewrite (reload_rebuilds run_demo demo_reachable). vm_compute. reflexivity. Defined.

Lemma op_errors_witness :
  exists sm', run_op run_demo (demo_env "f") (OpBranch "z") = Some (sm', Err (ENotFound "z")) /\ sm' = run_demo.
Proof.
  exists run_demo. split; [vm_compute; reflexivity|].
  destruct (op_errors run_demo (demo_env "f") (OpBranch "z") run_demo (ENotFound "z")) as [(_ & H & _)|(H & _)].
  - vm_compute. reflexivity.
  - exact H.
  - discriminate.
Defined.
