(* ===== verification/Estimate.v ===== *)
(** * Token estimates ([internal/pi/wire/estimate.go])

    A text counts a token per four bytes, rounded up, and an image a fixed
    number of characters; [float64] is exact on lengths below [2^53].  Token
    counts a provider reports are machine integers and wrap. *)

From S2P Require Import Prelude GoText PiModel Transcript.
From Stdlib Require Import Ascii.

(** ** Definitions *)

(** *** [json.Marshal] of a value of type [any], HTML characters escaped *)

Definition hex_of (z : Z) : ascii := byte (if z <? 10 then 48 + z else 87 + z).

Definition json_char (p : Z * text) : text :=
  let '(r, bytes) := p in
  if (r =? 34) || (r =? 92) then byte 92 :: bytes
  else if r =? 8 then lit "\b"
  else if r =? 12 then lit "\f"
  else if r =? 10 then lit "\n"
  else if r =? 13 then lit "\r"
  else if r =? 9 then lit "\t"
  else if (r <? 32) || (r =? 60) || (r =? 62) || (r =? 38) then lit "\u00" ++ [hex_of (r / 16); hex_of (r mod 16)]
  else if (r =? rune_error) && (len bytes =? 1) then lit "\ufffd"
  else if r =? 0x2028 then lit "\u2028"
  else if r =? 0x2029 then lit "\u2029"
  else bytes.

Definition json_string (s : string) : text :=
  [byte 34] ++ concat (map json_char (runes (lit s))) ++ [byte 34].

(** [None] when the value has no JSON form. *)
Fixpoint json_any (v : any) : option text :=
  match v with
  | ANil => Some (lit "null")
  | ABool b => Some (lit (if b then "true" else "false"))
  | AString s => Some (json_string s)
  | ANumber n => Some (lit n)
  | AList l => (fun parts => lit "[" ++ join (lit ",") parts ++ lit "]") <$> mapM json_any l
  | AMap members =>
      (fun parts => lit "{" ++ join (lit ",") parts ++ lit "}") <$>
        mapM (fun kv => (fun t => json_string kv.1 ++ lit ":" ++ t) <$> json_any kv.2) members
  | AOpaque => None
  end.

Definition json_arguments (o : JsonObject) : option text :=
  match o with None => Some (lit "null") | Some members => json_any (AMap members) end.

Definition json_tool (t : Tool) : option text :=
  parameters ← json_any (to_Parameters t);
  sampling ← match to_ConstrainedSampling t with
             | None => Some []
             | Some c => (fun t => lit "," ++ json_string "constrainedSampling" ++ lit ":" ++ t) <$> json_any c
             end;
  Some (lit "{" ++ json_string "name" ++ lit ":" ++ json_string (to_Name t) ++ lit "," ++
        json_string "description" ++ lit ":" ++ json_string (to_Description t) ++ lit "," ++
        json_string "parameters" ++ lit ":" ++ parameters ++ sampling ++ lit "}").

Definition json_reference (name : string) : option text :=
  Some (lit "{" ++ json_string "name" ++ lit ":" ++ json_string name ++ lit "}").

Definition json_list {A} (f : A -> option text) (l : list A) : option text :=
  (fun parts => lit "[" ++ join (lit ",") parts ++ lit "]") <$> mapM f l.

(** [safeJSONStringify] of a value given by its encoding. *)
Definition safeJSONStringify (encoded : option text) : text := default (lit "[unserializable]") encoded.

(** *** Tokens *)

Definition charsPerToken : Z := 4.
Definition estimatedImageChars : Z := 4800.

(** [math.Ceil(float64(chars) / charsPerToken)] *)
Definition tokens_of_chars (chars : Z) : Z := (chars + (charsPerToken - 1)) / charsPerToken.

Definition CalculateContextTokens (usage : Usage) : Z :=
  if us_TotalTokens usage =? 0 then
    wrap (us_Input usage + us_Output usage + us_CacheRead usage + us_CacheWrite usage)
  else us_TotalTokens usage.

Definition EstimateTextTokens (t : text) : Z := tokens_of_chars (len t).

Definition sum_of {A} (f : A -> Z) (l : list A) : Z := foldl (fun n a => n + f a) 0 l.

Definition text_and_image_chars (b : Content) : Z :=
  match b with
  | Text h => match deref h with Some t => len (lit (tc_Text t)) | None => 0 end
  | Image _ => estimatedImageChars
  | _ => 0
  end.

Definition EstimateTextAndImageContentTokens (content : ContentList) : Z :=
  tokens_of_chars (sum_of text_and_image_chars (blocks content)).

Definition assistant_chars (b : Content) : Z :=
  match b with
  | Text h => match deref h with Some t => len (lit (tc_Text t)) | None => 0 end
  | Thinking h => match deref h with Some t => len (lit (th_Thinking t)) | None => 0 end
  | Call h =>
      match deref h with
      | Some c => len (lit (tl_Name c)) + len (safeJSONStringify (json_arguments (tl_Arguments c)))
      | None => 0
      end
  | _ => 0
  end.

Definition estimateAssistantTokens (content : ContentList) : Z :=
  tokens_of_chars (sum_of assistant_chars (blocks content)).

Definition estimateToolsTokens {A} (f : A -> option text) (tools : list A) : Z :=
  match tools with
  | [] => 0
  | _ => EstimateTextTokens (safeJSONStringify (json_list f tools))
  end.

Definition estimateSystemTokens (message : SystemMessage) : Z :=
  EstimateTextTokens (GetSystemMessageText message) + estimateToolsTokens json_tool (sm_ToolsAdded message) +
  estimateToolsTokens json_reference (sm_ToolsRemoved message).

(** A nil pointer counts nothing. *)
Definition tokens_held {A} (f : A -> Z) (h : held A) : Z := match deref h with Some a => f a | None => 0 end.

Definition EstimateMessageTokens (message : Message) : Z :=
  match message with
  | MSystem h => tokens_held estimateSystemTokens h
  | MUser h => tokens_held (fun m => EstimateTextAndImageContentTokens (um_Content m)) h
  | MToolResult h => tokens_held (fun m => EstimateTextAndImageContentTokens (tr_Content m)) h
  | MAssistant h => tokens_held (fun m => estimateAssistantTokens (am_Content m)) h
  | MCustom h => tokens_held (fun m => EstimateTextAndImageContentTokens (cm_Content m)) h
  | MBashExecution h => tokens_held (fun m => EstimateTextTokens (lit (be_Command m) ++ lit (be_Output m))) h
  | MBranchSummary h => tokens_held (fun m => EstimateTextTokens (lit (bm_Summary m))) h
  | MCompactionSummary h => tokens_held (fun m => EstimateTextTokens (lit (sy_Summary m))) h
  | OtherMessage _ _ | NilMessage => 0
  end.

Record ContextUsageEstimate := {
  ue_Tokens : Z;
  ue_UsageTokens : Z;
  ue_TrailingTokens : Z;
  ue_LastUsageIndex : option nat;
}.

Definition unmeasured (tokens : Z) : ContextUsageEstimate :=
  {| ue_Tokens := tokens; ue_UsageTokens := 0; ue_TrailingTokens := tokens; ue_LastUsageIndex := None |}.

(** The estimate anchored on a usage reported by the message at [index]. *)
Definition measured (messages : list Message) (usage : Usage) (index : nat) : ContextUsageEstimate :=
  let usageTokens := CalculateContextTokens usage in
  let trailing := sum_of EstimateMessageTokens (drop (S index) messages) in
  {| ue_Tokens := wrap (usageTokens + trailing); ue_UsageTokens := usageTokens; ue_TrailingTokens := trailing;
     ue_LastUsageIndex := Some index |}.

Definition messageTimestamp (message : Message) : Z :=
  match message with
  | MSystem h => tokens_held sm_Timestamp h
  | MUser h => tokens_held um_Timestamp h
  | MAssistant h => tokens_held am_Timestamp h
  | MToolResult h => tokens_held tr_Timestamp h
  | MBashExecution h => tokens_held be_Timestamp h
  | MCustom h => tokens_held cm_Timestamp h
  | MBranchSummary h => tokens_held bm_Timestamp h
  | MCompactionSummary h => tokens_held sy_Timestamp h
  | OtherMessage _ _ | NilMessage => 0
  end.

(** A usage an estimate may rest on. *)
Definition usable (assistant : AssistantMessage) : bool :=
  negb (is_failed (am_StopReason assistant)) && (0 <? CalculateContextTokens (am_Usage assistant)).

(** [getLastAssistantUsageInfo] of package wire: usage older than a message
    before it does not count. *)
Fixpoint last_usage (latest : Z) (i : nat) (found : option (Usage * nat)) (messages : list Message) : option (Usage * nat) :=
  match messages with
  | [] => found
  | message :: rest =>
      let found := match assistantMessageOf message with
                   | Some a => if (latest <=? am_Timestamp a) && usable a then Some (am_Usage a, i) else found
                   | None => found
                   end in
      last_usage (Z.max latest (messageTimestamp message)) (S i) found rest
  end.

Definition EstimateMessagesTokens (messages : list Message) : ContextUsageEstimate :=
  match last_usage minint 0 None messages with
  | Some (usage, index) => measured messages usage index
  | None => unmeasured (sum_of EstimateMessageTokens messages)
  end.

(** ** Estimates are not negative *)

Lemma sum_of_acc {A} (f : A -> Z) l n : foldl (fun n a => n + f a) n l = n + sum_of f l.
Proof.
  unfold sum_of. revert n. induction l as [|a l IH]; intros n; cbn [foldl]; [lia|]. rewrite IH, (IH (0 + f a)). lia.
Qed.

Lemma sum_of_cons {A} (f : A -> Z) a l : sum_of f (a :: l) = f a + sum_of f l.
Proof. unfold sum_of at 1. cbn [foldl]. rewrite sum_of_acc. lia. Qed.

Lemma sum_of_app {A} (f : A -> Z) l l' : sum_of f (l ++ l') = sum_of f l + sum_of f l'.
Proof. induction l as [|a l IH]; [done|]. cbn [app]. rewrite !sum_of_cons, IH. lia. Qed.

Lemma sum_of_nonneg {A} (f : A -> Z) l : (forall a, 0 <= f a) -> 0 <= sum_of f l.
Proof. intros H. induction l as [|a l IH]; [done|]. rewrite sum_of_cons. specialize (H a). lia. Qed.

Lemma tokens_of_chars_nonneg n : 0 <= n -> 0 <= tokens_of_chars n.
Proof. intros H. unfold tokens_of_chars, charsPerToken. apply Z.div_pos; lia. Qed.

Lemma text_tokens_nonneg t : 0 <= EstimateTextTokens t.
Proof. apply tokens_of_chars_nonneg, len_nonneg. Qed.

Lemma tools_tokens_nonneg {A} (f : A -> option text) l : 0 <= estimateToolsTokens f l.
Proof. unfold estimateToolsTokens. destruct l; [lia|apply text_tokens_nonneg]. Qed.

Lemma message_tokens_nonneg m : 0 <= EstimateMessageTokens m.
Proof.
  assert (forall c, 0 <= EstimateTextAndImageContentTokens c) as Hc.
  { intros c. apply tokens_of_chars_nonneg, sum_of_nonneg. intros b. unfold text_and_image_chars, estimatedImageChars.
    destruct b as [h|h|h|h|k|]; try lia. destruct (deref h); [apply len_nonneg|lia]. }
  assert (forall c, 0 <= estimateAssistantTokens c) as Ha.
  { intros c. apply tokens_of_chars_nonneg, sum_of_nonneg. intros b. unfold assistant_chars.
    destruct b as [h|h|h|h|k|]; try lia; destruct (deref h); try lia; try apply len_nonneg.
    apply Z.add_nonneg_nonneg; apply len_nonneg. }
  assert (forall A (f : A -> Z) h, (forall a, 0 <= f a) -> 0 <= tokens_held f h) as Hh.
  { intros A f h Hf. unfold tokens_held. destruct (deref h); [apply Hf|lia]. }
  destruct m; cbn [EstimateMessageTokens]; try apply Hh; auto using text_tokens_nonneg; try lia.
  intros s. unfold estimateSystemTokens. pose proof (text_tokens_nonneg (GetSystemMessageText s)).
  pose proof (tools_tokens_nonneg json_tool (sm_ToolsAdded s)). pose proof (tools_tokens_nonneg json_reference (sm_ToolsRemoved s)). lia.
Qed.
