(* ===== verification/Compaction.v ===== *)
(** * Context compaction ([internal/pi/compact/compaction.go], [utils.go])

    Choosing where to cut a session's context, and what is summarized on
    either side of the cut.  [None] is a panic: [MessageRole] on a nil
    message, an index out of range. *)

From S2P Require Import Prelude GoText PiModel SessionTree Transcript SessionContext Estimate.

(** ** Definitions *)

Record CompactionSettings := {
  cs_Enabled : bool;
  cs_ReserveTokens : Z;
  cs_KeepRecentTokens : Z;
}.

Definition DefaultCompactionSettings : CompactionSettings :=
  {| cs_Enabled := true; cs_ReserveTokens := 16384; cs_KeepRecentTokens := 20000 |}.

Definition ShouldCompact (contextTokens contextWindow : Z) (settings : CompactionSettings) : bool :=
  cs_Enabled settings && (wrap (contextWindow - cs_ReserveTokens settings) <? contextTokens).

(** *** Usage *)

Definition getAssistantUsage (message : Message) : option Usage :=
  match assistantMessageOf message with
  | Some a => if usable a then Some (am_Usage a) else None
  | None => None
  end.

Fixpoint first_usage (l : list Message) (i : nat) : option (Usage * nat) :=
  match l with
  | [] => None
  | m :: rest =>
      match getAssistantUsage m with
      | Some usage => Some (usage, i)
      | None => first_usage rest (Nat.pred i)
      end
  end.

(** [getLastAssistantUsageInfo], from the last message backwards. *)
Definition getLastAssistantUsageInfo (messages : list Message) : option (Usage * nat) :=
  first_usage (reverse messages) (Nat.pred (length messages)).

Definition EstimateContextTokens (messages : list Message) : ContextUsageEstimate :=
  match getLastAssistantUsageInfo messages with
  | Some (usage, index) => measured messages usage index
  | None => unmeasured (sum_of EstimateMessageTokens messages)
  end.

(** The id of the entry that holds the message at an index. *)
Fixpoint usage_entry (entries : list ProjectedSessionEntry) (first index : nat) : string :=
  match entries with
  | [] => ""
  | e :: rest =>
      let next := (first + length (pe_Messages e))%nat in
      if (index <? next)%nat then entry_id (pe_SourceEntry e) else usage_entry rest next index
  end.

Definition invalidates (e : SessionEntry) : bool :=
  String.eqb (EntryType e) "context_edit" || String.eqb (EntryType e) "compaction".

(** The index of the last entry that invalidates reported usage. *)
Definition latest_invalidating (entries : list SessionEntry) : option nat :=
  (foldl (fun '(found, i) e => (if invalidates e then Some i else found, S i)) (None, O) entries).1.

(** [usageEntryIndex > latestInvalidatingEntryIndex], -1 when none. *)
Definition later (usageIndex invalidIndex : option nat) : bool :=
  match usageIndex, invalidIndex with
  | Some i, Some j => (j <? i)%nat
  | Some _, None => true
  | None, _ => false
  end.

Fixpoint tokens_without_system (messages : list Message) : option Z :=
  match messages with
  | [] => Some 0
  | m :: rest =>
      role ← MessageRole m;
      n ← tokens_without_system rest;
      Some (if decide (role = RoleSystem) then n else EstimateMessageTokens m + n)
  end.

Definition EstimateProjectedContextTokens (projection : SessionProjection) (branchEntries : list SessionEntry)
    : option ContextUsageEstimate :=
  let estimate := EstimateContextTokens (sp_Messages projection) in
  let trusted :=
    match ue_LastUsageIndex estimate with
    | None => false
    | Some index =>
        let usageEntryID := usage_entry (sp_Entries projection) 0 index in
        later (if String.eqb usageEntryID "" then None else position_of_id usageEntryID branchEntries)
          (latest_invalidating branchEntries)
    end in
  if trusted then Some estimate
  else
    rest ← tokens_without_system (sp_Messages projection);
    Some (unmeasured (match GetCurrentSystemMessage (sp_Messages projection) with
                      | Some current => EstimateMessageTokens (MSystem (value current)) + rest
                      | None => rest
                      end)).

(** *** Cut points *)

Record CutPointResult := {
  cp_FirstKeptEntryIndex : nat;
  cp_TurnStartIndex : option nat;
  cp_IsSplitTurn : bool;
}.

Definition isCutPointRole (r : Role) : bool :=
  match r with
  | RoleUser | RoleAssistant | RoleBashExecution | RoleCustom | RoleBranchSummary | RoleCompactionSummary => true
  | _ => false
  end.

Definition isTurnStartRole (r : Role) : bool :=
  match r with
  | RoleUser | RoleBashExecution | RoleCustom | RoleBranchSummary | RoleCompactionSummary => true
  | _ => false
  end.

(** [slices.ContainsFunc(messages, f)], [f] a test of the role. *)
Fixpoint ContainsRole (f : Role -> bool) (messages : list Message) : option bool :=
  match messages with
  | [] => Some false
  | m :: rest => r ← MessageRole m; if (f r : bool) then Some true else ContainsRole f rest
  end.

Definition is_compaction (e : SessionEntry) : bool := String.eqb (EntryType e) "compaction".
Definition is_context_edit (e : SessionEntry) : bool := String.eqb (EntryType e) "context_edit".

(** The role tests skip compactions. *)
Definition entry_has (f : Role -> bool) (e : ProjectedSessionEntry) : option bool :=
  if is_compaction (pe_SourceEntry e) then Some false else ContainsRole f (pe_Messages e).

Definition isProjectedTurnStart (e : ProjectedSessionEntry) : option bool := entry_has isTurnStartRole e.

(** From [entryIndex] down to [startIndex]; a negative result is [None]. *)
Fixpoint findProjectedTurnStartIndex (entries : list ProjectedSessionEntry) (entryIndex startIndex : nat) : option (option nat) :=
  if (entryIndex <? startIndex)%nat then Some None
  else
    e ← entries !! entryIndex;
    start ← isProjectedTurnStart e;
    if start : bool then Some (Some entryIndex)
    else match entryIndex with O => Some None | S i => findProjectedTurnStartIndex entries i startIndex end.

Section Cut.
Context {P : Platform}.

Definition isIntrinsicallyVisible (e : ProjectedSessionEntry) : bool :=
  negb (is_context_edit (pe_SourceEntry e)) &&
  match SessionEntryToContextMessages (pe_SourceEntry e) with [] => false | _ => true end.

Definition no_messages (e : ProjectedSessionEntry) : bool :=
  match pe_Messages e with [] => true | _ => false end.

Definition isOmittedProjected (e : ProjectedSessionEntry) : bool := isIntrinsicallyVisible e && no_messages e.

(** The indices of the entries with a message to cut at. *)
Fixpoint cut_points (i : nat) (l : list ProjectedSessionEntry) : option (list nat) :=
  match l with
  | [] => Some []
  | e :: rest =>
      here ← entry_has isCutPointRole e;
      points ← cut_points (S i) rest;
      Some (if here : bool then i :: points else points)
  end.

Definition entry_tokens (e : ProjectedSessionEntry) : Z := sum_of EstimateMessageTokens (pe_Messages e).

(** The loop from the last entry back: the index at which the tokens reach
    the budget, if they do. *)
Fixpoint budget_index (keepRecentTokens : Z) (l : list ProjectedSessionEntry) (i : nat) (accumulated : Z) : option nat :=
  match l with
  | [] => None
  | e :: rest =>
      let messageTokens := entry_tokens e in
      if messageTokens =? 0 then budget_index keepRecentTokens rest (Nat.pred i) accumulated
      else if keepRecentTokens <=? accumulated + messageTokens then Some i
      else budget_index keepRecentTokens rest (Nat.pred i) (accumulated + messageTokens)
  end.

(** The first cut point at or after an index, else the last one. *)
Fixpoint candidate (points : list nat) (i : nat) (default : nat) : nat :=
  match points with
  | [] => default
  | c :: rest => if (i <=? c)%nat then c else candidate rest i default
  end.

(** An edit that replaces the content of an entry not omitted. *)
Definition external_replacement (omitted : gset string) (e : ProjectedSessionEntry) : option bool :=
  if is_context_edit (pe_SourceEntry e) then
    match se_Body (pe_SourceEntry e) with
    | BContextEdit x =>
        Some (match xe_Replacement x with None => false | Some _ => negb (bool_decide (xe_TargetID x ∈ omitted)) end)
    | _ => None
    end
  else Some false.

(** A loop that stops at the first entry satisfying a test. *)
Fixpoint exists_entry (f : ProjectedSessionEntry -> option bool) (l : list ProjectedSessionEntry) : option bool :=
  match l with
  | [] => Some false
  | e :: rest => b ← f e; if b : bool then Some true else exists_entry f rest
  end.

Definition omitted_assistant (e : ProjectedSessionEntry) : option bool :=
  match se_Body (pe_SourceEntry e) with
  | BMessage m => r ← MessageRole m; Some (bool_decide (r = RoleAssistant) && isOmittedProjected e)
  | _ => Some false
  end.

Definition closed_or_omitted (e : ProjectedSessionEntry) : bool :=
  negb (is_compaction (pe_SourceEntry e)) && negb (isIntrinsicallyVisible e && negb (isOmittedProjected e)).

(** [isRecoveryOmissionSuffix] for the entries after the cut. *)
Definition recovery_suffix (suffix : list ProjectedSessionEntry) : option bool :=
  let omitted : gset string :=
    list_to_set ((fun e => entry_id (pe_SourceEntry e)) <$> List.filter isOmittedProjected suffix) in
  external ← exists_entry (external_replacement omitted) suffix;
  assistant ← exists_entry omitted_assistant suffix;
  Some (negb external && assistant && forallb closed_or_omitted suffix).

(** The loop that takes in the entries without messages before the cut. *)
Fixpoint back_over (entries : list ProjectedSessionEntry) (startIndex cutIndex : nat) : option nat :=
  match cutIndex with
  | O => Some O
  | S c =>
      if (startIndex <? cutIndex)%nat then
        previous ← entries !! c;
        if is_compaction (pe_SourceEntry previous) || negb (no_messages previous) then Some cutIndex
        else back_over entries startIndex c
      else Some cutIndex
  end.

Definition slice (entries : list ProjectedSessionEntry) (i j : nat) : option (list ProjectedSessionEntry) :=
  if (i <=? j)%nat && (j <=? length entries)%nat then Some (take (j - i) (drop i entries)) else None.

(** The cut before the trailing and leading adjustments, and whether the
    budget was reached. *)
Definition budget_cut (points : list nat) (range : list ProjectedSessionEntry) (endIndex : nat) (keepRecentTokens : Z)
    (first : nat) : nat * bool :=
  match budget_index keepRecentTokens (reverse range) (Nat.pred endIndex) 0 with
  | Some i => (candidate points i (default first (last points)), true)
  | None => (first, false)
  end.

Definition findProjectedCutPoint (entries : list ProjectedSessionEntry) (startIndex endIndex : nat) (keepRecentTokens : Z)
    : option CutPointResult :=
  range ← slice entries startIndex endIndex;
  points ← cut_points startIndex range;
  match points with
  | [] => Some {| cp_FirstKeptEntryIndex := startIndex; cp_TurnStartIndex := None; cp_IsSplitTurn := false |}
  | first :: _ =>
      let '(cut, exceededBudget) := budget_cut points range endIndex keepRecentTokens first in
      suffix ← slice entries (S cut) endIndex;
      recovery ← recovery_suffix suffix;
      cutIndex ← back_over entries startIndex (if exceededBudget && recovery then S cut else cut);
      e ← entries !! cutIndex;
      startsTurn ← isProjectedTurnStart e;
      turnStart ← (if startsTurn : bool then Some None else findProjectedTurnStartIndex entries cutIndex startIndex);
      Some {| cp_FirstKeptEntryIndex := cutIndex; cp_TurnStartIndex := turnStart;
              cp_IsSplitTurn := negb startsTurn && match turnStart with Some _ => true | None => false end |}
  end.
End Cut.

(** *** File operations ([utils.go]) *)

Record FileOperations := mkOps { fo_Read : gset string; fo_Written : gset string; fo_Edited : gset string }.

Definition NewFileOperations : FileOperations := mkOps ∅ ∅ ∅.

(** One block of an assistant message; a pointer to a call does not count. *)
Definition extract_block (ops : FileOperations) (b : Content) : FileOperations :=
  match b with
  | Call (value c) =>
      let path := string_member (tl_Arguments c) "path" in
      if String.eqb path "" then ops
      else if String.eqb (tl_Name c) "read" then mkOps ({[ path ]} ∪ fo_Read ops) (fo_Written ops) (fo_Edited ops)
      else if String.eqb (tl_Name c) "write" then mkOps (fo_Read ops) ({[ path ]} ∪ fo_Written ops) (fo_Edited ops)
      else if String.eqb (tl_Name c) "edit" then mkOps (fo_Read ops) (fo_Written ops) ({[ path ]} ∪ fo_Edited ops)
      else ops
  | _ => ops
  end.

Definition ExtractFileOpsFromMessage (ops : FileOperations) (message : Message) : FileOperations :=
  match assistantMessageOf message with
  | Some a => foldl extract_block ops (blocks (am_Content a))
  | None => ops
  end.

Fixpoint insert_sorted (x : string) (l : list string) : list string :=
  match l with
  | [] => [x]
  | y :: rest => if String.leb x y then x :: l else y :: insert_sorted x rest
  end.

(** [sort.Strings] *)
Definition sort_strings (l : list string) : list string := foldr insert_sorted [] l.

(** Files only read, and files written or edited. *)
Definition ComputeFileLists (ops : FileOperations) : list string * list string :=
  let modified := fo_Edited ops ∪ fo_Written ops in
  (sort_strings (elements (fo_Read ops ∖ modified)), sort_strings (elements modified)).

Definition FormatFileOperations (readFiles modifiedFiles : list string) : text :=
  let sections :=
    (match readFiles with
     | [] => []
     | _ => [lit "<read-files>" ++ [newline] ++ join [newline] (map lit readFiles) ++ [newline] ++ lit "</read-files>"]
     end) ++
    (match modifiedFiles with
     | [] => []
     | _ => [lit "<modified-files>" ++ [newline] ++ join [newline] (map lit modifiedFiles) ++ [newline] ++ lit "</modified-files>"]
     end) in
  match sections with
  | [] => []
  | _ => [newline; newline] ++ join [newline; newline] sections
  end.

(** [stringList]: the strings among the items of a list. *)
Definition stringList (v : option any) : list string :=
  match v with
  | Some (AList l) => omap (fun i => match i with AString s => Some s | _ => None end) l
  | _ => []
  end.

(** [compactionDetailsLists]: a [CompactionDetails] is the map it is written
    as. *)
Definition compactionDetailsLists (details : any) : list string * list string :=
  match details with
  | AMap l => (stringList (member l "readFiles"), stringList (member l "modifiedFiles"))
  | _ => ([], [])
  end.

Definition extractFileOperations (messages : list Message) (entries : list SessionEntry) (prevCompactionIndex : option nat)
    : FileOperations :=
  let ops :=
    match prevCompactionIndex ≫= fun i => entries !! i with
    | Some e =>
        match compaction_of e with
        | Some c =>
            if ce_FromHook c then NewFileOperations
            else
              let lists := compactionDetailsLists (ce_Details c) in
              mkOps (list_to_set lists.1) ∅ (list_to_set lists.2)
        | None => NewFileOperations
        end
    | None => NewFileOperations
    end in
  foldl ExtractFileOpsFromMessage ops messages.

(** *** Preparing a compaction *)

Definition getMessagesFromProjectedEntryForCompaction (e : ProjectedSessionEntry) : option (list Message) :=
  if is_compaction (pe_SourceEntry e) then Some [] else without_system (pe_Messages e).

Fixpoint flatMapProjectedMessages (entries : list ProjectedSessionEntry) : option (list Message) :=
  match entries with
  | [] => Some []
  | e :: rest =>
      here ← getMessagesFromProjectedEntryForCompaction e;
      rest ← flatMapProjectedMessages rest;
      Some (here ++ rest)
  end.

Record CompactionPreparation := {
  cr_FirstKeptEntryID : string;
  cr_MessagesToSummarize : list Message;
  cr_TurnPrefixMessages : list Message;
  cr_IsSplitTurn : bool;
  cr_TokensBefore : Z;
  cr_PreviousSummary : option string;
  cr_FileOps : FileOperations;
  cr_Settings : CompactionSettings;
}.

(** The first compaction that contributes messages. *)
Fixpoint previous_compaction (entries : list ProjectedSessionEntry) (i : nat) : option nat :=
  match entries with
  | [] => None
  | e :: rest =>
      if is_compaction (pe_SourceEntry e) && match pe_Messages e with [] => false | _ => true end then Some i
      else previous_compaction rest (S i)
  end.

Definition is_empty {A} (l : list A) : bool := match l with [] => true | _ => false end.

(** The inner option is the [false] of [PrepareCompaction]: nothing to
    summarize. *)
Definition prepare_projected {P : Platform} (projection : SessionProjection) (pathEntries : list SessionEntry)
    (settings : CompactionSettings) : option (option CompactionPreparation) :=
  let entries := sp_Entries projection in
  let prev := previous_compaction entries 0 in
  let boundaryStart := match prev with Some i => S i | None => O end in
  let previousSummary := prev ≫= fun i => entries !! i ≫= fun e => ce_Summary <$> compaction_of (pe_SourceEntry e) in
  estimate ← EstimateProjectedContextTokens projection pathEntries;
  cutPoint ← findProjectedCutPoint entries boundaryStart (length entries) (cs_KeepRecentTokens settings);
  let cut := cp_FirstKeptEntryIndex cutPoint in
  match entries !! cut with
  | None => Some None
  | Some firstKept =>
      if String.eqb (entry_id (pe_SourceEntry firstKept)) "" then Some None
      else
        let turnStart := default O (cp_TurnStartIndex cutPoint) in
        history ← slice entries boundaryStart (if cp_IsSplitTurn cutPoint then turnStart else cut);
        messagesToSummarize ← flatMapProjectedMessages history;
        prefix ← (if cp_IsSplitTurn cutPoint then slice entries turnStart cut else Some []);
        turnPrefixMessages ← flatMapProjectedMessages prefix;
        if is_empty messagesToSummarize && is_empty turnPrefixMessages then Some None
        else
          Some (Some {|
            cr_FirstKeptEntryID := entry_id (pe_SourceEntry firstKept);
            cr_MessagesToSummarize := messagesToSummarize;
            cr_TurnPrefixMessages := turnPrefixMessages;
            cr_IsSplitTurn := cp_IsSplitTurn cutPoint;
            cr_TokensBefore := ue_Tokens estimate;
            cr_PreviousSummary := previousSummary;
            cr_FileOps := foldl ExtractFileOpsFromMessage
                            (extractFileOperations messagesToSummarize (map pe_SourceEntry entries) prev)
                            turnPrefixMessages;
            cr_Settings := settings |})
  end.

Definition PrepareCompaction {P : Platform} (pathEntries : list SessionEntry) (settings : CompactionSettings)
    : option (option CompactionPreparation) :=
  if match last pathEntries with Some e => is_compaction e | None => false end then Some None
  else
    projection ← buildSessionProjection pathEntries None None true;
    prepare_projected projection pathEntries settings.
