(* ===== verification/CompactionCut.v ===== *)
(** * The cut point of a compaction

    Where [findProjectedCutPoint] cuts: at an entry with a user-like or
    assistant message, with less than the budget kept behind it. *)

From S2P Require Import Prelude GoText PiModel SessionTree Transcript SessionContext Estimate Compaction.

(** ** Definitions *)

(** The entries that contribute messages. *)
Definition visible (l : list ProjectedSessionEntry) : list ProjectedSessionEntry :=
  List.filter (fun e => negb (no_messages e)) l.

(** An entry with a message to cut at. *)
Definition cuttable (e : ProjectedSessionEntry) : Prop := entry_has isCutPointRole e = Some true.

(** How a projection treats an entry: one without messages of its own has
    none, and a context edit has none of its own. *)
Definition projected {P : Platform} (e : ProjectedSessionEntry) : Prop :=
  (SessionEntryToContextMessages (pe_SourceEntry e) = [] -> pe_Messages e = []) /\
  (is_context_edit (pe_SourceEntry e) = true -> SessionEntryToContextMessages (pe_SourceEntry e) = []).

(** ** Cut points *)

Lemma cuttable_visible e : cuttable e -> no_messages e = false /\ is_compaction (pe_SourceEntry e) = false.
Proof.
  unfold cuttable, entry_has, no_messages. destruct (is_compaction _); [discriminate|].
  by destruct (pe_Messages e).
Qed.

Lemma cut_points_spec i l pts :
  cut_points i l = Some pts ->
  (forall k, k ∈ pts <-> exists e, (i <= k)%nat /\ l !! (k - i)%nat = Some e /\ cuttable e).
Proof.
  revert i pts. induction l as [|e l IH]; intros i pts H k; cbn [cut_points] in H.
  - injection H as <-. split; [intros Hk; inversion Hk|]. intros (e & _ & He & _). by rewrite lookup_nil in He.
  - apply bind_Some in H as (here & Hh & H). apply bind_Some in H as (points & Hp & [= <-]).
    assert (k ∈ points <-> exists e', (S i <= k)%nat /\ (e :: l) !! (k - i)%nat = Some e' /\ cuttable e') as IH'.
    { rewrite (IH _ _ Hp). split; intros (e' & Hk & He & Hc); exists e'; (split; [done|]); (split; [|done]).
      - by replace (k - i)%nat with (S (k - S i)) by lia.
      - by replace (k - i)%nat with (S (k - S i)) in He by lia. }
    transitivity ((k = i /\ here = true) \/ k ∈ points).
    { destruct here; rewrite ?elem_of_cons; naive_solver. }
    rewrite IH'. split.
    + intros [[-> ->]|(e' & Hk & He & Hc)]; [|exists e'; split; [lia|done]].
      exists e. rewrite Nat.sub_diag. done.
    + intros (e' & Hk & He & Hc). destruct (decide (k = i)) as [->|Hne]; [left|right].
      * rewrite Nat.sub_diag in He. injection He as <-. unfold cuttable in Hc. rewrite Hh in Hc. split; congruence.
      * exists e'. split; [lia|done].
Qed.

Lemma cut_points_sorted i l pts : cut_points i l = Some pts -> forall a k b, pts = a ++ k :: b -> forall k', k' ∈ b -> (k < k')%nat.
Proof.
  revert i pts. induction l as [|e l IH]; intros i pts H; cbn [cut_points] in H.
  - injection H as <-. intros a k b E. by destruct a.
  - apply bind_Some in H as (here & Hh & H). apply bind_Some in H as (points & Hp & [= <-]).
    destruct here; [|by eapply IH]. intros a k b E k' Hk'. destruct a as [|i' a]; injection E as -> ->.
    + apply (cut_points_spec _ _ _ Hp) in Hk' as (? & ? & _). lia.
    + by eapply IH.
Qed.

(** The candidate is the first cut point from the index on, or the default
    when there is none. *)
Lemma candidate_spec pts i d :
  (candidate pts i d ∈ pts /\ (i <= candidate pts i d)%nat) \/
  (candidate pts i d = d /\ forall k, k ∈ pts -> (k < i)%nat).
Proof.
  induction pts as [|c pts IH]; cbn [candidate]; [right; split; [done|intros k Hk; inversion Hk]|].
  destruct (Nat.leb_spec i c); [left; split; [left|done]|]. destruct IH as [[? ?]|[? Hall]].
  - left. split; [by right|done].
  - right. split; [done|]. intros k [->|Hk]%elem_of_cons; auto.
Qed.

Lemma last_greatest pts d k :
  (forall a k b, pts = a ++ k :: b -> forall k', k' ∈ b -> (k < k')%nat) -> k ∈ pts -> (k <= default d (last pts))%nat.
Proof.
  intros Hs. destruct pts as [|l pts _] using rev_ind; [intros Hk; inversion Hk|]. rewrite last_snoc. cbn.
  intros [Hk| ->%list_elem_of_singleton]%elem_of_app; [|done].
  apply list_elem_of_split in Hk as (a & b & ->). apply Nat.lt_le_incl.
  apply (Hs a k (b ++ [l])); [by rewrite <- app_assoc|set_solver].
Qed.

(** ** The budget *)

Lemma entry_tokens_nonneg e : 0 <= entry_tokens e.
Proof. apply sum_of_nonneg, message_tokens_nonneg. Qed.

(** Tokens of the entries from an index on. *)
Definition tokens_from (l : list ProjectedSessionEntry) (k : nat) : Z := sum_of entry_tokens (drop k l).

Lemma tokens_from_mono l j k : (j <= k)%nat -> tokens_from l k <= tokens_from l j.
Proof.
  intros H. unfold tokens_from. replace k with (j + (k - j))%nat by lia. rewrite <- drop_drop.
  rewrite <- (take_drop (k - j) (drop j l)) at 2. rewrite sum_of_app.
  pose proof (sum_of_nonneg entry_tokens (take (k - j) (drop j l)) entry_tokens_nonneg). lia.
Qed.

Lemma sum_of_reverse {A} (f : A -> Z) l : sum_of f (reverse l) = sum_of f l.
Proof. induction l as [|a l IH]; [done|]. rewrite reverse_cons, sum_of_app, !sum_of_cons, IH. cbn. unfold sum_of. cbn. lia. Qed.

(** The walk over [rl], entries [off] to [off + length rl - 1] backwards,
    the tokens of the later ones accumulated. *)
Lemma budget_index_spec keep rl off i acc :
  0 <= acc < Z.max 1 keep -> rl = [] \/ i = (off + Nat.pred (length rl))%nat ->
  match budget_index keep rl i acc with
  | Some j => (off <= j < off + length rl)%nat /\ acc + sum_of entry_tokens (take (off + length rl - S j) rl) < Z.max 1 keep
  | None => acc + sum_of entry_tokens rl < Z.max 1 keep
  end.
Proof.
  revert i acc. induction rl as [|e rl IH]; intros i acc Ha Hi; cbn [budget_index length].
  - unfold sum_of. cbn. lia.
  - pose proof (entry_tokens_nonneg e) as Hn. destruct Hi as [Hi|Hi]; [discriminate|]. cbn [length Nat.pred] in Hi.
    assert (rl = [] \/ Nat.pred i = (off + Nat.pred (length rl))%nat) as Hi'.
    { destruct rl; [by left|right]. cbn [length Nat.pred] in *. lia. }
    destruct (Z.eqb_spec (entry_tokens e) 0) as [E|E]; [|destruct (Z.leb_spec keep (acc + entry_tokens e))].
    + specialize (IH (Nat.pred i) acc Ha Hi'). destruct (budget_index keep rl _ acc) as [j|].
      * destruct IH as [Hj Hs]. split; [lia|]. replace (off + S (length rl) - S j)%nat with (S (off + length rl - S j)) by lia.
        cbn [take]. rewrite sum_of_cons. lia.
      * rewrite sum_of_cons. lia.
    + split; [lia|]. replace (off + S (length rl) - S i)%nat with O by lia. cbn. unfold sum_of. cbn. lia.
    + specialize (IH (Nat.pred i) (acc + entry_tokens e) ltac:(lia) Hi'). destruct (budget_index keep rl _ _) as [j|].
      * destruct IH as [Hj Hs]. split; [lia|].
        replace (off + S (length rl) - S j)%nat with (S (off + length rl - S j)) by lia. cbn [take]. rewrite sum_of_cons. lia.
      * rewrite sum_of_cons. lia.
Qed.

(** Where the loop over the range stops, everything after it is within the
    budget. *)
Lemma budget_range keep range start :
  match budget_index keep (reverse range) (Nat.pred (start + length range)) 0 with
  | Some j => (start <= j < start + length range)%nat /\ tokens_from range (S j - start) < Z.max 1 keep
  | None => tokens_from range 0 < Z.max 1 keep
  end.
Proof.
  pose proof (budget_index_spec keep (reverse range) start (Nat.pred (start + length range)) 0 ltac:(lia)) as H.
  rewrite length_reverse in H. specialize (H ltac:(destruct range; [by left|right; cbn [length]; lia])).
  destruct (budget_index _ _ _ _) as [j|].
  - destruct H as [Hj H]. split; [done|]. rewrite take_reverse, sum_of_reverse in H. unfold tokens_from.
    replace (length range - (start + length range - S j))%nat with (S j - start)%nat in H by lia. lia.
  - rewrite sum_of_reverse in H. unfold tokens_from. rewrite drop_0. lia.
Qed.

(** ** The adjustments *)

Lemma back_over_spec entries start cut r :
  back_over entries start cut = Some r ->
  (r <= cut)%nat /\ ((start <= cut)%nat -> (start <= r)%nat) /\
  (forall k, (r <= k < cut)%nat -> exists e, entries !! k = Some e /\ no_messages e = true).
Proof.
  revert r. induction cut as [|c IH]; intros r H; cbn [back_over] in H.
  - injection H as <-. split_and!; [lia|lia|intros k; lia].
  - destruct (Nat.ltb_spec start (S c)); [|injection H as <-; split_and!; [lia|lia|intros k; lia]].
    apply bind_Some in H as (e & He & H). destruct (is_compaction (pe_SourceEntry e) || negb (no_messages e)) eqn:Ev.
    + injection H as <-. split_and!; [lia|lia|intros k; lia].
    + destruct (IH r H) as (H1 & H2 & H3). split_and!; [lia|lia|]. intros k Hk.
      destruct (decide (k = c)) as [->|Hne]; [|apply H3; lia]. exists e. split; [done|].
      apply orb_false_iff in Ev as [_ Ev]. by apply negb_false_iff in Ev.
Qed.

Lemma back_over_stop entries start c e :
  entries !! c = Some e -> no_messages e = false -> back_over entries start (S c) = Some (S c).
Proof. intros He Hn. cbn [back_over]. destruct (start <? S c)%nat; [|done]. rewrite He. cbn. by rewrite Hn, orb_true_r. Qed.

Lemma turn_start_spec entries i start t :
  findProjectedTurnStartIndex entries i start = Some (Some t) ->
  (start <= t <= i)%nat /\ exists e, entries !! t = Some e /\ isProjectedTurnStart e = Some true.
Proof.
  revert t. induction i as [|i IH]; intros t H; cbn [findProjectedTurnStartIndex] in H;
    (match type of H with context [(?a <? start)%nat] => destruct (Nat.ltb_spec a start); [discriminate|] end); apply bind_Some in H as (e & He & H);
    apply bind_Some in H as (b & Hb & H); destruct b; try discriminate; try (injection H as <-; eauto with lia).
  destruct (IH t H) as [? ?]. split; [lia|done].
Qed.

Lemma recovery_silent {P : Platform} suffix e :
  recovery_suffix suffix = Some true -> e ∈ suffix -> projected e -> no_messages e = true.
Proof.
  unfold recovery_suffix. intros (ext & _ & (asst & _ & H)%bind_Some)%bind_Some. injection H as H.
  rewrite !andb_true_iff in H. destruct H as [_ Hc]. rewrite forallb_forall in Hc.
  intros Hin%list_elem_of_In [Hp1 Hp2]. apply Hc in Hin. unfold closed_or_omitted in Hin.
  apply andb_true_iff in Hin as [_ Hin]. apply negb_true_iff in Hin. unfold isOmittedProjected in Hin.
  assert (isIntrinsicallyVisible e = false -> no_messages e = true) as Hinv.
  { unfold isIntrinsicallyVisible, no_messages. destruct (is_context_edit (pe_SourceEntry e)) eqn:Ex.
    - intros _. by rewrite Hp1 by auto.
    - cbn. destruct (SessionEntryToContextMessages (pe_SourceEntry e)); [|discriminate]. intros _. by rewrite Hp1. }
  destruct (isIntrinsicallyVisible e); [|by apply Hinv]. cbn in Hin. by destruct (no_messages e).
Qed.

Lemma visible_skip l j c e :
  (j <= c)%nat -> (forall k, (j <= k < c)%nat -> exists e, l !! k = Some e /\ no_messages e = true) ->
  l !! c = Some e -> no_messages e = false -> visible (drop j l) = e :: visible (drop (S c) l).
Proof.
  intros Hjc Hq Hc Hv. remember (c - j)%nat as n eqn:En. revert j Hjc Hq En.
  induction n as [|n IH]; intros j Hjc Hq En.
  - replace j with c by lia. rewrite (drop_S _ _ _ Hc). unfold visible. cbn. by rewrite Hv.
  - destruct (Hq j) as (e' & He' & Hn'); [lia|]. rewrite (drop_S _ _ _ He'). unfold visible. cbn [List.filter].
    rewrite Hn'. cbn [negb]. apply IH; [lia| |lia]. intros k Hk. apply Hq. lia.
Qed.

Lemma visible_none l : (forall e, e ∈ l -> no_messages e = true) -> visible l = [].
Proof. induction l as [|e l IH]; [done|]. intros H. unfold visible. cbn. rewrite H by left. cbn. apply IH. set_solver. Qed.

Lemma tokens_visible l : sum_of entry_tokens (visible l) = sum_of entry_tokens l.
Proof.
  induction l as [|e l IH]; [done|]. unfold visible. cbn [List.filter]. rewrite sum_of_cons.
  destruct (no_messages e) eqn:E; cbn [negb]; [|rewrite sum_of_cons; fold (visible l); lia].
  fold (visible l). rewrite IH. unfold entry_tokens at 2. unfold no_messages in E.
  destruct (pe_Messages e); [|discriminate]. unfold sum_of at 2. cbn. lia.
Qed.

Lemma slice_some entries i j l : slice entries i j = Some l -> (i <= j <= length entries)%nat /\ l = take (j - i) (drop i entries).
Proof.
  unfold slice. destruct (Nat.leb_spec i j), (Nat.leb_spec j (length entries)); cbn; try discriminate.
  intros [= <-]. split; [lia|done].
Qed.

Lemma slice_to_end entries i l : slice entries i (length entries) = Some l -> (i <= length entries)%nat /\ l = drop i entries.
Proof.
  intros H. apply slice_some in H as [Hi ->]. split; [lia|]. rewrite take_ge; [done|]. rewrite length_drop. lia.
Qed.

(** The cut before the adjustments: a cut point with less than the budget
    behind it, unless nothing after it can be cut at. *)
Lemma budget_cut_spec entries start pts first cut exceeded keep :
  (start <= length entries)%nat -> cut_points start (drop start entries) = Some pts -> head pts = Some first ->
  budget_cut pts (drop start entries) (length entries) keep first = (cut, exceeded) ->
  (exists e, entries !! cut = Some e /\ cuttable e) /\ (start <= cut)%nat /\
  (tokens_from entries (S cut) < Z.max 1 keep \/ forall e, e ∈ drop (S cut) entries -> ~ cuttable e).
Proof.
  intros Hs Hp Hf H. pose proof (cut_points_spec _ _ _ Hp) as Hspec. pose proof (cut_points_sorted _ _ _ Hp) as Hsort.
  destruct pts as [|first' pts]; [discriminate|]. injection Hf as ->.
  assert (forall k, k ∈ first :: pts -> (exists e, entries !! k = Some e /\ cuttable e) /\ (start <= k)%nat) as Hpt.
  { intros k (e & Hk & He & Hc)%Hspec. rewrite lookup_drop in He. replace (start + (k - start))%nat with k in He by lia. eauto. }
  assert (forall j, tokens_from (drop start entries) (j - start) = tokens_from entries j \/ (j < start)%nat) as Htok.
  { intros j. destruct (decide (j < start)%nat); [by right|left]. unfold tokens_from. rewrite drop_drop. do 2 f_equal. lia. }
  pose proof (budget_range keep (drop start entries) start) as Hb. rewrite length_drop in Hb.
  replace (start + (length entries - start))%nat with (length entries) in Hb by lia.
  unfold budget_cut in H. destruct (budget_index _ _ _ _) as [i|]; apply pair_equal_spec in H as [<- <-].
  - destruct Hb as [Hi Hb].
    destruct (candidate_spec (first :: pts) i (default first (last (first :: pts)))) as [[Hin Hle]|[Heq Hall]].
    + destruct (Hpt _ Hin) as [He Hst]. split_and!; [done|done|]. left.
      destruct (Htok (S i)) as [E|?]; [|lia]. rewrite E in Hb.
      pose proof (tokens_from_mono entries (S i) (S (candidate (first :: pts) i (default first (last (first :: pts)))))). lia.
    + rewrite Heq. set (c := default first (last (first :: pts))).
      assert (c ∈ first :: pts) as Hin.
      { unfold c. destruct (last (first :: pts)) as [z|] eqn:Ez; [|left]. by apply last_Some_elem_of. }
      destruct (Hpt _ Hin) as [He Hst]. split_and!; [done|done|]. right.
      intros e Hine Hcut. apply list_elem_of_lookup in Hine as [k Hk]. rewrite lookup_drop in Hk.
      assert ((S c + k)%nat ∈ first :: pts) as Hkin.
      { apply Hspec. exists e. split; [lia|]. rewrite lookup_drop. split; [|done].
        by replace (start + (S c + k - start))%nat with (S c + k)%nat by lia. }
      apply (last_greatest _ first) in Hkin; [|done]. unfold c in Hkin. lia.
  - destruct (Hpt first) as [He Hst]; [left|]. split_and!; [done|done|]. left.
    destruct (Htok start) as [E|?]; [|lia]. rewrite Nat.sub_diag in E. rewrite E in Hb.
    pose proof (tokens_from_mono entries start (S first) ltac:(lia)). lia.
Qed.

(** ** The cut point *)

Lemma start_of_turn_at entries cutIndex start e startsTurn turnStart :
  entries !! cutIndex = Some e -> isProjectedTurnStart e = Some startsTurn ->
  (if startsTurn : bool then Some None else findProjectedTurnStartIndex entries cutIndex start) = Some turnStart ->
  negb startsTurn && match turnStart with Some _ => true | None => false end = true ->
  exists t, turnStart = Some t /\ (start <= t < cutIndex)%nat /\
    exists e, entries !! t = Some e /\ isProjectedTurnStart e = Some true.
Proof.
  intros He Hs Ht Hsplit. destruct startsTurn; [discriminate|]. destruct turnStart as [t|]; [|discriminate].
  destruct (turn_start_spec _ _ _ _ Ht) as [Hr (e' & He' & Hs')]. exists t. split; [done|]. split; [|eauto].
  destruct (decide (t = cutIndex)) as [->|Hne]; [|lia]. congruence.
Qed.

(** What holds of a cut. *)
Record sound_cut (entries : list ProjectedSessionEntry) (start : nat) (keep : Z) (cp : CutPointResult) : Prop := {
  sc_range : (start <= cp_FirstKeptEntryIndex cp <= length entries)%nat;
  sc_split : cp_IsSplitTurn cp = true ->
    exists t, cp_TurnStartIndex cp = Some t /\ (start <= t < cp_FirstKeptEntryIndex cp)%nat /\
      exists e, entries !! t = Some e /\ isProjectedTurnStart e = Some true;
  sc_kept :
    (cp_FirstKeptEntryIndex cp = start /\ cp_IsSplitTurn cp = false /\ forall e, e ∈ drop start entries -> ~ cuttable e) \/
    match visible (drop (cp_FirstKeptEntryIndex cp) entries) with
    | [] => True
    | head :: tail =>
        cuttable head /\ (sum_of entry_tokens tail < Z.max 1 keep \/ forall e, e ∈ tail -> ~ cuttable e)
    end;
}.

Lemma visible_sub l e : e ∈ visible l -> e ∈ l.
Proof. unfold visible. intros [H _]%list_elem_of_In%filter_In. by apply list_elem_of_In. Qed.

Lemma find_sound {P : Platform} entries start keep cp :
  (forall e, e ∈ entries -> projected e) -> findProjectedCutPoint entries start (length entries) keep = Some cp ->
  sound_cut entries start keep cp.
Proof.
  intros Hproj H. unfold findProjectedCutPoint in H. apply bind_Some in H as (range & Hr & H).
  apply slice_to_end in Hr as [Hst ->]. apply bind_Some in H as (pts & Hp & H). destruct pts as [|first pts].
  - injection H as <-. split; cbn; [lia|discriminate|left]. split_and!; [done|done|]. intros e He Hc.
    apply list_elem_of_lookup in He as [k Hk].
    assert ((start + k)%nat ∈ @nil nat) as Hin; [|inversion Hin].
    apply (cut_points_spec _ _ _ Hp). exists e. split; [lia|]. by replace (start + k - start)%nat with k by lia.
  - destruct (budget_cut (first :: pts) (drop start entries) (length entries) keep first) as [cut exceeded] eqn:Eb.
    destruct (budget_cut_spec _ _ _ _ _ _ _ Hst Hp eq_refl Eb) as ((e & He & Hc) & Hcut & Hbudget).
    apply bind_Some in H as (suffix & Hsuf & H). apply slice_to_end in Hsuf as [Hlen ->].
    apply bind_Some in H as (recovery & Hrec & H). apply bind_Some in H as (cutIndex & Hback & H).
    apply bind_Some in H as (e' & He' & H). apply bind_Some in H as (startsTurn & Hs & H).
    apply bind_Some in H as (turnStart & Ht & H). injection H as <-.
    destruct (cuttable_visible _ Hc) as [Hv _].
    assert ((start <= cutIndex)%nat /\ match visible (drop cutIndex entries) with
      | [] => True
      | head :: tail => head = e /\ tail = visible (drop (S cut) entries) end) as [Hge Hvis].
    { destruct (exceeded && recovery) eqn:Er.
      - rewrite (back_over_stop _ _ _ _ He Hv) in Hback. injection Hback as <-. split; [lia|].
        apply andb_true_iff in Er as [-> ->]. rewrite (visible_none (drop (S cut) entries)); [done|].
        intros x Hx. eapply recovery_silent; [done..|]. apply Hproj.
        apply list_elem_of_lookup in Hx as [k Hk]. rewrite lookup_drop in Hk. by eapply list_elem_of_lookup_2.
      - destruct (back_over_spec _ _ _ _ Hback) as (H1 & H2 & H3). split; [auto|].
        by rewrite (visible_skip _ _ _ _ H1 H3 He Hv). }
    split; cbn [cp_FirstKeptEntryIndex cp_TurnStartIndex cp_IsSplitTurn].
    + apply lookup_lt_Some in He'. lia.
    + intros Hsplit. by eapply start_of_turn_at.
    + right. destruct (visible (drop cutIndex entries)) as [|hd tl]; [done|]. destruct Hvis as [-> ->]. split; [done|].
      destruct Hbudget as [Hb|Hb]; [left; by rewrite tokens_visible|right]. intros x Hx. apply Hb. by apply visible_sub.
Qed.

(** ** No panic *)

Definition with_roles (e : ProjectedSessionEntry) : Prop :=
  (forall m, m ∈ pe_Messages e -> MessageRole m <> None) /\
  (forall m, se_Body (pe_SourceEntry e) = BMessage m -> MessageRole m <> None) /\
  EntryType (pe_SourceEntry e) = body_type (se_Body (pe_SourceEntry e)).

Lemma contains_total f l : (forall m, m ∈ l -> MessageRole m <> None) -> is_Some (ContainsRole f l).
Proof.
  induction l as [|m l IH]; intros H; cbn [ContainsRole]; [eauto|]. destruct (MessageRole m) as [r|] eqn:E.
  - cbn. destruct (f r); [eauto|]. apply IH. intros x Hx. apply H. by right.
  - exfalso. apply (H m); [left|done].
Qed.

Lemma entry_has_total f e : with_roles e -> is_Some (entry_has f e).
Proof. intros (H & _). unfold entry_has. destruct (is_compaction _); [eauto|]. by apply contains_total. Qed.

Lemma cut_points_total i l : (forall e, e ∈ l -> with_roles e) -> is_Some (cut_points i l).
Proof.
  revert i. induction l as [|e l IH]; intros i H; cbn [cut_points]; [eauto|].
  destruct (entry_has_total isCutPointRole e) as [b ->]; [apply H; left|].
  destruct (IH (S i)) as [pts ->]; [intros x Hx; apply H; by right|]. cbn. eauto.
Qed.

Lemma exists_entry_total f l : (forall e, e ∈ l -> is_Some (f e)) -> is_Some (exists_entry f l).
Proof.
  induction l as [|e l IH]; intros H; cbn [exists_entry]; [eauto|].
  destruct (H e) as [b ->]; [left|]. cbn. destruct b; [eauto|]. apply IH. intros x Hx. apply H. by right.
Qed.

Lemma recovery_total {P : Platform} l : (forall e, e ∈ l -> with_roles e) -> is_Some (recovery_suffix l).
Proof.
  intros H. unfold recovery_suffix. set (om := list_to_set _).
  destruct (exists_entry_total (external_replacement om) l) as [b ->].
  { intros e He. destruct (H e He) as (_ & _ & Ht). unfold external_replacement, is_context_edit. rewrite Ht.
    destruct (se_Body (pe_SourceEntry e)); cbn; eauto. }
  destruct (exists_entry_total omitted_assistant l) as [b' ->]; [|cbn; eauto].
  intros e He. destruct (H e He) as (_ & Hm & _). unfold omitted_assistant. destruct (se_Body (pe_SourceEntry e)); eauto.
  destruct (MessageRole m) eqn:E; [cbn; eauto|]. by edestruct Hm.
Qed.

Lemma back_over_total entries start cut : (cut <= length entries)%nat -> is_Some (back_over entries start cut).
Proof.
  induction cut as [|c IH]; intros H; cbn [back_over]; [eauto|]. destruct (start <? S c)%nat; [|eauto].
  destruct (lookup_lt_is_Some_2 entries c) as [e ->]; [lia|]. cbn. destruct (_ || _); [eauto|]. apply IH. lia.
Qed.

Lemma turn_start_total entries i start :
  (i < length entries)%nat -> (forall e, e ∈ entries -> with_roles e) -> is_Some (findProjectedTurnStartIndex entries i start).
Proof.
  intros Hi H. induction i as [|i IH]; cbn [findProjectedTurnStartIndex];
    (match goal with |- context [(?a <? start)%nat] => destruct (a <? start)%nat; [eauto|];
       destruct (lookup_lt_is_Some_2 entries a Hi) as [e He] end);
    rewrite He; cbn [mbind option_bind];
    (destruct (entry_has_total isTurnStartRole e) as [b Hb]; [by eapply H, list_elem_of_lookup_2|]);
    unfold isProjectedTurnStart; rewrite Hb; cbn; destruct b; eauto.
  apply IH. lia.
Qed.

Lemma drop_sub {A} (l : list A) n x : x ∈ drop n l -> x ∈ l.
Proof. intros [k Hk]%list_elem_of_lookup. rewrite lookup_drop in Hk. by eapply list_elem_of_lookup_2. Qed.

Lemma find_total {P : Platform} entries start keep :
  (start <= length entries)%nat -> (forall e, e ∈ entries -> with_roles e) ->
  is_Some (findProjectedCutPoint entries start (length entries) keep).
Proof.
  intros Hst H. unfold findProjectedCutPoint.
  assert (forall i, (i <= length entries)%nat -> slice entries i (length entries) = Some (drop i entries)) as Hslice.
  { intros i Hi. unfold slice. rewrite (proj2 (Nat.leb_le _ _) Hi), Nat.leb_refl. cbn. rewrite take_ge; [done|].
    rewrite length_drop. lia. }
  rewrite Hslice by done. cbn [mbind option_bind].
  destruct (cut_points_total start (drop start entries)) as [pts Hp]; [intros e He; by eapply H, drop_sub|].
  rewrite Hp. cbn [mbind option_bind]. destruct pts as [|first pts]; [eauto|].
  destruct (budget_cut (first :: pts) (drop start entries) (length entries) keep first) as [cut exceeded] eqn:Eb.
  destruct (budget_cut_spec _ _ _ _ _ _ _ Hst Hp eq_refl Eb) as ((e & He & Hc) & Hcut & _).
  pose proof (lookup_lt_Some _ _ _ He) as Hlt. rewrite Hslice by lia. cbn [mbind option_bind].
  destruct (recovery_total (drop (S cut) entries)) as [rec Hrec]; [intros x Hx; by eapply H, drop_sub|].
  rewrite Hrec. cbn [mbind option_bind].
  assert (exists r, back_over entries start (if exceeded && rec then S cut else cut) = Some r /\ (r < length entries)%nat) as (r & -> & Hr).
  { destruct (exceeded && rec) eqn:Er.
    - exists (S cut). split; [apply (back_over_stop _ _ _ e); [done|by apply cuttable_visible]|].
      apply andb_true_iff in Er as [_ ->]. destruct (decide (S cut < length entries)%nat); [done|].
      rewrite drop_ge in Hrec by lia. discriminate.
    - destruct (back_over_total entries start cut) as [r Hr]; [lia|]. exists r. split; [done|].
      apply back_over_spec in Hr as (? & _). lia. }
  cbn [mbind option_bind]. destruct (lookup_lt_is_Some_2 entries r Hr) as [x Hx]. rewrite Hx. cbn [mbind option_bind].
  destruct (entry_has_total isTurnStartRole x) as [b Hb]; [by eapply H, list_elem_of_lookup_2|].
  unfold isProjectedTurnStart at 1. rewrite Hb. cbn [mbind option_bind]. destruct b; [cbn; eauto|].
  destruct (turn_start_total entries r start Hr H) as [t ->]. cbn. eauto.
Qed.
