(* ===== verification/CompactionPath.v ===== *)
(** * Paths and their projection

    The branch of a well-formed session as a path, what [context_entries]
    makes of it, and how a compaction appended to it changes that. *)

From S2P Require Import Prelude GoText PiModel SessionTree Transcript SessionContext SessionTreeProps Estimate Compaction.

(** ** Definitions *)

(** A path in which no context edit has its target at or after it, and every
    target is a message that may be edited. *)
Record path_ok (path : list SessionEntry) : Prop := {
  po_chain : chain None path;
  po_ids : NoDup (entry_id <$> path);
  po_types : forall e, e ∈ path -> EntryType e = body_type (se_Body e);
  po_edits : forall before e after x, path = before ++ e :: after -> se_Body e = BContextEdit x ->
    xe_TargetID x ∉ (entry_id <$> (e :: after));
  po_targets : forall e x t, e ∈ path -> se_Body e = BContextEdit x -> t ∈ path -> entry_id t = xe_TargetID x ->
    editableContextEntry t = Some true;
}.

(** The part of a path from the entry with an id on. *)
Fixpoint from_id (id : string) (path : list SessionEntry) : list SessionEntry :=
  match path with
  | [] => []
  | e :: rest => if String.eqb (entry_id e) id then path else from_id id rest
  end.

(** A message entry that holds a system message. *)
Definition system_entry (e : SessionEntry) : bool :=
  match se_Body e with BMessage m => bool_decide (MessageRole m = Some RoleSystem) | _ => false end.

Definition not_system (l : list SessionEntry) : list SessionEntry := List.filter (fun e => negb (system_entry e)) l.

(** The messages that are not system messages. *)
Definition conversation (l : list Message) : list Message :=
  List.filter (fun m => negb (bool_decide (MessageRole m = Some RoleSystem))) l.

Definition edit_of (target : string) (e : SessionEntry) : option ContextEditEntry :=
  match se_Body e with
  | BContextEdit x => if String.eqb (xe_TargetID x) target then Some x else None
  | _ => None
  end.

(** Every message of a path has a role. *)
Definition named (path : list SessionEntry) : Prop :=
  forall e m, e ∈ path -> se_Body e = BMessage m -> MessageRole m <> None.

Section Spoken.
Context {P : Platform}.

(** What an entry that is not the first contributes. *)
Definition entry_messages (edits : gmap string ContextEditEntry) (e : SessionEntry) : list Message :=
  pe_Messages (project_entry edits false e).

(** What entries contribute to the conversation. *)
Definition spoken (edits : gmap string ContextEditEntry) (l : list SessionEntry) : list Message :=
  conversation (concat (map (entry_messages edits) l)).
End Spoken.

(** ** Walking a chain *)

Lemma path_snoc parent path e :
  chain parent (path ++ [e]) <->
  chain parent path /\ entry_parent e = match last path with Some l => Some (entry_id l) | None => parent end.
Proof.
  revert parent. induction path as [|x path IH]; intros parent; [cbn; tauto|].
  cbn [app chain]. rewrite IH. rewrite last_cons. destruct (last path); tauto.
Qed.

Lemma walk_chain (index : gmap string SessionEntry) path fuel acc :
  chain None path -> (forall e, e ∈ path -> index !! entry_id e = Some e) -> (length path <= fuel)%nat ->
  walk index fuel (last path) acc = Some (path ++ acc).
Proof.
  revert fuel acc. induction path as [|e path IH] using rev_ind; intros fuel acc Hc Hi Hf.
  - by destruct fuel.
  - rewrite length_app in Hf. cbn in Hf. destruct fuel as [|fuel]; [lia|]. apply path_snoc in Hc as [Hc Hp].
    rewrite last_snoc. cbn [walk]. rewrite Hp, <- app_assoc.
    destruct (last path) as [l|] eqn:El.
    + rewrite Hi by (apply elem_of_app; left; by apply last_Some_elem_of). apply IH; [done| |lia].
      intros x Hx. apply Hi. set_solver.
    + apply last_None in El as ->. by destruct fuel.
Qed.

Lemma index_of_lookup path id e :
  NoDup (entry_id <$> path) -> entries_index path !! id = Some e <-> e ∈ path /\ entry_id e = id.
Proof.
  unfold entries_index. revert id e. induction path as [|x path IH] using rev_ind; intros id e Hn.
  - cbn. rewrite lookup_empty. split; [discriminate|intros [H _]; inversion H].
  - rewrite fmap_app in Hn. apply NoDup_app in Hn as (Hn & Hd & _). rewrite foldl_app. cbn [foldl].
    rewrite elem_of_app, list_elem_of_singleton. destruct (decide (id = entry_id x)) as [->|Hne].
    + rewrite lookup_insert_eq. split; [intros [= <-]; split; [by right|done]|].
      intros [[Hin| ->] E]; [|done]. exfalso. apply (Hd (entry_id e)); [by apply list_elem_of_fmap_2|rewrite E; left].
    + rewrite lookup_insert_ne by done. rewrite IH by done. naive_solver.
Qed.

Lemma index_size (index : gmap string SessionEntry) path :
  NoDup (entry_id <$> path) -> (forall e, e ∈ path -> index !! entry_id e = Some e) -> (length path <= size index)%nat.
Proof.
  intros Hn Hi. rewrite <- (length_fmap entry_id), <- (size_list_to_set (C := gset string)) by done.
  rewrite <- size_dom. apply subseteq_size. intros id. rewrite elem_of_list_to_set, list_elem_of_fmap.
  intros (e & -> & He). apply elem_of_dom. eauto.
Qed.

Lemma walk_from_chain (index : gmap string SessionEntry) path :
  chain None path -> NoDup (entry_id <$> path) -> (forall e, e ∈ path -> index !! entry_id e = Some e) ->
  walk_from index (last path) = Some path.
Proof.
  intros Hc Hn Hi. unfold walk_from. rewrite walk_chain; [by rewrite app_nil_r|done|done|].
  pose proof (index_size _ _ Hn Hi). lia.
Qed.

(** ** The branch of a session *)

Lemma sublist_split {A} (b a l : list A) e :
  b ++ e :: a `sublist_of` l -> exists B A', l = B ++ e :: A' /\ b `sublist_of` B /\ a `sublist_of` A'.
Proof.
  intros (B & L2 & -> & Hb & H2)%sublist_app_l. apply sublist_cons_l in H2 as (B' & A' & -> & Ha).
  exists (B ++ B'), A'. split_and!; [by rewrite <- app_assoc|by apply sublist_inserts_r|done].
Qed.

Lemma branch_chain sm from path :
  session_wf sm -> GetBranch sm from = Some path ->
  chain None path /\ path `sublist_of` sm_entries sm /\
  last path = start_of sm (match from with Some id => Some id | None => sm_leafID sm end).
Proof.
  intros Hw Hb. unfold GetBranch in Hb. destruct (start_of sm _) as [e|] eqn:E.
  - destruct (walk_from_entry sm e Hw) as (p & Hp & Hc & Hs); [by eapply start_entry|].
    rewrite Hp in Hb. injection Hb as <-. split_and!; [done..|]. by rewrite last_snoc.
  - cbn in Hb. injection Hb as <-. split_and!; [done|apply sublist_nil_l|done].
Qed.

Lemma branch_ok sm path :
  session_wf sm -> GetBranch sm None = Some path -> path_ok path /\ path `sublist_of` sm_entries sm /\ last path = start_of sm (sm_leafID sm).
Proof.
  intros Hw Hb. destruct (branch_chain _ _ _ Hw Hb) as (Hc & Hs & Hl).
  assert (forall e, e ∈ path -> e ∈ sm_entries sm) as Hsub by (intros e He; by eapply elem_of_sublist).
  split_and!; [|done|done]. split; [done| | | |].
  - eapply sublist_NoDup; [apply (wf_ids _ Hw)|]. by apply fmap_sublist.
  - intros e He. by apply Hw, Hsub.
  - intros before e after x -> Hx. apply sublist_split in Hs as (B & A & E & _ & HA).
    destruct (wf_targets _ Hw _ _ _ _ E Hx) as (t & Ht & <- & _).
    pose proof (wf_ids _ Hw) as Hn. rewrite E, fmap_app in Hn. apply NoDup_app in Hn as (_ & Hd & _).
    intros Hin. apply (Hd (entry_id t)); [by apply list_elem_of_fmap_2|].
    rewrite fmap_cons in *. apply elem_of_cons in Hin as [->|Hin]; [left|right].
    eapply elem_of_sublist; [done|]. by apply fmap_sublist.
  - intros e x t He Hx Ht Et. apply Hsub in He. apply list_elem_of_split in He as (B & A & E).
    destruct (wf_targets _ Hw _ _ _ _ E Hx) as (t' & Ht' & Et' & Hed & _).
    assert (t = t') as ->; [|done].
    assert (sm_byID sm !! entry_id t = Some t) as H1 by (apply (wf_index _ Hw); auto).
    assert (sm_byID sm !! entry_id t = Some t') as H2.
    { apply (wf_index _ Hw). rewrite E. split; [apply elem_of_app; by left|congruence]. }
    congruence.
Qed.

(** ** Edits *)

Lemma edits_lookup l t : edits_of l !! t = last (omap (edit_of t) l).
Proof.
  unfold edits_of. induction l as [|e l IH] using rev_ind; [done|]. rewrite foldl_app, omap_app. cbn [foldl].
  unfold edit_of at 2. cbn [omap list_omap]. destruct (se_Body e) as [| | | | | | | | | |x]; cbn; rewrite ?app_nil_r; try done.
  destruct (String.eqb_spec (xe_TargetID x) t) as [<-|Hne]; cbn.
  - by rewrite lookup_insert_eq, last_snoc.
  - by rewrite lookup_insert_ne, app_nil_r.
Qed.

Lemma omap_not_system t l : omap (edit_of t) (not_system l) = omap (edit_of t) l.
Proof.
  induction l as [|e l IH]; [done|]. unfold not_system. cbn. unfold system_entry at 1, edit_of at 2.
  destruct (se_Body e) eqn:E; cbn; unfold edit_of at 1; rewrite ?E; fold (not_system l); rewrite ?IH; try done.
  case_bool_decide; cbn; [done|]. unfold edit_of at 1. rewrite E. done.
Qed.

(** Edits before an entry do not target it or what follows. *)
Lemma no_early_edits path before after t :
  path_ok path -> path = before ++ after -> t ∈ (entry_id <$> after) -> omap (edit_of t) before = [].
Proof.
  intros Hok -> Ht. destruct (omap (edit_of t) before) as [|x l] eqn:E; [done|]. exfalso.
  assert (x ∈ omap (edit_of t) before) as Hx by (rewrite E; left).
  apply list_elem_of_omap in Hx as (e & He & Hx). unfold edit_of in Hx. destruct (se_Body e) eqn:Eb; try discriminate.
  destruct (String.eqb_spec (xe_TargetID e0) t) as [<-|]; [|discriminate].
  apply list_elem_of_split in He as (b & a & ->).
  apply (po_edits _ Hok b e (a ++ after) e0); [by rewrite <- app_assoc|done|].
  rewrite fmap_cons, fmap_app. right. apply elem_of_app. by right.
Qed.

Lemma edits_snoc_other path e : (forall x, se_Body e <> BContextEdit x) -> edits_of (path ++ [e]) = edits_of path.
Proof. intros H. unfold edits_of. rewrite foldl_app. cbn. destruct (se_Body e); try done. by edestruct H. Qed.

(** A suffix of a path has the edits of the path for its own entries. *)
Lemma suffix_edits path before after t :
  path_ok path -> path = before ++ after -> t ∈ (entry_id <$> after) -> edits_of after !! t = edits_of path !! t.
Proof.
  intros Hok E Ht. rewrite !edits_lookup. rewrite E, omap_app.
  by rewrite (no_early_edits _ _ _ _ Hok E Ht).
Qed.

(** ** The part from an entry on *)

Lemma from_id_in id l e : e ∈ l -> entry_id e = id -> exists before x rest,
  l = before ++ from_id id l /\ from_id id l = x :: rest /\ entry_id x = id.
Proof.
  intros He Hid. induction l as [|x l IH]; [inversion He|]. cbn [from_id].
  destruct (String.eqb_spec (entry_id x) id) as [Hx|Hx]; [by exists [], x, l|].
  apply elem_of_cons in He as [->|He]; [congruence|]. destruct (IH He) as (b & y & r & E & Ey & Hy).
  exists (x :: b), y, r. split; [|done]. cbn. by rewrite <- E.
Qed.

Lemma from_id_none id l : id ∉ (entry_id <$> l) -> from_id id l = [].
Proof.
  induction l as [|x l IH]; [done|]. rewrite fmap_cons, not_elem_of_cons. intros [Hx Hl]. cbn [from_id].
  destruct (String.eqb_spec (entry_id x) id); [congruence|auto].
Qed.

Lemma from_id_app id l l' :
  from_id id (l ++ l') = if decide (id ∈ (entry_id <$> l)) then from_id id l ++ l' else from_id id l'.
Proof.
  induction l as [|x l IH]; [done|]. cbn [from_id app]. rewrite fmap_cons.
  destruct (String.eqb_spec (entry_id x) id) as [<-|Hx]; [by rewrite decide_True by left|]. rewrite IH.
  apply decide_ext. rewrite elem_of_cons. naive_solver.
Qed.

Lemma from_id_drop l k e :
  NoDup (entry_id <$> l) -> l !! k = Some e -> from_id (entry_id e) l = drop k l.
Proof.
  revert k. induction l as [|x l IH]; intros k Hn Hk; [by rewrite lookup_nil in Hk|].
  rewrite fmap_cons in Hn. apply NoDup_cons in Hn as [Hx Hn]. destruct k as [|k]; cbn [from_id drop].
  - injection Hk as ->. by rewrite String.eqb_refl.
  - cbn in Hk. destruct (String.eqb_spec (entry_id x) (entry_id e)) as [E|_]; [|auto].
    exfalso. apply Hx. rewrite E. by apply list_elem_of_fmap_2, list_elem_of_lookup_2 with k.
Qed.

Lemma not_system_app l l' : not_system (l ++ l') = not_system l ++ not_system l'.
Proof. apply List.filter_app. Qed.

Lemma not_system_sublist l : not_system l `sublist_of` l.
Proof.
  induction l as [|e l IH]; [constructor|]. unfold not_system. cbn. destruct (system_entry e); cbn; by constructor.
Qed.

Lemma not_system_cons e l : not_system (e :: l) = if system_entry e then not_system l else e :: not_system l.
Proof. unfold not_system. cbn. by destruct (system_entry e). Qed.

Lemma from_id_not_system id l :
  NoDup (entry_id <$> l) -> id ∈ (entry_id <$> not_system l) -> from_id id (not_system l) = not_system (from_id id l).
Proof.
  induction l as [|e l IH]; intros Hn Hid; [done|]. rewrite fmap_cons in Hn. apply NoDup_cons in Hn as [He Hn].
  rewrite not_system_cons in *. cbn [from_id].
  destruct (String.eqb_spec (entry_id e) id) as [<-|Hne].
  - destruct (system_entry e) eqn:Es; [|cbn [from_id]; by rewrite String.eqb_refl, not_system_cons, Es].
    exfalso. apply He. eapply elem_of_sublist; [apply Hid|]. apply fmap_sublist, not_system_sublist.
  - destruct (system_entry e); [by apply IH|]. cbn [from_id]. rewrite (proj2 (String.eqb_neq _ _) Hne). apply IH; [done|].
    rewrite fmap_cons, elem_of_cons in Hid. naive_solver.
Qed.

Lemma from_id_twice id id' l : id ∈ (entry_id <$> from_id id' l) -> NoDup (entry_id <$> l) -> from_id id (from_id id' l) = from_id id l.
Proof.
  induction l as [|e l IH]; [done|]. rewrite fmap_cons. cbn [from_id].
  destruct (String.eqb_spec (entry_id e) id') as [<-|Hne]; [done|]. intros Hid [He Hn]%NoDup_cons.
  rewrite IH by done. destruct (String.eqb_spec (entry_id e) id) as [<-|]; [|done]. exfalso. apply He.
  clear -Hid. induction l as [|x l IH]; [done|]. cbn [from_id] in Hid. rewrite fmap_cons.
  destruct (String.eqb (entry_id x) id'); [done|right; auto].
Qed.

Lemma from_id_suffix id l : exists before, l = before ++ from_id id l.
Proof.
  induction l as [|e l [b IH]]; [by exists []|]. cbn [from_id]. destruct (String.eqb (entry_id e) id); [by exists []|].
  exists (e :: b). cbn. by rewrite <- IH.
Qed.

(** ** What entries say *)

Lemma conversation_app l l' : conversation (l ++ l') = conversation l ++ conversation l'.
Proof. apply List.filter_app. Qed.

Lemma conversation_none l : (forall m, m ∈ l -> MessageRole m = Some RoleSystem) -> conversation l = [].
Proof.
  induction l as [|m l IH]; intros H; [done|]. unfold conversation. cbn. rewrite bool_decide_true by (apply H; left).
  apply IH. intros x Hx. apply H. by right.
Qed.

Lemma conversation_all l : (forall m, m ∈ l -> MessageRole m <> Some RoleSystem) -> conversation l = l.
Proof.
  induction l as [|m l IH]; intros H; [done|]. unfold conversation. cbn. rewrite bool_decide_false by (apply H; left).
  cbn. f_equal. apply IH. intros x Hx. apply H. by right.
Qed.

Lemma conversation_no_systems l : conversation l = l -> systems l = [].
Proof.
  intros E. assert (forall m, m ∈ l -> systemMessageOf m = None) as H.
  { intros m Hm. rewrite <- E in Hm. apply list_elem_of_In, filter_In in Hm as [_ Hm]. apply negb_true_iff, bool_decide_eq_false in Hm.
    destruct m; cbn in *; try done. unfold role_of in Hm. by destruct (deref m). }
  clear E. unfold systems. induction l as [|m l IH]; [done|]. cbn. rewrite H by left. apply IH. intros x Hx. apply H. by right.
Qed.

(** * The shape of a session's context

    What [buildSessionProjection] gives for a branch: the newest compaction,
    if there is one, and after it a list of entries each with what it says
    under the branch's edits; and the same for the branch with a compaction
    appended. *)

Section Shape.
Context {P : Platform}.

(** ** Messages of an entry *)

(** An entry has at most one message, a compaction aside. *)
Lemma own_messages e :
  compaction_of e = None ->
  SessionEntryToContextMessages e = [] \/ exists m, SessionEntryToContextMessages e = [m] /\
    (se_Body e = BMessage m \/ (forall m', se_Body e <> BMessage m') /\ (MessageRole m = Some RoleCustom \/ MessageRole m = Some RoleBranchSummary)).
Proof.
  unfold compaction_of, SessionEntryToContextMessages. destruct (se_Body e); intros H; try discriminate H; eauto.
  - destruct (String.eqb _ _); [by left|right]. eexists. split; [done|]. right. split; [done|by right].
  - destruct (custom_entry_marshals c); [|by left]. right.
    destruct (StringContent _ _); (eexists; split; [done|]; right; split; [done|by left]).
Qed.

Lemma replaced_role content m : MessageRole (replace_content content m) = MessageRole m.
Proof. destruct m as [[]|[]|[]|[]|[]|[]|[]|[]| |]; done. Qed.

Lemma entry_messages_spec edits e :
  entry_messages edits e = [] \/ exists m, entry_messages edits e = [m] /\
    ((exists m0, se_Body e = BMessage m0 /\ MessageRole m = MessageRole m0) \/
     (forall m', se_Body e <> BMessage m') /\ (MessageRole m = Some RoleCustom \/ MessageRole m = Some RoleBranchSummary)).
Proof.
  unfold entry_messages, project_entry, projectContextEntry. cbn [pe_Messages].
  destruct (compaction_of e) eqn:Ec; [by left|].
  destruct (own_messages e Ec) as [->|(m & -> & Hm)]; [destruct (edits !! _) as [x|]; [destruct (xe_Replacement x)|]; by left|].
  destruct (edits !! _) as [x|]; [destruct (xe_Replacement x) as [content|]; [|by left]|].
  - right. exists (replace_content (CloneContentList content) m). split; [done|]. rewrite replaced_role.
    destruct Hm as [Hm|Hm]; [left; eauto|by right].
  - right. exists m. split; [done|]. destruct Hm as [Hm|Hm]; [left; eauto|by right].
Qed.

Lemma entry_messages_system edits e : system_entry e = true -> conversation (entry_messages edits e) = [].
Proof.
  unfold system_entry. intros Hs. destruct (entry_messages_spec edits e) as [->|(m & -> & Hm)]; [done|].
  apply conversation_none. intros x ->%list_elem_of_singleton. destruct Hm as [(m0 & Em & ->)|[Hm _]].
  - rewrite Em in Hs. by apply bool_decide_eq_true in Hs.
  - destruct (se_Body e); try discriminate Hs. by destruct (Hm m0).
Qed.

Lemma entry_messages_roles edits e m :
  m ∈ entry_messages edits e -> (forall m0, se_Body e = BMessage m0 -> MessageRole m0 <> None) ->
  MessageRole m <> None /\ (system_entry e = false -> MessageRole m <> Some RoleSystem).
Proof.
  intros Hin Hn. destruct (entry_messages_spec edits e) as [E|(m' & E & Hm)]; rewrite E in Hin; [inversion Hin|].
  apply list_elem_of_singleton in Hin as ->. destruct Hm as [(m0 & Em & ->)|[_ [->| ->]]]; [|done|done].
  split; [by apply Hn|]. unfold system_entry. rewrite Em. by intros Hs%bool_decide_eq_false.
Qed.

Lemma spoken_app edits l l' : spoken edits (l ++ l') = spoken edits l ++ spoken edits l'.
Proof. unfold spoken. by rewrite map_app, concat_app, conversation_app. Qed.

Lemma spoken_cons edits e l : spoken edits (e :: l) = conversation (entry_messages edits e) ++ spoken edits l.
Proof. unfold spoken. cbn. apply conversation_app. Qed.

Lemma spoken_not_system edits l : spoken edits (not_system l) = spoken edits l.
Proof.
  induction l as [|e l IH]; [done|]. rewrite not_system_cons, spoken_cons. destruct (system_entry e) eqn:Es.
  - by rewrite entry_messages_system, IH.
  - by rewrite spoken_cons, IH.
Qed.

Lemma spoken_compaction edits e c : compaction_of e = Some c -> spoken edits [e] = [].
Proof. unfold spoken, entry_messages, project_entry. intros H. cbn. by rewrite H. Qed.

Lemma map_messages_ext edits edits' l :
  (forall e, e ∈ l -> edits !! entry_id e = edits' !! entry_id e) ->
  map (project_entry edits false) l = map (project_entry edits' false) l.
Proof.
  intros H. apply map_ext_in. intros e He%list_elem_of_In. unfold project_entry. by rewrite H.
Qed.

Lemma concat_project edits l : concat (map pe_Messages (map (project_entry edits false) l)) = concat (map (entry_messages edits) l).
Proof. by rewrite map_map. Qed.

(** Without system entries, the conversation is all there is. *)
Lemma not_system_messages edits l :
  named l -> conversation (concat (map (entry_messages edits) (not_system l))) = concat (map (entry_messages edits) (not_system l)).
Proof.
  intros Hn. apply conversation_all. intros m Hm. apply list_elem_of_In, in_concat in Hm as (ms & Hms & Hm).
  apply in_map_iff in Hms as (e & <- & He). apply filter_In in He as [He Hs]. apply list_elem_of_In in Hm, He.
  apply negb_true_iff in Hs. eapply entry_messages_roles; [done| |done]. intros m0. by apply Hn.
Qed.

(** ** The newest compaction *)

Lemma last_compaction_snoc l e :
  last_compaction (l ++ [e]) = match compaction_of e with Some c => Some (e, c) | None => last_compaction l end.
Proof. unfold last_compaction. by rewrite foldl_app. Qed.

Lemma last_compaction_spec l :
  match last_compaction l with
  | None => forall e, e ∈ l -> compaction_of e = None
  | Some (ce, c) => exists before after, l = before ++ ce :: after /\ compaction_of ce = Some c /\
      forall e, e ∈ after -> compaction_of e = None
  end.
Proof.
  induction l as [|e l IH] using rev_ind; [intros e He; inversion He|]. rewrite last_compaction_snoc.
  destruct (compaction_of e) as [c|] eqn:Ec; [exists l, []; split_and!; [done..|intros x Hx; inversion Hx]|].
  destruct (last_compaction l) as [[ce c]|].
  - destruct IH as (b & a & -> & Hc & Ha). exists b, (a ++ [e]). split_and!; [by rewrite <- app_assoc|done|].
    intros x [Hx| ->%list_elem_of_singleton]%elem_of_app; auto.
  - intros x [Hx| ->%list_elem_of_singleton]%elem_of_app; auto.
Qed.

Lemma last_compaction_none l : (forall e, e ∈ l -> compaction_of e = None) -> last_compaction l = None.
Proof.
  intros H. pose proof (last_compaction_spec l) as Hs. destruct (last_compaction l) as [[ce c]|]; [|done].
  destruct Hs as (b & a & -> & Hc & _). rewrite H in Hc; [done|]. apply elem_of_app. right. left.
Qed.

Lemma last_compaction_at A ce c B :
  compaction_of ce = Some c -> (forall e, e ∈ B -> compaction_of e = None) -> last_compaction (A ++ ce :: B) = Some (ce, c).
Proof.
  intros Hc. induction B as [|e B IH] using rev_ind; intros H.
  - by rewrite last_compaction_snoc, Hc.
  - rewrite app_comm_cons, app_assoc, last_compaction_snoc, H by (apply elem_of_app; right; left).
    apply IH. intros x Hx. apply H, elem_of_app. by left.
Qed.

Lemma position_of_id_here before ce after :
  NoDup (entry_id <$> (before ++ ce :: after)) -> position_of_id (entry_id ce) (before ++ ce :: after) = Some (length before).
Proof.
  induction before as [|e before IH]; cbn [app position_of_id length]; [by rewrite String.eqb_refl|].
  rewrite fmap_cons. intros [He Hn]%NoDup_cons. destruct (String.eqb_spec (entry_id e) (entry_id ce)) as [E|_].
  - exfalso. apply He. rewrite E. apply list_elem_of_fmap_2, elem_of_app. right. left.
  - by rewrite IH.
Qed.

Lemma kept_entries_found F found l :
  named l -> kept_entries F found l = Some (not_system (if found then l else from_id F l)).
Proof.
  revert found. induction l as [|e l IH]; intros found Hn; [by destruct found|].
  assert (named l) as Hl by (intros x m Hx; apply Hn; by right).
  assert (kept_entries F true (e :: l) = Some (not_system (e :: l))) as Ht.
  { cbn [kept_entries orb]. rewrite (IH true Hl), not_system_cons. unfold system_entry.
    destruct (se_Body e) eqn:Eb; try done. destruct (MessageRole m) as [r|] eqn:Er; [|exfalso; by apply (Hn e m); [left| |]].
    cbn. destruct (decide (r = RoleSystem)) as [->|Hr]; [done|]. rewrite bool_decide_false by congruence. done. }
  destruct found; [done|]. cbn [from_id]. destruct (String.eqb (entry_id e) F) eqn:Ef.
  - rewrite <- Ht. cbn [kept_entries orb]. by rewrite Ef.
  - rewrite <- (IH false Hl). cbn [kept_entries orb]. by rewrite Ef.
Qed.

Lemma named_app l l' : named (l ++ l') <-> named l /\ named l'.
Proof.
  unfold named. split.
  - intros H. split; intros e m He; apply H, elem_of_app; auto.
  - intros [H H'] e m [He|He]%elem_of_app; eauto.
Qed.

(** The context of a path whose newest compaction is in the middle. *)
Lemma context_entries_at A ce c B :
  NoDup (entry_id <$> (A ++ ce :: B)) -> named A -> last_compaction (A ++ ce :: B) = Some (ce, c) ->
  context_entries (A ++ ce :: B) = Some (ce :: not_system (from_id (ce_FirstKeptEntryID c) A) ++ B).
Proof.
  intros Hn Hr Hl. unfold context_entries. rewrite Hl, position_of_id_here by done.
  rewrite take_app_length, kept_entries_found by done. cbn [mbind option_bind].
  replace (S (length A)) with (length (A ++ [ce])) by (rewrite length_app; cbn; lia).
  by rewrite (cons_middle ce A B), app_assoc, drop_app_length.
Qed.

(** *** Edits on the context *)

Lemma edit_exists l t x : edits_of l !! t = Some x -> exists e, e ∈ l /\ se_Body e = BContextEdit x /\ xe_TargetID x = t.
Proof.
  rewrite edits_lookup. intros Hx%last_Some_elem_of. apply list_elem_of_omap in Hx as (e & He & Hx).
  unfold edit_of in Hx. exists e. destruct (se_Body e) as [| | | | | | | | | |y]; try discriminate.
  destruct (String.eqb_spec (xe_TargetID y) t); [|discriminate]. injection Hx as ->. done.
Qed.

Lemma compaction_unedited path ce c :
  path_ok path -> ce ∈ path -> compaction_of ce = Some c -> edits_of path !! entry_id ce = None.
Proof.
  intros Hok Hin Hc. destruct (edits_of path !! entry_id ce) as [x|] eqn:E; [|done]. exfalso.
  apply edit_exists in E as (e & He & Hx & Ht). pose proof (po_targets _ Hok e x ce He Hx Hin (eq_sym Ht)) as Hed.
  unfold compaction_of in Hc. unfold editableContextEntry in Hed. by destruct (se_Body ce).
Qed.

Lemma context_edits path A ce c B f t :
  path_ok path -> path = A ++ ce :: B -> compaction_of ce = Some c ->
  t ∈ (entry_id <$> (ce :: not_system (from_id f A) ++ B)) ->
  edits_of (ce :: not_system (from_id f A) ++ B) !! t = edits_of path !! t.
Proof.
  intros Hok E Hc Ht. destruct (from_id_suffix f A) as [b Eb].
  assert (edit_of t ce = None) as Hce by (unfold edit_of; unfold compaction_of in Hc; by destruct (se_Body ce)).
  rewrite <- (suffix_edits path b (from_id f A ++ ce :: B)); [|done|by rewrite E, app_assoc, <- Eb|].
  - rewrite !edits_lookup. cbn [omap list_omap]. rewrite Hce, !omap_app, omap_not_system. cbn [omap list_omap]. by rewrite Hce.
  - rewrite fmap_cons, fmap_app in Ht. rewrite fmap_app, fmap_cons. rewrite elem_of_cons, elem_of_app in Ht. rewrite elem_of_app, elem_of_cons.
    destruct Ht as [Ht|[Ht|Ht]]; [auto| |auto]. left.
    eapply elem_of_sublist; [done|]. apply fmap_sublist, not_system_sublist.
Qed.

(** What follows the compaction, from an entry on, says what the path
    itself says from there. *)
Lemma context_suffix A ce c B f edits j e :
  NoDup (entry_id <$> (A ++ ce :: B)) -> compaction_of ce = Some c ->
  (not_system (from_id f A) ++ B) !! j = Some e ->
  spoken edits (drop j (not_system (from_id f A) ++ B)) = spoken edits (from_id (entry_id e) (A ++ ce :: B)).
Proof.
  intros Hn Hc Hj. set (K := not_system (from_id f A)) in *.
  pose proof Hn as Hn'. rewrite fmap_app, fmap_cons in Hn'. apply NoDup_app in Hn' as (HnA & Hd & HnB).
  apply NoDup_cons in HnB as [HceB HnB].
  assert (NoDup (entry_id <$> from_id f A)) as HnF.
  { destruct (from_id_suffix f A) as [b Eb]. rewrite Eb, fmap_app in HnA. by apply NoDup_app in HnA as (_ & _ & HnA). }
  rewrite from_id_app. apply lookup_app_Some in Hj as [Hj|[Hlen Hj]].
  - assert (entry_id e ∈ (entry_id <$> K)) as HeK by (by eapply list_elem_of_fmap_2, list_elem_of_lookup_2).
    assert (entry_id e ∈ (entry_id <$> from_id f A)) as HeF.
    { eapply elem_of_sublist; [done|]. apply fmap_sublist, not_system_sublist. }
    assert (entry_id e ∈ (entry_id <$> A)) as HeA.
    { destruct (from_id_suffix f A) as [b Eb]. rewrite Eb, fmap_app. apply elem_of_app. by right. }
    rewrite decide_True, drop_app_le by (done || (apply lookup_lt_Some in Hj; lia)).
    rewrite !spoken_app. f_equal; [|by rewrite (spoken_app _ [ce] B), (spoken_compaction _ _ _ Hc)].
    rewrite <- (from_id_drop K j e), <- spoken_not_system; [|by eapply sublist_NoDup; [|apply fmap_sublist, not_system_sublist]|done].
    unfold K. rewrite from_id_not_system, from_id_twice by done. by rewrite !spoken_not_system.
  - assert (entry_id e ∈ (entry_id <$> B)) as HeB by (by eapply list_elem_of_fmap_2, list_elem_of_lookup_2).
    rewrite decide_False by (intros HeA; apply (Hd _ HeA); by right). cbn [from_id].
    destruct (String.eqb_spec (entry_id ce) (entry_id e)) as [E|_]; [congruence|].
    rewrite drop_app_ge, (from_id_drop B _ _ HnB Hj) by done. done.
Qed.

(** ** The projection of a path *)

(** The first entry of a context that has a compaction. *)
Definition compaction_head (e : SessionEntry) : ProjectedSessionEntry :=
  {| pe_SourceEntry := e; pe_Messages := SessionEntryToContextMessages e |}.

Record context_shape (path head tail : list SessionEntry) : Prop := {
  sh_context : context_entries path = Some (head ++ tail);
  sh_head : head = [] \/ exists ce c, head = [ce] /\ compaction_of ce = Some c;
  sh_head_sub : forall e, e ∈ head -> e ∈ path;
  sh_tail : forall e, e ∈ tail -> e ∈ path;
  sh_projected : project_entries (head ++ tail) = map compaction_head head ++ map (project_entry (edits_of path) false) tail;
  sh_suffix : forall edits j e, tail !! j = Some e -> spoken edits (drop j tail) = spoken edits (from_id (entry_id e) path);
}.

Lemma project_no_compaction l : (forall e, e ∈ l -> compaction_of e = None) -> project_entries l = map (project_entry (edits_of l) false) l.
Proof.
  intros H. unfold project_entries. destruct l as [|e l]; [done|]. cbn [map]. f_equal.
  unfold project_entry. by rewrite H by left.
Qed.

Lemma compacted_shape A ce c B :
  path_ok (A ++ ce :: B) -> named A -> last_compaction (A ++ ce :: B) = Some (ce, c) -> compaction_of ce = Some c ->
  context_shape (A ++ ce :: B) [ce] (not_system (from_id (ce_FirstKeptEntryID c) A) ++ B).
Proof.
  intros Hok HrA El Hc. pose proof (po_ids _ Hok) as Hn. split.
  - by rewrite context_entries_at with (c := c).
  - right. eauto.
  - intros e ->%list_elem_of_singleton. apply elem_of_app. right. left.
  - intros e [He|He]%elem_of_app; apply elem_of_app; [left|right; by right].
    destruct (from_id_suffix (ce_FirstKeptEntryID c) A) as [b Eb]. rewrite Eb. apply elem_of_app. right.
    eapply elem_of_sublist; [done|apply not_system_sublist].
  - cbn [app map project_entries]. f_equal.
    + unfold project_entry, compaction_head. rewrite Hc, (context_edits _ A ce c B _ _ Hok eq_refl Hc) by left.
      rewrite (compaction_unedited _ ce c Hok); [by destruct ce| |done]. apply elem_of_app. right. left.
    + apply map_messages_ext. intros e He. eapply context_edits; [done..|]. rewrite fmap_cons. right. by apply list_elem_of_fmap_2.
  - intros edits j e Hj. by eapply context_suffix.
Qed.

Lemma uncompacted_shape path :
  path_ok path -> (forall e, e ∈ path -> compaction_of e = None) -> context_shape path [] path.
Proof.
  intros Hok Hno. split; [|by left|intros e He; inversion He|done|by apply project_no_compaction|].
  - unfold context_entries. by rewrite last_compaction_none.
  - intros edits j e Hj. by rewrite (from_id_drop _ _ _ (po_ids _ Hok) Hj).
Qed.

Lemma path_shape path : path_ok path -> named path -> exists head tail, context_shape path head tail.
Proof.
  intros Hok Hr. pose proof (last_compaction_spec path) as Hs. destruct (last_compaction path) as [[ce c]|] eqn:El.
  - destruct Hs as (A & B & -> & Hc & _). apply named_app in Hr as [HrA _]. eauto using compacted_shape.
  - eauto using uncompacted_shape.
Qed.

Lemma path_builds path : path_ok path -> buildSessionPath path None None true = Some path.
Proof.
  intros Hok. unfold buildSessionPath, buildEntryIndex. cbn [mbind option_bind].
  apply walk_from_chain; [apply Hok|apply Hok|]. intros e He. apply index_of_lookup; [apply Hok|done].
Qed.

Definition projection_of (path head tail : list SessionEntry) : SessionProjection :=
  let entries := map compaction_head head ++ map (project_entry (edits_of path) false) tail in
  {| sp_Entries := entries; sp_Messages := concat (map pe_Messages entries);
     sp_ThinkingLevel := (getSessionContextSettings path).1; sp_Model := (getSessionContextSettings path).2 |}.

Lemma projection_messages path head tail :
  sp_Messages (projection_of path head tail) =
  concat (map pe_Messages (map compaction_head head)) ++ concat (map (entry_messages (edits_of path)) tail).
Proof. cbn [projection_of sp_Messages]. by rewrite map_app, concat_app, concat_project. Qed.

Lemma projection_from entries leaf byID last path head tail :
  buildSessionPath entries leaf byID last = Some path -> context_shape path head tail ->
  buildSessionProjection entries leaf byID last = Some (projection_of path head tail).
Proof.
  intros Hb Hs. unfold buildSessionProjection, buildContextEntries. rewrite Hb. cbn [mbind option_bind].
  rewrite (sh_context _ _ _ Hs). cbn [mbind option_bind]. rewrite (sh_projected _ _ _ Hs). done.
Qed.

(** The manager projects the branch of its leaf. *)
Lemma manager_projects sm path head tail :
  GetBranch sm None = Some path -> context_shape path head tail -> manager_projection sm = Some (projection_of path head tail).
Proof.
  intros Hb. apply projection_from. unfold buildSessionPath, buildEntryIndex. unfold GetBranch, start_of in Hb.
  rewrite <- Hb. f_equal. by destruct (sm_leafID sm ≫= _).
Qed.
End Shape.
