(* ===== verification/CompactionProps.v ===== *)
(** * A compaction keeps the conversation

    What [PrepareCompaction] hands to the summarizer and what the session's
    context keeps after [AppendCompaction] are together the conversation
    there was. *)

From S2P Require Import Prelude GoText PiModel SessionTree Transcript SessionContext SessionTreeProps Estimate Compaction CompactionCut CompactionPath.

(** ** Definitions *)

(** A conversation the model can be given: it does not open with a tool
    result, but with a message to cut at. *)
Definition opens_well (l : list Message) : Prop :=
  match l with [] => True | m :: _ => exists r, MessageRole m = Some r /\ isCutPointRole r = true end.

Section Props.
Context {P : Platform}.

(** ** Entries of a context *)

Lemma is_compaction_of e : EntryType e = body_type (se_Body e) -> is_compaction e = true <-> is_Some (compaction_of e).
Proof.
  unfold is_compaction, compaction_of. intros ->. destruct (se_Body e); cbn; split; try discriminate; eauto; by intros [? ?].
Qed.

Lemma no_previous edits l i :
  (forall e, e ∈ l -> EntryType e = body_type (se_Body e)) -> previous_compaction (map (project_entry edits false) l) i = None.
Proof.
  revert i. induction l as [|e l IH]; intros i H; [done|]. cbn [map previous_compaction].
  assert (forall x, x ∈ l -> EntryType x = body_type (se_Body x)) as Hl by (intros x Hx; apply H; by right).
  destruct (is_compaction _) eqn:Ec; [|by apply IH]. cbn [project_entry pe_SourceEntry] in Ec.
  apply is_compaction_of in Ec as [c Ec]; [|apply H; left]. unfold project_entry at 1. rewrite Ec. cbn. by apply IH.
Qed.

Lemma without_system_conversation l out : without_system l = Some out -> out = conversation l.
Proof.
  revert out. induction l as [|m l IH]; intros out H; cbn [without_system] in H; [by injection H as <-|].
  apply bind_Some in H as (r & Hr & H). apply bind_Some in H as (rest & Hrest & [= <-]). rewrite (IH _ Hrest).
  unfold conversation. cbn. rewrite Hr. destruct (decide (r = RoleSystem)) as [->|Hne]; [done|].
  rewrite bool_decide_false by congruence. done.
Qed.

Lemma flat_spoken edits l out :
  (forall e, e ∈ l -> EntryType e = body_type (se_Body e)) ->
  flatMapProjectedMessages (map (project_entry edits false) l) = Some out -> out = spoken edits l.
Proof.
  revert out. induction l as [|e l IH]; intros out H E; cbn [map flatMapProjectedMessages] in E; [by injection E as <-|].
  apply bind_Some in E as (here & Hh & E). apply bind_Some in E as (rest & Hrest & [= <-]).
  rewrite spoken_cons, <- (IH rest); [|intros x Hx; apply H; by right|done]. f_equal.
  unfold getMessagesFromProjectedEntryForCompaction in Hh. destruct (is_compaction _) eqn:Ec.
  - injection Hh as <-. apply is_compaction_of in Ec as [c Ec]; [|apply H; left]. cbn [project_entry pe_SourceEntry] in Ec.
    unfold entry_messages, project_entry. by rewrite Ec.
  - by apply without_system_conversation.
Qed.

Lemma projected_entry e edits first :
  EntryType e = body_type (se_Body e) -> projected (project_entry edits first e).
Proof.
  intros Ht. split; cbn [project_entry pe_SourceEntry pe_Messages].
  - intros E. unfold projectContextEntry. rewrite E.
    destruct (compaction_of e); [destruct first|]; try done; by repeat (case_match; try done).
  - unfold is_context_edit. rewrite Ht. unfold SessionEntryToContextMessages. by destruct (se_Body e).
Qed.

Lemma projected_head e : EntryType e = body_type (se_Body e) -> projected (compaction_head e).
Proof.
  intros Ht. split; cbn [compaction_head pe_SourceEntry pe_Messages]; [done|].
  unfold is_context_edit. rewrite Ht. unfold SessionEntryToContextMessages. by destruct (se_Body e).
Qed.

Lemma shape_entries path head tail e :
  path_ok path -> context_shape path head tail -> e ∈ sp_Entries (projection_of path head tail) -> projected e.
Proof.
  intros Hok Hs. cbn [projection_of sp_Entries]. rewrite elem_of_app, !list_elem_of_In, !in_map_iff.
  intros [(x & <- & Hx)|(x & <- & Hx)]; apply list_elem_of_In in Hx.
  - apply projected_head, Hok. by eapply sh_head_sub.
  - apply projected_entry, Hok. by eapply sh_tail.
Qed.

(** ** Cutting a context *)

Lemma slice_tail head tail edits i j l :
  (length head <= i)%nat ->
  slice (map compaction_head head ++ map (project_entry edits false) tail) i j = Some l ->
  l = map (project_entry edits false) (take (j - i) (drop (i - length head) tail)) /\ (i <= j)%nat.
Proof.
  intros Hi H. apply slice_some in H as [Hj ->]. split; [|lia].
  rewrite drop_app_ge by (rewrite length_map; lia). rewrite length_map, <- firstn_map, <- skipn_map. done.
Qed.

Lemma take_split {A} (l : list A) i j : (i <= j)%nat -> take i l ++ take (j - i) (drop i l) = take j l.
Proof. intros H. replace j with (i + (j - i))%nat at 2 by lia. apply take_take_drop. Qed.

Lemma visible_cons e l : visible (e :: l) = if no_messages e then visible l else e :: visible l.
Proof. unfold visible. cbn. by destruct (no_messages e). Qed.

Lemma spoken_visible l : concat (map pe_Messages (visible l)) = concat (map pe_Messages l).
Proof.
  induction l as [|e l IH]; [done|]. rewrite visible_cons. unfold no_messages.
  destruct (pe_Messages e) eqn:E; cbn [map concat]; by rewrite IH, E.
Qed.

Lemma cuttable_says edits e :
  cuttable (project_entry edits false e) ->
  exists m r, entry_messages edits e = [m] /\ MessageRole m = Some r /\ isCutPointRole r = true.
Proof.
  unfold cuttable, entry_has. destruct (is_compaction _); [discriminate|].
  change (pe_Messages _) with (entry_messages edits e).
  destruct (entry_messages_spec edits e) as [->|(m & -> & _)]; [discriminate|]. cbn [ContainsRole].
  intros (r & Hr & H)%bind_Some. exists m, r. split_and!; [done..|]. by destruct (isCutPointRole r).
Qed.

(** Entries that open with one to cut at. *)
Lemma kept_opens_well edits l :
  match visible (map (project_entry edits false) l) with [] => True | e :: _ => cuttable e end -> opens_well (spoken edits l).
Proof.
  unfold spoken. rewrite <- concat_project, <- spoken_visible.
  destruct (visible _) as [|e rest] eqn:Ev; [done|]. intros Hc.
  assert (e ∈ map (project_entry edits false) l) as He by (apply visible_sub; rewrite Ev; left).
  apply list_elem_of_In, in_map_iff in He as (x & <- & _).
  apply cuttable_says in Hc as (m & r & Hm & Hr & Hcut). cbn [map concat]. change (pe_Messages _) with (entry_messages edits x).
  rewrite Hm. unfold conversation. cbn [app List.filter]. rewrite Hr, bool_decide_false by (by destruct r). cbn. eauto.
Qed.

Lemma head_summary path ce c :
  path_ok path -> ce ∈ path -> compaction_of ce = Some c ->
  is_compaction ce = true /\ exists m summary, SessionEntryToContextMessages ce = m ++ [MCompactionSummary (value summary)] /\
    conversation m = [] /\ sy_Summary summary = ce_Summary c.
Proof.
  intros Hok Hin Hc. split; [apply is_compaction_of; [by apply Hok|eauto]|].
  unfold SessionEntryToContextMessages. unfold compaction_of in Hc. destruct (se_Body ce); try discriminate Hc. injection Hc as ->.
  destruct (ce_SystemMessage c) as [s|]; [exists [MSystem (value s)]|exists []]; by eexists.
Qed.

Lemma projection_boundary path head tail (prev := previous_compaction (sp_Entries (projection_of path head tail)) 0) :
  path_ok path -> context_shape path head tail ->
  match prev with Some i => S i | None => O end = length head /\
  prev ≫= (fun i => sp_Entries (projection_of path head tail) !! i ≫= fun e => ce_Summary <$> compaction_of (pe_SourceEntry e)) =
    List.head head ≫= fun ce => ce_Summary <$> compaction_of ce.
Proof.
  intros Hok Hs. subst prev. cbn [projection_of sp_Entries]. destruct (sh_head _ _ _ Hs) as [->|(ce & c & -> & Hc)]; cbn [map app length].
  - rewrite no_previous; [done|]. intros e He. by apply Hok, (sh_tail _ _ _ Hs).
  - destruct (head_summary path ce c Hok) as (Hi & m & sy & Em & _); [eapply sh_head_sub; [done|left]|done|].
    cbn [previous_compaction compaction_head pe_SourceEntry pe_Messages]. rewrite Hi, Em. by destruct m.
Qed.

Lemma flat_slice path head tail i j l out :
  path_ok path -> context_shape path head tail -> (length head <= i)%nat ->
  slice (sp_Entries (projection_of path head tail)) i j = Some l -> flatMapProjectedMessages l = Some out ->
  out = spoken (edits_of path) (take (j - i) (drop (i - length head) tail)).
Proof.
  intros Hok Hs Hi Hl Hout. apply slice_tail in Hl as [-> _]; [|done].
  apply flat_spoken in Hout; [done|]. intros e [k Hk]%list_elem_of_lookup. apply Hok, (sh_tail _ _ _ Hs).
  rewrite lookup_take_Some, lookup_drop in Hk. destruct Hk as [Hk _]. by eapply list_elem_of_lookup_2.
Qed.

(** What [PrepareCompaction] cuts a context into. *)
Lemma prepare_cut path head tail pathEntries settings prep :
  path_ok path -> context_shape path head tail ->
  prepare_projected (projection_of path head tail) pathEntries settings = Some (Some prep) ->
  exists j first, tail !! j = Some first /\ entry_id first = cr_FirstKeptEntryID prep /\
    cr_MessagesToSummarize prep ++ cr_TurnPrefixMessages prep = spoken (edits_of path) (take j tail) /\
    opens_well (spoken (edits_of path) (drop j tail)) /\
    cr_PreviousSummary prep = List.head head ≫= fun ce => ce_Summary <$> compaction_of ce.
Proof.
  intros Hok Hs H. unfold prepare_projected in H.
  destruct (projection_boundary path head tail Hok Hs) as [Hb Hprev]. rewrite Hb, Hprev in H. clear Hb Hprev.
  apply bind_Some in H as (est & _ & H). apply bind_Some in H as (cp & Hcp & H).
  pose proof (find_sound _ _ _ _ (fun e => shape_entries path head tail e Hok Hs) Hcp) as Hsound.
  destruct (sp_Entries (projection_of path head tail) !! cp_FirstKeptEntryIndex cp) as [fk|] eqn:Ef; [|discriminate H].
  destruct (String.eqb _ ""); [discriminate H|]. apply bind_Some in H as (hist & Hhist & H).
  apply bind_Some in H as (msgs & Hmsgs & H). apply bind_Some in H as (prefix & Hprefix & H).
  apply bind_Some in H as (pmsgs & Hpmsgs & H).
  destruct (is_empty msgs && is_empty pmsgs) eqn:Eempty; [discriminate H|]. apply (inj Some), (inj Some) in H. subst prep.
  cbn [cr_FirstKeptEntryID cr_MessagesToSummarize cr_TurnPrefixMessages cr_PreviousSummary].
  pose proof (sc_range _ _ _ _ Hsound) as [Hge _]. cbn [projection_of sp_Entries] in Ef.
  rewrite lookup_app_r, length_map in Ef by (rewrite length_map; lia).
  apply list_lookup_fmap_Some in Ef as (first & Efk & Ef). subst fk.
  exists (cp_FirstKeptEntryIndex cp - length head)%nat, first. split_and!; [done|done| | |done].
  - pose proof (flat_slice _ _ _ _ _ _ _ Hok Hs (le_n _) Hhist Hmsgs) as ->. rewrite Nat.sub_diag, drop_0.
    destruct (cp_IsSplitTurn cp) eqn:Esplit; [|injection Hprefix as <-; injection Hpmsgs as <-; by rewrite app_nil_r].
    destruct (sc_split _ _ _ _ Hsound Esplit) as (t & Et & Ht & _). rewrite Et in *. cbn [default] in *.
    pose proof (flat_slice _ _ _ _ _ _ _ Hok Hs (proj1 Ht) Hprefix Hpmsgs) as ->. rewrite <- spoken_app. f_equal.
    replace (cp_FirstKeptEntryIndex cp - t)%nat with (cp_FirstKeptEntryIndex cp - length head - (t - length head))%nat by lia.
    apply take_split. lia.
  - apply kept_opens_well. destruct (sc_kept _ _ _ _ Hsound) as [(Ecut & Esplit & _)|Hk].
    + exfalso. rewrite Esplit in *. injection Hprefix as <-. injection Hpmsgs as <-.
      pose proof (flat_slice _ _ _ _ _ _ _ Hok Hs (le_n _) Hhist Hmsgs) as ->.
      rewrite Ecut, Nat.sub_diag in Eempty. discriminate Eempty.
    + cbn [projection_of sp_Entries] in Hk. rewrite drop_app_ge, length_map in Hk by (rewrite length_map; lia).
      rewrite <- skipn_map. destruct (visible _) as [|e rest]; [done|]. apply Hk.
Qed.

(** ** The session after a compaction *)

Lemma appended_branch sm env body path :
  session_wf sm -> fresh sm env -> GetBranch sm None = Some path ->
  GetBranch (append_body sm env body).1 None = Some (path ++ [new_entry sm env body]).
Proof.
  intros Hw Hf Hb. destruct (branch_ok _ _ Hw Hb) as (Hok & Hsub & Hlast). set (N := new_entry sm env body).
  assert (forall e, e ∈ path -> sm_byID sm !! entry_id e = Some e) as Hin.
  { intros e He. apply (wf_index _ Hw). split; [|done]. by eapply elem_of_sublist. }
  assert (forall e, e ∈ path -> entry_id e <> en_id env) as Hne.
  { intros e He E. apply Hin in He. destruct Hf as [Hf _]. congruence. }
  unfold GetBranch, start_of, append_body, appendEntry. cbn [fst sm_byID sm_leafID mbind option_bind].
  change (entry_id (new_entry sm env body)) with (en_id env). fold N. rewrite lookup_insert_eq, <- (last_snoc N path).
  apply walk_from_chain.
  - apply path_snoc. split; [apply Hok|]. rewrite Hlast. unfold N, new_entry, entry_parent. cbn [se_Base eb_ParentID].
    unfold start_of. destruct (sm_leafID sm) as [id|] eqn:El; [|done]. cbn [mbind option_bind].
    destruct (wf_leaf _ Hw _ El) as [e He]. rewrite He. apply (wf_index _ Hw) in He as [_ <-]. done.
  - rewrite fmap_app. apply NoDup_app. split_and!; [apply Hok| |apply NoDup_singleton].
    intros x (e & -> & He)%list_elem_of_fmap Hx%list_elem_of_singleton. by apply (Hne e).
  - intros e [He| ->%list_elem_of_singleton]%elem_of_app; [|by rewrite lookup_insert_eq].
    rewrite lookup_insert_ne; [by apply Hin|]. intros E. by apply (Hne e).
Qed.

Lemma settings_snoc_compaction path e c : se_Body e = BCompaction c -> getSessionContextSettings (path ++ [e]) = getSessionContextSettings path.
Proof. intros H. unfold getSessionContextSettings. rewrite foldl_app. cbn [foldl]. unfold session_setting at 1. by rewrite H. Qed.

(** The context once a compaction has been appended. *)
Lemma appended_shape path head tail N c j first :
  path_ok (path ++ [N]) -> path_ok path -> named path -> context_shape path head tail -> se_Body N = BCompaction c ->
  tail !! j = Some first -> entry_id first = ce_FirstKeptEntryID c ->
  context_shape (path ++ [N]) [N] (not_system (from_id (ce_FirstKeptEntryID c) path)) /\
  concat (map (entry_messages (edits_of (path ++ [N]))) (not_system (from_id (ce_FirstKeptEntryID c) path))) =
    spoken (edits_of path) (drop j tail).
Proof.
  intros Hok' Hok Hr Hs HN Hj Hfirst. assert (compaction_of N = Some c) as Hc by (unfold compaction_of; by rewrite HN). split.
  - rewrite <- (app_nil_r (not_system _)). apply compacted_shape; try done. by rewrite last_compaction_snoc, Hc.
  - rewrite <- not_system_messages.
    + rewrite edits_snoc_other by (intros x; rewrite HN; discriminate). fold (spoken (edits_of path) (not_system (from_id (ce_FirstKeptEntryID c) path))).
      by rewrite spoken_not_system, <- Hfirst, (sh_suffix _ _ _ Hs _ _ _ Hj).
    + destruct (from_id_suffix (ce_FirstKeptEntryID c) path) as [b Eb]. rewrite Eb in Hr. by apply named_app in Hr as [_ Hr].
Qed.

Lemma current_restamped head rest timestamp :
  GetCurrentSystemMessage (MSystem (value head) :: rest) = Some head -> systems rest = [] ->
  GetCurrentSystemMessage (MSystem (value (with_system_timestamp head timestamp)) :: rest) = Some (with_system_timestamp head timestamp).
Proof.
  intros H Hr. unfold GetCurrentSystemMessage, GetCurrentTools in *.
  assert (forall h, systems (MSystem (value h) :: rest) = [h]) as Hs by (intros h; unfold systems in *; cbn; by rewrite Hr).
  rewrite Hs in *. clear Hs. destruct head as [h1 h2 h3 h4 h5 h6]. unfold with_system_timestamp. cbn [foldl] in *. injection H as H1 H2 H3 H4 H5.
  cbn [sm_Content sm_Sections sm_ToolsAdded sm_ToolsRemoved sm_contentWasString sm_Timestamp] in *. f_equal.
  f_equal; done.
Qed.

(** ** The compaction *)

(** What was said before a compaction is the summary of the one before it,
    if any, what this one summarizes, and what it keeps; afterwards the new
    summary stands for all but the last. *)
Record compacts (prep : CompactionPreparation) (summary : CompactionSummaryMessage) (before after : SessionProjection)
    (kept : list Message) : Prop := {
  cc_before : exists old,
    conversation (sp_Messages before) = old ++ cr_MessagesToSummarize prep ++ cr_TurnPrefixMessages prep ++ kept /\
    match cr_PreviousSummary prep with
    | None => old = []
    | Some s => exists c, old = [MCompactionSummary (value c)] /\ sy_Summary c = s
    end;
  cc_after : conversation (sp_Messages after) = MCompactionSummary (value summary) :: kept;
  cc_opens : opens_well kept;
  cc_prompt :
    GetCurrentSystemMessage (sp_Messages after) =
    (fun s => with_system_timestamp s (sy_Timestamp summary)) <$> GetCurrentSystemMessage (sp_Messages before);
  cc_settings : sp_ThinkingLevel after = sp_ThinkingLevel before /\ sp_Model after = sp_Model before;
}.

Lemma head_conversation path head tail prep :
  path_ok path -> context_shape path head tail ->
  cr_PreviousSummary prep = (List.head head ≫= fun ce => ce_Summary <$> compaction_of ce) ->
  let old := conversation (concat (map pe_Messages (map compaction_head head))) in
  match cr_PreviousSummary prep with
  | None => old = []
  | Some s => exists c, old = [MCompactionSummary (value c)] /\ sy_Summary c = s
  end.
Proof.
  intros Hok Hs E. cbn zeta. destruct (sh_head _ _ _ Hs) as [->|(ce & c & -> & Hc)]; [by rewrite E|].
  destruct (head_summary path ce c Hok) as (_ & m & sy & Em & Hm & Hsy); [eapply sh_head_sub; [done|left]|done|].
  rewrite E. cbn [List.head mbind option_bind]. rewrite Hc. cbn [fmap option_fmap option_map].
  exists sy. split; [|done]. cbn [map concat compaction_head pe_Messages]. by rewrite app_nil_r, Em, conversation_app, Hm.
Qed.

Lemma projection_conversation path head tail :
  conversation (sp_Messages (projection_of path head tail)) =
  conversation (concat (map pe_Messages (map compaction_head head))) ++ spoken (edits_of path) tail.
Proof.
  by rewrite projection_messages, conversation_app.
Qed.

(** The messages of the new context, given those of the old one. *)
Lemma appended_context path head tail N c j first prep before :
  path_ok (path ++ [N]) -> path_ok path -> named path -> context_shape path head tail -> se_Body N = BCompaction c ->
  tail !! j = Some first -> entry_id first = ce_FirstKeptEntryID c ->
  cr_MessagesToSummarize prep ++ cr_TurnPrefixMessages prep = spoken (edits_of path) (take j tail) ->
  opens_well (spoken (edits_of path) (drop j tail)) ->
  cr_PreviousSummary prep = (List.head head ≫= fun ce => ce_Summary <$> compaction_of ce) ->
  before = projection_of path head tail ->
  let summary := {| sy_Summary := ce_Summary c; sy_TokensBefore := ce_TokensBefore c;
                    sy_Timestamp := timestampMillis (eb_Timestamp (se_Base N)) |} in
  ce_SystemMessage c = (fun s => with_system_timestamp s (sy_Timestamp summary)) <$> GetCurrentSystemMessage (sp_Messages before) ->
  compacts prep summary before
    (projection_of (path ++ [N]) [N] (not_system (from_id (ce_FirstKeptEntryID c) path))) (spoken (edits_of path) (drop j tail)).
Proof.
  intros Hok' Hok Hr Hs HN Hj Hfirst Hsum Hopen Hprev Ebefore summary Hsys.
  destruct (appended_shape _ _ _ _ _ _ _ Hok' Hok Hr Hs HN Hj Hfirst) as [_ Hkept].
  set (kept := spoken (edits_of path) (drop j tail)) in *.
  assert (conversation kept = kept) as Hconv.
  { rewrite <- Hkept. apply not_system_messages. destruct (from_id_suffix (ce_FirstKeptEntryID c) path) as [b Eb].
    rewrite Eb in Hr. by apply named_app in Hr as [_ Hr]. }
  assert (sp_Messages (projection_of (path ++ [N]) [N] (not_system (from_id (ce_FirstKeptEntryID c) path))) =
    match ce_SystemMessage c with Some s => [MSystem (value s)] | None => [] end ++ MCompactionSummary (value summary) :: kept) as Hafter.
  { cbn [projection_of sp_Messages map app concat compaction_head pe_Messages]. rewrite concat_project, Hkept.
    unfold SessionEntryToContextMessages. rewrite HN. by destruct (ce_SystemMessage c). }
  split.
  - exists (conversation (concat (map pe_Messages (map compaction_head head)))). split; [|by eapply head_conversation].
    rewrite Ebefore, projection_conversation. f_equal.
    unfold kept. by rewrite (app_assoc (cr_MessagesToSummarize prep)), Hsum, <- spoken_app, take_drop.
  - rewrite Hafter, conversation_app. destruct (ce_SystemMessage c); unfold conversation at 1; cbn [List.filter app];
      unfold conversation; cbn; by fold (conversation kept); rewrite Hconv.
  - done.
  - rewrite Hafter. pose proof (conversation_no_systems _ Hconv) as Hno.
    destruct (GetCurrentSystemMessage (sp_Messages before)) as [s|] eqn:Es; cbn [fmap option_fmap option_map] in *; rewrite Hsys.
    + apply current_restamped; [|done]. by eapply current_fixed.
    + by apply current_none.
  - rewrite Ebefore. cbn [projection_of sp_ThinkingLevel sp_Model]. by rewrite (settings_snoc_compaction _ _ _ HN).
Qed.

Lemma shape_roles path head tail e :
  path_ok path -> named path -> context_shape path head tail -> e ∈ sp_Entries (projection_of path head tail) -> with_roles e.
Proof.
  intros Hok Hr Hs. cbn [projection_of sp_Entries]. rewrite elem_of_app, !list_elem_of_In, !in_map_iff.
  intros [(x & <- & Hx)|(x & <- & Hx)]; apply list_elem_of_In in Hx.
  - pose proof (sh_head_sub _ _ _ Hs _ Hx) as Hin. split_and!; [|intros m; by apply Hr|by apply Hok].
    destruct (sh_head _ _ _ Hs) as [->|(ce & c & -> & Hc)]; [inversion Hx|]. apply list_elem_of_singleton in Hx as ->.
    cbn [compaction_head pe_Messages]. unfold SessionEntryToContextMessages. unfold compaction_of in Hc.
    intros m. destruct (se_Body ce); try discriminate Hc. destruct (ce_SystemMessage _); rewrite ?elem_of_cons, elem_of_nil; naive_solver.
  - pose proof (sh_tail _ _ _ Hs _ Hx) as Hin. split_and!; [|intros m; by apply Hr|by apply Hok].
    intros m Hm. eapply entry_messages_roles; [done|]. intros m0. by apply Hr.
Qed.

(** A check that every message has a role. *)
Definition has_role (e : SessionEntry) : bool :=
  match se_Body e with BMessage m => bool_decide (MessageRole m <> None) | _ => true end.

Lemma named_check path : forallb has_role path = true -> named path.
Proof.
  rewrite forallb_forall. intros H e m He Hm. apply list_elem_of_In, H in He. unfold has_role in He. rewrite Hm in He.
  by apply bool_decide_eq_true in He.
Qed.
End Props.

(** ** Properties *)

(** C2: compacting a session keeps its conversation: with [path] the branch
    of the leaf, when [PrepareCompaction] proposes a cut and
    [AppendCompaction] records a summary at it, then what the context said
    before is the previous summary, if any, then exactly the messages handed
    to the summarizer and the turn prefix, then the messages kept; the
    context afterwards is the new summary followed by exactly the messages
    kept, which never open with a tool result; and the prompt, the tools
    (up to the prompt's timestamp), the thinking level and the model are
    those there were. *)
Theorem compaction_keeps_conversation {P : Platform} ok sm env path settings prep summary details fromHook usage :
  reachable ok sm -> fresh sm env -> GetBranch sm None = Some path -> named path ->
  PrepareCompaction path settings = Some (Some prep) ->
  exists before sm' r after kept,
    manager_projection sm = Some before /\
    AppendCompaction sm env summary (Some (cr_FirstKeptEntryID prep)) (cr_TokensBefore prep) details fromHook usage = Some (sm', r) /\
    manager_projection sm' = Some after /\
    compacts prep {| sy_Summary := summary; sy_TokensBefore := cr_TokensBefore prep;
                     sy_Timestamp := timestampMillis (en_stamp env) |} before after kept.
Proof.
  intros Hw%reachable_wf Hf Hb Hr Hp. destruct (branch_ok _ _ Hw Hb) as (Hok & _ & _).
  destruct (path_shape _ Hok Hr) as (head & tail & Hs).
  unfold PrepareCompaction in Hp. destruct (match last path with Some e => is_compaction e | None => false end); [discriminate Hp|].
  rewrite (projection_from _ _ _ _ _ _ _ (path_builds _ Hok) Hs) in Hp. cbn [mbind option_bind] in Hp.
  destruct (prepare_cut _ _ _ _ _ _ Hok Hs Hp) as (j & first & Hj & Hfirst & Hsum & Hopen & Hprev).
  pose proof (manager_projects _ _ _ _ Hb Hs) as Hbefore.
  unfold AppendCompaction. rewrite Hbefore. cbn [mbind option_bind].
  match goal with |- context [BCompaction ?x] => set (c := x) end. set (body := BCompaction c).
  pose proof (appended_branch _ env body _ Hw Hf Hb) as Hb'.
  assert (session_wf (append_body sm env body).1) as Hw'.
  { rewrite <- (with_leaf_id sm). apply append_wf; [done| |done|done]. intros id. apply Hw. }
  destruct (branch_ok _ _ Hw' Hb') as (Hok' & _ & _).
  destruct (appended_shape _ _ _ (new_entry sm env body) _ _ _ Hok' Hok Hr Hs eq_refl Hj Hfirst) as [Hs' _].
  eexists _, _, _, _, _. split_and!; [done|by rewrite <- surjective_pairing|by apply manager_projects|].
  exact (appended_context _ _ _ _ c _ _ _ _ Hok' Hok Hr Hs eq_refl Hj Hfirst Hsum Hopen Hprev eq_refl eq_refl).
Qed.

(** On the projection of a session's branch the cut point is found
    without a panic and is sound: it lies at or after the boundary; a split
    turn starts at a turn start before the cut; and the first entry kept
    that says anything has a user-like or assistant message, never a tool
    result, with less than the budget of tokens behind it, unless nothing
    further can be cut at. *)
Theorem cut_point_sound {P : Platform} ok sm path projection start keep :
  reachable ok sm -> GetBranch sm None = Some path -> named path ->
  buildSessionProjection path None None true = Some projection -> (start <= length (sp_Entries projection))%nat ->
  exists cp, findProjectedCutPoint (sp_Entries projection) start (length (sp_Entries projection)) keep = Some cp /\
    sound_cut (sp_Entries projection) start keep cp.
Proof.
  intros Hw%reachable_wf Hb Hr Hp Hst. destruct (branch_ok _ _ Hw Hb) as (Hok & _ & _).
  destruct (path_shape _ Hok Hr) as (head & tail & Hs).
  rewrite (projection_from _ _ _ _ _ _ _ (path_builds _ Hok) Hs) in Hp. injection Hp as <-.
  destruct (find_total _ start keep Hst) as [cp Hcp]; [intros e; by apply shape_roles|].
  exists cp. split; [done|]. apply find_sound; [|done]. intros e. by apply shape_entries.
Qed.

(** ** Witnesses *)

Definition demo_reply (s : string) : Message :=
  MAssistant (value {| am_Content := Some [text_block s]; am_Api := "a"; am_Provider := "p"; am_Model := "m";
                       am_Usage := {| us_Input := 0; us_Output := 0; us_CacheRead := 0; us_CacheWrite := 0; us_CacheWrite1h := 0;
                                      us_Reasoning := 0; us_TotalTokens := 0 |};
                       am_StopReason := StopStop; am_ErrorMessage := ""; am_Timestamp := 2; am_Rest := ANil |}).

Definition long_ops : list (Env * op) :=
  [(demo_env "a", OpMessage (demo_prompt "be brief" [demo_tool "read"] []));
   (demo_env "b", OpMessage (demo_say "what is the capital of France?"));
   (demo_env "c", OpMessage (demo_reply "Paris is the capital of France."));
   (demo_env "d", OpCompaction "asked about France" (Some "c") 10 ANil false None);
   (demo_env "e", OpMessage (demo_say "and of Spain?"));
   (demo_env "f", OpContextEdit "e" (Some (Some [text_block "and of Italy?"])));
   (demo_env "g", OpMessage (demo_reply "Rome."))].

#[local] Existing Instance demo_platform.

Definition run_long : SessionManager :=
  foldl (fun sm eo => default sm (fst <$> run_op sm eo.1 eo.2)) newSession long_ops.

Lemma long_reachable : reachable true run_long.
Proof.
  unfold run_long, long_ops. cbn [foldl fst snd].
  repeat (apply demo_step; [|vm_compute; reflexivity|reflexivity|vm_compute; eauto]). apply reach_new.
Qed.

Definition long_path : list SessionEntry := default [] (GetBranch run_long None).
Definition tight : CompactionSettings := {| cs_Enabled := true; cs_ReserveTokens := 0; cs_KeepRecentTokens := 1 |}.
Definition long_prep : option CompactionPreparation := default None (PrepareCompaction long_path tight).

Lemma compaction_keeps_conversation_witness :
  exists sm' r after kept,
    AppendCompaction run_long (demo_env "h") "geography" (Some "f") 38 ANil false None = Some (sm', r) /\
    manager_projection sm' = Some after /\
    conversation (sp_Messages after) = MCompactionSummary (value {| sy_Summary := "geography"; sy_TokensBefore := 38; sy_Timestamp := 0 |}) :: kept /\
    length kept = 1%nat.
Proof.
  destruct long_prep as [prep|] eqn:Ep; [|vm_compute in Ep; discriminate Ep].
  destruct (compaction_keeps_conversation true run_long (demo_env "h") long_path tight prep "geography" ANil false None long_reachable)
    as (before & sm' & r & after & kept & Hb & Ha & Hafter & Hc).
  - split; [vm_compute; reflexivity|discriminate].
  - vm_compute. reflexivity.
  - apply named_check. vm_compute. reflexivity.
  - rewrite <- Ep. vm_compute. reflexivity.
  - assert (cr_FirstKeptEntryID prep = "f" /\ cr_TokensBefore prep = 38) as [Ef Et].
    { vm_compute in Ep. injection Ep as <-. split; reflexivity. }
    rewrite Ef, Et in Ha. exists sm', r, after, kept. split; [exact Ha|]. split; [exact Hafter|].
    pose proof (cc_after _ _ _ _ _ Hc) as Hsum. rewrite Et in Hsum. split; [exact Hsum|].
    apply (f_equal (fun r => match r with Some (sm, _) => sm | None => newSession end)) in Ha. cbn [fst] in Ha. subst sm'.
    apply (f_equal (fun p => length (conversation (default [] (sp_Messages <$> p))))) in Hafter.
    change (sp_Messages <$> Some after) with (Some (sp_Messages after)) in Hafter. unfold default at 2 in Hafter.
    change (id (sp_Messages after)) with (sp_Messages after) in Hafter. rewrite Hsum in Hafter.
    vm_compute in Hafter. injection Hafter as Hk. symmetry. exact Hk.
Defined.

Lemma cut_point_sound_witness :
  exists projection cp, buildSessionProjection long_path None None true = Some projection /\
    findProjectedCutPoint (sp_Entries projection) 1 (length (sp_Entries projection)) 1 = Some cp /\
    cp_IsSplitTurn cp = true /\ sound_cut (sp_Entries projection) 1 1 cp.
Proof.
  destruct (buildSessionProjection long_path None None true) as [projection|] eqn:Ep; [|vm_compute in Ep; discriminate Ep].
  destruct (cut_point_sound true run_long long_path projection 1 1 long_reachable) as (cp & Hcp & Hs).
  - vm_compute. reflexivity.
  - apply named_check. vm_compute. reflexivity.
  - exact Ep.
  - vm_compute in Ep. injection Ep as <-. cbn. lia.
  - exists projection, cp. split; [reflexivity|]. split; [exact Hcp|]. split; [|exact Hs].
    vm_compute in Ep. injection Ep as <-. vm_compute in Hcp. injection Hcp as <-. reflexivity.
Defined.
