(* ===== verification/SessionBranch.v ===== *)
(** * Branched sessions ([CreateBranchedSession] of [internal/pi/history/session_manager.go])

    A session made of one branch of another: label entries are dropped and
    rewritten at the end, parents follow, and a compaction that kept entries
    from a label on keeps them from the entry after it. *)

From S2P Require Import Prelude GoText PiModel TransformMessages SessionTree Transcript SessionContext SessionTreeProps Estimate Compaction CompactionPath.

(** ** Definitions *)

(** *** Copies ([deepcopy.go])

    A copy differs only where a content list holds a pointer: the copied block
    is the value it points at. *)

Definition with_first_kept (c : CompactionEntry) (id : string) : CompactionEntry :=
  {| ce_Summary := ce_Summary c; ce_FirstKeptEntryID := id; ce_TokensBefore := ce_TokensBefore c;
     ce_Details := ce_Details c; ce_Usage := ce_Usage c; ce_FromHook := ce_FromHook c;
     ce_SystemMessage := ce_SystemMessage c |}.

Definition with_system (c : CompactionEntry) (s : option SystemMessage) : CompactionEntry :=
  {| ce_Summary := ce_Summary c; ce_FirstKeptEntryID := ce_FirstKeptEntryID c; ce_TokensBefore := ce_TokensBefore c;
     ce_Details := ce_Details c; ce_Usage := ce_Usage c; ce_FromHook := ce_FromHook c; ce_SystemMessage := s |}.

Definition clone_body (b : EntryBody) : EntryBody :=
  match b with
  | BMessage m => BMessage (CloneMessage m)
  | BCompaction c =>
      BCompaction (with_system c ((fun s => with_system_content s (CloneContentList (sm_Content s))) <$> ce_SystemMessage c))
  | BCustomMessage c =>
      BCustomMessage {| cu_CustomType := cu_CustomType c; cu_Content := CloneContentList (cu_Content c);
                        cu_Details := cu_Details c; cu_Display := cu_Display c;
                        cu_contentWasString := cu_contentWasString c |}
  | BContextEdit x =>
      BContextEdit {| xe_TargetID := xe_TargetID x; xe_Replacement := CloneContentList <$> xe_Replacement x |}
  | _ => b
  end.

Definition with_body (e : SessionEntry) (b : EntryBody) : SessionEntry := {| se_Base := se_Base e; se_Body := b |}.

Definition CloneSessionEntry (e : SessionEntry) : SessionEntry := with_body e (clone_body (se_Body e)).

Definition cloneEntryWithParent (e : SessionEntry) (parent : option string) : SessionEntry :=
  setEntryParent (CloneSessionEntry e) parent.

(** *** The path without its labels *)

(** The variables of the loop over the path. *)
Record PathCopy := mkCopy {
  pc_path : list SessionEntry;
  pc_replacements : gmap string string;
  pc_pending : list string;
  pc_parent : option string;
}.

Definition copy_entry (replacements : gmap string string) (parent : option string) (e : SessionEntry) : SessionEntry :=
  match se_Body e with
  | BCompaction c =>
      let kept :=
        if String.eqb (ce_FirstKeptEntryID c) (entry_id e) then entry_id e
        else default (ce_FirstKeptEntryID c) (replacements !! ce_FirstKeptEntryID c) in
      setEntryParent (with_body e (BCompaction (with_first_kept c kept))) parent
  | _ => cloneEntryWithParent e parent
  end.

Definition is_label (e : SessionEntry) : bool := match se_Body e with BLabel _ => true | _ => false end.

Definition copy_step (s : PathCopy) (e : SessionEntry) : PathCopy :=
  if is_label e then mkCopy (pc_path s) (pc_replacements s) (pc_pending s ++ [entry_id e]) (pc_parent s)
  else
    let replacements := foldl (fun m label => <[label := entry_id e]> m) (pc_replacements s) (pc_pending s) in
    mkCopy (pc_path s ++ [copy_entry replacements (pc_parent s) e]) replacements [] (Some (entry_id e)).

Definition copy_path (path : list SessionEntry) : PathCopy := foldl copy_step (mkCopy [] ∅ [] None) path.

(** *** Labels rewritten *)

Record LabelToWrite := { lw_target : string; lw_label : string; lw_timestamp : string }.

(** The loop over [labelsByID], in the order [order] the map yields its
    keys. *)
Definition labels_of (sm : SessionManager) (pathEntryIDs : gset string) (order : list string) : list LabelToWrite :=
  omap (fun target =>
    if decide (target ∈ pathEntryIDs) then
      (fun label => {| lw_target := target; lw_label := label;
                       lw_timestamp := default "" (sm_labelTimestampsByID sm !! target) |}) <$> sm_labelsByID sm !! target
    else None) order.

Fixpoint insert_label (x : LabelToWrite) (l : list LabelToWrite) : list LabelToWrite :=
  match l with
  | [] => [x]
  | y :: rest => if String.ltb (lw_timestamp y) (lw_timestamp x) then y :: insert_label x rest else x :: l
  end.

(** [sort.Slice] orders equal times in some way: that of [order] here. *)
Definition sort_labels (l : list LabelToWrite) : list LabelToWrite := foldr insert_label [] l.

(** [draw k] is the identifier [generate] draws for the label number [k]. *)
Fixpoint label_entries (draw : nat -> string) (k : nat) (parent : option string) (l : list LabelToWrite) : list SessionEntry :=
  match l with
  | [] => []
  | x :: rest =>
      {| se_Base := {| eb_Type := "label"; eb_ID := draw k; eb_ParentID := parent; eb_Timestamp := lw_timestamp x |};
         se_Body := BLabel {| le_TargetID := lw_target x; le_Label := Some (lw_label x) |} |}
      :: label_entries draw (S k) (Some (draw k)) rest
  end.

(** The session the branch becomes; [persist] tells whether its file could be
    written.  Outer [None] is a walk that does not end. *)
Definition branched (sm : SessionManager) (order : list string) (draw : nat -> string) (path : list SessionEntry) : SessionManager :=
  let copied := pc_path (copy_path path) in
  let pathEntryIDs : gset string := list_to_set (entry_id <$> copied) in
  let labels := sort_labels (labels_of sm pathEntryIDs order) in
  buildIndex (copied ++ label_entries draw 0 (entry_id <$> last copied) labels).

Definition CreateBranchedSession (sm : SessionManager) (order : list string) (draw : nat -> string) (persist : bool) (leafID : string)
    : option (SessionManager * result history_error string) :=
  path ← branchFromUnlocked sm leafID;
  match path with
  | [] => Some (sm, Err (ENotFound leafID))
  | _ => Some (branched sm order draw path, if persist then Ok "" else Err EPersist)
  end.

(** * A branched session says what its branch said

    [CreateBranchedSession] gives a well-formed session whose context is that
    of the branch. *)

(** ** Definitions *)

(** The contents of an entry hold no pointers: copying it changes nothing. *)
Definition plain (path : list SessionEntry) : Prop := forall e, e ∈ path -> CloneSessionEntry e = e.

Definition no_labels (l : list SessionEntry) : list SessionEntry := List.filter (fun e => negb (is_label e)) l.

(** A copy has another parent, and if a compaction another first kept entry. *)
Definition copy_of (e e' : SessionEntry) : Prop :=
  entry_id e' = entry_id e /\ EntryType e' = EntryType e /\ eb_Timestamp (se_Base e') = eb_Timestamp (se_Base e) /\
  match se_Body e with
  | BCompaction c => exists k, se_Body e' = BCompaction (with_first_kept c k)
  | b => se_Body e' = b
  end.

(** A label entry for an entry of the path, with the label that entry has. *)
Definition labels_entry_of (sm : SessionManager) (path : list SessionEntry) (e : SessionEntry) : Prop :=
  exists target label, target ∈ path /\ is_label target = false /\ GetLabel sm (entry_id target) = Some label /\
    se_Body e = BLabel {| le_TargetID := entry_id target; le_Label := Some label |}.

(** ** Copying a path *)

Lemma no_labels_app l l' : no_labels (l ++ l') = no_labels l ++ no_labels l'.
Proof. apply List.filter_app. Qed.

Lemma no_labels_cons e l : no_labels (e :: l) = if is_label e then no_labels l else e :: no_labels l.
Proof. unfold no_labels. cbn. by destruct (is_label e). Qed.

Lemma no_labels_in l e : e ∈ no_labels l <-> e ∈ l /\ is_label e = false.
Proof. unfold no_labels. rewrite !list_elem_of_In, filter_In, negb_true_iff. done. Qed.

Lemma no_labels_sublist l : no_labels l `sublist_of` l.
Proof. induction l as [|e l IH]; [constructor|]. rewrite no_labels_cons. destruct (is_label e); by constructor. Qed.

Lemma copy_entry_of repl parent e :
  CloneSessionEntry e = e -> copy_of e (copy_entry repl parent e) /\ entry_parent (copy_entry repl parent e) = parent.
Proof.
  intros Hp. unfold copy_entry, copy_of. destruct (se_Body e) eqn:Eb;
    try (unfold cloneEntryWithParent; rewrite Hp; cbn; rewrite Eb; done).
  split; [|done]. cbn. split_and!; [done..|]. by eexists.
Qed.

Lemma copy_step_app s l :
  plain l -> exists copies, pc_path (foldl copy_step s l) = pc_path s ++ copies /\ Forall2 copy_of (no_labels l) copies.
Proof.
  revert s. induction l as [|e l IH]; intros s Hp; [exists []; by rewrite app_nil_r|]. cbn [foldl].
  destruct (IH (copy_step s e)) as (copies & E & Hc); [intros x Hx; apply Hp; by right|].
  rewrite E, no_labels_cons. unfold copy_step. destruct (is_label e) eqn:El; cbn [pc_path]; [by exists copies|].
  rewrite <- app_assoc. eexists. split; [done|]. constructor; [|done]. apply copy_entry_of, Hp. left.
Qed.

Lemma copied_spec l : plain l -> Forall2 copy_of (no_labels l) (pc_path (copy_path l)).
Proof. intros Hp. destruct (copy_step_app (mkCopy [] ∅ [] None) l Hp) as (copies & E & Hc). unfold copy_path. by rewrite E. Qed.

Lemma copies_ids l l' : Forall2 copy_of l l' -> entry_id <$> l' = entry_id <$> l.
Proof. induction 1 as [|e e' l l' He _ IH]; [done|]. rewrite !fmap_cons, IH. f_equal. apply He. Qed.

Lemma copied_chain l :
  plain l -> chain None (pc_path (copy_path l)) /\ pc_parent (copy_path l) = entry_id <$> last (pc_path (copy_path l)).
Proof.
  unfold copy_path. induction l as [|e l IH] using rev_ind; intros Hp; [done|].
  destruct IH as [Hc Hpar]; [intros x Hx; apply Hp, elem_of_app; by left|]. rewrite foldl_app. cbn [foldl].
  unfold copy_step at 1 3 5. destruct (is_label e); cbn [pc_path pc_parent]; [done|].
  set (s := foldl copy_step _ l) in *. set (repl := foldl _ _ _).
  destruct (copy_entry_of repl (pc_parent s) e) as [Hcopy Hparent]; [apply Hp, elem_of_app; right; left|].
  rewrite last_snoc. split; [|cbn; by rewrite (proj1 Hcopy)]. apply path_snoc. split; [done|]. rewrite Hparent, Hpar.
  by destruct (last (pc_path s)).
Qed.

(** *** Where a compaction keeps from *)

(** Keeping from an id, or from its replacement, keeps the same entries. *)
Record replaces (A : list SessionEntry) (s : PathCopy) : Prop := {
  rp_pending : forall F, F ∈ pc_pending s -> F ∈ (entry_id <$> A) /\ no_labels (from_id F A) = [];
  rp_some : forall F r, pc_replacements s !! F = Some r ->
    F ∈ (entry_id <$> A) /\ r ∈ (entry_id <$> no_labels A) /\ no_labels (from_id F A) = from_id r (no_labels A);
  rp_none : forall F, F ∉ pc_pending s -> pc_replacements s !! F = None ->
    F ∉ (entry_id <$> A) \/ F ∈ (entry_id <$> no_labels A);
  rp_same : forall F, F ∉ pc_pending s -> pc_replacements s !! F = None -> no_labels (from_id F A) = from_id F (no_labels A);
}.

Lemma insert_all_lookup (m : gmap string string) (keys : list string) v F :
  foldl (fun m k => <[k := v]> m) m keys !! F = if decide (F ∈ keys) then Some v else m !! F.
Proof.
  induction keys as [|k keys IH] using rev_ind; [done|]. rewrite foldl_app. cbn [foldl].
  destruct (decide (F = k)) as [->|Hne].
  - rewrite lookup_insert_eq, decide_True; [done|set_solver].
  - rewrite lookup_insert_ne, IH by done. apply decide_ext. set_solver.
Qed.

Lemma from_id_snoc_label F A e : is_label e = true -> no_labels (from_id F (A ++ [e])) = no_labels (from_id F A).
Proof.
  intros He. rewrite from_id_app. case_decide.
  - by rewrite no_labels_app, no_labels_cons, He, app_nil_r.
  - rewrite (from_id_none F A) by done. cbn. destruct (String.eqb _ _); [|done]. by rewrite no_labels_cons, He.
Qed.

Lemma from_id_snoc F A e :
  is_label e = false ->
  no_labels (from_id F (A ++ [e])) =
    if decide (F ∈ (entry_id <$> A)) then no_labels (from_id F A) ++ [e] else if String.eqb (entry_id e) F then [e] else [].
Proof.
  intros He. rewrite from_id_app. case_decide.
  - by rewrite no_labels_app, no_labels_cons, He.
  - cbn. destruct (String.eqb _ _); [|done]. by rewrite no_labels_cons, He.
Qed.

Lemma no_labels_ids l F : F ∈ (entry_id <$> no_labels l) -> F ∈ (entry_id <$> l).
Proof. intros H. eapply elem_of_sublist; [exact H|]. apply fmap_sublist, no_labels_sublist. Qed.

Lemma copy_replaces A : NoDup (entry_id <$> A) -> replaces A (copy_path A).
Proof.
  unfold copy_path. induction A as [|e A IH] using rev_ind; intros Hn.
  - split; cbn; [intros F HF; inversion HF|intros F r; by rewrite lookup_empty|intros F _ _; left; intros HF; inversion HF|done].
  - rewrite fmap_app in Hn. apply NoDup_app in Hn as (Hn & Hd & _). destruct (IH Hn) as [Hp Hs Hno Hsame]. clear IH.
    assert (entry_id e ∉ (entry_id <$> A)) as He by (intros Hin; apply (Hd _ Hin); left).
    rewrite foldl_app. cbn [foldl]. set (s := foldl copy_step _ A) in *. unfold copy_step.
    destruct (is_label e) eqn:El; split; cbn [pc_pending pc_replacements].
    + intros F [HF| ->%list_elem_of_singleton]%elem_of_app; rewrite fmap_app, from_id_snoc_label by done.
      * destruct (Hp F HF) as [? ->]. split; [apply elem_of_app; by left|done].
      * rewrite from_id_none by done. split; [apply elem_of_app; right; left|done].
    + intros F r HF. rewrite fmap_app, from_id_snoc_label, no_labels_app, no_labels_cons, El, app_nil_r by done.
      destruct (Hs F r HF) as (? & ? & ->). split; [apply elem_of_app; by left|done].
    + intros F HF HF'. rewrite fmap_app, no_labels_app, no_labels_cons, El, app_nil_r, elem_of_app. rewrite elem_of_app in HF.
      destruct (Hno F) as [?|?]; [naive_solver..|left|by right]. set_solver.
    + intros F HF HF'. rewrite from_id_snoc_label, no_labels_app, no_labels_cons, El, app_nil_r by done.
      apply Hsame; [|done]. rewrite elem_of_app in HF. naive_solver.
    + intros F HF. inversion HF.
    + intros F r. rewrite insert_all_lookup, no_labels_app, no_labels_cons, El, !fmap_app. intros HF.
      rewrite from_id_snoc by done. case_decide as HFp.
      * injection HF as <-. destruct (Hp F HFp) as [HA E]. rewrite decide_True, E by done.
        rewrite from_id_app, decide_False by (intros Hin; by apply He, no_labels_ids). cbn.
        rewrite String.eqb_refl. split_and!; [apply elem_of_app; by left|apply elem_of_app; right; left|done].
      * destruct (Hs F r HF) as (HA & Hr & E). rewrite decide_True, E by done.
        rewrite from_id_app, decide_True by done. split_and!; [apply elem_of_app; by left|apply elem_of_app; by left|done].
    + intros F _. rewrite insert_all_lookup. case_decide as HFp; [discriminate|]. intros HF.
      rewrite no_labels_app, no_labels_cons, El, !fmap_app, !elem_of_app.
      destruct (Hno F HFp HF) as [Hout|Hin]; [|right; by left]. destruct (decide (F = entry_id e)) as [->|]; [right; right; left|left].
      intros [Hin|Hin%list_elem_of_singleton]; done.
    + intros F _. rewrite insert_all_lookup. case_decide as HFp; [discriminate|]. intros HF.
      rewrite from_id_snoc, no_labels_app, no_labels_cons, El, from_id_app by done. rewrite (Hsame F HFp HF).
      destruct (Hno F HFp HF) as [Hout|Hin].
      * rewrite decide_False by done. rewrite decide_False by (intros Hin; by apply Hout, no_labels_ids).
        cbn. by destruct (String.eqb _ _).
      * rewrite decide_True by (by apply no_labels_ids). by rewrite decide_True.
Qed.

(** The copy of a compaction keeps from the copy of what it kept from. *)
Lemma copied_compaction A ce c B :
  plain (A ++ ce :: B) -> NoDup (entry_id <$> (A ++ ce :: B)) -> se_Body ce = BCompaction c ->
  exists A' ce' k B', pc_path (copy_path (A ++ ce :: B)) = A' ++ ce' :: B' /\
    Forall2 copy_of (no_labels A) A' /\ copy_of ce ce' /\ Forall2 copy_of (no_labels B) B' /\
    se_Body ce' = BCompaction (with_first_kept c k) /\
    from_id k (no_labels A) = no_labels (from_id (ce_FirstKeptEntryID c) A).
Proof.
  intros Hp Hn Hc. assert (plain A /\ plain B /\ CloneSessionEntry ce = ce) as (HpA & HpB & Hpc).
  { split_and!; [intros x Hx; apply Hp, elem_of_app; by left|intros x Hx; apply Hp, elem_of_app; right; by right|].
    apply Hp, elem_of_app. right. left. }
  rewrite fmap_app, fmap_cons in Hn. apply NoDup_app in Hn as (HnA & Hd & _).
  assert (entry_id ce ∉ (entry_id <$> A)) as Hce by (intros Hin; apply (Hd _ Hin); left).
  pose proof (copied_spec A HpA) as HA. destruct (copy_replaces A HnA) as [Hpend Hsome Hnone Hsame].
  unfold copy_path in *. rewrite foldl_app. cbn [foldl]. set (s := foldl copy_step _ A) in *.
  unfold copy_step at 2. assert (is_label ce = false) as -> by (unfold is_label; by rewrite Hc).
  set (repl := foldl (fun m label => <[label := entry_id ce]> m) (pc_replacements s) (pc_pending s)).
  destruct (copy_step_app (mkCopy (pc_path s ++ [copy_entry repl (pc_parent s) ce]) repl [] (Some (entry_id ce))) B HpB)
    as (B' & E & HB). rewrite E. cbn [pc_path].
  set (F := ce_FirstKeptEntryID c) in *.
  exists (pc_path s), (copy_entry repl (pc_parent s) ce),
    (if String.eqb F (entry_id ce) then entry_id ce else default F (repl !! F)), B'.
  split_and!; [by rewrite <- app_assoc|done|by apply copy_entry_of|done|unfold copy_entry; by rewrite Hc|].
  destruct (String.eqb_spec F (entry_id ce)) as [EF|_].
  - rewrite EF, (from_id_none _ A) by done. apply from_id_none. intros Hin. by apply Hce, no_labels_ids.
  - unfold repl. rewrite insert_all_lookup. case_decide as HF; cbn.
    + destruct (Hpend F HF) as [_ ->]. apply from_id_none. intros Hin. by apply Hce, no_labels_ids.
    + destruct (pc_replacements s !! F) as [r|] eqn:Er; cbn; [|by rewrite Hsame]. by destruct (Hsome F r Er) as (_ & _ & ->).
Qed.

(** ** What copies say *)

Section Messages.
Context {P : Platform}.

Lemma copy_compaction_of e e' :
  copy_of e e' -> compaction_of e' = None <-> compaction_of e = None.
Proof.
  intros (_ & _ & _ & Hb). unfold compaction_of. destruct (se_Body e); try (rewrite Hb; done).
  destruct Hb as [k ->]. done.
Qed.

Lemma copy_own_messages e e' : copy_of e e' -> SessionEntryToContextMessages e' = SessionEntryToContextMessages e.
Proof.
  intros (_ & _ & Ht & Hb). unfold SessionEntryToContextMessages. rewrite Ht. destruct (se_Body e); try (rewrite Hb; done).
  destruct Hb as [k ->]. done.
Qed.

Lemma copy_messages edits e e' : copy_of e e' -> entry_messages edits e' = entry_messages edits e.
Proof.
  intros Hc. unfold entry_messages, project_entry, projectContextEntry. cbn [pe_Messages].
  rewrite (copy_own_messages _ _ Hc), (proj1 Hc). pose proof (copy_compaction_of _ _ Hc) as Hcc.
  destruct (compaction_of e'), (compaction_of e); naive_solver.
Qed.

Lemma copies_messages edits l l' :
  Forall2 copy_of l l' -> concat (map (entry_messages edits) l') = concat (map (entry_messages edits) l).
Proof. induction 1 as [|e e' l l' He _ IH]; [done|]. cbn [map concat]. by rewrite IH, (copy_messages _ _ _ He). Qed.

Lemma label_messages edits e : is_label e = true -> entry_messages edits e = [].
Proof.
  unfold is_label, entry_messages, project_entry, projectContextEntry, compaction_of, SessionEntryToContextMessages.
  destruct (se_Body e); try discriminate. intros _. cbn. by repeat case_match.
Qed.

Lemma no_labels_messages edits l :
  concat (map (entry_messages edits) (no_labels l)) = concat (map (entry_messages edits) l).
Proof.
  induction l as [|e l IH]; [done|]. rewrite no_labels_cons. destruct (is_label e) eqn:El; cbn [map concat]; rewrite IH; [|done].
  by rewrite label_messages.
Qed.

Lemma copy_system e e' : copy_of e e' -> system_entry e' = system_entry e.
Proof. intros (_ & _ & _ & Hb). unfold system_entry. destruct (se_Body e); try (rewrite Hb; done). by destruct Hb as [k ->]. Qed.

Lemma copies_not_system l l' : Forall2 copy_of l l' -> Forall2 copy_of (not_system l) (not_system l').
Proof.
  induction 1 as [|e e' l l' He _ IH]; [constructor|]. rewrite !not_system_cons, (copy_system _ _ He).
  destruct (system_entry e); [done|by constructor].
Qed.

Lemma copies_from_id F l l' : Forall2 copy_of l l' -> Forall2 copy_of (from_id F l) (from_id F l').
Proof.
  induction 1 as [|e e' l l' He Hl IH]; [constructor|]. cbn [from_id]. rewrite (proj1 He).
  destruct (String.eqb _ _); [by constructor|done].
Qed.

Lemma no_labels_not_system l : no_labels (not_system l) = not_system (no_labels l).
Proof.
  induction l as [|e l IH]; [done|]. rewrite not_system_cons, no_labels_cons.
  destruct (system_entry e) eqn:Es, (is_label e) eqn:El; rewrite ?no_labels_cons, ?not_system_cons, ?Es, ?El, ?IH; done.
Qed.

Lemma edits_no_labels l : edits_of (no_labels l) = edits_of l.
Proof.
  unfold edits_of. generalize (@empty (gmap string ContextEditEntry) _). induction l as [|e l IH]; intros m; [done|].
  rewrite no_labels_cons. unfold is_label. cbn [foldl]. destruct (se_Body e) eqn:Eb; cbn [foldl]; rewrite ?Eb, IH; done.
Qed.

Lemma edits_copies l l' : Forall2 copy_of l l' -> edits_of l' = edits_of l.
Proof.
  unfold edits_of. intros H. generalize (@empty (gmap string ContextEditEntry) _). induction H as [|e e' l l' He _ IH]; intros m; [done|].
  cbn [foldl]. rewrite IH. destruct He as (_ & _ & _ & Hb). destruct (se_Body e); try (rewrite Hb; done). by destruct Hb as [k ->].
Qed.

Lemma settings_no_labels l : getSessionContextSettings (no_labels l) = getSessionContextSettings l.
Proof.
  unfold getSessionContextSettings. generalize ("off", @None (string * string)). induction l as [|e l IH]; intros s; [done|].
  rewrite no_labels_cons. unfold is_label. destruct (se_Body e) eqn:Eb; cbn [foldl]; rewrite IH; try done.
  unfold session_setting. by rewrite Eb.
Qed.

Lemma settings_copies l l' : Forall2 copy_of l l' -> getSessionContextSettings l' = getSessionContextSettings l.
Proof.
  unfold getSessionContextSettings. intros H. generalize ("off", @None (string * string)).
  induction H as [|e e' l l' He _ IH]; intros s; [done|]. cbn [foldl]. rewrite IH. f_equal. unfold session_setting.
  destruct He as (_ & _ & _ & Hb). destruct (se_Body e); try (rewrite Hb; done). by destruct Hb as [k ->].
Qed.
End Messages.

(** ** The context of a copied path *)

Lemma copies_in l l' e' : Forall2 copy_of l l' -> e' ∈ l' -> exists e, e ∈ l /\ copy_of e e'.
Proof.
  induction 1 as [|e x l l' Hx _ IH]; intros Hin; [inversion Hin|]. apply elem_of_cons in Hin as [->|Hin].
  - exists e. split; [left|done].
  - destruct (IH Hin) as (y & Hy & Hc). exists y. split; [by right|done].
Qed.

Section Context.
Context {P : Platform}.

Lemma label_no_compaction e : is_label e = true -> compaction_of e = None.
Proof. unfold is_label, compaction_of. by destruct (se_Body e). Qed.

Lemma copied_none path L e' :
  plain path -> (forall e, e ∈ path -> compaction_of e = None) -> (forall e, e ∈ L -> is_label e = true) ->
  e' ∈ pc_path (copy_path path) ++ L -> compaction_of e' = None.
Proof.
  intros Hp Hno HL [He|He]%elem_of_app; [|by apply label_no_compaction, HL].
  destruct (copies_in _ _ _ (copied_spec path Hp) He) as (e & Hin & Hc). apply (copy_compaction_of _ _ Hc), Hno.
  by apply no_labels_in in Hin as [Hin _].
Qed.

Lemma labels_only L : (forall e, e ∈ L -> is_label e = true) -> no_labels L = [].
Proof. induction L as [|e L IH]; intros HL; [done|]. rewrite no_labels_cons, HL by left. apply IH. intros x Hx. apply HL. by right. Qed.

(** Copies of a tail and labels say what the tail says. *)
Lemma copied_tail edits tail tail' L :
  Forall2 copy_of (no_labels tail) tail' -> (forall e, e ∈ L -> is_label e = true) ->
  concat (map (entry_messages edits) (tail' ++ L)) = concat (map (entry_messages edits) tail).
Proof.
  intros Hc HL. rewrite map_app, concat_app, (copies_messages _ _ _ Hc), no_labels_messages.
  replace (concat (map (entry_messages edits) L)) with (@nil Message); [by rewrite app_nil_r|].
  rewrite <- no_labels_messages. assert (no_labels L = []) as ->; [|done].
  induction L as [|e L IH]; [done|]. rewrite no_labels_cons, HL by left. apply IH. intros x Hx. apply HL. by right.
Qed.

Lemma copied_edits path L :
  plain path -> (forall e, e ∈ L -> is_label e = true) -> edits_of (pc_path (copy_path path) ++ L) = edits_of path.
Proof.
  intros Hp HL. rewrite <- (edits_no_labels path), <- (edits_copies _ _ (copied_spec path Hp)).
  induction L as [|e L IH] using rev_ind; [by rewrite app_nil_r|]. rewrite app_assoc, edits_snoc_other.
  - apply IH. intros x Hx. apply HL, elem_of_app. by left.
  - intros x Hx. pose proof (HL e ltac:(apply elem_of_app; right; left)) as He. unfold is_label in He. by rewrite Hx in He.
Qed.

Lemma copied_settings path L :
  plain path -> (forall e, e ∈ L -> is_label e = true) ->
  getSessionContextSettings (pc_path (copy_path path) ++ L) = getSessionContextSettings path.
Proof.
  intros Hp HL. rewrite <- settings_no_labels, no_labels_app.
  rewrite <- (settings_no_labels path), <- (settings_copies _ _ (copied_spec path Hp)).
  by rewrite (labels_only L HL), app_nil_r, settings_no_labels.
Qed.
Lemma copies_named l l' : Forall2 copy_of l l' -> named l -> named l'.
Proof.
  intros Hc Hn e m He Hm. destruct (copies_in _ _ _ Hc He) as (x & Hx & _ & _ & _ & Hb). apply (Hn x); [done|].
  destruct (se_Body x); try congruence. destruct Hb as [k Hk]. congruence.
Qed.

Lemma no_labels_named l : named l -> named (no_labels l).
Proof. intros Hn e m He. apply Hn. by apply no_labels_in in He as [He _]. Qed.

(** The copied path, labels after it, projects to the same messages. *)
Lemma copied_projection path L :
  path_ok path -> plain path -> named path -> path_ok (pc_path (copy_path path) ++ L) ->
  (forall e, e ∈ L -> is_label e = true) ->
  exists head tail head' tail',
    context_shape path head tail /\ context_shape (pc_path (copy_path path) ++ L) head' tail' /\
    sp_Messages (projection_of (pc_path (copy_path path) ++ L) head' tail') = sp_Messages (projection_of path head tail).
Proof.
  intros Hok Hp Hr Hok' HL. pose proof (copied_edits path L Hp HL) as Hedits.
  pose proof (last_compaction_spec path) as Hs. destruct (last_compaction path) as [[ce c]|] eqn:El.
  - destruct Hs as (A & B & E & Hc & HB). assert (se_Body ce = BCompaction c) as Hbody.
    { unfold compaction_of in Hc. destruct (se_Body ce); try discriminate Hc. by injection Hc as ->. }
    subst path. destruct (copied_compaction A ce c B Hp (po_ids _ Hok) Hbody) as (A' & ce' & k & B' & E' & HA & Hce & HB' & Hbody' & Hk).
    rewrite E' in *. rewrite <- app_assoc in *. cbn [app] in *.
    apply named_app in Hr as HrA. destruct HrA as [HrA _].
    assert (compaction_of ce' = Some (with_first_kept c k)) as Hc' by (unfold compaction_of; by rewrite Hbody').
    assert (last_compaction (A' ++ ce' :: B' ++ L) = Some (ce', with_first_kept c k)) as El'.
    { apply last_compaction_at; [done|]. intros e [He|He]%elem_of_app; [|by apply label_no_compaction, HL].
      destruct (copies_in _ _ _ HB' He) as (x & [Hx _]%no_labels_in & Hcx). apply (copy_compaction_of _ _ Hcx). by apply HB. }
    assert (named A') as HrA' by (eapply copies_named; [done|by apply no_labels_named]).
    pose proof (compacted_shape _ _ _ _ Hok HrA El Hc) as Hshape.
    pose proof (compacted_shape _ _ _ _ Hok' HrA' El' Hc') as Hshape'. do 4 eexists. split_and!; [done..|].
    rewrite !projection_messages, Hedits. f_equal.
    + cbn [map concat compaction_head pe_Messages]. by rewrite (copy_own_messages _ _ Hce).
    + rewrite app_assoc. apply copied_tail; [|done]. rewrite no_labels_app, no_labels_not_system. apply Forall2_app; [|done].
      apply copies_not_system. cbn [with_first_kept ce_FirstKeptEntryID]. rewrite <- Hk. by apply copies_from_id.
  - exists [], path, [], (pc_path (copy_path path) ++ L). split_and!.
    + by apply uncompacted_shape.
    + apply uncompacted_shape; [done|]. intros e. by apply copied_none.
    + rewrite !projection_messages, Hedits. apply copied_tail; [|done]. by apply copied_spec.
Qed.
End Context.

(** ** The branched session is well formed *)

Lemma byID_replay es : sm_byID (replay es) = entries_index es.
Proof.
  induction es as [|e es IH] using rev_ind; [done|]. rewrite replay_snoc. unfold entries_index in *. rewrite foldl_app. cbn [foldl].
  rewrite <- IH. unfold index_entry. destruct (se_Body e); try done. unfold record_label. by destruct (le_Label l).
Qed.

Lemma chain_above parent l before t mid e after :
  chain parent (before ++ t :: mid ++ e :: after) -> (forall x, x ∈ t :: mid -> x ∈ l) -> above l t e.
Proof.
  intros Hc. revert e after Hc. induction mid as [|u mid IH] using rev_ind; intros e after Hc Hl.
  - apply above_parent; [apply Hl; left|]. cbn [app] in Hc.
    replace (before ++ t :: e :: after) with ((before ++ [t; e]) ++ after) in Hc by (by rewrite <- app_assoc).
    clear -Hc. revert parent Hc. induction before as [|x before IH]; intros parent; cbn; [naive_solver|]. intros [_ Hc]. by eapply IH.
  - apply (above_step _ _ u); [apply Hl; right; apply elem_of_app; right; left| |].
    + clear IH. replace (before ++ t :: (mid ++ [u]) ++ e :: after) with ((before ++ t :: mid) ++ u :: e :: after) in Hc
        by (by rewrite <- !app_assoc).
      clear -Hc. revert parent Hc. generalize (before ++ t :: mid). intros l. induction l as [|x l IH]; intros parent; cbn; [naive_solver|].
      intros [_ Hc]. by eapply IH.
    + apply (IH u (e :: after)); [by rewrite <- app_assoc in Hc|]. intros x Hx. apply Hl. set_solver.
Qed.

Lemma buildIndex_wf es :
  NoDup (entry_id <$> es) -> chain None es -> (forall e, e ∈ es -> EntryType e = body_type (se_Body e)) ->
  (forall e, e ∈ es -> entry_id e <> "") ->
  (forall before e after x, es = before ++ e :: after -> se_Body e = BContextEdit x ->
    exists t, t ∈ before /\ entry_id t = xe_TargetID x /\ editableContextEntry t = Some true) ->
  session_wf (buildIndex es).
Proof.
  intros Hn Hc Ht Hne He. rewrite buildIndex_replay. unfold with_entries.
  assert (forall id e, sm_byID (replay es) !! id = Some e <-> e ∈ es /\ entry_id e = id) as Hidx.
  { intros id e. rewrite byID_replay. by apply index_of_lookup. }
  split; cbn [sm_entries sm_byID sm_leafID]; [done|done| | |done| |done].
  - intros before e after -> p Hp. apply list_elem_of_fmap. destruct before as [|u before _] using rev_ind.
    + cbn in Hc. destruct Hc as [Hc _]. congruence.
    + rewrite <- app_assoc in Hc. assert (entry_parent e = Some (entry_id u)) as E.
      { clear -Hc. revert Hc. generalize (@None string). induction before as [|x l IH]; intros parent; cbn; [naive_solver|].
        intros [_ Hc]. by eapply IH. }
      exists u. split; [congruence|]. apply elem_of_app. right. left.
  - intros id. rewrite replay_leaf. intros (e & He' & ->)%fmap_Some. exists e. apply Hidx. split; [|done]. by apply last_Some_elem_of.
  - intros before e after x E Hx. destruct (He _ _ _ _ E Hx) as (t & Hin & Hid & Hed). exists t. split_and!; [done..|].
    apply list_elem_of_split in Hin as (b & m & ->). subst es. rewrite <- app_assoc in Hc. cbn [app] in Hc.
    eapply chain_above; [exact Hc|]. intros y Hy. rewrite <- app_assoc. apply elem_of_app. right. cbn [app].
    rewrite app_comm_cons. apply elem_of_app. by left.
Qed.

(** *** Targets of edits *)

Lemma same_id sm x y : session_wf sm -> x ∈ sm_entries sm -> y ∈ sm_entries sm -> entry_id x = entry_id y -> x = y.
Proof.
  intros Hw Hx Hy E. assert (sm_byID sm !! entry_id x = Some x) as H1 by (by apply (wf_index _ Hw)).
  assert (sm_byID sm !! entry_id x = Some y) as H2 by (by apply (wf_index _ Hw)). congruence.
Qed.

Lemma above_on_chain sm A t e :
  session_wf sm -> (forall x, x ∈ A -> x ∈ sm_entries sm) -> chain None (A ++ [e]) -> above (sm_entries sm) t e -> t ∈ A.
Proof.
  intros Hw Hsub Hc Ha. revert A Hsub Hc. induction Ha as [e Ht Hp|u e Hu Hp _ IH]; intros A Hsub Hc.
  - apply path_snoc in Hc as [_ Hc]. rewrite Hp in Hc. destruct (last A) as [v|] eqn:El; [|discriminate]. injection Hc as Hc.
    apply last_Some_elem_of in El. by rewrite (same_id sm t v Hw Ht (Hsub _ El) Hc).
  - apply path_snoc in Hc as [Hc E]. rewrite Hp in E. destruct A as [|v A _] using rev_ind; [discriminate|].
    rewrite last_snoc in E. injection E as E. assert (v ∈ sm_entries sm) as Hv by (apply Hsub, elem_of_app; right; left).
    assert (u = v) as -> by (by eapply same_id). apply elem_of_app. left. apply IH; [|done].
    intros x Hx. apply Hsub, elem_of_app. by left.
Qed.

Lemma path_target sm A e B x :
  session_wf sm -> (forall y, y ∈ A ++ e :: B -> y ∈ sm_entries sm) -> chain None (A ++ e :: B) -> se_Body e = BContextEdit x ->
  exists t, t ∈ A /\ entry_id t = xe_TargetID x /\ editableContextEntry t = Some true.
Proof.
  intros Hw Hsub Hc Hx. assert (e ∈ sm_entries sm) as He by (apply Hsub, elem_of_app; right; left).
  apply list_elem_of_split in He as (b & a & E). destruct (wf_targets _ Hw _ _ _ _ E Hx) as (t & _ & Hid & Hed & Ha).
  exists t. split; [|done]. eapply above_on_chain; [done| | |exact Ha].
  - intros y Hy. apply Hsub, elem_of_app. by left.
  - clear -Hc. revert Hc. generalize (@None string). induction A as [|y A IH]; intros p; cbn; [naive_solver|]. intros [? Hc]. split; [done|]. by eapply IH.
Qed.

Lemma no_labels_split path n1 e n2 :
  no_labels path = n1 ++ e :: n2 -> exists A B, path = A ++ e :: B /\ no_labels A = n1.
Proof.
  revert n1. induction path as [|x path IH]; intros n1; [by destruct n1|]. rewrite no_labels_cons. destruct (is_label x) eqn:El.
  - intros H. destruct (IH _ H) as (A & B & -> & E). exists (x :: A), B. by rewrite no_labels_cons, El, E.
  - destruct n1 as [|y n1]; intros [= -> H]; [by exists [], path|]. destruct (IH _ H) as (A & B & -> & E).
    exists (y :: A), B. by rewrite no_labels_cons, El, E.
Qed.

Lemma copies_out l l' e : Forall2 copy_of l l' -> e ∈ l -> exists e', e' ∈ l' /\ copy_of e e'.
Proof.
  induction 1 as [|x x' l l' Hx _ IH]; intros Hin; [inversion Hin|]. apply elem_of_cons in Hin as [->|Hin].
  - exists x'. split; [left|done].
  - destruct (IH Hin) as (y & Hy & Hc). exists y. split; [by right|done].
Qed.

Lemma copied_targets sm path L before e after x :
  session_wf sm -> (forall y, y ∈ path -> y ∈ sm_entries sm) -> chain None path -> plain path ->
  (forall e, e ∈ L -> is_label e = true) ->
  pc_path (copy_path path) ++ L = before ++ e :: after -> se_Body e = BContextEdit x ->
  exists t, t ∈ before /\ entry_id t = xe_TargetID x /\ editableContextEntry t = Some true.
Proof.
  intros Hw Hsub Hc Hp HL E Hx. assert (e ∉ L) as HeL.
  { intros He. apply HL in He. unfold is_label in He. by rewrite Hx in He. }
  assert (exists rest, pc_path (copy_path path) = before ++ e :: rest) as [rest Ecopied].
  { apply app_eq_inv in E as [([|y k] & E1 & E2)|(k & -> & E2)].
    - exfalso. apply HeL. cbn in E2. rewrite <- E2. left.
    - injection E2 as <- ->. eauto.
    - exfalso. apply HeL. rewrite E2. apply elem_of_app. right. left. }
  pose proof (copied_spec path Hp) as Hcopy. rewrite Ecopied in Hcopy.
  apply Forall2_app_inv_r in Hcopy as (n1 & n2 & H1 & H2 & En). apply Forall2_cons_inv_r in H2 as (e0 & n2' & He0 & _ & ->).
  destruct (no_labels_split _ _ _ _ En) as (A & B & -> & <-).
  assert (se_Body e0 = BContextEdit x) as Hx0.
  { destruct He0 as (_ & _ & _ & Hb). destruct (se_Body e0); try congruence. destruct Hb as [k Hb]. congruence. }
  destruct (path_target sm A e0 B x Hw Hsub Hc Hx0) as (t & Ht & Hid & Hed).
  assert (is_label t = false) as Hlt by (unfold is_label; unfold editableContextEntry in Hed; by destruct (se_Body t)).
  destruct (copies_out _ _ t H1) as (t' & Ht' & Hct); [by apply no_labels_in|]. exists t'.
  destruct Hct as (Hidt & _ & _ & Hbt). split_and!; [done|congruence|].
  unfold editableContextEntry in *. destruct (se_Body t); try discriminate Hed; by rewrite Hbt.
Qed.

(** *** Labels *)

Lemma chain_app parent a b :
  chain parent (a ++ b) <-> chain parent a /\ chain (match last a with Some e => Some (entry_id e) | None => parent end) b.
Proof.
  revert parent. induction a as [|e a IH]; intros parent; [cbn; tauto|]. cbn [app chain]. rewrite IH, last_cons.
  destruct (last a); tauto.
Qed.

Lemma label_entries_spec draw k parent l :
  chain parent (label_entries draw k parent l) /\ entry_id <$> label_entries draw k parent l = draw <$> seq k (length l) /\
  forall e, e ∈ label_entries draw k parent l -> is_label e = true /\ EntryType e = body_type (se_Body e).
Proof.
  revert k parent. induction l as [|x l IH]; intros k parent; cbn [label_entries length seq].
  - split_and!; [done..|]. intros e He. inversion He.
  - destruct (IH (S k) (Some (draw k))) as (Hc & Hi & He). split_and!; [done|by rewrite !fmap_cons, Hi|].
    intros e [->|Hin]%elem_of_cons; [done|by apply He].
Qed.

Lemma insert_label_perm x l : insert_label x l ≡ₚ x :: l.
Proof. induction l as [|y l IH]; [done|]. cbn. case_match; [|done]. rewrite IH. apply Permutation_swap. Qed.

Lemma sort_labels_perm l : sort_labels l ≡ₚ l.
Proof. induction l as [|x l IH]; [done|]. cbn. by rewrite insert_label_perm, IH. Qed.

Lemma labels_of_targets sm ids order : lw_target <$> labels_of sm ids order `sublist_of` order.
Proof.
  induction order as [|t order IH]; [constructor|]. unfold labels_of. cbn [omap list_omap].
  destruct (decide (t ∈ ids)); cbn; [|by constructor]. destruct (sm_labelsByID sm !! t); cbn; by constructor.
Qed.

Lemma labels_of_in sm ids order x :
  x ∈ labels_of sm ids order <->
  lw_target x ∈ order /\ lw_target x ∈ ids /\ sm_labelsByID sm !! lw_target x = Some (lw_label x) /\
  lw_timestamp x = default "" (sm_labelTimestampsByID sm !! lw_target x).
Proof.
  unfold labels_of. rewrite list_elem_of_omap. split.
  - intros (t & Ht & H). case_decide; [|discriminate]. apply fmap_Some in H as (label & El & ->). done.
  - intros (Ho & Hi & Hl & Ht). exists (lw_target x). split; [done|]. rewrite decide_True by done. rewrite Hl. cbn. by destruct x; cbn in *; subst.
Qed.

Lemma label_entries_in draw l : forall k parent e,
  e ∈ label_entries draw k parent l ->
  exists x, x ∈ l /\ se_Body e = BLabel {| le_TargetID := lw_target x; le_Label := Some (lw_label x) |}.
Proof.
  induction l as [|x l IH]; intros k parent e; cbn [label_entries]; [intros H; inversion H|].
  intros [->|He]%elem_of_cons; [exists x; split; [left|done]|].
  destruct (IH _ _ _ He) as (y & Hy & E). exists y. split; [by right|done].
Qed.

Lemma index_labels draw items : forall sm k parent t,
  NoDup (lw_target <$> items) ->
  sm_labelsByID (foldl index_entry sm (label_entries draw k parent items)) !! t =
    match List.find (fun x => String.eqb (lw_target x) t) items with Some x => Some (lw_label x) | None => sm_labelsByID sm !! t end.
Proof.
  induction items as [|x items IH]; intros sm k parent t Hn; [done|]. rewrite fmap_cons in Hn. apply NoDup_cons in Hn as [Hx Hn].
  cbn [label_entries foldl List.find]. rewrite IH by done. destruct (String.eqb_spec (lw_target x) t) as [<-|Hne].
  - destruct (List.find _ items) as [y|] eqn:Ef.
    + exfalso. apply List.find_some in Ef as [Hy E]. apply String.eqb_eq in E. apply Hx. rewrite <- E.
      apply list_elem_of_fmap_2. by apply list_elem_of_In.
    + cbn. by rewrite lookup_insert_eq.
  - destruct (List.find _ items); [done|]. cbn. by rewrite lookup_insert_ne.
Qed.

Lemma replay_no_labels es : (forall e, e ∈ es -> is_label e = false) -> sm_labelsByID (replay es) = ∅.
Proof.
  induction es as [|e es IH] using rev_ind; intros H; [done|]. rewrite replay_snoc. unfold index_entry.
  rewrite <- IH by (intros x Hx; apply H, elem_of_app; by left).
  pose proof (H e ltac:(apply elem_of_app; right; left)) as He. unfold is_label in He. by destruct (se_Body e).
Qed.

(** *** The session *)

(** [order] lists the keys of the label map, and [draw] never draws an
    identifier twice, nor one of the branch. *)
Record drawn (sm : SessionManager) (path : list SessionEntry) (order : list string) (draw : nat -> string) : Prop := {
  dr_order : NoDup order;
  dr_keys : forall t, is_Some (sm_labelsByID sm !! t) -> t ∈ order;
  dr_distinct : forall i j, draw i = draw j -> i = j;
  dr_fresh : forall i, (draw i ∉ (entry_id <$> path)) /\ draw i <> "";
}.

Definition label_items (sm : SessionManager) (order : list string) (path : list SessionEntry) : list LabelToWrite :=
  sort_labels (labels_of sm (list_to_set (entry_id <$> pc_path (copy_path path))) order).

Definition branched_entries (sm : SessionManager) (order : list string) (draw : nat -> string) (path : list SessionEntry) : list SessionEntry :=
  pc_path (copy_path path) ++ label_entries draw 0 (entry_id <$> last (pc_path (copy_path path))) (label_items sm order path).

Lemma branched_chain sm order draw path : plain path -> chain None (branched_entries sm order draw path).
Proof.
  intros Hp. apply chain_app. split; [by apply copied_chain|].
  destruct (label_entries_spec draw 0 (entry_id <$> last (pc_path (copy_path path))) (label_items sm order path)) as (Hc & _).
  by destruct (last (pc_path (copy_path path))).
Qed.

Lemma branched_ids sm order draw path :
  plain path -> NoDup (entry_id <$> path) -> drawn sm path order draw -> NoDup (entry_id <$> branched_entries sm order draw path).
Proof.
  intros Hp Hn Hd. unfold branched_entries. rewrite fmap_app, (copies_ids _ _ (copied_spec path Hp)).
  destruct (label_entries_spec draw 0 (entry_id <$> last (pc_path (copy_path path))) (label_items sm order path)) as (_ & -> & _).
  apply NoDup_app. split_and!.
  - eapply sublist_NoDup; [exact Hn|]. apply fmap_sublist, no_labels_sublist.
  - intros id Hid%no_labels_ids (k & -> & _)%list_elem_of_fmap. by destruct (dr_fresh _ _ _ _ Hd k).
  - apply NoDup_fmap_2; [intros i j; apply Hd|apply NoDup_seq].
Qed.

Lemma branched_wf sm order draw path :
  session_wf sm -> path_ok path -> (forall e, e ∈ path -> e ∈ sm_entries sm) -> plain path -> drawn sm path order draw ->
  session_wf (branched sm order draw path) /\
  GetBranch (branched sm order draw path) None = Some (branched_entries sm order draw path).
Proof.
  intros Hw Hok Hsub Hp Hd. pose proof (branched_chain sm order draw path Hp) as Hc.
  pose proof (branched_ids sm order draw path Hp (po_ids _ Hok) Hd) as Hn.
  destruct (label_entries_spec draw 0 (entry_id <$> last (pc_path (copy_path path))) (label_items sm order path)) as (_ & Hids & Hlab).
  assert (session_wf (buildIndex (branched_entries sm order draw path))) as Hw'.
  { apply buildIndex_wf; [done|done| | |].
    - intros e [He|He]%elem_of_app; [|by apply Hlab].
      destruct (copies_in _ _ _ (copied_spec path Hp) He) as (x & [Hx _]%no_labels_in & _ & Ht & _ & Hb).
      rewrite Ht, (po_types _ Hok x Hx). destruct (se_Body x); try by rewrite Hb. by destruct Hb as [k ->].
    - intros e [He|He]%elem_of_app.
      + destruct (copies_in _ _ _ (copied_spec path Hp) He) as (x & [Hx _]%no_labels_in & Hid & _).
        rewrite Hid. by apply (wf_named _ Hw), Hsub.
      + assert (entry_id e ∈ (draw <$> seq 0 (length (label_items sm order path)))) as Hin by (rewrite <- Hids; by apply list_elem_of_fmap_2).
        apply list_elem_of_fmap in Hin as (k & -> & _). by apply (dr_fresh _ _ _ _ Hd k).
    - intros before e after x E Hx. eapply copied_targets; [done|done|apply Hok|done| |exact E|done]. intros y Hy. by apply Hlab. }
  split; [exact Hw'|]. unfold branched. fold (label_items sm order path). fold (branched_entries sm order draw path).
  unfold GetBranch, start_of. rewrite buildIndex_replay. unfold with_entries. cbn [sm_byID sm_leafID].
  rewrite replay_leaf, byID_replay. destruct (last (branched_entries sm order draw path)) as [e|] eqn:El.
  - cbn [fmap option_fmap option_map mbind option_bind]. rewrite (proj2 (index_of_lookup _ _ e Hn)); [|split; [by apply last_Some_elem_of|done]].
    rewrite <- El. apply walk_from_chain; [done..|]. intros x Hx. by apply index_of_lookup.
  - apply last_None in El. rewrite El. done.
Qed.

Lemma branched_labels sm order draw path id :
  plain path -> drawn sm path order draw -> id ∈ (entry_id <$> no_labels path) ->
  sm_labelsByID (branched sm order draw path) !! id = sm_labelsByID sm !! id.
Proof.
  intros Hp Hd Hid. pose proof (copied_spec path Hp) as Hcopy. rewrite <- (copies_ids _ _ Hcopy) in Hid.
  unfold branched. rewrite buildIndex_replay. unfold with_entries, replay. cbn [sm_labelsByID]. rewrite foldl_app.
  fold (replay (pc_path (copy_path path))). fold (label_items sm order path).
  assert (forall x, x ∈ label_items sm order path <-> x ∈ labels_of sm (list_to_set (entry_id <$> pc_path (copy_path path))) order) as Hin.
  { intros x. unfold label_items. by rewrite sort_labels_perm. }
  rewrite index_labels.
  - destruct (List.find _ _) as [x|] eqn:Ef.
    + apply List.find_some in Ef as [Hx E]. apply String.eqb_eq in E as <-. apply list_elem_of_In, Hin, labels_of_in in Hx as (_ & _ & H & _). done.
    + rewrite replay_no_labels, lookup_empty.
      * destruct (sm_labelsByID sm !! id) as [label|] eqn:El; [|done]. exfalso.
        set (x := {| lw_target := id; lw_label := label; lw_timestamp := default "" (sm_labelTimestampsByID sm !! id) |}).
        assert (x ∈ label_items sm order path) as Hx.
        { apply Hin, labels_of_in. cbn. split_and!; [apply (dr_keys _ _ _ _ Hd); eauto|by rewrite elem_of_list_to_set|done|done]. }
        apply list_elem_of_In in Hx. pose proof (List.find_none _ _ Ef x Hx) as Hf. cbn in Hf. by rewrite String.eqb_refl in Hf.
      * intros e He. destruct (copies_in _ _ _ Hcopy He) as (x & [_ Hx]%no_labels_in & _ & _ & _ & Hb).
        unfold is_label in *. destruct (se_Body x); try discriminate Hx; try by rewrite Hb. by destruct Hb as [k ->].
  - unfold label_items. rewrite (sort_labels_perm _).
    eapply sublist_NoDup; [apply Hd|]. apply labels_of_targets.
Qed.

(** The session holds the branch and its labels, and nothing else. *)
Lemma branched_only sm order draw path :
  plain path -> exists copies labels, sm_entries (branched sm order draw path) = copies ++ labels /\
    Forall2 copy_of (no_labels path) copies /\ forall e, e ∈ labels -> labels_entry_of sm path e.
Proof.
  intros Hp. pose proof (copied_spec path Hp) as Hcopy.
  eexists (pc_path (copy_path path)), _. split_and!; [unfold branched; by rewrite buildIndex_replay|done|].
  intros e He. apply label_entries_in in He as (x & Hx & Eb).
  rewrite (sort_labels_perm _) in Hx. apply labels_of_in in Hx as (_ & Hid & Hl & _).
  rewrite elem_of_list_to_set, (copies_ids _ _ Hcopy) in Hid. apply list_elem_of_fmap in Hid as (t & Et & [Ht Hnl]%no_labels_in).
  exists t, (lw_label x). rewrite <- Et. done.
Qed.

(** ** Property *)

(** C3: a session made from a branch of another says what the branch said:
    from a reachable session and an entry, [CreateBranchedSession] gives a
    well-formed session whose entries are the copies of the entries of the
    branch that are not labels, in their order, and after them label entries
    for entries of the branch, so nothing of the other branches; its context
    has the same messages, thinking level and model as the branch had,
    although label entries were dropped and compactions that kept entries from
    a label on were moved to the next entry; and every entry kept has the
    label it had.
    This holds when the contents hold no pointers, every message has a role,
    and the identifiers drawn are fresh. *)
Theorem branched_session_keeps_context {P : Platform} ok sm leafID path order draw persist :
  reachable ok sm -> branchFromUnlocked sm leafID = Some path -> path <> [] ->
  plain path -> named path -> drawn sm path order draw ->
  exists sm' r before after,
    CreateBranchedSession sm order draw persist leafID = Some (sm', r) /\ session_wf sm' /\
    (exists copies labels, sm_entries sm' = copies ++ labels /\ Forall2 copy_of (no_labels path) copies /\
      forall e, e ∈ labels -> labels_entry_of sm path e) /\
    buildSessionProjection (sm_entries sm) (Some leafID) (Some (sm_byID sm)) false = Some before /\
    manager_projection sm' = Some after /\
    sp_Messages after = sp_Messages before /\
    sp_ThinkingLevel after = sp_ThinkingLevel before /\ sp_Model after = sp_Model before /\
    (forall e, e ∈ path -> is_label e = false -> GetLabel sm' (entry_id e) = GetLabel sm (entry_id e)).
Proof.
  intros Hw%reachable_wf Hb Hne Hp Hr Hd. set (sm0 := with_leaf sm (Some leafID)).
  assert (valid_leaf sm (Some leafID)) as Hleaf.
  { intros id [= <-]. unfold branchFromUnlocked in Hb. destruct (sm_byID sm !! leafID); [eauto|]. cbn in Hb. congruence. }
  assert (session_wf sm0) as Hw0 by (by apply (wf_transport sm)).
  assert (GetBranch sm0 None = Some path) as Hb0 by exact Hb.
  destruct (branch_ok sm0 path Hw0 Hb0) as (Hok & Hsub & _).
  destruct (branched_wf sm order draw path Hw Hok) as [Hw' Hb']; [intros e He; by eapply elem_of_sublist|done|done|].
  destruct (branch_ok _ _ Hw' Hb') as (Hok' & _ & _).
  destruct (copied_projection path (label_entries draw 0 (entry_id <$> last (pc_path (copy_path path))) (label_items sm order path)) Hok Hp Hr Hok')
    as (head & tail & head' & tail' & Hs & Hs' & Hm).
  { intros e He. by eapply label_entries_spec. }
  exists (branched sm order draw path), (if persist then Ok "" else Err EPersist).
  exists (projection_of path head tail), (projection_of (branched_entries sm order draw path) head' tail'). split_and!.
  - unfold CreateBranchedSession. rewrite Hb. cbn [mbind option_bind]. by destruct path.
  - done.
  - by apply branched_only.
  - exact (manager_projects sm0 path head tail Hb0 Hs).
  - by apply manager_projects.
  - done.
  - cbn [projection_of sp_ThinkingLevel]. unfold branched_entries. rewrite copied_settings; [done|done|]. intros e He. by eapply label_entries_spec.
  - cbn [projection_of sp_Model]. unfold branched_entries. rewrite copied_settings; [done|done|]. intros e He. by eapply label_entries_spec.
  - intros e He Hl. apply branched_labels; [done|done|]. by apply list_elem_of_fmap_2, no_labels_in.
Qed.

(** ** Witness *)

Definition label_ops : list (Env * op) :=
  [(demo_env "a", OpMessage (demo_say "hi")); (demo_env "b", OpLabel "a" (Some "start"));
   (demo_env "c", OpMessage (demo_say "there")); (demo_env "d", OpCompaction "greetings" (Some "b") 10 ANil false None);
   (demo_env "e", OpMessage (demo_say "you")); (demo_env "x", OpBranch "c"); (demo_env "f", OpMessage (demo_say "not you"))].

#[local] Existing Instance demo_platform.

Definition run_labels : SessionManager :=
  foldl (fun sm eo => default sm (fst <$> run_op sm eo.1 eo.2)) newSession label_ops.

Lemma labels_reachable : reachable true run_labels.
Proof.
  unfold run_labels, label_ops. cbn [foldl fst snd].
  repeat (apply demo_step; [|vm_compute; reflexivity|reflexivity|vm_compute; eauto]). apply reach_new.
Qed.

Fixpoint tally (k : nat) : string := match k with O => "z" | S k => String.append "z" (tally k) end.

Lemma tally_inj i j : tally i = tally j -> i = j.
Proof.
  revert j. induction i as [|i IH]; intros [|j]; cbn; [done| | |].
  - intros [= E]. by destruct j.
  - intros [= E]. by destruct i.
  - intros [= E]. f_equal. auto.
Qed.

Lemma branched_session_keeps_context_witness :
  exists sm' r after, CreateBranchedSession run_labels ["a"] tally true "e" = Some (sm', r) /\
    manager_projection sm' = Some after /\
    sp_Messages after = [MCompactionSummary (value {| sy_Summary := "greetings"; sy_TokensBefore := 10; sy_Timestamp := 0 |});
                         demo_say "there"; demo_say "you"] /\
    GetLabel sm' "a" = Some "start".
Proof.
  set (path := default [] (branchFromUnlocked run_labels "e")).
  destruct (branched_session_keeps_context true run_labels "e" path ["a"] tally true labels_reachable)
    as (sm' & r & before & after & Hc & _ & _ & Hb & Ha & Hm & _ & _ & Hl).
  - vm_compute. reflexivity.
  - discriminate.
  - intros e He. vm_compute in He. repeat (apply elem_of_cons in He as [->|He]; [vm_compute; reflexivity|]). inversion He.
  - intros e m He Em. vm_compute in He.
    repeat (apply elem_of_cons in He as [->|He]; [cbn in Em; (discriminate Em || (injection Em as <-; discriminate))|]). inversion He.
  - split.
    + apply NoDup_singleton.
    + intros t. replace (sm_labelsByID run_labels) with (<["a" := "start"]> (∅ : gmap string string)) by (vm_compute; reflexivity).
      destruct (decide (t = "a")) as [->|Hne]; [intros _; left|]. rewrite lookup_insert_ne, lookup_empty by done. intros [? H]. discriminate H.
    + apply tally_inj.
    + intros i. split; [|by destruct i]. intros Hi. vm_compute (entry_id <$> path) in Hi.
      repeat (apply elem_of_cons in Hi as [Hi|Hi]; [destruct i; discriminate Hi|]). inversion Hi.
  - exists sm', r, after. split; [exact Hc|]. split; [exact Ha|]. split.
    + rewrite Hm. vm_compute in Hb. injection Hb as <-. reflexivity.
    + refine (eq_trans (Hl {| se_Base := {| eb_Type := "message"; eb_ID := "a"; eb_ParentID := None; eb_Timestamp := "t" |};
                              se_Body := BMessage (demo_say "hi") |} _ _) _); [vm_compute; left|reflexivity|vm_compute; reflexivity].
Defined.
