(* ===== verification/BranchSummary.v ===== *)
(** * Branch summaries ([internal/pi/compact/branch.go])

    Which entries a summary of an abandoned branch covers, and which of their
    messages fit the token budget.  [None] is a walk that does not end, or
    the panic of [MessageRole] on a nil message. *)

From S2P Require Import Prelude GoText PiModel SessionTree Transcript SessionContext SessionTreeProps Estimate Compaction CompactionCut CompactionPath SessionBranch.

(** ** Definitions *)

Record CollectEntriesResult := {
  cl_Entries : list SessionEntry;
  cl_CommonAncestorID : option string;
}.

(** The loop from the old leaf up to the common ancestor. *)
Fixpoint collect_up (sm : SessionManager) (ancestor : option string) (fuel : nat) (current : option string)
    (entries : list SessionEntry) : option (list SessionEntry) :=
  match current with
  | None => Some entries
  | Some id =>
      if bool_decide (ancestor = Some id) then Some entries
      else
        match GetEntry sm id with
        | None => Some entries
        | Some e =>
            match fuel with
            | O => None
            | S fuel => collect_up sm ancestor fuel (entry_parent e) (e :: entries)
            end
        end
  end.

Definition CollectEntriesForBranchSummary (session : SessionManager) (oldLeafID : option string) (targetID : string)
    : option CollectEntriesResult :=
  match oldLeafID with
  | None => Some {| cl_Entries := []; cl_CommonAncestorID := None |}
  | Some old =>
      oldBranch ← GetBranch session (Some old);
      targetPath ← GetBranch session (Some targetID);
      let oldPath : gset string := list_to_set (entry_id <$> oldBranch) in
      let common := entry_id <$> List.find (fun t => bool_decide (entry_id t ∈ oldPath)) (reverse targetPath) in
      entries ← collect_up session common (S (size (sm_byID session))) (Some old) [];
      Some {| cl_Entries := entries; cl_CommonAncestorID := common |}
  end.

(** The last message that is not a tool result. *)
Fixpoint last_spoken (reversed : list Message) : option (option Message) :=
  match reversed with
  | [] => Some None
  | m :: rest => role ← MessageRole m; if decide (role = RoleToolResult) then last_spoken rest else Some (Some m)
  end.

Section Prepare.
Context {P : Platform}.

Definition getMessageFromEntry (e : SessionEntry) : option (option Message) :=
  last_spoken (reverse (SessionEntryToContextMessages e)).

(** [branchSummaryDetailsLists]: a [BranchSummaryDetails] is the map it is
    written as. *)
Definition branchSummaryDetailsLists (details : any) : list string * list string := compactionDetailsLists details.

Definition summary_files (ops : FileOperations) (e : SessionEntry) : FileOperations :=
  match se_Body e with
  | BBranchSummary b =>
      if bs_FromHook b then ops
      else
        let lists := branchSummaryDetailsLists (bs_Details b) in
        mkOps (list_to_set lists.1 ∪ fo_Read ops) (fo_Written ops) (list_to_set lists.2 ∪ fo_Edited ops)
  | _ => ops
  end.

Record BranchPreparation := mkBranchPreparation {
  bp_Messages : list Message;
  bp_FileOps : FileOperations;
  bp_TotalTokens : Z;
}.

Definition is_summary (e : SessionEntry) : bool :=
  String.eqb (EntryType e) "compaction" || String.eqb (EntryType e) "branch_summary".

(** The loop over the entries from the last.  [float64] is exact here for
    budgets below [2^49]: [total < 0.9 * budget] is [10 * total < 9 * budget]. *)
Fixpoint select_messages (tokenBudget : Z) (reversed : list SessionEntry) (p : BranchPreparation) : option BranchPreparation :=
  match reversed with
  | [] => Some p
  | e :: rest =>
      found ← getMessageFromEntry e;
      match found with
      | None => select_messages tokenBudget rest p
      | Some message =>
          let ops := ExtractFileOpsFromMessage (bp_FileOps p) message in
          let tokens := EstimateMessageTokens message in
          let added := mkBranchPreparation (message :: bp_Messages p) ops (bp_TotalTokens p + tokens) in
          if (0 <? tokenBudget) && (tokenBudget <? bp_TotalTokens p + tokens) then
            Some (if is_summary e && (10 * bp_TotalTokens p <? 9 * tokenBudget) then added
                  else mkBranchPreparation (bp_Messages p) ops (bp_TotalTokens p))
          else select_messages tokenBudget rest added
      end
  end.

Definition PrepareBranchEntries (entries : list SessionEntry) (tokenBudget : Z) : option BranchPreparation :=
  select_messages tokenBudget (reverse entries)
    (mkBranchPreparation [] (foldl summary_files NewFileOperations entries) 0).
End Prepare.

(** ** Collecting *)

Lemma chain_prefix_unique sm A A' t :
  session_wf sm -> (forall x, x ∈ A -> x ∈ sm_entries sm) -> (forall x, x ∈ A' -> x ∈ sm_entries sm) ->
  chain None (A ++ [t]) -> chain None (A' ++ [t]) -> A = A'.
Proof.
  intros Hw. revert A' t. induction A as [|u A IH] using rev_ind; intros A' t HA HA' Hc Hc'.
  - apply path_snoc in Hc as [_ Hc], Hc' as [_ Hc']. rewrite Hc in Hc'. destruct (last A') eqn:El; [discriminate|].
    by apply last_None in El as ->.
  - apply path_snoc in Hc as [Hc Hp], Hc' as [Hc' Hp']. rewrite Hp, last_snoc in Hp'.
    destruct A' as [|u' A' _] using rev_ind; [discriminate|]. rewrite last_snoc in Hp'. injection Hp' as E.
    assert (u = u') as -> by (eapply same_id; [done|apply HA; set_solver|apply HA'; set_solver|done]).
    f_equal. apply (IH _ u'); [set_solver..|done|done].
Qed.

(** The last entry of a path with a property, if any. *)
Lemma find_last {A} (f : A -> bool) l :
  match List.find f (reverse l) with
  | Some t => exists before after, l = before ++ t :: after /\ f t = true /\ forall x, x ∈ after -> f x = false
  | None => forall x, x ∈ l -> f x = false
  end.
Proof.
  induction l as [|x l IH] using rev_ind; [intros x Hx; inversion Hx|]. rewrite reverse_snoc. cbn [List.find].
  destruct (f x) eqn:Ex.
  - exists l, []. split_and!; [done..|]. intros y Hy. inversion Hy.
  - destruct (List.find f (reverse l)) as [t|].
    + destruct IH as (b & a & -> & Ht & Ha). exists b, (a ++ [x]). split_and!; [by rewrite <- app_assoc|done|].
      intros y [Hy| ->%list_elem_of_singleton]%elem_of_app; auto.
    + intros y [Hy| ->%list_elem_of_singleton]%elem_of_app; auto.
Qed.

Lemma collect_up_spec sm common entries acc fuel :
  session_wf sm -> (forall x, x ∈ common ++ entries -> x ∈ sm_entries sm) -> chain None (common ++ entries) ->
  (forall x, x ∈ entries -> entry_id <$> last common <> Some (entry_id x)) -> (length entries <= fuel)%nat ->
  collect_up sm (entry_id <$> last common) fuel (entry_id <$> last (common ++ entries)) acc = Some (entries ++ acc).
Proof.
  intros Hw. revert acc fuel. induction entries as [|e entries IH] using rev_ind; intros acc fuel Hin Hc Hne Hf.
  - rewrite app_nil_r. destruct (last common) as [t|]; cbn; destruct fuel; cbn; by rewrite ?bool_decide_true.
  - rewrite length_app in Hf. cbn in Hf. destruct fuel as [|fuel]; [lia|].
    rewrite app_assoc, last_snoc. cbn [fmap option_fmap option_map collect_up].
    rewrite bool_decide_false by (apply Hne; set_solver). unfold GetEntry.
    rewrite (proj2 (wf_index _ Hw _ e)) by (split; [apply Hin; set_solver|done]).
    rewrite app_assoc in Hc. apply path_snoc in Hc as [Hc ->].
    replace (match last (common ++ entries) with Some l => Some (entry_id l) | None => None end)
      with (entry_id <$> last (common ++ entries)) by (by destruct (last (common ++ entries))).
    rewrite IH; [by rewrite <- app_assoc|set_solver|done|set_solver|lia].
Qed.

(** Two branches have a longest common beginning, found by its last entry. *)
Lemma split_common sm oldBranch targetPath :
  session_wf sm -> (forall x, x ∈ oldBranch -> x ∈ sm_entries sm) -> (forall x, x ∈ targetPath -> x ∈ sm_entries sm) ->
  NoDup oldBranch -> chain None oldBranch -> chain None targetPath ->
  exists common entries rest, oldBranch = common ++ entries /\ targetPath = common ++ rest /\
    entry_id <$> List.find (fun t => bool_decide (entry_id t ∈ (list_to_set (entry_id <$> oldBranch) : gset string))) (reverse targetPath) =
      entry_id <$> last common /\
    forall e, e ∈ entries -> e ∉ targetPath.
Proof.
  intros Hw Hin Hin' Hn Hc Hc'. set (f := fun t => bool_decide _). pose proof (find_last f targetPath) as Hf.
  assert (forall x, x ∈ targetPath -> f x = false -> x ∉ oldBranch) as Hno.
  { intros x _ Hx%bool_decide_eq_false Hold. apply Hx, elem_of_list_to_set. by apply list_elem_of_fmap_2. }
  destruct (List.find f (reverse targetPath)) as [t|].
  - destruct Hf as (b & a & -> & Ht & Ha). apply bool_decide_eq_true, elem_of_list_to_set, list_elem_of_fmap in Ht as (t' & E & Ht').
    assert (t = t') as <- by (eapply same_id; [done|apply Hin'; set_solver|by apply Hin|done]).
    apply list_elem_of_split in Ht' as (b' & a' & ->).
    assert (b' = b) as ->.
    { rewrite cons_middle, app_assoc in Hc, Hc'. apply chain_app in Hc as [Hc _], Hc' as [Hc' _].
      eapply chain_prefix_unique; [done| | |exact Hc|exact Hc']; [intros x Hx; apply Hin; set_solver|intros x Hx; apply Hin'; set_solver]. }
    exists (b ++ [t]), a', a. rewrite last_snoc, <- !app_assoc. split_and!; [done..|].
    intros e He Het. rewrite cons_middle, app_assoc in Het. apply elem_of_app in Het as [Het|Het].
    + rewrite cons_middle, app_assoc in Hn. apply NoDup_app in Hn as (_ & Hd & _).
      by apply (Hd e).
    + apply (Hno e); [set_solver|by apply Ha|set_solver].
  - exists [], oldBranch, targetPath. split_and!; [done..|]. intros e He Het. by apply (Hno e); [|apply Hf|].
Qed.

(** ** Selecting *)

(** The messages of entries from the last, the tokens of each. *)
Section Selecting.
Context {P : Platform}.

(** What each entry adds to a summary. *)
Definition says (e : SessionEntry) : list Message :=
  match getMessageFromEntry e with Some (Some m) => [m] | _ => [] end.

(** The total is within the budget, or the oldest message taken is a summary
    that goes beyond it while the rest is below nine tenths. *)
Definition within (budget : Z) (p : BranchPreparation) (oldest : option SessionEntry) : Prop :=
  budget <= 0 \/ bp_TotalTokens p <= budget \/
  exists m rest e, bp_Messages p = m :: rest /\ oldest = Some e /\ is_summary e = true /\
    10 * sum_of EstimateMessageTokens rest < 9 * budget.

(** Why nothing older was taken. *)
Definition stopped (budget : Z) (p : BranchPreparation) (oldest : option SessionEntry) (left : list SessionEntry) : Prop :=
  left = [] \/
  0 < budget /\
    ((exists e rest m, left = e :: rest /\ says e = [m] /\ budget < bp_TotalTokens p + EstimateMessageTokens m) \/
     (exists e, oldest = Some e /\ is_summary e = true /\ budget < bp_TotalTokens p)).

Lemma within_cons budget q e taken : within budget q (last taken) -> within budget q (last (e :: taken)).
Proof. destruct taken; [|done]. unfold within. intros [?|[?|(m & rest & x & _ & H & _)]]; [auto..|discriminate H]. Qed.

Lemma stopped_cons budget q e taken left : stopped budget q (last taken) left -> stopped budget q (last (e :: taken)) left.
Proof.
  destruct taken; [|done]. unfold stopped. intros [?|[? [?|(x & H & _)]]]; [auto|auto|discriminate H].
Qed.

(** The loop goes on after an entry: what it does later holds with the entry
    in front. *)
Ltac take_more IH Hsum :=
  match goal with
  | H : select_messages _ ?l _ = Some ?q, Hcons : context [concat], Hsays : says ?e = _ |- _ =>
      destruct (IH _ H Hsum) as (taken & left & -> & Em & Et & Hw & Hl);
      [|exists (e :: taken), left;
        split_and!; [done|by eapply Hcons; [| |rewrite Hsays]|done|by apply within_cons|by apply stopped_cons]]
  end.

Lemma select_spec budget l p q :
  select_messages budget l p = Some q -> bp_TotalTokens p = sum_of EstimateMessageTokens (bp_Messages p) ->
  bp_TotalTokens p <= budget \/ budget <= 0 ->
  exists taken left, l = taken ++ left /\
    bp_Messages q = concat (map says (reverse taken)) ++ bp_Messages p /\
    bp_TotalTokens q = sum_of EstimateMessageTokens (bp_Messages q) /\
    within budget q (last taken) /\ stopped budget q (last taken) left.
Proof.
  revert p. induction l as [|e l IH]; intros p H Ht Hb; cbn [select_messages] in H.
  - injection H as <-. exists [], []. split_and!; [done..| |by left]. unfold within. tauto.
  - apply bind_Some in H as (found & Hf & H).
    assert (says e = match found with Some m => [m] | None => [] end) as Hsays by (unfold says; rewrite Hf; by destruct found).
    assert (forall p' taken left, l = taken ++ left -> bp_Messages q = concat (map says (reverse taken)) ++ bp_Messages p' ->
      bp_Messages p' = says e ++ bp_Messages p -> bp_Messages q = concat (map says (reverse (e :: taken))) ++ bp_Messages p) as Hcons.
    { intros p' taken left _ E E'. by rewrite reverse_cons, map_app, concat_app, E, E', <- app_assoc; cbn [map concat]; rewrite app_nil_r. }
    destruct found as [m|].
    + assert (bp_TotalTokens p + EstimateMessageTokens m = sum_of EstimateMessageTokens (m :: bp_Messages p)) as Hsum
        by (rewrite sum_of_cons; lia).
      destruct (Z.ltb_spec 0 budget) as [Hpos|Hpos], (Z.ltb_spec budget (bp_TotalTokens p + EstimateMessageTokens m)) as [Hover|Hover];
        cbn [andb] in H; [destruct (is_summary e) eqn:Es, (Z.ltb_spec (10 * bp_TotalTokens p) (9 * budget)) as [Hlow|Hlow];
                          cbn [andb] in H; injection H as <-|..].
      * exists [e], l. cbn [bp_Messages bp_TotalTokens]. split_and!; [done|cbn; by rewrite Hsays|done|unfold within|unfold stopped].
        -- right. right. exists m, (bp_Messages p), e. split_and!; [done..|cbn [bp_TotalTokens]; lia].
        -- right. split; [done|]. right. by exists e.
      * exists [], (e :: l). split_and!; [done..|unfold within; cbn; lia|]. right. split; [done|]. left. by exists e, l, m.
      * exists [], (e :: l). split_and!; [done..|unfold within; cbn; lia|]. right. split; [done|]. left. by exists e, l, m.
      * exists [], (e :: l). split_and!; [done..|unfold within; cbn; lia|]. right. split; [done|]. left. by exists e, l, m.
      * take_more IH Hsum. cbn. lia.
      * take_more IH Hsum. cbn. lia.
      * take_more IH Hsum. cbn. lia.
    + by take_more IH Ht.
Qed.

End Selecting.

(** ** Properties *)

(** A branch summary covers what is left behind: with the branches of the
    old leaf and of the target, the entries collected are exactly the part of
    the old branch after its longest common beginning with the target's, in
    order; the common ancestor is the last entry of that beginning, and no
    collected entry is on the target's branch. *)
Theorem branch_summary_covers {P : Platform} ok sm old target oldBranch targetPath :
  reachable ok sm -> GetBranch sm (Some old) = Some oldBranch -> GetBranch sm (Some target) = Some targetPath ->
  exists common entries rest,
    CollectEntriesForBranchSummary sm (Some old) target =
      Some {| cl_Entries := entries; cl_CommonAncestorID := entry_id <$> last common |} /\
    oldBranch = common ++ entries /\ targetPath = common ++ rest /\ forall e, e ∈ entries -> e ∉ targetPath.
Proof.
  intros Hw%reachable_wf Hold Htarget. unfold CollectEntriesForBranchSummary. rewrite Hold, Htarget. cbn [mbind option_bind].
  destruct (branch_chain _ _ _ Hw Hold) as (Hc & Hs & Hl), (branch_chain _ _ _ Hw Htarget) as (Hc' & Hs' & _).
  assert (forall x, x ∈ oldBranch -> x ∈ sm_entries sm) as Hin by (intros x Hx; by eapply elem_of_sublist).
  assert (forall x, x ∈ targetPath -> x ∈ sm_entries sm) as Hin' by (intros x Hx; by eapply elem_of_sublist).
  assert (NoDup oldBranch) as Hn by (eapply sublist_NoDup; [apply (NoDup_fmap_1 entry_id), Hw|exact Hs]).
  destruct (split_common sm oldBranch targetPath Hw Hin Hin' Hn Hc Hc') as (common & entries & rest & -> & -> & Hfind & Hout).
  exists common, entries, rest. split_and!; [|done|done|done]. rewrite Hfind.
  destruct (sm_byID sm !! old) as [e|] eqn:Eold.
  - pose proof Eold as Hid. apply (wf_index _ Hw) in Hid as [_ Hid]. unfold start_of in Hl. cbn in Hl. rewrite Eold in Hl.
    replace (Some old) with (entry_id <$> last (common ++ entries)) by (by rewrite Hl, <- Hid).
    rewrite collect_up_spec; [by rewrite app_nil_r|done|done|done| |].
    + intros x Hx. destruct (last common) as [t|] eqn:Et; [|done]. cbn. intros [= E]. apply last_Some_elem_of in Et.
      assert (t = x) as -> by (eapply same_id; [done|apply Hin; set_solver|apply Hin; set_solver|done]).
      apply (Hout x Hx), elem_of_app. by left.
    + apply Nat.le_le_succ_r. etrans; [|by apply sublist_length in Hs; rewrite <- (entries_size sm Hw) in Hs].
      rewrite length_app. lia.
  - unfold start_of in Hl. cbn in Hl. rewrite Eold in Hl. apply last_None, app_nil in Hl as [-> ->].
    cbn. unfold GetEntry. by rewrite Eold.
Qed.

(** A summary's messages are what the newest entries say, within the token
    budget but for one older summary, and nothing older fits. *)
Theorem branch_summary_budget {P : Platform} entries budget q :
  PrepareBranchEntries entries budget = Some q ->
  exists skipped taken, entries = skipped ++ taken /\ bp_Messages q = concat (map says taken) /\
    bp_TotalTokens q = sum_of EstimateMessageTokens (bp_Messages q) /\
    within budget q (head taken) /\ stopped budget q (head taken) (reverse skipped).
Proof.
  unfold PrepareBranchEntries. intros H.
  destruct (select_spec _ _ _ _ H) as (taken & left & E & Em & Et & Hw & Hl); [done|cbn; lia|].
  exists (reverse left), (reverse taken). rewrite !reverse_involutive, head_reverse.
  split_and!; [by rewrite <- reverse_app, <- E, reverse_involutive|by rewrite Em, app_nil_r|done|done|done].
Qed.

(** ** Witness and example *)

#[local] Existing Instance demo_platform.

Lemma branch_summary_covers_witness :
  exists r, CollectEntriesForBranchSummary run_labels (Some "f") "e" = Some r /\
    entry_id <$> cl_Entries r = ["f"] /\ cl_CommonAncestorID r = Some "c".
Proof.
  destruct (branch_summary_covers true run_labels "f" "e" (default [] (GetBranch run_labels (Some "f")))
    (default [] (GetBranch run_labels (Some "e"))) labels_reachable) as (common & entries & rest & H & Hold & Htarget & _).
  - vm_compute. reflexivity.
  - vm_compute. reflexivity.
  - exists {| cl_Entries := entries; cl_CommonAncestorID := entry_id <$> last common |}. split; [exact H|].
    assert ((fun r => (entry_id <$> cl_Entries r, cl_CommonAncestorID r)) <$> CollectEntriesForBranchSummary run_labels (Some "f") "e" =
      Some (["f"], Some "c")) as E by (vm_compute; reflexivity).
    rewrite H in E. apply (inj Some), pair_equal_spec in E. exact E.
Defined.

(** The file operations of entries older than the last one that fits are not
    collected: a file the assistant read first is not among them. *)
Definition reading : Message :=
  MAssistant (value {| am_Content := Some [Call (value {| tl_ID := "1"; tl_Name := "read"; tl_Arguments := Some [("path", AString "f")];
                                                          tl_ThoughtSignature := ""; tl_Namespace := "" |})];
                       am_Api := "a"; am_Provider := "p"; am_Model := "m";
                       am_Usage := {| us_Input := 0; us_Output := 0; us_CacheRead := 0; us_CacheWrite := 0; us_CacheWrite1h := 0;
                                      us_Reasoning := 0; us_TotalTokens := 0 |};
                       am_StopReason := StopStop; am_ErrorMessage := ""; am_Timestamp := 1; am_Rest := ANil |}).

Definition reading_entries : list SessionEntry :=
  [new_entry newSession (demo_env "a") (BMessage reading); new_entry newSession (demo_env "b") (BMessage (demo_say "go on with the rest"));
   new_entry newSession (demo_env "c") (BMessage (demo_say "thanks"))].

Lemma older_file_operations_lost :
  (fun p => elements (fo_Read (bp_FileOps p))) <$> PrepareBranchEntries reading_entries 3 = Some [] /\
  (fun p => elements (fo_Read (bp_FileOps p))) <$> PrepareBranchEntries reading_entries 0 = Some ["f"].
Proof. split; vm_compute; reflexivity. Qed.
