(* ===== verification/AgentModel.v ===== *)
(** * The data and the effects of the agent loop ([internal/pi/model/agent.go],
    [internal/pi/agent])

    The loop calls back into its caller at every turn: hooks, tools, the
    provider's stream, the sink of its events.  Whatever they do is a function
    of the world [W], of which the loop knows nothing.  A hook may panic; a
    tool and a stream are run in steps, so that tools can be interleaved. *)

From S2P Require Import Prelude GoText PiModel TransformMessages.

(** ** Data ([agent.go], [events.go]) *)

Record BeforeToolCallResult := { bt_Block : bool; bt_Reason : string; bt_Terminate : bool }.

(** [Content] with [HasContent], [Details] with [HasDetails]. *)
Record AfterToolCallResult := {
  at_Content : option ContentList;
  at_Details : option any;
  at_IsError : option bool;
  at_Usage : option Usage;
  at_Terminate : option bool;
}.

Record AgentToolResult := {
  ar_Content : ContentList;
  ar_Details : any;
  ar_Usage : option Usage;
  ar_Terminate : bool;
}.

Inductive EventType :=
| EventStart
| EventTextStart | EventTextDelta | EventTextEnd
| EventThinkingStart | EventThinkingDelta | EventThinkingEnd
| EventToolCallStart | EventToolCallDelta | EventToolCallEnd
| EventDone | EventError
| EventOther (name : string).

(** [ae_Rest] holds the fields the loop only passes on. *)
Record AssistantMessageEvent := {
  ae_Type : EventType;
  ae_Partial : option AssistantMessage;
  ae_Message : option AssistantMessage;
  ae_Error : option AssistantMessage;
  ae_Rest : any;
}.

(** One constructor per [AgentEventType], with the fields it carries. *)
Inductive AgentEvent :=
| EvAgentStart
| EvAgentEnd (messages : list Message)
| EvTurnStart
| EvTurnEnd (message : Message) (toolResults : list ToolResultMessage)
| EvMessageStart (message : Message)
| EvMessageUpdate (message : Message) (event : AssistantMessageEvent)
| EvMessageEnd (message : Message)
| EvToolExecutionStart (toolCallID toolName : string) (args : JsonObject)
| EvToolExecutionUpdate (toolCallID toolName : string) (args : JsonObject) (partialResult : AgentToolResult)
| EvToolExecutionEnd (toolCallID toolName : string) (toolResult : AgentToolResult) (isError : bool).

Inductive ToolExecutionMode := ToolSequential | ToolParallel | ToolDefault.

#[export] Instance ToolExecutionMode_eq_dec : EqDecision ToolExecutionMode.
Proof. solve_decision. Defined.

(** [model.SimpleStreamOptions], less what the loop only passes on. *)
Record StreamOptions := { so_Reasoning : string; so_APIKey : string; so_Rest : any }.

Definition ThinkingOff : string := "off".
Definition TurnContinue : string := "continue".
Definition TurnEnd : string := "end".

(** ** What the loop calls *)

(** A call of the caller's code: a result, or a panic with the text that
    [panicMessage] renders. *)
Definition Hook (W A : Type) : Type := W -> result string A * W.

(** A run of a tool.  [Working] changes the world, [Updating] calls
    [onUpdate]; it ends with a result, an error or a panic.  Other goroutines
    run between the steps. *)
Inductive ToolRun (W : Type) : Type :=
| Working (work : W -> W) (next : W -> ToolRun W)
| Updating (partial : AgentToolResult) (next : ToolRun W)
| Returned (res : AgentToolResult)
| Failed (message : string)
| Crashed (message : string).
Arguments Working {W}.
Arguments Updating {W}.
Arguments Returned {W}.
Arguments Failed {W}.
Arguments Crashed {W}.

(** A provider's stream: [Waiting] until something arrives, then an event, the
    end ([io.EOF]) or an error of [Recv]. *)
Inductive Stream (W : Type) : Type :=
| Waiting (work : W -> W) (next : W -> Stream W)
| Received (event : AssistantMessageEvent) (next : Stream W)
| EndOfStream
| Broken (message : string).
Arguments Waiting {W}.
Arguments Received {W}.
Arguments EndOfStream {W}.
Arguments Broken {W}.

(** A nil function is [None].  [Execute] is a run for each call identifier and
    arguments. *)
Record AgentTool (W : Type) := {
  tool_Name : string;
  tool_Description : string;
  tool_Parameters : any;
  tool_Label : string;
  tool_ExecutionMode : ToolExecutionMode;
  tool_PrepareArguments : option (JsonObject -> Hook W JsonObject);
  tool_ConstrainedSampling : option any;
  tool_Execute : string -> JsonObject -> ToolRun W;
}.
Arguments tool_Name {W}.
Arguments tool_Description {W}.
Arguments tool_Parameters {W}.
Arguments tool_Label {W}.
Arguments tool_ExecutionMode {W}.
Arguments tool_PrepareArguments {W}.
Arguments tool_ConstrainedSampling {W}.
Arguments tool_Execute {W}.

Definition AsTool {W} (t : AgentTool W) : Tool :=
  {| to_Name := tool_Name t; to_Description := tool_Description t; to_Parameters := tool_Parameters t;
     to_ConstrainedSampling := tool_ConstrainedSampling t |}.

Record AgentContext (W : Type) := mkContext {
  ac_Messages : list Message;
  ac_Tools : list (AgentTool W);
}.
Arguments mkContext {W}.
Arguments ac_Messages {W}.
Arguments ac_Tools {W}.

(** The pointer [Context] of the code is the context at the time of the call:
    hooks read it, and change it by what they return.  The map [Args] is the
    one the tool will get, and the hook may change it in place. *)
Record BeforeToolCallContext (W : Type) := {
  bc_AssistantMessage : AssistantMessage;
  bc_ToolCall : ToolCall;
  bc_Args : JsonObject;
  bc_Context : AgentContext W;
}.
Arguments bc_AssistantMessage {W}.
Arguments bc_ToolCall {W}.
Arguments bc_Args {W}.
Arguments bc_Context {W}.

Record AfterToolCallContext (W : Type) := {
  af_AssistantMessage : AssistantMessage;
  af_ToolCall : ToolCall;
  af_Args : JsonObject;
  af_Result : AgentToolResult;
  af_IsError : bool;
  af_Context : AgentContext W;
}.

Record AgentTurnContext (W : Type) := {
  tn_Message : AssistantMessage;
  tn_ToolResults : list ToolResultMessage;
  tn_Context : AgentContext W;
  tn_NewMessages : list Message;
}.
Arguments tn_Message {W}.
Arguments tn_ToolResults {W}.
Arguments tn_Context {W}.
Arguments tn_NewMessages {W}.

Record AgentRequestUpdate (W : Type) := {
  ru_Context : option (AgentContext W);
  ru_Model : option Model;
  ru_ThinkingLevel : option string;
}.
Arguments ru_Context {W}.
Arguments ru_Model {W}.
Arguments ru_ThinkingLevel {W}.

Record AgentLoopTurnUpdate (W : Type) := {
  tu_Update : AgentRequestUpdate W;
  tu_Messages : list Message;
}.
Arguments tu_Update {W}.
Arguments tu_Messages {W}.

Record PrepareRequestContext (W : Type) := {
  rq_Context : AgentContext W;
  rq_Model : option Model;
  rq_ThinkingLevel : string;
}.

(** Nil hooks are [None]; a nil model is [None].  The hook before a call
    returns its answer and the arguments as it left them. *)
Record AgentLoopConfig (W : Type) := mkConfig {
  cf_Model : option Model;
  cf_Reasoning : string;
  cf_Options : StreamOptions;
  cf_ToolExecution : ToolExecutionMode;
  cf_ConvertToLlm : option (list Message -> Hook W (list Message));
  cf_TransformContext : option (list Message -> Hook W (list Message));
  cf_GetApiKey : option (string -> Hook W string);
  cf_BeforeToolCall : option (BeforeToolCallContext W -> Hook W (option BeforeToolCallResult * JsonObject));
  cf_AfterToolCall : option (AfterToolCallContext W -> Hook W (option AfterToolCallResult));
  cf_FinishTurn : option (AgentTurnContext W -> Hook W string);
  cf_PrepareRequest : option (PrepareRequestContext W -> Hook W (option (AgentRequestUpdate W)));
  cf_PrepareNextTurn : option (AgentTurnContext W -> Hook W (option (AgentLoopTurnUpdate W)));
  cf_GetSteeringMessages : option (Hook W (list Message));
  cf_GetFollowUpMessages : option (Hook W (list Message));
}.
Arguments cf_Model {W}.
Arguments cf_Reasoning {W}.
Arguments cf_Options {W}.
Arguments cf_ToolExecution {W}.
Arguments cf_ConvertToLlm {W}.
Arguments cf_TransformContext {W}.
Arguments cf_GetApiKey {W}.
Arguments cf_BeforeToolCall {W}.
Arguments cf_AfterToolCall {W}.
Arguments cf_FinishTurn {W}.
Arguments cf_PrepareRequest {W}.
Arguments cf_PrepareNextTurn {W}.
Arguments cf_GetSteeringMessages {W}.
Arguments cf_GetFollowUpMessages {W}.

(** The rest of what a run depends on: the sink (an error aborts the run), the
    context's cancellation, the clock, the provider's stream function, the
    validation of tool arguments ([validation.go]), the JSON of a tool's
    declaration ([None] when [json.Marshal] fails), for [n] goroutines which of
    them takes each step, and the updates a tool's own goroutines still ask for
    when its run for a call is over. *)
Class Runtime (W : Type) := {
  rt_emit : AgentEvent -> W -> option string * W;
  rt_cancelled : W -> bool * W;
  rt_now : W -> Z * W;
  rt_stream : option (option Model -> list Message -> StreamOptions -> Hook W (result string (option (Stream W))));
  rt_validate : Tool -> ToolCall -> result string JsonObject;
  rt_tool_json : Tool -> option string;
  rt_schedule : nat -> W -> list nat * W;
  rt_late : ToolCall -> W -> list AgentToolResult * W;
}.

(** ** The monad of a run

    The events given to the sink so far, the world, and for statements whether
    the run has found its context cancelled; a run stops early with what
    [mustEmit] panics with, or another panic. *)

Record Run (W : Type) := mkRun { r_events : list AgentEvent; r_world : W; r_seen : bool }.
Arguments mkRun {W}.
Arguments r_events {W}.
Arguments r_world {W}.
Arguments r_seen {W}.

Definition in_world {W} (w : W) (r : Run W) : Run W := mkRun (r_events r) w (r_seen r).

Inductive raised :=
| EmitFailed (message : string)
| Panicked (message : string).

Definition M (W A : Type) : Type := Run W -> result raised A * Run W.

#[export] Instance M_ret W : MRet (M W) := fun A a r => (Ok a, r).
#[export] Instance M_bind W : MBind (M W) := fun A B k m r =>
  match m r with
  | (Ok a, r) => k a r
  | (Err x, r) => (Err x, r)
  end.

Section Effects.
Context {W : Type}.

Definition raise {A} (x : raised) : M W A := fun r => (Err x, r).

(** A computation on the world alone. *)
Definition lift {A} (f : W -> A * W) : M W A := fun r =>
  let (a, w) := f (r_world r) in (Ok a, in_world w r).

Definition call {A} (h : Hook W A) : M W A := fun r =>
  match h (r_world r) with
  | (Ok a, w) => (Ok a, in_world w r)
  | (Err v, w) => (Err (Panicked v), in_world w r)
  end.

(** [defer func() { recover() ... }()]: a panic becomes a value, the panic of
    [mustEmit] goes on. *)
Definition recovering {A} (m : M W A) (handler : string -> A) : M W A := fun r =>
  match m r with
  | (Err (Panicked v), r) => (Ok (handler v), r)
  | x => x
  end.

Context {R : Runtime W}.

Definition emit (event : AgentEvent) : M W (option string) := fun r =>
  let (err, w) := rt_emit event (r_world r) in (Ok err, mkRun (r_events r ++ [event]) w (r_seen r)).

Definition mustEmit (event : AgentEvent) : M W unit :=
  err ← emit event;
  match err with None => mret tt | Some e => raise (EmitFailed e) end.

Definition aborted : M W bool := fun r =>
  let (b, w) := rt_cancelled (r_world r) in (Ok b, mkRun (r_events r) w (r_seen r || b)).

Definition nowMillis : M W Z := lift rt_now.
End Effects.
