(* ===== verification/ToolState.v ===== *)
(** * Tool changes of a transcript ([transcript.go], [declareToolChanges] of
    [internal/pi/agent/loop.go])

    Before a request the loop compares the tools a transcript declares with
    those it can execute, and declares the difference in a system message. *)

From S2P Require Import Prelude GoText PiModel TransformMessages Transcript AgentModel.

(** ** Definitions *)

(** *** Differences of tool states ([transcript.go]) *)

Definition ToToolDeclaration (tool : Tool) : Tool :=
  {| to_Name := to_Name tool; to_Description := to_Description tool; to_Parameters := to_Parameters tool;
     to_ConstrainedSampling := to_ConstrainedSampling tool |}.

Record ToolStateChanges := { ts_ToolsAdded : list Tool; ts_ToolsRemoved : list string }.

Definition no_changes : ToolStateChanges := {| ts_ToolsAdded := []; ts_ToolsRemoved := [] |}.

Section State.
Context {W : Type} {R : Runtime W}.

Definition DeclarationsEqual (left right : Tool) : bool :=
  match rt_tool_json (ToToolDeclaration left) with
  | None => false
  | Some l =>
      match rt_tool_json (ToToolDeclaration right) with
      | None => false
      | Some r => String.eqb l r
      end
  end.

Definition tools_by_name (tools : list Tool) : toolMap := foldl tm_set newToolMap tools.

(** [!ok || !DeclarationsEqual(...)] *)
Definition changed_from (m : toolMap) (equal : Tool -> bool) (name : string) : bool :=
  match tm_byName m !! name with None => true | Some t => negb (equal t) end.

Definition GetToolStateChanges (previous current : list Tool) : ToolStateChanges :=
  let previousTools := tools_by_name previous in
  let currentTools := tools_by_name current in
  {| ts_ToolsAdded :=
       ToToolDeclaration <$>
         List.filter (fun t => changed_from previousTools (fun p => DeclarationsEqual p t) (to_Name t)) current;
     ts_ToolsRemoved :=
       to_Name <$>
         List.filter (fun t => changed_from currentTools (fun c => DeclarationsEqual t c) (to_Name t)) previous |}.

Fixpoint redefines (declared : toolMap) (tools : list Tool) : toolMap + unit :=
  match tools with
  | [] => inl declared
  | t :: rest =>
      match tm_byName declared !! to_Name t with
      | Some p => if DeclarationsEqual p t then redefines (tm_set declared t) rest else inr ()
      | None => redefines (tm_set declared t) rest
      end
  end.

Fixpoint redefinitions (declared : toolMap) (l : list SystemMessage) : bool :=
  match l with
  | [] => false
  | s :: rest =>
      match redefines declared (sm_ToolsAdded s) with
      | inr _ => true
      | inl declared => redefinitions declared rest
      end
  end.

Definition HasToolRedefinitions (messages : list Message) : bool := redefinitions newToolMap (systems messages).

(** *** [declareToolChanges] *)

Definition withToolChanges (message : SystemMessage) (changes : ToolStateChanges) : SystemMessage :=
  {| sm_Content := sm_Content message; sm_Sections := sm_Sections message; sm_ToolsAdded := ts_ToolsAdded changes;
     sm_ToolsRemoved := ts_ToolsRemoved changes; sm_Timestamp := sm_Timestamp message;
     sm_contentWasString := sm_contentWasString message |}.

(** The last system message with its index, [slices.Backward]. *)
Fixpoint last_system (pending : list Message) : option (nat * SystemMessage) :=
  match pending with
  | [] => None
  | p :: rest =>
      match last_system rest with
      | Some (i, s) => Some (S i, s)
      | None => (fun s => (O, s)) <$> systemMessageOf p
      end
  end.

(** [slices.IndexFunc], the length when there is none; [None] is the panic of
    [MessageRole]. *)
Fixpoint first_non_system (pending : list Message) : option nat :=
  match pending with
  | [] => Some O
  | p :: rest =>
      role ← MessageRole p;
      if decide (role = RoleSystem) then S <$> first_non_system rest else Some O
  end.

Definition nil_dereference : string := "runtime error: invalid memory address or nil pointer dereference".

(** A computation that panics with a nil dereference. *)
Definition or_panic {A} (o : option A) : M W A :=
  match o with Some a => mret a | None => raise (Panicked nil_dereference) end.

Definition is_empty {A} (l : list A) : bool := match l with [] => true | _ => false end.

Definition declareToolChanges (agentCtx : AgentContext W) (pending : list Message) : M W (list Message) :=
  let found := last_system pending in
  let baseline :=
    match found with
    | Some (systemIndex, system) => <[systemIndex := MSystem (value (withToolChanges system no_changes))]> pending
    | None => pending
    end in
  let executable := (fun tool => ToToolDeclaration (AsTool tool)) <$> ac_Tools agentCtx in
  let changes := GetToolStateChanges (GetCurrentTools (ac_Messages agentCtx ++ baseline)) executable in
  let unchanged := is_empty (ts_ToolsAdded changes) && is_empty (ts_ToolsRemoved changes) in
  match found with
  | Some (systemIndex, system) =>
      if unchanged && is_empty (sm_ToolsAdded system) && is_empty (sm_ToolsRemoved system) then mret pending
      else mret (<[systemIndex := MSystem (value (withToolChanges system changes))]> baseline)
  | None =>
      if unchanged then mret pending
      else
        now ← nowMillis;
        let update := withToolChanges (NewSystemText "" now) changes in
        index ← or_panic (first_non_system pending);
        mret (take index pending ++ [MSystem (value update)] ++ drop index pending)
  end.
End State.

(** ** Tool maps *)

Section Maps.
Context {W : Type} {R : Runtime W}.

Lemma declaration_id t : ToToolDeclaration t = t.
Proof. by destruct t. Qed.

Lemma set_lookup l m n :
  NoDup (to_Name <$> l) ->
  tm_byName (foldl tm_set m l) !! n = match List.find (fun t => String.eqb (to_Name t) n) l with Some t => Some t | None => tm_byName m !! n end.
Proof.
  revert m. induction l as [|t l IH]; intros m Hn; [done|]. rewrite fmap_cons in Hn. apply NoDup_cons in Hn as [Ht Hn].
  cbn [foldl List.find]. rewrite IH by done. cbn. destruct (String.eqb_spec (to_Name t) n) as [<-|Hne]; [|by rewrite lookup_insert_ne].
  destruct (List.find _ l) as [t'|] eqn:E; [|by rewrite lookup_insert_eq].
  apply find_some in E as [Hin E%String.eqb_eq]. exfalso. apply Ht. rewrite <- E. by apply list_elem_of_fmap_2, list_elem_of_In.
Qed.

Lemma delete_lookup l m n :
  tm_byName (foldl tm_delete m l) !! n = if decide (n ∈ l) then None else tm_byName m !! n.
Proof.
  revert m. induction l as [|x l IH]; intros m; cbn [foldl]; [by rewrite decide_False by (intros H; inversion H)|].
  rewrite IH. destruct (decide (n ∈ l)) as [Hl|Hl]; [by rewrite decide_True by (by right)|].
  unfold tm_delete. destruct (decide (n = x)) as [->|Hne].
  - rewrite decide_True by left. destruct (tm_byName m !! x) eqn:E; [|done]. cbn. apply lookup_delete_eq.
  - rewrite decide_False by set_solver. destruct (tm_byName m !! x); [|done]. cbn. by apply lookup_delete_ne.
Qed.

(** The tool a list holds under a name. *)
Definition named (l : list Tool) (n : string) : option Tool := List.find (fun t => String.eqb (to_Name t) n) l.

Lemma named_spec l n t : NoDup (to_Name <$> l) -> named l n = Some t <-> t ∈ l /\ to_Name t = n.
Proof.
  intros Hn. unfold named. split; [by intros [?%list_elem_of_In ?%String.eqb_eq]%find_some|].
  intros [Hin <-]. induction l as [|x l IH]; [inversion Hin|]. rewrite fmap_cons in Hn. apply NoDup_cons in Hn as [Hx Hn].
  cbn [List.find]. apply elem_of_cons in Hin as [<-|Hin]; [by rewrite String.eqb_refl|].
  destruct (String.eqb_spec (to_Name x) (to_Name t)) as [E|]; [|auto]. exfalso. apply Hx. rewrite E. by apply list_elem_of_fmap_2.
Qed.

Lemma by_name_lookup l n : NoDup (to_Name <$> l) -> tm_byName (tools_by_name l) !! n = named l n.
Proof. intros Hn. unfold tools_by_name. rewrite set_lookup by done. by destruct (named l n) eqn:E; unfold named in E; rewrite E. Qed.

Lemma values_elem m t : tools_wf m -> t ∈ tm_values m <-> tm_byName m !! to_Name t = Some t.
Proof.
  intros [Hn Hd He]. unfold tm_values. rewrite list_elem_of_fmap. split.
  - intros (n & -> & Hin%Hd). destruct Hin as [x Hx]. rewrite Hx. cbn. by rewrite (He _ _ Hx).
  - intros H. exists (to_Name t). rewrite H. split; [done|]. apply Hd. eauto.
Qed.

Lemma values_nodup m : tools_wf m -> NoDup (to_Name <$> tm_values m).
Proof. intros H. rewrite values_names by done. apply H. Qed.

Lemma named_values m n : tools_wf m -> named (tm_values m) n = tm_byName m !! n.
Proof.
  intros Hw. destruct (tm_byName m !! n) as [t|] eqn:E.
  - apply named_spec; [by apply values_nodup|]. pose proof (tw_name _ Hw _ _ E) as <-. by rewrite values_elem.
  - destruct (named (tm_values m) n) as [t|] eqn:E2; [|done]. apply named_spec in E2 as [H <-]; [|by apply values_nodup].
    apply values_elem in H; [congruence|done].
Qed.

Lemma changed_iff m l f n : NoDup (to_Name <$> l) -> tm_byName m !! n = named l n -> changed_from (tools_by_name l) f n = changed_from m f n.
Proof. intros Hn E. unfold changed_from. by rewrite by_name_lookup, E. Qed.

Lemma filter_names (f : Tool -> bool) l : NoDup (to_Name <$> l) -> NoDup (to_Name <$> List.filter f l).
Proof.
  induction l as [|t l IH]; intros Hn; [constructor|]. rewrite fmap_cons in Hn. apply NoDup_cons in Hn as [Ht Hn].
  cbn. case_match; [|auto]. rewrite fmap_cons. constructor; [|auto].
  intros (x & E & [Hx _]%list_elem_of_In%filter_In)%list_elem_of_fmap. apply Ht. rewrite E. by apply list_elem_of_fmap_2, list_elem_of_In.
Qed.

Lemma named_filter (f : Tool -> bool) l n :
  NoDup (to_Name <$> l) -> named (List.filter f l) n = match named l n with Some t => if f t then Some t else None | None => None end.
Proof.
  intros Hn. destruct (named l n) as [t|] eqn:E.
  - apply named_spec in E as [Hin <-]; [|done]. destruct (f t) eqn:Ef.
    + apply named_spec; [by apply filter_names|]. by rewrite list_elem_of_In, filter_In, <- list_elem_of_In.
    + destruct (named (List.filter f l) (to_Name t)) as [x|] eqn:Ex; [|done].
      apply named_spec in Ex as [[Hx Hfx]%list_elem_of_In%filter_In Enx]; [|by apply filter_names].
      assert (named l (to_Name t) = Some x) as E1 by (apply named_spec; [done|by rewrite list_elem_of_In]).
      assert (named l (to_Name t) = Some t) as E2 by (by apply named_spec). congruence.
  - destruct (named (List.filter f l) n) as [x|] eqn:Ex; [|done].
    apply named_spec in Ex as [[Hx _]%list_elem_of_In%filter_In Enx]; [|by apply filter_names].
    assert (named l n = Some x) as E1 by (apply named_spec; [done|by rewrite list_elem_of_In]). congruence.
Qed.

(** What applying the difference leaves under each name. *)
Lemma changes_lookup m executable n :
  tools_wf m -> NoDup (to_Name <$> executable) ->
  let changes := GetToolStateChanges (tm_values m) executable in
  tm_byName (foldl tm_set (foldl tm_delete m (ts_ToolsRemoved changes)) (ts_ToolsAdded changes)) !! n =
    match named executable n with
    | None => None
    | Some t => match tm_byName m !! n with
                | Some p => if DeclarationsEqual p t then Some p else Some t
                | None => Some t
                end
    end.
Proof.
  intros Hw Hn. cbn zeta. unfold GetToolStateChanges. cbn [ts_ToolsAdded ts_ToolsRemoved].
  set (added := List.filter _ executable). set (removed := List.filter _ (tm_values m)).
  assert (ToToolDeclaration <$> added = added) as ->
    by (rewrite <- (list_fmap_id added) at 2; apply list_fmap_ext; intros; apply declaration_id).
  assert (named added n = match named executable n with
    | Some t => if changed_from m (fun p => DeclarationsEqual p t) (to_Name t) then Some t else None | None => None end) as Ha.
  { unfold added. rewrite named_filter by done. destruct (named executable n); [|done].
    rewrite (changed_iff m); [done|by apply values_nodup|by rewrite named_values]. }
  assert (n ∈ to_Name <$> removed <-> exists p, tm_byName m !! n = Some p /\
    match named executable n with Some t => DeclarationsEqual p t = false | None => True end) as Hr.
  { rewrite list_elem_of_fmap. unfold removed. setoid_rewrite list_elem_of_In. setoid_rewrite filter_In. split.
    - intros (p & -> & Hp & Hc). apply list_elem_of_In, values_elem in Hp; [|done]. exists p. split; [done|].
      unfold changed_from in Hc. rewrite by_name_lookup in Hc by done. destruct (named executable (to_Name p)); [|done].
      by apply negb_true_iff in Hc.
    - intros (p & Hp & Hc). pose proof (tw_name _ Hw _ _ Hp) as <-. exists p. split_and!; [done|by apply list_elem_of_In, values_elem|].
      unfold changed_from. rewrite by_name_lookup by done. destruct (named executable (to_Name p)); [|done]. by rewrite Hc. }
  rewrite set_lookup by (by apply filter_names). fold (named added n). rewrite Ha, delete_lookup.
  destruct (named executable n) as [t|] eqn:Et.
  - pose proof Et as [Hin Ent]%named_spec; [|done]. unfold changed_from. rewrite Ent. destruct (tm_byName m !! n) as [p|]; [|done].
    destruct (DeclarationsEqual p t) eqn:Eq; [|done]. cbn. rewrite decide_False; [done|]. intros (p' & [= <-] & Hc)%Hr. congruence.
  - destruct (decide (n ∈ to_Name <$> removed)) as [|Hnr]; [done|]. destruct (tm_byName m !! n) as [p|]; [|done].
    exfalso. apply Hnr, Hr. by exists p.
Qed.

(** ** The last system message *)

Definition non_system (m : Message) : bool := match systemMessageOf m with Some _ => false | None => true end.

Lemma last_system_spec pending :
  match last_system pending with
  | Some (i, s) => exists a p b, pending = a ++ p :: b /\ length a = i /\ systemMessageOf p = Some s /\ systems b = []
  | None => systems pending = []
  end.
Proof.
  induction pending as [|p rest IH]; [done|]. cbn [last_system]. destruct (last_system rest) as [[i s]|].
  - destruct IH as (a & q & b & -> & <- & Hq & Hb). by exists (p :: a), q, b.
  - unfold systems in *. cbn. destruct (systemMessageOf p) as [s|] eqn:E; cbn; [|by rewrite IH]. by exists [], p, rest.
Qed.

Lemma insert_middle {A} (a : list A) p b x : <[length a := x]> (a ++ p :: b) = a ++ x :: b.
Proof. induction a as [|y a IH]; [done|]. cbn. by f_equal. Qed.

Lemma systems_app a b : systems (a ++ b) = systems a ++ systems b.
Proof. apply omap_app. Qed.

Lemma systems_cons s l : systems (MSystem (value s) :: l) = s :: systems l.
Proof. done. Qed.

Lemma apply_no_changes m s : apply_tools m (withToolChanges s no_changes) = m.
Proof. done. Qed.

Lemma is_empty_nil {A} (l : list A) : is_empty l = true -> l = [].
Proof. by destruct l. Qed.

(** What [declareToolChanges] returns: the messages with the difference
    applied after what they and the transcript say. *)
Lemma declare_spec (agentCtx : AgentContext W) pending r out r' :
  declareToolChanges agentCtx pending r = (Ok out, r') ->
  List.filter non_system out = List.filter non_system pending /\
  exists m, tools_wf m /\
    let changes := GetToolStateChanges (tm_values m) (AsTool <$> ac_Tools agentCtx) in
    foldl apply_tools newToolMap (systems (ac_Messages agentCtx ++ out)) =
      foldl tm_set (foldl tm_delete m (ts_ToolsRemoved changes)) (ts_ToolsAdded changes).
Proof.
  unfold declareToolChanges, GetCurrentTools. cbn zeta.
  assert ((fun tool => ToToolDeclaration (AsTool tool)) <$> ac_Tools agentCtx = AsTool <$> ac_Tools agentCtx) as -> by done.
  assert (forall m changes, is_empty (ts_ToolsAdded changes) && is_empty (ts_ToolsRemoved changes) = true ->
    foldl tm_set (foldl tm_delete m (ts_ToolsRemoved changes)) (ts_ToolsAdded changes) = m) as Hun.
  { intros m changes [->%is_empty_nil ->%is_empty_nil]%andb_prop. done. }
  pose proof (last_system_spec pending) as Hl. destruct (last_system pending) as [[i s]|].
  - destruct Hl as (a & p & b & -> & <- & Hp & Hb). rewrite !insert_middle.
    set (m := foldl apply_tools newToolMap (systems (ac_Messages agentCtx ++ a))).
    assert (forall x s', systemMessageOf x = Some s' ->
      foldl apply_tools newToolMap (systems (ac_Messages agentCtx ++ a ++ x :: b)) = apply_tools m s') as Hm.
    { intros x s' Hx. rewrite app_assoc, systems_app. unfold systems at 2. cbn. rewrite Hx. cbn. fold (systems b).
      by rewrite Hb, foldl_app. }
    rewrite (Hm (MSystem (value (withToolChanges s no_changes))) _ eq_refl), apply_no_changes.
    set (changes := GetToolStateChanges (tm_values m) _).
    destruct (_ && _) eqn:Eu; intros [= <- _].
    + split; [done|]. exists m. split; [apply current_tools_wf|]. cbn zeta. fold changes. rewrite (Hm p s Hp).
      apply andb_prop in Eu as [[Eu Ea%is_empty_nil]%andb_prop Er%is_empty_nil]. unfold apply_tools. rewrite Ea, Er. by rewrite Hun.
    + split; [|exists m; split; [apply current_tools_wf|by rewrite (Hm (MSystem (value (withToolChanges s changes))) _ eq_refl)]].
      assert (non_system p = false) as Enp by (unfold non_system; by rewrite Hp).
      rewrite !List.filter_app. cbn [List.filter]. by rewrite Enp.
  - set (m := foldl apply_tools newToolMap (systems (ac_Messages agentCtx ++ pending))).
    set (changes := GetToolStateChanges (tm_values m) _). destruct (_ && _) eqn:Eu.
    + intros [= <- _]. split; [done|]. exists m. split; [apply current_tools_wf|]. cbn zeta. by rewrite Hun.
    + unfold mbind, M_bind. destruct (nowMillis r) as [[now|x] r1]; [|done].
      destruct (first_non_system pending) as [index|]; [|done]. intros [= <- _].
      rewrite <- (take_drop index pending) in Hl. rewrite systems_app in Hl. apply app_nil in Hl as [Hl1 Hl2]. split.
      * rewrite <- (take_drop index pending) at 3. rewrite !List.filter_app. done.
      * exists m. split; [apply current_tools_wf|]. cbn zeta. fold changes. rewrite !systems_app, Hl1, systems_cons, Hl2.
        rewrite foldl_app. cbn. unfold m. by rewrite systems_app, <- (take_drop index pending), systems_app, Hl1, Hl2, app_nil_r.
Qed.
End Maps.

(** ** Properties *)

(** Before every request the transcript declares exactly the tools the
    agent can execute: with the messages [declareToolChanges] returns, the
    tools replayed from the transcript have the names of the context's tools
    (distinct ones), each declared as the context has it or in a declaration
    with the same JSON; and what is not a system message among the pending
    messages is kept, in order. *)
Theorem declared_tools_current {W} {R : Runtime W} (agentCtx : AgentContext W) pending r out r' :
  NoDup (tool_Name <$> ac_Tools agentCtx) ->
  declareToolChanges agentCtx pending r = (Ok out, r') ->
  let current := GetCurrentTools (ac_Messages agentCtx ++ out) in
  let executable := AsTool <$> ac_Tools agentCtx in
  (to_Name <$> current) ≡ₚ (to_Name <$> executable) /\
  (forall t, t ∈ current -> exists t', t' ∈ executable /\ to_Name t' = to_Name t /\ (t = t' \/ DeclarationsEqual t t' = true)) /\
  List.filter non_system out = List.filter non_system pending.
Proof.
  intros Hn H. cbn zeta. apply declare_spec in H as (Hf & m & Hw & E). cbn zeta in E. unfold GetCurrentTools. rewrite E.
  set (executable := AsTool <$> ac_Tools agentCtx). assert (NoDup (to_Name <$> executable)) as Hne by (unfold executable; by rewrite <- list_fmap_compose).
  set (changes := GetToolStateChanges _ _). set (M := foldl tm_set _ _).
  assert (tools_wf M) as HM by (apply foldl_wf; [intros; by apply tm_set_wf|]; apply foldl_wf; [intros; by apply tm_delete_wf|done]).
  pose proof (fun n => changes_lookup m executable n Hw Hne) as Hlook. cbn zeta in Hlook. fold changes M in Hlook.
  split_and!; [| |done].
  - apply NoDup_Permutation; [by apply values_nodup|done|]. intros n. rewrite values_names, (tw_dom _ HM), Hlook by done. split.
    + destruct (named executable n) as [t|] eqn:En; [|intros [? ?]; discriminate]. intros _.
      apply named_spec in En as [Hin <-]; [|done]. by apply list_elem_of_fmap_2.
    + intros (t & -> & Hin)%list_elem_of_fmap.
      assert (named executable (to_Name t) = Some t) as -> by (by apply named_spec). destruct (tm_byName m !! to_Name t); [case_match|]; eauto.
  - intros t Ht%values_elem; [|done]. rewrite Hlook in Ht. destruct (named executable (to_Name t)) as [t'|] eqn:En; [|done].
    apply named_spec in En as [Hin En]; [|done]. exists t'. split_and!; [done|done|].
    destruct (tm_byName m !! to_Name t) as [p|]; [|injection Ht as ->; by left].
    destruct (DeclarationsEqual p t') eqn:Eq; injection Ht as ->; [by right|by left].
Qed.
