(* ===== verification/AgentLoop.v ===== *)
(** * The agent loop ([internal/pi/agent/loop.go])

    A run sends the transcript to the model, executes the tool calls of the
    answer and goes on until the model calls no more tools and nothing is
    queued.  Every mutable variable is threaded; the events, the world and the
    panics are in the monad of [AgentModel]. *)

From S2P Require Import Prelude GoText PiModel TransformMessages Transcript AgentModel ToolState.

(** ** Definitions *)

Section Loop.
Context {W : Type} {R : Runtime W}.

Definition with_messages (c : AgentContext W) (messages : list Message) : AgentContext W :=
  mkContext messages (ac_Tools c).

(** The message behind the pointer the loop keeps. *)
Definition assistant (m : AssistantMessage) : Message := MAssistant (pointer (Some m)).

Definition tool_result (m : ToolResultMessage) : Message := MToolResult (value m).

(** *** Updates of the state by hooks *)

Definition with_request (config : AgentLoopConfig W) (m : option Model) (reasoning : string) : AgentLoopConfig W :=
  mkConfig W m reasoning (cf_Options config) (cf_ToolExecution config) (cf_ConvertToLlm config)
    (cf_TransformContext config) (cf_GetApiKey config) (cf_BeforeToolCall config) (cf_AfterToolCall config)
    (cf_FinishTurn config) (cf_PrepareRequest config) (cf_PrepareNextTurn config)
    (cf_GetSteeringMessages config) (cf_GetFollowUpMessages config).

Definition applyRequestUpdate (update : AgentRequestUpdate W) (current : AgentContext W) (config : AgentLoopConfig W)
    : AgentContext W * AgentLoopConfig W :=
  (default current (ru_Context update),
   with_request config
     (match ru_Model update with Some m => Some m | None => cf_Model config end)
     (match ru_ThinkingLevel update with
      | None => cf_Reasoning config
      | Some level => if String.eqb level ThinkingOff then "" else level
      end)).

(** The new context and configuration, and the messages to add. *)
Definition applyTurnUpdate (update : AgentLoopTurnUpdate W) (current : AgentContext W) (config : AgentLoopConfig W)
    : AgentContext W * AgentLoopConfig W * list Message :=
  (applyRequestUpdate (tu_Update update) current config, tu_Messages update).

(** *** The model's answer *)

Definition filterToolCalls (message : AssistantMessage) : list ToolCall :=
  omap (fun b => match b with Call (value c) => Some c | _ => None end) (blocks (am_Content message)).

Definition is_llm_role (r : Role) : bool :=
  match r with RoleSystem | RoleUser | RoleAssistant | RoleToolResult => true | _ => false end.

Fixpoint defaultConvertToLlm (messages : list Message) : M W (list Message) :=
  match messages with
  | [] => mret []
  | m :: rest =>
      role ← or_panic (MessageRole m);
      out ← defaultConvertToLlm rest;
      mret (if is_llm_role role then m :: out else out)
  end.

Definition finalMessageFromEvent (event : AssistantMessageEvent) : option AssistantMessage :=
  match ae_Type event with
  | EventDone => ae_Message event
  | EventError => ae_Error event
  | _ => None
  end.

(** [messages[len(messages)-1] = m]; the list has the partial message last
    whenever this is reached. *)
Definition set_last (messages : list Message) (m : Message) : list Message := removelast messages ++ [m].

(** What follows the loop over the stream, and what a terminal event does:
    the final message takes the place of the partial one or is appended. *)
Definition finish_message (messages : list Message) (addedPartial : bool) (final : AssistantMessage)
    : M W (result string (AssistantMessage * list Message)) :=
  messages ←
    (if addedPartial then mret (set_last messages (assistant final))
     else _ ← mustEmit (EvMessageStart (CloneMessage (assistant final))); mret (messages ++ [assistant final]));
  _ ← mustEmit (EvMessageEnd (assistant final));
  mret (Ok (final, messages)).

(** The loop over [response.Recv()]. *)
Fixpoint receive (s : Stream W) (messages : list Message) (part : option AssistantMessage) (addedPartial : bool)
    : M W (result string (AssistantMessage * list Message)) :=
  match s with
  | Waiting work next =>
      fun r => receive (next (r_world r)) messages part addedPartial (in_world (work (r_world r)) r)
  | EndOfStream =>
      match part with
      | None => mret (Err "agent: stream ended without a message")
      | Some final => finish_message messages addedPartial final
      end
  | Broken message => mret (Err message)
  | Received event next =>
      match ae_Type event with
      | EventStart =>
          match ae_Partial event with
          | None => receive next messages None addedPartial
          | Some p =>
              _ ← mustEmit (EvMessageStart (CloneMessage (assistant p)));
              receive next (messages ++ [assistant p]) (Some p) true
          end
      | EventDone | EventError =>
          match finalMessageFromEvent event with
          | None => mret (Err "agent: terminal stream event carried no message")
          | Some final => finish_message messages addedPartial final
          end
      | EventOther _ => receive next messages part addedPartial
      | _ =>
          match part with
          | None => receive next messages part addedPartial
          | Some _ =>
              let p := MAssistant (pointer (ae_Partial event)) in
              _ ← mustEmit (EvMessageUpdate (CloneMessage p) event);
              receive next (set_last messages p) (ae_Partial event) addedPartial
          end
      end
  end.

Definition request_options (config : AgentLoopConfig W) (apiKey : string) : StreamOptions :=
  {| so_Reasoning := cf_Reasoning config; so_APIKey := apiKey; so_Rest := so_Rest (cf_Options config) |}.

Definition request_key (config : AgentLoopConfig W) : M W string :=
  match cf_GetApiKey config with
  | None => mret (so_APIKey (cf_Options config))
  | Some GetApiKey =>
      m ← or_panic (cf_Model config);
      key ← call (GetApiKey (md_Provider m));
      mret (if String.eqb key "" then so_APIKey (cf_Options config) else key)
  end.

(** The final message and the context that ends with it, or an error. *)
Definition streamAssistantResponse (current : AgentContext W) (config : AgentLoopConfig W)
    : M W (result string (AssistantMessage * AgentContext W)) :=
  messages ←
    match cf_TransformContext config with
    | None => mret (ac_Messages current)
    | Some TransformContext => call (TransformContext (ac_Messages current))
    end;
  llmMessages ←
    match cf_ConvertToLlm config with
    | Some ConvertToLlm => call (ConvertToLlm messages)
    | None => defaultConvertToLlm messages
    end;
  match rt_stream with
  | None => mret (Err "agent: no stream function configured")
  | Some streamFn =>
      apiKey ← request_key config;
      response ← call (streamFn (cf_Model config) (NormalizeContext "" [] llmMessages) (request_options config apiKey));
      match response with
      | Err e => mret (Err e)
      | Ok None => mret (Err "agent: stream function returned no stream")
      | Ok (Some s) =>
          received ← receive s (ac_Messages current) None false;
          mret (match received with
                | Err e => Err e
                | Ok (final, messages) => Ok (final, with_messages current messages)
                end)
      end
  end.

(** *** Preparing a tool call *)

Fixpoint findTool (tools : list (AgentTool W)) (name : string) : option (AgentTool W) :=
  match tools with
  | [] => None
  | t :: rest => if String.eqb (tool_Name t) name then Some t else findTool rest name
  end.

Definition errorToolResult (message : string) : AgentToolResult :=
  {| ar_Content := Some [text_block message]; ar_Details := AMap []; ar_Usage := None; ar_Terminate := false |}.

Definition with_terminate (t : AgentToolResult) (terminate : bool) : AgentToolResult :=
  {| ar_Content := ar_Content t; ar_Details := ar_Details t; ar_Usage := ar_Usage t; ar_Terminate := terminate |}.

Record immediateOutcome := mkImmediate { io_result : AgentToolResult; io_isError : bool }.

Definition error_outcome (message : string) : immediateOutcome := mkImmediate (errorToolResult message) true.

Record preparedToolCall := {
  pt_toolCall : ToolCall;
  pt_tool : AgentTool W;
  pt_args : JsonObject;
}.

Inductive prepareResult :=
| Immediate (o : immediateOutcome)
| Prepared (p : preparedToolCall).

Definition with_arguments (c : ToolCall) (args : JsonObject) : ToolCall :=
  {| tl_ID := tl_ID c; tl_Name := tl_Name c; tl_Arguments := args;
     tl_ThoughtSignature := tl_ThoughtSignature c; tl_Namespace := tl_Namespace c |}.

(** [PrepareArguments], when it returns a map that is not nil. *)
Definition prepared_call (tool : AgentTool W) (toolCall : ToolCall) : M W ToolCall :=
  match tool_PrepareArguments tool with
  | None => mret toolCall
  | Some PrepareArguments =>
      newArgs ← call (PrepareArguments (tl_Arguments toolCall));
      mret (match newArgs with None => toolCall | Some _ => with_arguments toolCall newArgs end)
  end.

(** What the hook before a call answers: [Some] ends the preparation; and the
    arguments as it left them. *)
Definition before_call (current : AgentContext W) (message : AssistantMessage) (toolCall : ToolCall) (args : JsonObject)
    (config : AgentLoopConfig W) : M W (option immediateOutcome * JsonObject) :=
  match cf_BeforeToolCall config with
  | None => mret (None, args)
  | Some BeforeToolCall =>
      '(before, args) ← call (BeforeToolCall {| bc_AssistantMessage := message; bc_ToolCall := toolCall; bc_Args := args;
                                       bc_Context := current |});
      stop ← aborted;
      mret (if stop : bool then Some (error_outcome "Operation aborted")
            else match before with
                 | Some b =>
                     if bt_Block b then
                       let reason := if String.eqb (bt_Reason b) "" then "Tool execution was blocked" else bt_Reason b in
                       Some (mkImmediate (with_terminate (errorToolResult reason) (bt_Terminate b)) true)
                     else None
                 | None => None
                 end, args)
  end.

Definition prepareToolCall (current : AgentContext W) (message : AssistantMessage) (toolCall : ToolCall)
    (config : AgentLoopConfig W) : M W prepareResult :=
  match findTool (ac_Tools current) (tl_Name toolCall) with
  | None => mret (Immediate (error_outcome ("Tool " +:+ tl_Name toolCall +:+ " not found")))
  | Some tool =>
      recovering
        (prepared ← prepared_call tool toolCall;
         match rt_validate (AsTool tool) prepared with
         | Err e => mret (Immediate (error_outcome e))
         | Ok validated =>
             '(before, args) ← before_call current message toolCall validated config;
             match before with
             | Some o => mret (Immediate o)
             | None =>
                 stop ← aborted;
                 mret (if stop : bool then Immediate (error_outcome "Operation aborted")
                       else Prepared {| pt_toolCall := toolCall; pt_tool := tool; pt_args := args |})
             end
         end)
        (fun v => Immediate (error_outcome v))
  end.

(** *** Running a tool *)

Record finalizedOutcome := {
  fo_toolCall : ToolCall;
  fo_result : AgentToolResult;
  fo_isError : bool;
}.

Definition finalized (c : ToolCall) (o : immediateOutcome) : finalizedOutcome :=
  {| fo_toolCall := c; fo_result := io_result o; fo_isError := io_isError o |}.

(** The first of two errors. *)
Definition first_error {A} (a b : option A) : option A := match a with Some _ => a | None => b end.

(** The outcome of a run that ended, [None] while it goes on. *)
Definition run_outcome (t : ToolRun W) : option immediateOutcome :=
  match t with
  | Returned res => Some (mkImmediate res false)
  | Failed message | Crashed message => Some (error_outcome message)
  | Working _ _ | Updating _ _ => None
  end.

Definition update_event (c : ToolCall) (partial : AgentToolResult) : AgentEvent :=
  EvToolExecutionUpdate (tl_ID c) (tl_Name c) (tl_Arguments c) partial.

(** The callback of a tool.  It asks whether the run of the tool still accepts
    updates, and emits nothing once it does not. *)
Definition onUpdate (acceptingUpdates : bool) (c : ToolCall) (partial : AgentToolResult) : M W (option string) :=
  if acceptingUpdates then emit (update_event c partial) else mret None.

(** The updates that goroutines of the tool ask for when it has returned;
    nobody looks at their errors. *)
Fixpoint late_updates (c : ToolCall) (partials : list AgentToolResult) : M W unit :=
  match partials with
  | [] => mret tt
  | partial :: rest => _ ← onUpdate false c partial; late_updates c rest
  end.

(** [executePreparedToolCall] once the tool has returned: the error of a sink
    during an update is raised now. *)
Definition executed {A} (emitErr : option string) (o : A) : M W A :=
  match emitErr with Some e => raise (EmitFailed e) | None => mret o end.

Fixpoint execute_run (c : ToolCall) (t : ToolRun W) (updateEmitErr : option string) : M W immediateOutcome :=
  match t with
  | Working work next => fun r => execute_run c (next (r_world r)) updateEmitErr (in_world (work (r_world r)) r)
  | Updating partial next =>
      err ← onUpdate true c partial;
      execute_run c next (first_error updateEmitErr err)
  | Returned res => executed updateEmitErr (mkImmediate res false)
  | Failed message | Crashed message => executed updateEmitErr (error_outcome message)
  end.

Definition prepared_run (p : preparedToolCall) : ToolRun W :=
  tool_Execute (pt_tool p) (tl_ID (pt_toolCall p)) (pt_args p).

Definition executePreparedToolCall (p : preparedToolCall) : M W immediateOutcome :=
  execute_run (pt_toolCall p) (prepared_run p) None.

Definition apply_after (after : AfterToolCallResult) (o : immediateOutcome) : immediateOutcome :=
  let res := io_result o in
  mkImmediate
    {| ar_Content := default (ar_Content res) (at_Content after);
       ar_Details := default (ar_Details res) (at_Details after);
       ar_Usage := match at_Usage after with Some u => Some u | None => ar_Usage res end;
       ar_Terminate := default (ar_Terminate res) (at_Terminate after) |}
    (default (io_isError o) (at_IsError after)).

Definition finalizeExecutedToolCall (current : AgentContext W) (message : AssistantMessage) (p : preparedToolCall)
    (o : immediateOutcome) (config : AgentLoopConfig W) : M W finalizedOutcome :=
  match cf_AfterToolCall config with
  | None => mret (finalized (pt_toolCall p) o)
  | Some AfterToolCall =>
      recovering
        (after ← call (AfterToolCall {| af_AssistantMessage := message; af_ToolCall := pt_toolCall p; af_Args := pt_args p;
                                        af_Result := io_result o; af_IsError := io_isError o; af_Context := current |});
         mret (finalized (pt_toolCall p) (match after with Some a => apply_after a o | None => o end)))
        (fun v => finalized (pt_toolCall p) (error_outcome v))
  end.

(** *** Results *)

Record executedBatch := { eb_messages : list ToolResultMessage; eb_terminate : bool }.

Definition start_event (c : ToolCall) : AgentEvent := EvToolExecutionStart (tl_ID c) (tl_Name c) (tl_Arguments c).

Definition end_event (o : finalizedOutcome) : AgentEvent :=
  EvToolExecutionEnd (tl_ID (fo_toolCall o)) (tl_Name (fo_toolCall o)) (fo_result o) (fo_isError o).

Definition emitToolExecutionEnd (o : finalizedOutcome) : M W unit := mustEmit (end_event o).

Definition createToolResultMessage (o : finalizedOutcome) : M W ToolResultMessage :=
  now ← nowMillis;
  mret {| tr_ToolCallID := tl_ID (fo_toolCall o); tr_ToolName := tl_Name (fo_toolCall o);
          tr_Content := ar_Content (fo_result o); tr_Details := ar_Details (fo_result o);
          tr_Usage := ar_Usage (fo_result o); tr_IsError := fo_isError o; tr_Timestamp := now |}.

Definition emitToolResultMessage (m : ToolResultMessage) : M W unit :=
  _ ← mustEmit (EvMessageStart (tool_result m));
  mustEmit (EvMessageEnd (tool_result m)).

(** The message of an outcome, emitted. *)
Definition report (o : finalizedOutcome) : M W ToolResultMessage :=
  m ← createToolResultMessage o;
  _ ← emitToolResultMessage m;
  mret m.

Definition shouldTerminateBatch (calls : list finalizedOutcome) : bool :=
  match calls with
  | [] => false
  | _ => forallb (fun o => ar_Terminate (fo_result o)) calls
  end.

Definition quote : string := String (Ascii.Ascii false true false false false true false false) EmptyString.

Definition truncation_message (c : ToolCall) : string :=
  "Tool call " +:+ quote +:+ tl_Name c +:+ quote +:+
  " was not executed: the response hit the output token limit, so its arguments may be truncated. Re-issue the tool call with complete arguments.".

Fixpoint fail_calls (toolCalls : list ToolCall) : M W (list ToolResultMessage) :=
  match toolCalls with
  | [] => mret []
  | c :: rest =>
      let o := finalized c (error_outcome (truncation_message c)) in
      _ ← mustEmit (start_event c);
      _ ← emitToolExecutionEnd o;
      m ← report o;
      messages ← fail_calls rest;
      mret (m :: messages)
  end.

Definition failToolCallsFromTruncatedMessage (toolCalls : list ToolCall) : M W executedBatch :=
  messages ← fail_calls toolCalls;
  mret {| eb_messages := messages; eb_terminate := false |}.
(** *** One call after the other *)

(** The outcome, and the updates that come when the tool has returned. *)
Definition run_call (current : AgentContext W) (message : AssistantMessage) (toolCall : ToolCall)
    (config : AgentLoopConfig W) : M W (finalizedOutcome * list AgentToolResult) :=
  preparation ← prepareToolCall current message toolCall config;
  match preparation with
  | Immediate o => mret (finalized toolCall o, [])
  | Prepared p =>
      o ← executePreparedToolCall p;
      outcome ← finalizeExecutedToolCall current message p o config;
      late ← lift (rt_late toolCall);
      mret (outcome, late)
  end.

(** The outcomes with their messages. *)
Fixpoint run_calls (current : AgentContext W) (message : AssistantMessage) (toolCalls : list ToolCall)
    (config : AgentLoopConfig W) : M W (list (finalizedOutcome * ToolResultMessage)) :=
  match toolCalls with
  | [] => mret []
  | c :: rest =>
      _ ← mustEmit (start_event c);
      '(o, late) ← run_call current message c config;
      _ ← emitToolExecutionEnd o;
      _ ← late_updates c late;
      m ← report o;
      stop ← aborted;
      if stop : bool then mret [(o, m)]
      else
        others ← run_calls current message rest config;
        mret ((o, m) :: others)
  end.

Definition executeToolCallsSequential (current : AgentContext W) (message : AssistantMessage) (toolCalls : list ToolCall)
    (config : AgentLoopConfig W) : M W executedBatch :=
  done ← run_calls current message toolCalls config;
  mret {| eb_messages := done.*2; eb_terminate := shouldTerminateBatch done.*1 |}.

(** *** All calls at once

    A slot holds the outcome of its call, or the goroutine that runs the tool:
    the rest of the run and the first error of an update.  [Gone] is a
    goroutine that panicked. *)
Inductive slot :=
| Done (o : finalizedOutcome)
| Running (p : preparedToolCall) (t : ToolRun W) (updateEmitErr : option string)
| Gone.

Definition started (p : preparedToolCall) : slot := Running p (prepared_run p) None.

Fixpoint prepare_calls (current : AgentContext W) (message : AssistantMessage) (toolCalls : list ToolCall)
    (config : AgentLoopConfig W) : M W (list slot) :=
  match toolCalls with
  | [] => mret []
  | c :: rest =>
      _ ← mustEmit (start_event c);
      preparation ← prepareToolCall current message c config;
      s ← match preparation with
          | Immediate o =>
              let o := finalized c o in
              _ ← emitToolExecutionEnd o;
              mret (Done o)
          | Prepared p => mret (started p)
          end;
      stop ← aborted;
      if stop : bool then mret [s]
      else
        slots ← prepare_calls current message rest config;
        mret (s :: slots)
  end.

(** The slots and [panicVal], the first panic of a goroutine. *)
Record Pool := mkPool { pl_slots : list slot; pl_panic : option raised }.

(** The locked end of a goroutine: the hook after the call and the event; and
    what the tool's own goroutines ask for after that. *)
Definition conclude (current : AgentContext W) (message : AssistantMessage) (config : AgentLoopConfig W)
    (p : preparedToolCall) (updateEmitErr : option string) (o : immediateOutcome) : M W slot :=
  o ← executed updateEmitErr o;
  outcome ← finalizeExecutedToolCall current message p o config;
  _ ← mustEmit (end_event outcome);
  late ← lift (rt_late (pt_toolCall p));
  _ ← late_updates (pt_toolCall p) late;
  mret (Done outcome).

(** One step of a goroutine. *)
Definition step_slot (current : AgentContext W) (message : AssistantMessage) (config : AgentLoopConfig W)
    (p : preparedToolCall) (t : ToolRun W) (updateEmitErr : option string) : M W slot :=
  match t with
  | Working work next =>
      fun r => (Ok (Running p (next (r_world r)) updateEmitErr), in_world (work (r_world r)) r)
  | Updating partial next =>
      err ← onUpdate true (pt_toolCall p) partial;
      mret (Running p next (first_error updateEmitErr err))
  | Returned res => conclude current message config p updateEmitErr (mkImmediate res false)
  | Failed m | Crashed m => conclude current message config p updateEmitErr (error_outcome m)
  end.

(** A computation of goroutine [i], its panic recovered. *)
Definition in_slot (m : M W slot) (i : nat) (pool : Pool) : M W Pool := fun r =>
  match m r with
  | (Ok s, r) => (Ok (mkPool (<[i := s]> (pl_slots pool)) (pl_panic pool)), r)
  | (Err x, r) => (Ok (mkPool (<[i := Gone]> (pl_slots pool)) (first_error (pl_panic pool) (Some x))), r)
  end.

(** Goroutine [i] takes a step, if there is one to take. *)
Definition step_pool (current : AgentContext W) (message : AssistantMessage) (config : AgentLoopConfig W)
    (i : nat) (pool : Pool) : M W Pool :=
  match pl_slots pool !! i with
  | Some (Running p t e) => in_slot (step_slot current message config p t e) i pool
  | _ => mret pool
  end.

Fixpoint run_schedule (current : AgentContext W) (message : AssistantMessage) (config : AgentLoopConfig W)
    (schedule : list nat) (pool : Pool) : M W Pool :=
  match schedule with
  | [] => mret pool
  | i :: rest => pool ← step_pool current message config i pool; run_schedule current message config rest pool
  end.

(** All the steps of a goroutine. *)
Fixpoint finish_slot (current : AgentContext W) (message : AssistantMessage) (config : AgentLoopConfig W)
    (p : preparedToolCall) (t : ToolRun W) (updateEmitErr : option string) : M W slot :=
  match t with
  | Working work next =>
      fun r => finish_slot current message config p (next (r_world r)) updateEmitErr
                 (in_world (work (r_world r)) r)
  | Updating partial next =>
      err ← onUpdate true (pt_toolCall p) partial;
      finish_slot current message config p next (first_error updateEmitErr err)
  | Returned res => conclude current message config p updateEmitErr (mkImmediate res false)
  | Failed m | Crashed m => conclude current message config p updateEmitErr (error_outcome m)
  end.

Definition finish_pool (current : AgentContext W) (message : AssistantMessage) (config : AgentLoopConfig W)
    (i : nat) (pool : Pool) : M W Pool :=
  match pl_slots pool !! i with
  | Some (Running p t e) => in_slot (finish_slot current message config p t e) i pool
  | _ => mret pool
  end.

(** [wg.Wait()]: the schedule, then what is still running, one by one. *)
Definition wait (current : AgentContext W) (message : AssistantMessage) (config : AgentLoopConfig W)
    (schedule : list nat) (slots : list slot) : M W Pool :=
  pool ← run_schedule current message config schedule (mkPool slots None);
  foldl (fun m i => pool ← m; finish_pool current message config i pool) (mret pool) (seq 0 (length slots)).

(** The slots of a batch that was aborted before the tools started. *)
Fixpoint abort_slots (slots : list slot) (panicVal : option raised) : M W Pool :=
  match slots with
  | [] => mret (mkPool [] panicVal)
  | Running p _ _ :: rest =>
      let o := finalized (pt_toolCall p) (error_outcome "Operation aborted") in
      err ← emit (end_event o);
      pool ← abort_slots rest (first_error panicVal (EmitFailed <$> err));
      mret (mkPool (Done o :: pl_slots pool) (pl_panic pool))
  | s :: rest =>
      pool ← abort_slots rest panicVal;
      mret (mkPool (s :: pl_slots pool) (pl_panic pool))
  end.

Definition outcome_of (s : slot) : option finalizedOutcome := match s with Done o => Some o | _ => None end.

Fixpoint report_all (l : list finalizedOutcome) : M W (list ToolResultMessage) :=
  match l with
  | [] => mret []
  | o :: rest => m ← report o; messages ← report_all rest; mret (m :: messages)
  end.

Definition executeToolCallsParallel (current : AgentContext W) (message : AssistantMessage) (toolCalls : list ToolCall)
    (config : AgentLoopConfig W) : M W executedBatch :=
  slots ← prepare_calls current message toolCalls config;
  batchAborted ← aborted;
  pool ← (if batchAborted : bool then abort_slots slots None
          else schedule ← lift (rt_schedule (length slots)); wait current message config schedule slots);
  match pl_panic pool with
  | Some x => raise x
  | None =>
      let ordered := omap outcome_of (pl_slots pool) in
      messages ← report_all ordered;
      mret {| eb_messages := messages; eb_terminate := shouldTerminateBatch ordered |}
  end.

Definition is_sequential (m : ToolExecutionMode) : bool := bool_decide (m = ToolSequential).

Definition executeToolCalls (current : AgentContext W) (message : AssistantMessage) (config : AgentLoopConfig W)
    : M W executedBatch :=
  let toolCalls := filterToolCalls message in
  let hasSequential :=
    existsb (fun c => match findTool (ac_Tools current) (tl_Name c) with
                      | Some tool => is_sequential (tool_ExecutionMode tool)
                      | None => false
                      end) toolCalls in
  if is_sequential (cf_ToolExecution config) || hasSequential
  then executeToolCallsSequential current message toolCalls config
  else executeToolCallsParallel current message toolCalls config.
End Loop.

(** * The turns of a run ([runLoop], [RunAgentLoop] of
    [internal/pi/agent/loop.go])

    A turn is one pass of the inner loop.  Whether the code goes on is up to
    the model and the hooks, so a run takes fuel. *)

(** ** Definitions *)

Section Turns.
Context {W : Type} {R : Runtime W}.

(** The variables of [runLoop], less the two flags that decide whether it goes
    on. *)
Record LoopState := mkLoop {
  ls_current : AgentContext W;
  ls_newMessages : list Message;
  ls_config : AgentLoopConfig W;
  ls_lastCompletedTurn : option (AgentTurnContext W);
  ls_pending : list Message;
}.

(** What a turn ends with: [return nil], [return err], or the end of the body
    with [hasMoreToolCalls] and [explicitContinuation]. *)
Inductive turn_end :=
| Ended (newMessages : list Message)
| EndedWith (err : string) (newMessages : list Message)
| Completed (s : LoopState) (hasMoreToolCalls explicitContinuation : bool).

(** A hook that may be nil. *)
Definition optional {A} (h : option (Hook W (list A))) : M W (list A) :=
  match h with None => mret [] | Some h => call h end.

(** The start of a turn that is not the first. *)
Definition next_turn (s : LoopState) : M W (LoopState * list Message) :=
  match ls_lastCompletedTurn s with
  | None => mret (s, [])
  | Some turn =>
      update ← match cf_PrepareNextTurn (ls_config s) with None => mret None | Some h => call (h turn) end;
      let '(current, config, prepared) :=
        match update with
        | None => (ls_current s, ls_config s, [])
        | Some u => applyTurnUpdate u (ls_current s) (ls_config s)
        end in
      pending ← (if is_empty (ls_pending s) then optional (cf_GetSteeringMessages config) else mret (ls_pending s));
      _ ← mustEmit EvTurnStart;
      mret (mkLoop current (ls_newMessages s) config (ls_lastCompletedTurn s) pending, prepared)
  end.

Fixpoint announce (messages : list Message) : M W unit :=
  match messages with
  | [] => mret tt
  | m :: rest => _ ← mustEmit (EvMessageStart m); _ ← mustEmit (EvMessageEnd m); announce rest
  end.

(** The loop over the messages to inject. *)
Definition inject (s : LoopState) (messages : list Message) : M W LoopState :=
  _ ← announce messages;
  mret (mkLoop (with_messages (ls_current s) (ac_Messages (ls_current s) ++ messages)) (ls_newMessages s ++ messages)
          (ls_config s) (ls_lastCompletedTurn s) (ls_pending s)).

Definition prepare_request (s : LoopState) : M W LoopState :=
  match cf_PrepareRequest (ls_config s) with
  | None => mret s
  | Some PrepareRequest =>
      let level := if String.eqb (cf_Reasoning (ls_config s)) "" then ThinkingOff else cf_Reasoning (ls_config s) in
      update ← call (PrepareRequest {| rq_Context := ls_current s; rq_Model := cf_Model (ls_config s);
                                       rq_ThinkingLevel := level |});
      mret (match update with
            | None => s
            | Some u =>
                let (current, config) := applyRequestUpdate u (ls_current s) (ls_config s) in
                mkLoop current (ls_newMessages s) config (ls_lastCompletedTurn s) (ls_pending s)
            end)
  end.

(** The batch of a message's tool calls; nothing when there are none. *)
Definition run_batch (current : AgentContext W) (message : AssistantMessage) (config : AgentLoopConfig W)
    : M W (option executedBatch) :=
  match filterToolCalls message with
  | [] => mret None
  | toolCalls =>
      batch ← match am_StopReason message with
              | StopLength => failToolCallsFromTruncatedMessage toolCalls
              | _ => executeToolCalls current message config
              end;
      mret (Some batch)
  end.

Definition finish_turn (config : AgentLoopConfig W) (turn : AgentTurnContext W) : M W string :=
  match cf_FinishTurn config with None => mret "" | Some h => call (h turn) end.

(** The turn after its message: a failed one ends the run. *)
Definition after_message (s : LoopState) (message : AssistantMessage) : M W turn_end :=
  let current := ls_current s in
  let newMessages := ls_newMessages s ++ [assistant message] in
  let config := ls_config s in
  if is_failed (am_StopReason message) then
    _ ← finish_turn config {| tn_Message := message; tn_ToolResults := []; tn_Context := current; tn_NewMessages := newMessages |};
    _ ← mustEmit (EvTurnEnd (assistant message) []);
    _ ← mustEmit (EvAgentEnd newMessages);
    mret (Ended newMessages)
  else
    batch ← run_batch current message config;
    let toolResults := match batch with None => [] | Some b => eb_messages b end in
    let hasMoreToolCalls := match batch with None => false | Some b => negb (eb_terminate b) end in
    let current := with_messages current (ac_Messages current ++ (tool_result <$> toolResults)) in
    let newMessages := newMessages ++ (tool_result <$> toolResults) in
    let turn := {| tn_Message := message; tn_ToolResults := toolResults; tn_Context := current; tn_NewMessages := newMessages |} in
    decision ← finish_turn config turn;
    _ ← mustEmit (EvTurnEnd (assistant message) toolResults);
    if String.eqb decision TurnEnd then
      _ ← mustEmit (EvAgentEnd newMessages);
      mret (Ended newMessages)
    else
      pending ← optional (cf_GetSteeringMessages config);
      mret (Completed (mkLoop current newMessages config (Some turn) pending) hasMoreToolCalls
              (String.eqb decision TurnContinue && negb (hasMoreToolCalls || negb (is_empty pending)))).

(** The body of the inner loop. *)
Definition turn (s : LoopState) : M W turn_end :=
  '(s, prepared) ← next_turn s;
  messages ← declareToolChanges (ls_current s) (prepared ++ ls_pending s);
  s ← inject s messages;
  s ← prepare_request s;
  answer ← streamAssistantResponse (ls_current s) (ls_config s);
  match answer with
  | Err e => mret (EndedWith e (ls_newMessages s))
  | Ok (message, current) =>
      after_message (mkLoop current (ls_newMessages s) (ls_config s) (ls_lastCompletedTurn s) (ls_pending s)) message
  end.

(** The conditions of both loops: the next turn's state, or the end. *)
Definition after_turn (s : LoopState) (hasMoreToolCalls explicitContinuation : bool) : M W (option LoopState) :=
  if hasMoreToolCalls || negb (is_empty (ls_pending s)) then mret (Some s)
  else
    followUps ← optional (cf_GetFollowUpMessages (ls_config s));
    if is_empty followUps then
      if explicitContinuation then mret (Some s)
      else
        _ ← mustEmit (EvAgentEnd (ls_newMessages s));
        mret None
    else mret (Some (mkLoop (ls_current s) (ls_newMessages s) (ls_config s) (ls_lastCompletedTurn s) followUps)).

(** The loop: the error and the new messages; [None] when the fuel is used
    up. *)
Fixpoint loop (fuel : nat) (s : LoopState) : M W (option (option string * list Message)) :=
  match fuel with
  | O => mret None
  | S fuel =>
      ended ← turn s;
      match ended with
      | Ended newMessages => mret (Some (None, newMessages))
      | EndedWith e newMessages => mret (Some (Some e, newMessages))
      | Completed s more explicit =>
          next ← after_turn s more explicit;
          match next with
          | Some s => loop fuel s
          | None => mret (Some (None, ls_newMessages s))
          end
      end
  end.

Definition runLoop (fuel : nat) (current : AgentContext W) (newMessages : list Message) (config : AgentLoopConfig W)
    : M W (option (option string * list Message)) :=
  pending ← optional (cf_GetSteeringMessages config);
  loop fuel (mkLoop current newMessages config None pending).

(** A panic of [mustEmit] becomes the error, with no messages. *)
Definition recover_emit (m : M W (option (option string * list Message))) : M W (option (option string * list Message)) :=
  fun r => match m r with
           | (Err (EmitFailed e), r) => (Ok (Some (Some e, [])), r)
           | x => x
           end.

Definition RunAgentLoop (fuel : nat) (prompts : list Message) (agentCtx : AgentContext W) (config : AgentLoopConfig W)
    : M W (option (option string * list Message)) :=
  recover_emit
    (initialMessages ← declareToolChanges agentCtx prompts;
     _ ← mustEmit EvAgentStart;
     _ ← mustEmit EvTurnStart;
     _ ← announce initialMessages;
     runLoop fuel (with_messages agentCtx (ac_Messages agentCtx ++ initialMessages)) initialMessages config).

Definition RunAgentLoopContinue (fuel : nat) (agentCtx : AgentContext W) (config : AgentLoopConfig W)
    : M W (option (option string * list Message)) :=
  recover_emit
    (_ ← mustEmit EvAgentStart;
     _ ← mustEmit EvTurnStart;
     runLoop fuel agentCtx [] config).
End Turns.
