(* ===== verification/AgentRules.v ===== *)
(** * A program logic for runs of the agent loop

    [triple m Q X]: whatever the run so far and the world, [m] only adds
    events; if it returns they are as [Q] says, if it panics as [X] says.
    The rules follow the shape of the definitions, and [agent] is the database
    of the specifications proved with them. *)

From S2P Require Import Prelude GoText PiModel TransformMessages Transcript AgentModel ToolState AgentLoop.

(** ** A cancellation that was found is not forgotten *)

Class Mono {W A} (m : M W A) : Prop := mono : forall r, r_seen r = true -> r_seen (m r).2 = true.

#[export] Hint Extern 2 (Mono (match ?x with _ => _ end)) => destruct x : typeclass_instances.

Section Mono.
Context {W : Type}.

#[export] Instance mono_ret {A} (a : A) : Mono (W := W) (mret a).
Proof. by intros r H. Qed.

#[export] Instance mono_raise {A} x : Mono (W := W) (raise (A := A) x).
Proof. by intros r H. Qed.

#[export] Instance mono_bind {A B} (m : M W A) (k : A -> M W B) : Mono m -> (forall a, Mono (k a)) -> Mono (m ≫= k).
Proof.
  intros Hm Hk r H. specialize (Hm r H). unfold mbind, M_bind. destruct (m r) as [[a|x] r1]; [by apply Hk|done].
Qed.

#[export] Instance mono_lift {A} (f : W -> A * W) : Mono (lift f).
Proof. intros r H. unfold lift. by destruct (f _). Qed.

#[export] Instance mono_call {A} (h : Hook W A) : Mono (call h).
Proof. intros r H. unfold call. by destruct (h _) as [[a|v] w]. Qed.

#[export] Instance mono_recovering {A} (m : M W A) handler : Mono m -> Mono (recovering m handler).
Proof. intros Hm r H. specialize (Hm r H). unfold recovering. by destruct (m r) as [[a|[e|v]] r1]. Qed.

(** A computation shown by its instances and by cases. *)
Ltac mono := repeat first [ solve [typeclasses eauto] | apply mono_bind | apply mono_recovering | progress intros | progress cbn beta zeta | match goal with |- Mono (match ?x with _ => _ end) => destruct x end ].

(** A step of the world, then the rest. *)
Lemma mono_work {A} (work : W -> W) (k : W -> M W A) : (forall w, Mono (k w)) -> Mono (fun r => k (r_world r) (in_world (work (r_world r)) r)).
Proof. intros Hk r H. by apply Hk. Qed.

#[export] Instance mono_or_panic {A} (o : option A) : Mono (W := W) (or_panic o).
Proof. unfold or_panic. mono. Qed.

#[export] Instance mono_executed {A} e (o : A) : Mono (W := W) (executed e o).
Proof. unfold executed. mono. Qed.

#[export] Instance mono_optional {A} (h : option (Hook W (list A))) : Mono (optional h).
Proof. unfold optional. mono. Qed.

Context {R : Runtime W}.

#[export] Instance mono_emit event : Mono (emit event).
Proof. intros r H. unfold emit. by destruct (rt_emit _ _). Qed.

#[export] Instance mono_mustEmit event : Mono (mustEmit event).
Proof. unfold mustEmit. mono. Qed.

#[export] Instance mono_aborted : Mono aborted.
Proof. intros r H. unfold aborted. destruct (rt_cancelled _). cbn. by rewrite H. Qed.

#[export] Instance mono_now : Mono nowMillis.
Proof. unfold nowMillis. mono. Qed.

(** *** The model's answer *)

#[export] Instance mono_convert messages : Mono (W := W) (defaultConvertToLlm messages).
Proof. induction messages; cbn [defaultConvertToLlm]; mono. Qed.

#[export] Instance mono_finish_message messages seen final : Mono (finish_message messages seen final).
Proof. unfold finish_message. mono. Qed.

#[export] Instance mono_receive (s : Stream W) messages part seen : Mono (receive s messages part seen).
Proof.
  revert messages part seen. induction s as [work next IH|event next IH| |m]; intros; cbn [receive].
  - by apply (mono_work work (fun w => receive (next w) messages part seen)).
  - mono.
  - mono.
  - mono.
Qed.

#[export] Instance mono_request_key (config : AgentLoopConfig W) : Mono (request_key config).
Proof. unfold request_key. mono. Qed.

#[export] Instance mono_stream (current : AgentContext W) config : Mono (streamAssistantResponse current config).
Proof. unfold streamAssistantResponse. mono. Qed.

#[export] Instance mono_declare (c : AgentContext W) pending : Mono (declareToolChanges c pending).
Proof. unfold declareToolChanges. mono. Qed.

(** *** Tool calls *)

#[export] Instance mono_prepared_call (tool : AgentTool W) c : Mono (prepared_call tool c).
Proof. unfold prepared_call. mono. Qed.

#[export] Instance mono_before_call current message c args config : Mono (before_call (W := W) current message c args config).
Proof. unfold before_call. mono. Qed.

#[export] Instance mono_prepare current message c config : Mono (prepareToolCall (W := W) current message c config).
Proof. unfold prepareToolCall. mono. Qed.

#[export] Instance mono_onUpdate accepting c partial : Mono (onUpdate accepting c partial).
Proof. unfold onUpdate. mono. Qed.

#[export] Instance mono_late c partials : Mono (late_updates c partials).
Proof. induction partials; cbn [late_updates]; mono. Qed.

#[export] Instance mono_execute c t e : Mono (execute_run c t e).
Proof.
  revert e. induction t as [work next IH|partial next IH|res|m|m]; intros; cbn [execute_run]; [|mono..].
  by apply (mono_work work (fun w => execute_run c (next w) e)).
Qed.

#[export] Instance mono_finalize current message p o config : Mono (W := W) (finalizeExecutedToolCall current message p o config).
Proof. unfold finalizeExecutedToolCall. mono. Qed.

#[export] Instance mono_execute_prepared (p : @preparedToolCall W) : Mono (executePreparedToolCall p).
Proof. unfold executePreparedToolCall. mono. Qed.

#[export] Instance mono_result o : Mono (createToolResultMessage o).
Proof. unfold createToolResultMessage. mono. Qed.

#[export] Instance mono_emit_result m : Mono (emitToolResultMessage m).
Proof. unfold emitToolResultMessage. mono. Qed.

#[export] Instance mono_report o : Mono (report o).
Proof. unfold report. mono. Qed.

#[export] Instance mono_end o : Mono (emitToolExecutionEnd o).
Proof. unfold emitToolExecutionEnd. mono. Qed.

#[export] Instance mono_fail_calls calls : Mono (fail_calls calls).
Proof. induction calls; cbn [fail_calls]; mono. Qed.

#[export] Instance mono_run_call current message c config : Mono (run_call current message c config).
Proof. unfold run_call. mono. Qed.

#[export] Instance mono_run_calls current message calls config : Mono (run_calls current message calls config).
Proof. induction calls; cbn [run_calls]; mono. Qed.

#[export] Instance mono_prepare_calls current message calls config : Mono (prepare_calls current message calls config).
Proof. induction calls; cbn [prepare_calls]; mono. Qed.

#[export] Instance mono_conclude current message config p e o : Mono (conclude current message config p e o).
Proof. unfold conclude. mono. Qed.

#[export] Instance mono_step_slot current message config p t e : Mono (step_slot current message config p t e).
Proof. destruct t; cbn [step_slot]; [by intros r H|mono..]. Qed.

#[export] Instance mono_finish_slot current message config p t e : Mono (finish_slot current message config p t e).
Proof.
  revert e. induction t as [work next IH|partial next IH|res|m|m]; intros; cbn [finish_slot]; [|mono..].
  by apply (mono_work work (fun w => finish_slot current message config p (next w) e)).
Qed.

#[export] Instance mono_in_slot m i (pool : @Pool W) : Mono m -> Mono (in_slot m i pool).
Proof. intros Hm r H. specialize (Hm r H). unfold in_slot. by destruct (m r) as [[s|x] r1]. Qed.

#[export] Instance mono_step_pool current message config i pool : Mono (step_pool current message config i pool).
Proof. unfold step_pool. mono. Qed.

#[export] Instance mono_finish_pool current message config i pool : Mono (finish_pool current message config i pool).
Proof. unfold finish_pool. mono. Qed.

#[export] Instance mono_schedule current message config schedule pool : Mono (run_schedule current message config schedule pool).
Proof. revert pool. induction schedule; intros; cbn [run_schedule]; mono. Qed.

#[export] Instance mono_finish_all current message config l (m : M W Pool) :
  Mono m -> Mono (foldl (fun m i => pool ← m; finish_pool current message config i pool) m l).
Proof. revert m. induction l; intros; cbn [foldl]; mono. Qed.

#[export] Instance mono_wait current message config schedule slots : Mono (wait current message config schedule slots).
Proof. unfold wait. mono. Qed.

#[export] Instance mono_abort_slots slots panicVal : Mono (W := W) (abort_slots slots panicVal).
Proof. revert panicVal. induction slots; intros; cbn [abort_slots]; mono. Qed.

#[export] Instance mono_report_all l : Mono (report_all l).
Proof. induction l; cbn [report_all]; mono. Qed.

#[export] Instance mono_parallel current message calls config : Mono (executeToolCallsParallel current message calls config).
Proof. unfold executeToolCallsParallel. mono. Qed.

#[export] Instance mono_execute_calls current message config : Mono (executeToolCalls current message config).
Proof. unfold executeToolCalls, executeToolCallsSequential. mono. Qed.

(** *** Turns *)

#[export] Instance mono_next_turn (s : @LoopState W) : Mono (next_turn s).
Proof. unfold next_turn. mono. Qed.

#[export] Instance mono_announce messages : Mono (announce messages).
Proof. induction messages; cbn [announce]; mono. Qed.

#[export] Instance mono_inject (s : @LoopState W) messages : Mono (inject s messages).
Proof. unfold inject. mono. Qed.

#[export] Instance mono_prepare_request (s : @LoopState W) : Mono (prepare_request s).
Proof. unfold prepare_request. mono. Qed.

#[export] Instance mono_run_batch current message config : Mono (run_batch current message config).
Proof. unfold run_batch, failToolCallsFromTruncatedMessage. mono. Qed.

#[export] Instance mono_finish_turn (config : AgentLoopConfig W) t : Mono (finish_turn config t).
Proof. unfold finish_turn. mono. Qed.

#[export] Instance mono_after_message (s : @LoopState W) message : Mono (after_message s message).
Proof. unfold after_message. mono. Qed.

#[export] Instance mono_turn (s : @LoopState W) : Mono (turn s).
Proof. unfold turn. mono. Qed.

#[export] Instance mono_after_turn (s : @LoopState W) more explicit : Mono (after_turn s more explicit).
Proof. unfold after_turn. mono. Qed.

#[export] Instance mono_loop fuel (s : @LoopState W) : Mono (loop fuel s).
Proof. revert s. induction fuel; intros; cbn [loop]; mono. Qed.

#[export] Instance mono_runLoop fuel current new config : Mono (runLoop (W := W) fuel current new config).
Proof. unfold runLoop. mono. Qed.
End Mono.

(** ** Definitions *)

(** What is known of a run that has found its context cancelled; a theorem
    about one run takes it to be that this run has. *)
Class Observed : Type := observed : Prop.

Section Triples.
Context {W : Type} {Ob : Observed}.

Definition triple {A} (m : M W A) (Q : A -> list AgentEvent -> Prop) (X : raised -> list AgentEvent -> Prop) : Prop :=
  forall r, (r_seen (m r).2 = true -> observed) ->
            match m r with
            | (Ok a, r') => exists evs, r_events r' = r_events r ++ evs /\ Q a evs
            | (Err x, r') => exists evs, r_events r' = r_events r ++ evs /\ X x evs
            end.

(** A premise of a rule whose instances are found with the rule. *)
Definition given {P : Prop} (H : P) (Q : Prop) : Prop := Q.

(** A computation that emits nothing, and may panic only by a hook. *)
Definition is_panic (x : raised) : Prop := match x with Panicked _ => True | EmitFailed _ => False end.

Definition quiet {A} (m : M W A) (P : A -> Prop) : Prop :=
  triple m (fun a evs => evs = [] /\ P a) (fun x evs => evs = [] /\ is_panic x).

(** One that does not panic either. *)
Definition calm {A} (m : M W A) (P : A -> Prop) : Prop :=
  triple m (fun a evs => evs = [] /\ P a) (fun _ _ => False).

(** ** Rules *)

Lemma run_bind {A B} (m : M W A) (k : A -> M W B) r a r1 : m r = (Ok a, r1) -> (m ≫= k) r = k a r1.
Proof. unfold mbind, M_bind. by intros ->. Qed.

Lemma triple_ret {A} (a : A) (Q : A -> list AgentEvent -> Prop) X : Q a [] -> triple (mret a) Q X.
Proof. intros H r _. cbn. exists []. by rewrite app_nil_r. Qed.

Lemma triple_raise {A} x (Q : A -> list AgentEvent -> Prop) (X : raised -> list AgentEvent -> Prop) : X x [] -> triple (raise x) Q X.
Proof. intros H r _. cbn. exists []. by rewrite app_nil_r. Qed.

Lemma triple_bind {A B} (m : M W A) (k : A -> M W B) {Hmono : forall a, Mono (k a)} Q1 (Q : B -> list AgentEvent -> Prop) X :
  given Hmono (triple m Q1 X) ->
  (forall a evs, Q1 a evs -> triple (k a) (fun b evs' => Q b (evs ++ evs')) (fun x evs' => X x (evs ++ evs'))) ->
  triple (m ≫= k) Q X.
Proof.
  intros Hm Hk r. specialize (Hm r). unfold mbind, M_bind. destruct (m r) as [[a|x] r1]; [|done]. intros Hs.
  destruct Hm as (evs & E & H); [intros Hs1; by apply Hs, Hmono|]. specialize (Hk a evs H r1 Hs).
  destruct (k a r1) as [[b|x] r2]; destruct Hk as (evs' & E' & H'); exists (evs ++ evs'); by rewrite E', E, <- app_assoc.
Qed.

Lemma triple_weaken {A} (m : M W A) (Q Q' : A -> list AgentEvent -> Prop) (X X' : raised -> list AgentEvent -> Prop) :
  triple m Q X -> (forall a evs, Q a evs -> Q' a evs) -> (forall x evs, X x evs -> X' x evs) -> triple m Q' X'.
Proof. intros H HQ HX r Hs. specialize (H r Hs). destruct (m r) as [[a|x] r']; destruct H as (evs & E & H); eauto. Qed.

(** Silent steps: the rest is judged as if they were not there. *)
Lemma triple_calm {A B} (m : M W A) (k : A -> M W B) {Hmono : forall a, Mono (k a)} P (Q : B -> list AgentEvent -> Prop) X :
  given Hmono (calm m P) -> (forall a, P a -> triple (k a) Q X) -> triple (m ≫= k) Q X.
Proof.
  intros Hm Hk. eapply triple_bind; [eapply triple_weaken; [exact Hm|intros a evs H; exact H|done]|].
  intros a evs [-> H]. cbn. auto.
Qed.

Lemma triple_quiet {A B} (m : M W A) (k : A -> M W B) {Hmono : forall a, Mono (k a)} P (Q : B -> list AgentEvent -> Prop) X :
  given Hmono (quiet m P) -> (forall v, X (Panicked v) []) -> (forall a, P a -> triple (k a) Q X) -> triple (m ≫= k) Q X.
Proof.
  intros Hm HX Hk. eapply triple_bind; [eapply triple_weaken; [exact Hm|intros a evs H; exact H|]|].
  - intros [e|v] evs [-> H]; [done|auto].
  - intros a evs [-> H]. cbn. auto.
Qed.

Lemma calm_quiet {A} (m : M W A) P : calm m P -> quiet m P.
Proof. intros H. eapply triple_weaken; [exact H|done|done]. Qed.

Lemma quiet_ret {A} (a : A) (P : A -> Prop) : P a -> quiet (mret a) P.
Proof. intros H. by apply triple_ret. Qed.

Lemma quiet_bind {A B} (m : M W A) (k : A -> M W B) {Hmono : forall a, Mono (k a)} P Q :
  given Hmono (quiet m P) -> (forall a, P a -> quiet (k a) Q) -> quiet (m ≫= k) Q.
Proof. intros Hm Hk. eapply triple_quiet; [exact Hm|done|exact Hk]. Qed.

Lemma quiet_weaken {A} (m : M W A) (P P' : A -> Prop) : quiet m P -> (forall a, P a -> P' a) -> quiet m P'.
Proof. intros H HP. eapply triple_weaken; [exact H|naive_solver|done]. Qed.

Lemma quiet_call {A} (h : Hook W A) : quiet (call h) (fun a => exists w w', h w = (Ok a, w')).
Proof.
  intros r _. unfold call. destruct (h (r_world r)) as [[a|v] w] eqn:E; exists []; cbn; rewrite app_nil_r; split_and!; eauto.
Qed.

Lemma calm_lift {A} (f : W -> A * W) (P : A -> Prop) : (forall w, P (f w).1) -> calm (lift f) P.
Proof. intros H r _. specialize (H (r_world r)). unfold lift. destruct (f (r_world r)). exists []. cbn in *. by rewrite app_nil_r. Qed.

(** A recovered panic of a quiet computation leaves no trace. *)
Lemma calm_recovering {A} (m : M W A) handler (P : A -> Prop) :
  quiet m P -> (forall v, P (handler v)) -> calm (recovering m handler) P.
Proof.
  intros Hm HP r Hs. specialize (Hm r). unfold recovering in *. destruct (m r) as [[a|[e|v]] r']; specialize (Hm Hs); [done| |].
  - destruct Hm as (evs & _ & _ & []).
  - destruct Hm as (evs & E & -> & _). exists []. auto.
Qed.

Context {R : Runtime W}.

Lemma calm_aborted : calm aborted (fun b => b = true -> observed).
Proof.
  intros r. unfold aborted. destruct (rt_cancelled (r_world r)) as [b w]. cbn. intros Hs. exists []. rewrite app_nil_r. split_and!; [done|done|].
  intros ->. apply Hs, orb_true_r.
Qed.

(** A step of the world. *)
Lemma triple_work {A} (work : W -> W) (k : W -> M W A) (Q : A -> list AgentEvent -> Prop) X :
  (forall w, triple (k w) Q X) -> triple (fun r => k (r_world r) (in_world (work (r_world r)) r)) Q X.
Proof. intros Hk r Hs. exact (Hk (r_world r) (in_world (work (r_world r)) r) Hs). Qed.

Lemma calm_now : calm nowMillis (fun _ => True).
Proof. by apply calm_lift. Qed.

Lemma quiet_or_panic {A} (o : option A) : quiet (or_panic o) (fun a => o = Some a).
Proof. destruct o; cbn; [by apply triple_ret|by apply triple_raise]. Qed.

Lemma triple_emit event (Q : option string -> list AgentEvent -> Prop) X :
  (forall w, Q (rt_emit event w).1 [event]) -> triple (emit event) Q X.
Proof. intros H r _. specialize (H (r_world r)). unfold emit. destruct (rt_emit event (r_world r)). by exists [event]. Qed.

(** ** The sink

    [X] holds of the errors of the sink; with [X] false the sink never
    fails. *)

Definition sink_errors (X : raised -> Prop) : Prop :=
  forall event w e, (rt_emit event w).1 = Some e -> X (EmitFailed e).

Lemma triple_mustEmit X event :
  sink_errors X -> triple (mustEmit event) (fun _ evs => evs = [event]) (fun x _ => X x).
Proof.
  intros HX. eapply triple_bind with (Q1 := fun e evs => evs = [event] /\ forall m, e = Some m -> X (EmitFailed m)).
  - apply triple_emit. intros w. split; [done|]. intros m. apply HX.
  - intros [m|] evs [-> H]; [apply triple_raise; auto|by apply triple_ret].
Qed.

(** What follows an event. *)
Lemma emit_then {B} X event (k : unit -> M W B) {Hmono : forall u, Mono (k u)} (Q : B -> list AgentEvent -> Prop) :
  given Hmono (sink_errors X) -> triple (k tt) (fun b evs => Q b (event :: evs)) (fun x _ => X x) ->
  triple (mustEmit event ≫= k) Q (fun x _ => X x).
Proof.
  intros HX Hk. eapply triple_bind; [by apply triple_mustEmit|]. intros [] evs ->. exact Hk.
Qed.
End Triples.

(** * What the events of a run tell

    The life of a run as a machine over its events, the tools running after
    them, and the messages they end; all three are computed piece by piece. *)

(** ** Definitions *)

(** [Ready] is between turns. *)
Inductive phase := Idle | Ready | InTurn | InMessage | Over.

Definition live (p : phase) (e : AgentEvent) : option phase :=
  match p, e with
  | Idle, EvAgentStart => Some Ready
  | Ready, EvTurnStart => Some InTurn
  | Ready, EvAgentEnd _ => Some Over
  | InTurn, EvMessageStart _ => Some InMessage
  | InTurn, EvToolExecutionStart _ _ _ => Some InTurn
  | InTurn, EvToolExecutionUpdate _ _ _ _ => Some InTurn
  | InTurn, EvToolExecutionEnd _ _ _ _ => Some InTurn
  | InTurn, EvTurnEnd _ _ => Some Ready
  | InMessage, EvMessageUpdate _ _ => Some InMessage
  | InMessage, EvMessageEnd _ => Some InTurn
  | _, _ => None
  end.

(** How many executions of the call [id] are going on; updates and ends are
    only for those. *)
Definition open_one (id : string) (n : nat) (e : AgentEvent) : option nat :=
  match e with
  | EvToolExecutionStart i _ _ => Some (if String.eqb i id then S n else n)
  | EvToolExecutionUpdate i _ _ _ => if String.eqb i id then (match n with O => None | S _ => Some n end) else Some n
  | EvToolExecutionEnd i _ _ _ => if String.eqb i id then (match n with O => None | S n => Some n end) else Some n
  | _ => Some n
  end.

Fixpoint follow {S} (step : S -> AgentEvent -> option S) (s : S) (evs : list AgentEvent) : option S :=
  match evs with
  | [] => Some s
  | e :: rest => s ← step s e; follow step s rest
  end.

Definition lives (p : phase) (evs : list AgentEvent) : option phase := follow live p evs.

Definition opens (id : string) (n : nat) (evs : list AgentEvent) : option nat := follow (open_one id) n evs.

(** The messages that end among the events: what a listener appends. *)
Definition ended_one (e : AgentEvent) : option Message := match e with EvMessageEnd m => Some m | _ => None end.

Definition ended (evs : list AgentEvent) : list Message := omap ended_one evs.

(** What the turns end with. *)
Definition turn_end_one (e : AgentEvent) : option (Message * list ToolResultMessage) :=
  match e with EvTurnEnd m results => Some (m, results) | _ => None end.

Definition turn_ends (evs : list AgentEvent) : list (Message * list ToolResultMessage) := omap turn_end_one evs.

(** A part of a turn: the tools running before and after, the messages. *)
Record seg (before : string -> nat) (messages : list Message) (after : string -> nat) (evs : list AgentEvent) : Prop := {
  sg_lives : lives InTurn evs = Some InTurn;
  sg_opens : forall id n, opens id (n + before id)%nat evs = Some (n + after id)%nat;
  sg_ended : ended evs = messages;
  sg_turns : turn_ends evs = [];
}.

Definition idle : string -> nat := fun _ => O.

(** ** Lemmas *)

Lemma follow_app {S} (step : S -> AgentEvent -> option S) s a b : follow step s (a ++ b) = follow step s a ≫= fun s => follow step s b.
Proof.
  revert s. induction a as [|e a IH]; intros s; [done|]. cbn. destruct (step s e); [apply IH|done].
Qed.

Lemma lives_app p a b : lives p (a ++ b) = lives p a ≫= fun p => lives p b.
Proof. apply follow_app. Qed.

Lemma opens_app id n a b : opens id n (a ++ b) = opens id n a ≫= fun n => opens id n b.
Proof. apply follow_app. Qed.

Lemma ended_app a b : ended (a ++ b) = ended a ++ ended b.
Proof. apply omap_app. Qed.

Lemma turn_ends_app a b : turn_ends (a ++ b) = turn_ends a ++ turn_ends b.
Proof. apply omap_app. Qed.

Lemma seg_nil f : seg f [] f [].
Proof. by split. Qed.

Lemma seg_app f g h a b m1 m2 : seg f m1 g a -> seg g m2 h b -> seg f (m1 ++ m2) h (a ++ b).
Proof.
  intros [L O E T] [L' O' E' T']. split.
  - rewrite lives_app, L. exact L'.
  - intros id n. rewrite opens_app, O. apply O'.
  - by rewrite ended_app, E, E'.
  - by rewrite turn_ends_app, T, T'.
Qed.

Lemma seg_ext f f' g g' m evs : seg f m g evs -> (forall id, f id = f' id) -> (forall id, g id = g' id) -> seg f' m g' evs.
Proof. intros [L O E T] Hf Hg. split; [done| |done|done]. intros id n. rewrite <- Hf, <- Hg. apply O. Qed.

(** Executions that go on meanwhile. *)
Lemma seg_frame h f m g evs : seg f m g evs -> seg (fun id => h id + f id)%nat m (fun id => h id + g id)%nat evs.
Proof. intros [L O E T]. split; [done| |done|done]. intros id n. rewrite !Nat.add_assoc. apply O. Qed.

(** A message that is only announced. *)
Lemma seg_message f m : seg f [m] f [EvMessageStart m; EvMessageEnd m].
Proof. by split. Qed.

(** One more execution of a call, one less. *)
Definition one (c : ToolCall) (id : string) : nat := if String.eqb (tl_ID c) id then 1 else O.

Lemma seg_start f c : seg f [] (fun id => one c id + f id)%nat [start_event c].
Proof.
  split; [done| |done|done]. intros id n. cbn. unfold one. destruct (String.eqb (tl_ID c) id); f_equal; lia.
Qed.

Lemma seg_update f c r : seg (fun id => one c id + f id)%nat [] (fun id => one c id + f id)%nat [update_event c r].
Proof.
  split; [done| |done|done]. intros id n. cbn. unfold one. destruct (String.eqb (tl_ID c) id); [|done].
  by rewrite Nat.add_succ_r.
Qed.

Lemma seg_end f c o : fo_toolCall o = c -> seg (fun id => one c id + f id)%nat [] f [end_event o].
Proof.
  intros <-. split; [done| |done|done]. intros id n. cbn. unfold one. destruct (String.eqb _ id); [|done].
  by rewrite Nat.add_succ_r.
Qed.

(** * Batches of tool calls

    The calls of a message are answered in order, one result each, whether
    they run one after the other or at once and however the goroutines are
    scheduled; only a cancellation leaves the last ones unanswered. *)

(** ** Definitions *)

(** A result carries the call's identifier and name. *)
Definition answers (c : ToolCall) (m : ToolResultMessage) : Prop := tr_ToolCallID m = tl_ID c /\ tr_ToolName m = tl_Name c.

Definition outcome_for (c : ToolCall) (o : finalizedOutcome) : Prop := fo_toolCall o = c.

(** The calls that were answered: all of them, or if the context was found
    [cancelled] the first ones, and never none of many. *)
Definition attempted (cancelled : Prop) (calls answered : list ToolCall) : Prop :=
  exists rest, calls = answered ++ rest /\ (calls <> [] -> answered <> []) /\ (rest = [] \/ cancelled).

Lemma attempted_all cancelled calls : attempted cancelled calls calls.
Proof. exists []. rewrite app_nil_r. by split_and!; [| |left]. Qed.

Lemma attempted_stop (cancelled : Prop) c rest : cancelled -> attempted cancelled (c :: rest) [c].
Proof. intros H. exists rest. by split_and!; [| |right]. Qed.

Lemma attempted_cons cancelled c calls answered : attempted cancelled calls answered -> attempted cancelled (c :: calls) (c :: answered).
Proof. intros (rest & -> & _ & H). by exists rest. Qed.

Section Batch.
Context {W : Type} {R : Runtime W} {Ob : Observed}.

(** The slot of a call: its outcome, or its goroutine. *)
Definition slot_of (c : ToolCall) (s : @slot W) : Prop :=
  match s with
  | Done o => fo_toolCall o = c
  | Running p _ _ => pt_toolCall p = c
  | Gone => False
  end.

Definition weight (s : @slot W) (id : string) : nat :=
  match s with Running p _ _ => one (pt_toolCall p) id | _ => O end.

Fixpoint running (slots : list (@slot W)) (id : string) : nat :=
  match slots with [] => O | s :: rest => weight s id + running rest id end.

Definition settled (pool : @Pool W) (i : nat) : Prop := forall p t e, pl_slots pool !! i <> Some (Running p t e).

(** ** Preparing, running and reporting one call *)

Definition prepared_for (c : ToolCall) (p : @prepareResult W) : Prop :=
  match p with Prepared p => pt_toolCall p = c | Immediate _ => True end.

Lemma prepareToolCall_calm current message c config : calm (prepareToolCall current message c config) (prepared_for c).
Proof.
  unfold prepareToolCall. destruct (findTool _ _) as [tool|]; [|by apply triple_ret].
  apply calm_recovering; [|done]. eapply quiet_bind with (P := fun _ => True).
  - unfold prepared_call. destruct (tool_PrepareArguments tool); [|by apply quiet_ret].
    eapply quiet_bind; [apply quiet_call|]. intros. by apply quiet_ret.
  - intros prepared _. destruct (rt_validate _ _); [|by apply quiet_ret]. eapply quiet_bind with (P := fun _ => True).
    + unfold before_call. destruct (cf_BeforeToolCall config); [|by apply quiet_ret].
      eapply quiet_bind; [apply quiet_call|]. intros [b args] _.
      eapply quiet_bind; [apply calm_quiet, calm_aborted|]. intros. by apply quiet_ret.
    + intros [[o|] args] _; [by apply quiet_ret|].
      eapply quiet_bind; [apply calm_quiet, calm_aborted|]. intros [] _; by apply quiet_ret.
Qed.

Lemma finalize_calm current message (p : @preparedToolCall W) o config :
  calm (finalizeExecutedToolCall current message p o config) (outcome_for (pt_toolCall p)).
Proof.
  unfold finalizeExecutedToolCall. destruct (cf_AfterToolCall config); [|by apply triple_ret].
  apply calm_recovering; [|done]. eapply quiet_bind; [apply quiet_call|]. intros. by apply quiet_ret.
Qed.

Section Sink.
Context (X : raised -> Prop) (HX : sink_errors X).

(** An update's error was the sink's. *)
Definition from_sink (e : option string) : Prop := forall m, e = Some m -> X (EmitFailed m).

Lemma first_from_sink a b : from_sink a -> from_sink b -> from_sink (first_error a b).
Proof. destruct a; done. Qed.

Lemma emit_spec event : triple (emit event) (fun e evs => evs = [event] /\ from_sink e) (fun x _ => X x).
Proof. apply triple_emit. intros w. split; [done|]. intros m. apply HX. Qed.

Lemma executed_spec {A} e (o : A) : from_sink e -> triple (executed (W:=W) e o) (fun a evs => evs = [] /\ a = o) (fun x _ => X x).
Proof. intros H. destruct e; cbn; [apply triple_raise; by apply H|by apply triple_ret]. Qed.

Lemma execute_run_spec c t e f :
  from_sink e ->
  triple (execute_run c t e) (fun _ evs => seg (fun id => one c id + f id)%nat [] (fun id => one c id + f id)%nat evs) (fun x _ => X x).
Proof.
  revert e. induction t as [work next IH|partial next IH|res|m|m]; intros e He; cbn [execute_run].
  - apply (triple_work work (fun w => execute_run c (next w) e)). intros w. by apply IH.
  - eapply triple_bind; [apply emit_spec|]. intros e' evs [-> He'].
    eapply triple_weaken; [apply IH, first_from_sink; done| |done]. cbn. intros _ evs H.
    apply (seg_app _ _ _ [_] _ [] [] (seg_update f c partial) H).
  - eapply triple_weaken; [by apply executed_spec| |done]. intros _ evs [-> _]. apply seg_nil.
  - eapply triple_weaken; [by apply executed_spec| |done]. intros _ evs [-> _]. apply seg_nil.
  - eapply triple_weaken; [by apply executed_spec| |done]. intros _ evs [-> _]. apply seg_nil.
Qed.

(** What comes when the tool has returned is not emitted. *)
Lemma late_calm c partials : calm (late_updates c partials) (fun _ => True).
Proof.
  induction partials as [|partial rest IH]; cbn [late_updates onUpdate]; [by apply triple_ret|].
  eapply triple_calm with (P := fun _ => True); [by apply triple_ret|]. intros _ _. exact IH.
Qed.

Lemma report_spec c o f :
  fo_toolCall o = c -> triple (report o) (fun m evs => answers c m /\ seg f [tool_result m] f evs) (fun x _ => X x).
Proof.
  intros <-. unfold report, createToolResultMessage.
  eapply triple_calm with (P := answers (fo_toolCall o)).
  - eapply triple_calm; [apply calm_now|]. intros now _. by apply triple_ret.
  - intros m Hm. eapply triple_bind with (Q1 := fun _ evs => evs = [EvMessageStart (tool_result m); EvMessageEnd (tool_result m)]).
    + eapply emit_then; [done|]. eapply triple_weaken; [by apply triple_mustEmit| |done]. by intros _ evs ->.
    + intros _ evs ->. apply triple_ret. split; [done|]. apply seg_message.
Qed.

Lemma run_call_spec current message c config f :
  triple (run_call current message c config)
    (fun o evs => fo_toolCall o.1 = c /\ seg (fun id => one c id + f id)%nat [] (fun id => one c id + f id)%nat evs) (fun x _ => X x).
Proof.
  unfold run_call. eapply triple_calm; [apply prepareToolCall_calm|]. intros [o|p] Hp.
  - apply triple_ret. split; [done|]. apply seg_nil.
  - cbn in Hp. eapply triple_bind; [by apply (execute_run_spec _ _ _ f)|]. intros o evs Hs.
    eapply triple_calm; [apply finalize_calm|]. intros a Ha. eapply triple_calm; [by apply calm_lift with (P := fun _ => True)|].
    intros late _. apply triple_ret. rewrite app_nil_r. unfold outcome_for in Ha. cbn. by rewrite Ha, Hp in *.
Qed.

(** ** One call after the other *)

Lemma run_calls_spec current message calls config :
  triple (run_calls current message calls config)
    (fun l evs => exists answered, attempted observed calls answered /\ Forall2 answers answered l.*2 /\
       Forall2 outcome_for answered l.*1 /\ seg idle (tool_result <$> l.*2) idle evs) (fun x _ => X x).
Proof.
  induction calls as [|c calls IH]; cbn [run_calls].
  - apply triple_ret. exists []. split_and!; [apply attempted_all|constructor..|apply seg_nil].
  - eapply emit_then; [done|]. eapply triple_bind; [apply (run_call_spec _ _ _ _ idle)|]. intros [o late] e1 [Ho H1]. cbn in Ho. cbn.
    eapply triple_bind; [by apply triple_mustEmit|]. intros _ ? ->. cbn.
    eapply triple_calm; [apply late_calm|]. intros _ _.
    eapply triple_bind; [by apply (report_spec c o idle)|]. intros m e2 [Hm H2]. cbn.
    assert (seg idle [tool_result m] idle (start_event c :: e1 ++ end_event o :: e2)) as Hs.
    { apply (seg_app _ _ _ [_] _ [] _ (seg_start idle c)), (seg_app _ _ _ _ _ [] _ H1).
      by apply (seg_app _ _ _ [_] _ [] _ (seg_end idle c o Ho)). }
    eapply triple_calm; [apply calm_aborted|].
    intros [] Hb.
    + apply triple_ret. rewrite app_nil_r. exists [c]. split_and!;
        [by apply attempted_stop, Hb|by constructor|by constructor|exact Hs].
    + eapply triple_bind; [apply IH|]. intros others e3 (answered & Ha & Hr & Ho' & H3). apply triple_ret.
      exists (c :: answered). split_and!; [by apply attempted_cons|by constructor|by constructor|].
      rewrite app_nil_r. rewrite !app_comm_cons, !app_assoc, <- !app_assoc.
      pose proof (seg_app _ _ _ _ _ _ _ Hs H3) as H. cbn in H. by rewrite <- !app_assoc in H.
Qed.
End Sink.
End Batch.
