(* ===== verification/AgentPool.v ===== *)
(** * Batches run at once

    The goroutines of a batch take their steps in any order.  [moves] is what
    every such step does to the pool; it composes, so that whatever the
    schedule the batch ends with the outcome of each call in its slot. *)

From S2P Require Import Prelude GoText PiModel TransformMessages Transcript AgentModel ToolState AgentLoop AgentRules.

(** ** Definitions *)

Section Pool.
Context {W : Type} {R : Runtime W} {Ob : Observed}.
Context (X : raised -> Prop) (HX : sink_errors X).

(** The errors updates met are the sink's. *)
Definition sound (slots : list (@slot W)) : Prop := forall i p t e, slots !! i = Some (Running p t e) -> from_sink X e.

Record moves (calls : list ToolCall) (pool pool' : @Pool W) (evs : list AgentEvent) : Prop := {
  mv_length : length (pl_slots pool') = length (pl_slots pool);
  mv_panic : forall x, pl_panic pool' = Some x -> pl_panic pool = Some x \/ X x;
  mv_sound : sound (pl_slots pool');
  mv_none : pl_panic pool' = None -> pl_panic pool = None;
  mv_slots : pl_panic pool' = None -> Forall2 slot_of calls (pl_slots pool');
  mv_seg : pl_panic pool' = None -> seg (running (pl_slots pool)) [] (running (pl_slots pool')) evs;
  mv_settled : forall i, settled pool i -> settled pool' i;
}.

(** ** Lemmas *)

(** The pool a batch starts with, or goes on with. *)
Definition pool_ok (calls : list ToolCall) (pool : @Pool W) : Prop :=
  sound (pl_slots pool) /\ (pl_panic pool = None -> Forall2 slot_of calls (pl_slots pool)).

Lemma moves_refl calls pool : pool_ok calls pool -> moves calls pool pool [].
Proof. intros [H1 H2]. split; auto using seg_nil. Qed.

Lemma moves_trans calls a b c e1 e2 : moves calls a b e1 -> moves calls b c e2 -> moves calls a c (e1 ++ e2).
Proof.
  intros [L1 P1 D1 N1 S1 G1 T1] [L2 P2 D2 N2 S2 G2 T2]. split; auto.
  - congruence.
  - intros x [H|H]%P2; auto.
  - intros H. apply (seg_app _ (running (pl_slots b)) _ _ _ [] []); auto.
Qed.

Lemma moves_ok calls a b e : moves calls a b e -> pool_ok calls b.
Proof. intros H. split; [apply (mv_sound _ _ _ _ H)|apply (mv_slots _ _ _ _ H)]. Qed.

Lemma running_insert (slots : list (@slot W)) i s0 s id :
  slots !! i = Some s0 -> (running (<[i := s]> slots) id + weight s0 id = running slots id + weight s id)%nat.
Proof.
  revert i. induction slots as [|x slots IH]; intros [|i] H; try discriminate H.
  - injection H as ->. change (<[0%nat := s]> (s0 :: slots)) with (s :: slots). cbn [running]. lia.
  - specialize (IH i H). change (<[S i := s]> (x :: slots)) with (x :: <[i := s]> slots). cbn [running]. lia.
Qed.

(** What one goroutine does between two moments at which others may run. *)
Definition slot_moves (p : @preparedToolCall W) (f : string -> nat) (s : @slot W) (evs : list AgentEvent) : Prop :=
  slot_of (pt_toolCall p) s /\ (forall p' t e, s = Running p' t e -> from_sink X e) /\
  seg (fun id => one (pt_toolCall p) id + f id)%nat [] (fun id => weight s id + f id)%nat evs.

Lemma conclude_spec current message config p e o f :
  from_sink X e -> triple (conclude current message config p e o) (fun s evs => slot_moves p f s evs /\ exists o, s = Done o) (fun x _ => X x).
Proof.
  intros He. unfold conclude. eapply triple_bind; [by apply executed_spec|]. intros a evs [-> ->]. cbn.
  eapply triple_calm; [apply finalize_calm|]. intros out Hout. eapply emit_then; [done|].
  eapply triple_calm; [by apply calm_lift with (P := fun _ => True)|]. intros late _. eapply triple_calm; [apply late_calm|]. intros _ _. apply triple_ret.
  split; [|by exists out]. split_and!; [done|done|]. by apply seg_end.
Qed.

Lemma step_slot_spec current message config p t e f :
  from_sink X e -> triple (step_slot current message config p t e) (slot_moves p f) (fun x _ => X x).
Proof.
  intros He. destruct t as [work next|partial next|res|m|m]; cbn [step_slot].
  - intros r _. exists []. cbn. rewrite app_nil_r. split; [done|]. split_and!; [done|by intros ? ? ? [= <- <- <-]|]. apply seg_nil.
  - eapply triple_bind; [by apply emit_spec|]. intros err evs [-> Herr]. apply triple_ret.
    split_and!; [done|intros ? ? ? [= <- <- <-]; by apply first_from_sink|apply seg_update].
  - eapply triple_weaken; [by apply conclude_spec|by intros ? ? [? _]|done].
  - eapply triple_weaken; [by apply conclude_spec|by intros ? ? [? _]|done].
  - eapply triple_weaken; [by apply conclude_spec|by intros ? ? [? _]|done].
Qed.

Lemma finish_slot_spec current message config p t e f :
  from_sink X e ->
  triple (finish_slot current message config p t e) (fun s evs => slot_moves p f s evs /\ exists o, s = Done o) (fun x _ => X x).
Proof.
  revert e. induction t as [work next IH|partial next IH|res|m|m]; intros e He; cbn [finish_slot];
    [| |by apply conclude_spec..].
  - apply (triple_work work (fun w => finish_slot current message config p (next w) e)). intros w. by apply IH.
  - eapply triple_bind; [by apply emit_spec|]. intros err evs [-> Herr].
    eapply triple_weaken; [by apply IH, first_from_sink| |done]. intros s evs [(Hs & He' & Hg) Ho].
    split; [|done]. split_and!; [done|done|]. apply (seg_app _ _ _ [_] _ [] [] (seg_update f _ partial) Hg).
Qed.

(** Goroutine [i] moved: its slot is filled or its panic kept. *)
Lemma in_slot_spec calls m pool i p t e :
  pl_slots pool !! i = Some (Running p t e) -> pool_ok calls pool ->
  (from_sink X e -> forall f, triple m (slot_moves p f) (fun x _ => X x)) ->
  triple (in_slot m i pool) (fun pool' evs => moves calls pool pool' evs) (fun _ _ => False).
Proof.
  intros Hi [Hsd Hok] Hm r. specialize (Hm (Hsd _ _ _ _ Hi)). unfold in_slot. pose proof (fun f => Hm f r) as Hr. destruct (m r) as [[s|x] r']; cbn [snd] in *;
    intros Hseen; pose proof (fun f => Hr f Hseen) as Hr'; clear Hr; rename Hr' into Hr.
  - destruct (Hr idle) as (evs & E & _). exists evs. split; [done|].
    assert (forall f, slot_moves p f s evs) as Hs.
    { intros f. destruct (Hr f) as (evs' & E' & H). rewrite E' in E. by apply app_inv_head in E as ->. }
    clear Hr. split; cbn [pl_slots pl_panic]; auto.
    + by rewrite length_insert.
    + intros j p' t' e'. destruct (decide (i = j)) as [<-|Hne]; [|rewrite list_lookup_insert_ne by done; apply Hsd].
      rewrite list_lookup_insert_eq by (by eapply lookup_lt_Some). intros [= ->]. by eapply (Hs idle).
    + intros Hn. specialize (Hok Hn). rewrite Forall2_lookup in *. intros j. specialize (Hok j).
      destruct (decide (i = j)) as [<-|Hne]; [|by rewrite list_lookup_insert_ne].
      rewrite Hi in Hok. inversion Hok as [c ? Hc Ec E1|]; subst. cbn in Hc.
      rewrite list_lookup_insert_eq by (by eapply lookup_lt_Some). constructor. rewrite <- Hc. apply (Hs idle).
    + intros _. destruct (Hs (fun id => running (pl_slots pool) id - one (pt_toolCall p) id)%nat) as (_ & _ & Hg).
      eapply seg_ext; [exact Hg| |]; intros id; cbn beta;
        pose proof (running_insert _ i _ s id Hi) as E2; pose proof (running_insert _ i _ (Gone (W:=W)) id Hi) as E3; cbn in E2, E3; lia.
    + intros j Hj p' t' e'. destruct (decide (i = j)) as [<-|Hne]; cbn; [|rewrite list_lookup_insert_ne by done; apply Hj].
      exfalso. by apply (Hj p t e).
  - destruct (Hr idle) as (evs & E & Hx). exists evs. split; [done|]. split; cbn [pl_slots pl_panic].
    + by rewrite length_insert.
    + intros y. destruct (pl_panic pool); cbn; [auto|]. intros [= <-]. auto.
    + intros j p' t' e'. destruct (decide (i = j)) as [<-|Hne]; [|rewrite list_lookup_insert_ne by done; apply Hsd].
      by rewrite list_lookup_insert_eq by (by eapply lookup_lt_Some).
    + by destruct (pl_panic pool).
    + by destruct (pl_panic pool).
    + by destruct (pl_panic pool).
    + intros j Hj p' t' e'. destruct (decide (i = j)) as [<-|Hne]; cbn; [|rewrite list_lookup_insert_ne by done; apply Hj].
      exfalso. by apply (Hj p t e).
Qed.
(** ** Waiting for the goroutines *)

Lemma slot_pool_spec calls i pool (m : @preparedToolCall W -> ToolRun W -> option string -> M W slot) :
  pool_ok calls pool ->
  (forall p t e f, from_sink X e -> triple (m p t e) (slot_moves p f) (fun x _ => X x)) ->
  triple (match pl_slots pool !! i with Some (Running p t e) => in_slot (m p t e) i pool | _ => mret pool end)
    (moves calls pool) (fun _ _ => False).
Proof.
  intros Hok Hm. destruct (pl_slots pool !! i) as [[o|p t e|]|] eqn:E; try (by apply triple_ret, moves_refl).
  eapply in_slot_spec; eauto.
Qed.

Lemma run_schedule_spec current message config schedule calls pool :
  pool_ok calls pool -> triple (run_schedule current message config schedule pool) (moves calls pool) (fun _ _ => False).
Proof.
  revert pool. induction schedule as [|i schedule IH]; intros pool Hok; [by apply triple_ret, moves_refl|].
  eapply triple_bind; [apply slot_pool_spec; [done|by intros; apply step_slot_spec]|]. intros pool' e1 H1.
  eapply triple_weaken; [eapply IH, moves_ok, H1| |done]. intros pool'' e2. by apply moves_trans.
Qed.

(** A goroutine finished leaves a slot with no goroutine. *)
Lemma finish_pool_spec current message config calls pool i :
  pool_ok calls pool ->
  triple (finish_pool current message config i pool) (fun pool' evs => moves calls pool pool' evs /\ settled pool' i) (fun _ _ => False).
Proof.
  intros Hok r. unfold finish_pool. destruct (pl_slots pool !! i) as [[o|p t e|]|] eqn:E;
    try (intros _; eexists []; rewrite app_nil_r; split_and!; [done|by apply moves_refl|by intros ? ? ?; rewrite E]).
  pose proof (in_slot_spec calls (finish_slot current message config p t e) pool i p t e E Hok) as Hs.
  assert (from_sink X e) as He by (eapply (proj1 Hok); exact E).
  specialize (Hs (fun _ f => triple_weaken _ _ _ _ _ (finish_slot_spec current message config p t e f He) (fun _ _ H => proj1 H) (fun _ _ H => H)) r).
  pose proof (finish_slot_spec current message config p t e idle He r) as Hd. unfold in_slot in *.
  assert (i < length (pl_slots pool))%nat as Hlt by (by eapply lookup_lt_Some).
  destruct (finish_slot current message config p t e r) as [[s|x] r']; cbn [snd] in *; intros Hseen; specialize (Hs Hseen); specialize (Hd Hseen).
  - destruct Hs as (evs & Ev & Hm). exists evs. split_and!; [done|done|]. destruct Hd as (_ & _ & _ & o & ->).
    intros p' t' e'. cbn. by rewrite list_lookup_insert_eq.
  - destruct Hs as (evs & Ev & Hm). exists evs. split_and!; [done|done|].
    intros p' t' e'. cbn. by rewrite list_lookup_insert_eq.
Qed.

Lemma finish_all_spec current message config calls l pool0 m :
  triple m (moves calls pool0) (fun _ _ => False) ->
  triple (foldl (fun m i => pool ← m; finish_pool current message config i pool) m l)
    (fun pool evs => moves calls pool0 pool evs /\ forall i, i ∈ l -> settled pool i) (fun _ _ => False).
Proof.
  intros Hm. induction l as [|i l IH] using rev_ind.
  - eapply triple_weaken; [exact Hm| |done]. intros pool evs H. split; [done|]. intros i Hi. inversion Hi.
  - rewrite foldl_snoc. eapply triple_bind; [exact IH|]. intros pool e1 [H1 Hs1].
    eapply triple_weaken; [eapply finish_pool_spec, moves_ok, H1| |done]. intros pool' e2 [H2 Hs2].
    split; [by eapply moves_trans|]. intros j [Hj| ->%list_elem_of_singleton]%elem_of_app; [|done].
    eapply mv_settled; [exact H2|auto].
Qed.

Lemma wait_spec current message config schedule calls slots :
  pool_ok calls (mkPool slots None) ->
  triple (wait current message config schedule slots)
    (fun pool evs => moves calls (mkPool slots None) pool evs /\ forall i, settled pool i) (fun _ _ => False).
Proof.
  intros Hok. unfold wait. eapply triple_bind; [by apply run_schedule_spec|]. intros pool e1 H1.
  eapply triple_weaken; [eapply (finish_all_spec _ _ _ calls _ pool), triple_ret, moves_refl, moves_ok, H1| |done].
  intros pool' e2 [H2 Hs]. split; [by eapply moves_trans|]. intros i p t e Hi.
  apply (Hs i) in Hi; [done|]. apply elem_of_seq. split; [lia|]. apply lookup_lt_Some in Hi.
  by rewrite (mv_length _ _ _ _ H2), (mv_length _ _ _ _ H1) in Hi.
Qed.

(** Once all have settled the slots hold the outcomes. *)
Lemma settled_outcomes calls (pool : @Pool W) :
  (forall i, settled pool i) -> Forall2 slot_of calls (pl_slots pool) ->
  Forall2 outcome_for calls (omap outcome_of (pl_slots pool)) /\ forall id, running (pl_slots pool) id = O.
Proof.
  unfold settled. intros Hs Hf. induction Hf as [|c [o|p t e|] calls slots Hc Hf IH]; [by split|..].
  - destruct IH as [IH1 IH2]; [intros i; apply (Hs (S i))|]. split; [|done]. constructor; [exact Hc|exact IH1].
  - exfalso. by apply (Hs O p t e).
  - done.
Qed.
End Pool.

(** ** The whole batch *)

Section Parallel.
Context {W : Type} {R : Runtime W} {Ob : Observed}.
Context (X : raised -> Prop) (HX : sink_errors X).

Lemma prepare_calls_spec current message calls config :
  triple (prepare_calls current message calls config)
    (fun slots evs => exists answered, attempted observed calls answered /\ pool_ok X answered (mkPool slots None) /\
       seg idle [] (running slots) evs) (fun x _ => X x).
Proof.
  induction calls as [|c calls IH]; cbn [prepare_calls].
  - apply triple_ret. exists []. split_and!; [apply attempted_all|split; [done|constructor]|apply seg_nil].
  - eapply emit_then; [done|]. eapply triple_calm; [apply prepareToolCall_calm|]. intros preparation Hp.
    eapply triple_bind with (Q1 := fun s evs => slot_of c s /\ (forall p t e, s = Running p t e -> from_sink X e) /\
      seg idle [] (weight s) (start_event c :: evs)).
    + destruct preparation as [o|p].
      * eapply emit_then; [done|]. apply triple_ret. split_and!; [done|done|].
        by apply (seg_app _ _ _ [_] _ [] [] (seg_start idle c)), (seg_end idle c).
      * apply triple_ret. cbn in Hp. split_and!; [done|by intros ? ? ? [= <- <- <-]|].
        eapply seg_ext; [apply (seg_start idle c)|done|]. intros id. cbn. rewrite Hp. apply Nat.add_0_r.
    + intros s e1 (Hs & He & H1).
      eapply triple_calm; [apply calm_aborted|].
      intros [] Hb.
      * apply triple_ret. rewrite app_nil_r. exists [c].
        split_and!; [by apply attempted_stop, Hb| |].
        -- split; [|intros _; by constructor]. intros [|i] p t e Hi; [|done]. injection Hi as ->. eauto.
        -- eapply seg_ext; [exact H1|done|]. intros id. cbn. lia.
      * eapply triple_bind; [apply IH|]. intros slots e2 (answered & Ha & [Hsd Hf] & H2). apply triple_ret.
        rewrite app_nil_r. exists (c :: answered). split_and!; [by apply attempted_cons| |].
        -- split; [|intros _; constructor; [done|by apply Hf]]. intros [|i] p t e Hi; [injection Hi as ->; eauto|by eapply (Hsd i)].
        -- eapply (seg_app _ _ _ _ _ [] [] H1). eapply seg_ext; [apply (seg_frame (weight s)), H2|intros id; unfold idle; lia|done].
Qed.

Lemma abort_slots_spec calls slots panicVal :
  pool_ok X calls (mkPool slots None) ->
  triple (abort_slots slots panicVal)
    (fun pool evs => (forall x, pl_panic pool = Some x -> panicVal = Some x \/ X x) /\
       (pl_panic pool = None -> panicVal = None /\ Forall2 slot_of calls (pl_slots pool) /\
        (forall i, settled pool i) /\ seg (running slots) [] idle evs)) (fun _ _ => False).
Proof.
  intros [_ Hf]. specialize (Hf eq_refl). cbn in Hf. revert panicVal.
  assert (forall f f' g evs, seg f [] g evs -> (forall id, f' id = (0 + f id)%nat) -> seg f' [] g evs) as Hext.
  { intros f f' g evs H E. eapply seg_ext; [exact H| |done]. intros id. by rewrite E. }
  induction Hf as [|c s calls slots Hc Hf IH]; intros panicVal; cbn [abort_slots].
  - apply triple_ret. split; [auto|]. intros Hn. split_and!; [done|constructor|by intros i p t e|apply seg_nil].
  - assert (forall o (pool : @Pool W), (forall i, settled pool i) -> Forall2 slot_of calls (pl_slots pool) ->
      fo_toolCall o = c -> Forall2 slot_of (c :: calls) (Done o :: pl_slots pool) /\
      forall i, settled (mkPool (Done o :: pl_slots pool) (pl_panic pool)) i) as Hcons.
    { intros o pool Hs Hfp Ho. split; [by constructor|]. intros [|i] p t e; [done|apply Hs]. }
    destruct s as [o|p t e|]; [| |done].
    + eapply triple_bind; [apply IH|]. intros pool evs [H1 H2]. apply triple_ret. rewrite app_nil_r. cbn [pl_panic]. split; [done|].
      intros Hn. destruct (H2 Hn) as (? & Hfp & Hs & Hg). destruct (Hcons o pool Hs Hfp Hc).
      split_and!; [done..|]. eapply Hext; [exact Hg|done].
    + cbn in Hc. set (o := finalized (pt_toolCall p) (error_outcome "Operation aborted")).
      eapply triple_bind with (Q1 := fun err evs => evs = [end_event o] /\ from_sink X err).
      { apply triple_emit. intros w. split; [done|]. intros m. apply HX. }
      intros err ? [-> Herr]. cbn [app]. eapply triple_bind; [apply IH|]. intros pool evs [H1 H2]. apply triple_ret.
      rewrite app_nil_r. cbn [pl_panic]. split.
      * intros x Hx. apply H1 in Hx as [Hx|Hx]; [|auto]. destruct panicVal; [auto|]. destruct err as [m|]; [|done].
        cbn in Hx. injection Hx as <-. right. by apply Herr.
      * intros Hn. destruct (H2 Hn) as (Hp & Hfp & Hs & Hg). destruct panicVal; [done|].
        destruct (Hcons o pool Hs Hfp Hc). split_and!; [done..|]. cbn [running weight]. rewrite Hc.
        exact (seg_app _ _ _ [_] _ [] [] (seg_end (running slots) c o Hc) Hg).
Qed.

Lemma report_all_spec calls outcomes :
  Forall2 outcome_for calls outcomes ->
  triple (report_all outcomes) (fun messages evs => Forall2 answers calls messages /\ seg idle (tool_result <$> messages) idle evs)
    (fun x _ => X x).
Proof.
  induction 1 as [|c o calls outcomes Hc _ IH]; cbn [report_all].
  - apply triple_ret. split; [constructor|apply seg_nil].
  - eapply triple_bind; [by apply (report_spec X HX c o idle)|]. intros m e1 [Hm H1].
    eapply triple_bind; [apply IH|]. intros messages e2 [Hms H2]. apply triple_ret. rewrite app_nil_r.
    split; [by constructor|]. by apply (seg_app _ _ _ _ _ _ _ H1).
Qed.

(** The pool after all goroutines are done, or none was started. *)
Lemma pool_spec current message config answered slots (batchAborted : bool) :
  pool_ok X answered (mkPool slots None) ->
  triple (if batchAborted then abort_slots slots None
          else schedule ← lift (rt_schedule (length slots)); wait current message config schedule slots)
    (fun pool evs => (forall x, pl_panic pool = Some x -> X x) /\
       (pl_panic pool = None -> Forall2 slot_of answered (pl_slots pool) /\ (forall i, settled pool i) /\
        seg (running slots) [] idle evs)) (fun x _ => X x).
Proof.
  intros Hok. destruct batchAborted.
  - eapply triple_weaken; [by apply abort_slots_spec| |done]. cbn. intros pool evs [H1 H2]. split; [by intros x [?|?]%H1|].
    intros Hn. by destruct (H2 Hn) as (_ & ? & ? & ?).
  - eapply triple_calm; [by apply calm_lift with (P := fun _ => True)|]. intros schedule _.
    eapply triple_weaken; [by apply wait_spec| |done]. cbn. intros pool evs [H1 Hs]. split.
    + by intros x [?|?]%(mv_panic _ _ _ _ _ H1).
    + intros Hn. pose proof (mv_slots _ _ _ _ _ H1 Hn) as Hf. split_and!; [done|done|].
      eapply seg_ext; [apply (mv_seg _ _ _ _ _ H1 Hn)|done|]. by eapply settled_outcomes.
Qed.

Lemma executeToolCallsParallel_spec current message calls config :
  triple (executeToolCallsParallel current message calls config)
    (fun b evs => exists answered, attempted observed calls answered /\ Forall2 answers answered (eb_messages b) /\
       seg idle (tool_result <$> eb_messages b) idle evs) (fun x _ => X x).
Proof.
  unfold executeToolCallsParallel. eapply triple_bind; [apply prepare_calls_spec|].
  intros slots e1 (answered & Ha & Hok & H1).
  eapply triple_calm; [apply calm_aborted|]. intros b _.
  eapply triple_bind; [by apply pool_spec|]. intros pool e2 [Hx Hn]. destruct (pl_panic pool) as [x|]; [by apply triple_raise, Hx|].
  destruct (Hn eq_refl) as (Hf & Hs & H2). destruct (settled_outcomes _ _ Hs Hf) as [Ho _].
  eapply triple_bind; [by apply report_all_spec|]. intros messages e3 [Hm H3]. apply triple_ret.
  exists answered. split_and!; [done|done|]. rewrite app_nil_r, app_assoc. cbn [eb_messages].
  by eapply (seg_app _ _ _ _ _ [] _ (seg_app _ _ _ _ _ [] [] H1 H2)).
Qed.

(** A batch answers its calls in order, and its tools start, go on and end. *)
Lemma executeToolCalls_spec current message config :
  triple (executeToolCalls current message config)
    (fun b evs => exists answered, attempted observed (filterToolCalls message) answered /\ Forall2 answers answered (eb_messages b) /\
       seg idle (tool_result <$> eb_messages b) idle evs) (fun x _ => X x).
Proof.
  unfold executeToolCalls. destruct (_ || _); [|apply executeToolCallsParallel_spec].
  unfold executeToolCallsSequential. eapply triple_bind; [by apply run_calls_spec|].
  intros l evs (answered & Ha & Hm & _ & Hs). apply triple_ret. rewrite app_nil_r. by exists answered.
Qed.

(** The calls of a truncated message are all answered by errors. *)
Lemma fail_calls_spec calls :
  triple (fail_calls (W:=W) calls)
    (fun messages evs => Forall2 answers calls messages /\ Forall (fun m => tr_IsError m = true) messages /\
       seg idle (tool_result <$> messages) idle evs) (fun x _ => X x).
Proof.
  induction calls as [|c calls IH]; cbn [fail_calls].
  - apply triple_ret. split_and!; [constructor..|apply seg_nil].
  - set (o := finalized c _). eapply emit_then; [done|]. eapply emit_then; [done|].
    unfold report. eapply triple_bind with (Q1 := fun m evs => answers c m /\ tr_IsError m = true /\ seg idle [tool_result m] idle evs).
    + unfold createToolResultMessage. eapply triple_calm with (P := fun m => answers c m /\ tr_IsError m = true).
      { eapply triple_calm; [apply calm_now|]. intros now _. by apply triple_ret. }
      intros m [Hm Herr]. eapply triple_bind with (Q1 := fun _ evs => evs = [EvMessageStart (tool_result m); EvMessageEnd (tool_result m)]).
      * eapply emit_then; [done|]. eapply triple_weaken; [by apply triple_mustEmit| |done]. by intros _ evs ->.
      * intros _ evs ->. apply triple_ret. split_and!; [done|done|apply seg_message].
    + intros m e1 (Hm & Herr & H1). eapply triple_bind; [apply IH|]. intros messages e2 (Hms & He & H2). apply triple_ret.
      rewrite app_nil_r. split_and!; [by constructor|by constructor|]. cbn [fmap list_fmap].
      apply (seg_app _ _ _ [_] _ [] (tool_result m :: (tool_result <$> messages)) (seg_start idle c)).
      apply (seg_app _ _ _ [_] _ [] (tool_result m :: (tool_result <$> messages)) (seg_end idle c o eq_refl)).
      by apply (seg_app _ _ _ _ _ _ _ H1).
Qed.
End Parallel.
