(* ===== verification/AgentTurns.v ===== *)
(** * Turns of a run, one by one

    Every turn adds the messages it injects, the model's answer and the results
    of its tool calls; the events of the turn end exactly those messages. *)

From S2P Require Import Prelude GoText PiModel TransformMessages Transcript AgentModel ToolState AgentLoop AgentRules AgentPool.

(** ** Definitions *)

Record TurnRecord := mkTurn {
  tu_injected : list Message;
  tu_message : AssistantMessage;
  tu_results : list ToolResultMessage;
}.

Definition turn_messages (t : TurnRecord) : list Message :=
  tu_injected t ++ [assistant (tu_message t)] ++ (tool_result <$> tu_results t).

Definition turn_failed (t : TurnRecord) : bool := is_failed (am_StopReason (tu_message t)).

Definition turn_summary (t : TurnRecord) : Message * list ToolResultMessage := (assistant (tu_message t), tu_results t).

(** What a turn does with the calls of its message: a failed turn answers
    none, a truncated one answers each with an error, another one in order,
    all of them unless the context was found [cancelled]. *)
Definition turn_ok (cancelled : Prop) (t : TurnRecord) : Prop :=
  if turn_failed t then tu_results t = []
  else exists answered, attempted cancelled (filterToolCalls (tu_message t)) answered /\ Forall2 answers answered (tu_results t) /\
    (am_StopReason (tu_message t) = StopLength ->
     answered = filterToolCalls (tu_message t) /\ Forall (fun m => tr_IsError m = true) (tu_results t)).

Section Turns.
Context {W : Type} {R : Runtime W} {Ob : Observed}.

(** A stream that announces its partial message at most once. *)
Fixpoint starts_once (seen : bool) (s : Stream W) : Prop :=
  match s with
  | Waiting _ next => forall w, starts_once seen (next w)
  | Received e next =>
      match ae_Type e with
      | EventStart => match ae_Partial e with Some _ => seen = false /\ starts_once true next | None => starts_once seen next end
      | EventDone | EventError => True
      | _ => starts_once seen next
      end
  | EndOfStream | Broken _ => True
  end.

Definition well_streamed : Prop :=
  forall f m messages o w s w', rt_stream = Some f -> f m messages o w = (Ok (Ok (Some s)), w') -> starts_once false s.

(** No hook replaces the context. *)
Definition keeps_context (c : AgentLoopConfig W) : Prop :=
  (forall h t w u w', cf_PrepareNextTurn c = Some h -> h t w = (Ok (Some u), w') -> ru_Context (tu_Update u) = None) /\
  (forall h q w u w', cf_PrepareRequest c = Some h -> h q w = (Ok (Some u), w') -> ru_Context u = None).

(** The hooks, whatever the model and the thinking level. *)
Definition hooks (c : AgentLoopConfig W) : AgentLoopConfig W := with_request c None "".

(** ** Anything may panic here *)

Definition any_end (x : raised) (evs : list AgentEvent) : Prop := True.

Lemma sink_any : sink_errors (W:=W) (fun _ => True).
Proof. by intros event w e _. Qed.

Lemma after_emit {B} event (k : unit -> M W B) {Hmono : forall u, Mono (k u)} (Q : B -> list AgentEvent -> Prop) :
  given Hmono (triple (k tt) (fun b evs => Q b (event :: evs)) any_end) -> triple (mustEmit event ≫= k) Q any_end.
Proof. eapply (emit_then (fun _ => True)), sink_any. Qed.

Lemma after_quiet {A B} (m : M W A) (k : A -> M W B) {Hmono : forall a, Mono (k a)} P (Q : B -> list AgentEvent -> Prop) :
  given Hmono (quiet m P) -> (forall a, P a -> triple (k a) Q any_end) -> triple (m ≫= k) Q any_end.
Proof. intros Hm Hk. by eapply triple_quiet. Qed.

(** ** The model's answer *)

(** What receiving an answer adds. *)
Definition received (seen : bool) (once : Prop) (messages : list Message)
    (res : result string (AssistantMessage * list Message)) (evs : list AgentEvent) : Prop :=
  (forall id n, opens id n evs = Some n) /\ turn_ends evs = [] /\
  match res with
  | Err _ => ended evs = []
  | Ok (final, out) =>
      ended evs = [assistant final] /\
      (once -> lives (if seen then InMessage else InTurn) evs = Some InTurn /\
       forall base, (if seen then exists p, messages = base ++ [p] else messages = base) -> out = base ++ [assistant final])
  end.

Lemma set_last_snoc l x m : set_last (l ++ [x]) m = l ++ [m].
Proof. unfold set_last. by rewrite removelast_last. Qed.

Lemma finish_message_spec seen once messages final :
  triple (finish_message (W:=W) messages seen final) (received seen once messages) any_end.
Proof.
  unfold finish_message. destruct seen.
  - eapply triple_bind; [by apply triple_ret with (Q := fun l evs => evs = [] /\ l = set_last messages (assistant final))|].
    intros l ? [-> ->]. cbn. eapply after_emit, triple_ret. split_and!; [done|done|done|]. intros _. split; [done|].
    intros base [p ->]. apply set_last_snoc.
  - eapply triple_bind with (Q1 := fun l evs => evs = [EvMessageStart (CloneMessage (assistant final))] /\ l = messages ++ [assistant final]).
    + by eapply after_emit, triple_ret.
    + intros l ? [-> ->]. cbn. eapply after_emit, triple_ret. split_and!; [done|done|done|]. intros _. split; [done|].
      by intros base ->.
Qed.

(** A stream that goes on as another one. *)
Lemma received_weaken seen (once once' : Prop) messages res evs :
  (once' -> once) -> received seen once messages res evs -> received seen once' messages res evs.
Proof. intros H (Ho & Ht & Hr). split_and!; [done..|]. destruct res as [[final out]|]; [|done]. naive_solver. Qed.

(** After an update of the partial message. *)
Lemma received_update once messages p m event res evs :
  received true once (set_last messages p) res evs ->
  received true once messages res (EvMessageUpdate m event :: evs).
Proof.
  intros (Ho & Ht & Hr). split_and!; [done..|]. destruct res as [[final out]|]; [|done]. destruct Hr as [He Hr]. split; [done|].
  intros H. destruct (Hr H) as [Hl Hb]. split; [done|]. intros base [q ->]. apply Hb. exists p. by rewrite set_last_snoc.
Qed.

Lemma received_start once messages p res evs :
  received true once (messages ++ [p]) res evs ->
  received false once messages res (EvMessageStart (CloneMessage p) :: evs).
Proof.
  intros (Ho & Ht & Hr). split_and!; [done..|]. destruct res as [[final out]|]; [|done]. destruct Hr as [He Hr]. split; [done|].
  intros H. destruct (Hr H) as [Hl Hb]. split; [done|]. intros base ->. apply Hb. by exists p.
Qed.

(** A second start: nothing more is known of the order of the events. *)
Lemma received_again (once once' : Prop) messages messages' m res evs :
  ~ once' -> received true once messages res evs -> received true once' messages' res (EvMessageStart m :: evs).
Proof. intros Hn (Ho & Ht & Hr). split_and!; [done..|]. destruct res as [[final out]|]; [|done]. naive_solver. Qed.

Lemma received_err seen once messages e : received seen once messages (Err e) [].
Proof. done. Qed.

(** An event of a part of the message: ignored before the partial message, an
    update of it after. *)
Lemma receive_part (next : Stream W) messages part seen event (once : Prop) :
  (part <> None -> seen = true) ->
  (forall messages part, (part <> None -> seen = true) ->
     triple (receive next messages part seen) (received seen once messages) any_end) ->
  triple (match part with
          | None => receive next messages part seen
          | Some _ =>
              let p := MAssistant (pointer (ae_Partial event)) in
              _ ← mustEmit (EvMessageUpdate (CloneMessage p) event);
              receive next (set_last messages p) (ae_Partial event) seen
          end) (received seen once messages) any_end.
Proof.
  intros Hp IH. destruct part as [x|]; [|by apply IH]. assert (seen = true) as -> by auto. cbn zeta.
  eapply after_emit. eapply triple_weaken; [apply IH; auto| |done]. intros res evs. apply received_update.
Qed.

Lemma receive_spec (s : Stream W) messages part seen :
  (part <> None -> seen = true) -> triple (receive s messages part seen) (received seen (starts_once seen s) messages) any_end.
Proof.
  revert messages part seen. induction s as [work next IH|event next IH| |m]; intros messages part seen Hp; cbn [receive starts_once].
  - apply (triple_work work (fun w => receive (next w) messages part seen)). intros w.
    eapply triple_weaken; [by apply (IH w)| |done]. intros res evs. apply received_weaken. auto.
  - destruct (ae_Type event) eqn:Et; try (apply receive_part; [done|]; intros; by apply IH); [|shelve..|by apply IH].
    Unshelve.
    + destruct (ae_Partial event) as [p|]; [|by apply IH].
      eapply after_emit. eapply triple_weaken; [by apply (IH _ (Some p) true)| |done].
      intros res evs H. destruct seen; [by eapply received_again; [|exact H]; intros []|].
      apply received_start. eapply received_weaken; [|exact H]. by intros [].
    + destruct (finalMessageFromEvent event); [|by apply triple_ret, received_err]. apply finish_message_spec.
    + destruct (finalMessageFromEvent event); [|by apply triple_ret, received_err]. apply finish_message_spec.
  - destruct part; [|by apply triple_ret, received_err]. apply finish_message_spec.
  - by apply triple_ret, received_err.
Qed.

Lemma convert_quiet messages : quiet (defaultConvertToLlm (W:=W) messages) (fun _ => True).
Proof.
  induction messages as [|m messages IH]; cbn [defaultConvertToLlm]; [by apply quiet_ret|].
  eapply quiet_bind; [apply quiet_or_panic|]. intros role _. eapply quiet_bind; [exact IH|]. intros. by apply quiet_ret.
Qed.

Lemma request_key_quiet (config : AgentLoopConfig W) : quiet (request_key config) (fun _ => True).
Proof.
  unfold request_key. destruct (cf_GetApiKey config); [|by apply quiet_ret].
  eapply quiet_bind; [apply quiet_or_panic|]. intros m _. eapply quiet_bind; [apply quiet_call|]. intros. by apply quiet_ret.
Qed.

(** What the answer adds to the events and to the context. *)
Definition answered (current : AgentContext W) (res : result string (AssistantMessage * AgentContext W)) (evs : list AgentEvent) : Prop :=
  (forall id n, opens id n evs = Some n) /\ turn_ends evs = [] /\
  match res with
  | Err _ => ended evs = []
  | Ok (final, context) =>
      ended evs = [assistant final] /\
      (well_streamed -> lives InTurn evs = Some InTurn /\ ac_Messages context = ac_Messages current ++ [assistant final])
  end.

Lemma stream_spec (current : AgentContext W) config :
  triple (streamAssistantResponse current config) (answered current) any_end.
Proof.
  unfold streamAssistantResponse.
  eapply after_quiet with (P := fun _ => True).
  { destruct (cf_TransformContext config); [|by apply quiet_ret]. eapply quiet_weaken; [apply quiet_call|done]. }
  intros messages _. eapply after_quiet with (P := fun _ => True).
  { destruct (cf_ConvertToLlm config); [|apply convert_quiet]. eapply quiet_weaken; [apply quiet_call|done]. }
  intros llm _. destruct rt_stream as [streamFn|] eqn:Es; [|by apply triple_ret].
  eapply after_quiet; [apply request_key_quiet|]. intros key _.
  eapply after_quiet; [apply quiet_call|]. intros [[s|]|e] (w & w' & Hs); [|by apply triple_ret..].
  eapply triple_bind; [by apply receive_spec|]. intros res evs (Ho & Ht & Hr). apply triple_ret. rewrite app_nil_r.
  split_and!; [done..|]. destruct res as [[final out]|e]; [|done]. destruct Hr as [He Hr]. split; [done|].
  intros Hw. destruct Hr as [Hl Hb]; [by eapply Hw|]. split; [done|]. by apply Hb.
Qed.

(** ** After the message *)

Lemma optional_quiet {A} (h : option (Hook W (list A))) : quiet (optional h) (fun l => h = None -> l = []).
Proof. destruct h; cbn; [|by apply quiet_ret]. eapply quiet_weaken; [apply quiet_call|done]. Qed.

Lemma finish_quiet (config : AgentLoopConfig W) t : quiet (finish_turn config t) (fun decision => cf_FinishTurn config = None -> decision = "").
Proof. unfold finish_turn. destruct (cf_FinishTurn config); [|by apply quiet_ret]. eapply quiet_weaken; [apply quiet_call|done]. Qed.

Definition batch_results (b : option executedBatch) : list ToolResultMessage :=
  match b with None => [] | Some b => eb_messages b end.

Lemma run_batch_spec (current : AgentContext W) message config :
  is_failed (am_StopReason message) = false ->
  triple (run_batch current message config)
    (fun b evs => (forall injected, turn_ok observed (mkTurn injected message (batch_results b))) /\
       seg idle (tool_result <$> batch_results b) idle evs /\ (b <> None -> filterToolCalls message <> [])) any_end.
Proof.
  intros Hf. assert (forall b, (exists answered, attempted observed (filterToolCalls message) answered /\
      Forall2 answers answered (batch_results b) /\ (am_StopReason message = StopLength ->
      answered = filterToolCalls message /\ Forall (fun m => tr_IsError m = true) (batch_results b))) ->
    forall injected, turn_ok observed (mkTurn injected message (batch_results b))) as Hok.
  { intros b H injected. unfold turn_ok, turn_failed. cbn. by rewrite Hf. }
  unfold run_batch. destruct (filterToolCalls message) as [|c calls] eqn:Ec.
  - apply triple_ret. split_and!; [|apply seg_nil|done]. apply Hok. exists []. by split_and!; [apply attempted_all|constructor|].
  - eapply triple_bind with (Q1 := fun b evs => exists answered, attempted observed (c :: calls) answered /\ Forall2 answers answered (eb_messages b) /\
      (am_StopReason message = StopLength -> answered = c :: calls /\ Forall (fun m => tr_IsError m = true) (eb_messages b)) /\
      seg idle (tool_result <$> eb_messages b) idle evs).
    + assert (triple (executeToolCalls current message config) (fun b evs => exists answered, attempted observed (c :: calls) answered /\
        Forall2 answers answered (eb_messages b) /\ seg idle (tool_result <$> eb_messages b) idle evs) any_end) as He.
      { rewrite <- Ec. apply (executeToolCalls_spec (fun _ => True) sink_any). }
      destruct (am_StopReason message) eqn:Er; try (eapply triple_weaken; [exact He| |done]; intros b evs (a & ? & ? & ?); by exists a).
      unfold failToolCallsFromTruncatedMessage. eapply triple_bind; [apply (fail_calls_spec (fun _ => True) sink_any)|].
      intros messages evs (Ha & Herr & Hs). apply triple_ret. rewrite app_nil_r. exists (c :: calls). by split_and!; [apply attempted_all|..].
    + intros b evs (a & Ha & Hr & Ht & Hs). apply triple_ret. rewrite app_nil_r. split_and!; [|done|done]. apply Hok. by exists a.
Qed.

(** What follows the message of a turn. *)
Definition concluded (s : @LoopState W) message (t : turn_end) (evs : list AgentEvent) : Prop :=
  exists results, (forall injected, turn_ok observed (mkTurn injected message results)) /\
    ended evs = tool_result <$> results /\ turn_ends evs = [(assistant message, results)] /\ (forall id n, opens id n evs = Some n) /\
    let new := ls_newMessages s ++ [assistant message] ++ (tool_result <$> results) in
    match t with
    | Ended messages => messages = new /\ lives InTurn evs = Some Over /\ last evs = Some (EvAgentEnd new)
    | EndedWith _ _ => False
    | Completed s' more explicit =>
        (cf_GetSteeringMessages (ls_config s) = None -> ls_pending s' = []) /\ (cf_FinishTurn (ls_config s) = None -> explicit = false) /\
        ls_newMessages s' = new /\ lives InTurn evs = Some Ready /\ is_failed (am_StopReason message) = false /\
        ac_Messages (ls_current s') = ac_Messages (ls_current s) ++ (tool_result <$> results) /\
        ls_config s' = ls_config s /\ is_Some (ls_lastCompletedTurn s') /\ (more = true -> filterToolCalls message <> [])
    end.

Lemma after_message_spec s message : triple (after_message s message) (concluded s message) any_end.
Proof.
  unfold after_message. destruct (is_failed _) eqn:Ef.
  - eapply after_quiet; [apply finish_quiet|]. intros _ _. eapply after_emit, after_emit, triple_ret.
    exists []. split_and!; [|done..]. intros injected. unfold turn_ok, turn_failed. cbn. by rewrite Ef.
  - eapply triple_bind; [by apply run_batch_spec|]. intros b e1 (Hok & Hs & Hb). cbn zeta.
    set (results := match b with None => [] | Some b => eb_messages b end). change (batch_results b) with results in *.
    destruct Hs as [L O E T]. assert (forall id n, opens id n e1 = Some n) as Ho.
    { intros id n. specialize (O id n). unfold idle in O. by rewrite Nat.add_0_r in O. }
    assert (forall rest, lives InTurn (e1 ++ rest) = lives InTurn rest) as Hl by (intros rest; by rewrite lives_app, L).
    assert (forall rest id n, opens id n (e1 ++ rest) = opens id n rest) as Ho' by (intros rest id n; by rewrite opens_app, Ho).
    eapply after_quiet; [apply finish_quiet|]. intros decision Hd. eapply after_emit. rewrite <- app_assoc.
    destruct (String.eqb decision TurnEnd).
    + eapply after_emit, triple_ret. unfold concluded. cbn zeta. exists results. split_and!; [done| | | | |rewrite Hl; done|].
      * by rewrite ended_app, E, app_nil_r.
      * by rewrite turn_ends_app, T.
      * intros id n. by rewrite Ho'.
      * done.
      * rewrite last_app. done.
    + eapply after_quiet; [apply optional_quiet|]. intros pending Hp. apply triple_ret.
      unfold concluded. cbn zeta. exists results. split_and!; [done| | | |done|intros Hn; by rewrite (Hd Hn)| |rewrite Hl; done|done|done|done|done|].
      * by rewrite ended_app, E, app_nil_r.
      * by rewrite turn_ends_app, T.
      * intros id n. by rewrite Ho'.
      * done.
      * destruct b; [|done]. intros _. by apply Hb.
Qed.

(** ** The start of a turn *)

Lemma announce_spec messages :
  triple (announce (W:=W) messages) (fun _ evs => seg idle messages idle evs) any_end.
Proof.
  induction messages as [|m messages IH]; cbn [announce]; [apply triple_ret, seg_nil|].
  eapply after_emit, after_emit. eapply triple_weaken; [exact IH| |done]. intros u evs H.
  apply (seg_app _ _ _ [_; _] _ [m] messages (seg_message idle m) H).
Qed.

Lemma declare_quiet (c : AgentContext W) pending : quiet (declareToolChanges c pending) (fun _ => True).
Proof.
  unfold declareToolChanges. destruct (last_system pending) as [[i s]|]; cbn zeta.
  - destruct (_ && _); by apply quiet_ret.
  - destruct (_ && _); [by apply quiet_ret|]. eapply quiet_bind; [apply calm_quiet, calm_now|]. intros now _.
    eapply quiet_bind; [apply quiet_or_panic|]. intros. by apply quiet_ret.
Qed.

Definition start_phase (s : @LoopState W) : phase := match ls_lastCompletedTurn s with None => InTurn | Some _ => Ready end.

(** What the hooks before a request leave alone. *)
Definition similar (s s' : @LoopState W) : Prop :=
  ls_newMessages s' = ls_newMessages s /\ hooks (ls_config s') = hooks (ls_config s) /\
  (keeps_context (ls_config s) -> ac_Messages (ls_current s') = ac_Messages (ls_current s)).

Lemma apply_request_similar u (current current' : AgentContext W) config config' :
  applyRequestUpdate u current config = (current', config') ->
  hooks config' = hooks config /\ (ru_Context u = None -> current' = current).
Proof. unfold applyRequestUpdate. intros [= <- <-]. split; [done|]. by intros ->. Qed.

Lemma next_turn_spec s :
  triple (next_turn s) (fun r evs => similar s r.1 /\ evs = (match ls_lastCompletedTurn s with None => [] | Some _ => [EvTurnStart] end)) any_end.
Proof.
  unfold next_turn. destruct (ls_lastCompletedTurn s) as [turn|] eqn:El; [|by apply triple_ret].
  eapply after_quiet with (P := fun u => forall u', u = Some u' -> exists h w w', cf_PrepareNextTurn (ls_config s) = Some h /\ h turn w = (Ok (Some u'), w')).
  { destruct (cf_PrepareNextTurn (ls_config s)) as [h|]; [|by apply quiet_ret].
    eapply quiet_weaken; [apply quiet_call|]. intros u (w & w' & H) u' Eu. subst u. eauto. }
  intros update Hu.
  assert (exists current config prepared,
    match update with None => (ls_current s, ls_config s, []) | Some u => applyTurnUpdate u (ls_current s) (ls_config s) end
      = (current, config, prepared) /\ hooks config = hooks (ls_config s) /\
    (keeps_context (ls_config s) -> ac_Messages current = ac_Messages (ls_current s))) as (current & config & prepared & -> & Hh & Hc).
  { destruct update as [u|]; [|by eexists _, _, _]. unfold applyTurnUpdate.
    destruct (applyRequestUpdate (tu_Update u) _ _) as [current config] eqn:E. apply apply_request_similar in E as [Eh Ec].
    eexists _, _, _. split_and!; [done|done|]. intros [Hk _]. destruct (Hu u eq_refl) as (h & w & w' & E1 & E2).
    by rewrite Ec by (by eapply Hk). }
  eapply after_quiet with (P := fun _ => True).
  { destruct (is_empty _); [eapply quiet_weaken; [apply optional_quiet|done]|by apply quiet_ret]. }
  intros pending _. eapply after_emit, triple_ret. by split_and!.
Qed.

Lemma prepare_request_spec s : quiet (prepare_request s) (fun s' => similar s s' /\ ls_lastCompletedTurn s' = ls_lastCompletedTurn s).
Proof.
  unfold prepare_request. destruct (cf_PrepareRequest (ls_config s)) as [h|] eqn:Eh; [|by apply quiet_ret].
  eapply quiet_bind; [apply quiet_call|]. intros u (w & w' & H). apply quiet_ret. destruct u as [u|]; [|by split].
  destruct (applyRequestUpdate u _ _) as [current config] eqn:E. apply apply_request_similar in E as [E1 E2].
  split; [|done]. split_and!; [done|done|]. intros [_ Hk]. cbn. by rewrite E2 by (by eapply Hk).
Qed.
End Turns.
