(* ===== verification/AgentProps.v ===== *)
(** * A run of the agent loop

    The turns of a run make up its messages and its events. *)

From S2P Require Import Prelude GoText PiModel TransformMessages Transcript AgentModel ToolState AgentLoop AgentRules AgentPool AgentTurns.

Section Runs.
Context {W : Type} {R : Runtime W} {Ob : Observed}.

(** ** A turn *)

(** A turn in its messages and events. *)
Definition recorded (s : @LoopState W) (rec : TurnRecord) (new : list Message) (evs : list AgentEvent) : Prop :=
  turn_ok observed rec /\ new = ls_newMessages s ++ turn_messages rec /\ ended evs = turn_messages rec /\ turn_ends evs = [turn_summary rec].

Definition turned (s : @LoopState W) (t : turn_end) (evs : list AgentEvent) : Prop :=
  (forall id n, opens id n evs = Some n) /\
  match t with
  | EndedWith _ new => exists injected, new = ls_newMessages s ++ injected /\ ended evs = injected /\ turn_ends evs = []
  | Ended new => exists rec, recorded s rec new evs /\ last evs = Some (EvAgentEnd new) /\
      (well_streamed -> lives (start_phase s) evs = Some Over)
  | Completed s' more explicit => exists rec, recorded s rec (ls_newMessages s') evs /\ turn_failed rec = false /\
      (well_streamed -> lives (start_phase s) evs = Some Ready) /\ start_phase s' = Ready /\
      hooks (ls_config s') = hooks (ls_config s) /\
      (well_streamed -> keeps_context (ls_config s) -> ac_Messages (ls_current s') = ac_Messages (ls_current s) ++ turn_messages rec) /\
      (more = true -> filterToolCalls (tu_message rec) <> []) /\
      (cf_GetSteeringMessages (ls_config s) = None -> ls_pending s' = []) /\ (cf_FinishTurn (ls_config s) = None -> explicit = false)
  end.

Lemma keeps_hooks (c c' : AgentLoopConfig W) : hooks c' = hooks c -> keeps_context c -> keeps_context c'.
Proof.
  intros E [H1 H2]. apply (f_equal (fun c => (cf_PrepareNextTurn c, cf_PrepareRequest c))) in E.
  cbn in E. injection E as E1 E2. split; [by rewrite E1|by rewrite E2].
Qed.

Lemma similar_trans (a b c : @LoopState W) : similar a b -> similar b c -> similar a c.
Proof.
  intros (N1 & H1 & C1) (N2 & H2 & C2). split_and!; [congruence|congruence|]. intros Hk. rewrite C2, C1; [done|done|].
  by eapply keeps_hooks.
Qed.

(** The messages injected before a request, and the events that go with them. *)
Lemma turn_spec (s : @LoopState W) : triple (turn s) (turned s) any_end.
Proof.
  unfold turn. eapply triple_bind; [apply next_turn_spec|]. intros [s1 prepared] e0 [H1 E0]. cbn [fst] in H1.
  eapply triple_quiet; [apply declare_quiet|done|]. intros injected _.
  unfold inject. eapply triple_bind with (Q1 := fun s2 evs => seg idle injected idle evs /\ ls_newMessages s2 = ls_newMessages s1 ++ injected /\
    ac_Messages (ls_current s2) = ac_Messages (ls_current s1) ++ injected /\ ls_config s2 = ls_config s1).
  { eapply triple_bind; [apply announce_spec|]. intros u e1 Hs. apply triple_ret. by rewrite app_nil_r. }
  intros s2 e1 (Hs & N2 & C2 & G2).
  eapply triple_quiet; [apply prepare_request_spec|done|]. intros s3 [(N3 & G3 & C3) _].
  assert (forall id n, opens id n (e0 ++ e1) = Some n) as Ho.
  { intros id n. rewrite opens_app. destruct Hs as [_ O _ _]. specialize (O id n). unfold idle in O. rewrite Nat.add_0_r in O.
    destruct (ls_lastCompletedTurn s); by rewrite E0. }
  assert (lives (start_phase s) (e0 ++ e1) = Some InTurn) as Hl.
  { rewrite lives_app. destruct Hs as [L _ _ _]. unfold start_phase. destruct (ls_lastCompletedTurn s); by rewrite E0. }
  assert (ended (e0 ++ e1) = injected) as He.
  { rewrite ended_app. destruct Hs as [_ _ E _]. destruct (ls_lastCompletedTurn s); by rewrite E0, E. }
  assert (turn_ends (e0 ++ e1) = []) as Ht.
  { rewrite turn_ends_app. destruct Hs as [_ _ _ T]. destruct (ls_lastCompletedTurn s); by rewrite E0, T. }
  assert (ls_newMessages s3 = ls_newMessages s ++ injected) as HN by (by rewrite N3, N2, (proj1 H1)).
  assert (hooks (ls_config s3) = hooks (ls_config s)) as HG by (rewrite G3, G2; apply H1).
  assert (keeps_context (ls_config s) -> ac_Messages (ls_current s3) = ac_Messages (ls_current s) ++ injected) as HC.
  { intros Hk. destruct H1 as (_ & G1 & C1). rewrite C3, C2, C1; [done|done|]. rewrite G2. by eapply keeps_hooks. }
  eapply triple_weaken with (Q := fun t evs => turned s t ((e0 ++ e1) ++ evs)) (X := any_end); [|intros ? ?; by rewrite app_assoc|done].
  generalize dependent (e0 ++ e1). clear - HN HG HC. intros pre Ho Hl He Ht.
  eapply triple_bind; [apply stream_spec|]. intros [[message current]|e] e2 (Ho2 & Ht2 & Ha).
  2:{ apply triple_ret. rewrite app_nil_r. split; [intros id n; by rewrite opens_app, Ho; apply Ho2|]. exists injected.
      by rewrite ended_app, turn_ends_app, He, Ha, Ht, Ht2, app_nil_r. }
  destruct Ha as [He2 Hw]. eapply triple_weaken; [apply after_message_spec| |done].
  intros t e3 (results & Hok & He3 & Ht3 & Ho3 & H). cbn zeta in H. cbn [ls_newMessages ls_current ls_config] in H.
  assert (turn_messages (mkTurn injected message results) = injected ++ [assistant message] ++ (tool_result <$> results)) as Em by done.
  assert (ended (pre ++ e2 ++ e3) = turn_messages (mkTurn injected message results)) as He4 by (by rewrite !ended_app, He, He2, He3).
  assert (turn_ends (pre ++ e2 ++ e3) = [turn_summary (mkTurn injected message results)]) as Ht4 by (by rewrite !turn_ends_app, Ht, Ht2, Ht3).
  assert (forall p, well_streamed -> lives InTurn e3 = Some p -> lives (start_phase s) (pre ++ e2 ++ e3) = Some p) as Hl4.
  { intros p Hs Hl3. rewrite lives_app, Hl. cbn. rewrite lives_app. by rewrite (proj1 (Hw Hs)). }
  split; [intros id n; rewrite opens_app, Ho; cbn; rewrite opens_app, Ho2; apply Ho3|].
  rewrite HN in H. destruct t as [new|e new|s' more explicit]; [|done|].
  - destruct H as (-> & Hl3 & Hlast). exists (mkTurn injected message results). split_and!; [|by rewrite !last_app, Hlast|by auto].
    split_and!; [done|by rewrite Em, <- !app_assoc|done|done].
  - destruct H as (Hsteer & Hfin & Hnew & Hl3 & Hf & Hcur & Hcfg & Hlast & Hmore). exists (mkTurn injected message results).
    apply (f_equal (fun c => (cf_GetSteeringMessages c, cf_FinishTurn c))) in HG as HG'. cbn in HG'. injection HG' as G1 G2.
    split_and!; [|done|auto| |by rewrite Hcfg| |done|by rewrite <- G1|by rewrite <- G2].
    + split_and!; [done|by rewrite Em, Hnew, <- !app_assoc|done|done].
    + unfold start_phase. by destruct Hlast as [? ->].
    + intros Hs Hk. rewrite Hcur, (proj2 (Hw Hs)), (HC Hk), Em. by rewrite <- !app_assoc.
Qed.

(** ** The loop *)

Definition all_messages (turns : list TurnRecord) : list Message := concat (turn_messages <$> turns).

(** A run of the loop in its turns; [tail] was injected before a request that
    failed. *)
Definition looped (s : @LoopState W) (o : option (option string * list Message)) (evs : list AgentEvent) : Prop :=
  match o with
  | None => True
  | Some (err, new) =>
      exists turns tail, Forall (turn_ok observed) turns /\ Forall (fun t => turn_failed t = false) (removelast turns) /\
        new = ls_newMessages s ++ all_messages turns ++ tail /\ ended evs = all_messages turns ++ tail /\
        turn_ends evs = turn_summary <$> turns /\ (forall id n, opens id n evs = Some n) /\
        match err with
        | Some _ => Forall (fun t => turn_failed t = false) turns
        | None => tail = [] /\ turns <> [] /\ last evs = Some (EvAgentEnd new) /\
            (well_streamed -> lives (start_phase s) evs = Some Over)
        end
  end.

Lemma after_turn_spec (s : @LoopState W) more explicit :
  triple (after_turn s more explicit)
    (fun o evs => match o with
                  | None => evs = [EvAgentEnd (ls_newMessages s)]
                  | Some s' => evs = [] /\ ls_newMessages s' = ls_newMessages s /\ start_phase s' = start_phase s
                  end) any_end.
Proof.
  unfold after_turn. destruct (_ || _); [by apply triple_ret|].
  eapply after_quiet; [apply optional_quiet|]. intros followUps _.
  destruct (is_empty followUps), explicit; try (by apply triple_ret). by eapply after_emit, triple_ret.
Qed.

(** A turn before the rest of the loop. *)
Lemma looped_cons s rec s' o e1 e2 :
  recorded s rec (ls_newMessages s') e1 -> turn_failed rec = false -> (forall id n, opens id n e1 = Some n) ->
  (well_streamed -> lives (start_phase s) e1 = Some Ready) -> start_phase s' = Ready ->
  looped s' o e2 -> looped s o (e1 ++ e2).
Proof.
  intros (Hok & Hn & He & Ht) Hf Ho Hl Hp. destruct o as [[err new]|]; [|done].
  intros (turns & tail & H1 & H2 & -> & H4 & H5 & H6 & H7). exists (rec :: turns), tail.
  assert (all_messages (rec :: turns) = turn_messages rec ++ all_messages turns) as Ea by done.
  split_and!; [by constructor|by destruct turns; constructor|by rewrite Hn, Ea, <- !app_assoc|by rewrite ended_app, He, H4, Ea, <- app_assoc|
    by rewrite turn_ends_app, Ht, H5|intros id n; by rewrite opens_app, Ho; apply H6|].
  destruct err; [by constructor|]. destruct H7 as (-> & Hne & Hlast & Hlive). split_and!; [done|done|by rewrite last_app, Hlast|].
  intros Hs. rewrite lives_app, Hl by done. rewrite <- Hp. by apply Hlive.
Qed.

Lemma loop_spec fuel (s : @LoopState W) : triple (loop fuel s) (looped s) any_end.
Proof.
  revert s. induction fuel as [|fuel IH]; intros s; cbn [loop]; [by apply triple_ret|].
  eapply triple_bind; [apply turn_spec|]. intros [new|e new|s' more explicit] e1 [Ho H].
  - apply triple_ret. rewrite app_nil_r. destruct H as (rec & (Hok & -> & He & Ht) & Hlast & Hl).
    exists [rec], []. unfold all_messages. cbn [fmap list_fmap concat]. rewrite !app_nil_r.
    by split_and!; [constructor|constructor|done|done|done|done|done|..].
  - apply triple_ret. rewrite app_nil_r. destruct H as (injected & -> & He & Ht). by exists [], injected.
  - destruct H as (rec & Hr & Hf & Hl & Hp & _). eapply triple_bind; [apply after_turn_spec|]. intros [s2|] e2 H2.
    + destruct H2 as (-> & Hn & Hp2). eapply triple_weaken; [apply IH| |done]. intros o e3 H3. cbn.
      eapply (looped_cons s rec s2); [by rewrite Hn|done|done|done|by rewrite Hp2|done].
    + subst e2. apply triple_ret. rewrite app_nil_r. destruct Hr as (Hok & Hn & He & Ht).
      exists [rec], []. unfold all_messages. cbn [fmap list_fmap concat]. rewrite !app_nil_r, ended_app, turn_ends_app, last_app.
      split_and!; [by constructor|apply List.Forall_nil|done|rewrite He; apply app_nil_r|by rewrite Ht|intros id n; by rewrite opens_app, Ho|done|done|done|].
      intros Hs. by rewrite lives_app, Hl.
Qed.

Lemma runLoop_spec fuel (current : AgentContext W) new config :
  triple (runLoop fuel current new config) (looped (mkLoop current new config None [])) any_end.
Proof.
  unfold runLoop. eapply after_quiet; [apply optional_quiet|]. intros pending _.
  eapply triple_weaken; [apply loop_spec|done|done].
Qed.

(** ** Runs *)

(** A run that returned, in what it announced first and its turns. *)
Definition ran (err : option string) (new : list Message) (evs : list AgentEvent) : Prop :=
  exists initial turns tail, Forall (turn_ok observed) turns /\ Forall (fun t => turn_failed t = false) (removelast turns) /\
    new = initial ++ all_messages turns ++ tail /\ ended evs = new /\ turn_ends evs = turn_summary <$> turns /\
    (forall id n, opens id n evs = Some n) /\
    match err with
    | Some _ => Forall (fun t => turn_failed t = false) turns
    | None => tail = [] /\ turns <> [] /\ last evs = Some (EvAgentEnd new) /\ (well_streamed -> lives Idle evs = Some Over)
    end.

Lemma ran_looped (s : @LoopState W) evs0 err new evs :
  seg idle (ls_newMessages s) idle evs0 -> start_phase s = InTurn -> looped s (Some (err, new)) evs ->
  ran err new (EvAgentStart :: EvTurnStart :: evs0 ++ evs).
Proof.
  intros [L O E T] Hp (turns & tail & H1 & H2 & -> & H4 & H5 & H6 & H7). exists (ls_newMessages s), turns, tail.
  assert (forall rest : list AgentEvent, ended (EvAgentStart :: EvTurnStart :: rest) = ended rest) as He by done.
  assert (forall rest : list AgentEvent, turn_ends (EvAgentStart :: EvTurnStart :: rest) = turn_ends rest) as Ht by done.
  split_and!; [done|done|done|by rewrite He, ended_app, E, H4|by rewrite Ht, turn_ends_app, T| |].
  - intros id n. change (opens id n (evs0 ++ evs) = Some n). rewrite opens_app. specialize (O id n). unfold idle in O.
    rewrite Nat.add_0_r in O. rewrite O. apply H6.
  - destruct err; [done|]. destruct H7 as (-> & Hne & Hl & Hlive). split_and!; [done|done| |].
    + rewrite !app_comm_cons, last_app. by rewrite Hl.
    + intros Hs. change (lives InTurn (evs0 ++ evs) = Some Over). rewrite lives_app, L, <- Hp. by apply Hlive.
Qed.

(** What a run reports when it did not fail in the sink. *)
Lemma run_spec fuel prompts (agentCtx : AgentContext W) config err new w r' :
  RunAgentLoop fuel prompts agentCtx config (mkRun [] w false) = (Ok (Some (err, new)), r') -> (r_seen r' = true -> observed) ->
  ran err new (r_events r') \/ (exists e, err = Some e /\ new = []).
Proof.
  unfold RunAgentLoop, recover_emit.
  set (m := declareToolChanges agentCtx prompts ≫= _).
  assert (triple m (fun o evs => match o with None => True | Some (err, new) => ran err new evs end) any_end) as Hm.
  { unfold m. eapply after_quiet; [apply declare_quiet|]. intros initial _. eapply after_emit, after_emit.
    eapply triple_bind; [apply announce_spec|]. intros u e0 H0. eapply triple_weaken; [apply runLoop_spec| |done].
    intros [[err' new']|] e1 H; [|done]. exact (ran_looped (mkLoop _ initial _ None []) e0 err' new' e1 H0 eq_refl H). }
  specialize (Hm (mkRun [] w false)). destruct (m (mkRun [] w false)) as [[[[e n]|]|[e|v]] r]; intros [= <- <- <-] Hseen; specialize (Hm Hseen).
  - destruct Hm as (evs & -> & H). by left.
  - right. eauto.
Qed.

Lemma continue_spec fuel (agentCtx : AgentContext W) config err new w r' :
  RunAgentLoopContinue fuel agentCtx config (mkRun [] w false) = (Ok (Some (err, new)), r') -> (r_seen r' = true -> observed) ->
  ran err new (r_events r') \/ (exists e, err = Some e /\ new = []).
Proof.
  unfold RunAgentLoopContinue, recover_emit. set (m := mustEmit EvAgentStart ≫= _).
  assert (triple m (fun o evs => match o with None => True | Some (err, new) => ran err new evs end) any_end) as Hm.
  { unfold m. eapply after_emit, after_emit. eapply triple_weaken; [apply runLoop_spec| |done].
    intros [[err' new']|] e1 H; [|done]. exact (ran_looped (mkLoop _ [] _ None []) [] err' new' e1 (seg_nil idle) eq_refl H). }
  specialize (Hm (mkRun [] w false)). destruct (m (mkRun [] w false)) as [[[[e n]|]|[e|v]] r]; intros [= <- <- <-] Hseen; specialize (Hm Hseen).
  - destruct Hm as (evs & -> & H). by left.
  - right. eauto.
Qed.

(** ** Going on *)

(** Why the loop takes another turn: calls that were answered, something to
    steer it, something to follow up, or a hook that says so. *)
Definition goes_on_because (s : @LoopState W) (more explicit : bool) (next : @LoopState W) : Prop :=
  more = true \/ ls_pending s <> [] \/ ls_pending next <> [] \/ explicit = true.

(** [n] turns, each with its reason to go on. *)
Inductive goes_on : nat -> LoopState -> Run W -> LoopState -> Run W -> Prop :=
| goes_on_refl s r : goes_on O s r s r
| goes_on_turn n s r s1 more explicit r1 s2 r2 s3 r3 :
    turn s r = (Ok (Completed s1 more explicit), r1) ->
    after_turn s1 more explicit r1 = (Ok (Some s2), r2) -> goes_on_because s1 more explicit s2 ->
    goes_on n s2 r2 s3 r3 -> goes_on (S n) s r s3 r3.

Lemma after_turn_because (s : @LoopState W) more explicit r s2 r2 :
  after_turn s more explicit r = (Ok (Some s2), r2) -> goes_on_because s more explicit s2.
Proof.
  unfold after_turn, goes_on_because. destruct more; [by left|]. cbn [orb].
  destruct (ls_pending s) as [|p pending]; cbn [is_empty negb]; [|right; by left].
  unfold mbind, M_bind. destruct (optional _ r) as [[followUps|x] r1]; [|done].
  destruct followUps as [|m followUps]; cbn [is_empty].
  - destruct explicit; [by auto|]. destruct (mustEmit _ r1) as [[[]|x] r3]; discriminate.
  - intros [= <- <-]. right. right. by left.
Qed.

(** With the fuel used up, every turn had its reason. *)
Lemma loop_out_of_fuel fuel (s : @LoopState W) r r' :
  loop fuel s r = (Ok None, r') -> exists s', goes_on fuel s r s' r'.
Proof.
  revert s r. induction fuel as [|fuel IH]; intros s r; cbn [loop].
  - intros [= <-]. exists s. constructor.
  - unfold mbind, M_bind. destruct (turn s r) as [[[new|e new|s1 more explicit]|x] r1] eqn:Et; try discriminate.
    destruct (after_turn s1 more explicit r1) as [[[s2|]|x] r2] eqn:Ea; try discriminate.
    intros (s' & H)%IH. exists s'. econstructor; eauto using after_turn_because.
Qed.
End Runs.

(** ** Properties *)

(** C8: every turn of a run answers the model: what a run returns, started with
    prompts or continued, is what it announced first and then, turn by turn,
    the messages injected, the model's message, and one result for each of its
    tool calls, in order and with their identifiers.  Calls are left out, from
    the end, only in a run that has found its context cancelled, and then not
    all of them; a truncated message has all its calls answered by errors; and
    only the last turn can be a failed one, which answers none.  The turns are
    those that [turn_end] events report. *)
Theorem run_answers_calls {W} {R : Runtime W} fuel prompts (agentCtx : AgentContext W) config new w m r' :
  (m = RunAgentLoop fuel prompts agentCtx config \/ m = RunAgentLoopContinue fuel agentCtx config) ->
  m (mkRun [] w false) = (Ok (Some (None, new)), r') ->
  exists initial turns, new = initial ++ all_messages turns /\ turns <> [] /\ Forall (turn_ok (r_seen r' = true)) turns /\
    Forall (fun t => turn_failed t = false) (removelast turns) /\ turn_ends (r_events r') = turn_summary <$> turns.
Proof.
  intros [-> | ->] H; [apply (run_spec (Ob := r_seen r' = true)) in H|apply (continue_spec (Ob := r_seen r' = true)) in H]; try done;
    destruct H as [(initial & turns & tail & H1 & H2 & H3 & _ & H5 & _ & -> & H8 & _)|(e & He & _)]; try discriminate He;
    exists initial, turns; rewrite app_nil_r in H3; by split_and!.
Qed.

(** C9: the events of a run tell its story: they are accepted by the life of a
    run from its start to its end, an execution is updated and ended only after
    its start and every one that starts ends, whatever updates the goroutines
    of a tool ask for after it has returned; the messages that end are the
    run's new messages in order, and the last event hands them over.  The
    provider's streams announce their partial message at most once.  An update
    asked for while the tool runs is emitted before the tool returns. *)
Theorem run_events {W} {R : Runtime W} fuel prompts (agentCtx : AgentContext W) config new w m r' :
  well_streamed -> (m = RunAgentLoop fuel prompts agentCtx config \/ m = RunAgentLoopContinue fuel agentCtx config) ->
  m (mkRun [] w false) = (Ok (Some (None, new)), r') ->
  lives Idle (r_events r') = Some Over /\ (forall id, opens id O (r_events r') = Some O) /\
  ended (r_events r') = new /\ last (r_events r') = Some (EvAgentEnd new).
Proof.
  intros Hs [-> | ->] H; [apply (run_spec (Ob := True)) in H|apply (continue_spec (Ob := True)) in H]; try done;
    destruct H as [(initial & turns & tail & _ & _ & _ & H4 & _ & H6 & _ & _ & H9 & H10)|(e & He & _)]; try discriminate He;
    split_and!; auto.
Qed.

(** the context follows the messages: after any number of turns the
    transcript the next request is made from is the one the loop started with
    and the new messages, in order, unless a hook replaces it. *)
Theorem context_follows {W} {R : Runtime W} n (s : @LoopState W) r s' r' base :
  well_streamed -> keeps_context (ls_config s) -> goes_on n s r s' r' ->
  ac_Messages (ls_current s) = base ++ ls_newMessages s ->
  ac_Messages (ls_current s') = base ++ ls_newMessages s'.
Proof.
  intros Hw Hk H. induction H as [|n s r s1 more explicit r1 s2 r2 s3 r3 Ht Ha _ _ IH]; intros Hb; [done|].
  pose proof (turn_spec (Ob := True) s r (fun _ => I)) as Hs. rewrite Ht in Hs. destruct Hs as (evs & _ & _ & rec & (_ & Hn & _) & _ & _ & _ & Hh & Hc & _).
  assert (ls_config s2 = ls_config s1 /\ ls_newMessages s2 = ls_newMessages s1 /\ ls_current s2 = ls_current s1) as (E1 & E2 & E3).
  { revert Ha. unfold after_turn. destruct (_ || _); [by intros [= <- _]|]. unfold mbind, M_bind.
    destruct (optional _ r1) as [[f|x] q]; [|done]. destruct (is_empty f), explicit; try (by intros [= <- _]).
    by destruct (mustEmit _ q) as [[[]|x] q']. }
  apply IH; [rewrite E1; by eapply keeps_hooks|]. rewrite E3, E2, Hc, Hn, Hb by done. by rewrite app_assoc.
Qed.

(** The loop stops when nothing keeps it going: a run that has not returned
    after [fuel] turns took [fuel] turns of which each had a reason to go on
    (tool calls answered and not all terminating, steering, follow-ups, or
    [FinishTurn] asking for it); and without those hooks, a model that calls no
    tools gets one request. *)
Theorem loop_goes_on {W} {R : Runtime W} fuel (s : @LoopState W) r r' :
  loop fuel s r = (Ok None, r') ->
  (exists s', goes_on fuel s r s' r') /\
  (cf_GetSteeringMessages (ls_config s) = None -> cf_GetFollowUpMessages (ls_config s) = None ->
   cf_FinishTurn (ls_config s) = None ->
   (forall s1 more explicit q, turn s r = (Ok (Completed s1 more explicit), q) -> more = false) -> fuel = O).
Proof.
  intros H. apply loop_out_of_fuel in H as [s' H]. split; [by exists s'|]. intros H1 H2 H3 H4.
  destruct H as [|n s r s1 more explicit r1 s2 r2 s3 r3 Ht Ha Hb _]; [done|exfalso].
  pose proof (H4 _ _ _ _ Ht) as ->. pose proof (turn_spec (Ob := True) s r (fun _ => I)) as Hs. rewrite Ht in Hs.
  destruct Hs as (_ & _ & _ & rec & _ & _ & _ & _ & Hh & _ & _ & Hp & He). rewrite He in * by done.
  apply (f_equal cf_GetFollowUpMessages) in Hh. cbn in Hh. unfold after_turn in Ha. rewrite (Hp H1), Hh, H2 in Ha. cbn in Ha.
  unfold mbind, M_bind, mret, M_ret in Ha. cbn in Ha.
  by destruct (mustEmit (EvAgentEnd (ls_newMessages s1)) r1) as [[[]|x] q].
Qed.
