(* ===== verification/AgentTools.v ===== *)
(** * Tools of the agent loop: guards, panics and interleavings *)

From S2P Require Import Prelude GoText PiModel TransformMessages Transcript AgentModel ToolState AgentLoop AgentRules AgentPool.

Section Tools.
Context {W : Type} {R : Runtime W}.

(** ** What a preparation went through *)

(** The value a computation returns satisfies [P], whatever it emits. *)
Definition returns {A} (m : M W A) (P : A -> Prop) : Prop := forall r a r', m r = (Ok a, r') -> P a.

Lemma returns_ret {A} (a : A) (P : A -> Prop) : P a -> returns (mret a) P.
Proof. by intros H r b r' [= <- _]. Qed.

Lemma returns_bind {A B} (m : M W A) (k : A -> M W B) P Q :
  returns m P -> (forall a, P a -> returns (k a) Q) -> returns (m ≫= k) Q.
Proof.
  intros Hm Hk r b r'. unfold mbind, M_bind. destruct (m r) as [[a|x] r1] eqn:E; [|done].
  intros H. eapply Hk; [by eapply Hm|exact H].
Qed.

Lemma returns_call {A} (h : Hook W A) : returns (call h) (fun a => exists w w', h w = (Ok a, w')).
Proof. intros r a r'. unfold call. destruct (h (r_world r)) as [[b|v] w] eqn:E; [|done]. intros [= <- _]. eauto. Qed.

Lemma returns_aborted : returns aborted (fun b => exists w, (rt_cancelled w).1 = b).
Proof.
  intros r a r'. unfold aborted. destruct (rt_cancelled (r_world r)) as [b w] eqn:E. intros [= <- _].
  exists (r_world r). by rewrite E.
Qed.

(** A computation with recovery returns what it returned or what the handler
    makes of a panic. *)
Lemma returns_recovering {A} (m : M W A) handler (P : A -> Prop) :
  returns m P -> (forall v, P (handler v)) -> returns (recovering m handler) P.
Proof.
  intros Hm HP r a r'. unfold recovering. destruct (m r) as [[b|[e|v]] r1] eqn:E; [|done|].
  - intros [= <- <-]. by eapply Hm.
  - by intros [= <- _].
Qed.

(** The call as the tool's shim left it. *)
Definition shimmed (tool : AgentTool W) (c c' : ToolCall) : Prop :=
  c' = c \/ exists shim args w w', tool_PrepareArguments tool = Some shim /\
    shim (tl_Arguments c) w = (Ok (Some args), w') /\ c' = with_arguments c (Some args).

(** The hook before the call let it through with [args], which is what it made
    of the [validated] arguments, and the context was not cancelled when it was
    asked after. *)
Definition hooked (current : AgentContext W) message (c : ToolCall) validated args (config : AgentLoopConfig W) : Prop :=
  match cf_BeforeToolCall config with
  | None => args = validated
  | Some hook =>
      exists before w w', hook {| bc_AssistantMessage := message; bc_ToolCall := c; bc_Args := validated; bc_Context := current |} w = (Ok (before, args), w') /\
        forall b, before = Some b -> bt_Block b = false
  end.

Definition let_through (current : AgentContext W) message (c : ToolCall) validated args (config : AgentLoopConfig W) : Prop :=
  (exists w, (rt_cancelled w).1 = false) /\ hooked current message c validated args config.

Definition guarded (current : AgentContext W) message (c : ToolCall) (config : AgentLoopConfig W) (p : prepareResult) : Prop :=
  match p with
  | Immediate o => io_isError o = true
  | Prepared p =>
      pt_toolCall p = c /\ findTool (ac_Tools current) (tl_Name c) = Some (pt_tool p) /\
      exists c' validated, shimmed (pt_tool p) c c' /\ rt_validate (AsTool (pt_tool p)) c' = Ok validated /\
        let_through current message c validated (pt_args p) config
  end.

Lemma prepared_call_returns tool c : returns (prepared_call tool c) (shimmed tool c).
Proof.
  unfold prepared_call. destruct (tool_PrepareArguments tool) as [shim|] eqn:E; [|apply returns_ret; by left].
  eapply returns_bind; [apply returns_call|]. intros [args|] (w & w' & H); apply returns_ret; [|by left].
  right. by exists shim, args, w, w'.
Qed.

Lemma before_call_returns current message c args (config : AgentLoopConfig W) :
  returns (before_call current message c args config)
    (fun o => match o with
              | (Some o, _) => io_isError o = true
              | (None, args') => hooked current message c args args' config
              end).
Proof.
  unfold before_call, hooked. destruct (cf_BeforeToolCall config) as [hook|]; [|by apply returns_ret].
  eapply returns_bind; [apply returns_call|]. intros [before args'] (w & w' & H).
  eapply returns_bind; [apply returns_aborted|]. intros stop _. apply returns_ret. destruct stop; [done|].
  destruct before as [b|].
  - destruct (bt_Block b) eqn:Eb; [done|]. exists (Some b), w, w'. split; [done|]. by intros b' [= <-].
  - by exists None, w, w'.
Qed.
(** ** Interleavings *)

Section Interleavings.
Context (current : AgentContext W) (message : AssistantMessage) (config : AgentLoopConfig W).

(** A goroutine that is running takes one step. *)
Definition goroutine_step (a b : @Pool W * Run W) : Prop :=
  exists i p t e, pl_slots a.1 !! i = Some (Running p t e) /\
    in_slot (step_slot current message config p t e) i a.1 a.2 = (Ok b.1, b.2).

(** Any number of them. *)
Inductive interleaved : @Pool W -> Run W -> @Pool W -> Run W -> Prop :=
| interleaved_none pool r : interleaved pool r pool r
| interleaved_step pool r pool1 r1 pool2 r2 :
    goroutine_step (pool, r) (pool1, r1) -> interleaved pool1 r1 pool2 r2 -> interleaved pool r pool2 r2.

Lemma interleaved_trans pool r pool1 r1 pool2 r2 :
  interleaved pool r pool1 r1 -> interleaved pool1 r1 pool2 r2 -> interleaved pool r pool2 r2.
Proof. induction 1; [done|]. intros. econstructor; eauto. Qed.

Lemma interleaved_length pool r pool' r' : interleaved pool r pool' r' -> length (pl_slots pool') = length (pl_slots pool).
Proof.
  induction 1 as [|pool r pool1 r1 pool2 r2 (i & p & t & e & _ & H) _ IH]; [done|]. rewrite IH. cbn in H. unfold in_slot in H.
  destruct (step_slot current message config p t e r) as [[s|x] q]; injection H as <- _; apply length_insert.
Qed.

Lemma in_slot_ok m i pool (r : Run W) : exists pool' r', in_slot m i pool r = (Ok pool', r').
Proof. unfold in_slot. destruct (m r) as [[s|x] r']; eauto. Qed.

(** Finishing a goroutine is one step after the other. *)
Lemma finish_interleaved p t e i pool r pool' r' :
  pl_slots pool !! i = Some (Running p t e) ->
  in_slot (finish_slot current message config p t e) i pool r = (Ok pool', r') -> interleaved pool r pool' r'.
Proof.
  revert e pool r. induction t as [work next IH|partial next IH|res|m|m]; intros e pool r Hi H;
    try (econstructor; [exists i; eexists _, _, _; split; [exact Hi|exact H]|constructor]).
  - assert (i < length (pl_slots pool))%nat as Hlt by (by eapply lookup_lt_Some).
    set (pool1 := mkPool (<[i := Running p (next (r_world r)) e]> (pl_slots pool)) (pl_panic pool)).
    set (r1 := in_world (work (r_world r)) r). apply interleaved_step with pool1 r1; [by exists i, p, (Working work next), e|].
    apply (IH (r_world r) e); [by apply list_lookup_insert_eq|]. rewrite <- H.
    unfold in_slot. cbn [finish_slot]. fold r1. destruct (finish_slot current message config p (next (r_world r)) e r1) as [[s|x] r2];
      cbn; by rewrite list_insert_insert_eq.
  - assert (i < length (pl_slots pool))%nat as Hlt by (by eapply lookup_lt_Some).
    destruct (emit (update_event (pt_toolCall p) partial) r) as [[err|x] r1] eqn:Ee;
      [|unfold emit in Ee; by destruct (rt_emit _ _)].
    set (pool1 := mkPool (<[i := Running p next (first_error e err)]> (pl_slots pool)) (pl_panic pool)).
    apply interleaved_step with pool1 r1.
    + exists i, p, (Updating partial next), e. split; [exact Hi|]. unfold in_slot. cbn [step_slot fst snd onUpdate]. unfold mbind, M_bind.
      by rewrite Ee.
    + apply (IH (first_error e err)); [by apply list_lookup_insert_eq|]. rewrite <- H.
      unfold in_slot. cbn [finish_slot onUpdate]. unfold mbind, M_bind. rewrite Ee.
      destruct (finish_slot current message config p next (first_error e err) r1) as [[s|x] r2]; cbn; by rewrite list_insert_insert_eq.
Qed.

Lemma schedule_interleaved l pool r pool' r' :
  run_schedule current message config l pool r = (Ok pool', r') -> interleaved pool r pool' r'.
Proof.
  revert pool r. induction l as [|i l IH]; intros pool r; cbn [run_schedule]; [intros [= <- <-]; constructor|].
  unfold mbind, M_bind, step_pool. destruct (pl_slots pool !! i) as [[o|p t e|]|] eqn:Ei; try apply IH.
  destruct (in_slot_ok (step_slot current message config p t e) i pool r) as (pool1 & r1 & E). rewrite E. intros H.
  econstructor; [by exists i, p, t, e|by apply IH].
Qed.

Lemma interleaved_schedule pool r pool' r' :
  interleaved pool r pool' r' -> exists l, run_schedule current message config l pool r = (Ok pool', r').
Proof.
  induction 1 as [pool r|pool r pool1 r1 pool2 r2 (i & p & t & e & Hi & Hs) _ [l IH]]; [by exists []|].
  exists (i :: l). cbn [run_schedule]. unfold mbind, M_bind, step_pool. cbn in Hi, Hs. by rewrite Hi, Hs.
Qed.

Lemma conclude_done p e o r s r' : conclude current message config p e o r = (Ok s, r') -> exists out, s = Done out.
Proof.
  unfold conclude, mbind, M_bind. destruct (executed e o r) as [[a|x] r1]; [|done].
  destruct (finalizeExecutedToolCall _ _ _ _ _ r1) as [[out|x] r2]; [|done].
  destruct (mustEmit _ r2) as [[[]|x] r3]; [|done]. unfold lift. destruct (rt_late _ _) as [late w].
  destruct (late_updates _ _ _) as [[u|x] r4]; [|done]. intros [= <- _]. eauto.
Qed.

Lemma finish_slot_done p t e r s r' : finish_slot current message config p t e r = (Ok s, r') -> exists out, s = Done out.
Proof.
  revert e r. induction t as [work next IH|partial next IH|res|m|m]; intros e r H; cbn [finish_slot] in H; try (by eapply conclude_done).
  - by eapply IH.
  - unfold mbind, M_bind in H. destruct (onUpdate _ _ _ r) as [[err|x] r1]; [|done]. by eapply IH.
Qed.

(** Finishing a goroutine settles its slot and disturbs no other. *)
Lemma finish_pool_ok i pool r : exists pool' r',
  finish_pool current message config i pool r = (Ok pool', r') /\ interleaved pool r pool' r' /\
  length (pl_slots pool') = length (pl_slots pool) /\ settled pool' i /\ (forall j, settled pool j -> settled pool' j) /\
  (settled pool i -> pool' = pool /\ r' = r).
Proof.
  unfold finish_pool. destruct (pl_slots pool !! i) as [[o|p t e|]|] eqn:Ei;
    try (exists pool, r; split_and!; [done|constructor|done|intros ? ? ?; by rewrite Ei|done|done]).
  destruct (in_slot_ok (finish_slot current message config p t e) i pool r) as (pool1 & r1 & E). exists pool1, r1.
  assert (i < length (pl_slots pool))%nat as Hlt by (by eapply lookup_lt_Some).
  assert (exists s, (forall p' t' e', s <> Running p' t' e') /\ pl_slots pool1 = <[i := s]> (pl_slots pool)) as (s & Hs & Ep).
  { unfold in_slot in E. destruct (finish_slot current message config p t e r) as [[s|x] r2] eqn:Ef; injection E as <- <-.
    - apply finish_slot_done in Ef as [out ->]. by exists (Done out).
    - by exists Gone. }
  split_and!; [done|by eapply finish_interleaved|by rewrite Ep, length_insert| | |intros Hs'; by apply Hs' in Ei].
  - intros p' t' e'. rewrite Ep, list_lookup_insert_eq by done. intros [= H]. by eapply Hs.
  - intros j Hj p' t' e'. rewrite Ep. destruct (decide (i = j)) as [<-|Hne]; [by apply Hj in Ei|].
    rewrite list_lookup_insert_ne by done. apply Hj.
Qed.

Lemma finish_all_ok l pool r : exists pool' r',
  foldl (fun m i => pool ← m; finish_pool current message config i pool) (mret pool) l r = (Ok pool', r') /\
  interleaved pool r pool' r' /\ length (pl_slots pool') = length (pl_slots pool) /\ (forall i, i ∈ l -> settled pool' i) /\
  ((forall i, settled pool i) -> pool' = pool /\ r' = r).
Proof.
  induction l as [|i l IH] using rev_ind; [exists pool, r; split_and!; [done|constructor|done|intros i Hi; inversion Hi|done]|].
  destruct IH as (pool1 & r1 & E & Hl & Hlen & Hset & Hsame). rewrite foldl_snoc, (run_bind _ _ _ _ _ E).
  destruct (finish_pool_ok i pool1 r1) as (pool2 & r2 & E2 & Hl2 & Hlen2 & Hi & Hmono & Hsame2). exists pool2, r2.
  split_and!; [done|by eapply interleaved_trans|congruence| |].
  - intros j [Hj| ->%list_elem_of_singleton]%elem_of_app; [auto|done].
  - intros Hs. destruct (Hsame Hs) as [-> ->]. by apply Hsame2.
Qed.

(** ** The goroutines finish *)

(** What a step can make of a slot. *)
Definition slot_step (s s' : @slot W) : Prop :=
  exists p t e, s = Running p t e /\ (s' = Gone \/ exists r r', step_slot current message config p t e r = (Ok s', r')).

Lemma slot_acc (s : @slot W) : Acc (fun b a => slot_step a b) s.
Proof.
  assert (forall s, (forall p t e, s <> Running p t e) -> Acc (fun b a => slot_step a b) s) as Hstop.
  { intros x Hx. constructor. intros y (p & t & e & -> & _). by destruct (Hx p t e). }
  destruct s as [o|p t e|]; [by apply Hstop| |by apply Hstop].
  revert e. induction t as [work next IH|partial next IH|res|m|m]; intros e; constructor;
    intros y (p' & t' & e' & [= <- <- <-] & [->|(r & r' & H)]); try (by apply Hstop).
  - injection H as <- _. apply IH.
  - cbn in H. unfold mbind, M_bind in H. destruct (emit _ r) as [[err|x] r1]; [|done]. injection H as <- _. apply IH.
  - apply conclude_done in H as [out ->]. by apply Hstop.
  - apply conclude_done in H as [out ->]. by apply Hstop.
  - apply conclude_done in H as [out ->]. by apply Hstop.
Qed.

(** One element of a list goes down. *)
Definition list_step (l l' : list (@slot W)) : Prop :=
  exists i s s', l !! i = Some s /\ slot_step s s' /\ l' = <[i := s']> l.

Lemma list_acc l : Acc (fun b a => list_step a b) l.
Proof.
  induction l as [|s l IH]; [constructor; intros y (i & s & s' & H & _); by destruct i|].
  revert s. assert (forall s, Acc (fun b a => slot_step a b) s -> Acc (fun b a => list_step a b) (s :: l)) as H; [|intros s; apply H, slot_acc].
  induction IH as [l _ IHl]. induction 1 as [s _ IHs]. constructor. intros y (i & x & x' & Hi & Hx & ->). destruct i as [|i].
  - injection Hi as ->. by apply IHs.
  - apply (IHl (<[i := x']> l)); [by exists i, x, x'|apply slot_acc].
Qed.
End Interleavings.
End Tools.

(** ** Properties *)

(** A tool runs only for a call that passed every guard: the tool of that
    name exists, its schema accepted the arguments, as its own shim left them,
    the hook before the call, which may have changed them, did not block it,
    and the context was seen not cancelled; in every other case, a panic of the shim or the hook included,
    the call gets an error result instead. *)
Theorem tool_runs_guarded {W} {R : Runtime W} current message c (config : AgentLoopConfig W) r p r' :
  prepareToolCall current message c config r = (Ok p, r') -> guarded current message c config p.
Proof.
  assert (returns (prepareToolCall current message c config) (guarded current message c config)) as H; [|by apply H].
  unfold prepareToolCall. destruct (findTool _ _) as [tool|] eqn:Et; [|by apply returns_ret].
  apply returns_recovering; [|done]. eapply returns_bind; [apply prepared_call_returns|]. intros c' Hc.
  destruct (rt_validate _ _) as [args|e] eqn:Ev; [|by apply returns_ret].
  eapply returns_bind; [apply before_call_returns|]. intros [[o|] args'] Hb; [by apply returns_ret|].
  eapply returns_bind; [apply returns_aborted|]. intros [] [w Hw]; apply returns_ret; [done|].
  split_and!; [done|done|]. exists c', args. split_and!; [done|done|]. split; [by exists w|done].
Qed.

(** C40: what tools and their hooks do cannot stop a batch: when the sink never
    fails, executing the calls of a message returns, however tools, shims and
    the hooks around calls panic and however the goroutines are scheduled, and
    the calls are answered in order: all of them, or, when the batch has found
    its context cancelled, the first ones. *)
Theorem tool_panics_contained {W} {R : Runtime W} (current : AgentContext W) message config events w :
  (forall event w, (rt_emit event w).1 = None) ->
  exists batch r' answered, executeToolCalls current message config (mkRun events w false) = (Ok batch, r') /\
    attempted (r_seen r' = true) (filterToolCalls message) answered /\ Forall2 answers answered (eb_messages batch).
Proof.
  intros Hs. assert (sink_errors (W:=W) (fun _ => False)) as HX by (intros event v e E; by rewrite Hs in E).
  set (r := mkRun events w false).
  pose proof (executeToolCalls_spec (Ob := r_seen (executeToolCalls current message config r).2 = true) (fun _ => False) HX current message config r id) as H.
  destruct (executeToolCalls current message config r) as [[b|x] r'].
  - destruct H as (evs & _ & answered & Ha & Hr & _). by exists b, r', answered.
  - by destruct H as (_ & _ & []).
Qed.

(** Waiting for the goroutines of a batch means what it should: the pools
    [wg.Wait()] can return are exactly those some interleaving of the
    goroutines' steps reaches with all of them finished. *)
Theorem wait_interleaves {W} {R : Runtime W} (current : AgentContext W) message config slots r pool r' :
  (exists schedule, wait current message config schedule slots r = (Ok pool, r')) <->
  interleaved current message config (mkPool slots None) r pool r' /\ forall i, settled pool i.
Proof.
  split.
  - intros [schedule H]. unfold wait in H.
    destruct (run_schedule current message config schedule (mkPool slots None) r) as [[pool1|x] r1] eqn:E1;
      [|unfold mbind, M_bind in H; by rewrite E1 in H].
    rewrite (run_bind _ _ _ _ _ E1) in H. apply schedule_interleaved in E1 as H1.
    destruct (finish_all_ok current message config (seq 0 (length slots)) pool1 r1) as (pool2 & r2 & E2 & H2 & Hlen & Hset & _).
    rewrite E2 in H. injection H as <- <-. split; [by eapply interleaved_trans|].
    intros i p t e Hi. apply (Hset i) in Hi; [done|]. apply elem_of_seq. split; [lia|]. apply lookup_lt_Some in Hi.
    by rewrite Hlen, (interleaved_length _ _ _ _ _ _ _ H1) in Hi.
  - intros [H Hs]. apply interleaved_schedule in H as [l H]. exists l. unfold wait. rewrite (run_bind _ _ _ _ _ H).
    destruct (finish_all_ok current message config (seq 0 (length slots)) pool r') as (pool2 & r2 & E2 & _ & _ & _ & Hsame).
    destruct (Hsame Hs) as [-> ->]. exact E2.
Qed.

(** Whatever the scheduler does, the goroutines of a batch finish: no
    infinite sequence of their steps exists. *)
Theorem goroutines_finish {W} {R : Runtime W} (current : AgentContext W) message config :
  well_founded (fun b a => goroutine_step current message config a b).
Proof.
  intros [[slots panic] r]. revert panic r. induction (list_acc current message config slots) as [slots _ IH]. intros panic r.
  constructor. intros [[slots' panic'] r'] (i & p & t & e & Hi & H). cbn in Hi, H. apply IH.
  exists i, (Running p t e). unfold in_slot in H. destruct (step_slot _ _ _ p t e r) as [[s|x] r1] eqn:Es; injection H as <- <- <-.
  - exists s. split_and!; [done| |done]. exists p, t, e. split; [done|]. right. by exists r, r1.
  - exists Gone. split_and!; [done| |done]. exists p, t, e. split; [done|by left].
Qed.
