(* ===== verification/AgentExample.v ===== *)
(** * A run of the agent loop on a small world

    The model asks for two tools at once, one of which panics, then ends the
    turn; the world counts the requests.  The theorems about runs are applied
    to it. *)

From S2P Require Import Prelude GoText PiModel TransformMessages Transcript AgentModel ToolState AgentLoop AgentRules AgentPool AgentTurns AgentProps AgentTools.

(** ** The world *)

Definition demo_usage : Usage :=
  {| us_Input := 0; us_Output := 0; us_CacheRead := 0; us_CacheWrite := 0; us_CacheWrite1h := 0; us_Reasoning := 0; us_TotalTokens := 0 |}.

Definition demo_answer (content : list Content) (stop : StopReason) : AssistantMessage :=
  {| am_Content := Some content; am_Api := "a"; am_Provider := "p"; am_Model := "m"; am_Usage := demo_usage; am_StopReason := stop;
     am_ErrorMessage := ""; am_Timestamp := 0; am_Rest := ANil |}.

Definition demo_call (id name : string) : ToolCall :=
  {| tl_ID := id; tl_Name := name; tl_Arguments := Some []; tl_ThoughtSignature := ""; tl_Namespace := "" |}.

Definition demo_calls : AssistantMessage :=
  demo_answer [Call (value (demo_call "1" "echo")); Call (value (demo_call "2" "boom"))] StopToolUse.

Definition demo_event (t : EventType) (part message : option AssistantMessage) : AssistantMessageEvent :=
  {| ae_Type := t; ae_Partial := part; ae_Message := message; ae_Error := None; ae_Rest := ANil |}.

(** The answer streamed: the partial message first. *)
Definition demo_stream (m : AssistantMessage) : Stream nat :=
  Waiting id (fun _ => Received (demo_event EventStart (Some (demo_answer [] StopPending)) None)
    (Received (demo_event EventTextDelta (Some (demo_answer [] StopPending)) None)
      (Received (demo_event EventDone None (Some m)) EndOfStream))).

Definition demo_result (s : string) : AgentToolResult :=
  {| ar_Content := Some [text_block s]; ar_Details := ANil; ar_Usage := None; ar_Terminate := false |}.

Definition demo_tool (name : string) (run : ToolRun nat) : AgentTool nat :=
  {| tool_Name := name; tool_Description := ""; tool_Parameters := ANil; tool_Label := name; tool_ExecutionMode := ToolDefault;
     tool_PrepareArguments := None; tool_ConstrainedSampling := None; tool_Execute := fun _ _ => run |}.

Definition demo_context : AgentContext nat :=
  mkContext [] [demo_tool "echo" (Working id (fun _ => Updating (demo_result "half") (Returned (demo_result "all"))));
                demo_tool "boom" (Working id (fun _ => Crashed "boom"))].

Definition demo_config : AgentLoopConfig nat :=
  mkConfig nat None "" {| so_Reasoning := ""; so_APIKey := ""; so_Rest := ANil |} ToolDefault None None None None None None None None None None.

#[local] Instance demo_runtime : Runtime nat := {|
  rt_emit := fun _ w => (None, w);
  rt_cancelled := fun w => (false, w);
  rt_now := fun w => (7, w);
  rt_stream := Some (fun _ _ _ w => (Ok (Ok (Some (demo_stream (match w with O => demo_calls | _ => demo_answer [] StopStop end)))), S w));
  rt_validate := fun _ c => Ok (tl_Arguments c);
  rt_tool_json := fun t => Some (to_Name t);
  rt_schedule := fun _ w => ([1; 0; 1; 0]%nat, w);
  rt_late := fun _ w => ([demo_result "late"], w);
|}.

Definition demo_prompt : Message :=
  MUser (value {| um_Content := Some [text_block "go"]; um_Timestamp := 1; um_contentWasString := true |}).

Definition demo_run := RunAgentLoop 5 [demo_prompt] demo_context demo_config (mkRun [] O false).

Definition demo_new : list Message := match demo_run with (Ok (Some (_, new)), _) => new | _ => [] end.

(** The prompt and the declared tools, the calls, their results, the end. *)
Example demo_roles : MessageRole <$> demo_new =
  [Some RoleSystem; Some RoleUser; Some RoleAssistant; Some RoleToolResult; Some RoleToolResult; Some RoleAssistant].
Proof. vm_compute. reflexivity. Qed.

Lemma demo_streamed : well_streamed.
Proof. intros f m messages o w s w' [= <-] [= <- _]. intros w1. cbn. by split. Qed.

Lemma demo_keeps : keeps_context demo_config.
Proof. by split; intros ? ? ? ? ? [=]. Qed.

(** ** Witnesses *)

Lemma run_answers_calls_witness :
  exists turns, turn_ends (r_events demo_run.2) = turn_summary <$> turns /\ length turns = 2%nat.
Proof.
  destruct (run_answers_calls 5 [demo_prompt] demo_context demo_config demo_new O _ demo_run.2 (or_introl eq_refl)) as (initial & turns & _ & _ & _ & _ & Ht).
  - vm_compute. reflexivity.
  - exists turns. split; [exact Ht|]. assert (length (turn_ends (r_events demo_run.2)) = 2%nat) as E by (vm_compute; reflexivity).
    rewrite Ht in E. by rewrite length_fmap in E.
Defined.

Lemma run_events_witness : lives Idle (r_events demo_run.2) = Some Over /\ ended (r_events demo_run.2) = demo_new.
Proof.
  destruct (run_events 5 [demo_prompt] demo_context demo_config demo_new O _ demo_run.2 demo_streamed (or_introl eq_refl)) as (Hl & _ & He & _).
  - vm_compute. reflexivity.
  - split; [exact Hl|exact He].
Defined.

Definition demo_start : LoopState := mkLoop (with_messages demo_context [demo_prompt]) [demo_prompt] demo_config None [].

(** The state after the first turn. *)
Definition demo_turn := turn demo_start (mkRun [] O false).
Definition demo_next : LoopState := match demo_turn with (Ok (Completed s _ _), _) => s | _ => demo_start end.

Lemma demo_goes_on : goes_on 1 demo_start (mkRun [] O false) demo_next demo_turn.2.
Proof.
  apply goes_on_turn with (s1 := demo_next) (more := true) (explicit := false) (r1 := demo_turn.2) (s2 := demo_next) (r2 := demo_turn.2).
  - vm_compute. reflexivity.
  - vm_compute. reflexivity.
  - by left.
  - constructor.
Qed.

Lemma context_follows_witness : ac_Messages (ls_current demo_next) = ls_newMessages demo_next /\ length (ls_newMessages demo_next) = 5%nat.
Proof.
  split; [|vm_compute; reflexivity].
  apply (context_follows 1 demo_start (mkRun [] O false) demo_next demo_turn.2 [] demo_streamed demo_keeps demo_goes_on). reflexivity.
Defined.

Lemma loop_goes_on_witness : exists s', goes_on 1 demo_start (mkRun [] O false) s' demo_turn.2.
Proof. apply (loop_goes_on 1 demo_start (mkRun [] O false) demo_turn.2). vm_compute. reflexivity. Defined.

Definition demo_prepared := prepareToolCall demo_context demo_calls (demo_call "1" "echo") demo_config (mkRun [] O false).

Lemma tool_runs_guarded_witness :
  exists p, demo_prepared.1 = Ok p /\ guarded demo_context demo_calls (demo_call "1" "echo") demo_config p.
Proof.
  exists (match demo_prepared.1 with Ok p => p | Err _ => Immediate (error_outcome "") end). split; [vm_compute; reflexivity|].
  apply (tool_runs_guarded demo_context demo_calls (demo_call "1" "echo") demo_config (mkRun [] O false) _ demo_prepared.2).
  vm_compute. reflexivity.
Defined.

Lemma tool_panics_contained_witness :
  exists batch r', executeToolCalls demo_context demo_calls demo_config (mkRun [] O false) = (Ok batch, r') /\ length (eb_messages batch) = 2%nat.
Proof.
  destruct (tool_panics_contained demo_context demo_calls demo_config [] O) as (batch & r' & answered & E & _).
  - intros event w. reflexivity.
  - exists batch, r'. split; [exact E|]. vm_compute in E. injection E as <- _. reflexivity.
Defined.

Lemma declared_tools_current_witness :
  exists out r', declareToolChanges demo_context [demo_prompt] (mkRun [] O false) = (Ok out, r') /\
    (to_Name <$> GetCurrentTools (ac_Messages demo_context ++ out)) ≡ₚ ["echo"; "boom"].
Proof.
  eexists _, _. split; [vm_compute; reflexivity|].
  apply (declared_tools_current demo_context [demo_prompt] (mkRun [] O false) _ (mkRun [] O false)).
  - refine (bool_decide_unpack _ _). vm_compute. exact I.
  - vm_compute. reflexivity.
Defined.
