(* ===== verification/AgentView.v ===== *)
(** * A view of the world that only the events change

    When hooks, tools and streams leave a part of the world alone and the sink
    folds each event into it, that part is, at any moment of a run, the fold of
    the events so far. *)

From S2P Require Import Prelude GoText PiModel TransformMessages Transcript AgentModel ToolState AgentLoop AgentRules.

Section View.
Context {W V : Type} {R : Runtime W}.
Context (view : W -> V) (reduce : V -> AgentEvent -> V).

(** ** Definitions *)

(** A computation of the world that does not touch the view. *)
Definition polite {A} (f : W -> A * W) : Prop := forall w, view (f w).2 = view w.

Fixpoint polite_run (t : ToolRun W) : Prop :=
  match t with
  | Working work next => forall w, view (work w) = view w /\ polite_run (next w)
  | Updating _ next => polite_run next
  | Returned _ | Failed _ | Crashed _ => True
  end.

Fixpoint polite_stream (s : Stream W) : Prop :=
  match s with
  | Waiting work next => forall w, view (work w) = view w /\ polite_stream (next w)
  | Received _ next => polite_stream next
  | EndOfStream | Broken _ => True
  end.

Definition polite_tool (t : AgentTool W) : Prop :=
  (forall shim args, tool_PrepareArguments t = Some shim -> polite (shim args)) /\
  forall id args, polite_run (tool_Execute t id args).

Definition polite_tools (c : AgentContext W) : Prop := Forall polite_tool (ac_Tools c).

(** Hooks are polite, and the tools of the contexts they return are. *)
Definition polite_update (u : AgentRequestUpdate W) : Prop := forall c, ru_Context u = Some c -> polite_tools c.

Record polite_config (c : AgentLoopConfig W) : Prop := {
  po_convert : forall h x, cf_ConvertToLlm c = Some h -> polite (h x);
  po_transform : forall h x, cf_TransformContext c = Some h -> polite (h x);
  po_key : forall h x, cf_GetApiKey c = Some h -> polite (h x);
  po_before : forall h x, cf_BeforeToolCall c = Some h -> polite (h x);
  po_after : forall h x, cf_AfterToolCall c = Some h -> polite (h x);
  po_finish : forall h x, cf_FinishTurn c = Some h -> polite (h x);
  po_request : forall h x, cf_PrepareRequest c = Some h -> polite (h x);
  po_next : forall h x, cf_PrepareNextTurn c = Some h -> polite (h x);
  po_steer : forall h, cf_GetSteeringMessages c = Some h -> polite h;
  po_follow : forall h, cf_GetFollowUpMessages c = Some h -> polite h;
  po_request_tools : forall h x w u w', cf_PrepareRequest c = Some h -> h x w = (Ok (Some u), w') -> polite_update u;
  po_next_tools : forall h x w u w', cf_PrepareNextTurn c = Some h -> h x w = (Ok (Some u), w') -> polite_update (tu_Update u);
}.

Record polite_runtime : Prop := {
  pr_emit : forall event w, view (rt_emit event w).2 = reduce (view w) event;
  pr_cancelled : polite rt_cancelled;
  pr_now : polite rt_now;
  pr_schedule : forall n, polite (rt_schedule n);
  pr_late : forall c, polite (rt_late c);
  pr_stream : forall f m messages o, rt_stream = Some f ->
    polite (f m messages o) /\ forall w s w', f m messages o w = (Ok (Ok (Some s)), w') -> polite_stream s;
}.

(** The view is the fold of the events so far, from [v0]. *)
Definition folded (v0 : V) (r : Run W) : Prop := view (r_world r) = foldl reduce v0 (r_events r).

(** [m] keeps it so, and returns values that satisfy [P]. *)
Definition keeps {A} (m : M W A) (P : A -> Prop) : Prop :=
  forall v0 r, folded v0 r -> folded v0 (m r).2 /\ forall a, (m r).1 = Ok a -> P a.

(** ** Rules *)

Lemma keeps_ret {A} (a : A) (P : A -> Prop) : P a -> keeps (mret a) P.
Proof. intros H v0 r Hr. split; [done|]. by intros b [= <-]. Qed.

Lemma keeps_raise {A} x (P : A -> Prop) : keeps (raise x) P.
Proof. intros v0 r Hr. by split. Qed.

Lemma keeps_bind {A B} (m : M W A) (k : A -> M W B) P Q : keeps m P -> (forall a, P a -> keeps (k a) Q) -> keeps (m ≫= k) Q.
Proof.
  intros Hm Hk v0 r Hr. destruct (Hm v0 r Hr) as [Hr' Ha]. unfold mbind, M_bind. destruct (m r) as [[a|x] r']; cbn in *; [|done].
  by apply Hk; [apply Ha|].
Qed.

Lemma keeps_weaken {A} (m : M W A) (P Q : A -> Prop) : keeps m P -> (forall a, P a -> Q a) -> keeps m Q.
Proof. intros Hm HP v0 r Hr. destruct (Hm v0 r Hr). split; auto. Qed.

Lemma keeps_any {A} (m : M W A) P : keeps m P -> keeps m (fun _ => True).
Proof. intros H. by eapply keeps_weaken. Qed.

Lemma keeps_lift {A} (f : W -> A * W) : polite f -> keeps (lift f) (fun _ => True).
Proof.
  intros Hf v0 r Hr. split; [|done]. unfold folded, lift in *. specialize (Hf (r_world r)).
  destruct (f (r_world r)) as [a w]. cbn in *. by rewrite Hf.
Qed.

Lemma keeps_call {A} (h : Hook W A) : polite h -> keeps (call h) (fun a => exists w w', h w = (Ok a, w')).
Proof.
  intros Hf v0 r Hr. unfold folded, call in *. specialize (Hf (r_world r)).
  destruct (h (r_world r)) as [[a|v] w] eqn:E; cbn in *; (split; [by rewrite Hf|]); [|done]. intros b [= <-]. eauto.
Qed.

Lemma keeps_recovering {A} (m : M W A) handler P : keeps m P -> (forall v, P (handler v)) -> keeps (recovering m handler) P.
Proof.
  intros Hm HP v0 r Hr. destruct (Hm v0 r Hr) as [Hr' Ha]. unfold recovering. destruct (m r) as [[a|[e|v]] r']; cbn in *; try done.
  split; [done|]. by intros a [= <-].
Qed.

Lemma keeps_or_panic {A} (o : option A) : keeps (or_panic o) (fun _ => True).
Proof. destruct o; cbn; [by apply keeps_ret|apply keeps_raise]. Qed.

(** A step of the world, then the rest. *)
Lemma keeps_work {A} (work : W -> W) (k : W -> M W A) P :
  (forall w, view (work w) = view w) -> (forall w, keeps (k w) P) ->
  keeps (fun r => k (r_world r) (in_world (work (r_world r)) r)) P.
Proof. intros Hw Hk v0 r Hr. apply Hk. unfold folded in *. cbn. by rewrite Hw. Qed.

Context (HR : polite_runtime).

Lemma keeps_emit event : keeps (emit event) (fun _ => True).
Proof.
  intros v0 r Hr. split; [|done]. unfold folded, emit in *. pose proof (pr_emit HR event (r_world r)) as E.
  destruct (rt_emit event (r_world r)) as [e w]. cbn in *. by rewrite E, Hr, foldl_snoc.
Qed.

Lemma keeps_mustEmit event : keeps (mustEmit event) (fun _ => True).
Proof. eapply keeps_bind; [apply keeps_emit|]. intros [e|] _; [apply keeps_raise|by apply keeps_ret]. Qed.

Lemma keeps_aborted : keeps aborted (fun _ => True).
Proof.
  intros v0 r Hr. split; [|done]. unfold folded, aborted in *. pose proof (pr_cancelled HR (r_world r)) as E.
  destruct (rt_cancelled (r_world r)) as [b w]. cbn in *. by rewrite E.
Qed.

Lemma keeps_onUpdate accepting c partial : keeps (onUpdate accepting c partial) (fun _ => True).
Proof. unfold onUpdate. destruct accepting; [apply keeps_emit|by apply keeps_ret]. Qed.

Lemma keeps_late c partials : keeps (late_updates c partials) (fun _ => True).
Proof.
  induction partials as [|partial rest IH]; cbn [late_updates]; [by apply keeps_ret|].
  eapply keeps_bind; [apply keeps_onUpdate|]. intros _ _. exact IH.
Qed.

Lemma keeps_lift_late c : keeps (lift (rt_late c)) (fun _ => True).
Proof. apply keeps_lift, HR. Qed.

Lemma keeps_now : keeps nowMillis (fun _ => True).
Proof. apply keeps_lift, HR. Qed.

Lemma keeps_optional {A} (h : option (Hook W (list A))) : (forall f, h = Some f -> polite f) -> keeps (optional h) (fun _ => True).
Proof. intros H. destruct h; cbn; [by eapply keeps_any, keeps_call, H|by apply keeps_ret]. Qed.

End View.

(** The rules in the order of the computation; what is left needs a lemma of
    its own. *)
Create HintDb views discriminated.
#[export] Hint Resolve keeps_emit keeps_mustEmit keeps_onUpdate keeps_late keeps_lift_late keeps_aborted keeps_now keeps_or_panic : views.

Ltac keep :=
  repeat first
    [ progress intros
    | solve [eauto with views]
    | apply keeps_raise
    | apply keeps_ret; solve [done]
    | eapply keeps_bind; [solve [eauto with views]|]
    | match goal with |- keeps _ _ (if ?b then _ else _) _ => destruct b end
    | match goal with |- keeps _ _ (match ?x with _ => _ end) _ => destruct x eqn:? end ].

Section Parts.
Context {W V : Type} {R : Runtime W} (view : W -> V) (reduce : V -> AgentEvent -> V) (HR : polite_runtime view reduce).

Abbreviation keeps := (keeps view reduce).
Abbreviation polite := (polite view).
Abbreviation polite_run := (polite_run view).
Abbreviation polite_stream := (polite_stream view).
Abbreviation polite_tools := (polite_tools view).
Abbreviation polite_config := (polite_config view).

(** ** Tool calls *)

Lemma keeps_execute c t e : polite_run t -> keeps (execute_run c t e) (fun _ => True).
Proof.
  revert e. induction t as [work next IH|partial next IH|res|m|m]; intros e Ht; cbn [execute_run] in *;
    [|keep; by apply IH|unfold executed; keep..].
  apply (keeps_work view reduce work (fun w => execute_run c (next w) e)); [apply Ht|]. intros w. apply IH, Ht.
Qed.

Lemma findTool_polite (tools : list (AgentTool W)) name t : Forall (polite_tool view) tools -> findTool tools name = Some t -> polite_tool view t.
Proof.
  induction 1 as [|x l Hx _ IH]; [done|]. cbn. destruct (String.eqb _ _); [by intros [= <-]|done].
Qed.

Definition polite_prepared (p : prepareResult) : Prop :=
  match p with Prepared p => polite_tool view (pt_tool p) | Immediate _ => True end.

Lemma keeps_prepare current message c config :
  polite_tools current -> polite_config config -> keeps (prepareToolCall current message c config) polite_prepared.
Proof.
  intros Ht Hc. unfold prepareToolCall. destruct (findTool _ _) as [tool|] eqn:E; [|by apply keeps_ret].
  eapply findTool_polite in E; [|exact Ht]. apply keeps_recovering; [|done].
  eapply keeps_bind with (P := fun _ => True).
  { unfold prepared_call. destruct (tool_PrepareArguments tool) eqn:Es; [|by apply keeps_ret].
    eapply keeps_bind; [by eapply keeps_call, E|]. keep. }
  intros prepared _. destruct (rt_validate _ _); [|by apply keeps_ret]. eapply keeps_bind with (P := fun _ => True).
  { unfold before_call. destruct (cf_BeforeToolCall config) eqn:Eb; [|by apply keeps_ret].
    eapply keeps_bind; [by eapply keeps_call, (po_before _ _ Hc)|]. intros [b args] _. keep. }
  intros [[o|] args] _; [by apply keeps_ret|]. eapply keeps_bind; [by apply keeps_aborted|]. intros [] _; by apply keeps_ret.
Qed.

Lemma keeps_finalize current message p o config : polite_config config -> keeps (finalizeExecutedToolCall current message p o config) (fun _ => True).
Proof.
  intros Hc. unfold finalizeExecutedToolCall. destruct (cf_AfterToolCall config) eqn:Ea; [|by apply keeps_ret].
  apply keeps_recovering; [|done]. eapply keeps_bind; [by eapply keeps_call, (po_after _ _ Hc)|]. keep.
Qed.

Lemma keeps_report o : keeps (report o) (fun _ => True).
Proof.
  unfold report, createToolResultMessage, emitToolResultMessage. eapply keeps_bind with (P := fun _ => True); [keep|].
  intros m _. eapply keeps_bind with (P := fun _ => True); [keep|]. keep.
Qed.

Lemma keeps_run_calls current message calls config :
  polite_tools current -> polite_config config -> keeps (run_calls current message calls config) (fun _ => True).
Proof.
  intros Ht Hc. induction calls as [|c calls IH]; cbn [run_calls]; [by apply keeps_ret|].
  eapply keeps_bind; [by apply keeps_mustEmit|]. intros _ _. eapply keeps_bind with (P := fun _ => True).
  { unfold run_call. eapply keeps_bind; [by apply keeps_prepare|]. intros [o|p] Hp; [by apply keeps_ret|].
    eapply keeps_bind; [by apply keeps_execute, Hp|]. intros o _. eapply keeps_bind; [by apply keeps_finalize|]. keep. }
  intros [o late] _. eapply keeps_bind; [by apply keeps_mustEmit|]. intros _ _. eapply keeps_bind; [by apply keeps_late|].
  intros _ _. eapply keeps_bind; [by apply keeps_report|].
  intros m _. eapply keeps_bind; [by apply keeps_aborted|]. intros [] _; [by apply keeps_ret|].
  eapply keeps_bind; [exact IH|]. keep.
Qed.

(** ** Goroutines *)

Definition polite_slot (s : @slot W) : Prop := match s with Running p t _ => polite_run t | _ => True end.

Definition polite_pool (pool : @Pool W) : Prop := Forall polite_slot (pl_slots pool).

Lemma keeps_conclude current message config p e o :
  polite_config config -> keeps (conclude current message config p e o) polite_slot.
Proof.
  intros Hc. unfold conclude. eapply keeps_bind with (P := fun _ => True); [unfold executed; keep|]. intros a _.
  eapply keeps_bind; [by apply keeps_finalize|]. intros out _. eapply keeps_bind; [by apply keeps_mustEmit|]. intros _ _.
  eapply keeps_bind; [by apply keeps_lift_late|]. intros late _. eapply keeps_bind; [by apply keeps_late|]. intros _ _. by apply keeps_ret.
Qed.

Lemma keeps_step_slot current message config p t e :
  polite_config config -> polite_run t -> keeps (step_slot current message config p t e) polite_slot.
Proof.
  intros Hc Ht. destruct t as [work next|partial next|res|m|m]; cbn [step_slot]; try (by apply keeps_conclude).
  - intros v0 r Hr. cbn in *. split; [|intros s [= <-]; apply Ht]. unfold folded in *. cbn. by rewrite (proj1 (Ht _)).
  - eapply keeps_bind; [by apply keeps_onUpdate|]. intros err _. by apply keeps_ret.
Qed.

Lemma keeps_finish_slot current message config p t e :
  polite_config config -> polite_run t -> keeps (finish_slot current message config p t e) polite_slot.
Proof.
  intros Hc. revert e. induction t as [work next IH|partial next IH|res|m|m]; intros e Ht; cbn [finish_slot] in *;
    try (by apply keeps_conclude).
  - apply (keeps_work view reduce work (fun w => finish_slot current message config p (next w) e)); [apply Ht|]. intros w. apply IH, Ht.
  - eapply keeps_bind; [by apply keeps_onUpdate|]. intros err _. by apply IH.
Qed.

Lemma keeps_in_slot m i pool : polite_pool pool -> keeps m polite_slot -> keeps (in_slot m i pool) polite_pool.
Proof.
  intros Hp Hm v0 r Hr. destruct (Hm v0 r Hr) as [Hr' Hs]. unfold in_slot. destruct (m r) as [[s|x] r']; cbn in *;
    (split; [done|]); intros q [= <-]; unfold polite_pool; cbn; (apply Forall_insert; [done|]); [by apply Hs|done].
Qed.

Lemma slot_polite pool i p t e : polite_pool pool -> pl_slots pool !! i = Some (Running p t e) -> polite_run t.
Proof. intros Hp Hi. by apply (Forall_lookup_1 _ _ _ _ Hp Hi). Qed.

Lemma keeps_wait current message config schedule slots :
  polite_config config -> Forall polite_slot slots -> keeps (wait current message config schedule slots) polite_pool.
Proof.
  intros Hc Hs. unfold wait. eapply keeps_bind with (P := polite_pool).
  - assert (polite_pool (mkPool slots None)) as Hp by done. revert Hp. generalize (mkPool slots None).
    induction schedule as [|i l IH]; intros pool Hp; [by apply keeps_ret|]. cbn [run_schedule].
    eapply keeps_bind; [|exact IH]. unfold step_pool. destruct (pl_slots pool !! i) as [[o|p t e|]|] eqn:E; try (by apply keeps_ret).
    apply keeps_in_slot; [done|]. apply keeps_step_slot; [done|]. by eapply slot_polite.
  - intros pool Hp. generalize (seq 0 (length slots)). intros l. induction l as [|i l IH] using rev_ind; [by apply keeps_ret|].
    rewrite foldl_snoc. eapply keeps_bind; [exact IH|]. intros q Hq. unfold finish_pool.
    destruct (pl_slots q !! i) as [[o|p t e|]|] eqn:E; try (by apply keeps_ret).
    apply keeps_in_slot; [done|]. apply keeps_finish_slot; [done|]. by eapply slot_polite.
Qed.

Lemma keeps_prepare_calls current message calls config :
  polite_tools current -> polite_config config -> keeps (prepare_calls current message calls config) (Forall polite_slot).
Proof.
  intros Ht Hc. induction calls as [|c calls IH]; cbn [prepare_calls]; [by apply keeps_ret|].
  eapply keeps_bind; [by apply keeps_mustEmit|]. intros _ _. eapply keeps_bind; [by apply keeps_prepare|]. intros preparation Hp.
  eapply keeps_bind with (P := polite_slot).
  { destruct preparation as [o|p]; [|by apply keeps_ret, Hp]. eapply keeps_bind; [by apply keeps_mustEmit|]. intros _ _. by apply keeps_ret. }
  intros s Hs. eapply keeps_bind; [by apply keeps_aborted|]. intros [] _; [apply keeps_ret; by repeat constructor|].
  eapply keeps_bind; [exact IH|]. intros slots Hslots. apply keeps_ret. by constructor.
Qed.

Lemma keeps_abort_slots slots panicVal : keeps (abort_slots slots panicVal) (fun _ => True).
Proof.
  revert panicVal. induction slots as [|[o|p t e|] slots IH]; intros panicVal; cbn [abort_slots]; [by apply keeps_ret|..].
  - eapply keeps_bind; [apply IH|]. keep.
  - eapply keeps_bind; [by apply keeps_emit|]. intros err _. eapply keeps_bind; [apply IH|]. keep.
  - eapply keeps_bind; [apply IH|]. keep.
Qed.

Lemma keeps_report_all l : keeps (report_all l) (fun _ => True).
Proof.
  induction l as [|o l IH]; cbn [report_all]; [by apply keeps_ret|]. eapply keeps_bind; [by apply keeps_report|]. intros m _.
  eapply keeps_bind; [exact IH|]. keep.
Qed.

Lemma keeps_batch current message config :
  polite_tools current -> polite_config config -> keeps (executeToolCalls current message config) (fun _ => True).
Proof.
  intros Ht Hc. unfold executeToolCalls. destruct (_ || _).
  - unfold executeToolCallsSequential. eapply keeps_bind; [by apply keeps_run_calls|]. keep.
  - unfold executeToolCallsParallel. eapply keeps_bind; [by apply keeps_prepare_calls|]. intros slots Hs.
    eapply keeps_bind; [by apply keeps_aborted|]. intros stop _. eapply keeps_bind with (P := fun _ => True).
    { destruct stop; [apply keeps_abort_slots|]. eapply keeps_bind; [by apply keeps_lift, HR|]. intros schedule _.
      by eapply keeps_any, keeps_wait. }
    intros pool _. destruct (pl_panic pool); [apply keeps_raise|]. eapply keeps_bind; [apply keeps_report_all|]. keep.
Qed.

Lemma keeps_fail_calls calls : keeps (fail_calls (W:=W) calls) (fun _ => True).
Proof.
  induction calls as [|c calls IH]; cbn [fail_calls]; [by apply keeps_ret|].
  eapply keeps_bind; [by apply keeps_mustEmit|]. intros _ _. eapply keeps_bind; [by apply keeps_mustEmit|]. intros _ _.
  eapply keeps_bind; [by apply keeps_report|]. intros m _. eapply keeps_bind; [exact IH|]. keep.
Qed.

(** ** Turns *)

Lemma keeps_finish_message messages seen final : keeps (finish_message (W:=W) messages seen final) (fun _ => True).
Proof.
  unfold finish_message. eapply keeps_bind with (P := fun _ => True).
  - destruct seen; [by apply keeps_ret|]. eapply keeps_bind; [by apply keeps_mustEmit|]. keep.
  - intros l _. eapply keeps_bind; [by apply keeps_mustEmit|]. keep.
Qed.

Lemma keeps_receive (s : Stream W) messages part seen : polite_stream s -> keeps (receive s messages part seen) (fun _ => True).
Proof.
  revert messages part seen. induction s as [work next IH|event next IH| |m]; intros messages part seen Hs; cbn [receive] in *.
  - apply (keeps_work view reduce work (fun w => receive (next w) messages part seen)); [apply Hs|]. intros w. apply IH, Hs.
  - destruct (ae_Type event); try (by apply IH); try (destruct (finalMessageFromEvent event); [apply keeps_finish_message|by apply keeps_ret]);
      try (destruct part; [|by apply IH]; eapply keeps_bind; [by apply keeps_mustEmit|]; intros _ _; by apply IH).
    destruct (ae_Partial event); [|by apply IH]. eapply keeps_bind; [by apply keeps_mustEmit|]. intros _ _. by apply IH.
  - destruct part; [apply keeps_finish_message|by apply keeps_ret].
  - by apply keeps_ret.
Qed.

Lemma keeps_convert messages : keeps (defaultConvertToLlm (W:=W) messages) (fun _ => True).
Proof.
  induction messages as [|m messages IH]; cbn [defaultConvertToLlm]; [by apply keeps_ret|].
  eapply keeps_bind; [apply keeps_or_panic|]. intros role _. eapply keeps_bind; [exact IH|]. keep.
Qed.

(** The context of an answer has the tools of the context it was asked with. *)
Lemma keeps_stream current config :
  polite_config config ->
  keeps (streamAssistantResponse current config)
    (fun a => match a with Ok (_, c) => ac_Tools c = ac_Tools current | Err _ => True end).
Proof.
  intros Hc. unfold streamAssistantResponse. eapply keeps_bind with (P := fun _ => True).
  { destruct (cf_TransformContext config) eqn:E; [by eapply keeps_any, keeps_call, (po_transform _ _ Hc)|by apply keeps_ret]. }
  intros messages _. eapply keeps_bind with (P := fun _ => True).
  { destruct (cf_ConvertToLlm config) eqn:E; [by eapply keeps_any, keeps_call, (po_convert _ _ Hc)|apply keeps_convert]. }
  intros llm _. destruct rt_stream as [f|] eqn:Ef; [|by apply keeps_ret]. eapply keeps_bind with (P := fun _ => True).
  { unfold request_key. destruct (cf_GetApiKey config) eqn:E; [|by apply keeps_ret].
    eapply keeps_bind; [apply keeps_or_panic|]. intros m _. eapply keeps_bind; [by eapply keeps_call, (po_key _ _ Hc)|]. keep. }
  intros key _. pose proof (pr_stream _ _ HR f (cf_Model config) (NormalizeContext "" [] llm) (request_options config key) Ef) as [Hf Hs].
  eapply keeps_bind; [by apply keeps_call|]. intros [[s|]|e] (w & w' & E); try (by apply keeps_ret).
  eapply keeps_bind; [by eapply keeps_receive, Hs|]. intros [[final out]|e] _; by apply keeps_ret.
Qed.

(** What a turn goes on with: polite hooks and tools. *)
Definition polite_state (s : @LoopState W) : Prop := polite_tools (ls_current s) /\ polite_config (ls_config s).

Definition polite_end (t : turn_end) : Prop := match t with Completed s _ _ => polite_state s | _ => True end.

Lemma polite_request config m l : polite_config config -> polite_config (with_request config m l).
Proof. by intros []. Qed.

Lemma polite_apply u current config :
  polite_update view u -> polite_tools current -> polite_config config ->
  polite_tools (applyRequestUpdate u current config).1 /\ polite_config (applyRequestUpdate u current config).2.
Proof.
  intros Hu Ht Hc. split; [|by apply polite_request]. cbn. destruct (ru_Context u) eqn:E; [by apply Hu|done].
Qed.

Lemma keeps_next_turn s : polite_state s -> keeps (next_turn s) (fun r => polite_state r.1).
Proof.
  intros [Ht Hc]. unfold next_turn. destruct (ls_lastCompletedTurn s) as [turn|]; [|by apply keeps_ret].
  eapply keeps_bind with (P := fun u => forall u', u = Some u' -> polite_update view (tu_Update u')).
  { destruct (cf_PrepareNextTurn (ls_config s)) as [h|] eqn:E; [|by apply keeps_ret].
    eapply keeps_weaken; [by eapply keeps_call, (po_next _ _ Hc)|]. intros u (w & w' & H) u' ->. by eapply (po_next_tools _ _ Hc). }
  intros update Hu.
  assert (exists current config prepared,
    match update with None => (ls_current s, ls_config s, []) | Some u => applyTurnUpdate u (ls_current s) (ls_config s) end
      = (current, config, prepared) /\ polite_tools current /\ polite_config config) as (current & config & prepared & -> & Ht' & Hc').
  { destruct update as [u|]; [|by eexists _, _, _]. unfold applyTurnUpdate.
    pose proof (polite_apply (tu_Update u) _ _ (Hu u eq_refl) Ht Hc) as H.
    destruct (applyRequestUpdate (tu_Update u) _ _) as [current config]. by eexists _, _, _. }
  eapply keeps_bind with (P := fun _ => True).
  { destruct (is_empty _); [by apply keeps_optional, (po_steer _ _ Hc')|by apply keeps_ret]. }
  intros pending _. eapply keeps_bind; [by apply keeps_mustEmit|]. intros _ _. by apply keeps_ret.
Qed.

Lemma keeps_declare current pending : keeps (declareToolChanges current pending) (fun _ => True).
Proof.
  unfold declareToolChanges. destruct (last_system pending) as [[i s]|]; cbn zeta.
  - destruct (_ && _); by apply keeps_ret.
  - destruct (_ && _); [by apply keeps_ret|]. eapply keeps_bind; [by apply keeps_now|]. intros now _.
    eapply keeps_bind; [apply keeps_or_panic|]. keep.
Qed.

Lemma keeps_announce l : keeps (announce l) (fun _ => True).
Proof.
  induction l as [|m l IH]; cbn [announce]; [by apply keeps_ret|]. eapply keeps_bind; [by apply keeps_mustEmit|]. intros _ _.
  eapply keeps_bind; [by apply keeps_mustEmit|]. intros _ _. exact IH.
Qed.

Lemma keeps_prepare_request s : polite_state s -> keeps (prepare_request s) polite_state.
Proof.
  intros [Ht Hc]. unfold prepare_request. destruct (cf_PrepareRequest (ls_config s)) as [h|] eqn:E; [|by apply keeps_ret].
  eapply keeps_bind; [by eapply keeps_call, (po_request _ _ Hc)|]. intros u (w & w' & H). apply keeps_ret. destruct u as [u|]; [|done].
  pose proof (polite_apply u _ _ (po_request_tools _ _ Hc _ _ _ _ _ E H) Ht Hc) as Hu.
  by destruct (applyRequestUpdate u _ _).
Qed.

Lemma keeps_after_message s message : polite_state s -> keeps (after_message s message) polite_end.
Proof.
  intros [Ht Hc]. unfold after_message.
  assert (forall t, keeps (finish_turn (ls_config s) t) (fun _ => True)) as Hf.
  { intros t. unfold finish_turn. destruct (cf_FinishTurn _) eqn:E; [by eapply keeps_any, keeps_call, (po_finish _ _ Hc)|by apply keeps_ret]. }
  destruct (is_failed _).
  - eapply keeps_bind; [apply Hf|]. intros _ _. eapply keeps_bind; [by apply keeps_mustEmit|]. intros _ _.
    eapply keeps_bind; [by apply keeps_mustEmit|]. keep.
  - eapply keeps_bind with (P := fun _ => True).
    { unfold run_batch. destruct (filterToolCalls message) as [|c calls]; [by apply keeps_ret|]. eapply keeps_bind with (P := fun _ => True).
      - destruct (am_StopReason message); try (by apply keeps_batch). unfold failToolCallsFromTruncatedMessage.
        eapply keeps_bind; [apply keeps_fail_calls|]. keep.
      - keep. }
    intros b _. cbn zeta. eapply keeps_bind; [apply Hf|]. intros decision _. eapply keeps_bind; [by apply keeps_mustEmit|]. intros _ _.
    destruct (String.eqb _ _); [eapply keeps_bind; [by apply keeps_mustEmit|]; keep|].
    eapply keeps_bind; [by apply keeps_optional, (po_steer _ _ Hc)|]. intros pending _. by apply keeps_ret.
Qed.

Lemma keeps_turn s : polite_state s -> keeps (turn s) polite_end.
Proof.
  intros Hs. unfold turn. eapply keeps_bind; [by apply keeps_next_turn|]. intros [s1 prepared] H1. cbn in H1.
  eapply keeps_bind; [apply keeps_declare|]. intros messages _. eapply keeps_bind with (P := polite_state).
  { unfold inject. eapply keeps_bind; [apply keeps_announce|]. intros _ _. by apply keeps_ret. }
  intros s2 H2. eapply keeps_bind; [by apply keeps_prepare_request|]. intros s3 H3.
  eapply keeps_bind; [by apply keeps_stream, H3|]. intros [[message current]|e] H; [|by apply keeps_ret].
  apply keeps_after_message. destruct H3 as [Ht Hc]. split; [|done]. unfold AgentView.polite_tools. cbn. by rewrite H.
Qed.

Lemma keeps_loop fuel s : polite_state s -> keeps (loop fuel s) (fun _ => True).
Proof.
  revert s. induction fuel as [|fuel IH]; intros s Hs; cbn [loop]; [by apply keeps_ret|].
  eapply keeps_bind; [by apply keeps_turn|]. intros [new|e new|s1 more explicit] H1; [by apply keeps_ret..|].
  eapply keeps_bind with (P := fun o => forall s', o = Some s' -> polite_state s').
  { unfold after_turn. destruct (_ || _); [apply keeps_ret; by intros ? [= <-]|].
    eapply keeps_bind; [apply keeps_optional, H1|]. intros f _.
    destruct (is_empty f), explicit; try (apply keeps_ret; by intros ? [= <-]).
    eapply keeps_bind; [by apply keeps_mustEmit|]. intros _ _. by apply keeps_ret. }
  intros [s2|] H2; [by apply IH, H2|by apply keeps_ret].
Qed.

Lemma keeps_recover_emit m : keeps m (fun _ => True) -> keeps (recover_emit (W:=W) m) (fun _ => True).
Proof.
  intros Hm v0 r Hr. destruct (Hm v0 r Hr) as [Hr' _]. unfold recover_emit. by destruct (m r) as [[a|[e|v]] r'].
Qed.

Lemma keeps_runLoop fuel current new config :
  polite_tools current -> polite_config config -> keeps (runLoop fuel current new config) (fun _ => True).
Proof.
  intros Ht Hc. unfold runLoop. eapply keeps_bind; [apply keeps_optional, Hc|]. intros pending _. by apply keeps_loop.
Qed.

(** A run keeps the view the fold of its events, however it ends. *)
Lemma keeps_run fuel prompts agentCtx config :
  polite_tools agentCtx -> polite_config config -> keeps (RunAgentLoop fuel prompts agentCtx config) (fun _ => True).
Proof.
  intros Ht Hc. apply keeps_recover_emit. eapply keeps_bind; [apply keeps_declare|]. intros initial _.
  eapply keeps_bind; [by apply keeps_mustEmit|]. intros _ _. eapply keeps_bind; [by apply keeps_mustEmit|]. intros _ _.
  eapply keeps_bind; [apply keeps_announce|]. intros _ _. by apply keeps_runLoop.
Qed.

Lemma keeps_continue fuel agentCtx config :
  polite_tools agentCtx -> polite_config config -> keeps (RunAgentLoopContinue fuel agentCtx config) (fun _ => True).
Proof.
  intros Ht Hc. apply keeps_recover_emit. eapply keeps_bind; [by apply keeps_mustEmit|]. intros _ _.
  eapply keeps_bind; [by apply keeps_mustEmit|]. intros _ _. by apply keeps_runLoop.
Qed.
End Parts.
