(* ===== verification/AgentState.v ===== *)
(** * The agent around the loop ([internal/pi/agent/agent.go])

    An agent keeps a transcript and two queues of messages, reduces the events
    of its runs into its state and tells its listeners.  The state is a part of
    the world its runs act on: the hooks that drain the queues and the sink of
    the events are functions of it.  Tools, listeners and the other hooks are
    functions of the agent's data and of the rest of the world [E]. *)

From S2P Require Import Prelude GoText PiModel TransformMessages Transcript AgentModel ToolState AgentLoop.

(** ** Definitions *)

(** *** Queues ([pendingQueue]) *)

(** Any mode but [QueueAll] takes one message at a time. *)
Inductive QueueMode := QueueAll | QueueOneAtATime.

Record pendingQueue := mkQueue { q_mode : QueueMode; q_messages : list Message }.

Definition enqueue (q : pendingQueue) (m : Message) : pendingQueue := mkQueue (q_mode q) (q_messages q ++ [m]).
Definition hasItems (q : pendingQueue) : bool := negb (is_empty (q_messages q)).
Definition clear (q : pendingQueue) : pendingQueue := mkQueue (q_mode q) [].

Definition peek (q : pendingQueue) : list Message :=
  match q_mode q with
  | QueueAll => q_messages q
  | QueueOneAtATime => match q_messages q with [] => [] | m :: _ => [m] end
  end.

Definition drain (q : pendingQueue) : list Message * pendingQueue :=
  let drained := peek q in (drained, mkQueue (q_mode q) (drop (length drained) (q_messages q))).

(** *** The data of an agent *)

(** [AgentState] less the prompt, which is replayed, and the tools, which are
    functions. *)
Record AgentState := mkState {
  st_Model : Model;
  st_ThinkingLevel : string;
  st_Messages : list Message;
  st_IsStreaming : bool;
  st_StreamingMessage : option Message;
  st_PendingToolCalls : gset string;
  st_ErrorMessage : string;
}.

(** [ad_skip] is the variable [skip] of [loopConfig], [ad_active] whether a run
    is active. *)
Record AgentData := mkAgent {
  ad_state : AgentState;
  ad_steering : pendingQueue;
  ad_followUp : pendingQueue;
  ad_skip : bool;
  ad_active : bool;
}.

Definition with_state (d : AgentData) (s : AgentState) : AgentData :=
  mkAgent s (ad_steering d) (ad_followUp d) (ad_skip d) (ad_active d).
Definition with_steering (d : AgentData) (q : pendingQueue) : AgentData :=
  mkAgent (ad_state d) q (ad_followUp d) (ad_skip d) (ad_active d).
Definition with_followUp (d : AgentData) (q : pendingQueue) : AgentData :=
  mkAgent (ad_state d) (ad_steering d) q (ad_skip d) (ad_active d).
Definition with_skip (d : AgentData) (skip : bool) : AgentData :=
  mkAgent (ad_state d) (ad_steering d) (ad_followUp d) skip (ad_active d).
Definition with_active (d : AgentData) (active : bool) : AgentData :=
  mkAgent (ad_state d) (ad_steering d) (ad_followUp d) (ad_skip d) active.

Definition with_streaming_message (s : AgentState) (m : option Message) : AgentState :=
  mkState (st_Model s) (st_ThinkingLevel s) (st_Messages s) (st_IsStreaming s) m (st_PendingToolCalls s) (st_ErrorMessage s).
Definition with_pending (s : AgentState) (p : gset string) : AgentState :=
  mkState (st_Model s) (st_ThinkingLevel s) (st_Messages s) (st_IsStreaming s) (st_StreamingMessage s) p (st_ErrorMessage s).
Definition with_error (s : AgentState) (e : string) : AgentState :=
  mkState (st_Model s) (st_ThinkingLevel s) (st_Messages s) (st_IsStreaming s) (st_StreamingMessage s) (st_PendingToolCalls s) e.
Definition with_transcript (s : AgentState) (l : list Message) : AgentState :=
  mkState (st_Model s) (st_ThinkingLevel s) l (st_IsStreaming s) (st_StreamingMessage s) (st_PendingToolCalls s) (st_ErrorMessage s).
Definition with_streaming (s : AgentState) (b : bool) : AgentState :=
  mkState (st_Model s) (st_ThinkingLevel s) (st_Messages s) b (st_StreamingMessage s) (st_PendingToolCalls s) (st_ErrorMessage s).

(** *** The switch of [processEvent]

    [asAssistant] answers a nil pointer too, on which the code would panic; the
    loop never ends a turn with one. *)
Definition asAssistant (m : Message) : option AssistantMessage := match m with MAssistant h => deref h | _ => None end.

Definition reduce (s : AgentState) (event : AgentEvent) : AgentState :=
  match event with
  | EvMessageStart m | EvMessageUpdate m _ => with_streaming_message s (Some m)
  | EvMessageEnd m => with_transcript (with_streaming_message s None) (st_Messages s ++ [m])
  | EvToolExecutionStart id _ _ => with_pending s ({[ id ]} ∪ st_PendingToolCalls s)
  | EvToolExecutionEnd id _ _ _ => with_pending s (st_PendingToolCalls s ∖ {[ id ]})
  | EvTurnEnd m _ =>
      match asAssistant m with
      | Some a => if String.eqb (am_ErrorMessage a) "" then s else with_error s (am_ErrorMessage a)
      | None => s
      end
  | EvAgentEnd _ => with_streaming_message s None
  | EvAgentStart | EvTurnStart | EvToolExecutionUpdate _ _ _ _ => s
  end.

(** *** Queues and settings of an agent *)

Definition Steer (d : AgentData) (m : Message) : AgentData := with_steering d (enqueue (ad_steering d) m).
Definition FollowUp (d : AgentData) (m : Message) : AgentData := with_followUp d (enqueue (ad_followUp d) m).
Definition ClearSteeringQueue (d : AgentData) : AgentData := with_steering d (clear (ad_steering d)).
Definition ClearFollowUpQueue (d : AgentData) : AgentData := with_followUp d (clear (ad_followUp d)).
Definition ClearAllQueues (d : AgentData) : AgentData := ClearFollowUpQueue (ClearSteeringQueue d).
Definition HasQueuedMessages (d : AgentData) : bool := hasItems (ad_steering d) || hasItems (ad_followUp d).
Definition PeekQueuedMessages (d : AgentData) : list Message :=
  match peek (ad_steering d) with [] => peek (ad_followUp d) | l => l end.

Definition SetSteeringMode (d : AgentData) (mode : QueueMode) : AgentData :=
  with_steering d (mkQueue mode (q_messages (ad_steering d))).
Definition SetFollowUpMode (d : AgentData) (mode : QueueMode) : AgentData :=
  with_followUp d (mkQueue mode (q_messages (ad_followUp d))).
Definition SetMessages (d : AgentData) (l : list Message) : AgentData := with_state d (with_transcript (ad_state d) l).
Definition SetModel (d : AgentData) (m : Model) : AgentData :=
  let s := ad_state d in
  with_state d (mkState m (st_ThinkingLevel s) (st_Messages s) (st_IsStreaming s) (st_StreamingMessage s)
                  (st_PendingToolCalls s) (st_ErrorMessage s)).
Definition SetThinkingLevel (d : AgentData) (level : string) : AgentData :=
  let s := ad_state d in
  with_state d (mkState (st_Model s) level (st_Messages s) (st_IsStreaming s) (st_StreamingMessage s)
                  (st_PendingToolCalls s) (st_ErrorMessage s)).

Definition msg_reset : string := "Agent is already processing. Wait for completion before resetting.".
Definition msg_prompt : string :=
  "Agent is already processing a prompt. Use Steer() or FollowUp() to queue messages, or wait for completion.".
Definition msg_continue : string := "Agent is already processing. Wait for completion before continuing.".
Definition msg_no_messages : string := "No messages to continue from".
Definition msg_assistant : string := "Cannot continue from message role: assistant".

(** [Reset]: the data and the error. *)
Definition Reset (d : AgentData) : AgentData * option string :=
  if ad_active d then (d, Some msg_reset)
  else
    let messages := match GetCurrentSystemMessage (st_Messages (ad_state d)) with
                    | Some baseline => [MSystem (value baseline)]
                    | None => []
                    end in
    let s := mkState (st_Model (ad_state d)) (st_ThinkingLevel (ad_state d)) messages false None ∅ "" in
    (ClearAllQueues (with_state d s), None).

Definition defaultModel : Model := {| md_ID := "unknown"; md_Api := "unknown"; md_Provider := "unknown"; md_Input := [] |}.

(** The state [NewAgent] starts with; [None] is a panic of [MessageRole] on the
    first message. *)
Definition initial_messages {W} (systemPrompt : string) (tools : list (AgentTool W)) (messages : list Message) : option (list Message) :=
  match CreateInitialSystemMessage systemPrompt ((fun t => ToToolDeclaration (AsTool t)) <$> tools) with
  | None => Some messages
  | Some initial =>
      match messages with
      | [] => Some [MSystem (value initial)]
      | m :: _ =>
          role ← MessageRole m;
          Some (if decide (role = RoleSystem) then messages else MSystem (value initial) :: messages)
      end
  end.

Definition NewAgent {W} (m : option Model) (level systemPrompt : string) (tools : list (AgentTool W)) (messages : list Message)
    (steeringMode followUpMode : QueueMode) : option AgentData :=
  messages ← initial_messages systemPrompt tools messages;
  Some (mkAgent (mkState (default defaultModel m) (if String.eqb level "" then ThinkingOff else level) messages false None ∅ "")
          (mkQueue steeringMode []) (mkQueue followUpMode []) false false).

(** *** Runs *)

Section Runs.
Context {E : Type}.

(** The world of an agent's runs. *)
Definition World : Type := AgentData * E.

(** What an agent holds besides its data: listeners ([None] once
    unsubscribed), tools, hooks and options. *)
Record Agent := {
  ag_listeners : list (option (AgentEvent -> World -> option string * World));
  ag_Tools : list (AgentTool World);
  ag_config : AgentLoopConfig World;
}.

(** [Subscribe]: the agent and the index its answer unsubscribes. *)
Definition Subscribe (a : Agent) (listener : AgentEvent -> World -> option string * World) : Agent * nat :=
  ({| ag_listeners := ag_listeners a ++ [Some listener]; ag_Tools := ag_Tools a; ag_config := ag_config a |},
   length (ag_listeners a)).

Definition unsubscribe (a : Agent) (index : nat) : Agent :=
  {| ag_listeners := <[index := None]> (ag_listeners a); ag_Tools := ag_Tools a; ag_config := ag_config a |}.

Definition SetTools (a : Agent) (tools : list (AgentTool World)) : Agent :=
  {| ag_listeners := ag_listeners a; ag_Tools := tools; ag_config := ag_config a |}.

(** The rest of the runtime, on the world. *)
Record Surroundings := {
  su_cancelled : World -> bool * World;
  su_now : World -> Z * World;
  su_stream : option (option Model -> list Message -> StreamOptions -> Hook World (result string (option (Stream World))));
  su_validate : Tool -> ToolCall -> result string JsonObject;
  su_tool_json : Tool -> option string;
  su_schedule : nat -> World -> list nat * World;
  su_late : ToolCall -> World -> list AgentToolResult * World;
}.

Context (a : Agent) (u : Surroundings).

(** The listeners in order, until one fails. *)
Fixpoint notify (listeners : list (option (AgentEvent -> World -> option string * World))) (event : AgentEvent) (w : World)
    : option string * World :=
  match listeners with
  | [] => (None, w)
  | None :: rest => notify rest event w
  | Some listener :: rest =>
      match listener event w with
      | (None, w) => notify rest event w
      | (Some e, w) => (Some e, w)
      end
  end.

Definition processEvent (event : AgentEvent) (w : World) : option string * World :=
  notify (ag_listeners a) event (with_state w.1 (reduce (ad_state w.1) event), w.2).

#[local] Instance agent_runtime : Runtime World := {|
  rt_emit := processEvent;
  rt_cancelled := su_cancelled u;
  rt_now := su_now u;
  rt_stream := su_stream u;
  rt_validate := su_validate u;
  rt_tool_json := su_tool_json u;
  rt_schedule := su_schedule u;
  rt_late := su_late u;
|}.

(** A step on the agent's data, under its lock. *)
Definition locked {A} (f : AgentData -> A * AgentData) : M World A :=
  lift (fun w => let (x, d) := f w.1 in (x, (d, w.2))).

Definition modify (f : AgentData -> AgentData) : M World unit := locked (fun d => (tt, f d)).

Definition getSteeringMessages : Hook World (list Message) := fun w =>
  if ad_skip w.1 then (Ok [], (with_skip w.1 false, w.2))
  else let (l, q) := drain (ad_steering w.1) in (Ok l, (with_steering w.1 q, w.2)).

Definition getFollowUpMessages : Hook World (list Message) := fun w =>
  let (l, q) := drain (ad_followUp w.1) in (Ok l, (with_followUp w.1 q, w.2)).

(** A nil [ConvertToLlm] is replaced by the default when the agent is made,
    which the loop does too. *)
Definition loopConfig (skipInitialSteeringPoll : bool) : M World (AgentLoopConfig World) :=
  s ← locked (fun d => (ad_state d, with_skip d skipInitialSteeringPoll));
  let c := ag_config a in
  mret (mkConfig World (Some (st_Model s)) (if String.eqb (st_ThinkingLevel s) ThinkingOff then "" else st_ThinkingLevel s)
          (cf_Options c) (cf_ToolExecution c) (cf_ConvertToLlm c) (cf_TransformContext c) (cf_GetApiKey c)
          (cf_BeforeToolCall c) (cf_AfterToolCall c) (cf_FinishTurn c) (cf_PrepareRequest c) (cf_PrepareNextTurn c)
          (Some getSteeringMessages) (Some getFollowUpMessages)).

Definition contextSnapshot : M World (AgentContext World) :=
  messages ← locked (fun d => (st_Messages (ad_state d), d));
  mret (mkContext messages (ag_Tools a)).

(** The events of [handleRunFailure], until the sink fails. *)
Fixpoint emit_all (events : list AgentEvent) : M World (option string) :=
  match events with
  | [] => mret None
  | event :: rest =>
      err ← emit event;
      match err with None => emit_all rest | Some e => mret (Some e) end
  end.

Definition no_usage : Usage :=
  {| us_Input := 0; us_Output := 0; us_CacheRead := 0; us_CacheWrite := 0; us_CacheWrite1h := 0; us_Reasoning := 0; us_TotalTokens := 0 |}.

Definition failure_message (m : Model) (message : string) (wasAborted : bool) (now : Z) : AssistantMessage :=
  {| am_Content := Some [text_block ""]; am_Api := md_Api m; am_Provider := md_Provider m; am_Model := md_ID m; am_Usage := no_usage;
     am_StopReason := if wasAborted then StopAborted else StopError; am_ErrorMessage := message; am_Timestamp := now; am_Rest := ANil |}.

Definition failure_events (failure : AssistantMessage) : list AgentEvent :=
  let m := assistant failure in [EvMessageStart m; EvMessageEnd m; EvTurnEnd m []; EvAgentEnd [m]].

Definition handleRunFailure (message : string) (wasAborted : bool) : M World (option string) :=
  m ← locked (fun d => (st_Model (ad_state d), d));
  now ← nowMillis;
  emit_all (failure_events (failure_message m message wasAborted now)).

(** What an executor ends with, a panic included. *)
Definition attempt {A} (m : M World A) : M World (result raised A) := fun r => let (x, r) := m r in (Ok x, r).

Definition raised_message (x : raised) : string := match x with EmitFailed e => e | Panicked v => v end.

(** The failure of an executor is told in events; the error is the sink's. *)
Definition run_error (ended : result raised (option (option string * list Message))) : M World (option string) :=
  match ended with
  | Ok (Some (Some e, _)) => stop ← aborted; handleRunFailure e stop
  | Err x => stop ← aborted; handleRunFailure (raised_message x) stop
  | Ok _ => mret None
  end.

(** The state as a run begins, and once it is over. *)
Definition begin (s : AgentState) : AgentState := with_error (with_streaming_message (with_streaming s true) None) "".

Definition settle (s : AgentState) : AgentState := with_pending (with_streaming_message (with_streaming s false) None) ∅.

Definition release (d : AgentData) : AgentData := with_active (with_state d (settle (ad_state d))) false.

(** [Some] the error of the run; [None] when the fuel is used up. *)
Definition executeClaimedRun (executor : M World (option (option string * list Message))) : M World (option (option string)) :=
  _ ← modify (fun d => with_state d (begin (ad_state d)));
  ended ← attempt executor;
  match ended with
  | Ok None => mret None
  | _ =>
      runErr ← run_error ended;
      _ ← modify release;
      mret (Some runErr)
  end.

(** [claimRun]: what [onClaimed] answers if the run was claimed. *)
Definition claimRun {A} (onClaimed : AgentData -> A * AgentData) : M World (option A) :=
  locked (fun d =>
    if ad_active d then (None, d)
    else let (x, d) := onClaimed (with_active d true) in (Some x, d)).

Definition msg_claim : string := "Agent is already processing.".

Definition runWithLifecycle (executor : M World (option (option string * list Message))) : M World (option (option string)) :=
  claimed ← claimRun (fun d => (tt, d));
  match claimed with
  | None => mret (Some (Some msg_claim))
  | Some _ => executeClaimedRun executor
  end.

Definition run_prompts (fuel : nat) (messages : list Message) (skip : bool) : M World (option (option string * list Message)) :=
  c ← contextSnapshot;
  config ← loopConfig skip;
  RunAgentLoop fuel messages c config.

Definition run_continuation (fuel : nat) : M World (option (option string * list Message)) :=
  c ← contextSnapshot;
  config ← loopConfig false;
  RunAgentLoopContinue fuel c config.

Definition PromptMessages (fuel : nat) (messages : list Message) : M World (option (option string)) :=
  active ← locked (fun d => (ad_active d, d));
  if active : bool then mret (Some (Some msg_prompt)) else runWithLifecycle (run_prompts fuel messages false).

Definition Prompt (fuel : nat) (text : string) (images : list ImageContent) : M World (option (option string)) :=
  now ← nowMillis;
  PromptMessages fuel
    [MUser (value {| um_Content := Some (text_block text :: ((fun i => Image (value i)) <$> images)); um_Timestamp := now;
                     um_contentWasString := false |})].

(** [slices.ContainsFunc] of a message that is not a system message; [None] is
    the panic of [MessageRole]. *)
Fixpoint has_conversation (messages : list Message) : option bool :=
  match messages with
  | [] => Some false
  | m :: rest => role ← MessageRole m; if decide (role = RoleSystem) then has_conversation rest else Some true
  end.

(** The steering queue, or the other one when that is empty; and whether the
    first poll is skipped. *)
Definition drain_any (d : AgentData) : list Message * bool * AgentData :=
  let (steering, q) := drain (ad_steering d) in
  if is_empty steering then
    let (l, q') := drain (ad_followUp d) in (l, false, with_followUp (with_steering d q) q')
  else (steering, true, with_steering d q).

Definition Continue (fuel : nat) : M World (option (option string)) :=
  d ← locked (fun d => (d, d));
  if ad_active d then mret (Some (Some msg_continue))
  else
    some ← or_panic (has_conversation (st_Messages (ad_state d)));
    if negb some then mret (Some (Some msg_no_messages))
    else
      role ← or_panic (last (st_Messages (ad_state d)) ≫= MessageRole);
      if decide (role = RoleAssistant) then
        claimed ← claimRun drain_any;
        match claimed with
        | None => mret (Some (Some msg_continue))
        | Some ([], _) => _ ← modify (fun d => with_active d false); mret (Some (Some msg_assistant))
        | Some (drained, skip) => executeClaimedRun (run_prompts fuel drained skip)
        end
      else runWithLifecycle (run_continuation fuel).
End Runs.
