(* ===== verification/AgentStateProps.v ===== *)
(** * What an agent knows after a run

    The state of an agent is the fold of the events of its runs, so its
    transcript grows by exactly the messages that ended. *)

From S2P Require Import Prelude GoText PiModel TransformMessages Transcript AgentModel ToolState AgentLoop AgentRules AgentPool AgentTurns AgentProps AgentExample AgentView AgentState.

Section Agents.
Context {E : Type} (a : @Agent E) (u : @Surroundings E).

#[local] Existing Instance agent_runtime.

(** What the rest of the program may not touch during a run. *)
Definition state_of (w : @World E) : AgentState := ad_state w.1.

(** Listeners, tools, hooks and the runtime leave the agent's state alone; the
    queues they may use. *)
Record polite_agent : Prop := {
  pa_listeners : Forall (fun o => forall listener, o = Some listener -> forall event, polite state_of (listener event)) (ag_listeners a);
  pa_tools : Forall (polite_tool state_of) (ag_Tools a);
  pa_config : polite_config state_of (ag_config a);
  pa_cancelled : polite state_of (su_cancelled u);
  pa_now : polite state_of (su_now u);
  pa_schedule : forall n, polite state_of (su_schedule u n);
  pa_late : forall c, polite state_of (su_late u c);
  pa_stream : forall f m messages o, su_stream u = Some f ->
    polite state_of (f m messages o) /\ forall w s w', f m messages o w = (Ok (Ok (Some s)), w') -> polite_stream state_of s;
}.

Context (HP : polite_agent).

Lemma notify_polite listeners event w :
  Forall (fun o => forall listener, o = Some listener -> forall event, polite state_of (listener event)) listeners ->
  state_of (notify listeners event w).2 = state_of w.
Proof.
  intros H. revert w. induction H as [|[l|] rest Hl _ IH]; intros w; cbn [notify]; [done| |by apply IH].
  pose proof (Hl l eq_refl event w) as Hp. destruct (l event w) as [[e|] w']; cbn in *; [done|]. by rewrite IH.
Qed.

Lemma agent_polite : polite_runtime (R := agent_runtime a u) state_of reduce.
Proof.
  split; try apply HP. intros event w. cbn. unfold processEvent. by rewrite notify_polite by apply HP.
Qed.

Abbreviation keeps := (keeps state_of reduce).

(** The configuration of a run is polite: its own hooks only drain queues. *)
Lemma config_polite (s : AgentState) r config r' skip :
  loopConfig a skip r = (Ok config, r') -> polite_config state_of config.
Proof.
  unfold loopConfig, locked, lift, mbind, M_bind. cbn. intros [= <- _]. destruct HP as [_ _ Hc _ _ _ _]. destruct Hc.
  split; cbn; try done.
  - intros h [= <-] w. unfold getSteeringMessages. destruct (ad_skip w.1); [done|]. by destruct (drain (ad_steering w.1)).
  - intros h [= <-] w. unfold getFollowUpMessages. by destruct (drain (ad_followUp w.1)).
Qed.

Lemma fold_messages s evs : st_Messages (foldl reduce s evs) = st_Messages s ++ ended evs.
Proof.
  revert s. induction evs as [|event evs IH]; intros s; [by rewrite app_nil_r|]. cbn [foldl]. rewrite IH.
  destruct event; cbn; rewrite <- ?app_assoc; try done. unfold asAssistant. repeat case_match; done.
Qed.

(** ** A claimed run *)

Lemma keeps_locked {A} (f : AgentData -> A * AgentData) :
  (forall d, ad_state (f d).2 = ad_state d) -> keeps (locked f) (fun _ => True).
Proof. intros Hf. apply keeps_lift. intros [d e]. specialize (Hf d). unfold state_of. cbn. by destruct (f d). Qed.

Lemma keeps_emit_all events : keeps (emit_all a u events) (fun _ => True).
Proof.
  induction events as [|event events IH]; cbn [emit_all]; [by apply keeps_ret|].
  eapply keeps_bind; [apply keeps_emit, agent_polite|]. intros [e|] _; [by apply keeps_ret|exact IH].
Qed.

Lemma keeps_failure message stop : keeps (handleRunFailure a u message stop) (fun _ => True).
Proof.
  unfold handleRunFailure. eapply keeps_bind; [by apply keeps_locked|]. intros m _.
  eapply keeps_bind; [apply keeps_now, agent_polite|]. intros now _. apply keeps_emit_all.
Qed.

Lemma keeps_executor fuel messages skip : keeps (run_prompts a u fuel messages skip) (fun _ => True).
Proof.
  unfold run_prompts. eapply keeps_bind with (P := polite_tools state_of).
  { unfold contextSnapshot. eapply keeps_bind; [by apply keeps_locked|]. intros l _. apply keeps_ret. apply HP. }
  intros c Hc. eapply keeps_bind with (P := polite_config state_of).
  { intros v0 r Hr. split.
    - unfold loopConfig. apply (keeps_bind _ _ _ _ (fun _ => True) (fun _ => True)); [by apply keeps_locked| |done].
      intros s _. by apply keeps_ret.
    - intros config Hcfg. destruct (loopConfig a skip r) as [x r'] eqn:E2. cbn in Hcfg. subst x. by eapply config_polite. }
  intros config Hcfg. apply keeps_run; [apply agent_polite|done|done].
Qed.

Lemma keeps_run_error ended : keeps (run_error a u ended) (fun _ => True).
Proof.
  unfold run_error. destruct ended as [[[[e|] new]|]|x]; try (by apply keeps_ret);
    (eapply keeps_bind; [apply keeps_aborted, agent_polite|]; intros stop _; apply keeps_failure).
Qed.

(** A claimed run that ended: the executor, its error told, the release. *)
Lemma claimed_spec executor d e err r' :
  executeClaimedRun a u executor (mkRun [] (d, e) false) = (Ok (Some err), r') ->
  exists x r1 r2, executor (mkRun [] (with_state d (begin (ad_state d)), e) false) = (x, r1) /\ x <> Ok None /\
    run_error a u x r1 = (Ok err, r2) /\ r' = in_world (release (r_world r2).1, (r_world r2).2) r2.
Proof.
  intros H. set (r0 := mkRun [] (with_state d (begin (ad_state d)), e) false).
  assert (executeClaimedRun a u executor (mkRun [] (d, e) false) =
    (let (x, r1) := executor r0 in match x with Ok None => (Ok None, r1)
       | _ => (runErr ← run_error a u x; _ ← modify release; mret (Some runErr)) r1 end)) as E0.
  { unfold executeClaimedRun, attempt. unfold mbind at 1 2, M_bind. cbn. unfold in_world. cbn. fold r0. by destruct (executor r0) as [[[?|]|?] r1]. }
  rewrite E0 in H. clear E0. destruct (executor r0) as [x r1].
  assert ((runErr ← run_error a u x; _ ← modify release; mret (Some runErr)) r1 = (Ok (Some err), r') /\ x <> Ok None) as [H' Hx]
    by (destruct x as [[?|]|?]; [done|discriminate H|done]).
  clear H. unfold mbind at 1, M_bind in H'. destruct (run_error a u x r1) as [[err'|y] r2] eqn:Er; [|done].
  unfold modify, locked, lift, mbind, M_bind, mret, M_ret in H'. cbn in H'. injection H' as <- <-.
  by exists x, r1, r2.
Qed.

(** The state after a claimed run that began without events. *)
Lemma claimed_state executor w err r' :
  keeps executor (fun _ => True) -> executeClaimedRun a u executor (mkRun [] w false) = (Ok (Some err), r') ->
  state_of (r_world r') = settle (foldl reduce (begin (state_of w)) (r_events r')) /\ ad_active (r_world r').1 = false.
Proof.
  intros Hk H. destruct w as [d e]. apply claimed_spec in H as (x & r1 & r2 & Ex & _ & Er & ->).
  destruct (Hk (begin (ad_state d)) (mkRun [] (with_state d (begin (ad_state d)), e) false) eq_refl) as [H1 _]. rewrite Ex in H1. cbn [snd] in H1.
  destruct (keeps_run_error x _ _ H1) as [H2 _]. rewrite Er in H2. split; [|done]. cbn in *. unfold folded in H2. unfold state_of, in_world. cbn.
  unfold state_of in H2. by rewrite H2.
Qed.

(** With listeners that do not fail, a run always ends with its last event. *)
Definition listeners_ok : Prop := forall event w, (processEvent a event w).1 = None.

Lemma emit_all_ok events r :
  listeners_ok -> exists r', emit_all a u events r = (Ok None, r') /\ r_events r' = r_events r ++ events.
Proof.
  intros Hl. revert r. induction events as [|event events IH]; intros r; cbn [emit_all].
  - exists r. by rewrite app_nil_r.
  - unfold mbind, M_bind, emit. cbn [rt_emit agent_runtime]. specialize (Hl event (r_world r)).
    destruct (processEvent a event (r_world r)) as [x w]. cbn in Hl. subst x.
    destruct (IH (mkRun (r_events r ++ [event]) w (r_seen r))) as (r' & -> & E'). exists r'. split; [done|]. rewrite E'. cbn. by rewrite <- app_assoc.
Qed.

Lemma failure_ok message stop r :
  listeners_ok -> exists m r', handleRunFailure a u message stop r = (Ok None, r') /\
    am_ErrorMessage m = message /\ am_StopReason m = (if stop then StopAborted else StopError) /\
    r_events r' = r_events r ++ failure_events m.
Proof.
  intros Hl. unfold handleRunFailure, mbind, M_bind, locked, nowMillis, lift. cbn.
  destruct (su_now u _) as [now w]. cbn. set (m := failure_message _ message stop now).
  destruct (emit_all_ok (failure_events m) (in_world w r) Hl) as (r' & E' & Ev). by exists m, r'.
Qed.
(** What the executor of a run leaves. *)
Lemma executor_ran fuel messages skip d e new r1 :
  run_prompts a u fuel messages skip (mkRun [] (d, e) false) = (Ok (Some (None, new)), r1) ->
  ended (r_events r1) = new /\ last (r_events r1) = Some (EvAgentEnd new).
Proof.
  unfold run_prompts, contextSnapshot, loopConfig, mbind, M_bind, locked, lift. cbn. unfold in_world. cbn. intros H.
  apply (run_spec (Ob := True)) in H; [|done].
  destruct H as [(initial & turns & tail & _ & _ & _ & H4 & _ & _ & _ & _ & H9 & _)|(x & [=] & _)]. exact (conj H4 H9).
Qed.

Lemma idle_prompt fuel messages d e :
  ad_active d = false ->
  PromptMessages a u fuel messages (mkRun [] (d, e) false) =
    executeClaimedRun a u (run_prompts a u fuel messages false) (mkRun [] (with_active d true, e) false).
Proof. intros H. unfold PromptMessages, runWithLifecycle, claimRun, mbind, M_bind, locked, lift. cbn. rewrite H. cbn. rewrite ?H. reflexivity. Qed.
End Agents.

Lemma drain_empty q : hasItems q = false -> drain q = ([], q).
Proof. unfold hasItems. destruct q as [[] []]; cbn; done. Qed.

Lemma drain_any_empty d : HasQueuedMessages d = false -> drain_any d = ([], false, d) /\ drain_any (with_active d true) = ([], false, with_active d true).
Proof.
  intros [H1 H2]%orb_false_iff. unfold drain_any.
  destruct d as [s q1 q2 k act]. cbn [ad_steering ad_followUp with_active ad_state ad_skip ad_active with_steering with_followUp is_empty] in *.
  rewrite !drain_empty by done. done.
Qed.

(** ** Properties *)

(** C10: an agent's transcript is what its runs said: after a prompt to an idle
    agent that returned, the transcript is the one before followed by exactly
    the messages that ended during the run, in order; the agent is idle, no
    message is streaming and no tool call pending; and when its listeners do
    not fail, the prompt succeeds and the last event hands over the new
    messages: those of the run, or after a failure of the provider, a hook or
    the sink the failure alone.  Listeners, tools and hooks may use the queues
    but leave the agent's state alone. *)
Theorem agent_transcript {E} (a : @Agent E) (u : @Surroundings E) fuel messages d e err r' :
  polite_agent a u -> ad_active d = false ->
  PromptMessages a u fuel messages (mkRun [] (d, e) false) = (Ok (Some err), r') ->
  let after := (r_world r').1 in
  st_Messages (ad_state after) = st_Messages (ad_state d) ++ ended (r_events r') /\
  ad_active after = false /\ st_IsStreaming (ad_state after) = false /\
  st_StreamingMessage (ad_state after) = None /\ st_PendingToolCalls (ad_state after) = ∅ /\
  (listeners_ok a -> err = None /\ exists new, last (r_events r') = Some (EvAgentEnd new) /\
    (ended (r_events r') = new \/ exists before m, ended (r_events r') = before ++ [assistant m] /\ new = [assistant m] /\
       is_failed (am_StopReason m) = true)).
Proof.
  intros HP Ha H. cbn zeta. rewrite (idle_prompt a u fuel messages d e Ha) in H.
  pose proof (claimed_state a u HP _ _ _ _ (keeps_executor a u HP fuel messages false) H) as [Hs Hact].
  unfold state_of in Hs. rewrite Hs. split_and!; [|done..|].
  - unfold settle. cbn. rewrite fold_messages. done.
  - intros Hl. apply claimed_spec in H as (x & r1 & r2 & Ex & Hx & Er & ->). cbn [r_events].
    assert (forall message stop r, run_error a u x r1 = handleRunFailure a u message stop r -> r_events r = r_events r1 ->
      err = None /\ exists new, last (r_events r2) = Some (EvAgentEnd new) /\
      (ended (r_events r2) = new \/ exists before m, ended (r_events r2) = before ++ [assistant m] /\ new = [assistant m] /\
       is_failed (am_StopReason m) = true)) as Hfail.
    { intros message stop r Eq Ev. destruct (failure_ok a u message stop r Hl) as (m & r3 & E3 & _ & Hstop & Ev3).
      rewrite Er, E3 in Eq. injection Eq as -> ->. split; [done|]. exists [assistant m]. rewrite Ev3. split; [by rewrite last_app|].
      right. exists (ended (r_events r)), m. split_and!; [by rewrite ended_app|done|by rewrite Hstop; destruct stop]. }
    assert (forall message r, run_error a u x r = (stop ← aborted (R := agent_runtime a u); handleRunFailure a u message stop) r ->
      exists stop q, run_error a u x r = handleRunFailure a u message stop q /\ r_events q = r_events r) as Hstep.
    { intros message r ->. unfold mbind, M_bind, aborted. destruct (rt_cancelled (r_world r)) as [stop w]. eauto. }
    destruct x as [[[[m|] new]|]|y].
    + destruct (Hstep m r1 eq_refl) as (stop & q & Eq & Ev). eauto.
    + injection Er as <- <-. split; [done|]. destruct (executor_ran a u _ _ _ _ _ _ _ Ex) as [He Hlast]. exists new. auto.
    + done.
    + destruct (Hstep (raised_message y) r1 eq_refl) as (stop & q & Eq & Ev). eauto.
Qed.

(** An agent that is running refuses to be prompted, continued or reset,
    and an idle one to continue from nothing or from an answer with nothing
    queued; what it holds stays as it is, and no event is emitted. *)
Theorem agent_refuses {E} (a : @Agent E) (u : @Surroundings E) fuel messages d (e : E) :
  (ad_active d = true ->
   PromptMessages a u fuel messages (mkRun [] (d, e) false) = (Ok (Some (Some msg_prompt)), mkRun [] (d, e) false) /\
   Continue a u fuel (mkRun [] (d, e) false) = (Ok (Some (Some msg_continue)), mkRun [] (d, e) false) /\ Reset d = (d, Some msg_reset)) /\
  (ad_active d = false -> has_conversation (st_Messages (ad_state d)) = Some false ->
   Continue a u fuel (mkRun [] (d, e) false) = (Ok (Some (Some msg_no_messages)), mkRun [] (d, e) false)) /\
  (ad_active d = false -> has_conversation (st_Messages (ad_state d)) = Some true ->
   last (st_Messages (ad_state d)) ≫= MessageRole = Some RoleAssistant -> HasQueuedMessages d = false ->
   Continue a u fuel (mkRun [] (d, e) false) = (Ok (Some (Some msg_assistant)), mkRun [] (d, e) false)).
Proof.
  split_and!.
  - intros H. unfold PromptMessages, Continue, Reset, mbind, M_bind, locked, lift. cbn. by rewrite H.
  - intros H1 H2. unfold Continue, mbind, M_bind, locked, lift. cbn. rewrite H1. by rewrite H2.
  - intros H1 H2 H3 H4. destruct (drain_any_empty d H4) as [E1 E2].
    transitivity ((role ← or_panic (last (st_Messages (ad_state d)) ≫= MessageRole);
      if decide (role = RoleAssistant) then
        claimed ← claimRun drain_any;
        match claimed with
        | None => mret (Some (Some msg_continue))
        | Some ([], _) => _ ← modify (fun d => with_active d false); mret (Some (Some msg_assistant))
        | Some (drained, skip) => executeClaimedRun a u (run_prompts a u fuel drained skip)
        end
      else runWithLifecycle a u (run_continuation a u fuel)) (mkRun [] (d, e) false)).
    { unfold Continue, locked, lift. unfold mbind at 1, M_bind at 1. cbn [r_world fst snd]. rewrite H1, H2. done. }
    rewrite H3. unfold or_panic. unfold mbind at 1, M_bind at 1. cbn [mret M_ret]. rewrite decide_True by done.
    unfold claimRun, modify, locked, lift, mbind, M_bind. cbn [r_world r_events fst snd]. rewrite H1, E2.
    cbn [r_world r_events fst snd]. destruct d. cbn in H1. by subst.
Qed.

(** * An agent on a small world

    A prompt to an agent with a follow-up queued: the model is asked twice, and
    the world counts the requests. *)

(** ** The agent *)

Definition small_config : AgentLoopConfig (@World nat) :=
  mkConfig World None "" {| so_Reasoning := ""; so_APIKey := ""; so_Rest := ANil |} ToolDefault None None None None None None None None None None.

(** A listener that says nothing, and one that left. *)
Definition small_agent : @Agent nat :=
  let a := {| ag_listeners := []; ag_Tools := []; ag_config := small_config |} in
  let (a, _) := Subscribe a (fun _ w => (None, w)) in
  let (a, index) := Subscribe a (fun _ w => (Some "gone", w)) in
  unsubscribe a index.

Definition small_stream : Stream (@World nat) :=
  Waiting id (fun _ => Received (demo_event EventStart (Some (demo_answer [] StopPending)) None)
    (Received (demo_event EventDone None (Some (demo_answer [text_block "hi"] StopStop))) EndOfStream)).

Definition small_world : @Surroundings nat := {|
  su_cancelled := fun w => (false, w);
  su_now := fun w => (7, w);
  su_stream := Some (fun _ _ _ w => (Ok (Ok (Some small_stream)), (w.1, S w.2)));
  su_validate := fun _ c => Ok (tl_Arguments c);
  su_tool_json := fun t => Some (to_Name t);
  su_schedule := fun _ w => ([], w);
  su_late := fun _ w => ([], w);
|}.

Definition small_data : AgentData :=
  match NewAgent None "" "be brief" ([] : list (AgentTool (@World nat))) [] QueueOneAtATime QueueOneAtATime with
  | Some d => FollowUp d demo_prompt
  | None => mkAgent (mkState defaultModel "" [] false None ∅ "") (mkQueue QueueAll []) (mkQueue QueueAll []) false false
  end.

Definition small_run := PromptMessages small_agent small_world 5 [demo_prompt] (mkRun [] (small_data, O) false).

(** The system prompt, the prompt and its answer, the follow-up and its. *)
Example small_roles : MessageRole <$> st_Messages (ad_state (r_world small_run.2).1) =
  [Some RoleSystem; Some RoleUser; Some RoleAssistant; Some RoleUser; Some RoleAssistant].
Proof. vm_compute. reflexivity. Qed.

(** Without a provider the run ends with the failure told as an answer. *)
Definition no_provider : @Surroundings nat :=
  {| su_cancelled := su_cancelled small_world; su_now := su_now small_world; su_stream := None; su_validate := su_validate small_world;
     su_tool_json := su_tool_json small_world; su_schedule := su_schedule small_world; su_late := su_late small_world |}.

Example small_failure :
  let (x, r) := PromptMessages small_agent no_provider 5 [demo_prompt] (mkRun [] (small_data, O) false) in
  x = Ok (Some None) /\ st_ErrorMessage (ad_state (r_world r).1) <> "" /\
  MessageRole <$> st_Messages (ad_state (r_world r).1) = [Some RoleSystem; Some RoleUser; Some RoleAssistant].
Proof. vm_compute. split_and!; [reflexivity|discriminate|reflexivity]. Qed.

Lemma small_polite : polite_agent small_agent small_world.
Proof.
  split; [| | |done|done|done|done|].
  - apply Forall_cons_2; [by intros ? [= <-]|]. by apply Forall_cons_2.
  - constructor.
  - split; done.
  - intros f m messages o [= <-]. split; [done|]. intros w s w' [= <- _]. cbn. done.
Qed.

(** ** Witnesses *)

Lemma agent_transcript_witness :
  let after := (r_world small_run.2).1 in
  st_Messages (ad_state after) = st_Messages (ad_state small_data) ++ ended (r_events small_run.2) /\
  length (ended (r_events small_run.2)) = 4%nat.
Proof.
  split; [|vm_compute; reflexivity].
  apply (agent_transcript small_agent small_world 5 [demo_prompt] small_data O None small_run.2 small_polite eq_refl).
  vm_compute. reflexivity.
Defined.

(** An idle agent whose last word was an answer, and the same while it runs. *)
Definition answered : AgentData := SetMessages (ClearAllQueues small_data) [demo_prompt; assistant (demo_answer [] StopStop)].

Lemma agent_refuses_witness :
  Continue small_agent small_world 5 (mkRun [] (answered, O) false) = (Ok (Some (Some msg_assistant)), mkRun [] (answered, O) false) /\
  PromptMessages small_agent small_world 5 [] (mkRun [] (with_active answered true, O) false) =
    (Ok (Some (Some msg_prompt)), mkRun [] (with_active answered true, O) false).
Proof.
  destruct (agent_refuses small_agent small_world 5 [] answered O) as (_ & _ & H).
  destruct (agent_refuses small_agent small_world 5 [] (with_active answered true) O) as (H' & _ & _).
  split.
  - apply H; vm_compute; reflexivity.
  - apply H'. reflexivity.
Defined.
