(* ===== verification/EventStream.v ===== *)
(** * Event streams ([internal/pi/wire/eventstream.go])

    A queue of events with a final result, shared by producers and consumers.
    The methods are functions on the stream, run under its mutex; a consumer
    that finds the queue empty leaves the mutex and waits for its own channel,
    and a caller of [Result] sleeps on the condition variable, so both take
    several steps.  [step] interleaves the calls of any number of goroutines.

    Channels are made by [Next] only; the stream keeps all of them, [es_chans],
    and names them by their place. *)

From S2P Require Import Prelude PiModel AgentModel.

Section Streams.
Context {T R : Type} (isComplete : T -> bool) (extract : T -> option R) (zero : R).

(** ** Definitions *)

(** *** Channels and the stream *)

(** [make(chan T, 1)]: what is buffered, and whether it is closed. *)
Record Chan := mkChan { ch_buffer : list T; ch_closed : bool }.

(** [es_sleeping] is the condition variable: the calls of [Result] that sleep
    on it. *)
Record EventStream := mkStream {
  es_queue : list T;
  es_waiting : list nat;
  es_done : bool;
  es_result : R;
  es_hasResult : bool;
  es_chans : list Chan;
  es_sleeping : list nat;
}.

Definition NewEventStream : EventStream := mkStream [] [] false zero false [] [].

Definition with_queue (s : EventStream) (q : list T) : EventStream :=
  mkStream q (es_waiting s) (es_done s) (es_result s) (es_hasResult s) (es_chans s) (es_sleeping s).
Definition with_waiting (s : EventStream) (w : list nat) : EventStream :=
  mkStream (es_queue s) w (es_done s) (es_result s) (es_hasResult s) (es_chans s) (es_sleeping s).
Definition with_done (s : EventStream) : EventStream :=
  mkStream (es_queue s) (es_waiting s) true (es_result s) (es_hasResult s) (es_chans s) (es_sleeping s).
Definition with_result (s : EventStream) (r : R) : EventStream :=
  mkStream (es_queue s) (es_waiting s) (es_done s) r true (es_chans s) (es_sleeping s).
Definition with_chans (s : EventStream) (c : list Chan) : EventStream :=
  mkStream (es_queue s) (es_waiting s) (es_done s) (es_result s) (es_hasResult s) c (es_sleeping s).
Definition with_sleeping (s : EventStream) (l : list nat) : EventStream :=
  mkStream (es_queue s) (es_waiting s) (es_done s) (es_result s) (es_hasResult s) (es_chans s) l.

(** [ch <- event]: [None] if it would block or panic. *)
Definition send (c : nat) (event : T) (s : EventStream) : option EventStream :=
  match es_chans s !! c with
  | Some (mkChan [] false) => Some (with_chans s (<[c := mkChan [event] false]> (es_chans s)))
  | _ => None
  end.

(** [close(ch)]: [None] is the panic of closing twice. *)
Definition close (c : nat) (s : EventStream) : option EventStream :=
  match es_chans s !! c with
  | Some (mkChan buffer false) => Some (with_chans s (<[c := mkChan buffer true]> (es_chans s)))
  | _ => None
  end.

Fixpoint close_all (l : list nat) (s : EventStream) : option EventStream :=
  match l with
  | [] => Some s
  | c :: rest => s ← close c s; close_all rest s
  end.

Definition releaseWaitersLocked (s : EventStream) : option EventStream :=
  s ← close_all (es_waiting s) s; Some (with_waiting s []).

Definition broadcast (s : EventStream) : EventStream := with_sleeping s [].

(** *** Methods *)

Definition capture (event : T) (s : EventStream) : option EventStream :=
  let s := with_done s in
  if es_hasResult s then Some s else r ← extract event; Some (with_result s r).

Definition hand_over (event : T) (s : EventStream) : option EventStream :=
  match es_waiting s with
  | c :: rest => send c event (with_waiting s rest)
  | [] => Some (with_queue s (es_queue s ++ [event]))
  end.

(** [None]: the call panics or blocks. *)
Definition Push (event : T) (s : EventStream) : option EventStream :=
  if es_done s then Some s
  else
    let terminal := isComplete event in
    s ← (if terminal then capture event s else Some s);
    s ← hand_over event s;
    if terminal then s ← releaseWaitersLocked s; Some (broadcast s) else Some s.

Definition End (res : option R) (s : EventStream) : option EventStream :=
  let s := match res with
           | Some r => if es_hasResult s then s else with_result s r
           | None => s
           end in
  s ← releaseWaitersLocked (with_done s);
  Some (broadcast s).

(** A call of [Next] that left the mutex: it has its answer, [None] when the
    stream is drained, or waits for a channel. *)
Inductive call := Waits (c : nat) | Answered (o : option T).

Definition Next (s : EventStream) : call * EventStream :=
  match es_queue s with
  | event :: rest => (Answered (Some event), with_queue s rest)
  | [] =>
      if es_done s then (Answered None, s)
      else
        let c := length (es_chans s) in
        (Waits c, with_waiting (with_chans s (es_chans s ++ [mkChan [] false])) (es_waiting s ++ [c]))
  end.

(** [event, ok = <-ch]: [None] while it blocks. *)
Definition receive (c : nat) (s : EventStream) : option (option T * EventStream) :=
  match es_chans s !! c with
  | Some (mkChan (event :: buffer) closed) => Some (Some event, with_chans s (<[c := mkChan buffer closed]> (es_chans s)))
  | Some (mkChan [] true) => Some (None, s)
  | _ => None
  end.

(** The test of [Result] under the mutex, by the caller [i]: its answer, or
    [None] when it goes to sleep. *)
Definition Result (i : nat) (s : EventStream) : option R * EventStream :=
  if negb (es_hasResult s) && negb (es_done s) then (None, with_sleeping s (es_sleeping s ++ [i]))
  else (Some (es_result s), s).

(** [Events] consumed by one goroutine, [yield] answering whether to go on:
    what was yielded; [None] when a call of [Next] would wait. *)
Fixpoint Events (fuel : nat) (yield : T -> bool) (s : EventStream) : option (list T * EventStream) :=
  match fuel with
  | O => None
  | S fuel =>
      match Next s with
      | (Answered (Some event), s) =>
          if yield event then '(l, s) ← Events fuel yield s; Some (event :: l, s) else Some ([event], s)
      | (Answered None, s) => Some ([], s)
      | (Waits _, _) => None
      end
  end.

(** *** Goroutines *)

(** The calls of [Next] in the order in which they took the mutex, and those of
    [Result] with what they returned. *)
Record System := mkSystem {
  sy_stream : EventStream;
  sy_calls : list call;
  sy_results : list (option R);
}.

Inductive action :=
| DoPush (event : T)
| DoEnd (res : option R)
| DoNext
| DoReceive (j : nat)
| DoResult
| DoWake (i : nat).

(** One step of some goroutine; [None] when it is not ready, or panics. *)
Definition step (x : action) (y : System) : option System :=
  let (s, calls, results) := y in
  match x with
  | DoPush event => s ← Push event s; Some (mkSystem s calls results)
  | DoEnd res => s ← End res s; Some (mkSystem s calls results)
  | DoNext => let (c, s) := Next s in Some (mkSystem s (calls ++ [c]) results)
  | DoReceive j =>
      match calls !! j with
      | Some (Waits c) => '(o, s) ← receive c s; Some (mkSystem s (<[j := Answered o]> calls) results)
      | _ => None
      end
  | DoResult => let (r, s) := Result (length results) s in Some (mkSystem s calls (results ++ [r]))
  | DoWake i =>
      match results !! i with
      | Some None =>
          if bool_decide (i ∈ es_sleeping s) then None
          else let (r, s) := Result i s in Some (mkSystem s calls (<[i := r]> results))
      | _ => None
      end
  end.

(** [runs l y]: some interleaving took the steps [l] and is at [y]. *)
Inductive runs : list action -> System -> Prop :=
| runs_new : runs [] (mkSystem NewEventStream [] [])
| runs_step l y x y' : runs l y -> step x y = Some y' -> runs (l ++ [x]) y'.

(** *** What the calls were told *)

(** The events before the stream was over, and whether it is. *)
Definition told (p : list T * bool) (x : action) : list T * bool :=
  match x with
  | DoPush event => if p.2 then p else (p.1 ++ [event], isComplete event)
  | DoEnd _ => (p.1, true)
  | _ => p
  end.

Definition story (l : list action) : list T * bool := foldl told ([], false) l.
Definition accepted (l : list action) : list T := (story l).1.
Definition over (l : list action) : bool := (story l).2.

(** The first result given: a terminal event's while the stream is open, or
    that of [End]. *)
Definition first_result (l : list action) : option R :=
  (foldl (fun (p : (list T * bool) * option R) x =>
    (told p.1 x, match p.2 with
                 | Some r => Some r
                 | None => match x with
                           | DoPush event => if negb p.1.2 && isComplete event then extract event else None
                           | DoEnd res => res
                           | _ => None
                           end
                 end)) (([], false), None) l).2.

(** ** Lemmas *)

(** *** The story *)

Lemma story_snoc l x : story (l ++ [x]) = told (story l) x.
Proof. apply foldl_snoc. Qed.

Lemma first_result_snoc l x :
  first_result (l ++ [x]) =
    match first_result l with
    | Some r => Some r
    | None => match x with
              | DoPush event => if negb (over l) && isComplete event then extract event else None
              | DoEnd res => res
              | _ => None
              end
    end.
Proof.
  unfold first_result, over, story. rewrite foldl_snoc. cbn [snd]. set (f := fun p x => _).
  replace (foldl told ([], false) l) with (foldl f (([], false), None) l).1; [done|].
  induction l as [|y l IH] using rev_ind; [done|]. by rewrite !foldl_snoc, <- IH.
Qed.

(** *** Channels *)

(** The channel of the call [j] of [Next], when the events [acc] are accepted. *)
Definition channel (p : list T * bool) (j : nat) : Chan :=
  match p.1 !! j with
  | Some event => mkChan [event] false
  | None => mkChan [] p.2
  end.

(** The queue, the waiting calls and their channels, as the accepted events
    and whether the waiting calls were released tell. *)
Record core (p : list T * bool) (s : EventStream) (calls : list call) : Prop := {
  co_queue : es_queue s = drop (length calls) p.1;
  co_waiting : length (es_waiting s) = if p.2 then O else (length calls - length p.1)%nat;
  co_turn : forall i c, es_waiting s !! i = Some c -> calls !! (length p.1 + i)%nat = Some (Waits c);
  co_answered : forall j o, calls !! j = Some (Answered o) -> o = p.1 !! j /\ (o = None -> p.2 = true);
  co_channel : forall j c, calls !! j = Some (Waits c) -> es_chans s !! c = Some (channel p j);
  co_own : forall j k c, calls !! j = Some (Waits c) -> calls !! k = Some (Waits c) -> j = k;
}.

(** What [core] reads of a stream. *)
Definition same_core (s s' : EventStream) : Prop :=
  es_queue s' = es_queue s /\ es_waiting s' = es_waiting s /\ es_chans s' = es_chans s.

Lemma core_same p s s' calls : same_core s s' -> core p s calls -> core p s' calls.
Proof. intros (E1 & E2 & E3) [? ? ? ? ? ?]. split; by rewrite ?E1, ?E2, ?E3. Qed.

(** The first waiting call is the one the next event is for. *)
Lemma core_first p s calls c rest :
  core p s calls -> es_waiting s = c :: rest -> p.2 = false /\ calls !! length p.1 = Some (Waits c) /\ es_chans s !! c = Some (mkChan [] false).
Proof.
  intros H E. pose proof (co_waiting _ _ _ H) as Hw. rewrite E in Hw. destruct p as [acc []]; [done|]. cbn in *.
  assert (calls !! length acc = Some (Waits c)) as Hc.
  { rewrite <- (Nat.add_0_r (length acc)). apply (co_turn _ _ _ H). by rewrite E. }
  split_and!; [done|done|]. rewrite (co_channel _ _ _ H _ _ Hc). unfold channel. cbn. by rewrite lookup_ge_None_2 by lia.
Qed.

Lemma channel_snoc acc event j : j <> length acc -> channel (acc ++ [event], false) j = channel (acc, false) j.
Proof.
  intros Hj. unfold channel. cbn. destruct (decide (j < length acc)%nat).
  - by rewrite lookup_app_l by lia.
  - rewrite !lookup_ge_None_2; [done|lia|rewrite length_app; cbn; lia].
Qed.

Lemma hand_over_core acc s calls event :
  core (acc, false) s calls -> exists s', hand_over event s = Some s' /\ core (acc ++ [event], false) s' calls /\
    es_done s' = es_done s /\ es_result s' = es_result s /\ es_hasResult s' = es_hasResult s /\ es_sleeping s' = es_sleeping s.
Proof.
  intros H. unfold hand_over. destruct (es_waiting s) as [|c rest] eqn:E.
  - eexists. split; [done|]. split; [|done]. pose proof (co_waiting _ _ _ H) as Hw. rewrite E in Hw. cbn in Hw.
    assert (length calls <= length acc)%nat as Hle by lia.
    split; cbn -[drop]; [|rewrite E; cbn; rewrite length_app; cbn; lia|by intros i c; rewrite E| | |apply H].
    + rewrite (co_queue _ _ _ H). cbn. by rewrite drop_app_le.
    + intros j o Hj. pose proof (lookup_lt_Some _ _ _ Hj). rewrite lookup_app_l by lia. by apply H.
    + intros j c Hj. pose proof (lookup_lt_Some _ _ _ Hj). rewrite channel_snoc by lia. by apply H.
  - destruct (core_first _ _ _ _ _ H E) as (_ & Hc & Hch). cbn in Hc. unfold send. cbn. rewrite Hch. eexists. split; [done|]. split; [|done].
    pose proof (co_waiting _ _ _ H) as Hw. rewrite E in Hw. cbn in Hw.
    split; cbn -[drop]; [| | | | |apply H].
    + rewrite (co_queue _ _ _ H). cbn. rewrite !drop_ge; [done|rewrite length_app; cbn; lia|lia].
    + rewrite length_app. cbn. lia.
    + intros i c' Hi. rewrite length_app. cbn. replace (length acc + 1 + i)%nat with (length acc + S i)%nat by lia.
      apply (co_turn _ _ _ H). by rewrite E.
    + intros j o Hj. destruct (co_answered _ _ _ H j o Hj) as [-> Ho]. cbn in *. destruct (acc !! j) eqn:Ea; [|by specialize (Ho eq_refl)].
      split; [|done]. symmetry. rewrite lookup_app_l; [done|by eapply lookup_lt_Some].
    + intros j c' Hj. destruct (decide (j = length acc)) as [->|Hne].
      * rewrite Hc in Hj. injection Hj as <-. rewrite list_lookup_insert_eq by by eapply lookup_lt_Some.
        unfold channel. cbn. by rewrite list_lookup_middle.
      * rewrite channel_snoc by done. rewrite list_lookup_insert_ne; [by apply H|].
        intros <-. apply Hne. by eapply (co_own _ _ _ H).
Qed.

Lemma close_all_open l s :
  NoDup l -> Forall (fun c => es_chans s !! c = Some (mkChan [] false)) l ->
  exists s', close_all l s = Some s' /\ s' = with_chans s (es_chans s') /\
    forall c, es_chans s' !! c = if decide (c ∈ l) then Some (mkChan [] true) else es_chans s !! c.
Proof.
  intros Hd. revert s. induction Hd as [|c l Hc _ IH]; intros s Ho.
  - exists s. split; [done|]. split; [by destruct s|]. intros c. rewrite decide_False; [done|apply not_elem_of_nil].
  - inversion Ho as [|? ? Hs Ho']; subst. cbn [close_all]. unfold close at 1. rewrite Hs. cbn.
    destruct (IH (with_chans s (<[c:=mkChan [] true]> (es_chans s)))) as (s' & E & Es & Hch).
    { apply Forall_forall. intros x Hin. cbn. rewrite list_lookup_insert_ne by (intros <-; done). by eapply (proj1 (Forall_forall _ _)) in Ho'. }
    exists s'. split; [done|]. split; [by rewrite Es|]. intros x. rewrite Hch. cbn. destruct (decide (x = c)) as [->|Hne].
    + rewrite decide_False by done. rewrite (decide_True _ _ (proj2 (elem_of_cons l c c) (or_introl eq_refl))). by rewrite list_lookup_insert_eq by by eapply lookup_lt_Some.
    + rewrite list_lookup_insert_ne by done. pose proof (elem_of_cons l x c). repeat case_decide; naive_solver.
Qed.

Lemma waiting_nodup p s calls : core p s calls -> NoDup (es_waiting s).
Proof.
  intros H. apply NoDup_alt. intros i k c Hi Hk. apply (co_turn _ _ _ H) in Hi, Hk. pose proof (co_own _ _ _ H _ _ _ Hi Hk). lia.
Qed.

Lemma release_core acc b s calls :
  core (acc, b) s calls -> exists s', releaseWaitersLocked s = Some s' /\ core (acc, true) s' calls /\
    es_done s' = es_done s /\ es_result s' = es_result s /\ es_hasResult s' = es_hasResult s /\ es_sleeping s' = es_sleeping s.
Proof.
  intros H. unfold releaseWaitersLocked.
  assert (Forall (fun c => es_chans s !! c = Some (mkChan [] false)) (es_waiting s)) as Ho.
  { apply Forall_lookup. intros i c Hi. pose proof (co_waiting _ _ _ H) as Hw. apply lookup_lt_Some in Hi as Hl.
    destruct b; cbn in Hw; [lia|]. apply (co_turn _ _ _ H) in Hi. rewrite (co_channel _ _ _ H _ _ Hi). unfold channel.
    cbn. by rewrite lookup_ge_None_2 by lia. }
  destruct (close_all_open _ _ (waiting_nodup _ _ _ H) Ho) as (s' & E & Es & Hch). rewrite E. cbn. eexists. split; [done|].
  rewrite Es. cbn. split; [|done]. split; cbn; [apply H|done|done| | |apply H].
  - intros j o Hj. by destruct (co_answered _ _ _ H _ _ Hj).
  - intros j c Hj. rewrite Hch. pose proof (co_channel _ _ _ H _ _ Hj) as Hc. case_decide as Hin.
    + apply list_elem_of_lookup in Hin as [i Hi]. pose proof (co_own _ _ _ H _ _ _ Hj (co_turn _ _ _ H _ _ Hi)) as ->.
      unfold channel. cbn. by rewrite lookup_ge_None_2 by lia.
    + rewrite Hc. unfold channel. cbn. destruct (acc !! j) eqn:Ea; [done|]. destruct b; [done|]. exfalso. apply Hin.
      apply lookup_ge_None in Ea. apply lookup_lt_Some in Hj as Hl. pose proof (co_waiting _ _ _ H) as Hw. cbn in Hw.
      destruct (lookup_lt_is_Some_2 (es_waiting s) (j - length acc)) as [c' Hc']; [lia|].
      pose proof (co_turn _ _ _ H _ _ Hc') as Ht. cbn in Ht. replace (length acc + (j - length acc))%nat with j in Ht by lia.
      rewrite Hj in Ht. injection Ht as ->. by apply list_elem_of_lookup_2 in Hc'.
Qed.

Lemma next_core p s calls :
  core p s calls -> es_done s = p.2 ->
  let (c, s') := Next s in core p s' (calls ++ [c]) /\
    es_done s' = es_done s /\ es_result s' = es_result s /\ es_hasResult s' = es_hasResult s /\ es_sleeping s' = es_sleeping s.
Proof.
  intros H Hd. destruct p as [acc b]. cbn in Hd. unfold Next. pose proof (co_queue _ _ _ H) as Hq. pose proof (co_waiting _ _ _ H) as Hw.
  cbn [fst snd] in *.
  assert (forall j x (y : call), (calls ++ [y]) !! j = Some x -> calls !! j = Some x \/ j = length calls /\ x = y) as Hsnoc.
  { intros j x y [Hj|[Hl Hj]]%lookup_app_Some; [by left|]. apply list_lookup_singleton_Some in Hj as [Hj ->]. right. split; [lia|done]. }
  destruct (es_queue s) as [|event rest] eqn:Eq.
  - symmetry in Hq. pose proof (f_equal length Hq) as Hlen. rewrite length_drop in Hlen. cbn in Hlen.
    assert (length acc <= length calls)%nat as Hle by lia. rewrite Hd. destruct b.
    + split; [|done]. cbn in Hw. apply nil_length_inv in Hw.
      split; cbn; rewrite ?Hw; try done.
      * rewrite length_app. rewrite drop_ge by (cbn; lia). done.
      * intros j o [Hj|[-> [= ->]]]%Hsnoc; [by apply H in Hj|]. split; [|done]. by rewrite lookup_ge_None_2 by lia.
      * intros j c [Hj|[? [=]]]%Hsnoc. by apply H in Hj.
      * intros j k c [Hj|[? [=]]]%Hsnoc [Hk|[? [=]]]%Hsnoc. by eapply (co_own _ _ _ H).
    + split; [|done].
      assert (forall j c, calls !! j = Some (Waits c) -> (c < length (es_chans s))%nat) as Hfresh.
      { intros j c Hj. apply (co_channel _ _ _ H) in Hj. by eapply lookup_lt_Some. }
      split; cbn [fst snd es_queue es_waiting es_chans with_waiting with_chans].
      * rewrite length_app, drop_ge by (cbn; lia). done.
      * rewrite !length_app. cbn. lia.
      * intros i c [Hi|[Hl Hi]]%lookup_app_Some.
        -- apply lookup_app_l_Some. by apply (co_turn _ _ _ H).
        -- apply list_lookup_singleton_Some in Hi as [Hi <-].
           replace (length acc + i)%nat with (length calls) by lia. by rewrite list_lookup_middle.
      * intros j o [Hj|[? [=]]]%Hsnoc. by apply H in Hj.
      * intros j c [Hj|[-> [= ->]]]%Hsnoc.
        -- rewrite lookup_app_l by eauto. by apply H.
        -- rewrite list_lookup_middle by done. unfold channel. cbn. by rewrite lookup_ge_None_2 by lia.
      * intros j k c [Hj|[-> Ej]]%Hsnoc [Hk|[-> Ek]]%Hsnoc; [by eapply (co_own _ _ _ H)| | |done].
        -- injection Ek as ->. apply Hfresh in Hj. lia.
        -- injection Ej as ->. apply Hfresh in Hk. lia.
  - assert (length calls < length acc)%nat as Hlt.
    { pose proof (f_equal length Hq) as Hlen. rewrite length_drop in Hlen. cbn in Hlen. lia. }
    assert (acc !! length calls = Some event /\ rest = drop (S (length calls)) acc) as [He Hrest].
    { destruct (lookup_lt_is_Some_2 _ _ Hlt) as [x Hx]. rewrite (drop_S _ _ _ Hx) in Hq. injection Hq as -> ->. done. }
    assert (es_waiting s = []) as Ew by (apply nil_length_inv; destruct b; lia).
    split; [|done]. split; cbn [fst snd es_queue es_waiting es_chans with_queue].
    + rewrite length_app. cbn. by rewrite Nat.add_1_r.
    + rewrite Ew, length_app. cbn. destruct b; lia.
    + by rewrite Ew.
    + intros j o [Hj|[-> [= ->]]]%Hsnoc; [by apply H in Hj|]. done.
    + intros j c [Hj|[? [=]]]%Hsnoc. by apply H in Hj.
    + intros j k c [Hj|[? [=]]]%Hsnoc [Hk|[? [=]]]%Hsnoc. by eapply (co_own _ _ _ H).
Qed.

(** A call that was told its answer. *)
Lemma core_answer p s calls j c o chans :
  core p s calls -> calls !! j = Some (Waits c) -> o = p.1 !! j -> (o = None -> p.2 = true) ->
  (forall c', c' <> c -> chans !! c' = es_chans s !! c') -> core p (with_chans s chans) (<[j := Answered o]> calls).
Proof.
  intros H Hj Ho Hn Hch. pose proof (lookup_lt_Some _ _ _ Hj) as Hl.
  assert (forall i x, <[j := Answered o]> calls !! i = Some x -> i <> j /\ calls !! i = Some x \/ i = j /\ x = Answered o) as Hin.
  { intros i x [[-> [<- _]]|[Hne Hx]]%list_lookup_insert_Some; [by right|by left]. }
  split; cbn [es_queue es_waiting es_chans with_chans].
  - rewrite length_insert. apply H.
  - rewrite length_insert. apply H.
  - intros i c' Hi. pose proof (co_turn _ _ _ H _ _ Hi) as Ht. rewrite list_lookup_insert_ne; [done|]. intros ->.
    rewrite Hj in Ht. injection Ht as <-. pose proof (co_waiting _ _ _ H) as Hw. apply lookup_lt_Some in Hi.
    destruct (p.2) eqn:Ep; [lia|]. discriminate Hn. rewrite Ho. apply lookup_ge_None_2. lia.
  - intros i o' [[_ Hi]|[-> [= ->]]]%Hin; [by apply H|done].
  - intros i c' [[Hne Hi]|[? [=]]]%Hin. rewrite Hch; [by apply H|]. intros ->. by apply Hne, (co_own _ _ _ H _ _ _ Hi Hj).
  - intros i k c' [[_ Hi]|[? [=]]]%Hin [[_ Hk]|[? [=]]]%Hin. by eapply (co_own _ _ _ H).
Qed.

Lemma receive_core p s calls j c :
  core p s calls -> calls !! j = Some (Waits c) ->
  match receive c s with
  | Some (o, s') => core p s' (<[j := Answered o]> calls) /\ (is_Some (p.1 !! j) \/ p.2 = true) /\
      es_done s' = es_done s /\ es_result s' = es_result s /\ es_hasResult s' = es_hasResult s /\ es_sleeping s' = es_sleeping s
  | None => p.1 !! j = None /\ p.2 = false
  end.
Proof.
  intros H Hj. unfold receive. rewrite (co_channel _ _ _ H _ _ Hj). unfold channel. destruct (p.1 !! j) as [event|] eqn:Ej; cbn.
  - split; [|by split; [left|]]. apply (core_answer p s calls j c); [done|done|done|done|]. intros c' Hne. by rewrite list_lookup_insert_ne.
  - destruct p.2 eqn:Ep; [|done]. split; [|by split; [right|]]. replace s with (with_chans s (es_chans s)) by by destruct s.
    by apply (core_answer p s calls j c).
Qed.

(** Over a stream that is over, the loop of one consumer ends with everything
    that was queued. *)
Lemma Events_all fuel s :
  es_done s = true -> (length (es_queue s) < fuel)%nat ->
  Events fuel (fun _ => true) s = Some (es_queue s, with_queue s []).
Proof.
  revert s. induction fuel as [|fuel IH]; intros s Hd Hf; [lia|]. cbn [Events]. unfold Next.
  destruct (es_queue s) as [|event rest] eqn:Eq.
  - rewrite Hd. do 2 f_equal. destruct s; cbn in *. by subst.
  - rewrite IH; cbn in *; [done|done|lia].
Qed.

(** *** Results *)

(** [res] is the first result given. *)
Record told_result (res : option R) (s : EventStream) (results : list (option R)) : Prop := {
  tr_has : es_hasResult s = bool_decide (is_Some res);
  tr_result : es_result s = default zero res;
  tr_over : is_Some res -> es_done s = true;
  tr_asleep : es_done s = true -> es_sleeping s = [];
  tr_returned : forall i r, results !! i = Some (Some r) -> es_done s = true /\ (res = Some r \/ r = zero);
}.

Context (HX : forall event, isComplete event = true -> is_Some (extract event)).

Lemma push_spec event s p calls res results :
  core p s calls -> es_done s = p.2 -> told_result res s results ->
  exists s', Push event s = Some s' /\ core (told p (DoPush event)) s' calls /\ es_done s' = (told p (DoPush event)).2 /\
    told_result (match res with
                 | Some r => Some r
                 | None => if negb p.2 && isComplete event then extract event else None
                 end) s' results.
Proof.
  intros Hc Hd Hr. unfold Push, told. rewrite Hd. destruct p as [acc [|]]; cbn [fst snd] in *.
  { exists s. split_and!; [done|done|done|]. by destruct res. }
  destruct (isComplete event) eqn:Et; cbn [negb andb].
  - destruct (HX event Et) as [x Hx].
    set (res' := match res with Some r => Some r | None => extract event end).
    assert (exists s1, capture event s = Some s1 /\ same_core s s1 /\ es_done s1 = true /\ es_hasResult s1 = true /\
              es_result s1 = default zero res' /\ is_Some res') as (s1 & E1 & Hs1 & Hd1 & Hh1 & Hr1 & Hres').
    { unfold capture, res'. cbn. rewrite (tr_has _ _ _ Hr), Hx. destruct res as [r|]; cbn; eexists; (split; [done|]); [|done].
      split_and!; cbn; try done; [|by apply Hr]. by rewrite (tr_has _ _ _ Hr). }
    rewrite E1. cbn. destruct (hand_over_core acc s1 calls event (core_same _ _ _ _ Hs1 Hc)) as (s2 & -> & Hc2 & Hd2 & Hr2 & Hh2 & _). cbn.
    destruct (release_core _ _ _ _ Hc2) as (s3 & -> & Hc3 & Hd3 & Hr3 & Hh3 & _). cbn. eexists. split; [done|].
    split; [by eapply core_same; [|done]|]. split; [cbn; congruence|]. split; cbn; try done; try congruence.
    + rewrite bool_decide_true by done. congruence.
    + intros i r Hi. by destruct (tr_returned _ _ _ Hr _ _ Hi) as [E _]; rewrite Hd in E.
  - cbn. destruct (hand_over_core acc s calls event Hc) as (s2 & -> & Hc2 & Hd2 & Hr2 & Hh2 & Hs2). cbn. exists s2. split; [done|].
    split; [done|]. split; [congruence|]. assert (res = None) as ->.
    { destruct res; [|done]. pose proof (tr_over _ _ _ Hr ltac:(done)). congruence. }
    destruct Hr. split; rewrite ?Hd2, ?Hr2, ?Hh2, ?Hs2; done.
Qed.

Lemma end_spec x s p calls res results :
  core p s calls -> es_done s = p.2 -> told_result res s results ->
  exists s', End x s = Some s' /\ core (p.1, true) s' calls /\ es_done s' = true /\
    told_result (match res with Some r => Some r | None => x end) s' results.
Proof.
  intros Hc Hd Hr. unfold End. set (s1 := match x with Some r => _ | None => s end).
  assert (same_core s s1 /\ es_hasResult s1 = bool_decide (is_Some (match res with Some r => Some r | None => x end)) /\
          es_result s1 = default zero (match res with Some r => Some r | None => x end)) as (Hs1 & Hh1 & Hr1).
  { unfold s1. destruct x as [r|]; rewrite ?(tr_has _ _ _ Hr); destruct res; cbn; split_and!; try done; cbn;
      rewrite ?(tr_has _ _ _ Hr), ?(tr_result _ _ _ Hr); done. }
  assert (core (p.1, p.2) (with_done s1) calls) as Hc1 by (destruct p; by eapply core_same; [|exact Hc]).
  destruct (release_core _ _ _ _ Hc1) as (s2 & -> & Hc2 & Hd2 & Hr2 & Hh2 & _). cbn. eexists. split; [done|].
  split; [by eapply core_same; [|done]|]. split; [done|].
  cbn in *. split; cbn; [congruence|congruence|done|done|].
  intros i r Hi. destruct (tr_returned _ _ _ Hr _ _ Hi) as [E Hor]. split; [congruence|]. destruct Hor as [->| ->]; auto.
Qed.

(** [Result] of a caller that is not asleep. *)
Lemma result_spec i s res results :
  told_result res s results ->
  let (r, s') := Result i s in same_core s s' /\ es_done s' = es_done s /\ es_hasResult s' = es_hasResult s /\ es_result s' = es_result s /\
    (es_done s = true -> es_sleeping s' = []) /\ (forall x, r = Some x -> es_done s = true /\ (res = Some x \/ x = zero)).
Proof.
  intros Hr. unfold Result. rewrite (tr_has _ _ _ Hr). destruct (es_done s) eqn:Hd.
  - rewrite andb_false_r. split; [by repeat split|]. split_and!; [done|by apply Hr|done|by intros; apply Hr|]. intros x [= <-]. split; [done|].
    rewrite (tr_result _ _ _ Hr). destruct res; cbn; auto.
  - assert (res = None) as ->.
    { destruct res; [|done]. pose proof (tr_over _ _ _ Hr ltac:(done)). congruence. }
    cbn. split; [by repeat split|]. split_and!; [done| |done|done|done]. by rewrite (tr_has _ _ _ Hr).
Qed.

(** *** Every interleaving *)

Record described (l : list action) (y : System) : Prop := {
  de_core : core (story l) (sy_stream y) (sy_calls y);
  de_done : es_done (sy_stream y) = over l;
  de_result : told_result (first_result l) (sy_stream y) (sy_results y);
}.

Lemma told_result_step res s s' results :
  told_result res s results -> es_done s' = es_done s -> es_hasResult s' = es_hasResult s -> es_result s' = es_result s ->
  (es_done s = true -> es_sleeping s' = []) ->
  forall results', (forall i x, results' !! i = Some (Some x) -> results !! i = Some (Some x) \/
    es_done s = true /\ (res = Some x \/ x = zero)) -> told_result res s' results'.
Proof.
  intros [] E1 E2 E3 Hs results' Hres. split; rewrite ?E1, ?E2, ?E3; auto. intros i x [Hi|Hi]%Hres; eauto.
Qed.

(** What a step leaves the results at. *)
Lemma runs_described l y : runs l y -> described l y.
Proof.
  induction 1 as [|l y x y' _ IH Hx].
  { split; [|done|].
    - by split.
    - split; cbn; done. }

  destruct y as [s calls results], IH as [Hc Hd Hr]. cbn [sy_stream sy_calls sy_results] in *.
  destruct x as [event|res| |j| |i]; cbn [step] in Hx.
  - destruct (push_spec event _ _ _ _ _ Hc Hd Hr) as (s' & E & Hc' & Hd' & Hr'). rewrite E in Hx. injection Hx as <-.
    split; cbn; unfold over; rewrite ?story_snoc, ?first_result_snoc; [done|exact Hd'|exact Hr'].
  - destruct (end_spec res _ _ _ _ _ Hc Hd Hr) as (s' & E & Hc' & Hd' & Hr'). rewrite E in Hx. injection Hx as <-.
    split; cbn; unfold over; rewrite ?story_snoc, ?first_result_snoc; [done|exact Hd'|exact Hr'].
  - pose proof (next_core _ _ _ Hc Hd) as Hn. destruct (Next s) as [c s']. injection Hx as <-.
    destruct Hn as (Hc' & E1 & E2 & E3 & E4). split; cbn; unfold over; rewrite ?story_snoc, ?first_result_snoc; cbn; [done|by rewrite E1|].
    assert (match first_result l with Some r => Some r | None => None end = first_result l) as -> by by destruct (first_result l).
    eapply told_result_step; eauto. intros Hdone. rewrite E4. by apply Hr.
  - destruct (calls !! j) as [[c|]|] eqn:Ej; try done. pose proof (receive_core _ _ _ _ _ Hc Ej) as Hn.
    destruct (receive c s) as [[o s']|]; [|done]. injection Hx as <-. destruct Hn as (Hc' & _ & E1 & E2 & E3 & E4).
    split; cbn; unfold over; rewrite ?story_snoc, ?first_result_snoc; cbn; [done|by rewrite E1|].
    assert (match first_result l with Some r => Some r | None => None end = first_result l) as -> by by destruct (first_result l).
    eapply told_result_step; eauto. intros Hdone. rewrite E4. by apply Hr.
  - pose proof (result_spec (length results) s _ _ Hr) as Hn. destruct (Result (length results) s) as [r s']. injection Hx as <-.
    destruct Hn as (Hs & E1 & E2 & E3 & E4 & Hx). split; cbn; unfold over; rewrite ?story_snoc, ?first_result_snoc; cbn;
      [by eapply core_same|by rewrite E1|].
    assert (match first_result l with Some r => Some r | None => None end = first_result l) as -> by by destruct (first_result l).
    eapply told_result_step; eauto. intros k x [Hk|[_ Hk]]%lookup_app_Some; [by left|right].
    apply list_lookup_singleton_Some in Hk as [_ ->]. by apply Hx.
  - destruct (results !! i) as [[|]|] eqn:Ei; try done. case_bool_decide; [done|].
    pose proof (result_spec i s _ _ Hr) as Hn. destruct (Result i s) as [r s']. injection Hx as <-.
    destruct Hn as (Hs & E1 & E2 & E3 & E4 & Hx). split; cbn; unfold over; rewrite ?story_snoc, ?first_result_snoc; cbn;
      [by eapply core_same|by rewrite E1|].
    assert (match first_result l with Some r => Some r | None => None end = first_result l) as -> by by destruct (first_result l).
    eapply told_result_step; eauto. intros k x [[-> [-> _]]|[_ Hk]]%list_lookup_insert_Some; [right|by left]. by apply Hx.
Qed.
End Streams.

(** ** The stream of an assistant message *)

Definition completes (event : AssistantMessageEvent) : bool :=
  match ae_Type event with EventDone | EventError => true | _ => false end.

(** A nil pointer is [None]; another event panics. *)
Definition final_message (event : AssistantMessageEvent) : option (option AssistantMessage) :=
  match ae_Type event with
  | EventDone => Some (ae_Message event)
  | EventError => Some (ae_Error event)
  | _ => None
  end.

Definition NewAssistantMessageEventStream : EventStream := NewEventStream (T := AssistantMessageEvent) (None : option AssistantMessage).

(** [Recv]: [Answered None] is [io.EOF]. *)
Definition Recv (s : EventStream) : call * EventStream := Next (T := AssistantMessageEvent) (R := option AssistantMessage) s.
Definition Close (s : EventStream) : option EventStream := End (T := AssistantMessageEvent) (R := option AssistantMessage) None s.

Lemma completes_final event : completes event = true -> is_Some (final_message event).
Proof. unfold completes, final_message. by destruct (ae_Type event). Qed.

(** ** Properties *)

(** C11: an event stream hands out its events in order.  Whatever the
    interleaving of pushes, ends and consumers: the call of [Next] that was the
    j-th to take the mutex answers the j-th event pushed before the stream was
    over, and [false] only if the stream is over with fewer events; a waiting
    call can return exactly when its event was pushed or the stream is over, so
    no wakeup is lost; pushing and ending never block or panic; what no call
    was given yet is the queue. *)
Theorem stream_fifo {T R} (isComplete : T -> bool) (extract : T -> option R) (zero : R) l y :
  (forall event, isComplete event = true -> is_Some (extract event)) -> runs isComplete extract zero l y ->
  let acc := accepted isComplete l in
  (forall j o, sy_calls y !! j = Some (Answered o) -> o = acc !! j /\ (o = None -> over isComplete l = true)) /\
  (forall j c, sy_calls y !! j = Some (Waits c) ->
    is_Some (step isComplete extract (DoReceive j) y) <-> is_Some (acc !! j) \/ over isComplete l = true) /\
  (forall event, is_Some (step isComplete extract (DoPush event) y)) /\
  (forall res, is_Some (step isComplete extract (DoEnd res) y)) /\
  es_queue (sy_stream y) = drop (length (sy_calls y)) acc.
Proof.
  intros HX H. destruct (runs_described _ _ _ HX _ _ H) as [Hc Hd Hr]. destruct y as [s calls results]. cbn [sy_stream sy_calls sy_results step] in *. split_and!.
  - apply Hc.
  - intros j c Hj. rewrite Hj. pose proof (receive_core _ _ _ _ _ Hc Hj) as Hn. destruct (receive c s) as [[o s']|]; cbn.
    + split; [|by eauto]. intros _. apply Hn.
    + destruct Hn as [E1 E2]. unfold accepted, over. rewrite E1, E2. split; [by intros []|]. by intros [[]|].
  - intros event. destruct (push_spec _ _ _ HX event _ _ _ _ _ Hc Hd Hr) as (s' & -> & _). by eauto.
  - intros res. destruct (end_spec _ res _ _ _ _ _ Hc Hd Hr) as (s' & -> & _). by eauto.
  - apply Hc.
Qed.

(** The result of an event stream is the first one given, by a terminal
    event or by [End]; a call of [Result] returns only when the stream is over,
    with that result, or with none when the stream ended without one; and once
    the stream is over no caller is left asleep. *)
Theorem stream_result {T R} (isComplete : T -> bool) (extract : T -> option R) (zero : R) l y :
  (forall event, isComplete event = true -> is_Some (extract event)) -> runs isComplete extract zero l y ->
  es_result (sy_stream y) = default zero (first_result isComplete extract l) /\
  (forall i r, sy_results y !! i = Some (Some r) ->
    over isComplete l = true /\ (first_result isComplete extract l = Some r \/ r = zero)) /\
  (over isComplete l = true -> forall i, sy_results y !! i = Some None ->
    exists r, step isComplete extract (DoWake i) y = Some (mkSystem (sy_stream y) (sy_calls y) (<[i := Some r]> (sy_results y)))).
Proof.
  intros HX H. destruct (runs_described _ _ _ HX _ _ H) as [_ Hd [Hh Hres _ Hs Hret]]. destruct y as [s calls results]. cbn [sy_stream sy_calls sy_results step] in *. split_and!.
  - done.
  - rewrite <- Hd. done.
  - intros Ho i Hi. rewrite Hi, Hs by congruence. unfold Result. rewrite Hd, Ho, andb_false_r. cbn. eauto.
Qed.

(** ** A run *)

(** Two consumers wait; three numbers are pushed, the last one terminal and
    one too late; the second consumer asks once more. *)
Definition demo_actions : list (@action Z Z) :=
  [DoNext; DoNext; DoResult; DoPush 1; DoPush 2; DoReceive 1; DoPush 3; DoPush 4; DoNext; DoReceive 0; DoWake 0; DoNext].

Fixpoint take_steps {T R} (isComplete : T -> bool) (extract : T -> option R) (l : list action) (y : System) : option System :=
  match l with
  | [] => Some y
  | x :: rest => y ← step isComplete extract x y; take_steps isComplete extract rest y
  end.

Lemma take_steps_runs {T R} isComplete (extract : T -> option R) zero l0 l y y' :
  runs isComplete extract zero l0 y -> take_steps isComplete extract l y = Some y' -> runs isComplete extract zero (l0 ++ l) y'.
Proof.
  revert l0 y. induction l as [|x l IH]; intros l0 y H0; cbn.
  - intros [= <-]. by rewrite app_nil_r.
  - destruct (step isComplete extract x y) as [y1|] eqn:E; [|done]. intros H. rewrite cons_middle, app_assoc.
    eapply IH; [|exact H]. by eapply runs_step.
Qed.

Definition demo_complete (n : Z) : bool := n =? 3.

Lemma stream_fifo_witness :
  exists y, take_steps demo_complete Some demo_actions (mkSystem (NewEventStream 0) [] []) = Some y /\
    sy_calls y = [Answered (Some 1); Answered (Some 2); Answered (Some 3); Answered None] /\
    (forall event, is_Some (step demo_complete Some (DoPush event) y)).
Proof.
  eexists. split; [vm_compute; reflexivity|]. split; [reflexivity|].
  eapply (stream_fifo demo_complete Some 0 demo_actions); [by eauto|].
  apply (take_steps_runs _ _ _ [] demo_actions _ _ (runs_new _ _ _)). vm_compute. reflexivity.
Defined.

Lemma stream_result_witness :
  exists y, take_steps demo_complete Some demo_actions (mkSystem (NewEventStream 0) [] []) = Some y /\
    es_result (sy_stream y) = default 0 (first_result demo_complete Some demo_actions) /\ sy_results y = [Some 3].
Proof.
  eexists. split; [vm_compute; reflexivity|]. split; [|reflexivity].
  eapply (stream_result demo_complete Some 0 demo_actions); [by eauto|].
  apply (take_steps_runs _ _ _ [] demo_actions _ _ (runs_new _ _ _)). vm_compute. reflexivity.
Defined.
