(* ===== verification/Json.v ===== *)
(** * JSON values ([encoding/json], [strconv])

    What the standard library does for the sources: [json.Unmarshal] into a
    variable of type [any].  A number is a [float64], an object the list of the
    writes to its map in order, of which the last to a key counts; malformed
    UTF-8 and unpaired surrogates become U+FFFD. *)

From S2P Require Import Prelude GoText.
From Stdlib Require Import Ascii SpecFloat.

Open Scope Z_scope.

(** ** Definitions *)

Inductive json : Type :=
| JNull
| JBool (b : bool)
| JNumber (f : spec_float)
| JString (s : text)
| JArray (l : list json)
| JObject (writes : list (text * json)).

(** *** Numbers *)

Definition is_digit (c : ascii) : bool := in_range 48 57 (code c).

Fixpoint span {A} (p : A -> bool) (l : list A) : list A * list A :=
  match l with
  | [] => ([], [])
  | x :: r => if p x then let (a, b) := span p r in (x :: a, b) else ([], l)
  end.

Definition dec_value (ds : text) : Z := foldl (fun n c => 10 * n + (code c - 48)) 0 ds.

(** The [float64] nearest to [m * 10^e], ties to even. *)
Definition nearest (neg : bool) (m e : Z) : spec_float :=
  match m with
  | Z.pos p =>
      if 0 <=? e then binary_normalize 53 1024 (if neg then - (m * 10 ^ e) else m * 10 ^ e) 0 neg
      else SFdiv 53 1024 (S754_finite neg p 0) (S754_finite false (Z.to_pos (10 ^ (- e))) 0)
  | _ => S754_zero neg
  end.

(** [strconv.ParseFloat(s, 64)] of a literal: out of range is an error. *)
Definition parse_float (neg : bool) (m e : Z) : option spec_float :=
  match nearest neg m e with
  | S754_infinity _ | S754_nan => None
  | f => Some f
  end.

Definition sign_part (s : text) : bool * text :=
  match s with c :: r => if code c =? 45 then (true, r) else (false, s) | [] => (false, s) end.

(** No digit follows a leading zero. *)
Definition int_part (s : text) : option (text * text) :=
  match s with
  | c :: r =>
      if code c =? 48 then Some ([c], r)
      else if is_digit c then let (ds, r) := span is_digit r in Some (c :: ds, r)
      else None
  | [] => None
  end.

Definition frac_part (s : text) : option (text * text) :=
  match s with
  | c :: r =>
      if code c =? 46 then match span is_digit r with ([], _) => None | (ds, r) => Some (ds, r) end else Some ([], s)
  | [] => Some ([], s)
  end.

Definition exp_sign (s : text) : bool * text :=
  match s with
  | c :: r => if code c =? 45 then (true, r) else if code c =? 43 then (false, r) else (false, s)
  | [] => (false, s)
  end.

Definition exp_part (s : text) : option (Z * text) :=
  match s with
  | c :: r =>
      if (code c =? 101) || (code c =? 69) then
        let (neg, r) := exp_sign r in
        match span is_digit r with
        | ([], _) => None
        | (ds, r) => Some (if neg then - dec_value ds else dec_value ds, r)
        end
      else Some (0, s)
  | [] => Some (0, s)
  end.

(** The bytes that [rescanLiteral] takes for a number. *)
Definition is_number_byte (c : ascii) : bool := is_digit c || existsb (Z.eqb (code c)) [46; 101; 69; 43; 45].

Definition number_token (s : text) : option spec_float :=
  let (neg, s) := sign_part s in
  '(int, s) ← int_part s;
  '(frac, s) ← frac_part s;
  '(e, s) ← exp_part s;
  match s with [] => parse_float neg (dec_value (int ++ frac)) (e - len frac) | _ => None end.

Definition number (s : text) : option (spec_float * text) :=
  let (token, r) := span is_number_byte s in
  f ← number_token token; Some (f, r).

(** *** Strings *)

Definition hex_digit (c : ascii) : option Z :=
  let z := code c in
  if in_range 48 57 z then Some (z - 48)
  else if in_range 97 102 z then Some (z - 87)
  else if in_range 65 70 z then Some (z - 55)
  else None.

(** [getu4], after the backslash and the [u]: the unit and the rest. *)
Definition hex4 (s : text) : option (Z * text) :=
  match s with
  | a :: b :: c :: d :: r =>
      a ← hex_digit a; b ← hex_digit b; c ← hex_digit c; d ← hex_digit d;
      Some (4096 * a + 256 * b + 16 * c + d, r)
  | _ => None
  end.

(** The low surrogate that an escape at the start of [s] writes. *)
Definition low_surrogate (s : text) : option (Z * text) :=
  match s with
  | c :: d :: r =>
      if (code c =? 92) && (code d =? 117) then
        '(u, r) ← hex4 r; if in_range 0xDC00 0xDFFF u then Some (u, r) else None
      else None
  | _ => None
  end.

(** The rune of a unit: a surrogate needs its other half. *)
Definition escaped_rune (u : Z) (r : text) : Z * text :=
  if in_range 0xD800 0xDFFF u then
    match low_surrogate r with
    | Some (v, r') => if u <? 0xDC00 then ((u - 0xD800) * 1024 + (v - 0xDC00) + 0x10000, r') else (rune_error, r)
    | None => (rune_error, r)
    end
  else (u, r).

Definition simple_escape (c : ascii) : option ascii :=
  let z := code c in
  if (z =? 34) || (z =? 92) || (z =? 47) then Some c
  else if z =? 98 then Some (byte 8)
  else if z =? 102 then Some (byte 12)
  else if z =? 110 then Some (byte 10)
  else if z =? 114 then Some (byte 13)
  else if z =? 116 then Some (byte 9)
  else None.

(** One character of a string, not its closing quote: what it decodes to. *)
Definition unit (s : text) : option (text * text) :=
  match s with
  | c :: r =>
      if code c =? 92 then
        match r with
        | d :: r =>
            if code d =? 117 then
              '(u, r) ← hex4 r;
              let (z, r) := escaped_rune u r in Some (encode_rune z, r)
            else x ← simple_escape d; Some ([x], r)
        | [] => None
        end
      else if code c <? 32 then None
      else let (z, n) := decode_rune s in Some (encode_rune z, drop n s)
  | [] => None
  end.

(** A string after its opening quote, to its closing one. *)
Fixpoint string_body (fuel : nat) (s : text) : option (text * text) :=
  match fuel, s with
  | S fuel, c :: r =>
      if code c =? 34 then Some ([], r)
      else
        '(x, r) ← unit s;
        '(l, r) ← string_body fuel r;
        Some (x ++ l, r)
  | _, _ => None
  end.

(** *** Documents *)

Definition is_blank (c : ascii) : bool := existsb (Z.eqb (code c)) [32; 10; 13; 9].

Definition skip_blank (s : text) : text := drop_head is_blank s.

(** The first byte after blanks. *)
Definition next_byte (s : text) : option (Z * text) :=
  match skip_blank s with c :: r => Some (code c, r) | [] => None end.

Definition maxNestingDepth : Z := 10000.

(** A literal or a number. *)
Definition scalar (s : text) : option (json * text) :=
  if has_prefix (lit "null") s then Some (JNull, drop 4 s)
  else if has_prefix (lit "true") s then Some (JBool true, drop 4 s)
  else if has_prefix (lit "false") s then Some (JBool false, drop 5 s)
  else '(f, r) ← number s; Some (JNumber f, r).
#[global] Arguments scalar : simpl never.

Section Documents.
(** Whether an empty array may have blanks in it.  It may; a reader that fails
    on them is compared with the grammar where it may not. *)
Context (blanks : bool).

(** A value within [depth] containers. *)
Fixpoint document (fuel : nat) (depth : Z) (s : text) : option (json * text) :=
  match fuel with
  | O => None
  | S fuel =>
      '(c, r) ← next_byte s;
      if c =? 34 then '(x, r) ← string_body (length r) r; Some (JString x, r)
      else if c =? 123 then
        if maxNestingDepth <=? depth then None
        else
          '(c, r') ← next_byte r;
          if c =? 125 then Some (JObject [], r') else '(l, r) ← members fuel (depth + 1) r; Some (JObject l, r)
      else if c =? 91 then
        if maxNestingDepth <=? depth then None
        else
          '(c, r') ← next_byte r;
          if c =? 93 then if blanks || Nat.eqb (length r) (S (length r')) then Some (JArray [], r') else None else '(l, r) ← elements fuel (depth + 1) r; Some (JArray l, r)
      else
        scalar (skip_blank s)
  end
with members (fuel : nat) (depth : Z) (s : text) : option (list (text * json) * text) :=
  match fuel with
  | O => None
  | S fuel =>
      '(c, r) ← next_byte s;
      if c =? 34 then
        '(key, r) ← string_body (length r) r;
        '(c, r) ← next_byte r;
        if c =? 58 then
          '(v, r) ← document fuel depth r;
          '(c, r) ← next_byte r;
          if c =? 44 then '(l, r) ← members fuel depth r; Some ((key, v) :: l, r)
          else if c =? 125 then Some ([(key, v)], r)
          else None
        else None
      else None
  end
with elements (fuel : nat) (depth : Z) (s : text) : option (list json * text) :=
  match fuel with
  | O => None
  | S fuel =>
      '(v, r) ← document fuel depth s;
      '(c, r) ← next_byte r;
      if c =? 44 then '(l, r) ← elements fuel depth r; Some (v :: l, r)
      else if c =? 93 then Some ([v], r)
      else None
  end.

Definition whole_document (s : text) : option json :=
  '(v, r) ← document (S (length s)) 0 s;
  match skip_blank r with [] => Some v | _ => None end.
End Documents.

(** [json.Unmarshal(s, &v)] with [v] of type [any]; any error is [None]. *)
Definition Unmarshal (s : text) : option json := whole_document true s.

(** [json.Unmarshal(s, &v)] with [v] a string, which [null] leaves empty. *)
Definition Unmarshal_string (s : text) : option text :=
  v ← Unmarshal s;
  match v with JString x => Some x | JNull => Some [] | _ => None end.

(** The element of the map at a key: the last one written. *)
Definition member_of (writes : list (text * json)) (key : text) : option json :=
  snd <$> last (filter (fun w => w.1 = key) writes).

(** ** Lemmas *)

(** *** Digits and numbers *)

Lemma span_spec {A} (p : A -> bool) l :
  l = (span p l).1 ++ (span p l).2 /\ Forall (fun x => p x = true) (span p l).1 /\
  match (span p l).2 with [] => True | x :: _ => p x = false end.
Proof.
  induction l as [|x l (E & Hp & Hs)]; [done|]. cbn. destruct (p x) eqn:Ex; [|done]. destruct (span p l) as [a b]. cbn in *.
  subst. split_and!; [done|by constructor|done].
Qed.

(** What is spanned, whatever comes next. *)
Lemma span_app {A} (p : A -> bool) a r :
  Forall (fun x => p x = true) a -> match r with [] => True | x :: _ => p x = false end -> span p (a ++ r) = (a, r).
Proof.
  induction 1 as [|x a Hx _ IH]; intros Hr; cbn.
  - destruct r; [done|]. cbn. by rewrite Hr.
  - by rewrite Hx, IH.
Qed.

Lemma span_app_l {A} (p : A -> bool) a r : Forall (fun x => p x = true) a -> (span p (a ++ r)).1 = a ++ (span p r).1.
Proof. induction 1 as [|x a Hx _ IH]; cbn; [done|]. rewrite Hx. destruct (span p (a ++ r)). cbn in *. by rewrite IH. Qed.

Lemma drop_head_span {A} (p : A -> bool) l : drop_head p l = (span p l).2.
Proof. induction l as [|x l IH]; [done|]. cbn. destruct (p x); [|done]. rewrite IH. by destruct (span p l). Qed.

(** A number ends at any other byte. *)
Lemma number_spec s f r :
  number s = Some (f, r) -> exists c, s = c ++ r /\ c <> [] /\ Forall (fun x => is_number_byte x = true) c /\ number_token c = Some f /\
    match r with [] => True | x :: _ => is_number_byte x = false end.
Proof.
  unfold number. pose proof (span_spec is_number_byte s) as (E & Ha & Hr). destruct (span is_number_byte s) as [c r']. cbn in *.
  destruct (number_token c) as [g|] eqn:En; [|done]. cbn. intros [= -> ->]. exists c. split_and!; try done. by intros ->.
Qed.

Lemma number_app c f r :
  Forall (fun x => is_number_byte x = true) c -> number_token c = Some f ->
  match r with [] => True | x :: _ => is_number_byte x = false end -> number (c ++ r) = Some (f, r).
Proof. intros Hc Hf Hr. unfold number. rewrite span_app by done. by rewrite Hf. Qed.

Lemma number_token_head c f : number_token c = Some f -> exists x r, c = x :: r /\ (code x = 45 \/ is_digit x = true).
Proof.
  unfold number_token, sign_part. destruct c as [|x r]; [done|]. intros H. exists x, r. split; [done|].
  destruct (Z.eqb_spec (code x) 45); [by left|right]. cbn in H. destruct (Z.eqb_spec (code x) 48) as [E|]; [by unfold is_digit; rewrite E|].
  by destruct (is_digit x).
Qed.

Lemma has_prefix_drop p s : has_prefix p s = true -> s = p ++ drop (length p) s.
Proof. intros [t ->]%has_prefix_spec. by rewrite drop_app_length. Qed.

(** The words, and the numbers. *)
Lemma scalar_spec s v r : scalar s = Some (v, r) ->
  s = lit "null" ++ r /\ v = JNull \/ s = lit "true" ++ r /\ v = JBool true \/ s = lit "false" ++ r /\ v = JBool false \/
  exists f, number s = Some (f, r) /\ v = JNumber f.
Proof.
  unfold scalar. destruct (has_prefix (lit "null") s) eqn:E1; [apply has_prefix_drop in E1; intros [= <- <-]; auto|].
  destruct (has_prefix (lit "true") s) eqn:E2; [apply has_prefix_drop in E2; intros [= <- <-]; auto|].
  destruct (has_prefix (lit "false") s) eqn:E3; [apply has_prefix_drop in E3; intros [= <- <-]; auto|].
  destruct (number s) as [[f r']|] eqn:E; [|done]. cbn. intros [= <- <-]. right. right. right. by exists f.
Qed.

(** *** Runes cut short *)

Definition is_quote (c : ascii) : Prop := code c = 34.

(** A rune of several bytes is read from those bytes alone; they are not
    ASCII. *)
Lemma decode_rune_wide c r z n :
  decode_rune (c :: r) = (z, n) -> (2 <= n)%nat ->
  128 <= code c /\ (n <= 4)%nat /\ exists a b, r = a ++ b /\ S (length a) = n /\ Forall (fun x => cont x = true) a /\
    forall b', decode_rune (c :: a ++ b') = (z, n).
Proof.
  unfold decode_rune. intros H Hn.
  assert (forall c, in_range 0xA0 0xBF (code c) = true -> cont c = true) as HA
    by (intros x; unfold cont, in_range; rewrite !andb_true_iff, !Z.leb_le; lia).
  assert (forall c, in_range 0x80 0x9F (code c) = true -> cont c = true) as HB
    by (intros x; unfold cont, in_range; rewrite !andb_true_iff, !Z.leb_le; lia).
  assert (forall c, in_range 0x90 0xBF (code c) = true -> cont c = true) as HC
    by (intros x; unfold cont, in_range; rewrite !andb_true_iff, !Z.leb_le; lia).
  assert (forall c, in_range 0x80 0x8F (code c) = true -> cont c = true) as HD
    by (intros x; unfold cont, in_range; rewrite !andb_true_iff, !Z.leb_le; lia).
  assert (forall c, in_range 0x80 0xBF (code c) = true -> cont c = true) as HE by done.
  destruct (Z.ltb_spec (code c) 128); [injection H; lia|]. split; [done|].
  destruct (in_range 0xC2 0xDF (code c)).
  { destruct r as [|c1 r]; [injection H; lia|]. destruct (cont c1) eqn:E1; [|injection H; lia]. injection H as <- <-.
    split; [lia|]. exists [c1], r. split_and!; try done; [by repeat constructor|]. intros b'. cbn. by rewrite E1. }
  destruct (in_range 0xE0 0xEF (code c)).
  { destruct r as [|c1 [|c2 r]]; [injection H; lia|injection H; lia|].
    match type of H with (if ?b then _ else _) = _ => destruct b eqn:E1 end; [|injection H; lia]. injection H as <- <-.
    split; [lia|]. exists [c1; c2], r. split_and!; try done; [|intros b'; cbn; by rewrite E1].
    apply andb_true_iff in E1 as [E1 E2]. repeat constructor; [|done]. destruct (code c =? 0xE0), (code c =? 0xED); auto. 
    unfold in_range in E1. rewrite andb_true_iff, !Z.leb_le in E1. lia. }
  destruct (in_range 0xF0 0xF4 (code c)); [|injection H; lia].
  destruct r as [|c1 [|c2 [|c3 r]]]; [injection H; lia|injection H; lia|injection H; lia|].
  match type of H with (if ?b then _ else _) = _ => destruct b eqn:E1 end; [|injection H; lia]. injection H as <- <-.
  split; [lia|]. exists [c1; c2; c3], r. split_and!; try done; [|intros b'; cbn; by rewrite E1].
  apply andb_true_iff in E1 as [[E1 E2]%andb_true_iff E3]. repeat constructor; [|done|done].
  destruct (code c =? 0xF0), (code c =? 0xF4); auto. unfold in_range in E1. rewrite andb_true_iff, !Z.leb_le in E1. lia.
Qed.

Lemma decode_rune_narrow c r z : decode_rune (c :: r) = (z, 1%nat) -> code c < 128 /\ z = code c \/ 128 <= code c /\ z = rune_error.
Proof.
  unfold decode_rune. destruct (Z.ltb_spec (code c) 128); [intros [= <-]; auto|]. intros H'. right. split; [done|].
  repeat (case_match; try discriminate); by injection H'.
Qed.

Lemma cut_app {A} (a b c d : list A) : a ++ b = c ++ d -> (length a <= length c)%nat -> exists e, c = a ++ e /\ b = e ++ d.
Proof.
  revert c. induction a as [|x a IH]; intros c H Hl; [by exists c|]. destruct c as [|y c]; cbn in *; [lia|].
  injection H as -> H. destruct (IH c H) as (e & -> & ->); [lia|]. by exists e.
Qed.

Lemma decode_rune_cut c r z n r0 q :
  decode_rune (c :: r) = (z, n) -> 128 <= code c -> r0 `prefix_of` r -> (n = 1%nat \/ (S (length r0) < n)%nat) -> is_quote q ->
  decode_rune (c :: r0 ++ [q]) = (rune_error, 1%nat).
Proof.
  intros H Hc [r1 ->] Hn Hq. destruct (decode_rune (c :: r0 ++ [q])) as [z' n'] eqn:E.
  pose proof (decode_rune_width c (r0 ++ [q])) as Hw. rewrite E in Hw. cbn [snd] in Hw. destruct (decide (n' = 1%nat)) as [->|Hne].
  - destruct (decode_rune_narrow _ _ _ E) as [[]|[_ ->]]; [lia|done].
  - exfalso. destruct (decode_rune_wide _ _ _ _ E ltac:(lia)) as (_ & _ & a & b & Eab & Hl & Hcont & Hany).
    assert (length a <= length r0)%nat as Hle.
    { destruct (decide (length a <= length r0)%nat) as [|Hgt]; [done|]. assert (b = []) as ->.
      { apply (f_equal length) in Eab. rewrite !length_app in Eab. cbn in Eab. apply nil_length_inv. lia. }
      rewrite app_nil_r in Eab. subst a. apply Forall_app in Hcont as [_ Hcont]. inversion Hcont as [|? ? Hx]; subst.
      unfold cont, in_range in Hx. rewrite Hq in Hx. cbn in Hx. done. }
    destruct (cut_app _ _ _ _ (eq_sym Eab) Hle) as (e & -> & _). rewrite <- app_assoc in H. rewrite Hany in H.
    injection H as _ <-. rewrite length_app in Hn. lia.
Qed.

Lemma decode_rune_cont c r : cont c = true -> decode_rune (c :: r) = (rune_error, 1%nat).
Proof.
  unfold cont, in_range. rewrite andb_true_iff, !Z.leb_le. intros [H1 H2]. unfold decode_rune, in_range.
  destruct (Z.ltb_spec (code c) 0x80); [lia|]. repeat case_match; rewrite ?andb_true_iff, ?Z.leb_le in *; try done; lia.
Qed.

(** *** The characters of a string *)

(** The ways to write one. *)
Inductive spelled (r : text) : text -> text -> Prop :=
| sp_plain c : code c <> 92 -> 32 <= code c < 128 -> spelled r [c] [c]
| sp_simple b d x : code b = 92 -> code d <> 117 -> simple_escape d = Some x -> spelled r [b; d] [x]
| sp_hex b d h u : code b = 92 -> code d = 117 -> length h = 4%nat -> hex4 h = Some (u, []) ->
    (in_range 0xD800 0xDBFF u = true -> low_surrogate r = None) ->
    spelled r (b :: d :: h) (encode_rune (if in_range 0xD800 0xDFFF u then rune_error else u))
| sp_pair b d h u b' d' h' v : code b = 92 -> code d = 117 -> length h = 4%nat -> hex4 h = Some (u, []) -> in_range 0xD800 0xDBFF u = true ->
    code b' = 92 -> code d' = 117 -> length h' = 4%nat -> hex4 h' = Some (v, []) -> in_range 0xDC00 0xDFFF v = true ->
    spelled r (b :: d :: h ++ b' :: d' :: h') (encode_rune ((u - 0xD800) * 1024 + (v - 0xDC00) + 0x10000))
| sp_broken c : 128 <= code c -> decode_rune (c :: r) = (rune_error, 1%nat) -> spelled r [c] (encode_rune rune_error)
| sp_rune c a z : 128 <= code c -> (length a <= 3)%nat -> Forall (fun x => cont x = true) a -> (1 <= length a)%nat ->
    (forall r, decode_rune (c :: a ++ r) = (z, S (length a))) -> spelled r (c :: a) (encode_rune z).

Lemma hex4_spec s u r : hex4 s = Some (u, r) -> exists h, s = h ++ r /\ length h = 4%nat /\ hex4 h = Some (u, []).
Proof.
  destruct s as [|a [|b [|c [|d s]]]]; try done. cbn. intros H. exists [a; b; c; d]. cbn.
  destruct (hex_digit a), (hex_digit b), (hex_digit c), (hex_digit d); try done. cbn in *. by injection H as <- <-.
Qed.

Lemma hex4_app h u r : length h = 4%nat -> hex4 h = Some (u, []) -> hex4 (h ++ r) = Some (u, r).
Proof.
  destruct h as [|a [|b [|c [|d [|]]]]]; try done. intros _. cbn.
  destruct (hex_digit a), (hex_digit b), (hex_digit c), (hex_digit d); try done. cbn. by intros [= ->].
Qed.

Lemma encode_ascii c : code c < 128 -> encode_rune (code c) = [c].
Proof.
  intros H. pose proof (code_bound c). unfold encode_rune, in_range.
  destruct (Z.ltb_spec (code c) 0); [lia|]. destruct (Z.leb_spec 0xD800 (code c)); [lia|]. destruct (Z.ltb_spec 0x10FFFF (code c)); [lia|]. cbn.
  destruct (Z.ltb_spec (code c) 0x80); [|lia]. by rewrite code_byte.
Qed.

Lemma unit_spelled s x r : unit s = Some (x, r) -> exists c, s = c ++ r /\ spelled r c x.
Proof.
  unfold unit. destruct s as [|c s]; [done|]. destruct (Z.eqb_spec (code c) 92) as [Hc|Hc].
  - destruct s as [|d s]; [done|]. destruct (Z.eqb_spec (code d) 117) as [Hd|Hd].
    + destruct (hex4 s) as [[u s']|] eqn:Eh; [|done]. apply hex4_spec in Eh as (h & -> & Hl & Hh). cbn. unfold escaped_rune.
      destruct (in_range 0xD800 0xDFFF u) eqn:Eu.
      * destruct (low_surrogate s') as [[v s'']|] eqn:El.
        -- destruct (Z.ltb_spec u 0xDC00).
           ++ intros [= <- <-]. unfold low_surrogate in El. destruct s' as [|b' [|d' s']]; try done.
              destruct (Z.eqb_spec (code b') 92); [|done]. destruct (Z.eqb_spec (code d') 117); [|done]. cbn in El.
              destruct (hex4 s') as [[v' t]|] eqn:Eh'; [|done]. apply hex4_spec in Eh' as (h' & -> & Hl' & Hh'). cbn in El.
              destruct (in_range 0xDC00 0xDFFF v') eqn:Ev; [|done]. injection El as -> ->.
              exists (c :: d :: h ++ b' :: d' :: h'). split; [cbn; by rewrite <- app_assoc|]. apply sp_pair; try done.
              unfold in_range in *. rewrite andb_true_iff, !Z.leb_le in *. lia.
           ++ intros [= <- <-]. exists (c :: d :: h). split; [done|].
              pose proof (sp_hex s' c d h u Hc Hd Hl Hh) as Hs. rewrite Eu in Hs. apply Hs.
              unfold in_range in *. rewrite andb_true_iff, !Z.leb_le in *. lia.
        -- intros [= <- <-]. exists (c :: d :: h). split; [done|].
           pose proof (sp_hex s' c d h u Hc Hd Hl Hh) as Hs. rewrite Eu in Hs. by apply Hs.
      * intros [= <- <-]. exists (c :: d :: h). split; [done|]. pose proof (sp_hex s' c d h u Hc Hd Hl Hh) as Hs. rewrite Eu in Hs. apply Hs.
        unfold in_range in *. rewrite andb_true_iff, !Z.leb_le. rewrite andb_false_iff, !Z.leb_gt in Eu. lia.
    + destruct (simple_escape d) as [y|] eqn:Ed; [|done]. intros [= <- <-]. exists [c; d]. split; [done|]. by constructor.
  - destruct (Z.ltb_spec (code c) 32); [done|]. destruct (decode_rune (c :: s)) as [z n] eqn:E. intros [= <- <-].
    pose proof (decode_rune_width c s) as Hw. rewrite E in Hw. cbn [snd] in Hw. destruct (decide (n = 1%nat)) as [->|].
    + exists [c]. split; [done|]. cbn. destruct (decode_rune_narrow _ _ _ E) as [[Hl ->]|[Hl ->]].
      * rewrite encode_ascii by done. by constructor.
      * by constructor.
    + destruct (decode_rune_wide _ _ _ _ E ltac:(lia)) as (Hl & Hn & a & b & -> & Ha & Hcont & Hany). exists (c :: a). subst n. split.
      * cbn. by rewrite drop_app_length.
      * apply sp_rune; try done; try lia.
Qed.
