(* ===== verification/JsonRepair.v ===== *)
(** * JSON read from a stream ([internal/pi/wire/jsonparse.go])

    The arguments of a tool call arrive in pieces.  [RepairJSON] escapes what
    models forget to escape, [partialJSONParse] reads as much of a value as a
    text holds, and [ParseStreamingJSON] combines them.  The parser is a
    position in a text; [None] is fuel that ran out, which never happens
    ([partial_terminates]), and [Err] an error. *)

From S2P Require Import Prelude GoText Json.
From Stdlib Require Import Ascii SpecFloat.

(** ** Definitions *)

(** *** Repair *)

Definition validJSONEscapes (c : ascii) : bool := existsb (Z.eqb (code c)) [34; 92; 47; 98; 102; 110; 114; 116; 117].

Definition isHexDigit (c : ascii) : bool :=
  in_range 48 57 (code c) || in_range 97 102 (code c) || in_range 65 70 (code c).

(** A lower-case hexadecimal digit. *)
Definition hex_char (z : Z) : ascii := byte (if z <? 10 then 48 + z else 87 + z).

Definition backslash : ascii := byte 92.

Definition escapeControlChar (c : ascii) : text :=
  let z := code c in
  if z =? 8 then lit "\b"
  else if z =? 12 then lit "\f"
  else if z =? 10 then lit "\n"
  else if z =? 13 then lit "\r"
  else if z =? 9 then lit "\t"
  else lit "\u00" ++ [hex_char (z / 16); hex_char (z mod 16)].

(** Four hexadecimal digits come next. *)
Definition hex_ahead (s : text) : bool :=
  match s with h1 :: h2 :: h3 :: h4 :: _ => isHexDigit h1 && isHexDigit h2 && isHexDigit h3 && isHexDigit h4 | _ => false end.

(** The loop of [RepairJSON]: what is written for the rest of the text, the
    first [copy] bytes of which belong to an escape that is kept. *)
Fixpoint repair (copy : nat) (inString : bool) (s : text) : text :=
  match s with
  | [] => []
  | c :: r =>
      match copy with
      | S copy => c :: repair copy inString r
      | O =>
          if negb inString then c :: repair 0 (code c =? 34) r
          else if code c =? 34 then c :: repair 0 false r
          else if code c =? 92 then
            match r with
            | [] => [backslash; backslash]
            | d :: r' =>
                if (code d =? 117) && hex_ahead r' then c :: repair 5 true r
                else if validJSONEscapes d then c :: repair 1 true r
                else backslash :: backslash :: repair 0 true r
            end
          else if code c <=? 31 then escapeControlChar c ++ repair 0 true r
          else c :: repair 0 true r
      end
  end.

Definition RepairJSON (jsonText : text) : text := repair 0 false jsonText.

(** [ParseJSONWithRepair], for a type decoded by [decode]. *)
Definition ParseJSONWithRepair {A} (decode : text -> option A) (jsonText : text) : option A :=
  match decode jsonText with
  | Some out => Some out
  | None => let repaired := RepairJSON jsonText in if decide (repaired = jsonText) then None else decode repaired
  end.

Definition decodeJSONValue (s : text) : option json := Unmarshal s.

(** *** The partial parser *)

(** What a parse ends with: a value, or an error at a position. *)
Definition parsed (A : Type) : Type := result nat (A * nat).

Definition byte_at (s : text) (i : nat) (z : Z) : bool :=
  match s !! i with Some c => code c =? z | None => false end.

(** [skipBlank], from the position [i]. *)
Definition skip_from (s : text) (i : nat) : nat := (i + length (span is_blank (drop i s)).1)%nat.

Definition jsSubstring (s : text) (start stop : Z) : text :=
  let n := len s in
  let start := Z.min (Z.max start 0) n in
  let stop := Z.min (Z.max stop 0) n in
  let (start, stop) := if stop <? start then (stop, start) else (start, stop) in
  take (Z.to_nat (stop - start)) (drop (Z.to_nat start) s).

(** [strings.LastIndexByte]: -1 when absent. *)
Fixpoint LastIndexByte (s : text) (z : Z) : Z :=
  match s with
  | [] => -1
  | c :: r =>
      let i := LastIndexByte r z in
      if 0 <=? i then i + 1 else if code c =? z then 0 else -1
  end.

(** The literals in the order they are tried. *)
Definition partialJSONLiterals : list (text * json * nat) :=
  [(lit "null", JNull, 0); (lit "true", JBool true, 0); (lit "false", JBool false, 0);
   (lit "Infinity", JNumber (S754_infinity false), 0); (lit "-Infinity", JNumber (S754_infinity true), 1);
   (lit "NaN", JNumber S754_nan, 0)]%nat.

Definition matches_literal (rest : text) (l : text * json * nat) : bool :=
  let '(word, _, minLength) := l in
  has_prefix word rest || (Nat.ltb (length rest) (length word) && Nat.ltb minLength (length rest) && has_prefix rest word).

Definition quote_char : ascii := byte 34.

Definition decodePartialString (quoted : text) : option text := Unmarshal_string quoted.

(** The loop of [parseStr]: the position after it and whether it ends in an
    escape.  [prev] is the byte before [i]. *)
Fixpoint string_end (s : text) (i : nat) (escape : bool) (prev : option ascii) : nat * bool :=
  match s with
  | [] => (i, escape)
  | c :: r =>
      if negb (code c =? 34) || (escape && match prev with Some p => code p =? 92 | None => false end)
      then string_end r (S i) ((code c =? 92) && negb escape) (Some c)
      else (i, escape)
  end.

Definition parseStr (s : text) (start : nat) : parsed text :=
  let (i, escape) := string_end (drop (S start) s) (S start) false (s !! start) in
  let trailing := if escape then 1 else 0 in
  if byte_at s i 34 then
    match decodePartialString (jsSubstring s (Z.of_nat start) (Z.of_nat (S i) - trailing)) with
    | Some x => Ok (x, S i)
    | None => Err (S i)
    end
  else
    match decodePartialString (jsSubstring s (Z.of_nat start) (Z.of_nat i - trailing) ++ [quote_char]) with
    | Some x => Ok (x, i)
    | None =>
        match decodePartialString (jsSubstring s (Z.of_nat start) (LastIndexByte s 92) ++ [quote_char]) with
        | Some x => Ok (x, i)
        | None => Err i
        end
    end.

(** [strings.CutLast(text, "e")]: what is before the last one. *)
Definition cut_last_e (s : text) : option text :=
  let i := LastIndexByte s 101 in if 0 <=? i then Some (take (Z.to_nat i) s) else None.

Definition is_delimiter (c : ascii) : bool := existsb (Z.eqb (code c)) [44; 93; 125].

(** A number that starts the text is the whole text. *)
Definition parseNum_whole (s : text) : option json :=
  if decide (s = lit "-") then None
  else
    match decodeJSONValue s with
    | Some v => Some v
    | None =>
        let cut := LastIndexByte s 101 in
        if 0 <=? cut then decodeJSONValue (jsSubstring s 0 cut) else None
    end.

Definition parseNum (s : text) (start : nat) : parsed json :=
  if Nat.eqb start 0 then
    match parseNum_whole s with Some v => Ok (v, O) | None => Err O end
  else
    let i := if byte_at s start 45 then S start else start in
    let i := (i + length (span (fun c => negb (is_delimiter c)) (drop i s)).1)%nat in
    let number := take (i - start) (drop start s) in
    match decodeJSONValue number with
    | Some v => Ok (v, i)
    | None =>
        if decide (number = lit "-") then Err i
        else
          match before ← cut_last_e number; decodeJSONValue before with
          | Some v => Ok (v, i)
          | None => Err i
          end
    end.

(** [parseAny], and the loops of [parseObj] and [parseArr] with what they have
    read so far; [None] is fuel that ran out. *)
Fixpoint parseAny (fuel : nat) (s : text) (i : nat) : option (parsed json) :=
  match fuel with
  | O => None
  | S fuel =>
      let i := skip_from s i in
      if byte_at s i 34 then
        Some (match parseStr s i with Ok (x, i) => Ok (JString x, i) | Err i => Err i end)
      else if byte_at s i 123 then
        '(l, i) ← parseObj fuel s (skip_from s (S i)) []; Some (Ok (JObject l, i))
      else if byte_at s i 91 then
        '(l, i) ← parseArr fuel s (S i) []; Some (Ok (JArray l, i))
      else if Nat.leb (length s) i then Some (Err i)
      else
        match find (matches_literal (drop i s)) partialJSONLiterals with
        | Some (word, v, _) => Some (Ok (v, (i + length word)%nat))
        | None => Some (parseNum s i)
        end
  end
with parseObj (fuel : nat) (s : text) (i : nat) (object : list (text * json)) : option (list (text * json) * nat) :=
  match fuel with
  | O => None
  | S fuel =>
      if byte_at s i 125 then Some (object, S i)
      else
        let i := skip_from s i in
        if Nat.leb (length s) i then Some (object, i)
        else
          match parseStr s i with
          | Err i => Some (object, i)
          | Ok (name, i) =>
              v ← parseAny fuel s (S (skip_from s i));
              match v with
              | Err i => Some (object, i)
              | Ok (v, i) =>
                  let i := skip_from s i in
                  parseObj fuel s (if byte_at s i 44 then S i else i) (object ++ [(name, v)])
              end
          end
  end
with parseArr (fuel : nat) (s : text) (i : nat) (array : list json) : option (list json * nat) :=
  match fuel with
  | O => None
  | S fuel =>
      if byte_at s i 93 then Some (array, S i)
      else
        v ← parseAny fuel s i;
        match v with
        | Err i => Some (array, i)
        | Ok (v, i) =>
            let i := skip_from s i in
            parseArr fuel s (if byte_at s i 44 then S i else i) (array ++ [v])
        end
  end.

(** Enough for every text, see [partial_terminates]. *)
Definition partial_fuel (s : text) : nat := (2 * length s + 2)%nat.

(** [partialJSONParse]: [None] when the fuel runs out, or the value if any. *)
Definition partialJSONParse (s : text) : option (option json) :=
  match trim_space s with
  | [] => Some None
  | trimmed => (fun x => match x with Ok (v, _) => Some v | Err _ => None end) <$> parseAny (partial_fuel trimmed) trimmed 0
  end.

(** [ParseStreamingJSON]: the writes to the object it returns. *)
Definition ParseStreamingJSON (partialJSON : text) : option (list (text * json)) :=
  match trim_space partialJSON with
  | [] => Some []
  | _ =>
      let repaired := RepairJSON partialJSON in
      let whole :=
        match decodeJSONValue partialJSON with
        | Some v => Some v
        | None => if decide (repaired = partialJSON) then None else decodeJSONValue repaired
        end in
      v ← match whole with
          | Some v => Some (Some v)
          | None =>
              v ← partialJSONParse partialJSON;
              match v with Some v => Some (Some v) | None => partialJSONParse repaired end
          end;
      Some (match v with Some (JObject l) => l | _ => [] end)
  end.
