(* ===== verification/JsonStrings.v ===== *)
(** * Strings cut short

    The beginning of a JSON string, as [parseStr] closes it, reads as the
    beginning of what the whole string reads as, but for the character that was
    cut in two. *)

From S2P Require Import Prelude GoText Json JsonRepair.
From Stdlib Require Import Ascii SpecFloat.

(** ** Fuel *)

Lemma spelled_nonempty r c x : spelled r c x -> c <> [].
Proof. by destruct 1. Qed.

Lemma unit_shorter s x r : unit s = Some (x, r) -> (length r < length s)%nat.
Proof.
  intros H. apply unit_spelled in H as (c & -> & Hs). apply spelled_nonempty in Hs. rewrite length_app. destruct c; [done|cbn; lia].
Qed.

Lemma string_body_fuel f g s : (length s <= f)%nat -> (length s <= g)%nat -> string_body f s = string_body g s.
Proof.
  revert g s. induction f as [|f IH]; intros g s Hf Hg; [by destruct s, g; cbn in *; try lia|].
  destruct s as [|c s]; [by destruct g|]. destruct g as [|g]; [cbn in *; lia|]. cbn [string_body].
  destruct (code c =? 34); [done|]. destruct (unit (c :: s)) as [[x r]|] eqn:E; [|done]. apply unit_shorter in E. cbn in *.
  rewrite (IH g r) by lia. done.
Qed.

(** [s], closed, reads as [x]. *)
Definition reads (s x : text) : Prop := string_body (length s) s = Some (x, []).

Definition opens (s : text) : Prop := match s with c :: _ => code c <> 34 | [] => False end.

Lemma string_body_unit s x r : opens s -> unit s = Some (x, r) ->
  string_body (length s) s = '(l, r') ← string_body (length r) r; Some (x ++ l, r').
Proof.
  destruct s as [|c s]; [done|]. intros Ho E. cbn [length string_body]. cbn in Ho. rewrite (proj2 (Z.eqb_neq _ _) Ho), E. cbn.
  apply unit_shorter in E. cbn in E. by rewrite (string_body_fuel (length s) (length r) r) by lia.
Qed.

Lemma reads_quote q : is_quote q -> reads [q] [].
Proof. unfold is_quote, reads. intros E. cbn. by rewrite E. Qed.

Lemma reads_unit s x r y : opens s -> unit s = Some (x, r) -> reads r y -> reads s (x ++ y).
Proof. intros Ho Hu Hr. unfold reads. rewrite (string_body_unit _ _ _ Ho Hu), Hr. done. Qed.

(** ** What follows a character *)

(** [r'] may follow where [r] did. *)
Definition follows (r r' : text) : Prop :=
  (low_surrogate r = None -> low_surrogate r' = None) /\
  forall c, 128 <= code c -> decode_rune (c :: r) = (rune_error, 1%nat) -> decode_rune (c :: r') = (rune_error, 1%nat).

Lemma unit_follows r c x r' : spelled r c x -> follows r r' -> unit (c ++ r') = Some (x, r').
Proof.
  intros Hs [Hl Hd]. unfold unit. destruct Hs as [c H1 H2|b d x Hb Hx Hs|b d h u Hb Hx Hlen Hh Hlow|b d h u b' d' h' v Hb Hx Hlen Hh Hu Hb' Hx' Hlen' Hh' Hv|c Hc He|c a z Hc _ _ _ Hany]; cbn [app].
  - rewrite (proj2 (Z.eqb_neq _ _) H1), (proj2 (Z.ltb_ge _ _)) by lia. unfold decode_rune.
    rewrite (proj2 (Z.ltb_lt _ _)) by lia. cbn. by rewrite encode_ascii by lia.
  - rewrite Hb, (proj2 (Z.eqb_neq _ _) Hx), Hs. done.
  - rewrite Hb, Hx. cbn. rewrite (hex4_app h u r') by done. cbn. unfold escaped_rune.
    destruct (in_range 0xD800 0xDFFF u) eqn:Eu; [|done]. destruct (in_range 0xD800 0xDBFF u) eqn:Eh.
    + by rewrite Hl by by apply Hlow.
    + destruct (low_surrogate r') as [[w t]|]; [|done]. destruct (Z.ltb_spec u 0xDC00); [|done].
      unfold in_range in *. rewrite andb_true_iff, !Z.leb_le in Eu. rewrite andb_false_iff, !Z.leb_gt in Eh. lia.
  - rewrite Hb, Hx. cbn. rewrite <- app_assoc. rewrite (hex4_app h u) by done. cbn. unfold escaped_rune, low_surrogate. cbn.
    rewrite Hb', Hx'. cbn. rewrite (hex4_app h' v) by done. cbn. rewrite Hv. unfold in_range in Hu. rewrite andb_true_iff, !Z.leb_le in Hu.
    unfold in_range at 1. rewrite (proj2 (Z.leb_le _ _)), (proj2 (Z.leb_le u _)) by lia. cbn. by rewrite (proj2 (Z.ltb_lt _ _)) by lia.
  - rewrite (proj2 (Z.eqb_neq _ _)), (proj2 (Z.ltb_ge _ _)) by lia. by rewrite Hd.
  - rewrite (proj2 (Z.eqb_neq _ _)), (proj2 (Z.ltb_ge _ _)) by lia. rewrite Hany. cbn. by rewrite drop_app_length.
Qed.

Lemma hex_quote q : is_quote q -> hex_digit q = None.
Proof. unfold is_quote, hex_digit. by intros ->. Qed.

Lemma hex4_short h q : (length h < 4)%nat -> is_quote q -> hex4 (h ++ [q]) = None.
Proof.
  intros Hl Hq. destruct h as [|a [|b [|c [|]]]]; cbn in *; try done; try lia. rewrite (hex_quote q Hq).
  by destruct (hex_digit a), (hex_digit b), (hex_digit c).
Qed.

Lemma low_surrogate_cut r r0 q : low_surrogate r = None -> r0 `prefix_of` r -> is_quote q -> low_surrogate (r0 ++ [q]) = None.
Proof.
  intros H [r1 ->] Hq. unfold low_surrogate in *. destruct r0 as [|b [|d t]]; cbn in *; try done.
  { rewrite Hq. by destruct (code b =? 92). }
  destruct ((code b =? 92) && (code d =? 117)); [|done]. destruct (decide (length t < 4)%nat) as [Hl|Hl].
  - by rewrite (hex4_short t q).
  - destruct (hex4 (t ++ [q])) as [[u r]|] eqn:E; [|done]. apply hex4_spec in E as (h & Eh & Hlen & Hh).
    destruct (cut_app _ _ _ _ (eq_sym Eh)) as (e & -> & _); [lia|]. rewrite <- app_assoc, (hex4_app h u) in H by done. cbn in *.
    by destruct (in_range _ _ u).
Qed.

Lemma follows_cut r r0 q : r0 `prefix_of` r -> is_quote q -> follows r (r0 ++ [q]).
Proof.
  intros Hp Hq. split; [intros H; by eapply low_surrogate_cut|]. intros c Hc H. eapply decode_rune_cut; eauto.
Qed.

(** ** Where a string ends *)

Lemma string_end_app c r i prev :
  Forall (fun x => code x <> 34 /\ code x <> 92) c ->
  exists p, string_end (c ++ r) i false prev = string_end r (i + length c) false p.
Proof.
  intros H. revert i prev. induction H as [|x c [Hq Hb] _ IH]; intros i prev; [exists prev; by rewrite Nat.add_0_r|].
  cbn [app string_end]. rewrite (proj2 (Z.eqb_neq _ _) Hq), (proj2 (Z.eqb_neq _ _) Hb). cbn.
  destruct (IH (S i) (Some x)) as [p ->]. exists p. f_equal. cbn. lia.
Qed.

Lemma string_end_escape b d c r i prev :
  code b = 92 -> Forall (fun x => code x <> 34 /\ code x <> 92) c ->
  exists p, string_end (b :: d :: c ++ r) i false prev = string_end r (i + S (S (length c))) false p.
Proof.
  intros Hb Hc. cbn [string_end]. rewrite !Hb. cbn. rewrite orb_true_r, andb_false_r.
  destruct (string_end_app c r (S (S i)) (Some d) Hc) as [p ->]. exists p. f_equal. lia.
Qed.

Lemma hex_plain h u : hex4 h = Some (u, []) -> Forall (fun x => code x <> 34 /\ code x <> 92) h.
Proof.
  intros H. assert (forall c z, hex_digit c = Some z -> code c <> 34 /\ code c <> 92) as Hc.
  { intros c z. unfold hex_digit, in_range. destruct (Z.eqb_spec (code c) 34) as [->|]; [done|].
    by destruct (Z.eqb_spec (code c) 92) as [->|]. }
  destruct h as [|a [|b [|c [|d h]]]]; try done. cbn in H.
  destruct (hex_digit a) eqn:E1, (hex_digit b) eqn:E2, (hex_digit c) eqn:E3, (hex_digit d) eqn:E4; try done. cbn in H. injection H as _ ->.
  repeat constructor; by eapply Hc.
Qed.

Lemma cont_plain a : Forall (fun x => cont x = true) a -> Forall (fun x => code x <> 34 /\ code x <> 92) a.
Proof. intros H. eapply Forall_impl; [exact H|]. intros x. unfold cont, in_range. rewrite andb_true_iff, !Z.leb_le. lia. Qed.

Lemma string_end_unit r c x t i prev :
  spelled r c x -> opens c -> exists p, string_end (c ++ t) i false prev = string_end t (i + length c) false p.
Proof.
  intros Hs Ho. destruct Hs as [c H1 H2|b d x Hb Hx Hs|b d h u Hb Hx Hlen Hh Hlow|b d h u b' d' h' v Hb Hx Hlen Hh Hu Hb' Hx' Hlen' Hh' Hv|c Hc He|c a z Hc _ Ha _ Hany].
  - apply string_end_app. repeat constructor; done.
  - apply (string_end_escape b d [] t i prev Hb). constructor.
  - apply (string_end_escape b d h t i prev Hb). by eapply hex_plain.
  - cbn [app]. rewrite <- app_assoc. destruct (string_end_escape b d h ((b' :: d' :: h') ++ t) i prev Hb) as [p ->]; [by eapply hex_plain|].
    destruct (string_end_escape b' d' h' t (i + S (S (length h))) p Hb') as [p' E]; [by eapply hex_plain|]. exists p'. cbn [app]. rewrite E. f_equal.
    cbn. rewrite length_app. cbn. lia.
  - apply string_end_app. repeat constructor; lia.
  - apply string_end_app. constructor; [lia|]. by apply cont_plain.
Qed.

(** ** Beginnings of strings *)

(** Characters that a cut leaves as U+FFFD. *)
Definition broken (n : nat) : text := concat (replicate n (encode_rune rune_error)).

(** [y] is a beginning of [x], up to a broken character. *)
Definition text_grows (y x : text) : Prop := exists a n, y = a ++ broken n /\ (n <= 3)%nat /\ a `prefix_of` x.

(** How [parseStr] finds the beginning [t] of a string; [escape] tells whether
    its loop ends in an escape.  Closed, it reads as a [y] with [P y]: as it
    is, without its last byte, or up to its last backslash. *)
Inductive cut_reads (P : text -> Prop) (t : text) : bool -> Prop :=
| cut_plain y : P y -> (forall q, is_quote q -> reads (t ++ [q]) y) -> cut_reads P t false
| cut_escape a b y : P y -> t = a ++ [b] -> code b = 92 -> (forall q, is_quote q -> reads (a ++ [q]) y) -> cut_reads P t true
| cut_hex a b v y : P y -> t = a ++ b :: v -> code b = 92 -> Forall (fun x => code x <> 92) v ->
    (forall q, is_quote q -> string_body (length (t ++ [q])) (t ++ [q]) = None) ->
    (forall q, is_quote q -> reads (a ++ [q]) y) -> cut_reads P t false.

(** Behind a character that was not cut. *)
Lemma cut_reads_app (P Q : text -> Prop) r c x t escape :
  spelled r c x -> opens c -> t `prefix_of` r -> (forall y, P y -> Q (x ++ y)) -> cut_reads P t escape -> cut_reads Q (c ++ t) escape.
Proof.
  intros Hs Ho Hp HPQ H.
  assert (forall a, opens (c ++ a)) as Hopen by by destruct c.
  assert (forall a q, a `prefix_of` r -> is_quote q -> unit (c ++ a ++ [q]) = Some (x, a ++ [q])) as Hunit
    by (intros a q Ha Hq; eapply unit_follows; [done|by apply follows_cut]).
  assert (forall a q y, a `prefix_of` r -> is_quote q -> reads (a ++ [q]) y -> reads (c ++ a ++ [q]) (x ++ y)) as Hreads
    by (intros a q y Ha Hq Hr; eapply reads_unit; [done|by apply Hunit|done]).
  destruct H as [y Hy Hr|a b y Hy -> Hb Hr|a b v y Hy -> Hb Hv Hn Hr].
  - apply (cut_plain _ _ (x ++ y)); [by apply HPQ|]. intros q Hq. rewrite <- app_assoc. by apply Hreads, Hr.
  - rewrite app_assoc. apply (cut_escape _ _ (c ++ a) b (x ++ y)); [by apply HPQ|done|done|]. intros q Hq. rewrite <- app_assoc.
    apply Hreads; [|done|by apply Hr]. etrans; [|exact Hp]. by eexists.
  - rewrite app_assoc. apply (cut_hex _ _ (c ++ a) b v (x ++ y)); [by apply HPQ|done|done|done| |].
    + intros q Hq. rewrite <- !app_assoc. rewrite (string_body_unit _ x ((a ++ b :: v) ++ [q])); [|done|].
      * by rewrite Hn.
      * rewrite (app_assoc a). by apply Hunit.
    + intros q Hq. rewrite <- app_assoc. apply Hreads; [|done|by apply Hr]. etrans; [|exact Hp]. by eexists.
Qed.

Lemma cut_reads_impl (P Q : text -> Prop) t escape : (forall y, P y -> Q y) -> cut_reads P t escape -> cut_reads Q t escape.
Proof. intros HPQ [y Hy Hr|a b y Hy Ht Hb Hr|a b v y Hy Ht Hb Hv Hn Hr]; [eapply cut_plain|eapply cut_escape|eapply cut_hex]; eauto. Qed.

(** The beginning of an escape: nothing of it is left. *)
Lemma cut_hex_escape b d h : code b = 92 -> code d = 117 -> (length h < 4)%nat -> Forall (fun x => code x <> 34 /\ code x <> 92) h ->
  cut_reads (fun y => y = []) (b :: d :: h) false.
Proof.
  intros Hb Hd Hl Hh. apply (cut_hex _ _ [] b (d :: h) []); [done|done|done| | |].
  - constructor; [lia|]. eapply Forall_impl; [exact Hh|]. by intros x [_ ?].
  - intros q Hq. cbn [app length string_body]. rewrite Hb. unfold unit. rewrite Hb, Hd. cbn. by rewrite (hex4_short h q).
  - intros q Hq. by apply reads_quote.
Qed.

Lemma cut_conts a : (length a <= 3)%nat -> Forall (fun x => cont x = true) a -> forall q, is_quote q -> reads (a ++ [q]) (broken (length a)).
Proof.
  intros _ H q Hq. induction H as [|x a Hx _ IH]; [by apply reads_quote|]. cbn [app length broken replicate concat].
  unfold cont, in_range in Hx. assert (128 <= code x) as Hc by (rewrite andb_true_iff, !Z.leb_le in Hx; lia).
  eapply (reads_unit _ _ (a ++ [q])); [cbn; lia| |done]. unfold unit.
  rewrite (proj2 (Z.eqb_neq _ _)), (proj2 (Z.ltb_ge _ _)) by lia. by rewrite decode_rune_cont.
Qed.

(** A proper beginning of one character. *)
Lemma cut_unit r c x t1 t2 i prev :
  spelled r c x -> opens c -> c = t1 ++ t2 -> t1 <> [] -> t2 <> [] ->
  exists escape, string_end t1 i false prev = ((i + length t1)%nat, escape) /\ cut_reads (fun y => exists n, y = broken n /\ (n <= 3)%nat) t1 escape.
Proof.
  intros Hs Ho E H1 H2.
  assert (forall b d h (u : Z), code b = 92 -> code d = 117 -> length h = 4%nat -> hex4 h = Some (u, []) ->
    forall t t', b :: d :: h = t ++ t' -> t <> [] -> t' <> [] -> forall i prev,
      exists escape, string_end t i false prev = ((i + length t)%nat, escape) /\ cut_reads (fun y => y = []) t escape) as Hescape.
  { intros b d h u Hb Hd Hl Hh t t' Et Ht Ht' i0 prev0. apply hex_plain in Hh. destruct t as [|b' [|d' t]]; [done| |].
    - injection Et as <- Et. exists true. split; [cbn; rewrite Hb; cbn; by rewrite Nat.add_1_r|]. apply (cut_escape _ _ [] b []); try done. intros. by apply reads_quote.
    - injection Et as <- <- ->. apply Forall_app in Hh as [Hh _]. exists false. rewrite length_app in Hl.
      split; [|apply cut_hex_escape; try done; destruct t'; [done|cbn in Hl; lia]].
      destruct (string_end_escape b d t [] i0 prev0 Hb Hh) as [p Ep]. rewrite app_nil_r in Ep. rewrite Ep. cbn. f_equal. }
  destruct Hs as [c Hc1 Hc2|b d x Hb Hx Hs|b d h u Hb Hx Hlen Hh Hlow|b d h u b' d' h' v Hb Hx Hlen Hh Hu Hb' Hx' Hlen' Hh' Hv|c Hc He|c a z Hc Hla Ha _ Hany].
  - destruct t1 as [|? [|]], t2; done.
  - destruct t1 as [|b1 [|d1 [|]]]; [done| |by destruct t2|done]. injection E as <- E.
    exists true. split; [cbn; rewrite Hb; cbn; by rewrite Nat.add_1_r|]. apply (cut_escape _ _ [] b []); try done; [|intros; by apply reads_quote].
    exists O. split; [done|lia].
  - destruct (Hescape b d h u Hb Hx Hlen Hh t1 t2 E H1 H2 i prev) as (escape & Ee & Hr). exists escape. split; [done|].
    eapply cut_reads_impl; [|exact Hr]. intros y ->. exists O. split; [done|lia].
  - assert ((b :: d :: h) ++ (b' :: d' :: h') = t1 ++ t2) as E' by by cbn.
    destruct (decide (length t1 < length (b :: d :: h))%nat) as [Hl|Hl].
    + destruct (cut_app _ _ _ _ (eq_sym E')) as (e & Et & Ee); [lia|].
      assert (e <> []) by (intros ->; rewrite app_nil_r in Et; rewrite Et in Hl; lia).
      destruct (Hescape b d h u Hb Hx Hlen Hh t1 e Et H1 ltac:(done) i prev) as (escape & Es & Hr). exists escape. split; [done|].
      eapply cut_reads_impl; [|exact Hr]. intros y ->. exists O. split; [done|lia].
    + destruct (cut_app _ _ _ _ E') as (e & -> & Et); [lia|].
      assert (spelled e (b :: d :: h) (encode_rune rune_error)) as Hspell.
      { assert (in_range 0xD800 0xDFFF u = true) as Eu by (unfold in_range in *; rewrite andb_true_iff, !Z.leb_le in *; lia).
        pose proof (sp_hex e b d h u Hb Hx Hlen Hh) as Hs. rewrite Eu in Hs. apply Hs. intros _.
        unfold low_surrogate. destruct e as [|b1 [|d1 e]]; try done. destruct ((code b1 =? 92) && (code d1 =? 117)); [|done].
        destruct (hex4 e) as [[w f]|] eqn:Ew; [|done]. apply hex4_spec in Ew as (h1 & -> & Hl1 & _). exfalso. injection Et as -> -> Et.
        apply (f_equal length) in Et. rewrite !length_app in Et. destruct t2; [done|cbn in Et; lia]. }
      destruct e as [|b1 e].
      * rewrite app_nil_r. destruct (string_end_unit [] (b :: d :: h) _ [] i prev Hspell) as [p Ep]; [cbn; lia|]. rewrite app_nil_r in Ep.
        exists false. rewrite Ep. split; [done|]. apply (cut_plain _ _ (broken 1)); [exists 1%nat; split; [done|lia]|]. intros q Hq.
        eapply (reads_unit _ _ [q] []); [cbn; lia| |by apply reads_quote].
        eapply unit_follows; [exact Hspell|]. by apply (follows_cut [] [] q).
      * destruct (string_end_unit _ (b :: d :: h) _ (b1 :: e) i prev Hspell) as [p Ep]; [cbn; lia|].
        destruct (Hescape b' d' h' v Hb' Hx' Hlen' Hh' (b1 :: e) t2 Et ltac:(done) H2 (i + length (b :: d :: h))%nat p) as (escape & Es & Hr).
        exists escape. rewrite Ep, Es. split; [f_equal; rewrite length_app; lia|].
        eapply (cut_reads_app _ _ (b1 :: e)); [exact Hspell|cbn; lia|done| |exact Hr]. intros y ->. exists 1%nat. split; [done|lia].
  - destruct t1 as [|? [|]], t2; done.
  - destruct t1 as [|c1 t1]; [done|]. injection E as <- ->. apply Forall_app in Ha as [Ha _]. rewrite length_app in Hla.
    assert (length t2 <> 0)%nat by by destruct t2. exists false. split.
    + destruct (string_end_app (c :: t1) [] i prev) as [p Ep]; [constructor; [lia|by apply cont_plain]|]. rewrite app_nil_r in Ep. by rewrite Ep.
    + apply (cut_plain _ _ (broken (S (length t1)))); [exists (S (length t1)); split; [done|lia]|]. intros q Hq.
      change (broken (S (length t1))) with (encode_rune rune_error ++ broken (length t1)).
      eapply (reads_unit _ _ (t1 ++ [q])); [cbn; lia| |apply cut_conts; [lia|done|done]].
      unfold unit. cbn [app]. rewrite (proj2 (Z.eqb_neq _ _)), (proj2 (Z.ltb_ge _ _)) by lia.
      rewrite (decode_rune_cut c (t1 ++ t2) z (S (length (t1 ++ t2))) t1 q); [done| |done|by eexists|rewrite length_app; lia|done].
      pose proof (Hany []) as E. by rewrite app_nil_r in E.
Qed.

(** ** Whole strings and their beginnings *)

(** The closing quote is found, and the string reads on its own. *)
Lemma string_whole f s x r :
  string_body f s = Some (x, r) -> exists c q, s = c ++ q :: r /\ is_quote q /\ reads (c ++ [q]) x /\
    forall t i prev, string_end (c ++ q :: t) i false prev = ((i + length c)%nat, false).
Proof.
  revert s x. induction f as [|f IH]; intros s x H; [done|]. destruct s as [|b s]; [done|]. cbn [string_body] in H.
  destruct (Z.eqb_spec (code b) 34) as [Hb|Hb].
  - injection H as <- <-. exists [], b. split_and!; [done|done|by apply reads_quote|]. intros t i prev. cbn. rewrite Hb. cbn.
    by rewrite Nat.add_0_r.
  - destruct (unit (b :: s)) as [[y s']|] eqn:Eu; [|done]. cbn in H. destruct (string_body f s') as [[l r']|] eqn:Es; [|done].
    cbn in H. injection H as <- ->. destruct (IH _ _ Es) as (c & q & -> & Hq & Hr & Hend). pose proof Eu as Eu'.
    apply unit_spelled in Eu as (c0 & Ec & Hs). assert (opens c0) as Ho by (destruct c0; [by apply spelled_nonempty in Hs|by injection Ec as <- _]).
    exists (c0 ++ c), q. split_and!; [by rewrite Ec, <- app_assoc|done| |].
    + rewrite <- app_assoc. eapply reads_unit; [by destruct c0| |exact Hr]. eapply unit_follows; [exact Hs|]. apply follows_cut; [by eexists|done].
    + intros t i prev. rewrite <- app_assoc. destruct (string_end_unit _ c0 _ (c ++ q :: t) i prev Hs Ho) as [p ->]. rewrite Hend, length_app. f_equal. lia.
Qed.

Lemma text_grows_app x y z : text_grows y z -> text_grows (x ++ y) (x ++ z).
Proof. intros (a & n & -> & Hn & [b ->]). exists (x ++ a), n. split_and!; [by rewrite app_assoc|done|]. exists b. by rewrite app_assoc. Qed.

Lemma string_cut f c q r x t i prev :
  string_body f (c ++ q :: r) = Some (x, r) -> is_quote q -> t `prefix_of` c ->
  exists escape, string_end t i false prev = ((i + length t)%nat, escape) /\ cut_reads (fun y => text_grows y x) t escape.
Proof.
  revert c x t i prev. induction f as [|f IH]; intros c x t i prev H Hq Ht; [done|].
  assert (forall i, exists escape, string_end [] i false prev = ((i + 0)%nat, escape) /\ cut_reads (fun y => text_grows y x) [] escape) as Hnil.
  { intros i0. exists false. split; [cbn; by rewrite Nat.add_0_r|]. apply (cut_plain _ _ []); [|intros; by apply reads_quote].
    exists [], O. split_and!; [done|lia|apply prefix_nil]. }
  destruct c as [|b c]; [apply prefix_nil_inv in Ht as ->; apply Hnil|]. destruct t as [|b' t]; [apply Hnil|].
  cbn [app string_body] in H. destruct (Z.eqb_spec (code b) 34) as [Hb|Hb].
  { exfalso. injection H as _ H. apply (f_equal length) in H. rewrite length_app in H. cbn in H. lia. }
  destruct (unit (b :: c ++ q :: r)) as [[y s']|] eqn:Eu; [|done]. cbn in H. destruct (string_body f s') as [[l r']|] eqn:Es; [|done].
  cbn in H. injection H as <- ->. apply unit_spelled in Eu as (c0 & Ec & Hs).
  assert (opens c0) as Ho by (destruct c0; [by apply spelled_nonempty in Hs|by injection Ec as <- _]).
  destruct (string_whole _ _ _ _ Es) as (c1 & q1 & -> & Hq1 & _ & _).
  assert (b :: c = c0 ++ c1 /\ q = q1) as [E ->].
  { rewrite app_comm_cons in Ec. rewrite app_assoc in Ec. apply app_inj_2 in Ec as [E [= E']]; [done|]. cbn. lia. }
  destruct Ht as [t' Et]. rewrite E in Et. set (t0 := b' :: t) in *. assert (t0 <> []) as Hne by done. clearbody t0. clear E Ec.
  destruct (decide (length t0 < length c0)%nat) as [Hl|Hl].
  - destruct (cut_app _ _ _ _ (eq_sym Et)) as (e & Ec & _); [lia|].
    destruct (cut_unit _ _ _ t0 e i prev Hs Ho Ec Hne) as (escape & Es' & Hr).
    { intros ->. rewrite app_nil_r in Ec. subst. lia. }
    exists escape. split; [done|]. eapply cut_reads_impl; [|exact Hr]. intros z (n & -> & Hn). exists [], n. split_and!; [done|done|apply prefix_nil].
  - destruct (cut_app _ _ _ _ Et) as (e & -> & Ee); [lia|].
    destruct (string_end_unit _ _ _ e i prev Hs Ho) as [p Ep].
    destruct (IH c1 l e (i + length c0)%nat p Es Hq) as (escape & Es' & Hr); [by exists t'|].
    exists escape. rewrite Ep, Es'. split; [f_equal; rewrite length_app; lia|].
    eapply cut_reads_app; [exact Hs|done| | |exact Hr]; [exists (t' ++ q1 :: r); by rewrite Ee, <- app_assoc|]. intros z. apply text_grows_app.
Qed.
