(* ===== verification/JsonRepairProps.v ===== *)
(** * What repairing keeps and what it makes readable

    Text that is JSON is left alone, and a string written with raw control
    characters reads as what was meant. *)

From S2P Require Import Prelude GoText Json JsonRepair JsonStrings.
From Stdlib Require Import Ascii SpecFloat.

(** ** Passing over text *)

(** Outside strings, [c] is copied and leaves the loop outside strings. *)
Definition passes (c : text) : Prop := forall t, repair 0 false (c ++ t) = c ++ repair 0 false t.

Lemma passes_app a b : passes a -> passes b -> passes (a ++ b).
Proof. intros Ha Hb t. by rewrite <- !app_assoc, Ha, Hb. Qed.

Lemma passes_plain c : Forall (fun x => code x <> 34) c -> passes c.
Proof.
  induction 1 as [|x c Hx _ IH]; intros t; [done|]. cbn. rewrite (proj2 (Z.eqb_neq _ _) Hx). by rewrite IH.
Qed.

Lemma hex_valid c z : hex_digit c = Some z -> isHexDigit c = true.
Proof.
  unfold hex_digit, isHexDigit. destruct (in_range 48 57 (code c)); [done|]. destruct (in_range 97 102 (code c)); [done|].
  by destruct (in_range 65 70 (code c)).
Qed.

Lemma backslash_eq b : code b = 92 -> b = backslash.
Proof. intros H. by rewrite <- (code_byte b), H. Qed.

Lemma repair_copy c t inString : repair (length c) inString (c ++ t) = c ++ repair 0 inString t.
Proof. induction c as [|x c IH]; cbn; [by destruct t|by rewrite IH]. Qed.

Lemma repair_escape b d h t u : code b = 92 -> code d = 117 -> hex4 h = Some (u, []) ->
  repair 0 true (b :: d :: h ++ t) = b :: d :: h ++ repair 0 true t.
Proof.
  intros Hb Hd Hh. pose proof (repair_copy (d :: h) t true) as Hc.
  assert (length h = 4%nat /\ hex_ahead (h ++ t) = true) as [Hl Ha].
  { destruct h as [|h1 [|h2 [|h3 [|h4 h]]]]; try done. cbn in Hh.
    destruct (hex_digit h1) eqn:E1, (hex_digit h2) eqn:E2, (hex_digit h3) eqn:E3, (hex_digit h4) eqn:E4; try done. cbn in Hh. injection Hh as _ ->.
    cbn. by rewrite (hex_valid _ _ E1), (hex_valid _ _ E2), (hex_valid _ _ E3), (hex_valid _ _ E4). }
  cbn [length] in Hc. rewrite Hl in Hc. cbn [repair negb app] in *. rewrite Hb, Hd, Ha. cbn [Z.eqb Pos.eqb andb].
  by rewrite Hc.
Qed.

Lemma repair_simple b d t : code b = 92 -> code d <> 117 -> is_Some (simple_escape d) -> repair 0 true (b :: d :: t) = b :: d :: repair 0 true t.
Proof.
  intros Hb Hd [x Hx]. assert (validJSONEscapes d = true) as Hv.
  { unfold simple_escape in Hx. unfold validJSONEscapes. cbn [existsb].
    destruct (code d =? 34), (code d =? 92), (code d =? 47), (code d =? 98), (code d =? 102), (code d =? 110), (code d =? 114), (code d =? 116); done. }
  cbn [repair negb]. rewrite Hb, (proj2 (Z.eqb_neq _ _) Hd), Hv. cbn [Z.eqb Pos.eqb andb]. by destruct t.
Qed.

Lemma repair_plain c t : Forall (fun x => code x <> 34 /\ code x <> 92 /\ 32 <= code x) c -> repair 0 true (c ++ t) = c ++ repair 0 true t.
Proof.
  induction 1 as [|x c (H1 & H2 & H3) _ IH]; [done|]. cbn.
  rewrite (proj2 (Z.eqb_neq _ _) H1), (proj2 (Z.eqb_neq _ _) H2), (proj2 (Z.leb_gt _ _)) by lia. by rewrite IH.
Qed.

Lemma repair_unit r c x t : spelled r c x -> opens c -> repair 0 true (c ++ t) = c ++ repair 0 true t.
Proof.
  intros Hs Ho. destruct Hs as [c H1 H2|b d x Hb Hx Hs|b d h u Hb Hx Hlen Hh Hlow|b d h u b' d' h' v Hb Hx Hlen Hh Hu Hb' Hx' Hlen' Hh' Hv|c Hc He|c a z Hc _ Ha _ Hany].
  - apply repair_plain. repeat constructor; [done|done|lia].
  - by apply repair_simple.
  - by eapply repair_escape.
  - cbn [app]. rewrite <- !app_assoc. rewrite (repair_escape b d h _ u) by done. cbn [app]. by rewrite (repair_escape b' d' h' _ v).
  - apply repair_plain. repeat constructor; lia.
  - apply repair_plain. constructor; [lia|]. eapply Forall_impl; [exact Ha|]. intros y. unfold cont, in_range.
    rewrite andb_true_iff, !Z.leb_le. lia.
Qed.

Lemma repair_string f c q r x t : string_body f (c ++ q :: r) = Some (x, r) -> is_quote q -> repair 0 true (c ++ q :: t) = c ++ q :: repair 0 false t.
Proof.
  revert c x. induction f as [|f IH]; intros c x H Hq; [done|].
  destruct c as [|b c]; [cbn; by rewrite Hq|]. cbn [app string_body] in H. destruct (Z.eqb_spec (code b) 34) as [Hb|Hb].
  { exfalso. injection H as _ H. apply (f_equal length) in H. rewrite length_app in H. cbn in H. lia. }
  destruct (unit (b :: c ++ q :: r)) as [[y s']|] eqn:Eu; [|done]. cbn in H. destruct (string_body f s') as [[l r']|] eqn:Es; [|done].
  cbn in H. injection H as <- ->. apply unit_spelled in Eu as (c0 & Ec & Hs).
  assert (opens c0) as Ho by (destruct c0; [by apply spelled_nonempty in Hs|by injection Ec as <- _]).
  destruct (string_whole _ _ _ _ Es) as (c1 & q1 & -> & Hq1 & _ & _).
  assert (b :: c = c0 ++ c1 /\ q = q1) as [-> ->].
  { rewrite app_comm_cons in Ec. rewrite app_assoc in Ec. apply app_inj_2 in Ec as [E [= E']]; [done|]. cbn. lia. }
  rewrite <- app_assoc. rewrite (repair_unit _ _ _ _ Hs Ho). rewrite (IH _ _ Es Hq). by rewrite app_assoc.
Qed.

(** ** Documents *)

Lemma next_byte_spec s z r : next_byte s = Some (z, r) ->
  exists b x, s = b ++ x :: r /\ Forall (fun y => is_blank y = true) b /\ is_blank x = false /\ code x = z /\ skip_blank s = x :: r.
Proof.
  unfold next_byte, skip_blank. rewrite drop_head_span. pose proof (span_spec is_blank s) as (E & Hb & Hs).
  destruct (span is_blank s) as [b [|x r']]; [done|]. cbn in *. intros [= <- <-]. by exists b, x.
Qed.

Lemma blank_code x : is_blank x = true -> code x <> 34.
Proof. unfold is_blank. by destruct (Z.eqb_spec (code x) 34) as [->|]. Qed.

Lemma passes_next s z r : next_byte s = Some (z, r) -> exists c, s = c ++ r /\ c <> [] /\ (z <> 34 -> passes c).
Proof.
  intros H. apply next_byte_spec in H as (b & x & -> & Hb & _ & <- & _). exists (b ++ [x]). split_and!; [by rewrite <- app_assoc|by destruct b|].
  intros Hx. apply passes_plain, Forall_app. split; [|by constructor]. eapply Forall_impl; [exact Hb|]. apply blank_code.
Qed.

(** Up to a quote and the string it opens. *)
Lemma passes_string s r f x r' : next_byte s = Some (34, r) -> string_body f r = Some (x, r') -> exists c, s = c ++ r' /\ c <> [] /\ passes c.
Proof.
  intros H Hs. apply next_byte_spec in H as (b & q & -> & Hb & _ & Hq & _). destruct (string_whole _ _ _ _ Hs) as (c & q' & -> & Hq' & _ & _).
  exists (b ++ (q :: c ++ [q'])). split_and!; [by rewrite <- app_assoc; cbn; rewrite <- app_assoc|by destruct b|].
  apply passes_app; [apply passes_plain; eapply Forall_impl; [exact Hb|]; apply blank_code|]. intros t. cbn. rewrite Hq. cbn.
  rewrite <- !app_assoc. cbn. by rewrite (repair_string _ _ _ _ _ t Hs Hq').
Qed.

Lemma number_byte_code x : is_number_byte x = true -> code x <> 34.
Proof. unfold is_number_byte, is_digit. by destruct (Z.eqb_spec (code x) 34) as [->|]. Qed.

(** What is consumed of a text: [s] is [c] and then [r]. *)
Definition consumed (s r : text) : Prop := exists c, s = c ++ r /\ c <> [] /\ passes c.

Lemma consumed_trans s r t : consumed s r -> consumed r t -> consumed s t.
Proof.
  intros (a & -> & Ha & Hp) (b & -> & _ & Hq). exists (a ++ b). split_and!; [by rewrite app_assoc|by destruct a|by apply passes_app].
Qed.

Lemma consumed_next s z r : next_byte s = Some (z, r) -> z <> 34 -> consumed s r.
Proof. intros H Hz. destruct (passes_next _ _ _ H) as (c & E & Hc & Hp). exists c. auto. Qed.

Section Consumed.
Context (blanks : bool).

Lemma document_consumed fuel :
  (forall depth s v r, document blanks fuel depth s = Some (v, r) -> consumed s r) /\
  (forall depth s l r, members blanks fuel depth s = Some (l, r) -> consumed s r) /\
  (forall depth s l r, elements blanks fuel depth s = Some (l, r) -> consumed s r).
Proof.
  induction fuel as [|fuel (IHd & IHm & IHe)]; [done|]. split_and!; intros depth s v r H; cbn [document members elements] in H.
  - destruct (next_byte s) as [[c r0]|] eqn:En; [|done]. cbn in H.
    destruct (Z.eqb_spec c 34) as [->|H34].
    { destruct (string_body _ r0) as [[x r1]|] eqn:Es; [|done]. cbn in H. injection H as <- <-.
      destruct (passes_string _ _ _ _ _ En Es) as (c & ? & ? & ?). by exists c. }
    apply (consumed_next _ _ _) in En as Hn; [|done].
    destruct (c =? 123).
    { destruct (maxNestingDepth <=? depth); [done|]. destruct (next_byte r0) as [[c1 r1]|] eqn:E1; [|done]. cbn in H.
      destruct (Z.eqb_spec c1 125) as [->|].
      - injection H as <- <-. eapply consumed_trans; [done|]. by eapply consumed_next.
      - destruct (members _ _ _ _) as [[l r2]|] eqn:Em; [|done]. cbn in H. injection H as <- <-. eapply consumed_trans; [done|]. by eapply IHm. }
    destruct (c =? 91).
    { destruct (maxNestingDepth <=? depth); [done|]. destruct (next_byte r0) as [[c1 r1]|] eqn:E1; [|done]. cbn in H.
      destruct (Z.eqb_spec c1 93) as [->|].
      - destruct (blanks || _); [|done]. injection H as <- <-. eapply consumed_trans; [done|]. by eapply consumed_next.
      - destruct (elements _ _ _ _) as [[l r2]|] eqn:Em; [|done]. cbn in H. injection H as <- <-. eapply consumed_trans; [done|]. by eapply IHe. }
    apply next_byte_spec in En as (b & x & -> & Hb & _ & Hx & Esk). rewrite Esk in H.
    assert (forall k r, x :: r0 = k ++ r -> k <> [] -> Forall (fun y => code y <> 34) k -> consumed (b ++ x :: r0) r) as Hplain.
    { intros k r' -> Hk Hq. exists (b ++ k). split_and!; [by rewrite app_assoc|by destruct b, k|]. apply passes_plain, Forall_app.
      split; [|done]. eapply Forall_impl; [exact Hb|]. apply blank_code. }
    apply scalar_spec in H as [[E _]|[[E _]|[[E _]|(g & Ef & _)]]]; [by eapply Hplain; [exact E| |repeat constructor]..|].
    apply number_spec in Ef as (k & Ek & Hk & Hnb & _). eapply Hplain; [done|done|]. eapply Forall_impl; [exact Hnb|]. apply number_byte_code.
  - destruct (next_byte s) as [[c r0]|] eqn:En; [|done]. cbn in H. destruct (Z.eqb_spec c 34) as [->|]; [|done].
    destruct (string_body _ r0) as [[x r1]|] eqn:Es; [|done]. cbn in H.
    destruct (next_byte r1) as [[c2 r2]|] eqn:E2; [|done]. cbn in H. destruct (Z.eqb_spec c2 58) as [->|]; [|done].
    destruct (document _ _ _ _) as [[w r3]|] eqn:Ed; [|done]. cbn in H. destruct (next_byte r3) as [[c4 r4]|] eqn:E4; [|done]. cbn in H.
    assert (consumed s r3) as Hc.
    { eapply consumed_trans; [destruct (passes_string _ _ _ _ _ En Es) as (c & ? & ? & ?); by exists c|].
      eapply consumed_trans; [by eapply consumed_next|]. by eapply IHd. }
    destruct (Z.eqb_spec c4 44) as [->|].
    + destruct (members _ _ _ _) as [[l r5]|] eqn:Em; [|done]. cbn in H. injection H as <- <-.
      eapply consumed_trans; [exact Hc|]. eapply consumed_trans; [by eapply consumed_next|]. by eapply IHm.
    + destruct (Z.eqb_spec c4 125) as [->|]; [|done]. injection H as <- <-. eapply consumed_trans; [exact Hc|]. by eapply consumed_next.
  - destruct (document _ _ _ _) as [[w r3]|] eqn:Ed; [|done]. cbn in H. destruct (next_byte r3) as [[c4 r4]|] eqn:E4; [|done]. cbn in H.
    apply IHd in Ed. destruct (Z.eqb_spec c4 44) as [->|].
    + destruct (elements _ _ _ _) as [[l r5]|] eqn:Em; [|done]. cbn in H. injection H as <- <-.
      eapply consumed_trans; [exact Ed|]. eapply consumed_trans; [by eapply consumed_next|]. by eapply IHe.
    + destruct (Z.eqb_spec c4 93) as [->|]; [|done]. injection H as <- <-. eapply consumed_trans; [exact Ed|]. by eapply consumed_next.
Qed.

Lemma whole_unrepaired s v : whole_document blanks s = Some v -> RepairJSON s = s.
Proof.
  unfold whole_document. destruct (document _ _ _ s) as [[w r]|] eqn:E; [|done]. cbn. intros H.
  apply (proj1 (document_consumed _)) in E as (c & -> & _ & Hp). unfold RepairJSON. rewrite Hp. f_equal.
  unfold skip_blank in H. rewrite drop_head_span in H. pose proof (span_spec is_blank r) as (E & Hb & _).
  destruct (span is_blank r) as [b [|]]; [|done]. cbn in *. rewrite app_nil_r in E. subst.
  rewrite <- (app_nil_r b) at 1. rewrite (passes_plain b); [by rewrite app_nil_r|]. eapply Forall_impl; [exact Hb|]. apply blank_code.
Qed.
End Consumed.

(** ** What is repaired *)

Lemma hex_plain_bytes c : isHexDigit c = true -> code c <> 34 /\ code c <> 92 /\ 32 <= code c.
Proof. unfold isHexDigit, in_range. rewrite !orb_true_iff, !andb_true_iff, !Z.leb_le. lia. Qed.

Lemma hex_ahead_app a b : hex_ahead a = true -> hex_ahead (a ++ b) = true.
Proof. by destruct a as [|? [|? [|? [|? a]]]]. Qed.

Lemma hex_ahead_take s : hex_ahead s = true -> Forall (fun c => isHexDigit c = true) (take 4 s).
Proof. destruct s as [|h1 [|h2 [|h3 [|h4 s]]]]; try done. cbn. rewrite !andb_true_iff. intros [[[H1 H2] H3] H4]. by repeat constructor. Qed.

(** Fewer than four of the digits of an escape. *)
Lemma hex_ahead_cut a b : hex_ahead (a ++ b) = true -> hex_ahead a = false -> repair 0 true a = a.
Proof.
  intros H Ha. assert (length a < 4)%nat as Hl.
  { destruct a as [|h1 [|h2 [|h3 [|h4 a]]]]; cbn in *; try lia. by rewrite H in Ha. }
  apply hex_ahead_take in H. rewrite take_app_ge in H by lia. apply Forall_app in H as [H _].
  rewrite <- (app_nil_r a) at 1. rewrite repair_plain; [by rewrite app_nil_r|]. eapply Forall_impl; [exact H|]. apply hex_plain_bytes.
Qed.

Lemma escape_head c : exists t, escapeControlChar c = backslash :: t.
Proof. unfold escapeControlChar. repeat case_match; by eexists. Qed.

(** A beginning of a text that needs no repair needs none, but for a last
    backslash. *)
Lemma repair_prefix copy inString s u :
  repair copy inString s = s -> u `prefix_of` s -> repair copy inString u = u \/ repair copy inString u = u ++ [backslash].
Proof.
  revert copy inString u. induction s as [|c r IH]; intros copy inString u H [t Et].
  { symmetry in Et. apply app_eq_nil in Et as [-> _]. by left. }
  destruct u as [|c' u]; [by left|]. injection Et as <- ->. cbn [repair] in H |- *.
  assert (forall copy inString, c :: repair copy inString (u ++ t) = c :: u ++ t ->
    c :: repair copy inString u = c :: u \/ c :: repair copy inString u = (c :: u) ++ [backslash]) as Hgo.
  { intros k b [= E]. destruct (IH k b u E) as [->| ->]; [by eexists|by left|by right]. }
  destruct copy as [|copy]; [|by apply Hgo]. destruct inString; cbn [negb] in *; [|by apply Hgo].
  destruct (code c =? 34); [by apply Hgo|]. destruct (Z.eqb_spec (code c) 92) as [Hc|].
  - apply backslash_eq in Hc as ->. destruct u as [|d u]; [by right|]. cbn [app] in *.
    destruct ((code d =? 117) && hex_ahead (u ++ t)) eqn:E.
    + destruct (hex_ahead u) eqn:Eu; [rewrite andb_true_iff in E; destruct E as [-> _]; by apply Hgo|].
      rewrite andb_false_r. apply andb_true_iff in E as [Ed Et]. left. assert (validJSONEscapes d = true) as ->.
      { unfold validJSONEscapes. apply Z.eqb_eq in Ed. by rewrite Ed. }
      cbn [repair]. by rewrite (hex_ahead_cut u t).
    + assert ((code d =? 117) && hex_ahead u = false) as ->.
      { destruct (code d =? 117); [|done]. cbn in *. destruct (hex_ahead u) eqn:Eu; [|done]. by rewrite (hex_ahead_app u t Eu) in E. }
      destruct (validJSONEscapes d) eqn:Ev; [by apply Hgo|]. by injection H as <- _.
  - destruct (code c <=? 31); [|by apply Hgo]. destruct (escape_head c) as [e Ee]. rewrite Ee in H. injection H as E _. by rewrite <- E in *.
Qed.

(** *** Control characters *)

Lemma follows_refl r : follows r r.
Proof. by split. Qed.

Lemma control_hex c : code c <= 31 -> hex4 [byte 48; byte 48; hex_char (code c / 16); hex_char (code c mod 16)] = Some (code c, []).
Proof.
  intros H. destruct c as [[] [] [] [] [] [] [] []]; first [exfalso; vm_compute in H; by apply H|vm_compute; reflexivity].
Qed.

Lemma control_spelled r c : code c <= 31 -> spelled r (escapeControlChar c) [c].
Proof.
  intros H. unfold escapeControlChar.
  assert (forall z, code c = z -> c = byte z) as Hc by (intros z <-; by rewrite code_byte).
  destruct (Z.eqb_spec (code c) 8) as [E|_]; [rewrite (Hc _ E); by apply (sp_simple r backslash)|].
  destruct (Z.eqb_spec (code c) 12) as [E|_]; [rewrite (Hc _ E); by apply (sp_simple r backslash)|].
  destruct (Z.eqb_spec (code c) 10) as [E|_]; [rewrite (Hc _ E); by apply (sp_simple r backslash)|].
  destruct (Z.eqb_spec (code c) 13) as [E|_]; [rewrite (Hc _ E); by apply (sp_simple r backslash)|].
  destruct (Z.eqb_spec (code c) 9) as [E|_]; [rewrite (Hc _ E); by apply (sp_simple r backslash)|].
  rewrite <- (encode_ascii c) by lia. pose proof (code_bound c).
  assert (in_range 0xD800 0xDFFF (code c) = false) as Er by (unfold in_range; apply andb_false_iff; left; apply Z.leb_gt; lia).
  pose proof (sp_hex r backslash (byte 117) [_; _; _; _] _ eq_refl eq_refl eq_refl (control_hex c H)) as Hs. rewrite Er in Hs. apply Hs.
  unfold in_range. rewrite (proj2 (Z.leb_gt _ _)) by lia. done.
Qed.

Lemma repair_control c t : code c <= 31 -> repair 0 true (escapeControlChar c ++ t) = escapeControlChar c ++ repair 0 true t.
Proof.
  intros H. eapply (repair_unit []); [by apply control_spelled|]. destruct (escape_head c) as [e ->]. cbn. discriminate.
Qed.

(** A plain byte of the output was one of the input. *)
Lemma repair_head s h o : repair 0 true s = h :: o -> isHexDigit h = true -> exists r, s = h :: r /\ o = repair 0 true r.
Proof.
  intros H Hh. apply hex_plain_bytes in Hh as (H1 & H2 & _). destruct s as [|c r]; [done|]. cbn [repair negb] in H.
  destruct (Z.eqb_spec (code c) 34); [by injection H as -> _|]. destruct (Z.eqb_spec (code c) 92).
  { exfalso. destruct r as [|d r]; [by injection H as <- _|]. repeat case_match; injection H as <- _; done. }
  destruct (code c <=? 31); [|injection H as -> <-; by exists r]. destruct (escape_head c) as [e Ee]. rewrite Ee in H. by injection H as <- _.
Qed.

Lemma hex_ahead_repair s : hex_ahead (repair 0 true s) = true -> hex_ahead s = true.
Proof.
  intros H. destruct (repair 0 true s) as [|h1 [|h2 [|h3 [|h4 o]]]] eqn:E; try done. cbn in H. rewrite !andb_true_iff in H.
  destruct H as [[[H1 H2] H3] H4]. destruct (repair_head _ _ _ E H1) as (s1 & -> & E1). destruct (repair_head _ _ _ (eq_sym E1) H2) as (s2 & -> & E2).
  destruct (repair_head _ _ _ (eq_sym E2) H3) as (s3 & -> & E3). destruct (repair_head _ _ _ (eq_sym E3) H4) as (s4 & -> & _).
  cbn. by rewrite H1, H2, H3, H4.
Qed.

Lemma repair_idempotent copy inString s : repair copy inString (repair copy inString s) = repair copy inString s.
Proof.
  revert copy inString. induction s as [|c r IH]; intros copy inString; [done|]. cbn [repair].
  destruct copy as [|copy]; [|by cbn [repair]; rewrite IH]. destruct inString; cbn [negb]; [|cbn [repair negb]; by rewrite IH].
  destruct (Z.eqb_spec (code c) 34) as [Hq|Hq]; [cbn [repair negb]; rewrite Hq; cbn [Z.eqb Pos.eqb]; by rewrite IH|].
  destruct (Z.eqb_spec (code c) 92) as [Hb|Hb].
  - apply backslash_eq in Hb as ->. destruct r as [|d r]; [done|].
    assert (forall k o, repair k true (d :: r) = d :: o -> (code d =? 117) && hex_ahead o = (code d =? 117) && hex_ahead r ->
      forall b, repair 0 true (backslash :: repair k true (d :: r)) = b ->
      b = (if (code d =? 117) && hex_ahead r then backslash :: repair 5 true (repair k true (d :: r))
           else if validJSONEscapes d then backslash :: repair 1 true (repair k true (d :: r))
           else backslash :: backslash :: repair 0 true (repair k true (d :: r)))) as Hstep.
    { intros k o E Ea b <-. rewrite E. cbn [repair negb]. by rewrite Ea. }
    destruct ((code d =? 117) && hex_ahead r) eqn:E.
    + destruct r as [|h1 [|h2 [|h3 [|h4 r]]]]; try (by rewrite andb_false_r in E).
      etrans; [eapply (Hstep 5%nat (h1 :: h2 :: h3 :: h4 :: repair 0 true r)); [done|exact E|reflexivity]|]. by rewrite IH.
    + destruct (validJSONEscapes d) eqn:Ev.
      * etrans; [eapply (Hstep 1%nat (repair 0 true r)); [done| |reflexivity]|by rewrite IH].
        destruct (code d =? 117); [|done]. cbn in *. destruct (hex_ahead (repair 0 true r)) eqn:Er; [|done].
        by rewrite (hex_ahead_repair _ Er) in E.
      * change (repair 0 true (backslash :: backslash :: repair 0 true (d :: r))) with (backslash :: backslash :: repair 0 true (repair 0 true (d :: r))).
        by rewrite IH.
  - destruct (Z.leb_spec (code c) 31) as [Hc|Hc]; [by rewrite repair_control, IH|]. cbn [repair negb].
    rewrite (proj2 (Z.eqb_neq _ _) Hq), (proj2 (Z.eqb_neq _ _) Hb), (proj2 (Z.leb_gt _ _)) by lia. by rewrite IH.
Qed.

(** *** Raw strings *)

(** The characters of a string literal as a careless writer escapes them. *)
Definition raw_chars (x : text) : text :=
  x ≫= fun c => if (code c =? 34) || (code c =? 92) then [backslash; c] else [c].

Definition raw_literal (x : text) : text := quote_char :: raw_chars x ++ [quote_char].

Lemma raw_app x y : raw_chars (x ++ y) = raw_chars x ++ raw_chars y.
Proof. apply bind_app. Qed.

Lemma raw_plain x : Forall (fun c => code c <> 34 /\ code c <> 92) x -> raw_chars x = x.
Proof.
  induction 1 as [|c x [H1 H2] _ IH]; [done|]. change (raw_chars (c :: x)) with ((if (code c =? 34) || (code c =? 92) then [backslash; c] else [c]) ++ raw_chars x).
  by rewrite (proj2 (Z.eqb_neq _ _) H1), (proj2 (Z.eqb_neq _ _) H2), IH.
Qed.

(** What is written for the rest [x] of a raw string. *)
Definition rest_of (x : text) : text := repair 0 true (raw_chars x ++ [quote_char]).

Lemma rest_of_wide c x : 128 <= code c -> rest_of (c :: x) = c :: rest_of x.
Proof.
  intros H. unfold rest_of. change (c :: x) with ([c] ++ x). rewrite raw_app, <- app_assoc, raw_plain by (repeat constructor; lia).
  apply (repair_plain [c]). repeat constructor; lia.
Qed.

(** An ASCII character is written as something that reads as it. *)
Lemma rest_of_ascii c x : code c < 128 ->
  exists b w, rest_of (c :: x) = b :: w ++ rest_of x /\ code b < 128 /\ code b <> 34 /\ forall r, spelled r (b :: w) [c].
Proof.
  intros H. unfold rest_of.
  change (raw_chars (c :: x)) with ((if (code c =? 34) || (code c =? 92) then [backslash; c] else [c]) ++ raw_chars x).
  destruct ((code c =? 34) || (code c =? 92)) eqn:E.
  - assert (simple_escape c = Some c) as Hs.
    { unfold simple_escape. by destruct (code c =? 34), (code c =? 92). }
    assert (code c <> 117) as Hu by (rewrite orb_true_iff, !Z.eqb_eq in E; lia).
    exists backslash, [c]. split_and!; [|done|done|intros r; by apply sp_simple]. cbn [app]. by apply repair_simple.
  - apply orb_false_iff in E as [E1%Z.eqb_neq E2%Z.eqb_neq]. destruct (Z.leb_spec (code c) 31) as [Hc|Hc].
    + destruct (escape_head c) as [w Ew]. exists backslash, w.
      assert (forall r, spelled r (backslash :: w) [c]) as Hs by (intros r; rewrite <- Ew; by apply control_spelled).
      split_and!; [|done|done|exact Hs]. cbn [app repair negb]. rewrite (proj2 (Z.eqb_neq _ _) E1), (proj2 (Z.eqb_neq _ _) E2), (proj2 (Z.leb_le _ _)), Ew by lia. done.
    + exists c, []. split_and!; [|done|done|intros r; apply sp_plain; [done|lia]]. apply (repair_plain [c]). repeat constructor; [done|done|lia].
Qed.

(** No continuation bytes appear. *)
Lemma rest_of_cont a x : Forall (fun c => cont c = true) a -> a `prefix_of` rest_of x -> a `prefix_of` x.
Proof.
  intros H. revert x. induction H as [|c a Hc _ IH]; intros x Hp; [apply prefix_nil|].
  assert (128 <= code c) as Hw by (unfold cont, in_range in Hc; rewrite andb_true_iff, !Z.leb_le in Hc; lia).
  destruct x as [|d x]; [destruct Hp as [t Et]; injection Et as <- _; done|]. destruct (Z.ltb_spec (code d) 128) as [Hd|Hd].
  - destruct (rest_of_ascii d x Hd) as (b & w & E & Hb & _ & _). rewrite E in Hp. destruct Hp as [t Et]. injection Et as <- _. lia.
  - rewrite rest_of_wide in Hp by done. destruct Hp as [t Et]. injection Et as <- Et. destruct (IH x) as [t' ->]; [by exists t|]. by exists t'.
Qed.

Lemma rest_of_reads x : reads (rest_of x) (map_runes (fun r => r) x).
Proof.
  unfold map_runes, runes. remember (length x) as n eqn:En. assert (length x <= n)%nat as Hn by lia. clear En.
  revert x Hn. induction n as [|n IH]; intros x Hn.
  { destruct x; [|cbn in Hn; lia]. by apply (reads_quote quote_char). }
  destruct x as [|c x]; [by apply (reads_quote quote_char)|]. cbn [length] in Hn. cbn [runes_fuel].
  destruct (decode_rune (c :: x)) as [z k] eqn:E. rewrite fmap_cons. cbn [concat fst].
  pose proof (decode_rune_width c x) as Hw. rewrite E in Hw. cbn [snd length] in Hw.
  assert (length (drop k (c :: x)) <= n)%nat as Hd by (rewrite length_drop; cbn; lia). specialize (IH _ Hd).
  assert (forall w, rest_of (c :: x) = w ++ rest_of (drop k (c :: x)) -> opens w ->
    spelled (rest_of (drop k (c :: x))) w (encode_rune z) -> reads (rest_of (c :: x)) (encode_rune z ++ concat ((fun p => encode_rune p.1) <$> runes_fuel n (drop k (c :: x))))) as Hgo.
  { intros w -> Ho Hs. eapply reads_unit; [by destruct w| |exact IH]. eapply unit_follows; [exact Hs|]. apply follows_refl. }
  destruct (decide (k = 1%nat)) as [->|Hk].
  - cbn [drop] in *. destruct (decode_rune_narrow _ _ _ E) as [[Hc ->]|[Hc ->]].
    + destruct (rest_of_ascii c x Hc) as (b & w & Ew & _ & Hb & Hs). eapply (Hgo (b :: w)); [done|done|]. rewrite encode_ascii by done. apply Hs.
    + apply (Hgo [c]); [by apply rest_of_wide|cbn; lia|]. apply sp_broken; [done|].
      destruct (decode_rune (c :: rest_of x)) as [z' k'] eqn:E'. pose proof (decode_rune_width c (rest_of x)) as Hw'. rewrite E' in Hw'. cbn [snd] in Hw'.
      destruct (decide (k' = 1%nat)) as [->|Hk'].
      * destruct (decode_rune_narrow _ _ _ E') as [[]|[_ ->]]; [lia|done].
      * destruct (decode_rune_wide _ _ _ _ E' ltac:(lia)) as (_ & _ & a & b & Eab & Ha & Hcont & Hany).
        destruct (rest_of_cont a x Hcont) as [t ->]; [by rewrite Eab; eexists|]. rewrite Hany in E. injection E as _ ->. lia.
  - destruct (decode_rune_wide _ _ _ _ E ltac:(lia)) as (Hc & Hk4 & a & b & -> & Ha & Hcont & Hany). subst k. cbn [drop] in *. rewrite drop_app_length in *.
    assert (forall a, Forall (fun c => cont c = true) a -> rest_of (a ++ b) = a ++ rest_of b) as Hrest.
    { induction 1 as [|y a' Hy _ IHa]; [done|]. cbn [app]. rewrite rest_of_wide, IHa; [done|].
      unfold cont, in_range in Hy. rewrite andb_true_iff, !Z.leb_le in Hy. lia. }
    apply (Hgo (c :: a)); [by rewrite rest_of_wide, Hrest|cbn; lia|]. apply sp_rune; [done|lia|done|lia|done].
Qed.

Lemma unmarshal_literal w x q : is_quote q -> reads w x -> Unmarshal (q :: w) = Some (JString x).
Proof.
  intros Hq Hr. unfold Unmarshal, whole_document. cbn [document length].
  assert (next_byte (q :: w) = Some (34, w)) as ->.
  { unfold is_quote in Hq. unfold next_byte, skip_blank, is_blank. cbn [drop_head]. rewrite Hq. cbn. by rewrite Hq. }
  cbn. unfold reads in Hr. by rewrite Hr.
Qed.

(** * The partial parser ends

    Every value that is read moves the position, so the fuel of
    [partialJSONParse] is enough for any text. *)

(** ** Positions *)

Lemma skip_from_ge s i : (i <= skip_from s i)%nat.
Proof. unfold skip_from. lia. Qed.

Lemma drop_skip_from s i : drop (skip_from s i) s = skip_blank (drop i s).
Proof.
  unfold skip_from, skip_blank. rewrite drop_head_span. pose proof (span_spec is_blank (drop i s)) as (E & _).
  rewrite <- drop_drop. rewrite E at 2. by rewrite drop_app_length.
Qed.

Lemma skip_from_le s i : (i <= length s)%nat -> (skip_from s i <= length s)%nat.
Proof.
  intros H. unfold skip_from. pose proof (span_spec is_blank (drop i s)) as (E & _). apply (f_equal length) in E.
  rewrite length_app, length_drop in E. lia.
Qed.

Lemma byte_at_bound s i z : byte_at s i z = true -> (i < length s)%nat.
Proof. unfold byte_at. destruct (s !! i) eqn:E; [|done]. intros _. by eapply lookup_lt_Some. Qed.

Lemma string_end_ge s i escape prev : (i <= (string_end s i escape prev).1)%nat.
Proof.
  revert i escape prev. induction s as [|c s IH]; intros i escape prev; [done|]. cbn [string_end].
  destruct (_ || _); [|done]. etrans; [|apply IH]. lia.
Qed.

Lemma parseStr_moves s i : match parseStr s i with Ok (_, j) => (i < j)%nat | Err j => (i < j)%nat end.
Proof.
  unfold parseStr. pose proof (string_end_ge (drop (S i) s) (S i) false (s !! i)) as H.
  destruct (string_end _ _ _ _) as [j escape]. cbn [fst] in H.
  destruct (byte_at s j 34); [destruct (decodePartialString _); lia|].
  destruct (decodePartialString _); [lia|]. destruct (decodePartialString _); lia.
Qed.

Lemma Unmarshal_nil : Unmarshal [] = None.
Proof. reflexivity. Qed.

(** The text of a number that does not start the whole text. *)
Lemma parseNum_text s i : (0 < i)%nat ->
  let number := (span (fun c => negb (is_delimiter c)) (drop i s)).1 in
  let j := (i + length number)%nat in
  parseNum s i =
    match decodeJSONValue number with
    | Some v => Ok (v, j)
    | None =>
        if decide (number = lit "-") then Err j
        else match before ← cut_last_e number; decodeJSONValue before with Some v => Ok (v, j) | None => Err j end
    end.
Proof.
  intros Hi number j. unfold parseNum. rewrite (proj2 (Nat.eqb_neq i 0)) by lia.
  set (i' := if byte_at s i 45 then S i else i).
  assert ((i' + length (span (fun c => negb (is_delimiter c)) (drop i' s)).1)%nat = j) as ->.
  { unfold i', j, number, byte_at. destruct (s !! i) as [c|] eqn:E; [|done]. destruct (Z.eqb_spec (code c) 45) as [Hc|]; [|done].
    rewrite (drop_S _ _ _ E). cbn [span]. assert (is_delimiter c = false) as -> by by unfold is_delimiter; rewrite Hc.
    cbn. destruct (span _ (drop (S i) s)). cbn. lia. }
  assert (take (j - i) (drop i s) = number) as ->.
  { unfold j. replace (i + length number - i)%nat with (length number) by lia. unfold number.
    pose proof (span_spec (fun c => negb (is_delimiter c)) (drop i s)) as (E & _). rewrite E at 2. by rewrite take_app_length. }
  done.
Qed.

Lemma parseNum_moves s i : match parseNum s i with Ok (_, j) => (i <= j)%nat /\ ((0 < i)%nat -> (i < j)%nat) | Err j => (i <= j)%nat end.
Proof.
  destruct (decide (i = 0%nat)) as [->|Hi].
  - unfold parseNum. cbn. destruct (parseNum_whole s); [split; [lia|lia]|lia].
  - rewrite parseNum_text by lia. set (number := (span _ _).1). clearbody number. destruct number as [|c number].
    { cbn [length]. unfold decodeJSONValue. rewrite Unmarshal_nil. rewrite decide_False by done. cbn. lia. }
    cbn [length]. destruct (decodeJSONValue _); [lia|]. destruct (decide _); [lia|].
    destruct (cut_last_e _ ≫= _); lia.
Qed.

Lemma parse_moves fuel s :
  (forall i r, parseAny fuel s i = Some r -> match r with Ok (_, j) => (i <= j)%nat /\ ((0 < i)%nat -> (i < j)%nat) | Err j => (i <= j)%nat end) /\
  (forall i l r j, parseObj fuel s i l = Some (r, j) -> (i <= j)%nat) /\
  (forall i l r j, parseArr fuel s i l = Some (r, j) -> (i <= j)%nat).
Proof.
  induction fuel as [|fuel (IHd & IHo & IHa)]; [done|]. split_and!.
  - intros i r H. cbn [parseAny] in H. pose proof (skip_from_ge s i) as Hs. set (k := skip_from s i) in *. clearbody k.
    destruct (byte_at s k 34).
    { injection H as <-. pose proof (parseStr_moves s k). destruct (parseStr s k) as [[x j]|j]; lia. }
    destruct (byte_at s k 123).
    { destruct (parseObj _ _ _ _) as [[l j]|] eqn:E; [|done]. injection H as <-. apply IHo in E. pose proof (skip_from_ge s (S k)). lia. }
    destruct (byte_at s k 91).
    { destruct (parseArr _ _ _ _) as [[l j]|] eqn:E; [|done]. injection H as <-. apply IHa in E. lia. }
    destruct (Nat.leb (length s) k); [by injection H as <-|].
    destruct (find _ _) as [[[word v] m]|] eqn:E; injection H as <-.
    + assert (0 < length word)%nat; [|lia]. apply find_some in E as [E _]. cbn in E. naive_solver lia.
    + pose proof (parseNum_moves s k). destruct (parseNum s k) as [[v j]|j]; lia.
  - intros i l r j H. cbn [parseObj] in H. destruct (byte_at s i 125); [injection H; lia|].
    pose proof (skip_from_ge s i) as Hs. set (k := skip_from s i) in *. clearbody k. destruct (Nat.leb (length s) k); [injection H; lia|].
    pose proof (parseStr_moves s k) as Hm. destruct (parseStr s k) as [[x m]|m]; [|injection H; lia].
    pose proof (skip_from_ge s m). destruct (parseAny _ _ _) as [[[v n]|n]|] eqn:E; [| |done]; cbn in H; apply IHd in E; [|injection H; lia].
    pose proof (skip_from_ge s n). apply IHo in H. destruct (byte_at s (skip_from s n) 44); lia.
  - intros i l r j H. cbn [parseArr] in H. destruct (byte_at s i 93); [injection H; lia|].
    destruct (parseAny _ _ _) as [[[v n]|n]|] eqn:E; [| |done]; cbn in H; apply IHd in E; [|injection H; lia].
    pose proof (skip_from_ge s n). apply IHa in H. destruct (byte_at s (skip_from s n) 44); lia.
Qed.

(** ** Fuel *)

Lemma parse_enough fuel s :
  (forall i, (2 * (length s - i) + 1 <= fuel)%nat -> is_Some (parseAny fuel s i)) /\
  (forall i l, (0 < i)%nat -> (2 * (length s - i) + 2 <= fuel)%nat -> is_Some (parseObj fuel s i l)) /\
  (forall i l, (0 < i)%nat -> (2 * (length s - i) + 2 <= fuel)%nat -> is_Some (parseArr fuel s i l)).
Proof.
  induction fuel as [|fuel (IHd & IHo & IHa)]; [split_and!; intros; lia|]. split_and!.
  - intros i H. cbn [parseAny]. pose proof (skip_from_ge s i) as Hs. set (k := skip_from s i) in *. clearbody k.
    destruct (byte_at s k 34); [by eauto|]. destruct (byte_at s k 123) eqn:E1.
    { apply byte_at_bound in E1. pose proof (skip_from_ge s (S k)). destruct (IHo (skip_from s (S k)) []) as [[l j] ->]; [lia|lia|]. by eauto. }
    destruct (byte_at s k 91) eqn:E2.
    { apply byte_at_bound in E2. destruct (IHa (S k) []) as [[l j] ->]; [lia|lia|]. by eauto. }
    destruct (Nat.leb (length s) k); [by eauto|]. destruct (find _ _) as [[[word v] m]|]; by eauto.
  - intros i l Hi H. cbn [parseObj]. destruct (byte_at s i 125); [by eauto|].
    pose proof (skip_from_ge s i) as Hs. set (k := skip_from s i) in *. clearbody k. destruct (Nat.leb_spec (length s) k); [by eauto|].
    pose proof (parseStr_moves s k) as Hm. destruct (parseStr s k) as [[x m]|m]; [|by eauto].
    pose proof (skip_from_ge s m). destruct (IHd (S (skip_from s m))) as [r E]; [lia|]. rewrite E. apply (proj1 (parse_moves _ _)) in E.
    destruct r as [[v n]|n]; cbn; [|by eauto]. pose proof (skip_from_ge s n). apply IHo; destruct (byte_at s (skip_from s n) 44); lia.
  - intros i l Hi H. cbn [parseArr]. destruct (byte_at s i 93); [by eauto|].
    destruct (IHd i) as [r E]; [lia|]. rewrite E. pose proof (proj1 (parse_moves _ _) _ _ E) as Hm.
    destruct r as [[v n]|n]; cbn; [|by eauto]. pose proof (skip_from_ge s n). destruct (decide (i < length s)%nat).
    + apply IHa; destruct (byte_at s (skip_from s n) 44); lia.
    + exfalso. destruct fuel; [lia|]. cbn [parseAny] in E. pose proof (skip_from_ge s i).
      assert (forall z, byte_at s (skip_from s i) z = false) as Hb.
      { intros z. unfold byte_at. by rewrite lookup_ge_None_2 by lia. }
      rewrite !Hb, (proj2 (Nat.leb_le _ _)) in E by lia. done.
Qed.

Lemma parse_mono f g s : (f <= g)%nat ->
  (forall i r, parseAny f s i = Some r -> parseAny g s i = Some r) /\
  (forall i l r, parseObj f s i l = Some r -> parseObj g s i l = Some r) /\
  (forall i l r, parseArr f s i l = Some r -> parseArr g s i l = Some r).
Proof.
  revert g. induction f as [|f IH]; intros g Hg; [by split_and!|]. destruct g as [|g]; [lia|].
  destruct (IH g ltac:(lia)) as (IHd & IHo & IHa). split_and!.
  - intros i r. cbn [parseAny]. destruct (byte_at s _ 34); [done|]. destruct (byte_at s _ 123).
    { destruct (parseObj f _ _ _) as [[l j]|] eqn:E; [|done]. by rewrite (IHo _ _ _ E). }
    destruct (byte_at s _ 91); [|done]. destruct (parseArr f _ _ _) as [[l j]|] eqn:E; [|done]. by rewrite (IHa _ _ _ E).
  - intros i l r. cbn [parseObj]. destruct (byte_at s i 125); [done|]. destruct (Nat.leb _ _); [done|].
    destruct (parseStr s _) as [[x m]|m]; [|done]. destruct (parseAny f _ _) as [[[v n]|n]|] eqn:E; [| |done]; rewrite (IHd _ _ E); [apply IHo|done].
  - intros i l r. cbn [parseArr]. destruct (byte_at s i 93); [done|].
    destruct (parseAny f _ _) as [[[v n]|n]|] eqn:E; [| |done]; rewrite (IHd _ _ E); [apply IHa|done].
Qed.

Lemma partial_ends s : is_Some (partialJSONParse s).
Proof.
  unfold partialJSONParse. destruct (trim_space s) as [|c t]; [by eauto|].
  destruct (proj1 (parse_enough (partial_fuel (c :: t)) (c :: t)) 0%nat) as [r ->]; [unfold partial_fuel; lia|]. by eauto.
Qed.

(** ** Properties *)

(** The parser of streamed arguments always ends, whatever the text: the
    fuel is enough, and it answers with an object. *)
Theorem partial_terminates s : exists object, ParseStreamingJSON s = Some object.
Proof.
  unfold ParseStreamingJSON. destruct (trim_space s); [by eauto|]. destruct (partial_ends s) as [v Ev]. destruct (partial_ends (RepairJSON s)) as [v' Ev'].
  destruct (match decodeJSONValue s with Some v => Some v | None => _ end) as [w|]; [by eauto|]. rewrite Ev. cbn.
  destruct v as [v|]; [by eauto|]. rewrite Ev'. by eauto.
Qed.
