(* ===== verification/JsonPrefix.v ===== *)
(** * What a beginning of a document is read as

    The partial parser, given the beginning of a JSON text, reads what was
    written completely as it is, and at most one value, the last, as a
    beginning of itself. *)

From S2P Require Import Prelude GoText Json JsonRepair JsonStrings JsonRepairProps.
From Stdlib Require Import Ascii SpecFloat.

(** ** Beginnings of values *)

(** [grows w v]: [w] is what may be known of [v] before all of it is. *)
Inductive grows : json -> json -> Prop :=
| gr_same v : grows v v
| gr_number f g : grows (JNumber f) (JNumber g)
| gr_string y x : text_grows y x -> grows (JString y) (JString x)
| gr_array l l' : l `prefix_of` l' -> grows (JArray l) (JArray l')
| gr_array_last a w v b : grows w v -> grows (JArray (a ++ [w])) (JArray (a ++ v :: b))
| gr_object l l' : l `prefix_of` l' -> grows (JObject l) (JObject l')
| gr_object_last a k w v b : grows w v -> grows (JObject (a ++ [(k, w)])) (JObject (a ++ (k, v) :: b)).

Definition list_grows {A} (R : A -> A -> Prop) (l l' : list A) : Prop :=
  l `prefix_of` l' \/ exists a w v b, l = a ++ [w] /\ l' = a ++ v :: b /\ R w v.

Definition member_grows (w v : text * json) : Prop := w.1 = v.1 /\ grows w.2 v.2.

Lemma grows_array l l' : list_grows grows l l' -> grows (JArray l) (JArray l').
Proof. intros [H|(a & w & v & b & -> & -> & H)]; by constructor. Qed.

Lemma grows_object l l' : list_grows member_grows l l' -> grows (JObject l) (JObject l').
Proof. intros [H|(a & [k w] & [k' v] & b & -> & -> & [Hk H])]; [by constructor|]. cbn in *. subst. by constructor. Qed.

Lemma list_grows_cons {A} (R : A -> A -> Prop) x l l' : list_grows R l l' -> list_grows R (x :: l) (x :: l').
Proof.
  intros [[t ->]|(a & w & v & b & -> & -> & H)]; [left; by exists t|right]. by exists (x :: a), w, v, b.
Qed.

Lemma list_grows_one {A} (R : A -> A -> Prop) w v l : R w v -> list_grows R [w] (v :: l).
Proof. intros H. right. by exists [], w, v, l. Qed.

(** ** Scalars *)

Definition number_head (x : ascii) : Prop := code x = 45 \/ is_digit x = true.

Lemma scalar_number x t : number_head x -> scalar (x :: t) = '(f, r) ← number (x :: t); Some (JNumber f, r).
Proof.
  intros Hx. assert (forall w ws, code w >= 97 -> has_prefix (w :: ws) (x :: t) = false) as Hw.
  { intros w ws Hw. cbn. destruct (Ascii.eqb_spec w x) as [->|]; [|done]. destruct Hx as [Hx|Hx]; [lia|].
    unfold is_digit, in_range in Hx. rewrite andb_true_iff, !Z.leb_le in Hx. lia. }
  unfold scalar. cbn [lit String.list_ascii_of_string]. by rewrite !Hw by (vm_compute; discriminate).
Qed.

Lemma number_head_next x t : number_head x -> next_byte (x :: t) = Some (code x, t) /\ skip_blank (x :: t) = x :: t /\
  code x <> 34 /\ code x <> 123 /\ code x <> 91.
Proof.
  intros Hx. assert (is_blank x = false) as Hb.
  { unfold is_blank. apply not_true_iff_false. rewrite existsb_exists. intros (z & Hz & E). apply Z.eqb_eq in E.
    cbn in Hz. destruct Hx as [Hx|Hx]; [lia|]. unfold is_digit, in_range in Hx. rewrite andb_true_iff, !Z.leb_le in Hx. lia. }
  unfold next_byte, skip_blank. cbn [drop_head]. rewrite Hb. split_and!; try done.
  all: destruct Hx as [Hx|Hx]; [lia|]; unfold is_digit, in_range in Hx; rewrite andb_true_iff, !Z.leb_le in Hx; lia.
Qed.

Lemma document_number b fuel depth x t : number_head x ->
  document b (S fuel) depth (x :: t) = '(f, r) ← number (x :: t); Some (JNumber f, r).
Proof.
  intros Hx. destruct (number_head_next x t Hx) as (E1 & E2 & H1 & H2 & H3). cbn [document]. rewrite E1, E2. cbn [mbind option_bind].
  rewrite !(proj2 (Z.eqb_neq _ _)) by done. by apply scalar_number.
Qed.

(** A text that starts like a number is one, or nothing. *)
Lemma unmarshal_numeric x t v : number_head x -> Unmarshal (x :: t) = Some v -> exists f, v = JNumber f.
Proof.
  intros Hx. unfold Unmarshal, whole_document. rewrite document_number by done. destruct (number (x :: t)) as [[f r]|]; [|done]. cbn.
  destruct (skip_blank r); [|done]. intros [= <-]. by exists f.
Qed.

Lemma blanks_skip b : Forall (fun y => is_blank y = true) b -> skip_blank b = [].
Proof. unfold skip_blank. rewrite drop_head_span. intros H. rewrite <- (app_nil_r b). by rewrite span_app. Qed.

Lemma blank_not_number y : is_blank y = true -> is_number_byte y = false.
Proof.
  unfold is_blank, is_number_byte, is_digit, in_range. intros H. rewrite existsb_exists in H. destruct H as (z & Hz & ->%Z.eqb_eq).
  cbn in Hz. destruct Hz as [<-|[<-|[<-|[<-|[]]]]]; done.
Qed.

Lemma number_token_spec c f : number_token c = Some f -> exists x t, c = x :: t /\ number_head x /\
  (code x = 45 -> exists y t', t = y :: t' /\ is_digit y = true).
Proof.
  intros H. destruct (number_token_head c f H) as (x & t & -> & Hx). exists x, t. split_and!; [done|done|]. intros E.
  unfold number_token, sign_part in H. rewrite E in H. cbn in H. destruct t as [|y t]; [done|]. exists y, t. split; [done|].
  cbn in H. destruct (Z.eqb_spec (code y) 48) as [Ey|]; [by unfold is_digit; rewrite Ey|]. by destruct (is_digit y).
Qed.

Lemma unmarshal_number c f b : number_token c = Some f -> Forall (fun x => is_number_byte x = true) c -> Forall (fun y => is_blank y = true) b ->
  Unmarshal (c ++ b) = Some (JNumber f).
Proof.
  intros Hf Hc Hb. destruct (number_token_spec c f Hf) as (x & t & -> & Hx & _). unfold Unmarshal, whole_document. cbn [app length].
  rewrite document_number by done. change (x :: t ++ b) with ((x :: t) ++ b). 
  assert (match b with [] => True | y :: _ => is_number_byte y = false end) as Hb' by (destruct Hb; [done|by apply blank_not_number]).
  rewrite (number_app _ f) by done.
  cbn. by rewrite blanks_skip.
Qed.

(** ** Literals *)

Lemma matches_head rest w ws v m x t : matches_literal rest (w :: ws, v, m) = true -> rest = x :: t ->
  w = x /\ (forall y t', t = y :: t' -> match ws with [] => True | z :: _ => z = y end) /\ ((m < length rest)%nat \/ has_prefix (w :: ws) rest = true).
Proof.
  unfold matches_literal. intros H ->. apply orb_true_iff in H as [H|H].
  - cbn in H. apply andb_true_iff in H as [->%Ascii.eqb_eq H]. split; [done|]. split; [|right; cbn; by rewrite Ascii.eqb_refl].
    intros y t' ->. destruct ws as [|z ws]; [done|]. cbn in H. by apply andb_true_iff in H as [->%Ascii.eqb_eq _].
  - rewrite !andb_true_iff, !Nat.ltb_lt in H. destruct H as [[_ Hm] H]. cbn in H. apply andb_true_iff in H as [->%Ascii.eqb_eq H].
    split; [done|]. split; [|by left]. intros y t' ->. destruct ws as [|z ws]; [done|]. cbn in H. by apply andb_true_iff in H as [->%Ascii.eqb_eq _].
Qed.

(** The beginning of a number is no literal. *)
Lemma number_no_literal x t : number_head x -> (forall y t', code x = 45 -> t = y :: t' -> is_digit y = true) ->
  find (matches_literal (x :: t)) partialJSONLiterals = None.
Proof.
  intros Hx Hy. destruct (find _ _) as [[[word v] m]|] eqn:E; [|done]. exfalso. apply find_some in E as [Hin H]. cbn in Hin.
  assert (forall w ws, word = w :: ws -> w = x) as Hw by (intros w ws ->; by destruct (matches_head _ _ _ _ _ x t H eq_refl)).
  destruct (decide (code x = 45)) as [Hc|Hc].
  - assert (x = byte 45) as Ex by by rewrite <- (code_byte x), Hc.
    destruct Hin as [[= <- <- <-]|[[= <- <- <-]|[[= <- <- <-]|[[= <- <- <-]|[[= <- <- <-]|[[= <- <- <-]|[]]]]]]];
      try (specialize (Hw _ _ eq_refl); rewrite Ex in Hw; discriminate Hw).
    destruct (matches_head _ _ _ _ _ x t H eq_refl) as (_ & Hz & Hm). destruct t as [|y t].
    + destruct Hm as [Hm|Hm]; [cbn in Hm; lia|]. cbn in Hm. by rewrite andb_false_r in Hm.
    + specialize (Hz y t eq_refl). cbn in Hz. specialize (Hy y t Hc eq_refl). by rewrite <- Hz in Hy.
  - destruct Hx as [Hx|Hx]; [done|].
    destruct Hin as [[= <- <- <-]|[[= <- <- <-]|[[= <- <- <-]|[[= <- <- <-]|[[= <- <- <-]|[[= <- <- <-]|[]]]]]]];
      specialize (Hw _ _ eq_refl); rewrite <- Hw in Hx; discriminate Hx.
Qed.

(** ** Documents behind blanks *)

Lemma next_skip U z r : next_byte U = Some (z, r) -> length (skip_blank U) = S (length r) /\ next_byte (skip_blank U) = Some (z, r).
Proof.
  intros H. apply next_byte_spec in H as (b & y & -> & _ & Hy & <- & ->). split; [done|].
  unfold next_byte, skip_blank. cbn [drop_head]. by rewrite Hy.
Qed.

Lemma members_skip b fuel depth U : members b fuel depth (skip_blank U) = members b fuel depth U.
Proof.
  destruct fuel as [|fuel]; [done|]. cbn [members]. destruct (next_byte U) as [[z r]|] eqn:E.
  - by destruct (next_skip _ _ _ E) as [_ ->].
  - unfold next_byte in *. destruct (skip_blank U) as [|] eqn:Es; [done|discriminate E].
Qed.

Lemma document_shorter b fuel depth U v R : document b fuel depth U = Some (v, R) -> (length R < length U)%nat.
Proof. intros H. apply (proj1 (document_consumed b fuel)) in H as (c & -> & Hc & _). rewrite length_app. destruct c; [done|cbn; lia]. Qed.

Lemma members_shorter b fuel depth U l R : members b fuel depth U = Some (l, R) -> (length R < length U)%nat.
Proof. intros H. apply (proj1 (proj2 (document_consumed b fuel))) in H as (c & -> & Hc & _). rewrite length_app. destruct c; [done|cbn; lia]. Qed.

Lemma elements_shorter b fuel depth U l R : elements b fuel depth U = Some (l, R) -> (length R < length U)%nat.
Proof. intros H. apply (proj2 (proj2 (document_consumed b fuel))) in H as (c & -> & Hc & _). rewrite length_app. destruct c; [done|cbn; lia]. Qed.

Lemma skip_skip U : skip_blank (skip_blank U) = skip_blank U.
Proof. unfold skip_blank. induction U as [|y U IH]; [done|]. cbn [drop_head]. destruct (is_blank y) eqn:E; [done|]. cbn [drop_head]. by rewrite E. Qed.

Lemma document_skip b fuel depth U : document b fuel depth (skip_blank U) = document b fuel depth U.
Proof. destruct fuel as [|fuel]; [done|]. cbn [document]. unfold next_byte. by rewrite skip_skip. Qed.

Lemma prefix_empty {A} (R : A -> A -> Prop) l : list_grows R [] l.
Proof. left. apply prefix_nil. Qed.

Lemma close_no_document fuel depth U r : next_byte U = Some (93, r) -> document false fuel depth U = None.
Proof.
  intros H. destruct fuel as [|fuel]; [done|]. cbn [document]. rewrite H. cbn [mbind option_bind Z.eqb Pos.eqb].
  apply next_byte_spec in H as (b & y & -> & _ & _ & Hy & ->). assert (y = byte 93) as -> by by rewrite <- (code_byte y), Hy. done.
Qed.

Lemma LastIndexByte_none t z : Forall (fun x => code x <> z) t -> LastIndexByte t z = -1.
Proof. induction 1 as [|x t Hx _ IH]; [done|]. cbn. rewrite IH. cbn. by rewrite (proj2 (Z.eqb_neq _ _) Hx). Qed.

Lemma LastIndexByte_app a b t z : code b = z -> Forall (fun x => code x <> z) t -> LastIndexByte (a ++ b :: t) z = Z.of_nat (length a).
Proof.
  intros Hb Ht. induction a as [|x a IH]; cbn [app LastIndexByte length].
  - rewrite LastIndexByte_none by done. cbn. by rewrite (proj2 (Z.eqb_eq _ _) Hb).
  - rewrite IH. rewrite (proj2 (Z.leb_le _ _)) by lia. lia.
Qed.

Lemma quoted q w x : is_quote q -> reads w x -> decodePartialString (q :: w) = Some x.
Proof. intros Hq Hr. unfold decodePartialString, Unmarshal_string. by rewrite (unmarshal_literal w x q). Qed.

Lemma not_quoted q w : is_quote q -> string_body (length w) w = None -> decodePartialString (q :: w) = None.
Proof.
  unfold is_quote. intros Hq Hr. unfold decodePartialString, Unmarshal_string, Unmarshal, whole_document. cbn [document length].
  assert (next_byte (q :: w) = Some (34, w)) as ->.
  { unfold next_byte, skip_blank, is_blank. cbn [drop_head]. rewrite Hq. cbn. by rewrite Hq. }
  cbn. by rewrite Hr.
Qed.

Lemma quote_eq q : is_quote q -> q = quote_char.
Proof. unfold is_quote. intros H. by rewrite <- (code_byte q), H. Qed.

Lemma number_byte_plain x : is_number_byte x = true -> is_delimiter x = false.
Proof.
  unfold is_delimiter, is_number_byte, is_digit, in_range. intros H. apply not_true_iff_false. rewrite existsb_exists. intros (z & Hz & E).
  apply Z.eqb_eq in E. rewrite E in H. cbn in Hz. destruct Hz as [<-|[<-|[<-|[]]]]; done.
Qed.

Lemma blank_plain x : is_blank x = true -> is_delimiter x = false.
Proof.
  unfold is_delimiter, is_blank. intros H. rewrite existsb_exists in H. destruct H as (z & Hz & E). apply Z.eqb_eq in E. rewrite E.
  cbn in Hz. destruct Hz as [<-|[<-|[<-|[<-|[]]]]]; done.
Qed.

Section Prefix.
Context (s : text).
Let n := length s.

(** ** Positions *)

(** The text from [i] on is a beginning of [U]. *)
Definition at_ (i : nat) (U : text) : Prop := (i <= n)%nat /\ drop i s `prefix_of` U.

Lemma at_step i x U : at_ i (x ++ U) -> (i + length x <= n)%nat -> at_ (i + length x) U /\ take (length x) (drop i s) = x.
Proof.
  intros [Hi [t E]] Hl. assert (length x <= length (drop i s))%nat as Hx by (rewrite length_drop; unfold n in *; lia).
  destruct (cut_app _ _ _ _ E Hx) as (e & Ed & ->). rewrite Ed. rewrite take_app_length. split; [|done]. split; [done|].
  rewrite <- drop_drop, Ed, drop_app_length. by eexists.
Qed.

Lemma at_end i x U : at_ i (x ++ U) -> (n < i + length x)%nat -> exists t, x = drop i s ++ t /\ t <> [].
Proof.
  intros [Hi [t E]] Hl. symmetry in E. destruct (cut_app _ _ _ _ E) as (e & -> & _); [rewrite length_drop; unfold n in *; lia|].
  exists e. split; [done|]. intros ->. rewrite app_nil_r, length_drop in Hl. unfold n in *. lia.
Qed.

Lemma at_byte i y U : at_ i (y :: U) -> (i < n)%nat -> s !! i = Some y /\ at_ (S i) U.
Proof.
  intros H Hi. destruct (at_step i [y] U H) as [Ha Ht]; [cbn; lia|]. cbn [length] in *. rewrite Nat.add_1_r in Ha. split; [|done].
  destruct (drop i s) as [|z l] eqn:E; [done|]. injection Ht as ->.
  pose proof (lookup_drop s i 0) as El. rewrite E, Nat.add_0_r in El. by symmetry.
Qed.

Lemma byte_at_lookup i y z : s !! i = Some y -> byte_at s i z = (code y =? z).
Proof. intros H. unfold byte_at. by rewrite H. Qed.

Lemma byte_at_end i z : (n <= i)%nat -> byte_at s i z = false.
Proof. intros H. unfold byte_at. by rewrite lookup_ge_None_2. Qed.

(** Blanks and the byte after them. *)
Lemma at_blanks i b U : at_ i (b ++ U) -> Forall (fun y => is_blank y = true) b ->
  match U with [] => True | y :: _ => is_blank y = false end ->
  if decide (i + length b <= n)%nat then skip_from s i = (i + length b)%nat /\ at_ (i + length b) U else skip_from s i = n.
Proof.
  intros H Hb HU. case_decide as Hl.
  - destruct (at_step _ _ _ H Hl) as [Ha Ht]. split; [|done]. unfold skip_from. f_equal. destruct Ha as [_ [t Et]].
    assert (drop i s = b ++ drop (i + length b) s) as ->.
    { rewrite <- (take_drop (length b) (drop i s)) at 1. by rewrite Ht, drop_drop. }
    rewrite span_app; [done|done|]. destruct (drop (i + length b) s) as [|y l]; [done|]. subst U. done.
  - destruct (at_end _ _ _ H) as (t & Et & _); [lia|]. unfold skip_from. destruct H as [Hi _].
    assert (Forall (fun y => is_blank y = true) (drop i s)) as Hd by (subst b; by apply Forall_app in Hb as [? _]).
    rewrite <- (app_nil_r (drop i s)), span_app by done. cbn. rewrite length_drop. unfold n in *. lia.
Qed.

(** The next byte [z] is written, or the text ends before it. *)
Lemma at_next i U z r : at_ i U -> next_byte U = Some (z, r) ->
  (length r < length U)%nat /\
  let k := (length U - length r)%nat in
  ((i + k <= n)%nat /\ (exists y, s !! skip_from s i = Some y /\ code y = z) /\ S (skip_from s i) = (i + k)%nat /\ at_ (i + k) r) \/
  ((n < i + k)%nat /\ skip_from s i = n).
Proof.
  intros H Hn. apply next_byte_spec in Hn as (b & y & -> & Hb & Hy & <- & _). pose proof (at_blanks i b (y :: r) H Hb Hy) as Hs.
  rewrite length_app. cbn [length]. split; [lia|]. replace (length b + S (length r) - length r)%nat with (S (length b)) by lia.
  case_decide as Hl.
  - destruct Hs as [Hs Ha]. destruct (decide (i + length b < n)%nat) as [Hl'|Hl'].
    + destruct (at_byte _ _ _ Ha Hl') as [E Ha']. left. split; [lia|]. rewrite Hs. split; [by exists y|].
      replace (i + S (length b))%nat with (S (i + length b)) by lia. done.
    + right. split; lia.
  - right. split; [lia|done].
Qed.

Lemma prefix_substring i j : (i <= j <= n)%nat -> jsSubstring s (Z.of_nat i) (Z.of_nat j) = take (j - i) (drop i s).
Proof.
  intros H. unfold jsSubstring, len. fold n. rewrite !Z.max_l, !Z.min_l by lia. rewrite (proj2 (Z.ltb_ge _ _)) by lia.
  by replace (Z.to_nat (Z.of_nat j - Z.of_nat i)) with (j - i)%nat by lia; rewrite Nat2Z.id.
Qed.

(** ** Strings *)

(** A string in the document, behind its quote at [i]. *)
Lemma at_string i q f x U r : s !! i = Some q -> is_quote q -> at_ (S i) U -> string_body f U = Some (x, r) ->
  (length r < length U)%nat /\
  let k := (length U - length r)%nat in
  if decide (S i + k <= n)%nat then parseStr s i = Ok (x, (S i + k)%nat) /\ at_ (S i + k) r
  else exists y, parseStr s i = Ok (y, n) /\ text_grows y x.
Proof.
  intros Hi Hq Ha Hs. destruct (string_whole _ _ _ _ Hs) as (c & q' & -> & Hq' & Hr & Hend).
  rewrite length_app. cbn [length]. split; [lia|]. replace (length c + S (length r) - length r)%nat with (S (length c)) by lia. cbv zeta.
  assert (i < n)%nat as Hin by by eapply lookup_lt_Some. unfold parseStr.
  case_decide as Hl.
  - change (q' :: r) with ([q'] ++ r) in Ha. rewrite app_assoc in Ha. destruct (at_step _ _ _ Ha) as [Ha' Ht]; [rewrite length_app; cbn; lia|].
    rewrite length_app in *. cbn [length] in *. replace (S i + (length c + 1))%nat with (S i + S (length c))%nat in Ha' by lia.
    assert (drop (S i) s = c ++ q' :: drop (S i + S (length c)) s) as Ed.
    { rewrite <- (take_drop (length c + 1) (drop (S i) s)), Ht, drop_drop, <- app_assoc. cbn. do 3 f_equal. lia. }
    rewrite Ed, Hend. assert (s !! (S i + length c)%nat = Some q') as Eq.
    { rewrite <- lookup_drop, Ed. by rewrite list_lookup_middle. }
    rewrite (byte_at_lookup _ _ _ Eq), (proj2 (Z.eqb_eq _ _) Hq'). replace (Z.of_nat (S (S i + length c)) - 0) with (Z.of_nat (S (S i + length c))) by lia.
    rewrite prefix_substring by lia. rewrite (drop_S _ _ _ Hi), Ed.
    replace (S (S i + length c) - i)%nat with (S (length (c ++ [q']))) by (rewrite length_app; cbn; lia). cbn [take].
    change (q' :: drop (S i + S (length c)) s) with ([q'] ++ drop (S i + S (length c)) s). rewrite app_assoc, take_app_length.
    rewrite (quoted q (c ++ [q']) x Hq Hr). split; [f_equal; f_equal; lia|exact Ha'].
  - assert (drop (S i) s `prefix_of` c) as Hp.
    { change (q' :: r) with ([q'] ++ r) in Ha. rewrite app_assoc in Ha. destruct (at_end _ _ _ Ha) as (t & Et & Hne); [rewrite length_app; cbn; lia|].
      destruct t as [|z t _] using rev_ind; [done|]. rewrite app_assoc in Et. apply app_inj_tail in Et as [-> _]. by eexists. }
    destruct (string_cut f c q' r x (drop (S i) s) (S i) (Some q) Hs Hq' Hp) as (escape & Ee & Hc).
    rewrite Hi, Ee. rewrite length_drop. replace (S i + (length s - S i))%nat with n by (unfold n in *; lia).
    rewrite byte_at_end by done.
    assert (forall t, take t (drop i s) = take t (q :: drop (S i) s)) as Ht by (intros t; by rewrite (drop_S _ _ _ Hi)).
    pose proof (length_drop s (S i)) as Hlen. fold n in Hlen.
    destruct Hc as [y Hy Hr'|a b y Hy Et Hb Hr'|a b v y Hy Et Hb Hv Hn Hr'].
    + exists y. split; [|done]. rewrite Z.sub_0_r, prefix_substring by lia. rewrite Ht, take_ge by (cbn; lia). cbn [app].
      by rewrite (quoted q _ y Hq (Hr' quote_char eq_refl)).
    + exists y. split; [|done]. rewrite Et, length_app in Hlen. cbn in Hlen.
      replace (Z.of_nat n - 1) with (Z.of_nat (n - 1)) by lia. rewrite prefix_substring by lia. rewrite Ht, Et.
      replace (n - 1 - i)%nat with (S (length a)) by lia. cbn [take]. rewrite take_app_length. cbn [app].
      by rewrite (quoted q _ y Hq (Hr' quote_char eq_refl)).
    + exists y. split; [|done]. rewrite Z.sub_0_r, prefix_substring by lia. rewrite Ht, take_ge by (cbn; lia). cbn [app].
      rewrite (not_quoted q _ Hq (Hn quote_char eq_refl)).
      assert (LastIndexByte s 92 = Z.of_nat (S i + length a)) as ->.
      { rewrite <- (take_drop (S i) s) at 1. rewrite Et, app_assoc, LastIndexByte_app by done. rewrite length_app, length_take. f_equal. unfold n in *. lia. }
      rewrite Et, length_app in Hlen. cbn in Hlen. rewrite prefix_substring by lia. rewrite Ht, Et.
      replace (S i + length a - i)%nat with (S (length a)) by lia. cbn [take]. rewrite take_app_length. cbn [app].
      by rewrite (quoted q _ y Hq (Hr' quote_char eq_refl)).
Qed.

(** ** Literals and numbers *)

(** What [parseAny] does with anything but strings and containers. *)
Definition scalar_at (i : nat) : parsed json :=
  match find (matches_literal (drop i s)) partialJSONLiterals with
  | Some (word, v, _) => Ok (v, (i + length word)%nat)
  | None => parseNum s i
  end.

Lemma word_found word v R i : In (word, v) [(lit "null", JNull); (lit "true", JBool true); (lit "false", JBool false)] ->
  at_ i (word ++ R) -> (i < n)%nat -> find (matches_literal (drop i s)) partialJSONLiterals = Some (word, v, O).
Proof.
  intros Hin Ha Hi. destruct (decide (i + length word <= n)%nat) as [Hl|Hl].
  - destruct (at_step _ _ _ Ha Hl) as [_ Ht]. rewrite <- (take_drop (length word) (drop i s)), Ht. set (rest := drop _ _).
    destruct Hin as [[= <- <-]|[[= <- <-]|[[= <- <-]|[]]]]; cbn; rewrite ?andb_false_r; reflexivity.
  - destruct (at_end _ _ _ Ha) as (t & Et & Hne); [lia|]. assert (drop i s <> []) as Hd.
    { intros E. apply (f_equal length) in E. rewrite length_drop in E. cbn in E. unfold n in *. lia. }
    destruct Hin as [[= <- <-]|[[= <- <-]|[[= <- <-]|[]]]]; destruct (drop i s) as [|c1 [|c2 [|c3 [|c4 [|c5 u]]]]]; try done; cbn in Et;
      try (injection Et as; subst; try done; cbn; by rewrite ?andb_false_r).
    all: try (exfalso; injection Et; intros; subst; done).
Qed.

Definition boundary (R : text) : Prop := match skip_blank R with [] => True | y :: _ => is_delimiter y = true end.

(** The bytes up to the next delimiter, when blanks are all that comes first. *)
Lemma span_blanks R r : boundary R -> r `prefix_of` R ->
  exists b, (span (fun c => negb (is_delimiter c)) r).1 = b /\ b `prefix_of` r /\ Forall (fun y => is_blank y = true) b /\
    skip_blank r = skip_blank (drop (length b) r).
Proof.
  unfold boundary, skip_blank. rewrite drop_head_span. pose proof (span_spec is_blank R) as (E & Hb & Hs).
  destruct (span is_blank R) as [b0 R']. cbn in *. intros HR [t Et].
  assert (forall b : text, Forall (fun y => is_blank y = true) b -> Forall (fun c => negb (is_delimiter c) = true) b) as Hnb.
  { intros b H. eapply Forall_impl; [exact H|]. intros y Hy. by rewrite (blank_plain y Hy). }
  assert (forall b r', Forall (fun y => is_blank y = true) b -> drop_head is_blank (b ++ r') = drop_head is_blank r') as Hdrop.
  { intros b r' H. induction H as [|y b Hy _ IH]; [done|]. cbn [app drop_head]. by rewrite Hy. }
  rewrite Et in E. destruct (decide (length r <= length b0)%nat) as [Hl|Hl].
  - destruct (cut_app _ _ _ _ E Hl) as (e & -> & _). apply Forall_app in Hb as [Hb _]. exists r.
    rewrite <- (app_nil_r r) at 1. rewrite span_app by (try done; by apply Hnb). cbn. split_and!; [done|done|done|].
    rewrite drop_ge by done. rewrite <- (app_nil_r r). by rewrite Hdrop.
  - symmetry in E. destruct (cut_app _ _ _ _ E) as (e & -> & Ee); [lia|]. exists b0. rewrite span_app; [|by apply Hnb|].
    + cbn. split_and!; [done|by eexists|done|]. by rewrite drop_app_length, Hdrop.
    + destruct e as [|y e]; [rewrite app_nil_r in Hl; lia|]. subst R'. by rewrite HR.
Qed.

Lemma at_scalar i U v R : at_ i U -> (0 < i < n)%nat -> scalar U = Some (v, R) -> boundary R ->
  (length R < length U)%nat /\
  let k := (length U - length R)%nat in
  if decide (i + k <= n)%nat then exists j, scalar_at i = Ok (v, j) /\ (i + k <= j <= n)%nat /\ skip_from s j = skip_from s (i + k)
  else match scalar_at i with Ok (w, j) => grows w v /\ (n <= j)%nat | Err j => (n <= j)%nat end.
Proof.
  intros Ha Hi HU HR.
  assert (forall word, In (word, v) [(lit "null", JNull); (lit "true", JBool true); (lit "false", JBool false)] -> U = word ++ R ->
    (length R < length U)%nat /\ let k := (length U - length R)%nat in
    if decide (i + k <= n)%nat then exists j, scalar_at i = Ok (v, j) /\ (i + k <= j <= n)%nat /\ skip_from s j = skip_from s (i + k)
    else match scalar_at i with Ok (w, j) => grows w v /\ (n <= j)%nat | Err j => (n <= j)%nat end) as Hword.
  { intros word Hin ->. assert (0 < length word)%nat by (cbn in Hin; naive_solver lia).
    rewrite length_app. split; [lia|]. cbv zeta. replace (length word + length R - length R)%nat with (length word) by lia.
    unfold scalar_at. rewrite (word_found word v R i Hin Ha) by lia. case_decide; [|split; [constructor|lia]].
    exists (i + length word)%nat. split; [done|]. split; [lia|done]. }
  destruct (scalar_spec _ _ _ HU) as [[E ->]|[[E ->]|[[E ->]|(f & Hf & ->)]]];
    [by apply (Hword _ (or_introl eq_refl))|by apply (Hword _ (or_intror (or_introl eq_refl)))|
     by apply (Hword _ (or_intror (or_intror (or_introl eq_refl))))|]. clear Hword.
  destruct (number_spec _ _ _ Hf) as (c & -> & Hc & Hnb & Hft & _). rewrite length_app.
  assert (length c <> 0)%nat as Hc0 by by destruct c.
  split; [lia|]. cbv zeta. replace (length c + length R - length R)%nat with (length c) by lia.
  destruct (number_token_spec c f Hft) as (x & t & Ec & Hx & Hxt).
  assert (exists t', drop i s = x :: t' /\ (forall y t'', code x = 45 -> t' = y :: t'' -> is_digit y = true)) as (t' & Ed & Ht').
  { destruct Ha as [_ [e E]]. rewrite Ec in E. cbn in E. destruct (drop i s) as [|x' t'] eqn:Ed.
    { apply (f_equal length) in Ed. rewrite length_drop in Ed. cbn in Ed. unfold n in *. lia. }
    injection E as <- E. exists t'. split; [done|]. intros y t'' Hx' ->. destruct (Hxt Hx') as (y' & t1 & -> & Hy). by injection E as -> _. }
  unfold scalar_at. rewrite Ed, (number_no_literal x t' Hx Ht'). rewrite parseNum_text by lia. cbv zeta.
  assert (forall w, Forall (fun x => is_number_byte x = true) w -> Forall (fun c => negb (is_delimiter c) = true) w) as Hplain.
  { intros w H. eapply Forall_impl; [exact H|]. intros y Hy. by rewrite (number_byte_plain y Hy). }
  case_decide as Hl.
  - destruct (at_step _ _ _ Ha Hl) as [[_ Ha'] Ht]. destruct (span_blanks R _ HR Ha') as (b & Eb & [r' Er] & Hb & Hskip).
    assert (drop i s = c ++ b ++ r') as Ed'.
    { rewrite <- (take_drop (length c) (drop i s)), Ht, drop_drop. by rewrite Er. }
    assert ((span (fun c0 => negb (is_delimiter c0)) (drop i s)).1 = c ++ b) as ->.
    { rewrite <- (take_drop (length c) (drop i s)), Ht, drop_drop, span_app_l by by apply Hplain. by rewrite Eb. }
    unfold decodeJSONValue. rewrite (unmarshal_number c f b) by done. exists (i + length (c ++ b))%nat. split; [done|].
    pose proof (f_equal length Ed') as El. rewrite length_drop, !length_app in El. rewrite length_app. split; [unfold n in *; lia|].
    pose proof (drop_skip_from s (i + length c)) as D1. pose proof (drop_skip_from s (i + (length c + length b))) as D2.
    assert (drop (skip_from s (i + length c)) s = drop (skip_from s (i + (length c + length b))) s) as D.
    { rewrite D1, D2, Nat.add_assoc, <- (drop_drop s (length b) (i + length c)). exact Hskip. }
    apply (f_equal length) in D. rewrite !length_drop in D.
    assert (i + (length c + length b) <= length s)%nat as Hle by lia.
    pose proof (skip_from_le s (i + length c)). pose proof (skip_from_le s (i + (length c + length b)) Hle). lia.
  - destruct (at_end _ _ _ Ha) as (e & Ee & _); [lia|]. assert (Forall (fun x => is_number_byte x = true) (drop i s)) as Hd.
    { rewrite Ee in Hnb. by apply Forall_app in Hnb as [? _]. }
    assert ((span (fun c0 => negb (is_delimiter c0)) (drop i s)).1 = drop i s) as ->.
    { rewrite <- (app_nil_r (drop i s)) at 1. rewrite span_app; [done|by apply Hplain|done]. }
    assert (i + length (drop i s) = n)%nat as En by (rewrite length_drop; unfold n in *; lia). rewrite En.
    assert (forall t, t `prefix_of` drop i s -> match decodeJSONValue t with Some w => grows w (JNumber f) | None => True end) as Hgrow.
    { intros t0 [t1 Et]. destruct t0 as [|x0 t0]; [by cbn|]. rewrite Ed in Et. injection Et as <- _.
      destruct (decodeJSONValue (x :: t0)) as [w|] eqn:Ew; [|done]. destruct (unmarshal_numeric x t0 w Hx Ew) as [g ->]. constructor. }
    pose proof (Hgrow (drop i s) ltac:(done)) as H1. destruct (decodeJSONValue (drop i s)); [by split|].
    destruct (decide _); [done|]. unfold cut_last_e. destruct (0 <=? _); cbn [mbind option_bind]; [|lia].
    pose proof (Hgrow (take (Z.to_nat (LastIndexByte (drop i s) 101)) (drop i s))) as H2.
    destruct (decodeJSONValue (take _ _)); [|lia]. split; [|lia]. apply H2. eexists. symmetry. apply take_drop.
Qed.

(** ** Steps of the partial parser *)

Lemma skip_from_end i : (n <= i)%nat -> skip_from s i = i.
Proof. intros H. unfold skip_from. rewrite drop_ge by done. cbn. lia. Qed.

Lemma any_end i : (n <= i)%nat -> parseAny 1 s i = Some (Err i).
Proof.
  intros H. cbn [parseAny]. rewrite skip_from_end by done. rewrite !byte_at_end by done. by rewrite (proj2 (Nat.leb_le (length s) _) H).
Qed.

Lemma obj_end i acc : (n <= skip_from s i)%nat -> byte_at s i 125 = false -> parseObj 1 s i acc = Some (acc, skip_from s i).
Proof. intros H Hb. cbn [parseObj]. rewrite Hb. by rewrite (proj2 (Nat.leb_le (length s) _) H). Qed.

Lemma obj_close i acc : byte_at s i 125 = true -> parseObj 1 s i acc = Some (acc, S i).
Proof. intros H. cbn [parseObj]. by rewrite H. Qed.

Lemma arr_close i acc : byte_at s i 93 = true -> parseArr 1 s i acc = Some (acc, S i).
Proof. intros H. cbn [parseArr]. by rewrite H. Qed.

Lemma arr_end i acc : (n <= i)%nat -> parseArr 2 s i acc = Some (acc, i).
Proof. intros H. cbn [parseArr]. rewrite byte_at_end by done. rewrite (any_end i H). done. Qed.

(** Behind a value that ends at [m]. *)
Definition after_value (m : nat) : nat := let k := skip_from s m in if byte_at s k 44 then S k else k.

Lemma after_end m : (n <= m)%nat -> after_value m = m.
Proof. intros H. unfold after_value. rewrite skip_from_end by done. by rewrite byte_at_end. Qed.

Lemma obj_step i acc key j g r :
  byte_at s i 125 = false -> (skip_from s i < n)%nat -> parseStr s (skip_from s i) = Ok (key, j) -> parseAny g s (S (skip_from s j)) = Some r ->
  match r with
  | Err m => parseObj (S g) s i acc = Some (acc, m)
  | Ok (v, m) => forall g' res, parseObj g' s (after_value m) (acc ++ [(key, v)]) = Some res -> parseObj (S (Nat.max g g')) s i acc = Some res
  end.
Proof.
  intros Hb Hs Hk Hv. assert (Nat.leb (length s) (skip_from s i) = false) as Hle by (apply Nat.leb_gt; done). destruct r as [[v m]|m].
  - intros g' res Hres. cbn [parseObj]. rewrite Hb, Hle, Hk.
    rewrite (proj1 (parse_mono g (Nat.max g g') s ltac:(lia)) _ _ Hv). cbn [mbind option_bind].
    by apply (proj1 (proj2 (parse_mono g' (Nat.max g g') s ltac:(lia)))).
  - cbn [parseObj]. rewrite Hb, Hle, Hk, Hv. done.
Qed.

Lemma arr_step i acc g r :
  byte_at s i 93 = false -> parseAny g s i = Some r ->
  match r with
  | Err m => parseArr (S g) s i acc = Some (acc, m)
  | Ok (v, m) => forall g' res, parseArr g' s (after_value m) (acc ++ [v]) = Some res -> parseArr (S (Nat.max g g')) s i acc = Some res
  end.
Proof.
  intros Hb Hv. destruct r as [[v m]|m].
  - intros g' res Hres. cbn [parseArr]. rewrite Hb.
    rewrite (proj1 (parse_mono g (Nat.max g g') s ltac:(lia)) _ _ Hv). cbn [mbind option_bind].
    by apply (proj2 (proj2 (parse_mono g' (Nat.max g g') s ltac:(lia)))).
  - cbn [parseArr]. rewrite Hb, Hv. done.
Qed.

Lemma at_not_byte i U z r w : at_ i U -> next_byte U = Some (z, r) -> z <> w -> existsb (Z.eqb w) [32; 10; 13; 9] = false -> byte_at s i w = false.
Proof.
  intros [Hi [t Et]] Hn Hz Hw. unfold byte_at. destruct (s !! i) as [y|] eqn:E; [|done]. apply Z.eqb_neq. intros Hy. subst w.
  rewrite (drop_S _ _ _ E) in Et. subst U. unfold next_byte, skip_blank in Hn. cbn [app drop_head] in Hn.
  unfold is_blank at 1 in Hn. rewrite Hw in Hn. by injection Hn.
Qed.

Lemma at_skip i U : at_ i U -> at_ (skip_from s i) (skip_blank U).
Proof.
  intros [Hi [t ->]]. split; [by apply skip_from_le|]. rewrite drop_skip_from. unfold skip_blank.
  induction (drop i s) as [|y l IH]; [apply prefix_nil|]. cbn [app drop_head]. destruct (is_blank y); [done|]. by eexists.
Qed.

(** ** Documents *)

Definition doc_at (fuel : nat) : Prop := forall depth i U v R,
  at_ i U -> (0 < i)%nat \/ (exists r, next_byte U = Some (123, r)) -> document false fuel depth U = Some (v, R) -> boundary R ->
  let k := (length U - length R)%nat in
  if decide (i + k <= n)%nat
  then exists g j, parseAny g s i = Some (Ok (v, j)) /\ (i + k <= j <= n)%nat /\ skip_from s j = skip_from s (i + k)
  else exists g r, parseAny g s i = Some r /\ match r with Ok (w, j) => grows w v /\ (n <= j)%nat | Err j => (n <= j)%nat end.

Definition members_at (fuel : nat) : Prop := forall depth i U l R acc,
  at_ i U -> (0 < i)%nat -> members false fuel depth U = Some (l, R) ->
  let k := (length U - length R)%nat in
  if decide (i + k <= n)%nat then exists g, parseObj g s i acc = Some (acc ++ l, (i + k)%nat)
  else exists g l' j, parseObj g s i acc = Some (acc ++ l', j) /\ (n <= j)%nat /\ list_grows member_grows l' l.

Definition elements_at (fuel : nat) : Prop := forall depth i U l R acc,
  at_ i U -> (0 < i)%nat -> elements false fuel depth U = Some (l, R) ->
  let k := (length U - length R)%nat in
  if decide (i + k <= n)%nat then exists g, parseArr g s i acc = Some (acc ++ l, (i + k)%nat)
  else exists g l' j, parseArr g s i acc = Some (acc ++ l', j) /\ (n <= j)%nat /\ list_grows grows l' l.

Lemma delimiter_boundary U z r : next_byte U = Some (z, r) -> existsb (Z.eqb z) [44; 93; 125] = true -> boundary U.
Proof. intros H Hz. apply next_byte_spec in H as (b & y & _ & _ & _ & <- & E). unfold boundary. by rewrite E. Qed.

(** The byte at which a written value starts. *)
Lemma any_dispatch fuel i y : s !! skip_from s i = Some y ->
  parseAny (S fuel) s i =
    (if code y =? 34 then Some (match parseStr s (skip_from s i) with Ok (x, j) => Ok (JString x, j) | Err j => Err j end)
     else if code y =? 123 then '(l, j) ← parseObj fuel s (skip_from s (S (skip_from s i))) []; Some (Ok (JObject l, j))
     else if code y =? 91 then '(l, j) ← parseArr fuel s (S (skip_from s i)) []; Some (Ok (JArray l, j))
     else Some (scalar_at (skip_from s i))).
Proof.
  intros E. cbn [parseAny]. rewrite !(byte_at_lookup _ _ _ E). apply lookup_lt_Some in E.
  destruct (code y =? 34); [done|]. destruct (code y =? 123); [done|]. destruct (code y =? 91); [done|].
  rewrite (proj2 (Nat.leb_gt _ _)) by lia. unfold scalar_at. by destruct (find _ _) as [[[word v] m]|].
Qed.

(** An object, behind its brace. *)
Lemma object_at fuel i y r0 l R c1 r1 depth :
  members_at fuel -> s !! i = Some y -> at_ (S i) r0 -> next_byte r0 = Some (c1, r1) ->
  (if c1 =? 125 then l = [] /\ R = r1 else members false fuel depth r0 = Some (l, R)) ->
  (length R < length r0)%nat /\
  let k := (length r0 - length R)%nat in
  if decide (S i + k <= n)%nat then exists g, parseObj g s (skip_from s (S i)) [] = Some (l, (S i + k)%nat)
  else exists g l' j, parseObj g s (skip_from s (S i)) [] = Some (l', j) /\ (n <= j)%nat /\ list_grows member_grows l' l.
Proof.
  intros IH Hi Ha Hn Hl. destruct (at_next _ _ _ _ Ha Hn) as [Hlen Hw]. destruct (Z.eqb_spec c1 125) as [->|Hc1].
  - destruct Hl as [-> ->]. split; [done|]. cbv zeta in *. destruct Hw as [(Hw & (z & Hz & Ez) & Es & _)|[Hw Es]].
    + rewrite decide_True by done. exists 1%nat. rewrite obj_close; [|by rewrite (byte_at_lookup _ _ _ Hz); apply Z.eqb_eq]. by rewrite Es.
    + rewrite decide_False by lia. exists 1%nat, [], n. rewrite Es. rewrite obj_end; [|by rewrite skip_from_end|by apply byte_at_end].
      rewrite skip_from_end by done. split; [done|]. split; [done|]. left. apply prefix_nil.
  - pose proof (members_shorter _ _ _ _ _ _ Hl) as HR. split; [done|]. cbv zeta in *. destruct (next_skip _ _ _ Hn) as [Hsl _].
    rewrite <- members_skip in Hl. pose proof (members_shorter _ _ _ _ _ _ Hl) as HR'.
    pose proof (IH depth (skip_from s (S i)) (skip_blank r0) l R [] (at_skip _ _ Ha) ltac:(pose proof (skip_from_ge s (S i)); lia) Hl) as H.
    cbv zeta in H. cbn [app] in H. destruct Hw as [(Hw & _ & Es & _)|[Hw Es]].
    + replace (skip_from s (S i) + (length (skip_blank r0) - length R))%nat with (S i + (length r0 - length R))%nat in H by lia. exact H.
    + rewrite decide_False in H by lia. rewrite decide_False by lia. exact H.
Qed.

Lemma array_at fuel i y r0 l R c1 r1 depth :
  elements_at fuel -> s !! i = Some y -> at_ (S i) r0 -> next_byte r0 = Some (c1, r1) ->
  (if c1 =? 93 then l = [] /\ R = r1 /\ length r0 = S (length r1) else elements false fuel depth r0 = Some (l, R)) ->
  (length R < length r0)%nat /\
  let k := (length r0 - length R)%nat in
  if decide (S i + k <= n)%nat then exists g, parseArr g s (S i) [] = Some (l, (S i + k)%nat)
  else exists g l' j, parseArr g s (S i) [] = Some (l', j) /\ (n <= j)%nat /\ list_grows grows l' l.
Proof.
  intros IH Hi Ha Hn Hl. destruct (at_next _ _ _ _ Ha Hn) as [Hlen Hw]. destruct (Z.eqb_spec c1 93) as [->|Hc1].
  - destruct Hl as (-> & -> & Hone). split; [done|]. cbv zeta in *. destruct Hw as [(Hw & (z & Hz & Ez) & Es & _)|[Hw Es]].
    + rewrite decide_True by done. exists 1%nat. assert (skip_from s (S i) = S i) as E by lia. rewrite E in Hz.
      rewrite arr_close; [|by rewrite (byte_at_lookup _ _ _ Hz); apply Z.eqb_eq]. do 2 f_equal. lia.
    + rewrite decide_False by lia. exists 2%nat, [], (S i). rewrite arr_end by lia. split; [done|]. split; [lia|]. left. apply prefix_nil.
  - pose proof (elements_shorter _ _ _ _ _ _ Hl) as HR. split; [done|]. apply (IH depth (S i) r0 l R []); [done|lia|done].
Qed.

Lemma doc_step fuel : members_at fuel -> elements_at fuel -> doc_at (S fuel).
Proof.
  intros IHm IHe depth i U v R Ha Hpos H HR. cbv zeta.
  assert (length R < length (skip_blank U))%nat as HR0 by (rewrite <- document_skip in H; by eapply document_shorter).
  cbn [document] in H. destruct (next_byte U) as [[c r0]|] eqn:En; [|done]. cbn [mbind option_bind] in H.
  destruct (next_skip _ _ _ En) as [Hsl _]. rewrite Hsl in HR0.
  destruct (at_next _ _ _ _ Ha En) as [Hl0 [(Hw & (y & Hy & Ey) & Es & Ha0)|[Hw Es]]].
  2: { rewrite decide_False by lia. exists 1%nat, (Err n). cbn [parseAny]. rewrite Es, !byte_at_end by done.
       by rewrite (proj2 (Nat.leb_le (length s) n)). }
  rewrite <- Es in Ha0. set (i' := skip_from s i) in *.
  replace (i + (length U - length R))%nat with (S i' + (length r0 - length R))%nat by lia.
  assert (forall g x, (if code y =? 34 then Some (match parseStr s i' with Ok (x, j) => Ok (JString x, j) | Err j => Err j end)
     else if code y =? 123 then '(l, j) ← parseObj g s (skip_from s (S i')) []; Some (Ok (JObject l, j))
     else if code y =? 91 then '(l, j) ← parseArr g s (S i') []; Some (Ok (JArray l, j))
     else Some (scalar_at i')) = Some x -> parseAny (S g) s i = Some x) as Hany by (intros g x <-; by apply any_dispatch).
  rewrite Ey in Hany. destruct (Z.eqb_spec c 34) as [->|H34].
  { destruct (string_body _ r0) as [[x r1]|] eqn:Eb; [|done]. cbn in H. injection H as <- <-.
    destruct (at_string i' y _ x r0 r1 Hy Ey Ha0 Eb) as [_ Hstr]. cbv zeta in Hstr. case_decide.
    - destruct Hstr as [Hp _]. exists 1%nat, (S i' + (length r0 - length r1))%nat. split; [apply Hany; by rewrite Hp|]. split; [lia|done].
    - destruct Hstr as (z & Hp & Hz). exists 1%nat, (Ok (JString z, n)). split; [apply Hany; by rewrite Hp|]. split; [by constructor|done]. }
  destruct (Z.eqb_spec c 123) as [->|H123].
  { destruct (maxNestingDepth <=? depth); [done|]. destruct (next_byte r0) as [[c1 r1]|] eqn:E1; [|done]. cbn [mbind option_bind] in H.
    assert (exists l, v = JObject l /\ if c1 =? 125 then l = [] /\ R = r1 else members false fuel (depth + 1) r0 = Some (l, R)) as (l & -> & Hl).
    { destruct (c1 =? 125); [injection H as <- <-; by exists []|]. destruct (members _ _ _ _) as [[l r2]|]; [|done]. injection H as <- <-. by exists l. }
    destruct (object_at _ _ _ _ _ _ _ _ _ IHm Hy Ha0 E1 Hl) as [_ Ho]. cbv zeta in Ho. case_decide.
    - destruct Ho as [g Hg]. exists (S g), (S i' + (length r0 - length R))%nat. split; [apply Hany; by rewrite Hg|]. split; [lia|done].
    - destruct Ho as (g & l' & j & Hg & Hj & Hl'). exists (S g), (Ok (JObject l', j)). split; [apply Hany; by rewrite Hg|].
      split; [by apply grows_object|done]. }
  destruct (Z.eqb_spec c 91) as [->|H91].
  { destruct (maxNestingDepth <=? depth); [done|]. destruct (next_byte r0) as [[c1 r1]|] eqn:E1; [|done]. cbn [mbind option_bind] in H.
    assert (exists l, v = JArray l /\ if c1 =? 93 then l = [] /\ R = r1 /\ length r0 = S (length r1) else elements false fuel (depth + 1) r0 = Some (l, R)) as (l & -> & Hl).
    { destruct (c1 =? 93).
      - cbn [orb] in H. destruct (Nat.eqb_spec (length r0) (S (length r1))); [|done]. injection H as <- <-. by exists [].
      - destruct (elements _ _ _ _) as [[l r2]|]; [|done]. injection H as <- <-. by exists l. }
    destruct (array_at _ _ _ _ _ _ _ _ _ IHe Hy Ha0 E1 Hl) as [_ Ho]. cbv zeta in Ho. case_decide.
    - destruct Ho as [g Hg]. exists (S g), (S i' + (length r0 - length R))%nat. split; [apply Hany; by rewrite Hg|]. split; [lia|done].
    - destruct Ho as (g & l' & j & Hg & Hj & Hl'). exists (S g), (Ok (JArray l', j)). split; [apply Hany; by rewrite Hg|].
      split; [by apply grows_array|done]. }
  destruct Hpos as [Hpos|[r Hr]]; [|by injection Hr]. pose proof (skip_from_ge s i) as Hge. fold i' in Hge.
  destruct (at_scalar i' (skip_blank U) v R (at_skip _ _ Ha)) as [_ Hsc]; [lia|done|done|]. cbv zeta in Hsc.
  replace (i' + (length (skip_blank U) - length R))%nat with (S i' + (length r0 - length R))%nat in Hsc by lia. case_decide.
  - destruct Hsc as (j & Hj & Hle & Hsk). exists 1%nat, j. split; [apply Hany; by rewrite Hj|]. by split.
  - exists 1%nat, (scalar_at i'). split; [by apply Hany|done].
Qed.

Lemma elements_step fuel : doc_at fuel -> elements_at fuel -> elements_at (S fuel).
Proof.
  intros IHd IHe depth i U l R acc Ha Hpos H. cbv zeta. cbn [elements] in H.
  destruct (document false fuel depth U) as [[v r3]|] eqn:Ed; [|done]. cbn [mbind option_bind] in H.
  destruct (next_byte r3) as [[c4 r4]|] eqn:E4; [|done]. cbn [mbind option_bind] in H.
  assert (exists l0, l = v :: l0 /\ (c4 = 44 /\ elements false fuel depth r4 = Some (l0, R) \/ c4 = 93 /\ l0 = [] /\ R = r4)) as (l0 & -> & Hl0).
  { destruct (Z.eqb_spec c4 44) as [->|].
    - destruct (elements _ _ _ r4) as [[l0 r5]|]; [|done]. cbn in H. injection H as <- <-. exists l0. by auto.
    - destruct (Z.eqb_spec c4 93) as [->|]; [|done]. injection H as <- <-. exists []. by auto. }
  clear H. assert (boundary r3) as Hbd by (eapply delimiter_boundary; [exact E4|]; by destruct Hl0 as [[-> _]|[-> _]]).
  assert (byte_at s i 93 = false) as Hb.
  { destruct (next_byte U) as [[z r]|] eqn:En.
    - eapply at_not_byte; [exact Ha|exact En| |done]. intros ->. by rewrite (close_no_document _ _ _ r) in Ed.
    - exfalso. destruct fuel; [done|]. cbn [document] in Ed. by rewrite En in Ed. }
  pose proof (document_shorter _ _ _ _ _ _ Ed) as H3. pose proof (IHd depth i U v r3 Ha (or_introl Hpos) Ed Hbd) as Hd. cbv zeta in Hd.
  assert (length R <= length r4 /\ length r4 < length r3)%nat as [HR4 H43].
  { split; [|apply next_byte_spec in E4 as (b & y & -> & _); rewrite length_app; cbn; lia].
    destruct Hl0 as [[_ He]|(_ & _ & ->)]; [apply elements_shorter in He; lia|lia]. }
  case_decide as Hc.
  - destruct Hd as (g & j & Hg & Hj & Hsk).
    assert (at_ (i + (length U - length r3)) r3) as Ha3.
    { destruct (proj1 (document_consumed false _) _ _ _ _ Ed) as (c & -> & _). rewrite length_app in *.
      replace (length c + length r3 - length r3)%nat with (length c) in * by lia. apply (at_step _ _ _ Ha). lia. }
    pose proof (arr_step i acc g _ Hb Hg) as Hstep. cbv beta iota in Hstep.
    destruct (at_next _ _ _ _ Ha3 E4) as [_ [(Hw & (y & Hy & Ey) & Es & Ha4)|[Hw Es]]]; rewrite <- Hsk in *.
    + destruct Hl0 as [[-> He]|(-> & -> & ->)].
      * assert (after_value j = (i + (length U - length r3) + (length r3 - length r4))%nat) as Ej.
        { unfold after_value. rewrite (byte_at_lookup _ _ _ Hy), (proj2 (Z.eqb_eq _ _) Ey). lia. }
        pose proof (IHe depth _ r4 l0 R (acc ++ [v]) Ha4 ltac:(lia) He) as Hr. rewrite <- Ej in Hr, Hw. cbv zeta in Hr.
        rewrite <- app_assoc in Hr. cbn [app] in Hr. replace (i + (length U - length R))%nat with (after_value j + (length r4 - length R))%nat by lia. case_decide.
        -- destruct Hr as [g' Hg']. eexists. eapply Hstep. exact Hg'.
        -- destruct Hr as (g' & l' & j' & Hg' & Hj' & Hl'). rewrite <- app_assoc in Hg'. eexists _, (v :: l'), j'. split; [eapply Hstep; exact Hg'|].
           split; [done|]. by apply list_grows_cons.
      * assert (after_value j = skip_from s j) as Ej.
        { unfold after_value. by rewrite (byte_at_lookup _ _ _ Hy), (proj2 (Z.eqb_neq _ _)) by lia. }
        rewrite decide_True by lia. eexists. erewrite Hstep; [reflexivity|]. rewrite Ej, arr_close; [do 2 f_equal; lia|].
        rewrite (byte_at_lookup _ _ _ Hy). by apply Z.eqb_eq.
    + rewrite decide_False by lia. eexists _, [v], _. split; [eapply Hstep, arr_end|].
      * unfold after_value. rewrite Es, byte_at_end by done. done.
      * unfold after_value. rewrite Es, byte_at_end by done. split; [done|]. left. by exists l0.
  - rewrite decide_False by lia. destruct Hd as (g & [[w j]|j] & Hg & Hr); pose proof (arr_step i acc g _ Hb Hg) as Hstep; cbv beta iota in Hstep.
    + destruct Hr as [Hgr Hj]. eexists _, [w], _. split; [eapply Hstep, arr_end; by rewrite after_end|]. rewrite after_end by done. split; [done|].
      by apply list_grows_one.
    + eexists _, [], j. rewrite app_nil_r. split; [exact Hstep|]. split; [done|]. left. apply prefix_nil.
Qed.

(** Past a key and its colon, with the text ended or at the value. *)
Lemma member_key i U acc key r0 r1 r2 :
  at_ i U -> byte_at s i 125 = false -> next_byte U = Some (34, r0) -> string_body (length r0) r0 = Some (key, r1) -> next_byte r1 = Some (58, r2) ->
  (length r2 < length U)%nat /\
  let k := (length U - length r2)%nat in
  if decide (i + k <= n)%nat
  then at_ (i + k) r2 /\ (skip_from s i < n)%nat /\ exists j, parseStr s (skip_from s i) = Ok (key, j) /\ S (skip_from s j) = (i + k)%nat
  else exists g j, parseObj g s i acc = Some (acc, j) /\ (n <= j)%nat.
Proof.
  intros Ha Hb En Eb E2. destruct (at_next _ _ _ _ Ha En) as [Hl0 H0].
  assert (length r1 < length r0)%nat as Hl1.
  { destruct (string_whole _ _ _ _ Eb) as (c & q & -> & _). rewrite length_app. cbn. lia. }
  assert (length r2 < length r1)%nat as Hl2 by (apply next_byte_spec in E2 as (b & y & -> & _); rewrite length_app; cbn; lia).
  split; [lia|]. cbv zeta in *.
  destruct H0 as [(Hw & (y & Hy & Ey) & Es & Ha0)|[Hw Es]].
  2: { rewrite decide_False by lia. exists 1%nat, n. rewrite obj_end; [by rewrite Es|by rewrite Es|done]. }
  rewrite <- Es in Ha0. destruct (at_string _ y _ key r0 r1 Hy Ey Ha0 Eb) as [_ Hstr]. cbv zeta in Hstr.
  assert (skip_from s i < n)%nat as Hin by by eapply lookup_lt_Some.
  assert (forall j, parseStr s (skip_from s i) = Ok (key, j) \/ (exists x, parseStr s (skip_from s i) = Ok (x, j)) -> (n <= skip_from s j)%nat ->
    exists g j', parseObj g s i acc = Some (acc, j') /\ (n <= j')%nat) as Hend.
  { intros j Hj Hn. assert (exists x, parseStr s (skip_from s i) = Ok (x, j)) as [x Hx] by (destruct Hj; eauto).
    exists 2%nat, (S (skip_from s j)). split; [|lia]. apply (obj_step i acc x j 1 (Err (S (skip_from s j))) Hb Hin Hx). apply any_end. lia. }
  destruct (decide (S (skip_from s i) + (length r0 - length r1) <= n)%nat) as [Hk|Hk].
  - destruct Hstr as [Hp Ha1]. destruct (at_next _ _ _ _ Ha1 E2) as [_ [(Hw2 & _ & Es2 & Ha2)|[Hw2 Es2]]].
    + rewrite decide_True by lia. split; [|split; [done|]]. { by replace (i + (length U - length r2))%nat with (S (skip_from s i) + (length r0 - length r1) + (length r1 - length r2))%nat by lia. }
      exists (S (skip_from s i) + (length r0 - length r1))%nat. split; [done|]. lia.
    + rewrite decide_False by lia. eapply Hend; [by left|]. lia.
  - destruct Hstr as (x & Hp & _). rewrite decide_False by lia. eapply Hend; [right; by eexists|]. by rewrite skip_from_end.
Qed.

Lemma members_step fuel : doc_at fuel -> members_at fuel -> members_at (S fuel).
Proof.
  intros IHd IHm depth i U l R acc Ha Hpos H. cbv zeta. cbn [members] in H.
  destruct (next_byte U) as [[c r0]|] eqn:En; [|done]. cbn [mbind option_bind] in H. destruct (Z.eqb_spec c 34) as [->|]; [|done].
  destruct (string_body _ r0) as [[key r1]|] eqn:Eb; [|done]. cbn [mbind option_bind] in H.
  destruct (next_byte r1) as [[c2 r2]|] eqn:E2; [|done]. cbn [mbind option_bind] in H. destruct (Z.eqb_spec c2 58) as [->|]; [|done].
  destruct (document false fuel depth r2) as [[v r3]|] eqn:Ed; [|done]. cbn [mbind option_bind] in H.
  destruct (next_byte r3) as [[c4 r4]|] eqn:E4; [|done]. cbn [mbind option_bind] in H.
  assert (exists l0, l = (key, v) :: l0 /\ (c4 = 44 /\ members false fuel depth r4 = Some (l0, R) \/ c4 = 125 /\ l0 = [] /\ R = r4)) as (l0 & -> & Hl0).
  { destruct (Z.eqb_spec c4 44) as [->|].
    - destruct (members _ _ _ r4) as [[l0 r5]|]; [|done]. cbn in H. injection H as <- <-. exists l0. by auto.
    - destruct (Z.eqb_spec c4 125) as [->|]; [|done]. injection H as <- <-. exists []. by auto. }
  clear H. assert (boundary r3) as Hbd by (eapply delimiter_boundary; [exact E4|]; by destruct Hl0 as [[-> _]|[-> _]]).
  assert (byte_at s i 125 = false) as Hb by by eapply at_not_byte.
  pose proof (document_shorter _ _ _ _ _ _ Ed) as H3.
  assert (length R <= length r4 /\ length r4 < length r3)%nat as [HR4 H43].
  { split; [|apply next_byte_spec in E4 as (b & y & -> & _); rewrite length_app; cbn; lia].
    destruct Hl0 as [[_ He]|(_ & _ & ->)]; [apply members_shorter in He; lia|lia]. }
  destruct (member_key i U acc key r0 r1 r2 Ha Hb En Eb E2) as [H2 Hkey]. cbv zeta in Hkey. case_decide as Hk.
  2: { rewrite decide_False by lia. destruct Hkey as (g & j & Hg & Hj). exists g, [], j. rewrite app_nil_r. split; [done|]. split; [done|apply prefix_empty]. }
  destruct Hkey as (Ha2 & Hin & jk & Hp & Ejk). pose proof (IHd depth _ r2 v r3 Ha2 ltac:(left; lia) Ed Hbd) as Hd. cbv zeta in Hd. rewrite <- Ejk in Hd.
  case_decide as Hc.
  - destruct Hd as (g & j & Hg & Hj & Hsk). rewrite Ejk in Hsk, Hj, Hc.
    assert (at_ (i + (length U - length r2) + (length r2 - length r3)) r3) as Ha3.
    { destruct (proj1 (document_consumed false _) _ _ _ _ Ed) as (c & -> & _). rewrite length_app in *.
      replace (length c + length r3 - length r3)%nat with (length c) in * by lia. apply (at_step _ _ _ Ha2). lia. }
    pose proof (obj_step i acc key jk g _ Hb Hin Hp Hg) as Hstep. cbv beta iota in Hstep.
    destruct (at_next _ _ _ _ Ha3 E4) as [_ [(Hw & (y & Hy & Ey) & Es & Ha4)|[Hw Es]]]; rewrite <- Hsk in *.
    + destruct Hl0 as [[-> He]|(-> & -> & ->)].
      * assert (after_value j = (i + (length U - length r2) + (length r2 - length r3) + (length r3 - length r4))%nat) as Ej.
        { unfold after_value. rewrite (byte_at_lookup _ _ _ Hy), (proj2 (Z.eqb_eq _ _) Ey). lia. }
        pose proof (IHm depth _ r4 l0 R (acc ++ [(key, v)]) Ha4 ltac:(lia) He) as Hr. rewrite <- Ej in Hr, Hw. cbv zeta in Hr.
        rewrite <- app_assoc in Hr. cbn [app] in Hr. replace (i + (length U - length R))%nat with (after_value j + (length r4 - length R))%nat by lia. case_decide.
        -- destruct Hr as [g' Hg']. eexists. eapply Hstep. exact Hg'.
        -- destruct Hr as (g' & l' & j' & Hg' & Hj' & Hl'). rewrite <- app_assoc in Hg'. eexists _, ((key, v) :: l'), j'. split; [eapply Hstep; exact Hg'|].
           split; [done|]. by apply list_grows_cons.
      * assert (after_value j = skip_from s j) as Ej.
        { unfold after_value. by rewrite (byte_at_lookup _ _ _ Hy), (proj2 (Z.eqb_neq _ _)) by lia. }
        rewrite decide_True by lia. eexists. erewrite Hstep; [reflexivity|]. rewrite Ej, obj_close; [do 2 f_equal; lia|].
        rewrite (byte_at_lookup _ _ _ Hy). by apply Z.eqb_eq.
    + rewrite decide_False by lia. assert (after_value j = n) as Ej by (unfold after_value; by rewrite Es, byte_at_end).
      eexists _, [(key, v)], _. split; [eapply Hstep, obj_end|].
      * by rewrite Ej, skip_from_end.
      * rewrite Ej. by apply byte_at_end.
      * rewrite Ej, skip_from_end by done. split; [done|]. left. by exists l0.
  - rewrite decide_False by lia. destruct Hd as (g & [[w j]|j] & Hg & Hr); pose proof (obj_step i acc key jk g _ Hb Hin Hp Hg) as Hstep; cbv beta iota in Hstep.
    + destruct Hr as [Hgr Hj]. eexists _, [(key, w)], _. split; [eapply Hstep, obj_end|].
      * by rewrite after_end, skip_from_end.
      * rewrite after_end by done. by apply byte_at_end.
      * rewrite after_end, skip_from_end by done. split; [done|]. by apply list_grows_one.
    + eexists _, [], j. rewrite app_nil_r. split; [exact Hstep|]. split; [done|apply prefix_empty].
Qed.

(** The partial parser on the beginning of a document. *)
Lemma document_at fuel : doc_at fuel /\ members_at fuel /\ elements_at fuel.
Proof.
  induction fuel as [|fuel (IHd & IHm & IHe)]; [by split_and!|]. split_and!; [by apply doc_step|by apply members_step|by apply elements_step].
Qed.
End Prefix.

(** ** Longer texts *)

(** A document is read from its own bytes: more may follow, blanks in empty
    arrays may be allowed, and fuel may be left. *)
Lemma low_surrogate_more a q t : is_quote q -> low_surrogate (a ++ [q]) = None -> low_surrogate (a ++ q :: t) = None.
Proof.
  intros Hq H. unfold low_surrogate in *. destruct a as [|b [|d a]]; cbn [app] in *.
  - rewrite Hq. by destruct t.
  - rewrite Hq. by rewrite andb_false_r.
  - destruct ((code b =? 92) && (code d =? 117)); [|done]. destruct (decide (length a < 4)%nat) as [Hl|Hl].
    + destruct (hex4 (a ++ q :: t)) as [[u r]|] eqn:E; [|done]. exfalso. apply hex4_spec in E as (h & Eh & Hlen & Hh).
      destruct (cut_app _ _ _ _ Eh) as (e & -> & Ee); [lia|]. rewrite length_app in Hlen. destruct e as [|q' e]; [rewrite app_nil_r in *; cbn in Hlen; lia|].
      injection Ee as <- _. apply hex_plain in Hh. apply Forall_app in Hh as [_ Hh]. inversion Hh as [|? ? [Hne _]]; subst. by apply Hne.
    + destruct (hex4 (a ++ q :: t)) as [[u r]|] eqn:E; [|done]. apply hex4_spec in E as (h & Eh & Hlen & Hh).
      destruct (cut_app _ _ _ _ (eq_sym Eh)) as (e & -> & _); [lia|]. rewrite <- app_assoc, (hex4_app h u) in H by done. cbn in *.
      by destruct (in_range _ _ u).
Qed.

Lemma follows_more r0 r q t : r0 `prefix_of` r -> is_quote q -> follows r (r0 ++ q :: t).
Proof.
  intros Hp Hq. destruct (follows_cut r r0 q Hp Hq) as [Hl Hd]. split; [intros H; by apply low_surrogate_more, Hl|].
  intros c Hc H. specialize (Hd c Hc H). destruct (decode_rune (c :: r0 ++ q :: t)) as [z k] eqn:E.
  pose proof (decode_rune_width c (r0 ++ q :: t)) as Hw. rewrite E in Hw. cbn [snd] in Hw. destruct (decide (k = 1%nat)) as [->|Hk].
  - destruct (decode_rune_narrow _ _ _ E) as [[]|[_ ->]]; [lia|done].
  - exfalso. destruct (decode_rune_wide _ _ _ _ E ltac:(lia)) as (_ & _ & a & b & Eab & Ha & Hcont & Hany).
    destruct (decide (length a <= length r0)%nat) as [Hle|Hgt].
    + destruct (cut_app _ _ _ _ (eq_sym Eab) Hle) as (e & -> & _). rewrite <- app_assoc, Hany in Hd. injection Hd as _ ->. lia.
    + destruct (cut_app _ _ _ _ Eab) as (e & -> & Ee); [lia|]. destruct e as [|q' e]; [rewrite app_nil_r in Hgt; lia|]. injection Ee as <- _.
      apply Forall_app in Hcont as [_ Hcont]. inversion Hcont as [|? ? Hx]; subst. unfold cont, in_range in Hx. rewrite Hq in Hx. done.
Qed.

Lemma string_more f c q r x t g : string_body f (c ++ q :: r) = Some (x, r) -> is_quote q -> (length c < g)%nat ->
  string_body g (c ++ q :: t) = Some (x, t).
Proof.
  revert c x g. induction f as [|f IH]; intros c x g H Hq Hg; [done|]. destruct g as [|g]; [lia|].
  destruct c as [|b c]; cbn [app string_body] in *.
  { rewrite Hq in *. cbn in *. by injection H as <-. }
  destruct (Z.eqb_spec (code b) 34) as [Hb|Hb].
  { exfalso. injection H as _ H. apply (f_equal length) in H. rewrite length_app in H. cbn in H. lia. }
  destruct (unit (b :: c ++ q :: r)) as [[y s']|] eqn:Eu; [|done]. cbn in H. destruct (string_body f s') as [[l r']|] eqn:Es; [|done].
  cbn in H. injection H as <- ->. apply unit_spelled in Eu as (c0 & Ec & Hs).
  destruct (string_whole _ _ _ _ Es) as (c1 & q1 & -> & Hq1 & _ & _).
  assert (b :: c = c0 ++ c1 /\ q = q1) as [E ->].
  { rewrite app_comm_cons in Ec. rewrite app_assoc in Ec. apply app_inj_2 in Ec as [E [= E']]; [done|]. cbn. lia. }
  rewrite app_comm_cons, E, <- app_assoc. rewrite (unit_follows _ c0 y (c1 ++ q1 :: t) Hs) by (apply follows_more; [by eexists|done]). cbn [mbind option_bind].
  rewrite (IH c1 l g Es Hq); [done|]. apply (f_equal length) in E. rewrite length_app in E. cbn in *.
  apply spelled_nonempty in Hs. destruct c0; [done|]. cbn in E. lia.
Qed.
