(* ===== verification/JsonStream.v ===== *)
(** * Arguments read as they arrive

    At every moment of the stream of a JSON object, [ParseStreamingJSON]
    answers with a beginning of the object that is being written. *)

From S2P Require Import Prelude GoText Json JsonRepair JsonStrings JsonRepairProps JsonPrefix.
From Stdlib Require Import Ascii SpecFloat.

(** ** Longer texts *)

Lemma skip_more u e x r : skip_blank u = x :: r -> skip_blank (u ++ e) = x :: r ++ e.
Proof.
  unfold skip_blank. induction u as [|y u IH]; [done|]. cbn [app drop_head]. destruct (is_blank y); [done|]. by intros [= -> ->].
Qed.

Lemma next_more u e z r : next_byte u = Some (z, r) -> next_byte (u ++ e) = Some (z, r ++ e).
Proof.
  unfold next_byte. destruct (skip_blank u) as [|x r'] eqn:E; [done|]. intros [= <- <-]. by rewrite (skip_more _ e _ _ E).
Qed.

Definition self_delimited (v : json) : Prop := match v with JNumber _ => False | _ => True end.

Lemma scalar_more s v r e : scalar s = Some (v, r) -> r <> [] \/ self_delimited v -> scalar (s ++ e) = Some (v, r ++ e).
Proof.
  intros H Hr. destruct (scalar_spec _ _ _ H) as [[-> ->]|[[-> ->]|[[-> ->]|(f & Hf & ->)]]]; [done..|].
  destruct Hr as [Hr|[]]. apply number_spec in Hf as (c & -> & Hc & Hnb & Hft & Hend). destruct (number_token_spec c f Hft) as (x & t & -> & Hx & _).
  cbn [app]. rewrite scalar_number by done. change (x :: (t ++ r) ++ e) with ((x :: t ++ r) ++ e). rewrite app_comm_cons, <- app_assoc.
  rewrite (number_app _ f); [done|done|done|]. by destruct r.
Qed.

(** A document is read from its own bytes: more may follow, fuel may be left,
    and blanks in empty arrays may be allowed. *)
Lemma document_more b b' e f :
  (b = true -> b' = true) ->
  (forall g depth u v r, (f <= g)%nat -> document b f depth u = Some (v, r) -> r <> [] \/ self_delimited v ->
    document b' g depth (u ++ e) = Some (v, r ++ e)) /\
  (forall g depth u l r, (f <= g)%nat -> members b f depth u = Some (l, r) -> members b' g depth (u ++ e) = Some (l, r ++ e)) /\
  (forall g depth u l r, (f <= g)%nat -> elements b f depth u = Some (l, r) -> elements b' g depth (u ++ e) = Some (l, r ++ e)).
Proof.
  intros Hb.
  assert (forall r0 x r1, string_body (length r0) r0 = Some (x, r1) -> string_body (length (r0 ++ e)) (r0 ++ e) = Some (x, r1 ++ e)) as Hstr.
  { intros r0 x r1 H. destruct (string_whole _ _ _ _ H) as (c & q & -> & Hq & _ & _). rewrite <- app_assoc. cbn [app].
    eapply string_more; [exact H|done|]. rewrite length_app. cbn. lia. }
  assert (forall u z r, next_byte u = Some (z, r) -> u <> []) as Hne by by intros [].
  induction f as [|f (IHd & IHm & IHe)]; [done|]. split_and!; intros [|g] depth u v r Hg H; try lia; apply le_S_n in Hg.
  - intros Hr. cbn [document] in H |- *. destruct (next_byte u) as [[c r0]|] eqn:En; [|done]. rewrite (next_more _ e _ _ En).
    cbn [mbind option_bind] in H |- *. destruct (c =? 34).
    { destruct (string_body _ r0) as [[x r1]|] eqn:Eb; [|done]. rewrite (Hstr _ _ _ Eb). cbn in *. by injection H as <- <-. }
    destruct (c =? 123).
    { destruct (maxNestingDepth <=? depth); [done|]. destruct (next_byte r0) as [[c1 r1]|] eqn:E1; [|done]. rewrite (next_more _ e _ _ E1).
      cbn [mbind option_bind] in H |- *. destruct (c1 =? 125); [by injection H as <- <-|].
      destruct (members b f _ r0) as [[l r2]|] eqn:Em; [|done]. rewrite (IHm g _ _ _ _ Hg Em). cbn in *. by injection H as <- <-. }
    destruct (c =? 91).
    { destruct (maxNestingDepth <=? depth); [done|]. destruct (next_byte r0) as [[c1 r1]|] eqn:E1; [|done]. rewrite (next_more _ e _ _ E1).
      cbn [mbind option_bind] in H |- *. destruct (c1 =? 93).
      - rewrite !length_app. destruct (b || _) eqn:Eo; [|done]. injection H as <- <-.
        assert (b' || (length r0 + length e =? S (length r1 + length e))%nat = true) as ->; [|done].
        apply orb_true_iff in Eo as [->|Eo]; [by rewrite Hb|]. apply Nat.eqb_eq in Eo. rewrite Eo. cbn. by rewrite Nat.eqb_refl, orb_true_r.
      - destruct (elements b f _ r0) as [[l r2]|] eqn:Em; [|done]. rewrite (IHe g _ _ _ _ Hg Em). cbn in *. by injection H as <- <-. }
    destruct (skip_blank u) as [|x0 u0] eqn:Es; [done|]. rewrite (skip_more _ e _ _ Es). rewrite app_comm_cons. by apply scalar_more.
  - cbn [members] in H |- *. destruct (next_byte u) as [[c r0]|] eqn:En; [|done]. rewrite (next_more _ e _ _ En).
    cbn [mbind option_bind] in H |- *. destruct (c =? 34); [|done].
    destruct (string_body _ r0) as [[x r1]|] eqn:Eb; [|done]. rewrite (Hstr _ _ _ Eb). cbn [mbind option_bind] in H |- *.
    destruct (next_byte r1) as [[c2 r2]|] eqn:E2; [|done]. rewrite (next_more _ e _ _ E2). cbn [mbind option_bind] in H |- *.
    destruct (c2 =? 58); [|done]. destruct (document b f depth r2) as [[w r3]|] eqn:Ed; [|done]. cbn [mbind option_bind] in H.
    destruct (next_byte r3) as [[c4 r4]|] eqn:E4; [|done]. rewrite (IHd g _ _ _ _ Hg Ed) by (left; by eapply Hne). cbn [mbind option_bind] in H |- *.
    rewrite (next_more _ e _ _ E4). cbn [mbind option_bind]. destruct (c4 =? 44).
    + destruct (members b f _ r4) as [[l r5]|] eqn:Em; [|done]. rewrite (IHm g _ _ _ _ Hg Em). cbn in *. by injection H as <- <-.
    + destruct (c4 =? 125); [|done]. by injection H as <- <-.
  - cbn [elements] in H |- *. destruct (document b f depth u) as [[w r3]|] eqn:Ed; [|done]. cbn [mbind option_bind] in H.
    destruct (next_byte r3) as [[c4 r4]|] eqn:E4; [|done]. rewrite (IHd g _ _ _ _ Hg Ed) by (left; by eapply Hne). cbn [mbind option_bind] in H |- *.
    rewrite (next_more _ e _ _ E4). cbn [mbind option_bind]. destruct (c4 =? 44).
    + destruct (elements b f _ r4) as [[l r5]|] eqn:Em; [|done]. rewrite (IHe g _ _ _ _ Hg Em). cbn in *. by injection H as <- <-.
    + destruct (c4 =? 93); [|done]. by injection H as <- <-.
Qed.

(** The members of an object end with its brace. *)
Lemma members_last b f depth u l r : members b f depth u = Some (l, r) -> exists c y, u = c ++ y :: r /\ code y = 125.
Proof.
  revert depth u l. induction f as [|f IH]; intros depth u l H; [done|]. pose proof (members_shorter _ _ _ _ _ _ H) as Hl.
  assert (exists c, u = c ++ r) as [c0 Ec0].
  { destruct (proj1 (proj2 (document_consumed b _)) _ _ _ _ H) as (c & -> & _). by exists c. }
  cbn [members] in H. destruct (next_byte u) as [[c r0]|] eqn:En; [|done]. cbn [mbind option_bind] in H. destruct (c =? 34); [|done].
  destruct (string_body _ r0) as [[x r1]|] eqn:Eb; [|done]. cbn [mbind option_bind] in H.
  destruct (next_byte r1) as [[c2 r2]|] eqn:E2; [|done]. cbn [mbind option_bind] in H. destruct (c2 =? 58); [|done].
  destruct (document b f depth r2) as [[w r3]|] eqn:Ed; [|done]. cbn [mbind option_bind] in H.
  destruct (next_byte r3) as [[c4 r4]|] eqn:E4; [|done]. cbn [mbind option_bind] in H.
  assert (exists c', u = c' ++ r3) as [c3 ->].
  { apply next_byte_spec in En as (b1 & y1 & -> & _). destruct (string_whole _ _ _ _ Eb) as (k & q & -> & _).
    apply next_byte_spec in E2 as (b2 & y2 & -> & _). destruct (proj1 (document_consumed b _) _ _ _ _ Ed) as (k3 & -> & _).
    exists (b1 ++ y1 :: k ++ q :: b2 ++ y2 :: k3). rewrite <- !app_assoc. cbn. by rewrite <- !app_assoc; cbn; rewrite <- !app_assoc. }
  apply next_byte_spec in E4 as (b4 & y4 & -> & _ & _ & Hy4 & _). destruct (Z.eqb_spec c4 44).
  - destruct (members b f _ r4) as [[l5 r5]|] eqn:Em; [|done]. cbn in H. injection H as <- <-. destruct (IH _ _ _ Em) as (k & y & -> & Hy).
    exists (c3 ++ b4 ++ y4 :: k), y. split; [by rewrite <- !app_assoc|done].
  - destruct (Z.eqb_spec c4 125) as [->|]; [|done]. injection H as <- <-. exists (c3 ++ b4), y4. split; [by rewrite <- app_assoc|done].
Qed.

(** An object does not end with a backslash. *)
Lemma object_last u r0 : next_byte u = Some (123, r0) -> Unmarshal (u ++ [backslash]) = None.
Proof.
  intros Hn. unfold Unmarshal, whole_document. destruct (document true _ 0 (u ++ [backslash])) as [[v r]|] eqn:E; [|done]. cbn [mbind option_bind].
  destruct (skip_blank r) eqn:Er; [|done]. exfalso. cbn [document] in E. rewrite (next_more _ [backslash] _ _ Hn) in E. cbn [mbind option_bind Z.eqb Pos.eqb] in E.
  destruct (maxNestingDepth <=? 0); [done|]. apply next_byte_spec in Hn as (b & y & -> & _ & _ & Hy & _).
  assert (exists k x, r0 ++ [backslash] = k ++ x :: r /\ code x = 125) as (k & x & Ek & Hx).
  { destruct (next_byte (r0 ++ [backslash])) as [[c1 r1]|] eqn:E1; [|done]. cbn [mbind option_bind] in E. destruct (Z.eqb_spec c1 125) as [->|].
    - injection E as <- <-. apply next_byte_spec in E1 as (b1 & y1 & -> & _ & _ & Hy1 & _). by exists b1, y1.
    - destruct (members _ _ _ _) as [[l r2]|] eqn:Em; [|done]. cbn in E. injection E as <- <-. by eapply members_last. }
  destruct r as [|z r _] using rev_ind.
  - apply app_inj_tail in Ek as [_ <-]. done.
  - rewrite app_comm_cons, app_assoc in Ek. apply app_inj_tail in Ek as [_ <-]. unfold skip_blank in Er. rewrite drop_head_span in Er.
    pose proof (span_spec is_blank (r ++ [backslash])) as (Es & Hb & _). rewrite Er, app_nil_r in Es. rewrite <- Es in Hb.
    apply Forall_app in Hb as [_ Hb]. by inversion Hb.
Qed.

(** ** Trimming *)

Lemma runes_cons c x : code c < 128 -> runes (c :: x) = (code c, [c]) :: runes x.
Proof.
  intros H. unfold runes. cbn [length runes_fuel]. unfold decode_rune at 1. rewrite (proj2 (Z.ltb_lt _ _) H). done.
Qed.

Lemma drop_tail_app {A} (p : A -> bool) l1 x l2 : p x = false -> drop_tail p (l1 ++ x :: l2) = l1 ++ x :: drop_tail p l2.
Proof.
  intros Hx. induction l1 as [|y l1 IH]; cbn.
  - destruct (drop_tail p l2); [by rewrite Hx|done].
  - rewrite IH. by destruct l1.
Qed.

Lemma drop_tail_all {A} (p : A -> bool) l : Forall (fun x => p x = true) l -> drop_tail p l = [].
Proof. induction 1 as [|x l Hx _ IH]; [done|]. cbn. by rewrite IH, Hx. Qed.

Lemma blank_space c : is_blank c = true -> code c < 128 /\ is_space (code c) = true.
Proof.
  unfold is_blank. intros H. rewrite existsb_exists in H. destruct H as (z & Hz & ->%Z.eqb_eq). cbn in Hz.
  destruct Hz as [<-|[<-|[<-|[<-|[]]]]]; done.
Qed.

Lemma runes_blanks b x : Forall (fun c => is_blank c = true) b -> exists l, runes (b ++ x) = l ++ runes x /\
  Forall (fun p => is_space p.1 = true) l.
Proof.
  induction 1 as [|c b Hc _ (l & E & Hl)]; [by exists []|]. apply blank_space in Hc as [Hc Hs]. exists ((code c, [c]) :: l). cbn [app].
  rewrite runes_cons, E by done. split; [done|by constructor].
Qed.

Lemma trim_open b x p : Forall (fun c => is_blank c = true) b -> code x = 123 -> exists p', trim_space (b ++ x :: p) = x :: p' /\ p' `prefix_of` p.
Proof.
  intros Hb Hx. unfold trim_space. destruct (runes_blanks b (x :: p) Hb) as (l & -> & Hl). rewrite runes_cons by lia.
  assert (is_space (code x) = false) as Hs by by rewrite Hx.
  rewrite drop_tail_app by done. destruct (drop_tail_prefix (fun x => is_space x.1) (runes p)) as (t & Et & _).
  assert (drop_head (fun x => is_space x.1) (l ++ (code x, [x]) :: drop_tail (fun x => is_space x.1) (runes p)) =
    (code x, [x]) :: drop_tail (fun x => is_space x.1) (runes p)) as ->.
  { clear -Hl Hs. induction Hl as [|y l Hy _ IH]; cbn [app drop_head fst] in *; [by rewrite Hs|by rewrite Hy]. }
  rewrite fmap_cons. cbn [concat snd app]. eexists. split; [reflexivity|]. rewrite <- (runes_concat p) at 2. rewrite Et at 2.
  rewrite fmap_app, concat_app. by eexists.
Qed.

Lemma trim_blanks b : Forall (fun c => is_blank c = true) b -> trim_space b = [].
Proof.
  intros Hb. destruct (runes_blanks b [] Hb) as (l & E & Hl). unfold trim_space. rewrite app_nil_r in E. rewrite E. cbn. rewrite app_nil_r.
  by rewrite drop_tail_all.
Qed.

(** ** The stream *)

(** A text that is an object, no empty array of which has blanks in it. *)
Definition tight_object (t : text) (l : list (text * json)) : Prop := whole_document false t = Some (JObject l).

Lemma tight_unmarshal t l : tight_object t l -> Unmarshal t = Some (JObject l).
Proof.
  unfold tight_object, Unmarshal, whole_document. destruct (document false _ 0 t) as [[v r]|] eqn:E; [|done]. cbn [mbind option_bind].
  destruct (skip_blank r) eqn:Er; [|done]. intros [= ->].
  pose proof (proj1 (document_more false true [] (S (length t)) (fun _ => eq_refl)) _ _ _ _ _ ltac:(done) E (or_intror I)) as H. rewrite !app_nil_r in H.
  rewrite H. cbn. by rewrite Er.
Qed.

Lemma tight_open t l : tight_object t l -> exists b x r, t = b ++ x :: r /\ Forall (fun c => is_blank c = true) b /\ is_blank x = false /\ code x = 123.
Proof.
  unfold tight_object, whole_document. destruct (document false _ 0 t) as [[v r]|] eqn:E; [|done]. cbn [mbind option_bind].
  destruct (skip_blank r); [|done]. intros [= ->]. cbn [document] in E. destruct (next_byte t) as [[c r0]|] eqn:En; [|done]. cbn [mbind option_bind] in E.
  apply next_byte_spec in En as (b & x & -> & Hb & Hx & Hc & Es). exists b, x, r0. split_and!; try done. rewrite Hc.
  destruct (Z.eqb_spec c 34); [by destruct (string_body _ _) as [[]|]|]. destruct (Z.eqb_spec c 123); [done|]. exfalso.
  destruct (c =? 91).
  - destruct (maxNestingDepth <=? 0); [done|]. destruct (next_byte r0) as [[c1 r1]|]; [|done]. cbn [mbind option_bind] in E.
    destruct (c1 =? 93); [by destruct (_ || _)|]. by destruct (elements _ _ _ _) as [[]|].
  - destruct (scalar_spec _ _ _ E) as [[_ ?]|[[_ ?]|[[_ ?]|(? & _ & ?)]]]; done.
Qed.

(** What the partial parser makes of a beginning. *)
Lemma partial_grows t l b x r p0 :
  tight_object t l -> t = b ++ x :: r -> Forall (fun c => is_blank c = true) b -> is_blank x = false -> code x = 123 ->
  p0 `prefix_of` r -> exists l', partialJSONParse (b ++ x :: p0) = Some (Some (JObject l')) /\ list_grows member_grows l' l.
Proof.
  intros Ht -> Hb Hbx Hx Hp. destruct (trim_open b x p0 Hb Hx) as (p' & Etrim & Hp'). unfold partialJSONParse. rewrite Etrim.
  set (s := x :: p'). unfold tight_object, whole_document in Ht.
  destruct (document false _ 0 (b ++ x :: r)) as [[v R]|] eqn:E; [|done]. cbn [mbind option_bind] in Ht. destruct (skip_blank R) eqn:Er; [|done]. injection Ht as ->.
  assert (skip_blank (b ++ x :: r) = x :: r) as Es.
  { clear -Hb Hbx. unfold skip_blank. induction Hb as [|y b Hy _ IH]; cbn [app drop_head]; [by rewrite Hbx|by rewrite Hy]. }
  rewrite <- document_skip, Es in E.
  assert (at_ s 0 (x :: r)) as Ha.
  { split; [lia|]. cbn [drop]. destruct Hp as [t1 ->], Hp' as [t2 ->]. exists (t2 ++ t1). unfold s. cbn. by rewrite app_assoc. }
  assert (next_byte (x :: r) = Some (123, r)) as En by (unfold next_byte; rewrite <- Es, skip_skip, Es, Hx; done).
  pose proof (proj1 (document_at s _) 0 0%nat (x :: r) (JObject l) R Ha (or_intror (ex_intro _ r En)) E) as Hd. unfold boundary in Hd. rewrite Er in Hd.
  specialize (Hd I). cbv zeta in Hd.
  assert (exists res, parseAny (partial_fuel s) s 0 = Some res) as [res Eres].
  { destruct (proj1 (parse_enough (partial_fuel s) s) 0%nat) as [res Eres]; [unfold partial_fuel; lia|]. by exists res. }
  assert (forall g res', parseAny g s 0 = Some res' -> res' = res) as Hdet.
  { intros g res' Hg. pose proof (proj1 (parse_mono g (Nat.max g (partial_fuel s)) s ltac:(lia)) _ _ Hg) as H1.
    pose proof (proj1 (parse_mono (partial_fuel s) (Nat.max g (partial_fuel s)) s ltac:(lia)) _ _ Eres) as H2. congruence. }
  assert (exists l' j, res = Ok (JObject l', j)) as (l' & j & ->).
  { assert (skip_from s 0 = 0%nat) as E0.
    { unfold skip_from, s. rewrite drop_0. cbn [span]. rewrite Hbx. done. }
    unfold partial_fuel in Eres. replace (2 * length s + 2)%nat with (S (2 * length s + 1)) in Eres by lia.
    rewrite (any_dispatch s _ 0 x) in Eres by by rewrite E0. rewrite Hx in Eres. cbn [Z.eqb Pos.eqb] in Eres.
    destruct (parseObj _ _ _ _) as [[l' j]|]; [|done]. injection Eres as <-. by exists l', j. }
  fold s. rewrite Eres. exists l'. split; [done|]. case_decide.
  - destruct Hd as (g & j' & Hg & _). apply Hdet in Hg. injection Hg as -> _. left. done.
  - destruct Hd as (g & res' & Hg & Hr). apply Hdet in Hg as ->. destruct Hr as [Hr _]. inversion Hr as [v Ev| | | | |l1 l2 Hl E1 E2|a k w v0 b0 Hw E1 E2]; subst.
    + by left.
    + by left.
    + right. exists a, (k, w), (k, v0), b0. split_and!; [done|done|]. by split.
Qed.

(** ** Properties *)

(** C12: what is read of streamed arguments is always a beginning of what they
    will be.  When the whole text is a JSON object in which no empty array is
    written with blanks, then for each of its beginnings the result is a
    beginning of the object: the members written completely are there, in
    order and with their values, and at most one more, the last, whose value is
    itself a beginning (a string up to a broken character, a number with some
    other value, an array or object likewise); the whole text gives the whole
    object. *)
Theorem streaming_grows t l p :
  tight_object t l -> p `prefix_of` t ->
  exists l', ParseStreamingJSON p = Some l' /\ list_grows member_grows l' l /\ (p = t -> l' = l).
Proof.
  intros Ht Hp. destruct (tight_open t l Ht) as (b & x & r & Et & Hb & Hbx & Hx). pose proof (tight_unmarshal t l Ht) as Hu.
  destruct Hp as [e Ee]. rewrite Et in Ee. destruct (decide (length p <= length b)%nat) as [Hl|Hl].
  { destruct (cut_app _ _ _ _ (eq_sym Ee) Hl) as (e' & -> & _). apply Forall_app in Hb as [Hb _]. exists []. unfold ParseStreamingJSON.
    rewrite (trim_blanks p Hb). split; [done|]. split; [apply prefix_empty|]. intros ->. apply (f_equal length) in Et. rewrite !length_app in Et. cbn in Et. lia. }
  destruct (cut_app _ _ _ _ Ee) as (p1 & Ep & Ee1); [lia|]. destruct p1 as [|x' p0]; [rewrite app_nil_r in Ep; subst; lia|]. injection Ee1 as <- Er.
  destruct (partial_grows t l b x r p0 Ht Et Hb Hbx Hx) as (l' & El & Hl'); [by eexists|]. subst p.
  unfold ParseStreamingJSON. destruct (trim_open b x p0 Hb Hx) as (p' & -> & _). rewrite El.
  assert (next_byte (b ++ x :: p0) = Some (123, p0)) as En.
  { unfold next_byte, skip_blank. clear -Hb Hbx Hx. induction Hb as [|y b Hy _ IH]; cbn [app drop_head]; [by rewrite Hbx, Hx|by rewrite Hy]. }
  assert (t = (b ++ x :: p0) ++ e) as Et' by (rewrite Et, Er, <- app_assoc; done).
  unfold decodeJSONValue. destruct (Unmarshal (b ++ x :: p0)) as [v|] eqn:Ev.
  - assert (v = JObject l) as ->.
    { unfold Unmarshal, whole_document in Ev, Hu. destruct (document true _ 0 (b ++ x :: p0)) as [[v0 r0]|] eqn:Ed; [|done]. cbn [mbind option_bind] in Ev.
      destruct (skip_blank r0); [|done]. injection Ev as ->.
      assert (self_delimited v) as Hv.
      { cbn [document] in Ed. rewrite En in Ed. cbn [mbind option_bind Z.eqb Pos.eqb] in Ed. destruct (maxNestingDepth <=? 0); [done|].
        destruct (next_byte p0) as [[c1 r1]|]; [|done]. cbn [mbind option_bind] in Ed. destruct (c1 =? 125); [by injection Ed as <- _|].
        destruct (members _ _ _ _) as [[]|]; [|done]. by injection Ed as <- _. }
      assert (S (length (b ++ x :: p0)) <= S (length t))%nat as Hle by (rewrite Et'; rewrite !length_app; lia).
      pose proof (proj1 (document_more true true e (S (length (b ++ x :: p0))) (fun H => H)) (S (length t)) 0 _ v r0 Hle Ed (or_intror Hv)) as Hd.
      rewrite <- Et' in Hd. rewrite Hd in Hu. cbn [mbind option_bind] in Hu. destruct (skip_blank _); [|done]. by injection Hu as ->. }
    exists l. cbn. split; [done|]. split; [by left|done].
  - assert ((if decide (RepairJSON (b ++ x :: p0) = b ++ x :: p0) then None else Unmarshal (RepairJSON (b ++ x :: p0))) = None) as ->.
    { case_decide as Hrep; [done|]. pose proof (whole_unrepaired false t (JObject l) Ht) as Hwu. unfold RepairJSON in Hwu.
      destruct (repair_prefix 0 false t (b ++ x :: p0) Hwu) as [E|E]; [by exists e|done|]. unfold RepairJSON. rewrite E. by eapply object_last. }
    cbn. exists l'. split; [done|]. split; [done|]. intros Heq. exfalso. rewrite Heq, Hu in Ev. done.
Qed.

(** A JSON text is its own repair, repairing twice is repairing once, and a
    string literal whose control characters were left raw, with only quotes and
    backslashes escaped, is read after repair as the text that was meant (its
    malformed bytes replaced). *)
Theorem repair_sound :
  (forall t v, Unmarshal t = Some v -> RepairJSON t = t) /\
  (forall t, RepairJSON (RepairJSON t) = RepairJSON t) /\
  (forall x, Unmarshal (RepairJSON (raw_literal x)) = Some (JString (map_runes (fun r => r) x))).
Proof.
  split_and!.
  - apply whole_unrepaired.
  - intros t. apply repair_idempotent.
  - intros x. unfold RepairJSON, raw_literal. change (repair 0 false (quote_char :: raw_chars x ++ [quote_char])) with (quote_char :: rest_of x).
    apply unmarshal_literal; [done|]. apply rest_of_reads.
Qed.

(** ** Examples *)

(** Apostrophes for quotes. *)
Definition quoted_text (x : string) : text := (fun c => if code c =? 39 then quote_char else c) <$> lit x.

(** An empty array written with a blank is not closed: the bracket closes the
    array around it. *)
Example blank_array_misread :
  Unmarshal (quoted_text "{'a':[[[ ],1],2]}") =
    Some (JObject [(lit "a", JArray [JArray [JArray []; JNumber (nearest false 1 0)]; JNumber (nearest false 2 0)])]) /\
  ParseStreamingJSON (quoted_text "{'a':[[[ ],1],2]") = Some [(lit "a", JArray [JArray [JArray []]; JNumber (nearest false 1 0)])].
Proof. split; vm_compute; reflexivity. Qed.

Lemma streaming_grows_witness :
  exists l', ParseStreamingJSON (quoted_text "{'path':'a\u00") = Some l' /\
    list_grows member_grows l' [(lit "path", JString [byte 97; byte 195; byte 169]); (lit "n", JArray [JNumber (nearest false 12 0)])] /\
    l' = [(lit "path", JString [byte 97])].
Proof.
  destruct (streaming_grows (quoted_text "{'path':'a\u00e9', 'n':[12]}")
    [(lit "path", JString [byte 97; byte 195; byte 169]); (lit "n", JArray [JNumber (nearest false 12 0)])]
    (quoted_text "{'path':'a\u00")) as (l' & E & Hg & _).
  - vm_compute. reflexivity.
  - exists (quoted_text "e9', 'n':[12]}"). vm_compute. reflexivity.
  - exists l'. split; [exact E|]. split; [exact Hg|]. vm_compute in E. by injection E as <-.
Defined.

Lemma repair_sound_witness :
  RepairJSON (quoted_text "{'a':[1,2]}") = quoted_text "{'a':[1,2]}" /\
  Unmarshal (RepairJSON (raw_literal [byte 97; byte 10; quote_char; byte 98])) = Some (JString [byte 97; byte 10; quote_char; byte 98]).
Proof.
  destruct repair_sound as (H1 & _ & H3). split.
  - eapply H1. vm_compute. reflexivity.
  - rewrite H3. vm_compute. reflexivity.
Defined.
