(* ===== verification/GoValue.v ===== *)
(** * Numbers and quoted strings ([strconv])

    What the sources call of the package [strconv] beyond integers: a
    [float64] is a value of [spec_float], written with the fewest digits that
    read back as it ([FormatFloat] with precision -1) and read from every form
    [ParseFloat] takes; [Quote] writes a string as a Go literal.  Whether a
    character is printable is data of the Unicode tables, a parameter. *)

From S2P Require Import Prelude GoText PiModel Estimate Json.
From Stdlib Require Import Ascii SpecFloat.

Open Scope Z_scope.

(** ** Definitions *)

(** *** Writing floats *)

(** A positive number in decimal: its digits, and the place of the point before
    or after them, as in [0.d1d2... * 10^point]. *)
Record decimal : Type := mkDecimal {
  dc_digits : Z;
  dc_count : Z;
  dc_point : Z
}.

(** The decimal digits of a number that may be wider than an [int]. *)
Definition decimal_text (z : Z) : text := let n := Z.to_N z in digits (S (N.size_nat n)) n [].

Definition count_digits (z : Z) : Z := len (decimal_text z).

(** The float nearest to [m * 10^e] with the precision [prec] and the greatest
    exponent [emax]. *)
Definition nearest_in (prec emax : Z) (m e : Z) : spec_float :=
  match m with
  | Z.pos p =>
      if 0 <=? e then binary_normalize prec emax (m * 10 ^ e) 0 false
      else SFdiv prec emax (S754_finite false p 0) (S754_finite false (Z.to_pos (10 ^ (- e))) 0)
  | _ => S754_zero false
  end.

Definition same_float (a b : spec_float) : bool :=
  match a, b with
  | S754_finite _ m e, S754_finite _ m' e' => (Z.pos m =? Z.pos m') && (e =? e')
  | _, _ => false
  end.

(** The value [m * 2^e] times [10^k], rounded down, and whether the rest is less
    than, equal to or more than a half. *)
Definition scaled (m : positive) (e k : Z) : Z * comparison :=
  let num := Z.pos m * (if 0 <=? e then 2 ^ e else 1) * (if 0 <=? k then 10 ^ k else 1) in
  let den := (if 0 <=? e then 1 else 2 ^ (- e)) * (if 0 <=? k then 1 else 10 ^ (- k)) in
  (num / den, (2 * (num mod den) ?= den)).

(** The place of the decimal point: every float is above [10^-400]. *)
Definition decimal_point (m : positive) (e : Z) : Z := count_digits (scaled m e 400).1 - 400.

Section Widths.
Context (prec emax : Z).

(** [n] digits that read back as the float, the nearest of them if both
    neighbours do. *)
Definition digits_at (m : positive) (e : Z) (n : Z) : option decimal :=
  let point := decimal_point m e in
  let (q, half) := scaled m e (n - point) in
  let reads d := same_float (nearest_in prec emax d (point - n)) (S754_finite false m e) in
  let down := reads q in
  let up := reads (q + 1) in
  let d :=
    if down && up then Some (match half with Lt => q | Eq => if Z.even q then q else q + 1 | Gt => q + 1 end)
    else if down then Some q
    else if up then Some (q + 1)
    else None in
  match d with
  | Some d =>
      if d =? 10 ^ n then Some {| dc_digits := 1; dc_count := 1; dc_point := point + 1 |}
      else Some {| dc_digits := d; dc_count := n; dc_point := point |}
  | None => None
  end.

Fixpoint first_digits (fuel : nat) (m : positive) (e : Z) (n : Z) : option decimal :=
  match fuel with
  | O => None
  | S fuel => match digits_at m e n with Some d => Some d | None => first_digits fuel m e (n + 1) end
  end.

(** The fewest digits; seventeen are always enough. *)
Definition shortest (m : positive) (e : Z) : decimal :=
  match first_digits 17 m e 1 with
  | Some d => d
  | None => {| dc_digits := (scaled m e (17 - decimal_point m e)).1; dc_count := 17; dc_point := decimal_point m e |}
  end.
End Widths.

Definition zeros (n : Z) : text := repeat (byte 48) (Z.to_nat n).

(** [%e]: one digit, the others, and an exponent of at least two digits. *)
Definition format_e (d : decimal) : text :=
  let ds := decimal_text (dc_digits d) in
  let x := dc_point d - 1 in
  take 1 ds ++ (if 1 <? dc_count d then lit "." ++ drop 1 ds else []) ++
  lit "e" ++ (if x <? 0 then lit "-" else lit "+") ++ (if Z.abs x <? 10 then lit "0" else []) ++ itoa (Z.abs x).

(** [%f]: no exponent. *)
Definition format_f (d : decimal) : text :=
  let ds := decimal_text (dc_digits d) in
  let p := dc_point d in
  if p <=? 0 then lit "0." ++ zeros (- p) ++ ds
  else if dc_count d <=? p then ds ++ zeros (p - dc_count d)
  else take (Z.to_nat p) ds ++ lit "." ++ drop (Z.to_nat p) ds.

Definition minus (neg : bool) : text := if neg then lit "-" else [].

(** [strconv.FormatFloat(f, 'f', -1, 64)] *)
Definition FormatFloat (f : spec_float) : text :=
  match f with
  | S754_nan => lit "NaN"
  | S754_infinity neg => (if neg then lit "-" else lit "+") ++ lit "Inf"
  | S754_zero neg => minus neg ++ lit "0"
  | S754_finite neg m e => minus neg ++ format_f (shortest 53 1024 m e)
  end.

(** *** Reading floats *)

Definition lower (c : ascii) : Z := Z.lor (code c) 32.

Fixpoint commonPrefixLenIgnoreCase (s prefix : text) : Z :=
  match s, prefix with
  | c :: s, p :: prefix =>
      if (if in_range 65 90 (code c) then code c + 32 else code c) =? code p then 1 + commonPrefixLenIgnoreCase s prefix else 0
  | _, _ => 0
  end.

(** Infinities and NaN, and the bytes they take. *)
Definition special (s : text) : option (spec_float * Z) :=
  let inf neg nsign s :=
    let n := commonPrefixLenIgnoreCase s (lit "infinity") in
    let n := if (3 <? n) && (n <? 8) then 3 else n in
    if (n =? 3) || (n =? 8) then Some (S754_infinity neg, nsign + n) else None in
  match s with
  | c :: r =>
      if code c =? 43 then inf false 1 r
      else if code c =? 45 then inf true 1 r
      else if (lower c =? 105) then inf false 0 s
      else if (lower c =? 110) && (commonPrefixLenIgnoreCase s (lit "nan") =? 3) then Some (S754_nan, 3)
      else None
  | [] => None
  end.

Definition hex_value (c : ascii) : option Z :=
  let l := lower c in
  if is_digit c then Some (code c - 48) else if in_range 97 102 l then Some (l - 87) else None.

(** What the loop over the mantissa has seen: the digits as a number, how many
    follow the point, whether there was a point, a digit, an underscore. *)
Record mantissa : Type := mkMantissa {
  mt_value : Z;
  mt_frac : Z;
  mt_dot : bool;
  mt_digits : bool;
  mt_underscores : bool
}.

Fixpoint read_mantissa (hex : bool) (s : text) (a : mantissa) : mantissa * text :=
  match s with
  | [] => (a, [])
  | c :: r =>
      if code c =? 95 then
        read_mantissa hex r {| mt_value := mt_value a; mt_frac := mt_frac a; mt_dot := mt_dot a; mt_digits := mt_digits a; mt_underscores := true |}
      else if code c =? 46 then
        if mt_dot a then (a, s)
        else read_mantissa hex r {| mt_value := mt_value a; mt_frac := mt_frac a; mt_dot := true; mt_digits := mt_digits a; mt_underscores := mt_underscores a |}
      else
        match (if hex then hex_value c else if is_digit c then Some (code c - 48) else None) with
        | Some d =>
            read_mantissa hex r
              {| mt_value := (if hex then 16 else 10) * mt_value a + d; mt_frac := mt_frac a + (if mt_dot a then 1 else 0);
                 mt_dot := mt_dot a; mt_digits := true; mt_underscores := mt_underscores a |}
        | None => (a, s)
        end
  end.

(** The digits of an exponent, which stop counting at ten thousand. *)
Fixpoint read_exponent (s : text) (e : Z) (underscores : bool) : Z * bool * text :=
  match s with
  | c :: r =>
      if code c =? 95 then read_exponent r e true
      else if is_digit c then read_exponent r (if e <? 10000 then 10 * e + (code c - 48) else e) underscores
      else (e, underscores, s)
  | [] => (e, underscores, [])
  end.

(** Underscores must be between digits. *)
Fixpoint underscores_separate (hex : bool) (saw : Z) (s : text) : bool :=
  match s with
  | [] => negb (saw =? 95)
  | c :: r =>
      if is_digit c || (hex && in_range 97 102 (lower c)) then underscores_separate hex 48 r
      else if code c =? 95 then if saw =? 48 then underscores_separate hex 95 r else false
      else if saw =? 95 then false
      else underscores_separate hex 33 r
  end.

Definition underscoreOK (s : text) : bool :=
  let s := match s with c :: r => if (code c =? 45) || (code c =? 43) then r else s | [] => s end in
  match s with
  | a :: b :: r =>
      if (code a =? 48) && existsb (Z.eqb (lower b)) [98; 111; 120] then underscores_separate (lower b =? 120) 48 r
      else underscores_separate false 94 s
  | _ => underscores_separate false 94 s
  end.

(** The text as a whole number times a power of the base's root (ten, or two in
    hexadecimal); all of it must be taken. *)
Definition readFloat (s : text) : option (bool * bool * Z * Z) :=
  let '(neg, r) := match s with c :: r => if code c =? 43 then (false, r) else if code c =? 45 then (true, r) else (false, s) | [] => (false, s) end in
  let '(hex, r) := match r with a :: b :: (_ :: _) as t => if (code a =? 48) && (lower b =? 120) then (true, drop 2 r) else (false, r) | _ => (false, r) end in
  let '(a, r) := read_mantissa hex r (mkMantissa 0 0 false false false) in
  if negb (mt_digits a) then None
  else
    '(e, underscores, r) ←
      match r with
      | c :: r' =>
          if lower c =? (if hex then 112 else 101) then
            let '(neg, r') := match r' with d :: t => if code d =? 43 then (false, t) else if code d =? 45 then (true, t) else (false, r') | [] => (false, r') end in
            match r' with
            | d :: _ =>
                if is_digit d then let '(e, u, t) := read_exponent r' 0 (mt_underscores a) in Some (if neg : bool then - e else e, u, t) else None
            | [] => None
            end
          else if hex then None else Some (0, mt_underscores a, r)
      | [] => if hex then None else Some (0, mt_underscores a, r)
      end;
    match r with
    | [] =>
        if underscores && negb (underscoreOK s) then None
        else Some (neg, hex, mt_value a, e - (if hex then 4 else 1) * mt_frac a)
    | _ => None
    end.

(** [strconv.ParseFloat(s, 64)]; any error, out of range too, is [None]. *)
Definition ParseFloat (s : text) : option spec_float :=
  match special s with
  | Some (f, n) => if n =? len s then Some f else None
  | None =>
      '(neg, hex, m, e) ← readFloat s;
      if hex : bool then
        match binary_normalize 53 1024 (if neg : bool then - m else m) e neg with
        | S754_infinity _ | S754_nan => None
        | f => Some f
        end
      else parse_float neg m e
  end.

(** [math.Trunc(f) == f]: the infinities are whole, NaN is not. *)
Definition is_whole (f : spec_float) : bool :=
  match f with
  | S754_nan => false
  | S754_zero _ | S754_infinity _ => true
  | S754_finite _ m e => (0 <=? e) || (Z.pos m mod 2 ^ (- e) =? 0)
  end.

(** *** Quoting *)

Section Quoting.
Context (IsPrint : Z -> bool).

Definition hex_lower (n : Z) : ascii := byte (if n <? 10 then 48 + n else 87 + n).

(** [n] hexadecimal digits. *)
Fixpoint hex_text (n : nat) (z : Z) : text :=
  match n with
  | O => []
  | S n => hex_lower (Z.shiftr z (4 * Z.of_nat n) mod 16) :: hex_text n z
  end.

Definition backslash (c : Z) : text := [byte 92; byte c].

(** [appendEscapedRune] *)
Definition quoted_rune (r : Z) : text :=
  if (r =? 34) || (r =? 92) then backslash r
  else if IsPrint r then encode_rune r
  else if r =? 7 then backslash 97
  else if r =? 8 then backslash 98
  else if r =? 12 then backslash 102
  else if r =? 10 then backslash 110
  else if r =? 13 then backslash 114
  else if r =? 9 then backslash 116
  else if r =? 11 then backslash 118
  else if (r <? 32) || (r =? 0x7f) then backslash 120 ++ hex_text 2 r
  else if r <? 0x10000 then backslash 117 ++ hex_text 4 r
  else backslash 85 ++ hex_text 8 r.

(** [strconv.Quote] *)
Definition Quote (s : text) : text :=
  let one '(r, bytes) :=
    match bytes with
    | [c] => if r =? rune_error then backslash 120 ++ hex_text 2 (code c) else quoted_rune r
    | _ => quoted_rune r
    end in
  [byte 34] ++ concat (one <$> runes s) ++ [byte 34].
End Quoting.

(** ** Examples *)

Definition sample (m e : Z) : spec_float := nearest false m e.

Example formats :
  FormatFloat <$> [sample 1 0; sample 1 (-1); sample 3 (-1); sample 123456789 (-4); sample 5 (-324); sample 17976931348623157 292;
    sample 99999999999999999 0; sample 9007199254740993 0] =
  [lit "1"; lit "0.1"; lit "0.3"; lit "12345.6789"; lit "0." ++ zeros 323 ++ lit "5"; lit "17976931348623157" ++ zeros 292;
    lit "100000000000000000"; lit "9007199254740992"].
Proof. vm_compute. reflexivity. Qed.

Example parses :
  ParseFloat <$> (lit <$> ["1"; "+.5e1"; "0x1p-2"; "1_0"; "1__0"; "Inf"; "-infinity"; "infin"; "1e400"; ""; "0x1"; "1e"; "-0"]%string) =
  [Some (sample 1 0); Some (sample 5 0); Some (sample 25 (-2)); Some (sample 10 0); None; Some (S754_infinity false); Some (S754_infinity true);
   None; None; None; None; None; Some (S754_zero true)].
Proof. vm_compute. reflexivity. Qed.

(** * Values of type [any] ([encoding/json])

    The values that decoding and Go literals put behind the type [any] where
    numbers matter: each of Go's number types apart, a map as the list of its
    entries in no particular order, each key once.  [Marshal] and
    [MarshalIndent] are the encoder, [None] its error. *)

(** ** Definitions *)

Inductive go : Type :=
| VNil
| VBool (b : bool)
| VFloat64 (f : spec_float)
| VFloat32 (f : spec_float)
| VInt (n : Z)
| VInt64 (n : Z)
| VNumber (literal : text)
| VString (s : string)
| VArray (l : list go)
| VObject (entries : list (string * go)).

Definition entries : Type := list (string * go).

(** *** Maps *)

Fixpoint map_get {A} (m : list (string * A)) (key : string) : option A :=
  match m with
  | [] => None
  | (k, v) :: m => if String.eqb k key then Some v else map_get m key
  end.

(** [m[key] = v] *)
Fixpoint map_set {A} (m : list (string * A)) (key : string) (v : A) : list (string * A) :=
  match m with
  | [] => [(key, v)]
  | (k, w) :: m => if String.eqb k key then (k, v) :: m else (k, w) :: map_set m key v
  end.

Fixpoint map_delete {A} (m : list (string * A)) (key : string) : list (string * A) :=
  match m with
  | [] => []
  | (k, w) :: m => if String.eqb k key then m else (k, w) :: map_delete m key
  end.

Definition keys {A} (m : list (string * A)) : list string := m.*1.

Fixpoint insert_entry {A} (x : string * A) (l : list (string * A)) : list (string * A) :=
  match l with
  | [] => [x]
  | y :: r => if String.leb x.1 y.1 then x :: l else y :: insert_entry x r
  end.

(** The entries by ascending key. *)
Definition sort_entries {A} (l : list (string * A)) : list (string * A) := foldr insert_entry [] l.

(** *** Encoding *)

Definition is_nil (v : go) : bool := match v with VNil => true | _ => false end.

(** [isValidNumber]: the grammar of a JSON number. *)
Definition isValidNumber (s : text) : bool :=
  match '(_, s) ← int_part (sign_part s).2; '(_, s) ← frac_part s; exp_part s with
  | Some (_, []) => true
  | _ => false
  end.

(** The encoder's exponents have no leading zero: e-09 becomes e-9. *)
Definition trim_exponent (s : text) : text :=
  match rev s with
  | d :: z :: sign :: e :: r =>
      if (code e =? 101) && ((code sign =? 45) || (code sign =? 43)) && (code z =? 48) then rev (d :: sign :: e :: r) else s
  | _ => s
  end.

(** A float of the precision and range given: plain, or with an exponent below
    [10^-6] and from [10^21]. *)
Definition marshal_float (prec emax : Z) (f : spec_float) : option text :=
  match f with
  | S754_zero neg => Some (minus neg ++ lit "0")
  | S754_finite neg m e =>
      let abs := S754_finite false m e in
      let d := shortest prec emax m e in
      Some (minus neg ++
        if SFltb abs (nearest_in prec emax 1 (-6)) || SFleb (nearest_in prec emax 1 21) abs
        then trim_exponent (format_e d) else format_f d)
  | _ => None
  end.

Section Layout.
(** Whether lines are broken and indented. *)
Context (indented : bool).

Definition line_start (depth : nat) : text := if indented then newline :: concat (repeat (lit "  ") depth) else [].

Definition bracket (depth : nat) (l r : text) (parts : list text) : text :=
  match parts with
  | [] => l ++ r
  | _ => l ++ line_start (S depth) ++ join (lit "," ++ line_start (S depth)) parts ++ line_start depth ++ r
  end.

Fixpoint encode (depth : nat) (v : go) : option text :=
  match v with
  | VNil => Some (lit "null")
  | VBool b => Some (lit (if b then "true" else "false"))
  | VFloat64 f => marshal_float 53 1024 f
  | VFloat32 f => marshal_float 24 128 f
  | VInt n | VInt64 n => Some (itoa n)
  | VNumber s => let s := if decide (s = []) then lit "0" else s in if isValidNumber s then Some s else None
  | VString s => Some (json_string s)
  | VArray l => bracket depth (lit "[") (lit "]") <$> mapM (encode (S depth)) l
  | VObject m =>
      bracket depth (lit "{") (lit "}") <$>
        mapM (fun e => (fun t => json_string e.1 ++ lit ":" ++ (if indented then lit " " else []) ++ t) <$> e.2)
          (sort_entries ((fun e => (e.1, encode (S depth) e.2)) <$> m))
  end.
End Layout.

(** [json.Marshal(v)] *)
Definition Marshal (v : go) : option text := encode false 0 v.

(** [json.MarshalIndent(v, "", "  ")] *)
Definition MarshalIndent (v : go) : option text := encode true 0 v.

(** [float64(n)] *)
Definition float_of_int (n : Z) : spec_float := binary_normalize 53 1024 n 0 false.

(** ** Lemmas *)

(** Induction with a hypothesis for every element and entry. *)
Lemma go_ind' (P : go -> Prop) :
  P VNil -> (forall b, P (VBool b)) -> (forall f, P (VFloat64 f)) -> (forall f, P (VFloat32 f)) -> (forall n, P (VInt n)) ->
  (forall n, P (VInt64 n)) -> (forall s, P (VNumber s)) -> (forall s, P (VString s)) ->
  (forall l, Forall P l -> P (VArray l)) -> (forall m, Forall (fun e => P e.2) m -> P (VObject m)) -> forall v, P v.
Proof.
  intros H1 H2 H3 H4 H5 H6 H7 H8 Hl Hm. fix IH 1. intros [| | | | | | | |l|m]; [exact H1|apply H2|apply H3|apply H4|apply H5|apply H6|apply H7|apply H8|apply Hl|apply Hm].
  - induction l; constructor; auto.
  - induction m as [|[k v] m IHm]; constructor; [apply IH|exact IHm].
Qed.

Lemma map_get_None {A} (m : list (string * A)) key : map_get m key = None <-> key ∉ keys m.
Proof.
  induction m as [|[k v] m IH]; cbn; [split; [by intros _ ?%elem_of_nil|done]|]. rewrite not_elem_of_cons.
  destruct (String.eqb_spec k key) as [->|Hn]; [split; [done|by intros []]|]. rewrite IH. naive_solver.
Qed.

Lemma map_get_Some {A} (m : list (string * A)) key v : map_get m key = Some v -> (key, v) ∈ m.
Proof.
  induction m as [|[k w] m IH]; [done|]. cbn. destruct (String.eqb_spec k key) as [->|Hn].
  - intros [= ->]. left.
  - intros H. right. auto.
Qed.

Lemma map_get_iff {A} (m : list (string * A)) key v : NoDup (keys m) -> map_get m key = Some v <-> (key, v) ∈ m.
Proof.
  split; [apply map_get_Some|]. induction m as [|[k w] m IH]; [by intros ?%elem_of_nil|]. cbn in *.
  apply NoDup_cons in H as [Hk Hm]. intros [[= -> ->]|He]%elem_of_cons; [by rewrite String.eqb_refl|].
  destruct (String.eqb_spec k key) as [->|]; [|auto]. destruct Hk. apply list_elem_of_fmap. by exists (key, v).
Qed.

(** Writing back what is there changes nothing. *)
Lemma map_set_id {A} (m : list (string * A)) key v : map_get m key = Some v -> map_set m key v = m.
Proof. induction m as [|[k w] m IH]; [done|]. cbn. destruct (String.eqb_spec k key); [by intros [= ->]|]. intros H. by rewrite IH. Qed.

Lemma map_get_set {A} (m : list (string * A)) key v k : map_get (map_set m key v) k = if String.eqb key k then Some v else map_get m k.
Proof.
  induction m as [|[k' w] m IH]; cbn; [done|]. destruct (String.eqb_spec k' key) as [->|Hn]; cbn.
  - by destruct (String.eqb key k).
  - rewrite IH. destruct (String.eqb_spec k' k) as [->|]; [|done]. by destruct (String.eqb_spec key k).
Qed.

Lemma keys_set {A} (m : list (string * A)) key v : key ∈ keys m -> keys (map_set m key v) = keys m.
Proof.
  induction m as [|[k w] m IH]; [by intros ?%elem_of_nil|]. cbn. destruct (String.eqb_spec k key) as [->|Hn]; [done|].
  intros [->|H]%elem_of_cons; [done|]. cbn. f_equal. auto.
Qed.

Lemma map_delete_sublist {A} (m : list (string * A)) key : map_delete m key `sublist_of` m.
Proof. induction m as [|[k w] m IH]; [done|]. cbn. destruct (String.eqb k key); by constructor. Qed.

Lemma NoDup_delete {A} (m : list (string * A)) key : NoDup (keys m) -> NoDup (keys (map_delete m key)).
Proof. intros H. eapply sublist_NoDup; [exact H|]. apply fmap_sublist, map_delete_sublist. Qed.

Lemma map_get_delete {A} (m : list (string * A)) key k : NoDup (keys m) -> map_get (map_delete m key) k = if String.eqb key k then None else map_get m k.
Proof.
  induction m as [|[k' w] m IH]; cbn; [by destruct (String.eqb _ _)|]. intros [Hk Hm]%NoDup_cons. destruct (String.eqb_spec k' key) as [->|Hn]; cbn.
  - destruct (String.eqb_spec key k) as [->|]; [by apply map_get_None|done].
  - rewrite IH by done. destruct (String.eqb_spec k' k) as [->|]; [|done]. by destruct (String.eqb_spec key k).
Qed.
