(* ===== verification/Schema.v ===== *)
(** * Schemas of tool parameters ([internal/pi/model/schema.go])

    A schema is a pointer that may be nil to a node of keywords.  [Properties]
    is a map: [None] when nil, its entries in no particular order.  [Check] is
    the check on a schema itself, the constructors those of the tools. *)

From S2P Require Import Prelude GoText PiModel Estimate Compaction Json GoValue.
From Stdlib Require Import Ascii SpecFloat.

Open Scope Z_scope.

(** ** Definitions *)

Record node (S : Type) : Type := mkNode {
  Type_ : string;
  Description : string;
  Properties : option (list (string * S));
  PropertyOrder : list string;
  Required : list string;
  Items : S;
  Enum : list go;
  Default : go;
  AdditionalAllowed : option bool;
  AdditionalSchema : S;
  Minimum : option spec_float;
  Maximum : option spec_float;
  ExclusiveMinimum : option spec_float;
  ExclusiveMaximum : option spec_float;
  MultipleOf : option spec_float;
  MinLength : option Z;
  MaxLength : option Z;
  Pattern : string;
  MinItems : option Z;
  MaxItems : option Z;
  Const : go;
  HasConst : bool;
  Format : string;
  Nullable : bool;
  AnyOf : list S;
  OneOf : list S;
  AllOf : list S;
  Extra : entries;
}.
Arguments mkNode {S}.
Arguments Type_ {S}. Arguments Description {S}. Arguments Properties {S}. Arguments PropertyOrder {S}. Arguments Required {S}.
Arguments Items {S}. Arguments Enum {S}. Arguments Default {S}. Arguments AdditionalAllowed {S}. Arguments AdditionalSchema {S}.
Arguments Minimum {S}. Arguments Maximum {S}. Arguments ExclusiveMinimum {S}. Arguments ExclusiveMaximum {S}. Arguments MultipleOf {S}.
Arguments MinLength {S}. Arguments MaxLength {S}. Arguments Pattern {S}. Arguments MinItems {S}. Arguments MaxItems {S}.
Arguments Const {S}. Arguments HasConst {S}. Arguments Format {S}. Arguments Nullable {S}.
Arguments AnyOf {S}. Arguments OneOf {S}. Arguments AllOf {S}. Arguments Extra {S}.

(** A value of type [*Schema]. *)
Inductive Schema : Type :=
| NoSchema
| At (n : node Schema).

(** The entries of the map, none when it is nil. *)
Definition properties {S} (n : node S) : list (string * S) := match Properties n with Some l => l | None => [] end.

(** The same keywords with something else for the schemas inside. *)
Definition map_node {S T} (f : S -> T) (n : node S) : node T :=
  {| Type_ := Type_ n; Description := Description n; 
     Properties := match Properties n with Some l => Some (map (fun p => (p.1, f p.2)) l) | None => None end;
     PropertyOrder := PropertyOrder n; Required := Required n;
     Items := f (Items n); Enum := Enum n; Default := Default n; AdditionalAllowed := AdditionalAllowed n; AdditionalSchema := f (AdditionalSchema n);
     Minimum := Minimum n; Maximum := Maximum n; ExclusiveMinimum := ExclusiveMinimum n; ExclusiveMaximum := ExclusiveMaximum n;
     MultipleOf := MultipleOf n; MinLength := MinLength n; MaxLength := MaxLength n; Pattern := Pattern n; MinItems := MinItems n; MaxItems := MaxItems n;
     Const := Const n; HasConst := HasConst n; Format := Format n; Nullable := Nullable n;
     AnyOf := map f (AnyOf n); OneOf := map f (OneOf n); AllOf := map f (AllOf n); Extra := Extra n |}.

(** *** Constructors *)

(** The literal [&Schema{Type: t}] *)
Definition typed (t : string) : node Schema :=
  {| Type_ := t; Description := ""; Properties := None; PropertyOrder := []; Required := []; Items := NoSchema; Enum := []; Default := VNil;
     AdditionalAllowed := None; AdditionalSchema := NoSchema; Minimum := None; Maximum := None; ExclusiveMinimum := None; ExclusiveMaximum := None;
     MultipleOf := None; MinLength := None; MaxLength := None; Pattern := ""; MinItems := None; MaxItems := None; Const := VNil; HasConst := false;
     Format := ""; Nullable := false; AnyOf := []; OneOf := []; AllOf := []; Extra := [] |}.

(** The literal with unions or a nullable type. *)
Definition with_keywords (n : node Schema) (nullable : bool) (anyOf oneOf allOf : list Schema) : node Schema :=
  {| Type_ := Type_ n; Description := Description n; Properties := Properties n; PropertyOrder := PropertyOrder n; Required := Required n;
     Items := Items n; Enum := Enum n; Default := Default n; AdditionalAllowed := AdditionalAllowed n; AdditionalSchema := AdditionalSchema n;
     Minimum := Minimum n; Maximum := Maximum n; ExclusiveMinimum := ExclusiveMinimum n; ExclusiveMaximum := ExclusiveMaximum n;
     MultipleOf := MultipleOf n; MinLength := MinLength n; MaxLength := MaxLength n; Pattern := Pattern n; MinItems := MinItems n; MaxItems := MaxItems n;
     Const := Const n; HasConst := HasConst n; Format := Format n; Nullable := nullable; AnyOf := anyOf; OneOf := oneOf; AllOf := allOf; Extra := Extra n |}.

Definition with_object (n : node Schema) (ps : list (string * Schema)) (order required : list string) : node Schema :=
  {| Type_ := Type_ n; Description := Description n; Properties := Some ps; PropertyOrder := order; Required := required;
     Items := Items n; Enum := Enum n; Default := Default n; AdditionalAllowed := AdditionalAllowed n; AdditionalSchema := AdditionalSchema n;
     Minimum := Minimum n; Maximum := Maximum n; ExclusiveMinimum := ExclusiveMinimum n; ExclusiveMaximum := ExclusiveMaximum n;
     MultipleOf := MultipleOf n; MinLength := MinLength n; MaxLength := MaxLength n; Pattern := Pattern n; MinItems := MinItems n; MaxItems := MaxItems n;
     Const := Const n; HasConst := HasConst n; Format := Format n; Nullable := Nullable n; AnyOf := AnyOf n; OneOf := OneOf n; AllOf := AllOf n; Extra := Extra n |}.

Definition with_items (n : node Schema) (items : Schema) : node Schema :=
  {| Type_ := Type_ n; Description := Description n; Properties := Properties n; PropertyOrder := PropertyOrder n; Required := Required n;
     Items := items; Enum := Enum n; Default := Default n; AdditionalAllowed := AdditionalAllowed n; AdditionalSchema := AdditionalSchema n;
     Minimum := Minimum n; Maximum := Maximum n; ExclusiveMinimum := ExclusiveMinimum n; ExclusiveMaximum := ExclusiveMaximum n;
     MultipleOf := MultipleOf n; MinLength := MinLength n; MaxLength := MaxLength n; Pattern := Pattern n; MinItems := MinItems n; MaxItems := MaxItems n;
     Const := Const n; HasConst := HasConst n; Format := Format n; Nullable := Nullable n; AnyOf := AnyOf n; OneOf := OneOf n; AllOf := AllOf n; Extra := Extra n |}.

Record Field : Type := mkField {
  fd_Name : string;
  fd_Schema : Schema;
  fd_Optional : bool
}.

Definition Prop_ (name : string) (s : Schema) : Field := mkField name s false.
Definition Opt (name : string) (s : Schema) : Field := mkField name s true.

Definition Object (fields : list Field) : Schema :=
  let add n f :=
    with_object n (map_set (properties n) (fd_Name f) (fd_Schema f)) (PropertyOrder n ++ [fd_Name f])
      (if fd_Optional f then Required n else Required n ++ [fd_Name f]) in
  At (foldl add (with_object (typed "object") [] [] []) fields).

Definition String_ : Schema := At (typed "string").
Definition Number_ : Schema := At (typed "number").
Definition Integer_ : Schema := At (typed "integer").
Definition Boolean_ : Schema := At (typed "boolean").
Definition Array_ (items : Schema) : Schema := At (with_items (typed "array") items).

(** *** Properties in order *)

(** The declared names that are in the map, each once. *)
Definition declared_names {S} (n : node S) : list string :=
  foldl (fun out name => if bool_decide (name ∈ keys (properties n)) && negb (bool_decide (name ∈ out)) then out ++ [name] else out)
    [] (PropertyOrder n).

(** [OrderedProperties]: then the others in ascending order. *)
Definition OrderedProperties {S} (n : node S) : list string :=
  let out := declared_names n in
  if Nat.eqb (length out) (length (properties n)) then out
  else out ++ sort_strings (filter (fun name => name ∉ out) (keys (properties n))).

(** *** Serialization *)

(** [json.Marshal] of a list of strings. *)
Definition marshal_strings (l : list string) : text := lit "[" ++ join (lit ",") (json_string <$> l) ++ lit "]".

(** A keyword and its value, when it is written; [None] is an error. *)
Definition keyword (key : string) (present : bool) (raw : option text) : option (list text) :=
  if present then (fun raw => [json_string key ++ lit ":" ++ raw]) <$> raw else Some [].

(** The encoder's own failures, which the source ignores: the value is empty. *)
Definition ignoring (raw : option text) : option text := Some (default [] raw).

Definition write_float (key : string) (p : option spec_float) : option (list text) :=
  match p with Some f => keyword key true (ignoring (Marshal (VFloat64 f))) | None => Some [] end.

Definition write_int (key : string) (p : option Z) : option (list text) :=
  match p with Some n => keyword key true (Some (itoa n)) | None => Some [] end.

Definition is_schema (s : Schema) : bool := match s with At _ => true | NoSchema => false end.

(** [MarshalJSON], from whether each schema inside is not nil and what it is
    encoded as. *)
Definition MarshalJSON (n : node (bool * option text)) : option text :=
  let list_of l := (fun parts => lit "[" ++ join (lit ",") parts ++ lit "]") <$> mapM snd l in
  let property name := (fun raw => json_string name ++ lit ":" ++ raw) <$> match map_get (properties n) name with Some p => p.2 | None => Some [] end in
  parts ← mapM id [
    keyword "description" (negb (String.eqb (Description n) "")) (Some (json_string (Description n)));
    keyword "type" (negb (String.eqb (Type_ n) ""))
      (Some (if Nullable n then marshal_strings [Type_ n; "null"] else json_string (Type_ n)));
    keyword "required" (negb (Nat.eqb (length (Required n)) 0)) (Some (marshal_strings (Required n)));
    keyword "properties" (bool_decide (is_Some (Properties n)))
      ((fun parts => lit "{" ++ join (lit ",") parts ++ lit "}") <$> mapM property (OrderedProperties n));
    keyword "items" ((Items n).1) (Items n).2;
    keyword "enum" (negb (Nat.eqb (length (Enum n)) 0)) (ignoring (Marshal (VArray (Enum n))));
    keyword "default" (negb (is_nil (Default n))) (ignoring (Marshal (Default n)));
    keyword "const" (HasConst n) (ignoring (Marshal (Const n)));
    (if (AdditionalSchema n).1 then keyword "additionalProperties" true (AdditionalSchema n).2
     else match AdditionalAllowed n with
          | Some b => keyword "additionalProperties" true (Marshal (VBool b))
          | None => Some []
          end);
    write_float "minimum" (Minimum n);
    write_float "maximum" (Maximum n);
    write_float "exclusiveMinimum" (ExclusiveMinimum n);
    write_float "exclusiveMaximum" (ExclusiveMaximum n);
    write_float "multipleOf" (MultipleOf n);
    write_int "minLength" (MinLength n);
    write_int "maxLength" (MaxLength n);
    keyword "pattern" (negb (String.eqb (Pattern n) "")) (Some (json_string (Pattern n)));
    write_int "minItems" (MinItems n);
    write_int "maxItems" (MaxItems n);
    keyword "format" (negb (String.eqb (Format n) "")) (Some (json_string (Format n)));
    keyword "anyOf" (negb (Nat.eqb (length (AnyOf n)) 0)) (list_of (AnyOf n));
    keyword "oneOf" (negb (Nat.eqb (length (OneOf n)) 0)) (list_of (OneOf n));
    keyword "allOf" (negb (Nat.eqb (length (AllOf n)) 0)) (list_of (AllOf n));
    (fun l => concat l) <$> mapM (fun e => keyword e.1 true (Marshal e.2)) (sort_entries (Extra n))
  ];
  Some (lit "{" ++ join (lit ",") (concat parts) ++ lit "}").

(** Whether every value of the node has an encoding: what [MarshalJSON] writes
    is no JSON otherwise. *)
Definition encodable {S} (n : node S) : bool :=
  forallb (fun v => bool_decide (is_Some (Marshal v))) (Default n :: (if HasConst n then Const n else VNil) :: Enum n) &&
  forallb (fun p => match p with Some f => bool_decide (is_Some (Marshal (VFloat64 f))) | None => true end)
    [Minimum n; Maximum n; ExclusiveMinimum n; ExclusiveMaximum n; MultipleOf n].

(** [json.Marshal] of a pointer: [null] for nil; what the method writes must be
    JSON. *)
Fixpoint marshal_schema (s : Schema) : option text :=
  match s with
  | NoSchema => Some (lit "null")
  | At n => if encodable n then MarshalJSON (map_node (fun sub => (is_schema sub, marshal_schema sub)) n) else None
  end.

(** *** Checking *)

(** [float64(f)] of a [float32]. *)
Definition widen (f : spec_float) : spec_float :=
  match f with S754_finite neg m e => binary_normalize 53 1024 (if neg then Z.neg m else Z.pos m) e neg | _ => f end.

Definition numberValue (v : go) : option spec_float :=
  match v with
  | VFloat64 f => Some f
  | VFloat32 f => Some (widen f)
  | VInt n | VInt64 n => Some (float_of_int n)
  | VNumber s => ParseFloat s
  | _ => None
  end.

(** Two values are equal when they are encoded the same. *)
Definition jsonValueEqual (a b : go) : bool :=
  match Marshal a, Marshal b with Some x, Some y => bool_decide (x = y) | _, _ => false end.

(** The members that match are exactly one, as [count != 1] has it. *)
Definition exactly_one (l : list bool) : bool := Nat.eqb (length (filter (fun b => b = true) l)) 1.

Fixpoint Check_ (s : Schema) (v : go) {struct s} : bool :=
  match s with
  | NoSchema => true
  | At n =>
      if HasConst n then jsonValueEqual (Const n) v
      else if negb (Nat.eqb (length (Enum n)) 0) then existsb (fun e => jsonValueEqual e v) (Enum n)
      else if negb (Nat.eqb (length (AnyOf n) + length (OneOf n) + length (AllOf n)) 0) then
        forallb (fun sub => Check_ sub v) (AllOf n) &&
        (Nat.eqb (length (AnyOf n)) 0 || existsb (fun sub => Check_ sub v) (AnyOf n)) &&
        (Nat.eqb (length (OneOf n)) 0 || exactly_one (map (fun sub => Check_ sub v) (OneOf n)))
      else
        let t := Type_ n in
        if String.eqb t "" then true
        else if String.eqb t "null" then is_nil v
        else if String.eqb t "boolean" then match v with VBool _ => true | _ => false end
        else if String.eqb t "string" then match v with VString _ => true | _ => false end
        else if String.eqb t "number" || String.eqb t "integer" then
          match numberValue v with
          | Some f => negb (String.eqb t "integer" && negb (is_whole f))
          | None => false
          end
        else if String.eqb t "array" then
          match v with
          | VArray l => negb (is_schema (Items n)) || forallb (Check_ (Items n)) l
          | _ => false
          end
        else if String.eqb t "object" then
          match v with
          | VObject m =>
              forallb (fun name => bool_decide (name ∈ keys m)) (Required n) &&
              match Properties n with
              | Some ps => forallb (fun p => match map_get m p.1 with Some v => Check_ p.2 v | None => true end) ps
              | None => true
              end
          | _ => false
          end
        else true
  end.

(** ** Lemmas *)

Section SchemaInd.
Context (P : Schema -> Prop).
Context (Hnil : P NoSchema).
Context (Hat : forall n, (forall s, s ∈ AllOf n -> P s) -> (forall s, s ∈ AnyOf n -> P s) -> (forall s, s ∈ OneOf n -> P s) ->
  (forall p, p ∈ properties n -> P p.2) ->
  P (Items n) -> P (AdditionalSchema n) -> P (At n)).

(** Induction with a hypothesis for every schema inside. *)
Lemma Schema_ind' s : P s.
Proof.
  revert s. fix IH 1. intros [|n]; [exact Hnil|].
  apply Hat; [| | | |apply IH|apply IH]; apply Forall_forall.
  - induction (AllOf n); constructor; auto.
  - induction (AnyOf n); constructor; auto.
  - induction (OneOf n); constructor; auto.
  - unfold properties. destruct (Properties n) as [ps|]; [|constructor]. induction ps as [|[k p] ps IHps]; constructor; [apply IH|exact IHps].
Qed.
End SchemaInd.

(** ** Examples *)

Example schema_text :
  marshal_schema (Object [Prop_ "path" String_; Opt "edits" (Array_ (Object [Prop_ "n" Integer_]))]) =
    Some ((fun c => if code c =? 39 then byte 34 else c) <$>
      lit "{'type':'object','required':['path'],'properties':{'path':{'type':'string'},'edits':{'type':'array','items':{'type':'object','required':['n'],'properties':{'n':{'type':'integer'}}}}}}").
Proof. vm_compute. reflexivity. Qed.
