(* ===== verification/Validation.v ===== *)
(** * Validation of tool arguments ([internal/pi/agent/validation.go])

    Arguments are copied, nulls given for optional properties are dropped,
    primitive values are coerced to the types of the schema, and what comes out
    is validated against it.  The source changes the copy in place; here each
    step returns the value it leaves.  Errors are the messages the model reads. *)

From S2P Require Import Prelude GoText PiModel Estimate Json GoValue Schema.
From Stdlib Require Import Ascii SpecFloat.

Open Scope Z_scope.

(** ** Definitions *)

(** A copy holds the same values: only maps and slices are made anew. *)
Fixpoint deepCopyValue (v : go) : go :=
  match v with
  | VObject m => VObject (map (fun e => (e.1, deepCopyValue e.2)) m)
  | VArray l => VArray (map deepCopyValue l)
  | _ => v
  end.

Definition schemaTypes {S} (n : node S) : list string :=
  (if String.eqb (Type_ n) "" then [] else [Type_ n]) ++ (if Nullable n then ["null"%string] else []).

Definition isNumber (v : go) : bool := match numberValue v with Some _ => true | None => false end.

Definition matchesJSONType (v : go) (schemaType : string) : bool :=
  if String.eqb schemaType "number" then isNumber v
  else if String.eqb schemaType "integer" then match numberValue v with Some f => is_whole f | None => false end
  else if String.eqb schemaType "boolean" then match v with VBool _ => true | _ => false end
  else if String.eqb schemaType "string" then match v with VString _ => true | _ => false end
  else if String.eqb schemaType "null" then is_nil v
  else if String.eqb schemaType "array" then match v with VArray _ => true | _ => false end
  else if String.eqb schemaType "object" then match v with VObject _ => true | _ => false end
  else false.

Definition containsType (types : list string) (want : string) : bool := existsb (String.eqb want) types.

(** The loops that look for a declared type of the value. *)
Definition matches_some_type (types : list string) (v : go) : bool :=
  existsb (fun t => (is_nil v && String.eqb t "null") || matchesJSONType v t) types.

Definition in_enum {S} (n : node S) (v : go) : bool := existsb (fun e => jsonValueEqual e v) (Enum n).

Fixpoint schemaAccepts (s : Schema) (v : go) {struct s} : bool :=
  match s with
  | NoSchema => true
  | At n =>
      if HasConst n then jsonValueEqual (Const n) v
      else if negb (Nat.eqb (length (Enum n)) 0) then in_enum n v
      else if negb (forallb (fun sub => schemaAccepts sub v) (AllOf n)) then false
      else if negb (Nat.eqb (length (AnyOf n)) 0) && negb (existsb (fun sub => schemaAccepts sub v) (AnyOf n)) then false
      else if negb (Nat.eqb (length (OneOf n)) 0) && negb (exactly_one (map (fun sub => schemaAccepts sub v) (OneOf n))) then false
      else
        let types := schemaTypes n in
        if Nat.eqb (length types) 0 then true
        else if is_nil v then containsType types "null"
        else existsb (matchesJSONType v) types
  end.

(** *** Validation *)

Definition pathOrRoot (path : text) : text := match path with [] => lit "root" | _ => path end.

Definition formatPath (base : text) (key : string) : text :=
  match base with [] => lit key | _ => base ++ lit "." ++ lit key end.

Definition item_path (path : text) (i : nat) : text := path ++ lit "[" ++ itoa (Z.of_nat i) ++ lit "]".

Section Validation.
Context (IsPrint : Z -> bool).

Definition missing (path : text) (name : string) : text :=
  formatPath path name ++ lit ": must have required property " ++ Quote IsPrint (lit name).

Section Parts.
Context (validate : Schema -> go -> text -> list text).

(** An object's missing properties, and the problems of those it has. *)
Definition object_problems (n : node Schema) (v : go) (path : text) : list text :=
  match v with
  | VObject m =>
      if containsType (schemaTypes n) "object" then
        concat (map (fun name => if bool_decide (name ∈ keys m) then [] else [missing path name]) (Required n)) ++
        match Properties n with
        | Some ps =>
            let checks := map (fun p => (p.1, validate p.2)) ps in
            concat (map (fun name =>
              match map_get m name, map_get checks name with
              | Some x, Some check => check x (formatPath path name)
              | _, _ => []
              end) (OrderedProperties n))
        | None => []
        end
      else []
  | _ => []
  end.

(** The problems of an array's items. *)
Definition array_problems (n : node Schema) (v : go) (path : text) : list text :=
  match v with
  | VArray l =>
      if containsType (schemaTypes n) "array" && is_schema (Items n) then concat (imap (fun i item => validate (Items n) item (item_path path i)) l)
      else []
  | _ => []
  end.
End Parts.

(** The problems of a value, one text each. *)
Fixpoint validateValue (s : Schema) (v : go) (path : text) {struct s} : list text :=
  match s with
  | NoSchema => []
  | At n =>
      if HasConst n && negb (jsonValueEqual (Const n) v) then [pathOrRoot path ++ lit ": must equal the declared const"]
      else if negb (Nat.eqb (length (Enum n)) 0) && negb (in_enum n v) then [pathOrRoot path ++ lit ": must be one of the declared values"]
      else
        let errs := concat (map (fun sub => validateValue sub v path) (AllOf n)) in
        let errs := errs ++
          if negb (Nat.eqb (length (AnyOf n)) 0) && negb (existsb (fun sub => schemaAccepts sub v) (AnyOf n))
          then [pathOrRoot path ++ lit ": must match at least one allowed schema"] else [] in
        let errs := errs ++
          if negb (Nat.eqb (length (OneOf n)) 0) && negb (exactly_one (map (fun sub => schemaAccepts sub v) (OneOf n)))
          then [pathOrRoot path ++ lit ": must match exactly one allowed schema"] else [] in
        let types := schemaTypes n in
        if Nat.eqb (length types) 0 then errs
        else if negb (matches_some_type types v) then
          errs ++ [pathOrRoot path ++ lit ": expected " ++ join (lit " or ") (lit <$> types)]
        else
          errs ++ object_problems validateValue n v path ++ array_problems validateValue n v path
  end.

(** *** Nulls for omitted properties *)

(** The keyword [$ref] is a string. *)
Definition refIsString {S} (n : node S) : bool := match map_get (Extra n) "$ref" with Some (VString _) => true | _ => false end.

Fixpoint normalizeOptionalNulls (v : go) (s : Schema) {struct s} : go :=
  match s with
  | NoSchema => v
  | At n =>
      match v with
      | VArray l => if is_schema (Items n) then VArray (map (fun item => normalizeOptionalNulls item (Items n)) l) else v
      | VObject m =>
          match Properties n with
          | Some ps =>
              VObject (fold_left (fun obj p =>
                match map_get obj p.1, p.2 with
                | Some x, At property =>
                    if is_nil x && negb (bool_decide (p.1 ∈ Required n)) && negb (refIsString property) && negb (schemaAccepts p.2 VNil)
                    then map_delete obj p.1
                    else map_set obj p.1 (normalizeOptionalNulls x p.2)
                | _, _ => obj
                end) ps m)
          | None => v
          end
      | _ => v
      end
  end.

(** *** Coercion *)

Definition of_text (s : text) : string := String.string_of_list_ascii s.

Definition zero : spec_float := S754_zero false.
Definition one : spec_float := float_of_int 1.

(** A text that is a number, blanks around it dropped. *)
Definition parsed_number (v : go) : option spec_float :=
  match v with
  | VString s => match trim_space (lit s) with [] => None | t => ParseFloat t end
  | _ => None
  end.

Definition number_of_bool (v : go) : go := match v with VBool b => VFloat64 (if b then one else zero) | _ => v end.

Definition coercePrimitiveByType (v : go) (schemaType : string) : go :=
  if String.eqb schemaType "number" then
    if is_nil v then VFloat64 zero
    else match parsed_number v with Some f => VFloat64 f | None => number_of_bool v end
  else if String.eqb schemaType "integer" then
    if is_nil v then VFloat64 zero
    else match parsed_number v with
         | Some f => if is_whole f then VFloat64 f else v
         | None => number_of_bool v
         end
  else if String.eqb schemaType "boolean" then
    match v with
    | VNil => VBool false
    | VString s => if String.eqb s "true" then VBool true else if String.eqb s "false" then VBool false else v
    | _ =>
        match numberValue v with
        | Some f => if SFeqb f one then VBool true else if SFeqb f zero then VBool false else v
        | None => v
        end
    end
  else if String.eqb schemaType "string" then
    match v with
    | VNil => VString ""
    | VFloat64 f => VString (of_text (FormatFloat f))
    | VInt n | VInt64 n => VString (of_text (itoa n))
    | VNumber s => VString (of_text s)
    | VBool b => VString (if b then "true" else "false")
    | _ => v
    end
  else if String.eqb schemaType "null" then
    match v with
    | VString s => if String.eqb s "" then VNil else v
    | VBool b => if b then v else VNil
    | _ => match numberValue v with Some f => if SFeqb f zero then VNil else v | None => v end
    end
  else v.

(** The first type that makes another value of it. *)
Fixpoint coerce_types (v : go) (types : list string) : go :=
  match types with
  | [] => v
  | t :: types =>
      let candidate := coercePrimitiveByType v t in
      if negb (jsonValueEqual candidate v) then candidate else coerce_types v types
  end.

Section Union.
Context (coerce : go -> Schema -> go).

(** The second loop: the first member that accepts what it coerces to. *)
Fixpoint coerced_member (v : go) (schemas : list Schema) : go :=
  match schemas with
  | [] => v
  | s :: schemas =>
      let candidate := coerce (deepCopyValue v) s in
      if schemaAccepts s candidate then candidate else coerced_member v schemas
  end.

Definition coerceWithUnionSchema (v : go) (schemas : list Schema) : go :=
  if existsb (fun s => schemaAccepts s v) schemas then v else coerced_member v schemas.
End Union.

Fixpoint coerceWithJSONSchema (v : go) (s : Schema) {struct s} : go :=
  match s with
  | NoSchema => v
  | At n =>
      let next := fold_left coerceWithJSONSchema (AllOf n) v in
      let next := if negb (Nat.eqb (length (AnyOf n)) 0) then coerceWithUnionSchema coerceWithJSONSchema next (AnyOf n) else next in
      let next := if negb (Nat.eqb (length (OneOf n)) 0) then coerceWithUnionSchema coerceWithJSONSchema next (OneOf n) else next in
      let types := schemaTypes n in
      let matchesUnionMember := Nat.ltb 1 (length types) && matches_some_type types next in
      let next := if negb (Nat.eqb (length types) 0) && negb matchesUnionMember then coerce_types next types else next in
      match next with
      | VObject m =>
          if containsType types "object" then
            (* [applySchemaObjectCoercion] *)
            let defined := match Properties n with Some ps => map fst ps | None => [] end in
            let m := match Properties n with
                     | Some ps =>
                         fold_left (fun m p => match map_get m p.1 with Some x => map_set m p.1 (coerceWithJSONSchema x p.2) | None => m end) ps m
                     | None => m
                     end in
            VObject
              (if is_schema (AdditionalSchema n)
               then map (fun e => if bool_decide (e.1 ∈ defined) then e else (e.1, coerceWithJSONSchema e.2 (AdditionalSchema n))) m
               else m)
          else next
      | VArray l =>
          (* [applySchemaArrayCoercion] *)
          if containsType types "array" && is_schema (Items n) then VArray (map (fun x => coerceWithJSONSchema x (Items n)) l) else next
      | _ => next
      end
  end.

(** *** Tool calls *)

Definition validation_failed (name : string) (errs : list text) (received : text) : text :=
  lit "Validation failed for tool " ++ Quote IsPrint (lit name) ++ lit ":" ++ [newline] ++
  join [newline] ((fun e => lit "  - " ++ e) <$> errs) ++ [newline; newline] ++ lit "Received arguments:" ++ [newline] ++ received.

(** The arguments of a call, [None] for a nil map, which is encoded as null. *)
Definition ValidateToolArguments (parameters : Schema) (name : string) (arguments : option entries) : result text entries :=
  let args := match deepCopyValue (VObject (default [] arguments)) with VObject m => m | _ => [] end in
  let args := match normalizeOptionalNulls (VObject args) parameters with VObject m => m | _ => args end in
  let args := match coerceWithJSONSchema (VObject args) parameters with VObject m => m | _ => args end in
  match validateValue parameters (VObject args) [] with
  | [] => Ok args
  | errs => Err (validation_failed name errs (default [] (MarshalIndent (match arguments with Some m => VObject m | None => VNil end))))
  end.

(** The first tool of the name. *)
Fixpoint ValidateToolCall (tools : list (string * Schema)) (name : string) (arguments : option entries) : result text entries :=
  match tools with
  | [] => Err (lit "Tool " ++ Quote IsPrint (lit name) ++ lit " not found")
  | (tool, parameters) :: tools =>
      if String.eqb tool name then ValidateToolArguments parameters name arguments else ValidateToolCall tools name arguments
  end.
End Validation.
