(* ===== verification/ValidationProps.v ===== *)
(** * What the validation of arguments promises

    [conforms] says what a value must be for a schema, by cases on the
    keywords; the validator finds a problem exactly where it fails.  Arguments
    that conform are passed on as they are, so validating twice is validating
    once. *)

From S2P Require Import Prelude GoText PiModel Estimate Compaction Json GoValue Schema Validation.
From Stdlib Require Import Ascii SpecFloat.

Open Scope Z_scope.

(** ** Definitions *)

Definition has_type (v : go) (t : string) : Prop := matchesJSONType v t = true.

Section Lists.
Context {A : Type} (P : A -> Prop).

(** All, some, none, exactly one of a list. *)
Fixpoint all_of (l : list A) : Prop := match l with [] => True | a :: l => P a /\ all_of l end.
Fixpoint some_of (l : list A) : Prop := match l with [] => False | a :: l => P a \/ some_of l end.
Fixpoint none_of (l : list A) : Prop := match l with [] => True | a :: l => ~ P a /\ none_of l end.
Fixpoint one_of (l : list A) : Prop := match l with [] => False | a :: l => (P a /\ none_of l) \/ (~ P a /\ one_of l) end.
End Lists.

(** Members of a union are looked at on the surface only: a constant or a list
    of values alone decides; otherwise the value is of one of the types, and
    the members of the member agree.  What an object requires and holds and
    what an array holds is not looked at. *)
Fixpoint surface (s : Schema) (v : go) {struct s} : Prop :=
  match s with
  | NoSchema => True
  | At n =>
      if HasConst n then jsonValueEqual (Const n) v = true
      else match Enum n with
      | _ :: _ => Exists (fun e => jsonValueEqual e v = true) (Enum n)
      | [] =>
          all_of (fun sub => surface sub v) (AllOf n) /\
          (AnyOf n <> [] -> some_of (fun sub => surface sub v) (AnyOf n)) /\
          (OneOf n <> [] -> one_of (fun sub => surface sub v) (OneOf n)) /\
          (schemaTypes n <> [] -> Exists (has_type v) (schemaTypes n))
      end
  end.

Inductive conforms : Schema -> go -> Prop :=
| conforms_nil v : conforms NoSchema v
| conforms_at n v :
    (HasConst n = true -> jsonValueEqual (Const n) v = true) ->
    (Enum n <> [] -> Exists (fun e => jsonValueEqual e v = true) (Enum n)) ->
    (forall s, s ∈ AllOf n -> conforms s v) ->
    (AnyOf n <> [] -> some_of (fun s => surface s v) (AnyOf n)) ->
    (OneOf n <> [] -> one_of (fun s => surface s v) (OneOf n)) ->
    (schemaTypes n <> [] -> Exists (has_type v) (schemaTypes n)) ->
    (forall m, v = VObject m -> "object"%string ∈ schemaTypes n ->
      Forall (fun name => name ∈ keys m) (Required n) /\
      forall name s x, (name, s) ∈ properties n -> map_get m name = Some x -> conforms s x) ->
    (forall l, v = VArray l -> "array"%string ∈ schemaTypes n -> forall x, x ∈ l -> conforms (Items n) x) ->
    conforms (At n) v.

(** The maps of a schema that validation goes through have each key once. *)
Inductive proper : Schema -> Prop :=
| proper_nil : proper NoSchema
| proper_at n :
    NoDup (keys (properties n)) -> (forall s, s ∈ AllOf n -> proper s) -> (forall p, p ∈ properties n -> proper p.2) -> proper (Items n) -> proper (At n).

(** Keywords are used with the type they are for, and what other properties
    there may be is not described by a schema. *)
Inductive tidy : Schema -> Prop :=
| tidy_nil : tidy NoSchema
| tidy_at n :
    AdditionalSchema n = NoSchema ->
    (properties n <> [] -> "object"%string ∈ schemaTypes n) -> (Items n <> NoSchema -> "array"%string ∈ schemaTypes n) ->
    (forall s, s ∈ AllOf n -> tidy s) -> (forall p, p ∈ properties n -> tidy p.2) -> tidy (Items n) -> tidy (At n).

(** ** Lemmas *)

Lemma deepCopy_id v : deepCopyValue v = v.
Proof.
  induction v as [| | | | | | | |l IH|m IH] using go_ind'; [done..| |]; cbn; f_equal.
  - induction IH; cbn; congruence.
  - induction IH as [|[k v] m H _ IHm]; cbn in *; congruence.
Qed.

(** *** Types *)

Lemma types_matched types v : matches_some_type types v = true <-> Exists (has_type v) types.
Proof.
  unfold matches_some_type. induction types as [|t types IH]; cbn.
  - split; [done|]. by intros ?%Exists_nil.
  - rewrite orb_true_iff, Exists_cons, IH. unfold has_type. enough (is_nil v && String.eqb t "null" || matchesJSONType v t = true <-> matchesJSONType v t = true) as -> by done.
    rewrite orb_true_iff, andb_true_iff. split; [|auto]. intros [[Hv ->%String.eqb_eq]|]; [exact Hv|done].
Qed.

Lemma containsType_spec types t : containsType types t = true <-> t ∈ types.
Proof.
  unfold containsType. rewrite existsb_exists. split.
  - intros (x & Hx%list_elem_of_In & ->%String.eqb_eq). done.
  - intros H%list_elem_of_In. exists t. by rewrite String.eqb_refl.
Qed.

Lemma nil_type t : matchesJSONType VNil t = String.eqb t "null".
Proof.
  unfold matchesJSONType, isNumber. destruct (String.eqb_spec t "null") as [->|]; [done|].
  by repeat case_match.
Qed.

(** What the two loops over types ask is the same. *)
Lemma types_accepted types v :
  (if is_nil v then containsType types "null" else existsb (matchesJSONType v) types) = matches_some_type types v.
Proof.
  unfold containsType, matches_some_type. induction types as [|t types IH]; [by destruct v|]. cbn [existsb]. rewrite <- IH.
  destruct v; cbn [is_nil andb orb]; try done. rewrite nil_type, (String.eqb_sym "null" t). by destruct (String.eqb t "null").
Qed.

Lemma nonempty {A} (l : list A) : negb (Nat.eqb (length l) 0) = true <-> l <> [].
Proof. by destruct l. Qed.

Lemma empty_types {A} (l : list A) : Nat.eqb (length l) 0 = true <-> l = [].
Proof. by destruct l. Qed.

(** *** The properties in order are the keys of the map *)

Lemma insert_sorted_elem x y l : x ∈ insert_sorted y l <-> x = y \/ x ∈ l.
Proof.
  induction l as [|z l IH]; cbn; [by rewrite elem_of_cons|]. destruct (String.leb y z); rewrite !elem_of_cons, ?IH; tauto.
Qed.

Lemma sort_strings_elem x l : x ∈ sort_strings l <-> x ∈ l.
Proof. induction l as [|y l IH]; [done|]. cbn. rewrite insert_sorted_elem, IH, elem_of_cons. done. Qed.

Lemma declared_in {S} (n : node S) : NoDup (declared_names n) /\ forall x, x ∈ declared_names n -> x ∈ keys (properties n).
Proof.
  unfold declared_names. assert (forall order out, NoDup out /\ (forall x, x ∈ out -> x ∈ keys (properties n)) ->
    let out' := foldl (fun out name => if bool_decide (name ∈ keys (properties n)) && negb (bool_decide (name ∈ out)) then out ++ [name] else out) out order in
    NoDup out' /\ forall x, x ∈ out' -> x ∈ keys (properties n)) as H.
  { induction order as [|y order IH]; intros out Hout; [done|]. cbn. apply IH. destruct Hout as [Hd Hin]. do 2 case_bool_decide; cbn; try done. split.
    - apply NoDup_app. split_and!; [done| |by apply NoDup_singleton]. intros x Hx ->%list_elem_of_singleton. done.
    - intros x [Hx|Hx%list_elem_of_singleton]%elem_of_app; [auto|by subst]. }
  apply H. split; [constructor|]. by intros ? ?%elem_of_nil.
Qed.

Lemma ordered_elem {S} (n : node S) x : NoDup (keys (properties n)) -> x ∈ OrderedProperties n <-> x ∈ keys (properties n).
Proof.
  intros Hn. destruct (declared_in n) as [Hd Hin]. unfold OrderedProperties. destruct (Nat.eqb_spec (length (declared_names n)) (length (properties n))) as [El|_].
  - split; [apply Hin|]. rewrite (submseteq_length_Permutation (declared_names n) (keys (properties n))); [done| |by unfold keys; rewrite length_fmap, El].
    by apply NoDup_submseteq.
  - rewrite elem_of_app, sort_strings_elem, list_elem_of_filter. split; [naive_solver|]. intros Hx. destruct (decide (x ∈ declared_names n)); auto.
Qed.

Lemma concat_nil {A} (l : list (list A)) : concat l = [] <-> Forall (fun x => x = []) l.
Proof.
  induction l as [|x l IH]; cbn; [by split|]. rewrite Forall_cons, <- IH. split; [by intros []%app_eq_nil|]. by intros [-> ->].
Qed.

Lemma concat_map_nil {A B} (f : A -> list B) l : concat (map f l) = [] <-> forall x, x ∈ l -> f x = [].
Proof. rewrite concat_nil, Forall_forall. setoid_rewrite list_elem_of_fmap. naive_solver. Qed.

Lemma concat_imap_nil {A B} (f : nat -> A -> list B) l : concat (imap f l) = [] <-> forall i x, l !! i = Some x -> f i x = [].
Proof.
  rewrite concat_nil, Forall_lookup. setoid_rewrite list_lookup_imap. split.
  - intros H i x Hx. apply (H i). by rewrite Hx.
  - intros H i x. destruct (l !! i) eqn:E; [|done]. cbn. intros [= <-]. auto.
Qed.

Lemma existsb_Exists {A} (f : A -> bool) l : existsb f l = true <-> Exists (fun x => f x = true) l.
Proof. rewrite existsb_exists, Exists_exists. setoid_rewrite list_elem_of_In. done. Qed.

Lemma map_get_fmap {A B} (f : A -> B) (m : list (string * A)) key : map_get (map (fun p => (p.1, f p.2)) m) key = f <$> map_get m key.
Proof. induction m as [|[k v] m IH]; [done|]. cbn. by destruct (String.eqb k key). Qed.

(** *** The validator decides [conforms] *)

Section Spec.
Context (IsPrint : Z -> bool).

Lemma object_problem n v path :
  object_problems IsPrint (validateValue IsPrint) n v path = [] <->
  forall m, v = VObject m -> "object"%string ∈ schemaTypes n ->
    Forall (fun name => name ∈ keys m) (Required n) /\
    forall name s x, name ∈ OrderedProperties n -> map_get (properties n) name = Some s -> map_get m name = Some x ->
      validateValue IsPrint s x (formatPath path name) = [].
Proof.
  unfold object_problems. destruct v as [| | | | | | | | |m]; try (split; done). destruct (containsType _ _) eqn:Eo.
  - apply containsType_spec in Eo. split.
    + intros [Hr Hp]%app_eq_nil m' [= <-] _. split.
      * apply Forall_forall. intros name Hn. rewrite concat_map_nil in Hr. specialize (Hr name Hn). by case_bool_decide.
      * intros name s x Hn Hs Hx. unfold properties in Hs. destruct (Properties n) as [ps|]; [|done].
        rewrite concat_map_nil in Hp. specialize (Hp name Hn). rewrite Hx, map_get_fmap, Hs in Hp. exact Hp.
    + intros H. destruct (H m eq_refl Eo) as [Hr Hp]. clear H. apply app_nil. split.
      * apply concat_map_nil. intros name Hn. rewrite Forall_forall in Hr. rewrite bool_decide_true by auto. done.
      * unfold properties in Hp. destruct (Properties n) as [ps|]; [|done]. apply concat_map_nil. intros name Hn. rewrite map_get_fmap.
        destruct (map_get m name) as [x|] eqn:Ex; [|done]. destruct (map_get ps name) as [s|] eqn:Es; [|done]. by apply (Hp name s x).
  - split; [|done]. intros _ m' _ H%containsType_spec. congruence.
Qed.

Lemma array_problem n v path :
  array_problems (validateValue IsPrint) n v path = [] <->
  forall l, v = VArray l -> "array"%string ∈ schemaTypes n -> forall i x, l !! i = Some x -> validateValue IsPrint (Items n) x (item_path path i) = [].
Proof.
  unfold array_problems. destruct v as [| | | | | | | |l|]; try (split; done). destruct (containsType _ _) eqn:Eo; cbn [andb].
  - apply containsType_spec in Eo. destruct (Items n) as [|k]; cbn [is_schema].
    + split; [|done]. intros _ l' _ _ i x _. done.
    + rewrite concat_imap_nil. naive_solver.
  - split; [|done]. intros _ l' _ H%containsType_spec. congruence.
Qed.

(** The conditions under which a node has no problem. *)
Lemma no_problem n v path :
  validateValue IsPrint (At n) v path = [] <->
  (HasConst n = true -> jsonValueEqual (Const n) v = true) /\
  (Enum n <> [] -> Exists (fun e => jsonValueEqual e v = true) (Enum n)) /\
  (forall s, s ∈ AllOf n -> validateValue IsPrint s v path = []) /\
  (AnyOf n <> [] -> Exists (fun s => schemaAccepts s v = true) (AnyOf n)) /\
  (OneOf n <> [] -> exactly_one (map (fun s => schemaAccepts s v) (OneOf n)) = true) /\
  (schemaTypes n <> [] ->
    Exists (has_type v) (schemaTypes n) /\ object_problems IsPrint (validateValue IsPrint) n v path = [] /\
    array_problems (validateValue IsPrint) n v path = []).
Proof.
  cbn [validateValue]. rewrite <- !nonempty, <- !existsb_Exists. fold (in_enum n v).
  destruct (HasConst n && negb (jsonValueEqual (Const n) v)) eqn:Ec.
  { apply andb_true_iff in Ec as [-> ->%negb_true_iff]. split; [done|]. by intros [H _]; specialize (H eq_refl). }
  destruct (negb (Nat.eqb (length (Enum n)) 0) && negb (in_enum n v)) eqn:Ee.
  { apply andb_true_iff in Ee as [-> ->%negb_true_iff]. split; [done|]. by intros (_ & H & _); specialize (H eq_refl). }
  assert ((HasConst n = true -> jsonValueEqual (Const n) v = true) /\ (negb (Nat.eqb (length (Enum n)) 0) = true -> in_enum n v = true)) as [Hc He].
  { split; intros H; rewrite H in *; cbn in *; [by destruct (jsonValueEqual _ _)|by destruct (in_enum _ _)]. }
  assert (forall (b c : bool) (e : text), (if b && negb c then [e] else []) = [] <-> (b = true -> c = true)) as Hif by (intros [] [] e; cbn; naive_solver).
  rewrite <- (types_matched (schemaTypes n) v).
  destruct (Nat.eqb (length (schemaTypes n)) 0) eqn:Et; cbn [negb].
  - rewrite !app_nil, concat_map_nil, !Hif. naive_solver.
  - destruct (matches_some_type (schemaTypes n) v); cbn [negb].
    + rewrite !app_nil, concat_map_nil, !Hif. naive_solver.
    + split; [by intros [_ ?]%app_nil|]. intros (_ & _ & _ & _ & _ & H). by destruct (H eq_refl).
Qed.

(** The surface is a part of it. *)
Lemma validate_accepts s v path : validateValue IsPrint s v path = [] -> schemaAccepts s v = true.
Proof.
  revert v path. induction s as [|n IHall _ _ _ _ _] using Schema_ind'; intros v path; [done|]. intros (Hc & He & Hall & Hany & Hone & Ht)%no_problem.
  cbn [schemaAccepts]. destruct (HasConst n); [auto|]. destruct (negb _) eqn:En; [apply nonempty in En; unfold in_enum; by apply existsb_Exists, He|].
  assert (forallb (fun sub => schemaAccepts sub v) (AllOf n) = true) as ->.
  { apply forallb_forall. intros s Hs%list_elem_of_In. by apply (IHall s Hs v path), Hall. }
  assert (forall A (l : list A) (b : bool), (l <> [] -> b = true) -> negb (Nat.eqb (length l) 0) && negb b = false) as Hif.
  { intros A l b H. destruct l; [done|]. by rewrite H. }
  rewrite (Hif _ (AnyOf n) _ (fun H => proj2 (existsb_Exists _ _) (Hany H))), (Hif _ (OneOf n) _ Hone). cbn [negb]. destruct (Nat.eqb (length (schemaTypes n)) 0) eqn:Et; [done|].
  rewrite types_accepted, types_matched. apply Ht. intros E. by rewrite E in Et.
Qed.

(** The code's test is the surface. *)
Lemma all_of_forallb {A} (P : A -> Prop) f l : (forall a, a ∈ l -> f a = true <-> P a) -> forallb f l = true <-> all_of P l.
Proof.
  induction l as [|a l IH]; intros H; cbn; [done|]. rewrite andb_true_iff, IH, H; [done|left|]. intros b Hb. apply H. by right.
Qed.

Lemma some_of_existsb {A} (P : A -> Prop) f l : (forall a, a ∈ l -> f a = true <-> P a) -> existsb f l = true <-> some_of P l.
Proof.
  induction l as [|a l IH]; intros H; cbn; [done|]. rewrite orb_true_iff, IH, H; [done|left|]. intros b Hb. apply H. by right.
Qed.

Lemma one_of_exactly {A} (P : A -> Prop) f l :
  (forall a, a ∈ l -> f a = true <-> P a) -> exactly_one (map f l) = true <-> one_of P l.
Proof.
  intros H. assert (forall l, (forall a, a ∈ l -> f a = true <-> P a) -> filter (fun b => b = true) (map f l) = [] <-> none_of P l) as Hnone.
  { clear. induction l as [|a l IH]; intros H; [done|]. pose proof (H a ltac:(left)) as Ha. cbn [map none_of]. rewrite filter_cons. destruct (f a); case_decide; try done.
    - split; [done|]. intros [Hn _]. by destruct Hn; apply Ha.
    - rewrite IH by (intros b Hb; apply H; by right). split; [|by intros [_ ?]]. intros Hl. split; [|done]. intros Hp. by apply Ha in Hp. }
  unfold exactly_one. induction l as [|a l IH]; [done|]. cbn [map one_of]. rewrite filter_cons.
  pose proof (H a ltac:(left)) as Ha. assert (forall b, b ∈ l -> f b = true <-> P b) as Hl by (intros b Hb; apply H; by right).
  specialize (Hnone l Hl). specialize (IH Hl). destruct (f a); case_decide; try done; cbn [length].
  - rewrite <- Hnone. destruct (filter _ _); cbn; naive_solver.
  - rewrite IH. naive_solver.
Qed.

Lemma surface_accepts s v : schemaAccepts s v = true <-> surface s v.
Proof.
  induction s as [|n IHall IHany IHone _ _ _] using Schema_ind'; [done|]. cbn [schemaAccepts surface].
  destruct (HasConst n); [done|]. unfold in_enum. destruct (Enum n) as [|e l]; cbn [length Nat.eqb negb]; [|apply existsb_Exists].
  rewrite <- (all_of_forallb _ (fun sub => schemaAccepts sub v)) by (intros a Ha; by apply IHall).
  rewrite <- (some_of_existsb _ (fun sub => schemaAccepts sub v)) by (intros a Ha; by apply IHany).
  rewrite <- (one_of_exactly _ (fun sub => schemaAccepts sub v)) by (intros a Ha; by apply IHone).
  rewrite types_accepted. rewrite <- types_matched, <- !nonempty.
  destruct (forallb _ _); cbn [negb]; [|split; [done|by intros [? _]]].
  destruct (negb (Nat.eqb (length (AnyOf n)) 0)), (existsb _ _), (negb (Nat.eqb (length (OneOf n)) 0)), (exactly_one _), (Nat.eqb (length (schemaTypes n)) 0), (matches_some_type _ _); cbn; naive_solver.
Qed.

Lemma surface_any n v : some_of (fun s => surface s v) (AnyOf n) <-> Exists (fun s => schemaAccepts s v = true) (AnyOf n).
Proof. rewrite <- existsb_Exists. symmetry. apply some_of_existsb. intros s _. apply surface_accepts. Qed.

Lemma surface_one n v : one_of (fun s => surface s v) (OneOf n) <-> exactly_one (map (fun s => schemaAccepts s v) (OneOf n)) = true.
Proof. symmetry. apply one_of_exactly. intros s _. apply surface_accepts. Qed.

Lemma conforms_inv n v : conforms (At n) v ->
    (HasConst n = true -> jsonValueEqual (Const n) v = true) /\
    (Enum n <> [] -> Exists (fun e => jsonValueEqual e v = true) (Enum n)) /\
    (forall s, s ∈ AllOf n -> conforms s v) /\
    (AnyOf n <> [] -> Exists (fun s => schemaAccepts s v = true) (AnyOf n)) /\
    (OneOf n <> [] -> exactly_one (map (fun s => schemaAccepts s v) (OneOf n)) = true) /\
    (schemaTypes n <> [] -> Exists (has_type v) (schemaTypes n)) /\
    (forall m, v = VObject m -> "object"%string ∈ schemaTypes n ->
      Forall (fun name => name ∈ keys m) (Required n) /\
      forall name s x, (name, s) ∈ properties n -> map_get m name = Some x -> conforms s x) /\
    (forall l, v = VArray l -> "array"%string ∈ schemaTypes n -> forall x, x ∈ l -> conforms (Items n) x).
Proof. inversion 1; subst. rewrite surface_any, surface_one in *. auto 20. Qed.

(** Validation finds nothing exactly in the values that conform. *)
Lemma validate_conforms s v path : proper s -> validateValue IsPrint s v path = [] <-> conforms s v.
Proof.
  revert v path. induction s as [|n IHall _ _ IHps IHitems _] using Schema_ind'; intros v path Hs; [split; [constructor|done]|].
  inversion Hs as [|n' Hd Hpall Hpps Hpitems]; subst. rewrite no_problem, object_problem, array_problem.
  assert (forall s, s ∈ AllOf n -> validateValue IsPrint s v path = [] <-> conforms s v) as Hall by (intros s Hin; apply IHall; auto).
  assert (forall name s x, (name, s) ∈ properties n -> validateValue IsPrint s x (formatPath path name) = [] <-> conforms s x) as Hps.
  { intros name s x Hin. apply (IHps (name, s) Hin). by apply (Hpps (name, s)). }
  split.
  - intros (Hc & He & Ha & Hany & Hone & Ht). constructor; rewrite ?surface_any, ?surface_one; auto.
    + intros s Hin. apply Hall; auto.
    + intros Hn. by apply Ht.
    + intros m -> Ho. assert (schemaTypes n <> []) as Hn by (by intros E; rewrite E in Ho; apply elem_of_nil in Ho).
      destruct (Ht Hn) as (_ & Hob & _). destruct (Hob m eq_refl Ho) as [Hr Hp]. split; [done|]. intros name s x Hin Hx.
      apply (Hps name s x Hin). apply Hp; [|by apply map_get_iff|done]. apply ordered_elem; [done|]. apply list_elem_of_fmap. by exists (name, s).
    + intros l -> Ho x Hx. assert (schemaTypes n <> []) as Hn by (by intros E; rewrite E in Ho; apply elem_of_nil in Ho).
      destruct (Ht Hn) as (_ & _ & Har). apply list_elem_of_lookup in Hx as [i Hi]. by apply (IHitems x (item_path path i)), (Har l).
  - intros (Hc & He & Ha & Hany & Hone & Ht & Hob & Har)%conforms_inv. split_and!; auto.
    + intros s Hin. apply Hall; auto.
    + intros Hn. split_and!; [by apply Ht| |].
      * intros m Hm Ho. destruct (Hob m Hm Ho) as [Hr Hp]. split; [done|]. intros name s x _ Hin Hx.
        apply map_get_Some in Hin. apply (Hps name s x Hin). by apply (Hp name s x).
      * intros l Hl Ho i x Hx. apply (IHitems x (item_path path i)); [done|]. apply (Har l Hl Ho). by eapply list_elem_of_lookup_2.
Qed.
End Spec.

(** *** Values that conform are left alone *)

Lemma coerce_matching v t : has_type v t -> coercePrimitiveByType v t = v.
Proof.
  unfold has_type, matchesJSONType, isNumber, coercePrimitiveByType.
  destruct (String.eqb t "number"); [by destruct v|]. destruct (String.eqb t "integer"); [by destruct v|].
  destruct (String.eqb t "boolean"); [by destruct v|]. destruct (String.eqb t "string"); [by destruct v|].
  destruct (String.eqb t "null"); [by destruct v|]. done.
Qed.

Lemma coerce_types_id v t : has_type v t -> coerce_types v [t] = v.
Proof. intros H. cbn. rewrite (coerce_matching v t H). by destruct (negb _). Qed.

Lemma schema_types_length {S} (n : node S) : (length (schemaTypes n) <= 2)%nat.
Proof. unfold schemaTypes. destruct (String.eqb _ _), (Nullable n); cbn; lia. Qed.

Lemma fold_left_id {A B} (f : A -> B -> A) l a : (forall b, b ∈ l -> f a b = a) -> fold_left f l a = a.
Proof. induction l as [|b l IH]; intros H; [done|]. cbn. rewrite H by left. apply IH. intros b' Hb. apply H. by right. Qed.

Lemma map_id_elem {A} (f : A -> A) l : (forall x, x ∈ l -> f x = x) -> map f l = l.
Proof. induction l as [|x l IH]; intros H; [done|]. cbn. rewrite H by left. f_equal. apply IH. intros y Hy. apply H. by right. Qed.

Lemma coerce_id s v : tidy s -> conforms s v -> coerceWithJSONSchema v s = v.
Proof.
  revert v. induction s as [|n IHall _ _ IHps IHitems _] using Schema_ind'; intros v Hs Hv; [done|].
  inversion Hs as [|n' Hadd Hobj Harr Htall Htps Htitems]; subst. apply conforms_inv in Hv as (_ & _ & Ha & Hany & Hone & Ht & Hob & Har).
  cbn [coerceWithJSONSchema]. rewrite fold_left_id by (intros s Hin; apply IHall; auto).
  assert (forall l, (l <> [] -> Exists (fun s => schemaAccepts s v = true) l) ->
    (if negb (Nat.eqb (length l) 0) then coerceWithUnionSchema coerceWithJSONSchema v l else v) = v) as Hunion.
  { intros l Hl. destruct (negb _) eqn:En; [|done]. apply nonempty, Hl, existsb_Exists in En. unfold coerceWithUnionSchema. by rewrite En. }
  rewrite (Hunion (AnyOf n) Hany). rewrite (Hunion (OneOf n)).
  2:{ intros Hn. specialize (Hone Hn). apply Nat.eqb_eq in Hone. destruct (filter _ _) as [|b l] eqn:Ef; [done|].
      assert (b ∈ b :: l) as Hb by left. rewrite <- Ef in Hb. apply list_elem_of_filter in Hb as [-> (s & E & Hin)%list_elem_of_fmap].
      apply Exists_exists. by exists s. }
  set (next := if _ && _ then _ else v). assert (next = v) as ->.
  { subst next. destruct (negb (Nat.eqb (length (schemaTypes n)) 0)) eqn:En; [|done]. apply nonempty in En. specialize (Ht En).
    apply types_matched in Ht as Hm. rewrite Hm, andb_true_r. destruct (Nat.ltb_spec 1 (length (schemaTypes n))) as [|Hl]; [done|].
    destruct (schemaTypes n) as [|t [|]]; cbn in Hl; try done; [|lia]. apply Exists_cons in Ht as [Ht|Ht%Exists_nil]; [|done]. by apply coerce_types_id. }
  rewrite Hadd. cbn [is_schema]. destruct v as [| | | | | | | |l|m]; try done.
  - destruct (containsType _ _) eqn:Ec; [|done]. apply containsType_spec in Ec. cbn [andb]. destruct (is_schema _); [|done]. f_equal.
    apply map_id_elem. intros x Hx. apply IHitems; [done|]. by apply (Har l).
  - destruct (containsType _ _) eqn:Ec; [|done]. apply containsType_spec in Ec. destruct (Hob m eq_refl Ec) as [_ Hp].
    unfold properties in *. destruct (Properties n) as [ps|]; [|done]. f_equal. apply fold_left_id. intros [name s] Hin. cbn [fst snd].
    destruct (map_get m name) as [x|] eqn:Ex; [|done]. assert (coerceWithJSONSchema x s = x) as ->; [|by apply map_set_id].
    apply (IHps (name, s) Hin); [by apply (Htps (name, s))|]. by apply (Hp name s x).
Qed.

(** A null that conforms is one the schema accepts. *)
Lemma conforms_accepts s v : proper s -> conforms s v -> schemaAccepts s v = true.
Proof. intros Hs Hv. apply (validate_accepts (fun _ => true) s v []). by apply validate_conforms. Qed.

Lemma normalize_id s v : proper s -> tidy s -> conforms s v -> normalizeOptionalNulls v s = v.
Proof.
  revert v. induction s as [|n _ _ _ IHps IHitems _] using Schema_ind'; intros v Hpr Hs Hv; [done|].
  inversion Hs as [|n' Hadd Hobj Harr Htall Htps Htitems]; subst. inversion Hpr as [|n' Hd Hpall Hpps Hpitems]; subst.
  apply conforms_inv in Hv as (_ & _ & _ & _ & _ & _ & Hob & Har). cbn [normalizeOptionalNulls].
  destruct v as [| | | | | | | |l|m]; try done.
  - destruct (Items n) as [|k] eqn:Ei; [done|]. cbn [is_schema]. f_equal. apply map_id_elem. intros x Hx. apply IHitems; try done.
    apply (Har l); [done| |done]. by apply Harr.
  - unfold properties in *. destruct (Properties n) as [ps|]; [|done]. f_equal. apply fold_left_id. intros [name s] Hin. cbn [fst snd].
    destruct (map_get m name) as [x|] eqn:Ex; [|done]. destruct s as [|k] eqn:Es; [done|].
    assert (conforms s x) as Hx. { destruct (Hob m eq_refl) as [_ Hp]; [apply Hobj; by intros ->; apply elem_of_nil in Hin|]. subst s. by apply (Hp name (At k) x). }
    subst s. pose proof (Hpps _ Hin) as Hp'. pose proof (Htps _ Hin) as Ht'. cbn [snd] in *. 
    destruct (is_nil x && _ && _ && _) eqn:Edel.
    + apply andb_true_iff in Edel as [[[Hx0 _]%andb_true_iff _]%andb_true_iff Hacc]. destruct x; try done. by rewrite (conforms_accepts _ _ Hp' Hx) in Hacc.
    + pose proof (IHps _ Hin x Hp' Ht' Hx) as E. cbn [snd] in E. rewrite E. by apply map_set_id.
Qed.

(** Whatever a coercion makes of a value is of the type it was made for. *)
Lemma coercion_typed v t : coercePrimitiveByType v t = v \/ has_type (coercePrimitiveByType v t) t.
Proof.
  unfold has_type, matchesJSONType, isNumber, coercePrimitiveByType.
  destruct (String.eqb t "number"); [destruct v; cbn; repeat case_match; simplify_eq/=; auto|].
  destruct (String.eqb t "integer"); [destruct v; cbn; repeat case_match; simplify_eq/=; auto|].
  destruct (String.eqb t "boolean"); [destruct v; cbn; repeat case_match; simplify_eq/=; auto|].
  destruct (String.eqb t "string"); [destruct v; cbn; repeat case_match; simplify_eq/=; auto|].
  destruct (String.eqb t "null"); [destruct v; cbn; repeat case_match; simplify_eq/=; auto|]. auto.
Qed.

Definition is_object (v : go) : Prop := match v with VObject _ => True | _ => False end.

Lemma coerce_types_object v types : is_object v -> coerce_types v types = v.
Proof.
  destruct v; try done. intros _. induction types as [|t types IH]; [done|]. cbn [coerce_types].
  assert (coercePrimitiveByType (VObject entries) t = VObject entries) as -> by (unfold coercePrimitiveByType; by repeat case_match).
  by destruct (negb _).
Qed.

(** An object is coerced to an object. *)
Lemma coerce_object s v : is_object v -> is_object (coerceWithJSONSchema v s).
Proof.
  revert v. induction s as [|n IHall IHany IHone _ _ _] using Schema_ind'; intros v Hv; [done|]. cbn [coerceWithJSONSchema].
  assert (forall l v, (forall s, s ∈ l -> forall v, is_object v -> is_object (coerceWithJSONSchema v s)) -> is_object v ->
    is_object (if negb (Nat.eqb (length l) 0) then coerceWithUnionSchema coerceWithJSONSchema v l else v)) as Hunion.
  { intros l w Hl Hw. destruct (negb _); [|done]. unfold coerceWithUnionSchema. destruct (existsb _ _); [done|].
    induction l as [|s l IH]; [done|]. cbn. case_match; [|apply IH; intros; apply Hl; [by right|done]]. rewrite deepCopy_id. apply Hl; [by left|done]. }
  assert (is_object (fold_left coerceWithJSONSchema (AllOf n) v)) as Hall.
  { clear Hunion IHany IHone. revert v Hv. induction (AllOf n) as [|s l IH]; intros v Hv; [done|]. cbn. apply IH; [intros; apply IHall; [by right|done]|].
    apply IHall; [by left|done]. }
  apply (Hunion (AnyOf n)), (Hunion (OneOf n)) in Hall; try done. set (next := if negb (Nat.eqb (length (OneOf n)) 0) then _ else _) in *.
  match goal with |- context [coerce_types next ?t] => rewrite (coerce_types_object next t Hall) end.
  match goal with |- context [if ?b then next else next] => assert ((if b then next else next) = next) as -> by by destruct b end.
  destruct next; try done. by destruct (containsType _ _).
Qed.

Lemma normalize_object s v : is_object v -> is_object (normalizeOptionalNulls v s).
Proof. destruct s as [|n], v; try done. cbn. intros _. by destruct (Properties n). Qed.

(** *** The schemas of the tools *)

Lemma keys_set_NoDup {A} (m : list (string * A)) key v : NoDup (keys m) -> NoDup (keys (map_set m key v)).
Proof.
  intros H. destruct (decide (key ∈ keys m)) as [Hk|Hk]; [by rewrite keys_set|].
  assert (map_set m key v = m ++ [(key, v)]) as ->.
  { clear H. induction m as [|[k w] m IH]; [done|]. cbn in *. apply not_elem_of_cons in Hk as [Hn Hk]. destruct (String.eqb_spec k key); [done|]. by rewrite IH. }
  unfold keys in *. rewrite fmap_app. apply NoDup_app. split_and!; [done| |by apply NoDup_singleton]. cbn. intros x Hx ->%list_elem_of_singleton. done.
Qed.

Lemma map_set_elem {A} (m : list (string * A)) key v e : e ∈ map_set m key v -> e = (key, v) \/ e ∈ m.
Proof.
  induction m as [|[k w] m IH]; cbn; [by intros ->%list_elem_of_singleton; left|]. destruct (String.eqb_spec k key) as [->|].
  - intros [->|H]%elem_of_cons; [by left|]. right. by right.
  - intros [->|H]%elem_of_cons; [right; left|]. destruct (IH H); [by left|right; by right].
Qed.

Definition sound_schema (s : Schema) : Prop := proper s /\ tidy s.

Lemma typed_sound t : sound_schema (At (typed t)).
Proof. split; constructor; cbn; try done; try constructor; by intros ? ?%elem_of_nil. Qed.

Lemma array_sound items : sound_schema items -> sound_schema (Array_ items).
Proof. intros [Hp Ht]. split; constructor; cbn; try done; try constructor; by intros ? ?%elem_of_nil. Qed.

Lemma union_sound t nullable anyOf oneOf : sound_schema (At (with_keywords (typed t) nullable anyOf oneOf [])).
Proof. split; constructor; cbn; try done; try constructor; by intros ? ?%elem_of_nil. Qed.

(** What [Object] builds of sound schemas is sound: so are the parameters of
    every tool made with the constructors. *)
Lemma object_sound fields : Forall (fun f => sound_schema (fd_Schema f)) fields -> sound_schema (Object fields).
Proof.
  intros Hf. unfold Object.
  assert (forall ps order required, NoDup (keys ps) -> (forall p, p ∈ ps -> sound_schema p.2) ->
    exists ps' order' required', NoDup (keys ps') /\ (forall p, p ∈ ps' -> sound_schema p.2) /\
      foldl (fun n f => with_object n (map_set (properties n) (fd_Name f) (fd_Schema f)) (PropertyOrder n ++ [fd_Name f])
        (if fd_Optional f then Required n else Required n ++ [fd_Name f])) (with_object (typed "object") ps order required) fields =
      with_object (typed "object") ps' order' required') as H.
  { induction Hf as [|f fields Hf _ IH]; intros ps order required Hd Hps; [by exists ps, order, required|]. cbn [foldl].
    apply (IH (map_set ps (fd_Name f) (fd_Schema f))); [by apply keys_set_NoDup|]. intros p [->|Hp]%map_set_elem; auto. }
  destruct (H [] [] []) as (ps & order & required & Hd & Hps & ->); [constructor|by intros ? ?%elem_of_nil|].
  split; constructor; cbn; try done; try constructor; try (by intros ? ?%elem_of_nil); intros p Hp; by apply Hps.
Qed.

(** ** Theorems *)

Section Theorems.
Context (IsPrint : Z -> bool).

(** The value that is validated. *)
Definition prepared (parameters : Schema) (arguments : option entries) : go :=
  coerceWithJSONSchema (normalizeOptionalNulls (VObject (default [] arguments)) parameters) parameters.

Lemma validate_prepared parameters name arguments : exists args received,
  prepared parameters arguments = VObject args /\
  ValidateToolArguments IsPrint parameters name arguments =
    match validateValue IsPrint parameters (VObject args) [] with
    | [] => Ok args
    | errs => Err (validation_failed IsPrint name errs received)
    end.
Proof.
  unfold ValidateToolArguments, prepared. rewrite deepCopy_id.
  pose proof (normalize_object parameters (VObject (default [] arguments)) I) as Hn. destruct (normalizeOptionalNulls _ _) as [| | | | | | | | |m]; try done.
  pose proof (coerce_object parameters (VObject m) I) as Hc. destruct (coerceWithJSONSchema _ _) as [| | | | | | | | |args]; try done. by do 2 eexists.
Qed.

(** C34: when the maps of the tool's schema have each key once, the arguments
    of a call pass exactly when what they are normalized and coerced to
    conforms to the schema, and that is what the tool gets; otherwise the error
    lists at least one problem.  To conform to a union a value must have the
    surface of a member (its constant, values or types): what the member
    requires of an object or says of properties and items is not looked at.
    A coerced value is of the type it was coerced to. *)
Theorem validation_decides parameters name arguments :
  proper parameters ->
  (exists args, prepared parameters arguments = VObject args /\
    (conforms parameters (VObject args) -> ValidateToolArguments IsPrint parameters name arguments = Ok args) /\
    (~ conforms parameters (VObject args) -> exists e errs received,
      ValidateToolArguments IsPrint parameters name arguments = Err (validation_failed IsPrint name (e :: errs) received))) /\
  (forall v t, coercePrimitiveByType v t = v \/ has_type (coercePrimitiveByType v t) t).
Proof.
  intros Hp. split; [|apply coercion_typed]. destruct (validate_prepared parameters name arguments) as (args & received & Ea & ->). exists args. split; [done|].
  rewrite <- (validate_conforms IsPrint _ _ [] Hp). destruct (validateValue _ _ _ _) as [|e errs]; split; try done. intros _. by exists e, errs, received.
Qed.

(** C35: arguments that conform to a tidy schema are passed on unchanged, so
    what a validation has passed passes again as it is: coercing and dropping
    nulls never touch what was right. *)
Theorem validation_stable parameters name :
  proper parameters -> tidy parameters ->
  (forall args, conforms parameters (VObject args) -> ValidateToolArguments IsPrint parameters name (Some args) = Ok args) /\
  (forall arguments args, ValidateToolArguments IsPrint parameters name arguments = Ok args ->
    ValidateToolArguments IsPrint parameters name (Some args) = Ok args).
Proof.
  intros Hp Ht. assert (forall args, conforms parameters (VObject args) -> ValidateToolArguments IsPrint parameters name (Some args) = Ok args) as H.
  { intros args Hc. destruct (validate_prepared parameters name (Some args)) as (args' & received & Ea & ->). unfold prepared in Ea. cbn [default] in Ea.
    rewrite normalize_id, coerce_id in Ea by done. injection Ea as <-. by rewrite (proj2 (validate_conforms IsPrint _ _ [] Hp) Hc). }
  split; [exact H|]. intros arguments args. destruct (validate_prepared parameters name arguments) as (args' & received & _ & ->).
  destruct (validateValue _ _ _ _) eqn:Ev; [|done]. intros [= <-]. apply H. by apply (validate_conforms IsPrint _ _ [] Hp).
Qed.
End Theorems.

(** ** Examples *)

(** Parameters with an optional number, an optional text that may be null and
    nested objects. *)
Definition sample_parameters : Schema :=
  Object [Prop_ "path" String_; Opt "limit" Integer_;
    Opt "label" (At (with_keywords (typed "") false [String_; At (typed "null")] [] []));
    Prop_ "edits" (Array_ (Object [Prop_ "n" Number_; Opt "all" Boolean_]))].

Lemma sample_sound : sound_schema sample_parameters.
Proof.
  apply object_sound. repeat apply Forall_cons_2; [apply typed_sound|apply typed_sound|apply union_sound| |apply Forall_nil_2].
  apply array_sound, object_sound. repeat apply Forall_cons_2; [apply typed_sound..|apply Forall_nil_2].
Qed.

(** Every character of ASCII that is printable, and no other. *)
Definition ascii_print (r : Z) : bool := in_range 32 126 r.

Definition sample_call : entries :=
  [("path", VNumber (lit "7")); ("limit", VNil); ("label", VNil); ("edits", VArray [VObject [("n", VString " 4e1 "); ("all", VString "true")]])]%string.

Definition sample_args : entries :=
  [("path", VString "7"); ("label", VNil); ("edits", VArray [VObject [("n", VFloat64 (sample 40 0)); ("all", VBool true)]])]%string.

Example coerced_call : ValidateToolArguments ascii_print sample_parameters "edit" (Some sample_call) = Ok sample_args.
Proof. vm_compute. reflexivity. Qed.

Example rejected_call :
  ValidateToolCall ascii_print [("edit", sample_parameters)]%string "edit" (Some [("path", VString "x"); ("edits", VArray [VObject [("n", VString "y")]])]%string) =
  Err (lit "Validation failed for tool " ++ [byte 34] ++ lit "edit" ++ [byte 34] ++ lit ":" ++ [newline] ++
    lit "  - edits[0].n: expected number" ++ [newline; newline] ++ lit "Received arguments:" ++ [newline] ++ join [newline] (map (fun c => if code c =? 39 then byte 34 else c) <$>
      (lit <$> ["{"; "  'edits': ["; "    {"; "      'n': 'y'"; "    }"; "  ],"; "  'path': 'x'"; "}"]%string))).
Proof. vm_compute. reflexivity. Qed.

Lemma validation_decides_witness :
  (exists args, prepared sample_parameters (Some sample_call) = VObject args /\ ValidateToolArguments ascii_print sample_parameters "edit" (Some sample_call) = Ok args) /\
  has_type (coercePrimitiveByType (VString "1") "integer") "integer".
Proof.
  destruct (validation_decides ascii_print sample_parameters "edit" (Some sample_call) (proj1 sample_sound)) as [(args & Ea & Hok & _) Ht]. split.
  - exists args. split; [exact Ea|]. apply Hok. assert (VObject args = VObject sample_args) as -> by (rewrite <- Ea; vm_compute; reflexivity).
    apply (validate_conforms ascii_print sample_parameters _ []); [apply sample_sound|]. vm_compute. reflexivity.
  - destruct (Ht (VString "1") "integer"%string) as [E|E]; [|exact E]. exfalso. vm_compute in E. discriminate E.
Defined.

Lemma validation_stable_witness :
  ValidateToolArguments ascii_print sample_parameters "edit" (Some sample_args) = Ok sample_args.
Proof.
  destruct (validation_stable ascii_print sample_parameters "edit" (proj1 sample_sound) (proj2 sample_sound)) as [_ H].
  apply (H (Some sample_call)). vm_compute. reflexivity.
Defined.

(** An integer may be infinite, a value no JSON number denotes. *)
Example infinite_integer :
  ValidateToolArguments ascii_print sample_parameters "edit" (Some [("path", VString "x"); ("limit", VString "inf"); ("edits", VArray [])]%string) =
    Ok [("path", VString "x"); ("limit", VFloat64 (S754_infinity false)); ("edits", VArray [])]%string /\
  Marshal (VFloat64 (S754_infinity false)) = None.
Proof. split; vm_compute; reflexivity. Qed.

(** Inside a union only the surface is validated: the member needs its property,
    and an object without it passes, which the schema's own check refuses. *)
Example shallow_union :
  let member := Object [Prop_ "path" String_] in
  let union := At (with_keywords (typed "") false [member] [] []) in
  ValidateToolArguments ascii_print (Object [Prop_ "value" union]) "echo" (Some [("value", VObject [])]%string) = Ok [("value", VObject [])]%string /\
  Check_ union (VObject []) = false.
Proof. split; vm_compute; reflexivity. Qed.
