(* ===== verification/Scopes.v ===== *)
(** * Scopes of a run ([scope.go], [group.go], [run.go])

    A run is a tree of scopes.  Each scope owns the sessions it created, the
    services it started and its child scopes, and ends them when its body
    returns or its context is cancelled.  Goroutines share the scopes: a step
    is a critical section of the code, and the steps of all goroutines
    interleave freely.  A scope is its place in the list of all scopes made so
    far, in the order they were made.

    What a scope does when it ends ([stopOwnedWork]) is a list of jobs that
    whoever ends it performs one at a time, so it interleaves with everything
    else; [sync.Once] lets one goroutine through, and the others wait until the
    end is done.  Outcomes of closing sessions, stopping services and releasing
    secrets are arguments. *)

From S2P Require Import Prelude GoText.
From Stdlib Require Import Ascii.

Open Scope Z_scope.

(** ** Definitions *)

(** *** Errors *)

Record Killed : Type := mkKilled {
  kl_Target : string;
  kl_By : string;
  kl_Reason : string
}.

(** [Failure] is an error of a format and the names it quotes. *)
Inductive error : Type :=
| Canceled
| DeadlineExceeded
| KilledError (k : Killed)
| Failure (format : string) (args : list string)
| Joined (errs : list error).

Fixpoint somes {A} (l : list (option A)) : list A :=
  match l with [] => [] | Some a :: l => a :: somes l | None :: l => somes l end.

(** [errors.Join]: nil when all are. *)
Definition Join (l : list (option error)) : option error :=
  match somes l with [] => None | errs => Some (Joined errs) end.

(** [errors.Is(err, context.Canceled)] *)
Fixpoint is_canceled (e : error) : bool :=
  match e with
  | Canceled => true
  | Joined l => existsb is_canceled l
  | _ => false
  end.

(** [errors.AsType[Killed](err)]: the first in depth. *)
Fixpoint as_killed (e : error) : option Killed :=
  match e with
  | KilledError k => Some k
  | Joined l => (fix first l := match l with [] => None | e :: l => match as_killed e with Some k => Some k | None => first l end end) l
  | _ => None
  end.

(** *** Scopes *)

(** The context of a scope: none before it begins, and what [Err] and [Cause]
    say of it. *)
Inductive context : Type :=
| NoContext
| Live
| Cancelled (err cause : error).

(** The body of a scope: running, left by a panic, returned its error, and
    [finish] returned with its own. *)
Inductive body : Type :=
| Running
| Unwound
| Finished (err : option error)
| Returned (err result : option error).

(** What is left to do when a scope ends. *)
Inductive job : Type :=
| EndChild (c : nat)
| CloseSession (i : nat)
| RemoteCleanup
| StopService (i : nat)
| ReleaseSecrets.

Inductive ending : Type :=
| NotEnded
| Ending (jobs : list job) (errs : list error)
| Ended (err : option error).

(** Whether a child or session came to its parent's list before the parent
    ended, which took the list. *)
Inductive attachment : Type :=
| Detached
| InTime
| Late.

Record scope : Type := MkScope {
  sc_parent : option nat;
  sc_name : string;
  sc_key : string;
  sc_completed : bool;
  sc_loop : bool;
  sc_attached : attachment;
  sc_ctx : context;
  sc_body : body;
  sc_end : ending;
  sc_serviceErr : option error;
  sc_groupErr : option error;
  sc_children : list nat;
  sc_sessions : list nat;
  sc_services : list nat;
  sc_dispatching : bool;
  sc_messages : list string;
  sc_ordinals : gmap string Z;
  sc_keys : list string;
  sc_values : gmap string text
}.

Record session : Type := MkSession {
  ss_owner : nat;
  ss_id : string;
  ss_native : bool;
  ss_late : bool;
  ss_closed : bool
}.

Record service : Type := MkService {
  sv_owner : nat;
  sv_stopping : bool;
  sv_exited : bool
}.

(** The records the steps leave, in order: lifecycle events, and for the
    statements what was done at the end of a scope and what was accepted. *)
Inductive record : Type :=
| ScopeBegan (s : nat)
| ScopeEnded (s : nat) (err : option error)
| Released (s : nat) (j : job) (err : option error)
| Accepted (s : nat) (message : string)
| Steer (s : nat) (message : string) (landed : bool)
| KilledEvent (key : string) (cause : error)
| ValueSet (s : nat) (key : string)
| StoppedNative (i : nat).

Record state : Type := MkState {
  st_scopes : list scope;
  st_sessions : list session;
  st_services : list service;
  st_live : gmap string nat;
  st_rootCancel : option error;
  st_log : list record;
  st_crashed : bool
}.

(** *** Updates *)

Definition set_place (c : scope) (attached : attachment) (children sessions services : list nat) : scope :=
  MkScope (sc_parent c) (sc_name c) (sc_key c) (sc_completed c) (sc_loop c) attached (sc_ctx c) (sc_body c) (sc_end c) (sc_serviceErr c) (sc_groupErr c)
    children sessions services (sc_dispatching c) (sc_messages c) (sc_ordinals c) (sc_keys c) (sc_values c).
Definition set_life (c : scope) (loop : bool) (ctx : context) (b : body) (e : ending) (serviceErr groupErr : option error) : scope :=
  MkScope (sc_parent c) (sc_name c) (sc_key c) (sc_completed c) loop (sc_attached c) ctx b e serviceErr groupErr
    (sc_children c) (sc_sessions c) (sc_services c) (sc_dispatching c) (sc_messages c) (sc_ordinals c) (sc_keys c) (sc_values c).
Definition set_mail (c : scope) (dispatching : bool) (messages : list string) : scope :=
  MkScope (sc_parent c) (sc_name c) (sc_key c) (sc_completed c) (sc_loop c) (sc_attached c) (sc_ctx c) (sc_body c) (sc_end c) (sc_serviceErr c) (sc_groupErr c)
    (sc_children c) (sc_sessions c) (sc_services c) dispatching messages (sc_ordinals c) (sc_keys c) (sc_values c).
Definition set_bag (c : scope) (ordinals : gmap string Z) (keys : list string) (values : gmap string text) : scope :=
  MkScope (sc_parent c) (sc_name c) (sc_key c) (sc_completed c) (sc_loop c) (sc_attached c) (sc_ctx c) (sc_body c) (sc_end c) (sc_serviceErr c) (sc_groupErr c)
    (sc_children c) (sc_sessions c) (sc_services c) (sc_dispatching c) (sc_messages c) ordinals keys values.

Definition with_ctx (ctx : context) (c : scope) : scope := set_life c (sc_loop c) ctx (sc_body c) (sc_end c) (sc_serviceErr c) (sc_groupErr c).
Definition with_body (b : body) (c : scope) : scope := set_life c (sc_loop c) (sc_ctx c) b (sc_end c) (sc_serviceErr c) (sc_groupErr c).
Definition with_end (e : ending) (c : scope) : scope := set_life c (sc_loop c) (sc_ctx c) (sc_body c) e (sc_serviceErr c) (sc_groupErr c).
Definition with_children (l : list nat) (c : scope) : scope := set_place c (sc_attached c) l (sc_sessions c) (sc_services c).

Definition on_scopes (f : list scope -> list scope) (st : state) : state :=
  MkState (f (st_scopes st)) (st_sessions st) (st_services st) (st_live st) (st_rootCancel st) (st_log st) (st_crashed st).
(** Change the scope [i]. *)
Definition on (i : nat) (f : scope -> scope) (st : state) : state := on_scopes (alter f i) st.
Definition on_sessions (f : list session -> list session) (st : state) : state :=
  MkState (st_scopes st) (f (st_sessions st)) (st_services st) (st_live st) (st_rootCancel st) (st_log st) (st_crashed st).
Definition on_services (f : list service -> list service) (st : state) : state :=
  MkState (st_scopes st) (st_sessions st) (f (st_services st)) (st_live st) (st_rootCancel st) (st_log st) (st_crashed st).
Definition with_live (live : gmap string nat) (st : state) : state :=
  MkState (st_scopes st) (st_sessions st) (st_services st) live (st_rootCancel st) (st_log st) (st_crashed st).
Definition with_rootCancel (cause : option error) (st : state) : state :=
  MkState (st_scopes st) (st_sessions st) (st_services st) (st_live st) cause (st_log st) (st_crashed st).
Definition event (r : record) (st : state) : state :=
  MkState (st_scopes st) (st_sessions st) (st_services st) (st_live st) (st_rootCancel st) (st_log st ++ [r]) (st_crashed st).
Definition events (l : list record) (st : state) : state :=
  MkState (st_scopes st) (st_sessions st) (st_services st) (st_live st) (st_rootCancel st) (st_log st ++ l) (st_crashed st).
Definition crash (st : state) : state :=
  MkState (st_scopes st) (st_sessions st) (st_services st) (st_live st) (st_rootCancel st) (st_log st) true.

Definition is_ended (c : scope) : bool := match sc_end c with NotEnded => false | _ => true end.
Definition is_cancelled (c : scope) : bool := match sc_ctx c with Cancelled _ _ => true | _ => false end.
Definition begun (c : scope) : bool := match sc_ctx c with NoContext => false | _ => true end.
Definition is_finished (c : scope) : bool := match sc_body c with Finished _ | Returned _ _ => true | _ => false end.

(** *** Names *)

(** [path.Join] of a key and a name with an ordinal, neither of which is
    changed by [path.Clean]. *)
Definition join_key (key last : string) : string := if String.eqb key "" then last else (key ++ "/" ++ last)%string.

Definition ordinal_name (name : string) (n : Z) : string := (name ++ "." ++ String.string_of_list_ascii (itoa n))%string.

(** [next]: the key of the next child of the name, and the scope that has
    counted it. *)
Definition next (c : scope) (name : string) : string * scope :=
  let n := default 0 (sc_ordinals c !! name) + 1 in
  (join_key (sc_key c) (ordinal_name name n), set_bag c (<[name := n]> (sc_ordinals c)) (sc_keys c) (sc_values c)).

(** *** Contexts *)

(** A context is cancelled with its parent, and keeps the first cause. *)
Definition inherit (acc : list scope) (c : scope) : list scope :=
  acc ++ [match sc_ctx c, (p ← sc_parent c; sc_ctx <$> acc !! p) with
          | Live, Some (Cancelled err cause) => with_ctx (Cancelled err cause) c
          | _, _ => c
          end].

Definition propagate (l : list scope) : list scope := foldl inherit [] l.

(** [cancel(cause)], a nil cause being [context.Canceled]. *)
Definition cancel (s : nat) (err cause : error) (st : state) : state :=
  on_scopes propagate (on s (fun c => match sc_ctx c with Live => with_ctx (Cancelled err cause) c | _ => c end) st).

(** *** Making scopes *)

Definition new_scope (parent : option nat) (name key : string) (completed : bool) : scope :=
  MkScope parent name key completed false Detached NoContext Running NotEnded None None [] [] [] false [] ∅ [] ∅.

(** The first part of [child], which is called with the parent's context: a
    key and a node for the scope.  [completed]
    is whether the run's record has the end of this scope already. *)
Definition name_child (p : nat) (name : string) (completed : bool) (st : state) : option state :=
  c ← st_scopes st !! p;
  if begun c then
    let (key, c') := next c name in
    Some (on_scopes (fun l => <[p := c']> l ++ [new_scope (Some p) name key completed]) st)
  else None.

(** The second: the parent's list of children, whether it has ended or not. *)
Definition attach_child (i : nat) (st : state) : option state :=
  c ← st_scopes st !! i;
  p ← sc_parent c;
  parent ← st_scopes st !! p;
  match sc_attached c with
  | Detached =>
      let place := if is_ended parent then Late else InTime in
      Some (on i (fun c => set_place c place (sc_children c) (sc_sessions c) (sc_services c)) (on p (fun c => with_children (sc_children c ++ [i]) c) st))
  | _ => None
  end.

Definition started (loop : bool) (c : scope) : scope :=
  set_mail (set_life c loop Live (sc_body c) (sc_end c) (sc_serviceErr c) (sc_groupErr c)) loop (sc_messages c).

(** The context of a scope is a child of its caller's, and may be cancelled
    already; from here on its cancellation ends the scope. *)
Definition start_context (i : nat) (loop : bool) (st : state) : option state :=
  c ← st_scopes st !! i;
  match sc_ctx c, sc_attached c with
  | NoContext, (InTime | Late) => Some (on_scopes propagate (on i (started loop) st))
  | _, _ => None
  end.

(** The scope enters the run's table, and the record. *)
Definition register (i : nat) (st : state) : option state :=
  c ← st_scopes st !! i;
  Some (event (ScopeBegan i) (with_live (<[sc_key c := i]> (st_live st)) st)).

(** [begin]: nothing ends the scope before it is in the table. *)
Definition begin (i : nat) (loop : bool) (st : state) : option state := st ← start_context i loop st; register i st.

(** Whether the scope has been in the table. *)
Definition registered (i : nat) (st : state) : bool := existsb (fun r => match r with ScopeBegan j => Nat.eqb i j | _ => false end) (st_log st).

(** [Group] begins its own scope in two steps, the second of which comes after
    its cancellation can end it. *)
Definition group_begin (i : nat) (st : state) : option state := start_context i false st.

Definition group_register (i : nat) (st : state) : option state :=
  c ← st_scopes st !! i;
  if begun c && negb (registered i st) then register i st else None.

(** *** Work owned by a scope *)

(** The first part of [adopt]: an id for the session. *)
Definition name_session (s : nat) (name : string) (st : state) : option (string * state) :=
  c ← st_scopes st !! s;
  if begun c then Some (fst (next c name), on s (fun c => snd (next c name)) st) else None.

(** The end of [adopt]: a session that comes late is closed. *)
Definition adopt (s : nat) (id : string) (st : state) : option state :=
  c ← st_scopes st !! s;
  if begun c then
    let i := length (st_sessions st) in
    Some (on_sessions (fun l => l ++ [MkSession s id false (is_ended c) (is_ended c)])
      (on s (fun c => set_place c (sc_attached c) (sc_children c) (sc_sessions c ++ [i]) (sc_services c)) st))
  else None.

(** [adoptNative]: the adapter has allocated something for a session; if the
    session is closed already, it is released right away. *)
Definition allocate (i : nat) (st : state) : option state :=
  x ← st_sessions st !! i;
  let st := on_sessions (alter (fun x => MkSession (ss_owner x) (ss_id x) true (ss_late x) (ss_closed x)) i) st in
  Some (if ss_closed x then event (StoppedNative i) st else st).

(** [adoptService]: an ended scope takes no service. *)
Definition adoptService (s : nat) (st : state) : option state :=
  c ← st_scopes st !! s;
  if begun c && negb (is_ended c) then
    let i := length (st_services st) in
    Some (on_services (fun l => l ++ [MkService s false false])
      (on s (fun c => set_place c (sc_attached c) (sc_children c) (sc_sessions c) (sc_services c ++ [i])) st))
  else None.

(** [failService]: the first failure counts and cancels the scope. *)
Definition failService (s : nat) (err : error) (st : state) : option state :=
  c ← st_scopes st !! s;
  match sc_serviceErr c with
  | Some _ => Some st
  | None => Some (cancel s Canceled err (on s (fun c => set_life c (sc_loop c) (sc_ctx c) (sc_body c) (sc_end c) (Some err) (sc_groupErr c)) st))
  end.

(** A service's process exits; unless it was being stopped, its scope fails. *)
Definition service_exits (i : nat) (err : error) (st : state) : option state :=
  v ← st_services st !! i;
  if sv_exited v then None
  else
    let st := on_services (alter (fun v => MkService (sv_owner v) (sv_stopping v) true) i) st in
    if sv_stopping v then Some st else failService (sv_owner v) err st.

(** *** Messages for the planner of a loop *)

Definition queueMessage (s : nat) (message : string) (st : state) : option (bool * state) :=
  c ← st_scopes st !! s;
  if negb (sc_dispatching c) || is_ended c then Some (false, st)
  else Some (true, event (Accepted s message) (on s (fun c => set_mail c (sc_dispatching c) (sc_messages c ++ [message])) st)).

(** [takeMessages], and their records as landed in [planNext]. *)
Definition takeMessages (s : nat) (st : state) : option state :=
  c ← st_scopes st !! s;
  Some (events ((fun m => Steer s m true) <$> sc_messages c) (on s (fun c => set_mail c (sc_dispatching c) []) st)).

(** [endDispatch], and their records as dropped in [endLoop]. *)
Definition endDispatch (s : nat) (st : state) : option state :=
  c ← st_scopes st !! s;
  Some (events ((fun m => Steer s m false) <$> sc_messages c) (on s (fun c => set_mail c false []) st)).

(** *** Ending *)

(** The jobs of [stopOwnedWork], in order. *)
Definition owned_jobs (c : scope) : list job :=
  (EndChild <$> sc_children c) ++ (CloseSession <$> sc_sessions c) ++ [RemoteCleanup] ++ (StopService <$> rev (sc_services c)) ++ [ReleaseSecrets].

(** The critical section of [stopOwnedWork]: the scope leaves the run's table
    and gives up everything it has; its services are marked as stopping; then
    its context is cancelled, if it has one. *)
Definition start_end (s : nat) (st : state) : option state :=
  c ← st_scopes st !! s;
  match sc_end c with
  | NotEnded =>
      let release_all c := set_bag (set_mail (set_place (with_end (Ending (owned_jobs c) []) c) (sc_attached c) [] [] []) (sc_dispatching c) [])
        (sc_ordinals c) [] ∅ in
      let stopping l := imap (fun i v => if bool_decide (i ∈ sc_services c) then MkService (sv_owner v) true (sv_exited v) else v) l in
      Some (cancel s Canceled Canceled (on_services stopping (with_live (delete (sc_key c) (st_live st)) (on s release_all st))))
  | _ => None
  end.

(** The next job of a scope that is ending.  The end of a child is waited for;
    cleaning up needs the context, unless the record has the scope's end.
    Stopping a service succeeds when its process is gone. *)
Definition advance (s : nat) (outcome : option error) (st : state) : option state :=
  c ← st_scopes st !! s;
  match sc_end c with
  | Ending (j :: jobs) errs =>
      let done err keeps st :=
        event (Released s j err) (on s (with_end (Ending jobs (if keeps : bool then errs ++ somes [err] else errs))) st) in
      match j with
      | EndChild k =>
          match sc_end <$> st_scopes st !! k with
          | Some (Ended err) => Some (done err true st)
          | _ => None
          end
      | CloseSession i =>
          x ← st_sessions st !! i;
          let err := if ss_native x then outcome else None in
          Some (done err false (on_sessions (alter (fun x => MkSession (ss_owner x) (ss_id x) (ss_native x) (ss_late x) true) i) st))
      | RemoteCleanup =>
          if sc_completed c then Some (done None true st)
          else if begun c then Some (done outcome true st) else Some (crash st)
      | StopService i =>
          let stop v := MkService (sv_owner v) true (sv_exited v || match outcome with None => true | Some _ => false end) in
          Some (done outcome true (on_services (alter stop i) st))
      | ReleaseSecrets =>
          if sc_completed c then Some (done None true st)
          else if begun c then Some (done outcome true st) else Some (crash st)
      end
  | Ending [] errs => Some (on s (with_end (Ended (Join (Some <$> errs)))) st)
  | _ => None
  end.

(** *** Bodies *)

(** The body returns its error, or is left by a panic. *)
Definition body_returns (s : nat) (err : option error) (st : state) : option state :=
  c ← st_scopes st !! s;
  match sc_body c, sc_ctx c with
  | Running, (Live | Cancelled _ _) => Some (on s (with_body (Finished err)) st)
  | _, _ => None
  end.

Definition body_panics (s : nat) (st : state) : option state :=
  c ← st_scopes st !! s;
  match sc_body c, sc_ctx c with
  | Running, (Live | Cancelled _ _) => Some (on s (with_body Unwound) st)
  | _, _ => None
  end.

(** The error of a scope, from its body's, its services' and its cleanup's. *)
Definition scope_error (bodyErr serviceErr cleanupErr : option error) : option error :=
  let bodyErr :=
    match serviceErr with
    | Some e => if match bodyErr with None => true | Some b => is_canceled b end then serviceErr else Join [bodyErr; serviceErr]
    | None => Join [bodyErr; serviceErr]
    end in
  Join [bodyErr; cleanupErr].

(** [finish] returns once the end is done. *)
Definition finish (s : nat) (st : state) : option state :=
  c ← st_scopes st !! s;
  match sc_body c, sc_end c with
  | Finished err, Ended cleanupErr =>
      let result := scope_error err (sc_serviceErr c) cleanupErr in
      Some (event (ScopeEnded s result) (on s (with_body (Returned err result)) st))
  | _, _ => None
  end.

(** *** Operators *)

(** [killedEvent]'s cause, a nil one being [context.Canceled]. *)
Definition CancelScope (key : string) (cause : option error) (st : state) : result error state :=
  match st_live st !! key with
  | None => Err (Failure "gimbal: no live scope %q" [key])
  | Some s =>
      let cause := default Canceled cause in
      if String.eqb key "" then
        match st_rootCancel st with
        | Some _ => Ok st
        | None => Ok (cancel s Canceled cause (event (KilledEvent key cause) (with_rootCancel (Some cause) st)))
        end
      else Ok (cancel s Canceled cause (event (KilledEvent key cause) st))
  end.

Definition SteerLoop (key message : string) (st : state) : result error state :=
  match (s ← st_live st !! key; c ← st_scopes st !! s; if sc_loop c then queueMessage s message st else None) with
  | None => Err (Failure "gimbal: no live loop %q" [key])
  | Some (false, _) => Err (Failure "gimbal: the loop %q has stopped dispatching" [key])
  | Some (true, st) => Ok st
  end.

(** *** Using a scope *)

(** [current]: the scope of a context, and why it cannot be used once it has
    ended. *)
Definition endedError (c : scope) (ended : error) : error :=
  match sc_ctx c with
  | Cancelled err cause =>
      if is_finished c then ended
      else match cause, err with
           | Canceled, Canceled | DeadlineExceeded, DeadlineExceeded => err
           | _, _ => Joined [err; cause]
           end
  | _ => ended
  end.

Definition current (s : nat) (st : state) : result error nat :=
  match st_scopes st !! s with
  | None => Err (Failure "gimbal: no scope in the ctx; it must come from gimbal.Run" [])
  | Some c => if is_ended c then Err (endedError c (Failure "gimbal: scope ended: %q" [sc_key c])) else Ok s
  end.

(** [store]: misuse is a panic. *)
Definition store (s : nat) (key : string) (raw : text) (st : state) : result error state :=
  match st_scopes st !! s with
  | None => Err (Failure "gimbal: set %q: no scope in the ctx; it must come from gimbal.Run" [key])
  | Some c =>
      if is_ended c then Err (Failure "gimbal: set %q in scope %q after it ended" [key; sc_key c])
      else match sc_values c !! key with
           | Some _ => Err (Failure "gimbal: %q is already set in scope %q" [key; sc_key c])
           | None => Ok (event (ValueSet s key) (on s (fun c => set_bag c (sc_ordinals c) (sc_keys c ++ [key]) (<[key := raw]> (sc_values c))) st))
           end
  end.

(** The error of a group's child: the first is kept, and unless the child was
    killed the group is cancelled. *)
Definition group_error (g : nat) (err : error) (st : state) : option state :=
  c ← st_scopes st !! g;
  let keep c := match sc_groupErr c with
                | None => set_life c (sc_loop c) (sc_ctx c) (sc_body c) (sc_end c) (sc_serviceErr c) (Some err)
                | Some _ => c
                end in
  let st := on g keep st in
  Some (match as_killed err with Some _ => st | None => cancel g Canceled Canceled st end).

(** *** Steps *)

(** What lets a scope end: its context is cancelled, its body is over, or its
    parent has come to it. *)
Definition may_end (s : nat) (st : state) : bool :=
  match st_scopes st !! s with
  | Some c =>
      is_cancelled c || match sc_body c with Running => false | _ => true end ||
      match (p ← sc_parent c; sc_end <$> st_scopes st !! p) with Some (Ending (EndChild k :: _) _) => Nat.eqb k s | _ => false end
  | None => false
  end.

Inductive op : Type :=
| OName (p : nat) (name : string) (completed : bool)
| OAttach (i : nat)
| OBegin (i : nat) (loop : bool)
| OGroup (i : nat)
| ORegister (i : nat)
| OSession (s : nat) (name : string)
| OAdopt (s : nat) (id : string)
| OAllocate (i : nat)
| OAdoptService (s : nat)
| OFail (s : nat) (err : error)
| OExit (i : nat) (err : error)
| OQueue (s : nat) (message : string)
| OTake (s : nat)
| OEndDispatch (s : nat)
| OStore (s : nat) (key : string) (raw : text)
| OCancel (key : string) (cause : option error)
| OGroupError (g : nat) (err : error)
| OReturn (s : nat) (err : option error)
| OPanic (s : nat)
| OStartEnd (s : nat)
| OAdvance (s : nat) (outcome : option error)
| OFinish (s : nat).

Definition of_result {E A} (r : result E A) : option A := match r with Ok a => Some a | Err _ => None end.

Definition exec (o : op) (st : state) : option state :=
  if st_crashed st then None
  else
    match o with
    | OName p name completed => name_child p name completed st
    | OAttach i => attach_child i st
    | OBegin i loop => begin i loop st
    | OGroup i => group_begin i st
    | ORegister i => group_register i st
    | OSession s name => snd <$> name_session s name st
    | OAdopt s id => adopt s id st
    | OAllocate i => allocate i st
    | OAdoptService s => adoptService s st
    | OFail s err => failService s err st
    | OExit i err => service_exits i err st
    | OQueue s message => snd <$> queueMessage s message st
    | OTake s => takeMessages s st
    | OEndDispatch s => endDispatch s st
    | OStore s key raw => of_result (store s key raw st)
    | OCancel key cause => of_result (CancelScope key cause st)
    | OGroupError g err => group_error g err st
    | OReturn s err => body_returns s err st
    | OPanic s => body_panics s st
    | OStartEnd s => if may_end s st then start_end s st else None
    | OAdvance s outcome => advance s outcome st
    | OFinish s => finish s st
    end.

(** A run begins with its root scope, which has no parent's list to be in. *)
Definition root : scope :=
  MkScope None "" "" false false InTime NoContext Running NotEnded None None [] [] [] false [] ∅ [] ∅.

Definition initial : state := MkState [root] [] [] ∅ None [] false.

Inductive step (st st' : state) : Prop :=
| step_exec o : exec o st = Some st' -> step st st'.

Definition reachable (st : state) : Prop := rtc step initial st.

Fixpoint run (ops : list op) (st : state) : option state :=
  match ops with [] => Some st | o :: ops => st ← exec o st; run ops st end.

(** The state after some steps. *)
Definition after (ops : list op) : state := default initial (run ops initial).
