(* ===== verification/ScopeInv.v ===== *)
(** * What the end of a scope depends on

    Most of the state of a run says nothing about who owns what.  The view of a
    state is the part that does: where each scope is attached, how far its end
    is, what it holds, whose the sessions and services are, and the jobs done.
    Every step of a run is a step of its view, or leaves it alone, so what is
    shown of views holds of runs. *)

From S2P Require Import Prelude GoText Scopes.
From Stdlib Require Import Ascii.

Open Scope Z_scope.

(** ** Definitions *)

Record core : Type := MkCore {
  co_parent : option nat;
  co_attached : attachment;
  co_end : ending;
  co_children : list nat;
  co_sessions : list nat;
  co_services : list nat
}.

Definition core_of (c : scope) : core := MkCore (sc_parent c) (sc_attached c) (sc_end c) (sc_children c) (sc_sessions c) (sc_services c).

(** The jobs done, in order, whose they were and what came of them. *)
Definition job_of (r : record) : option (nat * job * option error) := match r with Released s j err => Some (s, j, err) | _ => None end.

Record view : Type := MkView {
  vw_cores : list core;
  vw_sessions : list (nat * bool);
  vw_services : list nat;
  vw_done : list (nat * job * option error)
}.

Definition view_of (st : state) : view :=
  MkView (core_of <$> st_scopes st) ((fun x => (ss_owner x, ss_late x)) <$> st_sessions st) (sv_owner <$> st_services st) (omap job_of (st_log st)).

Definition core_ended (c : core) : bool := match co_end c with NotEnded => false | _ => true end.

Definition core_jobs (c : core) : list job :=
  (EndChild <$> co_children c) ++ (CloseSession <$> co_sessions c) ++ [RemoteCleanup] ++ (StopService <$> rev (co_services c)) ++ [ReleaseSecrets].

Definition with_cores (f : list core -> list core) (v : view) : view := MkView (f (vw_cores v)) (vw_sessions v) (vw_services v) (vw_done v).

Definition at_end (e : ending) (c : core) : core := MkCore (co_parent c) (co_attached c) e (co_children c) (co_sessions c) (co_services c).

(** The errors that are kept: those of the sessions are the run's. *)
Definition keeps (j : job) : bool := match j with CloseSession _ => false | _ => true end.

Definition kept (j : job) (err : option error) : list error := if keeps j then somes [err] else [].

(** The steps of a view. *)
Inductive view_step (v : view) : view -> Prop :=
| vs_name p c : vw_cores v !! p = Some c ->
    view_step v (with_cores (fun l => l ++ [MkCore (Some p) Detached NotEnded [] [] []]) v)
| vs_attach i p c parent : vw_cores v !! i = Some c -> co_parent c = Some p -> vw_cores v !! p = Some parent -> co_attached c = Detached ->
    view_step v (with_cores (fun l =>
      alter (fun c => MkCore (co_parent c) (if core_ended parent then Late else InTime) (co_end c) (co_children c) (co_sessions c) (co_services c)) i
        (alter (fun c => MkCore (co_parent c) (co_attached c) (co_end c) (co_children c ++ [i]) (co_sessions c) (co_services c)) p l)) v)
| vs_adopt s c : vw_cores v !! s = Some c ->
    view_step v (MkView
      (alter (fun c => MkCore (co_parent c) (co_attached c) (co_end c) (co_children c) (co_sessions c ++ [length (vw_sessions v)]) (co_services c)) s (vw_cores v))
      (vw_sessions v ++ [(s, core_ended c)]) (vw_services v) (vw_done v))
| vs_adopt_service s c : vw_cores v !! s = Some c -> core_ended c = false ->
    view_step v (MkView
      (alter (fun c => MkCore (co_parent c) (co_attached c) (co_end c) (co_children c) (co_sessions c) (co_services c ++ [length (vw_services v)])) s (vw_cores v))
      (vw_sessions v) (vw_services v ++ [s]) (vw_done v))
| vs_start s c : vw_cores v !! s = Some c -> co_end c = NotEnded ->
    view_step v (with_cores (alter (fun c => MkCore (co_parent c) (co_attached c) (Ending (core_jobs c) []) [] [] []) s) v)
| vs_job s c j jobs errs err : vw_cores v !! s = Some c -> co_end c = Ending (j :: jobs) errs ->
    (forall k, j = EndChild k -> exists c' e, vw_cores v !! k = Some c' /\ co_end c' = Ended e) ->
    view_step v (MkView (alter (at_end (Ending jobs (errs ++ kept j err))) s (vw_cores v)) (vw_sessions v) (vw_services v) (vw_done v ++ [(s, j, err)]))
| vs_end s c errs : vw_cores v !! s = Some c -> co_end c = Ending [] errs ->
    view_step v (with_cores (alter (at_end (Ended (Join (Some <$> errs)))) s) v).

(** ** Lemmas *)

Lemma somes_app {A} (l l' : list (option A)) : somes (l ++ l') = somes l ++ somes l'.
Proof. induction l as [|[a|] l IH]; cbn; [done|by rewrite IH|done]. Qed.

(** *** Cancelling changes contexts only *)

Definition erase (c : scope) : scope := with_ctx NoContext c.

Lemma inherit_erase l acc : erase <$> foldl inherit acc l = (erase <$> acc) ++ (erase <$> l).
Proof.
  revert acc. induction l as [|c l IH]; intros acc; cbn; [by rewrite app_nil_r|]. rewrite IH. unfold inherit at 1. rewrite fmap_app, <- app_assoc.
  do 2 f_equal. cbn. f_equal. by repeat case_match.
Qed.

Lemma propagate_erase l : erase <$> propagate l = erase <$> l.
Proof. unfold propagate. by rewrite inherit_erase. Qed.

(** Whatever of a scope does not depend on its context. *)
Lemma project_propagate {A} (q : scope -> A) l : (forall c, q (erase c) = q c) -> q <$> propagate l = q <$> l.
Proof.
  intros Hq. assert (forall l, q <$> l = q <$> (erase <$> l)) as E by (intros l'; rewrite <- list_fmap_compose; apply list_fmap_ext; intros i c _; by rewrite <- Hq).
  by rewrite E, propagate_erase, <- E.
Qed.

Lemma alter_same {A} (i : nat) (l : list A) : alter (fun x => x) i l = l.
Proof. apply list_eq. intros j. rewrite list_lookup_alter. case_decide as E; [|done]. subst. by destruct (l !! j). Qed.

Lemma project_alter {A B} (q : A -> B) f (i : nat) (l : list A) : (forall c, q (f c) = q c) -> q <$> alter f i l = q <$> l.
Proof. intros H. rewrite (list_fmap_alter q f (fun x => x)); [apply alter_same|]. by apply Forall_true. Qed.

Lemma cores_propagate l : core_of <$> propagate l = core_of <$> l.
Proof. by apply project_propagate. Qed.

(** A change of scopes that cores do not see, and one that they do. *)
Lemma cores_alter_with f g (i : nat) (l : list scope) : (forall c, core_of (f c) = g (core_of c)) -> core_of <$> alter f i l = alter g i (core_of <$> l).
Proof. intros H. apply list_fmap_alter. by apply Forall_true. Qed.

Lemma cores_alter f (i : nat) (l : list scope) : (forall c, core_of (f c) = core_of c) -> core_of <$> alter f i l = core_of <$> l.
Proof. apply project_alter. Qed.

Lemma view_cancel s err cause st : view_of (cancel s err cause st) = view_of st.
Proof.
  unfold view_of, cancel. cbn. rewrite cores_propagate, cores_alter; [done|]. intros c. by destruct (sc_ctx c).
Qed.

Lemma view_on i f st : (forall c, core_of (f c) = core_of c) -> view_of (on i f st) = view_of st.
Proof. intros H. unfold view_of, on. cbn. by rewrite cores_alter. Qed.

Lemma view_events l st : omap job_of l = [] -> view_of (events l st) = view_of st.
Proof. intros H. unfold view_of. cbn. by rewrite omap_app, H, app_nil_r. Qed.

Lemma view_event r st : job_of r = None -> view_of (event r st) = view_of st.
Proof. intros H. apply (view_events [r]). cbn. by rewrite H. Qed.

Lemma view_steers s landed l : omap job_of ((fun m => Steer s m landed) <$> l) = [].
Proof. by induction l. Qed.

Lemma view_fail s err st st' : failService s err st = Some st' -> view_of st' = view_of st.
Proof.
  unfold failService. destruct (st_scopes st !! s) as [c|]; [|done]. cbn. destruct (sc_serviceErr c); intros [= <-]; [done|].
  by rewrite view_cancel, view_on.
Qed.

Lemma view_sessions_alter f (i : nat) st : (forall x, ss_owner (f x) = ss_owner x /\ ss_late (f x) = ss_late x) ->
  (fun x => (ss_owner x, ss_late x)) <$> alter f i (st_sessions st) = (fun x => (ss_owner x, ss_late x)) <$> st_sessions st.
Proof. intros H. apply project_alter. intros x. by destruct (H x) as [-> ->]. Qed.

Lemma view_services_alter f (i : nat) l : (forall x, sv_owner (f x) = sv_owner x) -> sv_owner <$> alter f i l = sv_owner <$> (l : list service).
Proof. apply project_alter. Qed.

Lemma core_lookup st i c : st_scopes st !! i = Some c -> vw_cores (view_of st) !! i = Some (core_of c).
Proof. intros H. cbn. by rewrite list_lookup_fmap, H. Qed.

Lemma core_lookup_inv st i d : vw_cores (view_of st) !! i = Some d -> exists c, st_scopes st !! i = Some c /\ d = core_of c.
Proof. cbn. rewrite list_lookup_fmap. destruct (st_scopes st !! i) as [c|]; [|done]. intros [= <-]. by exists c. Qed.

(** *** Steps of the run are steps of the view *)

Definition follows (st st' : state) : Prop := view_of st' = view_of st \/ view_step (view_of st) (view_of st').

Lemma follows_same st st' : view_of st' = view_of st -> follows st st'.
Proof. by left. Qed.

Lemma follows_name p name completed st st' : name_child p name completed st = Some st' -> follows st st'.
Proof.
  unfold name_child. destruct (st_scopes st !! p) as [c|] eqn:Ep; [|done]. cbn. destruct (begun c); [|done]. intros [= <-]. right.
  pose proof (vs_name _ p _ (core_lookup _ _ _ Ep)) as H. unfold view_of, with_cores in *. cbn in *. rewrite fmap_app. cbn.
  replace (core_of <$> <[p := _]> (st_scopes st)) with (core_of <$> st_scopes st); [exact H|].
  rewrite list_fmap_insert. symmetry. apply list_insert_id. by rewrite list_lookup_fmap, Ep.
Qed.

Lemma follows_attach i st st' : attach_child i st = Some st' -> follows st st'.
Proof.
  unfold attach_child. destruct (st_scopes st !! i) as [c|] eqn:Ei; [|done]. cbn. destruct (sc_parent c) as [p|] eqn:Epar; [|done]. cbn.
  destruct (st_scopes st !! p) as [parent|] eqn:Ep; [|done]. cbn. destruct (sc_attached c) eqn:Ea; [|done..]. intros [= <-]. right.
  pose proof (vs_attach _ i p _ _ (core_lookup _ _ _ Ei) Epar (core_lookup _ _ _ Ep) Ea) as H. unfold view_of, with_cores in *. cbn in *.
  by rewrite (cores_alter_with _ (fun c => MkCore (co_parent c) (if is_ended parent then Late else InTime) (co_end c) (co_children c) (co_sessions c) (co_services c))),
    (cores_alter_with _ (fun c => MkCore (co_parent c) (co_attached c) (co_end c) (co_children c ++ [i]) (co_sessions c) (co_services c))) by done.
Qed.

(** Beginning a scope, taken apart. *)
Lemma start_context_inv i loop st st' : start_context i loop st = Some st' ->
  exists c, st_scopes st !! i = Some c /\ sc_ctx c = NoContext /\ st' = on_scopes propagate (on i (started loop) st).
Proof.
  unfold start_context. destruct (st_scopes st !! i) as [c|]; [|done]. cbn. destruct (sc_ctx c) eqn:Ec, (sc_attached c); try done; intros [= <-]; by exists c.
Qed.

Lemma register_inv i st st' : register i st = Some st' -> exists c, st_scopes st !! i = Some c /\ st' = event (ScopeBegan i) (with_live (<[sc_key c := i]> (st_live st)) st).
Proof. unfold register. destruct (st_scopes st !! i) as [c|]; [|done]. cbn. intros [= <-]. by exists c. Qed.

Lemma begin_inv i loop st st' : begin i loop st = Some st' -> exists st1, start_context i loop st = Some st1 /\ register i st1 = Some st'.
Proof. unfold begin. destruct (start_context i loop st) as [st1|]; [|done]. by exists st1. Qed.

Lemma group_register_inv i st st' : group_register i st = Some st' -> register i st = Some st'.
Proof. unfold group_register. destruct (st_scopes st !! i) as [c|]; [|done]. cbn. by destruct (begun c && _). Qed.

(** So is a relation between states that holds of both parts. *)
Lemma begin_ind (R : state -> state -> Prop) : (forall st1 st2 st3, R st1 st2 -> R st2 st3 -> R st1 st3) ->
  (forall i loop st st', start_context i loop st = Some st' -> R st st') -> (forall i st st', register i st = Some st' -> R st st') ->
  forall i loop st st', begin i loop st = Some st' -> R st st'.
Proof. intros Ht H1 H2 i loop st st' (st1 & Hs & Hr)%begin_inv. by eapply Ht; [eapply H1|eapply H2]. Qed.

Lemma view_start_context i loop st st' : start_context i loop st = Some st' -> view_of st' = view_of st.
Proof. intros (c & Hc & _ & ->)%start_context_inv. unfold view_of. cbn. by rewrite cores_propagate, cores_alter. Qed.

Lemma view_register i st st' : register i st = Some st' -> view_of st' = view_of st.
Proof. intros (c & Hc & ->)%register_inv. by rewrite view_event. Qed.

Lemma view_begin i loop st st' : begin i loop st = Some st' -> view_of st' = view_of st.
Proof. apply (begin_ind (fun st st' => view_of st' = view_of st)); [congruence|apply view_start_context|apply view_register]. Qed.

Lemma follows_adopt s id st st' : adopt s id st = Some st' -> follows st st'.
Proof.
  unfold adopt. destruct (st_scopes st !! s) as [c|] eqn:Es; [|done]. cbn. destruct (begun c); [|done]. intros [= <-]. right.
  pose proof (vs_adopt _ s _ (core_lookup _ _ _ Es)) as H. unfold view_of in *. cbn in *. rewrite fmap_app. cbn. rewrite length_fmap in H.
  by rewrite (cores_alter_with _ (fun c => MkCore (co_parent c) (co_attached c) (co_end c) (co_children c) (co_sessions c ++ [length (st_sessions st)]) (co_services c))) by done.
Qed.

Lemma follows_adopt_service s st st' : adoptService s st = Some st' -> follows st st'.
Proof.
  unfold adoptService. destruct (st_scopes st !! s) as [c|] eqn:Es; [|done]. cbn. destruct (begun c); [|done].
  destruct (is_ended c) eqn:Ee; [done|]. intros [= <-]. right.
  pose proof (vs_adopt_service _ s _ (core_lookup _ _ _ Es) Ee) as H. unfold view_of in *. cbn in *. rewrite fmap_app. cbn. rewrite length_fmap in H.
  by rewrite (cores_alter_with _ (fun c => MkCore (co_parent c) (co_attached c) (co_end c) (co_children c) (co_sessions c) (co_services c ++ [length (st_services st)]))) by done.
Qed.

Lemma follows_start s st st' : start_end s st = Some st' -> follows st st'.
Proof.
  unfold start_end. destruct (st_scopes st !! s) as [c|] eqn:Es; [|done]. cbn. destruct (sc_end c) eqn:Ee; [|done..]. intros [= <-]. right.
  rewrite view_cancel. pose proof (vs_start _ s _ (core_lookup _ _ _ Es) Ee) as H. unfold view_of, with_cores in *. cbn in *.
  rewrite (cores_alter_with _ (fun d => MkCore (co_parent d) (co_attached d) (Ending (core_jobs d) []) [] [] [])) by done.
  replace (sv_owner <$> imap _ (st_services st)) with (sv_owner <$> st_services st); [exact H|].
  apply list_eq. intros j. rewrite !list_lookup_fmap, list_lookup_imap. destruct (st_services st !! j); [|done]. cbn. by destruct (bool_decide _).
Qed.

(** The view of a job done, and of an end done. *)
Lemma follows_job s c j jobs errs err st st' :
  st_scopes st !! s = Some c -> sc_end c = Ending (j :: jobs) errs ->
  (forall k, j = EndChild k -> exists c' e, st_scopes st !! k = Some c' /\ sc_end c' = Ended e) ->
  view_of st' = view_of st ->
  follows st (event (Released s j err) (on s (with_end (Ending jobs (errs ++ kept j err))) st')).
Proof.
  intros Es Ee Hk Hv. right. pose proof (vs_job (view_of st) s _ j jobs errs err (core_lookup _ _ _ Es) Ee) as H.
  unfold view_of in *. cbn in *. rewrite (cores_alter_with _ (at_end (Ending jobs (errs ++ kept j err)))) by done.
  rewrite omap_app. cbn. injection Hv as -> -> -> ->. apply H. intros k Hj. destruct (Hk k Hj) as (c' & e & Hc & He).
  exists (core_of c'), e. by rewrite list_lookup_fmap, Hc.
Qed.

Lemma follows_crash st : follows st (crash st).
Proof. by left. Qed.

Lemma follows_advance s outcome st st' : advance s outcome st = Some st' -> follows st st'.
Proof.
  unfold advance. destruct (st_scopes st !! s) as [c|] eqn:Es; [|done]. cbn. destruct (sc_end c) as [|[|j jobs] errs|] eqn:Ee; [done| | |done].
  { intros [= <-]. right. pose proof (vs_end _ s _ _ (core_lookup _ _ _ Es) Ee) as H. unfold view_of, with_cores in *. cbn in *.
    by rewrite (cores_alter_with _ (at_end (Ended (Join (Some <$> errs))))). }
  assert (forall err (st1 : state), (forall k, j = EndChild k -> exists c' e, st_scopes st !! k = Some c' /\ sc_end c' = Ended e) -> view_of st1 = view_of st ->
    follows st (event (Released s j err) (on s (with_end (Ending jobs (errs ++ kept j err))) st1))) as Hjob by (intros; by eapply follows_job).
  destruct j as [k|i| |i|]; cbn [kept keeps] in *.
  - destruct (st_scopes st !! k) as [c'|] eqn:Ek; [|done]. cbn. destruct (sc_end c') as [| |e] eqn:Ec; [done..|]. intros [= <-]. apply (Hjob e st); [|done].
    intros k' [= <-]. by exists c', e.
  - destruct (st_sessions st !! i) as [x|]; [|done]. cbn. intros [= <-].
    specialize (Hjob (if ss_native x then outcome else None) (on_sessions (alter (fun x => MkSession (ss_owner x) (ss_id x) (ss_native x) (ss_late x) true) i) st)).
    rewrite app_nil_r in Hjob. apply Hjob; [done|]. unfold view_of. cbn. by rewrite view_sessions_alter.
  - destruct (sc_completed c); [intros [= <-]; by apply (Hjob None st)|]. destruct (begun c); intros [= <-]; [by apply (Hjob outcome st)|apply follows_crash].
  - intros [= <-]. apply (Hjob outcome (on_services (alter (fun v => MkService (sv_owner v) true (sv_exited v || match outcome with None => true | Some _ => false end)) i) st)); [done|]. unfold view_of. cbn. by rewrite view_services_alter.
  - destruct (sc_completed c); [intros [= <-]; by apply (Hjob None st)|]. destruct (begun c); intros [= <-]; [by apply (Hjob outcome st)|apply follows_crash].
Qed.

(** The other steps leave the view alone. *)
Lemma view_exits i err st st' : service_exits i err st = Some st' -> view_of st' = view_of st.
Proof.
  unfold service_exits. destruct (st_services st !! i) as [v|]; [|done]. cbn. destruct (sv_exited v); [done|].
  set (st1 := on_services _ st). assert (view_of st1 = view_of st) as E by (unfold view_of; cbn; by rewrite view_services_alter).
  destruct (sv_stopping v); [by intros [= <-]|]. intros H%view_fail. by rewrite H.
Qed.

Lemma view_queue s m st b st' : queueMessage s m st = Some (b, st') -> view_of st' = view_of st.
Proof.
  unfold queueMessage. destruct (st_scopes st !! s) as [c|]; [|done]. cbn. destruct (negb _ || _); intros [= <- <-]; [done|].
  by rewrite view_event, view_on.
Qed.

Lemma view_kill key cause st st' : CancelScope key cause st = Ok st' -> view_of st' = view_of st.
Proof.
  unfold CancelScope. destruct (st_live st !! key) as [s|]; [|done]. destruct (String.eqb key ""); [destruct (st_rootCancel st); [by intros [= <-]|]|];
    intros [= <-]; by rewrite view_cancel, view_event.
Qed.

Lemma view_group g err st st' : group_error g err st = Some st' -> view_of st' = view_of st.
Proof.
  unfold group_error. destruct (st_scopes st !! g) as [c|]; [|done]. cbn. intros [= <-].
  destruct (as_killed err); rewrite ?view_cancel; apply view_on; intros d; by destruct (sc_groupErr d).
Qed.

(** Every step of a run is a step of its view, or leaves it alone. *)
Lemma exec_follows o st st' : exec o st = Some st' -> follows st st'.
Proof.
  unfold exec. destruct (st_crashed st); [done|].
  destruct o as [p name completed|i|i loop|i|i|s name|s id|i|s|s err|i err|s m|s|s|s key raw|key cause|g err|s err|s|s|s outcome|s].
  - apply follows_name.
  - apply follows_attach.
  - intros H. by eapply follows_same, view_begin.
  - intros H. by eapply follows_same, view_start_context.
  - intros H%group_register_inv. by eapply follows_same, view_register.
  - unfold name_session. destruct (st_scopes st !! s) as [c|]; [|done]. cbn. destruct (begun c); [|done]. intros [= <-]. by apply follows_same, view_on.
  - apply follows_adopt.
  - unfold allocate. destruct (st_sessions st !! i) as [x|]; [|done]. cbn. intros [= <-]. apply follows_same.
    destruct (ss_closed x); rewrite ?view_event by done; unfold view_of; cbn; by rewrite view_sessions_alter.
  - apply follows_adopt_service.
  - intros H. by eapply follows_same, view_fail.
  - intros H. by eapply follows_same, view_exits.
  - destruct (queueMessage s m st) as [[b st1]|] eqn:E; [|done]. intros [= <-]. by eapply follows_same, view_queue.
  - unfold takeMessages. destruct (st_scopes st !! s) as [c|]; [|done]. intros [= <-]. apply follows_same. by rewrite view_events, view_on by (apply view_steers || done).
  - unfold endDispatch. destruct (st_scopes st !! s) as [c|]; [|done]. intros [= <-]. apply follows_same. by rewrite view_events, view_on by (apply view_steers || done).
  - unfold store. destruct (st_scopes st !! s) as [c|]; [|done]. destruct (is_ended c); [done|]. destruct (sc_values c !! key); [done|]. intros [= <-].
    apply follows_same. by rewrite view_event, view_on.
  - destruct (CancelScope key cause st) as [st1|] eqn:E; [|done]. intros [= <-]. by eapply follows_same, view_kill.
  - intros H. by eapply follows_same, view_group.
  - unfold body_returns. destruct (st_scopes st !! s) as [c|]; [|done]. cbn. destruct (sc_body c), (sc_ctx c); try done; intros [= <-]; by apply follows_same, view_on.
  - unfold body_panics. destruct (st_scopes st !! s) as [c|]; [|done]. cbn. destruct (sc_body c), (sc_ctx c); try done; intros [= <-]; by apply follows_same, view_on.
  - destruct (may_end s st); [|done]. apply follows_start.
  - apply follows_advance.
  - unfold finish. destruct (st_scopes st !! s) as [c|]; [|done]. cbn. destruct (sc_body c), (sc_end c); try done. intros [= <-].
    apply follows_same. by rewrite view_event, view_on.
Qed.

(** What holds of the first view and is kept by its steps holds of every
    reachable state. *)
Lemma reachable_view (P : view -> Prop) :
  P (view_of initial) -> (forall v v', P v -> view_step v v' -> P v') -> forall st, reachable st -> P (view_of st).
Proof.
  intros H0 Hs. apply (rtc_ind_r (fun st => P (view_of st)) initial); [done|]. intros st st' _ [o Ho] IH.
  destruct (exec_follows o st st' Ho) as [->|]; [done|eauto].
Qed.

(** * The invariant of scopes

    What a scope has done of its end and what it has left to do are together
    its children that came in time, then its sessions in the order they were
    adopted, the cleanup, its services in the reverse of the order they were
    started, and its secrets. *)

(** ** Definitions *)

(** The places of the elements that [p] takes. *)
Definition positions {A} (p : A -> bool) (l : list A) : list nat := omap id (imap (fun i x => if p x then Some i else None) l).

Definition sessions_of (v : view) (s : nat) : list nat := positions (fun x => bool_decide (x = (s, false))) (vw_sessions v).
Definition services_of (v : view) (s : nat) : list nat := positions (fun x => Nat.eqb x s) (vw_services v).

(** [k] is a child of [s] that came before [s] ended. *)
Definition child_in (v : view) (s k : nat) : Prop :=
  exists d, vw_cores v !! k = Some d /\ co_parent d = Some s /\ co_attached d = InTime.

Definition entries_of (v : view) (s : nat) : list (nat * job * option error) := filter (fun x => x.1.1 = s) (vw_done v).

(** The jobs done for [s], in order. *)
Definition done_of (v : view) (s : nat) : list job := (fun x => x.1.2) <$> entries_of v s.

(** The errors of those that count for [s]. *)
Definition errors_of (v : view) (s : nat) : list error := concat ((fun x => kept x.1.2 x.2) <$> entries_of v s).

Definition jobs_plan (children sessions services : list nat) : list job :=
  (EndChild <$> children) ++ (CloseSession <$> sessions) ++ [RemoteCleanup] ++ (StopService <$> rev services) ++ [ReleaseSecrets].

Definition pending (c : core) : list job :=
  match co_end c with NotEnded => core_jobs c | Ending jobs _ => jobs | Ended _ => [] end.

Definition children_are (v : view) (s : nat) (l : list nat) : Prop := NoDup l /\ forall k, k ∈ l <-> child_in v s k.

Record scope_ok (v : view) (s : nat) (c : core) : Prop := {
  ok_parent : forall p, co_parent c = Some p -> (p < s)%nat;
  ok_whole : match co_end c with
             | NotEnded => done_of v s = [] /\ co_sessions c = sessions_of v s /\ co_services c = services_of v s /\ children_are v s (co_children c)
             | _ => exists children, done_of v s ++ pending c = jobs_plan children (sessions_of v s) (services_of v s) /\ children_are v s children
             end;
  ok_errors : match co_end c with
              | NotEnded => True
              | Ending _ errs => errs = errors_of v s
              | Ended err => err = Join (Some <$> errors_of v s)
              end;
}.

Record good (v : view) : Prop := {
  good_scopes : forall s c, vw_cores v !! s = Some c -> scope_ok v s c;
  good_done : forall s j err, (s, j, err) ∈ vw_done v -> (s < length (vw_cores v))%nat;
  good_children : forall s k err, (s, EndChild k, err) ∈ vw_done v -> exists d e, vw_cores v !! k = Some d /\ co_end d = Ended e;
  good_sessions : forall x, x ∈ vw_sessions v -> (x.1 < length (vw_cores v))%nat;
  good_services : forall x, x ∈ vw_services v -> (x < length (vw_cores v))%nat;
}.

(** ** Lemmas *)

Lemma positions_of_snoc {A} (p : A -> bool) l x : positions p (l ++ [x]) = positions p l ++ if p x then [length l] else [].
Proof. unfold positions. rewrite imap_app, omap_app. cbn. rewrite Nat.add_0_r. by destruct (p x). Qed.

Lemma elem_of_positions {A} (p : A -> bool) l i : i ∈ positions p l <-> exists x, l !! i = Some x /\ p x = true.
Proof.
  unfold positions. rewrite list_elem_of_omap. split.
  - intros (y & (j & Hj)%list_elem_of_lookup & E). rewrite list_lookup_imap in Hj. destruct (l !! j) as [x|] eqn:Ex; [|done]. cbn in Hj.
    injection Hj as <-. cbn in E. destruct (p x) eqn:Ep; [|done]. injection E as ->. by exists x.
  - intros (x & Hx & Hp). exists (Some i). split; [|done]. apply list_elem_of_lookup. exists i. rewrite list_lookup_imap, Hx. cbn. by rewrite Hp.
Qed.

Lemma positions_empty {A} (p : A -> bool) l : (forall x, x ∈ l -> p x = false) -> positions p l = [].
Proof.
  intros H. destruct (positions p l) as [|i r] eqn:E; [done|]. assert (i ∈ positions p l) as (x & Hx & Hp)%elem_of_positions by (rewrite E; left).
  apply list_elem_of_lookup_2, H in Hx. congruence.
Qed.

Lemma sessions_new v s : good v -> (length (vw_cores v) <= s)%nat -> sessions_of v s = [].
Proof. intros H Hs. apply positions_empty. intros x Hx. apply bool_decide_false. intros ->. apply (good_sessions v H) in Hx. cbn in Hx. lia. Qed.

Lemma services_new v s : good v -> (length (vw_cores v) <= s)%nat -> services_of v s = [].
Proof. intros H Hs. apply positions_empty. intros x Hx. apply (good_services v H) in Hx. apply Nat.eqb_neq. lia. Qed.

Lemma entries_new v s : good v -> (length (vw_cores v) <= s)%nat -> entries_of v s = [].
Proof.
  intros H Hs. unfold entries_of. destruct (filter _ _) as [|[[s' j] e] r] eqn:E; [done|].
  assert ((s', j, e) ∈ filter (fun x => x.1.1 = s) (vw_done v)) as Hx by (rewrite E; left). apply list_elem_of_filter in Hx as [Hx Hd]. cbn in Hx. subst.
  apply (good_done v H) in Hd. lia.
Qed.

(** The children of a scope do not depend on cores without a place of their
    own. *)
Lemma child_in_lookup v v' s :
  (forall k p, (exists d, vw_cores v !! k = Some d /\ co_parent d = Some p /\ co_attached d = InTime) <->
               (exists d, vw_cores v' !! k = Some d /\ co_parent d = Some p /\ co_attached d = InTime)) ->
  forall k, child_in v s k <-> child_in v' s k.
Proof. intros H k. apply H. Qed.

Lemma children_same v v' s l : (forall k, child_in v s k <-> child_in v' s k) -> children_are v s l -> children_are v' s l.
Proof. intros H [Hd Hl]. split; [done|]. intros k. by rewrite Hl, H. Qed.

Lemma scope_ok_same v v' s c :
  (forall k, child_in v s k <-> child_in v' s k) -> sessions_of v' s = sessions_of v s -> services_of v' s = services_of v s ->
  entries_of v' s = entries_of v s -> scope_ok v s c -> scope_ok v' s c.
Proof.
  intros Hk Hss Hvs He [Hp Hw Hr]. unfold done_of, errors_of in *. split; [done| |].
  - unfold done_of in *. destruct (co_end c); rewrite Hss, Hvs, He.
    + destruct Hw as (? & ? & ? & Hc). split_and!; try done. by eapply children_same.
    + destruct Hw as (l & ? & Hc). exists l. split; [done|]. by eapply children_same.
    + destruct Hw as (l & ? & Hc). exists l. split; [done|]. by eapply children_same.
  - unfold errors_of in *. destruct (co_end c); by rewrite ?He.
Qed.

(** A scope that has ended no longer depends on its lists. *)
Lemma scope_ok_ended v v' s c d :
  co_parent d = co_parent c -> co_end d = co_end c -> core_ended c = true ->
  (forall k, child_in v s k <-> child_in v' s k) -> sessions_of v' s = sessions_of v s -> services_of v' s = services_of v s ->
  entries_of v' s = entries_of v s -> scope_ok v s c -> scope_ok v' s d.
Proof.
  intros Hpar Hend Hc Hk Hss Hvs He H%(scope_ok_same v v' s c Hk Hss Hvs He). destruct H as [Hp Hw Hr]. unfold core_ended in Hc.
  split; rewrite ?Hpar, ?Hend; [done| |done]. unfold pending in *. rewrite Hend. by destruct (co_end c).
Qed.

(** An update of one core that keeps its place. *)
Lemma child_in_alter v f i (ss : list (nat * bool)) vs dn s k :
  (forall c, co_parent (f c) = co_parent c /\ co_attached (f c) = co_attached c) ->
  child_in v s k <-> child_in (MkView (alter f i (vw_cores v)) ss vs dn) s k.
Proof.
  intros Hf. unfold child_in. cbn. rewrite list_lookup_alter. case_decide as E; [subst|done]. destruct (vw_cores v !! k) as [c|]; cbn.
  - destruct (Hf c) as [H1 H2]. split; intros (d & [= <-] & Hp & Ha); eexists; (split; [done|]); by rewrite ?H1, ?H2 in *.
  - split; by intros (d & ? & _).
Qed.

Lemma good_initial : good (view_of initial).
Proof.
  split; cbn; try (by intros * ?%elem_of_nil).
  intros [|s] c; [|done]. intros [= <-]. split; cbn; try done. split_and!; try done. split; [constructor|]. intros k. split; [by intros ?%elem_of_nil|].
  intros (d & Hd & Hp & Ha). destruct k; [|done]. by injection Hd as <-.
Qed.

Section Steps.
Context (v : view) (Hv : good v).

Lemma good_name p c : vw_cores v !! p = Some c -> good (with_cores (fun l => l ++ [MkCore (Some p) Detached NotEnded [] [] []]) v).
Proof.
  intros Hc. pose proof (lookup_lt_Some _ _ _ Hc) as Hlt.
  assert (forall s k, child_in v s k <-> child_in (with_cores (fun l => l ++ [MkCore (Some p) Detached NotEnded [] [] []]) v) s k) as Hk.
  { intros s k. unfold child_in. cbn. split; intros (d & Hd & Hp & Ha).
    - exists d. split; [|done]. by apply lookup_app_l_Some.
    - apply lookup_app_Some in Hd as [Hd|[_ Hd]]; [by exists d|]. apply list_lookup_singleton_Some in Hd as [_ <-]. done. }
  split; cbn; rewrite ?length_app.
  - intros s d Hd. apply lookup_app_Some in Hd as [Hd|[Hge Hd]].
    + apply (scope_ok_same v); try done. by apply (good_scopes v Hv).
    + apply list_lookup_singleton_Some in Hd as [Hs <-].
      pose proof (entries_new v s Hv ltac:(lia)) as He. pose proof (sessions_new v s Hv ltac:(lia)) as Hss. pose proof (services_new v s Hv ltac:(lia)) as Hvs.
      split; [intros q [= <-]; lia| |exact I]. cbn [co_end co_sessions co_services co_children]. split_and!.
      * unfold done_of. by rewrite (He : entries_of (with_cores _ v) s = []).
      * by rewrite (Hss : sessions_of (with_cores _ v) s = []).
      * by rewrite (Hvs : services_of (with_cores _ v) s = []).
      * split; [constructor|]. intros k. split; [by intros ?%elem_of_nil|]. intros (e & Hd & Hp & Ha)%Hk.
        apply (good_scopes v Hv) in Hd as Hok. pose proof (ok_parent _ _ _ Hok _ Hp). apply lookup_lt_Some in Hd. lia.
  - intros s j err Hd%(good_done v Hv). cbn. lia.
  - intros s k err (d & e & Hd & He)%(good_children v Hv). exists d, e. split; [by apply lookup_app_l_Some|done].
  - intros x Hx%(good_sessions v Hv). cbn. lia.
  - intros x Hx%(good_services v Hv). cbn. lia.
Qed.

(** What the other steps need of a changed list of cores: its length, and that
    what has ended stays so. *)
Lemma good_of_scopes cores ss vs dn :
  length cores = length (vw_cores v) ->
  (forall k d e, vw_cores v !! k = Some d -> co_end d = Ended e -> exists d', cores !! k = Some d' /\ co_end d' = Ended e) ->
  (forall s c, cores !! s = Some c -> scope_ok (MkView cores ss vs dn) s c) ->
  (forall s j err, (s, j, err) ∈ dn -> (s, j, err) ∈ vw_done v \/ (s < length cores)%nat /\ forall k, j = EndChild k -> exists d e, cores !! k = Some d /\ co_end d = Ended e) ->
  (forall x, x ∈ ss -> x ∈ vw_sessions v \/ (x.1 < length cores)%nat) -> (forall x, x ∈ vs -> x ∈ vw_services v \/ (x < length cores)%nat) ->
  good (MkView cores ss vs dn).
Proof.
  intros Hl He Hs Hd Hss Hvs. split; cbn; [done| | | |].
  - intros s j err [H%(good_done v Hv)|[H _]]%Hd; [lia|done].
  - intros s k err [H|[_ H]]%Hd; [|by apply H]. apply (good_children v Hv) in H as (d & e & Hk & Hend). destruct (He k d e Hk Hend) as (d' & ? & ?). by exists d', e.
  - intros x [H%(good_sessions v Hv)|H]%Hss; [lia|done].
  - intros x [H%(good_services v Hv)|H]%Hvs; [lia|done].
Qed.

Lemma ended_alter f i k d e :
  (forall c, co_end c = Ended e -> vw_cores v !! i = Some c -> co_end (f c) = Ended e) ->
  vw_cores v !! k = Some d -> co_end d = Ended e -> exists d', alter f i (vw_cores v) !! k = Some d' /\ co_end d' = Ended e.
Proof.
  intros Hf Hk He. rewrite list_lookup_alter. case_decide as E; [|by exists d]. subst. rewrite Hk. exists (f d). split; [done|]. by apply Hf.
Qed.

Lemma good_adopt_service s c : vw_cores v !! s = Some c -> core_ended c = false ->
  good (MkView
      (alter (fun c => MkCore (co_parent c) (co_attached c) (co_end c) (co_children c) (co_sessions c) (co_services c ++ [length (vw_services v)])) s (vw_cores v))
      (vw_sessions v) (vw_services v ++ [s]) (vw_done v)).
Proof.
  intros Hc He. set (f := fun c => MkCore _ _ _ _ _ _). apply good_of_scopes; rewrite ?length_alter; auto.
  - intros k d e. by apply ended_alter.
  - intros s' d. rewrite list_lookup_alter. set (v' := MkView _ _ _ _).
    assert (forall s k, child_in v s k <-> child_in v' s k) as Hk by (intros; by apply child_in_alter).
    assert (forall s', services_of v' s' = services_of v s' ++ if Nat.eqb s s' then [length (vw_services v)] else []) as Hvs by (intros s1; exact (positions_of_snoc (fun x => Nat.eqb x s1) _ s)).
    case_decide as E.
    + subst s'. rewrite Hc. intros [= <-]. destruct (good_scopes v Hv s c Hc) as [Hp Hw _]. unfold core_ended in He. subst f. cbn [co_end].
      destruct (co_end c) eqn:Ee; try done. destruct Hw as (Hd & Hs & Hsv & Hch). split; cbn [co_parent co_end co_sessions co_services co_children]; [done| |exact I].
      split_and!; [done|done|by rewrite Hvs, Nat.eqb_refl, Hsv|exact (children_same v v' s _ (Hk s) Hch)].
    + intros Hd. eapply scope_ok_same; [apply Hk|done| |done|by apply (good_scopes v Hv)]. rewrite Hvs. destruct (Nat.eqb_spec s s'); [done|]. by rewrite app_nil_r.
  - intros x [H| ->%list_elem_of_singleton]%elem_of_app; [by left|]. right. by eapply lookup_lt_Some.
Qed.

Lemma good_adopt s c : vw_cores v !! s = Some c ->
  good (MkView
      (alter (fun c => MkCore (co_parent c) (co_attached c) (co_end c) (co_children c) (co_sessions c ++ [length (vw_sessions v)]) (co_services c)) s (vw_cores v))
      (vw_sessions v ++ [(s, core_ended c)]) (vw_services v) (vw_done v)).
Proof.
  intros Hc. set (f := fun c => MkCore _ _ _ _ _ _). apply good_of_scopes; rewrite ?length_alter; auto.
  - intros k d e. by apply ended_alter.
  - intros s' d. rewrite list_lookup_alter. set (v' := MkView _ _ _ _).
    assert (forall s k, child_in v s k <-> child_in v' s k) as Hk by (intros; by apply child_in_alter).
    assert (forall s', sessions_of v' s' = sessions_of v s' ++ if bool_decide ((s, core_ended c) = (s', false)) then [length (vw_sessions v)] else []) as Hss
      by (intros s1; exact (positions_of_snoc (fun x => bool_decide (x = (s1, false))) _ _)).
    case_decide as E.
    + subst s'. rewrite Hc. intros [= <-]. pose proof (good_scopes v Hv s c Hc) as Hok. destruct (Hok) as [Hp Hw _]. specialize (Hss s). destruct (core_ended c) eqn:Ece; unfold core_ended in Ece.
      * rewrite bool_decide_false, app_nil_r in Hss by done. by apply (scope_ok_ended v _ s c).
      * rewrite bool_decide_true in Hss by done. subst f. cbn [co_end]. destruct (co_end c) eqn:Ee; try done. destruct Hw as (Hd & Hs & Hsv & Hch).
        split; cbn [co_parent co_end co_sessions co_services co_children]; [done| |exact I]. split_and!; [done|by rewrite Hss, Hs|done|exact (children_same v v' s _ (Hk s) Hch)].
    + intros Hd. eapply scope_ok_same; [apply Hk| |done|done|by apply (good_scopes v Hv)]. rewrite Hss, bool_decide_false by congruence. by rewrite app_nil_r.
  - intros x [H| ->%list_elem_of_singleton]%elem_of_app; [by left|]. right. by eapply lookup_lt_Some.
Qed.

Lemma good_attach i p c parent :
  vw_cores v !! i = Some c -> co_parent c = Some p -> vw_cores v !! p = Some parent -> co_attached c = Detached ->
  good (with_cores (fun l =>
      alter (fun c => MkCore (co_parent c) (if core_ended parent then Late else InTime) (co_end c) (co_children c) (co_sessions c) (co_services c)) i
        (alter (fun c => MkCore (co_parent c) (co_attached c) (co_end c) (co_children c ++ [i]) (co_sessions c) (co_services c)) p l)) v).
Proof.
  intros Hi Hpar Hp Ha. pose proof (ok_parent _ _ _ (good_scopes v Hv i c Hi) p Hpar) as Hlt.
  set (f := fun c : core => MkCore (co_parent c) (if core_ended parent then Late else InTime) _ _ _ _). set (g := fun c : core => MkCore _ _ _ (co_children c ++ [i]) _ _).
  assert (forall k, alter f i (alter g p (vw_cores v)) !! k = if decide (k = i) then Some (f c) else if decide (k = p) then Some (g parent) else vw_cores v !! k) as Hl.
  { intros k. rewrite list_lookup_alter. repeat case_decide; subst; try done.
    - rewrite list_lookup_alter_ne by lia. by rewrite Hi.
    - rewrite list_lookup_alter_eq. by rewrite Hp.
    - rewrite list_lookup_alter_ne by done. done. }
  set (v' := with_cores _ v). assert (vw_cores v' = alter f i (alter g p (vw_cores v))) as Ev by done.
  assert (forall s k, child_in v' s k <-> child_in v s k \/ s = p /\ k = i /\ core_ended parent = false) as Hk.
  { intros s k. unfold child_in. rewrite Ev, Hl. destruct (decide (k = i)) as [->|Hki].
    - split.
      + intros (d & [= <-] & Hp' & Ha'). cbn in *. rewrite Hpar in Hp'. injection Hp' as <-. right. destruct (core_ended parent); done.
      + intros [(d & Hd & _ & Hda)|(-> & _ & He)]; [congruence|]. exists (f c). split; [done|]. subst f. cbn. by rewrite Hpar, He.
    - destruct (decide (k = p)) as [->|].
      + split; [intros (d & [= <-] & Hp' & Ha'); left; by exists parent|]. intros [(d & Hd & ? & ?)|(_ & ? & _)]; [|done]. exists (g parent). split; [done|]. by simplify_eq.
      + split; [by left|]. by intros [|(_ & ? & _)]. }
  apply good_of_scopes; rewrite ?length_alter; auto.
  - intros k d e Hd He. change (exists d', vw_cores v' !! k = Some d' /\ co_end d' = Ended e). rewrite Ev, Hl. repeat case_decide; subst; simplify_eq; eauto.
  - intros s d. change (vw_cores v' !! s = Some d -> scope_ok v' s d). rewrite Ev, Hl.
    assert (s <> p \/ core_ended parent = true -> forall k, child_in v s k <-> child_in v' s k) as Hother.
    { intros Hs k. rewrite Hk. split; [by left|]. intros [|(-> & _ & He)]; [done|]. destruct Hs; congruence. }
    case_decide as Esi; [|case_decide as Esp].
    + subst s. intros [= <-]. pose proof (good_scopes v Hv i c Hi) as Hok. apply (scope_ok_same v v' i c) in Hok; [|apply Hother; left; lia|done..].
      destruct Hok as [H1 H2 H3]. by split.
    + subst s. intros [= <-]. pose proof (good_scopes v Hv p parent Hp) as Hok. destruct (core_ended parent) eqn:Ece.
      * apply (scope_ok_ended v v' p parent); try done. apply Hother. by right.
      * destruct Hok as [H1 H2 H3]. unfold core_ended in Ece. subst g. split; [exact H1| |]; cbn [co_end]; destruct (co_end parent); try done.
        destruct H2 as (Hd & Hs & Hsv & Hdup & Hch). cbn [co_sessions co_services co_children]. split_and!; [done|done|done|]. split.
        -- apply NoDup_app. split_and!; [done| |apply NoDup_singleton]. intros k Hin ->%list_elem_of_singleton. apply Hch in Hin as (d & Hd' & _ & Hda). congruence.
        -- intros k. rewrite elem_of_app, list_elem_of_singleton, Hk, Hch. naive_solver.
    + intros Hd. apply (scope_ok_same v v' s d); try done; [apply Hother; by left|]. by apply (good_scopes v Hv).
Qed.

(** A change of how far the end of a scope is, and of nothing else. *)
Lemma good_end s c e dn :
  vw_cores v !! s = Some c -> (forall err, co_end c <> Ended err) ->
  (forall x, x ∈ dn -> x.1.1 = s /\ forall k, x.1.2 = EndChild k -> exists d e, vw_cores v !! k = Some d /\ co_end d = Ended e) ->
  (forall v', (forall k, child_in v s k <-> child_in v' s k) -> sessions_of v' s = sessions_of v s -> services_of v' s = services_of v s ->
    entries_of v' s = entries_of v s ++ dn -> scope_ok v' s (e c)) ->
  (forall c, co_parent (e c) = co_parent c /\ co_attached (e c) = co_attached c) ->
  good (MkView (alter e s (vw_cores v)) (vw_sessions v) (vw_services v) (vw_done v ++ dn)).
Proof.
  intros Hc Hne Hdn Hok Hplace. set (v' := MkView _ _ _ _).
  assert (forall s k, child_in v s k <-> child_in v' s k) as Hk by (intros; by apply child_in_alter).
  assert (forall s', entries_of v' s' = entries_of v s' ++ filter (fun x => x.1.1 = s') dn) as He by (intros; apply filter_app).
  assert (filter (fun x => x.1.1 = s) dn = dn) as Hall.
  { clear He Hok v' Hk. induction dn as [|x dn IH]; [done|]. rewrite filter_cons_True by (apply Hdn; left). f_equal. apply IH. intros y Hy. apply Hdn. by right. }
  assert (forall s', s <> s' -> filter (fun x => x.1.1 = s') dn = []) as Hnone.
  { intros s' Hs. clear He Hok Hall v' Hk. induction dn as [|x dn IH]; [done|]. destruct (Hdn x) as [Hx _]; [left|].
    rewrite filter_cons_False by congruence. apply IH. intros y Hy. apply Hdn. by right. }
  apply good_of_scopes; rewrite ?length_alter; auto.
  - intros k d e'. apply ended_alter. intros c' Hend Hc'. simplify_eq. by apply Hne in Hend.
  - intros s' d. rewrite list_lookup_alter. case_decide as E.
    + subst s'. rewrite Hc. intros [= <-]. apply Hok; try done. by rewrite He, Hall.
    + intros Hd. apply (scope_ok_same v v' s' d); try done; [by rewrite He, Hnone, app_nil_r|]. by apply (good_scopes v Hv).
  - intros s' j err [H|H]%elem_of_app; [by left|right]. destruct (Hdn _ H) as [Hs Hch]. cbn in *. subst. split; [by eapply lookup_lt_Some|].
    intros k ->. destruct (Hch k eq_refl) as (d & e' & Hd & Hend). destruct (ended_alter e s k d e') as (d' & ? & ?); [|done..|by exists d', e'].
    intros c' Hend' Hc'. simplify_eq. by apply Hne in Hend'.
Qed.

Lemma good_start s c : vw_cores v !! s = Some c -> co_end c = NotEnded ->
  good (with_cores (alter (fun c => MkCore (co_parent c) (co_attached c) (Ending (core_jobs c) []) [] [] []) s) v).
Proof.
  intros Hc He. unfold with_cores. rewrite <- (app_nil_r (vw_done v)). apply (good_end s c); try done.
  - by rewrite He.
  - by intros x ?%elem_of_nil.
  - intros v' Hk Hss Hvs Hent. rewrite app_nil_r in Hent. destruct (good_scopes v Hv s c Hc) as [Hp Hw _]. rewrite He in Hw. destruct Hw as (Hd & Hs & Hsv & Hch).
    assert (entries_of v s = []) as Hnil by (unfold done_of in Hd; by destruct (entries_of v s)).
    split; cbn [co_parent co_end]; [done| |].
    + exists (co_children c). split; [|exact (children_same v v' s _ Hk Hch)]. unfold done_of, pending, core_jobs. cbn. rewrite Hent, Hnil, Hs, Hsv, Hss, Hvs. done.
    + unfold errors_of. by rewrite Hent, Hnil.
Qed.

Lemma good_job s c j jobs errs err : vw_cores v !! s = Some c -> co_end c = Ending (j :: jobs) errs ->
  (forall k, j = EndChild k -> exists c' e, vw_cores v !! k = Some c' /\ co_end c' = Ended e) ->
  good (MkView (alter (at_end (Ending jobs (errs ++ kept j err))) s (vw_cores v)) (vw_sessions v) (vw_services v) (vw_done v ++ [(s, j, err)])).
Proof.
  intros Hc He Hj. apply (good_end s c); try done.
  - by rewrite He.
  - by intros x ->%list_elem_of_singleton.
  - intros v' Hk Hss Hvs Hent. destruct (good_scopes v Hv s c Hc) as [Hp Hw Her]. rewrite He in Hw, Her. destruct Hw as (l & Hl & Hch).
    split; cbn [co_parent co_end at_end]; [done| |].
    + exists l. split; [|exact (children_same v v' s _ Hk Hch)]. unfold done_of, pending in *. rewrite He in Hl. cbn [co_end at_end]. rewrite Hent, Hss, Hvs, <- Hl, fmap_app. cbn.
      by rewrite <- app_assoc.
    + unfold errors_of in *. rewrite Hent, fmap_app, concat_app, <- Her. cbn. by rewrite app_nil_r.
Qed.

Lemma good_ended s c errs : vw_cores v !! s = Some c -> co_end c = Ending [] errs ->
  good (with_cores (alter (at_end (Ended (Join (Some <$> errs)))) s) v).
Proof.
  intros Hc He. unfold with_cores. rewrite <- (app_nil_r (vw_done v)). apply (good_end s c); try done.
  - by rewrite He.
  - by intros x ?%elem_of_nil.
  - intros v' Hk Hss Hvs Hent. rewrite app_nil_r in Hent. destruct (good_scopes v Hv s c Hc) as [Hp Hw Her]. rewrite He in Hw, Her. destruct Hw as (l & Hl & Hch).
    split; cbn [co_parent co_end at_end]; [done| |].
    + exists l. split; [|exact (children_same v v' s _ Hk Hch)]. unfold done_of, pending in *. rewrite He in Hl. cbn [co_end at_end]. by rewrite Hent, Hss, Hvs.
    + unfold errors_of in *. by rewrite Hent, <- Her.
Qed.
End Steps.

Lemma good_step v v' : good v -> view_step v v' -> good v'.
Proof.
  intros Hv [p c Hc|i p c parent Hi Hpar Hp Ha|s c Hc|s c Hc He|s c Hc He|s c j jobs errs err Hc He Hj|s c errs Hc He].
  - by eapply good_name.
  - by eapply good_attach.
  - by apply good_adopt.
  - by eapply good_adopt_service.
  - by eapply good_start.
  - by eapply good_job.
  - by eapply good_ended.
Qed.

Lemma reachable_good st : reachable st -> good (view_of st).
Proof. apply (reachable_view good good_initial good_step). Qed.

(** * How a scope may change in a step

    Whatever the step, a scope keeps its place and its key, what has ended or
    is cancelled stays so with the first cause, and a body's result is what
    [finish] computed of the end. *)

(** ** Definitions *)

Record evolves (c c' : scope) : Prop := {
  ev_parent : sc_parent c' = sc_parent c;
  ev_key : sc_key c' = sc_key c;
  ev_end : forall e, sc_end c = Ended e -> sc_end c' = Ended e;
  ev_ended : is_ended c = true -> is_ended c' = true;
  ev_service : forall e, sc_serviceErr c = Some e -> sc_serviceErr c' = Some e;
  ev_cause : forall e k, sc_ctx c = Cancelled e k -> sc_ctx c' = Cancelled e k;
  ev_begun : begun c = true -> begun c' = true;
  ev_body : forall e r, sc_body c = Returned e r -> sc_body c' = Returned e r;
  ev_returned : forall e r, sc_body c' = Returned e r ->
    sc_body c = Returned e r \/
    exists service cleanup, sc_end c' = Ended cleanup /\ r = scope_error e service cleanup /\ (service = None \/ sc_serviceErr c' = service);
}.

Definition scopes_evolve (l l' : list scope) : Prop := forall i c, l !! i = Some c -> exists c', l' !! i = Some c' /\ evolves c c'.

(** The context a scope has after its parent's, in a list made so far. *)
Definition inherited (acc : list scope) (c : scope) : scope :=
  match sc_ctx c, (p ← sc_parent c; sc_ctx <$> acc !! p) with
  | Live, Some (Cancelled err cause) => with_ctx (Cancelled err cause) c
  | _, _ => c
  end.

(** ** Lemmas *)

Lemma evolves_refl c : evolves c c.
Proof. by split; auto. Qed.

Lemma evolves_trans c1 c2 c3 : evolves c1 c2 -> evolves c2 c3 -> evolves c1 c3.
Proof.
  intros [A1 A2 A3 A4 A5 A6 A7 A8 A9] [B1 B2 B3 B4 B5 B6 B7 B8 B9]. split; try (by eauto); [congruence|congruence|].
  intros e r [H|H]%B9; [|by right]. apply A9 in H as [H|(sv & cl & He & Hr & Hsv)]; [by left|]. right. exists sv, cl. split_and!; eauto.
  destruct Hsv as [->|Hsv]; [by left|]. destruct sv as [e'|]; [|by left]. right. by apply B5.
Qed.

Lemma scopes_refl l : scopes_evolve l l.
Proof. intros i c Hc. exists c. split; [done|apply evolves_refl]. Qed.

Lemma scopes_trans l1 l2 l3 : scopes_evolve l1 l2 -> scopes_evolve l2 l3 -> scopes_evolve l1 l3.
Proof. intros H1 H2 i c Hc. destruct (H1 i c Hc) as (c2 & Hc2 & E2). destruct (H2 i c2 Hc2) as (c3 & Hc3 & E3). exists c3. split; [done|]. by eapply evolves_trans. Qed.

Lemma scopes_alter f i l : (forall c, l !! i = Some c -> evolves c (f c)) -> scopes_evolve l (alter f i l).
Proof.
  intros Hf j c Hc. rewrite list_lookup_alter. case_decide as E.
  - subst. rewrite Hc. exists (f c). split; [done|]. by apply Hf.
  - exists c. split; [done|apply evolves_refl].
Qed.

Lemma scopes_app l l' : scopes_evolve l (l ++ l').
Proof. intros i c Hc. exists c. split; [by apply lookup_app_l_Some|apply evolves_refl]. Qed.

(** *** Cancellation *)

Lemma propagate_snoc l c : propagate (l ++ [c]) = propagate l ++ [inherited (propagate l) c].
Proof. unfold propagate. by rewrite foldl_app. Qed.

Lemma length_propagate l : length (propagate l) = length l.
Proof. induction l as [|c l IH] using rev_ind; [done|]. by rewrite propagate_snoc, !length_app, IH. Qed.

Lemma evolves_inherited acc c : evolves c (inherited acc c).
Proof.
  unfold inherited. destruct (sc_ctx c) eqn:Ec; try apply evolves_refl. repeat (case_match; try apply evolves_refl).
  split; cbn; auto; by rewrite ?Ec.
Qed.

(** What cancelling does to each scope, in terms of what it does to those
    before. *)
Lemma propagate_lookup l i c : l !! i = Some c -> propagate l !! i = Some (inherited (take i (propagate l)) c).
Proof.
  induction l as [|x l IH] using rev_ind; [done|]. rewrite propagate_snoc. intros [Hi|[Hge Hi]]%lookup_app_Some.
  - pose proof (lookup_lt_Some _ _ _ Hi) as Hlt. rewrite take_app_le by (rewrite length_propagate; lia). apply lookup_app_l_Some. by apply IH.
  - apply list_lookup_singleton_Some in Hi as [Hl <-]. assert (i = length (propagate l)) as -> by (rewrite length_propagate; lia).
    rewrite take_app_length. rewrite lookup_app_r by done. by rewrite Nat.sub_diag.
Qed.

Lemma scopes_propagate l : scopes_evolve l (propagate l).
Proof. intros i c Hc. rewrite (propagate_lookup l i c Hc). eexists. split; [done|]. apply evolves_inherited. Qed.

Lemma scopes_cancel s err cause st : scopes_evolve (st_scopes st) (st_scopes (cancel s err cause st)).
Proof.
  eapply scopes_trans; [|apply scopes_propagate]. apply scopes_alter. intros c _. destruct (sc_ctx c) eqn:Ec; try apply evolves_refl.
  split; cbn; auto; by rewrite ?Ec.
Qed.

(** *** Every step *)

(** Take a step apart: each guard it passed, and the state it made. *)
Ltac split_guard H :=
  match type of H with
  | context [match ?x with _ => _ end] => lazymatch x with context [match _ with _ => _ end] => fail | _ => destruct x eqn:?; try discriminate H end
  end.
Ltac open_op H := unfold mbind, option_bind, fmap, option_fmap, option_map in H; cbn in H; repeat (split_guard H; cbn in H); try discriminate H; injection H as <-; cbn.

Lemma evolves_quiet c c' :
  sc_parent c' = sc_parent c -> sc_key c' = sc_key c -> sc_end c' = sc_end c -> sc_serviceErr c' = sc_serviceErr c -> sc_ctx c' = sc_ctx c ->
  sc_body c' = sc_body c -> evolves c c'.
Proof. intros H1 H2 H3 H4 H5 H6. split; unfold is_ended, begun in *; rewrite ?H1, ?H2, ?H3, ?H4, ?H5, ?H6; auto. Qed.

Lemma scopes_on_quiet i f st :
  (forall c, sc_parent (f c) = sc_parent c /\ sc_key (f c) = sc_key c /\ sc_end (f c) = sc_end c /\ sc_serviceErr (f c) = sc_serviceErr c /\
    sc_ctx (f c) = sc_ctx c /\ sc_body (f c) = sc_body c) -> scopes_evolve (st_scopes st) (st_scopes (on i f st)).
Proof. intros Hf. apply scopes_alter. intros c _. destruct (Hf c) as (? & ? & ? & ? & ? & ?). by apply evolves_quiet. Qed.

Lemma evolve_fail s err st st' : failService s err st = Some st' -> scopes_evolve (st_scopes st) (st_scopes st').
Proof.
  unfold failService. destruct (st_scopes st !! s) as [c|] eqn:Es; [|done]. cbn. destruct (sc_serviceErr c) eqn:E; intros [= <-]; [apply scopes_refl|].
  eapply scopes_trans; [|apply scopes_cancel]. apply scopes_alter. intros d Hd. simplify_eq. split; cbn; auto. by rewrite E.
Qed.

Lemma evolve_start_context i loop st st' : start_context i loop st = Some st' -> scopes_evolve (st_scopes st) (st_scopes st').
Proof.
  intros (c & Hc & Ec & ->)%start_context_inv. cbn. eapply scopes_trans; [|apply scopes_propagate]. apply scopes_alter. intros d Hd. simplify_eq.
  split; cbn; auto; by rewrite Ec.
Qed.

Lemma evolve_begin i loop st st' : begin i loop st = Some st' -> scopes_evolve (st_scopes st) (st_scopes st').
Proof.
  apply (begin_ind (fun st st' => scopes_evolve (st_scopes st) (st_scopes st'))); [intros *; apply scopes_trans|apply evolve_start_context|].
  intros * (c & _ & ->)%register_inv. apply scopes_refl.
Qed.

Lemma evolve_advance s outcome st st' : advance s outcome st = Some st' -> scopes_evolve (st_scopes st) (st_scopes st').
Proof.
  unfold advance. destruct (st_scopes st !! s) as [c|] eqn:Es; [|done]. cbn. destruct (sc_end c) as [|jobs errs|] eqn:Ee; try done.
  assert (forall e, e <> NotEnded -> scopes_evolve (st_scopes st) (alter (with_end e) s (st_scopes st))) as He.
  { intros e Hne. apply scopes_alter. intros d Hd. simplify_eq. split; cbn; auto; [by rewrite Ee|]. by destruct e. }
  destruct jobs as [|[k|i| |i|] jobs].
  - intros [= <-]. by apply He.
  - case_match; [|done]. case_match; try done. intros [= <-]. by apply He.
  - destruct (st_sessions st !! i); [|done]. cbn. intros [= <-]. by apply He.
  - destruct (sc_completed c); [|destruct (begun c)]; intros [= <-]; try (by apply He). apply scopes_refl.
  - intros [= <-]. by apply He.
  - destruct (sc_completed c); [|destruct (begun c)]; intros [= <-]; try (by apply He). apply scopes_refl.
Qed.

Ltac quiet_scopes := cbn; apply scopes_alter; intros ? _; by apply evolves_quiet.

Lemma exec_evolve o st st' : exec o st = Some st' -> scopes_evolve (st_scopes st) (st_scopes st').
Proof.
  unfold exec. destruct (st_crashed st); [done|].
  destruct o as [p name completed|i|i loop|i|i|s name|s id|i|s|s err|i err|s m|s|s|s key raw|key cause|g err|s err|s|s|s outcome|s].
  - unfold name_child. destruct (st_scopes st !! p) as [c|] eqn:Ep; [|done]. cbn. destruct (begun c); [|done]. intros [= <-]. cbn. rewrite list_insert_alter.
    eapply scopes_trans; [|apply scopes_app]. apply scopes_alter. intros d Hd. simplify_eq. by apply evolves_quiet.
  - unfold attach_child. destruct (st_scopes st !! i) as [c|]; [|done]. cbn. destruct (sc_parent c) as [p|]; [|done]. cbn.
    destruct (st_scopes st !! p); [|done]. cbn. destruct (sc_attached c); try done. intros [= <-]. cbn.
    eapply scopes_trans; [|quiet_scopes]. quiet_scopes.
  - apply evolve_begin.
  - apply evolve_start_context.
  - intros (c & _ & ->)%group_register_inv%register_inv. apply scopes_refl.
  - unfold name_session. destruct (st_scopes st !! s) as [c|]; [|done]. cbn. destruct (begun c); [|done]. intros [= <-]. quiet_scopes.
  - unfold adopt. destruct (st_scopes st !! s) as [c|]; [|done]. cbn. destruct (begun c); [|done]. intros [= <-]. quiet_scopes.
  - unfold allocate. destruct (st_sessions st !! i) as [x|]; [|done]. cbn. destruct (ss_closed x); intros [= <-]; apply scopes_refl.
  - unfold adoptService. destruct (st_scopes st !! s) as [c|]; [|done]. cbn. destruct (begun c && _); [|done]. intros [= <-]. quiet_scopes.
  - apply evolve_fail.
  - unfold service_exits. destruct (st_services st !! i) as [x|]; [|done]. cbn. destruct (sv_exited x); [done|]. destruct (sv_stopping x).
    + intros [= <-]. apply scopes_refl.
    + intros H%evolve_fail. exact H.
  - unfold queueMessage. destruct (st_scopes st !! s) as [c|]; [|done]. cbn. destruct (negb _ || _); intros [= <-]; [apply scopes_refl|quiet_scopes].
  - unfold takeMessages. destruct (st_scopes st !! s); [|done]. intros [= <-]. quiet_scopes.
  - unfold endDispatch. destruct (st_scopes st !! s); [|done]. intros [= <-]. quiet_scopes.
  - unfold store. destruct (st_scopes st !! s) as [c|]; [|done]. destruct (is_ended c); [done|]. destruct (sc_values c !! key); [done|]. intros [= <-]. quiet_scopes.
  - unfold CancelScope. destruct (st_live st !! key); [|done]. destruct (String.eqb key ""); [destruct (st_rootCancel st)|]; intros [= <-]; try apply scopes_refl;
      apply (scopes_cancel _ _ _ (MkState _ _ _ _ _ _ _)).
  - unfold group_error. destruct (st_scopes st !! g) as [c|]; [|done]. cbn. intros [= <-].
    assert (forall f, (forall d, f d = match sc_groupErr d with None => set_life d (sc_loop d) (sc_ctx d) (sc_body d) (sc_end d) (sc_serviceErr d) (Some err) | Some _ => d end) ->
      scopes_evolve (st_scopes st) (st_scopes (on g f st))) as Hf.
    { intros f Hf. apply scopes_on_quiet. intros d. rewrite Hf. by destruct (sc_groupErr d). }
    destruct (as_killed err); [by apply Hf|]. eapply scopes_trans; [|apply scopes_cancel]. by apply Hf.
  - unfold body_returns. destruct (st_scopes st !! s) as [c|] eqn:Es; [|done]. cbn. destruct (sc_body c) eqn:Eb, (sc_ctx c) eqn:Ec; try done; intros [= <-];
      apply scopes_alter; intros d Hd; simplify_eq; split; cbn; auto; by rewrite Eb.
  - unfold body_panics. destruct (st_scopes st !! s) as [c|] eqn:Es; [|done]. cbn. destruct (sc_body c) eqn:Eb, (sc_ctx c) eqn:Ec; try done; intros [= <-];
      apply scopes_alter; intros d Hd; simplify_eq; split; cbn; auto; by rewrite Eb.
  - destruct (may_end s st); [|done]. unfold start_end. destruct (st_scopes st !! s) as [c|] eqn:Es; [|done]. cbn. destruct (sc_end c) eqn:Ee; try done. intros [= <-].
    eapply scopes_trans; [|apply scopes_cancel]. cbn. apply scopes_alter. intros d Hd. simplify_eq. split; cbn; auto. by rewrite Ee.
  - apply evolve_advance.
  - unfold finish. destruct (st_scopes st !! s) as [c|] eqn:Es; [|done]. cbn. destruct (sc_body c) as [| |err|] eqn:Eb; try done.
    destruct (sc_end c) as [| |cl] eqn:Ee; try done. intros [= <-]. cbn. apply scopes_alter. intros d Hd.
    rewrite Es in Hd. injection Hd as <-. split; cbn; auto; [by rewrite Eb|]. intros e r [= -> <-]. right. exists (sc_serviceErr c), cl. auto.
Qed.

(** Only naming a child makes a scope. *)
Lemma exec_new o st st' i c : exec o st = Some st' -> st_scopes st !! i = None -> st_scopes st' !! i = Some c ->
  exists p name key completed, c = new_scope (Some p) name key completed.
Proof.
  intros Ho Hn Hi. apply lookup_ge_None in Hn.
  assert (length (st_scopes st') <= length (st_scopes st) -> False)%nat as Hlen by (intros Hl; apply lookup_lt_Some in Hi; lia).
  unfold exec in Ho. destruct (st_crashed st); [done|].
  destruct o as [p name completed|k|k loop|k|k|s name|s id|k|s|s err|k err|s m|s|s|s key raw|key cause|g err|s err|s|s|s outcome|s]; cbn in *.
  { unfold name_child in Ho. destruct (st_scopes st !! p) as [d|]; [|done]. cbn in Ho. destruct (begun d); [|done]. injection Ho as <-. cbn in Hi. clear Hlen.
    apply lookup_app_Some in Hi as [Hi|[_ Hi]]; [apply lookup_lt_Some in Hi; rewrite length_insert in Hi; lia|].
    apply list_lookup_singleton_Some in Hi as [_ <-]. by do 4 eexists. }
  all: exfalso; apply Hlen; clear Hlen Hi Hn.
  - unfold attach_child in Ho. open_op Ho; rewrite ?length_propagate, ?length_alter; done.
  - apply begin_inv in Ho as (st1 & (d & _ & _ & ->)%start_context_inv & (e & _ & ->)%register_inv). cbn. by rewrite length_propagate, length_alter.
  - apply start_context_inv in Ho as (d & _ & _ & ->). cbn. by rewrite length_propagate, length_alter.
  - apply group_register_inv, register_inv in Ho as (d & _ & ->). done.
  - unfold name_session in Ho. open_op Ho; rewrite ?length_propagate, ?length_alter; done.
  - unfold adopt in Ho. open_op Ho; rewrite ?length_propagate, ?length_alter; done.
  - unfold allocate in Ho. open_op Ho; rewrite ?length_propagate, ?length_alter; done.
  - unfold adoptService in Ho. open_op Ho; rewrite ?length_propagate, ?length_alter; done.
  - unfold failService in Ho. open_op Ho; rewrite ?length_propagate, ?length_alter; done.
  - unfold service_exits, failService in Ho. open_op Ho; rewrite ?length_propagate, ?length_alter; done.
  - unfold queueMessage in Ho. open_op Ho; rewrite ?length_propagate, ?length_alter; done.
  - unfold takeMessages in Ho. open_op Ho; rewrite ?length_propagate, ?length_alter; done.
  - unfold endDispatch in Ho. open_op Ho; rewrite ?length_propagate, ?length_alter; done.
  - unfold store in Ho. open_op Ho; rewrite ?length_propagate, ?length_alter; done.
  - unfold CancelScope in Ho. open_op Ho; rewrite ?length_propagate, ?length_alter; done.
  - unfold group_error in Ho. open_op Ho; rewrite ?length_propagate, ?length_alter; done.
  - unfold body_returns in Ho. open_op Ho; rewrite ?length_propagate, ?length_alter; done.
  - unfold body_panics in Ho. open_op Ho; rewrite ?length_propagate, ?length_alter; done.
  - unfold start_end in Ho. open_op Ho; rewrite ?length_propagate, ?length_alter; done.
  - unfold advance in Ho. open_op Ho; rewrite ?length_propagate, ?length_alter; done.
  - unfold finish in Ho. open_op Ho; rewrite ?length_propagate, ?length_alter; done.
Qed.

(** *** Along a run *)

Lemma reachable_step st st' : reachable st -> step st st' -> reachable st'.
Proof. intros H1 H2. by eapply rtc_r. Qed.

Lemma run_reachable ops st st' : reachable st -> run ops st = Some st' -> reachable st'.
Proof.
  revert st. induction ops as [|o ops IH]; intros st Hr; cbn; [by intros [= <-]|]. destruct (exec o st) as [st1|] eqn:E; [|done]. cbn. apply IH.
  eapply reachable_step; [done|]. by exists o.
Qed.

Lemma after_reachable ops : reachable (after ops).
Proof. unfold after. destruct (run ops initial) as [st|] eqn:E; [|apply rtc_refl]. eapply run_reachable; [apply rtc_refl|done]. Qed.

Lemma steps_evolve st st' : rtc step st st' -> scopes_evolve (st_scopes st) (st_scopes st').
Proof. induction 1 as [|st1 st2 st3 [o Ho] _ IH]; [apply scopes_refl|]. eapply scopes_trans; [by eapply exec_evolve|exact IH]. Qed.

(** Scopes of which something holds when they are made, and that it is kept
    for. *)
Lemma reachable_scopes (P : scope -> Prop) :
  P root -> (forall p name key completed, P (new_scope p name key completed)) -> (forall c c', evolves c c' -> P c -> P c') ->
  forall st, reachable st -> forall i c, st_scopes st !! i = Some c -> P c.
Proof.
  intros Hroot Hnew Hev. apply (rtc_ind_r (fun st => forall i c, st_scopes st !! i = Some c -> P c) initial).
  - intros [|i] c; [|done]. by intros [= <-].
  - intros st1 st2 _ [o Ho] IH i c Hc. destruct (st_scopes st1 !! i) as [c1|] eqn:E1.
    + destruct (exec_evolve _ _ _ Ho i c1 E1) as (c' & Hc' & He). simplify_eq. eauto.
    + destruct (exec_new _ _ _ _ _ Ho E1 Hc) as (p & name & key & completed & ->). apply Hnew.
Qed.

(** *** Where a result comes from *)

Definition bodies (st : state) : list body := sc_body <$> st_scopes st.

Lemma bodies_lookup st s b : bodies st !! s = Some b <-> exists c, st_scopes st !! s = Some c /\ sc_body c = b.
Proof. unfold bodies. rewrite list_lookup_fmap, fmap_Some. naive_solver. Qed.

Ltac same_bodies := unfold bodies; cbn; repeat ((rewrite project_propagate by done) || (rewrite project_alter by (intros ?; cbn; by repeat case_match))); done.

(** A body that is set leaves the other results alone. *)
Lemma bodies_set k b s st err result c : (forall e r, b <> Returned e r) ->
  bodies (on k (with_body b) st) !! s = Some (Returned err result) -> st_scopes st !! k = Some c -> bodies st !! s = Some (Returned err result).
Proof.
  intros Hb H Hk. apply bodies_lookup in H as (d & Hd & Eb). cbn in Hd. rewrite list_lookup_alter in Hd. case_decide as E.
  - subst. rewrite Hk in Hd. injection Hd as <-. cbn in Eb. by apply Hb in Eb.
  - apply bodies_lookup. eauto.
Qed.

(** Only [finish] gives a scope its result. *)
Lemma exec_returns o st st' s err result : exec o st = Some st' -> bodies st' !! s = Some (Returned err result) ->
  bodies st !! s = Some (Returned err result) \/ finish s st = Some st'.
Proof.
  unfold exec. destruct (st_crashed st); [done|]. intros Ho Hb.
  assert (bodies st' = bodies st -> bodies st !! s = Some (Returned err result) \/ finish s st = Some st') as Hsame by (intros <-; by left).
  destruct o as [p name completed|i|i loop|i|i|k name|k id|i|k|k e|i e|k m|k|k|k key raw|key cause|g e|k e|k|k|k outcome|k].
  { unfold name_child in Ho. destruct (st_scopes st !! p) as [d|] eqn:Ep; [|done]. cbn in Ho. destruct (begun d); [|done]. injection Ho as <-.
    left. apply bodies_lookup in Hb as (c & Hc & Eb). cbn in Hc. apply bodies_lookup. apply lookup_app_Some in Hc as [Hc|[_ Hc]].
    - rewrite list_insert_alter, list_lookup_alter in Hc. case_decide; [subst; rewrite Ep in Hc|]; injection Hc as <- || idtac; eauto.
    - apply list_lookup_singleton_Some in Hc as [_ <-]. discriminate Eb. }
  all: cbn in Ho.
  - unfold attach_child in Ho. open_op Ho; apply Hsame; same_bodies.
  - apply begin_inv in Ho as (st1 & (d & _ & _ & ->)%start_context_inv & (e & _ & ->)%register_inv). apply Hsame; same_bodies.
  - apply start_context_inv in Ho as (d & _ & _ & ->). apply Hsame; same_bodies.
  - apply group_register_inv, register_inv in Ho as (d & _ & ->). by apply Hsame.
  - unfold name_session in Ho. open_op Ho; apply Hsame; same_bodies.
  - unfold adopt in Ho. open_op Ho; apply Hsame; same_bodies.
  - unfold allocate in Ho. open_op Ho; apply Hsame; same_bodies.
  - unfold adoptService in Ho. open_op Ho; apply Hsame; same_bodies.
  - unfold failService in Ho. open_op Ho; apply Hsame; same_bodies.
  - unfold service_exits, failService in Ho. open_op Ho; apply Hsame; same_bodies.
  - unfold queueMessage in Ho. open_op Ho; apply Hsame; same_bodies.
  - unfold takeMessages in Ho. open_op Ho; apply Hsame; same_bodies.
  - unfold endDispatch in Ho. open_op Ho; apply Hsame; same_bodies.
  - unfold store in Ho. open_op Ho; apply Hsame; same_bodies.
  - unfold CancelScope in Ho. open_op Ho; apply Hsame; same_bodies.
  - unfold group_error in Ho. open_op Ho; apply Hsame; same_bodies.
  - left. unfold body_returns in Ho. open_op Ho; (eapply bodies_set; [|exact Hb|eassumption]; done).
  - left. unfold body_panics in Ho. open_op Ho; (eapply bodies_set; [|exact Hb|eassumption]; done).
  - unfold start_end in Ho. open_op Ho; apply Hsame; same_bodies.
  - unfold advance in Ho. open_op Ho; apply Hsame; same_bodies.
  - destruct (decide (k = s)) as [->|Hne]; [by right|left]. unfold finish in Ho. open_op Ho. apply bodies_lookup in Hb as (c & Hc & Eb). cbn in Hc.
    rewrite list_lookup_alter_ne in Hc by done. apply bodies_lookup. eauto.
Qed.

(** A result was computed by [finish], in a state the run went through. *)
Definition computed (st : state) (s : nat) (err result : option error) : Prop :=
  exists st0 c0 cleanup, reachable st0 /\ rtc step st0 st /\ st_scopes st0 !! s = Some c0 /\ sc_body c0 = Finished err /\
    sc_end c0 = Ended cleanup /\ result = scope_error err (sc_serviceErr c0) cleanup.

Lemma returned_from st : reachable st -> forall s c err result, st_scopes st !! s = Some c -> sc_body c = Returned err result -> computed st s err result.
Proof.
  apply (rtc_ind_r (fun st => forall s c err result, st_scopes st !! s = Some c -> sc_body c = Returned err result -> computed st s err result) initial).
  - intros [|s] c err result; [|done]. by intros [= <-].
  - intros st1 st2 Hr [o Ho] IH s c err result Hc Hb. assert (step st1 st2) as Hstep by (by exists o).
    destruct (exec_returns o st1 st2 s err result Ho) as [H|H]; [apply bodies_lookup; eauto| |].
    + apply bodies_lookup in H as (c1 & Hc1 & Hb1). destruct (IH s c1 err result Hc1 Hb1) as (st0 & c0 & cl & H0 & H1 & Hrest).
      exists st0, c0, cl. split; [done|]. split; [eapply rtc_r; [exact H1|exact Hstep]|done].
    + unfold finish in H. destruct (st_scopes st1 !! s) as [c1|] eqn:E1; [|done]. cbn in H. destruct (sc_body c1) eqn:Eb; try done.
      destruct (sc_end c1) as [| |cl] eqn:Ee; try done. injection H as <-. exists st1, c1, cl.
      cbn in Hc. rewrite list_lookup_alter_eq, E1 in Hc. injection Hc as <-. cbn in Hb. injection Hb as <- <-.
      split_and!; [done|by apply rtc_once|done..].
Qed.

(** *** Services that failed *)

(** The operation says that a required service of [s] failed. *)
Definition service_failure (s : nat) (o : op) (st : state) : Prop :=
  match o with
  | OFail k _ => k = s
  | OExit i _ => exists v, st_services st !! i = Some v /\ sv_owner v = s /\ sv_stopping v = false
  | _ => False
  end.

(** A required service of [s] failed on the way to [st]. *)
Definition service_failed (st : state) (s : nat) : Prop :=
  exists o st1 st2, reachable st1 /\ exec o st1 = Some st2 /\ service_failure s o st1 /\ rtc step st2 st.

Definition failures (st : state) : list (option error) := sc_serviceErr <$> st_scopes st.

Lemma failures_lookup st s e : failures st !! s = Some e <-> exists c, st_scopes st !! s = Some c /\ sc_serviceErr c = e.
Proof. unfold failures. rewrite list_lookup_fmap, fmap_Some. naive_solver. Qed.

Ltac same_failures := unfold failures; cbn; repeat ((rewrite project_propagate by done) || (rewrite project_alter by (intros ?; cbn; by repeat case_match))); done.

Lemma failures_fail k err st st' : failService k err st = Some st' ->
  exists e, failures st' !! k = Some (Some e) /\ forall s, s <> k -> failures st' !! s = failures st !! s.
Proof.
  unfold failService. destruct (st_scopes st !! k) as [c|] eqn:Ek; [|done]. cbn. destruct (sc_serviceErr c) as [e|] eqn:Ee; intros [= <-].
  - exists e. split; [apply failures_lookup; eauto|done].
  - exists err. unfold failures. cbn. rewrite project_propagate by done. split.
    + rewrite list_lookup_fmap, !list_lookup_alter_eq, Ek. cbn. by destruct (sc_ctx c).
    + intros s Hs. by rewrite !list_lookup_fmap, !list_lookup_alter_ne by done.
Qed.

(** Only a failure of a service is kept as one. *)
Lemma exec_failures o st st' s e : exec o st = Some st' -> failures st' !! s = Some e ->
  (service_failure s o st -> e <> None) /\ (e <> None -> service_failure s o st \/ failures st !! s = Some e).
Proof.
  unfold exec. destruct (st_crashed st); [done|]. intros Ho Hb.
  assert (failures st' = failures st -> (service_failure s o st -> False) -> (service_failure s o st -> e <> None) /\ (e <> None -> service_failure s o st \/ failures st !! s = Some e)) as Hsame.
  { intros Hf Hno. split; [intros H; by destruct Hno|]. right. congruence. }
  destruct o as [p name completed|i|i loop|i|i|k name|k id|i|k|k err|i err|k m|k|k|k key raw|key cause|g err|k err|k|k|k outcome|k].
  { unfold name_child in Ho. destruct (st_scopes st !! p) as [d|] eqn:Ep; [|done]. cbn in Ho. destruct (begun d); [|done]. injection Ho as <-.
    split; [done|]. intros He. right. apply failures_lookup in Hb as (c & Hc & Ec). cbn in Hc. apply failures_lookup. apply lookup_app_Some in Hc as [Hc|[_ Hc]].
    - rewrite list_insert_alter, list_lookup_alter in Hc. case_decide; [subst; rewrite Ep in Hc|]; injection Hc as <- || idtac; eauto.
    - apply list_lookup_singleton_Some in Hc as [_ <-]. by destruct He. }
  all: cbn in Ho.
  - unfold attach_child in Ho. open_op Ho; (apply Hsame; [same_failures|done]).
  - apply begin_inv in Ho as (st1 & (d & _ & _ & ->)%start_context_inv & (d' & _ & ->)%register_inv). apply Hsame; [same_failures|done].
  - apply start_context_inv in Ho as (d & _ & _ & ->). apply Hsame; [same_failures|done].
  - apply group_register_inv, register_inv in Ho as (d & _ & ->). by apply Hsame.
  - unfold name_session in Ho. open_op Ho; (apply Hsame; [same_failures|done]).
  - unfold adopt in Ho. open_op Ho; (apply Hsame; [same_failures|done]).
  - unfold allocate in Ho. open_op Ho; (apply Hsame; [same_failures|done]).
  - unfold adoptService in Ho. open_op Ho; (apply Hsame; [same_failures|done]).
  - destruct (failures_fail k err st st' Ho) as (e1 & H1 & H2). destruct (decide (s = k)) as [->|Hne]; [rewrite H1 in Hb; injection Hb as <-; cbn; auto|].
    rewrite (H2 s Hne) in Hb. cbn. split; [congruence|auto].
  - unfold service_exits in Ho. destruct (st_services st !! i) as [v|] eqn:Ev; [|done]. cbn in Ho. destruct (sv_exited v); [done|].
    destruct (sv_stopping v) eqn:Es; [injection Ho as <-; apply Hsame; [done|intros (v' & Hv' & _ & Hs'); congruence]|].
    destruct (failures_fail _ _ _ _ Ho) as (e1 & H1 & H2). destruct (decide (s = sv_owner v)) as [->|Hne].
    + rewrite H1 in Hb. injection Hb as <-. split; [done|]. left. by exists v.
    + rewrite (H2 s Hne) in Hb. split; [intros (v' & Hv' & Ho' & _); congruence|]. intros _. right. exact Hb.
  - unfold queueMessage in Ho. open_op Ho; (apply Hsame; [same_failures|done]).
  - unfold takeMessages in Ho. open_op Ho; (apply Hsame; [same_failures|done]).
  - unfold endDispatch in Ho. open_op Ho; (apply Hsame; [same_failures|done]).
  - unfold store in Ho. open_op Ho; (apply Hsame; [same_failures|done]).
  - unfold CancelScope in Ho. open_op Ho; (apply Hsame; [same_failures|done]).
  - unfold group_error in Ho. open_op Ho; (apply Hsame; [same_failures|done]).
  - unfold body_returns in Ho. open_op Ho; (apply Hsame; [same_failures|done]).
  - unfold body_panics in Ho. open_op Ho; (apply Hsame; [same_failures|done]).
  - unfold start_end in Ho. open_op Ho; (apply Hsame; [same_failures|done]).
  - unfold advance in Ho. open_op Ho; (apply Hsame; [same_failures|done]).
  - unfold finish in Ho. open_op Ho; (apply Hsame; [same_failures|done]).
Qed.

(** What a scope keeps as the failure of a service is that one failed. *)
Lemma service_kept st s c : reachable st -> st_scopes st !! s = Some c -> sc_serviceErr c <> None <-> service_failed st s.
Proof.
  intros Hr Hc. split.
  - revert s c Hc. revert st Hr. apply (rtc_ind_r (fun st => forall s c, st_scopes st !! s = Some c -> sc_serviceErr c <> None -> service_failed st s) initial).
    + intros [|s] c; [|done]. by intros [= <-].
    + intros st1 st2 Hr [o Ho] IH s c Hc He. assert (failures st2 !! s = Some (sc_serviceErr c)) as Hf by (apply failures_lookup; eauto).
      destruct (exec_failures o st1 st2 s _ Ho Hf) as [_ [Hs|Hs]]; [done|by exists o, st1, st2|].
      apply failures_lookup in Hs as (c1 & Hc1 & E1). destruct (IH s c1 Hc1) as (o1 & a & b & H1 & H2 & H3 & H4); [congruence|].
      exists o1, a, b. split_and!; [done|done|done|]. eapply rtc_r; [exact H4|by exists o].
  - intros (o & st1 & st2 & H1 & H2 & H3 & H4).
    assert (exists c2, st_scopes st2 !! s = Some c2 /\ sc_serviceErr c2 <> None) as (c2 & Hc2 & He2).
    { assert (is_Some (failures st2 !! s)) as [e Hf].
      { destruct o; try done; cbn in H3; unfold exec in H2; destruct (st_crashed st1); try done.
        - subst. destruct (failures_fail _ _ _ _ H2) as (e & -> & _). by eexists.
        - destruct H3 as (v & Hv & <- & Hs). unfold service_exits in H2. rewrite Hv in H2. cbn in H2. destruct (sv_exited v); [done|]. rewrite Hs in H2.
          destruct (failures_fail _ _ _ _ H2) as (e & -> & _). by eexists. }
      destruct (exec_failures o st1 st2 s e H2 Hf) as [He _]. specialize (He H3). apply failures_lookup in Hf as (c2 & Hc2 & <-). eauto. }
    destruct (steps_evolve _ _ H4 s c2 Hc2) as (c' & Hc' & Hev). rewrite Hc in Hc'. injection Hc' as <-.
    destruct (sc_serviceErr c2) as [e|] eqn:E; [|done]. by rewrite (ev_service _ _ Hev e E).
Qed.

(** *** The error of a scope *)

Lemma join_none l : Join l = None <-> Forall (fun e => e = None) l.
Proof.
  unfold Join. induction l as [|[e|] l IH]; cbn; [by split|split; [done|by inversion 1]|]. rewrite Forall_cons. rewrite IH. naive_solver.
Qed.

(** Nothing is dropped: a scope succeeds exactly when its body, its services and
    its cleanup did. *)
Lemma scope_error_none b s c : scope_error b s c = None <-> b = None /\ s = None /\ c = None.
Proof.
  unfold scope_error. rewrite join_none, !Forall_cons. destruct s as [e|]; cbn.
  - destruct b as [b|]; [destruct (is_canceled b)|]; cbn; naive_solver.
  - destruct b; cbn; naive_solver.
Qed.
