(* ===== verification/ScopeEnds.v ===== *)
(** * How scopes end

    The end of a scope does every job once, in order, whatever the other
    goroutines do meanwhile; it comes to an end; and no failure is lost on the
    way to the scope's error. *)

From S2P Require Import Prelude GoText Scopes ScopeInv.
From Stdlib Require Import Ascii.

Open Scope Z_scope.

(** ** Definitions *)

(** The jobs done at the end of [s], in order. *)
Definition released (st : state) (s : nat) : list job := done_of (view_of st) s.

(** [k] came to the list of [s] before [s] ended. *)
Definition owned_child (st : state) (s k : nat) : Prop :=
  exists c, st_scopes st !! k = Some c /\ sc_parent c = Some s /\ sc_attached c = InTime.

(** The sessions and services of [s] that came before it ended, in order. *)
Definition owned_sessions (st : state) (s : nat) : list nat := sessions_of (view_of st) s.
Definition owned_services (st : state) (s : nat) : list nat := services_of (view_of st) s.

Definition end_of (st : state) (s : nat) : option ending := sc_end <$> st_scopes st !! s.

Definition has_ended (st : state) (s : nat) : Prop := exists err, end_of st s = Some (Ended err).

(** A run with a child scope, two services, one that does not stop, and two
    sessions, one that does not close. *)
Definition ending_run : list op :=
  [OBegin 0 false; OAdoptService 0; OName 0 "lap" false; OAttach 1; OBegin 1 false; OSession 1 "a"; OAdopt 1 "lap.1/a.1"; OAllocate 0; OAdoptService 0;
   OSession 0 "b"; OAdopt 0 "b.1"; OReturn 1 None; OStartEnd 1; OAdvance 1 (Some (Failure "close" [])); OAdvance 1 None; OAdvance 1 None; OAdvance 1 None;
   OFinish 1; OReturn 0 None; OStartEnd 0; OAdvance 0 None; OAdvance 0 None; OAdvance 0 None; OAdvance 0 (Some (Failure "stop" [])); OAdvance 0 None;
   OAdvance 0 None; OAdvance 0 None; OFinish 0]%string.

(** A job failed. *)
Definition failed (st : state) (s : nat) (j : job) (e : error) : Prop := Released s j (Some e) ∈ st_log st.

(** ** Lemmas *)

Lemma child_in_owned st s k : child_in (view_of st) s k <-> owned_child st s k.
Proof.
  unfold child_in, owned_child. split.
  - intros (d & (c & Hc & ->)%core_lookup_inv & Hp & Ha). by exists c.
  - intros (c & Hc%core_lookup & Hp & Ha). by exists (core_of c).
Qed.

(** *** What is closed stays closed *)

Definition grows {A} (p : A -> bool) (l l' : list A) : Prop := forall i x, l !! i = Some x -> exists y, l' !! i = Some y /\ (p x = true -> p y = true).

Lemma grows_same {A} (p : A -> bool) l : grows p l l.
Proof. intros i x Hx. by exists x. Qed.

Lemma grows_alter {A} (p : A -> bool) f i l : (forall x, p x = true -> p (f x) = true) -> grows p l (alter f i l).
Proof. intros Hf j x Hx. rewrite list_lookup_alter. case_decide as E; [|by exists x]. subst. rewrite Hx. exists (f x). auto. Qed.

Lemma grows_app {A} (p : A -> bool) l l' : grows p l (l ++ l').
Proof. intros i x Hx. exists x. split; [by apply lookup_app_l_Some|done]. Qed.

Lemma grows_stop (p : nat -> bool) l : grows sv_exited l (imap (fun i v => if p i then MkService (sv_owner v) true (sv_exited v) else v) l).
Proof. intros i x Hx. rewrite list_lookup_imap, Hx. cbn. eexists. split; [done|]. by destruct (p i). Qed.

(** A session that came late is closed. *)
Definition late_ok (x : session) : Prop := ss_late x = true -> ss_closed x = true.

Definition flags_grow (st st' : state) : Prop :=
  (grows ss_closed (st_sessions st) (st_sessions st') /\ (Forall late_ok (st_sessions st) -> Forall late_ok (st_sessions st'))) /\
  grows sv_exited (st_services st) (st_services st').

Lemma sessions_alter f i l : (forall x, ss_late (f x) = ss_late x /\ (ss_closed x = true -> ss_closed (f x) = true)) ->
  grows ss_closed l (alter f i l) /\ (Forall late_ok l -> Forall late_ok (alter f i l)).
Proof.
  intros Hf. split; [apply grows_alter; intros x; apply Hf|]. intros H. apply Forall_alter; [done|]. intros x _ Hx. unfold late_ok in *. destruct (Hf x) as [-> Hc]. auto.
Qed.

Lemma flags_same st st' : st_sessions st' = st_sessions st -> st_services st' = st_services st -> flags_grow st st'.
Proof. intros H1 H2. unfold flags_grow. rewrite H1, H2. split; [split; [apply grows_same|done]|apply grows_same]. Qed.

Lemma fail_flags s err st st' : failService s err st = Some st' -> st_sessions st' = st_sessions st /\ st_services st' = st_services st.
Proof. unfold failService. destruct (st_scopes st !! s) as [c|]; [|done]. cbn. destruct (sc_serviceErr c); by intros [= <-]. Qed.

Lemma advance_flags s outcome st st' : advance s outcome st = Some st' -> flags_grow st st'.
Proof.
  unfold advance. destruct (st_scopes st !! s) as [c|]; [|done]. cbn. destruct (sc_end c) as [|[|[k|i| |i|] jobs] errs|]; try done.
  - intros [= <-]. by apply flags_same.
  - case_match; [|done]. case_match; try done. intros [= <-]. by apply flags_same.
  - destruct (st_sessions st !! i); [|done]. cbn. intros [= <-]. split; [by apply sessions_alter|apply grows_same].
  - destruct (sc_completed c); [|destruct (begun c)]; intros [= <-]; by apply flags_same.
  - intros [= <-]. split; [split; [apply grows_same|done]|]. apply grows_alter. intros x Hx. cbn. by rewrite Hx.
  - destruct (sc_completed c); [|destruct (begun c)]; intros [= <-]; by apply flags_same.
Qed.

Lemma exec_flags o st st' : exec o st = Some st' -> flags_grow st st'.
Proof.
  unfold exec. destruct (st_crashed st); [done|].
  destruct o as [p name completed|i|i loop|i|i|s name|s id|i|s|s err|i err|s m|s|s|s key raw|key cause|g err|s err|s|s|s outcome|s].
  - unfold name_child. destruct (st_scopes st !! p) as [c|]; [|done]. cbn. destruct (begun c); [|done]. intros [= <-]. by apply flags_same.
  - unfold attach_child. destruct (st_scopes st !! i) as [c|]; [|done]. cbn. destruct (sc_parent c) as [p|]; [|done]. cbn.
    destruct (st_scopes st !! p); [|done]. cbn. destruct (sc_attached c); try done. intros [= <-]. by apply flags_same.
  - intros (st1 & (c & _ & _ & ->)%start_context_inv & (d & _ & ->)%register_inv)%begin_inv. by apply flags_same.
  - intros (c & _ & _ & ->)%start_context_inv. by apply flags_same.
  - intros (c & _ & ->)%group_register_inv%register_inv. by apply flags_same.
  - unfold name_session. destruct (st_scopes st !! s) as [c|]; [|done]. cbn. destruct (begun c); [|done]. intros [= <-]. by apply flags_same.
  - unfold adopt. destruct (st_scopes st !! s) as [c|]; [|done]. cbn. destruct (begun c); [|done]. intros [= <-].
    split; [split; [apply grows_app|]|apply grows_same]. intros H. apply Forall_app. split; [done|]. apply Forall_singleton. unfold late_ok. done.
  - unfold allocate. destruct (st_sessions st !! i) as [x|]; [|done]. cbn. destruct (ss_closed x); intros [= <-]; (split; [by apply sessions_alter|apply grows_same]).
  - unfold adoptService. destruct (st_scopes st !! s) as [c|]; [|done]. cbn. destruct (begun c && _); [|done]. intros [= <-]. split; [split; [apply grows_same|done]|apply grows_app].
  - intros [H1 H2]%fail_flags. by apply flags_same.
  - unfold service_exits. destruct (st_services st !! i) as [x|]; [|done]. cbn. destruct (sv_exited x); [done|]. destruct (sv_stopping x).
    + intros [= <-]. split; [split; [apply grows_same|done]|by apply grows_alter].
    + intros [H1 H2]%fail_flags. unfold flags_grow. rewrite H1, H2. split; [split; [apply grows_same|done]|by apply grows_alter].
  - unfold queueMessage. destruct (st_scopes st !! s) as [c|]; [|done]. cbn. destruct (negb _ || _); intros [= <-]; by apply flags_same.
  - unfold takeMessages. destruct (st_scopes st !! s); [|done]. intros [= <-]. by apply flags_same.
  - unfold endDispatch. destruct (st_scopes st !! s); [|done]. intros [= <-]. by apply flags_same.
  - unfold store. destruct (st_scopes st !! s) as [c|]; [|done]. destruct (is_ended c); [done|]. destruct (sc_values c !! key); [done|]. intros [= <-]. by apply flags_same.
  - unfold CancelScope. destruct (st_live st !! key); [|done]. destruct (String.eqb key ""); [destruct (st_rootCancel st)|]; intros [= <-]; by apply flags_same.
  - unfold group_error. destruct (st_scopes st !! g) as [c|]; [|done]. cbn. destruct (as_killed err); intros [= <-]; by apply flags_same.
  - unfold body_returns. destruct (st_scopes st !! s) as [c|]; [|done]. cbn. destruct (sc_body c), (sc_ctx c); try done; intros [= <-]; by apply flags_same.
  - unfold body_panics. destruct (st_scopes st !! s) as [c|]; [|done]. cbn. destruct (sc_body c), (sc_ctx c); try done; intros [= <-]; by apply flags_same.
  - destruct (may_end s st); [|done]. unfold start_end. destruct (st_scopes st !! s) as [c|]; [|done]. cbn. destruct (sc_end c); try done. intros [= <-].
    split; [split; [apply grows_same|done]|]. cbn. apply (grows_stop (fun i => bool_decide (i ∈ sc_services c))).
  - apply advance_flags.
  - unfold finish. destruct (st_scopes st !! s) as [c|]; [|done]. cbn. destruct (sc_body c), (sc_end c); try done. intros [= <-]. by apply flags_same.
Qed.

Lemma fail_log s err st st' : failService s err st = Some st' -> st_log st' = st_log st.
Proof. unfold failService. destruct (st_scopes st !! s) as [c|]; [|done]. cbn. destruct (sc_serviceErr c); by intros [= <-]. Qed.

(** Only [advance] does a job. *)
Lemma exec_jobs o st st' : exec o st = Some st' -> (exists s outcome, o = OAdvance s outcome) \/ omap job_of (st_log st') = omap job_of (st_log st).
Proof.
  assert (forall l r, job_of r = None -> omap job_of (l ++ [r]) = omap job_of l) as Hone by (intros l r H; rewrite omap_app; cbn; by rewrite H, app_nil_r).
  assert (forall l s b ms, omap job_of (l ++ ((fun m => Steer s m b) <$> ms)) = omap job_of l) as Hms
    by (intros; by rewrite omap_app, view_steers, app_nil_r).
  unfold exec. destruct (st_crashed st); [done|].
  destruct o as [p name completed|i|i loop|i|i|s name|s id|i|s|s err|i err|s m|s|s|s key raw|key cause|g err|s err|s|s|s outcome|s]; intros H; try (left; by do 2 eexists); right.
  - unfold name_child in H. destruct (st_scopes st !! p) as [c|]; [|done]. cbn in H. destruct (begun c); [|done]. by injection H as <-.
  - unfold attach_child in H. destruct (st_scopes st !! i) as [c|]; [|done]. cbn in H. destruct (sc_parent c) as [p|]; [|done]. cbn in H.
    destruct (st_scopes st !! p); [|done]. cbn in H. destruct (sc_attached c); try done. by injection H as <-.
  - apply begin_inv in H as (st1 & (c & _ & _ & ->)%start_context_inv & (d & _ & ->)%register_inv). by apply Hone.
  - by apply start_context_inv in H as (c & _ & _ & ->).
  - apply group_register_inv, register_inv in H as (c & _ & ->). by apply Hone.
  - unfold name_session in H. destruct (st_scopes st !! s) as [c|]; [|done]. cbn in H. destruct (begun c); [|done]. by injection H as <-.
  - unfold adopt in H. destruct (st_scopes st !! s) as [c|]; [|done]. cbn in H. destruct (begun c); [|done]. by injection H as <-.
  - unfold allocate in H. destruct (st_sessions st !! i) as [x|]; [|done]. cbn in H. destruct (ss_closed x); injection H as <-; [by apply Hone|done].
  - unfold adoptService in H. destruct (st_scopes st !! s) as [c|]; [|done]. cbn in H. destruct (begun c && _); [|done]. by injection H as <-.
  - by rewrite (fail_log _ _ _ _ H).
  - unfold service_exits in H. destruct (st_services st !! i) as [x|]; [|done]. cbn in H. destruct (sv_exited x); [done|]. destruct (sv_stopping x); [by injection H as <-|].
    by rewrite (fail_log _ _ _ _ H).
  - unfold queueMessage in H. destruct (st_scopes st !! s) as [c|]; [|done]. cbn in H. destruct (negb _ || _); injection H as <-; [done|by apply Hone].
  - unfold takeMessages in H. destruct (st_scopes st !! s); [|done]. injection H as <-. apply Hms.
  - unfold endDispatch in H. destruct (st_scopes st !! s); [|done]. injection H as <-. apply Hms.
  - unfold store in H. destruct (st_scopes st !! s) as [c|]; [|done]. destruct (is_ended c); [done|]. destruct (sc_values c !! key); [done|]. injection H as <-. by apply Hone.
  - unfold CancelScope in H. destruct (st_live st !! key); [|done]. destruct (String.eqb key ""); [destruct (st_rootCancel st)|]; injection H as <-; try done; by apply Hone.
  - unfold group_error in H. destruct (st_scopes st !! g) as [c|]; [|done]. cbn in H. by destruct (as_killed err); injection H as <-.
  - unfold body_returns in H. destruct (st_scopes st !! s) as [c|]; [|done]. cbn in H. destruct (sc_body c), (sc_ctx c); try done; by injection H as <-.
  - unfold body_panics in H. destruct (st_scopes st !! s) as [c|]; [|done]. cbn in H. destruct (sc_body c), (sc_ctx c); try done; by injection H as <-.
  - destruct (may_end s st); [|done]. unfold start_end in H. destruct (st_scopes st !! s) as [c|]; [|done]. cbn in H. destruct (sc_end c); try done. by injection H as <-.
  - unfold finish in H. destruct (st_scopes st !! s) as [c|]; [|done]. cbn in H. destruct (sc_body c), (sc_end c); try done. injection H as <-. by apply Hone.
Qed.

(** What a job leaves: a closed session, and if it did not fail a process that
    is gone. *)
Definition job_effect (st : state) (j : job) (err : option error) : Prop :=
  match j with
  | CloseSession i => forall x, st_sessions st !! i = Some x -> ss_closed x = true
  | StopService i => err = None -> forall v, st_services st !! i = Some v -> sv_exited v = true
  | _ => True
  end.

Lemma effect_grows st st' j err :
  flags_grow st st' ->
  (forall i, j = CloseSession i -> (i < length (st_sessions st))%nat) -> (forall i, j = StopService i -> (i < length (st_services st))%nat) ->
  job_effect st j err -> job_effect st' j err.
Proof.
  intros [[Hs _] Hv] Hi Hi' He. destruct j as [|i| |i|]; try done; cbn in *.
  - intros y Hy. destruct (lookup_lt_is_Some_2 (st_sessions st) i) as [x Hx]; [by apply Hi|]. destruct (Hs i x Hx) as (y' & Hy' & Hc). simplify_eq. auto.
  - intros Herr y Hy. destruct (lookup_lt_is_Some_2 (st_services st) i) as [x Hx]; [by apply Hi'|]. destruct (Hv i x Hx) as (y' & Hy' & Hc). simplify_eq. auto.
Qed.

Lemma advance_effect s outcome st st' x :
  advance s outcome st = Some st' -> x ∈ omap job_of (st_log st') -> x ∈ omap job_of (st_log st) \/ job_effect st' x.1.2 x.2.
Proof.
  assert (forall j err l, x ∈ omap job_of (l ++ [Released s j err]) -> x ∈ omap job_of l \/ x = (s, j, err)) as Hsnoc.
  { intros j err l. rewrite omap_app, elem_of_app. cbn. rewrite list_elem_of_singleton. done. }
  unfold advance. destruct (st_scopes st !! s) as [c|]; [|done]. cbn. destruct (sc_end c) as [|[|[k|i| |i|] jobs] errs|]; try done.
  - intros [= <-]. by left.
  - case_match; [|done]. case_match; try done. intros [= <-] [Hx| ->]%Hsnoc; [by left|]. by right.
  - destruct (st_sessions st !! i) as [y|] eqn:Ei; [|done]. cbn. intros [= <-] [Hx| ->]%Hsnoc; [by left|]. right. cbn. intros z.
    rewrite list_lookup_alter_eq, Ei. by intros [= <-].
  - destruct (sc_completed c); [|destruct (begun c)]; intros [= <-]; [intros [Hx| ->]%Hsnoc; [by left|by right]..|by left].
  - intros [= <-] [Hx| ->]%Hsnoc; [by left|]. right. cbn. intros -> z. rewrite list_lookup_alter_eq. destruct (st_services st !! i) as [v|]; [|done]. intros [= <-]. cbn. by rewrite orb_true_r.
  - destruct (sc_completed c); [|destruct (begun c)]; intros [= <-]; [intros [Hx| ->]%Hsnoc; [by left|by right]..|by left].
Qed.

(** The jobs done are jobs of the plan. *)
Lemma done_in_plan v s j err : good v -> (s, j, err) ∈ vw_done v -> exists children, j ∈ jobs_plan children (sessions_of v s) (services_of v s).
Proof.
  intros Hv Hd. destruct (lookup_lt_is_Some_2 (vw_cores v) s) as [c Hc]; [by eapply good_done|]. pose proof (ok_whole _ _ _ (good_scopes v Hv s c Hc)) as Hw.
  assert (j ∈ done_of v s) as Hj. { apply list_elem_of_fmap. exists (s, j, err). split; [done|]. by apply list_elem_of_filter. }
  destruct (co_end c).
  - destruct Hw as (Hnil & _). rewrite Hnil in Hj. by apply elem_of_nil in Hj.
  - destruct Hw as (l & Hl & _). exists l. rewrite <- Hl. apply elem_of_app. by left.
  - destruct Hw as (l & Hl & _). exists l. rewrite <- Hl. apply elem_of_app. by left.
Qed.

Lemma elem_of_plan children sessions services j :
  j ∈ jobs_plan children sessions services <->
  match j with
  | EndChild k => k ∈ children
  | CloseSession i => i ∈ sessions
  | StopService i => i ∈ services
  | RemoteCleanup | ReleaseSecrets => True
  end.
Proof.
  assert (forall i, i ∈ rev services <-> i ∈ services) as Hrev by (intros i; rewrite !list_elem_of_In; symmetry; apply in_rev).
  unfold jobs_plan. rewrite !elem_of_app, !list_elem_of_fmap, !list_elem_of_singleton. setoid_rewrite Hrev. destruct j; naive_solver.
Qed.

Lemma job_effects st : reachable st -> forall s j err, (s, j, err) ∈ omap job_of (st_log st) -> job_effect st j err.
Proof.
  apply (rtc_ind_r (fun st => forall s j err, (s, j, err) ∈ omap job_of (st_log st) -> job_effect st j err) initial); [by intros * ?%elem_of_nil|].
  intros st1 st2 Hr [o Ho] IH s j err Hj.
  assert ((s, j, err) ∈ omap job_of (st_log st1) \/ job_effect st2 j err) as [Hold|He].
  { destruct (exec_jobs _ _ _ Ho) as [(s' & outcome & ->)|E]; [|left; by rewrite <- E].
    unfold exec in Ho. destruct (st_crashed st1); [done|]. by destruct (advance_effect _ _ _ _ _ Ho Hj); [left|right]. }
  - destruct (done_in_plan (view_of st1) s j err) as [l Hl]; [by apply reachable_good|done|]. apply elem_of_plan in Hl.
    eapply effect_grows; [by eapply exec_flags| | |by eapply IH]; intros i ->; unfold sessions_of, services_of in Hl;
      apply elem_of_positions in Hl as (x & Hx%lookup_lt_Some & _); cbn in Hx; by rewrite length_fmap in Hx.
  - exact He.
Qed.

Lemma late_closed st : reachable st -> Forall late_ok (st_sessions st).
Proof.
  apply (rtc_ind_r (fun st => Forall late_ok (st_sessions st)) initial); [constructor|]. intros st1 st2 _ [o Ho] IH. by apply (exec_flags _ _ _ Ho).
Qed.

Lemma plan_nodup children sessions services : NoDup children -> NoDup sessions -> NoDup services -> NoDup (jobs_plan children sessions services).
Proof.
  intros H1 H2 H3. unfold jobs_plan.
  assert (NoDup (rev services)) as H4 by (apply NoDup_ListNoDup, NoDup_rev, NoDup_ListNoDup, H3).
  repeat (apply NoDup_app; split_and!); try (apply NoDup_fmap; [|done]; by intros ? ? [=]); try apply NoDup_singleton;
    intros j; rewrite ?elem_of_app, ?list_elem_of_fmap, ?list_elem_of_singleton; naive_solver.
Qed.

Lemma positions_nodup {A} (p : A -> bool) l : NoDup (positions p l).
Proof.
  induction l as [|x l IH] using rev_ind; [constructor|]. rewrite positions_of_snoc. apply NoDup_app. split_and!; [done| |destruct (p x); [apply NoDup_singleton|constructor]].
  intros i (y & Hy%lookup_lt_Some & _)%elem_of_positions. destruct (p x); [|by intros ?%elem_of_nil]. intros ->%list_elem_of_singleton. lia.
Qed.

(** A scope that has ended: its jobs are its whole plan. *)
Lemma ended_plan st s err : reachable st -> end_of st s = Some (Ended err) ->
  exists children, released st s = jobs_plan children (owned_sessions st s) (owned_services st s) /\ NoDup children /\
    (forall k, k ∈ children <-> owned_child st s k) /\ err = Join (Some <$> errors_of (view_of st) s).
Proof.
  intros Hr He. unfold end_of in He. destruct (st_scopes st !! s) as [c|] eqn:Es; [|done]. injection He as He.
  destruct (good_scopes _ (reachable_good st Hr) s _ (core_lookup _ _ _ Es)) as [_ Hw Her]. cbn [co_end core_of] in Hw, Her. unfold pending in Hw. cbn [co_end core_of] in Hw.
  rewrite He in Hw, Her. destruct Hw as (l & Hl & Hnd & Hch). rewrite app_nil_r in Hl. exists l. split_and!; try done. intros k. by rewrite Hch, child_in_owned.
Qed.

Lemma released_elem st s j : j ∈ released st s <-> exists err, Released s j err ∈ st_log st.
Proof.
  unfold released, done_of, entries_of. cbn. rewrite list_elem_of_fmap. setoid_rewrite list_elem_of_filter. setoid_rewrite list_elem_of_omap. split.
  - intros ([[s' j'] err] & -> & <- & r & Hr & E). cbn. exists err. destruct r; try done. by injection E as -> -> ->.
  - intros [err He]. exists (s, j, err). split_and!; try done. by exists (Released s j err).
Qed.

(** *** Failures *)


(** *** Progress *)

(** What whoever ends scopes does. *)
Definition ends (o : op) : bool := match o with OStartEnd _ | OAdvance _ _ => true | _ => false end.

(** What is left to do before every scope has ended. *)
Definition weight (c : scope) : nat :=
  match sc_end c with
  | NotEnded => 3 + length (owned_jobs c)
  | Ending jobs _ => 1 + length jobs
  | Ended _ => 0
  end.

Definition left_over (st : state) : nat := sum_list (weight <$> st_scopes st).

Lemma sum_alter (f : scope -> scope) i l c : l !! i = Some c -> (sum_list (weight <$> alter f i l) + weight c = sum_list (weight <$> l) + weight (f c))%nat.
Proof.
  revert i. induction l as [|d l IH]; intros [|i]; cbn; [done|done|intros [= ->]; lia|]. intros H. specialize (IH i H). lia.
Qed.

Lemma weight_cancel s err cause st : left_over (cancel s err cause st) = left_over st.
Proof.
  unfold left_over, cancel. cbn. rewrite project_propagate by done. f_equal. apply project_alter. intros c. by destruct (sc_ctx c).
Qed.

Lemma ends_decrease o st st' : ends o = true -> exec o st = Some st' -> st_crashed st' = true \/ (left_over st' < left_over st)%nat.
Proof.
  unfold exec. destruct (st_crashed st); [done|]. destruct o; try done; intros _.
  - destruct (may_end s st); [|done]. unfold start_end. destruct (st_scopes st !! s) as [c|] eqn:Es; [|done]. cbn. destruct (sc_end c) eqn:Ee; try done.
    intros [= <-]. right. rewrite weight_cancel. unfold left_over. cbn. match goal with |- (sum_list (weight <$> alter ?f _ _) < _)%nat => pose proof (sum_alter f s _ c Es) as H end.
    unfold weight at 2 4 in H. cbn in H. rewrite Ee in H. lia.
  - unfold advance. destruct (st_scopes st !! s) as [c|] eqn:Es; [|done]. cbn. destruct (sc_end c) as [|jobs errs|] eqn:Ee; try done.
    assert (forall e, (weight (with_end e c) < weight c)%nat -> (sum_list (weight <$> alter (with_end e) s (st_scopes st)) < left_over st)%nat) as Hd.
    { intros e He. pose proof (sum_alter (with_end e) s _ c Es). unfold left_over. lia. }
    destruct jobs as [|[k|i| |i|] jobs].
    + intros [= <-]. right. apply Hd. unfold weight. cbn. rewrite Ee. lia.
    + case_match; [|done]. case_match; try done. intros [= <-]. right. apply Hd. unfold weight. cbn. rewrite Ee. cbn. lia.
    + destruct (st_sessions st !! i); [|done]. cbn. intros [= <-]. right. apply Hd. unfold weight. cbn. rewrite Ee. cbn. lia.
    + destruct (sc_completed c); [|destruct (begun c)]; intros [= <-]; try (by left); right; apply Hd; unfold weight; cbn; rewrite Ee; cbn; lia.
    + intros [= <-]. right. apply Hd. unfold weight. cbn. rewrite Ee. cbn. lia.
    + destruct (sc_completed c); [|destruct (begun c)]; intros [= <-]; try (by left); right; apply Hd; unfold weight; cbn; rewrite Ee; cbn; lia.
Qed.

(** The jobs left are jobs of the plan. *)
Lemma ending_plan st s jobs errs : reachable st -> end_of st s = Some (Ending jobs errs) ->
  exists children, (forall k, k ∈ children <-> owned_child st s k) /\ forall j, j ∈ jobs -> j ∈ jobs_plan children (owned_sessions st s) (owned_services st s).
Proof.
  intros Hr He. unfold end_of in He. destruct (st_scopes st !! s) as [c|] eqn:Es; [|done]. injection He as He.
  destruct (good_scopes _ (reachable_good st Hr) s _ (core_lookup _ _ _ Es)) as [_ Hw _]. unfold pending in Hw. cbn [co_end core_of] in Hw. rewrite He in Hw.
  destruct Hw as (l & Hl & _ & Hch). exists l. split; [intros k; by rewrite Hch, child_in_owned|]. intros j Hj. unfold owned_sessions, owned_services. rewrite <- Hl.
  apply elem_of_app. by right.
Qed.

Lemma ending_progress n st s jobs errs : reachable st -> st_crashed st = false -> (length (st_scopes st) - s <= n)%nat ->
  end_of st s = Some (Ending jobs errs) -> exists o, ends o = true /\ is_Some (exec o st).
Proof.
  intros Hr Hc. revert s jobs errs. induction n as [|n IH]; intros s jobs errs Hn He.
  { unfold end_of in He. destruct (st_scopes st !! s) as [c|] eqn:Es; [|done]. apply lookup_lt_Some in Es. lia. }
  destruct (ending_plan st s jobs errs Hr He) as (l & Hch & Hjobs). pose proof He as He'. unfold end_of in He'.
  destruct (st_scopes st !! s) as [c|] eqn:Es; [|done]. injection He' as He'.
  destruct jobs as [|j jobs].
  { exists (OAdvance s None). split; [done|]. unfold exec, advance. rewrite Hc, Es. cbn. rewrite He'. by eexists. }
  specialize (Hjobs j (list_elem_of_here _ _)). apply elem_of_plan in Hjobs. destruct j as [k|i| |i|].
  - apply Hch in Hjobs as (d & Hd & Hp & _). destruct (sc_end d) as [|jobs' errs'|e] eqn:Ed.
    + exists (OStartEnd k). split; [done|]. unfold exec. rewrite Hc. assert (may_end k st = true) as ->.
      { unfold may_end. rewrite Hd, Hp. cbn. rewrite Es. cbn. by rewrite He', Nat.eqb_refl, !orb_true_r. }
      unfold start_end. rewrite Hd. cbn. rewrite Ed. by eexists.
    + apply (IH k jobs' errs'); [|unfold end_of; rewrite Hd; cbn; by rewrite Ed].
      pose proof (ok_parent _ _ _ (good_scopes _ (reachable_good st Hr) k _ (core_lookup _ _ _ Hd)) s Hp). apply lookup_lt_Some in Es. lia.
    + exists (OAdvance s None). split; [done|]. unfold exec, advance. rewrite Hc, Es. cbn. rewrite He', Hd. cbn. rewrite Ed. by eexists.
  - exists (OAdvance s None). split; [done|]. unfold exec, advance. rewrite Hc, Es. cbn. rewrite He'.
    apply elem_of_positions in Hjobs as (x & Hx & _). cbn in Hx. rewrite list_lookup_fmap in Hx. destruct (st_sessions st !! i); [|done]. by eexists.
  - exists (OAdvance s None). split; [done|]. unfold exec, advance. rewrite Hc, Es. cbn. rewrite He'. destruct (sc_completed c), (begun c); by eexists.
  - exists (OAdvance s None). split; [done|]. unfold exec, advance. rewrite Hc, Es. cbn. rewrite He'. by eexists.
  - exists (OAdvance s None). split; [done|]. unfold exec, advance. rewrite Hc, Es. cbn. rewrite He'. destruct (sc_completed c), (begun c); by eexists.
Qed.

(** ** Theorems *)

(** A descendant that every ancestor on the way had in its list. *)
Definition owned_descendant (st : state) : nat -> nat -> Prop := rtc (owned_child st).

(** C15: when the end of a scope is done, every job of it was done exactly once:
    first each child scope that came before it ended was ended, then its
    sessions were closed in the order they were adopted, then its services were
    stopped in the reverse of the order they were started.  None of its sessions
    is open, not even one that came later, none of those services runs unless
    stopping it failed.  The end of every owned descendant is done: of the
    scopes reached through children that each came before the end of their
    parent took its list; a child that came later is on its own. *)
Theorem scope_releases st s :
  reachable st -> has_ended st s ->
  (exists children, released st s = jobs_plan children (owned_sessions st s) (owned_services st s) /\ (forall k, k ∈ children <-> owned_child st s k)) /\
  NoDup (released st s) /\
  (forall i x, st_sessions st !! i = Some x -> ss_owner x = s -> ss_closed x = true) /\
  (forall i x, i ∈ owned_services st s -> st_services st !! i = Some x -> sv_exited x = true \/ exists e, failed st s (StopService i) e) /\
  (forall k, owned_descendant st s k -> has_ended st k).
Proof.
  intros Hr He. pose proof He as [err Herr]. destruct (ended_plan st s err Hr Herr) as (l & Hl & Hnd & Hch & _).
  assert (forall j, j ∈ released st s -> exists e, Released s j e ∈ st_log st /\ job_effect st j e) as Heff.
  { intros j Hj. apply list_elem_of_fmap in Hj as ([[s' j'] e] & -> & [Hs Hj]%list_elem_of_filter). exists e. cbn in Hs. subst s'.
    split; [|by eapply job_effects]. apply list_elem_of_omap in Hj as (r & Hin & Er). destruct r; try done. by injection Er as -> -> ->. }
  split_and!.
  - by exists l.
  - rewrite Hl. apply plan_nodup; [done|apply positions_nodup..].
  - intros i x Hx Ho. pose proof (proj1 (Forall_lookup _ _) (late_closed st Hr) i x Hx) as Hlate. destruct (ss_late x) eqn:Elate; [by apply Hlate|].
    destruct (Heff (CloseSession i)) as (e & _ & He'); [|by apply He']. rewrite Hl. apply elem_of_plan, elem_of_positions. exists (s, false). cbn. rewrite list_lookup_fmap, Hx. cbn.
    rewrite Ho, Elate. split; [done|]. by apply bool_decide_true.
  - intros i x Hi Hx. destruct (Heff (StopService i)) as (e & Hrel & He'); [rewrite Hl; by apply elem_of_plan|].
    destruct e as [e|]; [right; by exists e|]. left. by apply He'.
  - intros k Hk. clear l Hl Hnd Hch Heff err Herr. induction Hk as [|s k k' Hk _ IH]; [done|]. apply IH. destruct He as [err Herr].
    destruct (ended_plan st s err Hr Herr) as (l & Hl & _ & Hch & _). assert (EndChild k ∈ released st s) as Hj by (rewrite Hl; by apply elem_of_plan, Hch).
    apply list_elem_of_fmap in Hj as ([[s' j] e] & Ej & [_ Hj]%list_elem_of_filter). cbn in Ej. subst j.
    destruct (good_children _ (reachable_good st Hr) _ _ _ Hj) as (d & e' & (c & Hc & ->)%core_lookup_inv & Hend). exists e'. unfold end_of. by rewrite Hc, <- Hend.
Qed.

Lemma scope_releases_witness :
  released (after ending_run) 0 = [EndChild 1; CloseSession 1; RemoteCleanup; StopService 1; StopService 0; ReleaseSecrets] /\
  NoDup (released (after ending_run) 0) /\ (forall i x, st_sessions (after ending_run) !! i = Some x -> ss_owner x = 0%nat -> ss_closed x = true).
Proof.
  split; [vm_compute; reflexivity|].
  destruct (scope_releases (after ending_run) 0) as (_ & Hn & Hs & _); [apply after_reachable|eexists; vm_compute; reflexivity|]. by split.
Defined.

(** C16: an end is never stuck: as long as a scope is ending, whoever ends scopes
    can do something, whatever is blocked elsewhere; and since each thing they do
    leaves less to do, an end is done after finitely many of them, unless the
    process crashes. *)
Theorem scope_end_progresses st :
  reachable st -> st_crashed st = false ->
  (forall s jobs errs, end_of st s = Some (Ending jobs errs) -> exists o, ends o = true /\ is_Some (exec o st)) /\
  (forall o st', ends o = true -> exec o st = Some st' -> st_crashed st' = true \/ (left_over st' < left_over st)%nat).
Proof.
  intros Hr Hc. split; [|intros o st'; apply ends_decrease]. intros s jobs errs. by apply (ending_progress (length (st_scopes st) - s)).
Qed.

Lemma scope_end_progresses_witness :
  end_of (after (take 19 ending_run)) 0 = Some NotEnded /\ end_of (after (take 20 ending_run)) 0 <> Some NotEnded /\
  exists o, ends o = true /\ is_Some (exec o (after (take 20 ending_run))).
Proof.
  split; [vm_compute; reflexivity|]. split; [by vm_compute|].
  destruct (scope_end_progresses (after (take 20 ending_run))) as [H _]; [apply after_reachable|vm_compute; reflexivity|].
  apply (H 0%nat [EndChild 1; CloseSession 1; RemoteCleanup; StopService 1; StopService 0; ReleaseSecrets] []). vm_compute. reflexivity.
Defined.


