(* ===== verification/ScopeProps.v ===== *)
(** * Messages, cancellation, and what goes wrong

    Messages for the planner of a loop are recorded in the order they were
    accepted, each once, as long as the loop's scope has not ended;
    cancellation reaches everything below a scope; and two runs show where the
    code falls short of its comments. *)

From S2P Require Import Prelude GoText Scopes ScopeInv ScopeEnds.
From Stdlib Require Import Ascii.

Open Scope Z_scope.

(** ** Definitions *)

(** The messages accepted for a scope's planner, and those recorded as landed or
    as dropped, in order. *)
Definition accepted (st : state) (s : nat) : list string :=
  omap (fun r => match r with Accepted s' m => if Nat.eqb s' s then Some m else None | _ => None end) (st_log st).

Definition recorded (st : state) (s : nat) : list string :=
  omap (fun r => match r with Steer s' m _ => if Nat.eqb s' s then Some m else None | _ => None end) (st_log st).

(** [k] is [s] or below it. *)
Definition child_of (st : state) (s k : nat) : Prop := exists c, st_scopes st !! k = Some c /\ sc_parent c = Some s.
Definition below (st : state) : nat -> nat -> Prop := rtc (child_of st).

(** *** What the messages depend on *)

Definition mail_of (r : record) : bool := match r with Accepted _ _ | Steer _ _ _ => true | _ => false end.

Definition mails (st : state) : list record := filter (fun r => mail_of r = true) (st_log st).

Definition mailbox (c : scope) : list string * bool := (sc_messages c, is_ended c).

Definition mail_ok (st : state) (s : nat) (c : scope) : Prop :=
  if is_ended c then sc_messages c = [] /\ recorded st s `prefix_of` accepted st s else accepted st s = recorded st s ++ sc_messages c.

(** ** Lemmas *)

Lemma omap_mails {A} (f : record -> option A) (l : list record) : (forall r, mail_of r = false -> f r = None) -> omap f (filter (fun r => mail_of r = true) l) = omap f l.
Proof.
  intros Hf. induction l as [|r l IH]; [done|]. destruct (mail_of r) eqn:E.
  - rewrite filter_cons_True by done. cbn. by rewrite IH.
  - rewrite filter_cons_False by congruence. cbn. by rewrite (Hf r E).
Qed.

Lemma accepted_mails st s : accepted st s = omap (fun r => match r with Accepted s' m => if Nat.eqb s' s then Some m else None | _ => None end) (mails st).
Proof. unfold accepted, mails. rewrite omap_mails; [done|]. by intros []. Qed.

Lemma recorded_mails st s : recorded st s = omap (fun r => match r with Steer s' m _ => if Nat.eqb s' s then Some m else None | _ => None end) (mails st).
Proof. unfold recorded, mails. rewrite omap_mails; [done|]. by intros []. Qed.

Lemma mails_event r st : mail_of r = false -> mails (event r st) = mails st.
Proof. intros H. unfold mails. cbn. rewrite filter_app, filter_cons_False by congruence. by rewrite filter_nil, app_nil_r. Qed.

Lemma mails_log r st st' : st_log st' = st_log st ++ [r] -> mail_of r = false -> mails st' = mails st.
Proof. intros H Hr. rewrite <- (mails_event r st Hr). unfold mails. by rewrite H. Qed.

(** Most steps touch neither a mailbox nor a message. *)
Definition quiet (st st' : state) : Prop := mails st' = mails st /\ mailbox <$> st_scopes st' = mailbox <$> st_scopes st.

Lemma mailbox_cancel s err cause st : quiet st (cancel s err cause st).
Proof. split; [done|]. unfold cancel. cbn. rewrite project_propagate by done. apply project_alter. intros c. by destruct (sc_ctx c). Qed.

Lemma quiet_trans st1 st2 st3 : quiet st1 st2 -> quiet st2 st3 -> quiet st1 st3.
Proof. intros [A1 A2] [B1 B2]. split; congruence. Qed.

Lemma quiet_on s f st : (forall c, mailbox (f c) = mailbox c) -> quiet st (on s f st).
Proof. intros H. split; [done|]. by apply project_alter. Qed.

Lemma quiet_event r st : mail_of r = false -> quiet st (event r st).
Proof. intros H. split; [by apply mails_event|done]. Qed.

Lemma quiet_fail s err st st' : failService s err st = Some st' -> quiet st st'.
Proof.
  unfold failService. destruct (st_scopes st !! s) as [c|]; [|done]. cbn. destruct (sc_serviceErr c); intros [= <-]; [done|].
  eapply quiet_trans; [|apply mailbox_cancel]. by apply quiet_on.
Qed.

Lemma quiet_start_context i loop st st' : start_context i loop st = Some st' -> quiet st st'.
Proof. intros (c & _ & _ & ->)%start_context_inv. split; [done|]. cbn. rewrite project_propagate by done. by apply project_alter. Qed.

Lemma quiet_register i st st' : register i st = Some st' -> quiet st st'.
Proof. intros (c & _ & ->)%register_inv. by apply (quiet_event (ScopeBegan i) (with_live (<[sc_key c := i]> (st_live st)) st)). Qed.

Lemma quiet_begin i loop st st' : begin i loop st = Some st' -> quiet st st'.
Proof. apply (begin_ind quiet quiet_trans quiet_start_context quiet_register). Qed.

Lemma quiet_advance s outcome st st' : advance s outcome st = Some st' -> quiet st st'.
Proof.
  unfold advance. destruct (st_scopes st !! s) as [c|] eqn:Es; [|done]. cbn. destruct (sc_end c) as [|jobs errs|] eqn:Ee; try done.
  assert (forall e, e <> NotEnded -> mailbox <$> alter (with_end e) s (st_scopes st) = mailbox <$> st_scopes st) as Hm.
  { intros e He. apply list_eq. intros i. rewrite !list_lookup_fmap, list_lookup_alter. case_decide as E; [|done]. subst. rewrite Es. cbn. unfold mailbox, is_ended. cbn.
    rewrite Ee. by destruct e. }
  assert (forall e j err (st1 : state), e <> NotEnded -> st_scopes st1 = st_scopes st -> st_log st1 = st_log st ->
    quiet st (event (Released s j err) (on s (with_end e) st1))) as Hq.
  { intros e j err st1 He H1 H2. split.
    - rewrite mails_event by done. unfold mails. cbn. by rewrite H2.
    - cbn. rewrite H1. by apply Hm. }
  destruct jobs as [|[k|i| |i|] jobs].
  - intros [= <-]. split; [done|]. by apply Hm.
  - case_match; [|done]. case_match; try done. intros [= <-]. by apply Hq.
  - destruct (st_sessions st !! i); [|done]. cbn. intros [= <-]. by apply Hq.
  - destruct (sc_completed c); [|destruct (begun c)]; intros [= <-]; try (by apply Hq); done.
  - intros [= <-]. by apply Hq.
  - destruct (sc_completed c); [|destruct (begun c)]; intros [= <-]; try (by apply Hq); done.
Qed.

(** The steps that do. *)
Definition mail_op (o : op) : bool := match o with OName _ _ _ | OQueue _ _ | OTake _ | OEndDispatch _ | OStartEnd _ => true | _ => false end.

Lemma exec_quiet o st st' : mail_op o = false -> exec o st = Some st' -> quiet st st'.
Proof.
  unfold exec. destruct (st_crashed st); [done|].
  destruct o as [p name completed|i|i loop|i|i|s name|s id|i|s|s err|i err|s m|s|s|s key raw|key cause|g err|s err|s|s|s outcome|s]; try done; intros _ Ho.
  - unfold attach_child in Ho. open_op Ho; split; try done; cbn; by rewrite !project_alter.
  - by eapply quiet_begin.
  - by eapply quiet_start_context.
  - by eapply quiet_register, group_register_inv.
  - unfold name_session in Ho. open_op Ho; by apply quiet_on.
  - unfold adopt in Ho. open_op Ho; by apply quiet_on.
  - unfold allocate in Ho. open_op Ho; [by apply (quiet_event _ (on_sessions _ st))|done].
  - unfold adoptService in Ho. open_op Ho; by apply quiet_on.
  - by eapply quiet_fail.
  - unfold service_exits in Ho. destruct (st_services st !! i) as [v|]; [|done]. cbn in Ho. destruct (sv_exited v); [done|]. destruct (sv_stopping v); [by injection Ho as <-|].
    apply quiet_fail in Ho. exact Ho.
  - unfold store in Ho. open_op Ho. eapply quiet_trans; [|by apply quiet_event]. by apply quiet_on.
  - unfold CancelScope in Ho. open_op Ho; [done| |]; (eapply quiet_trans; [|apply mailbox_cancel]); (split; [by eapply mails_log|done]).
  - unfold group_error in Ho. destruct (st_scopes st !! g) as [c|]; [|done]. cbn in Ho. injection Ho as <-.
    set (f := fun c => match sc_groupErr c with Some _ => c | None => _ end). assert (quiet st (on g f st)) as Hq by (apply quiet_on; intros d; unfold f; by destruct (sc_groupErr d)).
    destruct (as_killed err); [done|]. eapply quiet_trans; [done|]. apply mailbox_cancel.
  - unfold body_returns in Ho. open_op Ho; by apply quiet_on.
  - unfold body_panics in Ho. open_op Ho; by apply quiet_on.
  - by eapply quiet_advance.
  - unfold finish in Ho. open_op Ho. eapply quiet_trans; [|by apply quiet_event]. by apply quiet_on.
Qed.

Record mail_inv (st : state) : Prop := {
  mi_scopes : forall s c, st_scopes st !! s = Some c -> mail_ok st s c;
  mi_new : forall s, st_scopes st !! s = None -> accepted st s = [] /\ recorded st s = [];
}.

Lemma mail_ok_same st st' s c c' : mails st' = mails st -> mailbox c' = mailbox c -> mail_ok st s c -> mail_ok st' s c'.
Proof.
  intros Hm Hb. pose proof (f_equal fst Hb) as H1. pose proof (f_equal snd Hb) as H2. cbn in H1, H2.
  unfold mail_ok. rewrite !accepted_mails, !recorded_mails, Hm, H1, H2. done.
Qed.

Lemma mailbox_lookup (l l' : list scope) (s : nat) c' : mailbox <$> l' = mailbox <$> l -> l' !! s = Some c' -> exists c, l !! s = Some c /\ mailbox c' = mailbox c.
Proof.
  intros E Hs. assert ((mailbox <$> l) !! s = Some (mailbox c')) as H by (by rewrite <- E, list_lookup_fmap, Hs). rewrite list_lookup_fmap in H.
  destruct (l !! s) as [c|]; [|done]. exists c. split; [done|]. cbn in H. congruence.
Qed.

Lemma mail_quiet st st' : quiet st st' -> mail_inv st -> mail_inv st'.
Proof.
  intros [Hm Hb] [H1 H2]. split.
  - intros s c' Hs. destruct (mailbox_lookup _ _ _ _ Hb Hs) as (c & Hc & E). eapply mail_ok_same; eauto.
  - intros s Hs. rewrite !accepted_mails, !recorded_mails, Hm, <- accepted_mails, <- recorded_mails. apply H2.
    apply lookup_ge_None in Hs. apply lookup_ge_None. apply (f_equal length) in Hb. rewrite !length_fmap in Hb. lia.
Qed.

(** A step that changes one mailbox and records messages of its scope. *)
Lemma mail_change s c f l st st' :
  st_scopes st !! s = Some c -> mailbox <$> st_scopes st' = mailbox <$> alter f s (st_scopes st) -> st_log st' = st_log st ++ l ->
  Forall (fun r => match r with Accepted s' _ | Steer s' _ _ => s' = s | _ => False end) l ->
  (mail_ok st s c -> mail_ok st' s (f c)) -> mail_inv st -> mail_inv st'.
Proof.
  intros Hs Hb Hlog Hl Hok [H1 H2].
  assert (forall s', s' <> s -> accepted st' s' = accepted st s' /\ recorded st' s' = recorded st s') as Hother.
  { intros s' Hne. unfold accepted, recorded. rewrite Hlog, !omap_app. clear -Hl Hne.
    assert (forall f, (forall r, match r with Accepted s1 _ | Steer s1 _ _ => s1 = s | _ => False end -> f r = None) -> omap f l = ([] : list string)) as Hnil.
    { intros f Hf. induction Hl as [|r l Hr _ IH]; [done|]. cbn. by rewrite Hf, IH. }
    assert (Nat.eqb s s' = false) as E by (apply Nat.eqb_neq; congruence).
    rewrite !Hnil, !app_nil_r; [done| |]; intros [] Hr; try done; subst; by rewrite ?E. }
  split.
  - intros s' c' Hs'. destruct (mailbox_lookup _ _ _ _ Hb Hs') as (d & Hd & E). rewrite list_lookup_alter in Hd. case_decide as Es.
    + subst s'. rewrite Hs in Hd. injection Hd as <-. eapply mail_ok_same; [done|exact E|]. by apply Hok, H1.
    + destruct (Hother s') as [Ha Hr]; [done|]. specialize (H1 s' d Hd). pose proof (f_equal fst E) as E1. pose proof (f_equal snd E) as E2. cbn in E1, E2. unfold mail_ok in *.
      by rewrite Ha, Hr, E1, E2.
  - intros s' Hs'. destruct (Hother s') as [-> ->].
    + intros ->. apply lookup_ge_None in Hs'. apply lookup_lt_Some in Hs. apply (f_equal length) in Hb. rewrite !length_fmap, length_alter in Hb. lia.
    + apply H2. apply lookup_ge_None in Hs'. apply lookup_ge_None. apply (f_equal length) in Hb. rewrite !length_fmap, length_alter in Hb. lia.
Qed.

(** Reading the queue into the record. *)
Lemma mail_recorded s landed (ms : list string) st st' : st_log st' = st_log st ++ ((fun m => Steer s m landed) <$> ms) ->
  accepted st' s = accepted st s /\ recorded st' s = recorded st s ++ ms.
Proof.
  intros E. unfold accepted, recorded. rewrite E, !omap_app. split.
  - rewrite <- (app_nil_r (omap _ (st_log st))) at 2. f_equal. clear E. by induction ms.
  - f_equal. clear E. induction ms as [|m ms IH]; [done|]. cbn. rewrite Nat.eqb_refl. by f_equal.
Qed.

Lemma exec_mail o st st' : mail_inv st -> exec o st = Some st' -> mail_inv st'.
Proof.
  intros Hm Ho. destruct (mail_op o) eqn:Eo; [|by eapply mail_quiet; [eapply exec_quiet|]].
  unfold exec in Ho. destruct (st_crashed st); [done|]. destruct o as [p name completed| | | | | | | | | | |s m|s|s| | | | | |s| |]; try done.
  - unfold name_child in Ho. destruct (st_scopes st !! p) as [c|] eqn:Ep; [|done]. cbn in Ho. destruct (begun c); [|done]. injection Ho as <-. destruct Hm as [H1 H2]. split.
    + intros s d Hs. cbn in Hs. apply lookup_app_Some in Hs as [Hs|[Hge Hs]].
      * assert (mailbox <$> <[p:=set_bag c (<[name:=default 0 (sc_ordinals c !! name) + 1]> (sc_ordinals c)) (sc_keys c) (sc_values c)]> (st_scopes st) = mailbox <$> st_scopes st) as E.
        { rewrite list_fmap_insert. apply list_insert_id. by rewrite list_lookup_fmap, Ep. }
        destruct (mailbox_lookup _ _ _ _ E Hs) as (c' & Hc' & E'). eapply mail_ok_same; [done|exact E'|by apply H1].
      * apply list_lookup_singleton_Some in Hs as [_ <-]. destruct (H2 s) as [Ha Hr]; [rewrite length_insert in Hge; by apply lookup_ge_None|].
        unfold mail_ok. cbn. unfold accepted, recorded in *. cbn. by rewrite Ha, Hr.
    + intros s Hs. apply (H2 s). apply lookup_ge_None in Hs. cbn in Hs. rewrite length_app, length_insert in Hs. apply lookup_ge_None. lia.
  - unfold queueMessage in Ho. destruct (st_scopes st !! s) as [c|] eqn:Es; [|done]. cbn in Ho. destruct (negb _ || _) eqn:Eb; injection Ho as <-; [done|].
    apply orb_false_iff in Eb as [_ Eb].
    eapply (mail_change s c (fun c => set_mail c (sc_dispatching c) (sc_messages c ++ [m])) [Accepted s m]); try done; [by repeat constructor|].
    unfold mail_ok. cbn. change (is_ended (set_mail c _ _)) with (is_ended c). rewrite Eb. unfold accepted, recorded. cbn. rewrite !omap_app. cbn. rewrite Nat.eqb_refl, app_nil_r. intros ->.
    by rewrite app_assoc.
  - unfold takeMessages in Ho. destruct (st_scopes st !! s) as [c|] eqn:Es; [|done]. injection Ho as <-.
    eapply (mail_change s c (fun c => set_mail c (sc_dispatching c) [])); try done; [by apply Forall_fmap, Forall_true|].
    unfold mail_ok. change (is_ended (set_mail c _ _)) with (is_ended c). cbn [sc_messages set_mail].
    match goal with |- context [accepted (events ?l ?x) s] => destruct (mail_recorded s true (sc_messages c) x (events l x) eq_refl) as [Ha Hr] end.
    rewrite Ha, Hr. change (accepted (on _ _ _) s) with (accepted st s). change (recorded (on _ _ _) s) with (recorded st s).
    destruct (is_ended c); [intros [-> H]; by rewrite app_nil_r|]. intros ->. by rewrite app_nil_r.
  - unfold endDispatch in Ho. destruct (st_scopes st !! s) as [c|] eqn:Es; [|done]. injection Ho as <-.
    eapply (mail_change s c (fun c => set_mail c false [])); try done; [by apply Forall_fmap, Forall_true|].
    unfold mail_ok. change (is_ended (set_mail c _ _)) with (is_ended c). cbn [sc_messages set_mail].
    match goal with |- context [accepted (events ?l ?x) s] => destruct (mail_recorded s false (sc_messages c) x (events l x) eq_refl) as [Ha Hr] end.
    rewrite Ha, Hr. change (accepted (on _ _ _) s) with (accepted st s). change (recorded (on _ _ _) s) with (recorded st s).
    destruct (is_ended c); [intros [-> H]; by rewrite app_nil_r|]. intros ->. by rewrite app_nil_r.
  - destruct (may_end s st); [|done]. unfold start_end in Ho. destruct (st_scopes st !! s) as [c|] eqn:Es; [|done]. cbn in Ho. destruct (sc_end c) eqn:Ee; try done. injection Ho as <-.
    eapply mail_quiet; [apply mailbox_cancel|].
    eapply (mail_change s c _ []); [exact Es|cbn; done|cbn; by rewrite app_nil_r|constructor| |done].
    unfold mail_ok. cbn. unfold is_ended at 1. rewrite Ee. unfold accepted, recorded. cbn. intros ->. split; [done|]. by eexists.
Qed.

Lemma reachable_mail st : reachable st -> mail_inv st.
Proof.
  apply (rtc_ind_r mail_inv initial).
  - split; [|done]. intros [|s] c; [|done]. by intros [= <-].
  - intros st1 st2 _ [o Ho] IH. by eapply exec_mail.
Qed.

(** *** Cancellation *)

(** A running context is not under a cancelled one, and a scope is made after
    its parent has begun. *)
Definition closed (l : list scope) : Prop := forall i c p d,
  l !! i = Some c -> sc_parent c = Some p -> l !! p = Some d ->
  begun d = true /\ (sc_ctx c = Live -> is_cancelled d = false).

Definition parents_before (l : list scope) : Prop := forall i c p, l !! i = Some c -> sc_parent c = Some p -> (p < i)%nat /\ is_Some (l !! p).

Lemma inherited_parent acc c : sc_parent (inherited acc c) = sc_parent c.
Proof. unfold inherited. by repeat case_match. Qed.

Lemma inherited_begun acc c : begun (inherited acc c) = begun c.
Proof.
  unfold inherited. destruct (sc_ctx c) eqn:Ec; [done| |done]. case_match; [|done]. case_match; try done. unfold begun. by rewrite Ec.
Qed.

Lemma propagate_inv l i c : propagate l !! i = Some c -> exists d, l !! i = Some d /\ c = inherited (take i (propagate l)) d.
Proof.
  intros H. destruct (l !! i) as [d|] eqn:Ed; [|apply lookup_lt_Some in H; rewrite length_propagate in H; apply lookup_ge_None in Ed; lia].
  exists d. split; [done|]. rewrite (propagate_lookup l i d Ed) in H. by injection H.
Qed.

Lemma closed_propagate l : parents_before l -> (forall i c p d, l !! i = Some c -> sc_parent c = Some p -> l !! p = Some d -> begun d = true) ->
  closed (propagate l).
Proof.
  intros Hp Hb i c p d Hc Hpar Hd. destruct (propagate_inv _ _ _ Hc) as (c0 & Hc0 & ->). pose proof Hd as Hd'. destruct (propagate_inv _ _ _ Hd') as (d0 & Hd0 & Ed).
  rewrite inherited_parent in Hpar. split.
  - rewrite Ed, inherited_begun. exact (Hb _ _ _ _ Hc0 Hpar Hd0).
  - destruct (Hp _ _ _ Hc0 Hpar) as [Hlt _]. unfold inherited. rewrite Hpar. cbn. rewrite lookup_take_lt, Hd by done. cbn.
    unfold is_cancelled. destruct (sc_ctx c0) eqn:E0; [congruence| |congruence]. by destruct (sc_ctx d).
Qed.

(** Being closed is about the parents and the contexts. *)
Definition tie (c : scope) : option nat * context := (sc_parent c, sc_ctx c).

Lemma tie_lookup (l l' : list scope) i c' : tie <$> l' = tie <$> l -> l' !! i = Some c' ->
  exists c, l !! i = Some c /\ sc_parent c' = sc_parent c /\ sc_ctx c' = sc_ctx c.
Proof.
  intros E Hs. assert ((tie <$> l) !! i = Some (tie c')) as H by (by rewrite <- E, list_lookup_fmap, Hs). rewrite list_lookup_fmap in H.
  destruct (l !! i) as [c|]; [|done]. exists c. cbn in H. by injection H as -> ->.
Qed.

Lemma closed_tie l l' : tie <$> l' = tie <$> l -> closed l -> closed l'.
Proof.
  intros E H i c p d Hc Hp Hd. destruct (tie_lookup _ _ _ _ E Hc) as (c0 & Hc0 & Ep & Ec). destruct (tie_lookup _ _ _ _ E Hd) as (d0 & Hd0 & _ & Ed).
  unfold begun, is_cancelled. rewrite ?Ec, Ed. rewrite Ep in Hp. exact (H i c0 p d0 Hc0 Hp Hd0).
Qed.

Lemma reachable_parents st : reachable st -> parents_before (st_scopes st).
Proof.
  intros Hr i c p Hc Hp. pose proof (ok_parent _ _ _ (good_scopes _ (reachable_good st Hr) i _ (core_lookup _ _ _ Hc)) p Hp) as Hlt. split; [done|].
  apply lookup_lt_is_Some. apply lookup_lt_Some in Hc. lia.
Qed.

Lemma parents_tie l l' : tie <$> l' = tie <$> l -> parents_before l -> parents_before l'.
Proof.
  intros E H i c p Hc Hp. destruct (tie_lookup _ _ _ _ E Hc) as (c0 & Hc0 & Ep & _). rewrite Ep in Hp. destruct (H i c0 p Hc0 Hp) as [Hlt Hs]. split; [done|].
  apply lookup_lt_is_Some. apply lookup_lt_is_Some in Hs. apply (f_equal length) in E. rewrite !length_fmap in E. lia.
Qed.

(** Cancelling one scope of a closed tree leaves it closed. *)
Lemma closed_cancel s err cause st : parents_before (st_scopes st) -> closed (st_scopes st) -> closed (st_scopes (cancel s err cause st)).
Proof.
  intros Hp Hc. unfold cancel. cbn. set (f := fun c => match sc_ctx c with Live => _ | _ => c end).
  assert (forall c, sc_parent (f c) = sc_parent c /\ begun (f c) = begun c) as Hf by (intros c; unfold f, begun; destruct (sc_ctx c) eqn:E; cbn; by rewrite ?E).
  assert (forall i c', alter f s (st_scopes st) !! i = Some c' -> exists c, st_scopes st !! i = Some c /\ sc_parent c' = sc_parent c /\ begun c' = begun c) as Hl.
  { intros i c'. rewrite list_lookup_alter. case_decide as E; [|intros; by exists c']. subst. destruct (st_scopes st !! i) as [c|]; [|done]. intros [= <-].
    exists c. split; [done|]. apply Hf. }
  apply closed_propagate.
  - intros i c p Hi Hpar. destruct (Hl _ _ Hi) as (c0 & Hc0 & Ep & _). rewrite Ep in Hpar. destruct (Hp _ _ _ Hc0 Hpar) as [Hlt Hs]. split; [done|].
    apply lookup_lt_is_Some. rewrite length_alter. by apply lookup_lt_is_Some.
  - intros i c p d Hi Hpar Hd. destruct (Hl _ _ Hi) as (c0 & Hc0 & Ep & Eb). destruct (Hl _ _ Hd) as (d0 & Hd0 & _ & Ed).
    rewrite Ep in Hpar. rewrite Ed. by apply (Hc i c0 p d0).
Qed.

Lemma closed_on s f st : (forall c, tie (f c) = tie c) -> closed (st_scopes st) -> closed (st_scopes (on s f st)).
Proof. intros H. apply closed_tie. by apply project_alter. Qed.

Lemma closed_fail s err st st' : parents_before (st_scopes st) -> failService s err st = Some st' -> closed (st_scopes st) -> closed (st_scopes st').
Proof.
  intros Hp. unfold failService. destruct (st_scopes st !! s) as [c|]; [|done]. cbn. destruct (sc_serviceErr c); intros [= <-]; [done|]. intros H.
  apply closed_cancel; [|by apply closed_on]. eapply parents_tie; [|exact Hp]. by apply project_alter.
Qed.

Lemma closed_start_context i loop st st' : parents_before (st_scopes st) -> start_context i loop st = Some st' -> closed (st_scopes st) -> closed (st_scopes st').
Proof.
  intros Hp (c & Ei & Ec & ->)%start_context_inv Hc. cbn.
  assert (forall j c', alter (started loop) i (st_scopes st) !! j = Some c' -> exists c, st_scopes st !! j = Some c /\ sc_parent c' = sc_parent c) as Hl.
  { intros j c'. rewrite list_lookup_alter. case_decide as E; [|intros; by exists c']. subst. destruct (st_scopes st !! j) as [d|]; [|done]. intros [= <-]. by exists d. }
  apply closed_propagate.
  - intros j d p Hj Hpar. destruct (Hl _ _ Hj) as (d0 & Hd0 & Ep). rewrite Ep in Hpar. destruct (Hp _ _ _ Hd0 Hpar) as [Hlt Hs]. split; [done|].
    apply lookup_lt_is_Some. rewrite length_alter. by apply lookup_lt_is_Some.
  - intros j d p e Hj Hpar He. destruct (Hl _ _ Hj) as (d0 & Hd0 & Ep). rewrite Ep in Hpar. rewrite list_lookup_alter in He. case_decide as E.
    + subst. rewrite Ei in He. by injection He as <-.
    + by apply (Hc j d0 p e).
Qed.

Lemma exec_closed o st st' : parents_before (st_scopes st) -> exec o st = Some st' -> closed (st_scopes st) -> closed (st_scopes st').
Proof.
  intros Hp Ho Hc. unfold exec in Ho. destruct (st_crashed st); [done|].
  destruct o as [p name completed|i|i loop|i|i|s name|s id|i|s|s err|i err|s m|s|s|s key raw|key cause|g err|s err|s|s|s outcome|s].
  - unfold name_child in Ho. destruct (st_scopes st !! p) as [c|] eqn:Ep; [|done]. cbn in Ho. destruct (begun c) eqn:Eb; [|done]. injection Ho as <-. cbn.
    set (c1 := set_bag c _ _ _). assert (tie <$> <[p := c1]> (st_scopes st) = tie <$> st_scopes st) as E.
    { rewrite list_fmap_insert. apply list_insert_id. by rewrite list_lookup_fmap, Ep. }
    apply (closed_tie _ _ E) in Hc. intros i d q e Hd Hq He.
    pose proof (parents_tie _ _ E Hp) as Hp'. apply lookup_app_Some in Hd as [Hd|[Hge Hd]].
    + destruct (Hp' i d q Hd Hq) as [_ [e' He']]. rewrite (lookup_app_l_Some _ _ _ _ He') in He. injection He as <-. by apply (Hc i d q e').
    + apply list_lookup_singleton_Some in Hd as [_ <-]. injection Hq as <-.
      rewrite lookup_app_l, list_lookup_insert_eq in He by (rewrite ?length_insert; by eapply lookup_lt_Some). by injection He as <-.
  - unfold attach_child in Ho. open_op Ho; (eapply closed_tie; [|exact Hc]); rewrite project_alter by done; by apply project_alter.
  - apply begin_inv in Ho as (st1 & Hs & (c & _ & ->)%register_inv). exact (closed_start_context i loop st st1 Hp Hs Hc).
  - exact (closed_start_context i false st st' Hp Ho Hc).
  - by apply group_register_inv, register_inv in Ho as (c & _ & ->).
  - unfold name_session in Ho. open_op Ho; by apply closed_on.
  - unfold adopt in Ho. open_op Ho; by apply closed_on.
  - unfold allocate in Ho. by open_op Ho.
  - unfold adoptService in Ho. open_op Ho; by apply closed_on.
  - by eapply closed_fail.
  - unfold service_exits in Ho. destruct (st_services st !! i) as [v|]; [|done]. cbn in Ho. destruct (sv_exited v); [done|]. destruct (sv_stopping v); [by injection Ho as <-|].
    by eapply (closed_fail _ _ (on_services _ st)).
  - unfold queueMessage in Ho. open_op Ho; [done|]. by apply closed_on.
  - unfold takeMessages in Ho. open_op Ho. by apply closed_on.
  - unfold endDispatch in Ho. open_op Ho. by apply closed_on.
  - unfold store in Ho. open_op Ho. by apply closed_on.
  - unfold CancelScope in Ho. open_op Ho; try done; by apply closed_cancel.
  - unfold group_error in Ho. destruct (st_scopes st !! g) as [c|]; [|done]. cbn in Ho. injection Ho as <-.
    set (f := fun c => match sc_groupErr c with Some _ => c | None => _ end). assert (forall d, tie (f d) = tie d) as Hf by (intros d; unfold f; by destruct (sc_groupErr d)).
    destruct (as_killed err); [by apply closed_on|]. apply closed_cancel; [|by apply closed_on]. eapply parents_tie; [|exact Hp]. by apply project_alter.
  - unfold body_returns in Ho. open_op Ho; by apply closed_on.
  - unfold body_panics in Ho. open_op Ho; by apply closed_on.
  - destruct (may_end s st); [|done]. unfold start_end in Ho. destruct (st_scopes st !! s) as [c|]; [|done]. cbn in Ho. destruct (sc_end c); try done. injection Ho as <-.
    apply closed_cancel; cbn; [eapply parents_tie; [|exact Hp]|eapply closed_tie; [|exact Hc]]; by apply project_alter.
  - unfold advance in Ho. open_op Ho; try done; (eapply closed_tie; [|exact Hc]); by apply project_alter.
  - unfold finish in Ho. open_op Ho. by apply closed_on.
Qed.

Lemma reachable_closed st : reachable st -> closed (st_scopes st).
Proof.
  apply (rtc_ind_r (fun st => closed (st_scopes st)) initial).
  - intros [|i] c p d; [|done]. by intros [= <-].
  - intros st1 st2 Hr [o Ho] IH. eapply exec_closed; [by apply reachable_parents|done|done].
Qed.

(** What cancelling a scope of a closed tree does to every scope. *)
Lemma cancel_lookup s err cause st : parents_before (st_scopes st) -> closed (st_scopes st) -> forall k c, st_scopes st !! k = Some c ->
  exists c', st_scopes (cancel s err cause st) !! k = Some c' /\
    match sc_ctx c with
    | Live => below st s k /\ c' = with_ctx (Cancelled err cause) c \/ ~ below st s k /\ c' = c
    | _ => c' = c
    end.
Proof.
  intros Hp Hcl. set (f := fun c => match sc_ctx c with Live => with_ctx (Cancelled err cause) c | _ => c end).
  induction k as [k IH] using lt_wf_ind. intros c Hk.
  change (st_scopes (cancel s err cause st)) with (propagate (alter f s (st_scopes st))) in *.
  assert (alter f s (st_scopes st) !! k = Some (if decide (s = k) then f c else c)) as Hk'.
  { rewrite list_lookup_alter. case_decide as E; [|done]. subst. by rewrite Hk. }
  rewrite (propagate_lookup _ _ _ Hk'). eexists. split; [done|]. unfold inherited.
  destruct (sc_ctx c) eqn:Ec.
  - assert ((if decide (s = k) then f c else c) = c) as -> by (case_decide; [unfold f; by rewrite Ec|done]). by rewrite Ec.
  - case_decide as E.
    + subst. left. unfold f. rewrite Ec. cbn. split; [apply rtc_refl|done].
    + rewrite Ec. destruct (sc_parent c) as [p|] eqn:Epar; cbn.
      * destruct (Hp _ _ _ Hk Epar) as [Hlt [d Hd]]. destruct (Hcl _ _ _ _ Hk Epar Hd) as [Hb Hl]. specialize (Hl Ec).
        destruct (IH p Hlt d Hd) as (d' & Hd' & Hctx). rewrite lookup_take_lt, Hd' by done. cbn.
        destruct (sc_ctx d) eqn:Ed; unfold begun, is_cancelled in *; rewrite Ed in *; try done. destruct Hctx as [[Hbelow ->]|[Hbelow ->]]; cbn.
        -- left. split; [|done]. eapply rtc_r; [exact Hbelow|]. by exists c.
        -- rewrite Ed. right. split; [|done]. intros [->|(p' & Hp' & c0 & Hc0 & Epar')]%rtc_inv_r; [done|]. by simplify_eq.
      * right. split; [|done]. intros [->|(p' & Hp' & c0 & Hc0 & Epar')]%rtc_inv_r; [done|]. by simplify_eq.
  - assert ((if decide (s = k) then f c else c) = c) as -> by (case_decide; [unfold f; by rewrite Ec|done]). by rewrite Ec.
Qed.

(** A context below a cancelled one is cancelled. *)
Lemma below_cancelled st s k d c : reachable st -> below st s k -> st_scopes st !! s = Some d -> is_cancelled d = true ->
  st_scopes st !! k = Some c -> begun c = true -> is_cancelled c = true.
Proof.
  intros Hr Hb Hd Hcd. pose proof (reachable_closed st Hr) as Hcl. revert c.
  refine (@rtc_ind_r nat (child_of st) (fun k => forall c, st_scopes st !! k = Some c -> begun c = true -> is_cancelled c = true) s _ _ k Hb); [intros c Hc _; by simplify_eq|].
  intros p k' _ (e & He & Hp) IH c Hc Hbc. rewrite He in Hc. injection Hc as ->. rename He into Hc. destruct (reachable_parents st Hr _ _ _ Hc Hp) as [_ [x Hx]]. destruct (Hcl _ _ _ _ Hc Hp Hx) as [Hbx Hl].
  specialize (IH x Hx Hbx). unfold begun, is_cancelled in *. destruct (sc_ctx c); try done. by rewrite Hl in IH.
Qed.

(** The scopes of the run's table have begun. *)
Definition live_begun (st : state) : Prop := forall key s, st_live st !! key = Some s -> exists c, st_scopes st !! s = Some c /\ begun c = true.

Lemma live_evolves st st' : scopes_evolve (st_scopes st) (st_scopes st') -> st_live st' ⊆ st_live st -> live_begun st -> live_begun st'.
Proof.
  intros He Hs H key s Hk. eapply lookup_weaken in Hk; [|exact Hs]. destruct (H _ _ Hk) as (c & Hc & Hb). destruct (He s c Hc) as (c' & Hc' & Hev).
  exists c'. split; [done|]. by apply (ev_begun _ _ Hev).
Qed.

Lemma live_register i c st st' : st_scopes st !! i = Some c -> begun c = true -> register i st = Some st' -> live_begun st -> live_begun st'.
Proof.
  intros Hi Hb (d & Hd & ->)%register_inv H key s. cbn. simplify_eq. intros [[<- <-]|[_ Hk]]%lookup_insert_Some; [by exists c|by apply (H key)].
Qed.

Lemma begun_start_context i loop st st' : start_context i loop st = Some st' -> exists c, st_scopes st' !! i = Some c /\ begun c = true.
Proof.
  intros (c & Hc & _ & ->)%start_context_inv. cbn. eexists. split; [apply propagate_lookup; by rewrite list_lookup_alter_eq, Hc|]. by rewrite inherited_begun.
Qed.

Lemma exec_live o st st' : exec o st = Some st' -> live_begun st -> live_begun st'.
Proof.
  intros Ho H. pose proof (exec_evolve _ _ _ Ho) as He. pose proof (live_evolves st st' He) as Hev.
  assert (st_live st' = st_live st -> live_begun st') as Hsame by (intros E; apply Hev; [by rewrite E|done]). clear He.
  unfold exec in Ho. destruct (st_crashed st); [done|].
  destruct o as [p name completed|i|i loop|i|i|s name|s id|i|s|s err|i err|s m|s|s|s key raw|key cause|g err|s err|s|s|s outcome|s].
  - apply Hsame. unfold name_child in Ho. open_op Ho; done.
  - apply Hsame. unfold attach_child in Ho. open_op Ho; done.
  - apply begin_inv in Ho as (st1 & Hs & Hr). destruct (begun_start_context _ _ _ _ Hs) as (c & Hc & Hb). eapply live_register; [done..|].
    eapply live_evolves; [by eapply evolve_start_context| |done]. by apply start_context_inv in Hs as (d & _ & _ & ->).
  - apply Hsame. by apply start_context_inv in Ho as (d & _ & _ & ->).
  - unfold group_register in Ho. destruct (st_scopes st !! i) as [c|] eqn:Ei; [|done]. cbn in Ho. destruct (begun c) eqn:Eb; [|done]. destruct (registered i st); [done|].
    by eapply live_register.
  - apply Hsame. unfold name_session in Ho. open_op Ho; done.
  - apply Hsame. unfold adopt in Ho. open_op Ho; done.
  - apply Hsame. unfold allocate in Ho. open_op Ho; done.
  - apply Hsame. unfold adoptService in Ho. open_op Ho; done.
  - apply Hsame. unfold failService in Ho. open_op Ho; done.
  - apply Hsame. unfold service_exits, failService in Ho. open_op Ho; done.
  - apply Hsame. unfold queueMessage in Ho. open_op Ho; done.
  - apply Hsame. unfold takeMessages in Ho. open_op Ho; done.
  - apply Hsame. unfold endDispatch in Ho. open_op Ho; done.
  - apply Hsame. unfold store in Ho. open_op Ho; done.
  - apply Hsame. unfold CancelScope in Ho. open_op Ho; done.
  - apply Hsame. unfold group_error in Ho. open_op Ho; done.
  - apply Hsame. unfold body_returns in Ho. open_op Ho; done.
  - apply Hsame. unfold body_panics in Ho. open_op Ho; done.
  - apply Hev; [|done]. destruct (may_end s st); [|done]. unfold start_end in Ho. open_op Ho. apply delete_subseteq.
  - apply Hsame. unfold advance in Ho. open_op Ho; done.
  - apply Hsame. unfold finish in Ho. open_op Ho; done.
Qed.

Lemma reachable_live st : reachable st -> live_begun st.
Proof. apply (rtc_ind_r live_begun initial); [done|]. intros st1 st2 _ [o Ho]. by apply (exec_live o). Qed.

(** *** Crashes *)

(** All the steps but one leave [st_crashed]. *)
Lemma exec_crash o st st' : exec o st = Some st' -> st_crashed st' = true ->
  exists s outcome c, o = OAdvance s outcome /\ st_scopes st !! s = Some c /\ sc_ctx c = NoContext /\ sc_completed c = false.
Proof.
  intros Ho Hc. unfold exec in Ho. destruct (st_crashed st) eqn:E; [done|].
  assert (st_crashed st' = st_crashed st -> False) as Hsame by congruence.
  destruct o as [p name completed|i|i loop|i|i|s name|s id|i|s|s err|i err|s m|s|s|s key raw|key cause|g err|s err|s|s|s outcome|s].
  - exfalso. apply Hsame. unfold name_child in Ho. open_op Ho; done.
  - exfalso. apply Hsame. unfold attach_child in Ho. open_op Ho; done.
  - exfalso. apply Hsame. by apply begin_inv in Ho as (st1 & (d & _ & _ & ->)%start_context_inv & (e & _ & ->)%register_inv).
  - exfalso. apply Hsame. by apply start_context_inv in Ho as (d & _ & _ & ->).
  - exfalso. apply Hsame. by apply group_register_inv, register_inv in Ho as (e & _ & ->).
  - exfalso. apply Hsame. unfold name_session in Ho. open_op Ho; done.
  - exfalso. apply Hsame. unfold adopt in Ho. open_op Ho; done.
  - exfalso. apply Hsame. unfold allocate in Ho. open_op Ho; done.
  - exfalso. apply Hsame. unfold adoptService in Ho. open_op Ho; done.
  - exfalso. apply Hsame. unfold failService in Ho. open_op Ho; done.
  - exfalso. apply Hsame. unfold service_exits, failService in Ho. open_op Ho; done.
  - exfalso. apply Hsame. unfold queueMessage in Ho. open_op Ho; done.
  - exfalso. apply Hsame. unfold takeMessages in Ho. open_op Ho; done.
  - exfalso. apply Hsame. unfold endDispatch in Ho. open_op Ho; done.
  - exfalso. apply Hsame. unfold store in Ho. open_op Ho; done.
  - exfalso. apply Hsame. unfold CancelScope in Ho. open_op Ho; done.
  - exfalso. apply Hsame. unfold group_error in Ho. open_op Ho; done.
  - exfalso. apply Hsame. unfold body_returns in Ho. open_op Ho; done.
  - exfalso. apply Hsame. unfold body_panics in Ho. open_op Ho; done.
  - exfalso. apply Hsame. destruct (may_end s st); [|done]. unfold start_end in Ho. open_op Ho; done.
  - exists s, outcome. unfold advance in Ho. destruct (st_scopes st !! s) as [c|] eqn:Es; [|done]. cbn in Ho. exists c. split; [done|]. split; [done|].
    assert (begun c = false -> sc_ctx c = NoContext) as Hb by (unfold begun; by destruct (sc_ctx c)).
    destruct (sc_completed c) eqn:Ecomp; [exfalso; apply Hsame; clear Hb; by open_op Ho|]. destruct (begun c) eqn:Eb; [exfalso; apply Hsame; clear Hb; by open_op Ho|]. auto.
  - exfalso. apply Hsame. unfold finish in Ho. open_op Ho; done.
Qed.

(** ** Examples *)

(** A loop whose scope is killed while a message waits for its planner: the body
    unwinds after the scope has ended, and [endDispatch] finds no message, so
    the message has no record. *)
Definition killed_loop : list op :=
  [OBegin 0 false; OName 0 "loop" false; OAttach 1; OBegin 1 true; OQueue 1 "faster"; OCancel "loop.1" None; OStartEnd 1; OEndDispatch 1; OReturn 1 (Some Canceled);
   OAdvance 1 None; OAdvance 1 None; OAdvance 1 None; OFinish 1]%string.

Example message_without_record :
  accepted (after killed_loop) 1 = ["faster"]%string /\ recorded (after killed_loop) 1 = [] /\ has_ended (after killed_loop) 1.
Proof. split; [vm_compute; reflexivity|]. split; [vm_compute; reflexivity|]. eexists. vm_compute. reflexivity. Qed.

(** A group that is cancelled after [Go] has put a child in its list and before
    the child begins: cleaning up after the child needs the context it does not
    have yet. *)
Definition early_cancel : list op :=
  [OBegin 0 false; OName 0 "group" false; OAttach 1; OGroup 1; ORegister 1; OName 1 "child" false; OAttach 2; OCancel "group.1" None; OStartEnd 1; OStartEnd 2;
   OAdvance 2 None]%string.

Example crash_before_begin : st_crashed (after early_cancel) = true.
Proof. vm_compute. reflexivity. Qed.

(** A group that begins under a context cancelled meanwhile: its end leaves the
    run's table before the group enters it, so the table keeps a scope that has
    ended and a kill by its key is accepted. *)
Definition late_register : list op :=
  [OBegin 0 false; OName 0 "group" false; OAttach 1; OCancel "" None; OGroup 1; OStartEnd 1; OAdvance 1 None; OAdvance 1 None; OAdvance 1 None; ORegister 1]%string.

Example ended_scope_in_table :
  has_ended (after late_register) 1 /\ exists st, CancelScope "group.1" None (after late_register) = Ok st.
Proof. split; eexists; vm_compute; reflexivity. Qed.

(** ** Theorems *)

(** C19: messages for the planner of a loop are recorded in the order in which
    they were accepted, each once: until the loop's scope ends, those recorded
    are followed by those waiting, and [endDispatch] records the rest, so that
    none is left; after, those recorded are still the first of those
    accepted, and none waits. *)
Theorem messages_recorded st s c :
  reachable st -> st_scopes st !! s = Some c ->
  (is_ended c = false -> accepted st s = recorded st s ++ sc_messages c) /\
  (is_ended c = true -> recorded st s `prefix_of` accepted st s /\ sc_messages c = []) /\
  (forall st', exec (OEndDispatch s) st = Some st' -> is_ended c = false ->
    accepted st' s = recorded st' s /\ forall m, queueMessage s m st' = Some (false, st')).
Proof.
  intros Hr Hs. pose proof (mi_scopes st (reachable_mail st Hr) s c Hs) as Hm. unfold mail_ok in Hm.
  split; [by intros E; rewrite E in Hm|]. split; [by intros E; rewrite E in Hm; destruct Hm|].
  intros st' Ho He. assert (reachable st') as Hr' by (eapply reachable_step; [done|by exists (OEndDispatch s)]).
  unfold exec in Ho. destruct (st_crashed st); [done|]. unfold endDispatch in Ho. rewrite Hs in Ho. cbn in Ho. injection Ho as <-. set (st' := events _ _) in *.
  assert (st_scopes st' !! s = Some (set_mail c false [])) as Hs' by (cbn; by rewrite list_lookup_alter_eq, Hs).
  split.
  - pose proof (mi_scopes st' (reachable_mail st' Hr') s _ Hs') as Hm'. unfold mail_ok in Hm'. change (is_ended (set_mail c false [])) with (is_ended c) in Hm'.
    rewrite He in Hm'. cbn [sc_messages set_mail] in Hm'. by rewrite app_nil_r in Hm'.
  - intros m. unfold queueMessage. by rewrite Hs'.
Qed.

Lemma messages_recorded_witness :
  recorded (after (take 8 killed_loop)) 1 = [] /\ accepted (after (take 5 killed_loop)) 1 = ["faster"]%string /\
  recorded (after (take 5 killed_loop ++ [OEndDispatch 1])) 1 = ["faster"]%string.
Proof.
  split; [vm_compute; reflexivity|]. split; [vm_compute; reflexivity|].
  assert (is_ended <$> st_scopes (after (take 5 killed_loop)) !! 1%nat = Some false) as H by (vm_compute; reflexivity).
  destruct (st_scopes (after (take 5 killed_loop)) !! 1%nat) as [c|] eqn:Ec; [|discriminate H]. injection H as He.
  destruct (messages_recorded (after (take 5 killed_loop)) 1 c (after_reachable _) Ec) as (_ & _ & H).
  destruct (H (after (take 5 killed_loop ++ [OEndDispatch 1]))) as [<- _]; [vm_compute; reflexivity|exact He|vm_compute; reflexivity].
Defined.

(** C18: killing a scope by its key reaches everything below it and nothing else:
    each running context there is cancelled with the operator's cause, the other
    scopes are as they were, and from then on whatever begins below the scope
    begins cancelled. *)
Theorem cancel_reaches st key cause st' s :
  reachable st -> st_crashed st = false -> (key = ""%string -> st_rootCancel st = None) ->
  st_live st !! key = Some s -> CancelScope key cause st = Ok st' ->
  (forall k c, st_scopes st !! k = Some c -> exists c', st_scopes st' !! k = Some c' /\
    (below st s k -> sc_ctx c = Live -> c' = with_ctx (Cancelled Canceled (default Canceled cause)) c) /\
    (~ below st s k \/ sc_ctx c <> Live -> c' = c)) /\
  (forall st'' k c, rtc step st' st'' -> st_scopes st'' !! k = Some c -> below st'' s k -> begun c = true -> is_cancelled c = true).
Proof.
  intros Hr Hcr Hroot Hlive Hk. pose proof Hk as Ho. unfold CancelScope in Hk. rewrite Hlive in Hk.
  assert (exists st1, st' = cancel s Canceled (default Canceled cause) st1 /\ st_scopes st1 = st_scopes st) as (st1 & -> & E1).
  { destruct (String.eqb_spec key ""); [rewrite Hroot in Hk by done|]; injection Hk as <-; eexists; (split; [reflexivity|done]). }
  assert (reachable (cancel s Canceled (default Canceled cause) st1)) as Hr'.
  { eapply reachable_step; [exact Hr|]. exists (OCancel key cause). unfold exec. by rewrite Hcr, Ho. }
  pose proof (cancel_lookup s Canceled (default Canceled cause) st1) as Hl. unfold below, child_of in Hl. rewrite E1 in Hl.
  specialize (Hl (reachable_parents st Hr) (reachable_closed st Hr)). split.
  - intros k c Hc. destruct (Hl k c Hc) as (c' & Hc' & H). exists c'. split; [done|]. destruct (sc_ctx c); [by split|destruct H as [[? ->]|[? ->]]; split; naive_solver|by split].
  - intros st'' k c Hst Hc Hb Hbc. destruct (reachable_live st Hr key s Hlive) as (d & Hd & Hbd). destruct (Hl s d Hd) as (d' & Hd' & H).
    assert (is_cancelled d' = true) as Hcd.
    { unfold begun in Hbd. destruct (sc_ctx d) eqn:Ed; [done| |]; [destruct H as [[_ ->]|[H _]]; [done|]; by destruct H; apply rtc_refl|].
      subst d'. unfold is_cancelled. by rewrite Ed. }
    destruct (steps_evolve _ _ Hst s d' Hd') as (d'' & Hd'' & Hev). eapply (below_cancelled st'' s k d'' c); try done.
    + unfold reachable in *. by etrans.
    + unfold is_cancelled in *. destruct (sc_ctx d') eqn:Ed'; try done. by rewrite (ev_cause _ _ Hev _ _ Ed').
Qed.

Lemma cancel_reaches_witness :
  exists st', CancelScope "loop.1" None (after (take 4 killed_loop)) = Ok st' /\
    forall st'' k c, rtc step st' st'' -> st_scopes st'' !! k = Some c -> below st'' 1 k -> begun c = true -> is_cancelled c = true.
Proof.
  destruct (CancelScope "loop.1" None (after (take 4 killed_loop))) as [st'|e] eqn:E; [|vm_compute in E; discriminate E]. exists st'. split; [reflexivity|].
  apply (cancel_reaches (after (take 4 killed_loop)) "loop.1" None st' 1); [apply after_reachable|vm_compute; reflexivity|discriminate|vm_compute; reflexivity|exact E].
Defined.
