(* ===== verification/Observation.v ===== *)
(** * The observation of a run: rows and folds ([internal/observation])

    What the web pages show of a run is eight tables and a transcript for each
    turn.  Lifecycle records and native events are folded into them
    ([store.go]); each fold says which rows it touched.  The rows are Go's
    structs without the markup of interactive messages, which is always derived
    again from their text.  A JSON text that the code only stores is a string;
    what [json.Unmarshal] reads of a record, an event or a sidecar is given with
    it. *)

From S2P Require Import Prelude GoText SessionJson SessionState SessionReduce GoValue.
From Stdlib Require Import Ascii SpecFloat.

Open Scope string_scope.
Open Scope list_scope.
Open Scope Z_scope.

(** ** Definitions *)

(** *** Usage ([rows.go]) *)

Definition float64 : Type := spec_float.
Definition float_zero : float64 := S754_zero false.
Definition float_add (a b : float64) : float64 := SFadd 53 1024 a b.

Record Tokens : Type := MkTokens {
  tk_Input : float64;
  tk_CacheRead : float64;
  tk_CacheWrite : float64;
  tk_Output : float64;
  tk_Reasoning : float64
}.

Record Usage : Type := MkUsage {
  us_Tokens : Tokens;
  us_StatedCost : float64
}.

Definition no_tokens : Tokens := MkTokens float_zero float_zero float_zero float_zero float_zero.
Definition no_usage : Usage := MkUsage no_tokens float_zero.

Definition add_tokens (a b : Tokens) : Tokens :=
  MkTokens (float_add (tk_Input a) (tk_Input b)) (float_add (tk_CacheRead a) (tk_CacheRead b)) (float_add (tk_CacheWrite a) (tk_CacheWrite b))
    (float_add (tk_Output a) (tk_Output b)) (float_add (tk_Reasoning a) (tk_Reasoning b)).

(** [Usage.add] *)
Definition add (u other : Usage) : Usage :=
  MkUsage (add_tokens (us_Tokens u) (us_Tokens other)) (float_add (us_StatedCost u) (us_StatedCost other)).

(** *** Rows ([rows.go]) *)

Record CancellationState : Type := MkCancellation { ca_By : string; ca_Reason : string }.

Record RunRow : Type := MkRunRow {
  rr_WorkflowEnvironment : string;
  rr_TaskEnvironment : string;
  rr_ID : string;
  rr_Name : string;
  rr_Status : string;
  rr_Error : string;
  rr_RecordingError : string;
  rr_Started : Z;
  rr_Ended : Z;
  rr_Cancellation : option CancellationState
}.

Record Decision : Type := MkDecision { de_Seq : Z; de_Body : string }.

Record ValueArtifact : Type := MkArtifact { va_File : string; va_Size : Z; va_Format : string; va_Preview : string }.

Record ScopeValue : Type := MkScopeValue { sv_Value : string; sv_Artifact : option ValueArtifact }.

Record ScopeRow : Type := MkScopeRow {
  sr_Run : string;
  sr_Key : string;
  sr_Name : string;
  sr_Loop : bool;
  sr_Status : string;
  sr_Error : string;
  sr_Task : string;
  sr_Began : Z;
  sr_Ended : Z;
  sr_Values : gmap string ScopeValue;
  sr_Decisions : list Decision
}.

Record steerRecord : Type := MkSteer { st_Message : string; st_Source : string; st_Landed : bool; st_Created : Z }.

Record SessionRow : Type := MkSessionRow {
  sn_Workdir : string;
  sn_Effort : string;
  sn_Steers : list steerRecord;
  sn_Run : string;
  sn_ID : string;
  sn_Name : string;
  sn_Adapter : string;
  sn_Model : string;
  sn_Scope : string;
  sn_Parent : string;
  sn_Created : Z
}.

Record InteractiveMessage : Type := MkMessage { im_Role : string; im_Message : string }.

Record InteractiveRow : Type := MkInteractive {
  ir_Consumed : list string;
  ir_Ordinal : Z;
  ir_Unresolved : string;
  ir_Address : string;
  ir_Messages : list InteractiveMessage;
  ir_EndedBy : string;
  ir_Run : string;
  ir_QuestionID : string;
  ir_Name : string;
  ir_Scope : string;
  ir_Session : string;
  ir_Question : string;
  ir_Status : string;
  ir_Answer : string;
  ir_Asked : Z;
  ir_Answered : Z
}.

Record ContextEntry : Type := MkContextEntry { ce_Key : string; ce_Scope : string; ce_Complete : bool }.

Record TurnRow : Type := MkTurnRow {
  tr_Unresolved : bool;
  tr_EventsUnavailable : bool;
  tr_ObservationError : string;
  tr_Run : string;
  tr_ID : string;
  tr_Session : string;
  tr_Scope : string;
  tr_Prompt : string;
  tr_Context : option (list ContextEntry);
  tr_OutputType : string;
  tr_Result : string;
  tr_Error : string;
  tr_Interrupted : bool;
  tr_Started : Z;
  tr_Ended : Z;
  tr_Duration : Z
}.

Record CommandRow : Type := MkCommandRow {
  cm_Run : string;
  cm_ID : string;
  cm_Scope : string;
  cm_Name : string;
  cm_Command : string;
  cm_Args : list string;
  cm_Workdir : string;
  cm_ExitCode : Z;
  cm_Stdout : string;
  cm_Stderr : string;
  cm_StdoutFile : string;
  cm_StderrFile : string;
  cm_Error : string;
  cm_Interrupted : bool;
  cm_Started : Z;
  cm_Ended : Z;
  cm_Duration : Z
}.

Record ModelCallRow : Type := MkModelCall {
  mc_Run : string;
  mc_Turn : string;
  mc_Message : string;
  mc_Model : string;
  mc_Tokens : Tokens;
  mc_Started : Z;
  mc_Ended : Z
}.

(** *** The tables ([store.go], [files.go]) *)

Record tables : Type := MkTables {
  tb_run : RunRow;
  tb_scopes : gmap string ScopeRow;
  tb_sessions : gmap string SessionRow;
  tb_interactions : gmap string InteractiveRow;
  tb_turns : gmap string TurnRow;
  tb_turnUsage : gmap string (gmap string Usage);
  tb_modelCalls : gmap string (list ModelCallRow);
  tb_commands : gmap string CommandRow
}.

Inductive table : Type :=
| tableRun
| tableScopes
| tableSessions
| tableInteractions
| tableTurns
| tableTurnUsage
| tableModelCalls
| tableCommands.

(** A row that a fold touched: its table and its key. *)
Record change : Type := MkChange { ch_table : table; ch_key : string }.

Definition with_run (f : RunRow -> RunRow) (T : tables) : tables :=
  MkTables (f (tb_run T)) (tb_scopes T) (tb_sessions T) (tb_interactions T) (tb_turns T) (tb_turnUsage T) (tb_modelCalls T) (tb_commands T).
Definition with_scopes (f : gmap string ScopeRow -> gmap string ScopeRow) (T : tables) : tables :=
  MkTables (tb_run T) (f (tb_scopes T)) (tb_sessions T) (tb_interactions T) (tb_turns T) (tb_turnUsage T) (tb_modelCalls T) (tb_commands T).
Definition with_sessions (f : gmap string SessionRow -> gmap string SessionRow) (T : tables) : tables :=
  MkTables (tb_run T) (tb_scopes T) (f (tb_sessions T)) (tb_interactions T) (tb_turns T) (tb_turnUsage T) (tb_modelCalls T) (tb_commands T).
Definition with_interactions (f : gmap string InteractiveRow -> gmap string InteractiveRow) (T : tables) : tables :=
  MkTables (tb_run T) (tb_scopes T) (tb_sessions T) (f (tb_interactions T)) (tb_turns T) (tb_turnUsage T) (tb_modelCalls T) (tb_commands T).
Definition with_turns (f : gmap string TurnRow -> gmap string TurnRow) (T : tables) : tables :=
  MkTables (tb_run T) (tb_scopes T) (tb_sessions T) (tb_interactions T) (f (tb_turns T)) (tb_turnUsage T) (tb_modelCalls T) (tb_commands T).
Definition with_turnUsage (f : gmap string (gmap string Usage) -> gmap string (gmap string Usage)) (T : tables) : tables :=
  MkTables (tb_run T) (tb_scopes T) (tb_sessions T) (tb_interactions T) (tb_turns T) (f (tb_turnUsage T)) (tb_modelCalls T) (tb_commands T).
Definition with_modelCalls (f : gmap string (list ModelCallRow) -> gmap string (list ModelCallRow)) (T : tables) : tables :=
  MkTables (tb_run T) (tb_scopes T) (tb_sessions T) (tb_interactions T) (tb_turns T) (tb_turnUsage T) (f (tb_modelCalls T)) (tb_commands T).
Definition with_commands (f : gmap string CommandRow -> gmap string CommandRow) (T : tables) : tables :=
  MkTables (tb_run T) (tb_scopes T) (tb_sessions T) (tb_interactions T) (tb_turns T) (tb_turnUsage T) (tb_modelCalls T) (f (tb_commands T)).

Definition StatusRunning : string := "running".
Definition StatusCompleted : string := "completed".
Definition StatusFailed : string := "failed".
Definition StatusCancelled : string := "cancelled".
Definition StatusEnded : string := "ended".
Definition InteractiveStatusPending : string := "pending".
Definition InteractiveStatusAnswered : string := "answered".

(** The tables of [newStore]. *)
Definition new_tables (id name : string) : tables :=
  MkTables (MkRunRow "" "" id name StatusRunning "" "" 0 0 None) ∅ ∅ ∅ ∅ ∅ ∅ ∅.

(** Where a native event happened ([snapshot.go]). *)
Record Placement : Type := MkPlacement { pl_Scope : string; pl_Session : string; pl_Turn : string }.

(** [scopeLocked], [commandLocked] and [turnLocked] make a row on first sight;
    these change it, made or not. *)
Definition new_scope_row (run key : string) : ScopeRow := MkScopeRow run key key false StatusRunning "" "" 0 0 ∅ [].
Definition new_command_row (run scope id : string) : CommandRow := MkCommandRow run id scope "" "" [] "" 0 "" "" "" "" "" false 0 0 0.
Definition new_turn_row (run : string) (at_ : Placement) : TurnRow :=
  MkTurnRow false false "" run (pl_Turn at_) (pl_Session at_) (pl_Scope at_) "" None "" "" "" false 0 0 0.

Definition edit_scope (key : string) (f : ScopeRow -> ScopeRow) (T : tables) : tables :=
  with_scopes (fun m => <[key := f (default (new_scope_row (rr_ID (tb_run T)) key) (m !! key))]> m) T.
Definition edit_command (scope id : string) (f : CommandRow -> CommandRow) (T : tables) : tables :=
  with_commands (fun m => <[id := f (default (new_command_row (rr_ID (tb_run T)) scope id) (m !! id))]> m) T.
Definition edit_turn (at_ : Placement) (f : TurnRow -> TurnRow) (T : tables) : tables :=
  with_turns (fun m => <[pl_Turn at_ := f (default (new_turn_row (rr_ID (tb_run T)) at_) (m !! pl_Turn at_))]> m) T.

(** *** Lifecycle records *)

(** What a record says, by its kind; a kind the store does not know is
    [Other]. *)
Inductive lifecycle : Type :=
| run_started (name : string)
| killed (by_ reason target : string)
| run_ended (error : string)
| complete (recording_error : string)
| run_cancelled (error : string)
| scope_began (name : string) (loop : bool) (task : string)
| scope_ended (error : string)
| value_set (key value : string) (artifact : option ValueArtifact)
| planner_decision (body : string)
| session_created (name adapter model workdir effort parent : string)
| steer (target message source : string) (landed : bool)
| interactive_changed (id status error ended_by address name : string) (waiting : bool) (ordinal : Z) (consumed : list string) (messages : list InteractiveMessage)
| turn_started (prompt output_type : string) (context : list ContextEntry)
| turn_ended (result error : string) (interrupted unresolved : bool) (duration : Z) (usage : list (string * Usage))
| command_started (id name command workdir : string) (args : list string)
| command_ended (id error stdout stdout_file stderr stderr_file : string) (exit_code duration : Z) (interrupted : bool)
| Other.

(** A record: its time in milliseconds, where it happened, and its event. *)
Record record : Type := MkRecord {
  rec_Seq : Z;
  rec_Time : Z;
  rec_Scope : string;
  rec_Session : string;
  rec_Turn : string;
  rec_Event : lifecycle
}.

Definition millisecond : Z := 1000000.

(** The status of an exchange, and the question it asks: the last message of
    the assistant. *)
Definition interactive_status (status error ended_by : string) (waiting : bool) : string :=
  let status := if waiting && (String.eqb status "" || String.eqb status "waiting") then InteractiveStatusPending else status in
  let status := if String.eqb ended_by "" then status else InteractiveStatusAnswered in
  if String.eqb error "" then status else "unresolved".

Definition asked_question (messages : list InteractiveMessage) : string :=
  foldl (fun q m => if String.eqb (im_Role m) "assistant" then im_Message m else q) "" messages.

(** The harness's own report of a turn, by model. *)
Definition usage_report (usage : list (string * Usage)) : gmap string Usage :=
  foldl (fun report mu => <[mu.1 := add (default no_usage (report !! mu.1)) mu.2]> report) ∅ usage.

(** The fold of [Lifecycle]. *)
Definition fold_record (r : record) (T : tables) : tables * list change :=
  let at_ := rec_Time r in
  let run := tb_run T in
  let placement := MkPlacement (rec_Scope r) (rec_Session r) (rec_Turn r) in
  match rec_Event r with
  | run_started name =>
      (with_run (fun w => MkRunRow (rr_WorkflowEnvironment w) (rr_TaskEnvironment w) (rr_ID w) name StatusRunning (rr_Error w) (rr_RecordingError w) at_ (rr_Ended w) (rr_Cancellation w)) T,
       [MkChange tableRun ""])
  | killed by_ reason target =>
      if String.eqb (rec_Scope r) "" && String.eqb (rec_Turn r) "" && String.eqb target "" then
        (with_run (fun w => MkRunRow (rr_WorkflowEnvironment w) (rr_TaskEnvironment w) (rr_ID w) (rr_Name w) (rr_Status w) (rr_Error w) (rr_RecordingError w) (rr_Started w) (rr_Ended w)
           (Some (MkCancellation by_ reason))) T, [MkChange tableRun ""])
      else (T, [])
  | run_ended error =>
      (with_run (fun w =>
         let (status, err) := if String.eqb (rr_Status w) StatusRunning then (if String.eqb error "" then StatusCompleted else StatusFailed, error) else (rr_Status w, rr_Error w) in
         MkRunRow (rr_WorkflowEnvironment w) (rr_TaskEnvironment w) (rr_ID w) (rr_Name w) status err (rr_RecordingError w) (rr_Started w) at_ (rr_Cancellation w)) T,
       [MkChange tableRun ""])
  | complete recording_error =>
      if String.eqb recording_error "" then (T, [])
      else (with_run (fun w => MkRunRow (rr_WorkflowEnvironment w) (rr_TaskEnvironment w) (rr_ID w) (rr_Name w) (rr_Status w) (rr_Error w) recording_error (rr_Started w) (rr_Ended w)
              (rr_Cancellation w)) T, [MkChange tableRun ""])
  | run_cancelled error =>
      (with_run (fun w => MkRunRow (rr_WorkflowEnvironment w) (rr_TaskEnvironment w) (rr_ID w) (rr_Name w) StatusCancelled error (rr_RecordingError w) (rr_Started w) at_ (rr_Cancellation w)) T,
       [MkChange tableRun ""])
  | scope_began name loop task =>
      (edit_scope (rec_Scope r) (fun s => MkScopeRow (sr_Run s) (sr_Key s) name loop StatusRunning (sr_Error s) (if String.eqb task "" then sr_Task s else task) at_ (sr_Ended s)
         (sr_Values s) (sr_Decisions s)) T, [MkChange tableScopes (rec_Scope r)])
  | scope_ended error =>
      (edit_scope (rec_Scope r) (fun s => MkScopeRow (sr_Run s) (sr_Key s) (sr_Name s) (sr_Loop s) StatusEnded error (sr_Task s) (sr_Began s) at_ (sr_Values s) (sr_Decisions s)) T,
       [MkChange tableScopes (rec_Scope r)])
  | value_set key value artifact =>
      let v := match artifact with Some a => MkScopeValue "" (Some a) | None => MkScopeValue value None end in
      (edit_scope (rec_Scope r) (fun s => MkScopeRow (sr_Run s) (sr_Key s) (sr_Name s) (sr_Loop s) (sr_Status s) (sr_Error s) (sr_Task s) (sr_Began s) (sr_Ended s)
         (<[key := v]> (sr_Values s)) (sr_Decisions s)) T, [MkChange tableScopes (rec_Scope r)])
  | planner_decision body =>
      (edit_scope (rec_Scope r) (fun s => MkScopeRow (sr_Run s) (sr_Key s) (sr_Name s) (sr_Loop s) (sr_Status s) (sr_Error s) (sr_Task s) (sr_Began s) (sr_Ended s)
         (sr_Values s) (sr_Decisions s ++ [MkDecision (rec_Seq r) body])) T, [MkChange tableScopes (rec_Scope r)])
  | session_created name adapter model workdir effort parent =>
      (with_sessions (fun m => <[rec_Session r := MkSessionRow workdir effort [] (rr_ID run) (rec_Session r) name adapter model (rec_Scope r) parent at_]> m) T,
       [MkChange tableSessions (rec_Session r)])
  | steer target message source landed =>
      match tb_sessions T !! target with
      | Some s =>
          (with_sessions (fun m => <[target := MkSessionRow (sn_Workdir s) (sn_Effort s) (sn_Steers s ++ [MkSteer message source landed at_]) (sn_Run s) (sn_ID s) (sn_Name s) (sn_Adapter s)
             (sn_Model s) (sn_Scope s) (sn_Parent s) (sn_Created s)]> m) T, [MkChange tableSessions target])
      | None => (T, [])
      end
  | interactive_changed id status error ended_by address name waiting ordinal consumed messages =>
      (with_interactions (fun m => <[id := MkInteractive consumed ordinal error address messages ended_by (rr_ID run) id name (rec_Scope r) (rec_Session r) (asked_question messages)
         (interactive_status status error ended_by waiting) "" at_ 0]> m) T, [MkChange tableInteractions id])
  | turn_started prompt output_type context =>
      (edit_turn placement (fun t => MkTurnRow (tr_Unresolved t) (tr_EventsUnavailable t) (tr_ObservationError t) (tr_Run t) (tr_ID t) (tr_Session t) (tr_Scope t) prompt
         (match context with [] => None | _ => Some context end) output_type (tr_Result t) (tr_Error t) (tr_Interrupted t) at_ (tr_Ended t) (tr_Duration t)) T,
       [MkChange tableTurns (rec_Turn r)])
  | turn_ended result error interrupted unresolved duration usage =>
      let T := edit_turn placement (fun t => MkTurnRow unresolved (tr_EventsUnavailable t) (tr_ObservationError t) (tr_Run t) (tr_ID t) (tr_Session t) (tr_Scope t) (tr_Prompt t)
         (tr_Context t) (tr_OutputType t) result error interrupted (tr_Started t) at_ (Z.quot duration millisecond)) T in
      (with_turnUsage (fun m => <[rec_Turn r := usage_report usage]> m) T, [MkChange tableTurns (rec_Turn r); MkChange tableTurnUsage (rec_Turn r)])
  | command_started id name command workdir args =>
      (edit_command (rec_Scope r) id (fun c => MkCommandRow (cm_Run c) (cm_ID c) (cm_Scope c) name command args workdir (cm_ExitCode c) (cm_Stdout c) (cm_Stderr c) (cm_StdoutFile c)
         (cm_StderrFile c) (cm_Error c) (cm_Interrupted c) at_ (cm_Ended c) (cm_Duration c)) T, [MkChange tableCommands id])
  | command_ended id error stdout stdout_file stderr stderr_file exit_code duration interrupted =>
      (edit_command (rec_Scope r) id (fun c => MkCommandRow (cm_Run c) (cm_ID c) (cm_Scope c) (cm_Name c) (cm_Command c) (cm_Args c) (cm_Workdir c) exit_code stdout stderr stdout_file
         stderr_file error interrupted (cm_Started c) at_ (Z.quot duration millisecond)) T, [MkChange tableCommands id])
  | Other => (T, [])
  end.

(** *** Native events *)

(** What [json.Unmarshal] reads of an event into [step]. *)
Record step : Type := MkStep {
  sp_Message : string;
  sp_Cost : option float64;
  sp_Tokens : option Tokens;
  sp_Model : string
}.

(** An event as it is given: what [DecodeValue] makes of it, if anything, and
    its step, if it has one. *)
Record envelope : Type := MkEnvelope {
  en_value : option val;
  en_step : option step
}.

(** A sidecar: its text and what [decodeRef] makes of it; the empty text is
    nil. *)
Record sidecar : Type := MkSidecar {
  sc_text : string;
  sc_value : option val
}.

Record transcript : Type := MkTranscript {
  ts_projection : Projection;
  ts_provenance : gmap string string
}.

Definition new_transcript : transcript := MkTranscript (New NewProjectionState) ∅.

Record openCall : Type := MkOpenCall { oc_model : string; oc_started : Z }.

(** The calls that are open, by [Turn + "\x00" + Message]. *)
Definition call_key (turn message : string) : string := turn ++ String "000"%char message.

(** What the folds change: the tables, the transcripts and the open calls. *)
Record facts : Type := MkFacts {
  fa_tables : tables;
  fa_transcripts : gmap string transcript;
  fa_calls : gmap string openCall
}.

Definition with_tables (f : tables -> tables) (F : facts) : facts := MkFacts (f (fa_tables F)) (fa_transcripts F) (fa_calls F).
Definition with_transcripts (f : gmap string transcript -> gmap string transcript) (F : facts) : facts := MkFacts (fa_tables F) (f (fa_transcripts F)) (fa_calls F).
Definition with_calls (f : gmap string openCall -> gmap string openCall) (F : facts) : facts := MkFacts (fa_tables F) (fa_transcripts F) (f (fa_calls F)).

(** [int64] of a float. *)
Definition int64_of (f : float64) : Z :=
  match f with
  | S754_finite s m e =>
      let n := if 0 <=? e then Z.pos m * 2 ^ e else Z.pos m / 2 ^ (- e) in
      let n := if s then - n else n in
      if (minint <=? n) && (n <=? maxint) then n else minint
  | S754_zero _ => 0
  | _ => minint
  end.

(** [creationTime] *)
Definition creationTime (event : obj) : Z :=
  match get event "created" with
  | VNum literal => match ParseFloat (lit literal) with Some f => int64_of f | None => 0 end
  | _ => 0
  end.

(** [SessionRow.model], of a row that may be missing. *)
Definition session_model (row : option SessionRow) : string := match row with Some s => sn_Model s | None => "" end.

(** [indexOfCall] *)
Definition indexOfCall (calls : list ModelCallRow) (message : string) : option nat :=
  if String.eqb message "" then None else fst <$> list_find (fun c => mc_Message c = message) calls.

(** [foldProvenanceLocked], with the identifier [field] reads. *)
Definition fold_provenance (ref : sidecar) (script : transcript) : transcript :=
  let key := match sc_value ref with Some v => str (Get (objOf v) "normalizedMessageID") | None => "" end in
  if String.eqb key "" then script else MkTranscript (ts_projection script) (<[key := sc_text ref]> (ts_provenance script)).

(** [turnSeenLocked] *)
Definition turn_seen (fromTables : bool) (at_ : Placement) (T : tables) : tables * list change :=
  if fromTables then (T, [])
  else match tb_turns T !! pl_Turn at_ with
       | Some _ => (T, [])
       | None => (edit_turn at_ (fun t => t) T, [MkChange tableTurns (pl_Turn at_)])
       end.

(** The flag of a turn whose events are not seen. *)
Definition availability (at_ : Placement) (kind : string) (T : tables) : tables * list change :=
  let unavailable := String.eqb kind "session.observation.unavailable" in
  if unavailable || String.eqb kind "session.observation.available" then
    (edit_turn at_ (fun t => MkTurnRow (tr_Unresolved t) unavailable (if unavailable then "Task events unavailable; execution continues." else "") (tr_Run t) (tr_ID t) (tr_Session t)
       (tr_Scope t) (tr_Prompt t) (tr_Context t) (tr_OutputType t) (tr_Result t) (tr_Error t) (tr_Interrupted t) (tr_Started t) (tr_Ended t) (tr_Duration t)) T,
     [MkChange tableTurns (pl_Turn at_)])
  else (T, []).

(** [foldStepLocked]: [None] is the panic on a turn without a row. *)
Definition foldStep (fromTables : bool) (at_ : Placement) (event : obj) (s : option step) (F : facts) : option (facts * list change) :=
  let T := fa_tables F in
  let kind := str (get event "type") in
  let ended := String.eqb kind "session.step.ended" in
  if fromTables then Some (F, [])
  else if negb ended && negb (String.eqb kind "session.step.started") && negb (String.eqb kind "session.step.failed") then Some (F, [])
  else
    match s with
    | None => Some (F, [])
    | Some data =>
        let key := call_key (pl_Turn at_) (sp_Message data) in
        let created := creationTime event in
        let model := if String.eqb (sp_Model data) "" then session_model (tb_sessions T !! pl_Session at_) else sp_Model data in
        if String.eqb kind "session.step.started" then Some (with_calls (fun m => <[key := MkOpenCall model created]> m) F, [])
        else if negb ended && (negb (bool_decide (is_Some (sp_Cost data))) || negb (bool_decide (is_Some (sp_Tokens data)))) then Some (F, [])
        else
          let call := default (MkOpenCall model 0) (fa_calls F !! key) in
          let F := with_calls (fun m => base.delete key m) F in
          let tokens := default no_tokens (sp_Tokens data) in
          let row := MkModelCall (rr_ID (tb_run T)) (pl_Turn at_) (sp_Message data) (oc_model call) tokens (oc_started call) created in
          let changed := [MkChange tableModelCalls (pl_Turn at_)] in
          let calls := default [] (tb_modelCalls T !! pl_Turn at_) in
          match indexOfCall calls (sp_Message data) with
          | Some i => Some (with_tables (with_modelCalls (fun m => <[pl_Turn at_ := <[i := row]> calls]> m)) F, changed)
          | None =>
              let F := with_tables (with_modelCalls (fun m => <[pl_Turn at_ := calls ++ [row]]> m)) F in
              turn ← tb_turns T !! pl_Turn at_;
              if negb (Z.eqb (tr_Ended turn) 0) then Some (F, changed)
              else
                let byModel : gmap string Usage := default ∅ (tb_turnUsage T !! pl_Turn at_) in
                let spent := MkUsage tokens (default float_zero (sp_Cost data)) in
                Some (with_tables (with_turnUsage (fun m => <[pl_Turn at_ := <[oc_model call := add (default no_usage (byModel !! oc_model call)) spent]> byModel]> m)) F,
                      changed ++ [MkChange tableTurnUsage (pl_Turn at_)])
          end
    end.

(** The fold of [Event], of an event that decoded. *)
Definition fold_event (fromTables : bool) (at_ : Placement) (event : obj) (s : option step) (ref : sidecar) (F : facts) : option (facts * list change) :=
  let (T1, seen) := turn_seen fromTables at_ (fa_tables F) in
  let (T2, available) := availability at_ (str (get event "type")) T1 in
  let script := default new_transcript (fa_transcripts F !! pl_Turn at_) in
  projection ← Apply (Some event) (ts_projection script);
  let script := fold_provenance ref (MkTranscript projection (ts_provenance script)) in
  '(F, changed) ← foldStep fromTables at_ event s (MkFacts T2 (<[pl_Turn at_ := script]> (fa_transcripts F)) (fa_calls F));
  Some (F, seen ++ available ++ changed).
