(* ===== verification/ObservationStore.v ===== *)
(** * The store of a run ([internal/observation])

    The store folds what happens into its tables, makes each change durable as
    one delta with the next position, and hands it to the pages that listen
    ([store.go], [durable.go], [subscribe.go], [usage.go], [replay.go]).  A
    frame and a delta are modelled before they are encoded; of their texts only
    the lengths matter ([Host]).  The journal is its lines and the bytes after
    the last line end: an append can stop after any byte, and what comes after
    a torn line is glued to it.  Outcomes of writing are arguments. *)

From S2P Require Import Prelude GoText SessionJson SessionState SessionReduce GoValue Observation.
From Stdlib Require Import Ascii SpecFloat.

Open Scope string_scope.
Open Scope list_scope.
Open Scope Z_scope.

(** ** Definitions *)

(** *** Totals ([usage.go]) *)

Record Total : Type := MkTotal { to_All : Usage; to_ByModel : gmap string Usage }.

Record Totals : Type := MkTotals { to_Scopes : gmap string Total; to_Sessions : gmap string Total }.

(** [contains] *)
Definition contains (scope turnScope : string) : bool :=
  String.eqb scope "" || String.eqb turnScope scope || String.prefix (scope ++ "/") turnScope.

(** *** Frames ([store.go]) *)

Inductive row : Type :=
| RowRun (r : RunRow)
| RowScope (r : ScopeRow)
| RowSession (r : SessionRow)
| RowInteraction (r : InteractiveRow)
| RowTurn (r : TurnRow)
| RowTurnUsage (r : gmap string Usage)
| RowModelCalls (r : list ModelCallRow)
| RowCommand (r : CommandRow).

Record rowFrame : Type := MkRowFrame { rf_Table : table; rf_Key : string; rf_Row : row }.

Record eventFrame : Type := MkEventFrame { ef_At : Placement; ef_Event : envelope; ef_NativeRef : sidecar }.

Inductive Frame : Type :=
| FrameRow (r : rowFrame)
| FrameTotals (t : Totals)
| FrameEvent (e : eventFrame).

Record Delta : Type := MkDelta { dl_Stream : string; dl_Position : Z; dl_Frames : list Frame }.

(** What the code takes from the runtime: the order in which a map is ranged
    over, and the lengths of a frame's encoding and of a delta's line. *)
Class Host : Type := {
  map_order : forall A, gmap string A -> list (string * A);
  map_order_perm : forall A (m : gmap string A), map_order A m ≡ₚ map_to_list m;
  data_len : Frame -> Z;
  data_len_nonneg : forall f, 0 <= data_len f;
  line_len : Delta -> nat;
  line_len_pos : forall d, (0 < line_len d)%nat
}.

(** [rowLocked]: [None] is the panic on a row that is not there. *)
Definition rowLocked (T : tables) (c : change) : option row :=
  let key := ch_key c in
  match ch_table c with
  | tableRun => Some (RowRun (tb_run T))
  | tableScopes => RowScope <$> tb_scopes T !! key
  | tableSessions => RowSession <$> tb_sessions T !! key
  | tableInteractions => RowInteraction <$> tb_interactions T !! key
  | tableTurns => RowTurn <$> tb_turns T !! key
  | tableTurnUsage => Some (RowTurnUsage (default ∅ (tb_turnUsage T !! key)))
  | tableModelCalls => Some (RowModelCalls (default [] (tb_modelCalls T !! key)))
  | tableCommands => RowCommand <$> tb_commands T !! key
  end.

(** *** Snapshots ([snapshot.go]) *)

Record Transcript : Type := MkTranscriptSnapshot { tn_Snapshot : ProjectionState; tn_Provenance : gmap string string }.

Record RunSnapshot : Type := MkSnapshot {
  ss_Stream : string;
  ss_Position : Z;
  ss_Tables : tables;
  ss_Totals : Totals;
  ss_Transcripts : gmap string Transcript
}.

(** *** Subscribers ([subscribe.go]) *)

Inductive cause : Type := ErrOverflow.

(** A subscription that gets deltas.  Once it is out of the store's set
    ([js_listed]) nothing is added to its queue, but the queue can still be
    read; a closed channel is a set that is left with [js_drained]. *)
Record JoinSubscription : Type := MkJoin {
  js_deltas : list Delta;
  js_bytes : Z;
  js_closed : bool;
  js_err : option cause;
  js_listed : bool
}.

(** One that gets frames. *)
Record Subscription : Type := MkSubscription {
  su_frames : list Frame;
  su_bytes : Z;
  su_closed : bool;
  su_finished : bool;
  su_err : option cause;
  su_listed : bool
}.

Definition defaultMaxFrames : Z := 512.
Definition defaultMaxBytes : Z := Z.shiftl 4 20.
Definition snapshotEvery : Z := 64.

(** *** The store *)

Record durableSnapshot : Type := MkDurable {
  du_Snapshot : RunSnapshot;
  du_Calls : gmap string openCall;
  du_Offset : nat
}.

(** A line of the journal: a delta, or bytes that do not decode: the encoding
    of a delta has no line end in it and begins like an object, so the part of
    one that a failed append left, with the line that was appended to it, is no
    JSON value, and neither is the end of a line. *)
Inductive line : Type :=
| Whole (d : Delta)
| Broken (bytes : nat).

(** [observation-deltas.jsonl], as its lines and the number of bytes after the
    last line end, and [observation.json] *)
Record disk : Type := MkDisk {
  dk_journal : list line;
  dk_tail : nat;
  dk_saved : option durableSnapshot
}.

Record Store : Type := MkStore {
  so_facts : facts;
  so_stream : string;
  so_position : Z;
  so_closed : bool;
  so_fromTables : bool;
  so_writes : bool;
  so_maxFrames : Z;
  so_maxBytes : Z;
  so_recent : list Delta;
  so_journalEnd : nat;
  so_sinceSave : Z;
  so_subs : list Subscription;
  so_joins : list JoinSubscription;
  so_disk : disk
}.

(** [so_writes] is whether the store has a directory and writes to it. *)

Inductive failure : Type :=
| Malformed
| RunClosed
| WriteFailed
| NotContiguous
| Unavailable
| Refused (c : cause).

Definition with_facts (F : facts) (s : Store) : Store :=
  MkStore F (so_stream s) (so_position s) (so_closed s) (so_fromTables s) (so_writes s) (so_maxFrames s) (so_maxBytes s) (so_recent s) (so_journalEnd s) (so_sinceSave s)
    (so_subs s) (so_joins s) (so_disk s).
Definition with_position (p : Z) (recent : list Delta) (s : Store) : Store :=
  MkStore (so_facts s) (so_stream s) p (so_closed s) (so_fromTables s) (so_writes s) (so_maxFrames s) (so_maxBytes s) recent (so_journalEnd s) (so_sinceSave s)
    (so_subs s) (so_joins s) (so_disk s).
Definition with_closed (closed : bool) (s : Store) : Store :=
  MkStore (so_facts s) (so_stream s) (so_position s) closed (so_fromTables s) (so_writes s) (so_maxFrames s) (so_maxBytes s) (so_recent s) (so_journalEnd s) (so_sinceSave s)
    (so_subs s) (so_joins s) (so_disk s).
Definition with_disk (journalEnd : nat) (sinceSave : Z) (d : disk) (s : Store) : Store :=
  MkStore (so_facts s) (so_stream s) (so_position s) (so_closed s) (so_fromTables s) (so_writes s) (so_maxFrames s) (so_maxBytes s) (so_recent s) journalEnd sinceSave
    (so_subs s) (so_joins s) d.
Definition with_subs (subs : list Subscription) (joins : list JoinSubscription) (s : Store) : Store :=
  MkStore (so_facts s) (so_stream s) (so_position s) (so_closed s) (so_fromTables s) (so_writes s) (so_maxFrames s) (so_maxBytes s) (so_recent s) (so_journalEnd s) (so_sinceSave s)
    subs joins (so_disk s).

Abbreviation transcripts := (gmap string transcript).

Section Store.
Context {host : Host}.

(** [totalLocked] and [totalsLocked] *)
Definition total (matches : TurnRow -> bool) (T : tables) : Total :=
  foldl (fun t '(id, turn) =>
           if matches turn then
             foldl (fun t '(model, usage) => MkTotal (add (to_All t) usage) (<[model := add (default no_usage (to_ByModel t !! model)) usage]> (to_ByModel t)))
               t (map_order Usage (default ∅ (tb_turnUsage T !! id)))
           else t) (MkTotal no_usage ∅) (map_order TurnRow (tb_turns T)).

Definition totals (T : tables) : Totals :=
  MkTotals (map_imap (fun key _ => Some (total (fun turn => contains key (tr_Scope turn)) T)) (tb_scopes T))
           (map_imap (fun id _ => Some (total (fun turn => String.eqb (tr_Session turn) id) T)) (tb_sessions T)).

(** [snapshotLocked] *)
Definition snapshot (s : Store) : RunSnapshot :=
  let F := so_facts s in
  MkSnapshot (so_stream s) (so_position s) (fa_tables F) (totals (fa_tables F))
    ((fun t => MkTranscriptSnapshot (Snapshot (ts_projection t)) (ts_provenance t)) <$> fa_transcripts F).

(** [deltaBytes] *)
Definition deltaBytes (d : Delta) : Z := foldr (fun f n => data_len f + n) 0 (dl_Frames d).

(** [retainLocked]: the oldest deltas go until both bounds hold. *)
Fixpoint shrink (maxFrames maxBytes : Z) (recent : list Delta) : list Delta :=
  match recent with
  | [] => []
  | d :: rest =>
      if (maxFrames <? Z.of_nat (length recent)) || (maxBytes <? foldr (fun d n => deltaBytes d + n) 0 recent) then shrink maxFrames maxBytes rest else recent
  end.

Definition retain (d : Delta) (s : Store) : list Delta := shrink (so_maxFrames s) (so_maxBytes s) (so_recent s ++ [d]).

(** [offer], [publishLocked], for one subscription. *)
Definition offer (maxFrames maxBytes : Z) (f : Frame) (u : Subscription) : Subscription :=
  if negb (su_listed u) then u
  else if su_closed u || su_finished u then MkSubscription (su_frames u) (su_bytes u) (su_closed u) (su_finished u) (su_err u) false
  else if (maxFrames <=? Z.of_nat (length (su_frames u))) || (maxBytes <? su_bytes u + data_len f) then
    MkSubscription (su_frames u) (su_bytes u) true (su_finished u) (Some ErrOverflow) false
  else MkSubscription (su_frames u ++ [f]) (su_bytes u + data_len f) (su_closed u) (su_finished u) (su_err u) true.

(** [publishDeltaLocked], for one subscription. *)
Definition publish_delta (maxFrames maxBytes : Z) (d : Delta) (j : JoinSubscription) : JoinSubscription :=
  if negb (js_listed j) then j
  else if js_closed j then MkJoin (js_deltas j) (js_bytes j) true (js_err j) false
  else if (maxBytes <? js_bytes j + deltaBytes d) || (maxFrames <=? Z.of_nat (length (js_deltas j))) then MkJoin (js_deltas j) (js_bytes j) true (Some ErrOverflow) false
  else MkJoin (js_deltas j ++ [d]) (js_bytes j + deltaBytes d) false (js_err j) true.

(** How an append ends: written and synced; written, when [Sync] or [Close]
    failed; or stopped after some bytes of the line (none when the file was not
    opened). *)
Inductive append_outcome : Type :=
| Appended
| Unsynced
| Partial (bytes : nat).

(** The outcomes of writing during a commit. *)
Record commit_io : Type := MkCommitIO { io_append : append_outcome; io_tables : bool; io_save : bool }.

(** The journal after a whole line, and after some bytes of one. *)
Definition write_line (d : Delta) (k : disk) : disk :=
  MkDisk (dk_journal k ++ [if (dk_tail k =? 0)%nat then Whole d else Broken (dk_tail k + line_len d)]) 0 (dk_saved k).
Definition write_part (bytes : nat) (d : Delta) (k : disk) : disk :=
  MkDisk (dk_journal k) (dk_tail k + Nat.min bytes (line_len d - 1)) (dk_saved k).

Definition bytes_of (l : line) : nat := match l with Whole d => line_len d | Broken n => n end.

(** [Seek]: the complete lines after [offset] bytes. *)
Fixpoint lines_from (offset : nat) (ls : list line) : list line :=
  match ls with
  | [] => []
  | l :: rest =>
      if (offset =? 0)%nat then ls
      else if (bytes_of l <=? offset)%nat then lines_from (offset - bytes_of l) rest
      else Broken (bytes_of l - offset) :: rest
  end.

(** [saveSnapshotLocked] *)
Definition save (ok : bool) (s : Store) : Store * option failure :=
  if negb (so_writes s) then (s, None)
  else if ok then
    (with_disk (so_journalEnd s) 0 (MkDisk (dk_journal (so_disk s)) (dk_tail (so_disk s)) (Some (MkDurable (snapshot s) (fa_calls (so_facts s)) (so_journalEnd s)))) s, None)
  else (s, Some WriteFailed).

(** [appendDeltaLocked]: [journalEnd] moves only when everything went well. *)
Definition append_delta (w : append_outcome) (d : Delta) (s : Store) : Store * option failure :=
  if negb (so_writes s) then (s, None)
  else
    match w with
    | Appended => (with_disk (so_journalEnd s + line_len d) (so_sinceSave s) (write_line d (so_disk s)) s, None)
    | Unsynced => (with_disk (so_journalEnd s) (so_sinceSave s) (write_line d (so_disk s)) s, Some WriteFailed)
    | Partial n => (with_disk (so_journalEnd s) (so_sinceSave s) (write_part n d (so_disk s)) s, Some WriteFailed)
    end.

Definition row_frame (T : tables) (c : change) : option Frame := r ← rowLocked T c; Some (FrameRow (MkRowFrame (ch_table c) (ch_key c) r)).

(** Whether the usage of a turn moved. *)
Definition is_usage (c : change) : bool := match ch_table c with tableTurnUsage => true | _ => false end.

(** The frames of a commit, in order. *)
Definition commit_frames (changed : list change) (extra : list Frame) (T : tables) : option (list Frame) :=
  rows ← mapM (row_frame T) changed;
  Some (extra ++ rows ++ (if existsb is_usage changed then [FrameTotals (totals T)] else [])).

(** The end of [commitLocked], of a delta that is durable: it is retained,
    published frame by frame, then as a whole. *)
Definition publish (d : Delta) (s : Store) : Store :=
  let s := with_position (dl_Position d) (retain d s) s in
  with_subs ((fun u => foldl (fun u f => offer (so_maxFrames s) (so_maxBytes s) f u) u (dl_Frames d)) <$> so_subs s) (publish_delta (so_maxFrames s) (so_maxBytes s) d <$> so_joins s) s.

(** [commitLocked] *)
Definition commit (io : commit_io) (changed : list change) (extra : list Frame) (s : Store) : option (Store * option failure) :=
  match changed, extra with
  | [], [] => Some (s, None)
  | _, _ =>
      frames ← commit_frames changed extra (fa_tables (so_facts s));
      let d := MkDelta (so_stream s) (so_position s + 1) frames in
      match append_delta (io_append io) d s with
      | (s, Some e) => Some (s, Some e)
      | (s, None) =>
          if so_writes s && negb (io_tables io) then Some (s, Some WriteFailed)
          else
            let s := publish d s in
            let s := with_disk (so_journalEnd s) (so_sinceSave s + 1) (so_disk s) s in
            Some (if snapshotEvery <=? so_sinceSave s then save (io_save io) s else (s, None))
      end
  end.

(** [Lifecycle]: a record that does not decode is refused; a closed store
    takes none. *)
Definition Lifecycle (io : commit_io) (r : option record) (s : Store) : option (Store * option failure) :=
  match r with
  | None => Some (s, Some Malformed)
  | Some r =>
      if so_closed s then Some (s, None)
      else
        let F := so_facts s in
        let (T, changed) := fold_record r (fa_tables F) in
        commit io changed [] (with_facts (MkFacts T (fa_transcripts F) (fa_calls F)) s)
  end.

(** [Event]: a sidecar that does not decode is refused, and so is an event
    that is no object. *)
Definition decode_event (e : envelope) (ref : sidecar) : option obj :=
  match en_value e with
  | Some (VObj o) => if String.eqb (sc_text ref) "" || bool_decide (is_Some (sc_value ref)) then Some o else None
  | _ => None
  end.

Definition Event (io : commit_io) (at_ : Placement) (e : envelope) (ref : sidecar) (s : Store) : option (Store * option failure) :=
  match decode_event e ref with
  | None => Some (s, Some Malformed)
  | Some o =>
      if so_closed s then Some (s, Some RunClosed)
      else
        '(F, changed) ← fold_event (so_fromTables s) at_ o (en_step e) ref (so_facts s);
        commit io changed [FrameEvent (MkEventFrame at_ e ref)] (with_facts F s)
  end.

(** [finishSubscribersLocked], [finishJoinSubscribersLocked] *)
Definition finish_sub (u : Subscription) : Subscription :=
  if negb (su_listed u) then u
  else MkSubscription (su_frames u) (su_bytes u) (su_closed u) (su_finished u || negb (su_closed u)) (su_err u) false.

Definition finish_join (j : JoinSubscription) : JoinSubscription :=
  if negb (js_listed j) then j else MkJoin (js_deltas j) (js_bytes j) true (js_err j) false.

(** [Close] *)
Definition Close (ok : bool) (s : Store) : Store * option failure :=
  if so_closed s then (s, None)
  else save ok (with_subs (finish_sub <$> so_subs s) (finish_join <$> so_joins s) (with_closed true s)).

(** *** Subscribing *)

(** Whether the deltas after [position] are still there. *)
Definition resumable (stream : string) (position : Z) (s : Store) : bool :=
  String.eqb stream (so_stream s) && (position <=? so_position s) &&
  ((so_position s <=? position) ||
   let first := match so_recent s with d :: _ => dl_Position d | [] => so_position s + 1 end in first <=? position + 1).

(** [Join]: a snapshot or the deltas after [position], and the new
    subscription, last of the list. *)
Definition Join (stream : string) (position : Z) (s : Store) : option RunSnapshot * list Delta * Store :=
  if so_closed s then (Some (snapshot s), [], s)
  else
    let s' := with_subs (so_subs s) (so_joins s ++ [MkJoin [] 0 false None true]) s in
    if resumable stream position s then (None, List.filter (fun d => position <? dl_Position d) (so_recent s), s')
    else (Some (snapshot s), [], s').

Definition Subscribe (s : Store) : RunSnapshot * Store :=
  if so_closed s then (snapshot s, s) else (snapshot s, with_subs (so_subs s ++ [MkSubscription [] 0 false false None true]) (so_joins s) s).

(** A reader takes the next delta, and accounts for it ([Took]). *)
Definition receive_delta (i : nat) (s : Store) : option (Delta * Store) :=
  j ← so_joins s !! i;
  match js_deltas j with
  | d :: rest => Some (d, with_subs (so_subs s) (<[i := MkJoin rest (js_bytes j) (js_closed j) (js_err j) (js_listed j)]> (so_joins s)) s)
  | [] => None
  end.

Definition took_delta (i : nat) (d : Delta) (s : Store) : Store :=
  with_subs (so_subs s) (alter (fun j => MkJoin (js_deltas j) (js_bytes j - deltaBytes d) (js_closed j) (js_err j) (js_listed j)) i (so_joins s)) s.

Definition close_join (i : nat) (s : Store) : Store :=
  with_subs (so_subs s) (alter (fun j => if js_closed j then j else MkJoin (js_deltas j) (js_bytes j) true (js_err j) false) i (so_joins s)) s.

Definition receive_frame (i : nat) (s : Store) : option (Frame * Store) :=
  u ← so_subs s !! i;
  match su_frames u with
  | f :: rest => Some (f, with_subs (<[i := MkSubscription rest (su_bytes u) (su_closed u) (su_finished u) (su_err u) (su_listed u)]> (so_subs s)) (so_joins s) s)
  | [] => None
  end.

Definition took_frame (i : nat) (f : Frame) (s : Store) : Store :=
  with_subs (alter (fun u => MkSubscription (su_frames u) (su_bytes u - data_len f) (su_closed u) (su_finished u) (su_err u) (su_listed u)) i (so_subs s)) (so_joins s) s.

Definition close_sub (i : nat) (s : Store) : Store :=
  with_subs (alter (fun u => MkSubscription (su_frames u) (su_bytes u) true (su_finished u) (su_err u) false) i (so_subs s)) (so_joins s) s.

(** *** Recovery ([durable.go]) *)

(** [newStore] with its defaults *)
Definition newStore (id name stream : string) (writes : bool) : Store :=
  MkStore (MkFacts (new_tables id name) ∅ ∅) stream 0 false false writes defaultMaxFrames defaultMaxBytes [] 0 0 [] [] (MkDisk [] 0 None).

(** [Open] of a new run: the empty tables and the first snapshot are written. *)
Definition Open (id name stream : string) (tables_ok save_ok : bool) : Store * option failure :=
  let s := newStore id name stream true in
  if negb tables_ok then (s, Some WriteFailed) else save save_ok s.

(** [restoreRowLocked]; a row of another table's type would not decode. *)
Definition restore_row (r : rowFrame) (T : tables) : tables :=
  let key := rf_Key r in
  match rf_Table r, rf_Row r with
  | tableRun, RowRun v => with_run (fun _ => v) T
  | tableScopes, RowScope v => with_scopes (fun m => <[key := v]> m) T
  | tableSessions, RowSession v => with_sessions (fun m => <[key := v]> m) T
  | tableInteractions, RowInteraction v => with_interactions (fun m => <[key := v]> m) T
  | tableTurns, RowTurn v => with_turns (fun m => <[key := v]> m) T
  | tableTurnUsage, RowTurnUsage v => with_turnUsage (fun m => <[key := v]> m) T
  | tableModelCalls, RowModelCalls v => with_modelCalls (fun m => <[key := v]> m) T
  | tableCommands, RowCommand v => with_commands (fun m => <[key := v]> m) T
  | _, _ => T
  end.

(** [applyDeltaLocked], frame by frame: [None] is a panic of the projection.
    A sidecar that does not decode is not folded. *)
Definition apply_frame (f : Frame) (R : tables * transcripts) : option (tables * transcripts) :=
  let (T, scripts) := R in
  match f with
  | FrameRow r => Some (restore_row r T, scripts)
  | FrameTotals _ => Some (T, scripts)
  | FrameEvent e =>
      match en_value (ef_Event e) with
      | Some (VObj o) =>
          let turn := pl_Turn (ef_At e) in
          let script := default new_transcript (scripts !! turn) in
          projection ← Apply (Some o) (ts_projection script);
          Some (T, <[turn := fold_provenance (ef_NativeRef e) (MkTranscript projection (ts_provenance script))]> scripts)
      | _ => Some (T, scripts)
      end
  end.

Fixpoint apply_frames (fs : list Frame) (R : tables * transcripts) : option (tables * transcripts) :=
  match fs with [] => Some R | f :: fs => R ← apply_frame f R; apply_frames fs R end.

Definition apply_delta (d : Delta) (s : Store) : option Store :=
  '(T, scripts) ← apply_frames (dl_Frames d) (fa_tables (so_facts s), fa_transcripts (so_facts s));
  Some (with_position (dl_Position d) (so_recent s) (with_facts (MkFacts T scripts (fa_calls (so_facts s))) s)).

(** [restoreLocked]; a snapshot without a stream gets a fresh one. *)
Definition restore (fresh : string) (snap : RunSnapshot) (s : Store) : Store :=
  with_facts (MkFacts (ss_Tables snap) ((fun t => MkTranscript (New (tn_Snapshot t)) (tn_Provenance t)) <$> ss_Transcripts snap) ∅)
    (MkStore (so_facts s) (if String.eqb (ss_Stream snap) "" then fresh else ss_Stream snap) (ss_Position snap) (so_closed s) (so_fromTables s) (so_writes s) (so_maxFrames s) (so_maxBytes s) (so_recent s) (so_journalEnd s)
       (so_sinceSave s) (so_subs s) (so_joins s) (so_disk s)).

(** The deltas of the journal in order, up to a line that does not decode. *)
Fixpoint replay_lines (ls : list line) (s : Store) : option (result failure Store) :=
  match ls with
  | [] => Some (Ok s)
  | Broken _ :: _ => Some (Ok s)
  | Whole d :: ls =>
      if String.eqb (dl_Stream d) (so_stream s) && (dl_Position d =? so_position s + 1) then
        s ← apply_delta d s;
        replay_lines ls (with_disk (so_journalEnd s + line_len d) (so_sinceSave s) (so_disk s) s)
      else Some (Err NotContiguous)
  end.

(** The fields of [openCall] are not exported, so of a saved call only its key
    is read back. *)
Definition forget_call (_ : openCall) : openCall := MkOpenCall "" 0.

(** [loadDurable]; [None] inside is a directory without a saved snapshot.  The
    bytes after the last line end are not read. *)
Definition loadDurable (id fresh : string) (d : disk) : option (result failure (option Store)) :=
  match dk_saved d with
  | None => Some (Ok None)
  | Some saved =>
      let s := restore fresh (du_Snapshot saved) (newStore id (rr_Name (tb_run (ss_Tables (du_Snapshot saved)))) fresh true) in
      let F := so_facts s in
      let s := with_disk (du_Offset saved) 0 d (with_facts (MkFacts (fa_tables F) (fa_transcripts F) (forget_call <$> du_Calls saved)) s) in
      match replay_lines (lines_from (du_Offset saved) (dk_journal d)) s with
      | Some (Ok s) => Some (Ok (Some (with_closed true s)))
      | Some (Err e) => Some (Err e)
      | None => None
      end
  end.

(** [Open] of a run that has been recorded: its store, open again. *)
Definition Reopen (id fresh : string) (d : disk) : option (result failure (option Store)) :=
  match loadDurable id fresh d with
  | Some (Ok s) => Some (Ok (with_closed false <$> s))
  | r => r
  end.

(** *** Following a run of another process ([registry.go], [follow.go],
    [source.go]) *)

(** A store that [Registry.Snapshot] opens for reading only. *)
Definition Follow (id fresh : string) (d : disk) : option (result failure (option Store)) :=
  match loadDurable id fresh d with
  | Some (Ok (Some s)) =>
      Some (Ok (Some (MkStore (so_facts s) (so_stream s) (so_position s) (negb (String.eqb (rr_Status (tb_run (fa_tables (so_facts s)))) StatusRunning)) (so_fromTables s) false
        (so_maxFrames s) (so_maxBytes s) (so_recent s) (so_journalEnd s) (so_sinceSave s) (so_subs s) (so_joins s) (so_disk s))))
  | r => r
  end.

(** The next deltas are applied, kept and passed on, up to one that does not
    fit or decode; those of a [file] are counted. *)
Fixpoint follow (file : bool) (ls : list line) (s : Store) : option (Store * option failure) :=
  match ls with
  | [] => Some (s, None)
  | Broken _ :: _ => Some (s, Some Malformed)
  | Whole d :: ls =>
      if String.eqb (dl_Stream d) (so_stream s) && (dl_Position d =? so_position s + 1) then
        s ← apply_delta d s;
        let s := with_disk (so_journalEnd s + if file then line_len d else 0) (so_sinceSave s) (so_disk s) s in
        let s := with_position (so_position s) (retain d s) s in
        follow file ls (with_subs (so_subs s) (publish_delta (so_maxFrames s) (so_maxBytes s) d <$> so_joins s) s)
      else Some (s, Some NotContiguous)
  end.

(** The end of a refresh: a run that is over is closed. *)
Definition settle (s : Store) : Store :=
  if String.eqb (rr_Status (tb_run (fa_tables (so_facts s)))) StatusRunning then s else with_subs (so_subs s) (finish_join <$> so_joins s) (with_closed true s).

(** [refresh], once no other process is found dead. *)
Definition refresh (d : disk) (s : Store) : option (Store * option failure) :=
  match follow true (lines_from (so_journalEnd s) (dk_journal d)) s with
  | Some (s, None) => Some (settle s, None)
  | r => r
  end.

(** What another environment answers. *)
Record observation : Type := MkObservation { ob_Unavailable : bool; ob_Gap : bool; ob_Snapshot : option RunSnapshot; ob_Deltas : list Delta; ob_Cursor : string }.

Definition drop_join (j : JoinSubscription) : JoinSubscription :=
  if negb (js_listed j) then j else if js_closed j then MkJoin (js_deltas j) (js_bytes j) true (js_err j) false else MkJoin (js_deltas j) (js_bytes j) true (Some ErrOverflow) false.

(** A snapshot that replaces what was there. *)
Definition replace_by (fresh cursor : string) (snap : RunSnapshot) (s : Store) : Store :=
  let s := if String.eqb cursor "" then s else with_subs (finish_sub <$> so_subs s) (drop_join <$> so_joins s) s in
  let s := restore fresh snap (with_position (so_position s) [] s) in
  with_closed (negb (String.eqb (rr_Status (tb_run (fa_tables (so_facts s)))) StatusRunning)) s.

(** [refreshSource], with the cursor before and after. *)
Definition refreshSource (fresh : string) (response : observation) (cursor : string) (s : Store) : option (string * Store * option failure) :=
  if ob_Unavailable response then Some (cursor, s, Some Unavailable)
  else if ob_Gap response && negb (bool_decide (is_Some (ob_Snapshot response))) then Some ("", s, Some NotContiguous)
  else
    let s := match ob_Snapshot response with Some snap => replace_by fresh cursor snap s | None => s end in
    match follow false (Whole <$> ob_Deltas response) s with
    | Some (s, None) => Some (ob_Cursor response, settle s, None)
    | Some (s, Some e) => Some ("", s, Some e)
    | None => None
    end.

(** *** What happens to a store *)

Inductive op : Type :=
| ORecord (io : commit_io) (r : option record)
| OEvent (io : commit_io) (at_ : Placement) (e : envelope) (ref : sidecar)
| OClose (ok : bool)
| OJoin (stream : string) (position : Z)
| OSubscribe
| OReceiveDelta (i : nat)
| OTookDelta (i : nat) (d : Delta)
| OCloseJoin (i : nat)
| OReceiveFrame (i : nat)
| OTookFrame (i : nat) (f : Frame)
| OCloseSub (i : nat).

(** [None] is a panic, or nothing to receive. *)
Definition exec (o : op) (s : Store) : option Store :=
  match o with
  | ORecord io r => fst <$> Lifecycle io r s
  | OEvent io at_ e ref => fst <$> Event io at_ e ref s
  | OClose ok => Some (fst (Close ok s))
  | OJoin stream position => Some (snd (Join stream position s))
  | OSubscribe => Some (snd (Subscribe s))
  | OReceiveDelta i => snd <$> receive_delta i s
  | OTookDelta i d => Some (took_delta i d s)
  | OCloseJoin i => Some (close_join i s)
  | OReceiveFrame i => snd <$> receive_frame i s
  | OTookFrame i f => Some (took_frame i f s)
  | OCloseSub i => Some (close_sub i s)
  end.
End Store.
