(* ===== verification/ObservationDelta.v ===== *)
(** * A delta says everything

    What a fold changed is what the rows it names hold afterwards: restoring
    them into the tables from before gives the tables from after.  Transcripts
    go on from the native event itself, and projections that are related stay
    so ([rel] of [SessionSim]). *)

From S2P Require Import Prelude GoText SessionJson SessionState SessionReduce SessionIndex SessionInv SessionSim SessionProps SessionMain GoValue Observation ObservationStore.
From Stdlib Require Import Ascii SpecFloat.

Open Scope string_scope.
Open Scope list_scope.
Open Scope Z_scope.

(** ** Definitions *)

#[global] Instance table_eq_dec : EqDecision table.
Proof. solve_decision. Defined.
#[global] Instance change_eq_dec : EqDecision change.
Proof. solve_decision. Defined.

(** The row a change names, if it is there; the run has one row. *)
Definition lookup_row (T : tables) (c : change) : option row :=
  let key := ch_key c in
  match ch_table c with
  | tableRun => if String.eqb key "" then Some (RowRun (tb_run T)) else None
  | tableScopes => RowScope <$> tb_scopes T !! key
  | tableSessions => RowSession <$> tb_sessions T !! key
  | tableInteractions => RowInteraction <$> tb_interactions T !! key
  | tableTurns => RowTurn <$> tb_turns T !! key
  | tableTurnUsage => RowTurnUsage <$> tb_turnUsage T !! key
  | tableModelCalls => RowModelCalls <$> tb_modelCalls T !! key
  | tableCommands => RowCommand <$> tb_commands T !! key
  end.

(** [T'] differs from [T] in the rows that [changed] names only, which it
    has. *)
Record covers (changed : list change) (T T' : tables) : Prop := {
  cv_same : forall c, c ∉ changed -> lookup_row T' c = lookup_row T c;
  cv_there : forall c, c ∈ changed -> is_Some (lookup_row T' c);
}.

Definition script_same (a b : transcript) : Prop := rel (ts_projection a) (ts_projection b) /\ ts_provenance a = ts_provenance b.

Definition scripts_same (a b : transcripts) : Prop := forall turn, option_Forall2 script_same (a !! turn) (b !! turn).

(** ** Lemmas *)

Lemma tables_ext T T' : (forall c, lookup_row T c = lookup_row T' c) -> T = T'.
Proof.
  intros H. destruct T as [r1 a1 b1 c1 d1 e1 f1 g1], T' as [r2 a2 b2 c2 d2 e2 f2 g2].
  assert (forall A (q : A -> row) (m m' : gmap string A), (forall x y, q x = q y -> x = y) -> (forall k, q <$> m !! k = q <$> m' !! k) -> m = m') as Hm.
  { intros A q m m' Hq Hk. apply map_eq. intros k. specialize (Hk k). destruct (m !! k) as [x|], (m' !! k) as [y|]; cbn in Hk; try done. injection Hk as Hk. by rewrite (Hq _ _ Hk). }
  f_equal.
  - specialize (H (MkChange tableRun "")). cbn in H. by injection H.
  - apply (Hm _ RowScope); [by intros x y [=]|]. intros k. apply (H (MkChange tableScopes k)).
  - apply (Hm _ RowSession); [by intros x y [=]|]. intros k. apply (H (MkChange tableSessions k)).
  - apply (Hm _ RowInteraction); [by intros x y [=]|]. intros k. apply (H (MkChange tableInteractions k)).
  - apply (Hm _ RowTurn); [by intros x y [=]|]. intros k. apply (H (MkChange tableTurns k)).
  - apply (Hm _ RowTurnUsage); [by intros x y [=]|]. intros k. apply (H (MkChange tableTurnUsage k)).
  - apply (Hm _ RowModelCalls); [by intros x y [=]|]. intros k. apply (H (MkChange tableModelCalls k)).
  - apply (Hm _ RowCommand); [by intros x y [=]|]. intros k. apply (H (MkChange tableCommands k)).
Qed.

(** A row that is there is the row of its frame. *)
Lemma row_there T c r : lookup_row T c = Some r -> rowLocked T c = Some r.
Proof.
  unfold lookup_row, rowLocked. destruct c as [t k]. cbn. destruct t; try done.
  - by destruct (String.eqb k "").
  - by destruct (tb_turnUsage T !! k).
  - by destruct (tb_modelCalls T !! k).
Qed.

(** Restoring a row of [T'] puts it there and nothing else. *)
Lemma restore_lookup T T' c r c' : lookup_row T' c = Some r ->
  lookup_row (restore_row (MkRowFrame (ch_table c) (ch_key c) r) T) c' = if decide (c' = c) then Some r else lookup_row T c'.
Proof.
  destruct c as [t k], c' as [t' k']. unfold lookup_row. cbn. intros H.
  assert (forall A (q : A -> row) (m : gmap string A) v, q <$> <[k := v]> m !! k' = if decide (k' = k) then Some (q v) else q <$> m !! k') as Hins.
  { intros A q m v. destruct (decide (k' = k)) as [->|]; [by rewrite lookup_insert_eq|by rewrite lookup_insert_ne]. }
  assert (forall t t' k k', t <> t' -> MkChange t' k' <> MkChange t k) as Hne by congruence.
  assert (forall t, (if decide (MkChange t k' = MkChange t k) then Some r else None) = if decide (k' = k) then Some r else None) as Hk.
  { intros t0. do 2 case_decide; congruence. }
  destruct t.
  1: { destruct (String.eqb_spec k ""); [|done]. subst. injection H as <-. destruct t'; cbn; rewrite ?decide_False by (by apply Hne); try done.
       destruct (String.eqb_spec k' ""); [subst; by rewrite decide_True|]. rewrite decide_False by congruence. done. }
  all: match type of H with fmap _ ?o = _ => destruct o as [v|]; [|done] end; injection H as <-;
    destruct t'; cbn; rewrite ?decide_False by (by apply Hne); try done; rewrite Hins; do 2 case_decide; congruence.
Qed.

Section Frames.
Context {host : Host}.

(** The frames of the rows, restored in order. *)
Lemma restore_rows changed T T' : (forall c, c ∈ changed -> is_Some (lookup_row T' c)) ->
  exists rows, mapM (row_frame T') changed = Some rows /\
    forall scripts, exists T1, apply_frames rows (T, scripts) = Some (T1, scripts) /\
      forall c, lookup_row T1 c = if decide (c ∈ changed) then lookup_row T' c else lookup_row T c.
Proof.
  revert T. induction changed as [|c changed IH]; intros T Ht.
  { exists []. split; [done|]. intros scripts. exists T. split; [done|]. intros c. rewrite decide_False; [done|]. by intros ?%elem_of_nil. }
  destruct (Ht c) as [r Hr]; [by left|]. destruct (IH (restore_row (MkRowFrame (ch_table c) (ch_key c) r) T)) as (rows & Hrows & Happ); [intros c' Hc'; apply Ht; by right|].
  exists (FrameRow (MkRowFrame (ch_table c) (ch_key c) r) :: rows). split.
  { assert (row_frame T' c = Some (FrameRow (MkRowFrame (ch_table c) (ch_key c) r))) as E by (unfold row_frame; by rewrite (row_there _ _ _ Hr)).
    cbn [mapM]. rewrite E. cbn. by rewrite Hrows. }
  intros scripts. destruct (Happ scripts) as (T1 & H1 & Hl). exists T1. split; [done|]. intros c'. rewrite Hl, (restore_lookup T T' c r c' Hr).
  destruct (decide (c' ∈ changed)) as [Hin|Hin]; [by rewrite decide_True by (by right)|]. case_decide as E.
  - subst. rewrite decide_True by left. done.
  - rewrite decide_False; [done|]. by intros [|]%elem_of_cons.
Qed.

Lemma covers_frames changed T T' scripts : covers changed T T' ->
  exists rows, mapM (row_frame T') changed = Some rows /\ apply_frames rows (T, scripts) = Some (T', scripts).
Proof.
  intros [Hs Ht]. destruct (restore_rows changed T T' Ht) as (rows & Hrows & Happ). exists rows. split; [done|]. destruct (Happ scripts) as (T1 & H1 & Hl).
  rewrite H1. do 2 f_equal. apply tables_ext. intros c. rewrite Hl. case_decide; [done|]. by rewrite Hs.
Qed.

Lemma apply_frames_app fs fs' R : apply_frames (fs ++ fs') R = R ← apply_frames fs R; apply_frames fs' R.
Proof. revert R. induction fs as [|f fs IH]; intros R; cbn; [done|]. destruct (apply_frame f R); cbn; [apply IH|done]. Qed.

(** *** What the folds cover *)

Lemma covers_nil T : covers [] T T.
Proof. split; [done|]. by intros c ?%elem_of_nil. Qed.

Lemma covers_trans l l' T1 T2 T3 : covers l T1 T2 -> covers l' T2 T3 -> covers (l ++ l') T1 T3.
Proof.
  intros [H1 H2] [H3 H4]. split.
  - intros c Hc. rewrite elem_of_app in Hc. rewrite H3, H1 by tauto. done.
  - intros c [Hc|Hc]%elem_of_app; [|by apply H4]. destruct (decide (c ∈ l')) as [|Hn]; [by apply H4|]. rewrite H3 by done. by apply H2.
Qed.

(** A change of one row of one table. *)
Ltac cover_one := split; [intros [t k] Hc; apply not_elem_of_cons in Hc as [Hc _]; destruct t; cbn; try done; rewrite lookup_insert_ne by congruence; done
                         |intros c ->%list_elem_of_singleton; cbn; rewrite lookup_insert_eq; by eexists].

Lemma covers_run f T : covers [MkChange tableRun ""] T (with_run f T).
Proof.
  split.
  - intros [t k] Hc. apply not_elem_of_cons in Hc as [Hc _]. destruct t; cbn; try done. destruct (String.eqb_spec k ""); [congruence|done].
  - intros c ->%list_elem_of_singleton. by eexists.
Qed.

Lemma covers_scope key f T : covers [MkChange tableScopes key] T (edit_scope key f T).
Proof. cover_one. Qed.

Lemma covers_session key v T : covers [MkChange tableSessions key] T (with_sessions (fun m => <[key := v]> m) T).
Proof. cover_one. Qed.

Lemma covers_interaction key v T : covers [MkChange tableInteractions key] T (with_interactions (fun m => <[key := v]> m) T).
Proof. cover_one. Qed.

Lemma covers_turn at_ f T : covers [MkChange tableTurns (pl_Turn at_)] T (edit_turn at_ f T).
Proof. cover_one. Qed.

Lemma covers_usage key v T : covers [MkChange tableTurnUsage key] T (with_turnUsage (fun m => <[key := v]> m) T).
Proof. cover_one. Qed.

Lemma covers_calls key v T : covers [MkChange tableModelCalls key] T (with_modelCalls (fun m => <[key := v]> m) T).
Proof. cover_one. Qed.

Lemma covers_command scope id f T : covers [MkChange tableCommands id] T (edit_command scope id f T).
Proof. cover_one. Qed.

Lemma fold_record_covers r T : covers (fold_record r T).2 T (fold_record r T).1.
Proof.
  unfold fold_record. destruct (rec_Event r); cbn [fst snd]; try apply covers_run; try apply covers_scope; try apply covers_command; try apply covers_nil.
  - destruct (_ && _ && _); [apply covers_run|apply covers_nil].
  - destruct (String.eqb _ _); [apply covers_nil|apply covers_run].
  - apply covers_session.
  - destruct (tb_sessions T !! target); [apply covers_session|apply covers_nil].
  - apply covers_interaction.
  - apply (covers_turn (MkPlacement (rec_Scope r) (rec_Session r) (rec_Turn r))).
  - eapply (covers_trans [_] [_]); [apply (covers_turn (MkPlacement (rec_Scope r) (rec_Session r) (rec_Turn r)))|apply covers_usage].
Qed.

Lemma turn_seen_covers b at_ T : covers (turn_seen b at_ T).2 T (turn_seen b at_ T).1.
Proof. unfold turn_seen. destruct b; [apply covers_nil|]. destruct (tb_turns T !! pl_Turn at_); [apply covers_nil|apply covers_turn]. Qed.

Lemma availability_covers at_ kind T : covers (availability at_ kind T).2 T (availability at_ kind T).1.
Proof. unfold availability. destruct (_ || _); [apply covers_turn|apply covers_nil]. Qed.

Lemma foldStep_covers b at_ event s F F' changed : foldStep b at_ event s F = Some (F', changed) ->
  covers changed (fa_tables F) (fa_tables F') /\ fa_transcripts F' = fa_transcripts F.
Proof.
  unfold foldStep. destruct b; [intros [= <- <-]; split; [apply covers_nil|done]|]. destruct (_ && _ && _); [intros [= <- <-]; split; [apply covers_nil|done]|].
  destruct s as [data|]; [|intros [= <- <-]; split; [apply covers_nil|done]]. destruct (String.eqb _ "session.step.started"); [intros [= <- <-]; split; [apply covers_nil|done]|].
  destruct (_ && (_ || _)); [intros [= <- <-]; split; [apply covers_nil|done]|]. destruct (indexOfCall _ _) as [i|].
  - intros [= <- <-]. split; [apply covers_calls|done].
  - cbn. destruct (tb_turns (fa_tables F) !! pl_Turn at_) as [turn|]; [|done]. cbn. destruct (negb _); intros [= <- <-]; cbn.
    + split; [apply covers_calls|done].
    + split; [|done]. eapply (covers_trans [_] [_]); [apply covers_calls|apply covers_usage].
Qed.

(** *** Transcripts *)

Lemma new_state_ok : state_ok NewProjectionState.
Proof.
  split; [done| |done]. unfold others_ok. cbn. split_and!; intros *; rewrite ?lookup_empty; done.
Qed.

Lemma rel_new : rel (New NewProjectionState) (New NewProjectionState).
Proof. apply rel_refl. by apply New_inv, new_state_ok. Qed.

Lemma apply_related event p q : event_ok event -> rel p q -> exists p' q', Apply event p = Some p' /\ Apply event q = Some q' /\ rel p' q'.
Proof.
  intros He Hr. destruct (both_run [event] p q) as (p' & q' & Hp & Hq & H'); [by constructor|done|]. cbn in Hp, Hq. by exists p', q'.
Qed.

Lemma provenance_same ref a b : script_same a b -> script_same (fold_provenance ref a) (fold_provenance ref b).
Proof. intros [H1 H2]. unfold fold_provenance. destruct (String.eqb _ _); [done|]. split; cbn; [done|by rewrite H2]. Qed.

Lemma default_same (A B : transcripts) turn : scripts_same A B -> script_same (default new_transcript (A !! turn)) (default new_transcript (B !! turn)).
Proof. intros H. specialize (H turn). inversion H; cbn; [done|]. split; [apply rel_new|done]. Qed.

Lemma insert_same (A B : transcripts) turn a b : scripts_same A B -> script_same a b -> scripts_same (<[turn := a]> A) (<[turn := b]> B).
Proof.
  intros H Hab t. destruct (decide (turn = t)) as [->|]; [rewrite !lookup_insert_eq; by constructor|]. rewrite !lookup_insert_ne by done. apply H.
Qed.

(** *** The frames of a fold *)

Lemma totals_frame (b : bool) T scripts R : apply_frames (if b then [FrameTotals (totals T)] else []) (R, scripts) = Some (R, scripts).
Proof. by destruct b. Qed.

Lemma record_frames r T scripts : exists frames, commit_frames (fold_record r T).2 [] (fold_record r T).1 = Some frames /\
  apply_frames frames (T, scripts) = Some ((fold_record r T).1, scripts).
Proof.
  destruct (covers_frames _ _ _ scripts (fold_record_covers r T)) as (rows & Hrows & Happ). unfold commit_frames. rewrite Hrows. cbn. eexists. split; [done|].
  rewrite apply_frames_app, Happ. cbn. apply totals_frame.
Qed.

(** An event that decoded folds without a panic, and its frames say what it
    did, whoever reads them. *)
Lemma event_frames b at_ e ref o F B :
  event_ok (Some o) -> decode_event e ref = Some o -> scripts_same (fa_transcripts F) B ->
  exists F' changed frames B', fold_event b at_ o (en_step e) ref F = Some (F', changed) /\
    commit_frames changed [FrameEvent (MkEventFrame at_ e ref)] (fa_tables F') = Some frames /\
    apply_frames frames (fa_tables F, B) = Some (fa_tables F', B') /\ scripts_same (fa_transcripts F') B'.
Proof.
  intros Ho Hd Hs. unfold fold_event. destruct (turn_seen b at_ (fa_tables F)) as [T1 seen] eqn:E1. destruct (availability _ _ T1) as [T2 available] eqn:E2.
  pose proof (default_same _ _ (pl_Turn at_) Hs) as [Hrel Hprov].
  destruct (apply_related _ _ _ Ho Hrel) as (p & q & Hp & Hq & Hpq). rewrite Hp. cbn.
  pose proof (turn_seen_covers b at_ (fa_tables F)) as C1. rewrite E1 in C1. cbn in C1. pose proof (availability_covers at_ (str (get o "type")) T1) as C2. rewrite E2 in C2. cbn in C2.
  set (scripts := <[pl_Turn at_ := _]> (fa_transcripts F)).
  assert (b = true \/ is_Some (tb_turns T2 !! pl_Turn at_)) as Hturn.
  { destruct b; [by left|]. right. unfold turn_seen in E1. assert (is_Some (tb_turns T1 !! pl_Turn at_)) as H1.
    { destruct (tb_turns (fa_tables F) !! pl_Turn at_) eqn:Et; injection E1 as <- _; [by eexists|]. cbn. rewrite lookup_insert_eq. by eexists. }
    unfold availability in E2. destruct (_ || _); injection E2 as <- _; [|done]. cbn. rewrite lookup_insert_eq. by eexists. }
  assert (exists F' changed, foldStep b at_ o (en_step e) (MkFacts T2 scripts (fa_calls F)) = Some (F', changed)) as (F' & changed & Hstep).
  { unfold foldStep. destruct Hturn as [->|[turn Ht]]; [by do 2 eexists|]. cbn [fa_tables]. destruct b; [by do 2 eexists|].
    repeat (case_match; try by do 2 eexists); rewrite Ht; cbn; case_match; by do 2 eexists. }
  rewrite Hstep. cbn. apply foldStep_covers in Hstep as [C3 Hscripts]. cbn in C3, Hscripts.
  pose proof (covers_trans _ _ _ _ _ C1 (covers_trans _ _ _ _ _ C2 C3)) as C.
  assert (en_value e = Some (VObj o)) as He.
  { unfold decode_event in Hd. destruct (en_value e) as [[]|]; try done. destruct (_ || _); [by injection Hd as ->|done]. }
  set (B' := <[pl_Turn at_ := fold_provenance ref (MkTranscript q (ts_provenance (default new_transcript (B !! pl_Turn at_))))]> B).
  destruct (covers_frames _ _ _ B' C) as (rows & Hrows & Happ).
  exists F', (seen ++ available ++ changed). eexists. exists B'. split; [done|]. unfold commit_frames. rewrite Hrows. cbn. split; [done|]. split.
  - cbn [app apply_frames apply_frame ef_Event ef_At ef_NativeRef]. rewrite He. change (@Some (list (string * val)) o) with (@Some obj o). rewrite Hq. cbn [mbind option_bind]. rewrite apply_frames_app. fold B'. rewrite Happ. cbn. apply totals_frame.
  - rewrite Hscripts. apply insert_same; [done|]. by apply provenance_same.
Qed.
End Frames.
