(* ===== verification/ObservationJournal.v ===== *)
(** * The journal is the store

    As long as no append and no table failed to be written, the last saved
    snapshot and the deltas after it give back the tables and the transcripts,
    at every moment of a run: also when it stops in the middle of an operation,
    with a torn last line or with tables and snapshot not written. *)

From S2P Require Import Prelude GoText SessionJson SessionState SessionReduce SessionIndex SessionInv SessionSim SessionProps SessionMain GoValue Observation ObservationStore ObservationDelta.
From Stdlib Require Import Ascii SpecFloat.

Open Scope string_scope.
Open Scope list_scope.
Open Scope Z_scope.

(** ** Definitions *)

Section Journal.
Context {host : Host}.

Abbreviation tables_of s := (fa_tables (so_facts s)).
Abbreviation scripts_of s := (fa_transcripts (so_facts s)).
(** The deltas of a journal, and the bytes they take. *)
Definition deltas (ls : list line) : list Delta := omap (fun l => match l with Whole d => Some d | Broken _ => None end) ls.
Fixpoint size (ds : list Delta) : nat := match ds with [] => 0%nat | d :: ds => (line_len d + size ds)%nat end.

Abbreviation journal_of s := (deltas (dk_journal (so_disk s))).

Fixpoint apply_deltas (ds : list Delta) (R : tables * transcripts) : option (tables * transcripts) :=
  match ds with [] => Some R | d :: ds => R ← apply_frames (dl_Frames d) R; apply_deltas ds R end.

(** The deltas are of the stream, with the positions after [p]. *)
Definition consecutive (stream : string) (p : Z) (ds : list Delta) : Prop :=
  forall i d, ds !! i = Some d -> dl_Stream d = stream /\ dl_Position d = p + Z.of_nat i + 1.

(** What reading [ds] does to whatever is like [s] makes it like [s']. *)
Definition reads (s s' : Store) (ds : list Delta) : Prop :=
  forall B, scripts_same (scripts_of s) B -> exists B', apply_deltas ds (tables_of s, B) = Some (tables_of s', B') /\ scripts_same (scripts_of s') B'.

(** [s'] comes after [s] by the deltas [ds]. *)
Record moved (s s' : Store) (ds : list Delta) : Prop := {
  mv_stream : so_stream s' = so_stream s;
  mv_writes : so_writes s' = so_writes s;
  mv_limits : so_maxFrames s' = so_maxFrames s /\ so_maxBytes s' = so_maxBytes s;
  mv_position : so_position s' = so_position s + Z.of_nat (length ds);
  mv_lines : dk_journal (so_disk s') = dk_journal (so_disk s) ++ (Whole <$> ds);
  mv_tail : dk_tail (so_disk s') = dk_tail (so_disk s);
  mv_end : so_journalEnd s' = (so_journalEnd s + size ds)%nat;
  mv_deltas : consecutive (so_stream s) (so_position s) ds;
  mv_reads : reads s s' ds;
  mv_saved : dk_saved (so_disk s') = dk_saved (so_disk s) \/ dk_saved (so_disk s') = Some (MkDurable (snapshot s') (fa_calls (so_facts s')) (so_journalEnd s'));
}.

(** A subscription after [ds] were published: it has them all, or it is out of
    the set. *)
Definition follows (ds : list Delta) (j j' : JoinSubscription) : Prop :=
  (js_deltas j' = js_deltas j /\ (js_listed j' = true -> js_listed j = true /\ ds = [])) \/ (js_deltas j' = js_deltas j ++ ds /\ js_listed j = true).

(** What the readers have of [ds]; the one that [except] names takes a
    delta. *)
Record heard (except : option nat) (s s' : Store) (ds : list Delta) : Prop := {
  hd_recent : exists n, so_recent s' = drop n (so_recent s ++ ds);
  hd_joins : forall i j, except <> Some i -> so_joins s !! i = Some j -> exists j', so_joins s' !! i = Some j' /\ follows ds j j';
}.

Definition taker (o : op) : option nat := match o with OReceiveDelta i => Some i | _ => None end.

(** An event that decodes is well formed. *)
Definition sound_op (o : op) : Prop :=
  match o with OEvent _ _ e ref => forall o, decode_event e ref = Some o -> event_ok (Some o) | _ => True end.

(** Moreover no append and no table failed to be written. *)
Definition good_op (o : op) : Prop :=
  sound_op o /\ match o with ORecord io _ | OEvent io _ _ _ => io_append io = Appended /\ io_tables io = true | _ => True end.

(** The operation when what has to be durable is written (a snapshot that is
    due is not). *)
Definition completed (o : op) : op :=
  match o with
  | ORecord _ r => ORecord (MkCommitIO Appended true false) r
  | OEvent _ at_ e ref => OEvent (MkCommitIO Appended true false) at_ e ref
  | OClose _ => OClose false
  | o => o
  end.

(** Two directories that differ in the bytes after the last line end only. *)
Definition same_lines (k k' : disk) : Prop := dk_journal k' = dk_journal k /\ dk_saved k' = dk_saved k.

(** No transcript holds a nil slice, which a snapshot would turn into an empty
    one. *)
Definition clean (s : Store) : Prop := map_Forall (fun _ t => CloneState (state (ts_projection t)) = state (ts_projection t)) (scripts_of s).

(** The stores of a run, which may stop at any moment and be opened again.
    What is on the disk when it stops in the middle of an operation is what one
    of the outcomes of writing leaves; a torn line has to be cut off before the
    run goes on. *)
Inductive recorded (id name stream : string) : Store -> Prop :=
| recorded_open s : Open id name stream true true = (s, None) -> recorded id name stream s
| recorded_step o s s' : recorded id name stream s -> good_op o -> exec o s = Some s' -> clean s' -> recorded id name stream s'
| recorded_reopen fresh s s' : recorded id name stream s -> Reopen id fresh (so_disk s) = Some (Ok (Some s')) -> recorded id name stream s'
| recorded_stopped o fresh s s1 s' : recorded id name stream s -> sound_op o -> exec o s = Some s1 -> clean s1 ->
    Reopen id fresh (MkDisk (dk_journal (so_disk s1)) 0 (dk_saved (so_disk s1))) = Some (Ok (Some s')) -> recorded id name stream s'.

(** ** Lemmas *)

Lemma apply_deltas_app ds ds' R : apply_deltas (ds ++ ds') R = R ← apply_deltas ds R; apply_deltas ds' R.
Proof. revert R. induction ds as [|d ds IH]; intros R; cbn; [done|]. destruct (apply_frames _ R); cbn; [apply IH|done]. Qed.

Lemma consecutive_app stream p ds ds' : consecutive stream p ds -> consecutive stream (p + Z.of_nat (length ds)) ds' -> consecutive stream p (ds ++ ds').
Proof.
  intros H1 H2 i d [Hi|[Hge Hi]]%lookup_app_Some; [by apply H1|]. destruct (H2 _ _ Hi) as [-> ->]. split; [done|]. lia.
Qed.

Lemma consecutive_drop stream p n ds : consecutive stream p ds -> consecutive stream (p + Z.of_nat n) (drop n ds).
Proof. intros H i d Hi. rewrite lookup_drop in Hi. destruct (H _ _ Hi) as [-> ->]. split; [done|lia]. Qed.

Lemma size_app ds ds' : size (ds ++ ds') = (size ds + size ds')%nat.
Proof. induction ds as [|d ds IH]; cbn; [done|]. rewrite IH. lia. Qed.

Lemma deltas_whole ds : deltas (Whole <$> ds) = ds.
Proof. induction ds as [|d ds IH]; cbn; [done|]. f_equal. exact IH. Qed.

Lemma deltas_app ls ls' : deltas (ls ++ ls') = deltas ls ++ deltas ls'.
Proof. apply omap_app. Qed.

Lemma lines_from_zero ls : lines_from 0 ls = ls.
Proof. by destruct ls. Qed.

Lemma lines_from_size ds ls : lines_from (size ds) ((Whole <$> ds) ++ ls) = ls.
Proof.
  induction ds as [|d ds IH]; cbn; [apply lines_from_zero|]. pose proof (line_len_pos d). rewrite (proj2 (Nat.eqb_neq _ _)) by lia. rewrite (proj2 (Nat.leb_le _ _)) by lia.
  replace (line_len d + size ds - line_len d)%nat with (size ds) by lia. exact IH.
Qed.

(** Reading from where the first [n] deltas end. *)
Lemma lines_from_drop n ds : lines_from (size (take n ds)) (Whole <$> ds) = Whole <$> drop n ds.
Proof. rewrite <- (take_drop n ds) at 2. rewrite fmap_app. apply lines_from_size. Qed.

Lemma size_all n ds : (length ds <= n)%nat -> size (take n ds) = size ds.
Proof. intros H. by rewrite take_ge. Qed.

Lemma moved_journal s s' ds : moved s s' ds -> journal_of s' = journal_of s ++ ds.
Proof. intros Hm. by rewrite (mv_lines _ _ _ Hm), deltas_app, deltas_whole. Qed.

Lemma scripts_same_refl A B : scripts_same A B -> scripts_same A A.
Proof.
  intros H t. specialize (H t). inversion H as [a b Hab E1 E2|]; [|constructor]. constructor. destruct Hab as [(_ & Ha & _) _]. split; [|done]. by apply rel_refl.
Qed.

Lemma scripts_same_trans A B C : scripts_same A B -> scripts_same B C -> scripts_same A C.
Proof.
  intros H1 H2 t. specialize (H1 t). specialize (H2 t). inversion H1 as [a b Hab E1 E2|E1 E2]; rewrite <- E2 in H2; inversion H2 as [b' c Hbc|]; subst; constructor.
  destruct Hab as [(A1 & A2 & A3) A4], Hbc as [(B1 & B2 & B3) B4]. split; [split_and!; congruence|congruence].
Qed.

Lemma reads_nil s s' : tables_of s' = tables_of s -> scripts_of s' = scripts_of s -> reads s s' [].
Proof. intros H1 H2 B HB. exists B. by rewrite H1, H2. Qed.

(** *** What the readers have *)

Lemma still_follows j : follows [] j j.
Proof. left. by split. Qed.

Lemma heard_still except s s' : so_recent s' = so_recent s -> (forall i j, except <> Some i -> so_joins s !! i = Some j -> exists j', so_joins s' !! i = Some j' /\ follows [] j j') ->
  heard except s s' [].
Proof. intros H1 H2. split; [|done]. exists 0%nat. by rewrite H1, app_nil_r. Qed.

Lemma heard_same except s s' : so_recent s' = so_recent s -> so_joins s' = so_joins s -> heard except s s' [].
Proof. intros H1 H2. apply heard_still; [done|]. intros i j _ Hj. exists j. rewrite H2. split; [done|apply still_follows]. Qed.

Lemma heard_map except s s' (f : JoinSubscription -> JoinSubscription) : so_recent s' = so_recent s -> so_joins s' = f <$> so_joins s -> (forall j, follows [] j (f j)) -> heard except s s' [].
Proof. intros H1 H2 Hf. apply heard_still; [done|]. intros i j _ Hj. exists (f j). by rewrite H2, list_lookup_fmap, Hj. Qed.

Lemma heard_alter except k s s' (f : JoinSubscription -> JoinSubscription) : so_recent s' = so_recent s -> so_joins s' = alter f k (so_joins s) -> (forall j, follows [] j (f j)) -> heard except s s' [].
Proof.
  intros H1 H2 Hf. apply heard_still; [done|]. intros i j _ Hj. destruct (decide (i = k)) as [->|].
  - exists (f j). by rewrite H2, list_lookup_alter_eq, Hj.
  - exists j. rewrite H2, list_lookup_alter_ne by done. split; [done|apply still_follows].
Qed.

Lemma shrink_drop maxFrames maxBytes l : exists n, shrink maxFrames maxBytes l = drop n l.
Proof.
  induction l as [|d l [n IH]]; [by exists 0%nat|]. cbn. destruct (_ || _); [by exists (S n)|by exists 0%nat].
Qed.

Lemma publish_follows maxFrames maxBytes d j : follows [d] j (publish_delta maxFrames maxBytes d j).
Proof.
  unfold publish_delta. destruct (js_listed j) eqn:El; cbn; [|left; by split; [|congruence]]. destruct (js_closed j); [by left|]. destruct (_ || _); [by left|by right].
Qed.

Lemma finish_follows j : follows [] j (finish_join j).
Proof. unfold finish_join. destruct (js_listed j) eqn:El; cbn; [by left|]. left. by split; [|congruence]. Qed.

(** *** What is kept of a commit *)

(** Everything that matters to the journal but where it stands. *)
Lemma moved_still s s' : so_facts s' = so_facts s -> so_stream s' = so_stream s -> so_writes s' = so_writes s -> so_position s' = so_position s ->
  so_maxFrames s' = so_maxFrames s -> so_maxBytes s' = so_maxBytes s -> so_disk s' = so_disk s -> so_journalEnd s' = so_journalEnd s -> moved s s' [].
Proof.
  intros H1 H2 H3 H4 H5 H6 H7 H8. split; cbn; rewrite ?H2, ?H3, ?H4, ?H5, ?H6, ?H7, ?H8, ?app_nil_r, ?Nat.add_0_r, ?Z.add_0_r; try done; [|by left].
  apply reads_nil; by rewrite H1.
Qed.

Lemma save_saved ok s : (save ok s).1 = s \/
  exists n, (save ok s).1 = with_disk (so_journalEnd s) n (MkDisk (dk_journal (so_disk s)) (dk_tail (so_disk s)) (Some (MkDurable (snapshot s) (fa_calls (so_facts s)) (so_journalEnd s)))) s.
Proof. unfold save. destruct (so_writes s); [|by left]. destruct ok; [right; by eexists|by left]. Qed.

Lemma commit_moved io changed extra s F frames :
  so_writes s = true -> dk_tail (so_disk s) = 0%nat -> io_append io = Appended -> io_tables io = true -> changed <> [] \/ extra <> [] ->
  commit_frames changed extra (fa_tables F) = Some frames ->
  let d := MkDelta (so_stream s) (so_position s + 1) frames in
  (forall B, scripts_same (scripts_of s) B -> exists B', apply_frames frames (tables_of s, B) = Some (fa_tables F, B') /\ scripts_same (fa_transcripts F) B') ->
  exists s' e, commit io changed extra (with_facts F s) = Some (s', e) /\ moved s s' [d] /\ heard None s s' [d] /\ so_facts s' = F /\
    (io_save io = false -> so_disk s' = write_line d (so_disk s)).
Proof.
  intros Hw H0 Ha Ht Hne Hf d Hr.
  set (s1 := with_disk (so_journalEnd s + line_len d) (so_sinceSave s) (write_line d (so_disk s)) (with_facts F s)).
  set (s2 := let s := publish d s1 in with_disk (so_journalEnd s) (so_sinceSave s + 1) (so_disk s) s).
  assert (commit io changed extra (with_facts F s) = Some (if snapshotEvery <=? so_sinceSave s2 then save (io_save io) s2 else (s2, None))) as E.
  { unfold commit. cbn [so_facts with_facts so_stream so_position]. rewrite Hf. cbn [mbind option_bind]. fold d. unfold append_delta. cbn [so_writes with_facts]. rewrite Hw, Ha, Ht.
    cbn [negb andb]. rewrite andb_false_r. destruct changed, extra; [by destruct Hne|done..]. }
  assert (moved s s2 [d] /\ so_facts s2 = F) as [Hm HF].
  { split; [|done]. split; cbn; rewrite ?H0; try done; [lia| | |by left].
    - intros [|i] d'; [|done]. intros [= <-]. cbn. split; [done|lia].
    - intros B HB. destruct (Hr B HB) as (B' & H1 & H2). exists B'. cbn. rewrite H1. cbn. done. }
  assert (forall s', so_recent s' = so_recent s2 -> so_joins s' = so_joins s2 -> heard None s s' [d]) as Hh.
  { intros s' H1 H2. split; rewrite ?H1, ?H2; [apply shrink_drop|]. intros i j _ Hj. eexists. cbn. rewrite list_lookup_fmap, Hj. split; [done|apply publish_follows]. }
  rewrite E. destruct (snapshotEvery <=? so_sinceSave s2).
  - destruct (save (io_save io) s2) as [s3 e] eqn:Es. exists s3, e. split; [done|]. pose proof (save_saved (io_save io) s2) as Hs. rewrite Es in Hs. cbn [fst] in Hs.
    assert (io_save io = false -> s3 = s2) as Hoff by (intros E0; rewrite E0 in Es; unfold save in Es; destruct (negb _); by injection Es).
    destruct Hs as [->|[n ->]]; [by split_and!; [|apply Hh| |]|]. split_and!; [|by apply Hh|done|intros E0; by rewrite (Hoff E0)]. destruct Hm as [M1 M2 M3 M4 M5 M6 M7 M8 M9 M10]. split; try done. by right.
  - exists s2, None. by split_and!; [| |apply Hh| |].
Qed.

Lemma moved_none except s : exists ds, moved s s ds /\ heard except s s ds.
Proof. exists []. by split; [apply moved_still|apply heard_same]. Qed.

Lemma record_moved io r s s' : so_writes s = true -> dk_tail (so_disk s) = 0%nat -> io_append io = Appended -> io_tables io = true -> fst <$> Lifecycle io r s = Some s' -> exists ds, moved s s' ds /\ heard None s s' ds.
Proof.
  intros Hw H0 Ha Ht. unfold Lifecycle. destruct r as [r|]; [|intros [= <-]; apply moved_none].
  destruct (so_closed s); [intros [= <-]; apply moved_none|]. pose proof (record_frames r (tables_of s)) as Hr.
  destruct (fold_record r (tables_of s)) as [T changed] eqn:Er. cbn [fst snd] in Hr. destruct changed as [|c changed].
  - intros [= <-]. exists []. assert (T = tables_of s) as ->.
    { destruct (Hr ∅) as (frames & [= <-] & Happ). cbn in Happ. by injection Happ. }
    split; [|by apply heard_same]. apply moved_still; try done. cbn. by destruct (so_facts s).
  - destruct (Hr ∅) as (frames & Hf & _). destruct (commit_moved io (c :: changed) [] s (MkFacts T (scripts_of s) (fa_calls (so_facts s))) frames Hw H0 Ha Ht) as (s1 & e & Hc & Hm & Hh & _); [by left|done| |].
    + intros B HB. exists B. split; [|done]. destruct (Hr B) as (frames' & Hf' & Happ). by simplify_eq.
    + rewrite Hc. intros [= <-]. by eexists.
Qed.

Lemma event_moved io at_ e ref s s' : so_writes s = true -> dk_tail (so_disk s) = 0%nat -> io_append io = Appended -> io_tables io = true -> (forall o, decode_event e ref = Some o -> event_ok (Some o)) ->
  scripts_same (scripts_of s) (scripts_of s) -> fst <$> Event io at_ e ref s = Some s' -> exists ds, moved s s' ds /\ heard None s s' ds.
Proof.
  intros Hw H0 Ha Ht Hok Hs. unfold Event. destruct (decode_event e ref) as [o|] eqn:Ed; [|intros [= <-]; apply moved_none].
  destruct (so_closed s); [intros [= <-]; apply moved_none|].
  destruct (event_frames (so_fromTables s) at_ e ref o (so_facts s) (scripts_of s) (Hok o eq_refl) Ed Hs) as (F & changed & frames & _ & Hfold & Hf & _).
  change (@Some (list (string * val)) o) with (@Some obj o) in *. rewrite Hfold. cbn.
  destruct (commit_moved io changed [FrameEvent (MkEventFrame at_ e ref)] s F frames Hw H0 Ha Ht) as (s1 & e1 & Hc & Hm & Hh & _); [by right|done| |].
  - intros B HB. destruct (event_frames (so_fromTables s) at_ e ref o (so_facts s) B (Hok o eq_refl) Ed HB) as (F' & changed' & frames' & B' & Hfold' & Hf' & Happ & HB').
    rewrite Hfold in Hfold'. injection Hfold' as <- <-. rewrite Hf in Hf'. injection Hf' as <-. by exists B'.
  - rewrite Hc. intros [= <-]. by eexists.
Qed.

Lemma close_moved ok s : exists ds, moved s (Close ok s).1 ds /\ heard None s (Close ok s).1 ds.
Proof.
  unfold Close. destruct (so_closed s); [apply moved_none|]. exists [].
  destruct (save_saved ok (with_subs (finish_sub <$> so_subs s) (finish_join <$> so_joins s) (with_closed true s))) as [->|[n ->]]; (split; [|by eapply heard_map; [| |apply finish_follows]]).
  - by apply moved_still.
  - split; cbn; rewrite ?app_nil_r, ?Nat.add_0_r, ?Z.add_0_r; try done; [by apply reads_nil|by right].
Qed.

Lemma exec_moved o s s' : so_writes s = true -> dk_tail (so_disk s) = 0%nat -> good_op o -> scripts_same (scripts_of s) (scripts_of s) -> exec o s = Some s' ->
  exists ds, moved s s' ds /\ heard (taker o) s s' ds.
Proof.
  intros Hw H0 [Hk Ho] Hs. destruct o as [io r|io at_ e ref|ok|stream position| |i|i d|i|i|i f|i]; cbn.
  - destruct Ho as [Ha Ht]. by apply record_moved.
  - destruct Ho as [Ha Ht]. by apply event_moved.
  - intros [= <-]. apply close_moved.
  - intros [= <-]. unfold Join. destruct (so_closed s); [apply moved_none|]. exists [].
    assert (heard None s (with_subs (so_subs s) (so_joins s ++ [MkJoin [] 0 false None true]) s) []) as Hh.
    { apply heard_still; [done|]. intros i j _ Hj. exists j. cbn. rewrite lookup_app_l by (by eapply lookup_lt_Some). split; [done|apply still_follows]. }
    destruct (resumable stream position s); (split; [by apply moved_still|done]).
  - intros [= <-]. unfold Subscribe. destruct (so_closed s); [apply moved_none|]. exists []. split; [by apply moved_still|by apply heard_same].
  - unfold receive_delta. destruct (so_joins s !! i) as [j|] eqn:Ej; [cbn|done]. destruct (js_deltas j) as [|d rest]; [done|]. intros [= <-]. exists []. split; [by apply moved_still|].
    apply heard_still; [done|]. intros i' j' Hne Hj'. exists j'. cbn. rewrite list_lookup_insert_ne by congruence. split; [done|apply still_follows].
  - intros [= <-]. exists []. split; [by apply moved_still|]. by eapply heard_alter; [| |intros j; left].
  - intros [= <-]. exists []. split; [by apply moved_still|]. eapply heard_alter; [done..|]. intros j. cbn. destruct (js_closed j); [apply still_follows|by left].
  - unfold receive_frame. destruct (so_subs s !! i) as [u|]; [cbn|done]. destruct (su_frames u); [done|]. intros [= <-]. exists []. split; [by apply moved_still|by apply heard_same].
  - intros [= <-]. exists []. split; [by apply moved_still|by apply heard_same].
  - intros [= <-]. exists []. split; [by apply moved_still|by apply heard_same].
Qed.

(** *** What is on the disk *)

(** The transcripts that a saved snapshot gives back. *)
Definition saved_scripts (snap : RunSnapshot) : transcripts := (fun t => MkTranscript (New (tn_Snapshot t)) (tn_Provenance t)) <$> ss_Transcripts snap.

Record on_disk (stream : string) (s : Store) : Prop := {
  od_stream : so_stream s = stream;
  od_writes : so_writes s = true;
  od_scripts : scripts_same (scripts_of s) (scripts_of s);
  od_lines : dk_journal (so_disk s) = Whole <$> journal_of s;
  od_tail : dk_tail (so_disk s) = 0%nat;
  od_end : so_journalEnd s = size (journal_of s);
  od_position : so_position s = Z.of_nat (length (journal_of s));
  od_journal : consecutive stream 0 (journal_of s);
  od_saved : exists du n B, dk_saved (so_disk s) = Some du /\ ss_Stream (du_Snapshot du) = stream /\ ss_Position (du_Snapshot du) = Z.of_nat n /\
    du_Offset du = size (take n (journal_of s)) /\ (n <= length (journal_of s))%nat /\
    apply_deltas (drop n (journal_of s)) (ss_Tables (du_Snapshot du), saved_scripts (du_Snapshot du)) = Some (tables_of s, B) /\ scripts_same (scripts_of s) B;
}.

Lemma clean_saved s : scripts_same (scripts_of s) (scripts_of s) -> clean s -> scripts_same (scripts_of s) (saved_scripts (snapshot s)).
Proof.
  intros Hs Hc t. unfold saved_scripts. cbn. rewrite !lookup_fmap. specialize (Hs t). destruct (scripts_of s !! t) as [a|] eqn:E; [|constructor]. cbn. constructor.
  inversion Hs as [? ? [(_ & HI & _) _]|]; subst. pose proof (Hc t a E) as Hca. split; [|done]. cbn. unfold Snapshot. cbv beta in Hca. rewrite Hca.
  destruct (New_inv (state (ts_projection a)) (inv_state_ok _ HI Hca)) as [HN EN]. split; [by rewrite EN|by split].
Qed.

Lemma on_disk_moved stream s s' ds : on_disk stream s -> moved s s' ds -> clean s' -> on_disk stream s'.
Proof.
  intros [D1 D2 D3 D4 D5 D6 D7 D8 (du & n & B & E1 & E2 & E3 & E4 & E5 & E6 & E7)] Hm Hclean. pose proof (moved_journal _ _ _ Hm) as HJ.
  destruct Hm as [M1 M2 M3 M4 M5 M6 M7 M8 M9 M10]. destruct (M9 B E7) as (B' & HB1 & HB2). pose proof (scripts_same_refl _ _ HB2) as Hself.
  assert (length (journal_of s') = (length (journal_of s) + length ds)%nat) as Hl by (by rewrite HJ, length_app).
  split; try exact Hself; try congruence; try lia.
  - by rewrite M5, deltas_app, fmap_app, deltas_whole, <- D4.
  - rewrite M7, HJ, size_app, D6. done.
  - rewrite HJ. apply consecutive_app; [done|]. rewrite Z.add_0_l, <- D7, <- D1. done.
  - destruct M10 as [M10|M10].
    + exists du, n, B'. split_and!; try exact HB2; try congruence; [by rewrite HJ, take_app_le|lia|]. rewrite HJ, drop_app_le, apply_deltas_app, E6 by done. done.
    + exists (MkDurable (snapshot s') (fa_calls (so_facts s')) (so_journalEnd s')), (length (journal_of s')), (saved_scripts (snapshot s')). cbn [du_Snapshot du_Offset]. split_and!; try done.
      * cbn. congruence.
      * cbn. lia.
      * rewrite M7, size_all, HJ, size_app, D6 by done. done.
      * rewrite drop_ge by lia. done.
      * by apply clean_saved.
Qed.

(** *** Stopping in the middle *)

Lemma same_lines_refl k : same_lines k k.
Proof. by split. Qed.

Lemma snapshot_of_facts s s' : so_stream s' = so_stream s -> so_position s' = so_position s -> so_facts s' = so_facts s -> snapshot s' = snapshot s.
Proof. intros H1 H2 H3. unfold snapshot. by rewrite H1, H2, H3. Qed.

(** What a commit leaves on the disk: the lines from before, or those from
    after, maybe with a snapshot. *)
Lemma commit_stopped stream io changed extra s F frames s1 e :
  on_disk stream s -> clean s -> clean s1 -> changed <> [] \/ extra <> [] -> commit_frames changed extra (fa_tables F) = Some frames ->
  (forall B, scripts_same (scripts_of s) B -> exists B', apply_frames frames (tables_of s, B) = Some (fa_tables F, B') /\ scripts_same (fa_transcripts F) B') ->
  commit io changed extra (with_facts F s) = Some (s1, e) ->
  exists s2 e2 s0, commit (MkCommitIO Appended true false) changed extra (with_facts F s) = Some (s2, e2) /\ on_disk stream s0 /\ clean s0 /\ same_lines (so_disk s0) (so_disk s1) /\
    (snapshot s0 = snapshot s \/ snapshot s0 = snapshot s2).
Proof.
  intros D Hc Hc1 Hne Hf Hr E1. pose proof (od_writes _ _ D) as Hw. pose proof (od_tail _ _ D) as H0.
  destruct (commit_moved (MkCommitIO Appended true false) changed extra s F frames Hw H0 eq_refl eq_refl Hne Hf Hr) as (s2 & e2 & E2 & Hm & _ & HF & Hd2). specialize (Hd2 eq_refl).
  exists s2, e2. set (d := MkDelta (so_stream s) (so_position s + 1) frames) in *.
  assert (so_facts s1 = F -> clean s2) as Hc2 by (intros HF1; unfold clean in *; rewrite HF; by rewrite HF1 in Hc1).
  assert (commit io changed extra (with_facts F s) =
    match append_delta (io_append io) d (with_facts F s) with
    | (s, Some e) => Some (s, Some e)
    | (s, None) => if so_writes s && negb (io_tables io) then Some (s, Some WriteFailed) else
        let s := publish d s in let s := with_disk (so_journalEnd s) (so_sinceSave s + 1) (so_disk s) s in Some (if snapshotEvery <=? so_sinceSave s then save (io_save io) s else (s, None))
    end) as E by (unfold commit; cbn [so_facts with_facts so_stream so_position]; rewrite Hf; destruct changed, extra; [by destruct Hne|done..]).
  pose proof E1 as E0. rewrite E in E1. unfold append_delta in E1. cbn [so_writes with_facts] in E1. rewrite Hw in E1. cbn [negb] in E1. destruct (io_append io) eqn:Ea.
  - cbn [so_writes with_facts with_disk] in E1. rewrite Hw in E1. destruct (io_tables io) eqn:Et; cbn [negb andb] in E1.
    + destruct (commit_moved io changed extra s F frames Hw H0 Ea Et Hne Hf Hr) as (s3 & e3 & E3 & Hm3 & _ & HF3 & _).
      assert (s3 = s1) as -> by congruence.
      exists s1. split; [done|]. split; [by eapply on_disk_moved|]. split; [done|]. split; [apply same_lines_refl|]. right. apply snapshot_of_facts; [|fold d in Hm, Hm3|congruence].
      * by rewrite (mv_stream _ _ _ Hm), (mv_stream _ _ _ Hm3).
      * by rewrite (mv_position _ _ _ Hm), (mv_position _ _ _ Hm3).
    + injection E1 as <- <-. exists s2. split; [done|]. split; [eapply on_disk_moved; [done..|by apply Hc2]|]. split; [by apply Hc2|]. split; [by rewrite Hd2|by right].
  - injection E1 as <- <-. exists s2. split; [done|]. split; [eapply on_disk_moved; [done..|by apply Hc2]|]. split; [by apply Hc2|]. split; [by rewrite Hd2|by right].
  - injection E1 as <- <-. exists s. split; [done|]. split; [done|]. split; [done|]. split; [by split|by left].
Qed.

(** *** Reading the journal *)

Lemma replay_apply ds s R : consecutive (so_stream s) (so_position s) ds -> apply_deltas ds (tables_of s, scripts_of s) = Some R ->
  exists s', replay_lines (Whole <$> ds) s = Some (Ok s') /\ so_stream s' = so_stream s /\ so_position s' = so_position s + Z.of_nat (length ds) /\
    tables_of s' = R.1 /\ scripts_of s' = R.2 /\ fa_calls (so_facts s') = fa_calls (so_facts s) /\ so_journalEnd s' = (so_journalEnd s + size ds)%nat /\ so_writes s' = so_writes s /\
    so_disk s' = so_disk s /\ so_recent s' = so_recent s.
Proof.
  revert s. induction ds as [|d ds IH]; intros s Hc; cbn [apply_deltas replay_lines size fmap list_fmap].
  - intros [= <-]. exists s. rewrite Nat.add_0_r, Z.add_0_r. by split_and!.
  - destruct (Hc 0%nat d eq_refl) as [Hst Hp]. rewrite Hst, String.eqb_refl. replace (dl_Position d =? so_position s + 1) with true by (symmetry; apply Z.eqb_eq; lia). cbn [andb].
    unfold apply_delta. destruct (apply_frames (dl_Frames d) _) as [[T scripts]|] eqn:Ea; cbn [mbind option_bind]; [|done]. intros Hd.
    match goal with |- context [replay_lines _ ?s1] => destruct (IH s1) as (s' & H1 & H2 & H3 & H4 & H5 & H6 & H7 & H8 & H9 & H10) end.
    + cbn. intros i d' Hi. destruct (Hc (S i) d' Hi) as [-> ->]. split; [done|lia].
    + done.
    + exists s'. cbn in *. split_and!; try done; lia.
Qed.

Lemma snapshot_same s s' : so_stream s' = so_stream s -> so_position s' = so_position s -> tables_of s' = tables_of s -> scripts_same (scripts_of s) (scripts_of s') ->
  snapshot s' = snapshot s.
Proof.
  intros H1 H2 H3 H4. unfold snapshot. rewrite H1, H2, H3. f_equal. apply map_eq. intros t. rewrite !lookup_fmap. specialize (H4 t). inversion H4 as [a b Hab E1 E2|]; [|done]. cbn.
  destruct Hab as [(Hst & _) Hpr]. unfold Snapshot. by rewrite Hst, Hpr.
Qed.

Lemma scripts_same_sym A B : scripts_same A B -> scripts_same B A.
Proof.
  intros H t. specialize (H t). inversion H as [a b [(H1 & H2 & H3) H4]|]; constructor. split; [by split_and!|done].
Qed.

(** Opening the directory again gives the store back, whatever bytes are after
    the last line end. *)
Lemma load_on_disk id fresh stream s k : stream <> "" -> on_disk stream s -> same_lines (so_disk s) k ->
  exists s', loadDurable id fresh k = Some (Ok (Some s')) /\ (dk_tail k = 0%nat -> on_disk stream s') /\ snapshot s' = snapshot s /\ so_disk s' = k /\ so_closed s' = true /\ so_recent s' = [] /\
    tables_of s' = tables_of s /\ scripts_same (scripts_of s) (scripts_of s') /\ so_stream s' = stream /\ so_position s' = so_position s /\ so_journalEnd s' = so_journalEnd s.
Proof.
  intros Hne [D1 D2 D3 D4 D5 D6 D7 D8 (du & n & B & E1 & E2 & E3 & E4 & E5 & E6 & E7)] [K1 K2]. unfold loadDurable. rewrite K1, K2, E1, E4, D4, deltas_whole, lines_from_drop.
  match goal with |- context [replay_lines _ ?s0] => destruct (replay_apply (drop n (journal_of s)) s0 (tables_of s, B)) as (s1 & H1 & H2 & H3 & H4 & H5 & H6 & H7 & H8 & H9 & H10) end.
  - cbn [so_stream so_position with_disk with_facts restore]. rewrite E2, E3. destruct (String.eqb_spec stream ""); [done|]. by apply (consecutive_drop stream 0).
  - exact E6.
  - cbn in H2, H3, H4, H5, H7, H8, H9. rewrite E2 in H2. destruct (String.eqb_spec stream ""); [done|]. rewrite length_drop in H3. rewrite H1. exists (with_closed true s1). split; [done|].
    assert (so_journalEnd s1 = so_journalEnd s) as Hend.
    { rewrite H7, D6, <- size_app, take_drop. done. }
    assert (snapshot (with_closed true s1) = snapshot s) as Hsnap by (apply snapshot_same; cbn; try done; [congruence|lia|by rewrite H5]).
    split; [|split_and!; try done; cbn; rewrite ?H5; try done; lia]. intros Ht. split; cbn; try congruence; try (rewrite ?H9, ?K1; lia).
    + rewrite H5. by apply (scripts_same_refl _ (scripts_of s)), scripts_same_sym.
    + by rewrite H9, K1.
    + rewrite H9, K1, K2, H4, H5. exists du, n, B. split_and!; try done. by apply (scripts_same_refl _ (scripts_of s)), scripts_same_sym.
Qed.

(** *** Every store of a run *)

(** What an operation leaves on the disk, whatever the outcomes of writing. *)
Lemma exec_stopped stream o s s1 : on_disk stream s -> clean s -> sound_op o -> exec o s = Some s1 -> clean s1 ->
  exists s2 s0, exec (completed o) s = Some s2 /\ on_disk stream s0 /\ clean s0 /\ same_lines (so_disk s0) (so_disk s1) /\ (snapshot s0 = snapshot s \/ snapshot s0 = snapshot s2).
Proof.
  intros D Hc Ho E1 Hc1. assert (forall o, good_op o -> completed o = o -> exec o s = Some s1 -> exists s2 s0, exec (completed o) s = Some s2 /\ on_disk stream s0 /\ clean s0 /\ same_lines (so_disk s0) (so_disk s1) /\
    (snapshot s0 = snapshot s \/ snapshot s0 = snapshot s2)) as Hplain.
  { intros o0 Hg Hsame E. exists s1, s1. rewrite Hsame. destruct (exec_moved o0 s s1) as (ds & Hm & _); [apply D..|done|apply D|done|].
    split_and!; [done|by eapply on_disk_moved|done|apply same_lines_refl|by right]. }
  assert (exists s2 s0, Some s = Some s2 /\ on_disk stream s0 /\ clean s0 /\ same_lines (so_disk s0) (so_disk s) /\ (snapshot s0 = snapshot s \/ snapshot s0 = snapshot s2)) as Hnone.
  { exists s, s. split_and!; [done|done|done|apply same_lines_refl|by left]. }
  destruct o as [io r|io at_ e ref|ok|stream' position| |i|i d|i|i|i f|i]; try (apply Hplain; [by split|done|exact E1]); cbn [completed exec] in *.
  - unfold Lifecycle in *. destruct r as [r|]; [|by injection E1 as <-]. destruct (so_closed s); [by injection E1 as <-|].
    pose proof (record_frames r (tables_of s)) as Hr. destruct (fold_record r (tables_of s)) as [T changed] eqn:Er. cbn [fst snd] in Hr.
    destruct (Hr ∅) as (frames & Hf & Happ). destruct changed as [|c changed].
    + injection E1 as <-. assert (T = tables_of s) as -> by (injection Hf as <-; cbn in Happ; by injection Happ). cbn.
      assert (with_facts (MkFacts (tables_of s) (scripts_of s) (fa_calls (so_facts s))) s = s) as -> by (by destruct s as [[]]). exact Hnone.
    + destruct (commit io _ _ _) as [[s1' e]|] eqn:Ec; [|done]. cbn in E1. injection E1 as ->.
      destruct (commit_stopped stream io (c :: changed) [] s (MkFacts T (scripts_of s) (fa_calls (so_facts s))) frames s1 e) as (s2 & e2 & s0 & H & ?); [done..|by left|done| |done|].
      * intros B HB. exists B. split; [|done]. destruct (Hr B) as (frames' & Hf' & Happ'). by simplify_eq.
      * exists s2, s0. by rewrite H.
  - unfold Event in *. destruct (decode_event e ref) as [o|] eqn:Ed; [|by injection E1 as <-]. destruct (so_closed s); [by injection E1 as <-|].
    destruct (event_frames (so_fromTables s) at_ e ref o (so_facts s) (scripts_of s) (Ho o Ed) Ed (od_scripts _ _ D)) as (F & changed & frames & _ & Hfold & Hf & _).
    change (@Some (list (string * val)) o) with (@Some obj o) in *. rewrite Hfold in *. cbn [mbind option_bind] in *.
    destruct (commit io _ _ _) as [[s1' e1]|] eqn:Ec; [|done]. cbn in E1. injection E1 as ->.
    destruct (commit_stopped stream io changed [FrameEvent (MkEventFrame at_ e ref)] s F frames s1 e1) as (s2 & e2 & s0 & H & ?); [done..|by right|done| |done|].
    + intros B HB. destruct (event_frames (so_fromTables s) at_ e ref o (so_facts s) B (Ho o Ed) Ed HB) as (F' & changed' & frames' & B' & Hfold' & Hf' & Happ & HB').
      rewrite Hfold in Hfold'. injection Hfold' as <- <-. rewrite Hf in Hf'. injection Hf' as <-. by exists B'.
    + exists s2, s0. by rewrite H.
  - injection E1 as <-. destruct (close_moved ok s) as (ds & Hm & _). exists (Close false s).1, (Close ok s).1.
    split_and!; [done|by eapply on_disk_moved|done|apply same_lines_refl|right]. unfold Close, save. destruct (so_closed s); [done|]. cbn [so_writes with_subs with_closed]. by destruct (so_writes s), ok.
Qed.

Lemma clean_same s s' : scripts_same (scripts_of s) (scripts_of s') -> clean s -> clean s'.
Proof.
  intros HB Hc t b Hb. specialize (HB t). rewrite Hb in HB. inversion HB as [a ? [(Hst & _) _] Ea|]; subst. rewrite <- Hst. symmetry in Ea. exact (Hc t a Ea).
Qed.

(** Opening a run again, its torn line cut off. *)
Lemma reopen_on_disk id fresh stream s k s' : stream <> "" -> on_disk stream s -> clean s -> same_lines (so_disk s) k -> dk_tail k = 0%nat -> Reopen id fresh k = Some (Ok (Some s')) ->
  on_disk stream s' /\ clean s' /\ so_disk s' = k /\ so_recent s' = [] /\ tables_of s' = tables_of s /\ scripts_same (scripts_of s) (scripts_of s').
Proof.
  intros Hne D Hc Hk H0 Hr. unfold Reopen in Hr. destruct (load_on_disk id fresh stream s k Hne D Hk) as (s1 & Hl & Hd & _ & Hdisk & _ & Hrec & HT & HB & _). rewrite Hl in Hr. cbn in Hr. injection Hr as <-.
  split; [destruct (Hd H0); by split|]. split; [by eapply clean_same|]. by split_and!.
Qed.

Lemma recorded_on_disk id name stream s : stream <> "" -> recorded id name stream s -> on_disk stream s /\ clean s.
Proof.
  intros Hne. induction 1 as [s Hs|o s s' _ [IH _] Ho He Hc|fresh s s' _ [IH Hc] Hr|o fresh s s1 s' _ [IH Hc] Ho He Hc1 Hr].
  - injection Hs as <-. split; [|exact (map_Forall_empty _)]. split; try done; [intros t; constructor|].
    eexists _, 0%nat, ∅. split; [done|]. cbn. split_and!; try done. intros t. rewrite !lookup_empty. constructor.
  - destruct (exec_moved o s s') as (ds & Hm & _); [apply IH..|done|apply IH|done|]. split; [by eapply on_disk_moved|done].
  - destruct (reopen_on_disk id fresh stream s (so_disk s) s' Hne IH Hc (same_lines_refl _) (od_tail _ _ IH) Hr) as (H1 & H2 & _). by split.
  - destruct (exec_stopped stream o s s1 IH Hc Ho He Hc1) as (s2 & s0 & _ & D0 & C0 & [K1 K2] & _).
    destruct (reopen_on_disk id fresh stream s0 (MkDisk (dk_journal (so_disk s1)) 0 (dk_saved (so_disk s1))) s' Hne D0 C0 (conj K1 K2) eq_refl Hr) as (H1 & H2 & _). by split.
Qed.
End Journal.
