(* ===== verification/ObservationReaders.v ===== *)
(** * Readers of a run

    A reader starts from a snapshot, or from where it was when it lost its
    subscription, and applies the deltas it receives in order.  Whatever the
    store does meanwhile, the deltas left in the queue of a subscription that
    is in the store's set take the reader to the tables and the transcripts of
    the store; one that fell behind is out of the set, and can come back. *)

From S2P Require Import Prelude GoText SessionJson SessionState SessionReduce SessionIndex SessionInv SessionSim SessionProps SessionMain GoValue Observation ObservationStore ObservationDelta ObservationJournal.
From Stdlib Require Import Ascii SpecFloat.

Open Scope string_scope.
Open Scope list_scope.
Open Scope Z_scope.

(** ** Definitions *)

Section Readers.
Context {host : Host}.

Abbreviation tables_of s := (fa_tables (so_facts s)).
Abbreviation scripts_of s := (fa_transcripts (so_facts s)).
Abbreviation journal_of s := (deltas (dk_journal (so_disk s))).

(** What a reader has: its subscription, if it has one, the position of what
    it applied last, and its tables and transcripts. *)
Record reader : Type := MkReader {
  re_join : option nat;
  re_position : Z;
  re_replica : tables * transcripts
}.

(** A reader of a run that is recorded, and that may be opened again. *)
Inductive reading (id name stream : string) : Store -> reader -> Prop :=
| reading_snapshot s at_ position snap backlog s' : recorded id name stream s -> so_closed s = false -> Join at_ position s = (Some snap, backlog, s') ->
    reading id name stream s' (MkReader (Some (length (so_joins s))) (ss_Position snap) (ss_Tables snap, saved_scripts snap))
| reading_resume s r backlog s' R : reading id name stream s r -> so_closed s = false -> Join stream (re_position r) s = (None, backlog, s') ->
    apply_deltas backlog (re_replica r) = Some R -> reading id name stream s' (MkReader (Some (length (so_joins s))) (so_position s) R)
| reading_step s r o s' : reading id name stream s r -> good_op o -> exec o s = Some s' -> clean s' -> (taker o = None \/ taker o <> re_join r) -> reading id name stream s' r
| reading_take s r i d s' R : reading id name stream s r -> re_join r = Some i -> receive_delta i s = Some (d, s') -> apply_frames (dl_Frames d) (re_replica r) = Some R ->
    reading id name stream s' (MkReader (Some i) (dl_Position d) R)
| reading_reopen fresh s r s' : reading id name stream s r -> Reopen id fresh (so_disk s) = Some (Ok (Some s')) -> reading id name stream s' (MkReader None (re_position r) (re_replica r)).

(** The store's own invariant, with what it can still resend. *)
Record resending (stream : string) (s : Store) : Prop := {
  rs_disk : on_disk stream s;
  rs_recent : exists n, so_recent s = drop n (journal_of s);
  rs_clean : clean s;
}.

(** [R] is the store as it was after [n] deltas. *)
Definition at_position (s : Store) (n : nat) (R : tables * transcripts) : Prop :=
  exists B, apply_deltas (drop n (journal_of s)) R = Some (tables_of s, B) /\ scripts_same (scripts_of s) B.

(** The queue holds what comes next, all of it while the subscription is in
    the set. *)
Definition queued (s : Store) (n : nat) (j : JoinSubscription) : Prop :=
  js_deltas j `prefix_of` drop n (journal_of s) /\ (js_listed j = true -> js_deltas j = drop n (journal_of s)).

Record keeps_up (s : Store) (r : reader) : Prop := {
  ku_position : exists n, re_position r = Z.of_nat n /\ (n <= length (journal_of s))%nat /\ at_position s n (re_replica r) /\
    forall i, re_join r = Some i -> exists j, so_joins s !! i = Some j /\ queued s n j;
}.

(** ** Lemmas *)

(** *** The store *)

Lemma on_disk_clean_moved stream s s' ds except : resending stream s -> moved s s' ds -> heard except s s' ds -> clean s' -> resending stream s'.
Proof.
  intros [D [n Hn] _] Hm [[k Hk] _] Hc. split; [by eapply on_disk_moved| |done]. rewrite Hk, Hn, (moved_journal _ _ _ Hm).
  destruct (decide (n <= length (journal_of s))%nat) as [Hle|Hgt].
  - exists (n + k)%nat. rewrite <- drop_drop. by rewrite (drop_app_le _ _ n).
  - exists (length (journal_of s) + k)%nat. rewrite (drop_ge (journal_of s)) by lia. cbn. by rewrite <- drop_drop, (drop_app_length (journal_of s)).
Qed.

Lemma reopen_resending id fresh stream s s' : stream <> "" -> resending stream s -> Reopen id fresh (so_disk s) = Some (Ok (Some s')) ->
  resending stream s' /\ journal_of s' = journal_of s /\ tables_of s' = tables_of s /\ scripts_same (scripts_of s) (scripts_of s').
Proof.
  intros Hne [D _ Hc] Hr. destruct (reopen_on_disk id fresh stream s _ s' Hne D Hc (same_lines_refl _) (od_tail _ _ D) Hr) as (H1 & H2 & H3 & H4 & H5 & H6).
  split; [|by rewrite H3]. split; [done| |done]. rewrite H4. exists (length (journal_of s')). by rewrite drop_ge.
Qed.

(** What can be resent after a position that is still there. *)
Lemma later_deltas stream p q J : consecutive stream p J -> List.filter (fun d => q <? dl_Position d) J = drop (Z.to_nat (q - p)) J.
Proof.
  revert p. induction J as [|d J IH]; intros p Hc; [by rewrite drop_nil|]. destruct (Hc 0%nat d eq_refl) as [_ Hp]. cbn.
  assert (consecutive stream (p + 1) J) as Hc' by (intros i d' Hi; destruct (Hc (S i) d' Hi) as [-> ->]; split; [done|lia]).
  rewrite (IH _ Hc'). destruct (Z.ltb_spec q (dl_Position d)).
  - replace (Z.to_nat (q - p)) with 0%nat by lia. by replace (Z.to_nat (q - (p + 1))) with 0%nat by lia.
  - by replace (Z.to_nat (q - p)) with (S (Z.to_nat (q - (p + 1)))) by lia.
Qed.

Lemma resent_deltas stream s n : resending stream s -> (n <= length (journal_of s))%nat -> resumable stream (Z.of_nat n) s = true ->
  List.filter (fun d => Z.of_nat n <? dl_Position d) (so_recent s) = drop n (journal_of s).
Proof.
  intros [D [m Hm] _] Hn Hr. pose proof (od_journal _ _ D) as HJ. pose proof (od_position _ _ D) as Hp.
  rewrite Hm, (later_deltas stream (0 + Z.of_nat m) (Z.of_nat n) _ (consecutive_drop stream 0 m _ HJ)), drop_drop.
  destruct (decide (m <= n)%nat) as [|Hgt]; [f_equal; lia|]. apply andb_true_iff in Hr as [_ Hr]. rewrite Hm in Hr.
  apply orb_true_iff in Hr as [Hr|Hr].
  - assert (n = length (journal_of s)) as -> by lia. by rewrite !drop_ge by lia.
  - destruct (drop m (journal_of s)) as [|d rest] eqn:Ed.
    + cbn in Hr. assert (n = length (journal_of s)) as -> by lia. by rewrite !drop_ge by lia.
    + assert (journal_of s !! m = Some d) as Hd by (rewrite <- (Nat.add_0_r m), <- lookup_drop, Ed; done). destruct (HJ _ _ Hd) as [_ Hpos]. cbn in Hr. lia.
Qed.

(** *** A reader *)

Lemma at_position_moved s s' ds n R : (n <= length (journal_of s))%nat -> moved s s' ds -> at_position s n R -> at_position s' n R.
Proof.
  intros Hn Hm (B & H1 & H2). destruct (mv_reads _ _ _ Hm B H2) as (B' & H3 & H4). exists B'. rewrite (moved_journal _ _ _ Hm), drop_app_le, apply_deltas_app, H1 by done. by split.
Qed.

Lemma at_position_end s R : at_position s (length (journal_of s)) R -> R.1 = tables_of s /\ scripts_same (scripts_of s) R.2.
Proof. intros (B & H1 & H2). rewrite drop_ge in H1 by done. by injection H1 as ->. Qed.

Lemma queued_follows s s' ds n j j' : (n <= length (journal_of s))%nat -> journal_of s' = journal_of s ++ ds -> follows ds j j' -> queued s n j -> queued s' n j'.
Proof.
  intros Hn Hj [[H1 H2]|[H1 H2]] [Q1 Q2]; unfold queued; rewrite Hj, drop_app_le, H1 by done.
  - split; [by apply prefix_app_r|]. intros Hl. destruct (H2 Hl) as [Hl' ->]. rewrite app_nil_r. by apply Q2.
  - rewrite Q2 by done. done.
Qed.

Lemma keeps_up_step s s' ds except r : keeps_up s r -> moved s s' ds -> heard except s s' ds -> (except = None \/ except <> re_join r) -> keeps_up s' r.
Proof.
  intros [(n & H1 & H2 & H3 & H4)] Hm [_ Hj] He. split. exists n. pose proof (moved_journal _ _ _ Hm) as HJ. split_and!; [done|rewrite HJ, length_app; lia|by eapply at_position_moved|].
  intros i Hi. destruct (H4 i Hi) as (j & Hij & Hq). destruct (Hj i j) as (j' & Hij' & Hf); [by destruct He; congruence|done|]. exists j'. split; [done|]. by eapply queued_follows.
Qed.

(** A new subscription. *)
Lemma keeps_up_join s s' R : at_position s (length (journal_of s)) R -> so_facts s' = so_facts s -> so_disk s' = so_disk s -> so_joins s' = so_joins s ++ [MkJoin [] 0 false None true] ->
  forall p, p = Z.of_nat (length (journal_of s)) -> keeps_up s' (MkReader (Some (length (so_joins s))) p R).
Proof.
  intros (B & H1 & H2) HF HD HJ p ->. split. exists (length (journal_of s)). cbn. rewrite HD. split_and!; [done|done|exists B; by rewrite HD, HF|].
  intros i [= <-]. eexists. rewrite HJ, lookup_app_r, Nat.sub_diag by done. split; [done|]. unfold queued. rewrite HD, drop_ge by done. by split.
Qed.

Lemma joined_at_end s : scripts_same (scripts_of s) (scripts_of s) -> clean s -> at_position s (length (journal_of s)) (tables_of s, saved_scripts (snapshot s)).
Proof. intros Hs Hc. exists (saved_scripts (snapshot s)). rewrite drop_ge by done. split; [done|]. by apply clean_saved. Qed.

Lemma keeps_up_take s i d s' r R : keeps_up s r -> consecutive (so_stream s) 0 (journal_of s) -> re_join r = Some i -> receive_delta i s = Some (d, s') ->
  apply_frames (dl_Frames d) (re_replica r) = Some R -> keeps_up s' (MkReader (Some i) (dl_Position d) R).
Proof.
  intros [(n & H1 & H2 & (B & H3 & H3') & H4)] Hc Hi Ht Ha. destruct (H4 i Hi) as (j & Hij & [[k Hpre] Hl]). unfold receive_delta in Ht. rewrite Hij in Ht. cbn in Ht.
  destruct (js_deltas j) as [|d' rest] eqn:Ed; [done|]. injection Ht as <- <-. cbn in Hpre.
  assert (journal_of s !! n = Some d') as Hd by (rewrite <- (Nat.add_0_r n), <- lookup_drop, Hpre; done). assert (drop (S n) (journal_of s) = rest ++ k) as Hrest.
  { rewrite <- Nat.add_1_r, <- drop_drop, Hpre. done. }
  split. exists (S n). cbn. split_and!.
  - destruct (Hc _ _ Hd) as [_ ->]. lia.
  - by apply lookup_lt_Some in Hd.
  - exists B. split; [|done]. cbn. rewrite Hpre in H3. cbn in H3. rewrite Ha in H3. by rewrite Hrest.
  - intros i' [= <-]. rewrite list_lookup_insert_eq by (by eapply lookup_lt_Some). eexists. split; [done|]. unfold queued. cbn. rewrite Hrest. split; [by eexists|].
    intros Hli. specialize (Hl Hli). rewrite Hpre in Hl. by injection Hl.
Qed.

(** *** Every reader *)

Lemma recorded_resending id name stream s : stream <> "" -> recorded id name stream s -> resending stream s.
Proof.
  intros Hne H. pose proof (recorded_on_disk _ _ _ _ Hne H) as [D Hc]. split; [done| |done]. clear D Hc.
  induction H as [s Hs|o s s' Hrec IH Ho He Hc|fresh s s' Hrec _ Hr|o fresh s s1 s' Hrec _ Ho He Hc1 Hr].
  - injection Hs as <-. by exists 0%nat.
  - pose proof (recorded_on_disk _ _ _ _ Hne Hrec) as [D D']. destruct (exec_moved o s s') as (ds & Hm & Hh); [apply D..|done|apply D|done|].
    apply (rs_recent stream), (on_disk_clean_moved stream s s' ds (taker o)); [by split|done..].
  - pose proof (recorded_on_disk _ _ _ _ Hne Hrec) as [D Hc]. destruct (reopen_on_disk id fresh stream s _ s' Hne D Hc (same_lines_refl _) (od_tail _ _ D) Hr) as (_ & _ & _ & -> & _).
    exists (length (journal_of s')). by rewrite drop_ge.
  - pose proof (recorded_on_disk _ _ _ _ Hne Hrec) as [D Hc]. destruct (exec_stopped stream o s s1 D Hc Ho He Hc1) as (s2 & s0 & _ & D0 & C0 & [K1 K2] & _).
    destruct (reopen_on_disk id fresh stream s0 (MkDisk (dk_journal (so_disk s1)) 0 (dk_saved (so_disk s1))) s' Hne D0 C0 (conj K1 K2) eq_refl Hr) as (_ & _ & _ & -> & _).
    exists (length (journal_of s')). by rewrite drop_ge.
Qed.

Lemma at_position_reopened s s' n R : journal_of s' = journal_of s -> tables_of s' = tables_of s -> scripts_same (scripts_of s) (scripts_of s') -> at_position s n R -> at_position s' n R.
Proof. intros H1 H2 H3 (B & H4 & H5). exists B. rewrite H1, H2. split; [done|]. by eapply scripts_same_trans; [apply scripts_same_sym|]. Qed.

Lemma Join_open stream p s : so_closed s = false ->
  let s' := with_subs (so_subs s) (so_joins s ++ [MkJoin [] 0 false None true]) s in
  Join stream p s = if resumable stream p s then (None, List.filter (fun d => p <? dl_Position d) (so_recent s), s') else (Some (snapshot s), [], s').
Proof. intros H. unfold Join. by rewrite H. Qed.

Lemma resending_joined stream s js : resending stream s -> resending stream (with_subs (so_subs s) js s).
Proof. intros [[] ? ?]. by split; [split| |]. Qed.

Lemma reading_keeps_up id name stream s r : stream <> "" -> reading id name stream s r -> resending stream s /\ keeps_up s r.
Proof.
  intros Hne. induction 1 as [s at_ p snap backlog s' Hrec Hop Hj|s r backlog s' R _ [IHs IHr] Hop Hj HR|s r o s' _ [IHs IHr] Ho He Hc Ht|s r i d s' R _ [IHs IHr] Hi Hd HR|fresh s r s' _ [IHs IHr] Hr].
  - pose proof (recorded_resending _ _ _ _ Hne Hrec) as Hs. rewrite Join_open in Hj by done. destruct (resumable at_ p s); [done|]. injection Hj as <- <- <-.
    split; [by apply resending_joined|]. apply (keeps_up_join s); [|done..|by apply (od_position _ _ (rs_disk _ _ Hs))]. apply joined_at_end; apply Hs.
  - rewrite Join_open in Hj by done. destruct (resumable stream _ s) eqn:Er; [|done]. injection Hj as <- <-. split; [by apply resending_joined|].
    destruct IHr as [(n & Hn & Hle & (B & H1 & H2) & _)]. rewrite Hn in *. rewrite (resent_deltas stream s n) in HR by done. rewrite H1 in HR. injection HR as <-.
    apply (keeps_up_join s); [|done..|by apply (od_position _ _ (rs_disk _ _ IHs))]. exists B. by rewrite drop_ge.
  - destruct (exec_moved o s s') as (ds & Hm & Hh); [apply IHs..|done|apply IHs|done|]. split; [by eapply on_disk_clean_moved|by eapply keeps_up_step].
  - split.
    + unfold receive_delta in Hd. destruct (so_joins s !! i) as [j|]; [cbn in Hd|done]. destruct (js_deltas j); [done|]. injection Hd as <- <-. by apply resending_joined.
    + eapply keeps_up_take; [done| |done..]. rewrite (od_stream _ _ (rs_disk _ _ IHs)). apply IHs.
  - destruct (reopen_resending _ _ _ _ _ Hne IHs Hr) as (H1 & H2 & H3 & H4). split; [done|]. destruct IHr as [(n & Hn & Hle & Ha & _)]. split. exists n. rewrite H2.
    split_and!; [done|done|by eapply at_position_reopened|done].
Qed.

(** What a page shows of tables and transcripts. *)
Definition shown (R : tables * transcripts) : tables * gmap string Transcript := (R.1, (fun t => MkTranscriptSnapshot (Snapshot (ts_projection t)) (ts_provenance t)) <$> R.2).

Lemma shown_same s B : scripts_same (scripts_of s) B -> shown (tables_of s, B) = (ss_Tables (snapshot s), ss_Transcripts (snapshot s)).
Proof.
  intros H. unfold shown. cbn. f_equal. apply map_eq. intros t. rewrite !lookup_fmap. specialize (H t). inversion H as [a b Hab E1 E2|]; [|done]. cbn.
  destruct Hab as [(Hst & _) Hpr]. unfold Snapshot. by rewrite Hst, Hpr.
Qed.
End Readers.

(** * Following a run

    A process that only reads a run opens its directory and applies the deltas
    that the writer adds ([refresh]).  Whatever its own readers do, a refresh
    brings it to where the writer is. *)

(** ** Definitions *)

Section Follow.
Context {host : Host}.

Abbreviation tables_of s := (fa_tables (so_facts s)).
Abbreviation scripts_of s := (fa_transcripts (so_facts s)).
Abbreviation journal_of s := (deltas (dk_journal (so_disk s))).

(** What readers do to a store. *)
Definition reader_op (o : op) : bool := match o with ORecord _ _ | OEvent _ _ _ _ | OClose _ => false | _ => true end.

(** A writer and a store that follows its directory, in which the line that
    the writer is at may be unfinished. *)
Inductive followed (id name stream : string) : Store -> Store -> Prop :=
| followed_open fresh s k f : recorded id name stream s -> same_lines (so_disk s) k -> Follow id fresh k = Some (Ok (Some f)) -> followed id name stream s f
| followed_write o s f s' : followed id name stream s f -> good_op o -> exec o s = Some s' -> clean s' -> followed id name stream s' f
| followed_reopen fresh s f s' : followed id name stream s f -> Reopen id fresh (so_disk s) = Some (Ok (Some s')) -> followed id name stream s' f
| followed_read o s f f' : followed id name stream s f -> reader_op o = true -> exec o f = Some f' -> followed id name stream s f'
| followed_refresh s k f f' e : followed id name stream s f -> same_lines (so_disk s) k -> refresh k f = Some (f', e) -> followed id name stream s f'.

(** The follower is the writer as it was at its position. *)
Record behind (s f : Store) : Prop := {
  bh_stream : so_stream f = so_stream s;
  bh_position : exists n, so_position f = Z.of_nat n /\ so_journalEnd f = size (take n (journal_of s)) /\ (n <= length (journal_of s))%nat /\
    at_position s n (tables_of f, scripts_of f);
}.

(** ** Lemmas *)

Lemma follow_apply ds s R : consecutive (so_stream s) (so_position s) ds -> apply_deltas ds (tables_of s, scripts_of s) = Some R ->
  exists s', follow true (Whole <$> ds) s = Some (s', None) /\ so_stream s' = so_stream s /\ so_position s' = so_position s + Z.of_nat (length ds) /\
    tables_of s' = R.1 /\ scripts_of s' = R.2 /\ so_journalEnd s' = (so_journalEnd s + size ds)%nat.
Proof.
  revert s. induction ds as [|d ds IH]; intros s Hc; cbn [apply_deltas follow size fmap list_fmap].
  - intros [= <-]. exists s. rewrite Nat.add_0_r, Z.add_0_r. by split_and!.
  - destruct (Hc 0%nat d eq_refl) as [Hst Hp]. rewrite Hst, String.eqb_refl. replace (dl_Position d =? so_position s + 1) with true by (symmetry; apply Z.eqb_eq; lia). cbn [andb].
    unfold apply_delta. destruct (apply_frames (dl_Frames d) _) as [[T scripts]|] eqn:Ea; cbn [mbind option_bind]; [|done]. intros Hd.
    match goal with |- context [follow _ _ ?s1] => destruct (IH s1) as (s' & H1 & H2 & H3 & H4 & H5 & H6) end.
    + cbn. intros i d' Hi. destruct (Hc (S i) d' Hi) as [-> ->]. split; [done|lia].
    + done.
    + exists s'. cbn in *. split_and!; try done; lia.
Qed.

Lemma settle_same s : so_facts (settle s) = so_facts s /\ so_stream (settle s) = so_stream s /\ so_position (settle s) = so_position s /\ so_journalEnd (settle s) = so_journalEnd s.
Proof. unfold settle. by destruct (String.eqb _ _). Qed.

(** A refresh does not fail, and makes the follower the writer. *)
Lemma refresh_behind stream s f k : on_disk stream s -> behind s f -> same_lines (so_disk s) k ->
  exists f', refresh k f = Some (f', None) /\ behind s f' /\ snapshot f' = snapshot s.
Proof.
  intros D [B1 (n & B2 & B3 & B4 & (B & B5 & B6))] [K _]. unfold refresh. rewrite K, (od_lines _ _ D), B3, lines_from_drop.
  destruct (follow_apply (drop n (journal_of s)) f (tables_of s, B)) as (f1 & H1 & H2 & H3 & H4 & H5 & H6); [|done|].
  - rewrite B1, B2, (od_stream _ _ D). apply (consecutive_drop stream 0), D.
  - rewrite H1. eexists. split; [done|]. destruct (settle_same f1) as (S1 & S2 & S3 & S4). rewrite length_drop in H3. pose proof (od_position _ _ D) as Hp. split.
    + split; [congruence|]. exists (length (journal_of s)). rewrite S1, S3, S4, H6, B3, H4, H5, <- size_app, take_drop, size_all by done. split_and!; [lia|done|done|]. exists B. by rewrite drop_ge.
    + apply snapshot_same; rewrite ?S1, ?S2, ?S3; [congruence|lia|done|by rewrite H5].
Qed.

Lemma behind_moved s s' ds f : moved s s' ds -> behind s f -> behind s' f.
Proof.
  intros Hm [B1 (n & B2 & B3 & B4 & B5)]. split; [by rewrite (mv_stream _ _ _ Hm)|]. exists n. rewrite (moved_journal _ _ _ Hm), take_app_le, length_app by done. split_and!; [done|done|lia|by eapply at_position_moved].
Qed.

(** [s'] has the directory of [s]. *)
Lemma behind_reopened s s' f : so_stream s' = so_stream s -> journal_of s' = journal_of s -> tables_of s' = tables_of s -> scripts_same (scripts_of s) (scripts_of s') -> behind s f -> behind s' f.
Proof.
  intros H1 H2 H3 H4 [B1 (n & B2 & B3 & B4 & B5)]. split; [congruence|]. exists n. rewrite H2. split_and!; [done|done|done|by eapply at_position_reopened].
Qed.

Lemma exec_reader o f f' : reader_op o = true -> exec o f = Some f' ->
  so_facts f' = so_facts f /\ so_stream f' = so_stream f /\ so_position f' = so_position f /\ so_journalEnd f' = so_journalEnd f.
Proof.
  destruct o; try done; cbn; intros _.
  - intros [= <-]. unfold Join. destruct (so_closed f); [done|]. by destruct (resumable _ _ _).
  - intros [= <-]. unfold Subscribe. by destruct (so_closed f).
  - unfold receive_delta. destruct (so_joins f !! i) as [j|]; [cbn|done]. destruct (js_deltas j); [done|]. by intros [= <-].
  - by intros [= <-].
  - by intros [= <-].
  - unfold receive_frame. destruct (so_subs f !! i) as [u|]; [cbn|done]. destruct (su_frames u); [done|]. by intros [= <-].
  - by intros [= <-].
  - by intros [= <-].
Qed.

Lemma loaded_behind id fresh stream s k f : stream <> "" -> on_disk stream s -> same_lines (so_disk s) k -> Follow id fresh k = Some (Ok (Some f)) -> behind s f.
Proof.
  intros Hne D Hk Hf. destruct (load_on_disk id fresh stream s k Hne D Hk) as (f0 & Hl & _ & _ & _ & _ & _ & HT & HB & Hst & Hp & He). unfold Follow in Hf. rewrite Hl in Hf. injection Hf as <-.
  split; cbn; [by rewrite Hst, (od_stream _ _ D)|]. exists (length (journal_of s)). rewrite Hp, He, HT, size_all, (od_end _ _ D), (od_position _ _ D) by done. split_and!; try done.
  exists (scripts_of f0). by rewrite drop_ge.
Qed.

Lemma followed_behind id name stream s f : stream <> "" -> followed id name stream s f -> resending stream s /\ behind s f.
Proof.
  intros Hne. induction 1 as [fresh s k f Hrec Hk Hf|o s f s' _ [IHs IHf] Ho He Hc|fresh s f s' _ [IHs IHf] Hr|o s f f' _ [IHs IHf] Ho He|s k f f' e _ [IHs IHf] Hk Hr].
  - pose proof (recorded_resending _ _ _ _ Hne Hrec) as Hs. split; [done|]. by apply (loaded_behind id fresh stream s k f Hne (rs_disk _ _ Hs)).
  - destruct (exec_moved o s s') as (ds & Hm & Hh); [apply IHs..|done|apply IHs|done|]. split; [by eapply on_disk_clean_moved|by eapply behind_moved].
  - destruct (reopen_resending _ _ _ _ _ Hne IHs Hr) as (H1 & H2 & H3 & H4). split; [done|]. apply (behind_reopened s); try done.
    rewrite (od_stream _ _ (rs_disk _ _ H1)). symmetry. apply IHs.
  - split; [done|]. destruct (exec_reader o f f' Ho He) as (E1 & E2 & E3 & E4). destruct IHf as [B1 B2]. split; rewrite ?E1, ?E2, ?E3, ?E4; done.
  - split; [done|]. destruct (refresh_behind stream s f k (rs_disk _ _ IHs) IHf Hk) as (f1 & H1 & H2 & _). rewrite H1 in Hr. by injection Hr as <- _.
Qed.
End Follow.
