(* ===== verification/ObservationFiles.v ===== *)
(** * What a store holds for its readers

    The deltas it can resend and the queues of its subscriptions stay within
    their bounds, whatever happens and whatever fails to be written. *)

From S2P Require Import Prelude GoText SessionJson SessionState SessionReduce SessionIndex SessionInv SessionSim SessionProps SessionMain GoValue Observation ObservationStore ObservationDelta ObservationJournal ObservationReaders.
From Stdlib Require Import Ascii SpecFloat.
From stdpp Require Import sorting.

Open Scope string_scope.
Open Scope list_scope.
Open Scope Z_scope.

(** ** Definitions *)

Section Bounds.
Context {host : Host}.

Definition join_bounded (n b : Z) (j : JoinSubscription) : Prop := Z.of_nat (length (js_deltas j)) <= n /\ js_bytes j <= b.
Definition sub_bounded (n b : Z) (u : Subscription) : Prop := Z.of_nat (length (su_frames u)) <= n /\ su_bytes u <= b.

Record held (n b : Z) (s : Store) : Prop := {
  hl_limits : so_maxFrames s = n /\ so_maxBytes s = b;
  hl_recent : Z.of_nat (length (so_recent s)) <= n /\ foldr (fun d n => deltaBytes d + n) 0 (so_recent s) <= b;
  hl_joins : Forall (join_bounded n b) (so_joins s);
  hl_subs : Forall (sub_bounded n b) (so_subs s);
}.

(** A store after any operations, with any outcomes of writing. *)
Inductive reached (id name stream : string) : Store -> Prop :=
| reached_open tables_ok save_ok : reached id name stream (Open id name stream tables_ok save_ok).1
| reached_exec o s s' : reached id name stream s -> exec o s = Some s' -> reached id name stream s'.

(** ** Lemmas *)

Lemma shrink_bounded n b l : 0 <= n -> 0 <= b -> Z.of_nat (length (shrink n b l)) <= n /\ foldr (fun d n => deltaBytes d + n) 0 (shrink n b l) <= b.
Proof.
  intros Hn Hb. induction l as [|d l IH]; [done|]. cbn [shrink]. destruct (_ || _) eqn:E; [done|]. apply orb_false_iff in E as [E1 E2]. lia.
Qed.

Lemma publish_bounded n b d j : join_bounded n b j -> join_bounded n b (publish_delta n b d j).
Proof.
  intros [H1 H2]. unfold publish_delta. destruct (negb _); [done|]. destruct (js_closed j); [done|]. destruct (_ || _) eqn:E; [done|]. apply orb_false_iff in E as [E1 E2].
  split; cbn; rewrite ?length_app; cbn; lia.
Qed.

Lemma offer_bounded n b f u : sub_bounded n b u -> sub_bounded n b (offer n b f u).
Proof.
  intros [H1 H2]. unfold offer. destruct (negb _); [done|]. destruct (_ || su_finished u); [done|]. destruct (_ || _) eqn:E; [done|]. apply orb_false_iff in E as [E1 E2].
  split; cbn; rewrite ?length_app; cbn; lia.
Qed.

Lemma held_same n b s s' : held n b s -> so_maxFrames s' = so_maxFrames s -> so_maxBytes s' = so_maxBytes s -> so_recent s' = so_recent s ->
  Forall (join_bounded n b) (so_joins s') -> Forall (sub_bounded n b) (so_subs s') -> held n b s'.
Proof. intros [H1 H2 H3 H4] E1 E2 E3 HJ HS. split; rewrite ?E1, ?E2, ?E3; done. Qed.

Lemma held_publish n b d s : 0 <= n -> 0 <= b -> held n b s -> held n b (publish d s).
Proof.
  intros Hn Hb [[H1 H1'] H2 H3 H4]. split; cbn; rewrite ?H1, ?H1'; [done| | |].
  - unfold retain. rewrite H1, H1'. by apply shrink_bounded.
  - apply Forall_fmap. eapply Forall_impl; [done|]. intros j. apply publish_bounded.
  - apply Forall_fmap. eapply Forall_impl; [done|]. intros u. cbn. generalize (dl_Frames d). intros fs. revert u. induction fs as [|f fs IH]; intros u Hu; [done|]. cbn. by apply IH, offer_bounded.
Qed.

Lemma held_save n b ok s : held n b s -> held n b (save ok s).1.
Proof. unfold save. destruct (negb _); [done|]. destruct ok; [|done]. intros []. by split. Qed.

Lemma held_commit n b io changed extra s s' e : 0 <= n -> 0 <= b -> held n b s -> commit io changed extra s = Some (s', e) -> held n b s'.
Proof.
  intros Hn Hb Hs. unfold commit.
  assert (forall frames, (let d := MkDelta (so_stream s) (so_position s + 1) frames in
    match append_delta (io_append io) d s with
    | (s, Some e) => Some (s, Some e)
    | (s, None) =>
        if so_writes s && negb (io_tables io) then Some (s, Some WriteFailed)
        else let s := publish d s in let s := with_disk (so_journalEnd s) (so_sinceSave s + 1) (so_disk s) s in Some (if snapshotEvery <=? so_sinceSave s then save (io_save io) s else (s, None))
    end) = Some (s', e) -> held n b s') as H.
  { intros frames. cbn zeta. destruct (append_delta _ _ s) as [s1 e1] eqn:Ea. assert (held n b s1) as H1.
    { unfold append_delta in Ea. destruct (negb _); [by injection Ea as <- _|]. destruct (io_append io); injection Ea as <- _; destruct Hs; by split. }
    destruct e1; [by intros [= <- _]|]. destruct (_ && _); [by intros [= <- _]|].
    pose proof (held_publish n b (MkDelta (so_stream s) (so_position s + 1) frames) s1 Hn Hb H1) as H2.
    set (s2 := publish _ s1) in *. assert (held n b (with_disk (so_journalEnd s2) (so_sinceSave s2 + 1) (so_disk s2) s2)) as H3 by (destruct H2; by split).
    destruct (snapshotEvery <=? _); [|by intros [= <- _]]. intros E%(inj Some). change (held n b (s', e).1). rewrite <- E. by apply held_save. }
  destruct changed, extra; [by intros [= <- _]|..]; (destruct (commit_frames _ _ _) as [frames|]; [cbn [mbind option_bind]|done]); apply H.
Qed.

Lemma held_facts n b F s : held n b s -> held n b (with_facts F s).
Proof. intros []. by split. Qed.

Lemma Forall_insert_in {A} (P : A -> Prop) (l : list A) (i : nat) x : Forall P l -> P x -> Forall P (<[i := x]> l).
Proof. intros H Hx. by apply Forall_insert. Qed.

Lemma Forall_alter_in {A} (P : A -> Prop) (f : A -> A) (l : list A) (i : nat) : Forall P l -> (forall x, P x -> P (f x)) -> Forall P (alter f i l).
Proof. intros H Hf. apply Forall_alter; [done|]. intros x _. apply Hf. Qed.

Lemma deltaBytes_nonneg d : 0 <= deltaBytes d.
Proof. unfold deltaBytes. induction (dl_Frames d) as [|f fs IH]; [done|]. cbn. pose proof (data_len_nonneg f). lia. Qed.

Lemma held_exec n b o s s' : 0 <= n -> 0 <= b -> held n b s -> exec o s = Some s' -> held n b s'.
Proof.
  intros Hn Hb Hs. pose proof (hl_joins _ _ _ Hs) as HJ. pose proof (hl_subs _ _ _ Hs) as HS. destruct o as [io r|io at_ e ref|ok|stream position| |i|i d|i|i|i f|i]; cbn.
  - unfold Lifecycle. destruct r as [r|]; [|by intros [= <-]]. destruct (so_closed s); [by intros [= <-]|]. destruct (fold_record r _) as [T changed].
    destruct (commit io changed [] _) as [[s1 e]|] eqn:E; [|done]. intros [= <-]. eapply held_commit; [done|done|by apply held_facts|exact E].
  - unfold Event. destruct (decode_event e ref) as [o|]; [|by intros [= <-]]. destruct (so_closed s); [by intros [= <-]|].
    destruct (fold_event _ _ _ _ _ _) as [[F changed]|]; [cbn|done]. destruct (commit io changed _ _) as [[s1 e1]|] eqn:E; [|done]. intros [= <-]. eapply held_commit; [done|done|by apply held_facts|exact E].
  - intros [= <-]. unfold Close. destruct (so_closed s); [done|]. apply held_save. eapply held_same; [done..| |].
    + apply Forall_fmap. eapply Forall_impl; [done|]. intros j Hj. cbn. unfold finish_join. by destruct (negb _).
    + apply Forall_fmap. eapply Forall_impl; [done|]. intros u Hu. cbn. unfold finish_sub. by destruct (negb _).
  - intros [= <-]. unfold ObservationStore.Join. destruct (so_closed s); [done|]. assert (held n b (with_subs (so_subs s) (so_joins s ++ [MkJoin [] 0 false None true]) s)) as H.
    { eapply held_same; [done..| |done]. apply Forall_app. split; [done|]. by apply Forall_singleton. }
    by destruct (resumable _ _ _).
  - intros [= <-]. unfold Subscribe. destruct (so_closed s); [done|]. eapply held_same; [done..|]. apply Forall_app. split; [done|]. by apply Forall_singleton.
  - unfold receive_delta. destruct (so_joins s !! i) as [j|] eqn:Ej; [cbn|done]. destruct (js_deltas j) as [|d rest] eqn:Ed; [done|]. intros [= <-]. eapply held_same; [done..| |done].
    apply Forall_insert_in; [done|]. destruct (Forall_lookup_1 _ _ _ _ HJ Ej) as [H1 H2]. rewrite Ed in H1. split; cbn in *; lia.
  - intros [= <-]. eapply held_same; [done..| |done]. apply Forall_alter_in; [done|]. intros j [H1 H2]. pose proof (deltaBytes_nonneg d). split; cbn; lia.
  - intros [= <-]. eapply held_same; [done..| |done]. apply Forall_alter_in; [done|]. intros j [H1 H2]. by destruct (js_closed j).
  - unfold receive_frame. destruct (so_subs s !! i) as [u|] eqn:Eu; [cbn|done]. destruct (su_frames u) as [|f rest] eqn:Ef; [done|]. intros [= <-]. eapply held_same; [done..|].
    apply Forall_insert_in; [done|]. destruct (Forall_lookup_1 _ _ _ _ HS Eu) as [H1 H2]. rewrite Ef in H1. split; cbn in *; lia.
  - intros [= <-]. eapply held_same; [done..|]. apply Forall_alter_in; [done|]. intros u [H1 H2]. pose proof (data_len_nonneg f). split; cbn; lia.
  - intros [= <-]. eapply held_same; [done..|]. by apply Forall_alter_in.
Qed.

Lemma reached_held id name stream s : reached id name stream s -> held defaultMaxFrames defaultMaxBytes s.
Proof.
  induction 1 as [tables_ok save_ok|o s s' _ IH He]; [|by eapply held_exec].
  assert (held defaultMaxFrames defaultMaxBytes (newStore id name stream true)) as H by (split; cbn; try done; constructor).
  unfold Open. destruct (negb tables_ok); [done|]. by apply held_save.
Qed.
End Bounds.

(** * The tables as files ([files.go], [replay.go])

    Each table is a JSON array in a fixed order.  The array of a state is the
    same however the maps are ranged over, and reading the files gives back
    every row. *)

(** ** Definitions *)

(** One turn's usage by one model ([rows.go]). *)
Record TurnUsageRow : Type := MkTurnUsage { tu_Run : string; tu_Turn : string; tu_Model : string; tu_Usage : Usage }.

(** The eight files. *)
Record files : Type := MkFiles {
  fi_run : list RunRow;
  fi_scopes : list ScopeRow;
  fi_sessions : list SessionRow;
  fi_interactions : list InteractiveRow;
  fi_turns : list TurnRow;
  fi_turnUsage : list TurnUsageRow;
  fi_modelCalls : list ModelCallRow;
  fi_commands : list CommandRow
}.

(** By time, then by identifier. *)
Definition earlier (a b : Z * string) : Prop := a.1 < b.1 \/ (a.1 = b.1 /\ String.le a.2 b.2).

#[global] Instance earlier_dec a b : Decision (earlier a b).
Proof. unfold earlier. apply _. Defined.

Definition by_scope (a b : ScopeRow) : Prop := String.le (sr_Key a) (sr_Key b).
Definition by_created (a b : SessionRow) : Prop := earlier (sn_Created a, sn_ID a) (sn_Created b, sn_ID b).
Definition by_asked (a b : InteractiveRow) : Prop := earlier (ir_Asked a, ir_QuestionID a) (ir_Asked b, ir_QuestionID b).
Definition by_started (a b : TurnRow) : Prop := earlier (tr_Started a, tr_ID a) (tr_Started b, tr_ID b).
Definition by_command (a b : CommandRow) : Prop := earlier (cm_Started a, cm_ID a) (cm_Started b, cm_ID b).

Section Files.
Context {host : Host}.

Definition rows_of {A} (m : gmap string A) : list A := (map_order A m).*2.

(** [sortedKeys] *)
Definition sortedKeys {A} (m : gmap string A) : list string := merge_sort String.le ((map_order A m).*1).

Definition usage_rows (T : tables) (turn : string) : list TurnUsageRow :=
  let byModel := default ∅ (tb_turnUsage T !! turn) in
  (fun model => MkTurnUsage (rr_ID (tb_run T)) turn model (default no_usage (byModel !! model))) <$> sortedKeys byModel.

(** [tableRowsLocked] of every table *)
Definition tableRows (T : tables) : files :=
  MkFiles [tb_run T]
    (merge_sort by_scope (rows_of (tb_scopes T)))
    (merge_sort by_created (rows_of (tb_sessions T)))
    (merge_sort by_asked (rows_of (tb_interactions T)))
    (merge_sort by_started (rows_of (tb_turns T)))
    (flat_map (usage_rows T) (sortedKeys (tb_turnUsage T)))
    (flat_map (fun turn => default [] (tb_modelCalls T !! turn)) (sortedKeys (tb_modelCalls T)))
    (merge_sort by_command (rows_of (tb_commands T))).

(** [sessionsInCreatedOrder] *)
Definition sessionsInCreatedOrder (T : tables) : list string := sn_ID <$> fi_sessions (tableRows T).
End Files.

(** [loadTables] *)
Definition load_rows {A} (key : A -> string) (rows : list A) : gmap string A := foldl (fun m row => <[key row := row]> m) ∅ rows.

Definition load_groups {A B} (turn : A -> string) (empty : B) (into : B -> A -> B) (rows : list A) (m : gmap string B) : gmap string B :=
  foldl (fun m row => <[turn row := into (default empty (m !! turn row)) row]> m) m rows.

Definition loadTables (id : string) (fs : files) : tables :=
  MkTables (match fi_run fs with r :: _ => r | [] => tb_run (new_tables id "") end)
    (load_rows sr_Key (fi_scopes fs)) (load_rows sn_ID (fi_sessions fs)) (load_rows ir_QuestionID (fi_interactions fs)) (load_rows tr_ID (fi_turns fs))
    (load_groups tu_Turn ∅ (fun (m : gmap string Usage) row => <[tu_Model row := tu_Usage row]> m) (fi_turnUsage fs) ∅)
    (load_groups mc_Turn [] (fun l row => l ++ [row]) (fi_modelCalls fs) ∅)
    (load_rows cm_ID (fi_commands fs)).

(** Every row is under its own key, and no turn has an empty list of calls. *)
Record keyed (T : tables) : Prop := {
  kd_scopes : forall k r, tb_scopes T !! k = Some r -> sr_Key r = k;
  kd_sessions : forall k r, tb_sessions T !! k = Some r -> sn_ID r = k;
  kd_interactions : forall k r, tb_interactions T !! k = Some r -> ir_QuestionID r = k;
  kd_turns : forall k r, tb_turns T !! k = Some r -> tr_ID r = k;
  kd_calls : forall k l, tb_modelCalls T !! k = Some l -> l <> [] /\ Forall (fun c => mc_Turn c = k) l;
  kd_commands : forall k r, tb_commands T !! k = Some r -> cm_ID r = k;
}.

(** ** Lemmas *)

(** *** Order *)

#[global] Instance earlier_trans : Transitive earlier.
Proof. intros a b c [H|[H1 H2]] [H'|[H1' H2']]; unfold earlier; [left; lia|left; lia|left; lia|right; split; [lia|by etrans]]. Qed.

#[global] Instance earlier_total : Total earlier.
Proof. intros a b. unfold earlier. destruct (Z.lt_total a.1 b.1) as [?|[E|?]]; [by left; left| |by right; left]. destruct (total String.le a.2 b.2); [left|right]; right; by split. Qed.

Lemma earlier_antisym a b : earlier a b -> earlier b a -> a = b.
Proof. destruct a as [x s], b as [y t]. intros [H|[H1 H2]] [H'|[H1' H2']]; cbn in *; try lia. subst. f_equal. by apply (anti_symm String.le). Qed.

Lemma trans_by {A B} (R : B -> B -> Prop) (f : A -> B) : Transitive R -> Transitive (fun a b => R (f a) (f b)).
Proof. intros H a b c. apply H. Qed.

Lemma total_by {A B} (R : B -> B -> Prop) (f : A -> B) : Total R -> Total (fun a b => R (f a) (f b)).
Proof. intros H a b. apply H. Qed.

#[local] Hint Extern 0 (Transitive by_scope) => apply (trans_by String.le sr_Key), _ : typeclass_instances.
#[local] Hint Extern 0 (Total by_scope) => apply (total_by String.le sr_Key), _ : typeclass_instances.
#[local] Hint Extern 0 (Transitive by_created) => apply (trans_by earlier (fun r => (sn_Created r, sn_ID r))), _ : typeclass_instances.
#[local] Hint Extern 0 (Total by_created) => apply (total_by earlier (fun r => (sn_Created r, sn_ID r))), _ : typeclass_instances.
#[local] Hint Extern 0 (Transitive by_asked) => apply (trans_by earlier (fun r => (ir_Asked r, ir_QuestionID r))), _ : typeclass_instances.
#[local] Hint Extern 0 (Total by_asked) => apply (total_by earlier (fun r => (ir_Asked r, ir_QuestionID r))), _ : typeclass_instances.
#[local] Hint Extern 0 (Transitive by_started) => apply (trans_by earlier (fun r => (tr_Started r, tr_ID r))), _ : typeclass_instances.
#[local] Hint Extern 0 (Total by_started) => apply (total_by earlier (fun r => (tr_Started r, tr_ID r))), _ : typeclass_instances.
#[local] Hint Extern 0 (Transitive by_command) => apply (trans_by earlier (fun r => (cm_Started r, cm_ID r))), _ : typeclass_instances.
#[local] Hint Extern 0 (Total by_command) => apply (total_by earlier (fun r => (cm_Started r, cm_ID r))), _ : typeclass_instances.

(** A sort by a key is the same whatever order it starts from, if no two rows
    have the same key. *)
Section Sort.
Context {A K : Type} (le : A -> A -> Prop) `{!forall x y, Decision (le x y)} (key : A -> string).
Context {Htrans : Transitive le} {Htot : Total le} (Hanti : forall a b, le a b -> le b a -> key a = key b).

Lemma sort_perm_eq l l' : NoDup (key <$> l) -> l ≡ₚ l' -> merge_sort le l = merge_sort le l'.
Proof.
  intros Hnd Hp. apply (StronglySorted_unique_strong le).
  - intros x y Hx Hy Hxy Hyx. rewrite merge_sort_Permutation in Hx, Hy. rewrite <- Hp in Hy. pose proof (Hanti _ _ Hxy Hyx) as Hk.
    apply list_elem_of_lookup in Hx as [i Hi]. apply list_elem_of_lookup in Hy as [j Hj].
    assert (i = j) as -> by (eapply (NoDup_lookup (key <$> l)); [done|by rewrite list_lookup_fmap, Hi|rewrite list_lookup_fmap, Hj; cbn; by rewrite Hk]). congruence.
  - by apply StronglySorted_merge_sort.
  - by apply StronglySorted_merge_sort.
  - by rewrite !merge_sort_Permutation.
Qed.
End Sort.

Section Maps.
Context {host : Host}.

Lemma rows_perm {A} (m : gmap string A) : rows_of m ≡ₚ (map_to_list m).*2.
Proof. unfold rows_of. by rewrite map_order_perm. Qed.

Lemma keys_perm {A} (m : gmap string A) : sortedKeys m ≡ₚ (map_to_list m).*1.
Proof. unfold sortedKeys. by rewrite merge_sort_Permutation, map_order_perm. Qed.

Lemma keys_nodup {A} (m : gmap string A) : NoDup (sortedKeys m).
Proof. rewrite keys_perm. apply NoDup_fst_map_to_list. Qed.

Lemma elem_of_keys {A} (m : gmap string A) k : k ∈ sortedKeys m <-> is_Some (m !! k).
Proof.
  rewrite keys_perm, list_elem_of_fmap. split.
  - intros ([k' x] & -> & H%elem_of_map_to_list). by exists x.
  - intros [x H]. exists (k, x). split; [done|]. by apply elem_of_map_to_list.
Qed.

(** The rows of a map are the map. *)
Lemma keyed_list {A} (key : A -> string) (m : gmap string A) : (forall k r, m !! k = Some r -> key r = k) -> (fun r => (key r, r)) <$> (map_to_list m).*2 = map_to_list m.
Proof.
  intros H. rewrite <- list_fmap_compose. rewrite <- (list_fmap_id (map_to_list m)) at 2. apply list_fmap_ext. intros i [k r] Hi%list_elem_of_lookup_2%elem_of_map_to_list. cbn. by rewrite (H k r).
Qed.

Lemma keyed_nodup {A} (key : A -> string) (m : gmap string A) : (forall k r, m !! k = Some r -> key r = k) -> NoDup (key <$> rows_of m).
Proof.
  intros H. rewrite rows_perm. replace (key <$> (map_to_list m).*2) with (((fun r => (key r, r)) <$> (map_to_list m).*2).*1) by (by rewrite <- list_fmap_compose).
  rewrite keyed_list by done. apply NoDup_fst_map_to_list.
Qed.

Lemma load_rows_list {A} (key : A -> string) (rows : list A) : load_rows key rows = list_to_map ((fun r => (key r, r)) <$> reverse rows).
Proof.
  unfold load_rows. rewrite <- (reverse_involutive rows) at 1. induction (reverse rows) as [|r l IH]; [done|]. rewrite reverse_cons, foldl_app. cbn. by rewrite IH.
Qed.

(** Reading the rows of a map gives the map. *)
Lemma load_rows_of {A} (key : A -> string) (m : gmap string A) rows : (forall k r, m !! k = Some r -> key r = k) -> rows ≡ₚ rows_of m -> load_rows key rows = m.
Proof.
  intros H Hp. rewrite load_rows_list. etrans; [|apply (list_to_map_to_list m)]. rewrite <- (keyed_list key m H). apply list_to_map_proper.
  - rewrite reverse_Permutation, Hp. rewrite <- list_fmap_compose. by apply keyed_nodup.
  - by rewrite reverse_Permutation, Hp, rows_perm.
Qed.
End Maps.

(** *** Rows by turn *)

Section Groups.
Context {A B : Type} (turn : A -> string) (empty : B) (into : B -> A -> B).

Lemma load_group t rows m : Forall (fun r => turn r = t) rows -> rows <> [] -> load_groups turn empty into rows m = <[t := foldl into (default empty (m !! t)) rows]> m.
Proof.
  revert m. induction rows as [|r rows IH]; intros m Hf Hne; [done|]. apply Forall_cons in Hf as [Hr Hf]. cbn. rewrite Hr. destruct rows as [|r' rows]; [done|].
  change (load_groups turn empty into (r' :: rows) (<[t := into (default empty (m !! t)) r]> m) = <[t := foldl into (into (default empty (m !! t)) r) (r' :: rows)]> m).
  rewrite IH by done. by rewrite lookup_insert_eq, insert_insert_eq.
Qed.

Lemma load_groups_app rows rows' m : load_groups turn empty into (rows ++ rows') m = load_groups turn empty into rows' (load_groups turn empty into rows m).
Proof. apply foldl_app. Qed.

Lemma load_all (f : string -> list A) ks m k : NoDup ks -> (forall k, Forall (fun r => turn r = k) (f k)) ->
  load_groups turn empty into (flat_map f ks) m !! k = if decide (k ∈ ks /\ f k <> []) then Some (foldl into (default empty (m !! k)) (f k)) else m !! k.
Proof.
  intros Hnd Hf. revert m. induction Hnd as [|t ks Ht Hnd IH]; intros m; cbn [flat_map]; [by rewrite decide_False by (by intros [?%elem_of_nil _])|]. rewrite load_groups_app, IH.
  assert (load_groups turn empty into (f t) m !! k = if decide (k = t /\ f k <> []) then Some (foldl into (default empty (m !! k)) (f k)) else m !! k) as E.
  { destruct (decide (f t = [])) as [E0|Hne].
    - rewrite E0. cbn. rewrite decide_False; [done|]. by intros [-> ?].
    - rewrite (load_group t) by done. destruct (decide (k = t)) as [->|].
      + rewrite lookup_insert_eq. by rewrite decide_True by done.
      + rewrite lookup_insert_ne by done. by rewrite decide_False by (by intros [? _]). }
  rewrite E. destruct (decide (k = t)) as [->|Hne].
  - rewrite (decide_False (P := t ∈ ks /\ _)) by (by intros [? _]). destruct (decide (f t = [])) as [E0|Hn].
    + rewrite !decide_False; [done|by intros [_ ?]|by intros [_ ?]].
    + rewrite !decide_True; [done|split; [by left|done]|done].
  - rewrite (decide_False (P := k = t /\ _)) by (by intros [? _]). destruct (decide (k ∈ ks /\ f k <> [])) as [[H1 H2]|H].
    + rewrite decide_True; [done|]. split; [by right|done].
    + rewrite decide_False; [done|]. intros [[|]%elem_of_cons H2]; [done|]. by apply H.
Qed.
End Groups.

Lemma foldl_insert_keys {A} (g : string -> A) ks k : (foldl (fun (m : gmap string A) k => <[k := g k]> m) ∅ ks) !! k = if decide (k ∈ ks) then Some (g k) else None.
Proof.
  induction ks as [|k' ks IH] using rev_ind; [by rewrite decide_False by (by intros ?%elem_of_nil)|]. rewrite foldl_app. cbn. destruct (decide (k = k')) as [->|Hne].
  - rewrite lookup_insert_eq, decide_True; [done|]. apply elem_of_app. right. by left.
  - rewrite lookup_insert_ne, IH by done. destruct (decide (k ∈ ks)) as [Hin|Hin].
    + rewrite decide_True; [done|]. apply elem_of_app. by left.
    + rewrite decide_False; [done|]. intros [|Hk%list_elem_of_singleton]%elem_of_app; done.
Qed.

Lemma foldl_snoc {A} (l l0 : list A) : foldl (fun l x => l ++ [x]) l0 l = l0 ++ l.
Proof. revert l0. induction l as [|x l IH]; intros l0; cbn; [by rewrite app_nil_r|]. by rewrite IH, <- app_assoc. Qed.

Section RoundTrip.
Context {host : Host}.

Lemma usage_rows_turn T turn : Forall (fun r => tu_Turn r = turn) (usage_rows T turn).
Proof. unfold usage_rows. by apply Forall_fmap, Forall_true. Qed.

Lemma load_usage T turn : foldl (fun (m : gmap string Usage) row => <[tu_Model row := tu_Usage row]> m) ∅ (usage_rows T turn) = default ∅ (tb_turnUsage T !! turn).
Proof.
  unfold usage_rows. set (byModel := default ∅ (tb_turnUsage T !! turn)). apply map_eq. intros k.
  assert (forall ks (m : gmap string Usage), foldl (fun (m : gmap string Usage) row => <[tu_Model row := tu_Usage row]> m) m
    ((fun model => MkTurnUsage (rr_ID (tb_run T)) turn model (default no_usage (byModel !! model))) <$> ks) = foldl (fun m k => <[k := default no_usage (byModel !! k)]> m) m ks) as E.
  { intros ks. induction ks as [|k' ks IH]; intros m; cbn; [done|]. by rewrite IH. }
  rewrite E, foldl_insert_keys. destruct (decide (k ∈ sortedKeys byModel)) as [[x Hx]%elem_of_keys|Hn]; [by rewrite Hx|].
  destruct (byModel !! k) as [x|] eqn:Ex; [|done]. destruct Hn. apply elem_of_keys. by rewrite Ex.
Qed.

Lemma keyed_lists {A} (key : A -> string) (le : A -> A -> Prop) `{!forall x y, Decision (le x y)} (m : gmap string A) :
  (forall k r, m !! k = Some r -> key r = k) -> load_rows key (merge_sort le (rows_of m)) = m.
Proof. intros Hk. apply load_rows_of; [done|]. by rewrite merge_sort_Permutation. Qed.

Lemma loaded_usage T id turn : default ∅ (tb_turnUsage (loadTables id (tableRows T)) !! turn) = default ∅ (tb_turnUsage T !! turn).
Proof.
  unfold loadTables. cbn [tb_turnUsage fi_turnUsage tableRows]. rewrite load_all by (apply keys_nodup || apply usage_rows_turn). rewrite lookup_empty. cbn [default]. rewrite load_usage.
  destruct (decide (turn ∈ sortedKeys (tb_turnUsage T) /\ usage_rows T turn <> [])) as [|Hn]; [done|]. cbn.
  destruct (decide (usage_rows T turn = [])) as [E|Hne]; [by rewrite <- (load_usage T turn), E|].
  destruct (tb_turnUsage T !! turn) as [x|] eqn:Ex; [|done]. destruct Hn. split; [|done]. apply elem_of_keys. by rewrite Ex.
Qed.

Lemma loaded_calls T id : keyed T -> tb_modelCalls (loadTables id (tableRows T)) = tb_modelCalls T.
Proof.
  intros HK. apply map_eq. intros k. unfold loadTables. cbn [tb_modelCalls fi_modelCalls tableRows]. rewrite load_all.
  - rewrite lookup_empty. cbn [default]. unfold Datatypes.id. cbn. rewrite foldl_snoc. cbn. destruct (tb_modelCalls T !! k) as [l|] eqn:El; cbn.
    + rewrite decide_True; [done|]. split; [apply elem_of_keys; by rewrite El|by apply (kd_calls _ HK k l)].
    + rewrite decide_False; [done|]. by intros [_ ?].
  - apply keys_nodup.
  - intros k'. destruct (tb_modelCalls T !! k') as [l|] eqn:El; cbn; [by apply (kd_calls _ HK k' l)|constructor].
Qed.

(** *** What the folds keep *)

Lemma keyed_insert {A} (key : A -> string) (m : gmap string A) k0 v : (forall k r, m !! k = Some r -> key r = k) -> key v = k0 -> forall k r, <[k0 := v]> m !! k = Some r -> key r = k.
Proof.
  intros H Hv k r. destruct (decide (k0 = k)) as [->|]; [rewrite lookup_insert_eq; by intros [= <-]|]. rewrite lookup_insert_ne by done. apply H.
Qed.

Lemma keyed_default {A} (key : A -> string) (m : gmap string A) k v : (forall k r, m !! k = Some r -> key r = k) -> key v = k -> key (default v (m !! k)) = k.
Proof. intros H Hv. destruct (m !! k) as [r|] eqn:E; [by apply H|done]. Qed.

Lemma keyed_run f T : keyed T -> keyed (with_run f T).
Proof. intros []. by split. Qed.

Lemma keyed_scope key f T : keyed T -> (forall r, sr_Key (f r) = sr_Key r) -> keyed (edit_scope key f T).
Proof. intros [] Hf. split; try done. cbn. apply keyed_insert; [done|]. rewrite Hf. by apply keyed_default. Qed.

Lemma keyed_turn at_ f T : keyed T -> (forall r, tr_ID (f r) = tr_ID r) -> keyed (edit_turn at_ f T).
Proof. intros [] Hf. split; try done. cbn. apply keyed_insert; [done|]. rewrite Hf. by apply keyed_default. Qed.

Lemma keyed_command scope id f T : keyed T -> (forall r, cm_ID (f r) = cm_ID r) -> keyed (edit_command scope id f T).
Proof. intros [] Hf. split; try done. cbn. apply keyed_insert; [done|]. rewrite Hf. by apply keyed_default. Qed.

Lemma keyed_usage f T : keyed T -> keyed (with_turnUsage f T).
Proof. intros []. by split. Qed.

Lemma keyed_session key v T : keyed T -> sn_ID v = key -> keyed (with_sessions (fun m => <[key := v]> m) T).
Proof. intros [] Hv. split; try done. cbn. by apply keyed_insert. Qed.

Lemma keyed_interaction key v T : keyed T -> ir_QuestionID v = key -> keyed (with_interactions (fun m => <[key := v]> m) T).
Proof. intros [] Hv. split; try done. cbn. by apply keyed_insert. Qed.

Lemma keyed_calls key v T : keyed T -> v <> [] -> Forall (fun c => mc_Turn c = key) v -> keyed (with_modelCalls (fun m => <[key := v]> m) T).
Proof.
  intros [] Hv Hf. split; try done. cbn. intros k l. destruct (decide (key = k)) as [->|]; [rewrite lookup_insert_eq; by intros [= <-]|]. rewrite lookup_insert_ne by done. auto.
Qed.

#[local] Create HintDb keyed.
#[local] Hint Resolve keyed_run keyed_scope keyed_turn keyed_command keyed_usage keyed_session keyed_interaction : keyed.

Lemma fold_record_keyed r T : keyed T -> keyed (fold_record r T).1.
Proof.
  intros H. unfold fold_record. destruct (rec_Event r); cbn [fst]; auto with keyed.
  - destruct (_ && _ && _); cbn [fst]; auto with keyed.
  - destruct (String.eqb _ _); cbn [fst]; auto with keyed.
  - destruct (tb_sessions T !! target) as [s|] eqn:E; cbn [fst]; [|done]. apply keyed_session; [done|]. cbn. by apply (kd_sessions _ H).
Qed.

Lemma foldStep_keyed b at_ event s F F' changed : foldStep b at_ event s F = Some (F', changed) -> keyed (fa_tables F) -> keyed (fa_tables F').
Proof.
  unfold foldStep. destruct b; [by intros [= <- _]|]. destruct (_ && _ && _); [by intros [= <- _]|]. destruct s as [data|]; [|by intros [= <- _]].
  destruct (String.eqb _ "session.step.started"); [by intros [= <- _]|]. destruct (_ && (_ || _)); [by intros [= <- _]|].
  set (calls := default [] (tb_modelCalls (fa_tables F) !! pl_Turn at_)). set (row := MkModelCall _ _ _ _ _ _ _). intros E HK.
  assert (Forall (fun c => mc_Turn c = pl_Turn at_) calls) as Hcalls.
  { unfold calls. destruct (tb_modelCalls (fa_tables F) !! pl_Turn at_) as [l|] eqn:El; cbn; [by apply (kd_calls _ HK _ l)|constructor]. }
  clearbody calls. assert (keyed (with_modelCalls (fun m => <[pl_Turn at_ := calls ++ [row]]> m) (fa_tables F))) as Hadd.
  { apply keyed_calls; [done|by destruct calls|]. apply Forall_app. split; [done|]. by apply Forall_singleton. }
  destruct (indexOfCall calls (sp_Message data)) as [i|] eqn:Ei.
  - injection E as <- _. apply keyed_calls; [done| |by apply Forall_insert]. unfold indexOfCall in Ei. destruct (String.eqb (sp_Message data) ""); [done|].
    destruct (list_find _ calls) as [[i' c]|] eqn:Ef; [|done]. apply list_find_Some in Ef as (Hc & _). intros E0%(f_equal length). rewrite length_insert in E0. apply nil_length_inv in E0. subst calls. done.
  - cbn in E. destruct (tb_turns (fa_tables F) !! pl_Turn at_) as [turn|]; [cbn in E|done]. destruct (negb _); injection E as <- _; [exact Hadd|]. by apply (keyed_usage _ _ Hadd).
Qed.

Lemma fold_event_keyed b at_ event s ref F F' changed : fold_event b at_ event s ref F = Some (F', changed) -> keyed (fa_tables F) -> keyed (fa_tables F').
Proof.
  unfold fold_event. destruct (turn_seen b at_ (fa_tables F)) as [T1 seen] eqn:E1. destruct (availability at_ _ T1) as [T2 available] eqn:E2. intros E HK.
  assert (keyed T1) as K1.
  { unfold turn_seen in E1. destruct b; [by injection E1 as <- _|]. destruct (tb_turns _ !! _); injection E1 as <- _; [done|]. by apply keyed_turn. }
  assert (keyed T2) as K2 by (unfold availability in E2; destruct (_ || _); injection E2 as <- _; [by apply keyed_turn|done]).
  destruct (Apply _ _) as [p|]; [cbn in E|done]. destruct (foldStep _ _ _ _ _) as [[F1 c1]|] eqn:Es; [|done]. injection E as <- _. by eapply foldStep_keyed.
Qed.
(** *** Every store *)

Lemma commit_facts io changed extra s s' e : commit io changed extra s = Some (s', e) -> so_facts s' = so_facts s.
Proof.
  assert (forall ok s, so_facts (save ok s).1 = so_facts s) as Hsave by (intros ok s0; unfold save; destruct (negb _); [done|by destruct ok]).
  assert (forall ok d s s1 e1, append_delta ok d s = (s1, e1) -> so_facts s1 = so_facts s) as Happ.
  { intros ok d s0 s1 e1. unfold append_delta. destruct (negb _); [by intros [= <- _]|]. destruct ok; by intros [= <- _]. }
  unfold commit. destruct changed, extra; [by intros [= <- _]|..]; (destruct (commit_frames _ _ _) as [frames|]; [cbn [mbind option_bind]; cbn zeta|done]);
    (destruct (append_delta _ _ s) as [s1 [e1|]] eqn:Ea; apply Happ in Ea; [by intros [= <- _]|]); (destruct (_ && _); [by intros [= <- _]|]);
    (destruct (snapshotEvery <=? _); [|by intros [= <- _]]); intros E%(inj Some)%(f_equal fst); cbn [fst] in E; rewrite <- E, Hsave; done.
Qed.

Lemma reached_keyed id name stream s : reached id name stream s -> keyed (fa_tables (so_facts s)).
Proof.
  assert (forall ok s, so_facts (save ok s).1 = so_facts s) as Hsave by (intros ok s0; unfold save; destruct (negb _); [done|by destruct ok]).
  induction 1 as [tables_ok save_ok|o s s' _ IH He].
  - assert (so_facts (Open id name stream tables_ok save_ok).1 = MkFacts (new_tables id name) ∅ ∅) as ->.
    { unfold Open. destruct (negb tables_ok); [done|]. by rewrite Hsave. }
    split; intros k r; cbn; by rewrite lookup_empty.
  - destruct (reader_op o) eqn:Er; [by destruct (exec_reader o s s' Er He) as (-> & _)|]. destruct o as [io r|io at_ e ref|ok| | | | | | | |]; try done; cbn in He.
    + unfold Lifecycle in He. destruct r as [r|]; [|by injection He as <-]. destruct (so_closed s); [by injection He as <-|].
      pose proof (fold_record_keyed r _ IH) as HK. destruct (fold_record r _) as [T changed]. destruct (commit _ _ _ _) as [[s1 e1]|] eqn:Ec; [|done]. injection He as <-. apply commit_facts in Ec. by rewrite Ec.
    + unfold Event in He. destruct (decode_event e ref) as [o|]; [|by injection He as <-]. destruct (so_closed s); [by injection He as <-|].
      destruct (fold_event _ _ _ _ _ _) as [[F changed]|] eqn:Ef; [cbn in He|done]. destruct (commit _ _ _ _) as [[s1 e1]|] eqn:Ec; [|done]. injection He as <-. apply commit_facts in Ec. rewrite Ec. by eapply fold_event_keyed.
    + injection He as <-. unfold Close. destruct (so_closed s); [done|]. by rewrite Hsave.
Qed.

Lemma loaded_rows T id c : keyed T -> rowLocked (loadTables id (tableRows T)) c = rowLocked T c.
Proof.
  intros HK. pose proof (loaded_usage T id (ch_key c)) as HU. pose proof (loaded_calls T id HK) as HC. destruct HK as [K1 K2 K3 K4 K5 K6]. unfold rowLocked. destruct (ch_table c); try rewrite HU; try rewrite HC; try done;
    unfold loadTables, tableRows; cbn [tb_scopes tb_sessions tb_interactions tb_turns tb_commands fi_scopes fi_sessions fi_interactions fi_turns fi_commands].
  - by rewrite keyed_lists.
  - by rewrite keyed_lists.
  - by rewrite keyed_lists.
  - by rewrite keyed_lists.
  - by rewrite keyed_lists.
Qed.
End RoundTrip.

(** *** The order of a map does not matter *)

Section Order.
Context (h h' : Host).

Lemma rows_perm_hosts {A} (m : gmap string A) : @rows_of h A m ≡ₚ @rows_of h' A m.
Proof. by rewrite !rows_perm. Qed.

Lemma sortedKeys_hosts {A} (m : gmap string A) : @sortedKeys h A m = @sortedKeys h' A m.
Proof.
  apply (sort_perm_eq String.le (fun k => k)); [intros a b; apply (anti_symm String.le)| |by rewrite !map_order_perm].
  rewrite list_fmap_id. rewrite map_order_perm. apply NoDup_fst_map_to_list.
Qed.

Lemma tableRows_hosts T : keyed T -> @tableRows h T = @tableRows h' T.
Proof.
  intros [K1 K2 K3 K4 K5 K6]. unfold tableRows. f_equal.
  - apply (sort_perm_eq by_scope sr_Key); [intros a b; apply (anti_symm String.le)|by apply keyed_nodup|apply rows_perm_hosts].
  - apply (sort_perm_eq by_created sn_ID); [|by apply keyed_nodup|apply rows_perm_hosts]. intros a b H1 H2. by injection (earlier_antisym _ _ H1 H2).
  - apply (sort_perm_eq by_asked ir_QuestionID); [|by apply keyed_nodup|apply rows_perm_hosts]. intros a b H1 H2. by injection (earlier_antisym _ _ H1 H2).
  - apply (sort_perm_eq by_started tr_ID); [|by apply keyed_nodup|apply rows_perm_hosts]. intros a b H1 H2. by injection (earlier_antisym _ _ H1 H2).
  - rewrite sortedKeys_hosts. apply flat_map_ext. intros turn. unfold usage_rows. by rewrite sortedKeys_hosts.
  - by rewrite sortedKeys_hosts.
  - apply (sort_perm_eq by_command cm_ID); [|by apply keyed_nodup|apply rows_perm_hosts]. intros a b H1 H2. by injection (earlier_antisym _ _ H1 H2).
Qed.
End Order.
