(* ===== verification/ObservationProps.v ===== *)
(** * What is true of the observation of a run

    The store comes back from its directory ([journal_restores]); a reader is
    brought to the store by what it is sent ([reader_catches_up]); another
    process follows ([follower_refreshes]); what is held for readers is bounded
    ([held_within_bounds]); the files of the
    tables hold every row ([tables_on_file]); a commit that fails after its delta was written
    makes the directory unreadable ([failed_tables_refused]). *)

From S2P Require Import Prelude GoText SessionJson SessionState SessionReduce SessionIndex SessionInv SessionSim SessionProps SessionMain GoValue Observation ObservationStore ObservationDelta ObservationJournal ObservationReaders ObservationFiles.
From Stdlib Require Import Ascii SpecFloat.

Open Scope string_scope.
Open Scope list_scope.
Open Scope Z_scope.

Section Props.
Context {host : Host}.

(** ** Lemmas *)

Lemma replay_app ds ls s : replay_lines ((Whole <$> ds) ++ ls) s = match replay_lines (Whole <$> ds) s with Some (Ok s) => replay_lines ls s | r => r end.
Proof.
  revert s. induction ds as [|d ds IH]; intros s; cbn; [done|]. destruct (_ && _); [|done]. destruct (apply_delta d s); cbn; [apply IH|done].
Qed.

Lemma commit_some io changed extra s : changed <> [] -> commit io changed extra s =
  frames ← commit_frames changed extra (fa_tables (so_facts s));
  let d := MkDelta (so_stream s) (so_position s + 1) frames in
  match append_delta (io_append io) d s with
  | (s, Some e) => Some (s, Some e)
  | (s, None) =>
      if so_writes s && negb (io_tables io) then Some (s, Some WriteFailed)
      else let s := publish d s in let s := with_disk (so_journalEnd s) (so_sinceSave s + 1) (so_disk s) s in Some (if snapshotEvery <=? so_sinceSave s then save (io_save io) s else (s, None))
  end.
Proof. by destruct changed. Qed.

(** What a record does to a store that is not closed, when it changes rows and
    its delta is written. *)
Lemma record_commits io r s : so_closed s = false -> so_writes s = true -> io_append io = Appended -> (fold_record r (fa_tables (so_facts s))).2 <> [] ->
  exists frames, (forall B, apply_frames frames (fa_tables (so_facts s), B) = Some ((fold_record r (fa_tables (so_facts s))).1, B)) /\
    let d := MkDelta (so_stream s) (so_position s + 1) frames in
    let s1 := with_disk (so_journalEnd s + line_len d) (so_sinceSave s) (write_line d (so_disk s))
                (with_facts (MkFacts (fold_record r (fa_tables (so_facts s))).1 (fa_transcripts (so_facts s)) (fa_calls (so_facts s))) s) in
    Lifecycle io (Some r) s =
      if io_tables io then
        let s2 := publish d s1 in let s2 := with_disk (so_journalEnd s2) (so_sinceSave s2 + 1) (so_disk s2) s2 in Some (if snapshotEvery <=? so_sinceSave s2 then save (io_save io) s2 else (s2, None))
      else Some (s1, Some WriteFailed).
Proof.
  intros Hc Hw Ha Hne. pose proof (record_frames r (fa_tables (so_facts s))) as Hr. unfold Lifecycle. rewrite Hc. destruct (fold_record r _) as [T changed]. cbn [fst snd] in *.
  destruct (Hr ∅) as (frames & Hf & _). exists frames. split; [intros B; destruct (Hr B) as (frames' & Hf' & H); by simplify_eq|].
  cbn zeta. rewrite commit_some by done. cbn [so_facts with_facts fa_tables so_stream so_position]. rewrite Hf. cbn [mbind option_bind]. unfold append_delta. cbn [so_writes with_facts]. rewrite Hw, Ha. cbn [negb].
  cbn [so_writes with_disk with_facts]. rewrite Hw. by destruct (io_tables io).
Qed.

(** ** The store comes back *)

(** C13: a run that stops at any moment is recovered from its directory.  As
    long as no delta and no table failed to be written before, and no transcript
    holds a nil slice, loading the directory of a store, whatever happened to it
    (records, events, readers, snapshots that were saved or failed, closing,
    earlier recoveries), succeeds and gives a store with the same position,
    tables, totals and transcripts: the deltas after the last saved snapshot make
    up for what it misses.  When it stops in the middle of an operation (some
    bytes of a line written, or a line that is not synced, or tables or snapshot
    not written) loading gives what the store showed before the operation or
    what it shows after it. *)
Theorem journal_restores id name stream fresh s : stream <> "" -> recorded id name stream s ->
  (exists s', loadDurable id fresh (so_disk s) = Some (Ok (Some s')) /\ snapshot s' = snapshot s /\ so_closed s' = true) /\
  forall o s1, sound_op o -> exec o s = Some s1 -> clean s1 ->
    exists s2 s', exec (completed o) s = Some s2 /\ loadDurable id fresh (so_disk s1) = Some (Ok (Some s')) /\ so_closed s' = true /\
      (snapshot s' = snapshot s \/ snapshot s' = snapshot s2).
Proof.
  intros Hne Hs. destruct (recorded_on_disk _ _ _ _ Hne Hs) as [D Hc]. split.
  - destruct (load_on_disk id fresh stream s _ Hne D (same_lines_refl _)) as (s' & H1 & _ & H2 & _ & H3 & _). by exists s'.
  - intros o s1 Ho He Hc1. destruct (exec_stopped stream o s s1 D Hc Ho He Hc1) as (s2 & s0 & H2 & D0 & _ & Hk & Hsnap).
    destruct (load_on_disk id fresh stream s0 _ Hne D0 Hk) as (s' & H1 & _ & H3 & _ & H4 & _). exists s2, s'. rewrite H3. by split_and!.
Qed.

(** ** Readers *)

(** C14: a reader is brought to the store by what it is sent, as long as no
    delta and no table failed to be written and no transcript holds a nil slice.
    It starts from a snapshot or resumes from a position, applies the deltas that it takes, may
    lose its subscription or see the run opened again.  Whenever its
    subscription is still in the store's set, the deltas in its queue take it
    to what the store shows; and if it joins again it gets the deltas that do
    so, or a snapshot of the store. *)
Theorem reader_catches_up id name stream s r : stream <> "" -> reading id name stream s r ->
  (forall i j, re_join r = Some i -> so_joins s !! i = Some j -> js_listed j = true ->
     shown <$> apply_deltas (js_deltas j) (re_replica r) = Some (ss_Tables (snapshot s), ss_Transcripts (snapshot s))) /\
  (so_closed s = false ->
     match Join stream (re_position r) s with
     | (None, backlog, _) => shown <$> apply_deltas backlog (re_replica r) = Some (ss_Tables (snapshot s), ss_Transcripts (snapshot s))
     | (Some snap, backlog, _) => snap = snapshot s /\ backlog = []
     end).
Proof.
  intros Hne Hr. destruct (reading_keeps_up _ _ _ _ _ Hne Hr) as [Hs [(n & Hn & Hle & (B & HB1 & HB2) & Hj)]].
  assert (shown <$> apply_deltas (drop n (deltas (dk_journal (so_disk s)))) (re_replica r) = Some (ss_Tables (snapshot s), ss_Transcripts (snapshot s))) as H.
  { rewrite HB1. cbn. f_equal. by apply shown_same. }
  split.
  - intros i j Hi Hij Hl. destruct (Hj i Hi) as (j' & Hij' & _ & Hq). simplify_eq. by rewrite (Hq Hl).
  - intros Hc. rewrite Join_open by done. rewrite Hn. destruct (resumable _ _ _) eqn:Er; [|done]. by rewrite (resent_deltas stream).
Qed.

(** C23: a process that follows a run sees it, as long as no delta and no table
    of the writer failed to be written and no transcript holds a nil slice.  A
    store that another process opened for reading, however its writer went on
    (or was opened again) and whatever its own readers did, is refreshed without
    an error, and then shows what the writer's store shows, at the writer's
    position; the line that the writer is at may be unfinished. *)
Theorem follower_refreshes id name stream s f k : stream <> "" -> followed id name stream s f -> same_lines (so_disk s) k ->
  exists f', refresh k f = Some (f', None) /\ snapshot f' = snapshot s.
Proof.
  intros Hne H Hk. destruct (followed_behind _ _ _ _ _ Hne H) as [Hs Hf]. destruct (refresh_behind stream s f k (rs_disk _ _ Hs) Hf Hk) as (f' & H1 & _ & H2). by exists f'.
Qed.

(** C24: what a store holds for its readers is bounded.  After any operations
    with any outcomes of writing it keeps at most 512 deltas of at most 4 MiB
    to resend, and no queue of a subscription is longer than 512 or was
    admitted beyond 4 MiB. *)
Theorem held_within_bounds id name stream s : reached id name stream s ->
  (length (so_recent s) <= 512)%nat /\ foldr (fun d n => deltaBytes d + n) 0 (so_recent s) <= 4194304 /\
  Forall (fun j => (length (js_deltas j) <= 512)%nat /\ js_bytes j <= 4194304) (so_joins s) /\
  Forall (fun u => (length (su_frames u) <= 512)%nat /\ su_bytes u <= 4194304) (so_subs s).
Proof.
  intros H. destruct (reached_held _ _ _ _ H) as [_ [H1 H2] H3 H4]. unfold defaultMaxFrames in *. change defaultMaxBytes with 4194304 in *. split_and!; [lia|done|..].
  - eapply Forall_impl; [exact H3|]. intros j [J1 J2]. split; [lia|done].
  - eapply Forall_impl; [exact H4|]. intros u [U1 U2]. split; [lia|done].
Qed.

(** ** Files *)

(** C26: the files of the tables say what the store has.  After any operations,
    the arrays that are written do not depend on the order in which Go ranges
    over the maps (the same state always gives the same arrays), and loading
    them gives back every row of every table. *)
Theorem tables_on_file (other : Host) id name stream s : @reached host id name stream s ->
  @tableRows other (fa_tables (so_facts s)) = @tableRows host (fa_tables (so_facts s)) /\
  forall c, rowLocked (loadTables id (@tableRows host (fa_tables (so_facts s)))) c = rowLocked (fa_tables (so_facts s)) c.
Proof.
  intros H. pose proof (reached_keyed _ _ _ _ H) as HK. split; [by apply tableRows_hosts|]. intros c. by apply loaded_rows.
Qed.

(** ** Failures *)

(** C25: when the delta of a record is written and its tables are not, the
    position stays where it is.  The next record, if no snapshot is due with it,
    is written with the same position, and the directory can no longer be
    loaded. *)
Theorem failed_tables_refused id name stream fresh s io r s1 io' r' s2 :
  stream <> "" -> recorded id name stream s -> so_closed s = false -> so_sinceSave s + 1 < snapshotEvery ->
  io_append io = Appended -> io_tables io = false -> (fold_record r (fa_tables (so_facts s))).2 <> [] -> Lifecycle io (Some r) s = Some (s1, Some WriteFailed) ->
  io_append io' = Appended -> io_tables io' = true -> (fold_record r' (fa_tables (so_facts s1))).2 <> [] -> Lifecycle io' (Some r') s1 = Some (s2, None) ->
  so_position s1 = so_position s /\
  (exists d d', dk_journal (so_disk s2) = dk_journal (so_disk s) ++ [Whole d; Whole d'] /\ dl_Position d = so_position s + 1 /\ dl_Position d' = so_position s + 1) /\
  loadDurable id fresh (so_disk s2) = Some (Err NotContiguous).
Proof.
  intros Hne Hs Hc Hsave Ha Ht Hch H1 Ha' Ht' Hch' H2. destruct (recorded_on_disk _ _ _ _ Hne Hs) as [D _]. pose proof (od_writes _ _ D) as Hw.
  destruct (record_commits io r s Hc Hw Ha Hch) as (frames & Hframes & E1). cbn zeta in E1. rewrite H1, Ht in E1. injection E1 as ->.
  match type of H2 with Lifecycle _ _ ?s1 = _ => destruct (record_commits io' r' s1 Hc Hw Ha' Hch') as (frames' & _ & E2) end. cbn zeta in E2. rewrite H2, Ht' in E2.
  cbn in E2. destruct (Z.leb_spec snapshotEvery (so_sinceSave s + 1)); [lia|]. injection E2 as ->. clear H1 H2.
  destruct D as [D1 D2 D3 D4 D5 D6 D7 D8 (du & n & B & U1 & U2 & U3 & U4 & U5 & U6 & U7)].
  cbn [so_disk with_disk with_subs with_position publish with_facts write_line dk_journal dk_tail dk_saved so_position]. rewrite D5. cbn [Nat.eqb]. rewrite <- app_assoc. cbn [app].
  split; [done|]. split; [by eexists _, _|]. unfold loadDurable. cbn [so_disk with_disk with_subs with_position publish with_facts write_line dk_journal dk_tail dk_saved]. rewrite U1, U4, D4, deltas_whole, D5. cbn [Nat.eqb]. rewrite <- app_assoc. cbn [app].
  match goal with |- context [lines_from ?m ((Whole <$> ?J) ++ ?ls)] => assert (lines_from m ((Whole <$> J) ++ ls) = (Whole <$> drop n J) ++ ls) as -> end.
  { rewrite <- (take_drop n (deltas (dk_journal (so_disk s)))) at 2. rewrite fmap_app, <- app_assoc. apply lines_from_size. }
  rewrite replay_app. match goal with |- context [replay_lines (Whole <$> drop _ _) ?s0] => destruct (replay_apply (drop n (deltas (dk_journal (so_disk s)))) s0 (fa_tables (so_facts s), B)) as (s3 & R1 & R2 & R3 & R4 & R5 & _) end.
  - cbn [so_stream so_position with_disk with_facts restore]. rewrite U2, U3. destruct (String.eqb_spec stream ""); [done|]. by apply (consecutive_drop stream 0).
  - exact U6.
  - rewrite R1. cbn in R2, R3, R4, R5. rewrite U2 in R2. destruct (String.eqb_spec stream ""); [done|]. rewrite length_drop in R3.
    assert (so_position s3 = so_position s) as Hp by lia. cbn [replay_lines]. cbn [dl_Stream dl_Position so_stream so_position with_facts with_disk]. rewrite R2, D1, Hp, String.eqb_refl, Z.eqb_refl. cbn [andb].
    unfold apply_delta. cbn [dl_Frames]. rewrite R4, R5, Hframes. cbn. rewrite R2, String.eqb_refl. destruct (Z.eqb_spec (so_position s + 1) (so_position s + 1 + 1)); [lia|done].
Qed.
End Props.

(** ** A concrete run *)

Module Watched.
#[local] Instance plain : Host := {| map_order := fun A m => map_to_list m; map_order_perm := fun A m => reflexivity _; data_len := fun _ => 10; data_len_nonneg := fun _ => ltac:(lia); line_len := fun _ => 40%nat; line_len_pos := fun _ => Nat.lt_0_succ 39 |}.

Definition fine : commit_io := MkCommitIO Appended true true.
Definition unsaved : commit_io := MkCommitIO Appended true false.
Definition place : Placement := MkPlacement "" "ses" "t1".
Definition began : record := MkRecord 1 1000 "" "" "" (run_started "demo").
Definition created : record := MkRecord 2 1001 "" "ses" "" (session_created "coder" "native" "gpt" "/w" "" "").
Definition failed : record := MkRecord 3 1002 "" "" "" (run_ended "boom").
Definition object (e : ref) : envelope := MkEnvelope (Some (VObj (default [] e))) (Some (MkStep "msg" None None "")).
Definition no_sidecar : sidecar := MkSidecar "" None.
Definition streamed : op := OEvent fine place (object Demo.started) no_sidecar.

Definition opened : Store := (Open "r" "demo" "st" true true).1.
Definition exec_all (os : list op) (s : Store) : Store := foldl (fun s o => default s (exec o s)) s os.

Definition writer : Store := exec_all [ORecord fine (Some began); ORecord unsaved (Some created); streamed] opened.
(** The run stops when three bytes of a line are on the disk. *)
Definition tearing : op := ORecord (MkCommitIO (Partial 3) true true) (Some failed).
Definition torn : Store := exec_all [tearing] writer.

(** It is opened again with the torn line, and goes on. *)
Definition after_tear : Store := match Reopen "r" "x" (so_disk torn) with Some (Ok (Some s)) => exec_all [ORecord fine (Some failed)] s | _ => torn end.

Definition joined : Store := exec_all [OJoin "" 0] opened.
Definition listening : Store := exec_all [ORecord fine (Some began); ORecord fine (Some created)] joined.

Lemma streamed_ok : good_op streamed.
Proof. split; [|by split]. intros o Ho. vm_compute in Ho. injection Ho as <-. exact Demo.started_ok. Qed.

Ltac clean_tac := apply map_Forall_to_list; vm_compute; repeat constructor.

Lemma opened_recorded : recorded "r" "demo" "st" opened.
Proof. by apply recorded_open. Qed.

Lemma writer_recorded : recorded "r" "demo" "st" writer.
Proof.
  apply (recorded_step _ _ _ streamed (exec_all [ORecord fine (Some began); ORecord unsaved (Some created)] opened)); [|exact streamed_ok|vm_compute; reflexivity|clean_tac].
  apply (recorded_step _ _ _ (ORecord unsaved (Some created)) (exec_all [ORecord fine (Some began)] opened)); [|by repeat split|vm_compute; reflexivity|clean_tac].
  apply (recorded_step _ _ _ (ORecord fine (Some began)) opened); [exact opened_recorded|by repeat split|vm_compute; reflexivity|clean_tac].
Qed.

Lemma listening_reading : reading "r" "demo" "st" listening (MkReader (Some 0%nat) 0 (new_tables "r" "demo", ∅)).
Proof.
  apply (reading_step _ _ _ (exec_all [ORecord fine (Some began)] joined) _ (ORecord fine (Some created))); [|by repeat split|vm_compute; reflexivity|clean_tac|by left].
  apply (reading_step _ _ _ joined _ (ORecord fine (Some began))); [|by repeat split|vm_compute; reflexivity|clean_tac|by left].
  apply (reading_snapshot _ _ _ opened "" 0 (snapshot opened) [] joined); [exact opened_recorded|done|done].
Qed.

Lemma listening_reached : reached "r" "demo" "st" listening.
Proof.
  apply (reached_exec _ _ _ (ORecord fine (Some created)) (exec_all [ORecord fine (Some began)] joined)); [|vm_compute; reflexivity].
  apply (reached_exec _ _ _ (ORecord fine (Some began)) joined); [|vm_compute; reflexivity]. apply (reached_exec _ _ _ (OJoin "" 0) opened); [|vm_compute; reflexivity]. apply reached_open.
Qed.

Definition follower : Store := match Follow "r" "x" (so_disk opened) with Some (Ok (Some f)) => f | _ => opened end.

Lemma follower_followed : followed "r" "demo" "st" (exec_all [ORecord fine (Some began)] opened) follower.
Proof.
  apply (followed_write _ _ _ (ORecord fine (Some began)) opened); [|by repeat split|vm_compute; reflexivity|clean_tac].
  apply (followed_open _ _ _ "x" opened (so_disk opened)); [exact opened_recorded|by split|vm_compute; reflexivity].
Qed.
End Watched.

Lemma journal_restores_witness :
  (exists s', @loadDurable Watched.plain "r" "x" (so_disk Watched.writer) = Some (Ok (Some s')) /\ @snapshot Watched.plain s' = @snapshot Watched.plain Watched.writer /\ so_closed s' = true) /\
  dk_tail (so_disk Watched.torn) = 3%nat /\
  exists s2 s', @exec Watched.plain (completed Watched.tearing) Watched.writer = Some s2 /\ @loadDurable Watched.plain "r" "x" (so_disk Watched.torn) = Some (Ok (Some s')) /\ so_closed s' = true /\
    (@snapshot Watched.plain s' = @snapshot Watched.plain Watched.writer \/ @snapshot Watched.plain s' = @snapshot Watched.plain s2).
Proof.
  destruct (@journal_restores Watched.plain "r" "demo" "st" "x" Watched.writer) as [H1 H2]; [discriminate|exact Watched.writer_recorded|]. split; [exact H1|]. split; [vm_compute; reflexivity|].
  apply (H2 Watched.tearing Watched.torn); [exact I|vm_compute; reflexivity|Watched.clean_tac].
Defined.

(** A torn line that is not cut off: the delta written next is glued to it, and
    the directory no longer says what the store showed. *)
Lemma torn_line_loses : so_position Watched.after_tear = 4 /\ so_position Watched.writer = 3 /\ exists s', @loadDurable Watched.plain "r" "x" (so_disk Watched.after_tear) = Some (Ok (Some s')) /\ so_position s' = 3.
Proof. split; [vm_compute; reflexivity|]. split; [vm_compute; reflexivity|]. eexists. split; vm_compute; reflexivity. Qed.

Lemma reader_catches_up_witness :
  length (js_deltas (default (MkJoin [] 0 true None false) (so_joins Watched.listening !! 0%nat))) = 2%nat /\
  forall j, so_joins Watched.listening !! 0%nat = Some j -> js_listed j = true ->
    shown <$> apply_deltas (js_deltas j) (new_tables "r" "demo", ∅) = Some (ss_Tables (@snapshot Watched.plain Watched.listening), ss_Transcripts (@snapshot Watched.plain Watched.listening)).
Proof.
  split; [vm_compute; reflexivity|]. intros j Hj Hl.
  exact (proj1 (@reader_catches_up Watched.plain "r" "demo" "st" _ _ ltac:(discriminate) Watched.listening_reading) 0%nat j eq_refl Hj Hl).
Defined.

Lemma follower_refreshes_witness :
  let s := Watched.exec_all [ORecord Watched.fine (Some Watched.began)] Watched.opened in
  exists f', @refresh Watched.plain (MkDisk (dk_journal (so_disk s)) 5 (dk_saved (so_disk s))) Watched.follower = Some (f', None) /\ @snapshot Watched.plain f' = @snapshot Watched.plain s.
Proof. intros s. apply (@follower_refreshes Watched.plain "r" "demo" "st"); [discriminate|exact Watched.follower_followed|split; reflexivity]. Defined.

(** Maps ranged over backwards. *)
Definition backwards : Host := {| map_order := fun A m => reverse (map_to_list m); map_order_perm := fun A m => reverse_Permutation _; data_len := fun _ => 10; data_len_nonneg := fun _ => ltac:(lia); line_len := fun _ => 40%nat; line_len_pos := fun _ => Nat.lt_0_succ 39 |}.

Lemma tables_on_file_witness :
  @tableRows backwards (fa_tables (so_facts Watched.listening)) = @tableRows Watched.plain (fa_tables (so_facts Watched.listening)) /\
  rowLocked (loadTables "r" (@tableRows Watched.plain (fa_tables (so_facts Watched.listening)))) (MkChange tableSessions "ses") =
    Some (RowSession (MkSessionRow "/w" "" [] "r" "ses" "coder" "native" "gpt" "" "" 1001)).
Proof.
  refine (_ (@tables_on_file Watched.plain backwards "r" "demo" "st" Watched.listening _)).
  - intros [H1 H2]. split; [exact H1|]. rewrite H2. vm_compute. reflexivity.
  - exact Watched.listening_reached.
Defined.

Lemma held_within_bounds_witness : (length (so_recent Watched.listening) <= 512)%nat /\ length (so_recent Watched.listening) = 2%nat.
Proof.
  split; [|vm_compute; reflexivity]. exact (proj1 (@held_within_bounds Watched.plain "r" "demo" "st" Watched.listening Watched.listening_reached)).
Defined.

Definition half : Store := match @Lifecycle Watched.plain (MkCommitIO Appended false true) (Some Watched.began) Watched.opened with Some (s, _) => s | None => Watched.opened end.
Definition refused : Store := match @Lifecycle Watched.plain Watched.fine (Some Watched.failed) half with Some (s, _) => s | None => half end.

Lemma failed_tables_refused_witness : so_position half = so_position Watched.opened /\ length (dk_journal (so_disk refused)) = 2%nat /\ @loadDurable Watched.plain "r" "x" (so_disk refused) = Some (Err NotContiguous).
Proof.
  destruct (@failed_tables_refused Watched.plain "r" "demo" "st" "x" Watched.opened (MkCommitIO Appended false true) Watched.began half Watched.fine Watched.failed refused) as (H1 & _ & H2);
    try (vm_compute; reflexivity); try (vm_compute; discriminate); try exact Watched.opened_recorded.
  split; [exact H1|]. split; [vm_compute; reflexivity|exact H2].
Defined.
