(* ===== verification/Glob.v ===== *)
(** * Glob patterns ([internal/pi/readtools/glob.go])

    The tools that find and search files match paths against globs: braces are
    expanded, [**] crosses directories, and each segment is matched by
    [filepath.Match].  The last is of the standard library: a chunk between
    stars is read into tokens, which is what the loop of [matchChunk] does while
    it matches, since it goes on reading a chunk that did not match. *)

From S2P Require Import Prelude GoText.
From Stdlib Require Import Ascii.

Open Scope char_scope.
Open Scope Z_scope.

(** ** Definitions *)

(** What the sources take from the tables of Unicode. *)
Class Letters : Type := { ToLower : text -> text; IsUpper : Z -> bool }.

Definition Separator : ascii := "/".

Definition is_empty {A} (l : list A) : bool := match l with [] => true | _ => false end.

(** *** [filepath.Match] *)

(** A pattern between stars: a class of characters with its ranges, any
    character but the separator, or a byte. *)
Inductive token : Type :=
| Class_ (negated : bool) (ranges : list (Z * Z))
| AnyRune
| Byte_ (c : ascii).

(** [getEsc]: [None] is [ErrBadPattern]. *)
Definition getEsc (chunk : text) : option (Z * text) :=
  match chunk with
  | [] => None
  | c :: r =>
      if Ascii.eqb c "-" || Ascii.eqb c "]" then None
      else
        let chunk := if Ascii.eqb c "\" then r else chunk in
        match chunk with
        | [] => None
        | _ =>
            let (r, n) := decode_rune chunk in
            if (r =? rune_error) && Nat.eqb n 1 then None
            else match drop n chunk with [] => None | rest => Some (r, rest) end
        end
  end.

(** The ranges of a class up to its bracket; [seen] is whether there was one. *)
Fixpoint class_ranges (fuel : nat) (seen : bool) (chunk : text) : option (list (Z * Z) * text) :=
  match fuel with
  | O => None
  | S fuel =>
      match chunk with
      | c :: r =>
          if Ascii.eqb c "]" && seen then Some ([], r)
          else
            '(lo, chunk) ← getEsc chunk;
            '(hi, chunk) ← match chunk with c :: r => if Ascii.eqb c "-" then getEsc r else Some (lo, chunk) | [] => Some (lo, chunk) end;
            '(ranges, chunk) ← class_ranges fuel true chunk;
            Some ((lo, hi) :: ranges, chunk)
      | [] => None
      end
  end.

(** The tokens of a chunk; every step reads a byte. *)
Fixpoint read_tokens (fuel : nat) (chunk : text) : option (list token) :=
  match chunk with
  | [] => Some []
  | c :: r =>
      match fuel with
      | O => None
      | S fuel =>
          if Ascii.eqb c "[" then
            let (negated, r) := match r with d :: r' => if Ascii.eqb d "^" then (true, r') else (false, r) | [] => (false, r) end in
            '(ranges, r) ← class_ranges (length r) false r;
            ts ← read_tokens fuel r;
            Some (Class_ negated ranges :: ts)
          else if Ascii.eqb c "?" then ts ← read_tokens fuel r; Some (AnyRune :: ts)
          else if Ascii.eqb c "\" then
            match r with
            | [] => None
            | d :: r => ts ← read_tokens fuel r; Some (Byte_ d :: ts)
            end
          else ts ← read_tokens fuel r; Some (Byte_ c :: ts)
      end
  end.

Definition tokens (chunk : text) : option (list token) := read_tokens (length chunk) chunk.

Definition match_token (t : token) (s : text) : option text :=
  match s with
  | [] => None
  | c :: r =>
      match t with
      | Class_ negated ranges =>
          let (rune, n) := decode_rune s in
          if Bool.eqb (existsb (fun lohi => in_range lohi.1 lohi.2 rune) ranges) negated then None else Some (drop n s)
      | AnyRune => if Ascii.eqb c Separator then None else Some (drop (decode_rune s).2 s)
      | Byte_ b => if Ascii.eqb b c then Some r else None
      end
  end.

Fixpoint match_tokens (ts : list token) (s : text) : option text :=
  match ts with [] => Some s | t :: ts => s ← match_token t s; match_tokens ts s end.

(** [matchChunk]: [None] is [ErrBadPattern], [Some None] no match, and else the
    rest of the name. *)
Definition matchChunk (chunk s : text) : option (option text) := ts ← tokens chunk; Some (match_tokens ts s).

(** [scanChunk] *)
Fixpoint scan_stars (p : text) : bool * text :=
  match p with
  | c :: r => if Ascii.eqb c "*" then (true, (scan_stars r).2) else (false, p)
  | [] => (false, [])
  end.

Fixpoint scan (inrange : bool) (p : text) : text * text :=
  match p with
  | [] => ([], [])
  | c :: r =>
      if Ascii.eqb c "\" then
        match r with
        | d :: r => let (a, b) := scan inrange r in (c :: d :: a, b)
        | [] => ([c], [])
        end
      else if Ascii.eqb c "*" && negb inrange then ([], p)
      else
        let (a, b) := scan (if Ascii.eqb c "[" then true else if Ascii.eqb c "]" then false else inrange) r in (c :: a, b)
  end.

Definition scanChunk (pattern : text) : bool * text * text :=
  let (star, p) := scan_stars pattern in
  let (chunk, rest) := scan false p in
  (star, chunk, rest).

(** Skipping bytes of the name after a star, up to a separator; the last chunk
    has to take all of it. *)
Fixpoint skip_match (chunk : text) (last : bool) (name : text) : option (option text) :=
  match name with
  | [] => Some None
  | c :: s =>
      if Ascii.eqb c Separator then Some None
      else
        r ← matchChunk chunk s;
        match r with
        | Some t => if last && negb (is_empty t) then skip_match chunk last s else Some (Some t)
        | None => skip_match chunk last s
        end
  end.

(** The rest of a pattern that did not match is still read. *)
Fixpoint check_rest (fuel : nat) (pattern : text) : option bool :=
  match pattern with
  | [] => Some false
  | _ =>
      match fuel with
      | O => None
      | S fuel =>
          let '(_, chunk, rest) := scanChunk pattern in
          _ ← matchChunk chunk [];
          check_rest fuel rest
      end
  end.

Fixpoint match_from (fuel : nat) (pattern name : text) : option bool :=
  match pattern with
  | [] => Some (is_empty name)
  | _ =>
      match fuel with
      | O => None
      | S fuel =>
          let '(star, chunk, rest) := scanChunk pattern in
          if star && is_empty chunk then Some (negb (existsb (Ascii.eqb Separator) name))
          else
            r ← matchChunk chunk name;
            r ← match r with
                | Some t => if is_empty t || negb (is_empty rest) then Some (Some t) else if star then skip_match chunk (is_empty rest) name else Some None
                | None => if star then skip_match chunk (is_empty rest) name else Some None
                end;
            match r with
            | Some t => match_from fuel rest t
            | None => check_rest fuel rest
            end
      end
  end.

(** [filepath.Match(pattern, name)]: [None] is [ErrBadPattern]. *)
Definition Match (pattern name : text) : option bool := match_from (length pattern) pattern name.

(** [filepath.Base] *)
Definition Base (path : text) : text :=
  match path with
  | [] => lit "."
  | _ =>
      let p := drop_tail (Ascii.eqb Separator) path in
      match p with
      | [] => [Separator]
      | _ => List.last (split_byte Separator p) []
      end
  end.

(** [filepath.ToSlash] is the identity where the separator is a slash. *)
Definition ToSlash (path : text) : text := path.

(** [strings.TrimPrefix] *)
Definition trim_prefix (s p : text) : text := if has_prefix p s then drop (length p) s else s.

(** *** [expandBraces] *)

(** From after a brace at [depth] to the one that closes it: what is between
    and what comes after. *)
Fixpoint close_brace (depth : Z) (s : text) : option (text * text) :=
  match s with
  | [] => None
  | c :: r =>
      let depth := if Ascii.eqb c "{" then depth + 1 else if Ascii.eqb c "}" then depth - 1 else depth in
      if Ascii.eqb c "}" && (depth =? 0) then Some ([], r)
      else '(inner, rest) ← close_brace depth r; Some (c :: inner, rest)
  end.

(** The alternatives: what is between commas at depth 0. *)
Fixpoint alternatives (depth : Z) (s : text) : list text :=
  match s with
  | [] => [[]]
  | c :: r =>
      if Ascii.eqb c "," && (depth =? 0) then [] :: alternatives depth r
      else
        let depth := if Ascii.eqb c "{" then depth + 1 else if Ascii.eqb c "}" then depth - 1 else depth in
        match alternatives depth r with
        | a :: rest => (c :: a) :: rest
        | [] => [[c]]
        end
  end.

Fixpoint expand (fuel : nat) (pattern : text) : list text :=
  match fuel with
  | O => [pattern]
  | S fuel =>
      match find_byte "{" pattern with
      | None => [pattern]
      | Some start =>
          match close_brace 1 (drop (S start) pattern) with
          | None => [pattern]
          | Some (inner, rest) => flat_map (fun a => expand fuel (take start pattern ++ a ++ rest)) (alternatives 0 inner)
          end
      end
  end.

Definition braces (s : text) : nat := length (List.filter (Ascii.eqb "{") s).

Definition expandBraces (pattern : text) : list text := expand (S (braces pattern)) pattern.

(** *** Paths *)

Definition negation (p : text) : text := replace_all p (lit "[!") (lit "[^").

Section Letters.
Context {letters : Letters}.

Definition segMatch (pat seg : text) (fold : bool) : bool :=
  let pat := negation pat in
  let (pat, seg) := if fold then (ToLower pat, ToLower seg) else (pat, seg) in
  match Match pat seg with Some ok => ok | None => false end.

Definition starstar : text := lit "**".

Fixpoint matchParts (pattern name : list text) (fold : bool) : bool :=
  match pattern with
  | [] => is_empty name
  | p :: ps =>
      if bool_decide (p = starstar) then
        match ps with
        | [] => negb (is_empty name)
        | _ => existsb (fun i => matchParts ps (drop i name) fold) (seq 0 (S (length name)))
        end
      else
        match name with
        | [] => false
        | n :: ns => segMatch p n fold && matchParts ps ns fold
        end
  end.

Definition matchGlobOne (pattern name : text) (fold : bool) : bool :=
  if bool_decide (pattern = starstar) then true else matchParts (split_byte Separator pattern) (split_byte Separator name) fold.

Definition globMatchPath (pattern name : text) (fold : bool) : bool := existsb (fun p => matchGlobOne p name fold) (expandBraces pattern).

Definition patternHasUpper (pattern : text) : bool := existsb (fun r => IsUpper r.1) (runes pattern).

Definition matchFdGlob (pattern rel abs : text) : bool :=
  let pattern := ToSlash pattern in
  let fold := negb (patternHasUpper pattern) in
  if negb (contains pattern (lit "/")) then globMatchPath pattern (Base (ToSlash rel)) fold
  else
    let effective := if negb (has_prefix (lit "/") pattern) && negb (has_prefix (lit "**/") pattern) && negb (bool_decide (pattern = starstar)) then lit "**/" ++ pattern else pattern in
    globMatchPath effective (ToSlash abs) fold.

Definition matchRgGlob (pattern rel : text) : bool :=
  let pattern := ToSlash pattern in
  let rel := ToSlash rel in
  if negb (contains pattern (lit "/")) then globMatchPath pattern (Base rel) false else globMatchPath (trim_prefix pattern (lit "/")) rel false.
End Letters.

(** [validateGlob]: whether every segment is well formed. *)
Definition validateGlob (pattern : text) : bool :=
  forallb (fun p => forallb (fun seg => match Match (negation seg) [] with Some _ => true | None => false end) (split_byte Separator p)) (expandBraces (ToSlash pattern)).


(** *** Paths of [path/filepath] where the separator is a slash *)

(** The elements of a path without the empty ones, [.] and [..]; [up] keeps
    the [..] that lead out of a relative path. *)
Fixpoint clean_from (rooted : bool) (done_ : list text) (l : list text) : list text :=
  match l with
  | [] => done_
  | e :: l =>
      if is_empty e || bool_decide (e = lit ".") then clean_from rooted done_ l
      else if bool_decide (e = lit "..") then
        match rev done_ with
        | [] => clean_from rooted (if rooted then [] else [e]) l
        | last :: before => clean_from rooted (if bool_decide (last = lit "..") then done_ ++ [e] else rev before) l
        end
      else clean_from rooted (done_ ++ [e]) l
  end.

Definition elements (path : text) : list text := clean_from (has_prefix [Separator] path) [] (split_byte Separator path).

(** [filepath.Clean] *)
Definition Clean (path : text) : text :=
  if has_prefix [Separator] path then Separator :: join [Separator] (elements path)
  else match elements path with [] => lit "." | l => join [Separator] l end.

(** [filepath.Join] of two *)
Definition Join2 (a b : text) : text :=
  match a, b with
  | [], [] => []
  | [], _ => Clean b
  | _, _ => Clean (a ++ Separator :: b)
  end.

(** [filepath.Dir] *)
Definition Dir (path : text) : text := Clean (rev (drop_head (fun c => negb (Ascii.eqb c Separator)) (rev path))).

(** [filepath.Rel]: [None] is an error. *)
Fixpoint common_rest (base targ : list text) : list text * list text :=
  match base, targ with
  | b :: bs, t :: ts => if bool_decide (b = t) then common_rest bs ts else (base, targ)
  | _, _ => (base, targ)
  end.

Definition Rel (basepath targpath : text) : option text :=
  if bool_decide (Clean basepath = Clean targpath) then Some (lit ".")
  else if negb (Bool.eqb (has_prefix [Separator] basepath) (has_prefix [Separator] targpath)) then None
  else
    let (base, targ) := common_rest (elements basepath) (elements targpath) in
    if match base with b :: _ => bool_decide (b = lit "..") | [] => false end then None
    else Some (join [Separator] (((fun _ => lit "..") <$> base) ++ targ)).

(** *** Ignore files *)

Record ignorePattern : Type := MkIgnore { ip_pattern : text; ip_anchored : bool; ip_dirOnly : bool; ip_negated : bool }.

Record ignoreSource : Type := MkSource { is_baseAbs : text; is_pats : list ignorePattern; is_boundaryExempt : bool }.

(** What is on the disk: files, and the directories that hold [.git]. *)
Class Disk : Type := { ReadFile : text -> option text; HasGit : text -> bool }.

(** [strings.TrimSuffix] of a slash, [strings.TrimRight] of carriage returns *)
Definition trim_slash (s : text) : text := if has_suffix [Separator] s then take (length s - 1) s else s.

(** One line of [parseGitignore]. *)
Definition parse_line (line : text) : option ignorePattern :=
  let trimmed := trim_space (drop_tail (Ascii.eqb cr) line) in
  if is_empty trimmed || has_prefix (lit "#") trimmed then None
  else
    let neg := has_prefix (lit "!") trimmed in
    let trimmed := if neg then drop 1 trimmed else trimmed in
    let dirOnly := has_suffix [Separator] trimmed in
    let p := ToSlash (trim_slash trimmed) in
    let anchored := contains p [Separator] in
    let p := trim_prefix p [Separator] in
    if is_empty p then None else Some (MkIgnore p anchored dirOnly neg).

Definition parseGitignore (data : text) : list ignorePattern := omap parse_line (split_byte newline data).

Record ignoreStack : Type := MkStack {
  st_root : text;
  st_useGitignore : bool;
  st_repoRoot : text;
  st_boundaries : bool;
  st_static : list ignoreSource;
  st_loaded : gmap text (list ignorePattern);
  st_gitDir : gmap text bool
}.

Definition with_loaded (f : gmap text (list ignorePattern) -> gmap text (list ignorePattern)) (s : ignoreStack) : ignoreStack :=
  MkStack (st_root s) (st_useGitignore s) (st_repoRoot s) (st_boundaries s) (st_static s) (f (st_loaded s)) (st_gitDir s).
Definition with_gitDir (f : gmap text bool -> gmap text bool) (s : ignoreStack) : ignoreStack :=
  MkStack (st_root s) (st_useGitignore s) (st_repoRoot s) (st_boundaries s) (st_static s) (st_loaded s) (f (st_gitDir s)).

(** [ancestorDirs] *)
Fixpoint dirs_from (cur : text) (parts : list text) : list text :=
  match parts with
  | [] | [_] => []
  | p :: ps => let cur := if is_empty cur then p else cur ++ Separator :: p in cur :: dirs_from cur ps
  end.

Definition ancestorDirs (rel : text) : list text := [] :: dirs_from [] (split_byte Separator (ToSlash rel)).

Section Ignore.
Context {letters : Letters} {disk : Disk}.

(** [findRepoRoot]; a parent is shorter until it is the directory itself. *)
Fixpoint find_root (fuel : nat) (dir : text) : text :=
  if HasGit dir then dir
  else
    match fuel with
    | O => []
    | S fuel => let parent := Dir dir in if bool_decide (parent = dir) then [] else find_root fuel parent
    end.

Definition findRepoRoot (dir : text) : text := find_root (length dir) dir.

(** The directories from the parent of the root up to that of the
    repository. *)
Fixpoint up_to (fuel : nat) (top dir : text) : list text :=
  match fuel with
  | O => [dir]
  | S fuel => if bool_decide (dir = top) || bool_decide (Dir dir = dir) then [dir] else dir :: up_to fuel top (Dir dir)
  end.

Definition source_of (base path : text) (exempt : bool) : list ignoreSource :=
  match ReadFile path with Some data => [MkSource base (parseGitignore data) exempt] | None => [] end.

(** [newIgnoreStack], with the path of the global excludes. *)
Definition newIgnoreStack (excludes root : text) (requireGit respectNestedRepos : bool) : ignoreStack :=
  let repoRoot := findRepoRoot root in
  let inside := negb (is_empty repoRoot) in
  let useGitignore := negb requireGit || inside in
  let static :=
    if inside && useGitignore then
      (if is_empty excludes then [] else source_of repoRoot excludes true) ++
      source_of repoRoot (Join2 (Join2 repoRoot (lit ".git")) (lit "info/exclude")) false ++
      (if bool_decide (root = repoRoot) then [] else flat_map (fun anc => source_of anc (Join2 anc (lit ".gitignore")) false) (rev (up_to (length root) repoRoot (Dir root))))
    else [] in
  MkStack root useGitignore repoRoot (respectNestedRepos && inside) static ∅ ∅.

Definition abs_of (root relDir : text) : text := if is_empty relDir then root else Join2 root relDir.

(** [hasGitDir] *)
Definition hasGitDir (relDir : text) (s : ignoreStack) : bool * ignoreStack :=
  match st_gitDir s !! relDir with
  | Some v => (v, s)
  | None => let v := HasGit (abs_of (st_root s) relDir) in (v, with_gitDir (fun m => <[relDir := v]> m) s)
  end.

(** Whether a directory is strictly below another. *)
Definition strictly_below (baseRel dir : text) : bool := negb (bool_decide (dir = baseRel)) && (if is_empty baseRel then negb (is_empty dir) else has_prefix (baseRel ++ [Separator]) dir).

(** [crossesNestedBoundary] *)
Fixpoint crosses (baseRel : text) (dirs : list text) (s : ignoreStack) : bool * ignoreStack :=
  match dirs with
  | [] => (false, s)
  | dir :: dirs =>
      if strictly_below baseRel dir then
        let (v, s) := hasGitDir dir s in if v then (true, s) else crosses baseRel dirs s
      else crosses baseRel dirs s
  end.

Definition crossesNestedBoundary (baseRel rel : text) (s : ignoreStack) : bool * ignoreStack := crosses baseRel (ancestorDirs rel) s.

(** [patternsFor] *)
Definition patternsFor (relDir : text) (s : ignoreStack) : list ignorePattern * ignoreStack :=
  match st_loaded s !! relDir with
  | Some pats => (pats, s)
  | None =>
      let pats := match ReadFile (Join2 (abs_of (st_root s) relDir) (lit ".gitignore")) with Some data => parseGitignore data | None => [] end in
      (pats, with_loaded (fun m => <[relDir := pats]> m) s)
  end.

(** The ancestors of an anchored match. *)
Fixpoint ancestor_matches (pattern prefix : text) (segs : list text) : bool :=
  match segs with
  | [] | [_] => false
  | seg :: segs =>
      let prefix := if is_empty prefix then seg else prefix ++ Separator :: seg in
      globMatchPath pattern prefix false || ancestor_matches pattern prefix segs
  end.

(** The components of an unanchored match. *)
Fixpoint component_matches (p : ignorePattern) (isDir : bool) (segs : list text) : bool :=
  match segs with
  | [] => false
  | seg :: segs =>
      if segMatch (ip_pattern p) seg false then (if is_empty segs then negb (ip_dirOnly p) || isDir else true)
      else component_matches p isDir segs
  end.

Definition gitignoreMatch (p : ignorePattern) (relToDir : text) (isDir : bool) : bool :=
  let relToDir := ToSlash relToDir in
  if ip_anchored p then
    if globMatchPath (ip_pattern p) relToDir false then negb (ip_dirOnly p) || isDir
    else ancestor_matches (ip_pattern p) [] (split_byte Separator relToDir)
  else component_matches p isDir (split_byte Separator relToDir).

(** The patterns of one file, the last that matches deciding. *)
Definition apply_patterns (pats : list ignorePattern) (rel : text) (isDir result : bool) : bool :=
  foldl (fun result p => if gitignoreMatch p rel isDir then negb (ip_negated p) else result) result pats.

Fixpoint ignored_static (sources : list ignoreSource) (abs rel : text) (isDir : bool) (result : bool) (s : ignoreStack) : bool * ignoreStack :=
  match sources with
  | [] => (result, s)
  | src :: sources =>
      let (skip, s) := if st_boundaries s && negb (is_boundaryExempt src) then crossesNestedBoundary [] rel s else (false, s) in
      let result := if skip then result else match Rel (is_baseAbs src) abs with Some rts => apply_patterns (is_pats src) (ToSlash rts) isDir result | None => result end in
      ignored_static sources abs rel isDir result s
  end.

Definition rel_to (dir rel : text) : text := if is_empty dir then rel else trim_prefix rel (dir ++ [Separator]).

Fixpoint ignored_dirs (dirs : list text) (rel : text) (isDir : bool) (result : bool) (s : ignoreStack) : bool * ignoreStack :=
  match dirs with
  | [] => (result, s)
  | dir :: dirs =>
      let (skip, s) := if st_boundaries s then crossesNestedBoundary dir rel s else (false, s) in
      if skip then ignored_dirs dirs rel isDir result s
      else let (pats, s) := patternsFor dir s in ignored_dirs dirs rel isDir (apply_patterns pats (rel_to dir rel) isDir result) s
  end.

(** [ignored] *)
Definition ignored (abs rel : text) (isDir : bool) (s : ignoreStack) : bool * ignoreStack :=
  let rel := ToSlash rel in
  if bool_decide (Base rel = lit ".git") then (true, s)
  else if negb (st_useGitignore s) then (false, s)
  else let (result, s) := ignored_static (st_static s) abs rel isDir false s in ignored_dirs (ancestorDirs rel) rel isDir result s.
End Ignore.

Example match_star : Match (lit "*.go") (lit "glob.go") = Some true. Proof. reflexivity. Qed.
Example match_class : Match (lit "[a-c]?[^x]") (lit "bzy") = Some true. Proof. reflexivity. Qed.
Example match_bad : Match (lit "[a") (lit "bzy") = None. Proof. reflexivity. Qed.
Example match_rune : Match (lit "*??") [byte 0xE2; byte 0x82; byte 0xAC] = Some true. Proof. reflexivity. Qed.
Example expand_nested : expandBraces (lit "a{b,c{d,e}}f") = [lit "abf"; lit "acdf"; lit "acef"]. Proof. reflexivity. Qed.
Example clean_up : Clean (lit "/a//b/../c/.") = lit "/a/c". Proof. reflexivity. Qed.
Example rel_up : Rel (lit "/a/b") (lit "/a/c/d") = Some (lit "../c/d"). Proof. reflexivity. Qed.
Example parse_rules : parseGitignore (lit "# no
/build/
!*.go
a/**/b") = [MkIgnore (lit "build") true true false; MkIgnore (lit "*.go") false false true; MkIgnore (lit "a/**/b") true false false].
Proof. reflexivity. Qed.
