(* ===== verification/GlobMatch.v ===== *)
(** * What a glob matches

    [filepath.Match] decides whether a name is the concatenation of what its
    chunks and stars stand for, and a pattern is malformed or not whatever the
    name; [matchParts] decides paths; [expandBraces] gives the alternatives of
    nested braces.  Names are ASCII where a star precedes other tokens: the
    code lets a star end in the middle of a character. *)

From S2P Require Import Prelude GoText Glob.
From Stdlib Require Import Ascii.

Open Scope char_scope.
Open Scope Z_scope.

(** ** Definitions *)

(** A pattern as its chunks, each after a star or not. *)
Definition chunks_of : Type := list (bool * list token).

Fixpoint read_chunks (fuel : nat) (pattern : text) : option chunks_of :=
  match pattern with
  | [] => Some []
  | _ =>
      match fuel with
      | O => None
      | S fuel =>
          let '(star, chunk, rest) := scanChunk pattern in
          ts ← tokens chunk;
          cs ← read_chunks fuel rest;
          Some ((star, ts) :: cs)
      end
  end.

Definition chunks (pattern : text) : option chunks_of := read_chunks (length pattern) pattern.

(** What a pattern stands for: a star is any bytes without a separator, a
    chunk what its tokens match. *)
Inductive stands_for : chunks_of -> text -> Prop :=
| stands_nil : stands_for [] []
| stands_chunk (star : bool) ts cs skipped name rest : (star = false -> skipped = []) -> Separator ∉ skipped -> match_tokens ts name = Some rest -> stands_for cs rest ->
    stands_for ((star, ts) :: cs) (skipped ++ name).

Definition ascii_only (s : text) : Prop := Forall (fun c => code c < 0x80) s.

(** [Match] over chunks that have been read. *)
Fixpoint skip_tokens (ts : list token) (last : bool) (name : text) : option text :=
  match name with
  | [] => None
  | c :: s =>
      if Ascii.eqb c Separator then None
      else match match_tokens ts s with
           | Some t => if last && negb (is_empty t) then skip_tokens ts last s else Some t
           | None => skip_tokens ts last s
           end
  end.

Fixpoint match_chunks (cs : chunks_of) (name : text) : bool :=
  match cs with
  | [] => is_empty name
  | (star, ts) :: rest =>
      if star && is_empty ts then negb (existsb (Ascii.eqb Separator) name)
      else
        let skipped := if star then skip_tokens ts (is_empty rest) name else None in
        match match match_tokens ts name with Some t => if is_empty t || negb (is_empty rest) then Some t else skipped | None => skipped end with
        | Some t => match_chunks rest t
        | None => false
        end
  end.

(** ** Lemmas *)

(** *** Reading *)

Lemma scan_stars_length p : (length (scan_stars p).2 <= length p)%nat.
Proof. induction p as [|c p IH]; cbn; [lia|]. destruct (Ascii.eqb c "*"); cbn; lia. Qed.

Lemma scan_length p : forall b, (length (scan b p).1 + length (scan b p).2 = length p)%nat.
Proof.
  induction p as [p IH] using (induction_ltof1 _ (@length ascii)); unfold ltof in IH. intros b. destruct p as [|c r]; [done|]. cbn. destruct (Ascii.eqb c "\").
  - destruct r as [|d r]; [done|]. specialize (IH r ltac:(cbn; lia) b). destruct (scan b r). cbn in *. lia.
  - destruct (_ && _); [done|]. match goal with |- context [scan ?b r] => specialize (IH r ltac:(cbn; lia) b); destruct (scan b r) end. cbn in *. lia.
Qed.

Lemma scan_stars_next p : (scan_stars p).2 = [] \/ exists c r, (scan_stars p).2 = c :: r /\ c <> "*".
Proof.
  induction p as [|c p IH]; cbn; [by left|]. destruct (Ascii.eqb_spec c "*"); [done|]. right. by exists c, p.
Qed.

(** Every chunk takes something of the pattern; an empty one is the last. *)
Lemma scanChunk_shrinks pattern star chunk rest : pattern <> [] -> scanChunk pattern = (star, chunk, rest) ->
  (length rest < length pattern)%nat /\ (chunk = [] -> star = true /\ rest = []).
Proof.
  unfold scanChunk. intros Hne E. destruct (scan_stars pattern) as [st p] eqn:Es. destruct (scan false p) as [ch rs] eqn:Ec. injection E as <- <- <-.
  pose proof (scan_length p false) as Hl. rewrite Ec in Hl. cbn in Hl. pose proof (scan_stars_length pattern) as Hp. pose proof (scan_stars_next pattern) as Hn. rewrite Es in Hp, Hn. cbn in Hp, Hn.
  destruct pattern as [|c0 r0]; [done|]. cbn in Es. destruct Hn as [->|(c & r & -> & Hc)].
  - cbn in Ec. injection Ec as <- <-. split; [cbn in *; lia|]. intros _. split; [|done]. destruct (Ascii.eqb c0 "*"); by simplify_eq.
  - assert (ch <> []) as Hch.
    { cbn in Ec. destruct (Ascii.eqb c "\"); [destruct r; [by injection Ec as <- _|]; destruct (scan _ r); by injection Ec as <- _|].
      destruct (Ascii.eqb_spec c "*"); [done|]. cbn [andb] in Ec. match type of Ec with context [scan ?b r] => destruct (scan b r) end. by injection Ec as <- _. }
    split; [|done]. destruct ch; [done|]. cbn in *. lia.
Qed.

Lemma bind_cons {A} (o : option (list A)) (x : A) : (ts ← o; Some (x :: ts)) <> Some [].
Proof. by destruct o. Qed.

Lemma tokens_empty chunk ts : tokens chunk = Some ts -> (ts = [] <-> chunk = []).
Proof.
  unfold tokens. destruct chunk as [|c r]; [cbn; intros [= <-]; done|]. intros H. split; [|done]. intros ->. exfalso. revert H. cbn [length read_tokens].
  destruct (Ascii.eqb c "["); [|destruct (Ascii.eqb c "?"); [|destruct (Ascii.eqb c "\"); [destruct r; [done|]|]]]; try (by intros ?%bind_cons).
  destruct (match r with [] => _ | _ :: _ => _ end) as [neg r']. destruct (class_ranges _ _ _) as [[rs r'']|]; [cbn [mbind option_bind]|done]. by intros ?%bind_cons.
Qed.

(** *** [Match] is the match of its chunks *)

Lemma skip_match_tokens chunk ts last name : tokens chunk = Some ts -> skip_match chunk last name = Some (skip_tokens ts last name).
Proof.
  intros Ht. induction name as [|c s IH]; [done|]. cbn. destruct (Ascii.eqb c Separator); [done|]. unfold matchChunk. rewrite Ht. cbn [mbind option_bind].
  destruct (match_tokens ts s) as [t|]; [|exact IH]. destruct (last && negb (is_empty t)); [exact IH|done].
Qed.

Lemma check_rest_chunks fuel pattern : (length pattern <= fuel)%nat -> check_rest fuel pattern = match read_chunks fuel pattern with Some _ => Some false | None => None end.
Proof.
  revert pattern. induction fuel as [|fuel IH]; intros pattern Hf; [by destruct pattern; [|cbn in Hf; lia]|]. destruct pattern as [|c r]; [done|].
  cbn [check_rest read_chunks]. destruct (scanChunk (c :: r)) as [[star chunk] rest] eqn:E. destruct (scanChunk_shrinks (c :: r) _ _ _ ltac:(discriminate) E) as [Hl _].
  unfold matchChunk. destruct (tokens chunk) as [ts|]; [cbn [mbind option_bind]|done]. rewrite IH by (cbn in *; lia). by destruct (read_chunks fuel rest).
Qed.

Lemma read_chunks_empty fuel pattern cs : read_chunks fuel pattern = Some cs -> is_empty cs = is_empty pattern.
Proof.
  destruct pattern as [|c r]; [destruct fuel; by intros [= <-]|]. destruct fuel as [|fuel]; [done|]. cbn [read_chunks]. destruct (scanChunk (c :: r)) as [[star chunk] rest].
  destruct (tokens chunk) as [ts|]; [cbn|done]. destruct (read_chunks fuel rest); [cbn|done]. by intros [= <-].
Qed.

Lemma match_from_chunks fuel pattern name : (length pattern <= fuel)%nat -> match_from fuel pattern name = (fun cs => match_chunks cs name) <$> read_chunks fuel pattern.
Proof.
  revert pattern name. induction fuel as [|fuel IH]; intros pattern name Hf; [by destruct pattern; [|cbn in Hf; lia]|]. destruct pattern as [|c r]; [done|].
  cbn [match_from read_chunks]. destruct (scanChunk (c :: r)) as [[star chunk] rest] eqn:E. destruct (scanChunk_shrinks (c :: r) _ _ _ ltac:(discriminate) E) as [Hl He].
  assert (length rest <= fuel)%nat as Hr by (cbn in *; lia). specialize (IH rest). unfold matchChunk. destruct (tokens chunk) as [ts|] eqn:Et.
  - pose proof (tokens_empty _ _ Et) as Hte. cbn [mbind option_bind]. destruct (star && is_empty chunk) eqn:Es.
    + apply andb_true_iff in Es as [-> Hch]. destruct chunk; [|done]. destruct (He eq_refl) as [_ ->]. cbn. destruct fuel; cbn; by rewrite (proj2 Hte eq_refl).
    + assert (star && is_empty ts = false) as Es'.
      { destruct star; [|done]. cbn in *. destruct ts; [|done]. by rewrite (proj1 Hte eq_refl) in Es. }
      rewrite (skip_match_tokens _ _ _ _ Et).
      set (skipped := if star then skip_tokens ts (is_empty rest) name else None).
      assert (forall o, (r0 ← Some o; match r0 with Some t => match_from fuel rest t | None => check_rest fuel rest end) =
        (fun cs => match o with Some t => match_chunks cs t | None => false end) <$> read_chunks fuel rest) as Hgo.
      { intros o. cbn. destruct o as [t|]; [by apply IH|]. rewrite check_rest_chunks by done. by destruct (read_chunks fuel rest). }
      assert ((match match_tokens ts name with
               | Some t => if is_empty t || negb (is_empty rest) then Some (Some t) else if star then Some (skip_tokens ts (is_empty rest) name) else Some None
               | None => if star then Some (skip_tokens ts (is_empty rest) name) else Some None
               end) = Some (match match_tokens ts name with Some t => if is_empty t || negb (is_empty rest) then Some t else skipped | None => skipped end)) as ->.
      { unfold skipped. destruct (match_tokens ts name) as [t|]; [destruct (_ || _); [done|]|]; by destruct star. }
      rewrite Hgo. unfold skipped. destruct (read_chunks fuel rest) as [cs|] eqn:Ecs; [|done]. apply read_chunks_empty in Ecs. cbn. by rewrite Es', Ecs.
  - destruct (star && is_empty chunk) eqn:Es; [|done]. apply andb_true_iff in Es as [_ Hch]. by destruct chunk.
Qed.

(** Whether a pattern is malformed does not depend on the name. *)
Lemma Match_chunks pattern name : Match pattern name = (fun cs => match_chunks cs name) <$> chunks pattern.
Proof. by apply match_from_chunks. Qed.

(** *** The shape of chunks *)

(** Chunks after the first come after a star, and only the last is empty. *)
Definition starred (c : bool * list token) : Prop := c.1 = true.

Fixpoint shaped (cs : chunks_of) : Prop :=
  match cs with
  | [] => True
  | (star, ts) :: rest => (ts = [] -> star = true /\ rest = []) /\ Forall starred rest /\ shaped rest
  end.

Lemma scan_rest p : forall b, (scan b p).2 = [] \/ exists r, (scan b p).2 = "*" :: r.
Proof.
  induction p as [p IH] using (induction_ltof1 _ (@length ascii)); unfold ltof in IH. intros b. destruct p as [|c r]; [by left|]. cbn. destruct (Ascii.eqb c "\").
  - destruct r as [|d r]; [by left|]. specialize (IH r ltac:(cbn; lia) b). destruct (scan b r). exact IH.
  - destruct (Ascii.eqb_spec c "*") as [->|]; [destruct (negb b); cbn; [by right; exists r|]|cbn];
      (match goal with |- context [scan ?b r] => specialize (IH r ltac:(cbn; lia) b); destruct (scan b r) end; exact IH).
Qed.

Lemma read_chunks_shaped fuel pattern cs : read_chunks fuel pattern = Some cs -> shaped cs /\ ((exists r, pattern = "*" :: r) -> Forall starred cs).
Proof.
  revert pattern cs. induction fuel as [|fuel IH]; intros pattern cs; [destruct pattern; [intros [= <-]; by split; [|constructor]|done]|].
  destruct pattern as [|c r]; [intros [= <-]; by split; [|constructor]|]. cbn [read_chunks]. destruct (scanChunk (c :: r)) as [[star chunk] rest] eqn:E.
  destruct (scanChunk_shrinks (c :: r) _ _ _ ltac:(discriminate) E) as [_ He]. destruct (tokens chunk) as [ts|] eqn:Et; [cbn [mbind option_bind]|done].
  destruct (read_chunks fuel rest) as [cs'|] eqn:Er; [cbn [mbind option_bind]|done]. intros [= <-]. destruct (IH _ _ Er) as [H1 H2].
  unfold scanChunk in E. destruct (scan_stars (c :: r)) as [st p] eqn:Es. pose proof (scan_rest p false) as Hr. destruct (scan false p) as [ch rs]. injection E as -> -> ->. cbn in Hr.
  assert (Forall starred cs') as Hst.
  { destruct Hr as [->|Hr]; [|by apply H2]. destruct fuel; by injection Er as <-. }
  split; [split; [|by split]|].
  - intros ->. destruct (He (proj1 (tokens_empty _ _ Et) eq_refl)) as [-> ->]. split; [done|]. destruct fuel; by injection Er as <-.
  - intros [r' [= -> _]]. cbn in Es. injection Es as <- _. by constructor.
Qed.

Lemma chunks_shaped pattern cs : chunks pattern = Some cs -> shaped cs.
Proof. intros H. by apply read_chunks_shaped in H as [? _]. Qed.

(** *** ASCII names *)

Lemma decode_ascii c s : code c < 0x80 -> decode_rune (c :: s) = (code c, 1%nat).
Proof. intros H. unfold decode_rune. by replace (code c <? 128) with true by (symmetry; apply Z.ltb_lt; lia). Qed.

Lemma match_token_ascii t c s rest : code c < 0x80 -> match_token t (c :: s) = Some rest -> rest = s.
Proof.
  intros Hc. unfold match_token. destruct t as [neg rs| |b].
  - rewrite decode_ascii by done. destruct (Bool.eqb _ _); [done|]. cbn. rewrite drop_0. by intros [= <-].
  - rewrite decode_ascii by done. destruct (Ascii.eqb _ _); [done|]. cbn. rewrite drop_0. by intros [= <-].
  - destruct (Ascii.eqb _ _); [|done]. by intros [= <-].
Qed.

(** Tokens take a byte each. *)
Lemma match_tokens_ascii ts s rest : ascii_only s -> match_tokens ts s = Some rest -> (length ts <= length s)%nat /\ rest = drop (length ts) s.
Proof.
  revert s. induction ts as [|t ts IH]; intros s Hs; cbn [match_tokens]; [intros [= <-]; split; [cbn; lia|by rewrite drop_0]|].
  destruct s as [|c s]; [done|]. apply Forall_cons in Hs as [Hc Hs]. destruct (match_token t (c :: s)) as [s'|] eqn:E; [cbn|done]. apply match_token_ascii in E as ->; [|done].
  intros [H1 H2]%IH; [|done]. split; [lia|done].
Qed.

(** The positions at which a chunk can be taken. *)
Definition fits (ts : list token) (last : bool) (name : text) (i : nat) (t : text) : Prop :=
  (i <= length name)%nat /\ match_tokens ts (drop i name) = Some t /\ (last = true -> t = []).

Lemma skip_tokens_first ts last name : Separator ∉ name ->
  match skip_tokens ts last name with
  | Some t => exists i, (1 <= i)%nat /\ fits ts last name i t /\ forall j t', (1 <= j)%nat -> fits ts last name j t' -> (i <= j)%nat
  | None => forall j t', (1 <= j)%nat -> ~ fits ts last name j t'
  end.
Proof.
  induction name as [|c s IH]; intros Hn; cbn [skip_tokens]; [intros j t' Hj [H _]; cbn in H; lia|]. apply not_elem_of_cons in Hn as [Hc Hs]. specialize (IH Hs).
  destruct (Ascii.eqb_spec c Separator); [congruence|].
  assert (forall i t, fits ts last s i t <-> fits ts last (c :: s) (S i) t) as Hfit by (intros i t; unfold fits; cbn; split; intros (? & ? & ?); split_and!; try done; lia).
  assert (match_tokens ts s = None \/ (exists t, match_tokens ts s = Some t /\ last = true /\ t <> []) ->
    match skip_tokens ts last s with
    | Some t => exists i, (1 <= i)%nat /\ fits ts last (c :: s) i t /\ forall j t', (1 <= j)%nat -> fits ts last (c :: s) j t' -> (i <= j)%nat
    | None => forall j t', (1 <= j)%nat -> ~ fits ts last (c :: s) j t'
    end) as Hgo.
  { intros Hno. assert (forall t, ~ fits ts last s 0 t) as H0.
    { intros t (_ & H2 & H3). rewrite drop_0 in H2. destruct Hno as [E|(t1 & E & El & Ht)]; [congruence|]. apply Ht. rewrite H2 in E. injection E as <-. by apply H3. }
    destruct (skip_tokens ts last s) as [t|].
    - destruct IH as (i & H1 & H2 & H3). exists (S i). split; [lia|]. split; [by apply Hfit|]. intros j t' Hj Hf. destruct j as [|[|j]]; [lia|by apply Hfit, H0 in Hf|]. apply Hfit in Hf. apply H3 in Hf; lia.
    - intros j t' Hj Hf. destruct j as [|[|j]]; [lia|by apply Hfit, H0 in Hf|]. apply Hfit in Hf. by apply IH in Hf; [|lia]. }
  destruct (match_tokens ts s) as [t|] eqn:Em; [|apply Hgo; by left]. destruct (last && negb (is_empty t)) eqn:El.
  - apply andb_true_iff in El as [-> El]. apply Hgo. right. exists t. by destruct t.
  - exists 1%nat. split; [lia|]. split; [|lia]. apply Hfit. split; [lia|]. rewrite drop_0. split; [done|]. intros ->. by destruct t.
Qed.

Lemma drop_suffix {A} (l : list A) i j : (i <= j)%nat -> exists x, drop i l = x ++ drop j l.
Proof. intros H. exists (take (j - i) (drop i l)). replace j with (i + (j - i))%nat at 2 by lia. by rewrite <- drop_drop, take_drop. Qed.

(** A star takes more. *)
Lemma stands_longer cs x n : Forall starred cs -> cs <> [] -> Separator ∉ x -> stands_for cs n -> stands_for cs (x ++ n).
Proof.
  intros Hs Hne Hx H. destruct H as [|star ts cs skipped name rest H1 H2 H3 H4]; [done|]. apply Forall_cons in Hs as [Hst _]. cbn in Hst. unfold starred in Hst. cbn in Hst. subst star.
  rewrite app_assoc. econstructor; [done| |done|done]. rewrite elem_of_app. tauto.
Qed.

Lemma no_slash name : existsb (Ascii.eqb Separator) name = false <-> Separator ∉ name.
Proof.
  induction name as [|c name IH]; [split; [intros _ ?%elem_of_nil; done|done]|]. cbn [existsb]. rewrite orb_false_iff, IH, not_elem_of_cons. destruct (Ascii.eqb_spec Separator c); by split; intros [].
Qed.

(** What [match_chunks] goes on with. *)
Definition chosen (star : bool) (ts : list token) (last : bool) (name : text) : option text :=
  let skipped := if star then skip_tokens ts last name else None in
  match match_tokens ts name with Some t => if is_empty t || negb last then Some t else skipped | None => skipped end.

Lemma chosen_fits star ts last name t : Separator ∉ name -> chosen star ts last name = Some t -> exists i, fits ts last name i t /\ (star = false -> i = 0%nat).
Proof.
  intros Hn. unfold chosen. pose proof (skip_tokens_first ts last name Hn) as Hs.
  assert ((if star then skip_tokens ts last name else None) = Some t -> exists i, fits ts last name i t /\ (star = false -> i = 0%nat)) as Hskip.
  { destruct star; [|done]. intros E. rewrite E in Hs. destruct Hs as (i & _ & Hf & _). by exists i. }
  destruct (match_tokens ts name) as [t0|] eqn:E; [|done]. destruct (is_empty t0 || negb last) eqn:Eb; [|done]. intros [= ->]. exists 0%nat. split; [|done].
  split; [lia|]. rewrite drop_0. split; [done|]. intros ->. destruct t; [done|discriminate Eb].
Qed.

(** What is chosen is the first place that fits. *)
Lemma chosen_first star ts last name j t' : Separator ∉ name -> fits ts last name j t' -> (star = false -> j = 0%nat) ->
  exists i t, chosen star ts last name = Some t /\ fits ts last name i t /\ (i <= j)%nat.
Proof.
  intros Hn Hf Hj. unfold chosen. pose proof (skip_tokens_first ts last name Hn) as Hs. destruct Hf as (Hle & Hm & Hl).
  destruct (match_tokens ts name) as [t0|] eqn:E.
  - destruct (is_empty t0 || negb last) eqn:Eb.
    + exists 0%nat, t0. split; [done|]. split; [|lia]. split; [lia|]. rewrite drop_0. split; [done|]. intros ->. destruct t0; [done|discriminate Eb].
    + apply orb_false_iff in Eb as [E0 E1]. destruct last; [|done]. destruct j as [|j]; [rewrite drop_0, E in Hm; injection Hm as ->; by rewrite (Hl eq_refl) in E0|].
      destruct star; [|by specialize (Hj eq_refl)]. destruct (skip_tokens ts true name) as [t|]; [|by destruct (Hs (S j) t'); [lia|]].
      destruct Hs as (i & _ & Hf & Hmin). exists i, t. split; [done|]. split; [done|]. apply (Hmin _ t'); [lia|done].
  - destruct j as [|j]; [by rewrite drop_0, E in Hm|]. destruct star; [|by specialize (Hj eq_refl)]. destruct (skip_tokens ts last name) as [t|]; [|by destruct (Hs (S j) t'); [lia|]].
    destruct Hs as (i & _ & Hf & Hmin). exists i, t. split; [done|]. split; [done|]. apply (Hmin _ t'); [lia|done].
Qed.

Lemma match_chunks_cons star ts rest name : match_chunks ((star, ts) :: rest) name =
  if star && is_empty ts then negb (existsb (Ascii.eqb Separator) name) else match chosen star ts (is_empty rest) name with Some t => match_chunks rest t | None => false end.
Proof. done. Qed.

Lemma sublist_drop (s : text) i : Separator ∉ s -> Separator ∉ drop i s.
Proof. intros H Hd. apply H. rewrite <- (take_drop i s). apply elem_of_app. by right. Qed.

Lemma fits_rest ts last name i t : ascii_only name -> fits ts last name i t -> t = drop (i + length ts) name /\ (i + length ts <= length name)%nat.
Proof.
  intros Ha (H1 & H2 & _). apply match_tokens_ascii in H2 as [H3 ->]; [|by apply Forall_drop]. rewrite length_drop in H3. rewrite drop_drop. split; [done|lia].
Qed.

Lemma match_chunks_stands cs name : shaped cs -> Separator ∉ name -> ascii_only name -> match_chunks cs name = true <-> stands_for cs name.
Proof.
  revert name. induction cs as [|[star ts] rest IH]; intros name Hsh Hn Ha.
  { split; [destruct name; [constructor|done]|]. intros H. by inversion H. }
  destruct Hsh as (He & Hst & Hsh). rewrite match_chunks_cons. destruct (star && is_empty ts) eqn:Es.
  { apply andb_true_iff in Es as [-> Et]. destruct ts; [|done]. destruct (He eq_refl) as [_ ->]. rewrite negb_true_iff, no_slash. split; [|done]. intros _.
    rewrite <- (app_nil_r name). by apply (stands_chunk true [] [] name [] []); [| | |constructor]. }
  split.
  - destruct (chosen star ts (is_empty rest) name) as [t|] eqn:Ec; [|done]. destruct (chosen_fits _ _ _ _ _ Hn Ec) as (i & Hf & Hi). destruct (fits_rest _ _ _ _ _ Ha Hf) as [-> _].
    intros H. apply IH in H; [|done|by apply sublist_drop|by apply Forall_drop]. rewrite <- (take_drop i name). apply (stands_chunk star ts rest _ _ (drop (i + length ts) name)); [| |apply Hf|done].
    + intros Hs. by rewrite (Hi Hs).
    + intros Hin. apply Hn. rewrite <- (take_drop i name). apply elem_of_app. by left.
  - intros H. inversion H as [|star' ts' cs' skipped name' rest' H1 H2 H3 H4]; subst.
    assert (fits ts (is_empty rest) (skipped ++ name') (length skipped) rest') as Hf.
    { split; [rewrite length_app; lia|]. rewrite drop_app_length. split; [done|]. destruct rest; [|done]. intros _. by inversion H4. }
    destruct (chosen_first star ts _ _ _ _ Hn Hf) as (i & t & -> & Hf' & Hle); [by intros ->; rewrite H1|].
    destruct (fits_rest _ _ _ _ _ Ha Hf) as [E1 _]. destruct (fits_rest _ _ _ _ _ Ha Hf') as [E2 _]. apply IH; [done|rewrite E2; by apply sublist_drop|rewrite E2; by apply Forall_drop|].
    destruct rest as [|c rest]; [rewrite (proj2 (proj2 Hf') eq_refl); constructor|].
    destruct (drop_suffix (skipped ++ name') (i + length ts) (length skipped + length ts)) as [x Hx]; [lia|]. rewrite E2, Hx, <- E1. apply stands_longer; [done..| |done].
    intros Hin. apply Hn. rewrite <- (take_drop (i + length ts) (skipped ++ name')), Hx. apply elem_of_app. right. apply elem_of_app. by left.
Qed.

(** [filepath.Match] decides what a pattern stands for. *)
Lemma Match_stands pattern name : Separator ∉ name -> ascii_only name ->
  match chunks pattern with
  | Some cs => exists b, Match pattern name = Some b /\ (b = true <-> stands_for cs name)
  | None => Match pattern name = None
  end.
Proof.
  intros Hn Ha. rewrite Match_chunks. destruct (chunks pattern) as [cs|] eqn:E; [|done]. eexists. split; [done|]. apply match_chunks_stands; [by eapply chunks_shaped|done..].
Qed.

(** *** Paths *)

(** A path against the segments of a glob: [**] stands for any segments, at
    the end for at least one. *)
Inductive path_matches (seg : text -> text -> Prop) : list text -> list text -> Prop :=
| path_done : path_matches seg [] []
| path_segment p n ps ns : p <> starstar -> seg p n -> path_matches seg ps ns -> path_matches seg (p :: ps) (n :: ns)
| path_below n ns : path_matches seg [starstar] (n :: ns)
| path_across p ps skipped ns : path_matches seg (p :: ps) ns -> path_matches seg (starstar :: p :: ps) (skipped ++ ns).

Section Paths.
Context {letters : Letters}.

Lemma matchParts_path fold (seg : text -> text -> Prop) pattern name :
  (forall p n, p ∈ pattern -> n ∈ name -> segMatch p n fold = true <-> seg p n) -> matchParts pattern name fold = true <-> path_matches seg pattern name.
Proof.
  revert name. induction pattern as [|p ps IH]; intros name Hseg; cbn [matchParts]; [split; [destruct name; [constructor|done]|by inversion 1]|].
  destruct (bool_decide (p = starstar)) eqn:Ep.
  - apply bool_decide_eq_true in Ep as ->. destruct ps as [|p' ps].
    + split; [destruct name; [done|intros _; apply path_below]|]. inversion 1; subst; congruence || done.
    + rewrite existsb_exists. split.
      * intros (i & _ & Hi). apply IH in Hi; [|intros q n Hq Hin; apply Hseg; [by right|rewrite <- (take_drop i name); apply elem_of_app; by right]].
        rewrite <- (take_drop i name). by constructor.
      * inversion 1 as [| | |? ? skipped ns Hns]; subst; [congruence|]. exists (length skipped). rewrite in_seq, length_app. split; [lia|]. rewrite drop_app_length.
        apply IH; [|done]. intros q n Hq Hin. apply Hseg; [by right|apply elem_of_app; by right].
  - apply bool_decide_eq_false in Ep. destruct name as [|n ns]; [split; [done|by inversion 1]|]. rewrite andb_true_iff, IH.
    + rewrite Hseg by left. split; [intros [? ?]; by constructor|]. inversion 1; subst; congruence || done.
    + intros q m Hq Hm. apply Hseg; by right.
Qed.
End Paths.

(** *** Braces *)

(** A pattern with its groups of alternatives. *)
Inductive pat : Type :=
| PEnd
| PChar (c : ascii) (p : pat)
| PGroup (a : alts) (p : pat)
with alts : Type :=
| AOne (p : pat)
| AMore (p : pat) (a : alts).

Fixpoint print (p : pat) : text :=
  match p with
  | PEnd => []
  | PChar c p => c :: print p
  | PGroup a p => "{" :: print_alts a ++ "}" :: print p
  end
with print_alts (a : alts) : text :=
  match a with
  | AOne p => print p
  | AMore p a => print p ++ "," :: print_alts a
  end.

(** What the pattern stands for, in order. *)
Fixpoint denote (p : pat) : list text :=
  match p with
  | PEnd => [[]]
  | PChar c p => (fun s => c :: s) <$> denote p
  | PGroup a p => flat_map (fun s => (fun t => s ++ t) <$> denote p) (denote_alts a)
  end
with denote_alts (a : alts) : list text :=
  match a with
  | AOne p => denote p
  | AMore p a => denote p ++ denote_alts a
  end.

(** A character is no brace, and no comma inside a group. *)
Fixpoint plain (inside : bool) (p : pat) : bool :=
  match p with
  | PEnd => true
  | PChar c p => negb (Ascii.eqb c "{" || Ascii.eqb c "}" || (inside && Ascii.eqb c ",")) && plain inside p
  | PGroup a p => plain_alts a && plain inside p
  end
with plain_alts (a : alts) : bool :=
  match a with
  | AOne p => plain true p
  | AMore p a => plain true p && plain_alts a
  end.

Fixpoint pat_app (p q : pat) : pat :=
  match p with
  | PEnd => q
  | PChar c p => PChar c (pat_app p q)
  | PGroup a p => PGroup a (pat_app p q)
  end.

Fixpoint list_of (a : alts) : list pat := match a with AOne p => [p] | AMore p a => p :: list_of a end.

Scheme pat_mut := Induction for pat Sort Prop with alts_mut := Induction for alts Sort Prop.
Combined Scheme pat_alts_ind from pat_mut, alts_mut.

Definition onto (pre : text) (r : option (text * text)) : option (text * text) := '(a, b) ← r; Some (pre ++ a, b).

(** Balanced text is passed over. *)
Lemma close_brace_print : (forall p inside d s, plain inside p = true -> 1 <= d -> close_brace d (print p ++ s) = onto (print p) (close_brace d s)) /\
  (forall a d s, plain_alts a = true -> 1 <= d -> close_brace d (print_alts a ++ s) = onto (print_alts a) (close_brace d s)).
Proof.
  assert (forall pre c r, onto pre ('(a, b) ← r; Some (c :: a, b)) = onto (pre ++ [c]) r) as Hone by (intros pre c [[a b]|]; [|done]; cbn; by rewrite <- app_assoc).
  assert (forall r, onto [] r = r) as Hnil by (by intros [[a b]|]).
  assert (forall p q r, onto p (onto q r) = onto (p ++ q) r) as Hoo by (intros p q [[a b]|]; [|done]; cbn; by rewrite app_assoc).
  assert (forall d c s, c <> "}" -> close_brace d (c :: s) = onto [c] (close_brace (if Ascii.eqb c "{" then d + 1 else d) s)) as Hstep.
  { intros d c s Hc. cbn [close_brace]. destruct (Ascii.eqb_spec c "}"); [done|]. cbn [andb]. by destruct (close_brace _ s) as [[a b]|]. }
  apply pat_alts_ind; cbn [print print_alts plain plain_alts].
  - intros inside d s _ _. by rewrite Hnil.
  - intros c p IH inside d s [Hc Hp]%andb_true_iff Hd. apply negb_true_iff, orb_false_iff in Hc as [Hc _]. apply orb_false_iff in Hc as [H1 H2].
    cbn [app]. rewrite Hstep by (intros ->; done). by rewrite H1, (IH inside), Hoo.
  - intros a IHa p IHp inside d s [Ha Hp]%andb_true_iff Hd. cbn [app]. rewrite Hstep by done. cbn [Ascii.eqb Bool.eqb]. rewrite <- app_assoc, IHa by (done || lia). cbn [app close_brace Ascii.eqb Bool.eqb andb].
    replace (d + 1 - 1) with d by lia. destruct (Z.eqb_spec d 0); [lia|]. rewrite (IHp inside) by done. change ("{" :: print_alts a ++ "}" :: print p) with (["{"] ++ print_alts a ++ ["}"] ++ print p).
    rewrite <- !Hoo. by do 2 f_equal.
  - intros p IH d s Hp Hd. by rewrite (IH true).
  - intros p IHp a IHa d s [Hp Ha]%andb_true_iff Hd. rewrite <- app_assoc. rewrite (IHp true) by done. cbn [app]. rewrite Hstep by done. cbn [Ascii.eqb Bool.eqb]. rewrite IHa by done.
    change (print p ++ "," :: print_alts a) with (print p ++ [","] ++ print_alts a). by rewrite <- !Hoo.
Qed.

Definition push (pre : text) (l : list text) : list text := match l with a :: rest => (pre ++ a) :: rest | [] => [pre] end.

Lemma alternatives_nonempty d s : alternatives d s <> [].
Proof. destruct s as [|c s]; [done|]. cbn. destruct (_ && _); [done|]. by destruct (alternatives _ s). Qed.

Lemma push_push p q l : l <> [] -> push p (push q l) = push (p ++ q) l.
Proof. destruct l; [done|]. intros _. cbn. by rewrite app_assoc. Qed.

Lemma alternatives_step d c s : (c = "," -> d <> 0) -> alternatives d (c :: s) = push [c] (alternatives (if Ascii.eqb c "{" then d + 1 else if Ascii.eqb c "}" then d - 1 else d) s).
Proof.
  intros Hc. cbn. destruct (Ascii.eqb_spec c ","); cbn; [destruct (Z.eqb_spec d 0); [by apply Hc in e|]|]; done.
Qed.

Lemma alternatives_print : (forall p d s, plain true p = true -> 0 <= d -> alternatives d (print p ++ s) = push (print p) (alternatives d s)) /\
  (forall a d s, plain_alts a = true -> 1 <= d -> alternatives d (print_alts a ++ s) = push (print_alts a) (alternatives d s)).
Proof.
  apply pat_alts_ind; cbn [print print_alts plain plain_alts].
  - intros d s _ _. cbn [app]. pose proof (alternatives_nonempty d s). by destruct (alternatives d s).
  - intros c p IH d s [Hc Hp]%andb_true_iff Hd. apply negb_true_iff, orb_false_iff in Hc as [Hc Hcomma]. apply orb_false_iff in Hc as [H1 H2]. cbn [app andb] in *.
    rewrite alternatives_step by (intros ->; done). rewrite H1, H2, IH by done. rewrite push_push by apply alternatives_nonempty. done.
  - intros a IHa p IHp d s [Ha Hp]%andb_true_iff Hd. cbn [app]. rewrite alternatives_step by done. cbn [Ascii.eqb Bool.eqb]. rewrite <- app_assoc, IHa by (done || lia). cbn [app].
    rewrite alternatives_step by done. cbn [Ascii.eqb Bool.eqb]. replace (d + 1 - 1) with d by lia. rewrite IHp by done. change ("{" :: print_alts a ++ "}" :: print p) with (["{"] ++ print_alts a ++ ["}"] ++ print p).
    pose proof (alternatives_nonempty d s). rewrite <- !push_push; try done; by destruct (alternatives d s).
  - intros p IH d s Hp Hd. apply IH; [done|lia].
  - intros p IHp a IHa d s [Hp Ha]%andb_true_iff Hd. rewrite <- app_assoc, IHp by (done || lia). cbn [app]. rewrite alternatives_step by lia. cbn [Ascii.eqb Bool.eqb]. rewrite IHa by done.
    change (print p ++ "," :: print_alts a) with (print p ++ [","] ++ print_alts a). pose proof (alternatives_nonempty d s). rewrite <- !push_push; try done; by destruct (alternatives d s).
Qed.

Lemma alternatives_list a : plain_alts a = true -> alternatives 0 (print_alts a) = print <$> list_of a.
Proof.
  induction a as [p|p a IH]; cbn [plain_alts print_alts list_of].
  - intros Hp. rewrite <- (app_nil_r (print p)), (proj1 alternatives_print) by done. cbn. by rewrite app_nil_r.
  - intros [Hp Ha]%andb_true_iff. rewrite (proj1 alternatives_print) by done. cbn. rewrite app_nil_r. by rewrite IH.
Qed.

(** *** What [expandBraces] gives *)

Fixpoint chars (pre : text) (p : pat) : pat := match pre with [] => p | c :: pre => PChar c (chars pre p) end.

Lemma print_app p q : print (pat_app p q) = print p ++ print q.
Proof.
  induction p as [|c p IH|a IHa p IH|p IH|p IH a IHa] using pat_mut with (P0 := fun _ => True); cbn; try done; [by rewrite IH|]. rewrite IH. by rewrite <- app_assoc.
Qed.

Lemma print_chars pre p : print (chars pre p) = pre ++ print p.
Proof. induction pre as [|c pre IH]; cbn; [done|]. by rewrite IH. Qed.

Lemma denote_chars pre p : denote (chars pre p) = (fun s => pre ++ s) <$> denote p.
Proof. induction pre as [|c pre IH]; cbn; [by rewrite list_fmap_id|]. by rewrite IH, <- list_fmap_compose. Qed.

Lemma flat_map_fmap {A B C} (f : A -> list B) (g : B -> C) l : g <$> flat_map f l = flat_map (fun x => g <$> f x) l.
Proof. induction l as [|x l IH]; cbn; [done|]. by rewrite fmap_app, IH. Qed.

Lemma flat_map_flat_map {A B C} (f : A -> list B) (g : B -> list C) l : flat_map g (flat_map f l) = flat_map (fun x => flat_map g (f x)) l.
Proof. induction l as [|x l IH]; cbn; [done|]. by rewrite flat_map_app, IH. Qed.

Lemma flat_map_map {A B C} (f : A -> B) (g : B -> list C) l : flat_map g (f <$> l) = flat_map (fun x => g (f x)) l.
Proof. induction l as [|x l IH]; cbn; [done|]. by rewrite IH. Qed.

Lemma denote_app p q : denote (pat_app p q) = flat_map (fun s => (fun t => s ++ t) <$> denote q) (denote p).
Proof.
  induction p as [|c p IH|a IHa p IH|p IH|p IH a IHa] using pat_mut with (P0 := fun _ => True); cbn; try done.
  - by rewrite app_nil_r, list_fmap_id.
  - rewrite IH, flat_map_fmap, flat_map_map. apply flat_map_ext. intros s. by rewrite <- list_fmap_compose.
  - rewrite IH, flat_map_flat_map. apply flat_map_ext. intros s. rewrite flat_map_fmap, flat_map_map. apply flat_map_ext. intros t. rewrite <- list_fmap_compose. apply list_fmap_ext. intros _ x _. cbn. by rewrite app_assoc.
Qed.

Lemma denote_list a : denote_alts a = flat_map denote (list_of a).
Proof. induction a as [p|p a IH]; cbn; [by rewrite app_nil_r|by rewrite IH]. Qed.

Lemma plain_outside p : plain true p = true -> plain false p = true.
Proof.
  induction p as [|c p IH|a IHa p IH|p IH|p IH a IHa] using pat_mut with (P0 := fun _ => True); cbn; try done.
  - rewrite !andb_true_iff, !negb_true_iff, !orb_false_iff. intros [[? _] ?]. auto.
  - rewrite !andb_true_iff. intros [? ?]. auto.
Qed.

Lemma plain_app p q : plain false p = true -> plain false q = true -> plain false (pat_app p q) = true.
Proof.
  induction p as [|c p IH|a IHa p IH|p IH|p IH a IHa] using pat_mut with (P0 := fun _ => True); cbn; try done; rewrite !andb_true_iff; intros [? ?] ?; auto.
Qed.

Lemma plain_chars pre p : plain false (chars pre p) = true -> plain false p = true /\ forall q, plain false q = true -> plain false (chars pre q) = true.
Proof.
  induction pre as [|c pre IH]; cbn; [done|]. rewrite andb_true_iff. intros [Hc H]. destruct (IH H) as [H1 H2]. split; [done|]. intros q Hq. rewrite andb_true_iff. auto.
Qed.

(** The first group of a pattern. *)
Lemma first_group p : plain false p = true -> (find_byte "{" (print p) = None /\ denote p = [print p]) \/
  exists pre a q, p = chars pre (PGroup a q) /\ find_byte "{" (print p) = Some (length pre).
Proof.
  induction p as [|c p IH|a IHa p IH|p IH|p IH a IHa] using pat_mut with (P0 := fun _ => True); try done; cbn [plain print find_byte denote].
  - by left.
  - rewrite andb_true_iff, negb_true_iff, !orb_false_iff. intros [[[Hc _] _] Hp]. rewrite Hc. destruct (IH Hp) as [[H1 H2]|(pre & a & q & -> & H)].
    + left. by rewrite H1, H2.
    + right. exists (c :: pre), a, q. by rewrite H.
  - intros _. right. by exists [], a, p.
Qed.

Lemma braces_app s t : braces (s ++ t) = (braces s + braces t)%nat.
Proof. unfold braces. by rewrite List.filter_app, length_app. Qed.

Lemma braces_member x a : x ∈ list_of a -> (braces (print x) <= braces (print_alts a))%nat.
Proof.
  induction a as [p|p a IH]; cbn [list_of print_alts]; [by intros ->%list_elem_of_singleton|]. rewrite braces_app. change ("," :: print_alts a) with ([","] ++ print_alts a). rewrite braces_app.
  intros [->|Hx]%elem_of_cons; [lia|]. apply IH in Hx. lia.
Qed.

Lemma plain_member x a : plain_alts a = true -> x ∈ list_of a -> plain true x = true.
Proof.
  induction a as [p|p a IH]; cbn; [by intros ? ->%list_elem_of_singleton|]. intros [? ?]%andb_true_iff [->|?]%elem_of_cons; auto.
Qed.

Lemma expand_denote fuel p : plain false p = true -> (braces (print p) < fuel)%nat -> expand fuel (print p) = denote p.
Proof.
  revert p. induction fuel as [|fuel IH]; intros p Hp Hf; [lia|]. cbn [expand]. destruct (first_group p Hp) as [[-> ->]|(pre & a & q & -> & ->)]; [done|].
  destruct (plain_chars _ _ Hp) as [Hg Hchars]. cbn [plain] in Hg. apply andb_true_iff in Hg as [Ha Hq]. rewrite print_chars in *. cbn [print] in *.
  replace (drop (S (length pre)) (pre ++ "{" :: print_alts a ++ "}" :: print q)) with (print_alts a ++ "}" :: print q) by (by rewrite <- Nat.add_1_r, <- drop_drop, drop_app_length).
  rewrite take_app_length, (proj2 close_brace_print) by done. cbn [close_brace Ascii.eqb Bool.eqb andb]. change (1 - 1 =? 0) with true. cbn [onto mbind option_bind]. rewrite app_nil_r.
  rewrite alternatives_list by done. rewrite flat_map_map, denote_chars. cbn [denote]. rewrite denote_list, flat_map_flat_map, flat_map_fmap.
  rewrite !flat_map_concat_map. f_equal. apply map_ext_in. intros x Hx%list_elem_of_In. 
  assert (pre ++ print x ++ print q = print (chars pre (pat_app x q))) as -> by (by rewrite print_chars, print_app).
  rewrite IH.
  - by rewrite denote_chars, denote_app.
  - apply Hchars, plain_app; [|done]. apply plain_outside. by eapply plain_member.
  - rewrite print_chars, print_app, !braces_app. apply braces_member in Hx. rewrite !braces_app in Hf. change ("{" :: print_alts a ++ "}" :: print q) with (["{"] ++ print_alts a ++ ["}"] ++ print q) in Hf.
    rewrite !braces_app in Hf. cbn in Hf. unfold braces in *. cbn in Hf. lia.
Qed.

(** *** [expandBraces] ends *)

Lemma close_brace_parts d s inner rest : close_brace d s = Some (inner, rest) -> s = inner ++ "}" :: rest.
Proof.
  revert d inner rest. induction s as [|c s IH]; intros d inner rest; [done|]. cbn. destruct (Ascii.eqb_spec c "}") as [->|Hc]; cbn.
  - destruct (_ =? 0); [by intros [= <- <-]|]. destruct (close_brace _ s) as [[a b]|] eqn:E; [|done]. intros [= <- <-]. cbn. f_equal. by apply IH in E.
  - destruct (close_brace _ s) as [[a b]|] eqn:E; [|done]. intros [= <- <-]. cbn. f_equal. by apply IH in E.
Qed.

Lemma braces_cons c s : braces (c :: s) = ((if Ascii.eqb "{" c then 1 else 0) + braces s)%nat.
Proof. unfold braces. cbn [List.filter]. by destruct (Ascii.eqb "{" c). Qed.

Lemma alternatives_braces d s a : a ∈ alternatives d s -> (braces a <= braces s)%nat.
Proof.
  revert d a. induction s as [|c s IH]; intros d a; [by intros ->%list_elem_of_singleton|]. cbn [alternatives]. rewrite braces_cons. destruct (_ && _).
  - intros [->|Ha]%elem_of_cons; [unfold braces; cbn; lia|]. apply IH in Ha. lia.
  - match goal with |- context [alternatives ?d s] => pose proof (IH d) as IHd; pose proof (alternatives_nonempty d s) as Hne; destruct (alternatives d s) as [|b rest]; [done|] end.
    intros [->|Ha]%elem_of_cons; [rewrite braces_cons; pose proof (IHd b ltac:(by left)); lia|]. pose proof (IHd a ltac:(by right)). lia.
Qed.

Lemma find_byte_split c s i : find_byte c s = Some i -> s = take i s ++ c :: drop (S i) s.
Proof.
  revert i. induction s as [|x s IH]; intros i; [done|]. cbn. destruct (Ascii.eqb_spec x c) as [->|]; [by intros [= <-]|]. destruct (find_byte c s) as [j|]; [|done]. intros [= <-]. cbn. f_equal. by apply IH.
Qed.

(** An expansion has fewer braces. *)
Lemma expand_fewer pattern start inner rest a : find_byte "{" pattern = Some start -> close_brace 1 (drop (S start) pattern) = Some (inner, rest) -> a ∈ alternatives 0 inner ->
  (braces (take start pattern ++ a ++ rest) < braces pattern)%nat.
Proof.
  intros H1 H2 H3. apply find_byte_split in H1. apply close_brace_parts in H2. apply alternatives_braces in H3. rewrite H1 at 2. rewrite !braces_app, H2, braces_cons, braces_app, braces_cons. cbn. lia.
Qed.

Lemma expand_more fuel fuel' pattern : (braces pattern < fuel)%nat -> (braces pattern < fuel')%nat -> expand fuel pattern = expand fuel' pattern.
Proof.
  revert fuel' pattern. induction fuel as [|fuel IH]; intros fuel' pattern Hf Hf'; [lia|]. destruct fuel' as [|fuel']; [lia|]. cbn [expand].
  destruct (find_byte "{" pattern) as [start|] eqn:E1; [|done]. destruct (close_brace 1 _) as [[inner rest]|] eqn:E2; [|done].
  rewrite !flat_map_concat_map. f_equal. apply map_ext_in. intros a Ha%list_elem_of_In. pose proof (expand_fewer _ _ _ _ _ E1 E2 Ha). apply IH; lia.
Qed.

(** The recursion of the source, without fuel. *)
Lemma expandBraces_step pattern : expandBraces pattern =
  match find_byte "{" pattern with
  | None => [pattern]
  | Some start =>
      match close_brace 1 (drop (S start) pattern) with
      | None => [pattern]
      | Some (inner, rest) => flat_map (fun a => expandBraces (take start pattern ++ a ++ rest)) (alternatives 0 inner)
      end
  end.
Proof.
  unfold expandBraces at 1. cbn [expand]. destruct (find_byte "{" pattern) as [start|] eqn:E1; [|done]. destruct (close_brace 1 _) as [[inner rest]|] eqn:E2; [|done].
  rewrite !flat_map_concat_map. f_equal. apply map_ext_in. intros a Ha%list_elem_of_In. pose proof (expand_fewer _ _ _ _ _ E1 E2 Ha). unfold expandBraces. apply expand_more; lia.
Qed.

(** *** Segments *)

(** What the pattern of a segment stands for. *)
Definition segment_stands (pat seg : text) : Prop := exists cs, chunks (negation pat) = Some cs /\ stands_for cs seg.

Section Segments.
Context {letters : Letters}.

Lemma segMatch_stands pat seg : Separator ∉ seg -> ascii_only seg -> segMatch pat seg false = true <-> segment_stands pat seg.
Proof.
  intros Hn Ha. unfold segMatch, segment_stands. pose proof (Match_stands (negation pat) seg Hn Ha) as H. destruct (chunks (negation pat)) as [cs|].
  - destruct H as (b & -> & Hb). rewrite Hb. split; [by exists cs|]. by intros (cs' & [= <-] & ?).
  - rewrite H. split; [done|]. by intros (cs' & ? & _).
Qed.

Lemma split_segments name : ascii_only name -> Forall (fun n => Separator ∉ n /\ ascii_only n) (split_byte Separator name).
Proof.
  intros Ha. apply Forall_and. split; [apply split_byte_no_sep|]. rewrite <- (join_split Separator name) in Ha. revert Ha. generalize (split_byte Separator name). intros l.
  induction l as [|x l IH]; intros Ha; [constructor|]. destruct l as [|y l]; [by constructor|].
  change (join [Separator] (x :: y :: l)) with (x ++ [Separator] ++ join [Separator] (y :: l)) in Ha. apply Forall_app in Ha as [Hx Ha]. apply Forall_app in Ha as [_ Ha]. constructor; [done|by apply IH].
Qed.

Lemma matchGlobOne_path pattern name : ascii_only name ->
  matchGlobOne pattern name false = true <-> path_matches segment_stands (split_byte Separator pattern) (split_byte Separator name).
Proof.
  intros Ha. pose proof (split_segments name Ha) as Hs. unfold matchGlobOne. destruct (bool_decide (pattern = starstar)) eqn:Ep.
  - apply bool_decide_eq_true in Ep as ->. split; [|done]. intros _. change (split_byte Separator starstar) with [starstar]. pose proof (split_byte_nonempty Separator name). destruct (split_byte Separator name); [done|]. apply path_below.
  - apply matchParts_path. intros p n _ Hn. rewrite Forall_forall in Hs. apply segMatch_stands; by apply Hs.
Qed.
End Segments.
