(* ===== verification/GlobProps.v ===== *)
(** * What the globs and ignore files of the tools promise

    Globs decide the paths their alternatives stand for, a glob that was
    validated is read to its end whatever the name, and an ignore stack answers
    by the last rule that matches, whatever was asked of it before. *)

From S2P Require Import Prelude GoText Glob GlobMatch.
From Stdlib Require Import Ascii.

Open Scope char_scope.
Open Scope Z_scope.

(** ** Definitions *)

(** A path is what one of the alternatives stands for. *)
Definition glob_stands (pattern name : text) : Prop :=
  exists p, p ∈ expandBraces pattern /\ path_matches segment_stands (split_byte Separator p) (split_byte Separator name).

(** The segments [segMatch] is given of a pattern, as [validateGlob] reads
    them. *)
Definition segment_of (pattern seg : text) : Prop := exists p, p ∈ expandBraces (ToSlash pattern) /\ seg ∈ split_byte Separator p.

(** *** Ignoring, without a cache *)

Section Spec.
Context {letters : Letters} {disk : Disk}.

Definition boundary_at (root dir : text) : bool := HasGit (abs_of root dir).

Definition file_patterns (root dir : text) : list ignorePattern :=
  match ReadFile (Join2 (abs_of root dir) (lit ".gitignore")) with Some data => parseGitignore data | None => [] end.

Definition nested (root baseRel rel : text) : bool := existsb (fun dir => strictly_below baseRel dir && boundary_at root dir) (ancestorDirs rel).

(** A rule with the path it is to match. *)
Definition rule : Type := text * ignorePattern.

Definition static_rules (s : ignoreStack) (abs rel : text) (src : ignoreSource) : list rule :=
  if st_boundaries s && negb (is_boundaryExempt src) && nested (st_root s) [] rel then []
  else match Rel (is_baseAbs src) abs with Some rts => (fun p => (ToSlash rts, p)) <$> is_pats src | None => [] end.

Definition file_rules (s : ignoreStack) (rel dir : text) : list rule :=
  if st_boundaries s && nested (st_root s) dir rel then [] else (fun p => (rel_to dir rel, p)) <$> file_patterns (st_root s) dir.

(** The rules of a path in the order of precedence, the lowest first. *)
Definition rules (s : ignoreStack) (abs rel : text) : list rule :=
  flat_map (static_rules s abs rel) (st_static s) ++ flat_map (file_rules s rel) (ancestorDirs rel).

Definition rule_matches (isDir : bool) (r : rule) : bool := gitignoreMatch r.2 r.1 isDir.

(** The last rule that matches decides. *)
Definition ignored_by_rules (s : ignoreStack) (q : text * text * bool) : bool :=
  let '(abs, rel, isDir) := q in
  bool_decide (Base rel = lit ".git") ||
  (st_useGitignore s && match list.last (List.filter (rule_matches isDir) (rules s abs rel)) with Some r => negb (ip_negated r.2) | None => false end).

(** A walk asks about one path after another. *)
Fixpoint answers (queries : list (text * text * bool)) (s : ignoreStack) : list bool :=
  match queries with
  | [] => []
  | (abs, rel, isDir) :: queries => let (v, s) := ignored abs rel isDir s in v :: answers queries s
  end.

(** What is cached is what is on the disk. *)
Definition coherent (s : ignoreStack) : Prop :=
  (forall dir v, st_gitDir s !! dir = Some v -> v = boundary_at (st_root s) dir) /\
  (forall dir pats, st_loaded s !! dir = Some pats -> pats = file_patterns (st_root s) dir).

(** The same stack but for the caches. *)
Definition same_rules (s s' : ignoreStack) : Prop :=
  st_root s' = st_root s /\ st_useGitignore s' = st_useGitignore s /\ st_boundaries s' = st_boundaries s /\ st_static s' = st_static s.

Definition kept (s s' : ignoreStack) : Prop := same_rules s s' /\ coherent s'.
End Spec.

(** ** Lemmas *)

Lemma kept_stack_refl `{Disk} s : coherent s -> kept s s.
Proof. by split. Qed.

Lemma kept_stack_trans `{Disk} s1 s2 s3 : kept s1 s2 -> kept s2 s3 -> kept s1 s3.
Proof. intros [(E1 & E2 & E3 & E4) _] [(F1 & F2 & F3 & F4) Hc]. split; [|done]. split_and!; by etransitivity. Qed.

Lemma strip_prefix p s : trim_prefix (p ++ s) p = s.
Proof. unfold trim_prefix. rewrite (proj2 (has_prefix_spec p (p ++ s))) by eauto. by rewrite drop_app_length. Qed.

Section Ignoring.
Context {letters : Letters} {disk : Disk}.

Lemma hasGitDir_kept dir s : coherent s -> exists s', hasGitDir dir s = (boundary_at (st_root s) dir, s') /\ kept s s'.
Proof.
  intros [H1 H2]. unfold hasGitDir. destruct (st_gitDir s !! dir) as [v|] eqn:E; eexists; (split; [|split]).
  - by rewrite (H1 _ _ E).
  - done.
  - done.
  - done.
  - done.
  - split; [|done]. cbn. intros d v. rewrite lookup_insert_Some. intros [[<- <-]|[_ Hd]]; [done|by apply H1].
Qed.

Lemma patternsFor_kept dir s : coherent s -> exists s', patternsFor dir s = (file_patterns (st_root s) dir, s') /\ kept s s'.
Proof.
  intros [H1 H2]. unfold patternsFor. destruct (st_loaded s !! dir) as [v|] eqn:E; eexists; (split; [|split]).
  - by rewrite (H2 _ _ E).
  - done.
  - done.
  - done.
  - done.
  - split; [done|]. cbn. intros d v. rewrite lookup_insert_Some. intros [[<- <-]|[_ Hd]]; [done|by apply H2].
Qed.

Lemma crosses_kept base dirs s : coherent s ->
  exists s', crosses base dirs s = (existsb (fun dir => strictly_below base dir && boundary_at (st_root s) dir) dirs, s') /\ kept s s'.
Proof.
  revert s. induction dirs as [|dir dirs IH]; intros s Hs; cbn [crosses existsb]; [exists s; by split|]. destruct (strictly_below base dir); cbn [andb orb].
  - destruct (hasGitDir_kept dir s Hs) as (s' & -> & Hk). destruct (boundary_at (st_root s) dir); cbn [orb]; [by exists s'|]. destruct (IH s') as (s2 & -> & Hk2); [apply Hk|].
    exists s2. rewrite (proj1 (proj1 Hk)). split; [done|by eapply kept_stack_trans].
  - apply (IH s Hs).
Qed.

Lemma nested_kept base rel s : coherent s -> exists s', crossesNestedBoundary base rel s = (nested (st_root s) base rel, s') /\ kept s s'.
Proof. apply crosses_kept. Qed.

(** Guarded by whether boundaries are respected. *)
Lemma guarded_kept (b : bool) base rel s : coherent s ->
  exists s', (if b then crossesNestedBoundary base rel s else (false, s)) = (b && nested (st_root s) base rel, s') /\ kept s s'.
Proof. intros Hs. destruct b; [by apply nested_kept|]. exists s. by split. Qed.

(** *** The last rule *)

Definition decide_by (isDir : bool) (l : list rule) (result : bool) : bool := foldl (fun result r => if rule_matches isDir r then negb (ip_negated r.2) else result) result l.

Lemma apply_patterns_rules pats rel isDir result : apply_patterns pats rel isDir result = decide_by isDir ((fun p => (rel, p)) <$> pats) result.
Proof. revert result. induction pats as [|p pats IH]; intros result; cbn; [done|]. apply IH. Qed.

Lemma decide_by_app isDir l1 l2 result : decide_by isDir (l1 ++ l2) result = decide_by isDir l2 (decide_by isDir l1 result).
Proof. apply foldl_app. Qed.

Lemma decide_by_last isDir l result :
  decide_by isDir l result = match list.last (List.filter (rule_matches isDir) l) with Some r => negb (ip_negated r.2) | None => result end.
Proof.
  induction l as [|r l IH] using rev_ind; [done|]. rewrite decide_by_app, List.filter_app. cbn. destruct (rule_matches isDir r); [by rewrite last_snoc|]. by rewrite app_nil_r.
Qed.

Lemma same_static s s' abs rel src : same_rules s s' -> static_rules s' abs rel src = static_rules s abs rel src.
Proof. intros (E1 & _ & E3 & _). unfold static_rules. by rewrite E1, E3. Qed.

Lemma same_file s s' rel dir : same_rules s s' -> file_rules s' rel dir = file_rules s rel dir.
Proof. intros (E1 & _ & E3 & _). unfold file_rules. by rewrite E1, E3. Qed.

Lemma ignored_static_rules sources abs rel isDir result s : coherent s ->
  exists s', ignored_static sources abs rel isDir result s = (decide_by isDir (flat_map (static_rules s abs rel) sources) result, s') /\ kept s s'.
Proof.
  revert result s. induction sources as [|src sources IH]; intros result s Hs; cbn [ignored_static flat_map]; [exists s; by split|].
  destruct (guarded_kept (st_boundaries s && negb (is_boundaryExempt src)) [] rel s Hs) as (s1 & -> & Hk).
  match goal with |- context [ignored_static sources abs rel isDir ?r s1] => destruct (IH r s1 ltac:(apply Hk)) as (s2 & -> & Hk2) end.
  exists s2. split; [|by eapply kept_stack_trans]. rewrite decide_by_app. f_equal. rewrite (flat_map_ext _ _ (fun x => same_static _ _ abs rel x (proj1 Hk))). f_equal.
  unfold static_rules. destruct (_ && _); [done|]. destruct (Rel _ _); [|done]. apply apply_patterns_rules.
Qed.

Lemma ignored_dirs_rules dirs rel isDir result s : coherent s ->
  exists s', ignored_dirs dirs rel isDir result s = (decide_by isDir (flat_map (file_rules s rel) dirs) result, s') /\ kept s s'.
Proof.
  revert result s. induction dirs as [|dir dirs IH]; intros result s Hs; cbn [ignored_dirs flat_map]; [exists s; by split|].
  destruct (guarded_kept (st_boundaries s) dir rel s Hs) as (s1 & -> & Hk). rewrite decide_by_app. unfold file_rules at 2. destruct (_ && _).
  - destruct (IH result s1 ltac:(apply Hk)) as (s2 & -> & Hk2). exists s2. rewrite (flat_map_ext _ _ (fun x => same_file _ _ rel x (proj1 Hk))). split; [done|by eapply kept_stack_trans].
  - destruct (patternsFor_kept dir s1 ltac:(apply Hk)) as (s2 & -> & Hk2). pose proof (kept_stack_trans _ _ _ Hk Hk2) as Hk3.
    match goal with |- context [ignored_dirs dirs rel isDir ?r s2] => destruct (IH r s2 ltac:(apply Hk2)) as (s3 & -> & Hk4) end.
    exists s3. rewrite (flat_map_ext _ _ (fun x => same_file _ _ rel x (proj1 Hk3))), apply_patterns_rules, (proj1 (proj1 Hk)). split; [done|by eapply kept_stack_trans].
Qed.

Lemma ignored_rules abs rel isDir s : coherent s -> exists s', ignored abs rel isDir s = (ignored_by_rules s (abs, rel, isDir), s') /\ kept s s'.
Proof.
  intros Hs. unfold ignored, ignored_by_rules, ToSlash. destruct (bool_decide (Base rel = _)); [exists s; by split|]. destruct (st_useGitignore s); [|exists s; by split]. cbn [negb orb andb].
  destruct (ignored_static_rules (st_static s) abs rel isDir false s Hs) as (s1 & -> & Hk). 
  match goal with |- context [ignored_dirs _ rel isDir ?r s1] => destruct (ignored_dirs_rules (ancestorDirs rel) rel isDir r s1 ltac:(apply Hk)) as (s2 & -> & Hk2) end.
  exists s2. split; [|by eapply kept_stack_trans]. rewrite (flat_map_ext _ _ (fun x => same_file _ _ rel x (proj1 Hk))), <- decide_by_app. unfold rules. by rewrite decide_by_last.
Qed.

Lemma same_ignored s s' q : same_rules s s' -> ignored_by_rules s' q = ignored_by_rules s q.
Proof.
  intros Hsame. destruct q as [[a r] d]. unfold ignored_by_rules, rules. pose proof Hsame as (_ & E2 & _ & E4).
  by rewrite E2, E4, (flat_map_ext _ _ (fun x => same_file _ _ r x Hsame)), (flat_map_ext _ _ (fun x => same_static _ _ a r x Hsame)).
Qed.

Lemma answers_rules queries s : coherent s -> answers queries s = ignored_by_rules s <$> queries.
Proof.
  revert s. induction queries as [|[[abs rel] isDir] queries IH]; intros s Hs; cbn [answers]; [done|]. destruct (ignored_rules abs rel isDir s Hs) as (s' & -> & (Hsame & Hs')). rewrite IH by done. cbn. f_equal.
  apply list_fmap_ext. intros _ q _. by apply same_ignored.
Qed.
End Ignoring.

(** *** Below a directory *)

Section Below.
Context {letters : Letters}.

Lemma split_slash d x : split_byte Separator (d ++ Separator :: x) = split_byte Separator d ++ split_byte Separator x.
Proof. apply split_byte_app. Qed.

Lemma ancestor_cons pattern prefix seg segs : segs <> [] ->
  ancestor_matches pattern prefix (seg :: segs) =
  globMatchPath pattern (if is_empty prefix then seg else prefix ++ Separator :: seg) false || ancestor_matches pattern (if is_empty prefix then seg else prefix ++ Separator :: seg) segs.
Proof. by destruct segs. Qed.

(** A path is among the prefixes of what is below it. *)
Lemma ancestor_below pattern prefix segs below : segs <> [] -> below <> [] -> (prefix = [] -> List.hd [] segs <> []) ->
  ancestor_matches pattern prefix (segs ++ below) = true <->
  (ancestor_matches pattern prefix segs || globMatchPath pattern (if is_empty prefix then join [Separator] segs else prefix ++ Separator :: join [Separator] segs) false) || ancestor_matches pattern (if is_empty prefix then join [Separator] segs else prefix ++ Separator :: join [Separator] segs) below = true.
Proof.
  intros Hs Hb. revert prefix. induction segs as [|seg segs IH]; intros prefix Hp; [done|]. destruct segs as [|seg' segs].
  - cbn [app]. by rewrite ancestor_cons.
  - cbn [app]. change (seg' :: segs ++ below) with ((seg' :: segs) ++ below). rewrite !ancestor_cons by done. set (pre := if is_empty prefix then seg else prefix ++ Separator :: seg).
    assert (pre <> []) as Hpre by (unfold pre; destruct prefix; cbn; [by apply Hp|done]).
    rewrite orb_true_iff, IH by done.
    assert ((if is_empty prefix then join [Separator] (seg :: seg' :: segs) else prefix ++ Separator :: join [Separator] (seg :: seg' :: segs)) = (if is_empty pre then join [Separator] (seg' :: segs) else pre ++ Separator :: join [Separator] (seg' :: segs))) as ->.
    { unfold pre. destruct prefix as [|c prefix]; cbn [is_empty]; [destruct seg; [by destruct (Hp eq_refl)|done]|]. cbn. by rewrite <- ?app_assoc. }
    rewrite !orb_true_iff. tauto.
Qed.

Lemma component_below p segs below isDir : below <> [] -> component_matches p true segs = true -> component_matches p isDir (segs ++ below) = true.
Proof.
  intros Hb. induction segs as [|seg segs IH]; [done|]. cbn [app component_matches]. destruct (segMatch (ip_pattern p) seg false); [|exact IH]. intros _. by destruct segs; [destruct below|].
Qed.

Lemma split_head d : has_prefix [Separator] d = false -> d <> [] -> List.hd [] (split_byte Separator d) <> [].
Proof.
  destruct d as [|c d]; [done|]. cbn [has_prefix split_byte]. intros Hc _. destruct (Ascii.eqb_spec c Separator) as [->|]; [done|]. by destruct (split_byte Separator d).
Qed.

Lemma anchored_below p d x isDir : ip_anchored p = true -> d <> [] -> has_prefix [Separator] d = false -> gitignoreMatch p d true = true ->
  gitignoreMatch p (d ++ Separator :: x) isDir = negb (ip_dirOnly p && negb isDir && globMatchPath (ip_pattern p) (d ++ Separator :: x) false).
Proof.
  intros Ha Hd Hrel. unfold gitignoreMatch, ToSlash. rewrite Ha. intros Hm. destruct (globMatchPath (ip_pattern p) (d ++ Separator :: x) false); [by destruct (ip_dirOnly p), isDir|].
  rewrite andb_false_r. cbn [negb]. rewrite split_slash. apply ancestor_below; [apply split_byte_nonempty..|intros _; by apply split_head|]. cbn [is_empty]. rewrite join_split, !orb_true_iff.
  left. destruct (globMatchPath (ip_pattern p) d false); [by right|by left].
Qed.
End Below.

(** *** Globs *)

Lemma segment_read seg name : Match (negation seg) name <> None <-> match Match (negation seg) [] with Some _ => true | None => false end = true.
Proof. rewrite !Match_chunks. by destruct (chunks (negation seg)). Qed.

Lemma braces_expanded pre p : braces pre = 0%nat -> expandBraces (pre ++ p) = (fun s => pre ++ s) <$> expandBraces p.
Proof.
  intros Hpre. induction p as [p IH] using (induction_ltof1 _ braces); unfold ltof in IH. rewrite (expandBraces_step p), expandBraces_step.
  assert (forall q, find_byte "{" (pre ++ q) = (fun i => (length pre + i)%nat) <$> find_byte "{" q) as Hfind.
  { clear IH. induction pre as [|c pre IHp]; intros q; cbn [app find_byte length Nat.add]; [by destruct (find_byte "{" q)|]. rewrite braces_cons in Hpre.
    destruct (Ascii.eqb_spec c "{") as [->|]; [done|]. rewrite IHp by lia. by destruct (find_byte "{" q). }
  rewrite Hfind. destruct (find_byte "{" p) as [start|] eqn:E1; cbn [fmap option_fmap option_map]; [|done].
  replace (drop (S (length pre + start)) (pre ++ p)) with (drop (S start) p) by (by rewrite <- Nat.add_succ_r, <- drop_drop, drop_app_length).
  destruct (close_brace 1 (drop (S start) p)) as [[inner rest]|] eqn:E2; [|done]. rewrite flat_map_fmap, !flat_map_concat_map. f_equal. apply map_ext_in. intros a Ha%list_elem_of_In.
  rewrite <- IH by (by eapply expand_fewer). by rewrite take_app_add, <- app_assoc.
Qed.

Lemma across_tail seg ps ns : ps <> [] -> path_matches seg (starstar :: ps) ns <-> exists skipped tail, ns = skipped ++ tail /\ path_matches seg ps tail.
Proof.
  intros Hps. split.
  - inversion 1; subst; [done|done|]. eauto.
  - intros (skipped & tail & -> & H). destruct ps; [done|]. by constructor.
Qed.

Section Fd.
Context {letters : Letters}.

Lemma globMatchPath_stands pattern name : ascii_only name -> globMatchPath pattern name false = true <-> glob_stands pattern name.
Proof.
  intros Ha. unfold globMatchPath, glob_stands. rewrite existsb_exists. split; intros (p & Hp & H); exists p; (split; [by apply list_elem_of_In|]); by apply matchGlobOne_path.
Qed.
End Fd.

Lemma ascii_split path : ascii_only path -> Forall ascii_only (split_byte Separator path).
Proof. intros H. eapply Forall_impl; [by apply split_segments|]. by intros x [_ ?]. Qed.

Lemma Base_ascii path : ascii_only path -> ascii_only (Base path).
Proof.
  assert (ascii_only (lit ".") /\ ascii_only [Separator]) as [Hdot Hsep] by (split; by repeat constructor).
  intros H. destruct path as [|c r]; [done|]. cbn [Base]. destruct (drop_tail_prefix (Ascii.eqb Separator) (c :: r)) as (t & Ht & _). rewrite Ht in H. apply Forall_app in H as [H _].
  destruct (drop_tail _ _) as [|x p]; [done|]. apply ascii_split in H. pose proof (split_byte_nonempty Separator (x :: p)) as Hne. rewrite Forall_forall in H. apply H, list_elem_of_In.
  destruct (exists_last Hne) as (l & a & E). rewrite E, last_last. apply in_or_app. right. by left.
Qed.

(** ** Properties *)

(** C20: whatever paths a walk asks about and in whatever order, each is ignored
    or not by the last rule that matches it: the rules of the global excludes,
    of the repository and of the directories above the root, then those of the
    directories from the root down, less those a nested repository cuts off,
    each against the path from its own directory.  What is cached on the way
    never shows. *)
Theorem ignored_by_last_rule {letters : Letters} {disk : Disk} excludes root requireGit respectNestedRepos queries :
  answers queries (newIgnoreStack excludes root requireGit respectNestedRepos) =
  ignored_by_rules (newIgnoreStack excludes root requireGit respectNestedRepos) <$> queries.
Proof. by apply answers_rules. Qed.

(** C31: a rule that matches a directory matches everything below it, with one
    exception: an anchored rule for directories that matches the path of a file
    itself does not go on to the directories above it. *)
Theorem below_ignored {letters : Letters} p d x isDir : d <> [] -> has_prefix [Separator] d = false -> gitignoreMatch p d true = true ->
  gitignoreMatch p (d ++ Separator :: x) isDir =
  negb (ip_anchored p && ip_dirOnly p && negb isDir && globMatchPath (ip_pattern p) (d ++ Separator :: x) false).
Proof.
  intros Hd Hrel Hm. destruct (ip_anchored p) eqn:Ea; cbn [andb]; [by apply anchored_below|]. revert Hm. unfold gitignoreMatch, ToSlash. rewrite Ea, split_slash. cbn [negb].
  apply component_below, split_byte_nonempty.
Qed.

(** C32: for a path of ASCII characters, a glob of a search decides what it
    stands for: without a slash the base
    of the path, else the path from the root, is matched by one of the
    alternatives, segment by segment, [**] standing for any segments and at the
    end for one at least, stars and classes within a segment. *)
Theorem search_glob_decides {letters : Letters} pattern rel : ascii_only rel ->
  matchRgGlob pattern rel = true <->
  if contains pattern (lit "/") then glob_stands (trim_prefix pattern (lit "/")) rel else glob_stands pattern (Base rel).
Proof.
  intros Ha. unfold matchRgGlob, ToSlash. destruct (contains pattern (lit "/")); cbn [negb]; apply globMatchPath_stands; [done|by apply Base_ascii].
Qed.

(** A glob with a slash that does not start at the root finds a file by a
    tail of its absolute path: whatever directories are above what one of the
    alternatives stands for. *)
Theorem find_glob_tail {letters : Letters} pattern rel abs : ascii_only abs -> patternHasUpper pattern = true -> contains pattern (lit "/") = true ->
  has_prefix (lit "/") pattern = false -> has_prefix (lit "**/") pattern = false ->
  matchFdGlob pattern rel abs = true <->
  exists p above tail, p ∈ expandBraces pattern /\ split_byte Separator abs = above ++ tail /\ path_matches segment_stands (split_byte Separator p) tail.
Proof.
  intros Ha Hup Hc H1 H2. unfold matchFdGlob, ToSlash. rewrite Hup, Hc, H1, H2. rewrite bool_decide_eq_false_2 by (intros ->; done). cbn [negb andb]. rewrite globMatchPath_stands by done.
  unfold glob_stands. rewrite braces_expanded by done. split.
  - intros (q & (p & -> & Hp)%list_elem_of_fmap & Hq). change (lit "**/" ++ p) with (starstar ++ Separator :: p) in Hq. rewrite split_slash in Hq.
    apply across_tail in Hq as (above & tail & ? & ?); [|apply split_byte_nonempty]. by exists p, above, tail.
  - intros (p & above & tail & Hp & E & H). exists (lit "**/" ++ p). split; [by apply list_elem_of_fmap_2|]. change (lit "**/" ++ p) with (starstar ++ Separator :: p). rewrite split_slash.
    apply across_tail; [apply split_byte_nonempty|]. by exists above, tail.
Qed.

(** A glob passes validation exactly when no segment of any of its
    alternatives is malformed, whatever name it is matched against: the search
    itself, which drops the error, then drops none. *)
Theorem validated_never_malformed pattern :
  validateGlob pattern = true <-> forall seg name, segment_of pattern seg -> Match (negation seg) name <> None.
Proof.
  unfold validateGlob, segment_of. rewrite forallb_forall. split.
  - intros H seg name (p & Hp & Hseg). apply segment_read. specialize (H p (proj1 (list_elem_of_In _ _) Hp)). rewrite forallb_forall in H. by apply H, list_elem_of_In.
  - intros H p Hp. apply forallb_forall. intros seg Hseg. apply (segment_read seg []), H. exists p. by split; apply list_elem_of_In.
Qed.

(** The braces of a glob, nested or not, stand for every choice of one
    alternative from each group, in the order they are written; a glob with no
    brace stands for itself. *)
Theorem braces_expand p : plain false p = true -> expandBraces (print p) = denote p.
Proof. intros Hp. apply expand_denote; [done|lia]. Qed.

(** ** Witnesses *)

Module Sample.

(** The letters of ASCII. *)
Definition lower (c : ascii) : ascii := if in_range 65 90 (code c) then byte (code c + 32) else c.

#[export] Instance ascii_letters : Letters := { ToLower := fmap lower; IsUpper := in_range 65 90 }.

Definition rule_dirs : ignorePattern := MkIgnore (lit "build/**") true true false.
Definition rule_names : ignorePattern := MkIgnore (lit "node_modules") false true false.

(** [{a,b{c,d}}*.go] *)
Definition nested_groups : pat := PGroup (AMore (PChar "a" PEnd) (AOne (PChar "b" (PGroup (AMore (PChar "c" PEnd) (AOne (PChar "d" PEnd))) PEnd)))) (chars (lit "*.go") PEnd).

End Sample.

Import Sample.

(** The exception of the rule for directories is real. *)
Example file_escapes : gitignoreMatch rule_dirs (lit "build/a") true = true /\ gitignoreMatch rule_dirs (lit "build/a/b.o") false = false.
Proof. by vm_compute. Qed.

Lemma below_ignored_witness :
  gitignoreMatch rule_names (lit "web/node_modules/x/y.js") false = true /\ gitignoreMatch rule_dirs (lit "build/a/b.o") false = false.
Proof.
  split.
  - exact (below_ignored rule_names (lit "web/node_modules") (lit "x/y.js") false ltac:(discriminate) eq_refl eq_refl).
  - exact (below_ignored rule_dirs (lit "build/a") (lit "b.o") false ltac:(discriminate) eq_refl eq_refl).
Defined.

Lemma search_glob_decides_witness : glob_stands (lit "src/**/*.{go,md}") (lit "src/internal/pi/doc.go") /\ ~ glob_stands (lit "src/**/*.{go,md}") (lit "lib/doc.go").
Proof.
  split.
  - refine (proj1 (search_glob_decides (lit "/src/**/*.{go,md}") (lit "src/internal/pi/doc.go") _) _); [by repeat constructor|by vm_compute].
  - intros H. refine (eq_true_false_abs _ (proj2 (search_glob_decides (lit "/src/**/*.{go,md}") (lit "lib/doc.go") _) H) _); [by repeat constructor|by vm_compute].
Defined.

Lemma find_glob_tail_witness : exists p above tail, p ∈ expandBraces (lit "pi/**/{README,doc}.*") /\ split_byte Separator (lit "/home/src/pi/a/README.md") = above ++ tail /\
  path_matches segment_stands (split_byte Separator p) tail.
Proof.
  refine (proj1 (find_glob_tail (lit "pi/**/{README,doc}.*") (lit "a/README.md") (lit "/home/src/pi/a/README.md") _ eq_refl eq_refl eq_refl eq_refl) _); [by repeat constructor|by vm_compute].
Defined.

Lemma braces_expand_witness : expandBraces (lit "{a,b{c,d}}*.go") = [lit "a*.go"; lit "bc*.go"; lit "bd*.go"].
Proof. exact (braces_expand nested_groups eq_refl). Defined.
