(* ===== verification/ReadTools.v ===== *)
(** * The tools that read and search ([internal/pi/readtools])

    [read] shows a text file in pages, [ls] a directory, [find] the paths a glob
    matches and [grep] the lines a pattern matches, below a directory and
    without what its ignore files hide.  A directory tree is what [WalkDir]
    finds on the disk; the compiled pattern of [grep] is the lines it matches,
    and the collation of [ls] is of golang.org/x/text. *)

From S2P Require Import Prelude GoText Json GoValue Observation Truncate Glob.
From Stdlib Require Import Ascii SpecFloat.

Open Scope char_scope.
Open Scope Z_scope.

(** ** Definitions *)

(** *** Arguments ([args.go]) *)

(** [json.Number.Int64] *)
Definition parse_int64 (s : text) : option Z :=
  let '(neg, ds) := match s with c :: r => if Ascii.eqb c "-" then (true, r) else if Ascii.eqb c "+" then (false, r) else (false, s) | [] => (false, s) end in
  if is_empty ds || negb (forallb is_digit ds) then None
  else
    let v := if neg then - dec_value ds else dec_value ds in
    if in_range minint maxint v then Some v else None.

Definition argStr (params : entries) (key : string) : text := match map_get params key with Some (VString s) => lit s | _ => [] end.

Definition argInt (params : entries) (key : string) : option Z :=
  match map_get params key with
  | Some (VFloat64 f) => Some (int64_of f)
  | Some (VInt n) | Some (VInt64 n) => Some n
  | Some (VNumber literal) => parse_int64 literal
  | _ => None
  end.

Definition argBool (params : entries) (key : string) : bool := match map_get params key with Some (VBool b) => b | _ => false end.

Definition grepDefaultLimit : Z := 100.
Definition findDefaultLimit : Z := 1000.
Definition lsDefaultLimit : Z := 500.

(** *** Images ([mime.go]) *)

Definition byteAt (buf : text) (i : Z) : Z := match buf !! Z.to_nat i with Some c => code c | None => 0 end.

Definition readUint16LE (buf : text) (offset : Z) : Z := byteAt buf offset + Z.shiftl (byteAt buf (offset + 1)) 8.
Definition readUint32LE (buf : text) (offset : Z) : Z :=
  byteAt buf offset + Z.shiftl (byteAt buf (offset + 1)) 8 + Z.shiftl (byteAt buf (offset + 2)) 16 + byteAt buf (offset + 3) * 0x1000000.
Definition readUint32BE (buf : text) (offset : Z) : Z :=
  byteAt buf offset * 0x1000000 + Z.shiftl (byteAt buf (offset + 1)) 16 + Z.shiftl (byteAt buf (offset + 2)) 8 + byteAt buf (offset + 3).

(** [startsWithASCII]; [bytesStartWith] is the case of offset 0. *)
Definition startsWithASCII (buf : text) (offset : Z) (s : text) : bool :=
  if len buf <? offset + len s then false else has_prefix s (drop (Z.to_nat offset) buf).
Definition bytesStartWith (buf prefix : text) : bool := startsWithASCII buf 0 prefix.

Definition pngSignature : text := byte <$> [0x89; 0x50; 0x4e; 0x47; 0x0d; 0x0a; 0x1a; 0x0a].

Definition isPNG (buf : text) : bool := (16 <=? len buf) && (readUint32BE buf (len pngSignature) =? 13) && startsWithASCII buf 12 (lit "IHDR").

(** The loop of [isAnimatedPNG]; the offset grows by twelve at least. *)
Fixpoint png_chunks (fuel : nat) (buf : text) (offset : Z) : bool :=
  match fuel with
  | O => false
  | S fuel =>
      if offset + 8 <=? len buf then
        let chunkLength := readUint32BE buf offset in
        if startsWithASCII buf (offset + 4) (lit "acTL") then true
        else if startsWithASCII buf (offset + 4) (lit "IDAT") then false
        else
          let nextOffset := offset + 8 + chunkLength + 4 in
          if (nextOffset <=? offset) || (len buf <? nextOffset) then false else png_chunks fuel buf nextOffset
      else false
  end.

Definition isAnimatedPNG (buf : text) : bool := png_chunks (length buf) buf (len pngSignature).

Definition isBMP (buf : text) : bool :=
  if len buf <? 26 then false
  else
    let declaredFileSize := readUint32LE buf 2 in
    let pixelDataOffset := readUint32LE buf 10 in
    let dibHeaderSize := readUint32LE buf 14 in
    if negb (declaredFileSize =? 0) && (declaredFileSize <? 26) then false
    else if pixelDataOffset <? 14 + dibHeaderSize then false
    else if negb (declaredFileSize =? 0) && (declaredFileSize <=? pixelDataOffset) then false
    else
      match
        (if dibHeaderSize =? 12 then Some (readUint16LE buf 22, readUint16LE buf 24)
         else if in_range 40 124 dibHeaderSize then (if len buf <? 30 then None else Some (readUint16LE buf 26, readUint16LE buf 28))
         else None)
      with
      | None => false
      | Some (colorPlanes, bitsPerPixel) => (colorPlanes =? 1) && existsb (Z.eqb bitsPerPixel) [1; 4; 8; 16; 24; 32]
      end.

(** The empty string is no supported image. *)
Definition detectSupportedImageMimeType (buf : text) : text :=
  if bytesStartWith buf (byte <$> [0xff; 0xd8; 0xff]) then
    (if (3 <? len buf) && (byteAt buf 3 =? 0xf7) then [] else lit "image/jpeg")
  else if bytesStartWith buf pngSignature then
    (if isPNG buf && negb (isAnimatedPNG buf) then lit "image/png" else [])
  else if startsWithASCII buf 0 (lit "GIF87a") || startsWithASCII buf 0 (lit "GIF89a") then lit "image/gif"
  else if startsWithASCII buf 0 (lit "RIFF") && startsWithASCII buf 8 (lit "WEBP") then lit "image/webp"
  else if startsWithASCII buf 0 (lit "BM") && isBMP buf then lit "image/bmp"
  else [].

Definition imageTypeSniffBytes : Z := 4100.

(** What a file holds, [None] when it cannot be read. *)
Definition detectSupportedImageMimeTypeFromFile (file : option text) : text :=
  match file with Some data => detectSupportedImageMimeType (take (Z.to_nat imageTypeSniffBytes) data) | None => [] end.

(** *** [read] ([read.go]) *)

Inductive read_error : Type :=
| ReadFailed (message : text)
| OffsetBeyondEOFError (Offset TotalLines_ : Z).

(** [OffsetBeyondEOFError.Error] *)
Definition error_text (e : read_error) : text :=
  match e with
  | ReadFailed m => m
  | OffsetBeyondEOFError o n => lit "Offset " ++ itoa o ++ lit " is beyond end of file (" ++ itoa n ++ lit " lines total)"
  end.

(** What follows the content; [next] is the offset to go on from. *)
Inductive footer : Type :=
| Complete
| LineTooLong (line size : Z)
| Shown (by_lines : bool) (first last total next : Z)
| MoreLines (remaining next : Z).

Definition footer_text (displayPath : text) (f : footer) : text :=
  match f with
  | Complete => []
  | LineTooLong line size =>
      lit "[Line " ++ itoa line ++ lit " is " ++ FormatSize size ++ lit ", exceeds " ++ FormatSize DefaultMaxBytes ++ lit " limit. Use bash: sed -n '" ++ itoa line ++ lit "p' " ++
      displayPath ++ lit " | head -c " ++ itoa DefaultMaxBytes ++ lit "]"
  | Shown by_lines first last total next =>
      [newline; newline] ++ lit "[Showing lines " ++ itoa first ++ lit "-" ++ itoa last ++ lit " of " ++ itoa total ++
      (if by_lines then [] else lit " (" ++ FormatSize DefaultMaxBytes ++ lit " limit)") ++ lit ". Use offset=" ++ itoa next ++ lit " to continue.]"
  | MoreLines remaining next => [newline; newline] ++ lit "[" ++ itoa remaining ++ lit " more lines in file. Use offset=" ++ itoa next ++ lit " to continue.]"
  end.

(** [allLines[start:end]] *)
Definition line_slice (l : list text) (start end_ : Z) : list text := take (Z.to_nat end_ - Z.to_nat start) (drop (Z.to_nat start) l).

(** The lines selected, and the number of lines of the user's limit. *)
Definition select (allLines : list text) (startLine : Z) (limit : option Z) : text * Z :=
  match limit with
  | Some limit =>
      let endLine := Z.min (wrap (startLine + limit)) (len allLines) in
      let effEnd := if endLine <? 0 then Z.max (len allLines + endLine) 0 else endLine in
      let effEnd := if effEnd <? startLine then startLine else effEnd in
      (join [newline] (line_slice allLines startLine effEnd), wrap (endLine - startLine))
  | None => (join [newline] (drop (Z.to_nat startLine) allLines), 0)
  end.

Record page : Type := MkPage { pg_content : text; pg_footer : footer; pg_details : option Result }.

Definition start_line (offset : option Z) : Z := match offset with Some o => if 0 <? o then o - 1 else 0 | None => 0 end.

(** A page of the lines of a file. *)
Definition read_page (allLines : list text) (offset limit : option Z) : result read_error page :=
  let startLine := start_line offset in
  let display := startLine + 1 in
  if len allLines <=? startLine then Err (OffsetBeyondEOFError (default 0 offset) (len allLines))
  else
    let '(selected, userLimitedLines) := select allLines startLine limit in
    let tr := TruncateHead selected {| OptMaxLines := None; OptMaxBytes := None |} in
    if FirstLineExceedsLimit tr then
      Ok (MkPage [] (LineTooLong display (match allLines !! Z.to_nat startLine with Some l => len l | None => 0 end)) (Some tr))
    else if Truncated tr then
      let last := display + OutputLines tr - 1 in
      Ok (MkPage (Content tr) (Shown (match TruncBy tr with Some ByLines => true | _ => false end) display last (len allLines) (last + 1)) (Some tr))
    else if match limit with Some _ => wrap (startLine + userLimitedLines) <? len allLines | None => false end then
      Ok (MkPage (Content tr) (MoreLines (wrap (len allLines - wrap (startLine + userLimitedLines))) (wrap (wrap (startLine + userLimitedLines) + 1))) None)
    else Ok (MkPage (Content tr) Complete None).

Definition page_text (displayPath : text) (p : page) : text := pg_content p ++ footer_text displayPath (pg_footer p).

(** [readText], with what reading the file gave. *)
Definition readText (file : text + text) (params : entries) (displayPath : text) : result read_error (text * option Result) :=
  match file with
  | inr e => Err (ReadFailed e)
  | inl data =>
      p ← read_page (split_byte newline data) (argInt params "offset") (argInt params "limit");
      Ok (page_text displayPath p, pg_details p)
  end.

(** *** Notices *)

(** Text cut to the limit of bytes, with what is said about it. *)
Definition cut_bytes (lines : list text) : Result := TruncateHead (join [newline] lines) {| OptMaxLines := Some maxint; OptMaxBytes := None |}.

Definition with_notices (content : text) (notices : list text) : text :=
  match notices with [] => content | _ => content ++ [newline; newline] ++ lit "[" ++ join (lit ". ") notices ++ lit "]" end.

Definition bytes_notice (tr : Result) : list text := if Truncated tr then [FormatSize DefaultMaxBytes ++ lit " limit reached"] else [].

Definition limit_notice (reached : bool) (limit : Z) (what rest : text) : list text :=
  if reached then [itoa limit ++ lit " " ++ what ++ lit " limit reached. Use limit=" ++ itoa (wrap (limit * 2)) ++ lit " for more" ++ rest] else [].

(** A result with the fields of its details: none when the details are nil. *)
Record output (D : Type) : Type := MkOutput { out_text : text; out_details : option D }.
Arguments MkOutput {D}.
Arguments out_text {D}.
Arguments out_details {D}.

Definition textResult {D} (t : text) : output D := MkOutput t None.

(** The fields of [LsToolDetails] and [FindToolDetails]. *)
Record limited : Type := MkLimited { li_Truncation : option Result; li_LimitReached : option Z }.

Definition limited_output (results : list text) (reached : bool) (limit : Z) (what rest : text) : output limited :=
  let tr := cut_bytes results in
  let notices := limit_notice reached limit what rest ++ bytes_notice tr in
  MkOutput (with_notices (Content tr) notices)
    (if reached || Truncated tr then Some (MkLimited (if Truncated tr then Some tr else None) (if reached then Some limit else None)) else None).

(** *** [ls] ([ls.go]) *)

Inductive tool_error : Type :=
| PathNotFound (path : text)
| NotADirectory (path : text)
| CannotReadDirectory (message : text)
| BadGlob.

(** What the operations of [ls] give: whether a path exists, whether it is a
    directory, and the names of a directory; an error of [Exists] is a path
    that does not exist. *)
Class LsOperations : Type := { Exists : text -> bool; Stat : text -> option bool; Readdir : text -> text + list text }.

(** The collation of the names in lower case. *)
Class Collation : Type := { CompareString : text -> text -> Z }.

Section Ls.
Context {letters : Letters} {collation : Collation}.

Definition name_less (a b : text) : bool := CompareString (ToLower a) (ToLower b) <? 0.

(** [sort.SliceStable] *)
Fixpoint insert_stable (x : text) (l : list text) : list text :=
  match l with
  | [] => [x]
  | y :: r => if name_less y x then y :: insert_stable x r else x :: y :: r
  end.

Definition sort_names (l : list text) : list text := foldr insert_stable [] l.

Context {ops : LsOperations}.

(** The entries listed, and whether the limit cut some off. *)
Fixpoint list_entries (dir : text) (limit : Z) (results : list text) (names : list text) : list text * bool :=
  match names with
  | [] => (results, false)
  | name :: names =>
      if limit <=? len results then (results, true)
      else
        match Stat (Join2 dir name) with
        | None => list_entries dir limit results names
        | Some isDir => list_entries dir limit (results ++ [name ++ if isDir then lit "/" else []]) names
        end
  end.

Definition ls (dir : text) (params : entries) : result tool_error (output limited) :=
  let limit := default lsDefaultLimit (argInt params "limit") in
  if negb (Exists dir) then Err (PathNotFound dir)
  else
    match Stat dir with
    | None => Err (PathNotFound dir)
    | Some false => Err (NotADirectory dir)
    | Some true =>
        match Readdir dir with
        | inl e => Err (CannotReadDirectory e)
        | inr names =>
            let (results, reached) := list_entries dir limit [] (sort_names names) in
            match results with
            | [] => Ok (textResult (lit "(empty directory)"))
            | _ => Ok (limited_output results reached limit (lit "entries") [])
            end
        end
    end.
End Ls.

(** *** Reading on *)

(** The offset a page says to go on from. *)
Definition goes_on (f : footer) : option Z := match f with Shown _ _ _ _ next | MoreLines _ next => Some next | Complete | LineTooLong _ _ => None end.

(** The contents of the pages from an offset, each read at the offset the one
    before says. *)
Fixpoint read_on (fuel : nat) (allLines : list text) (offset limit : option Z) : result read_error (list text) :=
  match fuel with
  | O => Ok []
  | S fuel =>
      p ← read_page allLines offset limit;
      match goes_on (pg_footer p) with
      | None => Ok [pg_content p]
      | Some next => rest ← read_on fuel allLines (Some next) limit; Ok (pg_content p :: rest)
      end
  end.

(** A chunk of a PNG file reached from another over chunks that are neither
    pixels nor an animation and end within the file. *)
Inductive leads (buf : text) : Z -> Z -> Prop :=
| leads_here o : leads buf o o
| leads_over o o' : startsWithASCII buf (o + 4) (lit "acTL") = false -> startsWithASCII buf (o + 4) (lit "IDAT") = false ->
    o + 8 + readUint32BE buf o + 4 <= len buf -> leads buf (o + 8 + readUint32BE buf o + 4) o' -> leads buf o o'.

(** An animation is announced before any pixels. *)
Definition announces_animation (buf : text) : Prop := exists o, leads buf (len pngSignature) o /\ o + 8 <= len buf /\ startsWithASCII buf (o + 4) (lit "acTL") = true.

(** ** Lemmas *)

Lemma shiftl_nonneg a n : 0 <= a -> 0 <= Z.shiftl a n.
Proof. intros. by apply Z.shiftl_nonneg. Qed.

Lemma byteAt_nonneg buf i : 0 <= byteAt buf i.
Proof. unfold byteAt. destruct (buf !! Z.to_nat i); [|done]. apply code_bound. Qed.

Lemma readUint32BE_nonneg buf i : 0 <= readUint32BE buf i.
Proof.
  unfold readUint32BE. pose proof (byteAt_nonneg buf i). pose proof (byteAt_nonneg buf (i + 3)).
  pose proof (shiftl_nonneg _ 16 (byteAt_nonneg buf (i + 1))). pose proof (shiftl_nonneg _ 8 (byteAt_nonneg buf (i + 2))). lia.
Qed.

Lemma png_chunks_leads fuel buf o : len buf < o + 8 + Z.of_nat fuel ->
  png_chunks fuel buf o = true <-> exists o', leads buf o o' /\ o' + 8 <= len buf /\ startsWithASCII buf (o' + 4) (lit "acTL") = true.
Proof.
  revert o. induction fuel as [|fuel IH]; intros o Hf; cbn [png_chunks].
  - split; [done|]. intros (o' & Hl & Hb & Ha). exfalso. revert Hf. clear -Hl Hb. induction Hl as [o|o o' _ _ H _ IH]; intros; [lia|]. pose proof (readUint32BE_nonneg buf o). apply IH; lia.
  - destruct (Z.leb_spec (o + 8) (len buf)) as [Hle|Hgt].
    + pose proof (readUint32BE_nonneg buf o). destruct (startsWithASCII buf (o + 4) (lit "acTL")) eqn:Ea; [split; [intros _; exists o; by split; [constructor|]|done]|].
      destruct (startsWithASCII buf (o + 4) (lit "IDAT")) eqn:Ed; [split; [done|]; intros (o' & Hl & _ & Hat); inversion Hl; subst; congruence|].
      destruct (Z.leb_spec (o + 8 + readUint32BE buf o + 4) o); [lia|]. destruct (Z.ltb_spec (len buf) (o + 8 + readUint32BE buf o + 4)); cbn [orb].
      * split; [done|]. intros (o' & Hl & Hb & Hat). inversion Hl; subst; [congruence|lia].
      * rewrite IH by lia. split; intros (o' & Hl & Hb & Hat); exists o'; (split; [|done]); [by apply leads_over|]. by inversion Hl; subst; [congruence|].
    + split; [done|]. intros (o' & Hl & Hb & Hat). exfalso. inversion Hl; subst; [lia|]. pose proof (readUint32BE_nonneg buf o). lia.
Qed.

(** *** Pages *)

Definition no_options : Options := {| OptMaxLines := None; OptMaxBytes := None |}.

(** Lines joined and counted again are the lines, but for a last empty one. *)
Lemma counted_lines (l : list text) : l <> [] -> Forall (fun x => newline ∉ x) l -> exists e, l = splitLinesForCounting (join [newline] l) ++ e.
Proof.
  intros Hne H. pose proof (split_join newline l Hne H) as Hs. unfold splitLinesForCounting. destruct (join [newline] l) as [|c s]; [by exists l|].
  rewrite Hs. destruct (has_suffix [newline] (c :: s)); [|exists []; by rewrite app_nil_r]. exists (drop (length l - 1) l). by rewrite take_drop.
Qed.

(** A page of short lines is whole or ends between two of them. *)
Lemma head_page L : L <> [] -> Forall (fun x => newline ∉ x) L -> Forall (fun x => len x <= DefaultMaxBytes) L ->
  let tr := TruncateHead (join [newline] L) no_options in
  FirstLineExceedsLimit tr = false /\
  if Truncated tr then exists k, (1 <= k < length L)%nat /\ Content tr = join [newline] (take k L) /\ OutputLines tr = Z.of_nat k else Content tr = join [newline] L.
Proof.
  intros Hne Hn Hb tr. destruct (counted_lines L Hne Hn) as (e & HL).
  destruct (TruncateHead_longest (join [newline] L) no_options DefaultMaxLines DefaultMaxBytes eq_refl ltac:(done) ltac:(done)) as (_ & _ & _ & _ & Hlong).
  fold tr in Hlong. remember (splitLinesForCounting (join [newline] L)) as lines eqn:Elines. split.
  - subst tr. unfold TruncateHead. rewrite <- Elines. cbn [resolveLimits no_options OptMaxLines OptMaxBytes default]. destruct (_ && _); [done|].
    destruct (Z.ltb_spec DefaultMaxBytes (match lines with l :: _ => len l | [] => 0 end)) as [Hlt|_]; [|by destruct (head_loop _ _ _ _ _ _) as [[? ?] ?]].
    exfalso. rewrite HL in Hb. destruct lines as [|x lines]; [done|]. apply Forall_cons in Hb as [Hx _]. lia.
  - destruct ((len lines <=? DefaultMaxLines) && (len (join [newline] L) <=? DefaultMaxBytes)) eqn:Efit; [by destruct Hlong as (-> & -> & _)|].
    destruct Hlong as (-> & k & (Hk1 & Hk2 & Hk3 & Hmax) & -> & -> & _). exists k. split_and!; [| |by rewrite HL, take_app_le|done].
    + destruct k as [|k]; [|lia]. exfalso. destruct lines as [|x lines].
      { destruct (join_lines (join [newline] L)) as [E|E]; rewrite <- Elines in E; rewrite E in Efit; discriminate Efit. }
      destruct (Hmax 1%nat ltac:(cbn; lia)) as [H|H]; [done|].
      change (join [newline] (take 1 (x :: lines))) with x in H. rewrite HL in Hb. apply Forall_cons in Hb as [Hx _]. lia.
    + destruct (decide (k < length L)%nat) as [|Hge]; [done|]. exfalso. assert (e = []) as ->. { apply (f_equal length) in HL. rewrite length_app in HL. destruct e; [done|]. cbn in HL. lia. }
      rewrite app_nil_r in HL. clear Elines. subst lines. rewrite firstn_all2 in Hk3 by lia. apply andb_false_iff in Efit as [Hf%Z.leb_gt|Hf%Z.leb_gt]; unfold len in *; lia.
Qed.

Lemma join_app sep a b : a <> [] -> b <> [] -> join sep (a ++ b) = join sep a ++ sep ++ join sep b.
Proof.
  intros Ha Hb. induction a as [|x a IH]; [done|]. destruct a as [|y a]; [by cbn [app]; rewrite (join_cons_ne sep x b)|].
  change ((x :: y :: a) ++ b) with (x :: ((y :: a) ++ b)). rewrite !join_cons_ne by done. by rewrite IH, <- !app_assoc.
Qed.

(** A limit that overflows nothing. *)
Definition sensible (allLines : list text) (limit : option Z) : Prop := match limit with Some n => 1 <= n /\ n + len allLines <= maxint | None => True end.

Lemma select_lines allLines start limit : 0 <= start < len allLines -> sensible allLines limit ->
  exists end_, start < end_ <= len allLines /\ select allLines start limit = (join [newline] (line_slice allLines start end_), match limit with Some _ => end_ - start | None => 0 end) /\
    (limit = None -> end_ = len allLines).
Proof.
  intros Hs Hl. destruct limit as [n|]; cbn [select sensible] in *.
  - exists (Z.min (start + n) (len allLines)). rewrite !(wrap_id (start + n)) by (unfold in_int, minint, maxint in *; lia). split_and!; [lia..| |done].
    destruct (Z.ltb_spec (Z.min (start + n) (len allLines)) 0); [lia|]. destruct (Z.ltb_spec (Z.min (start + n) (len allLines)) start); [lia|].
    by rewrite wrap_id by (unfold in_int, minint, maxint in *; lia).
  - exists (len allLines). split_and!; [lia..| |done]. unfold line_slice. rewrite firstn_all2; [done|]. rewrite length_drop. unfold len. lia.
Qed.

Lemma line_slice_length l start end_ : 0 <= start <= end_ -> end_ <= len l -> length (line_slice l start end_) = Z.to_nat (end_ - start).
Proof. intros. unfold line_slice. rewrite length_take, length_drop. unfold len in *. lia. Qed.

Lemma take_line_slice l start end_ k : 0 <= start -> start + Z.of_nat k <= end_ -> take k (line_slice l start end_) = line_slice l start (start + Z.of_nat k).
Proof. intros. unfold line_slice. rewrite take_take. f_equal. lia. Qed.

Lemma line_slice_forall P l start end_ : Forall P l -> Forall P (line_slice l start end_).
Proof. intros. by apply Forall_take, Forall_drop. Qed.

(** A page has lines, and says where they end. *)
Lemma read_page_step allLines offset limit : Forall (fun x => newline ∉ x) allLines -> Forall (fun x => len x <= DefaultMaxBytes) allLines -> len allLines < maxint ->
  0 <= start_line offset < len allLines -> sensible allLines limit ->
  exists p next, read_page allLines offset limit = Ok p /\ start_line offset < next <= len allLines /\
    pg_content p = join [newline] (line_slice allLines (start_line offset) next) /\ goes_on (pg_footer p) = (if next <? len allLines then Some (next + 1) else None).
Proof.
  intros Hn Hb Hmax Hs Hl. set (start := start_line offset) in *. destruct (select_lines allLines start limit Hs Hl) as (end_ & He & Hsel & Hnone).
  unfold read_page. fold start. destruct (Z.leb_spec (len allLines) start); [lia|]. rewrite Hsel. fold no_options. set (L := line_slice allLines start end_).
  assert (length L = Z.to_nat (end_ - start)) as HL by (apply line_slice_length; lia).
  destruct (head_page L) as [-> Hpage]; [intros E; rewrite E in HL; cbn in HL; lia|by apply line_slice_forall..|].
  destruct (Truncated (TruncateHead (join [newline] L) no_options)).
  - destruct Hpage as (k & Hk & -> & ->). eexists _, (start + Z.of_nat k). split; [done|]. split; [lia|]. cbn [pg_content pg_footer goes_on]. split.
    + unfold L. by rewrite take_line_slice by lia.
    + destruct (Z.ltb_spec (start + Z.of_nat k) (len allLines)); [f_equal; lia|lia].
  - rewrite Hpage. assert (wrap (start + (end_ - start)) = end_) as Hw by (rewrite wrap_id; [lia|unfold in_int, minint, maxint in *; lia]).
    destruct limit as [n|]; [rewrite Hw; destruct (Z.ltb_spec end_ (len allLines)) as [Hlt|Hge]|]; eexists _, end_; (split; [done|]); (split; [lia|]); (split; [done|]); cbn [goes_on pg_footer].
    + rewrite (proj2 (Z.ltb_lt end_ (len allLines))) by done. by rewrite wrap_id by (unfold in_int, minint, maxint in *; lia).
    + destruct (Z.ltb_spec end_ (len allLines)); [lia|done].
    + rewrite Hnone by done. by rewrite Z.ltb_irrefl.
Qed.

Lemma read_on_whole fuel allLines offset limit : Forall (fun x => newline ∉ x) allLines -> Forall (fun x => len x <= DefaultMaxBytes) allLines -> len allLines < maxint ->
  sensible allLines limit -> 0 <= start_line offset < len allLines -> len allLines <= start_line offset + Z.of_nat fuel ->
  exists pages, read_on fuel allLines offset limit = Ok pages /\ pages <> [] /\ join [newline] pages = join [newline] (drop (Z.to_nat (start_line offset)) allLines).
Proof.
  intros Hn Hb Hmax Hl. revert offset. induction fuel as [|fuel IH]; intros offset Hs Hf; [lia|]. cbn [read_on].
  destruct (read_page_step allLines offset limit Hn Hb Hmax Hs Hl) as (p & next & -> & Hnext & Hc & Hg). cbn [mbind result_bind]. rewrite Hg. set (start := start_line offset) in *.
  assert (drop (Z.to_nat start) allLines = line_slice allLines start next ++ drop (Z.to_nat next) allLines) as Hsplit.
  { unfold line_slice. rewrite <- (take_drop (Z.to_nat next - Z.to_nat start) (drop (Z.to_nat start) allLines)) at 1. f_equal. rewrite drop_drop. f_equal. lia. }
  destruct (Z.ltb_spec next (len allLines)) as [Hlt|Hge].
  - destruct (IH (Some (next + 1))) as (rest & -> & Hne & Hrest); [cbn; destruct (Z.ltb_spec 0 (next + 1)); lia..|]. cbn [mbind result_bind].
    eexists. split; [done|]. split; [done|]. rewrite join_cons_ne by done. rewrite Hrest, Hc, Hsplit. replace (start_line (Some (next + 1))) with next by (cbn; destruct (Z.ltb_spec 0 (next + 1)); lia).
    rewrite join_app; [done| |].
    + intros E. apply (f_equal length) in E. rewrite line_slice_length in E by lia. cbn in E. lia.
    + intros E. apply (f_equal length) in E. rewrite length_drop in E. unfold len in *. cbn in E. lia.
  - eexists. split; [done|]. split; [done|]. cbn [join]. rewrite Hc, Hsplit, drop_ge by (unfold len in *; lia). by rewrite app_nil_r.
Qed.

(** *** The entries of a directory *)

Section Listing.
Context {ops : LsOperations}.

(** The names that can be examined, directories marked. *)
Definition listed (dir : text) (names : list text) : list text :=
  omap (fun name => (fun isDir : bool => name ++ if isDir then lit "/" else []) <$> Stat (Join2 dir name)) names.

Lemma list_entries_spec dir limit results names : len results <= Z.max 0 limit ->
  list_entries dir limit results names =
  (take (Z.to_nat limit) (results ++ listed dir names), bool_decide (names <> []) && (limit <=? len results + len (listed dir (removelast names)))).
Proof.
  revert results. induction names as [|name names IH]; intros results Hr; cbn [list_entries].
  - cbn [listed omap list_omap]. rewrite app_nil_r, firstn_all2 by (unfold len in *; lia). done.
  - rewrite bool_decide_eq_true_2 by done. cbn [andb]. destruct (Z.leb_spec limit (len results)) as [Hle|Hgt].
    + rewrite take_app_le by (unfold len in *; lia). rewrite firstn_all2 by (unfold len in *; lia). f_equal. symmetry. apply Z.leb_le. pose proof (len_nonneg (listed dir (removelast (name :: names)))). lia.
    + assert (forall more, len more <= 1 -> listed dir [name] = more -> list_entries dir limit (results ++ more) names =
        (take (Z.to_nat limit) (results ++ listed dir (name :: names)), limit <=? len results + len (listed dir (removelast (name :: names))))) as Hgo.
      { intros more Hm Hmore. rewrite IH by (rewrite len_app; lia). rewrite <- app_assoc, <- Hmore. f_equal.
        - f_equal. f_equal. unfold listed. by rewrite <- omap_app.
        - destruct names as [|n names]; [rewrite bool_decide_eq_false_2 by tauto; symmetry; apply Z.leb_gt; change (removelast [name]) with (@nil text); change (listed dir []) with (@nil text); unfold len in *; cbn; lia|].
          rewrite bool_decide_eq_true_2 by done. cbn [andb]. rewrite len_app. change (removelast (name :: n :: names)) with ([name] ++ removelast (n :: names)).
          replace (listed dir ([name] ++ removelast (n :: names))) with (listed dir [name] ++ listed dir (removelast (n :: names))) by (symmetry; apply omap_app). rewrite len_app. f_equal. lia. }
      destruct (Stat (Join2 dir name)) as [d|] eqn:E.
      * apply Hgo; [by destruct d|]. unfold listed. cbn. by rewrite E.
      * rewrite <- (app_nil_r results) at 1. apply Hgo; [done|]. unfold listed. cbn. by rewrite E.
Qed.
End Listing.

(** ** Properties *)

(** C33: a file whose lines are each within the byte limit is read to its end by
    going on at the offset each page says, with no limit on the lines of a
    page or one of at least one line that does not overflow: every page is read without an error, the last one says
    nothing more, and the pages joined are the file, byte for byte. *)
Theorem pages_whole data limit : let lines := split_byte newline data in
  Forall (fun x => len x <= DefaultMaxBytes) lines -> len lines < maxint -> sensible lines limit ->
  exists pages, read_on (length lines) lines None limit = Ok pages /\ join [newline] pages = data.
Proof.
  intros lines Hb Hmax Hl. pose proof (split_byte_nonempty newline data) as Hne. fold lines in Hne.
  destruct (read_on_whole (length lines) lines None limit) as (pages & H & _ & Hj); try done; [apply split_byte_no_sep|cbn; destruct lines; unfold len; cbn; [done|lia]|].
  exists pages. split; [done|]. rewrite Hj. cbn. by apply join_split.
Qed.

(** A file is taken for a PNG image exactly when it starts with the
    signature and a header of 13 bytes, and no chunk before the first pixels
    announces an animation, however long the chunks claim to be. *)
Theorem png_recognized buf :
  detectSupportedImageMimeType buf = lit "image/png" <->
  bytesStartWith buf pngSignature = true /\ isPNG buf = true /\ ~ announces_animation buf.
Proof.
  assert (isAnimatedPNG buf = true <-> announces_animation buf) as Hanim by (apply png_chunks_leads; unfold len; cbn; lia).
  assert (bytesStartWith buf (byte <$> [0xff; 0xd8; 0xff]) = true -> bytesStartWith buf pngSignature = false) as Hdisj.
  { unfold bytesStartWith, startsWithASCII. destruct (_ <? _); [done|]. destruct (len buf <? 0 + len pngSignature); [done|]. rewrite drop_0. intros [t ->]%has_prefix_spec. reflexivity. }
  unfold detectSupportedImageMimeType. destruct (bytesStartWith buf (byte <$> [0xff; 0xd8; 0xff])).
  - rewrite Hdisj by done. split; [destruct (_ && _); discriminate|by intros [? _]].
  - destruct (bytesStartWith buf pngSignature).
    + rewrite <- Hanim. destruct (isPNG buf); cbn [andb]; [|split; [discriminate|intros H; destruct H as (_ & H & _); discriminate H]].
      destruct (isAnimatedPNG buf); cbn [negb]; split; [discriminate|intros H; by destruct H as (_ & _ & H)|intros _; by split_and!|done].
    + split; [|by intros [? _]]. destruct (_ || _); [discriminate|]. destruct (_ && _); [discriminate|]. destruct (_ && _); discriminate.
Qed.

(** ** Witnesses *)

Lemma pages_whole_witness : exists pages, read_on 4 (split_byte newline (lit "one
two
three
")) None (Some 2) = Ok pages /\ join [newline] pages = lit "one
two
three
".
Proof. apply (pages_whole (lit "one
two
three
") (Some 2)); [by repeat constructor|by vm_compute|by vm_compute]. Defined.

(** With a limit of nothing the listing of a directory says it is empty. *)
Example limit_zero_empty (dir : text) (letters : Letters) :
  @ls letters {| CompareString := fun _ _ => 0 |} {| Exists := fun _ => true; Stat := fun _ => Some true; Readdir := fun _ => inr [lit "src"] |} dir [("limit"%string, VInt 0)] =
  Ok (textResult (lit "(empty directory)")).
Proof. reflexivity. Qed.
