(* ===== verification/Search.v ===== *)
(** * Finding and searching files ([internal/pi/readtools/find.go],
    [grep.go])

    Both walk a directory tree in lexical order, skip what the ignore stack
    hides, and stop at a limit.  The stack changes on the way, since it caches
    what it reads; what the tools find is shown to be a function of the tree. *)

From S2P Require Import Prelude GoText GoValue Truncate Glob GlobMatch GlobProps ReadTools.
From Stdlib Require Import Ascii.

Open Scope char_scope.
Open Scope Z_scope.

(** ** Definitions *)

(** *** [filepath.WalkDir] *)

(** What is at a path: a directory with its entries in the order of their
    names, those read before an error if there was one, or something else. *)
Inductive tree_node : Type :=
| File
| Dir_ (failed : bool) (entries : list (text * tree_node)).

Definition is_dir (n : tree_node) : bool := match n with Dir_ _ _ => true | File => false end.

(** What a visit answers: a nil error, [SkipDir] or [SkipAll]. *)
Inductive verdict : Type := Continue | SkipDir | SkipAll.

Section WalkDir.
Context {S : Type} (visit : text -> bool -> bool -> S -> verdict * S).

(** The visit is called with the path, whether it is a directory, and whether
    there is an error to report; [SkipDir] at a file skips its siblings. *)
Fixpoint walk_node (path : text) (n : tree_node) (s : S) : verdict * S :=
  match n with
  | File => visit path false false s
  | Dir_ failed entries =>
      let (v, s) := visit path true false s in
      match v with
      | SkipDir => (Continue, s)
      | SkipAll => (SkipAll, s)
      | Continue =>
          let (v, s) := if failed then visit path true true s else (Continue, s) in
          match v with
          | SkipDir => (Continue, s)
          | SkipAll => (SkipAll, s)
          | Continue =>
              (fix children (l : list (text * tree_node)) (s : S) : verdict * S :=
                 match l with
                 | [] => (Continue, s)
                 | (name, n) :: l =>
                     let (v, s) := walk_node (Join2 path name) n s in
                     match v with Continue => children l s | SkipDir => (Continue, s) | SkipAll => (SkipAll, s) end
                 end) entries s
          end
      end
  end.

(** [filepath.WalkDir], [None] for a root that is not there. *)
Definition WalkDir (root : text) (tree : option tree_node) (s : S) : S :=
  match tree with Some n => (walk_node root n s).2 | None => (visit root false true s).2 end.
End WalkDir.

(** *** [find] *)

(** [sort.Strings] *)
Fixpoint text_less (a b : text) : bool :=
  match a, b with
  | _, [] => false
  | [], _ :: _ => true
  | c :: a, d :: b => (code c <? code d) || (code c =? code d) && text_less a b
  end.

Fixpoint insert_text (x : text) (l : list text) : list text :=
  match l with
  | [] => [x]
  | y :: r => if text_less y x then y :: insert_text x r else x :: l
  end.

Definition Strings (l : list text) : list text := foldr insert_text [] l.

Definition relativizeFindResultPath (resultPath searchPath : text) : text :=
  let hadTrailingSeparator := has_suffix (lit "/") resultPath || has_suffix (lit "\") resultPath in
  let rel := ToSlash (default resultPath (Rel searchPath resultPath)) in
  if hadTrailingSeparator && negb (has_suffix (lit "/") rel) then rel ++ lit "/" else rel.

Definition findOutput (results : list text) (limit : Z) (resultLimitReached : bool) : output limited :=
  match results with
  | [] => textResult (lit "No files found matching pattern")
  | _ => limited_output results resultLimitReached limit (lit "results") (lit ", or refine pattern")
  end.

Section Search.
Context {letters : Letters} {disk : Disk}.

(** The visit of [findLocal], over the ignore stack and the results. *)
Definition find_visit (root pattern : text) (limit : Z) (p : text) (isDir walkErr : bool) (st : ignoreStack * list text) : verdict * (ignoreStack * list text) :=
  let '(ig, results) := st in
  if walkErr then (Continue, st)
  else
    let rel := default [] (Rel root p) in
    if bool_decide (rel = lit ".") then (Continue, st)
    else
      let (hidden, ig) := ignored p rel isDir ig in
      if hidden then ((if isDir then SkipDir else Continue), (ig, results))
      else if (0 <? limit) && (limit <=? len results) then (SkipAll, (ig, results))
      else if matchFdGlob pattern rel p then
        let result := if isDir then p ++ [Separator] else p in
        (Continue, (ig, results ++ [relativizeFindResultPath result root]))
      else (Continue, (ig, results)).

(** [findLocal]; what exists is what the tree has. *)
Definition findLocal (excludes pattern root : text) (params : entries) (tree : option tree_node) : result tool_error (output limited) :=
  let limit := default findDefaultLimit (argInt params "limit") in
  if negb (validateGlob pattern) then Err BadGlob
  else
    match tree with
    | None => Err (PathNotFound root)
    | Some _ =>
        let ig := newIgnoreStack excludes root false true in
        let '(_, results) := WalkDir (find_visit root pattern limit) root tree (ig, []) in
        let results := Strings results in
        Ok (findOutput results limit ((0 <=? limit) && (limit <=? len results)))
    end.

(** [findWithGlob]: the globs are matched by the caller. *)
Definition findWithGlob (exists_ : bool) (found : text + list text) (root : text) (params : entries) : result (tool_error + text) (output limited) :=
  let limit := default findDefaultLimit (argInt params "limit") in
  if negb exists_ then Err (inl (PathNotFound root))
  else
    match found with
    | inl e => Err (inr e)
    | inr [] => Ok (textResult (lit "No files found matching pattern"))
    | inr results =>
        let relativized := (fun p => relativizeFindResultPath p root) <$> results in
        Ok (findOutput relativized limit ((0 <=? limit) && (limit <=? len relativized)))
    end.

(** *** [grep] *)

(** The variables of the search. *)
Record found : Type := MkFound { fd_lines : list text; fd_count : Z; fd_limitReached : bool; fd_truncated : bool }.

Definition add_line (s : text) (was : bool) (f : found) : found := MkFound (fd_lines f ++ [s]) (fd_count f) (fd_limitReached f) (fd_truncated f || was).
Definition reach_limit (f : found) : found := MkFound (fd_lines f) (fd_count f) true (fd_truncated f).
Definition count_match (f : found) : found := MkFound (fd_lines f) (fd_count f + 1) (fd_limitReached f) (fd_truncated f).

Definition at_line (lines : list text) (j : Z) : text := match lines !! Z.to_nat j with Some l => l | None => [] end.

(** The lines around a match at [i], from [j] on. *)
Fixpoint context_lines (fuel : nat) (rel : text) (lines : list text) (i j end_ : Z) (f : found) : found :=
  match fuel with
  | O => f
  | S fuel =>
      if j <=? end_ then
        let (shown, was) := TruncateLine (at_line lines j) 0 in
        let sep := if j =? i then (lit ":", lit ": ") else (lit "-", lit "- ") in
        context_lines fuel rel lines i (j + 1) end_ (add_line (rel ++ sep.1 ++ itoa (j + 1) ++ sep.2 ++ shown) was f)
      else f
  end.

Definition window_start (ctxLines i : Z) : Z := if ctxLines <=? 0 then i else if i - ctxLines <? 0 then 0 else i - ctxLines.
Definition window_end (ctxLines i n : Z) : Z := if ctxLines <=? 0 then i else if n <=? wrap (i + ctxLines) then n - 1 else wrap (i + ctxLines).

Section File.
Context (MatchString : text -> bool) (limit ctxLines : Z).

(** The loop over the lines of a file from [i] on; [false] stops the search. *)
Fixpoint search_lines (rel : text) (lines rest : list text) (i : Z) (f : found) : bool * found :=
  match rest with
  | [] => (true, f)
  | line :: rest =>
      if limit <=? fd_count f then (false, reach_limit f)
      else if negb (MatchString line) then search_lines rel lines rest (i + 1) f
      else
        let start := window_start ctxLines i in
        let end_ := window_end ctxLines i (len lines) in
        let f := context_lines (length lines) rel lines i start end_ (count_match f) in
        if limit <=? fd_count f then (false, reach_limit f) else search_lines rel lines rest (i + 1) f
  end.

(** Line ends are newlines. *)
Definition grep_lines (data : text) : list text :=
  split_byte newline (replace_all (replace_all data [cr; newline] [newline]) [cr] [newline]).

(** [searchFile] *)
Definition searchFile (data : option text) (rel : text) (skipBinary : bool) (f : found) : bool * found :=
  match data with
  | None => (true, f)
  | Some data =>
      if skipBinary && match find_byte (byte 0) (take (8 * 1024) data) with Some _ => true | None => false end then (true, f)
      else let lines := grep_lines data in search_lines rel lines lines 0 f
  end.

Context (read : text -> option text) (root globPat : text).

(** The visit of the walk. *)
Definition grep_visit (p : text) (isDir walkErr : bool) (st : ignoreStack * found) : verdict * (ignoreStack * found) :=
  let '(ig, f) := st in
  if walkErr then (Continue, st)
  else
    let rel := default [] (Rel root p) in
    if bool_decide (rel = lit ".") then (Continue, st)
    else
      let (hidden, ig) := ignored p rel isDir ig in
      if hidden then ((if isDir then SkipDir else Continue), (ig, f))
      else if isDir then (Continue, (ig, f))
      else if negb (is_empty globPat) && negb (matchRgGlob globPat rel) then (Continue, (ig, f))
      else if limit <=? fd_count f then (SkipAll, (ig, reach_limit f))
      else let (more, f) := searchFile (read p) rel true f in ((if more then Continue else SkipAll), (ig, f)).
End File.

(** The details of a search. *)
Record GrepToolDetails : Type := MkGrepDetails { gd_Truncation : option Result; gd_MatchLimitReached : option Z; gd_LinesTruncated : bool }.

Definition grep_output (f : found) (limit : Z) : output GrepToolDetails :=
  if fd_count f =? 0 then textResult (lit "No matches found")
  else
    let tr := cut_bytes (fd_lines f) in
    let notices := limit_notice (fd_limitReached f) limit (lit "matches") (lit ", or refine pattern") ++ bytes_notice tr ++
      (if fd_truncated f then [lit "Some lines truncated to " ++ itoa GrepMaxLineLength ++ lit " chars. Use read tool to see full lines"] else []) in
    MkOutput (with_notices (Content tr) notices)
      (if fd_limitReached f || Truncated tr || fd_truncated f then
         Some (MkGrepDetails (if Truncated tr then Some tr else None) (if fd_limitReached f then Some limit else None) (fd_truncated f))
       else None).

Definition nothing_found : found := MkFound [] 0 false false.

(** What a search finds: in a file that was given, or below a directory. *)
Definition search (MatchString : text -> bool) (read : text -> option text) (excludes root globPat : text) (limit ctxLines : Z) (isDir : bool) (tree : option tree_node) : found :=
  if isDir then (WalkDir (grep_visit MatchString limit ctxLines read root globPat) root tree (newIgnoreStack excludes root true false, nothing_found)).2
  else (searchFile MatchString limit ctxLines (read root) (Base root) false nothing_found).2.

Definition grep_limit (params : entries) : Z := let limit := default grepDefaultLimit (argInt params "limit") in if limit <? 1 then 1 else limit.

(** The tool, with the compiled pattern and whether the root is a directory. *)
Definition grep (MatchString : text -> bool) (read : text -> option text) (excludes root : text) (params : entries) (isDir : option bool) (tree : option tree_node) : result tool_error (output GrepToolDetails) :=
  match isDir with
  | None => Err (PathNotFound root)
  | Some isDir =>
      let limit := grep_limit params in
      let ctxLines := default 0 (argInt params "context") in
      Ok (grep_output (search MatchString read excludes root (argStr params "glob") limit ctxLines isDir tree) limit)
  end.
End Search.

(** *** What a walk shows *)

(** The paths below a node in the order of a walk, without what is hidden and
    what is below it. *)
Fixpoint shown (hidden : text -> bool -> bool) (path : text) (n : tree_node) : list (text * bool) :=
  match n with
  | File => if hidden path false then [] else [(path, false)]
  | Dir_ _ entries =>
      if hidden path true then []
      else (path, true) ::
        (fix children (l : list (text * tree_node)) : list (text * bool) :=
           match l with [] => [] | (name, n) :: l => shown hidden (Join2 path name) n ++ children l end) entries
  end.

Definition shown_in (hidden : text -> bool -> bool) (path : text) (l : list (text * tree_node)) : list (text * bool) :=
  flat_map (fun e => shown hidden (Join2 path e.1) e.2) l.

Section Specs.
Context {letters : Letters} {disk : Disk}.

Definition relative (root p : text) : text := default [] (Rel root p).

Definition is_root (root p : text) : bool := bool_decide (relative root p = lit ".").

(** Hidden are the paths the rules ignore, the root itself never. *)
Definition hidden (ig : ignoreStack) (root p : text) (isDir : bool) : bool := negb (is_root root p) && ignored_by_rules ig (p, relative root p, isDir).

Definition display (root : text) (e : text * bool) : text := relativizeFindResultPath (if e.2 then e.1 ++ [Separator] else e.1) root.

Definition is_found (root pattern : text) (e : text * bool) : bool := negb (is_root root e.1) && matchFdGlob pattern (relative root e.1) e.1.

(** The paths a glob finds, in the order of the walk. *)
Definition find_all (excludes pattern root : text) (n : tree_node) : list text :=
  display root <$> List.filter (is_found root pattern) (shown (hidden (newIgnoreStack excludes root false true) root) root n).

Definition up_to_limit (limit : Z) (l : list text) : list text := if 0 <? limit then take (Z.to_nat limit) l else l.

(** A match: the path shown for its file, the lines and the number of the line. *)
Definition hit : Type := text * list text * Z.

Section Grep.
Context (MatchString : text -> bool) (read : text -> option text).

Definition hits_in (rel : text) (lines : list text) : list hit :=
  omap (fun i => if MatchString (at_line lines i) then Some (rel, lines, i) else None) (seqZ 0 (len lines)).

Definition binary (data : text) : bool := match find_byte (byte 0) (take (8 * 1024) data) with Some _ => true | None => false end.

Definition hits_of (root globPat : text) (e : text * bool) : list hit :=
  if e.2 || is_root root e.1 || (negb (is_empty globPat) && negb (matchRgGlob globPat (relative root e.1))) then []
  else match read e.1 with Some data => if binary data then [] else hits_in (relative root e.1) (grep_lines data) | None => [] end.

(** The matches below a directory, in the order of the walk and of the lines. *)
Definition grep_all (excludes root globPat : text) (n : tree_node) : list hit :=
  flat_map (hits_of root globPat) (shown (hidden (newIgnoreStack excludes root true false) root) root n).
End Grep.

(** The line at [j] as it is reported for a match at [i], and the lines around
    a match. *)
Definition report_line (rel : text) (lines : list text) (i j : Z) : text :=
  rel ++ (if j =? i then lit ":" else lit "-") ++ itoa (j + 1) ++ (if j =? i then lit ": " else lit "- ") ++ (TruncateLine (at_line lines j) 0).1.

Definition window (ctxLines : Z) (h : hit) : list Z :=
  let '(_, lines, i) := h in
  let first := Z.max 0 (i - Z.max 0 ctxLines) in
  seqZ first (Z.min (len lines - 1) (i + Z.max 0 ctxLines) - first + 1).

Definition report_lines (ctxLines : Z) (h : hit) : list text := (fun j => report_line h.1.1 h.1.2 h.2 j) <$> window ctxLines h.
Definition was_cut (ctxLines : Z) (h : hit) : bool := existsb (fun j => (TruncateLine (at_line h.1.2 j) 0).2) (window ctxLines h).

(** The report of the first matches up to the limit. *)
Definition search_report (limit ctxLines : Z) (hits : list hit) : found :=
  let first := take (Z.to_nat limit) hits in
  MkFound (flat_map (report_lines ctxLines) first) (len first) (limit <=? len hits) (existsb (was_cut ctxLines) first).
End Specs.

(** ** Lemmas *)

Lemma node_nested_ind (P : tree_node -> Prop) (HF : P File) (HD : forall failed l, Forall (fun e => P e.2) l -> P (Dir_ failed l)) : forall n, P n.
Proof.
  fix IH 1. intros [|failed l]; [done|]. apply HD. induction l as [|[name n] l IHl]; constructor; [apply IH|apply IHl].
Qed.

Lemma shown_children hidden path l :
  (fix children (l : list (text * tree_node)) : list (text * bool) := match l with [] => [] | (name, n) :: l => shown hidden (Join2 path name) n ++ children l end) l = shown_in hidden path l.
Proof. induction l as [|[name n] l IH]; [done|]. cbn. by rewrite IH. Qed.

(** *** A walk is the fold of what it shows *)

Section Walk.
Context {S X : Type} (visit : text -> bool -> bool -> S -> verdict * S) (hidden : text -> bool -> bool) (inv : S -> Prop) (view : S -> X)
  (consume : X -> list (text * bool) -> X) (stopped : X -> Prop).
Context (Hnil : forall x, consume x [] = x) (Happ : forall x a b, consume x (a ++ b) = consume (consume x a) b)
  (Hstop : forall x l, stopped x -> consume x l = x)
  (Herr : forall p d s, inv s -> visit p d true s = (Continue, s))
  (Hhid : forall p d s, inv s -> hidden p d = true -> exists s', visit p d false s = ((if d then SkipDir else Continue), s') /\ inv s' /\ view s' = view s)
  (Hsee : forall p d s, inv s -> hidden p d = false ->
     exists v s', visit p d false s = (v, s') /\ inv s' /\ view s' = consume (view s) [(p, d)] /\ (v = Continue \/ v = SkipAll /\ stopped (view s'))).

Definition walked (s : S) (seen : list (text * bool)) (r : verdict * S) : Prop :=
  inv r.2 /\ view r.2 = consume (view s) seen /\ (r.1 = Continue \/ r.1 = SkipAll /\ stopped (view r.2)).

Lemma walked_more s s' a b r : view s' = consume (view s) a -> walked s' b r -> walked s (a ++ b) r.
Proof. intros Hs (H1 & H2 & H3). split; [done|]. split; [|done]. by rewrite H2, Happ, Hs. Qed.

Lemma walked_stop s a b s' : inv s' -> view s' = consume (view s) a -> stopped (view s') -> walked s (a ++ b) (SkipAll, s').
Proof. intros H1 H2 H3. split; [done|]. split; [|by right]. cbn. by rewrite Happ, <- H2, Hstop. Qed.

Lemma walk_shown n : forall path s, inv s -> walked s (shown hidden path n) (walk_node visit path n s).
Proof.
  induction n as [|failed l IH] using node_nested_ind; intros path s Hs; cbn [shown walk_node].
  - destruct (hidden path false) eqn:Eh.
    + destruct (Hhid _ _ _ Hs Eh) as (s' & -> & Hi & Hv). split; [done|]. split; [|by left]. cbn. by rewrite Hnil.
    + destruct (Hsee _ _ _ Hs Eh) as (v & s' & -> & Hi & Hv & Hc). by split.
  - destruct (hidden path true) eqn:Eh.
    { destruct (Hhid _ _ _ Hs Eh) as (s' & -> & Hi & Hv). split; [done|]. split; [|by left]. cbn. by rewrite Hnil. }
    destruct (Hsee _ _ _ Hs Eh) as (v & s' & -> & Hi & Hv & Hc). rewrite shown_children. change ((path, true) :: shown_in hidden path l) with ([(path, true)] ++ shown_in hidden path l).
    destruct Hc as [->|[-> Hst]]; [|by apply walked_stop].
    assert ((if failed then visit path true true s' else (Continue, s')) = (Continue, s')) as -> by (destruct failed; [by apply Herr|done]).
    eapply walked_more; [exact Hv|]. clear s Hs Hv Eh. revert s' Hi. induction IH as [|[name n] l Hn _ IHl]; intros s Hs.
    + split; [done|]. split; [|by left]. cbn. by rewrite Hnil.
    + cbn. destruct (Hn (Join2 path name) s Hs) as (Hi & Hv & Hc). cbn in *. destruct (walk_node visit (Join2 path name) n s) as [v s']. cbn in *.
      destruct Hc as [->|[-> Hst]]; [eapply walked_more; [exact Hv|by apply IHl]|by apply walked_stop].
Qed.

Lemma WalkDir_shown root n s : inv s -> view (WalkDir visit root (Some n) s) = consume (view s) (shown hidden root n).
Proof. intros Hs. destruct (walk_shown n root s Hs) as (_ & H & _). exact H. Qed.
End Walk.

(** *** [find] *)

Section Find.
Context {letters : Letters} {disk : Disk} (ig0 : ignoreStack) (root pattern : text) (limit : Z).

Definition collect (results : list text) (l : list (text * bool)) : list text :=
  let more := display root <$> List.filter (is_found root pattern) l in
  results ++ if 0 <? limit then take (Z.to_nat limit - length results) more else more.

Definition full (results : list text) : Prop := 0 < limit <= len results.

Lemma collect_nil results : collect results [] = results.
Proof. unfold collect. cbn. destruct (0 <? limit); by rewrite ?take_nil, app_nil_r. Qed.

Lemma collect_app results a b : collect results (a ++ b) = collect (collect results a) b.
Proof.
  unfold collect. rewrite List.filter_app, fmap_app. destruct (0 <? limit); [|by rewrite app_assoc]. rewrite <- app_assoc, firstn_app. f_equal. f_equal. f_equal. rewrite length_app, length_take. lia.
Qed.

Lemma collect_full results l : full results -> collect results l = results.
Proof. unfold full, collect. intros [H1 H2]. rewrite (proj2 (Z.ltb_lt _ _)) by done. unfold len in *. replace (Z.to_nat limit - length results)%nat with 0%nat by lia. by rewrite app_nil_r. Qed.

Lemma collect_one results e :
  collect results [e] = if is_found root pattern e && negb ((0 <? limit) && (limit <=? len results)) then results ++ [display root e] else results.
Proof.
  unfold collect. cbn [List.filter]. destruct (is_found root pattern e); cbn [andb fmap list_fmap]; [|destruct (0 <? limit); by rewrite ?take_nil, app_nil_r].
  destruct (Z.ltb_spec 0 limit); [|done]. cbn [andb]. destruct (Z.leb_spec limit (len results)); cbn [negb]; unfold len in *.
  - replace (Z.to_nat limit - length results)%nat with 0%nat by lia. by rewrite app_nil_r.
  - replace (Z.to_nat limit - length results)%nat with (S (Z.to_nat limit - length results - 1)) by lia. cbn. by rewrite take_nil.
Qed.

Lemma find_visit_sees p d st : kept ig0 st.1 -> hidden ig0 root p d = false ->
  exists v st', find_visit root pattern limit p d false st = (v, st') /\ kept ig0 st'.1 /\ st'.2 = collect st.2 [(p, d)] /\ (v = Continue \/ v = SkipAll /\ full st'.2).
Proof.
  intros Hk Hh. destruct st as [ig results]. cbn in Hk. rewrite collect_one. unfold find_visit. cbv zeta. change (default [] (Rel root p)) with (relative root p). unfold hidden in Hh.
  unfold is_found. cbn [fst snd]. change (bool_decide (relative root p = lit ".")) with (is_root root p). destruct (is_root root p).
  - eexists _, _. split; [done|]. split; [done|]. split; [done|by left].
  - cbn [negb andb] in Hh |- *. destruct (ignored_rules p (relative root p) d ig (proj2 Hk)) as (ig' & -> & Hk'). rewrite (same_ignored ig0 ig) by apply Hk. rewrite Hh.
    pose proof (kept_stack_trans _ _ _ Hk Hk') as Hk2. destruct ((0 <? limit) && (limit <=? len results)) eqn:El; cbn [negb].
    + rewrite andb_false_r. apply andb_true_iff in El as [H1%Z.ltb_lt H2%Z.leb_le]. eexists _, _. split; [done|]. split; [done|]. split; [done|by right].
    + rewrite andb_true_r. destruct (matchFdGlob pattern (relative root p) p); (eexists _, _; split; [done|]; split; [done|]; split; [done|by left]).
Qed.

Lemma find_visit_hides p d st : kept ig0 st.1 -> hidden ig0 root p d = true ->
  exists st', find_visit root pattern limit p d false st = ((if d then SkipDir else Continue), st') /\ kept ig0 st'.1 /\ st'.2 = st.2.
Proof.
  intros Hk Hh. destruct st as [ig results]. cbn in Hk. unfold find_visit. cbv zeta. change (default [] (Rel root p)) with (relative root p). unfold hidden in Hh. apply andb_true_iff in Hh as [Er%negb_true_iff Hh]. change (bool_decide (relative root p = lit ".")) with (is_root root p). rewrite Er.
  destruct (ignored_rules p (relative root p) d ig (proj2 Hk)) as (ig' & -> & Hk'). rewrite (same_ignored ig0 ig) by apply Hk. rewrite Hh.
  eexists. split; [done|]. split; [by eapply kept_stack_trans|done].
Qed.

Lemma find_walk n : coherent ig0 -> (WalkDir (find_visit root pattern limit) root (Some n) (ig0, [])).2 = collect [] (shown (hidden ig0 root) root n).
Proof.
  intros Hc. apply (WalkDir_shown (find_visit root pattern limit) (hidden ig0 root) (fun st => kept ig0 st.1) snd collect full).
  - apply collect_nil.
  - apply collect_app.
  - intros. by apply collect_full.
  - by intros p d [? ?] _.
  - apply find_visit_hides.
  - apply find_visit_sees.
  - by apply kept_stack_refl.
Qed.

Lemma collect_limit l : collect [] l = up_to_limit limit (display root <$> List.filter (is_found root pattern) l).
Proof. unfold collect, up_to_limit. cbn [app length]. by rewrite Nat.sub_0_r. Qed.
End Find.

Lemma new_coherent `{Letters, Disk} excludes root a b : coherent (newIgnoreStack excludes root a b).
Proof. by split. Qed.

(** *** [grep] *)

Section Lines.
Context (MatchString : text -> bool) (limit ctxLines : Z).

Definition add_hit (f : found) (h : hit) : found :=
  if limit <=? fd_count f then reach_limit f
  else
    let f := MkFound (fd_lines f ++ report_lines ctxLines h) (fd_count f + 1) (fd_limitReached f) (fd_truncated f || was_cut ctxLines h) in
    if limit <=? fd_count f then reach_limit f else f.

(** The flag says that the limit is reached. *)
Definition flagged (f : found) : Prop := limit <= fd_count f -> fd_limitReached f = true.
Definition at_limit (f : found) : Prop := limit <= fd_count f /\ fd_limitReached f = true.

Lemma reach_flagged f : fd_limitReached f = true -> reach_limit f = f.
Proof. by destruct f; cbn; intros ->. Qed.

Lemma add_hit_full f h : at_limit f -> add_hit f h = f.
Proof. intros [H1 H2]. unfold add_hit. rewrite (proj2 (Z.leb_le _ _)) by done. by apply reach_flagged. Qed.

Lemma add_hits_full l f : at_limit f -> foldl add_hit f l = f.
Proof. intros Hf. induction l as [|h l IH]; [done|]. cbn. by rewrite add_hit_full. Qed.

Lemma add_hit_flagged f h : flagged (add_hit f h).
Proof.
  unfold flagged, add_hit. destruct (limit <=? fd_count f); [done|]. cbn. destruct (Z.leb_spec limit (fd_count f + 1)); [done|]. cbn. lia.
Qed.

Lemma context_lines_spec fuel rel lines i j end_ f : end_ - j + 1 <= Z.of_nat fuel ->
  context_lines fuel rel lines i j end_ f =
  MkFound (fd_lines f ++ (report_line rel lines i <$> seqZ j (end_ - j + 1))) (fd_count f) (fd_limitReached f)
    (fd_truncated f || existsb (fun j => (TruncateLine (at_line lines j) 0).2) (seqZ j (end_ - j + 1))).
Proof.
  assert (forall f, MkFound (fd_lines f ++ []) (fd_count f) (fd_limitReached f) (fd_truncated f || false) = f) as Hid by (intros [? ? ? ?]; cbn; by rewrite app_nil_r, orb_false_r).
  revert j f. induction fuel as [|fuel IH]; intros j f Hf; cbn [context_lines]; [rewrite seqZ_nil by lia; by rewrite Hid|].
  destruct (Z.leb_spec j end_); [|rewrite seqZ_nil by lia; by rewrite Hid]. rewrite seqZ_cons by lia. replace (Z.pred (end_ - j + 1)) with (end_ - Z.succ j + 1) by lia.
  destruct (TruncateLine (at_line lines j) 0) as [s was] eqn:Et. rewrite IH by lia. cbn [add_line fd_lines fd_count fd_limitReached fd_truncated fmap list_fmap existsb]. rewrite Et. cbn [snd]. rewrite <- app_assoc, <- orb_assoc. f_equal.
  cbn [app]. f_equal. unfold report_line at 2. rewrite Et. by destruct (j =? i).
Qed.

(** The window of the code is that of the report. *)
Lemma window_bounds lines i : 0 <= i < len lines -> ctxLines + len lines <= maxint ->
  window_end ctxLines i (len lines) - window_start ctxLines i + 1 <= len lines /\
  forall rel, window ctxLines (rel, lines, i) = seqZ (window_start ctxLines i) (window_end ctxLines i (len lines) - window_start ctxLines i + 1).
Proof.
  intros Hi Hc. unfold window, window_start, window_end. destruct (Z.leb_spec ctxLines 0).
  - replace (Z.max 0 ctxLines) with 0 by lia. split; [lia|]. intros _. f_equal; lia.
  - replace (Z.max 0 ctxLines) with ctxLines by lia. rewrite wrap_id by (unfold in_int, minint, maxint in *; lia).
    destruct (Z.ltb_spec (i - ctxLines) 0), (Z.leb_spec (len lines) (i + ctxLines)); (split; [lia|]); intros _; f_equal; lia.
Qed.

Lemma search_lines_hits rel lines done_ rest f : lines = done_ ++ rest -> ctxLines + len lines <= maxint -> flagged f ->
  exists more f', search_lines MatchString limit ctxLines rel lines rest (len done_) f = (more, f') /\
    f' = foldl add_hit f (omap (fun i => if MatchString (at_line lines i) then Some (rel, lines, i) else None) (seqZ (len done_) (len rest))) /\
    flagged f' /\ (more = true \/ more = false /\ at_limit f').
Proof.
  intros Hl Hc. revert done_ f Hl. induction rest as [|line rest IH]; intros done_ f Hl Hf; cbn [search_lines].
  - exists true, f. by split_and!; [..|left].
  - assert (at_line lines (len done_) = line) as Hline by (unfold at_line; rewrite to_nat_len, Hl; by rewrite list_lookup_middle).
    assert (0 <= len done_ < len lines) as Hi by (rewrite Hl, len_app; unfold len; cbn; lia).
    destruct (Z.leb_spec limit (fd_count f)) as [Hle|Hgt].
    { exists false, f. assert (at_limit f) as Ha by (split; [done|by apply Hf]). rewrite add_hits_full, reach_flagged by (done || apply Ha). by split_and!; [..|right]. }
    replace (len (line :: rest)) with (len rest + 1) by (unfold len; cbn; lia). rewrite seqZ_cons by (pose proof (len_nonneg rest); lia). replace (Z.pred (len rest + 1)) with (len rest) by lia.
    replace (Z.succ (len done_)) with (len (done_ ++ [line])) by (rewrite len_app; unfold len; cbn; lia). replace (len done_ + 1) with (len (done_ ++ [line])) by (rewrite len_app; unfold len; cbn; lia).
    cbn [omap list_omap]. rewrite Hline. destruct (MatchString line); cbn [negb]; [|apply IH; [by rewrite <- app_assoc|done]].
    destruct (window_bounds lines (len done_) Hi Hc) as [Hw Hwin]. rewrite context_lines_spec by exact Hw. cbn [foldl].
    set (h := (rel, lines, len done_)). cbn [count_match fd_lines fd_count fd_limitReached fd_truncated].
    assert (add_hit f h = let g := MkFound (fd_lines f ++ report_lines ctxLines h) (fd_count f + 1) (fd_limitReached f) (fd_truncated f || was_cut ctxLines h) in if limit <=? fd_count f + 1 then reach_limit g else g) as Hadd.
    { unfold add_hit. by rewrite (proj2 (Z.leb_gt _ _)) by done. }
    rewrite <- (Hwin rel). fold h. change (report_line rel lines (len done_) <$> window ctxLines h) with (report_lines ctxLines h).
    change (existsb (fun j => (TruncateLine (at_line lines j) 0).2) (window ctxLines h)) with (was_cut ctxLines h). cbn zeta in Hadd.
    destruct (Z.leb_spec limit (fd_count f + 1)) as [Hle|Hgt'].
    + assert (at_limit (add_hit f h)) as Ha by (rewrite Hadd; split; [done|done]). rewrite <- Hadd. eexists _, _. split; [done|]. rewrite add_hits_full by done. by split_and!; [..|apply add_hit_flagged|right].
    + rewrite <- Hadd. apply IH; [by rewrite <- app_assoc|apply add_hit_flagged].
Qed.

(** The report of matches is what adding them one by one gives. *)
Lemma report_hits hits : 1 <= limit -> foldl add_hit nothing_found hits = search_report limit ctxLines hits.
Proof.
  intros Hl. induction hits as [|h hits IH] using rev_ind.
  - cbn. unfold search_report. rewrite take_nil. cbn. by rewrite (proj2 (Z.leb_gt _ _)) by (unfold len; cbn; lia).
  - rewrite foldl_snoc, IH. unfold add_hit, search_report. cbn [fd_count fd_lines fd_limitReached fd_truncated]. rewrite len_app. change (len [h]) with 1.
    destruct (Z.leb_spec limit (len hits)) as [Hle|Hgt].
    + rewrite take_app_le by (unfold len in *; lia). replace (limit <=? len (take (Z.to_nat limit) hits)) with true by (symmetry; apply Z.leb_le; unfold len in *; rewrite length_take; lia).
      unfold reach_limit. cbn. f_equal. symmetry. apply Z.leb_le. lia.
    + rewrite firstn_all2 by (unfold len in *; lia). rewrite (proj2 (Z.leb_gt limit (len hits))) by done. rewrite firstn_all2 by (rewrite length_app; unfold len in *; cbn; lia).
      rewrite flat_map_app, existsb_app, len_app. cbn [flat_map existsb]. change (len [h]) with 1. rewrite app_nil_r, orb_false_r. by destruct (limit <=? len hits + 1).
Qed.
End Lines.

(** *** [grep] below a directory *)

Section GrepWalk.
Context {letters : Letters} {disk : Disk} (MatchString : text -> bool) (read : text -> option text) (ig0 : ignoreStack) (root globPat : text) (limit ctxLines : Z).
Context (Hlimit : 1 <= limit) (Hread : forall p data, read p = Some data -> ctxLines + len (grep_lines data) <= maxint).

Notation hits := (hits_of MatchString read root globPat).
Notation adding := (add_hit limit ctxLines).

Definition add_hits (f : found) (l : list (text * bool)) : found := foldl adding f (flat_map hits l).

Definition searching (st : ignoreStack * found) : Prop := kept ig0 st.1 /\ flagged limit st.2.

Lemma searchFile_hits file rel skipBinary f : (forall data, file = Some data -> ctxLines + len (grep_lines data) <= maxint) -> flagged limit f ->
  exists more f', searchFile MatchString limit ctxLines file rel skipBinary f = (more, f') /\
    f' = foldl adding f (match file with Some data => if skipBinary && binary data then [] else hits_in MatchString rel (grep_lines data) | None => [] end) /\
    flagged limit f' /\ (more = true \/ more = false /\ at_limit limit f').
Proof.
  intros Hr Hf. destruct file as [data|]; cbn [searchFile]; [|exists true, f; by split_and!; [..|left]]. change (match find_byte _ _ with Some _ => true | None => false end) with (binary data).
  destruct (skipBinary && binary data); [exists true, f; by split_and!; [..|left]|].
  by apply (search_lines_hits MatchString limit ctxLines rel (grep_lines data) [] (grep_lines data) f); [|apply Hr|].
Qed.

Lemma grep_visit_hides p d st : searching st -> hidden ig0 root p d = true ->
  exists st', grep_visit MatchString limit ctxLines read root globPat p d false st = ((if d then SkipDir else Continue), st') /\ searching st' /\ st'.2 = st.2.
Proof.
  intros [Hk Hf] Hh. destruct st as [ig f]. cbn in Hk, Hf. unfold grep_visit. cbv zeta. change (default [] (Rel root p)) with (relative root p). unfold hidden in Hh.
  apply andb_true_iff in Hh as [Er%negb_true_iff Hh]. change (bool_decide (relative root p = lit ".")) with (is_root root p). rewrite Er.
  destruct (ignored_rules p (relative root p) d ig (proj2 Hk)) as (ig' & -> & Hk'). rewrite (same_ignored ig0 ig) by apply Hk. rewrite Hh.
  eexists. split; [done|]. split; [split; [by eapply kept_stack_trans|done]|done].
Qed.

Lemma grep_visit_sees p d st : searching st -> hidden ig0 root p d = false ->
  exists v st', grep_visit MatchString limit ctxLines read root globPat p d false st = (v, st') /\ searching st' /\ st'.2 = add_hits st.2 [(p, d)] /\
    (v = Continue \/ v = SkipAll /\ at_limit limit st'.2).
Proof.
  intros [Hk Hf] Hh. destruct st as [ig f]. cbn in Hk, Hf. unfold grep_visit. cbv zeta. change (default [] (Rel root p)) with (relative root p). unfold hidden in Hh.
  change (bool_decide (relative root p = lit ".")) with (is_root root p). unfold add_hits. cbn [flat_map]. rewrite app_nil_r. unfold hits_of. cbn [fst snd]. destruct (is_root root p).
  { rewrite orb_true_r. eexists _, _. split; [done|]. split; [done|]. split; [done|by left]. }
  cbn [negb andb] in Hh. destruct (ignored_rules p (relative root p) d ig (proj2 Hk)) as (ig' & -> & Hk'). rewrite (same_ignored ig0 ig) by apply Hk. rewrite Hh.
  pose proof (kept_stack_trans _ _ _ Hk Hk') as Hk2. destruct d; cbn [orb].
  { eexists _, _. split; [done|]. split; [done|]. split; [done|by left]. }
  destruct (negb (is_empty globPat) && negb (matchRgGlob globPat (relative root p))).
  { eexists _, _. split; [done|]. split; [done|]. split; [done|by left]. }
  destruct (Z.leb_spec limit (fd_count f)) as [Hle|Hgt].
  - assert (at_limit limit f) as Ha by (split; [done|by apply Hf]). rewrite reach_flagged by apply Ha. eexists _, _. split; [done|]. split; [done|]. cbn [snd]. rewrite add_hits_full by done. split; [done|by right].
  - destruct (searchFile_hits (read p) (relative root p) true f (Hread p) Hf) as (more & f' & -> & Hf' & Hfl & Hm). cbn [andb] in Hf'.
    eexists _, _. split; [done|]. split; [done|]. split; [exact Hf'|]. destruct Hm as [->|[-> Ha]]; [by left|by right].
Qed.

Lemma grep_walk n : coherent ig0 ->
  (WalkDir (grep_visit MatchString limit ctxLines read root globPat) root (Some n) (ig0, nothing_found)).2 =
  search_report limit ctxLines (flat_map hits (shown (hidden ig0 root) root n)).
Proof.
  intros Hc. rewrite <- report_hits by done. apply (WalkDir_shown (grep_visit MatchString limit ctxLines read root globPat) (hidden ig0 root) searching snd add_hits (at_limit limit)).
  - done.
  - intros f a b. unfold add_hits. by rewrite flat_map_app, foldl_app.
  - intros f l Hf. by apply add_hits_full.
  - by intros p d [? ?] _.
  - apply grep_visit_hides.
  - apply grep_visit_sees.
  - split; [by apply kept_stack_refl|]. unfold flagged. cbn. lia.
Qed.
End GrepWalk.

(** ** Properties *)

(** C21: a search for files gives the paths that match the glob, among those of
    the tree that neither are ignored nor lie below an ignored directory; in
    the order of the walk, as many as the limit allows, then sorted.  That the
    ignore rules are read and cached on the way, and that the walk stops at the
    limit, does not show. *)
Theorem find_lists_visible {letters : Letters} {disk : Disk} excludes pattern root params n : let limit := default findDefaultLimit (argInt params "limit") in
  let found := up_to_limit limit (find_all excludes pattern root n) in
  findLocal excludes pattern root params (Some n) =
  if validateGlob pattern then Ok (findOutput (Strings found) limit ((0 <=? limit) && (limit <=? len (Strings found)))) else Err BadGlob.
Proof.
  intros limit fnd. unfold findLocal. fold limit. destruct (validateGlob pattern); [|done]. cbn [negb].
  pose proof (find_walk (newIgnoreStack excludes root false true) root pattern limit n (new_coherent _ _ _ _)) as H. rewrite collect_limit in H.
  destruct (WalkDir _ _ _ _) as [ig results]. cbn in H. by subst results.
Qed.

(** C22: a search of lines reports the first matches up to the limit, in the
    order of the files that are not hidden and of their lines, each with the
    lines around it; it says that the limit is reached exactly when there are
    that many matches, and that lines were cut exactly when one it reports
    was. *)
Theorem grep_reports_matches {letters : Letters} {disk : Disk} MatchString read excludes root globPat limit ctxLines n :
  1 <= limit -> (forall p data, read p = Some data -> ctxLines + len (grep_lines data) <= maxint) ->
  search MatchString read excludes root globPat limit ctxLines true (Some n) = search_report limit ctxLines (grep_all MatchString read excludes root globPat n).
Proof. intros Hl Hr. by apply grep_walk. Qed.

(** ** Witnesses *)

Module Samples.

(** A directory with an ignored one, and what its files hold. *)
Definition tree : tree_node :=
  Dir_ false [(lit ".gitignore", File); (lit "a.go", File); (lit "out", Dir_ false [(lit "b.go", File)]); (lit "src", Dir_ false [(lit "c.go", File); (lit "d.md", File)])].

#[export] Instance disk : Disk := { ReadFile := fun p => if bool_decide (p = lit "/w/.gitignore") then Some (lit "out/") else None; HasGit := fun p => bool_decide (p = lit "/w") }.

Definition holds_go (line : text) : bool := contains line (lit "go").

Definition read (p : text) : option text :=
  if bool_decide (p = lit "/w/src/c.go") then Some (lit "one" ++ [newline] ++ lit "a go" ++ [cr; newline] ++ lit "two" ++ [newline] ++ lit "go on")
  else Some (lit "let go").

End Samples.

Import Sample Samples.

Example finds_go : findLocal [] (lit "*.go") (lit "/w") [] (Some tree) = Ok (MkOutput (lit "a.go" ++ [newline] ++ lit "src/c.go") None).
Proof. by vm_compute. Qed.

(** No limit is announced as a limit reached. *)
Example unlimited_reached : findLocal [] (lit "*.md") (lit "/w") [("limit"%string, VInt 0)] (Some tree) =
  Ok (MkOutput (lit "src/d.md" ++ [newline; newline] ++ lit "[0 results limit reached. Use limit=0 for more, or refine pattern]") (Some (MkLimited None (Some 0)))).
Proof. by vm_compute. Qed.

Lemma grep_reports_matches_witness :
  search holds_go read [] (lit "/w") (lit "*.go") 2 1 true (Some tree) =
  MkFound [lit "a.go:1: let go"; lit "src/c.go-1- one"; lit "src/c.go:2: a go"; lit "src/c.go-3- two"] 2 true false.
Proof.
  refine (eq_trans (grep_reports_matches holds_go read [] (lit "/w") (lit "*.go") 2 1 tree ltac:(lia) _) _); [|by vm_compute].
  intros p data. unfold read. destruct (bool_decide _); intros [= <-]; by vm_compute.
Defined.
