(* ===== verification/Values.v ===== *)
(** * Values of scopes and what prompts show of them ([scope.go],
    [artifact.go])

    A workflow sets values in its scopes, and a prompt shows every value
    visible from its scope within a budget of tokens: a value over its budget
    is moved to a file of the run, and the prompt shows an excerpt and the path.
    The tokenizer is of another module, SHA-256 names files by their content;
    both are parameters, and so is which writes of files succeed. *)

From S2P Require Import Prelude GoText PiModel Estimate Json JsonStrings JsonRepairProps GoValue Glob.
From Stdlib Require Import Ascii.

Open Scope char_scope.
Open Scope Z_scope.

(** ** Definitions *)

(** *** Names of files *)

Definition base64url (n : Z) : ascii :=
  byte (if n <? 26 then 65 + n else if n <? 52 then 71 + n else if n <? 62 then n - 4 else if n =? 62 then 45 else 95).

(** [base64.RawURLEncoding.EncodeToString] *)
Fixpoint EncodeToString (s : text) : text :=
  match s with
  | a :: b :: c :: r =>
      let '(x, y, z) := (code a, code b, code c) in
      base64url (x / 4) :: base64url (x mod 4 * 16 + y / 16) :: base64url (y mod 16 * 4 + z / 64) :: base64url (z mod 64) :: EncodeToString r
  | [a; b] => let '(x, y) := (code a, code b) in [base64url (x / 4); base64url (x mod 4 * 16 + y / 16); base64url (y mod 16 * 4)]
  | [a] => let x := code a in [base64url (x / 4); base64url (x mod 4 * 16)]
  | [] => []
  end.

(** The pieces of at most 118 bytes. *)
Fixpoint pieces (fuel : nat) (s : text) : list text :=
  match fuel, s with
  | S fuel, _ :: _ => (lit "x-" ++ take 118 s) :: pieces fuel (drop 118 s)
  | _, _ => []
  end.

(** [filepath.Join] *)
Definition JoinPath (parts : list text) : text :=
  match List.filter (fun p => negb (is_empty p)) parts with [] => [] | l => Clean (join [Separator] l) end.

Definition component_parts (name : text) : list text :=
  let encoded := EncodeToString name in
  if len encoded <=? 118 then [lit "x-" ++ encoded] else (lit "long-" ++ itoa (len encoded)) :: pieces (length encoded) encoded.

Definition encodedComponent (name : text) : text :=
  let encoded := EncodeToString name in
  if len encoded <=? 118 then lit "x-" ++ encoded else JoinPath (component_parts name).

Definition encodedPath (name : text) : text :=
  match name with [] => lit "root" | _ => JoinPath (encodedComponent <$> split_byte Separator name) end.

(** Where the value of a key in a scope is kept. *)
Definition value_file (scope key extension : text) : text := JoinPath [lit "values"; encodedPath scope; encodedComponent key ++ extension].

(** *** Excerpts *)

Definition is_invalid (r : Z * text) : bool := (r.1 =? rune_error) && Nat.eqb (length r.2) 1.

(** [strings.ToValidUTF8]: one replacement for a run of invalid bytes. *)
Fixpoint valid_runes (replacement : text) (invalid : bool) (rs : list (Z * text)) : text :=
  match rs with
  | [] => []
  | r :: rs => if is_invalid r then (if invalid then [] else replacement) ++ valid_runes replacement true rs else r.2 ++ valid_runes replacement false rs
  end.

Definition ToValidUTF8 (s replacement : text) : text := valid_runes replacement false (runes s).

(** Whether a rune starts at an index ([utf8.RuneStart]). *)
Definition starts_at (s : text) (i : nat) : bool := match s !! i with Some c => negb (cont c) | None => true end.

(** Back to the start of a rune, and on to the next. *)
Fixpoint back_to_start (s : text) (head : nat) : nat :=
  match head with O => O | S h => if starts_at s head then head else back_to_start s h end.

Fixpoint on_to_start (fuel : nat) (s : text) (i : nat) : nat :=
  match fuel with O => i | S fuel => if Nat.ltb 0 i && negb (starts_at s i) then on_to_start fuel s (S i) else i end.

Definition replacement_rune : text := encode_rune rune_error.

Definition omitted_marker (omitted : Z) (absolutePath : text) : text :=
  [newline; newline] ++ lit "[... " ++ itoa omitted ++ lit " bytes omitted ...]" ++
  (if is_empty absolutePath then [] else [newline; newline] ++ lit "Complete value: " ++ absolutePath).

Definition excerptBytes (s : text) (kept : Z) (absolutePath : text) : text :=
  let s := ToValidUTF8 s replacement_rune in
  if len s <=? kept then s
  else
    let kept := Z.max 0 kept in
    let half := kept / 2 in
    let tail := kept - half in
    let head := back_to_start s (Z.to_nat half) in
    let start := (length s - Z.to_nat tail)%nat in
    let startTail := on_to_start (Z.to_nat tail) s start in
    let omitted := len s - Z.of_nat head - (len s - Z.of_nat startTail) in
    take head s ++ omitted_marker omitted absolutePath ++ [newline; newline] ++ drop startTail s.

Definition artifactPreviewBytes : Z := 32 * 1024.
Definition contextTokenLimit : Z := 15000.
Definition contextEntryTokenLimit : Z := 4000.

Definition preview (s : text) : text := excerptBytes s artifactPreviewBytes [].

Class Tokenizer : Type := { tokenCount : text -> Z }.

Section Budget.
Context {tokenizer : Tokenizer}.

(** The search for the largest number that fits: between [low] and [high]. *)
Fixpoint search_best {A} (fuel : nat) (candidate : Z -> A) (fits : A -> bool) (low high : Z) (best : A) : A :=
  match fuel with
  | O => best
  | S fuel =>
      if low <=? high then
        let middle := low + (high - low) / 2 in
        let c := candidate middle in
        if fits c then search_best fuel candidate fits (middle + 1) high c else search_best fuel candidate fits low (middle - 1) best
      else best
  end.

Definition in_budget (limit : Z) (s : text) : bool := tokenCount s <=? limit.

Definition fitExcerptBytes (s absolutePath : text) (maxTokens maxBytes : Z) : text :=
  let high := Z.min (len s) maxBytes in
  let excerpt k := excerptBytes s k absolutePath in
  if (0 <=? high) && in_budget maxTokens (excerpt high) then excerpt high
  else
    let high := if 0 <=? high then high - 1 else high in
    search_best (Z.to_nat (high + 1)) excerpt (in_budget maxTokens) 0 high (excerpt 0).

Definition fitExcerpt (s absolutePath : text) (maxTokens : Z) : text :=
  if in_budget maxTokens s then s else fitExcerptBytes s absolutePath maxTokens artifactPreviewBytes.
End Budget.

(** *** Rendering ([render]) *)

(** [json.Indent] of a document, by two spaces: [quoted] inside a string,
    [escaped] after a backslash in it, [open] after an opening bracket. *)
Fixpoint indent_from (quoted escaped open : bool) (depth : nat) (s : text) : text :=
  match s with
  | [] => []
  | c :: r =>
      let line d := newline :: concat (repeat (lit "  ") d) in
      if quoted then
        c :: (if escaped then indent_from true false false depth r else indent_from (negb (Ascii.eqb c (byte 34))) (Ascii.eqb c "\") false depth r)
      else if is_blank c then indent_from false false open depth r
      else
        let closing := Ascii.eqb c "}" || Ascii.eqb c "]" in
        let pre := if open && negb closing then line (S depth) else [] in
        let depth := if open && negb closing then S depth else depth in
        if Ascii.eqb c "{" || Ascii.eqb c "[" then pre ++ c :: indent_from false false true depth r
        else if Ascii.eqb c "," then pre ++ c :: line depth ++ indent_from false false false depth r
        else if Ascii.eqb c ":" then pre ++ c :: " " :: indent_from false false false depth r
        else if closing then
          (if open then c :: indent_from false false false depth r else line (depth - 1)%nat ++ c :: indent_from false false false (depth - 1)%nat r)
        else pre ++ c :: indent_from (Ascii.eqb c (byte 34)) false false depth r
  end.

Definition Indent (s : text) : option text := _ ← Unmarshal s; Some (indent_from false false false 0 s).

Definition render (raw : text) : text :=
  match Unmarshal_string raw with Some t => t | None => default raw (Indent raw) end.

(** *** Values *)

(** A file of the run that holds a value: whether it is the text of a string
    or a JSON document, and how it begins and ends. *)
Record artifactDescriptor : Type := MkArtifact { af_file : text; af_size : Z; af_text : bool; af_preview : text }.

(** How a value is kept. *)
Inductive scopeValue : Type :=
| Inline (raw : text)
| Artifact (desc : artifactDescriptor).

Record valueScope : Type := MkValueScope { vs_key : text; vs_ended : bool; vs_keys : list text; vs_values : gmap text scopeValue }.

(** A scope with those above it, the innermost first, the files of the run, and
    the values announced. *)
Record values_state : Type := MkValues { va_scopes : list valueScope; va_files : gmap text text; va_events : list (text * text * scopeValue) }.

Definition with_scope (i : nat) (f : valueScope -> valueScope) (st : values_state) : values_state := MkValues (alter f i (va_scopes st)) (va_files st) (va_events st).
Definition put_file (name data : text) (st : values_state) : values_state := MkValues (va_scopes st) (<[name := data]> (va_files st)) (va_events st).
Definition announce_value (scope key : text) (v : scopeValue) (st : values_state) : values_state := MkValues (va_scopes st) (va_files st) (va_events st ++ [(scope, key, v)]).
Definition put_value (key : text) (v : scopeValue) (c : valueScope) : valueScope := MkValueScope (vs_key c) (vs_ended c) (vs_keys c) (<[key := v]> (vs_values c)).
Definition add_key (key : text) (c : valueScope) : valueScope := MkValueScope (vs_key c) (vs_ended c) (vs_keys c ++ [key]) (vs_values c).

(** Which writes of files succeed, the directory of the run, and the first
    twelve bytes of a digest in hexadecimal. *)
Class Files : Type := { written : text -> bool; run_dir : text; digest : text -> text }.

Section Values.
Context {tokenizer : Tokenizer} {files : Files}.

(** [artifactName]: [None] for a path that leaves the directory. *)
Definition artifactName (relative : text) : option text :=
  let root := JoinPath [run_dir; lit "artifacts"] in
  let name := JoinPath [root; relative] in
  rel ← Rel root name;
  if bool_decide (rel = lit "..") || has_prefix (lit "../") rel || has_prefix [Separator] rel then None else Some name.

(** The path of a file within the directory of the run. *)
Definition artifact_name (relative : text) : text := JoinPath [lit "artifacts"; relative].

Definition artifactAbsolute (d : artifactDescriptor) : text := JoinPath [run_dir; af_file d].

(** [writeArtifact]: a file is never replaced. *)
Definition writeArtifact (relative data : text) (is_text : bool) (shown : text) (st : values_state) : option (artifactDescriptor * values_state) :=
  _ ← artifactName relative;
  let name := artifact_name relative in
  if written name && negb (bool_decide (is_Some (va_files st !! name))) then
    Some (MkArtifact name (len data) is_text (preview shown), put_file name data st)
  else None.

(** [writeContentArtifact] *)
Definition writeContentArtifact (kind s : text) (st : values_state) : option (artifactDescriptor * values_state) :=
  let relative := JoinPath [lit "context"; encodedComponent kind; digest s ++ lit ".txt"] in
  _ ← artifactName relative;
  match va_files st !! artifact_name relative with
  | Some data => Some (MkArtifact (artifact_name relative) (len data) true (preview s), st)
  | None => writeArtifact relative s true s st
  end.

(** [spillValueLocked] of a value that is inline. *)
Definition spill (scope key raw : text) (st : values_state) : option (artifactDescriptor * values_state) :=
  match Unmarshal_string raw with
  | Some t => writeArtifact (value_file scope key (lit ".txt")) t true t st
  | None => writeArtifact (value_file scope key (lit ".json")) raw false (render raw) st
  end.

Definition section_of (key body : text) : text := lit "## " ++ key ++ [newline; newline] ++ body.

(** [store] in the innermost scope: [None] is a panic. *)
Definition store_value (key raw : text) (st : values_state) : option values_state :=
  c ← va_scopes st !! 0%nat;
  if vs_ended c || bool_decide (is_Some (vs_values c !! key)) then None
  else
    '(v, st) ← (if contextEntryTokenLimit <? tokenCount (section_of key (render raw)) then '(d, st) ← spill (vs_key c) key raw st; Some (Artifact d, st) else Some (Inline raw, st));
    Some (announce_value (vs_key c) key v (with_scope 0 (fun c => add_key key (put_value key v c)) st)).

(** [visibleValues]: the scope of each by its place in the chain. *)
Fixpoint visible_keys (i : nat) (seen keys : list text) : list (nat * text) * list text :=
  match keys with
  | [] => ([], seen)
  | key :: keys => if bool_decide (key ∈ seen) then visible_keys i seen keys else let (l, seen) := visible_keys i (key :: seen) keys in ((i, key) :: l, seen)
  end.

Fixpoint visible_from (i : nat) (seen : list text) (scopes : list valueScope) : list (nat * text) :=
  match scopes with
  | [] => []
  | c :: scopes => let (l, seen) := visible_keys i seen (rev (vs_keys c)) in l ++ visible_from (S i) seen scopes
  end.

Definition visibleValues (scopes : list valueScope) : list (nat * text) := rev (visible_from 0 [] scopes).

Definition value_at (scopes : list valueScope) (item : nat * text) : option scopeValue := c ← scopes !! item.1; vs_values c !! item.2.

(** [ensureArtifact]: the same value in a file. *)
Definition ensureArtifact (item : nat * text) (st : values_state) : option values_state :=
  c ← va_scopes st !! item.1;
  v ← vs_values c !! item.2;
  match v with
  | Artifact _ => Some st
  | Inline raw =>
      '(d, st) ← spill (vs_key c) item.2 raw st;
      Some (announce_value (vs_key c) item.2 (Artifact d) (with_scope item.1 (put_value item.2 (Artifact d)) st))
  end.

Fixpoint ensure_all (items : list (nat * text)) (st : values_state) : option values_state :=
  match items with [] => Some st | item :: items => st ← ensureArtifact item st; ensure_all items st end.

(** [valueBytes]: the JSON of a value again. *)
Definition valueBytes (st : values_state) (v : scopeValue) : option text :=
  match v with
  | Inline raw => Some raw
  | Artifact d => data ← va_files st !! af_file d; if af_text d then Some (json_string (String.string_of_list_ascii data)) else Some data
  end.

(** *** What a prompt shows *)

Definition complete_line (path : text) : text := lit "Complete value: " ++ path.

Definition json_prefix : text := lit "JSON value (complete file referenced below):" ++ [newline; newline].

(** The section of a value; [bodyBytes] limits what is shown of a file. *)
Definition render_section (bodyBytes : option Z) (key : text) (v : scopeValue) : text :=
  section_of key
    match v with
    | Inline raw => render raw
    | Artifact d =>
        let path := artifactAbsolute d in
        let prefix := if af_text d then [] else json_prefix in
        let maxBytes := default artifactPreviewBytes bodyBytes in
        let allowed := contextEntryTokenLimit - tokenCount (section_of key prefix) in
        let body := prefix ++ fitExcerptBytes (af_preview d) path (allowed - tokenCount ([newline; newline] ++ complete_line path)) maxBytes in
        if contains body (complete_line path) then body else body ++ [newline; newline] ++ complete_line path
    end.

(** [renderVisible]; every visible key has a value. *)
Definition renderVisible (st : values_state) (bodyBytes : option Z) (items : list (nat * text)) : list text :=
  (fun item => match value_at (va_scopes st) item with Some v => render_section bodyBytes item.2 v | None => [] end) <$> items.

Definition joined_sections (sections : list text) : text := join [newline; newline] sections.

Definition preview_length (st : values_state) (item : nat * text) : Z :=
  match value_at (va_scopes st) item with Some (Artifact d) => Z.min artifactPreviewBytes (len (af_preview d)) | _ => 0 end.

(** The index of the visible values: their keys and paths. *)
Definition index_text (st : values_state) (items : list (nat * text)) : text :=
  concat ((fun item => match value_at (va_scopes st) item with
                       | Some (Artifact d) => lit "## " ++ item.2 ++ [newline; newline] ++ complete_line (artifactAbsolute d) ++ [newline; newline]
                       | _ => [] end) <$> items).

(** What is said of a value in the context: its key, its scope and whether the
    prompt holds all of it. *)
Record ContextEntry : Type := MkContextEntry { ce_key : text; ce_scope : text; ce_complete : bool }.

Definition scope_name (st : values_state) (item : nat * text) : text := match va_scopes st !! item.1 with Some c => vs_key c | None => [] end.

(** Whether a section is that of the whole value. *)
Definition complete_section (key raw : text) (v : scopeValue) (shown : text) : bool :=
  let full := section_of key (render raw) in
  bool_decide (shown = full) ||
  match v with
  | Inline _ => false
  | Artifact d =>
      let last := [newline; newline] ++ complete_line (artifactAbsolute d) in
      bool_decide (shown = full ++ last) || (negb (af_text d) && bool_decide (shown = section_of key (json_prefix ++ render raw) ++ last))
  end.

(** [defaultContextEntries]; [None] for the sections is the index, which holds
    no value. *)
Fixpoint defaultContextEntries (st : values_state) (items : list (nat * text)) (sections : option (list text)) : option (list ContextEntry) :=
  match items with
  | [] => Some []
  | item :: items =>
      complete ← (match sections with
                  | None => Some false
                  | Some l => v ← value_at (va_scopes st) item; raw ← valueBytes st v; Some (complete_section item.2 raw v (default [] (head l)))
                  end);
      rest ← defaultContextEntries st items (tail <$> sections);
      Some (MkContextEntry item.2 (scope_name st item) complete :: rest)
  end.

(** [templateContextEntries] *)
Definition templateContextEntries (st : values_state) (shown : text) : option (list ContextEntry) :=
  mapM (fun item => v ← value_at (va_scopes st) item; raw ← valueBytes st v;
                    let body := render raw in
                    Some (MkContextEntry item.2 (scope_name st item) (negb (is_empty body) && contains shown body))) (visibleValues (va_scopes st)).

(** A value as a template sees it. *)
Record ScopeValue : Type := MkScopeValue { sv_key : text; sv_value : json; sv_text : text }.

(** [scopeData]; the map by key holds the same. *)
Definition scopeData (st : values_state) : option (list ScopeValue * gmap text ScopeValue) :=
  l ← mapM (fun item => v ← value_at (va_scopes st) item; raw ← valueBytes st v;
                        let shown := render raw in
                        Some (MkScopeValue item.2 (default (JString shown) (Unmarshal raw)) shown)) (visibleValues (va_scopes st));
  Some (l, foldl (fun m v => <[sv_key v := v]> m) ∅ l).

(** [localText]: the values of the innermost scope alone. *)
Definition localText (st : values_state) : text := joined_sections (renderVisible st None (List.filter (fun item => Nat.eqb item.1 0) (visibleValues (va_scopes st)))).

(** The text of [scopeTextAndContext], and the sections its entries are
    compared with. *)
Definition scope_render (st : values_state) : option (text * option (list text) * values_state) :=
  match visibleValues (va_scopes st) with
  | [] => Some ([], Some [], st)
  | items =>
      let sections := renderVisible st None items in
      if in_budget contextTokenLimit (joined_sections sections) then Some (joined_sections sections, Some sections, st)
      else
        st ← ensure_all items st;
        let high := foldl Z.max 0 (preview_length st <$> items) in
        let candidate k := renderVisible st (Some k) items in
        let best := search_best (Z.to_nat (high + 1)) candidate (fun l => in_budget contextTokenLimit (joined_sections l)) 0 high (candidate 0) in
        if in_budget contextTokenLimit (joined_sections best) then Some (joined_sections best, Some best, st)
        else
          let index := index_text st items in
          '(d, st) ← writeContentArtifact (lit "scope-index") (trim_space index) st;
          Some (fitExcerpt index (artifactAbsolute d) contextTokenLimit, None, st)
  end.

Definition scopeTextAndContext (st : values_state) : option (text * list ContextEntry * values_state) :=
  '(s, sections, st') ← scope_render st;
  entries ← defaultContextEntries st' (visibleValues (va_scopes st)) sections;
  Some (s, entries, st').

(** [budgetRenderedText] *)
Definition budgetRenderedText (kind s : text) (limit : Z) (st : values_state) : option (text * values_state) :=
  if in_budget limit s then Some (s, st)
  else '(d, st) ← writeContentArtifact kind s st; Some (fitExcerptBytes s (artifactAbsolute d) limit artifactPreviewBytes, st).
End Values.

Example indents : Indent (lit "{ 'a':[1,{}],'b':[]}" ≫= fun c => if Ascii.eqb c "'" then [byte 34] else [c]) =
  Some (lit "{
  'a': [
    1,
    {}
  ],
  'b': []
}" ≫= fun c => if Ascii.eqb c "'" then [byte 34] else [c]).
Proof. vm_compute. reflexivity. Qed.

Example names : value_file (lit "lap.1/a b") (lit "k") (lit ".txt") = lit "values/x-bGFwLjE/x-YSBi/x-aw.txt". Proof. vm_compute. reflexivity. Qed.
