(* ===== verification/ValuesProps.v ===== *)
(** * Values of scopes: names, visibility, budgets and honesty

    The names of the files of values are one to one; a prompt sees the nearest
    value of each key; excerpts keep whole characters and count what they leave
    out; moving a value to a file keeps what it is, but for null. *)

From S2P Require Import Prelude GoText PiModel Estimate Json JsonStrings JsonRepairProps GoValue Glob Values.
From Stdlib Require Import Ascii.

Open Scope char_scope.
Open Scope Z_scope.

(** ** Lemmas *)

(** *** Names *)

Definition in_alphabet (c : ascii) : Prop := c <> "/" /\ c <> ".".

Lemma base64_sound : forallb (fun n => (let c := base64url n in negb (Ascii.eqb c "/") && negb (Ascii.eqb c ".")) && forallb (fun m => (n =? m) || negb (Ascii.eqb (base64url n) (base64url m))) (seqZ 0 64)) (seqZ 0 64) = true.
Proof. by vm_compute. Qed.

Lemma base64_facts n : 0 <= n < 64 -> in_alphabet (base64url n) /\ forall m, 0 <= m < 64 -> base64url n = base64url m -> n = m.
Proof.
  intros Hn. pose proof base64_sound as H. rewrite forallb_forall in H. specialize (H n). rewrite <- list_elem_of_In, elem_of_seqZ in H. specialize (H ltac:(lia)).
  apply andb_true_iff in H as [Hc Hm]. cbn zeta in Hc. apply andb_true_iff in Hc as [H1%negb_true_iff H2%negb_true_iff]. apply Ascii.eqb_neq in H1, H2. split; [done|].
  intros m Hm' E. rewrite forallb_forall in Hm. specialize (Hm m). rewrite <- list_elem_of_In, elem_of_seqZ in Hm. specialize (Hm ltac:(lia)).
  apply orb_true_iff in Hm as [?%Z.eqb_eq|H%negb_true_iff]; [done|]. by rewrite E, Ascii.eqb_refl in H.
Qed.

Lemma triple_ind (P : text -> Prop) : P [] -> (forall a, P [a]) -> (forall a b, P [a; b]) -> (forall a b c r, P r -> P (a :: b :: c :: r)) -> forall s, P s.
Proof.
  intros H0 H1 H2 H3. fix IH 1. intros s. destruct s as [|a [|b [|c r]]]; [done|apply H1|apply H2|apply H3, IH].
Qed.

Lemma encoded_alphabet s : Forall in_alphabet (EncodeToString s).
Proof.
  induction s as [|a|a b|a b c r IH] using triple_ind; cbn [EncodeToString]; repeat (constructor; [apply base64_facts; match goal with |- context [code ?x] => pose proof (code_bound x) end; try (match goal with |- context [_ + code ?y / _] => pose proof (code_bound y) end); Z.to_euclidean_division_equations; lia|]); [constructor..|exact IH].
Qed.

Lemma base64_inj n m : base64url n = base64url m -> 0 <= n < 64 -> 0 <= m < 64 -> n = m.
Proof. intros E Hn Hm. by apply base64_facts. Qed.

Lemma code_injective a b : code a = code b -> a = b.
Proof. intros E. by rewrite <- (code_byte a), <- (code_byte b), E. Qed.

Lemma EncodeToString_inj s t : EncodeToString s = EncodeToString t -> s = t.
Proof.
  assert (forall x y, 0 <= x < 256 -> 0 <= y < 256 -> x / 4 = y / 4 -> x mod 4 = y mod 4 -> x = y) as H4 by (intros; Z.to_euclidean_division_equations; lia).
  revert t. induction s as [|a|a b|a b c r IH] using triple_ind; intros t; destruct t as [|a' [|b' [|c' r']]]; try done; cbn [EncodeToString]; intros E; injection E; clear E; intros.
  all: repeat match goal with x : ascii |- _ => lazymatch goal with _ : 0 <= code x < 256 |- _ => fail | _ => pose proof (code_bound x) end end.
  all: repeat match goal with E : base64url _ = base64url _ |- _ => apply base64_inj in E; [|Z.to_euclidean_division_equations; lia..] end.
  - f_equal. apply code_injective. Z.to_euclidean_division_equations; lia.
  - f_equal; [|f_equal]; apply code_injective; Z.to_euclidean_division_equations; lia.
  - repeat f_equal; [..|by apply IH]; apply code_injective; Z.to_euclidean_division_equations; lia.
Qed.

(** *** Paths of good elements *)

Definition good (e : text) : Prop := e <> [] /\ Separator ∉ e /\ e <> lit "." /\ e <> lit "..".

Lemma good_clean l : forall acc, Forall good l -> clean_from false acc l = acc ++ l.
Proof.
  induction l as [|e l IH]; intros acc H; [by rewrite app_nil_r|]. apply Forall_cons in H as [(H1 & H2 & H3 & H4) Hl]. cbn [clean_from].
  rewrite (bool_decide_eq_false_2 (e = lit ".")), (bool_decide_eq_false_2 (e = lit "..")) by done. destruct e; [done|]. cbn [is_empty orb]. by rewrite IH, <- app_assoc.
Qed.

Lemma good_split l : l <> [] -> Forall good l -> split_byte Separator (join [Separator] l) = l.
Proof. intros Hne H. apply split_join; [done|]. eapply Forall_impl; [exact H|]. by intros e (_ & ? & _). Qed.

Lemma Clean_good l : l <> [] -> Forall good l -> Clean (join [Separator] l) = join [Separator] l.
Proof.
  intros Hne H. unfold Clean, elements. assert (has_prefix [Separator] (join [Separator] l) = false) as Hp.
  { destruct l as [|e l]; [done|]. apply Forall_cons in H as [(H1 & H2 & _) _]. destruct e as [|c e]; [done|]. apply not_elem_of_cons in H2 as [Hc _].
    assert (forall t, has_prefix [Separator] ((c :: e) ++ t) = false) as Hh by (intros t; cbn [app has_prefix]; by destruct (Ascii.eqb_spec Separator c)).
    destruct l as [|y l]; [rewrite <- (app_nil_r (join _ _)); apply Hh|apply Hh]. }
  rewrite Hp, good_split, good_clean by done. by destruct l.
Qed.

Lemma join_joins (ls : list (list text)) : Forall (fun l => l <> []) ls -> join [Separator] (join [Separator] <$> ls) = join [Separator] (concat ls).
Proof.
  intros H. induction H as [|l ls Hl Hls IH]; [done|]. destruct ls as [|l2 ls]; [cbn; by rewrite app_nil_r|].
  change (join [Separator] (join [Separator] <$> l :: l2 :: ls)) with (join [Separator] l ++ [Separator] ++ join [Separator] (join [Separator] <$> l2 :: ls)). rewrite IH.
  apply Forall_cons in Hls as [Hl2 _]. cbn [concat]. assert (forall a b : list text, a <> [] -> b <> [] -> join [Separator] (a ++ b) = join [Separator] a ++ [Separator] ++ join [Separator] b) as Hjoin.
  { clear. intros a b Ha Hb. induction a as [|x a IH]; [done|]. destruct a as [|y a]; [by destruct b|].
    change (join [Separator] ((x :: y :: a) ++ b)) with (x ++ [Separator] ++ join [Separator] ((y :: a) ++ b)). rewrite IH by done. change (join [Separator] (x :: y :: a)) with (x ++ [Separator] ++ join [Separator] (y :: a)). by rewrite <- !app_assoc. }
  rewrite (Hjoin l); [done|done|]. by destruct l2.
Qed.

Lemma join_nonempty l : l <> [] -> Forall good l -> join [Separator] l <> [].
Proof. intros Hne H E. apply (f_equal (split_byte Separator)) in E. rewrite good_split in E by done. subst l. apply Forall_cons in H as [[H _] _]. done. Qed.

Lemma JoinPath_good (ls : list (list text)) : ls <> [] -> Forall (fun l => l <> [] /\ Forall good l) ls -> JoinPath (join [Separator] <$> ls) = join [Separator] (concat ls).
Proof.
  intros Hne H. unfold JoinPath. assert (List.filter (fun p => negb (is_empty p)) (join [Separator] <$> ls) = join [Separator] <$> ls) as ->.
  { clear Hne. induction H as [|l ls [Hl Hg] _ IH]; [done|]. cbn. rewrite IH. pose proof (join_nonempty l Hl Hg). by destruct (join [Separator] l). }
  transitivity (Clean (join [Separator] (join [Separator] <$> ls))); [by destruct ls|]. rewrite join_joins by (eapply Forall_impl; [exact H|]; by intros ? [? _]).
  assert (concat ls <> [] /\ Forall good (concat ls)) as [Hc Hg].
  { split; [destruct H as [|l ls [Hl _] _]; [done|]; by destruct l|]. apply Forall_concat. eapply Forall_impl; [exact H|]. by intros ? [_ ?]. }
  by apply Clean_good.
Qed.

(** *** Components *)

(** Numbers are written apart. *)
Lemma digits_value fuel n acc : (n < 10 ^ N.of_nat fuel)%N -> exists ds, digits fuel n acc = ds ++ acc /\ dec_value ds = Z.of_N n.
Proof.
  revert n acc. induction fuel as [|fuel IH]; intros n acc Hn; [exists []; split; [done|]; cbn in *; lia|]. cbn [digits].
  assert (forall d, (d < 10)%N -> code (ascii_of_N (48 + d)) - 48 = Z.of_N d) as Hd.
  { intros d Hd. unfold code. rewrite N_ascii_embedding by lia. lia. }
  destruct (N.ltb_spec n 10) as [Hlt|Hge].
  - exists [ascii_of_N (48 + n mod 10)]. split; [done|]. cbn [dec_value foldl]. unfold dec_value. cbn. rewrite N.mod_small by done. specialize (Hd n Hlt). lia.
  - destruct (IH (n / 10)%N (ascii_of_N (48 + n mod 10) :: acc)) as (ds & -> & Hv).
    { apply N.Div0.div_lt_upper_bound. rewrite Nat2N.inj_succ, N.pow_succ_r' in Hn. lia. }
    exists (ds ++ [ascii_of_N (48 + n mod 10)]). rewrite <- app_assoc. split; [done|]. unfold dec_value in *. rewrite foldl_app, Hv. cbn [foldl].
    rewrite Hd by (apply N.mod_lt; lia). pose proof (N.div_mod n 10). lia.
Qed.

Lemma itoa_inj a b : 0 <= a < 10 ^ 20 -> 0 <= b < 10 ^ 20 -> itoa a = itoa b -> a = b.
Proof.
  assert (forall z, 0 <= z < 10 ^ 20 -> dec_value (itoa z) = z) as H.
  { intros z Hz. unfold itoa. destruct (Z.ltb_spec z 0); [lia|]. destruct (digits_value 20 (Z.to_N (Z.abs z)) []) as (ds & -> & Hv); [cbn; lia|]. rewrite app_nil_r, Hv. lia. }
  intros Ha Hb E. by rewrite <- (H a Ha), <- (H b Hb), E.
Qed.

Definition head_letter (l : list text) : option ascii := match l with (c :: _) :: _ => Some c | _ => None end.

Lemma digits_alphabet fuel n acc : Forall in_alphabet acc -> Forall in_alphabet (digits fuel n acc).
Proof.
  revert n acc. induction fuel as [|fuel IH]; intros n acc H; [done|]. cbn [digits].
  assert (in_alphabet (ascii_of_N (48 + n mod 10))) as Hd.
  { pose proof (N.mod_lt n 10 ltac:(lia)) as Hm. revert Hm. generalize (n mod 10)%N. intros d Hd. split; intros E; apply (f_equal N_of_ascii) in E; rewrite N_ascii_embedding in E by lia; cbn in E; lia. }
  destruct (n <? 10)%N; [by constructor|]. apply IH. by constructor.
Qed.

Lemma itoa_alphabet z : 0 <= z -> Forall in_alphabet (itoa z).
Proof. intros H. unfold itoa. destruct (Z.ltb_spec z 0); [lia|]. by apply digits_alphabet. Qed.

Lemma good_word c s : forallb (fun c => negb (Ascii.eqb c Separator)) (c :: s) = true -> Ascii.eqb c "." = false -> good (c :: s).
Proof.
  intros H Hc. apply Ascii.eqb_neq in Hc. split_and!; [done| |intros [= E]; done|intros [= E]; done].
  rewrite forallb_forall in H. intros Hin%list_elem_of_In%H. by rewrite Ascii.eqb_refl in Hin.
Qed.

Lemma marked_good (pre s : text) : Forall in_alphabet (pre ++ s) -> (2 <= length pre)%nat -> good (pre ++ s) /\ "." ∉ pre ++ s.
Proof.
  intros H Hl. rewrite Forall_forall in H. split; [|by intros Hin%H; destruct Hin].
  destruct pre as [|a [|b pre]]; [cbn in Hl; lia..|]. pose proof (H a ltac:(left)) as [Ha Ha'].
  split_and!; [done|intros Hin%H; by destruct Hin|intros [= E _]; done|intros [= E _ _]; done].
Qed.

Lemma pieces_good fuel s : Forall in_alphabet s -> Forall (fun p => good p /\ "." ∉ p) (pieces fuel s).
Proof.
  revert s. induction fuel as [|fuel IH]; intros s H; cbn [pieces]; [constructor|]. destruct s as [|c s]; [constructor|]. constructor.
  - apply (marked_good (lit "x-")); [|done]. apply Forall_app. split; [by repeat constructor|by apply Forall_take].
  - by apply IH, Forall_drop.
Qed.

Lemma component_good name : component_parts name <> [] /\ Forall (fun p => good p /\ "." ∉ p) (component_parts name).
Proof.
  unfold component_parts. pose proof (encoded_alphabet name) as He. destruct (_ <=? _); (split; [done|]); constructor; [|constructor| |by apply pieces_good].
  - apply (marked_good (lit "x-")); [|done]. apply Forall_app. split; [by repeat constructor|done].
  - apply (marked_good (lit "long-")); [|cbn; lia]. apply Forall_app. split; [by repeat constructor|]. apply itoa_alphabet, len_nonneg.
Qed.

Lemma just_good l : Forall (fun p => good p /\ "." ∉ p) l -> Forall good l.
Proof. intros H. eapply Forall_impl; [exact H|]. by intros ? [? _]. Qed.

Lemma encodedComponent_parts name : encodedComponent name = join [Separator] (component_parts name).
Proof.
  destruct (component_good name) as [_ Hg%just_good]. unfold encodedComponent. unfold component_parts in *. destruct (_ <=? _); [done|].
  match goal with |- JoinPath ?l = _ => replace (JoinPath l) with (JoinPath (join [Separator] <$> ((fun p => [p]) <$> l))) by (f_equal; rewrite <- list_fmap_compose; apply list_fmap_id) end.
  rewrite JoinPath_good; [|done|].
  - f_equal. induction (_ :: _) as [|x l IH]; [done|]. cbn. f_equal. apply IH. by apply Forall_cons in Hg as [_ ?].
  - apply Forall_fmap. eapply Forall_impl; [exact Hg|]. intros p Hp. split; [done|]. by constructor.
Qed.

(** The elements of the path of a scope, and of the file of a value. *)
Definition path_parts (name : text) : list text := match name with [] => [lit "root"] | _ => concat (component_parts <$> split_byte Separator name) end.

Fixpoint add_extension (extension : text) (l : list text) : list text :=
  match l with [] => [] | [x] => [x ++ extension] | x :: l => x :: add_extension extension l end.

Lemma component_concat l : Forall (fun p => good p /\ "." ∉ p) (concat (component_parts <$> l)).
Proof. apply Forall_concat, Forall_fmap. apply Forall_true. intros x. apply component_good. Qed.

Lemma path_parts_good name : path_parts name <> [] /\ Forall good (path_parts name).
Proof.
  unfold path_parts. destruct name as [|c name]; [split; [done|]; constructor; [by apply good_word|constructor]|]. split; [|apply just_good, component_concat].
  pose proof (split_byte_nonempty Separator (c :: name)). destruct (split_byte Separator (c :: name)) as [|x l]; [done|]. cbn. destruct (component_good x) as [H1 _]. by destruct (component_parts x).
Qed.

Lemma encodedPath_parts name : encodedPath name = join [Separator] (path_parts name).
Proof.
  destruct name as [|c name]; [done|]. cbn [encodedPath path_parts]. replace (encodedComponent <$> split_byte Separator (c :: name)) with (join [Separator] <$> (component_parts <$> split_byte Separator (c :: name))).
  - apply JoinPath_good.
    + pose proof (split_byte_nonempty Separator (c :: name)). by destruct (split_byte Separator (c :: name)).
    + apply Forall_fmap, Forall_true. intros x. destruct (component_good x) as [? ?%just_good]. done.
  - rewrite <- list_fmap_compose. apply list_fmap_ext. intros _ x _. cbn. by rewrite encodedComponent_parts.
Qed.

Lemma add_extension_join extension l : l <> [] -> join [Separator] (add_extension extension l) = join [Separator] l ++ extension.
Proof.
  induction l as [|x l IH]; [done|]. intros _. destruct l as [|y l]; [done|]. change (add_extension extension (x :: y :: l)) with (x :: add_extension extension (y :: l)).
  change (join [Separator] (x :: y :: l)) with (x ++ [Separator] ++ join [Separator] (y :: l)). rewrite <- !app_assoc, <- IH by done. by destruct l.
Qed.

(** What an extension is. *)
Definition extension_ok (extension : text) : Prop := exists e, extension = "." :: e /\ Separator ∉ e.

Lemma add_extension_good extension l : extension_ok extension -> Forall (fun p => good p /\ "." ∉ p) l -> Forall good (add_extension extension l) /\ length (add_extension extension l) = length l.
Proof.
  intros (e & -> & He) H. induction H as [|x l Hx Hl IH]; [done|]. destruct l as [|y l].
  - split; [|done]. constructor; [|constructor]. destruct Hx as [(H1 & H2 & H3 & H4) Hd]. destruct x as [|a x]; [done|]. rewrite not_elem_of_cons in Hd.
    split_and!; [done|rewrite elem_of_app; intros [Hin|[Hin|Hin]%elem_of_cons]; [by apply H2|discriminate Hin|by apply He]|intros E; injection E as E _; by destruct Hd|intros E; injection E as E _; by destruct Hd].
  - change (add_extension ("." :: e) (x :: y :: l)) with (x :: add_extension ("." :: e) (y :: l)). destruct IH as [IH1 IH2]. split; [constructor; [apply Hx|done]|cbn [length] in *; by rewrite IH2].
Qed.

Lemma value_file_parts scope key extension : extension_ok extension ->
  value_file scope key extension = join [Separator] (lit "values" :: path_parts scope ++ add_extension extension (component_parts key)).
Proof.
  intros Hx. destruct (component_good key) as [Hne Hg]. destruct (path_parts_good scope) as [Hp Hpg]. destruct (add_extension_good extension _ Hx Hg) as [Hag Hal].
  unfold value_file. rewrite encodedPath_parts, encodedComponent_parts, <- add_extension_join by done.
  change [lit "values"; join [Separator] (path_parts scope); join [Separator] (add_extension extension (component_parts key))] with (join [Separator] <$> [[lit "values"]; path_parts scope; add_extension extension (component_parts key)]).
  rewrite JoinPath_good; [cbn; by rewrite app_nil_r|done|]. constructor; [split; [done|]; constructor; [by apply good_word|constructor]|]. constructor; [done|]. constructor; [|constructor]. split; [|done].
  intros E. rewrite E in Hal. by destruct (component_parts key).
Qed.

(** *** Apart *)

Lemma pieces_apart n s t r r' : (length s <= n)%nat -> length s = length t -> pieces n s ++ r = pieces n t ++ r' -> s = t /\ r = r'.
Proof.
  revert s t. induction n as [|n IH]; intros s t Hs Hl E; [destruct s; [|cbn in Hs; lia]; by destruct t|].
  destruct s as [|a s], t as [|b t]; try done. cbn [pieces] in E. set (s0 := a :: s) in *. set (t0 := b :: t) in *. injection E as E1 E2 E3.
  destruct (IH (drop 118 s0) (drop 118 t0)) as [Hd Hr]; [rewrite length_drop; subst s0; cbn in *; lia|by rewrite !length_drop, Hl|exact E3|].
  split; [|done]. rewrite <- (take_drop 118 s0), <- (take_drop 118 t0), Hd. f_equal. subst s0 t0. change (a :: take 117 s = b :: take 117 t). by rewrite E1, E2.
Qed.

Lemma pieces_length n s t : length s = length t -> length (pieces n s) = length (pieces n t).
Proof.
  revert s t. induction n as [|n IH]; intros s t H; [done|]. destruct s, t; try done. cbn [pieces length]. f_equal. apply IH. by rewrite !length_drop, H.
Qed.

(** Names short enough for their length to be written. *)
Definition writable (name : text) : Prop := len (EncodeToString name) < 10 ^ 20.

Lemma component_apart a b r r' : writable a -> writable b -> component_parts a ++ r = component_parts b ++ r' -> a = b /\ r = r'.
Proof.
  unfold writable, component_parts. intros Ha Hb. pose proof (len_nonneg (EncodeToString a)). pose proof (len_nonneg (EncodeToString b)).
  destruct (_ <=? _), (_ <=? _); cbn [app]; intros E; injection E as E1 E2; try done.
  - split; [by apply EncodeToString_inj|done].
  - apply itoa_inj in E1; [|lia..]. unfold len in E1. apply Nat2Z.inj in E1. rewrite E1 in E2. destruct (pieces_apart (length (EncodeToString b)) _ _ _ _ ltac:(rewrite E1; lia) E1 E2) as [E3 E4]. split; [by apply EncodeToString_inj|done].
Qed.

Lemma dot_split (a b : text) e e' : "." ∉ a -> "." ∉ b -> a ++ "." :: e = b ++ "." :: e' -> a = b /\ e = e'.
Proof.
  revert b. induction a as [|x a IH]; intros b Ha Hb E; destruct b as [|y b]; cbn in E.
  - by injection E as ->.
  - injection E as <- _. rewrite not_elem_of_cons in Hb. by destruct Hb.
  - injection E as -> _. rewrite not_elem_of_cons in Ha. by destruct Ha.
  - injection E as <- E. rewrite not_elem_of_cons in Ha, Hb. destruct (IH b) as [-> ->]; naive_solver.
Qed.

Lemma add_extension_apart e e' l l' : Forall (fun p => good p /\ "." ∉ p) l -> Forall (fun p => good p /\ "." ∉ p) l' -> l <> [] -> length l = length l' ->
  add_extension ("." :: e) l = add_extension ("." :: e') l' -> l = l' /\ e = e'.
Proof.
  intros H. revert l'. induction H as [|x l [_ Hx] Hl IH]; intros l' H' Hne Hlen E; [done|]. destruct H' as [|x' l' [_ Hx'] Hl']; [done|].
  destruct l as [|y l], l' as [|y' l']; try done.
  - cbn in E. injection E as E. by apply dot_split in E as [-> ->].
  - change (x :: add_extension ("." :: e) (y :: l) = x' :: add_extension ("." :: e') (y' :: l')) in E. injection E as <- E. destruct (IH (y' :: l')) as [-> ->]; try done. cbn in *. lia.
Qed.

(** The parts of a file are not those of a directory. *)
Lemma file_is_no_directory key e name r : writable key -> writable name -> r <> [] -> add_extension ("." :: e) (component_parts key) <> component_parts name ++ r.
Proof.
  intros Hk Hn Hr E. destruct (component_good name) as [_ Hg]. destruct (component_good key) as [_ Hkg]. pose proof E as E0. apply (f_equal length) in E0.
  assert (extension_ok ("." :: []) ) as Hxo by (exists []; split; [done|apply not_elem_of_nil]).
  unfold writable, component_parts in *. pose proof (len_nonneg (EncodeToString key)). pose proof (len_nonneg (EncodeToString name)).
  assert (forall e l, length (add_extension e l) = length l) as Hal by (clear; intros e l; induction l as [|x l IH]; [done|]; destruct l; [done|]; cbn [add_extension length] in *; by rewrite IH).
  rewrite Hal, length_app in E0. assert (length r <> 0%nat) as Hr' by (by destruct r).
  destruct (_ <=? _), (_ <=? _); cbn [add_extension app length] in *; try lia.
  - destruct (pieces (length (EncodeToString key)) (EncodeToString key)); discriminate E.
  - destruct (pieces (length (EncodeToString key)) (EncodeToString key)) as [|p ps] eqn:Ep; [cbn in E0; lia|]. injection E as E1 E2.
    apply itoa_inj in E1; [|lia..]. unfold len in E1. apply Nat2Z.inj in E1. rewrite <- E1 in E0. pose proof (pieces_length (length (EncodeToString key)) _ _ E1) as Hpl. rewrite Ep in Hpl. cbn [length] in *. lia.
Qed.

Lemma names_apart l l' key key' e e' : Forall writable l -> Forall writable l' -> writable key -> writable key' ->
  concat (component_parts <$> l) ++ add_extension ("." :: e) (component_parts key) = concat (component_parts <$> l') ++ add_extension ("." :: e') (component_parts key') -> l = l' /\ key = key' /\ e = e'.
Proof.
  intros Hl Hl' Hk Hk'. assert (forall e k, add_extension ("." :: e) (component_parts k) <> []) as Hne.
  { intros x k E. destruct (component_good k) as [Hn _]. destruct (component_parts k) as [|a [|b m]]; done. }
  revert l' Hl'. induction Hl as [|c l Hc Hl IH]; intros l' Hl' E; destruct Hl' as [|c' l' Hc' Hl']; cbn [fmap list_fmap concat app] in E.
  - destruct (component_good key) as [Hn Hg]. destruct (component_good key') as [Hn' Hg']. assert (length (component_parts key) = length (component_parts key')) as Hlen.
    { apply (f_equal length) in E. assert (forall e l, length (add_extension e l) = length l) as Hal by (clear; intros e l; induction l as [|x l IH]; [done|]; destruct l; [done|]; cbn [add_extension length] in *; by rewrite IH). by rewrite !Hal in E. }
    destruct (add_extension_apart e e' _ _ Hg Hg' Hn Hlen E) as [E1 ->]. split; [done|]. split; [|done].
    apply (component_apart key key' [] []); [done..|]. by rewrite !app_nil_r.
  - rewrite <- app_assoc in E. exfalso. eapply file_is_no_directory; [exact Hk|exact Hc'| |exact E]. destruct (concat _); [apply Hne|done].
  - rewrite <- app_assoc in E. exfalso. symmetry in E. eapply file_is_no_directory; [exact Hk'|exact Hc| |exact E]. destruct (concat _); [apply Hne|done].
  - rewrite <- !app_assoc in E. apply component_apart in E as [-> E]; [|done..]. destruct (IH l' Hl' E) as (-> & -> & ->). done.
Qed.

Lemma encoded_length s : (length (EncodeToString s) <= 2 * length s)%nat.
Proof. induction s as [|a|a b|a b c r IH] using triple_ind; cbn [EncodeToString length] in *; lia. Qed.

Lemma writable_part c s : len s < 2 ^ 62 -> Forall writable (split_byte c s) /\ writable s.
Proof.
  intros H. assert (forall x, (length x <= length s)%nat -> writable x) as Hw by (intros x Hx; unfold writable, len in *; pose proof (encoded_length x); lia). split; [|by apply Hw].
  eapply Forall_impl; [|exact Hw]. clear. induction s as [|d s IH]; cbn [split_byte]; [by repeat constructor|]. destruct (Ascii.eqb d c).
  - constructor; [cbn; lia|]. eapply Forall_impl; [exact IH|]. cbn. lia.
  - pose proof (split_byte_nonempty c s). destruct (split_byte c s) as [|x l]; [done|]. apply Forall_cons in IH as [Hx Hl]. constructor; [cbn; lia|]. eapply Forall_impl; [exact Hl|]. cbn. lia.
Qed.

(** *** What is visible *)

Definition keys_at (scopes : list valueScope) (i : nat) : list text := match scopes !! i with Some c => vs_keys c | None => [] end.

(** No scope further in sets the key. *)
Definition unshadowed (scopes : list valueScope) (i : nat) (key : text) : bool := forallb (fun c => negb (bool_decide (key ∈ vs_keys c))) (take i scopes).

(** The values of the outermost scope first, each in the order they were set,
    without those that are shadowed. *)
Definition nearest (scopes : list valueScope) : list (nat * text) :=
  flat_map (fun i => pair i <$> List.filter (unshadowed scopes i) (keys_at scopes i)) (rev (seq 0 (length scopes))).

Lemma visible_keys_spec i seen keys : NoDup keys ->
  exists seen', visible_keys i seen keys = (pair i <$> List.filter (fun key => negb (bool_decide (key ∈ seen))) keys, seen') /\ (forall key, key ∈ seen' <-> key ∈ seen \/ key ∈ keys).
Proof.
  revert seen. induction keys as [|key keys IH]; intros seen Hn; cbn [visible_keys List.filter].
  - exists seen. split; [done|]. intros key. rewrite elem_of_nil. tauto.
  - apply NoDup_cons in Hn as [Hk Hn]. destruct (bool_decide (key ∈ seen)) eqn:Es; cbn [negb].
    + apply bool_decide_eq_true in Es. destruct (IH seen Hn) as (seen' & E & Hs). exists seen'. split; [exact E|]. intros k. rewrite Hs, elem_of_cons. naive_solver.
    + destruct (IH (key :: seen) Hn) as (seen' & E & Hs). rewrite E. exists seen'. split.
      * cbn [fmap list_fmap]. do 2 f_equal. apply (f_equal (fmap (pair i))). clear -Hk. induction keys as [|k keys IH]; [done|]. apply not_elem_of_cons in Hk as [Hne Hk]. cbn [List.filter].
        rewrite IH by done. assert (bool_decide (k ∈ key :: seen) = bool_decide (k ∈ seen)) as -> by (apply bool_decide_ext; rewrite elem_of_cons; naive_solver). done.
      * intros k. rewrite Hs, !elem_of_cons. tauto.
Qed.

Lemma rev_filter {A} (f : A -> bool) l : List.filter f (rev l) = rev (List.filter f l).
Proof. induction l as [|x l IH]; [done|]. cbn. rewrite List.filter_app, IH. cbn. destruct (f x); cbn; [done|by rewrite app_nil_r]. Qed.

Lemma visible_from_nearest all prev rest seen : all = prev ++ rest -> Forall (fun c => NoDup (vs_keys c)) rest ->
  (forall key, key ∈ seen <-> exists c, c ∈ prev /\ key ∈ vs_keys c) ->
  rev (visible_from (length prev) seen rest) = flat_map (fun i => pair i <$> List.filter (unshadowed all i) (keys_at all i)) (rev (seq (length prev) (length rest))).
Proof.
  intros Hall Hn. revert prev seen Hall. induction Hn as [|c rest Hc Hn IH]; intros prev seen Hall Hseen; [done|]. cbn [visible_from length].
  destruct (visible_keys_spec (length prev) seen (rev (vs_keys c))) as (seen' & -> & Hs); [by apply NoDup_ListNoDup, NoDup_rev, NoDup_ListNoDup|].
  cbn [seq rev]. rewrite rev_app_distr, flat_map_app. cbn [flat_map]. rewrite app_nil_r. f_equal.
  - replace (S (length prev)) with (length (prev ++ [c])) by (rewrite length_app; cbn; lia). apply IH; [by rewrite <- app_assoc|].
    intros key. rewrite Hs, Hseen. assert (key ∈ rev (vs_keys c) <-> key ∈ vs_keys c) as -> by (rewrite !list_elem_of_In; symmetry; apply in_rev). split.
    + intros [(d & Hd & Hk)|Hk]; [exists d|exists c]; (split; [apply elem_of_app|done]); [by left|right; by left].
    + intros (d & Hd & Hk). apply elem_of_app in Hd as [Hd|Hd%list_elem_of_singleton]; [left; by exists d|right; by subst].
  - unfold keys_at. rewrite Hall, list_lookup_middle by done. rewrite rev_filter.
    assert (forall l : list text, rev (pair (length prev) <$> rev l) = pair (length prev) <$> l) as Hrev by (intros l; change (rev (map (pair (length prev)) (rev l)) = map (pair (length prev)) l); by rewrite <- map_rev, rev_involutive).
    rewrite Hrev. f_equal. apply filter_ext_in. intros key Hkey. unfold unshadowed. rewrite take_app_length.
    destruct (bool_decide (key ∈ seen)) eqn:E; cbn [negb]; symmetry.
    + apply bool_decide_eq_true, Hseen in E as (d & Hd & Hk). apply not_true_is_false. intros Hf. rewrite forallb_forall in Hf. specialize (Hf d (proj1 (list_elem_of_In _ _) Hd)). by rewrite bool_decide_eq_true_2 in Hf.
    + apply bool_decide_eq_false in E. apply forallb_forall. intros d Hd%list_elem_of_In. apply negb_true_iff, bool_decide_eq_false. intros Hk. apply E, Hseen. by exists d.
Qed.

(** *** Valid text *)

(** Whole characters, none malformed. *)
Inductive utf8 : text -> Prop :=
| utf8_nil : utf8 []
| utf8_ascii c s : code c < 128 -> utf8 s -> utf8 (c :: s)
| utf8_wide c a s z : Forall (fun x => cont x = true) a -> (1 <= length a <= 3)%nat -> 128 <= code c -> cont c = false -> (forall r, decode_rune (c :: a ++ r) = (z, S (length a))) -> utf8 s -> utf8 (c :: a ++ s).

Lemma utf8_app a b : utf8 a -> utf8 b -> utf8 (a ++ b).
Proof.
  intros Ha Hb. induction Ha as [|c s Hc Hs IH|c a s z Ha Hl Hc Hn Hd Hs IH]; [done|by apply utf8_ascii|].
  cbn [app]. rewrite <- app_assoc. by eapply utf8_wide.
Qed.

Lemma not_cont_head c r z n : decode_rune (c :: r) = (z, n) -> (2 <= n)%nat -> cont c = false.
Proof. intros E Hn. destruct (cont c) eqn:Ec; [|done]. rewrite decode_rune_cont in E by done. injection E as _ <-. lia. Qed.

(** The bytes of a rune that was read, if it is not malformed. *)
Lemma rune_utf8 c s z n : decode_rune (c :: s) = (z, n) -> is_invalid (z, take n (c :: s)) = false -> utf8 (take n (c :: s)).
Proof.
  intros E Hv. destruct (decide (n = 1%nat)) as [->|Hn].
  - destruct (decode_rune_narrow _ _ _ E) as [[Hc ->]|[Hc ->]]; [|done]. apply utf8_ascii; [done|constructor].
  - pose proof (decode_rune_width c s) as Hw. rewrite E in Hw. cbn [snd] in Hw. destruct (decode_rune_wide _ _ _ _ E ltac:(lia)) as (H1 & H2 & a & b & -> & <- & H4 & H5).
    cbn [take]. rewrite take_app_length, <- (app_nil_r a). eapply utf8_wide; [done|lia|done|eapply not_cont_head; [exact E|lia]|exact H5|constructor].
Qed.

Lemma replacement_utf8 : utf8 replacement_rune.
Proof.
  change replacement_rune with (byte 0xEF :: [byte 0xBF; byte 0xBD] ++ []). apply (utf8_wide _ _ _ rune_error); [by repeat constructor|cbn; lia|by vm_compute|by vm_compute| |constructor].
  intros r. reflexivity.
Qed.

Lemma ToValidUTF8_utf8 s : utf8 (ToValidUTF8 s replacement_rune).
Proof.
  unfold ToValidUTF8, runes. generalize false. remember (length s) as n eqn:En. assert (length s <= n)%nat as Hn by lia. clear En. revert s Hn.
  induction n as [|n IH]; intros s Hn b; [constructor|]. destruct s as [|c s]; [constructor|]. cbn [runes_fuel]. destruct (decode_rune (c :: s)) as [z k] eqn:E. cbn [valid_runes].
  pose proof (decode_rune_width c s) as Hw. rewrite E in Hw. cbn [snd] in Hw. assert (length (drop k (c :: s)) <= n)%nat as Hd by (rewrite length_drop; cbn in *; lia).
  destruct (is_invalid (z, take k (c :: s))) eqn:Ei.
  - apply utf8_app; [destruct b; [constructor|apply replacement_utf8]|by apply IH].
  - apply utf8_app; [by eapply rune_utf8|by apply IH].
Qed.

(** Cutting at the start of a rune. *)
Lemma utf8_cut s i : utf8 s -> starts_at s i = true -> (i <= length s)%nat -> utf8 (take i s) /\ utf8 (drop i s).
Proof.
  intros H. revert i. induction H as [|c s Hc Hs IH|c a s z Ha Hl Hc Hn Hd Hs IH]; intros i Hi Hle.
  - rewrite take_nil, drop_nil. split; constructor.
  - destruct i as [|i]; [split; [constructor|by apply utf8_ascii]|]. destruct (IH i Hi) as [H1 H2]; [cbn in Hle; lia|]. split; [by apply utf8_ascii|done].
  - destruct i as [|i]; [split; [constructor|by eapply utf8_wide]|]. destruct (decide (i < length a)%nat) as [Hlt|Hge].
    + exfalso. unfold starts_at in Hi. change ((c :: a ++ s) !! S i) with ((a ++ s) !! i) in Hi. rewrite lookup_app_l in Hi by done. destruct (lookup_lt_is_Some_2 a i Hlt) as [x Ex]. rewrite Ex in Hi.
      rewrite Forall_lookup in Ha. by rewrite (Ha _ _ Ex) in Hi.
    + destruct (IH (i - length a)%nat) as [H1 H2].
      * unfold starts_at in *. change ((c :: a ++ s) !! S i) with ((a ++ s) !! i) in Hi. by rewrite lookup_app_r in Hi by lia.
      * cbn in Hle. rewrite length_app in Hle. lia.
      * cbn [take drop]. rewrite take_app_ge, drop_app_ge by lia. split; [by eapply utf8_wide|done].
Qed.

Lemma utf8_head s : utf8 s -> starts_at s 0 = true.
Proof.
  destruct 1 as [|c s Hc _|c a s z _ _ _ Hn _ _]; [done|..]; unfold starts_at; cbn; [|by rewrite Hn]. apply negb_true_iff. unfold cont, in_range. apply andb_false_iff. left. apply Z.leb_gt. lia.
Qed.

Lemma back_to_start_spec s h : utf8 s -> (back_to_start s h <= h)%nat /\ starts_at s (back_to_start s h) = true.
Proof.
  intros Hs. induction h as [|h IH]; cbn [back_to_start]; [split; [done|by apply utf8_head]|]. destruct (starts_at s (S h)) eqn:E; [by split|]. destruct IH. split; [lia|done].
Qed.

Lemma on_to_start_spec fuel s i : utf8 s -> (i + fuel = length s)%nat -> (i <= on_to_start fuel s i <= length s)%nat /\ starts_at s (on_to_start fuel s i) = true.
Proof.
  intros Hs. revert i. induction fuel as [|fuel IH]; intros i Hi; cbn [on_to_start].
  - split; [lia|]. unfold starts_at. by rewrite lookup_ge_None_2 by lia.
  - destruct (Nat.ltb_spec 0 i) as [H0|H0]; cbn [andb].
    + destruct (starts_at s i) eqn:E; cbn [negb]; [split; [lia|done]|]. destruct (IH (S i)) as [H1 H2]; [lia|]. split; [lia|done].
    + split; [lia|]. replace i with 0%nat by lia. by apply utf8_head.
Qed.

(** An excerpt is the beginning and the end, with what is left out counted. *)
Lemma excerpt_shape s kept path : let t := ToValidUTF8 s replacement_rune in
  (len t <= kept /\ excerptBytes s kept path = t) \/
  exists a m b, t = a ++ m ++ b /\ excerptBytes s kept path = a ++ omitted_marker (len m) path ++ [newline; newline] ++ b /\
    utf8 a /\ utf8 b /\ len a + len b <= Z.max 0 kept /\ kept < len t.
Proof.
  intros t. unfold excerptBytes. fold t. destruct (Z.leb_spec (len t) kept) as [|Hgt]; [by left|]. right. pose proof (ToValidUTF8_utf8 s) as Hu. fold t in Hu.
  set (k := Z.max 0 kept). set (half := k / 2). assert (0 <= half <= k) as Hh by (subst half; Z.to_euclidean_division_equations; lia). assert (k <= len t) as Hk by (pose proof (len_nonneg t); lia).
  destruct (back_to_start_spec t (Z.to_nat half) Hu) as [H1 H2]. set (head := back_to_start t (Z.to_nat half)) in *.
  destruct (on_to_start_spec (Z.to_nat (k - half)) t (length t - Z.to_nat (k - half)) Hu) as [H3 H4]; [unfold len in *; lia|]. set (st := on_to_start _ t _) in *.
  assert (head <= st)%nat as Hle by (unfold len in *; lia). exists (take head t), (take (st - head) (drop head t)), (drop st t). split_and!.
  - rewrite <- (take_drop head t) at 1. f_equal. rewrite <- (take_drop (st - head) (drop head t)) at 1. f_equal. rewrite drop_drop. f_equal. lia.
  - do 2 f_equal. f_equal. unfold len. rewrite length_take, length_drop. lia.
  - apply utf8_cut; [done..|lia].
  - apply utf8_cut; [done..|lia].
  - unfold len. rewrite length_take, length_drop. unfold len in *. lia.
  - lia.
Qed.

(** *** Fitting *)

Lemma search_best_spec {A} fuel (candidate : Z -> A) fits low high best :
  search_best fuel candidate fits low high best = best \/
  exists k, low <= k <= high /\ search_best fuel candidate fits low high best = candidate k /\ fits (candidate k) = true.
Proof.
  revert low high best. induction fuel as [|fuel IH]; intros low high best; cbn [search_best]; [by left|]. destruct (Z.leb_spec low high); [|by left].
  set (middle := low + (high - low) / 2). assert (low <= middle <= high) as Hm by (subst middle; Z.to_euclidean_division_equations; lia). destruct (fits (candidate middle)) eqn:Ef.
  - destruct (IH (middle + 1) high (candidate middle)) as [->|(k & Hk & E & Hf)]; right; [by exists middle|]. exists k. split; [lia|done].
  - destruct (IH low (middle - 1) best) as [->|(k & Hk & E & Hf)]; [by left|right]. exists k. split; [lia|done].
Qed.

Section Fitting.
Context {tokenizer : Tokenizer}.

(** An excerpt of at most so many bytes that fits, or the shortest. *)
Lemma fitExcerptBytes_spec s path maxTokens maxBytes : exists k, 0 <= k <= Z.max 0 (Z.min (len s) maxBytes) /\ fitExcerptBytes s path maxTokens maxBytes = excerptBytes s k path /\
  (in_budget maxTokens (excerptBytes s k path) = true \/ k = 0).
Proof.
  unfold fitExcerptBytes. set (high := Z.min (len s) maxBytes). destruct ((0 <=? high) && in_budget maxTokens (excerptBytes s high path)) eqn:E.
  - apply andb_true_iff in E as [H1%Z.leb_le H2]. exists high. split; [lia|]. split; [done|by left].
  - match goal with |- context [search_best ?f ?c ?ft ?l ?h ?b] => destruct (search_best_spec f c ft l h b) as [->|(k & Hk & -> & Hf)] end.
    + exists 0. split; [lia|]. split; [done|by right].
    + exists k. split; [destruct (Z.leb_spec 0 high); lia|]. split; [done|by left].
Qed.
End Fitting.

(** *** A string written and read again *)

Lemma ascii_written c r : code c < 128 -> spelled r (json_char (code c, [c])) [c] /\ opens (json_char (code c, [c]) ++ r).
Proof.
  assert (forall u h, length h = 4%nat -> hex4 h = Some (u, []) -> 0 <= u < 128 -> spelled r (byte 92 :: byte 117 :: h) (encode_rune u)) as Hhex.
  { intros u h Hl Hh Hu. pose proof (sp_hex r (byte 92) (byte 117) h u eq_refl eq_refl Hl Hh) as Hs. unfold in_range in Hs.
    replace (0xD800 <=? u) with false in Hs by (symmetry; apply Z.leb_gt; lia). cbn [andb] in Hs. by apply Hs. }
  intros Hc. destruct c as [[] [] [] [] [] [] [] []]; try (by vm_compute in Hc); (split; [|by vm_compute]);
    first [by apply sp_plain; vm_compute | by apply (sp_simple r (byte 92)) | match goal with |- spelled _ (json_char (?z, _)) _ => let u := eval vm_compute in z in
      let h := eval vm_compute in (drop 2 (json_char (z, []))) in apply (Hhex u h); vm_compute; done end].
Qed.

Lemma wide_written c a z r : 128 <= code c -> Forall (fun x => cont x = true) a -> (1 <= length a <= 3)%nat -> (forall r, decode_rune (c :: a ++ r) = (z, S (length a))) -> 128 <= z ->
  spelled r (json_char (z, c :: a)) (encode_rune z) /\ opens (json_char (z, c :: a) ++ r).
Proof.
  intros Hc Ha Hl Hd Hz. unfold json_char.
  repeat match goal with |- context [if (z =? ?n) || (z =? ?m) then _ else _] => replace ((z =? n) || (z =? m)) with false by (symmetry; apply orb_false_iff; split; apply Z.eqb_neq; lia) end.
  destruct (Z.eqb_spec z 34), (Z.eqb_spec z 92), (Z.eqb_spec z 8), (Z.eqb_spec z 12), (Z.eqb_spec z 10), (Z.eqb_spec z 13), (Z.eqb_spec z 9), (Z.ltb_spec z 32), (Z.eqb_spec z 60), (Z.eqb_spec z 62), (Z.eqb_spec z 38); try lia. cbn [orb].
  assert (len (c :: a) =? 1 = false) as -> by (apply Z.eqb_neq; unfold len; cbn [length]; lia). rewrite andb_false_r.
  destruct (Z.eqb_spec z 0x2028) as [->|]; [split; [|by vm_compute]|destruct (Z.eqb_spec z 0x2029) as [->|]; [split; [|by vm_compute]|split; [apply sp_rune; done || lia|cbn; lia]]].
  - by apply (sp_hex r (byte 92) (byte 117) (lit "2028") 0x2028).
  - by apply (sp_hex r (byte 92) (byte 117) (lit "2029") 0x2029).
Qed.

Ltac div_lia := Z.to_euclidean_division_equations; lia.

(** Comparisons that arithmetic decides. *)
Ltac compare_lia :=
  repeat match goal with
  | |- context [?a <=? ?b] => first [replace (a <=? b) with true by (symmetry; apply Z.leb_le; div_lia) | replace (a <=? b) with false by (symmetry; apply Z.leb_gt; div_lia)]
  | |- context [?a <? ?b] => first [replace (a <? b) with true by (symmetry; apply Z.ltb_lt; div_lia) | replace (a <? b) with false by (symmetry; apply Z.ltb_ge; div_lia)]
  | |- context [?a =? ?b] => first [replace (a =? b) with true by (symmetry; apply Z.eqb_eq; div_lia) | replace (a =? b) with false by (symmetry; apply Z.eqb_neq; div_lia)]
  end.

Definition scalar_value (z : Z) : Prop := 0 <= z <= 0x10FFFF /\ ~ 0xD800 <= z <= 0xDFFF.

Lemma encode_scalar z : exists y, scalar_value y /\ encode_rune z = encode_rune y.
Proof.
  destruct ((z <? 0) || in_range 0xD800 0xDFFF z || (0x10FFFF <? z)) eqn:E.
  - exists rune_error. split; [unfold scalar_value, rune_error; lia|]. unfold encode_rune at 1. rewrite E. reflexivity.
  - exists z. split; [|done]. unfold in_range in E. rewrite !orb_false_iff, andb_false_iff, Z.ltb_ge, Z.ltb_ge, !Z.leb_gt in E. unfold scalar_value. lia.
Qed.

Lemma encode_wide y : scalar_value y -> 128 <= y -> exists c a, encode_rune y = c :: a /\ Forall (fun x => cont x = true) a /\ (1 <= length a <= 3)%nat /\ 128 <= code c /\
  forall r, decode_rune (c :: a ++ r) = (y, S (length a)).
Proof.
  intros [Hy Hs] Hw. unfold encode_rune. assert ((y <? 0) || in_range 0xD800 0xDFFF y || (0x10FFFF <? y) = false) as ->.
  { unfold in_range. rewrite !orb_false_iff, andb_false_iff, Z.ltb_ge, Z.ltb_ge, !Z.leb_gt. lia. }
  assert (forall b, in_range 0 63 b = true -> cont (byte (0x80 + b)) = true) as Hcont.
  { unfold in_range, cont. intros b [H1%Z.leb_le H2%Z.leb_le]%andb_true_iff. rewrite byte_code by lia. unfold in_range. by compare_lia. }
  destruct (Z.ltb_spec y 0x80); [lia|]. destruct (Z.ltb_spec y 0x800); [|destruct (Z.ltb_spec y 0x10000)]; (eexists _, _; split; [done|]);
    (split; [repeat (constructor; [apply Hcont; unfold in_range; by compare_lia|]); constructor|]); (split; [cbn; lia|]); (split; [rewrite byte_code by div_lia; div_lia|]);
    intros r; unfold decode_rune; cbn [app length]; unfold cont, in_range; rewrite !byte_code by div_lia; compare_lia; cbn [andb].
  - f_equal. div_lia.
  - destruct (Z.eqb_spec (0xE0 + y / 4096) 0xE0), (Z.eqb_spec (0xE0 + y / 4096) 0xED); compare_lia; cbn [andb]; f_equal; div_lia.
  - destruct (Z.eqb_spec (0xF0 + y / 262144) 0xF0), (Z.eqb_spec (0xF0 + y / 262144) 0xF4); compare_lia; cbn [andb]; f_equal; div_lia.
Qed.

Lemma encode_narrow y : scalar_value y -> y < 128 -> encode_rune y = [byte y] /\ code (byte y) = y.
Proof. intros [Hy _] Hw. assert (code (byte y) = y) as E by (apply byte_code; lia). split; [|done]. rewrite <- E at 1. apply encode_ascii. lia. Qed.

(** Text that was decoded. *)
Definition spoken (t : text) : Prop := exists ys, Forall scalar_value ys /\ t = concat (encode_rune <$> ys).

Lemma spoken_nil : spoken [].
Proof. by exists []. Qed.

Lemma spoken_rune y t : spoken t -> spoken (encode_rune y ++ t).
Proof. intros (ys & H & ->). destruct (encode_scalar y) as (z & Hz & ->). exists (z :: ys). split; [by constructor|done]. Qed.

Lemma runes_encode y s : scalar_value y -> runes (encode_rune y ++ s) = (y, encode_rune y) :: runes s.
Proof.
  intros Hy. unfold runes. destruct (decide (y < 128)) as [Hlt|Hge].
  - destruct (encode_narrow y Hy Hlt) as [-> E]. cbn [app length runes_fuel]. unfold decode_rune. by rewrite E, (proj2 (Z.ltb_lt y 0x80)) by done.
  - destruct (encode_wide y Hy ltac:(lia)) as (c & a & -> & Ha & Hl & Hc & Hd). cbn [app length runes_fuel]. rewrite Hd. cbn [take drop]. rewrite take_app_length, drop_app_length. f_equal.
    assert (forall n m s, (length s <= n)%nat -> (length s <= m)%nat -> runes_fuel n s = runes_fuel m s) as Hfuel.
    { clear. induction n as [|n IH]; intros m s Hn Hm; [by destruct s, m; cbn in *; try lia|]. destruct s as [|c s]; [by destruct m|]. destruct m as [|m]; [cbn in *; lia|]. cbn [runes_fuel].
      pose proof (decode_rune_width c s) as Hw. destruct (decode_rune (c :: s)) as [z k]. cbn [snd] in Hw. f_equal. apply IH; rewrite length_drop; cbn in *; lia. }
    apply Hfuel; rewrite ?length_app; lia.
Qed.

Lemma unit_spoken s x r : unit s = Some (x, r) -> exists y, x = encode_rune y.
Proof.
  unfold unit. destruct s as [|c s]; [done|]. destruct (code c =? 92).
  - destruct s as [|d s]; [done|]. destruct (code d =? 117).
    + destruct (hex4 s) as [[u s']|]; [cbn|done]. destruct (escaped_rune u s') as [z s'']. intros [= <- _]. by exists z.
    + destruct (simple_escape d) as [y|] eqn:E; [|done]. intros [= <- _]. exists (code y). assert (code y < 128) as Hy.
      { unfold simple_escape in E. destruct ((code d =? 34) || (code d =? 92) || (code d =? 47)) eqn:Ed; [injection E as <-; rewrite !orb_true_iff, !Z.eqb_eq in Ed; lia|].
        do 5 (match type of E with (if ?b then _ else _) = _ => destruct b end; [injection E as <-; vm_compute; done|]). done. }
      by rewrite encode_ascii.
  - destruct (code c <? 32); [done|]. destruct (decode_rune (c :: s)) as [z n]. intros [= <- _]. by exists z.
Qed.

Lemma string_body_spoken f s x r : string_body f s = Some (x, r) -> spoken x.
Proof.
  revert s x r. induction f as [|f IH]; intros s x r; [done|]. destruct s as [|c s]; [done|]. cbn [string_body]. destruct (code c =? 34); [intros [= <- _]; apply spoken_nil|].
  destruct (unit (c :: s)) as [[u s']|] eqn:E; [cbn|done]. destruct (string_body f s') as [[l s'']|] eqn:El; [cbn|done]. intros [= <- _]. apply unit_spoken in E as [y ->]. apply spoken_rune. eapply IH. exact El.
Qed.

Lemma document_spoken b f d s x r : document b f d s = Some (JString x, r) -> spoken x.
Proof.
  destruct f as [|f]; [done|]. cbn [document]. destruct (next_byte s) as [[c s']|]; [cbn|done]. destruct (c =? 34).
  - destruct (string_body _ s') as [[y t]|] eqn:E; [cbn|done]. intros [= <- _]. by eapply string_body_spoken.
  - destruct (c =? 123).
    { destruct (maxNestingDepth <=? d); [done|]. destruct (next_byte s') as [[c2 s2]|]; [cbn|done]. destruct (c2 =? 125); [done|]. by destruct (Json.members b f (d + 1) s') as [[? ?]|]. }
    destruct (c =? 91).
    { destruct (maxNestingDepth <=? d); [done|]. destruct (next_byte s') as [[c2 s2]|]; [cbn|done]. destruct (c2 =? 93); [by destruct (b || _)|]. by destruct (Json.elements b f (d + 1) s') as [[? ?]|]. }
    unfold scalar. destruct (has_prefix _ _); [done|]. destruct (has_prefix _ _); [done|]. destruct (has_prefix _ _); [done|]. by destruct (number _) as [[? ?]|].
Qed.

Lemma Unmarshal_spoken raw x : Unmarshal raw = Some (JString x) -> spoken x.
Proof.
  unfold Unmarshal, whole_document. destruct (document true (S (length raw)) 0 raw) as [[v r]|] eqn:E; [cbn|done]. destruct (skip_blank r); [|done]. intros [= ->]. by eapply document_spoken.
Qed.

Lemma written_reads ys q : Forall scalar_value ys -> is_quote q -> reads (concat (map json_char (runes (concat (encode_rune <$> ys)))) ++ [q]) (concat (encode_rune <$> ys)).
Proof.
  intros H Hq. induction H as [|y ys Hy _ IH]; [by apply reads_quote|]. cbn [fmap list_fmap concat]. rewrite runes_encode by done. cbn [map concat]. rewrite <- app_assoc.
  set (rest := concat (map json_char (runes _)) ++ [q]) in *.
  assert (spelled rest (json_char (y, encode_rune y)) (encode_rune y) /\ opens (json_char (y, encode_rune y) ++ rest)) as [Hs Ho].
  { destruct (decide (y < 128)) as [Hlt|Hge].
    - destruct (encode_narrow y Hy Hlt) as [-> E]. rewrite <- E. rewrite code_byte. apply ascii_written. lia.
    - destruct (encode_wide y Hy ltac:(lia)) as (c & a & E & Ha & Hl & Hc & Hd). rewrite E at 1 3. apply (wide_written c a y rest); done || lia. }
  eapply reads_unit; [exact Ho| |exact IH]. eapply unit_follows; [exact Hs|]. apply follows_refl.
Qed.

Lemma json_string_read x : spoken x -> Unmarshal (json_string (String.string_of_list_ascii x)) = Some (JString x).
Proof.
  intros (ys & H & ->). unfold json_string, lit. rewrite String.list_ascii_of_string_of_list_ascii. apply (unmarshal_literal _ _ (byte 34)); [done|]. by apply written_reads.
Qed.

(** *** A value stays what it is *)

(** What a value is, however it is kept. *)
Definition meaning (st : values_state) (v : scopeValue) : option json := raw ← valueBytes st v; Unmarshal raw.

(** The same value, but for [null], which a file keeps as an empty string. *)
Definition same_value (a b : json) : Prop := b = a \/ a = JNull /\ b = JString [].

Definition keeps (st st' : values_state) : Prop :=
  forall item v j, value_at (va_scopes st) item = Some v -> meaning st v = Some j -> exists v' j', value_at (va_scopes st') item = Some v' /\ meaning st' v' = Some j' /\ same_value j j'.

Lemma keeps_refl st : keeps st st.
Proof. intros item v j Hv Hm. exists v, j. split_and!; [done..|by left]. Qed.

Lemma keeps_trans a b c : keeps a b -> keeps b c -> keeps a c.
Proof.
  intros H1 H2 item v j Hv Hm. destruct (H1 _ _ _ Hv Hm) as (v1 & j1 & Hv1 & Hm1 & Hs1). destruct (H2 _ _ _ Hv1 Hm1) as (v2 & j2 & Hv2 & Hm2 & Hs2). exists v2, j2. split_and!; [done..|].
  unfold same_value in *. naive_solver.
Qed.

Definition grows (st st' : values_state) : Prop := va_scopes st' = va_scopes st /\ va_files st ⊆ va_files st'.

Lemma meaning_grows st st' v j : va_files st ⊆ va_files st' -> meaning st v = Some j -> meaning st' v = Some j.
Proof.
  intros Hf. unfold meaning, valueBytes. destruct v as [raw|d]; [done|]. destruct (va_files st !! af_file d) as [data|] eqn:E; [|done]. by rewrite (lookup_weaken _ _ _ _ E Hf).
Qed.

Lemma grows_keeps st st' : grows st st' -> keeps st st'.
Proof. intros [Hs Hf] item v j Hv Hm. exists v, j. rewrite Hs. split_and!; [done|by eapply meaning_grows|by left]. Qed.

Section Keeping.
Context {tokenizer : Tokenizer} {files : Files}.

Lemma writeArtifact_spec relative data t shown st d st' : writeArtifact relative data t shown st = Some (d, st') ->
  grows st st' /\ va_files st' !! af_file d = Some data /\ af_text d = t.
Proof.
  unfold writeArtifact. destruct (artifactName relative); [cbn|done]. destruct (written _ && _) eqn:E; [|done]. intros [= <- <-]. apply andb_true_iff in E as [_ E%negb_true_iff%bool_decide_eq_false].
  split_and!; [split; [done|]|by cbn; rewrite lookup_insert_eq|done]. cbn. apply insert_subseteq. by apply eq_None_not_Some.
Qed.

Lemma writeContentArtifact_grows kind s st d st' : writeContentArtifact kind s st = Some (d, st') -> grows st st'.
Proof.
  unfold writeContentArtifact. destruct (artifactName _); [cbn|done]. destruct (va_files st !! _); [intros [= _ <-]; by split|]. by intros [? _]%writeArtifact_spec.
Qed.

Lemma spill_meaning scope key raw st d st' j : spill scope key raw st = Some (d, st') -> Unmarshal raw = Some j ->
  grows st st' /\ exists j', meaning st' (Artifact d) = Some j' /\ j' = match j with JNull => JString [] | _ => j end.
Proof.
  unfold spill, Unmarshal_string. intros H Hj. rewrite Hj in H. cbn [mbind option_bind] in H.
  assert (forall x, spoken x -> forall d st', writeArtifact (value_file scope key (lit ".txt")) x true x st = Some (d, st') -> grows st st' /\ meaning st' (Artifact d) = Some (JString x)) as Htext.
  { clear. intros x Hx d st' (Hg & Hf & Ht)%writeArtifact_spec. split; [done|]. unfold meaning, valueBytes. rewrite Hf. cbn [mbind option_bind]. rewrite Ht. by apply json_string_read. }
  destruct j; try (apply writeArtifact_spec in H as (Hg & Hf & Ht); split; [done|]; unfold meaning, valueBytes; rewrite Hf; cbn [mbind option_bind]; rewrite Ht; cbn [mbind option_bind]; by eexists).
  apply Htext in H as [? ?]; [by eauto|]. by eapply Unmarshal_spoken.
Qed.

Lemma ensureArtifact_keeps item st st' : ensureArtifact item st = Some st' -> keeps st st'.
Proof.
  unfold ensureArtifact. destruct (va_scopes st !! item.1) as [c|] eqn:Ec; [cbn|done]. destruct (vs_values c !! item.2) as [v|] eqn:Ev; [cbn|done]. destruct v as [raw|d]; [|intros [= <-]; apply keeps_refl].
  destruct (spill (vs_key c) item.2 raw st) as [[d st1]|] eqn:Es; [cbn|done]. intros [= <-]. intros item' v j Hv Hm.
  assert (grows st st1) as Hg by (unfold spill in Es; destruct (Unmarshal_string raw); by apply writeArtifact_spec in Es as [? _]). destruct Hg as [Hsc Hf].
  unfold value_at in *. cbn [va_scopes announce_value with_scope]. rewrite Hsc. destruct (decide (item'.1 = item.1)) as [E1|E1].
  - rewrite E1 in *. rewrite list_lookup_alter_eq, Ec. rewrite Ec in Hv. cbn [mbind option_bind fmap option_fmap option_map put_value vs_values] in *. destruct (decide (item'.2 = item.2)) as [E2|E2].
    + rewrite E2 in *. rewrite lookup_insert_eq. rewrite Ev in Hv. injection Hv as <-. cbn in Hm. destruct (spill_meaning _ _ _ _ _ _ _ Es Hm) as (_ & j' & Hj' & E).
      exists (Artifact d), j'. split_and!; [done|exact Hj'|]. subst j'. destruct j; try (by left); by right.
    + rewrite lookup_insert_ne by done. exists v, j. split_and!; [done|by eapply (meaning_grows st st1)|by left].
  - rewrite list_lookup_alter_ne by done. exists v, j. split_and!; [done|by eapply (meaning_grows st st1)|by left].
Qed.

Lemma ensure_all_keeps items st st' : ensure_all items st = Some st' -> keeps st st'.
Proof.
  revert st. induction items as [|item items IH]; intros st; cbn [ensure_all]; [intros [= <-]; apply keeps_refl|]. destruct (ensureArtifact item st) as [st1|] eqn:E; [cbn|done].
  intros H. eapply keeps_trans; [by eapply ensureArtifact_keeps|by apply IH].
Qed.

(** A key is set once in a scope, and has a value. *)
Definition set_once (c : valueScope) : Prop := NoDup (vs_keys c) /\ forall key, key ∈ vs_keys c -> is_Some (vs_values c !! key).

Lemma set_once_keys scopes : Forall set_once scopes -> Forall (fun c => NoDup (vs_keys c)) scopes.
Proof. intros H. eapply Forall_impl; [exact H|]. by intros c [? _]. Qed.

Lemma put_value_once key v c : set_once c -> set_once (put_value key v c).
Proof.
  intros [Hn Hk]. split; [done|]. intros key' H. cbn in *. destruct (decide (key = key')) as [->|]; [rewrite lookup_insert_eq; by eexists|rewrite lookup_insert_ne by done; by apply Hk].
Qed.

Lemma add_key_once key v c : set_once c -> vs_values c !! key = None -> set_once (add_key key (put_value key v c)).
Proof.
  intros [Hn Hk] Hnone. split; cbn.
  - apply NoDup_app. split_and!; [done| |apply NoDup_singleton]. intros x Hx ->%list_elem_of_singleton. apply Hk in Hx as [v' Hv']. by rewrite Hv' in Hnone.
  - intros x [Hx|Hx]%elem_of_app; [|apply list_elem_of_singleton in Hx as ->; rewrite lookup_insert_eq; by eexists]. destruct (decide (key = x)) as [->|]; [rewrite lookup_insert_eq; by eexists|rewrite lookup_insert_ne by done; by apply Hk].
Qed.

Lemma spill_scopes scope key raw st d st' : spill scope key raw st = Some (d, st') -> va_scopes st' = va_scopes st.
Proof. unfold spill. destruct (Unmarshal_string raw); by intros [[? _] _]%writeArtifact_spec. Qed.

(** Setting a value keeps this, and so does moving one to a file. *)
Lemma store_value_once key raw st st' : Forall set_once (va_scopes st) -> store_value key raw st = Some st' -> Forall set_once (va_scopes st').
Proof.
  intros H. unfold store_value. destruct (va_scopes st) as [|c scopes] eqn:Es; [done|]. cbn [lookup list_lookup mbind option_bind]. destruct (vs_ended c || _) eqn:E; [done|]. apply orb_false_iff in E as [_ E%bool_decide_eq_false%eq_None_not_Some]. apply Forall_cons in H as [Hc H].
  assert (forall v st1, va_scopes st1 = c :: scopes -> Forall set_once (va_scopes (with_scope 0 (fun c => add_key key (put_value key v c)) st1))) as Hw by (intros v st1 E1; cbn; rewrite E1; constructor; [by apply add_key_once|done]).
  destruct (contextEntryTokenLimit <? _); [|cbn; intros [= <-]; by apply (Hw (Inline raw) st)]. destruct (spill _ _ _ _) as [[d st1]|] eqn:Ed; [cbn [mbind option_bind]|done]. intros [= <-]. apply (Hw (Artifact d) st1). apply spill_scopes in Ed. congruence.
Qed.

Lemma ensureArtifact_once item st st' : Forall set_once (va_scopes st) -> ensureArtifact item st = Some st' -> Forall set_once (va_scopes st').
Proof.
  intros H. unfold ensureArtifact. destruct (va_scopes st !! item.1) as [c|]; [cbn|done]. destruct (vs_values c !! item.2) as [[raw|d]|]; [cbn|by intros [= <-]|done].
  destruct (spill _ _ _ _) as [[d st1]|] eqn:Ed; [cbn|done]. intros [= <-]. cbn. rewrite (spill_scopes _ _ _ _ _ _ Ed). apply Forall_alter; [done|]. intros ? _. apply put_value_once.
Qed.

(** A text that holds another. *)
Definition shows (s x : text) : Prop := exists a b, s = a ++ x ++ b.

Lemma holds_refl s : shows s s.
Proof. exists [], []. by rewrite app_nil_r. Qed.

Lemma holds_trans a b c : shows a b -> shows b c -> shows a c.
Proof. intros (x & y & ->) (u & v & ->). exists (x ++ u), (v ++ y). by rewrite <- !app_assoc. Qed.

Lemma holds_empty s : shows s [].
Proof. by exists [], s. Qed.

Lemma join_holds sep l : Forall (shows (join sep l)) l.
Proof.
  induction l as [|x l IH]; [done|]. destruct l as [|y l]; [constructor; [by apply holds_refl|done]|]. cbn [join] in *. constructor; [by exists [], (sep ++ join sep (y :: l))|].
  eapply Forall_impl; [exact IH|]. intros z Hz. eapply holds_trans; [|exact Hz]. exists (x ++ sep), []. by rewrite app_nil_r, <- app_assoc.
Qed.

Lemma complete_section_holds key raw v shown : complete_section key raw v shown = true -> shows shown (render raw).
Proof.
  unfold complete_section, section_of. intros [H|H]%orb_true_iff.
  - apply bool_decide_eq_true in H as ->. exists (lit "## " ++ key ++ [newline; newline]), []. by rewrite app_nil_r, <- !app_assoc.
  - destruct v as [r|d]; [done|]. apply orb_true_iff in H as [H|[_ H]%andb_true_iff]; apply bool_decide_eq_true in H as ->.
    + exists (lit "## " ++ key ++ [newline; newline]), ([newline; newline] ++ complete_line (artifactAbsolute d)). by rewrite <- !app_assoc.
    + exists (lit "## " ++ key ++ [newline; newline] ++ json_prefix), ([newline; newline] ++ complete_line (artifactAbsolute d)). by rewrite <- !app_assoc.
Qed.

Lemma entries_spec s st items sections entries : (forall l, sections = Some l -> Forall (shows s) l) -> defaultContextEntries st items sections = Some entries ->
  Forall2 (fun item e => ce_key e = item.2 /\ (ce_complete e = true -> exists v raw, value_at (va_scopes st) item = Some v /\ valueBytes st v = Some raw /\ shows s (render raw))) items entries.
Proof.
  revert sections entries. induction items as [|item items IH]; intros sections entries Hl; cbn [defaultContextEntries]; [by intros [= <-]|].
  assert (forall l, tail <$> sections = Some l -> Forall (shows s) l) as Ht by (destruct sections as [[|x l]|]; [..|done]; intros ? [= <-]; [done|]; specialize (Hl _ eq_refl); by apply Forall_cons in Hl as [_ ?]).
  destruct sections as [l|]; cbn [mbind option_bind].
  - destruct (value_at _ _) as [v|] eqn:Ev; [cbn [mbind option_bind]|done]. destruct (valueBytes st v) as [raw|] eqn:Er; [cbn [mbind option_bind]|done]. destruct (defaultContextEntries _ _ _) as [rest|] eqn:Ed; [cbn|done]. intros [= <-].
    constructor; [|by eapply IH]. cbn. split; [done|]. intros Hc%complete_section_holds. exists v, raw. split_and!; [done..|]. eapply holds_trans; [|exact Hc]. destruct l as [|x l]; [apply holds_empty|].
    specialize (Hl _ eq_refl). by apply Forall_cons in Hl as [? _].
  - destruct (defaultContextEntries _ _ _) as [rest|] eqn:Ed; [cbn|done]. intros [= <-]. constructor; [by split|by eapply IH].
Qed.

Lemma scope_render_spec st s sections st' : scope_render st = Some (s, sections, st') ->
  (s = [] \/ in_budget contextTokenLimit s = true \/ exists path, s = excerptBytes (index_text st' (visibleValues (va_scopes st))) 0 path) /\ keeps st st' /\
  (forall l, sections = Some l -> Forall (shows s) l).
Proof.
  assert (forall l s, s = joined_sections l -> forall l', Some l = Some l' -> Forall (shows s) l') as Hj by (intros l ? -> l' [= <-]; apply join_holds).
  unfold scope_render. destruct (visibleValues (va_scopes st)) as [|i0 items0]; [intros [= <- <- <-]; split_and!; [by left|apply keeps_refl|by apply Hj]|]. set (items := i0 :: items0).
  destruct (in_budget _ _) eqn:E1; [intros [= <- <- <-]; split_and!; [by right; left|apply keeps_refl|by apply Hj]|]. destruct (ensure_all items st) as [st1|] eqn:Ee; [cbn [mbind option_bind]|done]. apply ensure_all_keeps in Ee.
  match goal with |- context [if in_budget _ (joined_sections ?x) then _ else _] => destruct (in_budget contextTokenLimit (joined_sections x)) eqn:E2 end; [intros [= <- <- <-]; split_and!; [by right; left|done|by apply Hj]|].
  destruct (writeContentArtifact _ _ st1) as [[d st2]|] eqn:Ew; [cbn [mbind option_bind]|done]. intros [= <- <- <-]. pose proof (writeContentArtifact_grows _ _ _ _ _ Ew) as Hg. split_and!; [|by eapply keeps_trans, grows_keeps|done].
  assert (index_text st2 items = index_text st1 items) as -> by (unfold index_text; by rewrite (proj1 Hg)). unfold fitExcerpt. destruct (in_budget contextTokenLimit (index_text st1 items)) eqn:E3; [by right; left|].
  destruct (fitExcerptBytes_spec (index_text st1 items) (artifactAbsolute d) contextTokenLimit artifactPreviewBytes) as (k & _ & -> & [Hf| ->]); [by right; left|right; right; by eexists].
Qed.
End Keeping.

(** ** Properties *)

(** C28: a prompt sees each key once, with the value of the nearest scope that
    set it, the values of the outermost scope first and within a scope in the
    order they were set. *)
Theorem nearest_values_visible scopes : Forall set_once scopes -> visibleValues scopes = nearest scopes.
Proof.
  intros Hn%set_once_keys. unfold visibleValues, nearest. apply (visible_from_nearest scopes [] scopes []); [done|done|]. intros key. rewrite elem_of_nil. split; [done|]. by intros (c & Hc%not_elem_of_nil & _).
Qed.

(** C27: what a prompt shows of the values fits the budget of tokens; failing
    that, it is the shortest excerpt of an index of the values that can be
    made.  Rendering may move values to files, and every value stays what it
    was; only null becomes an empty string. *)
Theorem prompt_within_budget {tokenizer : Tokenizer} {files : Files} st s entries st' : scopeTextAndContext st = Some (s, entries, st') ->
  (s = [] \/ in_budget contextTokenLimit s = true \/ exists path, s = excerptBytes (index_text st' (visibleValues (va_scopes st))) 0 path) /\ keeps st st'.
Proof.
  unfold scopeTextAndContext. destruct (scope_render st) as [[[x sections] st1]|] eqn:E; [cbn|done]. destruct (defaultContextEntries _ _ _); [cbn|done]. intros [= <- <- <-]. by apply scope_render_spec in E as (H & Hk & _).
Qed.

(** Every visible value has an entry in the context, in the same order, and
    where it is marked complete the prompt holds the whole rendering of it. *)
Theorem complete_values_shown {tokenizer : Tokenizer} {files : Files} st s entries st' : scopeTextAndContext st = Some (s, entries, st') ->
  Forall2 (fun item e => ce_key e = item.2 /\ (ce_complete e = true -> exists v raw, value_at (va_scopes st') item = Some v /\ valueBytes st' v = Some raw /\ shows s (render raw)))
    (visibleValues (va_scopes st)) entries.
Proof.
  unfold scopeTextAndContext. destruct (scope_render st) as [[[x sections] st1]|] eqn:E; [cbn|done]. destruct (defaultContextEntries _ _ _) as [l|] eqn:El; [cbn|done]. intros [= <- <- <-].
  apply scope_render_spec in E as (_ & _ & H). by eapply entries_spec.
Qed.

(** C29: an excerpt is the text itself, made valid, or its beginning and its
    end around a line that tells how many bytes are left out; it cuts no
    character, the bytes of the text it keeps are no more than asked (the line
    comes on top of them), and it fits the budget of tokens unless nothing is
    kept. *)
Theorem excerpt_honest {tokenizer : Tokenizer} s path maxTokens maxBytes :
  let t := ToValidUTF8 s replacement_rune in let r := fitExcerptBytes s path maxTokens maxBytes in let most := Z.max 0 (Z.min (len s) maxBytes) in
  ((r = t /\ len t <= most) \/ exists a m b, t = a ++ m ++ b /\ r = a ++ omitted_marker (len m) path ++ [newline; newline] ++ b /\ utf8 a /\ utf8 b /\ len a + len b <= most) /\
  (in_budget maxTokens r = true \/ r = excerptBytes s 0 path).
Proof.
  intros t r most. destruct (fitExcerptBytes_spec s path maxTokens maxBytes) as (k & Hk & E & Hf). fold r in E. fold most in Hk. rewrite E. split; [|by destruct Hf as [Hf| ->]; [left|right]].
  destruct (excerpt_shape s k path) as [[Hl ->]|(a & m & b & H1 & -> & H3 & H4 & H5 & _)]; [left; split; [done|unfold t; lia]|right; exists a, m, b; split_and!; [done..|lia]].
Qed.

(** C30: the files of different values have different names: a name tells the
    scope, the key and the extension.  Each of its elements is a plain file
    name, whatever the workflow called its scopes and keys. *)
Theorem value_files_apart scope key e scope' key' e' : len scope < 2 ^ 62 -> len key < 2 ^ 62 -> len scope' < 2 ^ 62 -> len key' < 2 ^ 62 -> Separator ∉ e -> Separator ∉ e' ->
  (exists parts, value_file scope key ("." :: e) = join [Separator] parts /\ Forall good parts) /\
  (value_file scope key ("." :: e) = value_file scope' key' ("." :: e') -> scope = scope' /\ key = key' /\ e = e').
Proof.
  intros Hs Hk Hs' Hk' He He'. assert (extension_ok ("." :: e)) as Hx by (by exists e). assert (extension_ok ("." :: e')) as Hx' by (by exists e').
  destruct (writable_part Separator scope Hs) as [Hws _]. destruct (writable_part Separator scope' Hs') as [Hws' _]. destruct (writable_part Separator key Hk) as [_ Hwk]. destruct (writable_part Separator key' Hk') as [_ Hwk'].
  assert (forall s k x, extension_ok x -> Forall good (lit "values" :: path_parts s ++ add_extension x (component_parts k))) as Hgood.
  { intros s k x Hox. constructor; [by apply good_word|]. apply Forall_app. split; [apply path_parts_good|]. apply add_extension_good; [done|apply component_good]. }
  rewrite !value_file_parts by done. split; [eexists; split; [done|by apply Hgood]|]. intros E. apply (f_equal (split_byte Separator)) in E. rewrite !good_split in E by (done || by apply Hgood). injection E as E.
  destruct scope as [|c scope], scope' as [|c' scope']; cbn [path_parts] in E.
  - apply (f_equal (@List.tl text)) in E. cbn [app List.tl] in E. by apply (names_apart [] [] key key' e e') in E as (_ & -> & ->).
  - exfalso. pose proof (split_byte_nonempty Separator (c' :: scope')). destruct (split_byte Separator (c' :: scope')) as [|x l]; [done|]. cbn [fmap list_fmap concat] in E. unfold component_parts at 2 in E. by destruct (_ <=? _).
  - exfalso. pose proof (split_byte_nonempty Separator (c :: scope)). destruct (split_byte Separator (c :: scope)) as [|x l]; [done|]. cbn [fmap list_fmap concat] in E. unfold component_parts at 1 in E. by destruct (_ <=? _).
  - apply names_apart in E as (E & -> & ->); [|done..]. apply (f_equal (join [Separator])) in E. by rewrite !join_split in E.
Qed.

(** ** Witnesses *)

Module Sample.
(** Fifty tokens to a byte, and every write succeeds. *)
#[local] Instance tokenizer : Tokenizer := {| tokenCount s := 50 * len s |}.
#[local] Instance files : Files := {| written _ := true; run_dir := lit "/runs/r1"; digest _ := lit "d1" |}.

Definition quote (s : text) : text := [byte 34] ++ s ++ [byte 34].
Definition empty_state : values_state := MkValues [MkValueScope (lit "task.1") false [] ∅; MkValueScope [] false [lit "goal"; lit "note"] {[lit "goal" := Inline (quote (lit "ship")); lit "note" := Inline (lit "null")]}] ∅ [].
Definition long_text : text := repeat (byte 97) 100.
Definition two_values : values_state := default empty_state (store_value (lit "goal") (quote (lit "test")) empty_state ≫= store_value (lit "log") (quote long_text)).
Definition ensured : values_state := default two_values (ensure_all (visibleValues (va_scopes two_values)) two_values).

(** A value of null that is moved to a file is an empty string afterwards. *)
Example null_lost : (value_at (va_scopes ensured) (1%nat, lit "note") ≫= valueBytes ensured) = Some (quote []). Proof. vm_compute. reflexivity. Qed.

Example spilled : value_at (va_scopes two_values) (0%nat, lit "log") ≫= (fun v => match v with Artifact d => Some (af_file d) | _ => None end) = Some (lit "artifacts/values/x-dGFzay4x/x-bG9n.txt").
Proof. vm_compute. reflexivity. Qed.

Lemma two_values_once : Forall set_once (va_scopes two_values).
Proof.
  assert (Forall set_once (va_scopes empty_state)) as H0.
  { repeat constructor; cbn [vs_keys vs_values]; set_solver. }
  unfold two_values. destruct (store_value (lit "goal") (quote (lit "test")) empty_state) as [st1|] eqn:E1; [|done]. apply store_value_once in E1; [|done]. cbn [mbind option_bind].
  destruct (store_value (lit "log") (quote long_text) st1) as [st2|] eqn:E2; [|done]. by apply store_value_once in E2.
Qed.

Lemma nearest_values_visible_witness : visibleValues (va_scopes two_values) = nearest (va_scopes two_values) /\
  visibleValues (va_scopes two_values) = [(1%nat, lit "note"); (0%nat, lit "goal"); (0%nat, lit "log")].
Proof. split; [|by vm_compute]. apply nearest_values_visible. exact two_values_once. Defined.

Definition shown : text * list ContextEntry * values_state := default ([], [], two_values) (scopeTextAndContext two_values).

Lemma prompt_within_budget_witness : scopeTextAndContext two_values = Some shown /\ ((shown.1.1 = [] \/ in_budget contextTokenLimit shown.1.1 = true \/ exists path, shown.1.1 = excerptBytes (index_text shown.2 (visibleValues (va_scopes two_values))) 0 path) /\ keeps two_values shown.2).
Proof. assert (scopeTextAndContext two_values = Some shown) as E by (vm_compute; reflexivity). split; [exact E|]. apply (prompt_within_budget two_values shown.1.1 shown.1.2 shown.2). exact E. Defined.

Lemma complete_values_shown_witness : scopeTextAndContext two_values = Some shown /\ ce_complete <$> shown.1.2 = [true; true; false] /\
  Forall2 (fun item e => ce_key e = item.2 /\ (ce_complete e = true -> exists v raw, value_at (va_scopes shown.2) item = Some v /\ valueBytes shown.2 v = Some raw /\ shows shown.1.1 (render raw)))
    (visibleValues (va_scopes two_values)) shown.1.2.
Proof. assert (scopeTextAndContext two_values = Some shown) as E by (vm_compute; reflexivity). split; [exact E|]. split; [vm_compute; reflexivity|]. apply (complete_values_shown two_values shown.1.1 shown.1.2 shown.2). exact E. Defined.

Lemma value_files_apart_witness : value_file (lit "a") (lit "b") (lit ".txt") <> value_file (lit "a/b") [] (lit ".txt").
Proof.
  intros E. destruct (value_files_apart (lit "a") (lit "b") (lit "txt") (lit "a/b") [] (lit "txt")) as [_ H]; [by vm_compute..|by apply (bool_decide_unpack _); vm_compute|by apply (bool_decide_unpack _); vm_compute|].
  by apply H in E as [E _].
Defined.
End Sample.
